(* ===== verification/_CoqProject ===== *)
-Q . S2P
Prelude.v
Text.v
Ids.v
External.v
Canonical.v
CanonicalUnique.v
Constraints.v
ConstraintsSpec.v
Schema.v
Verifier.v
Lifecycle.v
Protocol.v
Codec.v
ReplayStore.v
ReplaySpec.v
DemoSerde.v
ReplayDurable.v
Locus.v
Action.v
Runtime.v
StateDir.v
Session.v
SessionSpec.v
Evidence.v
EvidenceGrammar.v
EvidenceStore.v
EvidenceSpec.v
RateLimiter.v
Services.v
ProxyPath.v
Interceptor.v
ProxyServer.v
Bytes.v
Token.v
Dotenv.v
DotenvLines.v
DotenvSpec.v
DotenvEdit.v
Redact.v
Credentials.v
CredentialsSpec.v
Classify.v
Scrubber.v
ScrubberExact.v
ScrubberPartial.v
ScrubberSpec.v
JsonText.v
Approval.v
ApprovalSpec.v
AuditLog.v
AuditSpec.v
Rotation.v
RotationSpec.v
VaultMeta.v
VaultGate.v
VaultData.v
AnchoredFs.v
InitTxn.v
InitTxnFiles.v
InitTxnSecrets.v
InitTxnCommit.v
InitTxnSpec.v
VaultCrypto.v
VaultCryptoSpec.v
FileVault.v
FileVaultSpec.v
DemoVault.v
Keychain.v
KeychainSpec.v
KeychainMigration.v
DemoKeychain.v
HookText.v
Workspace.v
WorkspaceTxn.v
WorkspaceFilesSpec.v
WorkspaceTxnSpec.v
WorkspaceSpec.v
DemoWorkspace.v
WorkspaceRequest.v
WorkspaceRequestSpec.v
