(* ===== verification/Prelude.v ===== *)
(** * Phantom: a verification library for the authority, broker, proxy and vault core

    Phantom keeps credentials out of the hands of coding agents.  Secrets live
    in an encrypted vault; a project's dotenv files hold tokens in their place
    ([phm_...]); a local proxy swaps tokens for secrets on the way to an
    upstream service and scrubs secrets from what comes back; and an authority,
    a broker and a supervised runtime let an agent run closed engineering
    actions under one-use, leased permits.  What happened is written to logs
    that are chained by MACs, and mutating tools wait for a human.  This
    library models the code that decides these things.  Paths below are
    relative to [src/crates].

    ** Conventions

    - Fallible code returns [result T E]; [let?] is Rust's [?] and [fail_if]
      an early [return Err].  Code over a directory, a file system, a vault or
      a storage is written in the monad [io W E T := W → W * result T E] with
      [do?]: the state comes back also with an error, so what happened before
      a failure is visible.
    - A fixed-width integer is an [N] or a [Z].  The release profile has no
      overflow checks: where the code uses a plain operator the wrap-around is
      written out ([wrapping_add_u64] and the like), where it says
      [checked_] or [saturating_] so does the model.
    - Strings and byte buffers are byte strings ([string], or [list ascii]
      where the code walks over slices); a [BTreeMap] and a [HashMap] are
      [gmap]s, iterated in key order where the code does.
    - What is not source of this repository is a class with its documented
      laws: hashes, MACs and serde ([External], [JsonTextLaws]), base64
      ([Base64]), the AEAD and the KDF ([Crypto]); and so is what is the
      operating system's: private directories ([StateDir]), the storage of the
      replay ledger ([ReplayStorage]), capability-relative files
      ([AnchoredFs], [VaultFs]), locks, clocks and randomness.  Operations of
      these classes may fail at every call, also after they took effect where
      the code allows for that.  Each class has a concrete instance that obeys
      its laws, and the witnesses of the theorems run on those.
    - A reading of a clock, random bytes and data of the process are arguments.

    ** The parts, and the files that model them

    - Shared: [Prelude] (monads, integers, lists, ordered sets), [Text]
      (string operations), [Bytes] (slices), [External] (serde and hashes),
      [JsonText] (files of JSON lines), [StateDir] (private directories).
    - Authority ([phantom-authority]): [Ids] (ids.rs), [Canonical] and
      [CanonicalUnique] (canonical.rs), [Constraints] and [ConstraintsSpec]
      (constraints.rs), [Schema] (verbs.rs, schema.rs), [Verifier]
      (verifier.rs).  A verifier turns an intent and an expected subject into
      a grant whose constraints are an intersection.
    - Broker ([phantom-broker]): [Lifecycle] (lifecycle.rs), [Protocol]
      (protocol.rs), [Codec] (codec.rs, transport.rs), [ReplayStore] (lease.rs,
      replay_store.rs), [ReplaySpec], [ReplayDurable] (replay_store.rs).  A grant becomes a lease of the durable ledger, a use
      of a lease a permit.  [DemoSerde] instantiates the stored encoding.
    - Compatibility contract: [Locus] (phantom-locus-contract/src/lib.rs).
    - Runtime ([phantom-runtime]): [Action] (action.rs), [Runtime]
      (runtime.rs, cancellation.rs).  It consumes a permit of the ledger.
    - Session journal: [Session], [SessionSpec] (phantom-session/src/lib.rs).
    - Evidence log: [Evidence], [EvidenceGrammar], [EvidenceStore],
      [EvidenceSpec] (phantom-evidence/src/lib.rs).
    - Proxy ([phantom-proxy]): [RateLimiter] (rate_limiter.rs), [Services]
      (services.rs and the trusted definitions of phantom-core's config.rs),
      [ProxyPath] and [ProxyServer] (server.rs), [Interceptor]
      (interceptor.rs), [Redact] (phantom-core/src/redact/response.rs),
      [Scrubber], [ScrubberExact], [ScrubberPartial], [ScrubberSpec]
      (response_scrubber.rs and the analyzer of interceptor.rs).
    - Dotenv files: [Token] (phantom-core/src/token.rs), [Dotenv],
      [DotenvLines], [DotenvSpec], [DotenvEdit], [Classify]
      (phantom-core/src/dotenv.rs), [Credentials], [CredentialsSpec]
      (phantom-core/src/redact/mod.rs).
    - Human approval: [Approval], [ApprovalSpec]
      (phantom-core/src/mcp_approval.rs).
    - Audit log: [AuditLog], [AuditSpec]
      (phantom-core/src/audit.rs).
    - Rotation: [Rotation], [RotationSpec]
      (phantom-core/src/rotation_strategy.rs, parts of config.rs).
    - Vault ([phantom-vault]): [VaultMeta], [VaultGate] (metadata.rs,
      traits.rs, rotation_gate.rs), [VaultData], [FileVault],
      [FileVaultSpec], [DemoVault] (file.rs), [VaultCrypto],
      [VaultCryptoSpec] (crypto.rs and phantom-core's blob_format.rs),
      [AnchoredFs] (the interface of phantom-core/src/fs/anchored.rs),
      [InitTxn], [InitTxnFiles], [InitTxnSecrets], [InitTxnCommit],
      [InitTxnSpec] (init_transaction.rs), [Keychain],
      [KeychainSpec], [KeychainMigration], [DemoKeychain] (keychain.rs, the
      Linux build).  [VaultBackend] is the trait; its laws ([VaultLaws]) are
      what a transaction is proved against.  They follow from the contract of
      all its methods ([VaultContract]), which the file vault is proved to
      keep.  The keychain vault writes a credential and three sidecars
      with compensations and chooses between two credential stores.
    - Workspace setup ([phantom-workspace]): [HookText]
      (phantom-core/src/precommit_hook.rs, the text of the hook), [Workspace]
      and [WorkspaceSpec] (discovery.rs, plan.rs, capability.rs, lib.rs),
      [WorkspaceTxn] (transaction.rs, the Unix build:
      first what is done relative to a descriptor, then sealing, applying,
      journal and recovery), [WorkspaceFilesSpec] (what each step does to the
      files, whatever fails, and what only reads), [WorkspaceTxnSpec],
      [DemoWorkspace], [WorkspaceRequest] and [WorkspaceRequestSpec]
      (phantom-core/src/workspace_request.rs).  A plan is sealed by a keyed
      digest of what it depends on; the MCP server requests it, the command
      line claims the request and applies the plan, which writes files and
      commits a participant (the vault), or undoes both.

    ** What the theorems show

    - Single use: the public operations of the replay store implement a
      ledger in which an operation of a lease is granted at most once, within
      its budget, and never after a restart, whatever reads and writes fail
      ([durable_permits], [permit_at_most_once], [lease_budget_exact],
      [restart_ends_leases]); a human approval admits one call, the one that
      was reviewed ([approval_authorized], [approval_once]); the store of setup
      requests implements a ledger in which a request is claimed once, for what
      it was created for, and ends once ([requests_refine],
      [request_claimed_once]).
    - Least authority: an intersection permits what both sides permit
      ([intersect_exact], [intersect_valid]); actions are authorized by the
      request they run under ([request_authorized]); a sealed plan is applied
      only to the bytes it was sealed over ([seal_binds_contents]).
    - All or nothing: a transaction over vault entries and files commits or
      undoes everything, writes tokens only when their values are in the vault
      and keeps the protection of copied entries ([commit_init_atomic],
      [tokens_after_entries], [copies_keep_protection]); applying a setup plan
      changes what its receipt says or puts contents and permissions back,
      also over crashes and recoveries from its journal; a mode that changed
      under an unchanged content is the exception ([setup_all_or_nothing],
      [setup_recovered], [unchanged_file_stays_executable]); every method of
      the encrypted file vault does to a map of entries what the trait says,
      whatever fails, and migration loses nothing ([file_vault_refines],
      [migration_lossless]); writes of the keychain
      vault are complete, undone, or name what they could not undo, but for
      the first step of a store ([failed_store_uncompensated]); older entries
      are never lost, and the credential store is switched only over complete copies
      ([keychain_writes_atomic], [legacy_value_never_lost],
      [migration_publishes_complete]).
    - Workspace: the plan covers every dotenv file with secrets
      ([plan_covers_secrets]), remotes are reported without credentials
      ([remote_exact]), the generated files are the ones meant
      ([ignore_rules_exact]), a hook is made current and left alone when it
      is, and one without Phantom's lines keeps all of its own
      ([ensure_ready]).
    - Encodings: decryption accepts exactly the readings of a blob, what was
      encrypted decrypts, the unlock cache changes no result
      ([decrypt_exact], [decrypt_encrypt], [cache_transparent]); canonical
      JSON is unambiguous and the ledger's encoding is read back
      ([canonical_unambiguous], [authenticated_round_trip]).
    - Confinement: a credential reaches only the route that owns it, on
      requests that were authenticated and guarded ([credential_confined],
      [forwarded_authorized]); those that are sent in ten seconds are bounded
      by what is recorded in the window and the time a body may take
      ([forward_rate_bounded]); the streaming scrubber
      equals a scan of the whole response and passes no twelve-byte run of a
      secret ([scrub_stream_exact], [no_secret_run], [scrub_prompt]); spans
      scrubbed from logs cover every credential shape ([log_spans_exact]).
    - Dotenv files without a form feed: rewriting puts tokens exactly in the
      place of secrets and reads back as such, what is left in the file is no
      credential, additions keep the rest ([rewrite_round_trip],
      [rewrite_protects], [upsert_exact]).
    - Logs: a clean audit log consists of signed events that follow one
      another up to the checkpoint, and what required writes report is there
      ([clean_log_genuine], [required_log_faithful]);
      the session journal and the evidence log stay on their course
      ([session_on_course], [finalized_log_exact], [append_atomic],
      [append_overflow_bricks]); the request lifecycle ends
      ([lifecycle_terminates]).
    - Rotation: a secret is due exactly when a slot has passed, the next
      rotation is the first slot to come, and the gate in front of every path
      that hands a value out opens exactly inside the window
      ([should_rotate_exact], [next_rotation_least], [gate_open_exact]).

    Places where the code does not do what it means to do, or not what a
    comment says, are lemmas beside the theorems: [quoted_seq_escapes],
    [marker_lost], [stray_bytes_reset_chain], [cut_before_write_unnoticed],
    [failed_read_restarts_chain] ([AuditSpec]), [failed_store_uncompensated]
    ([DemoKeychain]), [sendgrid_retained] ([ScrubberSpec]),
    [unparsable_params_hash] ([ApprovalSpec]), [form_feed_joins_comment]
    ([DotenvSpec]), [bearer_hidden] ([CredentialsSpec]), [rate_limit_wraps]
    ([RateLimiter]), [double_failure_loses_entries] ([InitTxnSpec]),
    [first_write_after_repair_fails] ([DemoVault]), [boundary_at_now],
    [unchecked_hour_always_due], [weekly_wraps_at_epoch] ([RotationSpec]),
    [restore_stops_at_unmade_parent], [recovery_stops_at_unmade_parent],
    [root_check_keeps_participant_prepared],
    [unchanged_file_stays_executable] ([DemoWorkspace]),
    [lines_before_end_marker_lost] ([HookText]) and others named in the files.

    ** Fuel

    Recursion that is not structural carries fuel, which is shown or plainly
    seen to be enough: the streaming scrubber's [drain_loop] has the number of
    pending bytes (every round consumes one), the dotenv [parse_loop] and the
    shape scan [matches_from] the length of their input (every step consumes a
    byte), lossy UTF-8 decoding the number of bytes, the loop of the hook
    ([preserved_lines]) the number of lines, and [draw_nonce] the
    number of drawn nonces it may meet again (termination is a theorem of
    [ApprovalSpec]).

    ** Not modelled

    The command line, the MCP server's dispatch, the desktop and web
    interfaces and the scripts (input, output and glue); network clients
    (rotation providers, issuance, sync, teams, cloud) except for their blob
    format; the system calls beneath [StateDir], [ReplayStorage],
    [AnchoredFs] and the setup transactions, the credential stores of the
    system, and asking Git for the path of a hook; the keychain of systems
    other than Linux, and setup transactions of systems other than Unix, which
    the code refuses; the participants of a setup transaction; the upstream
    exchange of the proxy, redirects and its server loop, and the buffered
    scrubber; statistics over audit logs and leak correlation.
    Zeroing of memory and what is printed to a terminal change no value and
    are left out throughout. *)

From Stdlib Require Export NArith ZArith Lia.
From Stdlib Require Import OrdersEx.
From Stdlib Require Ascii.
From stdpp Require Export base tactics list sorting strings gmap sets fin_maps.
Export Stdlib.Strings.Ascii (ascii(..), N_of_ascii, ascii_of_N).
Export (notations) Stdlib.Strings.Ascii.

(** ** The fallible-code monad

    Rust's [Result<T, E>]: a value or a typed error.  [let? x := r in k] is
    the [?] operator, [fail_if b e k] an early [return Err(e)]. *)

Inductive result (T E : Type) : Type :=
  | Ok (t : T)
  | Err (e : E).
Arguments Ok {T E} t.
Arguments Err {T E} e.

Declare Scope phantom_scope.
Delimit Scope phantom_scope with phantom.
Open Scope phantom_scope.

Definition rbind {T U E} (r : result T E) (f : T → result U E) : result U E :=
  match r with Ok t => f t | Err e => Err e end.

Definition map_err {T E F} (f : E → F) (r : result T E) : result T F :=
  match r with Ok t => Ok t | Err e => Err (f e) end.

Definition map_ok {T U E} (f : T → U) (r : result T E) : result U E :=
  match r with Ok t => Ok (f t) | Err e => Err e end.

Definition ok_or {T E} (o : option T) (e : E) : result T E :=
  match o with Some t => Ok t | None => Err e end.

Definition fail_if {T E} (b : bool) (e : E) (k : result T E) : result T E :=
  if b then Err e else k.

Definition is_ok {T E} (r : result T E) : bool :=
  match r with Ok _ => true | Err _ => false end.

Notation "'let?' x ':=' r 'in' k" := (rbind r (fun x => k))
  (at level 10, x pattern, r at level 100, k at level 200) : phantom_scope.

#[export] Instance result_eq_dec {T E} `{EqDecision T, EqDecision E} :
  EqDecision (result T E).
Proof. solve_decision. Defined.

Section result_lemmas.
Context {T U E F : Type}.

Lemma rbind_Ok (r : result T E) (f : T → result U E) u :
  rbind r f = Ok u ↔ ∃ t, r = Ok t ∧ f t = Ok u.
Proof. destruct r; simpl; naive_solver. Qed.

Lemma rbind_Err (r : result T E) (f : T → result U E) e :
  rbind r f = Err e ↔ r = Err e ∨ ∃ t, r = Ok t ∧ f t = Err e.
Proof. destruct r; simpl; naive_solver. Qed.

Lemma map_err_Ok (g : E → F) (r : result T E) t :
  map_err g r = Ok t ↔ r = Ok t.
Proof. destruct r; simpl; naive_solver. Qed.

Lemma map_ok_Ok (g : T → U) (r : result T E) u :
  map_ok g r = Ok u ↔ ∃ t, r = Ok t ∧ g t = u.
Proof. destruct r; simpl; naive_solver. Qed.

Lemma fail_if_Ok b (e : E) (k : result T E) t :
  fail_if b e k = Ok t ↔ b = false ∧ k = Ok t.
Proof. destruct b; simpl; naive_solver. Qed.

Lemma fail_if_Err b (e e' : E) (k : result T E) :
  fail_if b e k = Err e' ↔ (b = true ∧ e = e') ∨ (b = false ∧ k = Err e').
Proof. destruct b; simpl; naive_solver. Qed.

Lemma ok_or_Ok (o : option T) (e : E) t : ok_or o e = Ok t ↔ o = Some t.
Proof. destruct o; simpl; naive_solver. Qed.

Lemma Ok_inj (t t' : T) : @Ok T E t = Ok t' ↔ t = t'.
Proof. naive_solver. Qed.
End result_lemmas.

Create Rewrite HintDb result.
#[export] Hint Rewrite @rbind_Ok @map_err_Ok @map_ok_Ok @fail_if_Ok @ok_or_Ok
  : result.

(** Open every [_ = Ok _] hypothesis into the facts it was computed from. *)
Ltac inv_ok :=
  repeat match goal with
  | H : rbind _ _ = Ok _ |- _ => apply rbind_Ok in H as (? & ? & H)
  | H : fail_if _ _ _ = Ok _ |- _ => apply fail_if_Ok in H as [? H]
  | H : map_err _ _ = Ok _ |- _ => apply map_err_Ok in H
  | H : ok_or _ _ = Ok _ |- _ => apply ok_or_Ok in H
  | H : Ok _ = Ok _ |- _ => injection H as H
  | H : Err _ = Ok _ |- _ => discriminate H
  | H : Ok _ = Err _ |- _ => discriminate H
  end.

(** Split boolean conjunctions and negated disjunctions in the context. *)
Ltac split_bools :=
  repeat match goal with
  | H : _ && _ = true |- _ => apply andb_true_iff in H as [? ?]
  | H : _ || _ = false |- _ => apply orb_false_iff in H as [? ?]
  | H : negb _ = true |- _ => apply negb_true_iff in H
  | H : negb _ = false |- _ => apply negb_false_iff in H
  | H : bool_decide _ = true |- _ => apply bool_decide_eq_true in H
  | H : bool_decide _ = false |- _ => apply bool_decide_eq_false in H
  end.

(** Case analysis on the scrutinee of every [match]/[if] in a hypothesis. *)
Ltac destruct_matches_in H :=
  repeat match type of H with
  | context [match ?x with _ => _ end] => destruct x eqn:?; simplify_eq/=
  end.

(** ** Machine integers

    Unsigned integers are [N]; the width shows where the code checks it. *)

Definition u16_max : N := 65535.
Definition u32_max : N := 4294967295.
Definition u64_max : N := 18446744073709551615.

(** [u64::checked_add] *)
Definition checked_add_u64 (a b : N) : option N :=
  if (a + b <=? u64_max)%N then Some (a + b)%N else None.

(** [u64::saturating_add], [u64::saturating_mul] *)
Definition saturating_add_u64 (a b : N) : N := N.min (a + b) u64_max.
Definition saturating_mul_u64 (a b : N) : N := N.min (a * b) u64_max.

(** [u64::checked_div] *)
Definition checked_div_u64 (a b : N) : option N :=
  if (b =? 0)%N then None else Some (a / b)%N.

(** The two's-complement wrap of a 64-bit product in a release build. *)
Definition wrapping_mul_u64 (a b : N) : N := (a * b) mod (u64_max + 1).

(** [u64::wrapping_add] and [u64::wrapping_sub] *)
Definition wrapping_add_u64 (a b : N) : N := (a + b) mod (u64_max + 1).
Definition wrapping_sub_u64 (a b : N) : N := (a + (u64_max + 1 - b)) mod (u64_max + 1).

Lemma checked_add_u64_Some a b c :
  checked_add_u64 a b = Some c ↔ c = (a + b)%N ∧ (a + b <= u64_max)%N.
Proof. unfold checked_add_u64. destruct (N.leb_spec (a + b) u64_max); naive_solver lia. Qed.

Lemma checked_add_u64_None a b :
  checked_add_u64 a b = None ↔ (u64_max < a + b)%N.
Proof. unfold checked_add_u64. destruct (N.leb_spec (a + b) u64_max); naive_solver lia. Qed.

Lemma wrapping_mul_u64_small a b :
  (a * b <= u64_max)%N → wrapping_mul_u64 a b = (a * b)%N.
Proof. intros H. apply N.mod_small. lia. Qed.

(** ** Bytes and strings

    A Rust [String] or [&str] is its UTF-8 byte sequence; a Rocq [string] is a
    byte sequence, so [len], [bytes] and byte indexing mean the same. *)

Definition byte_in (lo hi c : ascii) : bool :=
  (N_of_ascii lo <=? N_of_ascii c)%N && (N_of_ascii c <=? N_of_ascii hi)%N.

Definition ascii_eqb (a b : ascii) : bool := Ascii.eqb a b.

(** [u8::is_ascii_digit], [is_ascii_lowercase], [is_ascii_uppercase],
    [is_ascii_alphanumeric] and [is_ascii_graphic] *)
Definition is_ascii_digit (c : ascii) : bool := byte_in "0"%char "9"%char c.
Definition is_ascii_lowercase (c : ascii) : bool := byte_in "a"%char "z"%char c.
Definition is_ascii_uppercase (c : ascii) : bool := byte_in "A"%char "Z"%char c.
Definition is_ascii_alphanumeric (c : ascii) : bool :=
  is_ascii_digit c || is_ascii_lowercase c || is_ascii_uppercase c.
Definition is_ascii_graphic (c : ascii) : bool := byte_in "!"%char "~"%char c.

(** [byte.is_ascii_digit() || (b'a'..=b'f').contains(&byte)] *)
Definition is_lower_hex (c : ascii) : bool := is_ascii_digit c || byte_in "a"%char "f"%char c.

Fixpoint all_bytes (p : ascii → bool) (s : string) : bool :=
  match s with
  | EmptyString => true
  | String c s' => p c && all_bytes p s'
  end.

Fixpoint any_byte (p : ascii → bool) (s : string) : bool :=
  match s with
  | EmptyString => false
  | String c s' => p c || any_byte p s'
  end.

Definition str_len (s : string) : N := N.of_nat (String.length s).
Definition str_is_empty (s : string) : bool :=
  match s with EmptyString => true | _ => false end.

(** [s.starts_with(p)] *)
Fixpoint starts_with (p s : string) : bool :=
  match p, s with
  | EmptyString, _ => true
  | String a p', String b s' => ascii_eqb a b && starts_with p' s'
  | String _ _, EmptyString => false
  end.

(** [&s[n..]] (for [n <= s.len()]) *)
Fixpoint str_drop (n : nat) (s : string) : string :=
  match n, s with
  | O, _ => s
  | S n', String _ s' => str_drop n' s'
  | S _, EmptyString => EmptyString
  end.

(** [s.as_bytes().get(n).copied()] *)
Fixpoint byte_at (s : string) (n : nat) : option ascii :=
  match s, n with
  | EmptyString, _ => None
  | String c _, O => Some c
  | String _ s', S n' => byte_at s' n'
  end.

Definition first_byte (s : string) : option ascii := byte_at s 0.
Definition last_byte (s : string) : option ascii := byte_at s (String.length s - 1).

(** [s.ends_with(c)] for a single character *)
Definition ends_with_char (c : ascii) (s : string) : bool :=
  match last_byte s with Some d => ascii_eqb c d | None => false end.

Definition contains_char (c : ascii) (s : string) : bool := any_byte (ascii_eqb c) s.

(** [s.contains(p)] for a substring *)
Fixpoint contains_str (p s : string) : bool :=
  starts_with p s ||
  match s with EmptyString => false | String _ s' => contains_str p s' end.

(** [s.split(c)]: always at least one piece. *)
Fixpoint split_char (c : ascii) (s : string) : list string :=
  match s with
  | EmptyString => [EmptyString]
  | String a s' =>
      if ascii_eqb a c then EmptyString :: split_char c s'
      else match split_char c s' with
           | w :: ws => String a w :: ws
           | [] => [String a EmptyString]
           end
  end.

Definition to_lower_byte (c : ascii) : ascii :=
  if is_ascii_uppercase c then ascii_of_N (N_of_ascii c + 32) else c.

(** [s.to_ascii_lowercase()] *)
Fixpoint to_ascii_lowercase (s : string) : string :=
  match s with
  | EmptyString => EmptyString
  | String c s' => String (to_lower_byte c) (to_ascii_lowercase s')
  end.

Definition option_byte_is (p : ascii → bool) (o : option ascii) : bool :=
  match o with Some c => p c | None => false end.

(** [s.repeat(n)] *)
Fixpoint str_repeat (s : string) (n : nat) : string :=
  match n with O => EmptyString | S n' => s +:+ str_repeat s n' end.

Definition zero_byte : ascii := "000"%char.

(** The [\0] that ends a domain-separation label. *)
Definition nul : string := String zero_byte EmptyString.

Definition digit_char (n : N) : ascii := ascii_of_N (48 + n).

Fixpoint dec_digits (fuel : nat) (n : N) (acc : string) : string :=
  match fuel with
  | O => acc
  | S fuel' =>
      let acc' := String (digit_char (n mod 10)) acc in
      if (n / 10 =? 0)%N then acc' else dec_digits fuel' (n / 10) acc'
  end.

(** Decimal printing of an unsigned integer ([n.to_string()]); the fuel is one
    more than the number of binary digits, which bounds the decimal digits. *)
Definition N_to_string (n : N) : string :=
  dec_digits (S (N.to_nat (N.size n))) n EmptyString.

#[global] Arguments ascii_eqb : simpl never.
#[global] Arguments byte_in : simpl never.
#[global] Arguments String.append !_ _ / : simpl nomatch.

Lemma ascii_eqb_eq a b : ascii_eqb a b = true ↔ a = b.
Proof. apply Ascii.eqb_eq. Qed.

Lemma ascii_eqb_refl a : ascii_eqb a a = true.
Proof. by apply ascii_eqb_eq. Qed.

Lemma str_app_assoc (a b c : string) : (a +:+ b) +:+ c = a +:+ b +:+ c.
Proof. induction a as [|x a IH]; simpl; [done|by rewrite ?IH]. Qed.

Lemma str_app_nil_r (a : string) : a +:+ "" = a.
Proof. induction a as [|x a IH]; simpl; [done|by rewrite ?IH]. Qed.

Lemma str_length_app (a b : string) :
  String.length (a +:+ b) = (String.length a + String.length b)%nat.
Proof. induction a as [|x a IH]; simpl; [done|by rewrite ?IH]. Qed.

Lemma str_app_inj_l (a b c : string) : a +:+ b = a +:+ c → b = c.
Proof. induction a; simpl; naive_solver. Qed.

Lemma starts_with_spec p s : starts_with p s = true ↔ ∃ t, s = p +:+ t.
Proof.
  revert s. induction p as [|a p IH]; intros s; simpl; [naive_solver|].
  destruct s as [|b s]; [naive_solver|].
  rewrite andb_true_iff, ascii_eqb_eq, IH. naive_solver.
Qed.

Lemma starts_with_app p t : starts_with p (p +:+ t) = true.
Proof. apply starts_with_spec. eauto. Qed.

Lemma str_drop_app p t : str_drop (String.length p) (p +:+ t) = t.
Proof. induction p; simpl; auto. Qed.

Lemma byte_at_app_r a b n : byte_at (a +:+ b) (String.length a + n) = byte_at b n.
Proof. induction a; simpl; auto. Qed.

Lemma byte_at_app_r0 a b : byte_at (a +:+ b) (String.length a) = byte_at b 0.
Proof. rewrite <- (byte_at_app_r a b 0). f_equal. lia. Qed.

Lemma byte_at_app_l a b n :
  (n < String.length a)%nat → byte_at (a +:+ b) n = byte_at a n.
Proof.
  revert n. induction a as [|c a IH]; simpl; intros n Hn; [lia|].
  destruct n; [done|]. apply IH. lia.
Qed.

Lemma all_bytes_app p a b : all_bytes p (a +:+ b) = all_bytes p a && all_bytes p b.
Proof. induction a; simpl; [done|]. rewrite IHa. by rewrite andb_assoc. Qed.

Lemma str_app_split_eq (a b c d : string) :
  String.length a = String.length c → a +:+ b = c +:+ d → a = c ∧ b = d.
Proof.
  revert c. induction a as [|x a IH]; intros [|y c] Hl He; simpl in *; try lia; [done|].
  injection He as -> He. destruct (IH c) as [-> ->]; auto.
Qed.

(** Two prefixes of one string: the shorter is a prefix of the longer. *)
Lemma common_prefix (a b s t : string) :
  a +:+ s = b +:+ t → (String.length a <= String.length b)%nat →
  ∃ u, b = a +:+ u ∧ s = u +:+ t.
Proof.
  revert b. induction a as [|x a IH]; simpl; intros b He Hl; [by exists b|].
  destruct b as [|y b]; simpl in *; [lia|].
  injection He as -> He. destruct (IH b He) as (u & -> & ->); [lia|]. eauto.
Qed.

(** [s] cut after [n] bytes, as [Read::take] does *)
Fixpoint str_take (n : nat) (s : string) : string :=
  match n, s with
  | O, _ => EmptyString
  | S n', String c s' => String c (str_take n' s')
  | S _, EmptyString => EmptyString
  end.

Lemma str_take_app p t : str_take (String.length p) (p +:+ t) = p.
Proof. induction p as [|c p IH]; simpl; [by destruct t|]. by rewrite IH. Qed.

Lemma str_take_drop n s : str_take n s +:+ str_drop n s = s.
Proof. revert s. induction n as [|n IH]; intros [|c s]; simpl; try done. by rewrite IH. Qed.

Lemma str_take_length n s :
  (n <= String.length s)%nat → String.length (str_take n s) = n.
Proof.
  revert s. induction n as [|n IH]; intros [|c s] H; simpl in *; try done; [lia|].
  rewrite IH; [done|lia].
Qed.

Lemma str_take_all s : str_take (String.length s) s = s.
Proof. induction s as [|c s IH]; simpl; [done|]. by rewrite IH. Qed.

Lemma str_take_long n s : (String.length s <= n)%nat → str_take n s = s.
Proof.
  revert s. induction n as [|n IH]; intros [|c s] Hl; simpl in *; try lia; [done..|].
  by rewrite IH by lia.
Qed.

Lemma str_take_short n s : (String.length (str_take n s) < n)%nat → str_take n s = s.
Proof.
  revert s. induction n as [|n IH]; intros [|c s] Hl; simpl in *; try lia; [done|].
  by rewrite IH by lia.
Qed.

(** A bounded read that came back under its bound is the whole file. *)
Lemma str_take_whole n k s :
  (str_len (str_take (N.to_nat k) s) <= n)%N → (n < k)%N → str_take (N.to_nat k) s = s.
Proof. unfold str_len. intros H Hk. apply str_take_short. lia. Qed.

Lemma str_len_app a b : str_len (a +:+ b) = (str_len a + str_len b)%N.
Proof. unfold str_len. rewrite str_length_app. lia. Qed.

(** Lines, each ended by [c] *)
Fixpoint join_lines (c : ascii) (ls : list string) : string :=
  match ls with [] => EmptyString | l :: ls' => l +:+ String c (join_lines c ls') end.

Lemma join_split c s : join_lines c (split_char c s) = s +:+ String c EmptyString.
Proof.
  induction s as [|a s IH]; simpl; [done|]. destruct (ascii_eqb a c) eqn:E.
  - apply ascii_eqb_eq in E as ->. simpl. by rewrite IH.
  - destruct (split_char c s) as [|w ws]; simpl in *; [by destruct s|by rewrite <- IH].
Qed.

Lemma split_char_app c l s :
  contains_char c l = false → split_char c (l +:+ String c s) = l :: split_char c s.
Proof.
  unfold contains_char. induction l as [|a l IH]; simpl.
  - by rewrite ascii_eqb_refl.
  - rewrite orb_false_iff. intros [Ha Hl].
    destruct (ascii_eqb a c) eqn:E; [apply ascii_eqb_eq in E as ->; by rewrite ascii_eqb_refl in Ha|].
    by rewrite IH.
Qed.

Lemma split_char_one c l : contains_char c l = false → split_char c l = [l].
Proof.
  unfold contains_char. induction l as [|a l IH]; simpl; [done|].
  rewrite orb_false_iff. intros [Ha Hl].
  destruct (ascii_eqb a c) eqn:E; [apply ascii_eqb_eq in E as ->; by rewrite ascii_eqb_refl in Ha|].
  by rewrite IH.
Qed.

Lemma split_join c ls :
  ls ≠ [] → Forall (fun l => contains_char c l = false) ls →
  ∃ s, join_lines c ls = s +:+ String c EmptyString ∧ split_char c s = ls.
Proof.
  intros Hne Hc. induction Hc as [|l ls Hl Hls IH]; [done|].
  destruct ls as [|l2 ls]; [exists l; split; [done|by apply split_char_one]|].
  destruct IH as (s & Hs & Hsp); [done|]. exists (l +:+ String c s). split.
  - change (join_lines c (l :: l2 :: ls)) with (l +:+ String c (join_lines c (l2 :: ls))).
    rewrite Hs, str_app_assoc. done.
  - by rewrite split_char_app, Hsp.
Qed.

Lemma join_lines_app c ls ls' : join_lines c (ls ++ ls') = join_lines c ls +:+ join_lines c ls'.
Proof. induction ls as [|l ls IH]; simpl; [done|]. by rewrite IH, str_app_assoc. Qed.

Lemma any_byte_app p a b : any_byte p (a +:+ b) = any_byte p a || any_byte p b.
Proof. induction a; simpl; [done|]. rewrite IHa. by rewrite orb_assoc. Qed.

Lemma last_byte_app a c : last_byte (a +:+ String c EmptyString) = Some c.
Proof.
  unfold last_byte. rewrite str_length_app. simpl.
  replace (String.length a + 1 - 1)%nat with (String.length a) by lia. by rewrite byte_at_app_r0.
Qed.

Lemma ends_with_inv c s :
  ends_with_char c s = true → s = str_take (String.length s - 1) s +:+ String c EmptyString.
Proof.
  unfold ends_with_char, last_byte. destruct s as [|a s]; [done|].
  replace (String.length (String a s) - 1)%nat with (String.length s) by (simpl; lia).
  revert a. induction s as [|b s IH]; intros a; simpl.
  - by intros ->%ascii_eqb_eq.
  - intros H. f_equal. by apply IH.
Qed.

Lemma str_take_init a c :
  str_take (String.length (a +:+ String c EmptyString) - 1) (a +:+ String c EmptyString) = a.
Proof.
  rewrite str_length_app. simpl.
  replace (String.length a + 1 - 1)%nat with (String.length a) by lia. apply str_take_app.
Qed.

(** ** Decimal numerals *)

(** The number the digits after an already read number [n] stand for. *)
Fixpoint dec_value (n : N) (s : string) : N :=
  match s with
  | EmptyString => n
  | String c s' => dec_value (10 * n + (N_of_ascii c - 48)) s'
  end.

Lemma digit_char_value n : (n < 10)%N → N_of_ascii (digit_char n) = (48 + n)%N.
Proof. intros Hn. unfold digit_char. apply Ascii.N_ascii_embedding. lia. Qed.

Lemma digit_char_digit n : (n < 10)%N → is_ascii_digit (digit_char n) = true.
Proof.
  intros Hn. unfold is_ascii_digit, byte_in. rewrite digit_char_value by done.
  apply andb_true_iff. rewrite !N.leb_le. simpl. lia.
Qed.

Lemma dec_digits_value fuel n acc :
  (n < 2 ^ N.of_nat fuel)%N → dec_value 0 (dec_digits fuel n acc) = dec_value n acc.
Proof.
  revert n acc. induction fuel as [|fuel IH]; intros n acc Hn.
  { simpl in Hn. by replace n with 0%N by lia. }
  pose proof (N.div_mod n 10 ltac:(done)) as Hd. pose proof (N.mod_lt n 10 ltac:(done)) as Hm.
  cbn [dec_digits]. destruct (N.eqb_spec (n / 10) 0) as [E|E].
  - cbn [dec_value]. rewrite digit_char_value by done. f_equal. lia.
  - rewrite IH.
    + cbn [dec_value]. rewrite digit_char_value by done. f_equal.
      revert Hd. generalize (n / 10)%N, (n mod 10)%N. lia.
    + rewrite Nat2N.inj_succ, N.pow_succ_r' in Hn. revert Hn Hd. clear.
      generalize (n / 10)%N, (n mod 10)%N, (2 ^ N.of_nat fuel)%N. lia.
Qed.

Lemma dec_digits_all fuel n acc :
  all_bytes is_ascii_digit acc = true → all_bytes is_ascii_digit (dec_digits fuel n acc) = true.
Proof.
  revert n acc. induction fuel as [|fuel IH]; intros n acc Ha; [done|]. cbn [dec_digits].
  assert (all_bytes is_ascii_digit (String (digit_char (n mod 10)) acc) = true) as Hb.
  { cbn [all_bytes]. rewrite Ha, digit_char_digit; [done|]. by apply N.mod_lt. }
  destruct (n / 10 =? 0)%N; [done|]. by apply IH.
Qed.

Lemma N_to_string_value n : dec_value 0 (N_to_string n) = n.
Proof.
  unfold N_to_string. rewrite dec_digits_value; [done|].
  rewrite Nat2N.inj_succ, N2Nat.id, N.pow_succ_r'. pose proof (N.size_gt n). lia.
Qed.

Lemma N_to_string_inj a b : N_to_string a = N_to_string b → a = b.
Proof. intros H. apply (f_equal (dec_value 0)) in H. by rewrite !N_to_string_value in H. Qed.

Lemma N_to_string_digits n : all_bytes is_ascii_digit (N_to_string n) = true.
Proof. by apply dec_digits_all. Qed.

Lemma N_to_string_head n : ∃ c s, N_to_string n = String c s ∧ is_ascii_digit c = true.
Proof.
  pose proof (N_to_string_digits n) as Hd. destruct (N_to_string n) as [|c s] eqn:E.
  - exfalso. assert (∀ f m acc, acc ≠ EmptyString → dec_digits f m acc ≠ EmptyString) as H.
    { induction f as [|f IH]; intros m acc Ha; [done|]. cbn [dec_digits].
      destruct (m / 10 =? 0)%N; [done|]. by apply IH. }
    unfold N_to_string in E. cbn [dec_digits] in E.
    destruct (n / 10 =? 0)%N; [done|]. by eapply H in E.
  - exists c, s. split; [done|]. by apply andb_true_iff in Hd as [? _].
Qed.

(** A run of bytes with a property ends where the property does. *)
Lemma all_bytes_cut (p : ascii → bool) a b x y :
  all_bytes p a = true → all_bytes p b = true →
  option_byte_is p (first_byte x) = false → option_byte_is p (first_byte y) = false →
  a +:+ x = b +:+ y → a = b ∧ x = y.
Proof.
  revert b. induction a as [|c a IH]; intros [|d b] Ha Hb Hx Hy He; simpl in *.
  - done.
  - subst x. apply andb_true_iff in Hb as [Hd _]. unfold first_byte in Hx. simpl in Hx. congruence.
  - subst y. apply andb_true_iff in Ha as [Hc _]. unfold first_byte in Hy. simpl in Hy. congruence.
  - injection He as -> He. apply andb_true_iff in Ha as [_ Ha], Hb as [_ Hb].
    by destruct (IH b) as [-> ->].
Qed.

(** ** Ordered types and ordered sets

    [Ord] is Rust's trait; [BTreeSet]s are their in-order element lists. *)

Class Ord (A : Type) := {
  ord_cmp : A → A → comparison;
  ord_cmp_eq : ∀ x y, ord_cmp x y = Eq ↔ x = y;
  ord_cmp_antisym : ∀ x y, ord_cmp y x = CompOpp (ord_cmp x y);
  ord_cmp_trans : ∀ x y z, ord_cmp x y = Lt → ord_cmp y z = Lt → ord_cmp x z = Lt;
}.

Definition ord_lt `{Ord A} (x y : A) : Prop := ord_cmp x y = Lt.
Definition ord_ltb `{Ord A} (x y : A) : bool :=
  match ord_cmp x y with Lt => true | _ => false end.

#[export] Program Instance Ord_N : Ord N := {| ord_cmp := N.compare |}.
Next Obligation. apply N.compare_eq_iff. Qed.
Next Obligation. intros. by rewrite N.compare_antisym. Qed.
Next Obligation. intros x y z. rewrite !N.compare_lt_iff. lia. Qed.

Lemma string_cmp_eq x y : String_as_OT.compare x y = Eq ↔ x = y.
Proof.
  split.
  - intros H. destruct (String_as_OT.compare_spec x y); try discriminate. by apply H0.
  - intros ->. destruct (String_as_OT.compare_spec y y) as [|Hl|Hl]; [done| |];
      exfalso; by apply (StrictOrder_Irreflexive y).
Qed.

#[export] Program Instance Ord_string : Ord string :=
  {| ord_cmp := String_as_OT.compare |}.
Next Obligation. apply string_cmp_eq. Qed.
Next Obligation.
  intros x y.
  destruct (String_as_OT.compare_spec x y) as [->|Hl|Hl]; simpl;
    [by apply string_cmp_eq| |exact Hl].
  destruct (String_as_OT.compare_spec y x) as [He|Hl'|Hl']; [| |done].
  - unfold String_as_OT.eq in He. subst.
    exfalso. by apply (StrictOrder_Irreflexive x).
  - exfalso. apply (StrictOrder_Irreflexive x). by transitivity y.
Qed.
Next Obligation.
  intros x y z Hxy Hyz.
  exact (StrictOrder_Transitive (R := String_as_OT.lt) x y z Hxy Hyz).
Qed.

(** An enum with a derived [Ord] compares its constructor indices. *)
Program Definition Ord_index {A} (index : A → N)
    (index_inj : ∀ x y, index x = index y → x = y) : Ord A :=
  {| ord_cmp x y := N.compare (index x) (index y) |}.
Next Obligation.
  intros A index Hi x y. simpl. rewrite N.compare_eq_iff. naive_solver.
Qed.
Next Obligation. intros A index Hi x y. simpl. by rewrite N.compare_antisym. Qed.
Next Obligation. intros A index Hi x y z. simpl. rewrite !N.compare_lt_iff. lia. Qed.

Section btree_set.
Context `{Ord A}.

Fixpoint btree_insert (x : A) (l : list A) : list A :=
  match l with
  | [] => [x]
  | y :: l' =>
      match ord_cmp x y with
      | Lt => x :: y :: l'
      | Eq => y :: l'
      | Gt => y :: btree_insert x l'
      end
  end.

(** [iter.collect::<BTreeSet<_>>()] *)
Definition btree_collect (l : list A) : list A := foldr btree_insert [] l.

Definition ord_mem (x : A) (l : list A) : bool :=
  existsb (fun y => match ord_cmp x y with Eq => true | _ => false end) l.

(** [values.windows(2).any(|p| p[0] >= p[1])], negated *)
Fixpoint strictly_sorted (l : list A) : bool :=
  match l with
  | x :: ((y :: _) as l') => ord_ltb x y && strictly_sorted l'
  | _ => true
  end.

Lemma ord_cmp_refl x : ord_cmp x x = Eq.
Proof. by apply ord_cmp_eq. Qed.

Lemma ord_lt_irrefl x : ¬ ord_lt x x.
Proof. unfold ord_lt. by rewrite ord_cmp_refl. Qed.

Lemma ord_lt_trans x y z : ord_lt x y → ord_lt y z → ord_lt x z.
Proof. apply ord_cmp_trans. Qed.

Lemma ord_cmp_gt x y : ord_cmp x y = Gt ↔ ord_lt y x.
Proof. unfold ord_lt. rewrite (ord_cmp_antisym x y). destruct (ord_cmp x y); naive_solver. Qed.

Lemma ord_ltb_spec x y : ord_ltb x y = true ↔ ord_lt x y.
Proof. unfold ord_ltb, ord_lt. destruct (ord_cmp x y); naive_solver. Qed.

Lemma ord_mem_spec x l : ord_mem x l = true ↔ x ∈ l.
Proof.
  unfold ord_mem. rewrite existsb_exists. setoid_rewrite <- list_elem_of_In. split.
  - intros (y & Hy & He). destruct (ord_cmp x y) eqn:E; try discriminate.
    by apply ord_cmp_eq in E as ->.
  - intros Hx. exists x. by rewrite ord_cmp_refl.
Qed.

(** The invariant of a [BTreeSet]'s element sequence. *)
Definition ord_sorted : list A → Prop := StronglySorted ord_lt.

Lemma strictly_sorted_spec l : strictly_sorted l = true ↔ ord_sorted l.
Proof.
  induction l as [|x l IH]; [split; [constructor|done]|].
  destruct l as [|y l]; [split; [repeat constructor|done]|].
  cbn [strictly_sorted]. rewrite andb_true_iff, ord_ltb_spec.
  destruct IH as [IH1 IH2]. split.
  - intros [Hxy Hs]. specialize (IH1 Hs). constructor; [done|].
    apply Forall_cons. split; [done|].
    inversion IH1 as [|? ? _ Hf]; subst.
    eapply Forall_impl; [exact Hf|]. intros z. by apply ord_lt_trans.
  - intros Hs. inversion Hs as [|? ? Hs' Hf]; subst. split; [by inversion Hf|auto].
Qed.

Lemma btree_insert_elem x y l : y ∈ btree_insert x l ↔ y = x ∨ y ∈ l.
Proof.
  induction l as [|z l IH]; simpl; [set_solver|].
  destruct (ord_cmp x z) eqn:E; [|set_solver|set_solver].
  apply ord_cmp_eq in E as ->. set_solver.
Qed.

Lemma btree_insert_sorted x l : ord_sorted l → ord_sorted (btree_insert x l).
Proof.
  unfold ord_sorted. induction 1 as [|y l Hs IH Hf]; simpl; [repeat constructor|].
  destruct (ord_cmp x y) eqn:E.
  - by constructor.
  - constructor; [by constructor|]. constructor; [done|].
    eapply Forall_impl; [exact Hf|]. intros z. by apply ord_lt_trans.
  - constructor; [done|]. apply Forall_forall. intros z Hz.
    apply btree_insert_elem in Hz as [->|Hz]; [by apply ord_cmp_gt|].
    rewrite Forall_forall in Hf. auto.
Qed.

Lemma btree_collect_elem y l : y ∈ btree_collect l ↔ y ∈ l.
Proof. induction l; simpl; [done|]. rewrite btree_insert_elem. set_solver. Qed.

Lemma btree_collect_sorted l : ord_sorted (btree_collect l).
Proof. induction l; simpl; [constructor|by apply btree_insert_sorted]. Qed.

(** A strictly sorted list is determined by its members. *)
Lemma ord_sorted_ext l1 l2 :
  ord_sorted l1 → ord_sorted l2 → (∀ x, x ∈ l1 ↔ x ∈ l2) → l1 = l2.
Proof.
  intros Hs1. revert l2. induction Hs1 as [|x l1 Hs1 IH Hf1]; intros l2 Hs2 Hx.
  - destruct l2 as [|y l2]; [done|]. destruct (Hx y) as [_ Hy]. set_solver.
  - destruct Hs2 as [|y l2 Hs2 Hf2]; [destruct (Hx x); set_solver|].
    rewrite Forall_forall in Hf1, Hf2.
    assert (x = y) as ->.
    { assert (x ∈ y :: l2) as Hx2 by (apply Hx; set_solver).
      assert (y ∈ x :: l1) as Hy1 by (apply Hx; set_solver).
      apply elem_of_cons in Hx2 as [|Hx2]; [done|].
      apply elem_of_cons in Hy1 as [|Hy1]; [done|].
      exfalso. apply (ord_lt_irrefl x). eapply ord_lt_trans; [by apply Hf1|by apply Hf2]. }
    f_equal. apply IH; [done|]. intros z.
    assert (¬ y ∈ l1 ∧ ¬ y ∈ l2) as [? ?].
    { split; intros Hy; apply (ord_lt_irrefl y); auto. }
    specialize (Hx z). set_solver.
Qed.

Lemma ord_sorted_NoDup l : ord_sorted l → NoDup l.
Proof.
  induction 1 as [|x l Hs IH Hf]; constructor; [|done].
  rewrite Forall_forall in Hf. intros Hx. apply (ord_lt_irrefl x). auto.
Qed.

Lemma ord_sorted_filter (P : A → Prop) `{∀ x, Decision (P x)} l :
  ord_sorted l → ord_sorted (filter P l).
Proof.
  induction 1 as [|x l Hs IH Hf]; [constructor|].
  rewrite filter_cons. case_decide; [|done]. constructor; [done|].
  rewrite Forall_forall in *. intros y Hy. apply list_elem_of_filter in Hy as [_ Hy]. auto.
Qed.

Lemma btree_collect_id l : ord_sorted l → btree_collect l = l.
Proof.
  intros Hs. apply ord_sorted_ext; [apply btree_collect_sorted|done|].
  intros x. apply btree_collect_elem.
Qed.
End btree_set.

Create HintDb ordset.
#[export] Hint Resolve btree_insert_sorted btree_collect_sorted ord_sorted_filter
  ord_sorted_NoDup : ordset.

(** ** [BTreeMap]s

    A [BTreeMap] is a [gmap]; where its order shows, [btree_iter] lists the
    entries by key. *)

Definition btree_key_le {V} (a b : string * V) : Prop := ord_cmp a.1 b.1 ≠ Gt.

#[export] Instance btree_key_le_dec {V} : RelDecision (@btree_key_le V).
Proof. unfold RelDecision, btree_key_le. intros a b. apply _. Defined.

(** [map.iter()] *)
Definition btree_iter {V} (m : gmap string V) : list (string * V) :=
  merge_sort btree_key_le (map_to_list m).

(** [for (key, value) in &mut map { *value = f(key, value)?; }] *)
Definition update_entry {V E} (f : string → V → result V E)
    (acc : result (gmap string V) E) (kv : string * V) : result (gmap string V) E :=
  let? m := acc in let? v := f kv.1 kv.2 in Ok (<[kv.1 := v]> m).

Definition btree_update {V E} (f : string → V → result V E) (m : gmap string V)
    : result (gmap string V) E :=
  fold_left (update_entry f) (btree_iter m) (Ok m).

(** [map.values().filter(p).count()] *)
Definition count_values {V} (p : V → bool) (m : gmap string V) : nat :=
  size (filter (fun kv => p kv.2 = true) m).

Section btree_map.
Context {V E : Type}.

Lemma btree_iter_elem (m : gmap string V) k v : (k, v) ∈ btree_iter m ↔ m !! k = Some v.
Proof. unfold btree_iter. rewrite merge_sort_Permutation. apply elem_of_map_to_list. Qed.

Lemma btree_iter_NoDup (m : gmap string V) : NoDup (btree_iter m).*1.
Proof. unfold btree_iter. rewrite merge_sort_Permutation. apply NoDup_fst_map_to_list. Qed.

Lemma update_fold_err (f : string → V → result V E) e l :
  fold_left (update_entry f) l (Err e) = Err e.
Proof. by induction l. Qed.

Lemma update_fold_inv (f : string → V → result V E) l (m m' : gmap string V) :
  fold_left (update_entry f) l (Ok m) = Ok m' →
  NoDup l.*1 →
  ∀ k, (∀ v, (k, v) ∈ l → ∃ v', f k v = Ok v' ∧ m' !! k = Some v') ∧
       ((∀ v, (k, v) ∉ l) → m' !! k = m !! k).
Proof.
  revert m. induction l as [|[k v] l IH]; intros m Hm Hnd k'; simpl in Hm.
  { injection Hm as <-. split; [|done]. intros v Hv. by apply not_elem_of_nil in Hv. }
  apply NoDup_cons in Hnd as [Hk Hnd].
  destruct (f k v) as [v'|e] eqn:Hf; simpl in Hm; [|by rewrite update_fold_err in Hm].
  destruct (IH _ Hm Hnd k') as [Hin Hout]. split.
  - intros w [[= -> ->]|Hw]%elem_of_cons; [|by apply Hin]. exists v'. split; [done|].
    rewrite Hout, lookup_insert_eq; [done|].
    intros w Hw. apply Hk. by apply (list_elem_of_fmap_2 fst) in Hw.
  - intros Hn. rewrite Hout; [|intros w Hw; apply (Hn w); by right].
    apply lookup_insert_ne. intros ->. apply (Hn v). by left.
Qed.

Lemma update_fold_total (f : string → V → result V E) l (m : gmap string V) :
  (∀ k v, (k, v) ∈ l → ∃ v', f k v = Ok v') →
  ∃ m', fold_left (update_entry f) l (Ok m) = Ok m'.
Proof.
  revert m. induction l as [|[k v] l IH]; intros m Hf; simpl; [by eexists|].
  destruct (Hf k v) as [v' ->]; [by left|]. simpl. apply IH.
  intros. apply Hf. by right.
Qed.

(** The loop keeps the keys and maps its body over the entries. *)
Lemma btree_update_inv (f : string → V → result V E) (m m' : gmap string V) k :
  btree_update f m = Ok m' →
  match m !! k with
  | Some v => ∃ v', f k v = Ok v' ∧ m' !! k = Some v'
  | None => m' !! k = None
  end.
Proof.
  intros Hu. unfold btree_update in Hu.
  destruct (update_fold_inv f _ _ _ Hu (btree_iter_NoDup m) k) as [Hin Hout].
  destruct (m !! k) as [v|] eqn:Hk; [by apply Hin, btree_iter_elem|].
  rewrite Hout; [done|]. intros v Hv. apply btree_iter_elem in Hv. congruence.
Qed.

Lemma btree_update_total (f : string → V → result V E) (m : gmap string V) :
  (∀ k v, m !! k = Some v → ∃ v', f k v = Ok v') → ∃ m', btree_update f m = Ok m'.
Proof.
  intros Hf. apply update_fold_total. intros k v Hin. by apply Hf, btree_iter_elem.
Qed.

Lemma btree_update_dom (f : string → V → result V E) (m m' : gmap string V) :
  btree_update f m = Ok m' → dom m' = dom m.
Proof.
  intros Hu. apply set_eq. intros k. rewrite !elem_of_dom.
  pose proof (btree_update_inv f m m' k Hu) as Hk.
  destruct (m !! k); [destruct Hk as (v' & _ & ->)|rewrite Hk]; split; eauto;
    intros [? [=]].
Qed.

Lemma btree_update_size (f : string → V → result V E) (m m' : gmap string V) :
  btree_update f m = Ok m' → size m' = size m.
Proof. intros Hu. by rewrite <- !size_dom, (btree_update_dom f m m' Hu). Qed.

Lemma count_values_le (p : V → bool) (m : gmap string V) : (count_values p m <= size m)%nat.
Proof. unfold count_values. apply map_subseteq_size, map_filter_subseteq. Qed.

Lemma count_values_insert (p : V → bool) (m : gmap string V) k v :
  m !! k = None →
  count_values p (<[k := v]> m) = ((if p v then 1 else 0) + count_values p m)%nat.
Proof.
  intros Hk. unfold count_values. destruct (p v) eqn:Hp.
  - rewrite map_filter_insert_True by done. apply map_size_insert_None.
    by rewrite map_lookup_filter_None; left.
  - rewrite map_filter_insert_False by (simpl; congruence). by rewrite delete_id.
Qed.

(** Replacing values pointwise without adding counted ones. *)
Lemma count_values_mono (p : V → bool) (m m' : gmap string V) :
  (∀ k v', m' !! k = Some v' → p v' = true → ∃ v, m !! k = Some v ∧ p v = true) →
  (count_values p m' <= count_values p m)%nat.
Proof.
  intros Hm. unfold count_values. rewrite <- !size_dom.
  apply subseteq_size. intros k. rewrite !elem_of_dom.
  intros [v' Hv']. apply map_lookup_filter_Some in Hv' as [Hv' Hp].
  destruct (Hm k v' Hv' Hp) as (v & Hv & Hpv). exists v.
  by apply map_lookup_filter_Some.
Qed.
End btree_map.

(** ** Reachability

    [star step] is the reflexive transitive closure used by the components
    that run as state machines. *)

Section reachability.
Context {St : Type} (step : St → St → Prop).

Lemma rtc_invariant (I : St → Prop) s t :
  (∀ a b, I a → step a b → I b) → rtc step s t → I s → I t.
Proof. intros Hstep. induction 1; eauto. Qed.
End reachability.
