(* ===== verification/Text.v ===== *)
(** * Text: the string operations of the standard library that the code uses

    [trim], [strip_prefix], [split_once], [trim_matches] and the like on byte
    strings, UTF-8 validity, and comparison up to ASCII case. *)

From S2P Require Import Prelude.

(** ** UTF-8 and white space *)

(** Bytes 0x80 to 0xBF *)
Definition is_continuation (c : ascii) : bool := byte_in "128"%char "191"%char c.

(** [std::str::from_utf8] accepts the bytes. *)
Fixpoint utf8_valid (s : string) : bool :=
  match s with
  | EmptyString => true
  | String a s1 =>
      if byte_in "000"%char "127"%char a then utf8_valid s1
      else match s1 with
      | EmptyString => false
      | String b s2 =>
          if byte_in "194"%char "223"%char a then is_continuation b && utf8_valid s2
          else match s2 with
          | EmptyString => false
          | String c s3 =>
              if byte_in "224"%char "239"%char a then
                (if ascii_eqb a "224"%char then byte_in "160"%char "191"%char b
                 else if ascii_eqb a "237"%char then byte_in "128"%char "159"%char b
                 else is_continuation b) && is_continuation c && utf8_valid s3
              else match s3 with
              | EmptyString => false
              | String d s4 =>
                  byte_in "240"%char "244"%char a
                  && (if ascii_eqb a "240"%char then byte_in "144"%char "191"%char b
                      else if ascii_eqb a "244"%char then byte_in "128"%char "143"%char b
                      else is_continuation b)
                  && is_continuation c && is_continuation d && utf8_valid s4
              end
          end
      end
  end.

(** The UTF-8 encodings of the characters with the property White_Space *)
Definition white_space : list string :=
  let byte n := String (ascii_of_N n) in
  map (fun n => byte n EmptyString) [9; 10; 11; 12; 13; 32]%N ++
  map (fun n => byte 194%N (byte n EmptyString)) [133; 160]%N ++
  byte 225%N (byte 154%N (byte 128%N EmptyString)) ::
  map (fun n => byte 226%N (byte 128%N (byte n EmptyString)))
    [128; 129; 130; 131; 132; 133; 134; 135; 136; 137; 138; 168; 169; 175]%N ++
  [byte 226%N (byte 129%N (byte 159%N EmptyString));
   byte 227%N (byte 128%N (byte 128%N EmptyString))].

(** Drop what one of [ws] starts, as often as it does; every round drops a
    byte, so the length is enough fuel. *)
Fixpoint trim_start (ws : list string) (fuel : nat) (s : string) : string :=
  match fuel with
  | O => s
  | S fuel' =>
      match List.find (fun w => starts_with w s) ws with
      | Some w => trim_start ws fuel' (str_drop (String.length w) s)
      | None => s
      end
  end.

Fixpoint str_rev (s acc : string) : string :=
  match s with EmptyString => acc | String c s' => str_rev s' (String c acc) end.

(** [str::trim] *)
Definition trim (s : string) : string :=
  let t := trim_start white_space (String.length s) s in
  str_rev (trim_start (map (fun w => str_rev w EmptyString) white_space) (String.length t)
             (str_rev t EmptyString)) EmptyString.

(** ** Prefixes, suffixes and pieces *)

(** [s.strip_prefix(p)] *)
Definition strip_prefix (p s : string) : option string :=
  if starts_with p s then Some (str_drop (String.length p) s) else None.

(** [s.ends_with(p)], [s.strip_suffix(p)] *)
Definition ends_with (p s : string) : bool := starts_with (str_rev p EmptyString) (str_rev s EmptyString).

Definition strip_suffix (p s : string) : option string :=
  if ends_with p s then Some (str_take (String.length s - String.length p) s) else None.

(** [s.trim_start_matches(c)], [s.trim_end_matches(c)] and [s.trim_matches(c)]
    for a character *)
Fixpoint trim_start_char (c : ascii) (s : string) : string :=
  match s with
  | String d s' => if ascii_eqb c d then trim_start_char c s' else s
  | EmptyString => s
  end.

Definition trim_end_char (c : ascii) (s : string) : string :=
  str_rev (trim_start_char c (str_rev s EmptyString)) EmptyString.

Definition trim_char (c : ascii) (s : string) : string := trim_end_char c (trim_start_char c s).

(** [s.trim_end_matches(p)] for a string [p]: every round drops [p], so the
    length is enough fuel (the code's patterns are not empty). *)
Fixpoint trim_end_fuel (fuel : nat) (p s : string) : string :=
  match fuel with
  | O => s
  | S fuel' => match strip_suffix p s with Some s' => trim_end_fuel fuel' p s' | None => s end
  end.

Definition trim_end_matches (p s : string) : string := trim_end_fuel (String.length s) p s.

(** [s.split_once(c)] *)
Fixpoint split_once (c : ascii) (s : string) : option (string * string) :=
  match s with
  | EmptyString => None
  | String d s' =>
      if ascii_eqb c d then Some (EmptyString, s')
      else match split_once c s' with Some (a, b) => Some (String d a, b) | None => None end
  end.

(** [parts.join(sep)] *)
Fixpoint join (sep : string) (parts : list string) : string :=
  match parts with
  | [] => EmptyString
  | [p] => p
  | p :: rest => p +:+ sep +:+ join sep rest
  end.

(** [a.eq_ignore_ascii_case(b)] *)
Definition eq_ignore_ascii_case (a b : string) : bool :=
  String.eqb (to_ascii_lowercase a) (to_ascii_lowercase b).

(** The lines of a text, as [str::lines] and [BufRead::lines] give them: what is
    between the newlines, less a carriage return in front of a newline; nothing
    follows a final newline. *)
Definition strip_cr (l : string) : string :=
  match strip_suffix (String "013"%char EmptyString) l with Some l' => l' | None => l end.

Fixpoint line_pieces (pieces : list string) : list string :=
  match pieces with
  | [] => []
  | [last] => if str_is_empty last then [] else [last]
  | p :: rest => strip_cr p :: line_pieces rest
  end.

Definition text_lines (s : string) : list string := line_pieces (split_char "010"%char s).

(** ** Lemmas *)

Lemma str_rev_app s acc : str_rev s acc = str_rev s EmptyString +:+ acc.
Proof.
  revert acc. induction s as [|c s IH]; intros acc; simpl; [done|].
  rewrite IH, (IH (String c EmptyString)). by rewrite str_app_assoc.
Qed.

Lemma str_rev_snoc c s :
  str_rev (String c s) EmptyString = str_rev s EmptyString +:+ String c EmptyString.
Proof. simpl. apply str_rev_app. Qed.

Lemma str_rev_concat a b :
  str_rev (a +:+ b) EmptyString = str_rev b EmptyString +:+ str_rev a EmptyString.
Proof.
  induction a as [|c a IH]; simpl; [by rewrite str_app_nil_r|].
  rewrite str_rev_app, IH, (str_rev_app a (String c EmptyString)). by rewrite str_app_assoc.
Qed.

Lemma str_rev_rev s : str_rev (str_rev s EmptyString) EmptyString = s.
Proof.
  induction s as [|c s IH]; [done|]. rewrite str_rev_snoc, str_rev_concat, IH. done.
Qed.

Lemma trim_start_char_idem c s : trim_start_char c (trim_start_char c s) = trim_start_char c s.
Proof.
  induction s as [|d s IH]; simpl; [done|]. destruct (ascii_eqb c d) eqn:E; [done|].
  simpl. by rewrite E.
Qed.

Lemma trim_start_char_head c s : byte_at (trim_start_char c s) 0 ≠ Some c.
Proof.
  induction s as [|d s IH]; simpl; [done|]. destruct (ascii_eqb c d) eqn:E; [done|].
  simpl. intros [= ->]. by rewrite ascii_eqb_refl in E.
Qed.

Lemma trim_start_char_id c s : byte_at s 0 ≠ Some c → trim_start_char c s = s.
Proof.
  destruct s as [|d s]; simpl; [done|]. intros H. destruct (ascii_eqb c d) eqn:E; [|done].
  apply ascii_eqb_eq in E. congruence.
Qed.

(** What [trim_start_char] drops is a run of that character. *)
Lemma trim_start_char_split c s :
  s = str_repeat (String c EmptyString) (String.length s - String.length (trim_start_char c s))
        +:+ trim_start_char c s.
Proof.
  assert (∀ s, String.length (trim_start_char c s) <= String.length s)%nat as Hle.
  { clear s. induction s as [|d s IH]; simpl; [done|]. destruct (ascii_eqb c d); simpl; lia. }
  induction s as [|d s IH]; [done|]. cbn [trim_start_char].
  destruct (ascii_eqb c d) eqn:E.
  - apply ascii_eqb_eq in E as <-. cbn [String.length]. specialize (Hle s).
    rewrite Nat.sub_succ_l by done. cbn [str_repeat]. simpl. by rewrite <- IH.
  - by rewrite Nat.sub_diag.
Qed.

Lemma strip_prefix_Some p s t : strip_prefix p s = Some t ↔ s = p +:+ t.
Proof.
  unfold strip_prefix. split.
  - destruct (starts_with p s) eqn:E; [|done]. apply starts_with_spec in E as [u ->].
    rewrite str_drop_app. by intros [= ->].
  - intros ->. by rewrite starts_with_app, str_drop_app.
Qed.

Lemma ends_with_spec p s : ends_with p s = true ↔ ∃ t, s = t +:+ p.
Proof.
  unfold ends_with. rewrite starts_with_spec. split; intros [t Ht].
  - exists (str_rev t EmptyString). rewrite <- (str_rev_rev s), Ht, str_rev_concat, str_rev_rev. done.
  - exists (str_rev t EmptyString). by rewrite Ht, str_rev_concat.
Qed.

Lemma split_once_Some c s a b :
  split_once c s = Some (a, b) ↔ s = a +:+ String c b ∧ contains_char c a = false.
Proof.
  unfold contains_char. revert a b. induction s as [|d s IH]; intros a b; simpl.
  - split; [done|]. intros [H _]. by destruct a.
  - destruct (ascii_eqb c d) eqn:E.
    + apply ascii_eqb_eq in E as <-. split; [by intros [= <- <-]|].
      intros [H Ha]. destruct a as [|x a]; simpl in *; [by injection H as ->|].
      injection H as <- _. rewrite ascii_eqb_refl in Ha. done.
    + split.
      * destruct (split_once c s) as [[x y]|]; [|done]. intros [= <- <-].
        destruct (proj1 (IH x y) eq_refl) as [-> Hx]. simpl. by rewrite E.
      * intros [H Ha]. destruct a as [|x a]; simpl in *.
        { injection H as -> _. by rewrite ascii_eqb_refl in E. }
        injection H as -> ->. rewrite E in Ha. simpl in Ha.
        rewrite (proj2 (IH a b)) by done. done.
Qed.

Lemma split_once_None c s : split_once c s = None ↔ contains_char c s = false.
Proof.
  unfold contains_char. induction s as [|d s IH]; simpl; [done|].
  destruct (ascii_eqb c d); simpl; [done|]. destruct (split_once c s) as [[a b]|]; naive_solver.
Qed.

(** What [trim_end_char] drops is a run of that character. *)
Lemma trim_end_char_split c s :
  ∃ n, s = trim_end_char c s +:+ str_repeat (String c EmptyString) n.
Proof.
  unfold trim_end_char.
  pose proof (trim_start_char_split c (str_rev s EmptyString)) as H.
  set (n := (String.length (str_rev s EmptyString) - _)%nat) in H. exists n.
  rewrite <- (str_rev_rev s) at 1. rewrite H at 1. rewrite str_rev_concat. f_equal.
  clear. induction n as [|n IH]; [done|]. cbn [str_repeat]. rewrite str_rev_concat, IH. simpl.
  clear. induction n as [|n IH]; simpl in *; [done|]. by rewrite IH.
Qed.

Lemma trim_char_head c s : byte_at (trim_char c s) 0 ≠ Some c.
Proof.
  unfold trim_char. destruct (trim_end_char_split c (trim_start_char c s)) as [n Hn].
  pose proof (trim_start_char_head c s) as Hh. rewrite Hn in Hh.
  by destruct (trim_end_char c (trim_start_char c s)).
Qed.

Lemma trim_start_char_app c s t :
  s ≠ EmptyString → byte_at s 0 ≠ Some c → trim_start_char c (s +:+ t) = s +:+ t.
Proof. intros Hs Hh. apply trim_start_char_id. by destruct s. Qed.

(** ** Splitting and joining *)

Lemma join_cons sep p q rest : join sep (p :: q :: rest) = p +:+ sep +:+ join sep (q :: rest).
Proof. done. Qed.

Lemma split_char_not_nil c s : split_char c s ≠ [].
Proof. destruct s as [|d s]; simpl; [done|]. destruct (ascii_eqb d c), (split_char c s); done. Qed.

Lemma split_char_pieces c s p : p ∈ split_char c s → contains_char c p = false.
Proof.
  unfold contains_char. revert p. induction s as [|d s IH]; simpl; intros p Hp.
  - apply list_elem_of_singleton in Hp as ->. done.
  - destruct (ascii_eqb d c) eqn:E.
    + apply elem_of_cons in Hp as [->|Hp]; [done|by apply IH].
    + assert (ascii_eqb c d = false) as E' by (unfold ascii_eqb in *; by rewrite Ascii.eqb_sym).
      destruct (split_char c s) as [|w ws].
      * apply list_elem_of_singleton in Hp as ->. simpl. by rewrite E'.
      * apply elem_of_cons in Hp as [->|Hp]; [|apply IH; set_solver].
        simpl. rewrite E'. apply IH. set_solver.
Qed.

Lemma join_split_char c s : join (String c EmptyString) (split_char c s) = s.
Proof.
  induction s as [|d s IH]; simpl; [done|].
  pose proof (split_char_not_nil c s). destruct (split_char c s) as [|w ws] eqn:Es; [done|].
  destruct (ascii_eqb d c) eqn:E.
  - apply ascii_eqb_eq in E as ->. rewrite join_cons, IH. done.
  - destruct ws as [|x ws]; [by rewrite <- IH|]. rewrite <- IH. done.
Qed.

Lemma split_char_join c ps :
  ps ≠ [] → (∀ p, p ∈ ps → contains_char c p = false) →
  split_char c (join (String c EmptyString) ps) = ps.
Proof.
  induction ps as [|p ps IH]; intros Hne Hps; [done|]. destruct ps as [|q ps].
  - simpl. apply split_char_one. set_solver.
  - rewrite join_cons. simpl. rewrite split_char_app by set_solver. f_equal. apply IH; set_solver.
Qed.

(** ** Trimming *)

(** [s] neither starts nor ends with white space. *)
Definition trimmed (s : string) : Prop :=
  ∀ w, w ∈ white_space → starts_with w s = false ∧ ends_with w s = false.

Lemma starts_with_length p s : starts_with p s = true → (String.length p <= String.length s)%nat.
Proof. intros [t ->]%starts_with_spec. rewrite str_length_app. lia. Qed.

Lemma find_none_starts (ws : list string) s :
  List.find (λ w, starts_with w s) ws = None ↔ ∀ w, w ∈ ws → starts_with w s = false.
Proof.
  split.
  - intros H w Hw. apply (List.find_none _ _ H). by apply list_elem_of_In.
  - intros H. destruct (List.find _ ws) as [w|] eqn:E; [|done].
    apply List.find_some in E as [Hw Hs]. apply list_elem_of_In in Hw. by rewrite H in Hs.
Qed.

Lemma trim_start_done ws fuel s :
  (∀ w, w ∈ ws → w ≠ EmptyString) → (String.length s <= fuel)%nat →
  ∀ w, w ∈ ws → starts_with w (trim_start ws fuel s) = false.
Proof.
  intros Hne. revert s. induction fuel as [|fuel IH]; intros s Hs w Hw; simpl.
  - destruct s; [|simpl in Hs; lia]. destruct w eqn:E; [|done]. by destruct (Hne w); subst.
  - destruct (List.find (λ w, starts_with w s) ws) as [v|] eqn:E;
      [|by apply (proj1 (find_none_starts ws s))].
    apply List.find_some in E as [Hv Hs']. apply list_elem_of_In in Hv. apply IH; [|done].
    apply starts_with_spec in Hs' as [t ->]. rewrite str_drop_app. rewrite str_length_app in Hs.
    assert (String.length v ≠ 0)%nat; [|lia]. specialize (Hne v Hv). by destruct v.
Qed.

Lemma trim_start_id ws fuel s :
  (∀ w, w ∈ ws → starts_with w s = false) → trim_start ws fuel s = s.
Proof.
  intros H. destruct fuel; [done|]. simpl. by rewrite (proj2 (find_none_starts ws s)).
Qed.

Lemma trim_start_suffix ws fuel s : ∃ a, s = a +:+ trim_start ws fuel s.
Proof.
  revert s. induction fuel as [|fuel IH]; intros s; simpl; [by exists EmptyString|].
  destruct (List.find (λ w, starts_with w s) ws) as [v|] eqn:E; [|by exists EmptyString].
  apply List.find_some in E as [_ [t ->]%starts_with_spec]. rewrite str_drop_app.
  destruct (IH t) as [a Ha]. exists (v +:+ a). rewrite str_app_assoc. by rewrite <- Ha.
Qed.

Lemma white_space_not_empty w : w ∈ white_space → w ≠ EmptyString.
Proof.
  assert (forallb (λ w, negb (str_is_empty w)) white_space = true) as H by reflexivity.
  rewrite forallb_forall in H. intros Hw ->. apply list_elem_of_In in Hw. by specialize (H _ Hw).
Qed.

Lemma rev_white_space w :
  w ∈ map (λ w, str_rev w EmptyString) white_space →
  w ≠ EmptyString ∧ ∃ v, v ∈ white_space ∧ w = str_rev v EmptyString.
Proof.
  intros (v & -> & Hv)%list_elem_of_fmap. split; [|eauto].
  intros E. apply (white_space_not_empty v Hv).
  by rewrite <- (str_rev_rev v), E.
Qed.

Lemma trim_trimmed s : trimmed (trim s).
Proof.
  unfold trim. set (t := trim_start white_space (String.length s) s).
  set (u := trim_start _ (String.length t) (str_rev t EmptyString)).
  assert (String.length (str_rev t EmptyString) = String.length t) as Hlen.
  { generalize t. clear. induction t as [|c t IH]; [done|].
    rewrite str_rev_snoc, str_length_app, IH. simpl. lia. }
  intros w Hw. split.
  - destruct (starts_with w (str_rev u EmptyString)) eqn:E; [|done].
    apply starts_with_spec in E as [v Hv].
    destruct (trim_start_suffix (map (λ w, str_rev w EmptyString) white_space) (String.length t)
      (str_rev t EmptyString)) as [a Ha]. fold u in Ha.
    assert (t = str_rev u EmptyString +:+ str_rev a EmptyString) as Ht.
    { by rewrite <- str_rev_concat, <- Ha, str_rev_rev. }
    rewrite Hv, str_app_assoc in Ht.
    enough (starts_with w t = false) as Hf by (by rewrite Ht, starts_with_app in Hf).
    apply trim_start_done; [apply white_space_not_empty|lia|done].
  - unfold ends_with. rewrite str_rev_rev. apply trim_start_done; [|by rewrite Hlen|].
    + intros x Hx. by apply rev_white_space in Hx as [? _].
    + apply list_elem_of_fmap. eauto.
Qed.

Lemma trim_id s : trimmed s → trim s = s.
Proof.
  intros H. unfold trim. rewrite (trim_start_id white_space) by (intros w Hw; apply (H w Hw)).
  rewrite trim_start_id; [apply str_rev_rev|].
  intros w (_ & v & Hv & ->)%rev_white_space. apply (H v Hv).
Qed.

Lemma trim_space s : trim (String " " s) = trim s.
Proof.
  unfold trim. replace (trim_start white_space (String.length (String " " s)) (String " " s))
    with (trim_start white_space (String.length s) s); [done|].
  cbn [String.length trim_start].
  assert (List.find (λ w, starts_with w (String " " s)) white_space = Some " ") as -> by reflexivity.
  reflexivity.
Qed.

Lemma trim_infix s : ∃ a b, s = a +:+ trim s +:+ b.
Proof.
  unfold trim. destruct (trim_start_suffix white_space (String.length s) s) as [a Ha].
  set (t := trim_start white_space _ s) in *.
  destruct (trim_start_suffix (map (λ w, str_rev w EmptyString) white_space) (String.length t)
    (str_rev t EmptyString)) as [b Hb].
  exists a, (str_rev b EmptyString). rewrite Ha at 1. f_equal.
  rewrite <- (str_rev_rev t) at 1. rewrite Hb at 1. apply str_rev_concat.
Qed.

Lemma trim_contains c s : contains_char c s = false → contains_char c (trim s) = false.
Proof.
  unfold contains_char. destruct (trim_infix s) as (a & b & Hs). rewrite Hs at 1.
  rewrite !any_byte_app. intros H. by split_bools.
Qed.

Lemma join_space c p ps :
  join (String c (String " " EmptyString)) (p :: ps) =
  join (String c EmptyString) (p :: map (String " ") ps).
Proof.
  revert p. induction ps as [|q ps IH]; intros p; [done|].
  rewrite map_cons, !join_cons, IH. simpl. by destruct (map (String " ") ps).
Qed.

(** Pieces joined with a space after the separator are read back by trimming. *)
Lemma split_join_space c ps :
  ps ≠ [] → ascii_eqb c " " = false →
  (∀ p, p ∈ ps → contains_char c p = false ∧ trimmed p) →
  map trim (split_char c (join (String c (String " " EmptyString)) ps)) = ps.
Proof.
  intros Hne Hsp Hps. destruct ps as [|p ps]; [done|]. rewrite join_space, split_char_join; [|done|].
  - simpl. f_equal; [apply trim_id, Hps; set_solver|]. rewrite map_map.
    transitivity (map id ps); [|apply map_id]. apply map_ext_in. intros q Hq.
    rewrite trim_space. apply trim_id, Hps. apply list_elem_of_In in Hq. set_solver.
  - intros q [->|(q' & -> & Hq)%list_elem_of_fmap]%elem_of_cons; [apply Hps; set_solver|].
    unfold contains_char. simpl. rewrite Hsp. simpl. apply Hps. set_solver.
Qed.

(** A text of graphic bytes has nothing to trim. *)
(** White space never starts or ends with a graphic byte. *)
Lemma white_space_graphic w c s :
  w ∈ white_space → is_ascii_graphic c = true →
  starts_with w (String c s) = false ∧ starts_with (str_rev w EmptyString) (String c s) = false.
Proof.
  intros Hw Hc.
  assert (forallb (λ w, match w, str_rev w EmptyString with
                        | String a _, String b _ =>
                            negb (is_ascii_graphic a) && negb (is_ascii_graphic b)
                        | _, _ => false
                        end) white_space = true) as H by reflexivity.
  rewrite forallb_forall in H. specialize (H w (proj1 (list_elem_of_In _ _) Hw)).
  destruct w as [|a w]; [done|]. destruct (str_rev (String a w) EmptyString) as [|b v]; [done|].
  apply andb_true_iff in H as [Ha Hb]. simpl.
  split; apply andb_false_iff; left; apply not_true_iff_false; intros ->%ascii_eqb_eq;
    [by rewrite Hc in Ha|by rewrite Hc in Hb].
Qed.

Lemma graphic_ends_trimmed a s b :
  is_ascii_graphic a = true → is_ascii_graphic b = true →
  trimmed (String a (s +:+ String b EmptyString)).
Proof.
  intros Ha Hb w Hw. split; [by apply white_space_graphic|]. unfold ends_with.
  change (String a (s +:+ String b EmptyString)) with ((String a s) +:+ String b EmptyString).
  rewrite str_rev_concat. by apply white_space_graphic.
Qed.

Lemma graphic_trimmed s :
  all_bytes is_ascii_graphic s = true → trimmed s.
Proof.
  intros Hs w Hw. unfold ends_with.
  assert (∀ v t, v = w ∨ v = str_rev w EmptyString → all_bytes is_ascii_graphic t = true →
    starts_with v t = false) as H.
  { intros v [|c t] Hv Ht.
    - destruct v as [|x v]; [|done]. destruct Hv as [<-|Hv]; [by apply white_space_not_empty in Hw|].
      apply (f_equal (fun u => str_rev u EmptyString)) in Hv. rewrite str_rev_rev in Hv. subst w.
      by apply white_space_not_empty in Hw.
    - simpl in Ht. apply andb_true_iff in Ht as [Hc _].
      destruct Hv as [-> | ->]; by apply white_space_graphic. }
  split; apply H; auto.
  clear -Hs. induction s as [|c s IH]; [done|]. simpl in Hs. apply andb_true_iff in Hs as [Hc Hs].
  rewrite str_rev_snoc, all_bytes_app, IH by done. simpl. by rewrite Hc.
Qed.

(** ** Lines *)

Lemma split_char_concat c a b :
  split_char c (a +:+ String c b) = split_char c a ++ split_char c b.
Proof.
  induction a as [|d a IH]; simpl; [by rewrite ascii_eqb_refl|].
  destruct (ascii_eqb d c); [by rewrite IH|]. rewrite IH.
  destruct (split_char c a) as [|w ws] eqn:E; [by apply split_char_not_nil in E|done].
Qed.

Lemma line_pieces_app ps qs : qs ≠ [] → line_pieces (ps ++ qs) = map strip_cr ps ++ line_pieces qs.
Proof.
  intros Hq. induction ps as [|p ps IH]; [done|]. simpl. rewrite <- IH.
  destruct ps; [by destruct qs|done].
Qed.

(** The lines in front of a newline and those behind it *)
Lemma text_lines_split a b :
  text_lines (a +:+ String "010"%char b) = map strip_cr (split_char "010"%char a) ++ text_lines b.
Proof. unfold text_lines. rewrite split_char_concat. apply line_pieces_app, split_char_not_nil. Qed.

(** A text made of lines has those lines. *)
Lemma text_lines_join ls :
  Forall (fun l => contains_char "010"%char l = false ∧ strip_cr l = l) ls →
  text_lines (join_lines "010"%char ls) = ls.
Proof.
  induction 1 as [|l ls [Hl Hcr] _ IH]; [done|]. simpl.
  by rewrite text_lines_split, split_char_one, IH by done; simpl; rewrite Hcr.
Qed.
