(* ===== verification/Ids.v ===== *)
(** * Opaque identifiers: [crates/phantom-authority/src/ids.rs]

    The [opaque_id!] macro is one definition parametric in the kind of
    identifier; privacy of the Rust field is a dependent record, so every
    value of the type carries the proof that it has the exact shape. *)

From S2P Require Import Prelude.

Definition ID_HEX_LEN : nat := 32.

(** [fn valid_prefixed_hex] *)
Definition valid_prefixed_hex (value prefix : string) (hex_len : nat) : bool :=
  (String.length value =? String.length prefix + hex_len)%nat
  && starts_with prefix value
  && all_bytes is_lower_hex (str_drop (String.length prefix) value).

(** The instantiations of [opaque_id!]. *)
Inductive IdKind :=
  | WorkspaceIdK | BindingIdK | PlaceIdK | VaultNamespaceIdK | InstallationIdK
  | SessionIdK | ActionIdK | GrantIdK | LeaseIdK.

Definition id_kind_name (k : IdKind) : string :=
  match k with
  | WorkspaceIdK => "workspace id"
  | BindingIdK => "binding id"
  | PlaceIdK => "place id"
  | VaultNamespaceIdK => "vault namespace id"
  | InstallationIdK => "installation id"
  | SessionIdK => "session id"
  | ActionIdK => "action id"
  | GrantIdK => "grant id"
  | LeaseIdK => "lease id"
  end.

Definition id_prefix (k : IdKind) : string :=
  match k with
  | WorkspaceIdK => "wrk_"
  | BindingIdK => "bnd_"
  | PlaceIdK => "plc_"
  | VaultNamespaceIdK => "vlt_"
  | InstallationIdK => "ins_"
  | SessionIdK => "ses_"
  | ActionIdK => "act_"
  | GrantIdK => "grt_"
  | LeaseIdK => "lea_"
  end.

Record IdParseError := {
  ipe_kind : string;
  ipe_prefix : string;
  ipe_hex_len : nat;
}.

(** [struct $name(String)] with a private field. *)
Record OpaqueId (k : IdKind) := mk_id {
  id_str : string;
  id_valid : valid_prefixed_hex id_str (id_prefix k) ID_HEX_LEN = true;
}.
Arguments mk_id {k} id_str id_valid.
Arguments id_str {k} o.
Arguments id_valid {k} o.

Abbreviation WorkspaceId := (OpaqueId WorkspaceIdK).
Abbreviation BindingId := (OpaqueId BindingIdK).
Abbreviation PlaceId := (OpaqueId PlaceIdK).
Abbreviation VaultNamespaceId := (OpaqueId VaultNamespaceIdK).
Abbreviation InstallationId := (OpaqueId InstallationIdK).
Abbreviation SessionId := (OpaqueId SessionIdK).
Abbreviation ActionId := (OpaqueId ActionIdK).
Abbreviation GrantId := (OpaqueId GrantIdK).
Abbreviation LeaseId := (OpaqueId LeaseIdK).

(** Dependent test: the boolean together with its equation. *)
Definition with_proof {A} (b : bool) (t : b = true → A) (e : A) : A :=
  match b as b' return (b' = true → A) → A with
  | true => fun t => t eq_refl
  | false => fun _ => e
  end t.

(** [impl FromStr for $name] *)
Definition id_from_str (k : IdKind) (value : string)
    : result (OpaqueId k) IdParseError :=
  with_proof (valid_prefixed_hex value (id_prefix k) ID_HEX_LEN)
    (fun H => Ok (mk_id value H))
    (Err {| ipe_kind := id_kind_name k;
            ipe_prefix := id_prefix k;
            ipe_hex_len := ID_HEX_LEN |}).

Definition DIGEST_HEX_LEN : nat := 64.

(** [struct Sha256Digest(String)] *)
Record Sha256Digest := mk_digest {
  digest_str : string;
  digest_valid : valid_prefixed_hex digest_str "" DIGEST_HEX_LEN = true;
}.

Definition digest_from_str (value : string) : result Sha256Digest IdParseError :=
  with_proof (valid_prefixed_hex value "" DIGEST_HEX_LEN)
    (fun H => Ok (mk_digest value H))
    (Err {| ipe_kind := "sha256 digest"; ipe_prefix := "";
            ipe_hex_len := DIGEST_HEX_LEN |}).

Lemma with_proof_true {A} (b : bool) (t : b = true → A) e (H : b = true) :
  with_proof b t e = t H.
Proof. destruct b; [|done]. simpl. f_equal. apply proof_irrel. Qed.

Lemma with_proof_false {A} (b : bool) (t : b = true → A) e :
  b = false → with_proof b t e = e.
Proof. by destruct b. Qed.

(** Identifiers are determined by their text. *)
Lemma id_str_inj k (a b : OpaqueId k) : id_str a = id_str b → a = b.
Proof.
  destruct a as [a Ha], b as [b Hb]; simpl. intros ->. f_equal. apply proof_irrel.
Qed.

Lemma digest_str_inj (a b : Sha256Digest) : digest_str a = digest_str b → a = b.
Proof.
  destruct a as [a Ha], b as [b Hb]; simpl. intros ->. f_equal. apply proof_irrel.
Qed.

#[export] Instance OpaqueId_eq_dec k : EqDecision (OpaqueId k).
Proof.
  intros a b. destruct (decide (id_str a = id_str b)) as [H|H].
  - left. by apply id_str_inj.
  - right. intros ->. by apply H.
Defined.

#[export] Instance Sha256Digest_eq_dec : EqDecision Sha256Digest.
Proof.
  intros a b. destruct (decide (digest_str a = digest_str b)) as [H|H].
  - left. by apply digest_str_inj.
  - right. intros ->. by apply H.
Defined.

(** The display form of an identifier parses back to it. *)
Lemma id_from_str_of_id k (i : OpaqueId k) : id_from_str k (id_str i) = Ok i.
Proof.
  unfold id_from_str. rewrite (with_proof_true _ _ _ (id_valid i)). by destruct i.
Qed.

Lemma id_from_str_Ok k s i : id_from_str k s = Ok i ↔ id_str i = s.
Proof.
  split; [|intros <-; apply id_from_str_of_id].
  unfold id_from_str.
  destruct (decide (valid_prefixed_hex s (id_prefix k) ID_HEX_LEN = true)) as [E|E].
  - rewrite (with_proof_true _ _ _ E). by intros [= <-].
  - rewrite with_proof_false; [done|]. by apply not_true_is_false.
Qed.

Lemma digest_from_str_of_digest d : digest_from_str (digest_str d) = Ok d.
Proof.
  unfold digest_from_str. rewrite (with_proof_true _ _ _ (digest_valid d)).
  by destruct d.
Qed.

Lemma digest_from_str_Ok s d : digest_from_str s = Ok d ↔ digest_str d = s.
Proof.
  split; [|intros <-; apply digest_from_str_of_digest].
  unfold digest_from_str.
  destruct (decide (valid_prefixed_hex s "" DIGEST_HEX_LEN = true)) as [E|E].
  - rewrite (with_proof_true _ _ _ E). by intros [= <-].
  - rewrite with_proof_false; [done|]. by apply not_true_is_false.
Qed.

Lemma digest_from_str_valid s :
  valid_prefixed_hex s "" DIGEST_HEX_LEN = true →
  ∃ d, digest_from_str s = Ok d ∧ digest_str d = s.
Proof. intros H. exists (mk_digest s H). split; [|done]. by apply digest_from_str_Ok. Qed.

(** What an accepted identifier looks like. *)
Lemma valid_prefixed_hex_spec v p n :
  valid_prefixed_hex v p n = true ↔
  ∃ h, v = p +:+ h ∧ String.length h = n ∧ all_bytes is_lower_hex h = true.
Proof.
  unfold valid_prefixed_hex. rewrite !andb_true_iff, Nat.eqb_eq, starts_with_spec.
  split.
  - intros [[Hl [h ->]] Hh]. rewrite str_drop_app in Hh.
    rewrite str_length_app in Hl. exists h. split_and!; [done|lia|done].
  - intros (h & -> & <- & Hh). rewrite str_drop_app, str_length_app. eauto.
Qed.

#[export] Hint Rewrite id_from_str_of_id digest_from_str_of_digest : result.
