(* ===== verification/External.v ===== *)
(** * Third-party code the program relies on

    [serde_json], [sha2], [hmac] and [hex] are crates, not source of this
    repository: their functions are the fields of the class [External] and
    what the code relies on is the class [ExternalLaws].  [serde_json]'s
    [Value] is a data type the source matches on, so it is defined here.
    A concrete instance ([demo_external]) shows the laws can hold; it is used
    by the witnesses only. *)

From S2P Require Import Prelude Ids.

(** ** [serde_json::Value] *)

Inductive json_number :=
  | NPos (n : N)
  | NNeg (z : Z)
  | NFloat (repr : string).

Inductive value :=
  | VNull
  | VBool (b : bool)
  | VNumber (n : json_number)
  | VString (s : string)
  | VArray (l : list value)
  | VObject (m : list (string * value)).

(** Induction over nested values. *)
Section value_induction.
Variable P : value → Prop.
Hypothesis HNull : P VNull.
Hypothesis HBool : ∀ b, P (VBool b).
Hypothesis HNumber : ∀ n, P (VNumber n).
Hypothesis HString : ∀ s, P (VString s).
Hypothesis HArray : ∀ l, Forall P l → P (VArray l).
Hypothesis HObject : ∀ m, Forall (fun kv => P kv.2) m → P (VObject m).

Fixpoint value_ind' (v : value) : P v :=
  match v with
  | VNull => HNull
  | VBool b => HBool b
  | VNumber n => HNumber n
  | VString s => HString s
  | VArray l =>
      HArray l ((fix go l := match l return Forall P l with
                 | [] => Forall_nil_2 _
                 | x :: l' => Forall_cons_2 _ x l' (value_ind' x) (go l')
                 end) l)
  | VObject m =>
      HObject m ((fix go m := match m return Forall (fun kv => P kv.2) m with
                  | [] => Forall_nil_2 _
                  | x :: m' => Forall_cons_2 _ x m' (value_ind' x.2) (go m')
                  end) m)
  end.
End value_induction.

(** [Number::is_f64] *)
Definition is_f64 (n : json_number) : bool :=
  match n with NFloat _ => true | _ => false end.

(** [Number]'s [Display] on integers; a float prints its own text. *)
Definition number_to_string (n : json_number) : string :=
  match n with
  | NPos n => N_to_string n
  | NNeg z => String "-"%char (N_to_string (Z.to_N (- z)))
  | NFloat s => s
  end.

(** [serde::Serialize] through [serde_json::to_value]: the derive macro's
    output is spelled out by each instance from the attributes in the source. *)
Class Serialize (T : Type) := to_value : T → value.

(** [serde::Deserialize] through [serde_json::from_value]: generated code. *)
Class Deserialize (T : Type) := from_value : value → option T.

#[export] Instance Serialize_value : Serialize value := fun v => v.
#[export] Instance Serialize_string : Serialize string := VString.
#[export] Instance Serialize_N : Serialize N := fun n => VNumber (NPos n).
#[export] Instance Serialize_bool : Serialize bool := VBool.
#[export] Instance Serialize_list {T} `{Serialize T} : Serialize (list T) :=
  fun l => VArray (map to_value l).
#[export] Instance Serialize_option {T} `{Serialize T} : Serialize (option T) :=
  fun o => match o with Some x => to_value x | None => VNull end.
#[export] Instance Serialize_id k : Serialize (OpaqueId k) := fun i => VString (id_str i).
#[export] Instance Serialize_digest : Serialize Sha256Digest := fun d => VString (digest_str d).

(** A struct field marked [skip_serializing_if = "Option::is_none"]. *)
Definition skip_none {T} `{Serialize T} (name : string) (o : option T)
    : list (string * value) :=
  match o with Some x => [(name, to_value x)] | None => [] end.

(** ** The foreign functions *)

Class External := {
  (** the 32 bytes of [Sha256::digest] *)
  sha256 : string → string;
  (** the 32 bytes of HMAC-SHA256 under a key *)
  hmac_sha256 : string → string → string;
  hex_encode : string → string;
  hex_decode : string → option string;
  (** [serde_json::to_string] on a [str] *)
  json_string : string → string;
  (** [serde_json::from_slice::<Value>] *)
  parse_json : string → option value;
  (** [serde_json::to_vec] on a serializable value, fields in their order *)
  json_to_vec : value → string;
}.

Class ExternalLaws (X : External) : Prop := {
  sha256_length : ∀ s, String.length (sha256 s) = 32%nat;
  hmac_length : ∀ k s, String.length (hmac_sha256 k s) = 32%nat;
  hex_encode_length : ∀ s, String.length (hex_encode s) = (2 * String.length s)%nat;
  hex_encode_lower : ∀ s, all_bytes is_lower_hex (hex_encode s) = true;
  hex_decode_encode : ∀ s, hex_decode (hex_encode s) = Some s;
}.

(** [serde_json::from_slice] at a type *)
Definition from_slice `{External} {T} `{Deserialize T} (bytes : string) : option T :=
  match parse_json bytes with Some v => from_value v | None => None end.

(** A JSON string literal starts with a quotation mark and is self-delimiting and
    on one line: where two literals start two equal texts, they are the same literal. *)
Class JsonStringLaws (X : External) : Prop := {
  json_string_quote : ∀ s, first_byte (json_string s) = Some "034"%char;
  json_string_prefix : ∀ a b x y,
    json_string a +:+ x = json_string b +:+ y → a = b ∧ x = y;
  (** a newline in a string is escaped *)
  json_string_line : ∀ s, any_byte (ascii_eqb "010"%char) (json_string s) = false;
}.

(** Serde's contract for a type with derived implementations: what was
    serialized is what is read back. *)
Class SerdeRoundTrip `{External} (T : Type) `{Serialize T, Deserialize T} : Prop :=
  serde_round_trip : ∀ x : T, from_slice (json_to_vec (to_value x)) = Some x.

(** [hex::encode(Sha256::digest(x))] *)
Definition sha256_hex `{External} (s : string) : string := hex_encode (sha256 s).

Section external_lemmas.
Context `{X : External} `{L : !ExternalLaws X}.

(** A hex-encoded 32-byte digest has the shape of a [Sha256Digest]. *)
Lemma hex32_valid s :
  String.length s = 32%nat →
  valid_prefixed_hex (hex_encode s) "" DIGEST_HEX_LEN = true.
Proof.
  intros Hs. apply valid_prefixed_hex_spec. exists (hex_encode s).
  rewrite hex_encode_length, hex_encode_lower, Hs. done.
Qed.

Lemma sha256_hex_digest s :
  ∃ d, digest_from_str (sha256_hex s) = Ok d ∧ digest_str d = sha256_hex s.
Proof. apply digest_from_str_valid, hex32_valid, sha256_length. Qed.

Lemma hmac_hex_digest k s :
  ∃ d, digest_from_str (hex_encode (hmac_sha256 k s)) = Ok d ∧
       digest_str d = hex_encode (hmac_sha256 k s).
Proof. apply digest_from_str_valid, hex32_valid, hmac_length. Qed.

Lemma hex_encode_inj a b : hex_encode a = hex_encode b → a = b.
Proof.
  intros H. apply (f_equal hex_decode) in H. rewrite !hex_decode_encode in H.
  congruence.
Qed.
End external_lemmas.

(** ** A concrete instance for the witnesses

    Real hexadecimal coding; the digests pad or truncate to 32 bytes. *)

Definition nibble_char (n : N) : ascii :=
  if (n <? 10)%N then ascii_of_N (48 + n) else ascii_of_N (87 + n).

Definition char_nibble (c : ascii) : option N :=
  if is_ascii_digit c then Some (N_of_ascii c - 48)%N
  else if byte_in "a"%char "f"%char c then Some (N_of_ascii c - 87)%N
  else if byte_in "A"%char "F"%char c then Some (N_of_ascii c - 55)%N
  else None.

Fixpoint demo_hex_encode (s : string) : string :=
  match s with
  | EmptyString => EmptyString
  | String c s' =>
      String (nibble_char (N_of_ascii c / 16))
        (String (nibble_char (N_of_ascii c mod 16)) (demo_hex_encode s'))
  end.

Fixpoint demo_hex_decode (s : string) : option string :=
  match s with
  | EmptyString => Some EmptyString
  | String a (String b s') =>
      match char_nibble a, char_nibble b, demo_hex_decode s' with
      | Some x, Some y, Some t => Some (String (ascii_of_N (16 * x + y)) t)
      | _, _, _ => None
      end
  | String _ EmptyString => None
  end.

Fixpoint fit (n : nat) (s : string) : string :=
  match n, s with
  | O, _ => EmptyString
  | S n', EmptyString => String "."%char (fit n' EmptyString)
  | S n', String c s' => String c (fit n' s')
  end.

(** The last 32 bytes, padded: enough to tell the witnesses' inputs apart. *)
Definition demo_digest (s : string) : string :=
  fit 32 (str_drop (String.length s - 32) s).

(** Quotation marks, backslashes and newlines are escaped. *)
Fixpoint demo_escape (s : string) : string :=
  match s with
  | EmptyString => String "034"%char EmptyString
  | String c s' =>
      if ascii_eqb c "034"%char || ascii_eqb c "\"%char
      then String "\"%char (String c (demo_escape s'))
      else if ascii_eqb c "010"%char then String "\"%char (String "n"%char (demo_escape s'))
      else String c (demo_escape s')
  end.

Definition demo_quote (s : string) : string := String "034"%char (demo_escape s).

Fixpoint demo_to_vec (v : value) : string :=
  match v with
  | VNull => "null"
  | VBool b => if b then "true" else "false"
  | VNumber n => number_to_string n
  | VString s => demo_quote s
  | VArray l => "[" +:+ foldr (fun v t => demo_to_vec v +:+ "," +:+ t) "]" l
  | VObject m =>
      "{" +:+ foldr (fun kv t => demo_quote kv.1 +:+ ":" +:+ demo_to_vec kv.2 +:+ "," +:+ t) "}" m
  end.

#[export] Instance demo_external : External := {|
  sha256 := demo_digest;
  hmac_sha256 k s := demo_digest (s +:+ k);
  hex_encode := demo_hex_encode;
  hex_decode := demo_hex_decode;
  json_string := demo_quote;
  parse_json s := None;
  json_to_vec v := demo_to_vec v;
|}.

Lemma fit_length n s : String.length (fit n s) = n.
Proof. revert s. induction n as [|n IH]; intros [|c s]; simpl; auto. Qed.

(** The two hexadecimal digits of a byte, checked on all 256 bytes. *)
Definition hex_byte_ok (n : N) : bool :=
  let c := ascii_of_N n in
  let a := nibble_char (N_of_ascii c / 16) in
  let b := nibble_char (N_of_ascii c mod 16) in
  is_lower_hex a && is_lower_hex b &&
  match char_nibble a, char_nibble b with
  | Some x, Some y => ascii_eqb (ascii_of_N (16 * x + y)) c
  | _, _ => false
  end.

Lemma hex_byte_all : forallb hex_byte_ok (map N.of_nat (seq 0 256)) = true.
Proof. vm_compute. reflexivity. Qed.

Lemma hex_byte_every c : hex_byte_ok (N_of_ascii c) = true.
Proof.
  pose proof (proj1 (forallb_forall _ _) hex_byte_all (N_of_ascii c)) as H.
  apply H. apply in_map_iff. exists (N.to_nat (N_of_ascii c)).
  split; [lia|]. apply in_seq. pose proof (Ascii.N_ascii_bounded c). lia.
Qed.

#[export] Instance demo_external_laws : ExternalLaws demo_external.
Proof.
  constructor; simpl.
  - intros s. apply fit_length.
  - intros k s. apply fit_length.
  - induction s as [|c s IH]; simpl; [done|]. rewrite IH. lia.
  - induction s as [|c s IH]; [done|]. simpl. rewrite IH, andb_true_r.
    pose proof (hex_byte_every c) as H. unfold hex_byte_ok in H.
    rewrite Ascii.ascii_N_embedding in H.
    apply andb_true_iff in H as [[H1 H2]%andb_true_iff _]. by rewrite H1, H2.
  - induction s as [|c s IH]; [done|]. simpl. rewrite IH.
    pose proof (hex_byte_every c) as H. unfold hex_byte_ok in H.
    rewrite Ascii.ascii_N_embedding in H.
    apply andb_true_iff in H as [_ H].
    repeat case_match; try done. by apply ascii_eqb_eq in H as ->.
Qed.

(** What the next bytes of a literal are, by its next byte *)
Definition escape_byte (c : ascii) : string :=
  if ascii_eqb c "034"%char || ascii_eqb c "\"%char then String "\"%char (String c EmptyString)
  else if ascii_eqb c "010"%char then String "\"%char (String "n"%char EmptyString)
  else String c EmptyString.

Lemma demo_escape_cons c s : demo_escape (String c s) = escape_byte c +:+ demo_escape s.
Proof.
  simpl. unfold escape_byte.
  destruct (ascii_eqb c "034"%char || ascii_eqb c "\"%char); [done|].
  by destruct (ascii_eqb c "010"%char).
Qed.

Lemma escape_byte_inj c d x y : escape_byte c +:+ x = escape_byte d +:+ y → c = d ∧ x = y.
Proof.
  unfold escape_byte. intros He.
  destruct (ascii_eqb c "034"%char || ascii_eqb c "\"%char) eqn:Ec,
    (ascii_eqb d "034"%char || ascii_eqb d "\"%char) eqn:Ed; simpl in He.
  - by injection He.
  - destruct (ascii_eqb d "010"%char) eqn:En; simpl in He; injection He as H1 H2; subst; done.
  - destruct (ascii_eqb c "010"%char) eqn:En; simpl in He; injection He as H1 H2; subst; done.
  - destruct (ascii_eqb c "010"%char) eqn:En, (ascii_eqb d "010"%char) eqn:Em; simpl in He.
    + apply ascii_eqb_eq in En as ->, Em as ->. by injection He.
    + injection He as <- He. by rewrite orb_true_r in Ed.
    + injection He as -> He. by rewrite orb_true_r in Ec.
    + by injection He.
Qed.

Lemma demo_escape_prefix a b x y :
  demo_escape a +:+ x = demo_escape b +:+ y → a = b ∧ x = y.
Proof.
  revert b. induction a as [|c a IH]; intros [|d b]; rewrite ?demo_escape_cons, ?str_app_assoc.
  - by intros [= ->].
  - intros He. exfalso. revert He. unfold escape_byte.
    destruct (_ || _) eqn:E; simpl; [done|]. destruct (ascii_eqb d "010"%char); simpl; [done|].
    intros [= <- _]. by rewrite ascii_eqb_refl in E.
  - intros He. exfalso. revert He. unfold escape_byte.
    destruct (_ || _) eqn:E; simpl; [done|]. destruct (ascii_eqb c "010"%char); simpl; [done|].
    intros [= -> _]. by rewrite ascii_eqb_refl in E.
  - intros [-> He]%escape_byte_inj. by apply IH in He as [-> ->].
Qed.

Lemma demo_escape_line s : any_byte (ascii_eqb "010"%char) (demo_escape s) = false.
Proof.
  induction s as [|c s IH]; [done|]. rewrite demo_escape_cons. unfold escape_byte.
  destruct (ascii_eqb c "034"%char || ascii_eqb c "\"%char) eqn:E; simpl.
  - rewrite IH. by apply orb_true_iff in E as [->%ascii_eqb_eq| ->%ascii_eqb_eq].
  - destruct (ascii_eqb c "010"%char) eqn:En; simpl; rewrite IH; [done|].
    destruct (ascii_eqb "010"%char c) eqn:En'; [|done]. apply ascii_eqb_eq in En' as <-. done.
Qed.

#[export] Instance demo_string_laws : JsonStringLaws demo_external.
Proof.
  constructor; simpl; [done| |apply demo_escape_line].
  intros a b x y. intros [= He]. by apply demo_escape_prefix.
Qed.

(** An instance whose parser leaves a document to its type's decoder, which
    knows the texts of a few values. *)
Definition known_documents_external : External := {|
  sha256 := demo_digest; hmac_sha256 k s := demo_digest (s +:+ k);
  hex_encode := demo_hex_encode; hex_decode := demo_hex_decode;
  json_string := demo_quote; parse_json b := Some (VString b); json_to_vec := demo_to_vec |}.

Lemma known_documents_laws : JsonStringLaws known_documents_external.
Proof. destruct demo_string_laws. by constructor. Qed.

(** The decoder of a type whose values in [known] are the only documents *)
Definition known_documents {T} (text : T → string) (known : list T) : Deserialize T := fun v =>
  match v with VString b => List.find (fun x => String.eqb (text x) b) known | _ => None end.
