(* ===== verification/Canonical.v ===== *)
(** * Canonical JSON: [crates/phantom-authority/src/canonical.rs]

    [canonical_json_v1] (recursively sorted object keys, no floats) and the
    closed decoder built on it.  Serde's parsing is the parameter
    [parse_json]/[from_value] of [External]. *)

From S2P Require Import Prelude Ids External.
From Stdlib Require Import Permutation.

Inductive CanonicalJsonError := FloatForbidden | NonCanonicalInput | Json.

#[export] Instance CanonicalJsonError_eq_dec : EqDecision CanonicalJsonError.
Proof. solve_decision. Defined.

(** [keys.sort_unstable()] *)
Definition key_le (a b : string) : Prop := ord_cmp a b ≠ Gt.

#[export] Instance key_le_dec : RelDecision key_le.
Proof. unfold RelDecision, key_le. intros a b. apply _. Defined.

Definition sort_keys (ks : list string) : list string := merge_sort key_le ks.

(** [&object[key]] *)
Fixpoint member {A} (key : string) (m : list (string * A)) : option A :=
  match m with
  | [] => None
  | (k, v) :: m' => if String.eqb k key then Some v else member key m'
  end.

(** The comma-separated loop of [write_canonical]; the first failing element
    ends it with its error. *)
Fixpoint write_items (items : list (result string CanonicalJsonError))
    : result string CanonicalJsonError :=
  match items with
  | [] => Ok EmptyString
  | [i] => i
  | i :: rest => let? s := i in let? t := write_items rest in Ok (s +:+ "," +:+ t)
  end.

Section canonical.
Context `{X : External}.

(** One [key:value] pair of the object loop. *)
Definition write_member (rendered : list (string * result string CanonicalJsonError))
    (key : string) : result string CanonicalJsonError :=
  match member key rendered with
  | Some item => let? s := item in Ok (json_string key +:+ ":" +:+ s)
  | None => Err Json
  end.

(** [fn write_canonical]; the recursion on the members is tied before their
    keys are put in order, the output is assembled in key order. *)
Fixpoint write_canonical (v : value) : result string CanonicalJsonError :=
  match v with
  | VNull => Ok "null"
  | VBool true => Ok "true"
  | VBool false => Ok "false"
  | VNumber n => fail_if (is_f64 n) FloatForbidden (Ok (number_to_string n))
  | VString s => Ok (json_string s)
  | VArray l => let? s := write_items (map write_canonical l) in Ok ("[" +:+ s +:+ "]")
  | VObject m =>
      let rendered := map (fun kv => (kv.1, write_canonical kv.2)) m in
      let? s := write_items (map (write_member rendered) (sort_keys (map fst m))) in
      Ok ("{" +:+ s +:+ "}")
  end.

(** [pub fn canonical_json_v1] *)
Definition canonical_json_v1 {T} `{Serialize T} (x : T)
    : result string CanonicalJsonError :=
  write_canonical (to_value x).

(** [fn reject_floats] *)
Fixpoint reject_floats (v : value) : result unit CanonicalJsonError :=
  match v with
  | VNumber n => fail_if (is_f64 n) FloatForbidden (Ok tt)
  | VArray l => foldr (fun v k => let? _ := reject_floats v in k) (Ok tt) l
  | VObject m => foldr (fun kv k => let? _ := reject_floats kv.2 in k) (Ok tt) m
  | _ => Ok tt
  end.

(** [pub fn decode_closed_json_v1] *)
Definition decode_closed_json_v1 {T} `{Serialize T, Deserialize T} (bytes : string)
    : result T CanonicalJsonError :=
  let? v := ok_or (parse_json bytes) Json in
  let? _ := reject_floats v in
  let? decoded := ok_or (from_value v) Json in
  let? text := canonical_json_v1 decoded in
  fail_if (negb (String.eqb text bytes)) NonCanonicalInput (Ok decoded).
End canonical.

(** ** Values without floating-point numbers *)

Fixpoint float_free (v : value) : bool :=
  match v with
  | VNumber n => negb (is_f64 n)
  | VArray l => forallb float_free l
  | VObject m => forallb (fun kv => float_free kv.2) m
  | _ => true
  end.

(** A [serde_json] object never holds a key twice. *)
Fixpoint unique_keys (v : value) : Prop :=
  match v with
  | VArray l => Forall id (map unique_keys l)
  | VObject m => NoDup (map fst m) ∧ Forall id (map (fun kv => unique_keys kv.2) m)
  | _ => True
  end.

(** Equality of JSON values up to the order of object members. *)
Inductive json_equiv : value → value → Prop :=
  | je_refl v : json_equiv v v
  | je_array l l' : Forall2 json_equiv l l' → json_equiv (VArray l) (VArray l')
  | je_object m m' m'' :
      Permutation m m'' →
      Forall2 (fun a b => a.1 = b.1 ∧ json_equiv a.2 b.2) m'' m' →
      json_equiv (VObject m) (VObject m').

(** ** Lemmas *)

Section canonical_lemmas.
Context `{X : External}.

#[local] Instance key_le_trans : Transitive key_le.
Proof.
  intros a b c. unfold key_le. intros Hab Hbc Hac.
  apply ord_cmp_gt in Hac.
  destruct (ord_cmp a b) eqn:Eab; [|clear Hab|done].
  - apply ord_cmp_eq in Eab as ->. by apply ord_cmp_gt in Hac.
  - apply Hbc. apply ord_cmp_gt. eapply ord_lt_trans; [exact Hac|exact Eab].
Qed.

#[local] Instance key_le_total : Total key_le.
Proof.
  intros a b. unfold key_le. destruct (ord_cmp a b) eqn:E; [by left|by left|].
  right. apply ord_cmp_gt in E. unfold ord_lt in E. by rewrite E.
Qed.

#[local] Instance key_le_antisymm : AntiSymm (=) key_le.
Proof.
  intros a b Hab Hba. unfold key_le in *. destruct (ord_cmp a b) eqn:E.
  - by apply ord_cmp_eq in E.
  - exfalso. apply Hba, ord_cmp_gt, E.
  - done.
Qed.

Lemma sort_keys_perm ks ks' : Permutation ks ks' → sort_keys ks = sort_keys ks'.
Proof.
  intros Hp. apply (Sorted_unique key_le).
  - apply Sorted_merge_sort, _.
  - apply Sorted_merge_sort, _.
  - unfold sort_keys. by rewrite !merge_sort_Permutation.
Qed.

Lemma sort_keys_elem k ks : k ∈ sort_keys ks ↔ k ∈ ks.
Proof. unfold sort_keys. by rewrite merge_sort_Permutation. Qed.

Lemma member_perm {A} (m m' : list (string * A)) k :
  NoDup (map fst m) → Permutation m m' → member k m = member k m'.
Proof.
  intros Hnd Hp. induction Hp as [|[a v] m m' Hp IH|[a v] [b w] m|m1 m2 m3 Hp1 IH1 Hp2 IH2];
    simpl in *; [done| | |].
  - inversion Hnd; subst. by rewrite IH.
  - apply NoDup_cons in Hnd as [Hn _].
    destruct (String.eqb_spec b k), (String.eqb_spec a k); subst; try done. set_solver.
  - rewrite IH1; [|done]. apply IH2.
    by rewrite <- (Permutation_map fst Hp1).
Qed.

Lemma member_In {A} (m : list (string * A)) k :
  k ∈ map fst m → ∃ v, member k m = Some v.
Proof.
  induction m as [|[a v] m IH]; simpl; [set_solver|].
  destruct (String.eqb_spec a k); [eauto|]. intros Hk. apply IH. set_solver.
Qed.

Lemma member_elem {A} (m : list (string * A)) k v :
  member k m = Some v → (k, v) ∈ m.
Proof.
  induction m as [|[a w] m IH]; simpl; [done|].
  destruct (String.eqb_spec a k); [|set_solver]. intros [= ->]. set_solver.
Qed.

Lemma write_items_cons i j rest :
  write_items (i :: j :: rest) =
  (let? s := i in let? t := write_items (j :: rest) in Ok (s +:+ "," +:+ t)).
Proof. done. Qed.

Lemma write_items_Ok items s :
  write_items items = Ok s → Forall (fun i => is_ok i = true) items.
Proof.
  revert s. induction items as [|i rest IH]; intros s; [constructor|].
  destruct rest as [|j rest]; [simpl; intros ->; by repeat constructor|].
  rewrite write_items_cons. intros H. inv_ok. subst. constructor; [done|eauto].
Qed.

Lemma write_items_all_Ok items :
  Forall (fun i => is_ok i = true) items → ∃ s, write_items items = Ok s.
Proof.
  induction 1 as [|i rest Hi Hrest IH]; [by eexists|].
  destruct i as [t|]; [|done]. destruct rest as [|j rest]; [by eexists|].
  destruct IH as [s Hs]. rewrite write_items_cons, Hs. simpl. eauto.
Qed.

Lemma write_member_ext r r' k :
  member k r = member k r' → write_member r k = write_member r' k.
Proof. unfold write_member. by intros ->. Qed.

(** Only values without floats are written, and all of them are. *)
Lemma write_canonical_total v : float_free v = true → ∃ s, write_canonical v = Ok s.
Proof.
  induction v as [|[]|n|s|l IH|m IH] using value_ind'; simpl; try by eexists.
  - destruct n; simpl; naive_solver.
  - intros Hf. destruct (write_items_all_Ok (map write_canonical l)) as [s ->].
    { apply Forall_map. rewrite Forall_forall in IH |- *. intros x Hx.
      destruct (IH x Hx) as [s Hs]; [|by rewrite Hs].
      rewrite forallb_forall in Hf. by apply Hf, list_elem_of_In. }
    by eexists.
  - intros Hf.
    destruct (write_items_all_Ok
      (map (write_member (map (fun kv => (kv.1, write_canonical kv.2)) m))
           (sort_keys (map fst m)))) as [s ->]; [|by eexists].
    apply Forall_map, Forall_forall. intros k Hk. simpl. rewrite sort_keys_elem in Hk.
    destruct (member_In (map (fun kv => (kv.1, write_canonical kv.2)) m) k) as [r Hr].
    { rewrite map_map. done. }
    unfold write_member. rewrite Hr.
    apply member_elem, list_elem_of_fmap in Hr as ((a & v) & [= -> ->] & Hin).
    rewrite Forall_forall in IH. rewrite forallb_forall in Hf.
    destruct (IH _ Hin) as [t Ht]; [by apply (Hf (a, v)), list_elem_of_In|].
    simpl in Ht. rewrite Ht. done.
Qed.

Lemma reject_floats_spec v : reject_floats v = Ok tt ↔ float_free v = true.
Proof.
  induction v as [|b|n|s|l IH|m IH] using value_ind'; simpl; try done.
  - by destruct n.
  - induction IH as [|x l Hx Hl IHl]; simpl; [done|].
    rewrite andb_true_iff, <- Hx, <- IHl. split.
    + intros H. by inv_ok; destruct_and?; repeat match goal with u : unit |- _ => destruct u end.
    + intros [-> ->]. done.
  - induction IH as [|x m Hx Hm IHm]; simpl; [done|].
    rewrite andb_true_iff, <- Hx, <- IHm. split.
    + intros H. by inv_ok; destruct_and?; repeat match goal with u : unit |- _ => destruct u end.
    + intros [-> ->]. done.
Qed.
End canonical_lemmas.

(** ** Properties *)

Section canonical_properties.
Context `{X : External}.

Lemma Forall_id_map {A} (P : A → Prop) l x : Forall id (map P l) → x ∈ l → P x.
Proof. rewrite Forall_map, Forall_forall. intros H Hx. by apply (H x). Qed.

(** Rendering the members first: related members render alike. *)
Lemma render_equiv (m m' : list (string * value)) :
  Forall2 (fun a b => a.1 = b.1 ∧ write_canonical a.2 = write_canonical b.2) m m' →
  map (fun kv => (kv.1, write_canonical kv.2)) m =
  map (fun kv => (kv.1, write_canonical kv.2)) m'.
Proof. induction 1 as [|[] [] m m' [He Hw] _ IH]; simpl in *; congruence. Qed.

Lemma Forall2_In_impl {A B} (P Q : A → B → Prop) l l' :
  Forall2 P l l' → (∀ x y, x ∈ l → P x y → Q x y) → Forall2 Q l l'.
Proof.
  induction 1 as [|x y l l' Hxy Hl IH]; intros HQ; constructor.
  - apply HQ; [set_solver|done].
  - apply IH. intros. apply HQ; [set_solver|done].
Qed.

(** the canonical bytes do not depend on the order in which an object's
    members are stored, at any depth: two values equal up to that order
    serialize to the same bytes (or to the same error). *)
Theorem canonical_order_independent v v' :
  unique_keys v → json_equiv v v' → write_canonical v = write_canonical v'.
Proof.
  revert v'. induction v as [|b|n|s|l IH|m IH] using value_ind';
    intros v' Hu He; try (inversion He; subst; done).
  - inversion He as [|? l' Hl|]; subst; [done|]. simpl.
    enough (map write_canonical l = map write_canonical l') as -> by done.
    assert (Forall2 (fun a b => write_canonical a = write_canonical b) l l') as H.
    { eapply Forall2_In_impl; [exact Hl|]. simpl. intros x y Hx Hxy.
      rewrite Forall_forall in IH. apply IH; [done| |done].
      by eapply Forall_id_map. }
    clear -H. induction H; simpl; congruence.
  - inversion He as [| |? m' m'' Hp Hm]; subst; [done|]. destruct Hu as [Hnd Hu]. simpl.
    assert (map (fun kv => (kv.1, write_canonical kv.2)) m'' =
            map (fun kv => (kv.1, write_canonical kv.2)) m') as Hr.
    { apply render_equiv. eapply Forall2_In_impl; [exact Hm|]. simpl.
      intros x y Hx [Hk Hv]. split; [done|]. rewrite <- Hp in Hx.
      rewrite Forall_forall in IH. apply IH; [done| |done].
      by apply (Forall_id_map (fun kv => unique_keys kv.2) m). }
    assert (sort_keys (map fst m) = sort_keys (map fst m')) as Hs.
    { apply sort_keys_perm. rewrite Hp.
      pose proof (f_equal (map fst) Hr) as Hk. rewrite !map_map in Hk.
      change (map fst m'' = map fst m') in Hk. by rewrite Hk. }
    rewrite Hs. do 2 f_equal. apply map_ext. intros k. apply write_member_ext.
    rewrite <- Hr. apply member_perm.
    + by rewrite map_map.
    + by apply Permutation_map.
Qed.

(** a closed decode accepts exactly the canonical, float-free bytes of
    the value it returns; so one value has one accepted encoding. *)
Theorem decode_closed_exact {T} `{Serialize T, Deserialize T} bytes (x : T) :
  decode_closed_json_v1 bytes = Ok x ↔
  (∃ v, parse_json bytes = Some v ∧ float_free v = true ∧ from_value v = Some x) ∧
  canonical_json_v1 x = Ok bytes.
Proof.
  unfold decode_closed_json_v1. split.
  - intros Hd. inv_ok. split_bools. subst.
    match goal with H : String.eqb _ _ = true |- _ => apply String.eqb_eq in H as -> end.
    match goal with u : unit |- _ => destruct u end.
    split; [|done]. eexists. split_and!; [done|by apply reject_floats_spec|done].
  - intros [(v & -> & Hf & Hv) Hc]. simpl.
    apply reject_floats_spec in Hf. rewrite Hf. simpl. rewrite Hv. simpl.
    rewrite Hc. simpl. by rewrite String.eqb_refl.
Qed.
End canonical_properties.

Lemma canonical_order_independent_witness :
  write_canonical (VObject [("z", VNumber (NPos 1)); ("a", VArray [VNull])]) =
  write_canonical (VObject [("a", VArray [VNull]); ("z", VNumber (NPos 1))]).
Proof.
  apply (canonical_order_independent (X := demo_external)).
  - split; [|by repeat constructor].
    apply NoDup_cons; split; [|apply NoDup_singleton].
    intros [H|H]%elem_of_cons; [discriminate H|by apply not_elem_of_nil in H].
  - eapply je_object; [apply perm_swap|].
    repeat (constructor; [split; [reflexivity|apply je_refl]|]). constructor.
Defined.

Example canonical_sample_text :
  write_canonical (X := demo_external)
    (VObject [("z", VNumber (NPos 10)); ("a", VArray [VNull; VBool true])]) =
  Ok ("{" +:+ demo_quote "a" +:+ ":[null,true]," +:+ demo_quote "z" +:+ ":10}").
Proof. vm_compute. reflexivity. Qed.
