(* ===== verification/CanonicalUnique.v ===== *)
(** * Canonical JSON is unambiguous: [crates/phantom-authority/src/canonical.rs]

    The digests and MACs of the program are taken over [canonical_json_v1];
    here two documents with the same canonical text are shown to be the same
    document, up to the order of object members, which the text forgets.  The
    class [SerializeInj] carries that to the types that are stored. *)

From S2P Require Import Prelude Ids External Canonical.

(** What [serde_json::Value] guarantees of a value: no repeated key, and a
    [Number] holds a negative integer as such only when it is negative. *)
Fixpoint well_formed (v : value) : Prop :=
  match v with
  | VNumber (NNeg z) => (z < 0)%Z
  | VArray l => Forall id (map well_formed l)
  | VObject m => NoDup (map fst m) ∧ Forall id (map (fun kv => well_formed kv.2) m)
  | _ => True
  end.

(** What may follow a value inside a document. *)
Definition is_delimiter (c : ascii) : bool :=
  ascii_eqb c ","%char || ascii_eqb c "]"%char || ascii_eqb c "}"%char.

Definition delimited (x : string) : Prop :=
  match first_byte x with Some c => is_delimiter c = true | None => True end.

(** The byte a value starts with tells its kind. *)
Definition starts_value (v : value) (c : ascii) : Prop :=
  match v with
  | VNull => c = "n"%char
  | VBool b => c = if b then "t"%char else "f"%char
  | VNumber (NPos _) => is_ascii_digit c = true
  | VNumber _ => c = "-"%char
  | VString _ => c = "034"%char
  | VArray _ => c = "["%char
  | VObject _ => c = "{"%char
  end.

Lemma delimited_cons c x : is_delimiter c = true → delimited (String c x).
Proof. done. Qed.

Lemma delimited_digit x : delimited x → option_byte_is is_ascii_digit (first_byte x) = false.
Proof.
  unfold delimited. destruct (first_byte x) as [c|]; [|done]. simpl. unfold is_delimiter.
  rewrite !orb_true_iff, !ascii_eqb_eq. by intros [[->| ->]| ->].
Qed.

Lemma first_byte_cons c s : first_byte (String c s) = Some c.
Proof. done. Qed.

Section unique.
Context `{X : External} `{JL : !JsonStringLaws X}.

Lemma json_string_head s : ∃ t, json_string s = String "034"%char t.
Proof.
  pose proof (json_string_quote s) as H. unfold first_byte in H.
  destruct (json_string s) as [|c t]; [done|]. injection H as ->. eauto.
Qed.

Lemma write_head v s :
  well_formed v → write_canonical v = Ok s → ∃ c t, s = String c t ∧ starts_value v c.
Proof.
  destruct v as [|[]|[n|z|f]|s'|l|m]; simpl; intros Hwf Hw; inv_ok; try (subst; by eexists _, _).
  - subst. destruct (N_to_string_head n) as (c & t & -> & Hc). eauto.
  - subst. destruct (json_string_head s') as [t ->]. eauto.
Qed.

Lemma head_not_delimiter v c : starts_value v c → is_delimiter c = false.
Proof.
  destruct v as [|[]|[]|?|?|?]; simpl; try (by intros ->).
  intros Hd. destruct (is_delimiter c) eqn:E; [|done]. exfalso. revert Hd.
  unfold is_delimiter in E. apply orb_true_iff in E as [[E|E]%orb_true_iff|E];
    apply ascii_eqb_eq in E as ->; done.
Qed.

(** ** Sequences of items

    [f] and [g] write the items of two lists; where two items that start the
    same text are related and leave the same rest, so do the lists. *)

Lemma items_unique {A B} (f : A → result string CanonicalJsonError)
    (g : B → result string CanonicalJsonError) (R : A → B → Prop) l l' s s' c x y :
  (∀ a b s s' x y, a ∈ l → b ∈ l' → f a = Ok s → g b = Ok s' → delimited x → delimited y →
     s +:+ x = s' +:+ y → R a b ∧ x = y) →
  (∀ a s, a ∈ l → f a = Ok s → ∃ d t, s = String d t ∧ is_delimiter d = false) →
  (∀ b s, b ∈ l' → g b = Ok s → ∃ d t, s = String d t ∧ is_delimiter d = false) →
  is_delimiter c = true → c ≠ ","%char →
  write_items (map f l) = Ok s → write_items (map g l') = Ok s' →
  s +:+ String c x = s' +:+ String c y → Forall2 R l l' ∧ x = y.
Proof.
  intros Hitem Hf Hg Hc Hcomma. revert l' s s' Hitem Hg.
  induction l as [|a l IH]; intros [|b l'] s s' Hitem Hg Hs Hs' He.
  - injection Hs as <-. injection Hs' as <-. injection He as ->. by split.
  - injection Hs as <-. exfalso.
    assert (∃ d t, s' = String d t ∧ is_delimiter d = false) as (d & t & -> & Hd).
    { cbn [map] in Hs'. destruct (map g l') as [|i r]; [by apply (Hg b); [set_solver|]|].
      rewrite write_items_cons in Hs'. inv_ok. subst s'.
      destruct (Hg b _ ltac:(set_solver) ltac:(eassumption)) as (d & u & -> & Hd). eauto. }
    injection He as -> _. congruence.
  - injection Hs' as <-. exfalso.
    assert (∃ d t, s = String d t ∧ is_delimiter d = false) as (d & t & -> & Hd).
    { cbn [map] in Hs. destruct (map f l) as [|i r]; [by apply (Hf a); [set_solver|]|].
      rewrite write_items_cons in Hs. inv_ok. subst s.
      destruct (Hf a _ ltac:(set_solver) ltac:(eassumption)) as (d & u & -> & Hd). eauto. }
    injection He as -> _. congruence.
  - destruct l as [|a2 l], l' as [|b2 l'].
    + simpl in Hs, Hs'. destruct (Hitem a b s s' (String c x) (String c y)) as [HR Hx];
        try done; [set_solver..|]. injection Hx as ->. split; [|done]. by repeat constructor.
    + simpl in Hs. change (map g (b :: b2 :: l')) with (g b :: g b2 :: map g l') in Hs'.
      rewrite write_items_cons in Hs'. inv_ok. subst s'. rewrite !str_app_assoc in He.
      edestruct (Hitem a b) as [_ Hx]; [set_solver..|exact Hs|eassumption| | |exact He|];
        [by apply delimited_cons|by apply delimited_cons|]. simpl in Hx. congruence.
    + simpl in Hs'. change (map f (a :: a2 :: l)) with (f a :: f a2 :: map f l) in Hs.
      rewrite write_items_cons in Hs. inv_ok. subst s. rewrite !str_app_assoc in He.
      edestruct (Hitem a b) as [_ Hx]; [set_solver..|eassumption|exact Hs'| | |exact He|];
        [by apply delimited_cons|by apply delimited_cons|]. simpl in Hx. congruence.
    + change (map f (a :: a2 :: l)) with (f a :: f a2 :: map f l) in Hs.
      change (map g (b :: b2 :: l')) with (g b :: g b2 :: map g l') in Hs'.
      rewrite write_items_cons in Hs, Hs'. inv_ok. subst s s'. rewrite !str_app_assoc in He.
      edestruct (Hitem a b) as [HR Hx]; [set_solver..|eassumption|eassumption| | |exact He|];
        [by apply delimited_cons|by apply delimited_cons|]. simpl in Hx. injection Hx as Hx.
      edestruct (IH ltac:(intros a' u Ha'; apply Hf; by right) (b2 :: l'))
        as [HRs ->]; [| |eassumption|eassumption|exact Hx|].
      * intros a' b' u u' x' y' Ha' Hb'. apply Hitem; by right.
      * intros b' u Hb'. apply Hg. by right.
      * split; [|done]. by constructor.
Qed.

Lemma number_unique n n' x y :
  well_formed (VNumber n) → well_formed (VNumber n') →
  is_f64 n = false → is_f64 n' = false → delimited x → delimited y →
  number_to_string n +:+ x = number_to_string n' +:+ y → n = n' ∧ x = y.
Proof.
  assert (∀ a b, N_to_string a +:+ x = N_to_string b +:+ y → delimited x → delimited y →
    a = b ∧ x = y) as Hdec.
  { intros a b He Hx Hy. eapply all_bytes_cut in He as [He ->];
      [|apply N_to_string_digits..|by apply delimited_digit|by apply delimited_digit].
    by apply N_to_string_inj in He as ->. }
  assert (∀ a t, String "-"%char t ≠ N_to_string a +:+ y) as Hy'.
  { intros a t. destruct (N_to_string_head a) as (c & u & -> & Hc). by intros [= <-]. }
  assert (∀ a t, N_to_string a +:+ x ≠ String "-"%char t) as Hx'.
  { intros a t. destruct (N_to_string_head a) as (c & u & -> & Hc). by intros [= ->]. }
  destruct n as [n|z|f], n' as [n'|z'|f']; simpl; try done; intros Hz Hz' _ _ Hx Hy He.
  - by apply Hdec in He as [-> ->].
  - by apply Hx' in He.
  - by apply Hy' in He.
  - injection He as He. apply Hdec in He as [He ->]; [|done..]. split; [|done]. f_equal. lia.
Qed.

Lemma same_kind v v' c :
  starts_value v c → starts_value v' c →
  match v, v' with
  | VNull, VNull | VBool _, VBool _ | VNumber _, VNumber _ | VString _, VString _
  | VArray _, VArray _ | VObject _, VObject _ => True
  | _, _ => False
  end.
Proof. destruct v as [|[]|[]|?|?|?], v' as [|[]|[]|?|?|?]; simpl; intros; subst; done. Qed.

Lemma write_plain_head v s :
  well_formed v → write_canonical v = Ok s →
  ∃ d t, s = String d t ∧ is_delimiter d = false.
Proof.
  intros Hwf Hw. destruct (write_head _ _ Hwf Hw) as (c & t & -> & Hc).
  exists c, t. split; [done|]. by eapply head_not_delimiter.
Qed.

Lemma item_well_formed l v : well_formed (VArray l) → v ∈ l → well_formed v.
Proof. exact (Forall_id_map well_formed l v). Qed.

(** ** Object members *)

Lemma member_well_formed m k v : well_formed (VObject m) → (k, v) ∈ m → well_formed v.
Proof. intros [_ H]. exact (Forall_id_map (fun kv => well_formed kv.2) m (k, v) H). Qed.

Definition rendered (m : list (string * value))
    : list (string * result string CanonicalJsonError) :=
  map (fun kv => (kv.1, write_canonical kv.2)) m.

Lemma write_member_Ok m k s :
  write_member (rendered m) k = Ok s →
  ∃ v t, (k, v) ∈ m ∧ write_canonical v = Ok t ∧ s = json_string k +:+ ":" +:+ t.
Proof.
  unfold write_member. destruct (member k (rendered m)) as [r|] eqn:Hr; [|done]. intros Hw.
  apply member_elem, list_elem_of_fmap in Hr as ([a v] & [= -> ->] & Hin).
  inv_ok. subst s. eauto.
Qed.

Lemma write_member_head m k s :
  write_member (rendered m) k = Ok s → ∃ d t, s = String d t ∧ is_delimiter d = false.
Proof.
  intros (v & t & _ & _ & ->)%write_member_Ok. destruct (json_string_head k) as [u ->].
  by eexists _, _.
Qed.

Lemma unique_member (m : list (string * value)) k v w :
  NoDup (map fst m) → (k, v) ∈ m → (k, w) ∈ m → v = w.
Proof.
  intros Hnd Hv Hw. induction m as [|[a b] m IH]; [by apply not_elem_of_nil in Hv|].
  apply NoDup_cons in Hnd as [Hn Hnd]. apply elem_of_cons in Hv, Hw.
  destruct Hv as [Hv|Hv], Hw as [Hw|Hw]; simplify_eq/=.
  - done.
  - exfalso. apply Hn. by apply (list_elem_of_fmap_2 fst) in Hw.
  - exfalso. apply Hn. by apply (list_elem_of_fmap_2 fst) in Hv.
  - by apply IH.
Qed.

(** The members of an object, found by key, in the order of another. *)
Lemma members_reorder (m m' : list (string * value)) (R : value → value → Prop) :
  NoDup (map fst m) → NoDup (map fst m') →
  (∀ k, k ∈ map fst m ↔ k ∈ map fst m') →
  (∀ k v v', (k, v) ∈ m → (k, v') ∈ m' → R v v') →
  ∃ m'', Permutation m m'' ∧ Forall2 (fun a b => a.1 = b.1 ∧ R a.2 b.2) m'' m'.
Proof.
  intros Hm Hm' Hk HR.
  exists (omap (fun kv' => match member kv'.1 m with Some v => Some (kv'.1, v) | None => None end) m').
  assert (∀ m0, (∀ k, k ∈ map fst m0 → k ∈ map fst m) → (∀ kv, kv ∈ m0 → kv ∈ m') →
    Forall2 (fun a b => a.1 = b.1 ∧ R a.2 b.2)
      (omap (fun kv' => match member kv'.1 m with Some v => Some (kv'.1, v) | None => None end) m0)
      m0) as HF.
  { induction m0 as [|[k v] m0 IH]; intros Hin Hsub; simpl; [constructor|].
    destruct (member_In m k) as [w Hw]; [apply Hin; set_solver|]. rewrite Hw. constructor.
    - split; [done|]. apply member_elem in Hw. apply (HR k); [done|]. apply Hsub. by left.
    - apply IH; set_solver. }
  split; [|apply HF; [intros k; apply Hk|done]].
  pose proof (HF m' ltac:(intros k; apply Hk) ltac:(done)) as H.
  assert (map fst (omap (fun kv' =>
    match member kv'.1 m with Some v => Some (kv'.1, v) | None => None end) m') = map fst m') as Hfst.
  { clear -H. induction H as [|a b l l' [Hab _] _ IH]; simpl; [done|]. by rewrite Hab, IH. }
  apply NoDup_Permutation.
  - exact (NoDup_fmap_1 fst m Hm).
  - apply (NoDup_fmap_1 fst). change (NoDup (map fst (omap (fun kv' =>
      match member kv'.1 m with Some v => Some (kv'.1, v) | None => None end) m'))).
    by rewrite Hfst.
  - assert (∀ k v, (k, v) ∈ m → member k m = Some v) as Hmem.
    { intros k v Hkv. destruct (member_In m k) as [w Hw].
      { by apply (list_elem_of_fmap_2 fst) in Hkv. }
      rewrite Hw. f_equal. apply (unique_member m k); [done| |done]. by apply member_elem. }
    intros [k v]. rewrite list_elem_of_omap. split.
    + intros Hkv. assert (k ∈ map fst m') as Hk'.
      { apply Hk. by apply (list_elem_of_fmap_2 fst) in Hkv. }
      apply list_elem_of_fmap in Hk' as ([k' v'] & Hk' & Hin). simpl in Hk'. subst k'.
      exists (k, v'). split; [done|]. simpl. by rewrite (Hmem _ _ Hkv).
    + intros ([k' v'] & Hin & Ho). simpl in Ho. destruct (member k' m) as [w|] eqn:E; [|done].
      injection Ho as -> ->. by apply member_elem.
Qed.

(** One text, one document: the two texts may be followed by anything that
    can follow a value. *)
Lemma write_unique v v' s s' x y :
  well_formed v → well_formed v' → write_canonical v = Ok s → write_canonical v' = Ok s' →
  delimited x → delimited y → s +:+ x = s' +:+ y → json_equiv v v' ∧ x = y.
Proof.
  revert v' s s' x y.
  induction v as [|b|n|t|l IH|m IH] using value_ind'; intros v' s s' x y Hv Hv' Hs Hs' Hx Hy He;
    destruct (write_head _ _ Hv Hs) as (c & u & -> & Hc);
    destruct (write_head _ _ Hv' Hs') as (c' & u' & -> & Hc');
    pose proof He as Hcc; simpl in Hcc; injection Hcc as -> _;
    pose proof (same_kind _ _ _ Hc Hc') as Hk; destruct v' as [|b'|n'|t'|l'|m']; try done;
    clear Hc Hc' Hk.
  - simpl in Hs, Hs'. injection Hs as <- <-. injection Hs' as <-. injection He as ->.
    split; [apply je_refl|done].
  - destruct b, b'; simpl in Hs, Hs'; simplify_eq/=; (split; [apply je_refl|done]).
  - simpl in Hs, Hs'. inv_ok. destruct (number_unique n n' x y) as [-> ->]; try done; [congruence|].
    split; [apply je_refl|done].
  - simpl in Hs, Hs'. inv_ok. rewrite <- Hs, <- Hs' in He.
    apply json_string_prefix in He as [-> ->]. split; [apply je_refl|done].
  - simpl in Hs, Hs'. inv_ok. subst u u'. simpl in He. injection He as He.
    rewrite !str_app_assoc in He. simpl in He.
    eapply (items_unique _ _ json_equiv) in He as [HR ->]; try eassumption; try done.
    + split; [by apply je_array|done].
    + intros a b sa sb xa ya Ha Hb. rewrite Forall_forall in IH. apply IH;
        eauto using item_well_formed.
    + intros a sa Ha Hw. eauto using write_plain_head, item_well_formed.
    + intros a sa Ha Hw. eauto using write_plain_head, item_well_formed.
  - simpl in Hs, Hs'. pose proof Hv as [Hnd _]. pose proof Hv' as [Hnd' _]. inv_ok. subst u u'.
    simpl in He. injection He as He. rewrite !str_app_assoc in He. simpl in He.
    eapply (items_unique _ _ (fun k k' => k = k' ∧ ∀ v v', (k, v) ∈ m → (k, v') ∈ m' →
      json_equiv v v')) in He as [HR ->]; try eassumption; try done.
    + split; [|done].
      destruct (members_reorder m m' json_equiv) as (m'' & Hp & HF); try done.
      * intros k. rewrite <- !(sort_keys_elem k (map fst _)).
        assert (sort_keys (map fst m) = sort_keys (map fst m')) as ->; [|done].
        clear -HR. induction HR as [|k1 k2 ks ks' [-> _] _ IHR]; congruence.
      * intros k w w' Hw Hw'.
        assert (k ∈ sort_keys (map fst m)) as Hin.
        { apply sort_keys_elem. by apply (list_elem_of_fmap_2 fst) in Hw. }
        clear -HR Hin Hw Hw'. induction HR as [|k1 k2 ks ks' [-> Hk] _ IHR].
        { by apply not_elem_of_nil in Hin. }
        apply elem_of_cons in Hin as [->|Hin]; [by apply Hk|by apply IHR].
      * by eapply je_object.
    + intros a b sa sb xa ya Ha Hb Hwa Hwb Hda Hdb Hab.
      destruct (write_member_Ok m a sa Hwa) as (w & t & Hm & Ht & ->).
      destruct (write_member_Ok m' b sb Hwb) as (w' & t' & Hm' & Ht' & ->).
      rewrite !str_app_assoc in Hab. apply json_string_prefix in Hab as [-> Hab].
      simpl in Hab. injection Hab as Hab. rewrite Forall_forall in IH.
      destruct (IH _ Hm w' t t' xa ya) as [Hj ->]; try done.
      { by apply (member_well_formed m b w). }
      { by apply (member_well_formed m' b w'). }
      split; [|done]. split; [done|]. intros v v' Hbv Hbv'.
      by rewrite (unique_member m b v w), (unique_member m' b v' w').
    + intros a sa _ Hw. by apply write_member_head in Hw.
    + intros a sa _ Hw. by apply write_member_head in Hw.
Qed.

(** ** Canonical text is one line *)

Definition one_line (s : string) : Prop := any_byte (ascii_eqb "010"%char) s = false.

Lemma digits_one_line s : all_bytes is_ascii_digit s = true → one_line s.
Proof.
  unfold one_line. induction s as [|c s IH]; simpl; [done|].
  intros [Hc Hs]%andb_true_iff. rewrite IH by done.
  destruct (ascii_eqb "010"%char c) eqn:E; [|done]. apply ascii_eqb_eq in E as <-. done.
Qed.

Lemma one_line_app a b : one_line a → one_line b → one_line (a +:+ b).
Proof. unfold one_line. rewrite any_byte_app. by intros -> ->. Qed.

Lemma one_line_cons c s : ascii_eqb "010"%char c = false → one_line s → one_line (String c s).
Proof. unfold one_line. simpl. by intros -> ->. Qed.

Lemma items_one_line items s :
  (∀ t, Ok t ∈ items → one_line t) → write_items items = Ok s → one_line s.
Proof.
  revert s. induction items as [|i rest IH]; intros s Hi Hw; [by injection Hw as <-|].
  destruct rest as [|j rest]; [simpl in Hw; subst; apply Hi; by left|].
  rewrite write_items_cons in Hw. inv_ok. subst. apply one_line_app; [apply Hi; by left|].
  apply one_line_cons; [done|]. apply IH; [|done]. intros t Ht. apply Hi. by right.
Qed.

Lemma write_one_line v s : write_canonical v = Ok s → one_line s.
Proof.
  revert s. induction v as [|[]|n|t|l IH|m IH] using value_ind'; intros s Hw; simpl in Hw.
  - by injection Hw as <-.
  - by injection Hw as <-.
  - by injection Hw as <-.
  - inv_ok. subst. destruct n as [n|z|f]; [| |done].
    + apply digits_one_line, N_to_string_digits.
    + apply one_line_cons; [done|]. apply digits_one_line, N_to_string_digits.
  - inv_ok. subst. apply json_string_line.
  - inv_ok. subst. apply one_line_cons; [done|]. apply one_line_app; [|done].
    eapply items_one_line; [|eassumption]. intros t Ht.
    apply list_elem_of_fmap in Ht as (v & Hv & Hin). rewrite Forall_forall in IH. by apply (IH v).
  - inv_ok. subst. apply one_line_cons; [done|]. apply one_line_app; [|done].
    eapply items_one_line; [|eassumption]. intros t Ht.
    apply list_elem_of_fmap in Ht as (k & Hk & _). symmetry in Hk.
    apply write_member_Ok in Hk as (v & u & Hin & Hu & ->).
    apply one_line_app; [apply json_string_line|]. apply one_line_cons; [done|].
    rewrite Forall_forall in IH. by apply (IH _ Hin).
Qed.

(** ** Types whose values are told apart by their canonical text *)

(** What a derived [Serialize] of a stored type does: the value is one
    [serde_json] can hold, not [null], and determines what was serialized. *)
Class SerializeInj (T : Type) `{Serialize T} : Prop := {
  serialize_well_formed : ∀ a : T, well_formed (to_value a);
  serialize_not_null : ∀ a : T, to_value a ≠ VNull;
  serialize_inj : ∀ a b : T, json_equiv (to_value a) (to_value b) → a = b;
}.

Lemma canonical_inj {T} `{SerializeInj T} (a b : T) s :
  canonical_json_v1 a = Ok s → canonical_json_v1 b = Ok s → a = b.
Proof.
  intros Ha Hb. apply serialize_inj.
  by apply (write_unique (to_value a) (to_value b) s s EmptyString EmptyString);
    try apply serialize_well_formed.
Qed.
End unique.

(** Objects with the same keys in the same order, member by member. *)
Lemma object_members m m' :
  json_equiv (VObject m) (VObject m') → NoDup (map fst m) → map fst m = map fst m' →
  Forall2 (fun a b => a.1 = b.1 ∧ json_equiv a.2 b.2) m m'.
Proof.
  intros He Hnd Hk. inversion He as [|?|? ? m'' Hp HF]; subst.
  { clear. induction m' as [|[k v] m IH]; constructor; [|done]. split; [done|apply je_refl]. }
  assert (∀ k v v', (k, v) ∈ m → (k, v') ∈ m' → json_equiv v v') as Hall.
  { intros k v v' Hv Hv'. apply list_elem_of_lookup in Hv' as [i Hi].
    destruct (Forall2_lookup_r _ _ _ _ _ HF Hi) as ([k' w] & Hw & Hkk & Hj). simpl in *. subst k'.
    apply list_elem_of_lookup_2 in Hw. rewrite <- Hp in Hw.
    by rewrite (unique_member m k v w). }
  clear He Hp HF Hnd. revert m' Hk Hall.
  induction m as [|[k v] m IH]; intros [|[k' v'] m'] Hk Hall; simpl in Hk; simplify_eq; [constructor|].
  constructor.
  - split; [done|]. apply (Hall k'); by left.
  - apply IH; [done|]. intros k w w' Hw Hw'. apply (Hall k); by right.
Qed.

(** The keys of an object are literals, and distinct. *)
Ltac keys_distinct := apply (bool_decide_unpack _); vm_compute; exact I.

(** Read the members of two equal objects, and their fields from them. *)
Ltac equal_members H :=
  match type of H with
  | json_equiv ?a ?b =>
      let a' := eval hnf in a in let b' := eval hnf in b in change (json_equiv a' b') in H
  end;
  apply object_members in H;
    [|keys_distinct
     |reflexivity];
  repeat match goal with
  | H : Forall2 _ (_ :: _) (_ :: _) |- _ =>
      let Ht := fresh in apply Forall2_cons in H as [[_ Ht] H]; cbn [snd] in Ht
  end.

(** Equal objects agree on a member both have, such as an enum's tag. *)
Lemma object_tag k t t' m m' :
  json_equiv (VObject ((k, VString t) :: m)) (VObject ((k, VString t') :: m')) →
  NoDup (map fst ((k, VString t) :: m)) → t = t'.
Proof.
  intros He Hnd. inversion He as [|?|? ? m'' Hp HF]; subst; [done|].
  destruct (Forall2_cons_inv_r _ _ _ _ HF) as ([k0 v] & l & [Hk Hj] & _ & ->). simpl in *. subst k0.
  assert (v = VString t) as ->; [|by inversion Hj].
  apply (unique_member ((k, VString t) :: m) k); [done| |by left]. rewrite Hp. by left.
Qed.

(** An object with one member. *)
Lemma object_single k v k' v' :
  json_equiv (VObject [(k, v)]) (VObject [(k', v')]) → k = k' ∧ json_equiv v v'.
Proof.
  intros He. inversion He as [|?|? ? m'' Hp HF]; subst; [split; [done|apply je_refl]|].
  apply Permutation_singleton_l in Hp; subst m''. by apply Forall2_cons in HF as [[? ?] _].
Qed.

#[export] Instance SerializeInj_string : SerializeInj string.
Proof. split; [done|done|]. intros a b H. by inversion H. Qed.
#[export] Instance SerializeInj_N : SerializeInj N.
Proof. split; [done|done|]. intros a b H. by inversion H. Qed.
#[export] Instance SerializeInj_bool : SerializeInj bool.
Proof. split; [done|done|]. intros a b H. by inversion H. Qed.
#[export] Instance SerializeInj_digest : SerializeInj Sha256Digest.
Proof. split; [done|done|]. intros a b H. apply digest_str_inj. by inversion H. Qed.
#[export] Instance SerializeInj_id k : SerializeInj (OpaqueId k).
Proof. split; [done|done|]. intros a b H. apply id_str_inj. by inversion H. Qed.

#[export] Instance SerializeInj_list {T} `{SerializeInj T} : SerializeInj (list T).
Proof.
  split; [|done|].
  - intros l. simpl. rewrite map_map. apply Forall_map, Forall_true. intros x.
    apply serialize_well_formed.
  - intros a b Hj.
    assert (Forall2 json_equiv (map to_value a) (map to_value b)) as HF.
    { inversion Hj; subst; [|done].
      match goal with H : map _ _ = map _ _ |- _ => rewrite H end.
      clear. induction (map to_value b); constructor; [apply je_refl|done]. }
    clear Hj. revert b HF. induction a as [|x a IH]; intros [|y b] HF; simpl in HF;
      [done|by apply Forall2_nil_cons_inv in HF|by apply Forall2_cons_nil_inv in HF|].
    apply Forall2_cons in HF as [Hxy HF]. apply serialize_inj in Hxy as ->. f_equal. by apply IH.
Qed.

(** An optional member: [None] is [null], which no [Some] is. *)
Lemma serialize_option_inj {T} `{SerializeInj T} (a b : option T) :
  json_equiv (to_value a) (to_value b) → a = b.
Proof.
  destruct a as [a|], b as [b|]; unfold to_value; simpl; intros Hj.
  - f_equal. by apply serialize_inj.
  - exfalso. apply (serialize_not_null a). by inversion Hj.
  - exfalso. apply (serialize_not_null b). by inversion Hj.
  - done.
Qed.

Lemma serialize_option_well_formed {T} `{SerializeInj T} (a : option T) :
  well_formed (to_value a).
Proof. destruct a as [x|]; [exact (serialize_well_formed x)|exact I]. Qed.

(** Turn the equal members into equal fields. *)
Ltac equal_fields :=
  repeat match goal with
  | H : json_equiv (to_value _) (to_value _) |- _ =>
      first [apply serialize_inj in H | apply serialize_option_inj in H]
  end.

(** The instance of [SerializeInj] for a record with a derived [Serialize]. *)
Ltac record_well_formed :=
  split;
  [keys_distinct
  |cbn [map snd];
   repeat (constructor;
           [first [apply serialize_well_formed|apply serialize_option_well_formed]|]);
   try constructor].

Ltac record_inj :=
  intros [] [] ?H; equal_members H; equal_fields; simpl in *; subst; done.

(** Two variants of a tagged enum: the tags differ, or the fields are equal. *)
Ltac tagged_inj :=
  intros [] [] ?H;
  first [ equal_members H; equal_fields; simpl in *; subst; done
        | exfalso; apply object_tag in H; [discriminate|keys_distinct] ].

Section unique_property.
Context `{X : External} `{JL : !JsonStringLaws X}.

(** C36: canonical JSON is unambiguous: two documents that the digests and MACs
    of the program cannot tell apart before hashing are the same document up
    to the order of object members; so a digest or a MAC over the canonical
    text is over one document. *)
Theorem canonical_unambiguous v v' s :
  well_formed v → well_formed v' →
  write_canonical v = Ok s → write_canonical v' = Ok s → json_equiv v v'.
Proof.
  intros Hv Hv' Hs Hs'.
  by apply (write_unique v v' s s EmptyString EmptyString).
Qed.
End unique_property.

Lemma canonical_unambiguous_witness :
  json_equiv (VObject [("b", VString "x,y"); ("a", VArray [VNumber (NPos 12); VNull])])
             (VObject [("a", VArray [VNumber (NPos 12); VNull]); ("b", VString "x,y")]).
Proof.
  eapply (canonical_unambiguous (X := demo_external)).
  - split; [|by repeat constructor].
    apply NoDup_cons; split; [|apply NoDup_singleton].
    intros [H|H]%elem_of_cons; [discriminate H|by apply not_elem_of_nil in H].
  - split; [|by repeat constructor].
    apply NoDup_cons; split; [|apply NoDup_singleton].
    intros [H|H]%elem_of_cons; [discriminate H|by apply not_elem_of_nil in H].
  - vm_compute. reflexivity.
  - vm_compute. reflexivity.
Defined.
