(* ===== verification/Constraints.v ===== *)
(** * Authority constraints: [crates/phantom-authority/src/constraints.rs]

    The value-free constraints of a grant, their validation and the
    least-authority intersection of two grants.  Against the abstract
    specification [permits] the intersection is exact: it allows what both
    sides allow, nothing more and nothing less. *)

From S2P Require Import Prelude Ids External.

(** ** Data *)

Inductive NetworkScheme := Http | Https.

Inductive HttpMethod := Get | Head | Options | Post | Put | Patch | Delete.

#[export] Instance NetworkScheme_eq_dec : EqDecision NetworkScheme.
Proof. solve_decision. Defined.
#[export] Instance HttpMethod_eq_dec : EqDecision HttpMethod.
Proof. solve_decision. Defined.

Definition scheme_index (s : NetworkScheme) : N := match s with Http => 0 | Https => 1 end.
Definition method_index (m : HttpMethod) : N :=
  match m with
  | Get => 0 | Head => 1 | Options => 2 | Post => 3 | Put => 4 | Patch => 5 | Delete => 6
  end.

(** [derive(PartialOrd, Ord)] *)
#[export] Instance Ord_scheme : Ord NetworkScheme.
Proof. refine (Ord_index scheme_index _). by intros [] []. Defined.
#[export] Instance Ord_method : Ord HttpMethod.
Proof. refine (Ord_index method_index _). by intros [] []. Defined.

Record TimeConstraints := { not_before : N; expires_at : N }.

Inductive UseCapacity :=
  | CapacityDenied
  | CapacityBounded (max_uses max_concurrent_uses : N).

Inductive ByteLimit :=
  | BytesDenied
  | BytesBounded (bytes : N).

Record UseConstraints := {
  capacity : UseCapacity;
  max_request_bytes : ByteLimit;
  max_response_bytes : ByteLimit;
}.

Inductive ExactScope (T : Type) :=
  | Denied
  | Exact (values : list T).
Arguments Denied {T}.
Arguments Exact {T} values.

Record NetworkConstraints := {
  schemes : ExactScope NetworkScheme;
  hosts : ExactScope string;
  ports : ExactScope N;
  methods : ExactScope HttpMethod;
  path_prefixes : ExactScope string;
  allow_redirects : bool;
}.

Record SpendConstraints := {
  currency : option string;
  max_minor_units : N;
}.

Record AuthorityConstraints := {
  environment : string;
  read_only : bool;
  time : TimeConstraints;
  uses : UseConstraints;
  network : NetworkConstraints;
  spend : SpendConstraints;
}.

Inductive ConstraintError :=
  | InvalidTimeWindow | EnvironmentMismatch | InvalidEnvironment | InvalidHost
  | InvalidPathPrefix | RedirectsDenied | InvalidByteLimit | EmptyExactScope
  | DuplicateExactScope | UnsortedExactScope | InvalidUseCapacity | InvalidSpendCap.

#[export] Instance ExactScope_eq_dec T `{EqDecision T} : EqDecision (ExactScope T).
Proof. solve_decision. Defined.
#[export] Instance TimeConstraints_eq_dec : EqDecision TimeConstraints.
Proof. solve_decision. Defined.
#[export] Instance UseCapacity_eq_dec : EqDecision UseCapacity.
Proof. solve_decision. Defined.
#[export] Instance ByteLimit_eq_dec : EqDecision ByteLimit.
Proof. solve_decision. Defined.
#[export] Instance UseConstraints_eq_dec : EqDecision UseConstraints.
Proof. solve_decision. Defined.
#[export] Instance NetworkConstraints_eq_dec : EqDecision NetworkConstraints.
Proof. solve_decision. Defined.
#[export] Instance SpendConstraints_eq_dec : EqDecision SpendConstraints.
Proof. solve_decision. Defined.
#[export] Instance AuthorityConstraints_eq_dec : EqDecision AuthorityConstraints.
Proof. solve_decision. Defined.
#[export] Instance ConstraintError_eq_dec : EqDecision ConstraintError.
Proof. solve_decision. Defined.

(** ** Serialized forms (the serde attributes of the structs) *)

#[export] Instance Serialize_scheme : Serialize NetworkScheme := fun s =>
  VString (match s with Http => "http" | Https => "https" end).
#[export] Instance Serialize_method : Serialize HttpMethod := fun m =>
  VString (match m with
           | Get => "GET" | Head => "HEAD" | Options => "OPTIONS" | Post => "POST"
           | Put => "PUT" | Patch => "PATCH" | Delete => "DELETE"
           end).
#[export] Instance Serialize_time : Serialize TimeConstraints := fun t =>
  VObject [("not_before", to_value (not_before t)); ("expires_at", to_value (expires_at t))].
#[export] Instance Serialize_capacity : Serialize UseCapacity := fun c =>
  match c with
  | CapacityDenied => VObject [("mode", VString "denied")]
  | CapacityBounded u k =>
      VObject [("mode", VString "bounded"); ("max_uses", to_value u);
               ("max_concurrent_uses", to_value k)]
  end.
#[export] Instance Serialize_bytes : Serialize ByteLimit := fun b =>
  match b with
  | BytesDenied => VObject [("mode", VString "denied")]
  | BytesBounded n => VObject [("mode", VString "bounded"); ("bytes", to_value n)]
  end.
#[export] Instance Serialize_uses : Serialize UseConstraints := fun u =>
  VObject [("capacity", to_value (capacity u));
           ("max_request_bytes", to_value (max_request_bytes u));
           ("max_response_bytes", to_value (max_response_bytes u))].
#[export] Instance Serialize_scope {T} `{Serialize T} : Serialize (ExactScope T) := fun s =>
  match s with
  | Denied => VObject [("mode", VString "denied")]
  | Exact vs => VObject [("mode", VString "exact"); ("values", to_value vs)]
  end.
#[export] Instance Serialize_network : Serialize NetworkConstraints := fun n =>
  VObject [("schemes", to_value (schemes n)); ("hosts", to_value (hosts n));
           ("ports", to_value (ports n)); ("methods", to_value (methods n));
           ("path_prefixes", to_value (path_prefixes n));
           ("allow_redirects", to_value (allow_redirects n))].
#[export] Instance Serialize_spend : Serialize SpendConstraints := fun s =>
  VObject (skip_none "currency" (currency s) ++
           [("max_minor_units", to_value (max_minor_units s))]).
#[export] Instance Serialize_constraints : Serialize AuthorityConstraints := fun c =>
  VObject [("environment", to_value (environment c)); ("read_only", to_value (read_only c));
           ("time", to_value (time c)); ("uses", to_value (uses c));
           ("network", to_value (network c)); ("spend", to_value (spend c))].

(** ** Time, uses, byte limits *)

Definition active_at (t : TimeConstraints) (now : N) : bool :=
  (not_before t <=? now)%N && (now <? expires_at t)%N.

Definition time_validate (t : TimeConstraints) : result unit ConstraintError :=
  fail_if (expires_at t <=? not_before t)%N InvalidTimeWindow (Ok tt).

(** [UseCapacity::limits] *)
Definition capacity_limits (c : UseCapacity) : option (N * N) :=
  match c with CapacityDenied => None | CapacityBounded u k => Some (u, k) end.

Definition capacity_validate (c : UseCapacity) : result unit ConstraintError :=
  match c with
  | CapacityDenied => Ok tt
  | CapacityBounded u k => fail_if ((u =? 0)%N || (k =? 0)%N) InvalidUseCapacity (Ok tt)
  end.

Definition capacity_intersect (a b : UseCapacity) : UseCapacity :=
  match a, b with
  | CapacityBounded u1 k1, CapacityBounded u2 k2 =>
      CapacityBounded (N.min u1 u2) (N.min k1 k2)
  | _, _ => CapacityDenied
  end.

Definition bytes_validate (b : ByteLimit) : result unit ConstraintError :=
  match b with
  | BytesBounded 0 => Err InvalidByteLimit
  | _ => Ok tt
  end.

Definition bytes_intersect (a b : ByteLimit) : ByteLimit :=
  match a, b with
  | BytesBounded l, BytesBounded r => BytesBounded (N.min l r)
  | _, _ => BytesDenied
  end.

(** ** Scopes *)

(** [ExactScope::validate] *)
Definition scope_validate {T} `{Ord T} (s : ExactScope T) : result unit ConstraintError :=
  match s with
  | Denied => Ok tt
  | Exact [] => Err EmptyExactScope
  | Exact values =>
      fail_if (negb (length (btree_collect values) =? length values)%nat) DuplicateExactScope
      (fail_if (negb (strictly_sorted values)) UnsortedExactScope
      (Ok tt))
  end.

(** [fn exact_scope_intersection] *)
Definition exact_scope_intersection {T} `{Ord T} (left right : ExactScope T) : ExactScope T :=
  match left, right with
  | Exact l, Exact r =>
      match filter (fun x => ord_mem x (btree_collect r) = true) (btree_collect l) with
      | [] => Denied
      | values => Exact values
      end
  | _, _ => Denied
  end.

(** [fn path_is_within] *)
Definition path_is_within (candidate parent : string) : bool :=
  String.eqb candidate parent ||
  (starts_with parent candidate &&
   (ends_with_char "/"%char parent ||
    option_byte_is (ascii_eqb "/"%char) (byte_at candidate (String.length parent)))).

(** The body of the two nested loops of [path_scope_intersection]. *)
Definition path_pair (left_path right_path : string) (acc : list string) : list string :=
  if path_is_within left_path right_path then btree_insert left_path acc
  else if path_is_within right_path left_path then btree_insert right_path acc
  else acc.

(** [fn path_scope_intersection] *)
Definition path_scope_intersection (left right : ExactScope string) : ExactScope string :=
  match left, right with
  | Exact l, Exact r =>
      match fold_left (fun acc lp => fold_left (fun acc rp => path_pair lp rp acc) r acc) l []
      with
      | [] => Denied
      | values => Exact values
      end
  | _, _ => Denied
  end.

(** The values of a scope ([&[][..]] when denied). *)
Definition scope_values {T} (s : ExactScope T) : list T :=
  match s with Denied => [] | Exact vs => vs end.

(** The closure on labels in [NetworkConstraints::validate]. *)
Definition valid_host_label (label : string) : bool :=
  negb (str_is_empty label)
  && (String.length label <=? 63)%nat
  && all_bytes (fun b => is_ascii_alphanumeric b || ascii_eqb b "-"%char) label
  && option_byte_is is_ascii_alphanumeric (first_byte label)
  && option_byte_is is_ascii_alphanumeric (last_byte label).

(** The closure on hosts: [true] on a host that is rejected. *)
Definition invalid_host (host : string) : bool :=
  str_is_empty host
  || (253 <? String.length host)%nat
  || negb (String.eqb host (to_ascii_lowercase host))
  || any_byte (fun b => ascii_eqb b "/"%char || ascii_eqb b ":"%char ||
                        ascii_eqb b "@"%char || ascii_eqb b "\"%char) host
  || negb (forallb valid_host_label (split_char "."%char host)).

(** The closure on path prefixes: [true] on a path that is rejected. *)
Definition invalid_path_prefix (path : string) : bool :=
  negb (starts_with "/" path)
  || (2048 <? String.length path)%nat
  || negb (all_bytes is_ascii_graphic path)
  || contains_char "?"%char path
  || contains_char "#"%char path
  || contains_char "\"%char path
  || contains_char "%"%char path
  || contains_str "//" path
  || existsb (fun s => String.eqb s "." || String.eqb s "..") (split_char "/"%char path).

(** [NetworkConstraints::validate] *)
Definition network_validate (n : NetworkConstraints) : result unit ConstraintError :=
  fail_if (allow_redirects n) RedirectsDenied
  (let? _ := scope_validate (schemes n) in
   let? _ := scope_validate (hosts n) in
   let? _ := scope_validate (ports n) in
   let? _ := scope_validate (methods n) in
   let? _ := scope_validate (path_prefixes n) in
   fail_if (existsb invalid_host (scope_values (hosts n))) InvalidHost
   (fail_if (existsb invalid_path_prefix (scope_values (path_prefixes n))) InvalidPathPrefix
   (Ok tt))).

(** ** Spending *)

Definition spend_forbidden : SpendConstraints :=
  {| currency := None; max_minor_units := 0 |}.

Definition is_forbidden (s : SpendConstraints) : bool := (max_minor_units s =? 0)%N.

Definition spend_validate (s : SpendConstraints) : result unit ConstraintError :=
  match currency s with
  | None => fail_if (negb (max_minor_units s =? 0)%N) InvalidSpendCap (Ok tt)
  | Some c =>
      fail_if (negb ((0 <? max_minor_units s)%N && (String.length c =? 3)%nat
                     && all_bytes is_ascii_uppercase c)) InvalidSpendCap (Ok tt)
  end.

(** ** The whole constraint set *)

Definition environment_byte (b : ascii) : bool :=
  is_ascii_alphanumeric b || ascii_eqb b "-"%char || ascii_eqb b "_"%char.

(** [AuthorityConstraints::validate] *)
Definition validate (c : AuthorityConstraints) : result unit ConstraintError :=
  fail_if (str_is_empty (environment c)
           || (64 <? String.length (environment c))%nat
           || negb (all_bytes environment_byte (environment c))) InvalidEnvironment
  (let? _ := time_validate (time c) in
   let? _ := capacity_validate (capacity (uses c)) in
   let? _ := bytes_validate (max_request_bytes (uses c)) in
   let? _ := bytes_validate (max_response_bytes (uses c)) in
   let? _ := network_validate (network c) in
   let? _ := spend_validate (spend c) in
   Ok tt).

Definition time_intersect (a b : TimeConstraints) : TimeConstraints :=
  {| not_before := N.max (not_before a) (not_before b);
     expires_at := N.min (expires_at a) (expires_at b) |}.

(** The [spend] match of [AuthorityConstraints::intersect]. *)
Definition spend_intersect (a b : SpendConstraints) : SpendConstraints :=
  match currency a, currency b with
  | Some l, Some r =>
      if String.eqb l r
      then {| currency := Some l;
              max_minor_units := N.min (max_minor_units a) (max_minor_units b) |}
      else spend_forbidden
  | _, _ => spend_forbidden
  end.

Definition uses_intersect (a b : UseConstraints) : UseConstraints :=
  {| capacity := capacity_intersect (capacity a) (capacity b);
     max_request_bytes := bytes_intersect (max_request_bytes a) (max_request_bytes b);
     max_response_bytes := bytes_intersect (max_response_bytes a) (max_response_bytes b) |}.

Definition network_intersect (a b : NetworkConstraints) : NetworkConstraints :=
  {| schemes := exact_scope_intersection (schemes a) (schemes b);
     hosts := exact_scope_intersection (hosts a) (hosts b);
     ports := exact_scope_intersection (ports a) (ports b);
     methods := exact_scope_intersection (methods a) (methods b);
     path_prefixes := path_scope_intersection (path_prefixes a) (path_prefixes b);
     allow_redirects := allow_redirects a && allow_redirects b |}.

(** [AuthorityConstraints::intersect] *)
Definition intersect (a b : AuthorityConstraints)
    : result AuthorityConstraints ConstraintError :=
  let? _ := validate a in
  let? _ := validate b in
  fail_if (negb (String.eqb (environment a) (environment b))) EnvironmentMismatch
  (let t := time_intersect (time a) (time b) in
   let? _ := time_validate t in
   Ok {| environment := environment a;
         read_only := read_only a || read_only b;
         time := t;
         uses := uses_intersect (uses a) (uses b);
         network := network_intersect (network a) (network b);
         spend := spend_intersect (spend a) (spend b) |}).
