(* ===== verification/ConstraintsSpec.v ===== *)
(** * What constraints permit, and what intersecting them promises

    [permits] is the abstract meaning of a constraint set: which concrete
    uses it allows.  The theorems of this file say that
    [Constraints.intersect] is the exact greatest lower bound for that
    meaning, that it preserves validity, and on which inputs it fails. *)

From S2P Require Import Prelude Ids External Constraints.

(** ** One concrete use of a grant *)

Record NetworkUse := {
  nu_scheme : NetworkScheme;
  nu_host : string;
  nu_port : N;
  nu_method : HttpMethod;
  nu_path : string;
  nu_redirect : bool;
}.

Record Use := {
  u_environment : string;
  u_now : N;
  u_writes : bool;
  u_uses_so_far : N;
  u_in_flight : N;
  u_request_bytes : option N;
  u_response_bytes : option N;
  u_network : option NetworkUse;
  u_spend : option (string * N);
}.

Definition in_scope {T} (s : ExactScope T) (x : T) : Prop :=
  match s with Denied => False | Exact vs => x ∈ vs end.

Definition in_path_scope (s : ExactScope string) (p : string) : Prop :=
  match s with
  | Denied => False
  | Exact vs => ∃ parent, parent ∈ vs ∧ path_is_within p parent = true
  end.

Definition within_bytes (b : ByteLimit) (n : N) : Prop :=
  match b with BytesDenied => False | BytesBounded m => (n <= m)%N end.

Definition within_capacity (c : UseCapacity) (so_far in_flight : N) : Prop :=
  match c with
  | CapacityDenied => False
  | CapacityBounded u k => (so_far < u)%N ∧ (in_flight < k)%N
  end.

Definition within_spend (s : SpendConstraints) (c : string) (amount : N) : Prop :=
  currency s = Some c ∧ (amount <= max_minor_units s)%N.

Definition opt_allowed {A} (P : A → Prop) (o : option A) : Prop :=
  match o with None => True | Some x => P x end.

Definition permits_network (n : NetworkConstraints) (u : NetworkUse) : Prop :=
  in_scope (schemes n) (nu_scheme u) ∧ in_scope (hosts n) (nu_host u) ∧
  in_scope (ports n) (nu_port u) ∧ in_scope (methods n) (nu_method u) ∧
  in_path_scope (path_prefixes n) (nu_path u) ∧
  (nu_redirect u = true → allow_redirects n = true).

Definition permits (c : AuthorityConstraints) (u : Use) : Prop :=
  environment c = u_environment u ∧
  active_at (time c) (u_now u) = true ∧
  (u_writes u = true → read_only c = false) ∧
  within_capacity (capacity (uses c)) (u_uses_so_far u) (u_in_flight u) ∧
  opt_allowed (within_bytes (max_request_bytes (uses c))) (u_request_bytes u) ∧
  opt_allowed (within_bytes (max_response_bytes (uses c))) (u_response_bytes u) ∧
  opt_allowed (permits_network (network c)) (u_network u) ∧
  opt_allowed (fun s => within_spend (spend c) s.1 s.2) (u_spend u).

(** ** Scopes *)

Lemma in_scope_intersection {T} `{Ord T} (a b : ExactScope T) x :
  in_scope (exact_scope_intersection a b) x ↔ in_scope a x ∧ in_scope b x.
Proof.
  destruct a as [|l], b as [|r]; simpl; try tauto.
  assert (x ∈ filter (fun x => ord_mem x (btree_collect r) = true) (btree_collect l)
          ↔ x ∈ l ∧ x ∈ r) as <-.
  { rewrite list_elem_of_filter, ord_mem_spec, !btree_collect_elem. tauto. }
  destruct (filter _ _); simpl; set_solver.
Qed.

Lemma scope_validate_Ok {T} `{Ord T} (s : ExactScope T) :
  scope_validate s = Ok tt ↔ s = Denied ∨ ∃ vs, s = Exact vs ∧ vs ≠ [] ∧ ord_sorted vs.
Proof.
  destruct s as [|[|v vs]]; [split; auto| |].
  { split; [discriminate|]. intros [|(? & [= <-] & ? & ?)]; done. }
  unfold scope_validate. rewrite !fail_if_Ok, !negb_false_iff, Nat.eqb_eq,
    strictly_sorted_spec. split.
  - intros (_ & Hs & _). right. eauto.
  - intros [|(? & [= <-] & ? & Hs)]; [done|]. rewrite btree_collect_id; auto.
Qed.

Lemma exact_scope_valid {T} `{Ord T} (a b : ExactScope T) :
  scope_validate (exact_scope_intersection a b) = Ok tt.
Proof.
  apply scope_validate_Ok. destruct a as [|l], b as [|r]; simpl; auto.
  pose proof (ord_sorted_filter (fun x => ord_mem x (btree_collect r) = true)
    (btree_collect l) (btree_collect_sorted l)) as Hs.
  destruct (filter _ _) as [|v vs] eqn:E; [by left|]. right. eauto.
Qed.

(** ** Path containment *)

(** Containment on whole segments. *)
Lemma path_within_spec c p :
  path_is_within c p = true ↔
  c = p ∨ ∃ t, c = p +:+ t ∧
    (ends_with_char "/"%char p = true ∨ first_byte t = Some "/"%char).
Proof.
  unfold path_is_within. rewrite orb_true_iff, andb_true_iff, orb_true_iff,
    String.eqb_eq, starts_with_spec.
  assert (∀ o, option_byte_is (ascii_eqb "/"%char) o = true ↔ o = Some "/"%char) as Ho.
  { intros [a|]; simpl; [rewrite ascii_eqb_eq|]; naive_solver. }
  rewrite Ho. split.
  - intros [->|[[t ->] Hs]]; [by left|right]. rewrite byte_at_app_r0 in Hs. eauto.
  - intros [->|(t & -> & Hs)]; [by left|right]. rewrite byte_at_app_r0. eauto.
Qed.

Lemma path_within_refl p : path_is_within p p = true.
Proof. apply path_within_spec. by left. Qed.

Lemma str_length_0 s : String.length s = 0%nat → s = EmptyString.
Proof. by destruct s. Qed.

Lemma ends_with_app c p t :
  t ≠ EmptyString → ends_with_char c (p +:+ t) = ends_with_char c t.
Proof.
  intros Ht. unfold ends_with_char, last_byte. rewrite str_length_app.
  destruct t as [|x t]; [done|]. simpl String.length.
  replace (String.length p + S (String.length t) - 1)%nat
    with (String.length p + String.length t)%nat by lia.
  rewrite byte_at_app_r. by replace (S (String.length t) - 1)%nat with (String.length t) by lia.
Qed.

Lemma path_within_trans p q r :
  path_is_within p q = true → path_is_within q r = true → path_is_within p r = true.
Proof.
  rewrite !path_within_spec.
  intros [->|(t & -> & Ht)] Hq; [done|]. destruct Hq as [->|(u & -> & Hu)]; [right; eauto|].
  right. exists (u +:+ t). split; [apply str_app_assoc|].
  destruct u as [|x u]; [|destruct Hu; auto].
  rewrite str_app_nil_r in *. simpl in *. destruct Hu; [auto|done].
Qed.

(** Two prefixes containing one path are nested. *)
Lemma path_within_chain p l r :
  path_is_within p l = true → path_is_within p r = true →
  (String.length l <= String.length r)%nat → path_is_within r l = true.
Proof.
  rewrite !path_within_spec. intros Hl Hr Hlen.
  assert (∃ s, p = l +:+ s ∧
    (s = EmptyString ∨ ends_with_char "/"%char l = true ∨ first_byte s = Some "/"%char))
    as (s & -> & Hs).
  { destruct Hl as [->|(s & -> & Hs)]; [|eauto].
    exists EmptyString. by rewrite str_app_nil_r; auto. }
  assert (∃ t, l +:+ s = r +:+ t) as [t Ht].
  { destruct Hr as [<-|(t & Ht & _)]; [|eauto]. exists EmptyString. by rewrite str_app_nil_r. }
  destruct (common_prefix l r s t Ht Hlen) as (u & -> & ->).
  destruct u as [|x u]; [left; by rewrite str_app_nil_r|].
  right. exists (String x u). split; [reflexivity|]. cbn in Hs |- *. naive_solver.
Qed.

Lemma path_within_antisym p q :
  path_is_within p q = true → path_is_within q p = true → p = q.
Proof.
  rewrite !path_within_spec. intros [->|(t & -> & _)] H; [done|].
  destruct H as [H|(u & Hu & _)]; [by rewrite <- H|].
  rewrite str_app_assoc in Hu. rewrite <- (str_app_nil_r q) in Hu at 1.
  apply str_app_inj_l in Hu. destruct t; [by rewrite str_app_nil_r|done].
Qed.

(** The paths contributed by one pair of prefixes. *)
Lemma path_pair_elem x l r acc :
  x ∈ path_pair l r acc ↔
  x ∈ acc ∨ (path_is_within l r = true ∧ x = l) ∨ (path_is_within r l = true ∧ x = r).
Proof.
  unfold path_pair.
  destruct (path_is_within l r) eqn:E1, (path_is_within r l) eqn:E2;
    rewrite ?btree_insert_elem; [|naive_solver..].
  pose proof (path_within_antisym _ _ E1 E2). naive_solver.
Qed.

Lemma path_inner_elem x l rs acc :
  x ∈ fold_left (fun acc rp => path_pair l rp acc) rs acc ↔
  x ∈ acc ∨ ∃ r, r ∈ rs ∧
    ((path_is_within l r = true ∧ x = l) ∨ (path_is_within r l = true ∧ x = r)).
Proof.
  revert acc. induction rs as [|r rs IH]; intros acc; simpl.
  - split; [auto|]. intros [|(r & Hr & _)]; [done|]. by apply not_elem_of_nil in Hr.
  - rewrite IH, path_pair_elem. setoid_rewrite elem_of_cons. clear IH.
    split; [intros [[?|?]|(? & ? & ?)]|intros [?|(? & [->|?] & ?)]]; eauto 6.
Qed.

Lemma path_outer_elem x ls rs acc :
  x ∈ fold_left (fun acc lp => fold_left (fun acc rp => path_pair lp rp acc) rs acc) ls acc ↔
  x ∈ acc ∨ ∃ l r, l ∈ ls ∧ r ∈ rs ∧
    ((path_is_within l r = true ∧ x = l) ∨ (path_is_within r l = true ∧ x = r)).
Proof.
  revert acc. induction ls as [|l ls IH]; intros acc; simpl.
  - split; [auto|]. intros [|(l & r & Hl & _)]; [done|]. by apply not_elem_of_nil in Hl.
  - rewrite IH, path_inner_elem. setoid_rewrite elem_of_cons. clear IH.
    split; [intros [[?|(? & ? & ?)]|(? & ? & ? & ? & ?)]
           |intros [?|(? & ? & [->|?] & ? & ?)]]; eauto 8.
Qed.

Lemma path_pair_sorted l r acc : ord_sorted acc → ord_sorted (path_pair l r acc).
Proof. unfold path_pair. intros. repeat case_match; auto with ordset. Qed.

Lemma path_outer_sorted ls rs acc :
  ord_sorted acc →
  ord_sorted
    (fold_left (fun acc lp => fold_left (fun acc rp => path_pair lp rp acc) rs acc) ls acc).
Proof.
  revert acc. induction ls as [|l ls IH]; intros acc Hs; simpl; [done|]. apply IH.
  clear IH. revert acc Hs. induction rs as [|r rs IH]; intros acc Hs; simpl; [done|].
  by apply IH, path_pair_sorted.
Qed.

Lemma path_scope_values a b x :
  x ∈ scope_values (path_scope_intersection a b) ↔
  ∃ l r, l ∈ scope_values a ∧ r ∈ scope_values b ∧
    ((path_is_within l r = true ∧ x = l) ∨ (path_is_within r l = true ∧ x = r)).
Proof.
  destruct a as [|ls], b as [|rs]; simpl; try set_solver.
  pose proof (path_outer_elem x ls rs []) as H.
  destruct (fold_left _ ls []); set_solver.
Qed.

Lemma in_path_scope_values s p :
  in_path_scope s p ↔ ∃ q, q ∈ scope_values s ∧ path_is_within p q = true.
Proof. destruct s; simpl; set_solver. Qed.

Lemma in_path_scope_intersection a b p :
  in_path_scope (path_scope_intersection a b) p ↔ in_path_scope a p ∧ in_path_scope b p.
Proof.
  rewrite !in_path_scope_values. setoid_rewrite path_scope_values. split.
  - intros (q & (l & r & Hl & Hr & [[Hw ->]|[Hw ->]]) & Hp);
      (split; [exists l|exists r]); split; try done;
      (eapply path_within_trans; [exact Hp|exact Hw]).
  - intros [(l & Hl & Hpl) (r & Hr & Hpr)].
    destruct (Nat.le_ge_cases (String.length l) (String.length r)) as [Hle|Hle].
    + pose proof (path_within_chain p l r Hpl Hpr Hle) as Hw.
      exists r. split; [|done]. exists l, r. auto.
    + pose proof (path_within_chain p r l Hpr Hpl Hle) as Hw.
      exists l. split; [|done]. exists l, r. auto.
Qed.

Lemma path_scope_valid a b : scope_validate (path_scope_intersection a b) = Ok tt.
Proof.
  apply scope_validate_Ok. destruct a as [|ls], b as [|rs]; simpl; auto.
  pose proof (path_outer_sorted ls rs [] (SSorted_nil _)) as Hs.
  destruct (fold_left _ ls []) as [|v vs]; [by left|]. right. eauto.
Qed.

(** ** The other dimensions *)

Lemma active_at_intersect a b now :
  active_at (time_intersect a b) now = true ↔
  active_at a now = true ∧ active_at b now = true.
Proof. unfold active_at, time_intersect; simpl. rewrite !andb_true_iff, !N.leb_le, !N.ltb_lt. lia. Qed.

Lemma within_bytes_intersect a b n :
  within_bytes (bytes_intersect a b) n ↔ within_bytes a n ∧ within_bytes b n.
Proof. destruct a, b; simpl; try tauto. lia. Qed.

Lemma within_capacity_intersect a b n k :
  within_capacity (capacity_intersect a b) n k ↔
  within_capacity a n k ∧ within_capacity b n k.
Proof. destruct a, b; simpl; try tauto. lia. Qed.

Lemma within_spend_intersect a b c n :
  within_spend (spend_intersect a b) c n ↔ within_spend a c n ∧ within_spend b c n.
Proof.
  unfold within_spend, spend_intersect.
  destruct (currency a) as [l|] eqn:Ea, (currency b) as [r|] eqn:Eb; simpl;
    [|naive_solver..].
  destruct (String.eqb_spec l r) as [->|Hne]; simpl.
  - split; [intros [[= ->] Hn]; split_and!; try done; lia|].
    intros [[[= ->] ?] [_ ?]]. split; [done|lia].
  - naive_solver.
Qed.

Lemma permits_network_intersect a b u :
  permits_network (network_intersect a b) u ↔ permits_network a u ∧ permits_network b u.
Proof.
  unfold permits_network, network_intersect; simpl.
  rewrite !in_scope_intersection, in_path_scope_intersection, andb_true_iff. tauto.
Qed.

Lemma opt_allowed_and {A} (P Q R : A → Prop) o :
  (∀ x, P x ↔ Q x ∧ R x) → opt_allowed P o ↔ opt_allowed Q o ∧ opt_allowed R o.
Proof. destruct o; simpl; [auto|tauto]. Qed.

(** ** Validity of the result *)

Lemma capacity_intersect_valid a b :
  capacity_validate a = Ok tt → capacity_validate b = Ok tt →
  capacity_validate (capacity_intersect a b) = Ok tt.
Proof.
  destruct a, b; simpl; try done. rewrite !fail_if_Ok, !orb_false_iff, !N.eqb_neq.
  intros. destruct_and?. split_and!; try done; lia.
Qed.

Lemma bytes_intersect_valid a b :
  bytes_validate a = Ok tt → bytes_validate b = Ok tt →
  bytes_validate (bytes_intersect a b) = Ok tt.
Proof.
  destruct a as [|[|p]], b as [|[|q]]; simpl; try done.
  destruct (N.min (N.pos p) (N.pos q)) eqn:E; [lia|done].
Qed.

Lemma spend_intersect_valid a b :
  spend_validate a = Ok tt → spend_validate b = Ok tt →
  spend_validate (spend_intersect a b) = Ok tt.
Proof.
  unfold spend_validate, spend_intersect.
  destruct (currency a) as [l|], (currency b) as [r|]; try done.
  destruct (String.eqb l r); [|done]. simpl.
  rewrite !fail_if_Ok, !negb_false_iff, !andb_true_iff, !N.ltb_lt.
  intros. destruct_and?. split_and!; try done. lia.
Qed.

Lemma existsb_subset {A} (f : A → bool) (l l' : list A) :
  (∀ x, x ∈ l' → x ∈ l) → existsb f l = false → existsb f l' = false.
Proof.
  intros Hs Hf. apply not_true_is_false. intros (x & Hx & Hfx)%existsb_exists.
  apply list_elem_of_In, Hs in Hx.
  assert (existsb f l = true); [|congruence].
  apply existsb_exists. exists x. by rewrite <- list_elem_of_In.
Qed.

Lemma exact_scope_values {T} `{Ord T} (a b : ExactScope T) x :
  x ∈ scope_values (exact_scope_intersection a b) → x ∈ scope_values a.
Proof.
  intros Hx. assert (in_scope (exact_scope_intersection a b) x) as Hi.
  { destruct (exact_scope_intersection a b); simpl in *; set_solver. }
  apply in_scope_intersection in Hi as [Hi _]. by destruct a.
Qed.

Lemma network_intersect_valid a b :
  network_validate a = Ok tt → network_validate b = Ok tt →
  network_validate (network_intersect a b) = Ok tt.
Proof.
  unfold network_validate. intros Ha Hb. inv_ok. simpl.
  rewrite !exact_scope_valid, path_scope_valid. simpl.
  repeat match goal with H : allow_redirects _ = false |- _ => rewrite H; clear H end. simpl.
  rewrite (existsb_subset _ (scope_values (hosts a)) _ (exact_scope_values _ _)); [|done].
  simpl.
  rewrite (existsb_subset _
    (scope_values (path_prefixes a) ++ scope_values (path_prefixes b))); [done| |].
  - intros y (l & r & Hl & Hr & Hy)%path_scope_values. set_solver.
  - rewrite existsb_app. apply orb_false_iff. done.
Qed.

(** ** Properties of [intersect] *)

(** What a successful [intersect] returns. *)
Definition meet (a b : AuthorityConstraints) : AuthorityConstraints :=
  {| environment := environment a;
     read_only := read_only a || read_only b;
     time := time_intersect (time a) (time b);
     uses := uses_intersect (uses a) (uses b);
     network := network_intersect (network a) (network b);
     spend := spend_intersect (spend a) (spend b) |}.

Lemma intersect_Ok_inv a b c :
  intersect a b = Ok c →
  validate a = Ok tt ∧ validate b = Ok tt ∧ environment a = environment b ∧
  time_validate (time_intersect (time a) (time b)) = Ok tt ∧ c = meet a b.
Proof.
  unfold intersect. intros H. inv_ok. split_bools.
  match goal with H : String.eqb _ _ = true |- _ => apply String.eqb_eq in H end.
  repeat match goal with u : unit |- _ => destruct u end. naive_solver.
Qed.

Lemma permits_meet a b u :
  environment a = environment b → permits (meet a b) u ↔ permits a u ∧ permits b u.
Proof.
  intros He. unfold permits; simpl.
  rewrite active_at_intersect, within_capacity_intersect, orb_false_iff.
  rewrite (opt_allowed_and _ _ _ _ (within_bytes_intersect _ _)).
  rewrite (opt_allowed_and _ _ _ _ (within_bytes_intersect _ _)).
  rewrite (opt_allowed_and _ _ _ _ (permits_network_intersect _ _)).
  rewrite (opt_allowed_and _ (fun s => within_spend (spend a) s.1 s.2)
    (fun s => within_spend (spend b) s.1 s.2)); [|intros; apply within_spend_intersect].
  rewrite <- He. tauto.
Qed.

Lemma meet_valid a b :
  validate a = Ok tt → validate b = Ok tt →
  time_validate (time_intersect (time a) (time b)) = Ok tt → validate (meet a b) = Ok tt.
Proof.
  intros Ha Hb Ht. unfold validate in *. inv_ok. simpl.
  repeat match goal with u : unit |- _ => destruct u end.
  match goal with H : _ || _ || _ = false |- _ => rewrite H end. simpl.
  rewrite Ht. simpl.
  rewrite capacity_intersect_valid by done. simpl.
  rewrite !bytes_intersect_valid by done. simpl.
  rewrite network_intersect_valid by done. simpl.
  by rewrite spend_intersect_valid.
Qed.

(** C22: the intersection of two grants is exact: it permits a use if and only
    if both grants permit it.  So it never adds authority, and it does not
    drop authority that both sides gave. *)
Theorem intersect_exact a b c :
  intersect a b = Ok c → ∀ u, permits c u ↔ permits a u ∧ permits b u.
Proof.
  intros (_ & _ & He & _ & ->)%intersect_Ok_inv u. by apply permits_meet.
Qed.

(** C39: a successful intersection is itself a valid constraint set. *)
Theorem intersect_valid a b c : intersect a b = Ok c → validate c = Ok tt.
Proof.
  intros (Ha & Hb & _ & Ht & ->)%intersect_Ok_inv. by apply meet_valid.
Qed.

(** the intersection fails exactly when one side is invalid, the
    environments differ, or the two time windows share no instant; the error
    names the first of these, in that order. *)
Theorem intersect_errors a b e :
  intersect a b = Err e ↔
  validate a = Err e ∨
  (validate a = Ok tt ∧ validate b = Err e) ∨
  (validate a = Ok tt ∧ validate b = Ok tt ∧
   ((environment a ≠ environment b ∧ e = EnvironmentMismatch) ∨
    (environment a = environment b ∧ e = InvalidTimeWindow ∧
     ∀ now, ¬ (active_at (time a) now = true ∧ active_at (time b) now = true)))).
Proof.
  unfold intersect. destruct (validate a) as [[]|ea]; simpl; [|naive_solver].
  destruct (validate b) as [[]|eb]; simpl; [|naive_solver].
  rewrite fail_if_Err, negb_true_iff, negb_false_iff, String.eqb_eq, String.eqb_neq.
  assert ((expires_at (time_intersect (time a) (time b)) <=?
           not_before (time_intersect (time a) (time b)))%N = true ↔
          ∀ now, ¬ (active_at (time a) now = true ∧ active_at (time b) now = true)) as Ht.
  { rewrite N.leb_le. split.
    - intros Hle now Hn. apply active_at_intersect in Hn. unfold active_at in Hn.
      rewrite andb_true_iff, N.leb_le, N.ltb_lt in Hn. lia.
    - intros Hn. apply N.nlt_ge. intros Hlt. apply (Hn (not_before (time_intersect (time a) (time b)))), active_at_intersect.
      unfold active_at. rewrite andb_true_iff, N.leb_le, N.ltb_lt.
      split; [apply N.le_refl|exact Hlt]. }
  unfold time_validate.
  destruct (N.leb_spec (expires_at (time_intersect (time a) (time b)))
                       (not_before (time_intersect (time a) (time b)))) as [Hle|Hlt];
    cbn [fail_if rbind].
  - split.
    + intros [[? <-]|[? [= <-]]]; do 2 right; split_and!; try done; [by left|right].
      split_and!; try done. by apply Ht.
    + intros [?|[(_ & ?)|(_ & _ & [[? ->]|(? & -> & _)])]]; [done|done|by left|by right].
  - split.
    + intros [[? <-]|[? ?]]; [|done]. do 2 right. split_and!; try done. by left.
    + intros [?|[(_ & ?)|(_ & _ & [[? ->]|(? & -> & Hn)])]]; [done|done|by left|].
      by apply Ht in Hn.
Qed.

Lemma exact_scope_comm {T} `{Ord T} (a b : ExactScope T) :
  exact_scope_intersection a b = exact_scope_intersection b a.
Proof.
  destruct a as [|l], b as [|r]; try done. simpl.
  assert (filter (fun x => ord_mem x (btree_collect r) = true) (btree_collect l) =
          filter (fun x => ord_mem x (btree_collect l) = true) (btree_collect r)) as ->;
    [|done].
  apply ord_sorted_ext; auto with ordset.
  intros x. rewrite !list_elem_of_filter, !ord_mem_spec. tauto.
Qed.

Lemma scope_values_inj {T} `{Ord T} (a b : ExactScope T) :
  scope_validate a = Ok tt → scope_validate b = Ok tt →
  (∀ x, x ∈ scope_values a ↔ x ∈ scope_values b) → a = b.
Proof.
  intros Ha Hb Hx. apply scope_validate_Ok in Ha, Hb.
  destruct Ha as [->|(l & -> & Hl & Hls)], Hb as [->|(r & -> & Hr & Hrs)]; simpl in *.
  - done.
  - destruct r as [|x r]; [done|]. destruct (Hx x); set_solver.
  - destruct l as [|x l]; [done|]. destruct (Hx x); set_solver.
  - f_equal. by apply ord_sorted_ext.
Qed.

Lemma path_scope_comm a b : path_scope_intersection a b = path_scope_intersection b a.
Proof.
  apply scope_values_inj; [apply path_scope_valid..|].
  intros x. rewrite !path_scope_values. naive_solver.
Qed.

Lemma intersect_network_comm a b : network_intersect a b = network_intersect b a.
Proof.
  unfold network_intersect. f_equal; auto using exact_scope_comm, path_scope_comm.
  apply andb_comm.
Qed.

Lemma intersect_uses_comm a b : uses_intersect a b = uses_intersect b a.
Proof.
  unfold uses_intersect, capacity_intersect, bytes_intersect.
  f_equal; repeat case_match; try done; f_equal; lia.
Qed.

Lemma spend_intersect_comm a b : spend_intersect a b = spend_intersect b a.
Proof.
  unfold spend_intersect. destruct (currency a) as [l|], (currency b) as [r|]; try done.
  rewrite (String.eqb_sym r l). destruct (String.eqb_spec l r) as [->|]; [|done].
  f_equal. lia.
Qed.

Lemma exact_scope_idem {T} `{Ord T} (s : ExactScope T) :
  scope_validate s = Ok tt → exact_scope_intersection s s = s.
Proof.
  intros Hs. apply scope_values_inj; [apply exact_scope_valid|done|].
  intros x. split; [apply exact_scope_values|]. intros Hx.
  pose proof (in_scope_intersection s s x) as Hi.
  destruct s; simpl in *; [done|]. repeat case_match; set_solver.
Qed.

Lemma path_scope_idem s : scope_validate s = Ok tt → path_scope_intersection s s = s.
Proof.
  intros Hs. apply scope_values_inj; [apply path_scope_valid|done|].
  intros x. rewrite path_scope_values. split; [naive_solver|].
  intros Hx. exists x, x. split_and!; auto using path_within_refl.
Qed.

Lemma network_intersect_idem n : network_validate n = Ok tt → network_intersect n n = n.
Proof.
  unfold network_validate. intros Hn. inv_ok.
  repeat match goal with u : unit |- _ => destruct u end.
  unfold network_intersect. rewrite !exact_scope_idem, path_scope_idem by done.
  destruct n; simpl in *. by subst.
Qed.

Lemma spend_intersect_idem s : spend_validate s = Ok tt → spend_intersect s s = s.
Proof.
  unfold spend_intersect, spend_validate, spend_forbidden.
  destruct s as [[cur|] m]; simpl; intros Hs; inv_ok.
  - rewrite String.eqb_refl. f_equal. lia.
  - match goal with H : negb (m =? 0)%N = false |- _ =>
      apply negb_false_iff, N.eqb_eq in H as -> end. done.
Qed.

Lemma uses_intersect_idem u : uses_intersect u u = u.
Proof.
  unfold uses_intersect, capacity_intersect, bytes_intersect.
  destruct u as [[] [] []]; simpl; do 2 f_equal; lia.
Qed.

Lemma time_intersect_comm a b : time_intersect a b = time_intersect b a.
Proof. unfold time_intersect. f_equal; lia. Qed.

Lemma time_intersect_idem t : time_intersect t t = t.
Proof. unfold time_intersect. destruct t; simpl. f_equal; lia. Qed.

Lemma intersect_self a : validate a = Ok tt → intersect a a = Ok a.
Proof.
  intros Ha. unfold intersect. rewrite Ha. simpl. rewrite String.eqb_refl. simpl.
  rewrite time_intersect_idem.
  unfold validate in Ha. inv_ok.
  repeat match goal with u : unit |- _ => destruct u end.
  match goal with H : time_validate _ = _ |- _ => rewrite H end. simpl.
  rewrite uses_intersect_idem, network_intersect_idem, spend_intersect_idem by done.
  rewrite orb_diag. by destruct a.
Qed.

(** intersecting does not depend on which grant comes first, and
    intersecting a valid grant with itself gives it back. *)
Theorem intersect_comm_idem a b c :
  (intersect a b = Ok c → intersect b a = Ok c) ∧
  (validate a = Ok tt → intersect a a = Ok a).
Proof.
  split.
  - intros (Ha & Hb & He & Ht & ->)%intersect_Ok_inv.
    unfold intersect, meet. rewrite Ha, Hb. simpl. rewrite He, String.eqb_refl. simpl.
    rewrite time_intersect_comm, Ht. simpl.
    by rewrite orb_comm, intersect_uses_comm, intersect_network_comm, spend_intersect_comm.
  - apply intersect_self.
Qed.

(** ** Witnesses: the constraint sets of the source's own tests *)

Definition sample_constraints : AuthorityConstraints := {|
  environment := "production"; read_only := false;
  time := {| not_before := 100; expires_at := 200 |};
  uses := {| capacity := CapacityBounded 10 3;
             max_request_bytes := BytesBounded 1000;
             max_response_bytes := BytesBounded 2000 |};
  network := {| schemes := Exact [Http; Https];
                hosts := Exact ["api.example.com"; "other.example.com"];
                ports := Exact [443; 8443]%N; methods := Exact [Get; Post];
                path_prefixes := Exact ["/status"; "/v1"]; allow_redirects := false |};
  spend := {| currency := Some "USD"; max_minor_units := 5000 |};
|}.

Definition sample_narrow : AuthorityConstraints := {|
  environment := "production"; read_only := true;
  time := {| not_before := 120; expires_at := 180 |};
  uses := {| capacity := CapacityBounded 1 3;
             max_request_bytes := BytesBounded 1000;
             max_response_bytes := BytesBounded 2000 |};
  network := {| schemes := Exact [Https]; hosts := Exact ["api.example.com"];
                ports := Exact [443]%N; methods := Exact [Post];
                path_prefixes := Exact ["/v1/jobs"]; allow_redirects := false |};
  spend := {| currency := Some "USD"; max_minor_units := 500 |};
|}.

Example intersect_sample : intersect sample_constraints sample_narrow = Ok sample_narrow.
Proof. vm_compute. reflexivity. Qed.

Definition sample_use : Use := {|
  u_environment := "production"; u_now := 150; u_writes := false;
  u_uses_so_far := 0; u_in_flight := 0; u_request_bytes := Some 10%N;
  u_response_bytes := None;
  u_network := Some {| nu_scheme := Https; nu_host := "api.example.com"; nu_port := 443;
                       nu_method := Post; nu_path := "/v1/jobs/7"; nu_redirect := false |};
  u_spend := Some ("USD", 500%N);
|}.

Lemma intersect_exact_witness :
  intersect sample_constraints sample_narrow = Ok sample_narrow ∧
  (permits sample_narrow sample_use ↔
   permits sample_constraints sample_use ∧ permits sample_narrow sample_use).
Proof.
  assert (intersect sample_constraints sample_narrow = Ok sample_narrow) as H
    by (vm_compute; reflexivity).
  split; [exact H|]. exact (intersect_exact _ _ _ H sample_use).
Defined.

Lemma intersect_valid_witness : validate sample_narrow = Ok tt.
Proof.
  apply (intersect_valid sample_constraints sample_narrow). vm_compute. reflexivity.
Defined.

Lemma intersect_comm_idem_witness :
  intersect sample_narrow sample_constraints = Ok sample_narrow ∧
  intersect sample_constraints sample_constraints = Ok sample_constraints.
Proof.
  destruct (intersect_comm_idem sample_constraints sample_narrow sample_narrow) as [Hc Hi].
  split; [apply Hc|apply Hi]; vm_compute; reflexivity.
Defined.
