(* ===== verification/Schema.v ===== *)
(** * Action intents and expected subjects:
      [crates/phantom-authority/src/verbs.rs] and [schema.rs]

    The closed operations with the effect class derived from each, the
    untrusted [ActionIntentV1] and [ExpectedAuthority] records and their
    validation, error by error. *)

From S2P Require Import Prelude Ids External Constraints.

(** ** Closed operations *)

Inductive Operation :=
  | AssumePlace | Capability | FixAuth | InspectWorkspace | Leave | NeedSecret
  | RunEngineeringCheck | SetupWorkspace | Share.

Inductive EffectClass := Inspect | LocalRead | LocalWrite | ExternalWrite | SecretUse.

#[export] Instance Operation_eq_dec : EqDecision Operation.
Proof. solve_decision. Defined.
#[export] Instance EffectClass_eq_dec : EqDecision EffectClass.
Proof. solve_decision. Defined.

Definition effect_class (o : Operation) : EffectClass :=
  match o with
  | Capability => Inspect
  | InspectWorkspace => LocalRead
  | AssumePlace | FixAuth | Leave | RunEngineeringCheck | SetupWorkspace => LocalWrite
  | NeedSecret => SecretUse
  | Share => ExternalWrite
  end.

(** [rename_all = "snake_case"] *)
#[export] Instance Serialize_operation : Serialize Operation := fun o =>
  VString (match o with
           | AssumePlace => "assume_place" | Capability => "capability"
           | FixAuth => "fix_auth" | InspectWorkspace => "inspect_workspace"
           | Leave => "leave" | NeedSecret => "need_secret"
           | RunEngineeringCheck => "run_engineering_check"
           | SetupWorkspace => "setup_workspace" | Share => "share"
           end).

(** ** Schemas *)

Definition AUTHORITY_SCHEMA_VERSION : N := 1.

Inductive SchemaError :=
  | UnsupportedVersion (v : N)
  | InvalidProvider
  | InvalidAuthorityLabel
  | InvalidAuthorityGeneration
  | OperationConstraintMismatch
  | InvalidConstraints (e : ConstraintError).

#[export] Instance SchemaError_eq_dec : EqDecision SchemaError.
Proof. solve_decision. Defined.

Record ActionIntentV1 := {
  ai_schema_version : N;
  ai_action_id : ActionId;
  ai_workspace_id : WorkspaceId;
  ai_workspace_manifest_sha256 : Sha256Digest;
  ai_operation : Operation;
  ai_provider : option string;
  ai_canonical_args_sha256 : Sha256Digest;
  ai_requested_at : N;
  ai_constraints : AuthorityConstraints;
}.

#[export] Instance ActionIntentV1_eq_dec : EqDecision ActionIntentV1.
Proof. solve_decision. Defined.

#[export] Instance Serialize_intent : Serialize ActionIntentV1 := fun i =>
  VObject ([("schema_version", to_value (ai_schema_version i));
            ("action_id", to_value (ai_action_id i));
            ("workspace_id", to_value (ai_workspace_id i));
            ("workspace_manifest_sha256", to_value (ai_workspace_manifest_sha256 i));
            ("operation", to_value (ai_operation i))] ++
           skip_none "provider" (ai_provider i) ++
           [("canonical_args_sha256", to_value (ai_canonical_args_sha256 i));
            ("requested_at", to_value (ai_requested_at i));
            ("constraints", to_value (ai_constraints i))]).

Definition is_denied {T} (s : ExactScope T) : bool :=
  match s with Denied => true | Exact _ => false end.
Definition capacity_is_denied (c : UseCapacity) : bool :=
  match c with CapacityDenied => true | CapacityBounded _ _ => false end.
Definition bytes_is_denied (b : ByteLimit) : bool :=
  match b with BytesDenied => true | BytesBounded _ => false end.

(** The five [matches!(_, ExactScope::Denied)] of [ActionIntentV1::validate]. *)
Definition network_denied (n : NetworkConstraints) : bool :=
  is_denied (schemes n) && is_denied (hosts n) && is_denied (ports n)
  && is_denied (methods n) && is_denied (path_prefixes n).

(** The provider closure: [true] on a provider that is rejected. *)
Definition invalid_provider (provider : option string) : bool :=
  match provider with
  | None => false
  | Some p => str_is_empty p || (64 <? String.length p)%nat
              || negb (all_bytes environment_byte p)
  end.

(** [matches!(self.operation, Capability | InspectWorkspace)] *)
Definition expected_read_only (o : Operation) : bool :=
  match o with Capability | InspectWorkspace => true | _ => false end.

(** The final [match self.operation]: [true] on a mismatch. *)
Definition operation_mismatch (o : Operation) (provider : option string)
    (c : AuthorityConstraints) : bool :=
  match o with
  | Share =>
      negb (bool_decide (is_Some provider))
      || network_denied (network c)
      || capacity_is_denied (capacity (uses c))
      || bytes_is_denied (max_request_bytes (uses c))
      || bytes_is_denied (max_response_bytes (uses c))
      || negb (is_forbidden (spend c))
  | _ =>
      bool_decide (is_Some provider)
      || negb (network_denied (network c))
      || negb (is_forbidden (spend c))
  end.

(** [ActionIntentV1::validate] *)
Definition intent_validate (i : ActionIntentV1) : result unit SchemaError :=
  fail_if (negb (ai_schema_version i =? AUTHORITY_SCHEMA_VERSION)%N)
    (UnsupportedVersion (ai_schema_version i))
  (fail_if (invalid_provider (ai_provider i)) InvalidProvider
  (let? _ := map_err InvalidConstraints (validate (ai_constraints i)) in
   fail_if (negb (eqb (read_only (ai_constraints i)) (expected_read_only (ai_operation i))))
     OperationConstraintMismatch
   (fail_if (operation_mismatch (ai_operation i) (ai_provider i) (ai_constraints i))
     OperationConstraintMismatch
   (Ok tt)))).

(** [ActionIntentV1::effect_class] *)
Definition intent_effect_class (i : ActionIntentV1) : EffectClass :=
  effect_class (ai_operation i).

Record ExpectedAuthority := {
  ea_schema_version : N;
  ea_workspace_id : WorkspaceId;
  ea_workspace_manifest_sha256 : Sha256Digest;
  ea_place_id : PlaceId;
  ea_binding_id : BindingId;
  ea_tenant_id : string;
  ea_principal_id : string;
  ea_role : string;
  ea_environment : string;
  ea_vault_namespace_id : VaultNamespaceId;
  ea_installation_id : InstallationId;
  ea_session_id : SessionId;
  ea_authority_epoch : string;
  ea_session_generation : N;
  ea_session_subject_sha256 : Sha256Digest;
  ea_policy_sha256 : Sha256Digest;
}.

#[export] Instance ExpectedAuthority_eq_dec : EqDecision ExpectedAuthority.
Proof. solve_decision. Defined.

#[export] Instance Serialize_expected : Serialize ExpectedAuthority := fun a =>
  VObject [("schema_version", to_value (ea_schema_version a));
           ("workspace_id", to_value (ea_workspace_id a));
           ("workspace_manifest_sha256", to_value (ea_workspace_manifest_sha256 a));
           ("place_id", to_value (ea_place_id a)); ("binding_id", to_value (ea_binding_id a));
           ("tenant_id", to_value (ea_tenant_id a));
           ("principal_id", to_value (ea_principal_id a)); ("role", to_value (ea_role a));
           ("environment", to_value (ea_environment a));
           ("vault_namespace_id", to_value (ea_vault_namespace_id a));
           ("installation_id", to_value (ea_installation_id a));
           ("session_id", to_value (ea_session_id a));
           ("authority_epoch", to_value (ea_authority_epoch a));
           ("session_generation", to_value (ea_session_generation a));
           ("session_subject_sha256", to_value (ea_session_subject_sha256 a));
           ("policy_sha256", to_value (ea_policy_sha256 a))].

Definition label_byte (b : ascii) : bool :=
  is_ascii_alphanumeric b || ascii_eqb b "-"%char || ascii_eqb b "_"%char
  || ascii_eqb b "."%char.

(** [fn is_label] *)
Definition is_label (v : string) : bool :=
  negb (str_is_empty v) && (String.length v <=? 128)%nat && all_bytes label_byte v.

(** [ExpectedAuthority::validate] *)
Definition authority_validate (a : ExpectedAuthority) : result unit SchemaError :=
  fail_if (negb (ea_schema_version a =? AUTHORITY_SCHEMA_VERSION)%N)
    (UnsupportedVersion (ea_schema_version a))
  (fail_if (negb (is_label (ea_tenant_id a)) || negb (is_label (ea_principal_id a))
            || negb (is_label (ea_role a)) || negb (is_label (ea_environment a)))
    InvalidAuthorityLabel
  (fail_if (negb (String.length (ea_authority_epoch a) =? 32)%nat
            || negb (all_bytes is_lower_hex (ea_authority_epoch a))
            || (ea_session_generation a =? 0)%N)
    InvalidAuthorityGeneration
  (Ok tt))).

(** ** Lemmas *)

(** Everything a validated intent guarantees. *)
Lemma intent_validate_Ok i :
  intent_validate i = Ok tt ↔
  ai_schema_version i = AUTHORITY_SCHEMA_VERSION ∧
  invalid_provider (ai_provider i) = false ∧
  validate (ai_constraints i) = Ok tt ∧
  read_only (ai_constraints i) = expected_read_only (ai_operation i) ∧
  operation_mismatch (ai_operation i) (ai_provider i) (ai_constraints i) = false.
Proof.
  unfold intent_validate. split.
  - intros H. inv_ok. split_bools.
    repeat match goal with
    | u : unit |- _ => destruct u
    | H : eqb _ _ = true |- _ => apply eqb_prop in H
    | H : (_ =? _)%N = true |- _ => apply N.eqb_eq in H
    end. auto.
  - intros (-> & -> & -> & -> & ->). simpl. by rewrite eqb_reflx.
Qed.

Lemma authority_validate_Ok a :
  authority_validate a = Ok tt ↔
  ea_schema_version a = AUTHORITY_SCHEMA_VERSION ∧
  is_label (ea_tenant_id a) = true ∧ is_label (ea_principal_id a) = true ∧
  is_label (ea_role a) = true ∧ is_label (ea_environment a) = true ∧
  String.length (ea_authority_epoch a) = 32%nat ∧
  all_bytes is_lower_hex (ea_authority_epoch a) = true ∧ ea_session_generation a ≠ 0%N.
Proof.
  unfold authority_validate.
  rewrite !fail_if_Ok, !orb_false_iff, !negb_false_iff, N.eqb_eq, Nat.eqb_eq, N.eqb_neq.
  tauto.
Qed.

Lemma network_denied_spec n :
  network_denied n = true ↔
  schemes n = Denied ∧ hosts n = Denied ∧ ports n = Denied ∧ methods n = Denied ∧
  path_prefixes n = Denied.
Proof.
  unfold network_denied. rewrite !andb_true_iff.
  destruct n as [[] [] [] [] [] ?]; simpl; naive_solver.
Qed.

(** Validity of a scope that is not denied. *)
Lemma validate_network_Ok c : validate c = Ok tt → network_validate (network c) = Ok tt.
Proof.
  unfold validate. intros H. inv_ok.
  repeat match goal with u : unit |- _ => destruct u end. done.
Qed.

(** ** Properties *)

(** what a validated intent may do is fixed by its closed operation: it is
    read-only exactly for the two inspecting effect classes; it can reach the
    network and name a provider exactly for the external write [Share]; and no
    operation may spend. *)
Theorem intent_effects i :
  intent_validate i = Ok tt →
  (read_only (ai_constraints i) = true ↔
     intent_effect_class i = Inspect ∨ intent_effect_class i = LocalRead) ∧
  (network_denied (network (ai_constraints i)) = false ↔
     intent_effect_class i = ExternalWrite) ∧
  (is_Some (ai_provider i) ↔ intent_effect_class i = ExternalWrite) ∧
  max_minor_units (spend (ai_constraints i)) = 0%N.
Proof.
  intros (_ & _ & _ & Hro & Hm)%intent_validate_Ok. rewrite Hro. unfold intent_effect_class.
  destruct (ai_operation i); simpl in *; split_bools;
    split_and!; try naive_solver; try (by apply N.eqb_eq);
    split; intros; try done; try congruence; naive_solver.
Qed.

(** ** Sample inputs for the witnesses *)

Definition sample_hex (k : IdKind) : string := id_prefix k +:+ str_repeat "01" 16.

Definition sample_id (k : IdKind) : OpaqueId k.
Proof. refine (mk_id (sample_hex k) _). by destruct k. Defined.

Definition sample_digest : Sha256Digest.
Proof. refine (mk_digest (str_repeat "ab" 32) _). by vm_compute. Defined.

Definition denied_network : NetworkConstraints := {|
  schemes := Denied; hosts := Denied; ports := Denied; methods := Denied;
  path_prefixes := Denied; allow_redirects := false |}.

Definition sample_local : AuthorityConstraints := {|
  environment := "production"; read_only := true;
  time := {| not_before := 100; expires_at := 200 |};
  uses := {| capacity := CapacityBounded 2 1; max_request_bytes := BytesDenied;
             max_response_bytes := BytesDenied |};
  network := denied_network; spend := spend_forbidden |}.

Definition sample_intent : ActionIntentV1 := {|
  ai_schema_version := 1;
  ai_action_id := sample_id ActionIdK;
  ai_workspace_id := sample_id WorkspaceIdK;
  ai_workspace_manifest_sha256 := sample_digest;
  ai_operation := Capability;
  ai_provider := None;
  ai_canonical_args_sha256 := sample_digest;
  ai_requested_at := 100;
  ai_constraints := sample_local |}.

Definition sample_authority : ExpectedAuthority := {|
  ea_schema_version := 1;
  ea_workspace_id := sample_id WorkspaceIdK;
  ea_workspace_manifest_sha256 := sample_digest;
  ea_place_id := sample_id PlaceIdK;
  ea_binding_id := sample_id BindingIdK;
  ea_tenant_id := "tenant"; ea_principal_id := "principal"; ea_role := "operator";
  ea_environment := "production";
  ea_vault_namespace_id := sample_id VaultNamespaceIdK;
  ea_installation_id := sample_id InstallationIdK;
  ea_session_id := sample_id SessionIdK;
  ea_authority_epoch := str_repeat "0f" 16;
  ea_session_generation := 1;
  ea_session_subject_sha256 := sample_digest;
  ea_policy_sha256 := sample_digest |}.

Lemma intent_effects_witness :
  intent_validate sample_intent = Ok tt ∧
  (network_denied (network (ai_constraints sample_intent)) = false ↔
     intent_effect_class sample_intent = ExternalWrite).
Proof.
  assert (intent_validate sample_intent = Ok tt) as H by (vm_compute; reflexivity).
  split; [exact H|]. exact (proj1 (proj2 (intent_effects sample_intent H))).
Defined.
