(* ===== verification/Verifier.v ===== *)
(** * Verified grants: [crates/phantom-authority/src/verifier.rs]

    [VerifiedGrant::from_verified] is the only constructor of a grant; the
    private witness field becomes the predicate [granted], which holds of the
    records it returns.  [DenyAllAuthority] is the production verifier. *)

From S2P Require Import Prelude Ids External Constraints ConstraintsSpec Schema.

Inductive AuthorityError :=
  | AuthorityUnavailable | SubjectMismatch | Expired | Replay | VerbDenied.

#[export] Instance AuthorityError_eq_dec : EqDecision AuthorityError.
Proof. solve_decision. Defined.

Record VerifiedGrant := {
  vg_grant_id : GrantId;
  vg_action_id : ActionId;
  vg_operation : Operation;
  vg_authority : ExpectedAuthority;
  vg_constraints : AuthorityConstraints;
  vg_canonical_args_sha256 : Sha256Digest;
  vg_verified_at : N;
}.

(** [trait AuthorityVerifier] *)
Class AuthorityVerifier := verify :
  ActionIntentV1 → ExpectedAuthority → N → result VerifiedGrant AuthorityError.

(** [impl AuthorityVerifier for DenyAllAuthority] *)
Definition DenyAllAuthority : AuthorityVerifier :=
  fun _ _ _ => Err AuthorityUnavailable.

(** The three binding comparisons of [from_verified]. *)
Definition subject_mismatch (i : ActionIntentV1) (a : ExpectedAuthority) : bool :=
  negb (bool_decide (ai_workspace_id i = ea_workspace_id a))
  || negb (bool_decide (ai_workspace_manifest_sha256 i = ea_workspace_manifest_sha256 a))
  || negb (String.eqb (environment (ai_constraints i)) (ea_environment a)).

(** [VerifiedGrant::from_verified] *)
Definition from_verified (grant_id : GrantId) (intent : ActionIntentV1)
    (authority : ExpectedAuthority) (constraints : AuthorityConstraints)
    (verified_at : N) : result VerifiedGrant AuthorityError :=
  let? _ := map_err (fun _ => VerbDenied) (intent_validate intent) in
  let? _ := map_err (fun _ => SubjectMismatch) (authority_validate authority) in
  fail_if (subject_mismatch intent authority) SubjectMismatch
  (let? c := map_err (fun _ => SubjectMismatch)
               (intersect (ai_constraints intent) constraints) in
   fail_if (negb (eqb (read_only c) (read_only (ai_constraints intent)))) SubjectMismatch
   (fail_if (negb (active_at (time c) verified_at)) Expired
   (Ok {| vg_grant_id := grant_id;
          vg_action_id := ai_action_id intent;
          vg_operation := ai_operation intent;
          vg_authority := authority;
          vg_constraints := c;
          vg_canonical_args_sha256 := ai_canonical_args_sha256 intent;
          vg_verified_at := verified_at |}))).

(** A record that carries the private verification witness. *)
Definition granted (g : VerifiedGrant) : Prop :=
  ∃ i c, from_verified (vg_grant_id g) i (vg_authority g) c (vg_verified_at g) = Ok g.

Lemma from_verified_Ok gid i a c now g :
  from_verified gid i a c now = Ok g →
  intent_validate i = Ok tt ∧ authority_validate a = Ok tt ∧
  ai_workspace_id i = ea_workspace_id a ∧
  ai_workspace_manifest_sha256 i = ea_workspace_manifest_sha256 a ∧
  environment (ai_constraints i) = ea_environment a ∧
  intersect (ai_constraints i) c = Ok (vg_constraints g) ∧
  read_only (vg_constraints g) = read_only (ai_constraints i) ∧
  active_at (time (vg_constraints g)) now = true ∧
  g = {| vg_grant_id := gid; vg_action_id := ai_action_id i;
         vg_operation := ai_operation i; vg_authority := a;
         vg_constraints := vg_constraints g;
         vg_canonical_args_sha256 := ai_canonical_args_sha256 i;
         vg_verified_at := now |}.
Proof.
  unfold from_verified, subject_mismatch. intros H. inv_ok. split_bools.
  repeat match goal with
  | u : unit |- _ => destruct u
  | H : String.eqb _ _ = true |- _ => apply String.eqb_eq in H
  | H : eqb _ _ = true |- _ => apply eqb_prop in H
  end. subst g. simpl. auto 10.
Qed.

(** Grants hold valid, active constraints. *)
Lemma granted_valid g :
  granted g →
  authority_validate (vg_authority g) = Ok tt ∧
  validate (vg_constraints g) = Ok tt ∧
  environment (vg_constraints g) = ea_environment (vg_authority g) ∧
  active_at (time (vg_constraints g)) (vg_verified_at g) = true.
Proof.
  intros (i & c & H). apply from_verified_Ok in H as (_ & Ha & _ & _ & He & Hi & _ & Ht & _).
  apply intersect_Ok_inv in Hi as (Hv & Hv' & He' & Hti & Heq).
  split_and!; [done| | |done]; rewrite Heq; [by apply meet_valid|done].
Qed.

(** a grant is bound to what was verified: it names the intent's action,
    operation and arguments, its subject is valid and is the intent's
    workspace, manifest and environment, it was active when issued, and it
    permits nothing that the intent or the policy did not permit - and, for
    the reads and writes the intent asked for, everything both did. *)
Theorem from_verified_sound gid i a c now g :
  from_verified gid i a c now = Ok g →
  vg_grant_id g = gid ∧ vg_action_id g = ai_action_id i ∧
  vg_operation g = ai_operation i ∧ vg_authority g = a ∧
  vg_canonical_args_sha256 g = ai_canonical_args_sha256 i ∧ vg_verified_at g = now ∧
  ai_workspace_id i = ea_workspace_id a ∧
  ai_workspace_manifest_sha256 i = ea_workspace_manifest_sha256 a ∧
  environment (vg_constraints g) = ea_environment a ∧
  active_at (time (vg_constraints g)) now = true ∧
  validate (vg_constraints g) = Ok tt ∧
  ∀ u, permits (vg_constraints g) u ↔ permits (ai_constraints i) u ∧ permits c u.
Proof.
  intros (Hi & Ha & Hw & Hm & He & Hc & Hr & Ht & Heq)%from_verified_Ok.
  apply intersect_Ok_inv in Hc as (Hv & Hv' & He' & Hti & Hmeet).
  rewrite Heq; simpl. split_and!; try done; rewrite Hmeet.
  - done.
  - by apply meet_valid.
  - intros u. by apply permits_meet.
Qed.

(** the error of a refused grant names the first check that failed: an
    invalid intent is [VerbDenied] whatever else is wrong, every binding
    failure is [SubjectMismatch], and [Expired] is reported only for a request
    that passed all of them; no other error is possible. *)
Theorem from_verified_errors gid i a c now e :
  from_verified gid i a c now = Err e ↔
  (intent_validate i ≠ Ok tt ∧ e = VerbDenied) ∨
  (intent_validate i = Ok tt ∧ e = SubjectMismatch ∧
     ¬ (authority_validate a = Ok tt ∧ ai_workspace_id i = ea_workspace_id a ∧
        ai_workspace_manifest_sha256 i = ea_workspace_manifest_sha256 a ∧
        environment (ai_constraints i) = ea_environment a ∧
        ∃ m, intersect (ai_constraints i) c = Ok m ∧
             read_only m = read_only (ai_constraints i))) ∨
  (∃ m, intent_validate i = Ok tt ∧ authority_validate a = Ok tt ∧
     subject_mismatch i a = false ∧ intersect (ai_constraints i) c = Ok m ∧
     read_only m = read_only (ai_constraints i) ∧
     active_at (time m) now = false ∧ e = Expired).
Proof.
  unfold from_verified.
  destruct (intent_validate i) as [[]|]; simpl; [|naive_solver].
  destruct (authority_validate a) as [[]|]; simpl; [|naive_solver].
  assert (subject_mismatch i a = false ↔ ai_workspace_id i = ea_workspace_id a ∧
        ai_workspace_manifest_sha256 i = ea_workspace_manifest_sha256 a ∧
        environment (ai_constraints i) = ea_environment a) as Hs.
  { unfold subject_mismatch. rewrite !orb_false_iff, !negb_false_iff,
      !bool_decide_eq_true, String.eqb_eq. tauto. }
  destruct (subject_mismatch i a); simpl.
  { split; [intros [= <-]|intros [[? _]|[(_ & -> & _)|(m & H)]]; try done; naive_solver].
    right; left. split_and!; try done. intros (_ & ? & ? & ? & _).
    assert (true = false) by (apply Hs; auto). done. }
  destruct Hs as [Hs _]. specialize (Hs eq_refl). destruct Hs as (Hw & Hm & He).
  destruct (intersect (ai_constraints i) c) as [m|]; simpl; [|naive_solver].
  destruct (eqb (read_only m) (read_only (ai_constraints i))) eqn:Er; simpl.
  - apply eqb_prop in Er. split.
    + intros H. apply fail_if_Err in H as [[Ht%negb_true_iff <-]|[_ H]]; [|done].
      right; right. eauto 10.
    + intros [[? _]|[(_ & _ & Hn)|(? & _ & _ & _ & [= <-] & _ & -> & ->)]]; [done| |done].
      exfalso. apply Hn. eauto 10.
  - apply eqb_false_iff in Er.
    split; [intros [= <-]; right; left|].
    + split_and!; try done. intros (_ & _ & _ & _ & ? & [= <-] & ?). done.
    + intros [[? _]|[(_ & -> & _)|(? & ? & ? & ? & [= <-] & ? & ? & ->)]]; done.
Qed.

(** The production verifier never issues a grant. *)
Lemma deny_all_never_grants i a now :
  DenyAllAuthority i a now = Err AuthorityUnavailable.
Proof. reflexivity. Qed.

Definition sample_grant : VerifiedGrant := {|
  vg_grant_id := sample_id GrantIdK; vg_action_id := sample_id ActionIdK;
  vg_operation := Capability; vg_authority := sample_authority;
  vg_constraints := sample_local; vg_canonical_args_sha256 := sample_digest;
  vg_verified_at := 150 |}.

Lemma sample_granted : granted sample_grant.
Proof. exists sample_intent, sample_local. vm_compute. reflexivity. Defined.

Lemma from_verified_sound_witness :
  from_verified (sample_id GrantIdK) sample_intent sample_authority sample_local 150
    = Ok sample_grant ∧ validate (vg_constraints sample_grant) = Ok tt.
Proof.
  assert (from_verified (sample_id GrantIdK) sample_intent sample_authority sample_local 150
    = Ok sample_grant) as H by (vm_compute; reflexivity).
  split; [exact H|].
  pose proof (from_verified_sound _ _ _ _ _ _ H) as Hs. decompose [and] Hs. assumption.
Defined.
