(* ===== verification/Lifecycle.v ===== *)
(** * The request lifecycle: [crates/phantom-broker/src/lifecycle.rs]

    The closed transition table and the compare-and-swap that applies it, and
    the lifecycle as a state machine: [cas_step] is one successful swap by any
    caller, [run] a sequence of swaps attempted by callers that may hold stale
    observations. *)

From S2P Require Import Prelude Ids External Constraints Schema.

Inductive RequestState :=
  | Draft | AwaitingAuthority | RDenied | RExpired | Cancelled | GrantReserved
  | LeaseActive | Executing | RCompleted | RFailed | RRevoked.

#[export] Instance RequestState_eq_dec : EqDecision RequestState.
Proof. solve_decision. Defined.

#[export] Instance Serialize_request_state : Serialize RequestState := fun s =>
  VString (match s with
           | Draft => "draft" | AwaitingAuthority => "awaiting_authority"
           | RDenied => "denied" | RExpired => "expired" | Cancelled => "cancelled"
           | GrantReserved => "grant_reserved" | LeaseActive => "lease_active"
           | Executing => "executing" | RCompleted => "completed"
           | RFailed => "failed" | RRevoked => "revoked"
           end).

(** [RequestState::is_terminal] *)
Definition is_terminal (s : RequestState) : bool :=
  match s with
  | RDenied | RExpired | Cancelled | RCompleted | RFailed | RRevoked => true
  | _ => false
  end.

(** [RequestState::can_transition_to] *)
Definition can_transition_to (s next : RequestState) : bool :=
  match s with
  | Draft => match next with AwaitingAuthority | Cancelled => true | _ => false end
  | AwaitingAuthority =>
      match next with RDenied | RExpired | Cancelled | GrantReserved => true | _ => false end
  | GrantReserved =>
      match next with
      | LeaseActive | RDenied | RExpired | Cancelled | RFailed | RRevoked => true
      | _ => false
      end
  | LeaseActive =>
      match next with
      | Executing | RExpired | Cancelled | RFailed | RRevoked => true
      | _ => false
      end
  | Executing => match next with RCompleted | RFailed | RRevoked => true | _ => false end
  | RDenied | RExpired | Cancelled | RCompleted | RFailed | RRevoked => false
  end.

Record RequestLifecycle := {
  rl_action_id : ActionId;
  rl_state : RequestState;
  rl_generation : N;
}.

Inductive LifecycleError :=
  | StaleGeneration (actual_state : RequestState) (actual_generation : N)
  | InvalidTransition (from to : RequestState)
  | GenerationExhausted.

#[export] Instance LifecycleError_eq_dec : EqDecision LifecycleError.
Proof. solve_decision. Defined.

(** [RequestLifecycle::new] *)
Definition new_lifecycle (a : ActionId) : RequestLifecycle :=
  {| rl_action_id := a; rl_state := Draft; rl_generation := 0 |}.

(** [RequestLifecycle::compare_and_swap]: the state after the call, or the
    error, which leaves the state as it was. *)
Definition compare_and_swap (l : RequestLifecycle) (expected_state : RequestState)
    (expected_generation : N) (next : RequestState)
    : result RequestLifecycle LifecycleError :=
  fail_if (negb (bool_decide (rl_state l = expected_state))
           || negb (rl_generation l =? expected_generation)%N)
    (StaleGeneration (rl_state l) (rl_generation l))
  (fail_if (negb (can_transition_to (rl_state l) next)) (InvalidTransition (rl_state l) next)
  (let? g := ok_or (checked_add_u64 (rl_generation l) 1) GenerationExhausted in
   Ok {| rl_action_id := rl_action_id l; rl_state := next; rl_generation := g |})).

(** ** The state machine *)

Definition cas_step (l l' : RequestLifecycle) : Prop :=
  ∃ es eg next, compare_and_swap l es eg next = Ok l'.

(** One attempted swap of a caller; a failed attempt changes nothing. *)
Definition attempt (l : RequestLifecycle) (c : RequestState * N * RequestState)
    : RequestLifecycle :=
  match compare_and_swap l c.1.1 c.1.2 c.2 with Ok l' => l' | Err _ => l end.

Definition run (l : RequestLifecycle) (calls : list (RequestState * N * RequestState))
    : RequestLifecycle :=
  fold_left attempt calls l.

(** Transitions left on the longest path from a state. *)
Definition remaining (s : RequestState) : N :=
  match s with
  | Draft => 5 | AwaitingAuthority => 4 | GrantReserved => 3 | LeaseActive => 2
  | Executing => 1 | _ => 0
  end.

Lemma can_transition_remaining s next :
  can_transition_to s next = true → (remaining next < remaining s)%N.
Proof. destruct s, next; simpl; try done; lia. Qed.

Lemma terminal_iff_stuck s :
  is_terminal s = true ↔ ∀ next, can_transition_to s next = false.
Proof.
  destruct s; simpl; split; intros H; try done; try (by destruct next).
  - by specialize (H AwaitingAuthority).
  - by specialize (H GrantReserved).
  - by specialize (H LeaseActive).
  - by specialize (H Executing).
  - by specialize (H RCompleted).
Qed.

Lemma compare_and_swap_Ok l es eg next l' :
  compare_and_swap l es eg next = Ok l' ↔
  rl_state l = es ∧ rl_generation l = eg ∧ can_transition_to es next = true ∧
  (eg + 1 <= u64_max)%N ∧
  l' = {| rl_action_id := rl_action_id l; rl_state := next; rl_generation := eg + 1 |}.
Proof.
  unfold compare_and_swap. split.
  - intros H. inv_ok. split_bools.
    match goal with H : checked_add_u64 _ _ = _ |- _ =>
      apply checked_add_u64_Some in H as [-> ?] end.
    match goal with H : (_ =? _)%N = true |- _ => apply N.eqb_eq in H end.
    subst. auto.
  - intros (<- & <- & Ht & Hg & ->).
    rewrite bool_decide_eq_true_2, N.eqb_refl by done. simpl. rewrite Ht. simpl.
    assert (checked_add_u64 (rl_generation l) 1 = Some (rl_generation l + 1)%N) as ->
      by (by apply checked_add_u64_Some). done.
Qed.

(** The generation counts the transitions made; the state accounts for them. *)
Definition lifecycle_inv (a : ActionId) (l : RequestLifecycle) : Prop :=
  rl_action_id l = a ∧ (rl_generation l + remaining (rl_state l) <= 5)%N.

Lemma new_lifecycle_inv a : lifecycle_inv a (new_lifecycle a).
Proof. split; [done|]. simpl. lia. Qed.

Lemma cas_step_inv a l l' : lifecycle_inv a l → cas_step l l' → lifecycle_inv a l'.
Proof.
  intros [Ha Hg] (es & eg & next & (<- & <- & Ht & _ & ->)%compare_and_swap_Ok).
  split; [done|]. simpl. apply can_transition_remaining in Ht. lia.
Qed.

Lemma nsteps_inv a n l l' :
  nsteps cas_step n l l' → lifecycle_inv a l →
  lifecycle_inv a l' ∧ rl_generation l' = (rl_generation l + N.of_nat n)%N.
Proof.
  induction 1 as [l|n l l1 l' Hs Hn IH]; intros Hi; [split; [done|lia]|].
  pose proof (cas_step_inv _ _ _ Hi Hs) as Hi1. destruct (IH Hi1) as [? Hg]. split; [done|].
  destruct Hs as (es & eg & next & (<- & <- & _ & _ & ->)%compare_and_swap_Ok).
  simpl in Hg. lia.
Qed.

(** C38: a request makes at most five transitions; its generation is the number
    it has made; a swap fails for exhaustion never; and it is stuck exactly in
    a terminal state, so every request that keeps moving ends there. *)
Theorem lifecycle_terminates a n l :
  nsteps cas_step n (new_lifecycle a) l →
  (n <= 5)%nat ∧ rl_generation l = N.of_nat n ∧ rl_action_id l = a ∧
  (∀ es eg next, compare_and_swap l es eg next ≠ Err GenerationExhausted) ∧
  ((¬ ∃ l', cas_step l l') ↔ is_terminal (rl_state l) = true).
Proof.
  intros H. destruct (nsteps_inv a _ _ _ H (new_lifecycle_inv a)) as [[Ha Hr] Hg].
  simpl in Hg. split_and!; [lia|lia|done| |].
  - intros es eg next He. unfold compare_and_swap in He.
    do 2 (apply fail_if_Err in He as [[_ He]|[_ He]]; [done|]).
    assert (checked_add_u64 (rl_generation l) 1 = Some (rl_generation l + 1)%N) as Hc.
    { apply checked_add_u64_Some. split; [done|]. unfold u64_max. lia. }
    rewrite Hc in He. done.
  - rewrite terminal_iff_stuck. split.
    + intros Hs next. destruct (can_transition_to (rl_state l) next) eqn:E; [|done].
      exfalso. apply Hs. eexists _, _, _, next. apply compare_and_swap_Ok.
      split_and!; try done. unfold u64_max. lia.
    + intros Hs (l' & es & eg & next & (<- & _ & Ht & _)%compare_and_swap_Ok).
      by rewrite Hs in Ht.
Qed.

Lemma attempt_generation l c :
  attempt l c = l ∨ (rl_generation l < rl_generation (attempt l c))%N.
Proof.
  unfold attempt. destruct (compare_and_swap _ _ _ _) as [l'|] eqn:E; [right|by left].
  apply compare_and_swap_Ok in E as (_ & <- & _ & _ & ->). simpl. lia.
Qed.

Lemma run_generation l cs :
  run l cs = l ∨ (rl_generation l < rl_generation (run l cs))%N.
Proof.
  revert l. induction cs as [|c cs IH]; intros l; [by left|].
  change (run l (c :: cs)) with (run (attempt l c) cs).
  destruct (IH (attempt l c)) as [->|Hl]; [apply attempt_generation|].
  right. destruct (attempt_generation l c) as [E|E]; [by rewrite E in *|lia].
Qed.

(** compare-and-swap is linearizable: once a swap by a caller that observed
    generation [g] has succeeded, every later swap by a caller still holding
    [g] fails as stale and reports the actual state, whatever other swaps
    happened in between. *)
Theorem stale_swap_rejected l es g next l1 calls es' next' :
  compare_and_swap l es g next = Ok l1 →
  compare_and_swap (run l1 calls) es' g next' =
    Err (StaleGeneration (rl_state (run l1 calls)) (rl_generation (run l1 calls))).
Proof.
  intros (_ & _ & _ & _ & Hl1)%compare_and_swap_Ok.
  assert (rl_generation l1 = g + 1)%N as Hg by (by rewrite Hl1).
  assert (g < rl_generation (run l1 calls))%N as Hlt.
  { destruct (run_generation l1 calls) as [->|Hl]; lia. }
  unfold compare_and_swap.
  replace (rl_generation (run l1 calls) =? g)%N with false by (symmetry; apply N.eqb_neq; lia).
  by rewrite orb_true_r.
Qed.

Definition executing_lifecycle : RequestLifecycle :=
  run (new_lifecycle (sample_id ActionIdK))
    [(Draft, 0, AwaitingAuthority); (AwaitingAuthority, 1, GrantReserved);
     (GrantReserved, 2, LeaseActive); (LeaseActive, 3, Executing)]%N.

Lemma lifecycle_terminates_witness :
  rl_state executing_lifecycle = Executing ∧ rl_generation executing_lifecycle = 4%N.
Proof.
  split; [vm_compute; reflexivity|].
  refine (proj1 (proj2 (lifecycle_terminates (sample_id ActionIdK) 4 executing_lifecycle _))).
  eapply nsteps_l; [exists Draft, 0%N, AwaitingAuthority; vm_compute; reflexivity|].
  eapply nsteps_l; [exists AwaitingAuthority, 1%N, GrantReserved; vm_compute; reflexivity|].
  eapply nsteps_l; [exists GrantReserved, 2%N, LeaseActive; vm_compute; reflexivity|].
  eapply nsteps_l; [exists LeaseActive, 3%N, Executing; vm_compute; reflexivity|].
  apply nsteps_O.
Defined.

Lemma stale_swap_rejected_witness :
  ∃ l1, compare_and_swap (new_lifecycle (sample_id ActionIdK)) Draft 0 AwaitingAuthority = Ok l1
    ∧ compare_and_swap (run l1 [(AwaitingAuthority, 1, Cancelled)%N]) Draft 0 Cancelled
      = Err (StaleGeneration Cancelled 2).
Proof.
  eexists. split; [vm_compute; reflexivity|].
  exact (stale_swap_rejected (new_lifecycle (sample_id ActionIdK)) Draft 0 AwaitingAuthority _
    [(AwaitingAuthority, 1, Cancelled)%N] Draft Cancelled eq_refl).
Defined.
