(* ===== verification/Protocol.v ===== *)
(** * Broker messages: [crates/phantom-broker/src/protocol.rs]

    The metadata-only broker messages and the cross-field validation an
    envelope passes before it crosses a broker boundary.  A validated envelope
    carries the proof of it, like the Rust type with its private field. *)

From S2P Require Import Prelude Ids External Constraints ConstraintsSpec Schema.
From S2P Require Import Verifier Lifecycle.

Definition BROKER_PROTOCOL_VERSION : N := 1.

(** ** Messages *)

Record HelloV1 := {
  he_installation_id : InstallationId;
  he_broker_epoch_sha256 : Sha256Digest;
  he_executable_sha256 : Sha256Digest;
  he_supported_versions : list N;
}.

Record ChallengeV1 := {
  ch_challenge_sha256 : Sha256Digest;
  ch_issuer_installation_id : InstallationId;
  ch_expires_at : N;
}.

Record AuthorityRequestV1 := {
  ar_intent : ActionIntentV1;
  ar_expected : ExpectedAuthority;
}.

Record GrantEnvelopeMetadataV1 := {
  ge_grant_id : GrantId;
  ge_action_id : ActionId;
  ge_issuer_key_id_sha256 : Sha256Digest;
  ge_nonce_sha256 : Sha256Digest;
  ge_signature_sha256 : Sha256Digest;
  ge_expires_at : N;
  ge_authority_generation : N;
}.

Record LeaseReadyV1 := {
  lr_lease_id : LeaseId;
  lr_grant_id : GrantId;
  lr_action_id : ActionId;
  lr_authority_sha256 : Sha256Digest;
  lr_constraints_sha256 : Sha256Digest;
  lr_expires_at : N;
  lr_remaining_uses : N;
}.

Inductive ReceiptOutcome :=
  | OCompleted | OFailed | ODenied | OExpired | OCancelled | ORevokedBeforeSend
  | ORevocationRacedAfterSend.

Record ReceiptV1 := {
  re_execution_record_sha256 : Sha256Digest;
  re_action_id : ActionId;
  re_lease_id : option LeaseId;
  re_terminal_state : RequestState;
  re_outcome : ReceiptOutcome;
  re_started_at : N;
  re_finished_at : N;
  re_upstream_opened : bool;
}.

Inductive RevocationTarget :=
  | TGrant (g : GrantId)
  | TLease (l : LeaseId)
  | TSession (s : SessionId).

Inductive RevocationReason :=
  | Operator | PolicyChanged | SessionEnded | GrantExpired | SuspectedCompromise.

Record RevokeV1 := {
  rv_target : RevocationTarget;
  rv_authority_generation : N;
  rv_reason_code : RevocationReason;
  rv_revoked_at : N;
}.

Inductive BrokerMessageV1 :=
  | Hello (m : HelloV1)
  | Challenge (m : ChallengeV1)
  | AuthorityRequest (m : AuthorityRequestV1)
  | GrantEnvelope (m : GrantEnvelopeMetadataV1)
  | LeaseReady (m : LeaseReadyV1)
  | Receipt (m : ReceiptV1)
  | Revoke (m : RevokeV1).

Record BrokerEnvelopeV1 := {
  protocol_version : N;
  message : BrokerMessageV1;
}.

(** [BrokerEnvelopeV1::new] *)
Definition new_envelope (m : BrokerMessageV1) : BrokerEnvelopeV1 :=
  {| protocol_version := BROKER_PROTOCOL_VERSION; message := m |}.

Inductive ProtocolValidationError :=
  | UnsupportedProtocolVersion (v : N)
  | InvalidSupportedVersions
  | InvalidExpiry
  | InvalidExpiryOrGeneration
  | AuthorityBindingMismatch
  | InvalidRemainingUses
  | InvalidTimestampOrder
  | InconsistentReceipt
  | InvalidRevocation
  | Authority (e : SchemaError).

(** ** Serialized forms *)

#[export] Instance Serialize_hello : Serialize HelloV1 := fun m =>
  VObject [("installation_id", to_value (he_installation_id m));
           ("broker_epoch_sha256", to_value (he_broker_epoch_sha256 m));
           ("executable_sha256", to_value (he_executable_sha256 m));
           ("supported_versions", to_value (he_supported_versions m))].
#[export] Instance Serialize_challenge : Serialize ChallengeV1 := fun m =>
  VObject [("challenge_sha256", to_value (ch_challenge_sha256 m));
           ("issuer_installation_id", to_value (ch_issuer_installation_id m));
           ("expires_at", to_value (ch_expires_at m))].
#[export] Instance Serialize_request : Serialize AuthorityRequestV1 := fun m =>
  VObject [("intent", to_value (ar_intent m)); ("expected", to_value (ar_expected m))].
#[export] Instance Serialize_grant_envelope : Serialize GrantEnvelopeMetadataV1 := fun m =>
  VObject [("grant_id", to_value (ge_grant_id m)); ("action_id", to_value (ge_action_id m));
           ("issuer_key_id_sha256", to_value (ge_issuer_key_id_sha256 m));
           ("nonce_sha256", to_value (ge_nonce_sha256 m));
           ("signature_sha256", to_value (ge_signature_sha256 m));
           ("expires_at", to_value (ge_expires_at m));
           ("authority_generation", to_value (ge_authority_generation m))].
#[export] Instance Serialize_lease_ready : Serialize LeaseReadyV1 := fun m =>
  VObject [("lease_id", to_value (lr_lease_id m)); ("grant_id", to_value (lr_grant_id m));
           ("action_id", to_value (lr_action_id m));
           ("authority_sha256", to_value (lr_authority_sha256 m));
           ("constraints_sha256", to_value (lr_constraints_sha256 m));
           ("expires_at", to_value (lr_expires_at m));
           ("remaining_uses", to_value (lr_remaining_uses m))].
#[export] Instance Serialize_outcome : Serialize ReceiptOutcome := fun o =>
  VString (match o with
           | OCompleted => "completed" | OFailed => "failed" | ODenied => "denied"
           | OExpired => "expired" | OCancelled => "cancelled"
           | ORevokedBeforeSend => "revoked_before_send"
           | ORevocationRacedAfterSend => "revocation_raced_after_send"
           end).
#[export] Instance Serialize_receipt : Serialize ReceiptV1 := fun m =>
  VObject ([("execution_record_sha256", to_value (re_execution_record_sha256 m));
            ("action_id", to_value (re_action_id m))] ++
           skip_none "lease_id" (re_lease_id m) ++
           [("terminal_state", to_value (re_terminal_state m));
            ("outcome", to_value (re_outcome m));
            ("started_at", to_value (re_started_at m));
            ("finished_at", to_value (re_finished_at m));
            ("upstream_opened", to_value (re_upstream_opened m))]).
#[export] Instance Serialize_target : Serialize RevocationTarget := fun t =>
  match t with
  | TGrant g => VObject [("kind", VString "grant"); ("id", to_value g)]
  | TLease l => VObject [("kind", VString "lease"); ("id", to_value l)]
  | TSession s => VObject [("kind", VString "session"); ("id", to_value s)]
  end.
#[export] Instance Serialize_reason : Serialize RevocationReason := fun r =>
  VString (match r with
           | Operator => "operator" | PolicyChanged => "policy_changed"
           | SessionEnded => "session_ended" | GrantExpired => "grant_expired"
           | SuspectedCompromise => "suspected_compromise"
           end).
#[export] Instance Serialize_revoke : Serialize RevokeV1 := fun m =>
  VObject [("target", to_value (rv_target m));
           ("authority_generation", to_value (rv_authority_generation m));
           ("reason_code", to_value (rv_reason_code m));
           ("revoked_at", to_value (rv_revoked_at m))].
#[export] Instance Serialize_message : Serialize BrokerMessageV1 := fun m =>
  let tagged tag payload := VObject [("type", VString tag); ("payload", payload)] in
  match m with
  | Hello m => tagged "HELLO" (to_value m)
  | Challenge m => tagged "CHALLENGE" (to_value m)
  | AuthorityRequest m => tagged "AUTHORITY_REQUEST" (to_value m)
  | GrantEnvelope m => tagged "GRANT_ENVELOPE" (to_value m)
  | LeaseReady m => tagged "LEASE_READY" (to_value m)
  | Receipt m => tagged "RECEIPT" (to_value m)
  | Revoke m => tagged "REVOKE" (to_value m)
  end.
#[export] Instance Serialize_envelope : Serialize BrokerEnvelopeV1 := fun e =>
  VObject [("protocol_version", to_value (protocol_version e));
           ("message", to_value (message e))].

(** ** Validation *)

(** The [expected_state] match of [ReceiptV1::validate]. *)
Definition expected_state (o : ReceiptOutcome) : RequestState :=
  match o with
  | OCompleted => RCompleted
  | OFailed => RFailed
  | ODenied => RDenied
  | OExpired => RExpired
  | OCancelled => Cancelled
  | ORevokedBeforeSend | ORevocationRacedAfterSend => RRevoked
  end.

(** [ReceiptV1::validate] *)
Definition receipt_validate (r : ReceiptV1) : result unit ProtocolValidationError :=
  fail_if (re_finished_at r <? re_started_at r)%N InvalidTimestampOrder
  (fail_if (negb (bool_decide (re_terminal_state r = expected_state (re_outcome r)))
            || negb (is_terminal (re_terminal_state r))) InconsistentReceipt
  (fail_if (match re_outcome r with
            | ODenied | OExpired | OCancelled | ORevokedBeforeSend => true
            | _ => false
            end && re_upstream_opened r) InconsistentReceipt
  (match re_outcome r with
   | OCompleted | ORevocationRacedAfterSend =>
       fail_if (negb (bool_decide (is_Some (re_lease_id r))) || negb (re_upstream_opened r))
         InconsistentReceipt (Ok tt)
   | ODenied | OCancelled =>
       fail_if (bool_decide (is_Some (re_lease_id r))) InconsistentReceipt (Ok tt)
   | _ => Ok tt
   end))).

(** [BrokerMessageV1::validate] *)
Definition message_validate (m : BrokerMessageV1) : result unit ProtocolValidationError :=
  match m with
  | Hello m =>
      fail_if (match he_supported_versions m with [] => true | _ => false end
               || negb (bool_decide (BROKER_PROTOCOL_VERSION ∈ he_supported_versions m)))
        InvalidSupportedVersions (Ok tt)
  | Challenge m => fail_if (ch_expires_at m =? 0)%N InvalidExpiry (Ok tt)
  | AuthorityRequest m =>
      let? _ := map_err Authority (intent_validate (ar_intent m)) in
      let? _ := map_err Authority (authority_validate (ar_expected m)) in
      fail_if (subject_mismatch (ar_intent m) (ar_expected m)) AuthorityBindingMismatch (Ok tt)
  | GrantEnvelope m =>
      fail_if ((ge_expires_at m =? 0) || (ge_authority_generation m =? 0))%N
        InvalidExpiryOrGeneration (Ok tt)
  | LeaseReady m =>
      fail_if ((lr_remaining_uses m =? 0) || (lr_expires_at m =? 0))%N
        InvalidRemainingUses (Ok tt)
  | Receipt m => receipt_validate m
  | Revoke m =>
      fail_if ((rv_authority_generation m =? 0) || (rv_revoked_at m =? 0))%N
        InvalidRevocation (Ok tt)
  end.

(** [BrokerEnvelopeV1::validate] *)
Definition envelope_validate (e : BrokerEnvelopeV1) : result unit ProtocolValidationError :=
  fail_if (negb (protocol_version e =? BROKER_PROTOCOL_VERSION)%N)
    (UnsupportedProtocolVersion (protocol_version e))
  (message_validate (message e)).

(** [struct ValidatedBrokerEnvelope(BrokerEnvelopeV1)] *)
Record ValidatedBrokerEnvelope := mk_validated {
  as_inner : BrokerEnvelopeV1;
  inner_valid : is_ok (envelope_validate as_inner) = true;
}.

(** [impl TryFrom<BrokerEnvelopeV1> for ValidatedBrokerEnvelope] *)
Definition validated_try_from (e : BrokerEnvelopeV1)
    : result ValidatedBrokerEnvelope ProtocolValidationError :=
  match envelope_validate e as r
    return envelope_validate e = r → result ValidatedBrokerEnvelope ProtocolValidationError
  with
  | Ok _ => fun H => Ok (mk_validated e (f_equal is_ok H))
  | Err err => fun _ => Err err
  end eq_refl.

(** [ValidatedBrokerEnvelope::try_new] *)
Definition try_new (m : BrokerMessageV1)
    : result ValidatedBrokerEnvelope ProtocolValidationError :=
  validated_try_from (new_envelope m).

(** ** Lemmas *)

Lemma as_inner_inj (a b : ValidatedBrokerEnvelope) : as_inner a = as_inner b → a = b.
Proof.
  destruct a as [a Ha], b as [b Hb]; simpl. intros ->. f_equal. apply proof_irrel.
Qed.

Lemma validated_try_from_Ok e v :
  validated_try_from e = Ok v ↔ as_inner v = e.
Proof.
  assert (∀ r (H : envelope_validate e = r),
    match r as r return envelope_validate e = r → result ValidatedBrokerEnvelope _ with
    | Ok _ => fun H => Ok (mk_validated e (f_equal is_ok H))
    | Err err => fun _ => Err err
    end H = Ok v ↔ as_inner v = e) as Hr; [|apply Hr].
  intros r H. destruct r as [u|err].
  - rewrite Ok_inj. split; [by intros <-|]. intros Hv. apply as_inner_inj. by rewrite Hv.
  - split; [done|]. intros <-. pose proof (inner_valid v) as Hv. by rewrite H in Hv.
Qed.

Lemma validated_try_from_inner v : validated_try_from (as_inner v) = Ok v.
Proof. by apply validated_try_from_Ok. Qed.

(** ** Properties *)

(** What must have happened for each outcome of a receipt. *)
Definition receipt_story (r : ReceiptV1) : Prop :=
  match re_outcome r with
  | OCompleted => re_terminal_state r = RCompleted ∧ is_Some (re_lease_id r) ∧
                  re_upstream_opened r = true
  | OFailed => re_terminal_state r = RFailed
  | ODenied => re_terminal_state r = RDenied ∧ re_lease_id r = None ∧
               re_upstream_opened r = false
  | OExpired => re_terminal_state r = RExpired ∧ re_upstream_opened r = false
  | OCancelled => re_terminal_state r = Cancelled ∧ re_lease_id r = None ∧
                  re_upstream_opened r = false
  | ORevokedBeforeSend => re_terminal_state r = RRevoked ∧ re_upstream_opened r = false
  | ORevocationRacedAfterSend => re_terminal_state r = RRevoked ∧
                  is_Some (re_lease_id r) ∧ re_upstream_opened r = true
  end.

(** a receipt passes validation exactly when its times are in order and
    its terminal state, lease and upstream flag tell one consistent story for
    its outcome; in particular a denied or cancelled action never held a lease
    and nothing refused before sending opened an upstream connection. *)
Theorem receipt_validate_exact r :
  receipt_validate r = Ok tt ↔
  (re_started_at r <= re_finished_at r)%N ∧ receipt_story r.
Proof.
  unfold receipt_validate, receipt_story. rewrite !fail_if_Ok, N.ltb_ge.
  apply and_iff_compat_l. rewrite orb_false_iff, !negb_false_iff, bool_decide_eq_true.
  destruct r as [d a l s o st fi up]; simpl.
  destruct o; simpl; rewrite ?fail_if_Ok, ?orb_false_iff, ?negb_false_iff,
    ?bool_decide_eq_true, ?bool_decide_eq_false, <- ?eq_None_not_Some;
    (split; [intros; destruct_and?; subst; naive_solver|
             intros; destruct_and?; subst; split_and!; done]).
Qed.

(** the boundary check of an authority request covers every binding the
    verifier checks: a validated request whose own constraints are the policy
    is granted at every instant of its time window, with those constraints. *)
Theorem authority_request_grantable r gid now :
  message_validate (AuthorityRequest r) = Ok tt →
  active_at (time (ai_constraints (ar_intent r))) now = true →
  ∃ g, from_verified gid (ar_intent r) (ar_expected r) (ai_constraints (ar_intent r)) now
         = Ok g ∧ vg_constraints g = ai_constraints (ar_intent r).
Proof.
  simpl. intros H Hnow. inv_ok. split_bools.
  repeat match goal with u : unit |- _ => destruct u end.
  unfold from_verified.
  match goal with H : intent_validate _ = _ |- _ => rewrite H; apply intent_validate_Ok in H end.
  match goal with H : authority_validate _ = _ |- _ => rewrite H end. simpl.
  match goal with H : subject_mismatch _ _ = _ |- _ => rewrite H end. simpl.
  destruct_and?. rewrite intersect_self by done. simpl.
  rewrite eqb_reflx. simpl. rewrite Hnow. simpl. eauto.
Qed.

Definition sample_request : AuthorityRequestV1 :=
  {| ar_intent := sample_intent; ar_expected := sample_authority |}.

Lemma authority_request_grantable_witness :
  ∃ g, from_verified (sample_id GrantIdK) sample_intent sample_authority
         (ai_constraints sample_intent) 120 = Ok g ∧
       vg_constraints g = ai_constraints sample_intent.
Proof.
  apply (authority_request_grantable sample_request); vm_compute; reflexivity.
Defined.
