(* ===== verification/Codec.v ===== *)
(** * Broker framing and transports:
      [crates/phantom-broker/src/codec.rs] and [transport.rs]

    Length-prefixed canonical JSON.  A reader is the bytes left in the stream
    and whether it ends cleanly or in an I/O failure; a writer is the bytes
    written so far (an in-memory writer, which does not fail). *)

From S2P Require Import Prelude Ids External Canonical Constraints ConstraintsSpec.
From S2P Require Import Schema Verifier Lifecycle Protocol.

Definition MAX_BROKER_MESSAGE_BYTES : N := 65536.

Inductive BrokerCodecError :=
  | InvalidLength (n : N)
  | TruncatedPrefix
  | TruncatedPayload (expected : N)
  | NonCanonicalPayload
  | InvalidMessage (e : ProtocolValidationError)
  | CanonicalError (e : CanonicalJsonError)
  | Io.

(** ** Readers and big-endian words *)

Inductive IoErrorKind := UnexpectedEof | OtherIo.

Record Reader := { r_bytes : string; r_fails : bool }.

(** [reader.read_exact(&mut buffer)] for a buffer of [n] bytes *)
Definition read_exact (n : N) (r : Reader) : result (string * Reader) IoErrorKind :=
  if (n <=? str_len (r_bytes r))%N
  then Ok (str_take (N.to_nat n) (r_bytes r),
           {| r_bytes := str_drop (N.to_nat n) (r_bytes r); r_fails := r_fails r |})
  else Err (if r_fails r then OtherIo else UnexpectedEof).

(** [u32::to_be_bytes] *)
Definition to_be_bytes (n : N) : string :=
  String (ascii_of_N (n / 16777216 mod 256)) (String (ascii_of_N (n / 65536 mod 256))
    (String (ascii_of_N (n / 256 mod 256)) (String (ascii_of_N (n mod 256)) EmptyString))).

#[global] Arguments to_be_bytes : simpl never.

(** [u32::from_be_bytes] *)
Definition from_be_bytes (s : string) : N :=
  match s with
  | String a (String b (String c (String d _))) =>
      N_of_ascii a * 16777216 + N_of_ascii b * 65536 + N_of_ascii c * 256 + N_of_ascii d
  | _ => 0
  end.

(** [fn map_truncation] *)
Definition map_truncation (e : IoErrorKind) (truncated : BrokerCodecError) : BrokerCodecError :=
  match e with UnexpectedEof => truncated | OtherIo => Io end.

Section codec.
Context `{X : External} `{D : !Deserialize BrokerEnvelopeV1}.

(** [pub fn encode_frame]: the bytes written. *)
Definition encode_frame (m : ValidatedBrokerEnvelope) (written : string)
    : result string BrokerCodecError :=
  let? payload := map_err CanonicalError (canonical_json_v1 (as_inner m)) in
  fail_if (str_is_empty payload || (MAX_BROKER_MESSAGE_BYTES <? str_len payload)%N)
    (InvalidLength (str_len payload))
  (fail_if (u32_max <? str_len payload)%N (InvalidLength (str_len payload))
  (Ok (written +:+ to_be_bytes (str_len payload) +:+ payload))).

(** [pub fn decode_frame]: the message and what is left in the reader. *)
Definition decode_frame (reader : Reader)
    : result (ValidatedBrokerEnvelope * Reader) BrokerCodecError :=
  let? (prefix, reader) :=
    map_err (fun e => map_truncation e TruncatedPrefix) (read_exact 4 reader) in
  let length := from_be_bytes prefix in
  fail_if ((length =? 0) || (MAX_BROKER_MESSAGE_BYTES <? length))%N
    (InvalidLength length)
  (let? (payload, reader) :=
     map_err (fun e => map_truncation e (TruncatedPayload length))
       (read_exact length reader) in
   let? envelope :=
     map_err (fun e => match e with
                       | NonCanonicalInput => NonCanonicalPayload
                       | e => CanonicalError e
                       end) (decode_closed_json_v1 payload) in
   let? validated := map_err InvalidMessage (validated_try_from envelope) in
   let? text := map_err CanonicalError (canonical_json_v1 (as_inner validated)) in
   fail_if (negb (String.eqb text payload)) NonCanonicalPayload (Ok (validated, reader))).
End codec.

(** ** Transports: every shipped transport denies *)

Inductive TransportError := TransportUnavailable | WindowsAuthorityUnavailable.

Inductive Transport :=
  | DenyAllTransport
  | UnixSocketDescriptor (endpoint_sha256 : Sha256Digest)
  | WindowsNamedPipeDescriptor (endpoint_sha256 : Sha256Digest).

(** [impl BrokerTransport for ...] *)
Definition exchange (t : Transport) (m : ValidatedBrokerEnvelope)
    : result ValidatedBrokerEnvelope TransportError :=
  match t with
  | DenyAllTransport | UnixSocketDescriptor _ => Err TransportUnavailable
  | WindowsNamedPipeDescriptor _ => Err WindowsAuthorityUnavailable
  end.

(** ** Lemmas *)

Lemma read_exact_app p t f :
  read_exact (str_len p) {| r_bytes := p +:+ t; r_fails := f |} =
  Ok (p, {| r_bytes := t; r_fails := f |}).
Proof.
  unfold read_exact; simpl. rewrite str_len_app.
  replace (str_len p <=? str_len p + str_len t)%N with true
    by (symmetry; apply N.leb_le; lia).
  unfold str_len. by rewrite Nat2N.id, str_take_app, str_drop_app.
Qed.

Lemma read_exact_Ok n r p r' :
  read_exact n r = Ok (p, r') ↔
  r_bytes r = p +:+ r_bytes r' ∧ r_fails r' = r_fails r ∧ str_len p = n.
Proof.
  split.
  - unfold read_exact. destruct (N.leb_spec n (str_len (r_bytes r))) as [Hn|]; [|done].
    intros [= <- <-]. simpl. rewrite str_take_drop. split_and!; try done.
    unfold str_len in *. rewrite str_take_length; lia.
  - destruct r as [b f], r' as [b' f']; simpl. intros (-> & -> & <-). apply read_exact_app.
Qed.

Lemma read_exact_short n r :
  (str_len (r_bytes r) < n)%N →
  read_exact n r = Err (if r_fails r then OtherIo else UnexpectedEof).
Proof. intros H. unfold read_exact. by destruct (N.leb_spec n (str_len (r_bytes r))); [lia|]. Qed.

Lemma read_prefix n t f :
  read_exact 4 {| r_bytes := to_be_bytes n +:+ t; r_fails := f |} =
  Ok (to_be_bytes n, {| r_bytes := t; r_fails := f |}).
Proof. exact (read_exact_app (to_be_bytes n) t f). Qed.

Lemma N_of_ascii_of_N n : (n < 256)%N → N_of_ascii (ascii_of_N n) = n.
Proof. apply Ascii.N_ascii_embedding. Qed.

Lemma be_bytes_length n : str_len (to_be_bytes n) = 4%N.
Proof. done. Qed.

Lemma from_to_be_bytes n : (n <= u32_max)%N → from_be_bytes (to_be_bytes n) = n.
Proof.
  unfold u32_max. intros Hn. unfold from_be_bytes, to_be_bytes.
  rewrite !N_of_ascii_of_N by (apply N.mod_lt; done).
  assert (n / 16777216 < 256)%N by (apply N.Div0.div_lt_upper_bound; lia).
  rewrite (N.mod_small (n / 16777216)) by done.
  replace (n / 65536)%N with (n / 256 / 256)%N by (by rewrite N.Div0.div_div).
  replace (n / 16777216)%N with (n / 256 / 256 / 256)%N by (by rewrite !N.Div0.div_div).
  pose proof (N.div_mod n 256 ltac:(done)).
  pose proof (N.div_mod (n / 256) 256 ltac:(done)).
  pose proof (N.div_mod (n / 256 / 256) 256 ltac:(done)). lia.
Qed.

Lemma to_from_be_bytes s : str_len s = 4%N → to_be_bytes (from_be_bytes s) = s.
Proof.
  unfold str_len. intros Hs.
  destruct s as [|a [|b [|c [|d [|]]]]]; simpl in Hs; try lia. clear Hs.
  cbn [from_be_bytes].
  pose proof (Ascii.N_ascii_bounded a). pose proof (Ascii.N_ascii_bounded b).
  pose proof (Ascii.N_ascii_bounded c). pose proof (Ascii.N_ascii_bounded d).
  set (x := N_of_ascii a) in *. set (y := N_of_ascii b) in *.
  set (z := N_of_ascii c) in *. set (w := N_of_ascii d) in *.
  unfold to_be_bytes.
  replace ((x * 16777216 + y * 65536 + z * 256 + w) / 16777216)%N with x
    by (apply (N.div_unique _ _ _ (y * 65536 + z * 256 + w)); lia).
  replace ((x * 16777216 + y * 65536 + z * 256 + w) / 65536)%N with (x * 256 + y)%N
    by (apply (N.div_unique _ _ _ (z * 256 + w)); lia).
  replace ((x * 16777216 + y * 65536 + z * 256 + w) / 256)%N with (x * 65536 + y * 256 + z)%N
    by (apply (N.div_unique _ _ _ w); lia).
  replace (x mod 256)%N with x by (symmetry; apply N.mod_small; lia).
  replace ((x * 256 + y) mod 256)%N with y
    by (apply (N.mod_unique _ _ x); lia).
  replace ((x * 65536 + y * 256 + z) mod 256)%N with z
    by (apply (N.mod_unique _ _ (x * 256 + y)); lia).
  replace ((x * 16777216 + y * 65536 + z * 256 + w) mod 256)%N with w
    by (apply (N.mod_unique _ _ (x * 65536 + y * 256 + z)); lia).
  unfold x, y, z, w. by rewrite !Ascii.ascii_N_embedding.
Qed.

Lemma length_in_bounds n :
  (0 < n <= MAX_BROKER_MESSAGE_BYTES)%N →
  (n =? 0)%N || (MAX_BROKER_MESSAGE_BYTES <? n)%N = false.
Proof. intros Hn. rewrite orb_false_iff, N.eqb_neq, N.ltb_ge. lia. Qed.

Section codec_lemmas.
Context `{X : External} `{D : !Deserialize BrokerEnvelopeV1}.

Lemma encode_frame_Ok m w out :
  encode_frame m w = Ok out ↔
  ∃ payload, canonical_json_v1 (as_inner m) = Ok payload ∧
    (0 < str_len payload <= MAX_BROKER_MESSAGE_BYTES)%N ∧
    out = w +:+ to_be_bytes (str_len payload) +:+ payload.
Proof.
  unfold encode_frame. rewrite rbind_Ok. setoid_rewrite map_err_Ok.
  apply exist_proper. intros payload. apply and_iff_compat_l.
  rewrite !fail_if_Ok, orb_false_iff, !N.ltb_ge.
  unfold u32_max, str_len, MAX_BROKER_MESSAGE_BYTES. split.
  - intros ([He ?] & ? & [= <-]). split; [|done]. destruct payload; [done|simpl in *; lia].
  - intros ([? ?] & ->). split_and!; try done; [|lia]. destruct payload; [simpl in *; lia|done].
Qed.

(** A frame decodes exactly when it is the encoding of the message it
    decodes to and its payload reads back. *)
Lemma decode_frame_Ok r m r' :
  decode_frame r = Ok (m, r') ↔
  ∃ payload, decode_closed_json_v1 payload = Ok (as_inner m) ∧
    (0 < str_len payload <= MAX_BROKER_MESSAGE_BYTES)%N ∧
    r_fails r' = r_fails r ∧
    r_bytes r = to_be_bytes (str_len payload) +:+ payload +:+ r_bytes r'.
Proof.
  unfold decode_frame. split.
  - intros H. inv_ok. destruct x as [prefix r1]. inv_ok. destruct x as [payload r2]. inv_ok.
    split_bools.
    repeat match goal with H : read_exact _ _ = _ |- _ => apply read_exact_Ok in H as (? & ? & ?) end.
    match goal with H : validated_try_from _ = _ |- _ => apply validated_try_from_Ok in H as <- end.
    simplify_eq. exists payload.
          match goal with H : (_ =? 0)%N = false |- _ => apply N.eqb_neq in H end.
    match goal with H : (_ <? _)%N = false |- _ => apply N.ltb_ge in H end.
    split_and!; [done|lia|lia|congruence|].
    assert (str_len payload = from_be_bytes prefix) as -> by done.
    rewrite to_from_be_bytes by done. congruence.
  - intros (payload & Hd & Hl & Hf & Hb). destruct r as [b f], r' as [b' f']; cbn [r_bytes r_fails] in *.
    subst. rewrite read_prefix. cbn [rbind map_err].
    rewrite from_to_be_bytes by (unfold MAX_BROKER_MESSAGE_BYTES, u32_max in *; lia).
    rewrite length_in_bounds by done. cbn [fail_if]. rewrite read_exact_app. simpl. rewrite Hd. simpl.
    rewrite validated_try_from_inner. simpl.
    unfold decode_closed_json_v1 in Hd. inv_ok. subst. split_bools.
    match goal with H : canonical_json_v1 _ = _ |- _ => rewrite H end. simpl.
    match goal with H : String.eqb _ _ = true |- _ => by rewrite H end.
Qed.

Lemma decode_closed_canonical payload (e : BrokerEnvelopeV1) :
  decode_closed_json_v1 payload = Ok e → canonical_json_v1 e = Ok payload.
Proof.
  unfold decode_closed_json_v1. intros H. inv_ok. split_bools. subst.
  match goal with H : String.eqb _ _ = true |- _ => apply String.eqb_eq in H as -> end. done.
Qed.

(** What the codec relies on for one message: [serde_json] reads back the
    canonical text of its envelope. *)
Definition reads_back (m : ValidatedBrokerEnvelope) : Prop :=
  ∀ text, canonical_json_v1 (as_inner m) = Ok text →
    ∃ v, parse_json text = Some v ∧ float_free v = true ∧ from_value v = Some (as_inner m).

Lemma reads_back_closed m payload :
  reads_back m → canonical_json_v1 (as_inner m) = Ok payload →
  decode_closed_json_v1 payload = Ok (as_inner m).
Proof.
  intros Hr Hc. destruct (Hr _ Hc) as (v & Hp & Hf & Hv).
  unfold decode_closed_json_v1. rewrite Hp. simpl.
  apply reject_floats_spec in Hf. rewrite Hf. simpl. rewrite Hv. simpl.
  rewrite Hc. simpl. by rewrite String.eqb_refl.
Qed.
End codec_lemmas.

(** ** Properties *)

Section codec_properties.
Context `{X : External} `{D : !Deserialize BrokerEnvelopeV1}.

(** frames written one after the other are read back one after the
    other: decoding what [encode_frame] appended gives the message and
    leaves the reader at the next frame. *)
Theorem frame_round_trip m written out rest fails :
  reads_back m → encode_frame m written = Ok out →
  ∃ frame, out = written +:+ frame ∧
    decode_frame {| r_bytes := frame +:+ rest; r_fails := fails |} =
      Ok (m, {| r_bytes := rest; r_fails := fails |}).
Proof.
  intros Hr (payload & Hc & Hl & ->)%encode_frame_Ok. eexists. split; [reflexivity|].
  apply decode_frame_Ok. exists payload. split_and!; simpl; try done; try lia.
  - by apply reads_back_closed.
Qed.

(** the wire format is canonical: whatever bytes decode to a message are
    the encoding of that message followed by the unread rest, so a message
    has one accepted frame, no larger than the maximum, and a decoded
    message can always be sent on. *)
Theorem frame_canonical r m r' :
  decode_frame r = Ok (m, r') →
  ∃ frame, encode_frame m EmptyString = Ok frame ∧
    r_bytes r = frame +:+ r_bytes r' ∧
    (4 < str_len frame <= 4 + MAX_BROKER_MESSAGE_BYTES)%N.
Proof.
  intros (payload & Hd & Hl & _ & Hb)%decode_frame_Ok.
  apply decode_closed_canonical in Hd.
  exists (to_be_bytes (str_len payload) +:+ payload). split_and!.
  - apply encode_frame_Ok. by exists payload.
  - by rewrite Hb, str_app_assoc.
  - rewrite str_len_app, be_bytes_length. lia.
  - rewrite str_len_app, be_bytes_length. lia.
Qed.

(** a stream cut anywhere inside a frame is reported as truncated in the
    prefix or in the payload (as an I/O failure if the reader failed) and
    never decodes to another message. *)
Theorem frame_truncated m frame cut rest fails :
  encode_frame m EmptyString = Ok frame → frame = cut +:+ rest → rest ≠ EmptyString →
  decode_frame {| r_bytes := cut; r_fails := fails |} =
  Err (if fails then Io
       else if (str_len cut <? 4)%N then TruncatedPrefix
       else TruncatedPayload (str_len frame - 4)).
Proof.
  intros (payload & Hc & Hl & Hf)%encode_frame_Ok Hcut Hrest.
  change (frame = to_be_bytes (str_len payload) +:+ payload) in Hf.
  assert (0 < str_len rest)%N as Hr by (unfold str_len; destruct rest; [done|simpl; lia]).
  pose proof (f_equal str_len Hf) as Hlen.
  rewrite Hcut, !str_len_app, be_bytes_length in Hlen.
  unfold decode_frame. destruct (N.ltb_spec (str_len cut) 4) as [H4|H4].
  { rewrite read_exact_short by done. simpl. by destruct fails. }
  assert (∃ t, cut = to_be_bytes (str_len payload) +:+ t ∧ payload = t +:+ rest) as (t & -> & Hp).
  { destruct (common_prefix (to_be_bytes (str_len payload)) cut payload rest)
      as (u & -> & ->); [congruence|unfold str_len in H4; simpl; lia|eauto]. }
  rewrite read_prefix. cbn [rbind map_err].
  rewrite from_to_be_bytes by (unfold MAX_BROKER_MESSAGE_BYTES, u32_max in *; lia).
  rewrite length_in_bounds by done. cbn [fail_if]. rewrite read_exact_short.
  - simpl. rewrite Hf, str_len_app, be_bytes_length. destruct fails; simpl; [done|].
    do 2 f_equal. lia.
  - simpl. rewrite Hp, str_len_app. lia.
Qed.
End codec_properties.

(** ** Witness *)

Definition sample_hello : BrokerMessageV1 := Hello {|
  he_installation_id := sample_id InstallationIdK;
  he_broker_epoch_sha256 := sample_digest; he_executable_sha256 := sample_digest;
  he_supported_versions := [1%N] |}.

Definition sample_envelope : ValidatedBrokerEnvelope.
Proof. refine (mk_validated (new_envelope sample_hello) _). by vm_compute. Defined.

(** A JSON reader that knows one document. *)
Definition one_document_external : External := {|
  sha256 := demo_digest; hmac_sha256 k s := demo_digest (s +:+ k);
  hex_encode := demo_hex_encode; hex_decode := demo_hex_decode;
  json_string := demo_quote; json_to_vec := demo_to_vec;
  parse_json _ := Some (to_value (as_inner sample_envelope)) |}.

Definition one_envelope_deserialize : Deserialize BrokerEnvelopeV1 :=
  fun v => match v with VObject _ => Some (as_inner sample_envelope) | _ => None end.

Definition sample_frame : string :=
  match encode_frame (X := one_document_external) sample_envelope EmptyString with
  | Ok s => s | Err _ => EmptyString end.

Lemma sample_frame_ok :
  encode_frame (X := one_document_external) sample_envelope EmptyString = Ok sample_frame.
Proof. vm_compute. reflexivity. Qed.

Lemma frame_round_trip_witness :
  ∃ frame, sample_frame = frame ∧
    decode_frame (X := one_document_external) (D := one_envelope_deserialize)
      {| r_bytes := frame +:+ "next"; r_fails := false |} =
    Ok (sample_envelope, {| r_bytes := "next"; r_fails := false |}).
Proof.
  destruct (frame_round_trip (X := one_document_external) (D := one_envelope_deserialize)
    sample_envelope EmptyString sample_frame "next" false) as (frame & Hf & Hd).
  - intros text _. eexists. split; [reflexivity|]. split; [vm_compute|]; reflexivity.
  - exact sample_frame_ok.
  - exists frame. split; [exact Hf|exact Hd].
Defined.

Lemma frame_canonical_witness :
  ∃ frame, encode_frame (X := one_document_external) sample_envelope EmptyString = Ok frame ∧
    sample_frame +:+ "next" = frame +:+ "next".
Proof.
  destruct (frame_canonical (X := one_document_external) (D := one_envelope_deserialize)
    {| r_bytes := sample_frame +:+ "next"; r_fails := false |} sample_envelope
    {| r_bytes := "next"; r_fails := false |}) as (frame & He & Hb & _).
  - vm_compute. reflexivity.
  - exists frame. split; [exact He|exact Hb].
Defined.

Lemma frame_truncated_witness :
  decode_frame (X := one_document_external) (D := one_envelope_deserialize)
    {| r_bytes := str_take 3 sample_frame; r_fails := false |} = Err TruncatedPrefix.
Proof.
  exact (frame_truncated (X := one_document_external) (D := one_envelope_deserialize)
    sample_envelope sample_frame (str_take 3 sample_frame) (str_drop 3 sample_frame) false
    sample_frame_ok (eq_sym (str_take_drop 3 sample_frame)) ltac:(vm_compute; discriminate)).
Defined.
