(* ===== verification/ReplayStore.v ===== *)
(** * The durable replay store: [crates/phantom-broker/src/replay_store.rs]

    The lease bindings of [lease.rs]; the persisted ledger of nonces, idempotency keys, leases and uses; each
    transaction of [DurableReplayStore] as a function of the ledger; the
    authenticated encoding of the ledger; and the store itself, which runs a
    transaction on the state it reads from a [ReplayStorage] and writes back.

    [replay_storage.rs] is file-system access: it is the class
    [ReplayStorage], with what the store relies on in [ReplayStorageLaws].
    A transaction that fails returns its error alone: the code works on a
    private copy of the state, which is dropped.  The process mutex is only
    poisoned by a panic, of which the transactions have none. *)

From S2P Require Import Prelude Ids External Canonical Constraints ConstraintsSpec Schema Verifier.

(** ** Lease bindings: [crates/phantom-broker/src/lease.rs]

    The value-free binding of one prospective lease, its validation and its
    construction from a verified grant. *)

Record LeaseBinding := {
  lb_lease_id : LeaseId;
  lb_grant_id : GrantId;
  lb_action_id : ActionId;
  lb_operation : Operation;
  lb_expected_authority : ExpectedAuthority;
  lb_canonical_args_sha256 : Sha256Digest;
  lb_broker_generation : N;
  lb_constraints : AuthorityConstraints;
}.

#[export] Instance LeaseBinding_eq_dec : EqDecision LeaseBinding.
Proof. solve_decision. Defined.

#[export] Instance Serialize_lease_binding : Serialize LeaseBinding := fun b =>
  VObject [("lease_id", to_value (lb_lease_id b)); ("grant_id", to_value (lb_grant_id b));
           ("action_id", to_value (lb_action_id b)); ("operation", to_value (lb_operation b));
           ("expected_authority", to_value (lb_expected_authority b));
           ("canonical_args_sha256", to_value (lb_canonical_args_sha256 b));
           ("broker_generation", to_value (lb_broker_generation b));
           ("constraints", to_value (lb_constraints b))].

Inductive LeaseBindingError :=
  | InvalidAuthority (e : SchemaError)
  | InvalidLeaseConstraints (e : ConstraintError)
  | InvalidBrokerGeneration
  | LeaseEnvironmentMismatch
  | NoUsableCapacity
  | LeaseOperationMismatch.

#[export] Instance LeaseBindingError_eq_dec : EqDecision LeaseBindingError.
Proof. solve_decision. Defined.

(** [matches!(self.operation.effect_class(), Inspect | LocalRead)] *)
Definition effect_read_only (e : EffectClass) : bool :=
  match e with Inspect | LocalRead => true | _ => false end.

(** [LeaseBinding::validate] *)
Definition binding_validate (b : LeaseBinding) : result unit LeaseBindingError :=
  let? _ := map_err InvalidAuthority (authority_validate (lb_expected_authority b)) in
  let? _ := map_err InvalidLeaseConstraints (validate (lb_constraints b)) in
  fail_if (lb_broker_generation b =? 0)%N InvalidBrokerGeneration
  (fail_if (negb (String.eqb (environment (lb_constraints b))
                             (ea_environment (lb_expected_authority b))))
     LeaseEnvironmentMismatch
  (fail_if (capacity_is_denied (capacity (uses (lb_constraints b)))) NoUsableCapacity
  (fail_if (negb (eqb (read_only (lb_constraints b))
                      (effect_read_only (effect_class (lb_operation b)))))
     LeaseOperationMismatch
  (Ok tt)))).

(** The binding assembled by [LeaseBinding::from_verified] before validation. *)
Definition binding_of (lease_id : LeaseId) (g : VerifiedGrant) (generation : N)
    : LeaseBinding :=
  {| lb_lease_id := lease_id;
     lb_grant_id := vg_grant_id g;
     lb_action_id := vg_action_id g;
     lb_operation := vg_operation g;
     lb_expected_authority := vg_authority g;
     lb_canonical_args_sha256 := vg_canonical_args_sha256 g;
     lb_broker_generation := generation;
     lb_constraints := vg_constraints g |}.

(** [LeaseBinding::from_verified] *)
Definition binding_from_verified (lease_id : LeaseId) (g : VerifiedGrant) (generation : N)
    : result LeaseBinding LeaseBindingError :=
  let b := binding_of lease_id g generation in
  let? _ := binding_validate b in
  Ok b.

(** [LeaseBinding::active_at] *)
Definition binding_active_at (b : LeaseBinding) (now : N) : bool :=
  active_at (time (lb_constraints b)) now.

(** ** Lemmas *)

Lemma binding_validate_Ok b :
  binding_validate b = Ok tt ↔
  authority_validate (lb_expected_authority b) = Ok tt ∧
  validate (lb_constraints b) = Ok tt ∧ lb_broker_generation b ≠ 0%N ∧
  environment (lb_constraints b) = ea_environment (lb_expected_authority b) ∧
  capacity_is_denied (capacity (uses (lb_constraints b))) = false ∧
  read_only (lb_constraints b) = effect_read_only (effect_class (lb_operation b)).
Proof.
  unfold binding_validate. split.
  - intros H. inv_ok. split_bools.
    repeat match goal with
    | u : unit |- _ => destruct u
    | H : eqb _ _ = true |- _ => apply eqb_prop in H
    | H : String.eqb _ _ = true |- _ => apply String.eqb_eq in H
    | H : (_ =? _)%N = false |- _ => apply N.eqb_neq in H
    end. auto 10.
  - intros (-> & -> & Hg%N.eqb_neq & -> & -> & ->). simpl. rewrite Hg. simpl.
    by rewrite String.eqb_refl, eqb_reflx.
Qed.

(** The two spellings of "this operation only reads" agree. *)
Lemma effect_read_only_expected o : effect_read_only (effect_class o) = expected_read_only o.
Proof. by destruct o. Qed.

(** What a valid binding with usable capacity lets be used. *)
Lemma binding_limits b :
  binding_validate b = Ok tt →
  ∃ u k, capacity_limits (capacity (uses (lb_constraints b))) = Some (u, k) ∧
         u ≠ 0%N ∧ k ≠ 0%N.
Proof.
  intros (_ & Hv & _ & _ & Hc & _)%binding_validate_Ok.
  unfold validate in Hv. inv_ok.
  repeat match goal with u : unit |- _ => destruct u end.
  match goal with H : capacity_validate _ = _ |- _ => rename H into Hcap end.
  destruct (capacity _) as [|u k]; [done|]. simpl in Hcap. inv_ok. split_bools.
  exists u, k. split_and!; [done|by apply N.eqb_neq..].
Qed.

(** ** Properties *)

(** a verified grant becomes a lease binding exactly when the broker
    generation is nonzero and the grant has use capacity: every other check of
    the binding already holds of a grant.  The binding carries the grant's
    own identity, subject, arguments and constraints. *)
Theorem binding_from_verified_exact lid g n b :
  granted g →
  binding_from_verified lid g n = Ok b ↔
  b = binding_of lid g n ∧ n ≠ 0%N ∧
  capacity_is_denied (capacity (uses (vg_constraints g))) = false.
Proof.
  intros Hg. unfold binding_from_verified.
  assert (binding_validate (binding_of lid g n) = Ok tt ↔
    n ≠ 0%N ∧ capacity_is_denied (capacity (uses (vg_constraints g))) = false) as Hv.
  { rewrite binding_validate_Ok. simpl.
    destruct (granted_valid g Hg) as (Ha & Hc & He & _).
    destruct Hg as (i & c & Hf). apply from_verified_Ok in Hf as (Hi & _ & _ & _ & _ & _ & Hr & _ & Heq).
    apply intent_validate_Ok in Hi as (_ & _ & _ & Hro & _).
    assert (read_only (vg_constraints g) = effect_read_only (effect_class (vg_operation g))) as Hre.
    { rewrite effect_read_only_expected, Heq. simpl. by rewrite Hr. }
    tauto. }
  rewrite rbind_Ok. split.
  - intros ([] & H & [= <-]). by apply Hv in H.
  - intros (-> & H). exists tt. split; [by apply Hv|done].
Qed.

Definition sample_binding : LeaseBinding := binding_of (sample_id LeaseIdK) sample_grant 1.

Lemma binding_from_verified_exact_witness :
  granted sample_grant ∧
  binding_from_verified (sample_id LeaseIdK) sample_grant 1 = Ok sample_binding.
Proof.
  split; [exact sample_granted|].
  apply (binding_from_verified_exact _ _ _ _ sample_granted).
  split; [reflexivity|]. split; [discriminate|vm_compute; reflexivity].
Defined.

(** ** Data *)

Definition STORE_FORMAT_VERSION : N := 2.
Definition STATE_FILE_NAME : string := "replay-state.v2.json".
Definition LEGACY_STATE_FILE_NAME : string := "replay-state.v1.json".
Definition MAX_STATE_BYTES : N := 8388608.
Definition STORE_ID_BYTES : nat := 32.

Inductive Activation := INACTIVE | ACTIVATING | ACTIVE | POISONED.

#[export] Instance Activation_eq_dec : EqDecision Activation.
Proof. solve_decision. Defined.

Inductive TerminalDisposition := DFinished | DAbandoned.

Inductive PersistedUseState :=
  | UActive
  | UCompleting (terminal_record_sha256 : Sha256Digest) (disposition : TerminalDisposition)
  | UFinished (terminal_record_sha256 : Sha256Digest)
  | UAbandoned (terminal_record_sha256 : Sha256Digest).

Inductive ReplayUseState := InProgress | Completing | Finished | Abandoned.

#[export] Instance TerminalDisposition_eq_dec : EqDecision TerminalDisposition.
Proof. solve_decision. Defined.
#[export] Instance PersistedUseState_eq_dec : EqDecision PersistedUseState.
Proof. solve_decision. Defined.
#[export] Instance ReplayUseState_eq_dec : EqDecision ReplayUseState.
Proof. solve_decision. Defined.

(** [impl From<&PersistedUseState> for ReplayUseState] *)
Definition use_state_view (u : PersistedUseState) : ReplayUseState :=
  match u with
  | UActive => InProgress
  | UCompleting _ _ => Completing
  | UFinished _ => Finished
  | UAbandoned _ => Abandoned
  end.

Record PersistedLease := mk_lease {
  pl_grant_id : GrantId;
  pl_action_id : ActionId;
  pl_operation : Operation;
  pl_canonical_args_sha256 : Sha256Digest;
  pl_workspace_id : WorkspaceId;
  pl_workspace_manifest_sha256 : Sha256Digest;
  pl_policy_sha256 : Sha256Digest;
  pl_broker_generation : N;
  pl_constraints : AuthorityConstraints;
  pl_remaining_uses : N;
  pl_uses : gmap string PersistedUseState;
  pl_revoked : bool;
}.

Record PersistedIdempotency := {
  pi_request_fingerprint_sha256 : string;
  pi_lease_id : string;
}.

Record PersistedState := mk_state {
  ps_store_id : string;
  ps_broker_generation : N;
  ps_sequence : N;
  ps_seen_nonce_digests : gset string;
  ps_idempotency : gmap string PersistedIdempotency;
  ps_leases : gmap string PersistedLease;
}.

Record SignedState := {
  ss_format_version : N;
  ss_payload : PersistedState;
  ss_hmac_sha256 : string;
}.

Record MacInput := { mi_format_version : N; mi_payload : PersistedState }.

(** ** Results *)

Inductive ReplayReservation :=
  | RNew (lease_id : LeaseId)
  | RExisting (lease_id : LeaseId).

Record ExecutionPermit := {
  ep_lease_id : LeaseId;
  ep_broker_generation : N;
  ep_action_id : ActionId;
  ep_operation : Operation;
  ep_canonical_args_sha256 : Sha256Digest;
  ep_workspace_id : WorkspaceId;
  ep_workspace_manifest_sha256 : Sha256Digest;
  ep_policy_sha256 : Sha256Digest;
  ep_constraints : AuthorityConstraints;
  ep_operation_sha256 : string;
  ep_store_binding : string;
}.

Inductive ReplayUseReservation :=
  | UNew (permit : ExecutionPermit)
  | UExisting (state : ReplayUseState).

Record CompletionWitness := {
  cw_lease_id : LeaseId;
  cw_broker_generation : N;
  cw_operation_sha256 : string;
  cw_terminal_record_sha256 : Sha256Digest;
  cw_disposition : TerminalDisposition;
  cw_store_binding : string;
}.

Inductive ReplayCompletionReservation :=
  | CNew (witness : CompletionWitness)
  | CResumed (witness : CompletionWitness)
  | CExisting (state : ReplayUseState).

Record LeaseSummary := {
  ls_lease_id : LeaseId;
  ls_grant_id : GrantId;
  ls_operation : Operation;
  ls_workspace_id : WorkspaceId;
  ls_broker_generation : N;
  ls_remaining_uses : N;
  ls_revoked : bool;
  ls_active_uses : N;
  ls_not_before : N;
  ls_expires_at : N;
}.

Inductive LeaseStatus :=
  | RevokedByRestart | SRevoked | NotYetValid | SExpired | Exhausted | Current | Inconsistent.

(** ** Errors *)

Inductive ReplayStorageError :=
  | StUnsupportedPlatform | StInvalidRoot | StInvalidWorkspace | StStorageOverlapsWorkspace
  | StMissing | StSymlinkRejected | StTooLarge | StLockUnavailable | StInstanceAlreadyActive
  | StInvalidFile | StUnsafePermissions | StIdentityChanged | StInvalidName | StIo.

Inductive ReplayStoreError :=
  | InvalidReservationKey | InvalidOperationId | EReplay | IdempotencyCollision
  | LeaseIdCollision | StaleBrokerGeneration | UnknownLease | ERevoked | EExpired
  | CapacityExhausted | UnknownUse | ForeignPermit | ForeignCompletionWitness
  | CompletionNotStarted | CompletionConflict | OperationAlreadyTerminal
  | EGenerationExhausted | SequenceExhausted | LockUnavailable | AlreadyActive
  | ActivationPoisoned | InstanceAlreadyActive | NotActive | AlreadyInitialized
  | MissingState | StoreIdentityMismatch | InvalidRoot | InvalidWorkspace
  | StorageOverlapsWorkspace | SymlinkRejected | StateTooLarge | UnsupportedFormat
  | AuthenticationFailed | InvalidState | InvalidKey | EIo | UnsupportedPlatform
  | UnsafeStorage
  | InvalidBinding (e : LeaseBindingError)
  | ECanonical (e : CanonicalJsonError)
  | EJson.

#[export] Instance ReplayStoreError_eq_dec : EqDecision ReplayStoreError.
Proof. solve_decision. Defined.

(** [impl From<ReplayStorageError> for ReplayStoreError] *)
Definition from_storage_error (e : ReplayStorageError) : ReplayStoreError :=
  match e with
  | StUnsupportedPlatform => UnsupportedPlatform
  | StInvalidRoot => InvalidRoot
  | StInvalidWorkspace => InvalidWorkspace
  | StStorageOverlapsWorkspace => StorageOverlapsWorkspace
  | StMissing => MissingState
  | StSymlinkRejected => SymlinkRejected
  | StTooLarge => StateTooLarge
  | StLockUnavailable => LockUnavailable
  | StInstanceAlreadyActive => InstanceAlreadyActive
  | StInvalidFile | StUnsafePermissions | StIdentityChanged | StInvalidName => UnsafeStorage
  | StIo => EIo
  end.

(** ** Serialized forms *)

#[export] Instance Serialize_disposition : Serialize TerminalDisposition := fun d =>
  VString (match d with DFinished => "finished" | DAbandoned => "abandoned" end).
#[export] Instance Serialize_use_state : Serialize PersistedUseState := fun u =>
  match u with
  | UActive => VObject [("state", VString "active")]
  | UCompleting t d => VObject [("state", VString "completing");
      ("terminal_record_sha256", to_value t); ("disposition", to_value d)]
  | UFinished t => VObject [("state", VString "finished"); ("terminal_record_sha256", to_value t)]
  | UAbandoned t => VObject [("state", VString "abandoned"); ("terminal_record_sha256", to_value t)]
  end.
#[export] Instance Serialize_btree {V} `{Serialize V} : Serialize (gmap string V) := fun m =>
  VObject (map (fun kv => (kv.1, to_value kv.2)) (btree_iter m)).
#[export] Instance Serialize_btree_set : Serialize (gset string) := fun s =>
  VArray (map VString (sort_keys (elements s))).
#[export] Instance Serialize_lease : Serialize PersistedLease := fun l =>
  VObject [("grant_id", to_value (pl_grant_id l)); ("action_id", to_value (pl_action_id l));
           ("operation", to_value (pl_operation l));
           ("canonical_args_sha256", to_value (pl_canonical_args_sha256 l));
           ("workspace_id", to_value (pl_workspace_id l));
           ("workspace_manifest_sha256", to_value (pl_workspace_manifest_sha256 l));
           ("policy_sha256", to_value (pl_policy_sha256 l));
           ("broker_generation", to_value (pl_broker_generation l));
           ("constraints", to_value (pl_constraints l));
           ("remaining_uses", to_value (pl_remaining_uses l));
           ("uses", to_value (pl_uses l)); ("revoked", to_value (pl_revoked l))].
#[export] Instance Serialize_idempotency : Serialize PersistedIdempotency := fun i =>
  VObject [("request_fingerprint_sha256", to_value (pi_request_fingerprint_sha256 i));
           ("lease_id", to_value (pi_lease_id i))].
#[export] Instance Serialize_state : Serialize PersistedState := fun s =>
  VObject [("store_id", to_value (ps_store_id s));
           ("broker_generation", to_value (ps_broker_generation s));
           ("sequence", to_value (ps_sequence s));
           ("seen_nonce_digests", to_value (ps_seen_nonce_digests s));
           ("idempotency", to_value (ps_idempotency s)); ("leases", to_value (ps_leases s))].
#[export] Instance Serialize_signed : Serialize SignedState := fun s =>
  VObject [("format_version", to_value (ss_format_version s));
           ("payload", to_value (ss_payload s));
           ("hmac_sha256", to_value (ss_hmac_sha256 s))].
#[export] Instance Serialize_mac_input : Serialize MacInput := fun m =>
  VObject [("format_version", to_value (mi_format_version m));
           ("payload", to_value (mi_payload m))].

(** ** Validation of keys and identifiers *)


(** [fn validate_key] *)
Definition validate_key (key : string) : result unit ReplayStoreError :=
  fail_if (all_bytes (ascii_eqb zero_byte) key) InvalidKey (Ok tt).

(** [fn validate_store_id] *)
Definition validate_store_id (v : string) : result unit ReplayStoreError :=
  fail_if (negb (String.length v =? STORE_ID_BYTES * 2)%nat || negb (all_bytes is_lower_hex v))
    InvalidState (Ok tt).

(** The condition shared by [validate_idempotency_key] and
    [validate_operation_id]: [true] on a value that is rejected. *)
Definition invalid_operation_text (v : string) : bool :=
  str_is_empty v || (128 <? String.length v)%nat || negb (all_bytes label_byte v).

(** [fn validate_idempotency_key] *)
Definition validate_idempotency_key (v : string) : result unit ReplayStoreError :=
  fail_if (invalid_operation_text v) InvalidReservationKey (Ok tt).

(** [fn validate_operation_id] *)
Definition validate_operation_id (v : string) : result unit ReplayStoreError :=
  fail_if (invalid_operation_text v) InvalidOperationId (Ok tt).

(** ** Field updates *)

Definition set_lease_uses (l : PersistedLease) (remaining : N)
    (uses : gmap string PersistedUseState) (revoked : bool) : PersistedLease :=
  mk_lease (pl_grant_id l) (pl_action_id l) (pl_operation l) (pl_canonical_args_sha256 l)
    (pl_workspace_id l) (pl_workspace_manifest_sha256 l) (pl_policy_sha256 l)
    (pl_broker_generation l) (pl_constraints l) remaining uses revoked.

Definition set_leases (s : PersistedState) (leases : gmap string PersistedLease)
    : PersistedState :=
  mk_state (ps_store_id s) (ps_broker_generation s) (ps_sequence s)
    (ps_seen_nonce_digests s) (ps_idempotency s) leases.

(** [state.sequence = state.sequence.checked_add(1).ok_or(SequenceExhausted)?] *)
Definition bump_sequence (s : PersistedState) : result PersistedState ReplayStoreError :=
  let? q := ok_or (checked_add_u64 (ps_sequence s) 1) SequenceExhausted in
  Ok (mk_state (ps_store_id s) (ps_broker_generation s) q
        (ps_seen_nonce_digests s) (ps_idempotency s) (ps_leases s)).

(** Write one use state back and advance the sequence. *)
Definition commit_use (s : PersistedState) (lease_id : string) (l : PersistedLease)
    (operation : string) (u : PersistedUseState) : result PersistedState ReplayStoreError :=
  bump_sequence (set_leases s
    (<[lease_id := set_lease_uses l (pl_remaining_uses l) (<[operation := u]> (pl_uses l))
                     (pl_revoked l)]> (ps_leases s))).

(** A transaction: the result, whether the state must be written, the state. *)
Definition Txn (T : Type) : Type :=
  PersistedState → result (T * bool * PersistedState) ReplayStoreError.

(** ** Status of a listed lease *)

(** [LeaseSummary::status] *)
Definition status (l : LeaseSummary) (store_generation now : N) : LeaseStatus :=
  if (store_generation <? ls_broker_generation l)%N then Inconsistent
  else if (ls_broker_generation l <? store_generation)%N then RevokedByRestart
  else if ls_revoked l then SRevoked
  else if (now <? ls_not_before l)%N then NotYetValid
  else if (ls_expires_at l <=? now)%N then SExpired
  else if (ls_remaining_uses l =? 0)%N then Exhausted
  else Current.

Definition use_is_active (u : PersistedUseState) : bool :=
  match u with UActive => true | _ => false end.

(** [matches!(state, Active | Completing { .. })] *)
Definition use_in_flight (u : PersistedUseState) : bool :=
  match u with UActive | UCompleting _ _ => true | _ => false end.

(** One summary of [list_leases]. *)
Definition lease_summary (lease_id : string) (l : PersistedLease)
    : result LeaseSummary ReplayStoreError :=
  let? id := map_err (fun _ => InvalidState) (id_from_str LeaseIdK lease_id) in
  let n := N.of_nat (count_values use_is_active (pl_uses l)) in
  fail_if (u32_max <? n)%N InvalidState
  (Ok {| ls_lease_id := id; ls_grant_id := pl_grant_id l; ls_operation := pl_operation l;
         ls_workspace_id := pl_workspace_id l;
         ls_broker_generation := pl_broker_generation l;
         ls_remaining_uses := pl_remaining_uses l; ls_revoked := pl_revoked l;
         ls_active_uses := n;
         ls_not_before := not_before (time (pl_constraints l));
         ls_expires_at := expires_at (time (pl_constraints l)) |}).

Fixpoint collect_summaries (l : list (string * PersistedLease))
    : result (list LeaseSummary) ReplayStoreError :=
  match l with
  | [] => Ok []
  | (k, lease) :: rest =>
      let? s := lease_summary k lease in
      let? ss := collect_summaries rest in
      Ok (s :: ss)
  end.

(** The closure of [list_leases]. *)
Definition list_leases_txn : Txn (list LeaseSummary) := fun s =>
  let? leases := collect_summaries (btree_iter (ps_leases s)) in
  Ok (leases, false, s).

(** The closure of [current_generation] and [stored_generation]. *)
Definition generation_txn : Txn N := fun s => Ok (ps_broker_generation s, false, s).

(** ** Transactions that compute digests *)

Section transactions.
Context `{X : External}.

(** [fn recovery_terminal_digest] *)
Definition recovery_terminal_digest (store_id subject reason : string)
    : result Sha256Digest ReplayStoreError :=
  let? text := map_err ECanonical (write_canonical (VObject
    [("version", VNumber (NPos 1)); ("store_id", VString store_id);
     ("subject", VString subject); ("reason", VString reason)])) in
  map_err (fun _ => InvalidState) (digest_from_str (hex_encode (sha256 text))).

(** The loop over the uses of one lease in [start_epoch] and [revoke]. *)
Definition abandon_active (digest : string → result Sha256Digest ReplayStoreError)
    (uses : gmap string PersistedUseState)
    : result (gmap string PersistedUseState) ReplayStoreError :=
  btree_update (fun op u =>
    match u with
    | UActive => let? d := digest op in Ok (UAbandoned d)
    | _ => Ok u
    end) uses.

(** The closure of [start_epoch]. *)
Definition start_epoch_txn (store_id : string) : Txn N := fun s =>
  let? g := ok_or (checked_add_u64 (ps_broker_generation s) 1) EGenerationExhausted in
  fail_if (g =? 0)%N EGenerationExhausted
  (let? leases := btree_update (fun lease_id l =>
      let? uses := abandon_active (fun op =>
        recovery_terminal_digest store_id (lease_id +:+ ":" +:+ op) "broker_restart")
        (pl_uses l) in
      Ok (set_lease_uses l (pl_remaining_uses l) uses true)) (ps_leases s) in
   let? s' := bump_sequence (mk_state (ps_store_id s) g (ps_sequence s)
     (ps_seen_nonce_digests s) (ps_idempotency s) leases) in
   Ok (g, true, s')).

(** The closure of [reserve], with the digests computed before it. *)
Definition reserve_txn (nonce idempotency_digest request_fingerprint : string)
    (binding : LeaseBinding) : Txn ReplayReservation := fun s =>
  let lease_id := id_str (lb_lease_id binding) in
  fail_if ((ps_broker_generation s =? 0)%N
           || negb (lb_broker_generation binding =? ps_broker_generation s)%N)
    StaleBrokerGeneration
  (match ps_idempotency s !! idempotency_digest with
   | Some existing =>
       if String.eqb (pi_request_fingerprint_sha256 existing) request_fingerprint
       then let? id := map_err (fun _ => InvalidState)
                         (id_from_str LeaseIdK (pi_lease_id existing)) in
            Ok (RExisting id, false, s)
       else Err IdempotencyCollision
   | None =>
       fail_if (bool_decide (nonce ∈ ps_seen_nonce_digests s)) EReplay
       (fail_if (bool_decide (is_Some (ps_leases s !! lease_id))) LeaseIdCollision
       (let? (max_uses, _) := ok_or (capacity_limits (capacity (uses (lb_constraints binding))))
                                (InvalidBinding NoUsableCapacity) in
        let lease := mk_lease (lb_grant_id binding) (lb_action_id binding)
          (lb_operation binding) (lb_canonical_args_sha256 binding)
          (ea_workspace_id (lb_expected_authority binding))
          (ea_workspace_manifest_sha256 (lb_expected_authority binding))
          (ea_policy_sha256 (lb_expected_authority binding))
          (lb_broker_generation binding) (lb_constraints binding) max_uses ∅ false in
        let? s' := bump_sequence (mk_state (ps_store_id s) (ps_broker_generation s)
          (ps_sequence s) ({[nonce]} ∪ ps_seen_nonce_digests s)
          (<[idempotency_digest := {| pi_request_fingerprint_sha256 := request_fingerprint;
                                      pi_lease_id := lease_id |}]> (ps_idempotency s))
          (<[lease_id := lease]> (ps_leases s))) in
        Ok (RNew (lb_lease_id binding), true, s')))
   end).

(** The permit minted by [begin_use] for a lease. *)
Definition permit_of (id : LeaseId) (generation : N) (l : PersistedLease)
    (operation store_binding : string) : ExecutionPermit :=
  {| ep_lease_id := id; ep_broker_generation := generation;
     ep_action_id := pl_action_id l; ep_operation := pl_operation l;
     ep_canonical_args_sha256 := pl_canonical_args_sha256 l;
     ep_workspace_id := pl_workspace_id l;
     ep_workspace_manifest_sha256 := pl_workspace_manifest_sha256 l;
     ep_policy_sha256 := pl_policy_sha256 l; ep_constraints := pl_constraints l;
     ep_operation_sha256 := operation; ep_store_binding := store_binding |}.

(** The closure of [begin_use]. *)
Definition begin_use_txn (lease_id operation_digest store_binding : string) (now : N)
    : Txn ReplayUseReservation := fun s =>
  let generation := ps_broker_generation s in
  let? l := ok_or (ps_leases s !! lease_id) UnknownLease in
  fail_if (pl_revoked l || negb (pl_broker_generation l =? generation)%N) ERevoked
  (fail_if ((now <? not_before (time (pl_constraints l)))%N
            || (expires_at (time (pl_constraints l)) <=? now)%N) EExpired
  (match pl_uses l !! operation_digest with
   | Some existing => Ok (UExisting (use_state_view existing), false, s)
   | None =>
       match capacity (uses (pl_constraints l)) with
       | CapacityDenied => Err CapacityExhausted
       | CapacityBounded _ max_concurrent =>
           let active_uses := N.of_nat (count_values use_in_flight (pl_uses l)) in
           fail_if ((pl_remaining_uses l =? 0)%N || (max_concurrent <=? active_uses)%N)
             CapacityExhausted
           (let l' := set_lease_uses l (pl_remaining_uses l - 1)
                        (<[operation_digest := UActive]> (pl_uses l)) (pl_revoked l) in
            let? s' := bump_sequence (set_leases s (<[lease_id := l']> (ps_leases s))) in
            let? id := map_err (fun _ => InvalidState) (id_from_str LeaseIdK lease_id) in
            Ok (UNew (permit_of id generation l operation_digest store_binding), true, s'))
       end
   end)).

(** [true] when the stored state is the terminal form of this completion. *)
Definition same_terminal (u : PersistedUseState) (d : Sha256Digest)
    (disposition : TerminalDisposition) : bool :=
  match u, disposition with
  | UFinished e, DFinished => bool_decide (e = d)
  | UAbandoned e, DAbandoned => bool_decide (e = d)
  | _, _ => false
  end.

(** [true] when the stored state is this completion, still pending. *)
Definition same_pending (u : PersistedUseState) (d : Sha256Digest)
    (disposition : TerminalDisposition) : bool :=
  match u with
  | UCompleting e ed => bool_decide (e = d) && bool_decide (ed = disposition)
  | _ => false
  end.

Definition terminal_view (disposition : TerminalDisposition) : ReplayUseState :=
  match disposition with DFinished => Finished | DAbandoned => Abandoned end.

Definition terminal_state (d : Sha256Digest) (disposition : TerminalDisposition)
    : PersistedUseState :=
  match disposition with DFinished => UFinished d | DAbandoned => UAbandoned d end.

(** The witness closure of [begin_completion]. *)
Definition witness_of (permit : ExecutionPermit) (d : Sha256Digest)
    (disposition : TerminalDisposition) : CompletionWitness :=
  {| cw_lease_id := ep_lease_id permit;
     cw_broker_generation := ep_broker_generation permit;
     cw_operation_sha256 := ep_operation_sha256 permit; cw_terminal_record_sha256 := d;
     cw_disposition := disposition; cw_store_binding := ep_store_binding permit |}.

(** The closure of [begin_completion]. *)
Definition begin_completion_txn (permit : ExecutionPermit) (d : Sha256Digest)
    (disposition : TerminalDisposition) : Txn ReplayCompletionReservation := fun s =>
  let lease_id := id_str (ep_lease_id permit) in
  let operation := ep_operation_sha256 permit in
  fail_if (negb (ep_broker_generation permit =? ps_broker_generation s)%N) ERevoked
  (let? l := ok_or (ps_leases s !! lease_id) UnknownLease in
   fail_if (pl_revoked l || negb (pl_broker_generation l =? ep_broker_generation permit)%N)
     ERevoked
   (let? u := ok_or (pl_uses l !! operation) UnknownUse in
    let witness := witness_of permit d disposition in
    match u with
    | UActive =>
        let? s' := commit_use s lease_id l operation (UCompleting d disposition) in
        Ok (CNew witness, true, s')
    | _ =>
        if same_pending u d disposition then Ok (CResumed witness, false, s)
        else if same_terminal u d disposition
        then Ok (CExisting (terminal_view disposition), false, s)
        else Err CompletionConflict
    end)).

(** The closure of [resume_completion]. *)
Definition resume_completion_txn (lease_id : LeaseId) (operation store_binding : string)
    (d : Sha256Digest) (disposition : TerminalDisposition)
    : Txn ReplayCompletionReservation := fun s =>
  let? l := ok_or (ps_leases s !! id_str lease_id) UnknownLease in
  let? u := ok_or (pl_uses l !! operation) UnknownUse in
  let witness := {| cw_lease_id := lease_id;
                    cw_broker_generation := pl_broker_generation l;
                    cw_operation_sha256 := operation; cw_terminal_record_sha256 := d;
                    cw_disposition := disposition; cw_store_binding := store_binding |} in
  if same_pending u d disposition then Ok (CResumed witness, false, s)
  else if same_terminal u d disposition
  then Ok (CExisting (terminal_view disposition), false, s)
  else Err (if use_is_active u then CompletionNotStarted else CompletionConflict).

(** The closure of [commit_completion]. *)
Definition commit_completion_txn (w : CompletionWitness) : Txn unit := fun s =>
  let lease_id := id_str (cw_lease_id w) in
  let operation := cw_operation_sha256 w in
  let d := cw_terminal_record_sha256 w in
  let? l := ok_or (ps_leases s !! lease_id) UnknownLease in
  fail_if (negb (cw_broker_generation w =? pl_broker_generation l)%N) ForeignCompletionWitness
  (let? u := ok_or (pl_uses l !! operation) UnknownUse in
   if same_pending u d (cw_disposition w) then
     let? s' := commit_use s lease_id l operation (terminal_state d (cw_disposition w)) in
     Ok (tt, true, s')
   else if same_terminal u d (cw_disposition w) then Ok (tt, false, s)
   else Err (if use_is_active u then CompletionNotStarted else CompletionConflict)).

(** The closure of [revoke]. *)
Definition revoke_txn (store_id lease_id : string) : Txn unit := fun s =>
  let? l := ok_or (ps_leases s !! lease_id) UnknownLease in
  if pl_revoked l then Ok (tt, false, s)
  else
    let? uses := abandon_active (fun _ =>
      recovery_terminal_digest store_id lease_id "revoked_before_completion") (pl_uses l) in
    let? s' := bump_sequence (set_leases s
      (<[lease_id := set_lease_uses l (pl_remaining_uses l) uses true]> (ps_leases s))) in
    Ok (tt, true, s').
End transactions.

(** ** The authenticated ledger and the store's operations:
      [crates/phantom-broker/src/replay_store.rs]

    [read_authenticated_state] and [write_authenticated_state] over the bytes
    of the state file, and every public operation of [DurableReplayStore].  An
    operation takes the store object and the storage and returns both with
    its result, so that an error after a write is visible. *)

(** ** The storage interface ([replay_storage.rs]) *)

Class ReplayStorage := {
  rs_t : Type;
  rs_bootstrap : string → string → result rs_t ReplayStorageError;
  rs_open_existing : string → result rs_t ReplayStorageError;
  rs_overlaps_directory : rs_t → string → result bool ReplayStorageError;
  rs_lock_transaction : rs_t → result unit ReplayStorageError;
  rs_try_lock_instance : rs_t → rs_t * result unit ReplayStorageError;
  rs_unlock_instance : rs_t → rs_t;
  rs_exists : rs_t → string → result bool ReplayStorageError;
  rs_read : rs_t → string → N → result string ReplayStorageError;
  rs_replace : rs_t → string → string → rs_t * result unit ReplayStorageError;
}.

(** A file is read as it was last replaced; a failed replacement leaves the
    old contents or the new; locking changes no file. *)
Class ReplayStorageLaws (S : ReplayStorage) := {
  rs_contents : rs_t → string → option string;
  rs_read_contents : ∀ st n limit b, rs_read st n limit = Ok b → rs_contents st n = Some b;
  rs_replace_ok : ∀ st n b st',
    rs_replace st n b = (st', Ok tt) → rs_contents st' n = Some b;
  rs_replace_err : ∀ st n b st' e,
    rs_replace st n b = (st', Err e) →
    rs_contents st' n = rs_contents st n ∨ rs_contents st' n = Some b;
  rs_lock_contents : ∀ st n, rs_contents (rs_try_lock_instance st).1 n = rs_contents st n;
  rs_unlock_contents : ∀ st n, rs_contents (rs_unlock_instance st) n = rs_contents st n;
}.

(** The open store: [key] is in memory only, [instance_lock] is what
    [start_epoch] retains. *)
Record DurableReplayStore := mk_store {
  store_id : string;
  store_key : string;
  instance_lock : bool;
  activation : Activation;
}.

(** The keys of the two HMACs are domain separated by these labels. *)
Definition STATE_LABEL : string := "phantom.broker.replay-state.v2" +:+ nul.
Definition BINDING_LABEL : string := "phantom.broker.replay-store-binding.v2" +:+ nul.

(** A state no larger than any state that a mandatory transition makes of it. *)
Definition max_digest : result Sha256Digest ReplayStoreError :=
  map_err (fun _ => InvalidState) (digest_from_str (str_repeat "ff" 32)).

(** [fn recovery_sized_state] *)
Definition recovery_sized_state (s : PersistedState) : result PersistedState ReplayStoreError :=
  let? d := max_digest in
  let? leases := btree_update (fun _ l =>
      let? uses := abandon_active (fun _ => Ok d) (pl_uses l) in
      Ok (set_lease_uses l (pl_remaining_uses l) uses (pl_revoked l))) (ps_leases s) in
  Ok (mk_state (ps_store_id s) u64_max u64_max (ps_seen_nonce_digests s)
        (ps_idempotency s) leases).

Section api.
Context `{X : External} `{DP : !Deserialize PersistedState} `{DS : !Deserialize SignedState}
  `{S : ReplayStorage}.

Definition state_mac (key : string) (version : N) (s : PersistedState)
    : result string ReplayStoreError :=
  let? input := map_err ECanonical
    (canonical_json_v1 {| mi_format_version := version; mi_payload := s |}) in
  Ok (hmac_sha256 key (STATE_LABEL +:+ input)).

(** [fn authenticated_state_bytes] *)
Definition authenticated_state_bytes (s : PersistedState) (key : string)
    : result string ReplayStoreError :=
  let? _ := validate_store_id (ps_store_id s) in
  let? mac := state_mac key STORE_FORMAT_VERSION s in
  let? payload := ok_or (from_slice (json_to_vec (to_value s))) EJson in
  Ok (json_to_vec (to_value {| ss_format_version := STORE_FORMAT_VERSION;
                               ss_payload := payload;
                               ss_hmac_sha256 := hex_encode mac |})).

(** [fn authenticated_state_bytes_with_limit] *)
Definition authenticated_state_bytes_with_limit (s : PersistedState) (key : string)
    (max_state_bytes : N) : result string ReplayStoreError :=
  let? bytes := authenticated_state_bytes s key in
  let? recovery := recovery_sized_state s in
  let? recovery_bytes := authenticated_state_bytes recovery key in
  fail_if ((max_state_bytes <? str_len bytes)%N
           || (max_state_bytes <? str_len recovery_bytes)%N) StateTooLarge
  (Ok bytes).

(** The checks of [read_authenticated_state] on the bytes it read. *)
Definition authenticate_state_bytes (bytes key : string)
    : result PersistedState ReplayStoreError :=
  let? signed := ok_or (from_slice bytes) InvalidState in
  fail_if (negb (ss_format_version signed =? STORE_FORMAT_VERSION)%N) UnsupportedFormat
  (let? expected := ok_or (hex_decode (ss_hmac_sha256 signed)) InvalidState in
   let? mac := state_mac key (ss_format_version signed) (ss_payload signed) in
   fail_if (negb (String.eqb mac expected)) AuthenticationFailed
   (let? _ := authenticated_state_bytes_with_limit (ss_payload signed) key MAX_STATE_BYTES in
    Ok (ss_payload signed))).

(** [fn read_authenticated_state] *)
Definition read_authenticated_state (st : rs_t) (key : string)
    : result PersistedState ReplayStoreError :=
  let? bytes := map_err from_storage_error (rs_read st STATE_FILE_NAME MAX_STATE_BYTES) in
  authenticate_state_bytes bytes key.

(** [fn write_authenticated_state] *)
Definition write_authenticated_state (st : rs_t) (s : PersistedState) (key : string)
    : rs_t * result unit ReplayStoreError :=
  match authenticated_state_bytes_with_limit s key MAX_STATE_BYTES with
  | Err e => (st, Err e)
  | Ok bytes =>
      let '(st', r) := rs_replace st STATE_FILE_NAME bytes in
      (st', map_err from_storage_error r)
  end.

(** The checks of [with_locked_state_unchecked] before the operation runs. *)
Definition locked_state (d : DurableReplayStore) (st : rs_t)
    : result PersistedState ReplayStoreError :=
  let? _ := map_err from_storage_error (rs_lock_transaction st) in
  let? present := map_err from_storage_error (rs_exists st STATE_FILE_NAME) in
  fail_if (negb present) MissingState
  (let? s := read_authenticated_state st (store_key d) in
   fail_if (negb (String.eqb (ps_store_id s) (store_id d))) StoreIdentityMismatch (Ok s)).

(** [with_locked_state_unchecked] *)
Definition with_locked_state_unchecked {T} (d : DurableReplayStore) (st : rs_t)
    (operation : Txn T) : rs_t * result T ReplayStoreError :=
  match locked_state d st with
  | Err e => (st, Err e)
  | Ok s =>
      match operation s with
      | Err e => (st, Err e)
      | Ok (r, false, _) => (st, Ok r)
      | Ok (r, true, s') =>
          let '(st', w) := write_authenticated_state st s' (store_key d) in
          (st', map_ok (fun _ => r) w)
      end
  end.

(** [ensure_active] *)
Definition ensure_active (d : DurableReplayStore) : result unit ReplayStoreError :=
  fail_if (negb (bool_decide (activation d = ACTIVE))) NotActive (Ok tt).

(** [with_locked_state] *)
Definition with_locked_state {T} (d : DurableReplayStore) (st : rs_t) (operation : Txn T)
    : rs_t * result T ReplayStoreError :=
  match ensure_active d with
  | Err e => (st, Err e)
  | Ok _ => with_locked_state_unchecked d st operation
  end.

(** An early [return Err(e)] of an operation that has not touched the store. *)
Definition or_return {T U} (st : rs_t) (r : result T ReplayStoreError)
    (k : T → rs_t * result U ReplayStoreError) : rs_t * result U ReplayStoreError :=
  match r with Ok t => k t | Err e => (st, Err e) end.

(** [fn store_binding] *)
Definition store_binding (d : DurableReplayStore) : string :=
  hex_encode (hmac_sha256 (store_key d) (BINDING_LABEL +:+ store_id d)).

(** [from_parts] *)
Definition from_parts (id key : string) : DurableReplayStore :=
  mk_store id key false INACTIVE.

(** [DurableReplayStore::bootstrap]; [random] is what [OsRng] filled in. *)
Definition bootstrap (root workspace_root key random : string)
    : result (DurableReplayStore * rs_t) ReplayStoreError :=
  let? _ := validate_key key in
  let? st := map_err from_storage_error (rs_bootstrap root workspace_root) in
  let? _ := map_err from_storage_error (rs_lock_transaction st) in
  let? present := map_err from_storage_error (rs_exists st STATE_FILE_NAME) in
  fail_if present AlreadyInitialized
  (let? legacy := map_err from_storage_error (rs_exists st LEGACY_STATE_FILE_NAME) in
   fail_if legacy AlreadyInitialized
   (let s := mk_state (hex_encode random) 0 0 ∅ ∅ ∅ in
    let '(st', w) := write_authenticated_state st s key in
    let? _ := w in
    Ok (from_parts (ps_store_id s) key, st'))).

(** [DurableReplayStore::open_existing] *)
Definition open_existing (root workspace_root key : string)
    : result (DurableReplayStore * rs_t) ReplayStoreError :=
  let? _ := validate_key key in
  let? st := map_err from_storage_error (rs_open_existing root) in
  let? overlaps := map_err from_storage_error (rs_overlaps_directory st workspace_root) in
  fail_if overlaps StorageOverlapsWorkspace
  (let? _ := map_err from_storage_error (rs_lock_transaction st) in
   let? present := map_err from_storage_error (rs_exists st STATE_FILE_NAME) in
   if present then
     let? s := read_authenticated_state st key in
     let? _ := validate_store_id (ps_store_id s) in
     Ok (from_parts (ps_store_id s) key, st)
   else
     let? legacy := map_err from_storage_error (rs_exists st LEGACY_STATE_FILE_NAME) in
     Err (if legacy then UnsupportedFormat else MissingState)).

Definition set_activation (d : DurableReplayStore) (a : Activation) : DurableReplayStore :=
  mk_store (store_id d) (store_key d) (instance_lock d) a.

(** [start_epoch]: the activation left in the store shows where it stopped;
    the instance lock is dropped when the transaction fails. *)
Definition start_epoch (d : DurableReplayStore) (st : rs_t)
    : DurableReplayStore * rs_t * result N ReplayStoreError :=
  match activation d with
  | POISONED => (d, st, Err ActivationPoisoned)
  | ACTIVATING | ACTIVE => (d, st, Err AlreadyActive)
  | INACTIVE =>
      let '(st1, lock) := rs_try_lock_instance st in
      match lock with
      | Err StInstanceAlreadyActive => (set_activation d INACTIVE, st1, Err InstanceAlreadyActive)
      | Err e => (set_activation d POISONED, st1, Err (from_storage_error e))
      | Ok _ =>
          let poisoned := set_activation d POISONED in
          let '(st2, r) :=
            with_locked_state_unchecked poisoned st1 (start_epoch_txn (store_id d)) in
          match r with
          | Err e => (poisoned, rs_unlock_instance st2, Err e)
          | Ok g => (mk_store (store_id d) (store_key d) true ACTIVE, st2, Ok g)
          end
      end
  end.

Definition current_generation (d : DurableReplayStore) (st : rs_t)
    : rs_t * result N ReplayStoreError :=
  with_locked_state d st generation_txn.

Definition stored_generation (d : DurableReplayStore) (st : rs_t)
    : rs_t * result N ReplayStoreError :=
  with_locked_state_unchecked d st generation_txn.

Definition list_leases (d : DurableReplayStore) (st : rs_t)
    : rs_t * result (list LeaseSummary) ReplayStoreError :=
  with_locked_state_unchecked d st list_leases_txn.

Definition reserve (d : DurableReplayStore) (st : rs_t) (grant_nonce : Sha256Digest)
    (idempotency_key : string) (binding : LeaseBinding)
    : rs_t * result ReplayReservation ReplayStoreError :=
  or_return st (map_err InvalidBinding (binding_validate binding)) (fun _ =>
  or_return st (validate_idempotency_key idempotency_key) (fun _ =>
  or_return st (map_err ECanonical (canonical_json_v1 binding)) (fun text =>
  with_locked_state d st
    (reserve_txn (digest_str grant_nonce) (sha256_hex idempotency_key) (sha256_hex text)
       binding)))).

Definition begin_use (d : DurableReplayStore) (st : rs_t) (lease_id : LeaseId)
    (operation_id : string) (now : N) : rs_t * result ReplayUseReservation ReplayStoreError :=
  or_return st (validate_operation_id operation_id) (fun _ =>
  with_locked_state d st
    (begin_use_txn (id_str lease_id) (sha256_hex operation_id) (store_binding d) now)).

(** [validate_permit] *)
Definition validate_permit (d : DurableReplayStore) (permit : ExecutionPermit)
    : result unit ReplayStoreError :=
  fail_if (negb (String.eqb (ep_store_binding permit) (store_binding d))) ForeignPermit (Ok tt).

Definition begin_completion (d : DurableReplayStore) (st : rs_t) (permit : ExecutionPermit)
    (terminal : Sha256Digest) (disposition : TerminalDisposition)
    : rs_t * result ReplayCompletionReservation ReplayStoreError :=
  or_return st (validate_permit d permit) (fun _ =>
  with_locked_state d st (begin_completion_txn permit terminal disposition)).

Definition resume_completion (d : DurableReplayStore) (st : rs_t) (lease_id : LeaseId)
    (operation_id : string) (terminal : Sha256Digest) (disposition : TerminalDisposition)
    : rs_t * result ReplayCompletionReservation ReplayStoreError :=
  or_return st (validate_operation_id operation_id) (fun _ =>
  with_locked_state d st
    (resume_completion_txn lease_id (sha256_hex operation_id) (store_binding d) terminal
       disposition)).

Definition commit_completion (d : DurableReplayStore) (st : rs_t) (w : CompletionWitness)
    : rs_t * result unit ReplayStoreError :=
  or_return st (fail_if (negb (String.eqb (cw_store_binding w) (store_binding d)))
                  ForeignCompletionWitness (Ok tt)) (fun _ =>
  with_locked_state d st (commit_completion_txn w)).

Definition legacy_digest (d : DurableReplayStore) (permit : ExecutionPermit)
    (disposition : TerminalDisposition) : result Sha256Digest ReplayStoreError :=
  let? text := map_err ECanonical (write_canonical (VObject
    [("version", VNumber (NPos 1)); ("store_id", VString (store_id d));
     ("lease_id", to_value (ep_lease_id permit));
     ("operation_sha256", VString (ep_operation_sha256 permit));
     ("disposition", to_value disposition)])) in
  map_err (fun _ => InvalidState) (digest_from_str (hex_encode (sha256 text))).

(** [Err(CompletionConflict) => return Err(OperationAlreadyTerminal)] *)
Definition terminalize_error (e : ReplayStoreError) : ReplayStoreError :=
  match e with CompletionConflict => OperationAlreadyTerminal | e => e end.

(** [legacy_terminalize] *)
Definition legacy_terminalize (d : DurableReplayStore) (st : rs_t) (permit : ExecutionPermit)
    (disposition : TerminalDisposition) : rs_t * result unit ReplayStoreError :=
  or_return st (legacy_digest d permit disposition) (fun digest =>
  let '(st1, r) := begin_completion d st permit digest disposition in
  match r with
  | Err e => (st1, Err (terminalize_error e))
  | Ok (CNew w) | Ok (CResumed w) => commit_completion d st1 w
  | Ok (CExisting _) => (st1, Ok tt)
  end).

Definition finish_use (d : DurableReplayStore) (st : rs_t) (permit : ExecutionPermit)
    : rs_t * result unit ReplayStoreError :=
  legacy_terminalize d st permit DFinished.

Definition abandon_use (d : DurableReplayStore) (st : rs_t) (permit : ExecutionPermit)
    : rs_t * result unit ReplayStoreError :=
  legacy_terminalize d st permit DAbandoned.

Definition revoke (d : DurableReplayStore) (st : rs_t) (lease_id : LeaseId)
    : rs_t * result unit ReplayStoreError :=
  with_locked_state d st (revoke_txn (store_id d) (id_str lease_id)).
End api.
