(* ===== verification/ReplaySpec.v ===== *)
(** * What the replay ledger promises

    The transactions of [ReplayStore] as a labelled transition system over
    the persisted ledger: [exec] runs one call, [trace] a sequence of calls in
    the order the store's locks serialize them.  The ledger only grows
    ([ledger_le]); from that and from the invariant [ledger_inv] follow the
    promises a broker relies on: a nonce, an idempotency key and a use are
    consumed at most once, budgets hold, a restart ends every earlier lease,
    and a completion is final. *)

From S2P Require Import Prelude Ids External Canonical Constraints ConstraintsSpec.
From S2P Require Import Schema Verifier ReplayStore.

(** ** The transition system *)

Inductive call :=
  | KRestart (store_id : string)
  | KReserve (nonce idempotency fingerprint : string) (b : LeaseBinding)
  | KBeginUse (lease_id operation store_binding : string) (now : N)
  | KBeginCompletion (p : ExecutionPermit) (d : Sha256Digest) (x : TerminalDisposition)
  | KResume (lease_id : LeaseId) (operation store_binding : string) (d : Sha256Digest)
      (x : TerminalDisposition)
  | KCommit (w : CompletionWitness)
  | KRevoke (store_id lease_id : string)
  | KGeneration
  | KList.

Inductive response :=
  | AGeneration (g : N)
  | AReserved (r : ReplayReservation)
  | AUse (r : ReplayUseReservation)
  | ACompletion (r : ReplayCompletionReservation)
  | ADone
  | ALeases (l : list LeaseSummary).

Definition respond {T} (f : T → response) (t : Txn T) : Txn response := fun s =>
  let? (r, changed, s') := t s in Ok (f r, changed, s').

Section ledger.
Context `{X : External}.

Definition exec (c : call) : Txn response :=
  match c with
  | KRestart sid => respond AGeneration (start_epoch_txn sid)
  | KReserve n i f b => respond AReserved (reserve_txn n i f b)
  | KBeginUse l o sb now => respond AUse (begin_use_txn l o sb now)
  | KBeginCompletion p d x => respond ACompletion (begin_completion_txn p d x)
  | KResume l o sb d x => respond ACompletion (resume_completion_txn l o sb d x)
  | KCommit w => respond (fun _ => ADone) (commit_completion_txn w)
  | KRevoke sid l => respond (fun _ => ADone) (revoke_txn sid l)
  | KGeneration => respond AGeneration generation_txn
  | KList => respond ALeases list_leases_txn
  end.

Inductive trace : PersistedState → list (call * response) → PersistedState → Prop :=
  | trace_nil s : trace s [] s
  | trace_cons s c r b s1 h t :
      exec c s = Ok (r, b, s1) → trace s1 h t → trace s ((c, r) :: h) t.

Lemma respond_Ok {T} (f : T → response) (t : Txn T) s r b s' :
  respond f t s = Ok (r, b, s') ↔ ∃ x, t s = Ok (x, b, s') ∧ r = f x.
Proof.
  unfold respond. rewrite rbind_Ok. split.
  - intros ([[x b'] s''] & Ht & [= <- <- <-]). eauto.
  - intros (x & Ht & ->). by exists (x, b, s').
Qed.

Lemma bump_sequence_Ok s s' :
  bump_sequence s = Ok s' ↔
  (ps_sequence s + 1 <= u64_max)%N ∧
  s' = mk_state (ps_store_id s) (ps_broker_generation s) (ps_sequence s + 1)%N
         (ps_seen_nonce_digests s) (ps_idempotency s) (ps_leases s).
Proof.
  unfold bump_sequence. rewrite rbind_Ok. setoid_rewrite ok_or_Ok.
  setoid_rewrite checked_add_u64_Some. split.
  - intros (q & [-> ?] & [= <-]). done.
  - intros [? ->]. eauto.
Qed.

(** ** The growth order *)

Inductive use_le : PersistedUseState → PersistedUseState → Prop :=
  | ul_refl u : use_le u u
  | ul_active u : use_le UActive u
  | ul_commit d x : use_le (UCompleting d x) (terminal_state d x).

#[export] Instance use_le_preorder : PreOrder use_le.
Proof.
  split; [intros u; constructor|].
  intros u v w Huv Hvw. destruct Huv as [| |d x]; [done|constructor|].
  destruct x; inversion Hvw; subst; [apply (ul_commit d DFinished)|apply (ul_commit d DAbandoned)].
Qed.

Definition uses_le (m m' : gmap string PersistedUseState) : Prop :=
  ∀ op u, m !! op = Some u → ∃ u', m' !! op = Some u' ∧ use_le u u'.

Definition lease_le (l l' : PersistedLease) : Prop :=
  ∃ remaining us revoked, l' = set_lease_uses l remaining us revoked ∧
    (remaining <= pl_remaining_uses l)%N ∧ (pl_revoked l = true → revoked = true) ∧
    uses_le (pl_uses l) us.

Definition ledger_le (s s' : PersistedState) : Prop :=
  ps_store_id s' = ps_store_id s ∧
  (ps_broker_generation s <= ps_broker_generation s')%N ∧
  (ps_sequence s <= ps_sequence s')%N ∧
  ps_seen_nonce_digests s ⊆ ps_seen_nonce_digests s' ∧
  ps_idempotency s ⊆ ps_idempotency s' ∧
  ∀ lid l, ps_leases s !! lid = Some l →
    ∃ l', ps_leases s' !! lid = Some l' ∧ lease_le l l'.

#[export] Instance uses_le_preorder : PreOrder uses_le.
Proof.
  split; [intros m op u Hu; by exists u|].
  intros m1 m2 m3 H1 H2 op u Hu. destruct (H1 _ _ Hu) as (u2 & Hu2 & ?).
  destruct (H2 _ _ Hu2) as (u3 & Hu3 & ?). exists u3. split; [done|by etrans].
Qed.

#[export] Instance lease_le_preorder : PreOrder lease_le.
Proof.
  split.
  - intros l. exists (pl_remaining_uses l), (pl_uses l), (pl_revoked l).
    split_and!; [by destruct l|done|done|done].
  - intros l1 l2 l3 (r2 & u2 & v2 & -> & Hr2 & Hv2 & Hu2) (r3 & u3 & v3 & -> & Hr3 & Hv3 & Hu3).
    exists r3, u3, v3. simpl in *. split_and!; [done|lia|auto|by etrans].
Qed.

#[export] Instance ledger_le_preorder : PreOrder ledger_le.
Proof.
  split.
  - intros s. repeat split; try done. intros lid l Hl. by exists l.
  - intros s1 s2 s3 (I1 & G1 & Q1 & N1 & K1 & L1) (I2 & G2 & Q2 & N2 & K2 & L2).
    split_and!; [congruence|lia|lia|by etrans|by etrans|].
    intros lid l Hl. destruct (L1 _ _ Hl) as (l2 & Hl2 & ?).
    destruct (L2 _ _ Hl2) as (l3 & Hl3 & ?). exists l3. split; [done|by etrans].
Qed.

Lemma uses_insert_le m op u :
  (∀ v, m !! op = Some v → use_le v u) → uses_le m (<[op := u]> m).
Proof.
  intros Hv op' v Hop. destruct (decide (op = op')) as [->|Hne].
  - rewrite lookup_insert_eq. eauto.
  - rewrite lookup_insert_ne by done. exists v. split; [done|constructor].
Qed.

(** One lease replaced by a later form of itself, the rest grown. *)
Lemma ledger_le_insert s s' lid l' :
  ps_store_id s' = ps_store_id s →
  (ps_broker_generation s <= ps_broker_generation s')%N →
  (ps_sequence s <= ps_sequence s')%N →
  ps_seen_nonce_digests s ⊆ ps_seen_nonce_digests s' →
  ps_idempotency s ⊆ ps_idempotency s' →
  ps_leases s' = <[lid := l']> (ps_leases s) →
  (ps_leases s !! lid = None ∨ ∃ l, ps_leases s !! lid = Some l ∧ lease_le l l') →
  ledger_le s s'.
Proof.
  intros ? ? ? ? ? Heq Hl. split_and!; try done. intros lid' l0 Hl0. rewrite Heq.
  destruct (decide (lid = lid')) as [->|Hne].
  - rewrite lookup_insert_eq. destruct Hl as [Hl|(l & Hl & Hle)]; [congruence|].
    exists l'. split; [done|]. by simplify_eq.
  - rewrite lookup_insert_ne by done. by exists l0.
Qed.

(** ** Each transaction grows the ledger *)

Lemma commit_use_Ok s lid l op u s' :
  commit_use s lid l op u = Ok s' ↔
  (ps_sequence s + 1 <= u64_max)%N ∧
  s' = mk_state (ps_store_id s) (ps_broker_generation s) (ps_sequence s + 1)%N
         (ps_seen_nonce_digests s) (ps_idempotency s)
         (<[lid := set_lease_uses l (pl_remaining_uses l) (<[op := u]> (pl_uses l))
                     (pl_revoked l)]> (ps_leases s)).
Proof. unfold commit_use. by rewrite bump_sequence_Ok. Qed.

Lemma commit_use_le s lid l op v u s' :
  ps_leases s !! lid = Some l → pl_uses l !! op = Some v → use_le v u →
  commit_use s lid l op u = Ok s' → ledger_le s s'.
Proof.
  intros Hl Hv Hle [_ ->]%commit_use_Ok.
  eapply ledger_le_insert; simpl; try done; [lia|]. right. exists l. split; [exact Hl|].
  exists (pl_remaining_uses l), (<[op := u]> (pl_uses l)), (pl_revoked l).
  split_and!; try done. apply uses_insert_le.
  intros w Hw. by simplify_eq.
Qed.

Lemma abandon_active_inv f us us' op :
  abandon_active f us = Ok us' →
  match us !! op with
  | Some UActive => ∃ d, us' !! op = Some (UAbandoned d)
  | o => us' !! op = o
  end.
Proof.
  intros Ha. pose proof (btree_update_inv _ _ _ op Ha) as Hop.
  destruct (us !! op) as [u|]; [|done]. destruct Hop as (u' & Hu' & Hop).
  destruct u; inv_ok; subst; eauto.
Qed.

Lemma abandon_active_le f us us' : abandon_active f us = Ok us' → uses_le us us'.
Proof.
  intros Ha op u Hu. pose proof (abandon_active_inv _ _ _ op Ha) as Hop. rewrite Hu in Hop.
  destruct u; [destruct Hop as [d Hop]; eexists; split; [done|constructor]|by eexists..].
Qed.

Lemma abandon_active_none f us us' op : abandon_active f us = Ok us' → us' !! op ≠ Some UActive.
Proof.
  intros Ha Hop. pose proof (abandon_active_inv _ _ _ op Ha) as H. rewrite Hop in H.
  destruct (us !! op) as [[]|]; try done. by destruct H.
Qed.

(** What a restart makes of the ledger. *)
Definition restarted (s s' : PersistedState) : Prop :=
  ps_store_id s' = ps_store_id s ∧
  ps_broker_generation s' = (ps_broker_generation s + 1)%N ∧
  ps_sequence s' = (ps_sequence s + 1)%N ∧
  ps_seen_nonce_digests s' = ps_seen_nonce_digests s ∧
  ps_idempotency s' = ps_idempotency s ∧
  ∀ lid, match ps_leases s !! lid with
         | None => ps_leases s' !! lid = None
         | Some l => ∃ f us, abandon_active f (pl_uses l) = Ok us ∧
             ps_leases s' !! lid = Some (set_lease_uses l (pl_remaining_uses l) us true)
         end.

Lemma start_epoch_txn_Ok sid s g b s' :
  start_epoch_txn sid s = Ok (g, b, s') →
  b = true ∧ g = (ps_broker_generation s + 1)%N ∧ (g <= u64_max)%N ∧ restarted s s'.
Proof.
  unfold start_epoch_txn. intros H. inv_ok.
  match goal with H : checked_add_u64 _ _ = _ |- _ =>
    apply checked_add_u64_Some in H as [-> ?] end.
  match goal with H : bump_sequence _ = _ |- _ => apply bump_sequence_Ok in H as [? ->] end.
  simplify_eq. split_and!; [done|done|done|]. split_and!; try done. intros lid.
  match goal with H : btree_update _ _ = _ |- _ =>
    pose proof (btree_update_inv _ _ _ lid H) as Hlid end.
  destruct (ps_leases s !! lid) as [l|]; [|done].
  destruct Hlid as (l' & Hl' & Hlid). inv_ok. subst. simpl. eauto.
Qed.

Lemma restarted_le s s' : restarted s s' → ledger_le s s'.
Proof.
  intros (Hi & Hg & Hq & Hn & Hk & Hl). unfold ledger_le. rewrite Hi, Hg, Hq, Hn, Hk. 
  split_and!; try done; [lia|lia|]. intros lid l Hlid. specialize (Hl lid).
  rewrite Hlid in Hl. destruct Hl as (f & us & Hus & ->). eexists. split; [done|].
  exists (pl_remaining_uses l), us, true. split_and!; try done. by eapply abandon_active_le.
Qed.

(** ** What each successful transaction did *)

Lemma reserve_txn_Ok n i f bd s r b s' :
  reserve_txn n i f bd s = Ok (r, b, s') →
  (∃ e id, ps_idempotency s !! i = Some e ∧ pi_request_fingerprint_sha256 e = f ∧
     id_str id = pi_lease_id e ∧ r = RExisting id ∧ b = false ∧ s' = s) ∨
  (∃ u k, ps_idempotency s !! i = None ∧ (n ∉ ps_seen_nonce_digests s) ∧
     ps_leases s !! id_str (lb_lease_id bd) = None ∧
     lb_broker_generation bd = ps_broker_generation s ∧
     capacity_limits (capacity (uses (lb_constraints bd))) = Some (u, k) ∧
     r = RNew (lb_lease_id bd) ∧ b = true ∧ (ps_sequence s + 1 <= u64_max)%N ∧
     s' = mk_state (ps_store_id s) (ps_broker_generation s) (ps_sequence s + 1)%N
            ({[n]} ∪ ps_seen_nonce_digests s)
            (<[i := {| pi_request_fingerprint_sha256 := f;
                       pi_lease_id := id_str (lb_lease_id bd) |}]> (ps_idempotency s))
            (<[id_str (lb_lease_id bd) := mk_lease (lb_grant_id bd) (lb_action_id bd)
                 (lb_operation bd) (lb_canonical_args_sha256 bd)
                 (ea_workspace_id (lb_expected_authority bd))
                 (ea_workspace_manifest_sha256 (lb_expected_authority bd))
                 (ea_policy_sha256 (lb_expected_authority bd))
                 (lb_broker_generation bd) (lb_constraints bd) u ∅ false]> (ps_leases s))).
Proof.
  unfold reserve_txn. intros H. apply fail_if_Ok in H as [Hg H].
  apply orb_false_iff in Hg as [_ Hg%negb_false_iff%N.eqb_eq].
  destruct (ps_idempotency s !! i) as [e|] eqn:Hi.
  - destruct (String.eqb_spec (pi_request_fingerprint_sha256 e) f) as [Hf|]; [|done].
    inv_ok. simplify_eq. left.
    match goal with H : id_from_str _ _ = _ |- _ => apply id_from_str_Ok in H end. eauto 10.
  - apply fail_if_Ok in H as [Hn%bool_decide_eq_false H].
    apply fail_if_Ok in H as [Hl%bool_decide_eq_false%eq_None_not_Some H].
    apply rbind_Ok in H as ([u k] & Hc%ok_or_Ok & H).
    apply rbind_Ok in H as (s1 & [Hq ->]%bump_sequence_Ok & [= <- <- <-]).
    right. exists u, k. split_and!; done.
Qed.

Lemma begin_use_txn_Ok lid op sb now s r b s' :
  begin_use_txn lid op sb now s = Ok (r, b, s') →
  ∃ l, ps_leases s !! lid = Some l ∧ pl_revoked l = false ∧
    pl_broker_generation l = ps_broker_generation s ∧
    active_at (time (pl_constraints l)) now = true ∧
    ((∃ u, pl_uses l !! op = Some u ∧ r = UExisting (use_state_view u) ∧ b = false ∧ s' = s) ∨
     (∃ m k id, pl_uses l !! op = None ∧
        capacity (uses (pl_constraints l)) = CapacityBounded m k ∧
        pl_remaining_uses l ≠ 0%N ∧
        (N.of_nat (count_values use_in_flight (pl_uses l)) < k)%N ∧
        id_str id = lid ∧ r = UNew (permit_of id (ps_broker_generation s) l op sb) ∧
        b = true ∧ (ps_sequence s + 1 <= u64_max)%N ∧
        s' = mk_state (ps_store_id s) (ps_broker_generation s) (ps_sequence s + 1)%N
               (ps_seen_nonce_digests s) (ps_idempotency s)
               (<[lid := set_lease_uses l (pl_remaining_uses l - 1)
                    (<[op := UActive]> (pl_uses l)) (pl_revoked l)]> (ps_leases s)))).
Proof.
  unfold begin_use_txn. intros H.
  apply rbind_Ok in H as (l & Hl%ok_or_Ok & H). exists l.
  apply fail_if_Ok in H as [[Hr Hg%negb_false_iff%N.eqb_eq]%orb_false_iff H].
  apply fail_if_Ok in H as [[Hnb%N.ltb_ge Hex%N.leb_gt]%orb_false_iff H].
  assert (active_at (time (pl_constraints l)) now = true) as Ha.
  { unfold active_at. by rewrite andb_true_iff, N.leb_le, N.ltb_lt. }
  split_and!; try done. destruct (pl_uses l !! op) as [u|] eqn:Hop.
  - left. simplify_eq. eauto.
  - right. destruct (capacity _) as [|m k] eqn:Hc; [done|].
    apply fail_if_Ok in H as [[Hm%N.eqb_neq Hk%N.leb_gt]%orb_false_iff H].
    apply rbind_Ok in H as (s1 & [Hq ->]%bump_sequence_Ok & H).
    apply rbind_Ok in H as (id & Hid%map_err_Ok%id_from_str_Ok & [= <- <- <-]).
    exists m, k, id. split_and!; done.
Qed.

Lemma same_pending_true u d x : same_pending u d x = true ↔ u = UCompleting d x.
Proof.
  destruct u; simpl; try (split; [done|discriminate]).
  rewrite andb_true_iff, !bool_decide_eq_true. naive_solver.
Qed.

Lemma same_terminal_true u d x : same_terminal u d x = true ↔ u = terminal_state d x.
Proof.
  destruct u, x; simpl; rewrite ?bool_decide_eq_true; split; congruence.
Qed.

Lemma begin_completion_txn_Ok p d x s r b s' :
  begin_completion_txn p d x s = Ok (r, b, s') →
  ∃ l u, ps_leases s !! id_str (ep_lease_id p) = Some l ∧ pl_revoked l = false ∧
    ep_broker_generation p = ps_broker_generation s ∧
    pl_broker_generation l = ep_broker_generation p ∧
    pl_uses l !! ep_operation_sha256 p = Some u ∧
    ((u = UActive ∧ b = true ∧ r = CNew (witness_of p d x) ∧
        commit_use s (id_str (ep_lease_id p)) l (ep_operation_sha256 p) (UCompleting d x)
          = Ok s') ∨
     (b = false ∧ s' = s ∧ ((u = UCompleting d x ∧ r = CResumed (witness_of p d x)) ∨
        (u = terminal_state d x ∧ r = CExisting (terminal_view x))))).
Proof.
  unfold begin_completion_txn. intros H.
  apply fail_if_Ok in H as [Hg%negb_false_iff%N.eqb_eq H].
  apply rbind_Ok in H as (l & Hl%ok_or_Ok & H).
  apply fail_if_Ok in H as [[Hr Hlg%negb_false_iff%N.eqb_eq]%orb_false_iff H].
  apply rbind_Ok in H as (u & Hu%ok_or_Ok & H). exists l, u. split_and!; try done.
  destruct (decide (u = UActive)) as [->|Hna].
  - apply rbind_Ok in H as (s1 & Hc & [= <- <- <-]). left. eauto.
  - right. destruct (same_pending u d x) eqn:Hp; [|destruct (same_terminal u d x) eqn:Ht];
      rewrite ?same_pending_true, ?same_terminal_true in *;
      destruct u; simplify_eq/=; eauto 10; destruct x; simplify_eq/=; eauto 10.
Qed.

Lemma commit_completion_txn_Ok w s r b s' :
  commit_completion_txn w s = Ok (r, b, s') →
  ∃ l u, ps_leases s !! id_str (cw_lease_id w) = Some l ∧
    cw_broker_generation w = pl_broker_generation l ∧
    pl_uses l !! cw_operation_sha256 w = Some u ∧
    ((u = UCompleting (cw_terminal_record_sha256 w) (cw_disposition w) ∧ b = true ∧
        commit_use s (id_str (cw_lease_id w)) l (cw_operation_sha256 w)
          (terminal_state (cw_terminal_record_sha256 w) (cw_disposition w)) = Ok s') ∨
     (u = terminal_state (cw_terminal_record_sha256 w) (cw_disposition w) ∧ b = false ∧
        s' = s)).
Proof.
  unfold commit_completion_txn. intros H.
  apply rbind_Ok in H as (l & Hl%ok_or_Ok & H).
  apply fail_if_Ok in H as [Hg%negb_false_iff%N.eqb_eq H].
  apply rbind_Ok in H as (u & Hu%ok_or_Ok & H). exists l, u. split_and!; try done.
  destruct (same_pending _ _ _) eqn:Hp.
  - apply same_pending_true in Hp. apply rbind_Ok in H as (s1 & Hc & [= <- <- <-]). auto.
  - destruct (same_terminal _ _ _) eqn:Ht; [|done]. apply same_terminal_true in Ht.
    simplify_eq. auto.
Qed.

(** A committed use is in its terminal state. *)
Lemma commit_completion_result w s r b s' :
  commit_completion_txn w s = Ok (r, b, s') →
  ∃ l, ps_leases s' !! id_str (cw_lease_id w) = Some l ∧
     pl_uses l !! cw_operation_sha256 w =
       Some (terminal_state (cw_terminal_record_sha256 w) (cw_disposition w)).
Proof.
  intros (l & v & Hl & _ & Hv & [(_ & _ & [_ ->]%commit_use_Ok)|(-> & _ & ->)])
    %commit_completion_txn_Ok; [|eauto].
  simpl. eexists. rewrite lookup_insert_eq. split; [done|]. simpl. by rewrite lookup_insert_eq.
Qed.

Lemma resume_completion_txn_Ok lid op sb d x s r b s' :
  resume_completion_txn lid op sb d x s = Ok (r, b, s') → b = false ∧ s' = s.
Proof.
  unfold resume_completion_txn. intros H.
  apply rbind_Ok in H as (l & _ & H). apply rbind_Ok in H as (u & _ & H).
  destruct (same_pending _ _ _); [by simplify_eq|].
  destruct (same_terminal _ _ _); by simplify_eq.
Qed.

Lemma revoke_txn_Ok sid lid s r b s' :
  revoke_txn sid lid s = Ok (r, b, s') →
  ∃ l, ps_leases s !! lid = Some l ∧
    ((pl_revoked l = true ∧ b = false ∧ s' = s) ∨
     (∃ f us, pl_revoked l = false ∧ b = true ∧ abandon_active f (pl_uses l) = Ok us ∧
        s' = mk_state (ps_store_id s) (ps_broker_generation s) (ps_sequence s + 1)%N
               (ps_seen_nonce_digests s) (ps_idempotency s)
               (<[lid := set_lease_uses l (pl_remaining_uses l) us true]> (ps_leases s)))).
Proof.
  unfold revoke_txn. intros H. apply rbind_Ok in H as (l & Hl%ok_or_Ok & H). exists l.
  split; [done|]. destruct (pl_revoked l) eqn:Hr; [left; by simplify_eq|right].
  apply rbind_Ok in H as (us & Hus & H).
  apply rbind_Ok in H as (s1 & [_ ->]%bump_sequence_Ok & [= <- <- <-]). eauto 10.
Qed.

(** Every transaction grows the ledger; one that writes nothing leaves it. *)
Lemma exec_le c s r b s' : exec c s = Ok (r, b, s') → ledger_le s s'.
Proof.
  destruct c; intros (y & H & ->)%respond_Ok.
  - apply start_epoch_txn_Ok in H as (_ & _ & _ & H). by apply restarted_le.
  - apply reserve_txn_Ok in H as [(e & id & _ & _ & _ & _ & _ & ->)
      |(u & k & Hi & _ & Hl & _ & _ & _ & _ & _ & ->)]; [done|].
    eapply ledger_le_insert; simpl; try done; [lia|set_solver| |by left].
    by apply insert_subseteq.
  - apply begin_use_txn_Ok in H as (l & Hl & _ & _ & _ & [(u & _ & _ & _ & ->)
      |(m & k & id & Hop & _ & _ & _ & _ & _ & _ & _ & ->)]); [done|].
    eapply ledger_le_insert; simpl; try done; [lia|]. right. exists l. split; [exact Hl|].
    eexists _, _, _. split_and!; [reflexivity|lia|done|].
    apply uses_insert_le. intros v Hv. congruence.
  - apply begin_completion_txn_Ok in H as (l & u & Hl & _ & _ & _ & Hu &
      [(-> & _ & _ & Hc)|(_ & -> & _)]); [|done].
    eapply commit_use_le; eauto. constructor.
  - by apply resume_completion_txn_Ok in H as [_ ->].
  - apply commit_completion_txn_Ok in H as (l & u & Hl & _ & Hu &
      [(-> & _ & Hc)|(_ & _ & ->)]); [|done].
    eapply commit_use_le; eauto. constructor.
  - apply revoke_txn_Ok in H as (l & Hl & [(_ & _ & ->)|(f & us & _ & _ & Hus & ->)]); [done|].
    eapply ledger_le_insert; simpl; try done; [lia|]. right. exists l. split; [exact Hl|].
    eexists _, _, _. split_and!; [reflexivity|done|done|]. by eapply abandon_active_le.
  - unfold generation_txn in H. by simplify_eq.
  - unfold list_leases_txn in H. inv_ok. by simplify_eq.
Qed.

Lemma exec_unchanged c s r s' : exec c s = Ok (r, false, s') → s' = s.
Proof.
  destruct c; intros (y & H & ->)%respond_Ok.
  - by apply start_epoch_txn_Ok in H as (? & _).
  - apply reserve_txn_Ok in H as [(? & ? & _ & _ & _ & _ & _ & ->)
      |(? & ? & _ & _ & _ & _ & _ & _ & ? & _)]; done.
  - by apply begin_use_txn_Ok in H as (? & _ & _ & _ & _ & [(? & _ & _ & _ & ->)
      |(? & ? & ? & _ & _ & _ & _ & _ & _ & ? & _)]).
  - by apply begin_completion_txn_Ok in H as (? & ? & _ & _ & _ & _ & _ &
      [(_ & ? & _)|(_ & -> & _)]).
  - by apply resume_completion_txn_Ok in H as [_ ->].
  - by apply commit_completion_txn_Ok in H as (? & ? & _ & _ & _ & [(_ & ? & _)|(_ & _ & ->)]).
  - by apply revoke_txn_Ok in H as (? & _ & [(_ & _ & ->)|(? & ? & _ & ? & _)]).
  - unfold generation_txn in H. by simplify_eq.
  - unfold list_leases_txn in H. inv_ok. by simplify_eq.
Qed.

Lemma trace_app s h t h' u : trace s h t → trace t h' u → trace s (h ++ h') u.
Proof. induction 1; simpl; [done|]. intros. econstructor; eauto. Qed.

Lemma trace_le s h t : trace s h t → ledger_le s t.
Proof. induction 1 as [|s c r b s1 h t Hc _ IH]; [done|]. etrans; [by eapply exec_le|done]. Qed.

(** ** The ledger invariant *)

Definition lease_budget (l : PersistedLease) : Prop :=
  ∃ m k, capacity (uses (pl_constraints l)) = CapacityBounded m k ∧
    (pl_remaining_uses l + N.of_nat (size (pl_uses l)) = m)%N ∧
    (N.of_nat (count_values use_in_flight (pl_uses l)) <= k)%N.

Definition no_active (m : gmap string PersistedUseState) : Prop :=
  ∀ op, m !! op ≠ Some UActive.

Definition lease_inv (generation : N) (lid : string) (l : PersistedLease) : Prop :=
  (∃ id : LeaseId, id_str id = lid) ∧ lease_budget l ∧
  (pl_broker_generation l <= generation)%N ∧
  ((pl_broker_generation l < generation)%N → pl_revoked l = true) ∧
  (pl_revoked l = true → no_active (pl_uses l)).

Definition ledger_inv (s : PersistedState) : Prop :=
  (∀ lid l, ps_leases s !! lid = Some l → lease_inv (ps_broker_generation s) lid l) ∧
  size (ps_seen_nonce_digests s) = size (ps_leases s) ∧
  size (ps_idempotency s) = size (ps_leases s) ∧
  (∀ i e, ps_idempotency s !! i = Some e → is_Some (ps_leases s !! pi_lease_id e)).

(** The ledger written by [bootstrap]. *)
Definition empty_ledger (id : string) : PersistedState := mk_state id 0 0 ∅ ∅ ∅.

Lemma empty_ledger_inv id : ledger_inv (empty_ledger id).
Proof.
  split_and!; simpl; [intros lid l H|done|done|intros i e H];
    by rewrite lookup_empty in H.
Qed.

Lemma budget_same_keys l us v :
  lease_budget l → dom us = dom (pl_uses l) →
  (count_values use_in_flight us <= count_values use_in_flight (pl_uses l))%nat →
  lease_budget (set_lease_uses l (pl_remaining_uses l) us v).
Proof.
  intros (m & k & Hc & Hm & Hk) Hd Hle. exists m, k. simpl. split_and!; [done| |lia].
  rewrite <- size_dom, Hd, size_dom. done.
Qed.

Lemma abandon_in_flight f us us' :
  abandon_active f us = Ok us' →
  (count_values use_in_flight us' <= count_values use_in_flight us)%nat.
Proof.
  intros Ha. apply count_values_mono. intros op u' Hu' Hp.
  pose proof (abandon_active_inv _ _ _ op Ha) as Hop. rewrite Hu' in Hop.
  destruct (us !! op) as [u|]; [|congruence]. exists u. split; [done|].
  destruct u; [destruct Hop|..]; simplify_eq; done.
Qed.

Lemma abandon_lease_inv f g g' lid l us :
  lease_inv g lid l → abandon_active f (pl_uses l) = Ok us → (g <= g')%N →
  lease_inv g' lid (set_lease_uses l (pl_remaining_uses l) us true).
Proof.
  intros (Hid & Hb & Hg & _ & _) Ha Hle. split_and!; simpl; try done; [|lia|].
  - apply budget_same_keys; [done|by eapply btree_update_dom|by eapply abandon_in_flight].
  - intros _ op. by eapply abandon_active_none.
Qed.

Lemma commit_use_inv s lid l op v u s' :
  ledger_inv s → ps_leases s !! lid = Some l → pl_uses l !! op = Some v →
  (use_in_flight u = true → use_in_flight v = true) → u ≠ UActive →
  commit_use s lid l op u = Ok s' → ledger_inv s'.
Proof.
  intros (Hl & Hn & Hi & Hx) Hlid Hop Hf Hna [_ ->]%commit_use_Ok.
  split_and!; simpl.
  - intros lid' l' [[<- <-]|[Hne Hl']]%lookup_insert_Some; [|by apply Hl].
    destruct (Hl _ _ Hlid) as (Hid & Hb & Hg & Hold & Hrev).
    split_and!; simpl; try done.
    + apply budget_same_keys; [done| |].
      * rewrite dom_insert_L. assert (op ∈ dom (pl_uses l)) by (by eapply elem_of_dom_2).
        set_solver.
      * apply count_values_mono. intros op' u' [[<- <-]|[_ Hu']]%lookup_insert_Some Hp; eauto.
    + intros Hr op' Hop'. apply lookup_insert_Some in Hop' as [[_ ?]|[_ Hop']]; [done|].
      by apply (Hrev Hr op').
  - by rewrite map_size_insert_Some by (by eexists).
  - by rewrite map_size_insert_Some by (by eexists).
  - intros i e He. apply lookup_insert_is_Some'. right. eauto.
Qed.

Lemma restarted_inv s s' : restarted s s' → ledger_inv s → ledger_inv s'.
Proof.
  intros (_ & Hg & _ & Hn & Hk & Hr) (Hl & Hsn & Hsi & Hx).
  assert (dom (ps_leases s') = dom (ps_leases s)) as Hd.
  { apply set_eq. intros lid. rewrite !elem_of_dom. specialize (Hr lid).
    destruct (ps_leases s !! lid); [destruct Hr as (? & ? & _ & ->)|rewrite Hr]; split; eauto;
      intros [? [=]]. }
  assert (size (ps_leases s') = size (ps_leases s)) as Hs by (by rewrite <- !size_dom, Hd).
  split_and!; rewrite ?Hn, ?Hk, ?Hs; try done.
  - intros lid l' Hl'. specialize (Hr lid). destruct (ps_leases s !! lid) as [l|] eqn:E;
      [|congruence]. destruct Hr as (f & us & Hus & Hr). rewrite Hr in Hl'. injection Hl' as <-.
    eapply abandon_lease_inv; [by apply Hl|done|lia].
  - intros i e He. apply elem_of_dom. rewrite Hd. apply elem_of_dom. eauto.
Qed.

Lemma reserve_inv n i f bd s r b s' :
  ledger_inv s → reserve_txn n i f bd s = Ok (r, b, s') → ledger_inv s'.
Proof.
  intros Hinv [(? & ? & _ & _ & _ & _ & _ & ->)
    |(u & k & Hi & Hn & Hl & Hg & Hc & _ & _ & _ & ->)]%reserve_txn_Ok; [done|].
  destruct Hinv as (Hls & Hsn & Hsi & Hx). split_and!; simpl.
  - intros lid l [[<- <-]|[_ Hlid]]%lookup_insert_Some; [|by apply Hls].
    split_and!; simpl; [by eexists| |lia|lia|done].
    destruct (capacity _) as [|m k'] eqn:E; [done|]. injection Hc as -> ->.
    exists u, k. split_and!; [done| |].
    + change (u + N.of_nat 0 = u)%N. lia.
    + pose proof (count_values_le use_in_flight (∅ : gmap string PersistedUseState)) as H0.
      change (count_values use_in_flight (∅ : gmap string PersistedUseState) <= 0)%nat in H0.
      simpl. lia.
  - rewrite size_union by set_solver. rewrite size_singleton, map_size_insert_None by done. lia.
  - rewrite !map_size_insert_None by done. lia.
  - intros i' e [[<- <-]|[_ He]]%lookup_insert_Some; apply lookup_insert_is_Some'; simpl; eauto.
Qed.

Lemma begin_use_inv lid op sb now s r b s' :
  ledger_inv s → begin_use_txn lid op sb now s = Ok (r, b, s') → ledger_inv s'.
Proof.
  intros Hinv (l & Hl & Hr & Hg & _ & [(? & _ & _ & _ & ->)
    |(m & k & id & Hop & Hc & Hm & Hk & Hid & _ & _ & _ & ->)])%begin_use_txn_Ok; [done|].
  destruct Hinv as (Hls & Hsn & Hsi & Hx). split_and!; simpl.
  - intros lid' l' [[<- <-]|[_ Hlid]]%lookup_insert_Some; [|by apply Hls].
    destruct (Hls _ _ Hl) as (_ & (m' & k' & Hc' & Hb & Hf) & Hle & Hold & _).
    split_and!; simpl; [by eexists| |done|done|congruence].
    rewrite Hc in Hc'. injection Hc' as <- <-. exists m, k. split_and!; [done| |].
    + simpl. rewrite map_size_insert_None by done. lia.
    + simpl. rewrite count_values_insert by done. simpl. lia.
  - by rewrite map_size_insert_Some by (by eexists).
  - by rewrite map_size_insert_Some by (by eexists).
  - intros i e He. apply lookup_insert_is_Some'. right. eauto.
Qed.

Lemma revoke_inv sid lid s r b s' :
  ledger_inv s → revoke_txn sid lid s = Ok (r, b, s') → ledger_inv s'.
Proof.
  intros Hinv (l & Hl & [(_ & _ & ->)|(f & us & _ & _ & Hus & ->)])%revoke_txn_Ok; [done|].
  destruct Hinv as (Hls & Hsn & Hsi & Hx). split_and!; simpl.
  - intros lid' l' [[<- <-]|[_ Hlid]]%lookup_insert_Some; [|by apply Hls].
    eapply abandon_lease_inv; [by apply Hls|done|lia].
  - by rewrite map_size_insert_Some by (by eexists).
  - by rewrite map_size_insert_Some by (by eexists).
  - intros i e He. apply lookup_insert_is_Some'. right. eauto.
Qed.

Lemma exec_inv c s r b s' : ledger_inv s → exec c s = Ok (r, b, s') → ledger_inv s'.
Proof.
  intros Hinv. destruct c; intros (y & H & ->)%respond_Ok.
  - apply start_epoch_txn_Ok in H as (_ & _ & _ & H). by eapply restarted_inv.
  - by eapply reserve_inv.
  - by eapply begin_use_inv.
  - apply begin_completion_txn_Ok in H as (l & u & Hl & _ & _ & _ & Hu &
      [(-> & _ & _ & Hc)|(_ & -> & _)]); [|done].
    by refine (commit_use_inv _ _ _ _ _ _ _ Hinv Hl Hu _ _ Hc).
  - by apply resume_completion_txn_Ok in H as [_ ->].
  - apply commit_completion_txn_Ok in H as (l & u & Hl & _ & Hu &
      [(-> & _ & Hc)|(_ & _ & ->)]); [|done].
    refine (commit_use_inv _ _ _ _ _ _ _ Hinv Hl Hu _ _ Hc); by destruct (cw_disposition w).
  - by eapply revoke_inv.
  - unfold generation_txn in H. by simplify_eq.
  - unfold list_leases_txn in H. inv_ok. by simplify_eq.
Qed.

Lemma trace_inv s h t : trace s h t → ledger_inv s → ledger_inv t.
Proof. induction 1 as [|s c r b s1 h t Hc _ IH]; [done|]. eauto using exec_inv. Qed.

(** ** What a history granted *)

(** The operations for which a response minted a permit on lease [lid]. *)
Definition granted_op (lid : string) (r : response) : list string :=
  match r with
  | AUse (UNew p) =>
      if String.eqb (id_str (ep_lease_id p)) lid then [ep_operation_sha256 p] else []
  | _ => []
  end.

Definition granted_ops (lid : string) (h : list (call * response)) : list string :=
  flat_map (fun e => granted_op lid e.2) h.

(** The operations recorded on a lease. *)
Definition used (s : PersistedState) (lid : string) : gset string :=
  match ps_leases s !! lid with Some l => dom (pl_uses l) | None => ∅ end.

Lemma used_insert s lid l l' s' :
  ps_leases s' = <[lid := l']> (ps_leases s) → ps_leases s !! lid = Some l →
  dom (pl_uses l') = dom (pl_uses l) → ∀ lid', used s' lid' = used s lid'.
Proof.
  intros Heq Hl Hd lid'. unfold used. rewrite Heq. destruct (decide (lid = lid')) as [->|].
  - by rewrite lookup_insert_eq, Hl.
  - by rewrite lookup_insert_ne.
Qed.

Lemma commit_use_used s lid l op v u s' lid' :
  ps_leases s !! lid = Some l → pl_uses l !! op = Some v →
  commit_use s lid l op u = Ok s' → used s' lid' = used s lid'.
Proof.
  intros Hl Hop [_ ->]%commit_use_Ok. eapply used_insert; simpl; [done|done|].
  simpl. rewrite dom_insert_L. apply elem_of_dom_2 in Hop. set_solver.
Qed.

(** A call records exactly the operations it grants, and only new ones. *)
Lemma exec_used c s r b s' lid :
  exec c s = Ok (r, b, s') →
  used s' lid = used s lid ∪ list_to_set (granted_op lid r) ∧
  (∀ op, op ∈ granted_op lid r → op ∉ used s lid).
Proof.
  assert (∀ s', used s' lid = used s lid → granted_op lid r = [] →
    used s' lid = used s lid ∪ list_to_set (granted_op lid r) ∧
    (∀ op, op ∈ granted_op lid r → op ∉ used s lid)) as Hsame.
  { intros t Hu ->. split; [set_solver|]. intros op Hop. by apply not_elem_of_nil in Hop. }
  destruct c; intros (y & H & ->)%respond_Ok.
  - apply start_epoch_txn_Ok in H as (_ & _ & _ & (_ & _ & _ & _ & _ & H)).
    apply Hsame; [|done]. unfold used. specialize (H lid).
    destruct (ps_leases s !! lid) as [l|]; [|by rewrite H].
    destruct H as (f & us & Hus & ->). simpl. by eapply btree_update_dom.
  - apply reserve_txn_Ok in H as [(e & id & _ & _ & _ & _ & _ & ->)
      |(u & k & _ & _ & Hl & _ & _ & _ & _ & _ & ->)]; [by apply Hsame|].
    apply Hsame; [|done]. unfold used; simpl.
    destruct (decide (id_str (lb_lease_id b0) = lid)) as [<-|].
    + rewrite lookup_insert_eq, Hl. simpl. by rewrite dom_empty_L.
    + by rewrite lookup_insert_ne.
  - apply begin_use_txn_Ok in H as (l & Hl & _ & _ & _ & [(u & _ & -> & _ & ->)
      |(m & k & id & Hop & _ & _ & _ & Hid & -> & _ & _ & ->)]); [by apply Hsame|].
    simpl. rewrite Hid. unfold used; simpl.
    destruct (String.eqb_spec lease_id lid) as [->|Hne].
    + rewrite lookup_insert_eq, Hl. simpl. rewrite dom_insert_L. split; [set_solver|].
      intros op' ->%list_elem_of_singleton. by apply not_elem_of_dom.
    + rewrite lookup_insert_ne by done. simpl. split; [set_solver|].
      intros op' Hop'. by apply not_elem_of_nil in Hop'.
  - apply begin_completion_txn_Ok in H as (l & u & Hl & _ & _ & _ & Hu &
      [(-> & _ & _ & Hc)|(_ & -> & _)]); [|by apply Hsame].
    apply Hsame; [by eapply commit_use_used|done].
  - apply resume_completion_txn_Ok in H as [_ ->]. by apply Hsame.
  - apply commit_completion_txn_Ok in H as (l & u & Hl & _ & Hu &
      [(-> & _ & Hc)|(_ & _ & ->)]); [|by apply Hsame].
    apply Hsame; [by eapply commit_use_used|done].
  - apply revoke_txn_Ok in H as (l & Hl & [(_ & _ & ->)|(f & us & _ & _ & Hus & ->)]);
      [by apply Hsame|]. apply Hsame; [|done].
    eapply used_insert; simpl; [done|done|]. by eapply btree_update_dom.
  - unfold generation_txn in H. simplify_eq. by apply Hsame.
  - unfold list_leases_txn in H. inv_ok. simplify_eq. by apply Hsame.
Qed.

Lemma trace_used s h t lid :
  trace s h t →
  NoDup (granted_ops lid h) ∧
  (∀ op, op ∈ granted_ops lid h → op ∉ used s lid) ∧
  used t lid = used s lid ∪ list_to_set (granted_ops lid h).
Proof.
  induction 1 as [s|s c r b s1 h t Hc _ (Hnd & Hnew & Hu)]; simpl.
  { split_and!; [constructor|intros op Hop; by apply not_elem_of_nil in Hop|set_solver]. }
  destruct (exec_used c s r b s1 lid Hc) as [Hu1 Hn1]. rewrite Hu1 in Hnew, Hu.
  split_and!.
  - apply NoDup_app. split_and!; [|intros op Hop Hop'; specialize (Hnew op Hop'); set_solver|done].
    destruct r as [| |[p|]| | |]; simpl; try constructor.
    destruct (String.eqb _ _); [apply NoDup_singleton|constructor].
  - intros op [Hop|Hop]%elem_of_app; [by apply Hn1|]. specialize (Hnew op Hop). set_solver.
  - rewrite Hu, list_to_set_app_L. by rewrite (assoc_L (∪)).
Qed.

(** Running a list of calls that all succeed. *)
Fixpoint run_calls (s : PersistedState) (cs : list call)
    : result (list (call * response) * PersistedState) ReplayStoreError :=
  match cs with
  | [] => Ok ([], s)
  | c :: cs' =>
      let? (r, _, s1) := exec c s in
      let? (h, t) := run_calls s1 cs' in
      Ok ((c, r) :: h, t)
  end.

Lemma run_calls_trace s cs h t : run_calls s cs = Ok (h, t) → trace s h t.
Proof.
  revert s h. induction cs as [|c cs IH]; intros s h Hr; simpl in Hr.
  { injection Hr as <- <-. constructor. }
  apply rbind_Ok in Hr as ([[r b] s1] & Hc & Hr).
  apply rbind_Ok in Hr as ([h' t'] & Hr & [= <- <-]). econstructor; eauto.
Qed.

(** ** Properties *)

(** C2: one permit per operation: whatever calls are made, in whatever
    order and across restarts, no operation of a lease is granted twice, and
    none that the ledger already recorded is granted at all. *)
Theorem permit_at_most_once s h t lid :
  trace s h t →
  NoDup (granted_ops lid h) ∧
  ∀ op l u, op ∈ granted_ops lid h → ps_leases s !! lid = Some l → pl_uses l !! op ≠ Some u.
Proof.
  intros H. destruct (trace_used s h t lid H) as (Hnd & Hnew & _). split; [done|].
  intros op l u Hop Hl Hu. apply (Hnew op Hop). unfold used. rewrite Hl.
  by eapply elem_of_dom_2.
Qed.

(** C30: the use budget is exact: from a bootstrapped store, the permits ever
    granted on a lease plus its remaining uses are its grant's [max_uses],
    and at no time are more than [max_concurrent_uses] in flight. *)
Theorem lease_budget_exact id h t lid l :
  trace (empty_ledger id) h t → ps_leases t !! lid = Some l →
  ∃ m k, capacity (uses (pl_constraints l)) = CapacityBounded m k ∧
    (pl_remaining_uses l + N.of_nat (length (granted_ops lid h)) = m)%N ∧
    (N.of_nat (count_values use_in_flight (pl_uses l)) <= k)%N.
Proof.
  intros H Hl. destruct (trace_inv _ _ _ H (empty_ledger_inv id)) as [Hls _].
  destruct (Hls _ _ Hl) as (_ & (m & k & Hc & Hm & Hk) & _). exists m, k.
  split_and!; try done. rewrite <- Hm. do 2 f_equal.
  destruct (trace_used _ _ _ lid H) as (Hnd & _ & Hu). unfold used in Hu.
  simpl in Hu. rewrite Hl, lookup_empty in Hu. rewrite (left_id_L ∅ (∪)) in Hu.
  rewrite <- size_dom, Hu. symmetry. by apply size_list_to_set.
Qed.

(** C31: a broker restart ends every lease that existed: afterwards, in any
    continuation, none of them yields a permit, none has an active use, and
    pending completions are kept for recovery. *)
Theorem restart_ends_leases sid s g b s1 h t lid l :
  exec (KRestart sid) s = Ok (AGeneration g, b, s1) → trace s1 h t →
  ps_leases s !! lid = Some l →
  g = (ps_broker_generation s + 1)%N ∧ granted_ops lid h = [] ∧
  ∃ l', ps_leases s1 !! lid = Some l' ∧ pl_revoked l' = true ∧ no_active (pl_uses l') ∧
    ∀ op d x, pl_uses l !! op = Some (UCompleting d x) → pl_uses l' !! op = Some (UCompleting d x).
Proof.
  intros (y & He & [= <-])%respond_Ok Ht Hl.
  apply start_epoch_txn_Ok in He as (_ & -> & _ & (_ & _ & _ & _ & _ & Hr)).
  specialize (Hr lid). rewrite Hl in Hr. destruct Hr as (f & us & Hus & Hl1).
  split; [done|]. split.
  - assert (∀ s h t, trace s h t →
      ∀ l, ps_leases s !! lid = Some l → pl_revoked l = true → granted_ops lid h = [])
      as Hnone; [|by eapply Hnone].
    induction 1 as [|s0 c r b0 s2 h0 t0 Hc _ IH]; intros l0 Hl0 Hr0; [done|]. simpl.
    destruct (exec_le _ _ _ _ _ Hc) as (_ & _ & _ & _ & _ & Hle).
    destruct (Hle _ _ Hl0) as (l2 & Hl2 & (? & ? & ? & -> & _ & Hrev & _)).
    rewrite (IH _ Hl2 (Hrev Hr0)), app_nil_r.
    destruct c; try (apply respond_Ok in Hc as (y & _ & ->); done).
    apply respond_Ok in Hc as (y & Hb & ->).
    apply begin_use_txn_Ok in Hb as (l3 & Hl3 & Hr3 & _ & _ & [(? & _ & -> & _)
      |(? & ? & id & _ & _ & _ & _ & Hid & -> & _)]); [done|]. simpl. rewrite Hid.
    destruct (String.eqb_spec lease_id lid); [congruence|done].
  - eexists. split; [exact Hl1|]. simpl. split_and!; [done| |].
    + intros op. by eapply abandon_active_none.
    + intros op d x Hop. pose proof (abandon_active_inv _ _ _ op Hus) as Ho.
      by rewrite Hop in Ho.
Qed.

(** a completion is final: once a commit of a terminal record has
    succeeded, that use keeps exactly that record and disposition for ever,
    and committing any other record for it is refused. *)
Theorem completion_final w s b s1 h t w' :
  exec (KCommit w) s = Ok (ADone, b, s1) → trace s1 h t →
  (∃ l, ps_leases t !! id_str (cw_lease_id w) = Some l ∧
     pl_uses l !! cw_operation_sha256 w =
       Some (terminal_state (cw_terminal_record_sha256 w) (cw_disposition w))) ∧
  (cw_lease_id w' = cw_lease_id w → cw_operation_sha256 w' = cw_operation_sha256 w →
   (cw_terminal_record_sha256 w', cw_disposition w') ≠
     (cw_terminal_record_sha256 w, cw_disposition w) →
   ∃ e, exec (KCommit w') t = Err e).
Proof.
  intros (y & He & _)%respond_Ok Ht.
  set (u := terminal_state (cw_terminal_record_sha256 w) (cw_disposition w)).
  assert (∃ l, ps_leases s1 !! id_str (cw_lease_id w) = Some l ∧
     pl_uses l !! cw_operation_sha256 w = Some u) as (l1 & Hl1 & Hu1).
  { by eapply commit_completion_result. }
  assert (∃ l, ps_leases t !! id_str (cw_lease_id w) = Some l ∧
     pl_uses l !! cw_operation_sha256 w = Some u) as (l & Hl & Hu).
  { destruct (trace_le _ _ _ Ht) as (_ & _ & _ & _ & _ & Hle).
    destruct (Hle _ _ Hl1) as (l & Hl & (? & us & ? & -> & _ & _ & Hus)).
    destruct (Hus _ _ Hu1) as (v & Hv & Huv). eexists. split; [exact Hl|]. simpl.
    rewrite Hv. f_equal. subst u. destruct (cw_disposition w); by inversion Huv. }
  split; [eauto|]. intros Hlid Hop Hne.
  destruct (exec (KCommit w') t) as [[[r b'] t']|e] eqn:Hc; [|eauto]. exfalso.
  apply respond_Ok in Hc as (y' & Hc & _).
  apply commit_completion_txn_Ok in Hc as (l' & v & Hl' & _ & Hv & Hcase).
  rewrite Hlid in Hl'. rewrite Hop in Hv. simplify_eq. apply Hne.
  destruct Hcase as [(Heq & _)|(Heq & _)]; subst u;
    destruct (cw_disposition w), (cw_disposition w'); simplify_eq/=; congruence.
Qed.

(** a use is granted exactly when the lease's listed status is current
    for the caller's clock, the operation is new, a concurrency slot is free
    and the sequence is not exhausted. *)
Theorem begin_use_exact s lid op sb now l sm :
  ps_leases s !! lid = Some l → lease_summary lid l = Ok sm →
  ((∃ p b s', begin_use_txn lid op sb now s = Ok (UNew p, b, s')) ↔
   status sm (ps_broker_generation s) now = Current ∧ pl_uses l !! op = None ∧
   (∃ m k, capacity (uses (pl_constraints l)) = CapacityBounded m k ∧
      (N.of_nat (count_values use_in_flight (pl_uses l)) < k)%N) ∧
   (ps_sequence s < u64_max)%N).
Proof.
  intros Hl Hsm. unfold lease_summary in Hsm. inv_ok. subst sm.
  match goal with H : id_from_str _ _ = Ok ?i |- _ => rename H into Hid, i into id end.
  assert (status _ (ps_broker_generation s) now = Current ↔
    pl_revoked l = false ∧ pl_broker_generation l = ps_broker_generation s ∧
    active_at (time (pl_constraints l)) now = true ∧ pl_remaining_uses l ≠ 0%N) as ->.
  { unfold status, active_at; simpl. rewrite andb_true_iff, N.leb_le, N.ltb_lt.
    repeat (match goal with |- context [(?a <? ?b)%N] => destruct (N.ltb_spec a b) end;
      [split; [done|lia]|]).
    destruct (pl_revoked l); [naive_solver|].
    destruct (N.ltb_spec now (not_before (time (pl_constraints l)))); [split; [done|lia]|].
    destruct (N.leb_spec (expires_at (time (pl_constraints l))) now); [split; [done|lia]|].
    destruct (N.eqb_spec (pl_remaining_uses l) 0); [naive_solver|].
    split; [|done]. intros _. split_and!; try done. lia. }
  split.
  - intros (p & b & s' & (l' & Hl' & Hr & Hg & Ha & [(? & _ & ? & _)
      |(m & k & ? & Hop & Hc & Hm & Hk & _ & _ & _ & Hq & _)])%begin_use_txn_Ok); [done|].
    simplify_eq. split_and!; try done; [eauto|lia].
  - intros ((Hr & Hg & Ha & Hm) & Hop & (m & k & Hc & Hk) & Hq).
    unfold active_at in Ha. apply andb_true_iff in Ha as [Ha1%N.leb_le Ha2%N.ltb_lt].
    unfold begin_use_txn. rewrite Hl. simpl. rewrite Hr, Hg, N.eqb_refl. simpl.
    apply N.ltb_ge in Ha1. apply N.leb_gt in Ha2. rewrite Ha1, Ha2. simpl.
    rewrite Hop, Hc. apply N.eqb_neq in Hm. apply N.leb_gt in Hk. rewrite Hm, Hk. simpl.
    unfold bump_sequence; simpl. replace (checked_add_u64 (ps_sequence s) 1)
      with (Some (ps_sequence s + 1)%N) by (symmetry; apply checked_add_u64_Some; lia).
    simpl. rewrite Hid. simpl. eauto.
Qed.

(** a grant nonce, a lease identifier and an idempotency key are
    consumed at most once: after a reservation that created a lease, no later
    reservation with the same nonce or lease identifier creates one, and
    repeating the same request in the same generation returns the same
    lease and changes nothing. *)
Theorem reservation_once n i f bd s id b s1 h t :
  exec (KReserve n i f bd) s = Ok (AReserved (RNew id), b, s1) → trace s1 h t →
  (∀ n' i' f' bd' r b' t',
     exec (KReserve n' i' f' bd') t = Ok (AReserved (RNew r), b', t') →
     n' ≠ n ∧ i' ≠ i ∧ lb_lease_id bd' ≠ lb_lease_id bd) ∧
  (ps_broker_generation t = ps_broker_generation s → ps_broker_generation s ≠ 0%N →
   exec (KReserve n i f bd) t = Ok (AReserved (RExisting (lb_lease_id bd)), false, t)).
Proof.
  intros (y & He & [= <-])%respond_Ok Ht.
  apply reserve_txn_Ok in He as [(? & ? & _ & _ & _ & ? & _)
    |(u & k & Hi & Hn & Hl & Hg & Hc & _ & _ & _ & ->)]; [done|].
  destruct (trace_le _ _ _ Ht) as (_ & _ & _ & Hnt & Hit & Hlt). simpl in *.
  assert (ps_idempotency t !! i = Some {| pi_request_fingerprint_sha256 := f;
      pi_lease_id := id_str (lb_lease_id bd) |}) as Hidem.
  { eapply lookup_weaken; [|exact Hit]. by rewrite lookup_insert_eq. }
  split.
  - intros n' i' f' bd' r b' t' (y & He & [= <-])%respond_Ok.
    apply reserve_txn_Ok in He as [(? & ? & _ & _ & _ & ? & _)
      |(u' & k' & Hi' & Hn' & Hl' & _)]; [done|]. split_and!.
    + intros ->. apply Hn'. set_solver.
    + intros ->. congruence.
    + intros Heq. rewrite Heq in Hl'.
      destruct (Hlt (id_str (lb_lease_id bd)) _ (lookup_insert_eq _ _ _)) as (? & ? & _).
      congruence.
  - intros Hgt Hg0. apply respond_Ok. eexists. split; [|reflexivity].
    unfold reserve_txn. rewrite Hgt, Hg, N.eqb_refl.
    apply N.eqb_neq in Hg0. rewrite Hg0. simpl. rewrite Hidem. simpl.
    rewrite String.eqb_refl, id_from_str_of_id. done.
Qed.
End ledger.

(** ** Witnesses: one broker lifetime with one lease *)

Definition sample_store_id : string := str_repeat "0a" 32.

Definition sample_lease_key : string := id_str (sample_id LeaseIdK).

Definition sample_restart : call := KRestart sample_store_id.
Definition sample_reserve : call := KReserve "nonce" "key" "request" sample_binding.
Definition sample_use : call := KBeginUse sample_lease_key "operation" "store" 150.

Definition sample_permit : ExecutionPermit :=
  {| ep_lease_id := sample_id LeaseIdK; ep_broker_generation := 1;
     ep_action_id := sample_id ActionIdK; ep_operation := Capability;
     ep_canonical_args_sha256 := sample_digest; ep_workspace_id := sample_id WorkspaceIdK;
     ep_workspace_manifest_sha256 := sample_digest; ep_policy_sha256 := sample_digest;
     ep_constraints := sample_local; ep_operation_sha256 := "operation";
     ep_store_binding := "store" |}.

Definition sample_witness : CompletionWitness :=
  {| cw_lease_id := sample_id LeaseIdK; cw_broker_generation := 1;
     cw_operation_sha256 := "operation"; cw_terminal_record_sha256 := sample_digest;
     cw_disposition := DFinished; cw_store_binding := "store" |}.

Definition sample_complete : call := KBeginCompletion sample_permit sample_digest DFinished.

(** The ledger and the history after some calls on a bootstrapped store. *)
Definition after (cs : list call) : PersistedState :=
  match run_calls (empty_ledger sample_store_id) cs with
  | Ok (_, t) => t
  | Err _ => empty_ledger sample_store_id
  end.

Definition history (s : PersistedState) (cs : list call) : list (call * response) :=
  match run_calls s cs with Ok (h, _) => h | Err _ => [] end.

Example sample_history :
  map snd (history (empty_ledger sample_store_id) [sample_restart; sample_reserve; sample_use]) =
  [AGeneration 1; AReserved (RNew (sample_id LeaseIdK)); AUse (UNew sample_permit)].
Proof. vm_compute. reflexivity. Qed.

Definition full_calls : list call :=
  [sample_restart; sample_reserve; sample_use; sample_complete; KCommit sample_witness].

Lemma permit_at_most_once_witness :
  granted_ops sample_lease_key (history (empty_ledger sample_store_id) full_calls)
    = ["operation"] ∧
  NoDup (granted_ops sample_lease_key (history (empty_ledger sample_store_id) full_calls)).
Proof.
  split; [vm_compute; reflexivity|].
  apply (permit_at_most_once (empty_ledger sample_store_id) _ (after full_calls)).
  apply (run_calls_trace _ full_calls). vm_compute. reflexivity.
Defined.

Lemma lease_budget_exact_witness :
  ∃ m k, CapacityBounded 2 1 = CapacityBounded m k ∧ (1 + 1 = m)%N.
Proof.
  destruct (lease_budget_exact sample_store_id
    (history (empty_ledger sample_store_id) full_calls) (after full_calls) sample_lease_key
    (default (mk_lease (sample_id GrantIdK) (sample_id ActionIdK) Capability sample_digest
       (sample_id WorkspaceIdK) sample_digest sample_digest 0 sample_local 0 ∅ true)
       (ps_leases (after full_calls) !! sample_lease_key))) as (m & k & Hc & Hm & _).
  - apply (run_calls_trace _ full_calls). vm_compute. reflexivity.
  - vm_compute. reflexivity.
  - exists m, k. split; [exact Hc|]. vm_compute in Hm. exact Hm.
Defined.

Lemma restart_ends_leases_witness :
  ∃ g b s1, exec (KRestart sample_store_id) (after [sample_restart; sample_reserve; sample_use])
    = Ok (AGeneration g, b, s1) ∧ g = 2%N ∧ exec sample_use s1 = Err ERevoked.
Proof.
  eexists _, _, _. split; [vm_compute; reflexivity|]. split.
  - refine (proj1 (restart_ends_leases sample_store_id
      (after [sample_restart; sample_reserve; sample_use]) _ true _ [] _ sample_lease_key _
      _ (trace_nil _) _)); vm_compute; reflexivity.
  - vm_compute. reflexivity.
Defined.

Lemma completion_final_witness :
  ∃ l, ps_leases (after full_calls) !! sample_lease_key = Some l ∧
    pl_uses l !! "operation" = Some (UFinished sample_digest).
Proof.
  refine (proj1 (completion_final sample_witness
    (after [sample_restart; sample_reserve; sample_use; sample_complete]) true
    (after full_calls) [] (after full_calls) sample_witness _ (trace_nil _))).
  vm_compute. reflexivity.
Defined.

Definition sample_listed : LeaseSummary :=
  {| ls_lease_id := sample_id LeaseIdK; ls_grant_id := sample_id GrantIdK;
     ls_operation := Capability; ls_workspace_id := sample_id WorkspaceIdK;
     ls_broker_generation := 1; ls_remaining_uses := 2; ls_revoked := false;
     ls_active_uses := 0; ls_not_before := 100; ls_expires_at := 200 |}.

Lemma begin_use_exact_witness :
  ∃ p b s', begin_use_txn sample_lease_key "operation" "store" 150
    (after [sample_restart; sample_reserve]) = Ok (UNew p, b, s').
Proof.
  refine (proj2 (begin_use_exact (after [sample_restart; sample_reserve]) sample_lease_key
    "operation" "store" 150 (mk_lease (sample_id GrantIdK) (sample_id ActionIdK) Capability
       sample_digest (sample_id WorkspaceIdK) sample_digest sample_digest 1 sample_local 2 ∅ false)
    sample_listed _ _) _); [vm_compute; reflexivity..|].
  split_and!; [vm_compute; reflexivity..| |vm_compute; reflexivity].
  exists 2%N, 1%N. split; vm_compute; reflexivity.
Defined.

Lemma reservation_once_witness :
  exec sample_reserve (after [sample_restart; sample_reserve; sample_use]) =
    Ok (AReserved (RExisting (sample_id LeaseIdK)), false,
        after [sample_restart; sample_reserve; sample_use]).
Proof.
  refine (proj2 (reservation_once "nonce" "key" "request" sample_binding
    (after [sample_restart]) (sample_id LeaseIdK) true (after [sample_restart; sample_reserve])
    (history (after [sample_restart; sample_reserve]) [sample_use])
    (after [sample_restart; sample_reserve; sample_use]) _ _) _ _).
  - vm_compute. reflexivity.
  - apply (run_calls_trace _ [sample_use]). vm_compute. reflexivity.
  - vm_compute. reflexivity.
  - vm_compute. discriminate.
Defined.
