(* ===== verification/DemoSerde.v ===== *)
(** * A concrete serde for the witnesses

    [SerdeRoundTrip] is a hypothesis of the theorems about stored state; here
    it is shown to hold for a concrete self-delimiting encoding of JSON
    values and for decoders written against the serialized forms of
    [Constraints] and [ReplayStore]. *)

From S2P Require Import Prelude Ids External Canonical Constraints Schema ReplayStore.
From S2P Require Import ReplayStore.

(** ** A self-delimiting encoding of values *)

Definition ch (c : ascii) (s : string) : string := String c s.

Fixpoint enc_str (s k : string) : string :=
  match s with
  | EmptyString => ch "."%char k
  | String c s' => ch "c"%char (ch c (enc_str s' k))
  end.

Fixpoint enc_pos (p : positive) (k : string) : string :=
  match p with
  | xH => ch "."%char k
  | xO p => ch "0"%char (enc_pos p k)
  | xI p => ch "1"%char (enc_pos p k)
  end.

Definition enc_num (n : json_number) (k : string) : string :=
  match n with
  | NPos 0 => ch "z"%char k
  | NPos (N.pos p) => ch "p"%char (enc_pos p k)
  | NNeg 0 => ch "Z"%char k
  | NNeg (Z.pos p) => ch "P"%char (enc_pos p k)
  | NNeg (Z.neg p) => ch "N"%char (enc_pos p k)
  | NFloat s => ch "f"%char (enc_str s k)
  end.

Fixpoint enc (v : value) (k : string) : string :=
  match v with
  | VNull => ch "n"%char k
  | VBool true => ch "t"%char k
  | VBool false => ch "u"%char k
  | VNumber n => ch "#"%char (enc_num n k)
  | VString s => ch "s"%char (enc_str s k)
  | VArray l => ch "["%char (foldr (fun v t => ch ","%char (enc v t)) (ch "]"%char k) l)
  | VObject m =>
      ch "{"%char (foldr (fun kv t => ch ","%char (enc_str kv.1 (enc kv.2 t))) (ch "}"%char k) m)
  end.

Fixpoint dec_str (s : string) : option (string * string) :=
  match s with
  | String "."%char k => Some (EmptyString, k)
  | String "c"%char (String c s') =>
      match dec_str s' with Some (t, k) => Some (String c t, k) | None => None end
  | _ => None
  end.

Fixpoint dec_pos (s : string) : option (positive * string) :=
  match s with
  | String "."%char k => Some (xH, k)
  | String "0"%char s' => match dec_pos s' with Some (p, k) => Some (xO p, k) | None => None end
  | String "1"%char s' => match dec_pos s' with Some (p, k) => Some (xI p, k) | None => None end
  | _ => None
  end.

Definition with_pos (f : positive → json_number) (s : string) : option (json_number * string) :=
  match dec_pos s with Some (p, k) => Some (f p, k) | None => None end.

Definition dec_num (s : string) : option (json_number * string) :=
  match s with
  | String "z"%char k => Some (NPos 0, k)
  | String "p"%char k => with_pos (fun p => NPos (N.pos p)) k
  | String "Z"%char k => Some (NNeg 0, k)
  | String "P"%char k => with_pos (fun p => NNeg (Z.pos p)) k
  | String "N"%char k => with_pos (fun p => NNeg (Z.neg p)) k
  | String "f"%char k => match dec_str k with Some (t, k') => Some (NFloat t, k') | None => None end
  | _ => None
  end.

(** The fuel bounds nesting and length; the length of the text is enough. *)
Fixpoint dec (fuel : nat) (s : string) : option (value * string) :=
  match fuel with
  | O => None
  | S fuel =>
      match s with
      | String "n"%char k => Some (VNull, k)
      | String "t"%char k => Some (VBool true, k)
      | String "u"%char k => Some (VBool false, k)
      | String "#"%char k =>
          match dec_num k with Some (n, k') => Some (VNumber n, k') | None => None end
      | String "s"%char k =>
          match dec_str k with Some (t, k') => Some (VString t, k') | None => None end
      | String "["%char k =>
          match dec_items fuel k with Some (l, k') => Some (VArray l, k') | None => None end
      | String "{"%char k =>
          match dec_members fuel k with Some (m, k') => Some (VObject m, k') | None => None end
      | _ => None
      end
  end
with dec_items (fuel : nat) (s : string) : option (list value * string) :=
  match fuel with
  | O => None
  | S fuel =>
      match s with
      | String "]"%char k => Some ([], k)
      | String ","%char k =>
          match dec fuel k with
          | Some (v, k') =>
              match dec_items fuel k' with Some (l, k'') => Some (v :: l, k'') | None => None end
          | None => None
          end
      | _ => None
      end
  end
with dec_members (fuel : nat) (s : string) : option (list (string * value) * string) :=
  match fuel with
  | O => None
  | S fuel =>
      match s with
      | String "}"%char k => Some ([], k)
      | String ","%char k =>
          match dec_str k with
          | Some (key, k1) =>
              match dec fuel k1 with
              | Some (v, k2) =>
                  match dec_members fuel k2 with
                  | Some (m, k3) => Some ((key, v) :: m, k3)
                  | None => None
                  end
              | None => None
              end
          | None => None
          end
      | _ => None
      end
  end.

Lemma dec_enc_str s k : dec_str (enc_str s k) = Some (s, k).
Proof. induction s as [|c s IH]; simpl; [done|]. by rewrite IH. Qed.

Lemma dec_enc_pos p k : dec_pos (enc_pos p k) = Some (p, k).
Proof. induction p as [p IH|p IH|]; simpl; [by rewrite IH..|done]. Qed.

Lemma dec_enc_num n k : dec_num (enc_num n k) = Some (n, k).
Proof.
  destruct n as [[]|[]|s]; simpl; unfold with_pos; rewrite ?dec_enc_pos, ?dec_enc_str; done.
Qed.

(** Enough fuel for a value: one step for each node. *)
Fixpoint nodes (v : value) : nat :=
  match v with
  | VArray l => S (foldr (fun v n => S (nodes v + n)) 1 l)
  | VObject m => S (foldr (fun kv n => S (nodes kv.2 + n)) 1 m)
  | _ => 1
  end.

Lemma dec_enc v : ∀ fuel k, (nodes v <= fuel)%nat → dec fuel (enc v k) = Some (v, k).
Proof.
  induction v as [|[]|n|s|l IH|m IH] using value_ind'; intros [|fuel] k Hf; simpl in Hf |- *;
    try lia; try done.
  - by rewrite dec_enc_num.
  - by rewrite dec_enc_str.
  - enough (dec_items fuel (foldr (fun v t => ch ","%char (enc v t)) (ch "]"%char k) l)
      = Some (l, k)) as -> by done.
    apply le_S_n in Hf. revert fuel Hf.
    induction IH as [|v l Hv Hl IHl]; intros [|fuel] Hf; simpl in Hf |- *; try lia; [done|].
    rewrite Hv by lia. by rewrite IHl by lia.
  - enough (dec_members fuel
      (foldr (fun kv t => ch ","%char (enc_str kv.1 (enc kv.2 t))) (ch "}"%char k) m)
      = Some (m, k)) as -> by done.
    apply le_S_n in Hf. revert fuel Hf.
    induction IH as [|[key v] m Hv Hm IHm]; intros [|fuel] Hf; simpl in Hf |- *; try lia; [done|].
    rewrite dec_enc_str, Hv by (simpl; lia). by rewrite IHm by (simpl in Hf; lia).
Qed.

Lemma enc_str_length s k : (String.length k < String.length (enc_str s k))%nat.
Proof. induction s; simpl; lia. Qed.

Lemma enc_pos_length p k : (String.length k < String.length (enc_pos p k))%nat.
Proof. induction p; simpl; lia. Qed.

Lemma enc_length v : ∀ k, (nodes v + String.length k <= String.length (enc v k))%nat.
Proof.
  induction v as [|[]|n|s|l IH|m IH] using value_ind'; intros k; simpl; try lia.
  - destruct n as [[|p]|[|p|p]|s]; simpl; try lia;
      first [pose proof (enc_pos_length p k); lia|pose proof (enc_str_length s k); lia].
  - pose proof (enc_str_length s k). lia.
  - apply le_n_S. induction IH as [|v l Hv _ IHl]; simpl; [lia|].
    specialize (Hv (foldr (fun v t => ch ","%char (enc v t)) (ch "]"%char k) l)). lia.
  - apply le_n_S. induction IH as [|[key v] m Hv _ IHm]; simpl in *; [lia|].
    set (t := foldr (fun kv t => ch ","%char (enc_str kv.1 (enc kv.2 t))) (ch "}"%char k) m) in *.
    specialize (Hv t). pose proof (enc_str_length key (enc v t)). lia.
Qed.

Definition serde_to_vec (v : value) : string := enc v EmptyString.

Definition serde_parse (s : string) : option value :=
  match dec (String.length s) s with Some (v, EmptyString) => Some v | _ => None end.

Lemma serde_parse_to_vec v : serde_parse (serde_to_vec v) = Some v.
Proof.
  unfold serde_parse, serde_to_vec. rewrite dec_enc; [done|].
  pose proof (enc_length v EmptyString). simpl in *. lia.
Qed.

#[export] Instance serde_external : External := {|
  sha256 := demo_digest; hmac_sha256 k s := demo_digest (s +:+ k);
  hex_encode := demo_hex_encode; hex_decode := demo_hex_decode;
  json_string := demo_quote; parse_json := serde_parse; json_to_vec := serde_to_vec |}.

#[export] Instance serde_external_laws : ExternalLaws serde_external.
Proof.
  destruct demo_external_laws. by constructor.
Qed.

(** ** Decoders *)

Class Decodes (T : Type) `{Serialize T, Deserialize T} : Prop :=
  from_to_value : ∀ x : T, from_value (to_value x) = Some x.

Lemma decodes_round_trip T `{Decodes T} : SerdeRoundTrip (H := serde_external) T.
Proof. intros x. unfold from_slice; simpl. rewrite serde_parse_to_vec. apply from_to_value. Qed.

Create Rewrite HintDb serde.

(** Decode the fields of a record one after the other. *)
Notation "'field' x ':=' v 'in' k" := (match from_value v with Some x => k | None => None end)
  (at level 10, x name, v at level 100, k at level 200) : phantom_scope.

#[export] Instance Deserialize_value : Deserialize value := Some.
#[export] Instance Deserialize_string : Deserialize string :=
  fun v => match v with VString s => Some s | _ => None end.
#[export] Instance Deserialize_N : Deserialize N :=
  fun v => match v with VNumber (NPos n) => Some n | _ => None end.
#[export] Instance Deserialize_bool : Deserialize bool :=
  fun v => match v with VBool b => Some b | _ => None end.
#[export] Instance Deserialize_id k : Deserialize (OpaqueId k) := fun v =>
  match v with
  | VString s => match id_from_str k s with Ok i => Some i | Err _ => None end
  | _ => None
  end.
#[export] Instance Deserialize_digest : Deserialize Sha256Digest := fun v =>
  match v with
  | VString s => match digest_from_str s with Ok d => Some d | Err _ => None end
  | _ => None
  end.
#[export] Instance Deserialize_list {T} `{Deserialize T} : Deserialize (list T) := fun v =>
  match v with VArray l => mapM from_value l | _ => None end.

(** An enum of strings: the constructor whose name it is. *)
Definition decode_enum {T} `{Serialize T} (all : list T) (v : value) : option T :=
  match v with
  | VString s =>
      List.find (fun x => match to_value x with VString t => String.eqb s t | _ => false end) all
  | _ => None
  end.

#[export] Instance Decodes_string : Decodes string.
Proof. done. Qed.
#[export] Instance Decodes_N : Decodes N.
Proof. done. Qed.
#[export] Instance Decodes_bool : Decodes bool.
Proof. done. Qed.
#[export] Instance Decodes_id k : Decodes (OpaqueId k).
Proof. intros i. unfold from_value, to_value; simpl. by rewrite id_from_str_of_id. Qed.
#[export] Instance Decodes_digest : Decodes Sha256Digest.
Proof. intros d. unfold from_value, to_value; simpl. by rewrite digest_from_str_of_digest. Qed.
#[export] Instance Decodes_list {T} `{Decodes T} : Decodes (list T).
Proof.
  intros l. unfold from_value, to_value; simpl. induction l as [|x l IH]; simpl; [done|].
  rewrite from_to_value. simpl. by rewrite IH.
Qed.

#[export] Instance Deserialize_operation : Deserialize Operation := decode_enum
  [AssumePlace; Capability; FixAuth; InspectWorkspace; Leave; NeedSecret; RunEngineeringCheck;
   SetupWorkspace; Share].
#[export] Instance Deserialize_scheme : Deserialize NetworkScheme := decode_enum [Http; Https].
#[export] Instance Deserialize_method : Deserialize HttpMethod :=
  decode_enum [Get; Head; Options; Post; Put; Patch; Delete].
#[export] Instance Deserialize_disposition : Deserialize TerminalDisposition :=
  decode_enum [DFinished; DAbandoned].

#[export] Instance Decodes_operation : Decodes Operation.
Proof. by intros []. Qed.
#[export] Instance Decodes_scheme : Decodes NetworkScheme.
Proof. by intros []. Qed.
#[export] Instance Decodes_method : Decodes HttpMethod.
Proof. by intros []. Qed.
#[export] Instance Decodes_disposition : Decodes TerminalDisposition.
Proof. by intros []. Qed.

#[export] Instance Deserialize_time : Deserialize TimeConstraints := fun v =>
  match v with
  | VObject [(_, a); (_, b)] =>
      field n := a in field e := b in Some {| not_before := n; expires_at := e |}
  | _ => None
  end.
#[export] Instance Deserialize_capacity : Deserialize UseCapacity := fun v =>
  match v with
  | VObject [_] => Some CapacityDenied
  | VObject [_; (_, a); (_, b)] => field u := a in field k := b in Some (CapacityBounded u k)
  | _ => None
  end.
#[export] Instance Deserialize_bytes : Deserialize ByteLimit := fun v =>
  match v with
  | VObject [_] => Some BytesDenied
  | VObject [_; (_, a)] => field n := a in Some (BytesBounded n)
  | _ => None
  end.
#[export] Instance Deserialize_uses : Deserialize UseConstraints := fun v =>
  match v with
  | VObject [(_, a); (_, b); (_, c)] =>
      field x := a in field y := b in field z := c in
      Some {| capacity := x; max_request_bytes := y; max_response_bytes := z |}
  | _ => None
  end.
#[export] Instance Deserialize_scope {T} `{Deserialize T} : Deserialize (ExactScope T) := fun v =>
  match v with
  | VObject [_] => Some Denied
  | VObject [_; (_, a)] => field l := a in Some (Exact l)
  | _ => None
  end.
#[export] Instance Deserialize_network : Deserialize NetworkConstraints := fun v =>
  match v with
  | VObject [(_, a); (_, b); (_, c); (_, d); (_, e); (_, f)] =>
      field x1 := a in field x2 := b in field x3 := c in field x4 := d in field x5 := e in
      field x6 := f in
      Some {| schemes := x1; hosts := x2; ports := x3; methods := x4; path_prefixes := x5;
              allow_redirects := x6 |}
  | _ => None
  end.
#[export] Instance Deserialize_spend : Deserialize SpendConstraints := fun v =>
  match v with
  | VObject [(_, a)] => field m := a in Some {| currency := None; max_minor_units := m |}
  | VObject [(_, c); (_, a)] =>
      field x := c in field m := a in Some {| currency := Some x; max_minor_units := m |}
  | _ => None
  end.
#[export] Instance Deserialize_constraints : Deserialize AuthorityConstraints := fun v =>
  match v with
  | VObject [(_, a); (_, b); (_, c); (_, d); (_, e); (_, f)] =>
      field x1 := a in field x2 := b in field x3 := c in field x4 := d in field x5 := e in
      field x6 := f in
      Some {| environment := x1; read_only := x2; time := x3; uses := x4; network := x5;
              spend := x6 |}
  | _ => None
  end.

(** A record decodes when its fields do. *)
Ltac decode_fields ser de :=
  intros []; unfold from_value at 1; unfold to_value at 1; unfold ser, de;
  cbv beta iota; repeat (rewrite from_to_value; cbv beta iota); reflexivity.

#[export] Instance Decodes_time : Decodes TimeConstraints.
Proof. decode_fields Serialize_time Deserialize_time. Qed.
#[export] Instance Decodes_capacity : Decodes UseCapacity.
Proof. decode_fields Serialize_capacity Deserialize_capacity. Qed.
#[export] Instance Decodes_bytes : Decodes ByteLimit.
Proof. decode_fields Serialize_bytes Deserialize_bytes. Qed.
#[export] Instance Decodes_uses : Decodes UseConstraints.
Proof. decode_fields Serialize_uses Deserialize_uses. Qed.
#[export] Instance Decodes_scope {T} `{Decodes T} : Decodes (ExactScope T).
Proof.
  intros [|vs]; [done|]. unfold from_value at 1; unfold to_value at 1.
  unfold Serialize_scope, Deserialize_scope. by rewrite from_to_value.
Qed.
#[export] Instance Decodes_network : Decodes NetworkConstraints.
Proof. decode_fields Serialize_network Deserialize_network. Qed.
#[export] Instance Decodes_spend : Decodes SpendConstraints.
Proof. by intros [[] ?]. Qed.
#[export] Instance Decodes_constraints : Decodes AuthorityConstraints.
Proof. decode_fields Serialize_constraints Deserialize_constraints. Qed.

(** ** The persisted ledger *)

#[export] Instance Deserialize_use_state : Deserialize PersistedUseState := fun v =>
  match v with
  | VObject [_] => Some UActive
  | VObject [(_, VString "finished"); (_, a)] => field t := a in Some (UFinished t)
  | VObject [(_, VString "abandoned"); (_, a)] => field t := a in Some (UAbandoned t)
  | VObject [_; (_, a); (_, b)] => field t := a in field d := b in Some (UCompleting t d)
  | _ => None
  end.

Fixpoint decode_entries {V} `{Deserialize V} (m : list (string * value))
    : option (list (string * V)) :=
  match m with
  | [] => Some []
  | (k, v) :: m' =>
      match from_value v, decode_entries m' with
      | Some x, Some l => Some ((k, x) :: l)
      | _, _ => None
      end
  end.

#[export] Instance Deserialize_btree {V} `{Deserialize V} : Deserialize (gmap string V) := fun v =>
  match v with
  | VObject m => match decode_entries m with Some l => Some (list_to_map l) | None => None end
  | _ => None
  end.

#[export] Instance Deserialize_btree_set : Deserialize (gset string) := fun v =>
  match from_value (T := list string) v with Some l => Some (list_to_set l) | None => None end.

#[export] Instance Deserialize_lease : Deserialize PersistedLease := fun v =>
  match v with
  | VObject [(_, a1); (_, a2); (_, a3); (_, a4); (_, a5); (_, a6); (_, a7); (_, a8); (_, a9);
             (_, a10); (_, a11); (_, a12)] =>
      field x1 := a1 in field x2 := a2 in field x3 := a3 in field x4 := a4 in
      field x5 := a5 in field x6 := a6 in field x7 := a7 in field x8 := a8 in
      field x9 := a9 in field x10 := a10 in field x11 := a11 in field x12 := a12 in
      Some (mk_lease x1 x2 x3 x4 x5 x6 x7 x8 x9 x10 x11 x12)
  | _ => None
  end.
#[export] Instance Deserialize_idempotency : Deserialize PersistedIdempotency := fun v =>
  match v with
  | VObject [(_, a); (_, b)] =>
      field x := a in field y := b in
      Some {| pi_request_fingerprint_sha256 := x; pi_lease_id := y |}
  | _ => None
  end.
#[export] Instance Deserialize_state : Deserialize PersistedState := fun v =>
  match v with
  | VObject [(_, a1); (_, a2); (_, a3); (_, a4); (_, a5); (_, a6)] =>
      field x1 := a1 in field x2 := a2 in field x3 := a3 in field x4 := a4 in
      field x5 := a5 in field x6 := a6 in Some (mk_state x1 x2 x3 x4 x5 x6)
  | _ => None
  end.
#[export] Instance Deserialize_signed : Deserialize SignedState := fun v =>
  match v with
  | VObject [(_, a); (_, b); (_, c)] =>
      field x := a in field y := b in field z := c in
      Some {| ss_format_version := x; ss_payload := y; ss_hmac_sha256 := z |}
  | _ => None
  end.

#[export] Instance Decodes_use_state : Decodes PersistedUseState.
Proof. decode_fields Serialize_use_state Deserialize_use_state. Qed.

#[export] Instance Decodes_btree {V} `{Decodes V} : Decodes (gmap string V).
Proof.
  intros m. unfold from_value, to_value; simpl.
  assert (∀ l : list (string * V),
    decode_entries (map (fun kv => (kv.1, to_value kv.2)) l) = Some l) as Hd.
  { induction l as [|[k v] l IH]; simpl; [done|]. by rewrite from_to_value, IH. }
  rewrite Hd. f_equal. apply map_eq. intros k.
  destruct (m !! k) as [v|] eqn:Hk.
  - apply elem_of_list_to_map_1; [apply btree_iter_NoDup|by apply btree_iter_elem].
  - apply not_elem_of_list_to_map_1. intros Hin.
    apply list_elem_of_fmap in Hin as ([k' v] & -> & Hin). apply btree_iter_elem in Hin. 
    simpl in *. congruence.
Qed.

#[export] Instance Decodes_btree_set : Decodes (gset string).
Proof.
  intros m.
  change (match from_value (T := list string) (to_value (sort_keys (elements m))) with
          | Some l => Some (list_to_set l) | None => None end = Some m).
  rewrite from_to_value. f_equal. apply set_eq. intros x.
  by rewrite elem_of_list_to_set, sort_keys_elem, elem_of_elements.
Qed.

#[export] Instance Decodes_lease : Decodes PersistedLease.
Proof. decode_fields Serialize_lease Deserialize_lease. Qed.
#[export] Instance Decodes_idempotency : Decodes PersistedIdempotency.
Proof. decode_fields Serialize_idempotency Deserialize_idempotency. Qed.
#[export] Instance Decodes_state : Decodes PersistedState.
Proof. decode_fields Serialize_state Deserialize_state. Qed.
#[export] Instance Decodes_signed : Decodes SignedState.
Proof. decode_fields Serialize_signed Deserialize_signed. Qed.

#[export] Instance state_round_trip : SerdeRoundTrip (H := serde_external) PersistedState.
Proof. apply decodes_round_trip, _. Qed.
#[export] Instance signed_round_trip : SerdeRoundTrip (H := serde_external) SignedState.
Proof. apply decodes_round_trip, _. Qed.
