(* ===== verification/ReplayDurable.v ===== *)
(** * The durable store implements the ledger

    Every operation of [ReplayStore] on a storage whose state file authenticates
    as a ledger is a step of the transition system of [ReplaySpec] on that
    ledger, also when the storage fails: an operation that reports an error
    may have committed its step but never hands out what the step granted.
    So the ledger's promises hold of the operations. *)

From S2P Require Import Prelude Ids External Canonical Constraints Schema ReplayStore.
From S2P Require Import ReplayStore ReplaySpec DemoSerde.

(** ** The public operations, as one type *)

Inductive api :=
  | PStartEpoch
  | PCurrentGeneration
  | PStoredGeneration
  | PListLeases
  | PReserve (nonce : Sha256Digest) (key : string) (b : LeaseBinding)
  | PBeginUse (l : LeaseId) (operation : string) (now : N)
  | PBeginCompletion (p : ExecutionPermit) (d : Sha256Digest) (x : TerminalDisposition)
  | PResumeCompletion (l : LeaseId) (operation : string) (d : Sha256Digest)
      (x : TerminalDisposition)
  | PCommitCompletion (w : CompletionWitness)
  | PFinishUse (p : ExecutionPermit)
  | PAbandonUse (p : ExecutionPermit)
  | PRevoke (l : LeaseId).

Section durable.
Context `{X : External} `{XL : !ExternalLaws X}
  `{DP : !Deserialize PersistedState} `{DS : !Deserialize SignedState}
  `{RP : !SerdeRoundTrip PersistedState} `{RS : !SerdeRoundTrip SignedState}
  `{S : ReplayStorage} `{SL : !ReplayStorageLaws S}.

Definition answer {T} (f : T → response) (r : rs_t * result T ReplayStoreError)
    : rs_t * result response ReplayStoreError := (r.1, map_ok f r.2).

Definition api_exec (d : DurableReplayStore) (st : rs_t) (a : api)
    : DurableReplayStore * (rs_t * result response ReplayStoreError) :=
  match a with
  | PStartEpoch =>
      let '(d', st', r) := start_epoch d st in (d', answer AGeneration (st', r))
  | PCurrentGeneration => (d, answer AGeneration (current_generation d st))
  | PStoredGeneration => (d, answer AGeneration (stored_generation d st))
  | PListLeases => (d, answer ALeases (list_leases d st))
  | PReserve n k b => (d, answer AReserved (reserve d st n k b))
  | PBeginUse l o now => (d, answer AUse (begin_use d st l o now))
  | PBeginCompletion p t x => (d, answer ACompletion (begin_completion d st p t x))
  | PResumeCompletion l o t x => (d, answer ACompletion (resume_completion d st l o t x))
  | PCommitCompletion w => (d, answer (fun _ => ADone) (commit_completion d st w))
  | PFinishUse p => (d, answer (fun _ => ADone) (finish_use d st p))
  | PAbandonUse p => (d, answer (fun _ => ADone) (abandon_use d st p))
  | PRevoke l => (d, answer (fun _ => ADone) (revoke d st l))
  end.

(** The state file authenticates, under a key, as a ledger. *)
Definition stores (st : rs_t) (key : string) (s : PersistedState) : Prop :=
  ∃ bytes, rs_contents st STATE_FILE_NAME = Some bytes ∧
           authenticate_state_bytes bytes key = Ok s.

Definition same_contents (st st' : rs_t) : Prop :=
  rs_contents st' STATE_FILE_NAME = rs_contents st STATE_FILE_NAME.

Lemma stores_same st st' key s : same_contents st st' → stores st key s → stores st' key s.
Proof. unfold same_contents, stores. intros ->. done. Qed.

Lemma stores_unique st key s s' : stores st key s → stores st key s' → s = s'.
Proof. intros (b & Hb & Ha) (b' & Hb' & Ha'). congruence. Qed.

(** ** Writing and reading the authenticated ledger *)

Lemma authenticated_bytes_Ok s key bytes :
  authenticated_state_bytes s key = Ok bytes →
  ∃ mac, state_mac key STORE_FORMAT_VERSION s = Ok mac ∧
    bytes = json_to_vec (to_value {| ss_format_version := STORE_FORMAT_VERSION;
              ss_payload := s; ss_hmac_sha256 := hex_encode mac |}).
Proof.
  unfold authenticated_state_bytes. intros H. inv_ok. subst bytes.
  rewrite serde_round_trip in *. simplify_eq. eauto.
Qed.

Lemma with_limit_authenticates s key bytes :
  authenticated_state_bytes_with_limit s key MAX_STATE_BYTES = Ok bytes →
  authenticate_state_bytes bytes key = Ok s.
Proof.
  intros Hl. pose proof Hl as Hlim. unfold authenticated_state_bytes_with_limit in Hl.
  apply rbind_Ok in Hl as (bytes' & Hb & Hl). inv_ok. subst bytes'.
  apply authenticated_bytes_Ok in Hb as (mac & Hm & ->).
  unfold authenticate_state_bytes. rewrite serde_round_trip. simpl.
  rewrite hex_decode_encode. simpl. rewrite Hm. simpl. rewrite String.eqb_refl. simpl.
  by rewrite Hlim.
Qed.

Lemma write_stores st s key st' r :
  write_authenticated_state st s key = (st', r) →
  (r = Ok tt → stores st' key s) ∧ (same_contents st st' ∨ stores st' key s).
Proof.
  unfold write_authenticated_state. intros H.
  destruct (authenticated_state_bytes_with_limit s key MAX_STATE_BYTES) as [bytes|e] eqn:Hb;
    [|injection H as <- <-; split; [done|by left]].
  apply with_limit_authenticates in Hb.
  destruct (rs_replace st STATE_FILE_NAME bytes) as [st1 [[]|e]] eqn:Hr;
    injection H as <- <-; simpl.
  - apply rs_replace_ok in Hr. split; [|right]; by exists bytes.
  - apply rs_replace_err in Hr as [Hr|Hr]; (split; [done|]); [by left|right; by exists bytes].
Qed.

Lemma read_stores st key s s' :
  read_authenticated_state st key = Ok s → stores st key s' → s = s'.
Proof.
  unfold read_authenticated_state. intros Hr (b & Hb & Ha). inv_ok.
  match goal with H : rs_read _ _ _ = _ |- _ => apply rs_read_contents in H end. congruence.
Qed.

(** ** One locked transaction *)

(** The ledger steps of an operation: none, or one whose response is what
    the operation returned or lost with an error. *)
Definition simulates (st st' : rs_t) (key : string) (s : PersistedState)
    (r : result response ReplayStoreError) : Prop :=
  ∃ h s', trace s h s' ∧ stores st' key s' ∧
    (∀ x, r = Ok x → ∀ lid, granted_ops lid h = granted_op lid x).

Lemma simulates_error st st' key s e :
  same_contents st st' → stores st key s → simulates st st' key s (Err e).
Proof.
  intros Hc Hs. exists [], s. split_and!; [constructor|by eapply stores_same|done].
Qed.

Lemma locked_simulates {T} d st (f : T → response) (t : Txn T) c st' r s :
  (∀ s, exec c s = respond f t s) →
  with_locked_state_unchecked d st t = (st', r) → stores st (store_key d) s →
  simulates st st' (store_key d) s (map_ok f r).
Proof.
  intros Hc Hw Hs. unfold with_locked_state_unchecked in Hw.
  destruct (locked_state d st) as [s0|e] eqn:Hl;
    [|injection Hw as <- <-; by apply simulates_error].
  assert (s0 = s) as ->.
  { unfold locked_state in Hl. inv_ok. subst. by eapply read_stores. }
  destruct (t s) as [[[x b] s']|e] eqn:Ht; [|injection Hw as <- <-; by apply simulates_error].
  assert (trace s [(c, f x)] s') as Htr.
  { econstructor; [|constructor]. rewrite Hc. apply respond_Ok. eauto. }
  assert (∀ lid, granted_ops lid [(c, f x)] = granted_op lid (f x)) as Hg
    by (intros lid; simpl; apply app_nil_r).
  destruct b.
  - destruct (write_authenticated_state st s' (store_key d)) as [st1 w] eqn:Hwr.
    injection Hw as <- <-. apply write_stores in Hwr as [Hok Hor].
    destruct w as [[]|e]; simpl.
    + exists [(c, f x)], s'. split_and!; [done|by apply Hok|].
      intros y [= <-]. done.
    + destruct Hor as [Hor|Hor]; [by apply simulates_error|].
      exists [(c, f x)], s'. done.
  - injection Hw as <- <-. simpl.
    assert (s' = s) as ->.
    { assert (exec c s = Ok (f x, false, s')) as He by (rewrite Hc; apply respond_Ok; eauto).
      by apply exec_unchanged in He. }
    exists [(c, f x)], s. split_and!; [done|done|]. intros y [= <-]. done.
Qed.

(** A transaction that returned did run on the stored ledger. *)
Lemma with_locked_Ok {T} d st (t : Txn T) st' x s :
  with_locked_state d st t = (st', Ok x) → stores st (store_key d) s →
  ∃ b s', t s = Ok (x, b, s') ∧ (b = false → st' = st) ∧ (b = true → stores st' (store_key d) s').
Proof.
  intros Hw Hs. unfold with_locked_state in Hw.
  destruct (ensure_active d) as [u|e]; [|done]. unfold with_locked_state_unchecked in Hw.
  destruct (locked_state d st) as [s0|e] eqn:Hl; [|done].
  assert (s0 = s) as ->.
  { unfold locked_state in Hl. inv_ok. subst. by eapply read_stores. }
  destruct (t s) as [[[y [|]] s']|e] eqn:Ht; [| |done].
  - destruct (write_authenticated_state st s' (store_key d)) as [st1 w] eqn:Hwr.
    apply write_stores in Hwr as [Hok _]. destruct w as [[]|e]; simpl in Hw; simplify_eq.
    exists true, s'. split_and!; [done|done|]. intros _. by apply Hok.
  - simplify_eq. by exists false, s'.
Qed.

Lemma with_locked_simulates {T} d st (f : T → response) (t : Txn T) c st' r s :
  (∀ s, exec c s = respond f t s) →
  with_locked_state d st t = (st', r) → stores st (store_key d) s →
  simulates st st' (store_key d) s (map_ok f r).
Proof.
  intros Hc Hw Hs. unfold with_locked_state in Hw.
  destruct (ensure_active d) as [u|e]; [by eapply locked_simulates|].
  injection Hw as <- <-. by apply simulates_error.
Qed.

Lemma or_return_simulates {T U} d st (q : result T ReplayStoreError) k (f : U → response) st' r s :
  or_return st q k = (st', r) → stores st (store_key d) s →
  (∀ x, k x = (st', r) → simulates st st' (store_key d) s (map_ok f r)) →
  simulates st st' (store_key d) s (map_ok f r).
Proof.
  intros Hw Hs Hk. destruct q as [x|e]; [by eapply Hk|].
  injection Hw as <- <-. by apply simulates_error.
Qed.

(** Past the early returns of an operation, to its transaction. *)
Ltac locked_call Hw c :=
  cbv beta in Hw;
  lazymatch type of Hw with
  | or_return _ _ _ = _ =>
      eapply or_return_simulates; [exact Hw|assumption|clear Hw; intros ? Hw; locked_call Hw c]
  | _ => eapply (with_locked_simulates _ _ _ _ c); [reflexivity|exact Hw|assumption]
  end.

Lemma begin_completion_simulates d st p x t st' r s :
  begin_completion d st p t x = (st', r) → stores st (store_key d) s →
  simulates st st' (store_key d) s (map_ok ACompletion r).
Proof. intros Hw Hs. unfold begin_completion in Hw. locked_call Hw (KBeginCompletion p t x). Qed.

Lemma commit_completion_simulates d st w st' r s :
  commit_completion d st w = (st', r) → stores st (store_key d) s →
  simulates st st' (store_key d) s (map_ok (fun _ => ADone) r).
Proof. intros Hw Hs. unfold commit_completion in Hw. locked_call Hw (KCommit w). Qed.

Lemma legacy_simulates d st p x st' r s :
  legacy_terminalize d st p x = (st', r) → stores st (store_key d) s →
  simulates st st' (store_key d) s (map_ok (fun _ => ADone) r).
Proof.
  intros Hw Hs. unfold legacy_terminalize in Hw.
  eapply or_return_simulates; [exact Hw|assumption|]. intros digest Hk.
  cbv beta in Hk. destruct (begin_completion d st p digest x) as [st1 r1] eqn:Hb.
  destruct (begin_completion_simulates _ _ _ _ _ _ _ _ Hb Hs) as (h1 & s1 & Ht1 & Hs1 & Hg1).
  destruct r1 as [[w|w|v]|e].
  1,2: destruct (commit_completion_simulates _ _ _ _ _ _ Hk Hs1) as (h2 & s2 & Ht2 & Hs2 & Hg2);
    exists (h1 ++ h2), s2; split_and!; [by eapply trace_app|done|];
    intros y Hy lid; unfold granted_ops; rewrite flat_map_app;
    fold (granted_ops lid h1); fold (granted_ops lid h2);
    by rewrite (Hg1 _ eq_refl), (Hg2 _ Hy).
  - injection Hk as <- <-. exists h1, s1. split_and!; [done|done|].
    intros y [= <-] lid. by rewrite (Hg1 _ eq_refl).
  - exists h1, s1. injection Hk as <- <-. split_and!; done.
Qed.

(** What the legacy terminalization recorded when it succeeded. *)
Lemma legacy_terminal d st p x st' s :
  legacy_terminalize d st p x = (st', Ok tt) → stores st (store_key d) s →
  ∃ digest s' l, legacy_digest d p x = Ok digest ∧ stores st' (store_key d) s' ∧
    ps_leases s' !! id_str (ep_lease_id p) = Some l ∧
    pl_uses l !! ep_operation_sha256 p = Some (terminal_state digest x).
Proof.
  intros Hw Hs. unfold legacy_terminalize in Hw.
  destruct (legacy_digest d p x) as [digest|e]; [|done]. simpl in Hw.
  destruct (begin_completion d st p digest x) as [st1 r1] eqn:Hb.
  destruct r1 as [r1|e]; [|done]. unfold begin_completion in Hb.
  destruct (validate_permit d p) as [u|e]; [|done]. simpl in Hb.
  destruct (with_locked_Ok _ _ _ _ _ _ Hb Hs) as (b & s1 & Ht & Hf & Htr).
  assert (stores st1 (store_key d) s1) as Hs1.
  { apply begin_completion_txn_Ok in Ht as (l & v & _ & _ & _ & _ & _ &
      [(_ & -> & _)|(-> & -> & _)]); [by apply Htr|]. by rewrite (Hf eq_refl). }
  assert (∀ w, w = witness_of p digest x → commit_completion d st1 w = (st', Ok tt) →
    ∃ s' l, stores st' (store_key d) s' ∧ ps_leases s' !! id_str (ep_lease_id p) = Some l ∧
      pl_uses l !! ep_operation_sha256 p = Some (terminal_state digest x)) as Hcommit.
  { intros w -> Hc. unfold commit_completion in Hc.
    destruct (fail_if _ _ _) as [u'|e]; [|done]. simpl in Hc.
    destruct (with_locked_Ok _ _ _ _ _ _ Hc Hs1) as (b' & s2 & Ht2 & Hf2 & Htr2).
    pose proof (commit_completion_result _ _ _ _ _ Ht2) as (l & Hl & Hu).
    exists s2, l. split_and!; [|done|done]. destruct b'; [by apply Htr2|].
    rewrite (Hf2 eq_refl). apply commit_completion_txn_Ok in Ht2 as
      (? & ? & _ & _ & _ & [(_ & ? & _)|(_ & _ & ->)]); done. }
  apply begin_completion_txn_Ok in Ht as (l & v & Hl & _ & _ & _ & Hu & Hcase).
  destruct Hcase as [(_ & _ & -> & _)|(_ & -> & [[_ ->]|[-> ->]])].
  - destruct (Hcommit _ eq_refl Hw) as (s' & l' & ? & ? & ?). exists digest, s', l'. auto.
  - destruct (Hcommit _ eq_refl Hw) as (s' & l' & ? & ? & ?). exists digest, s', l'. auto.
  - injection Hw as <-. exists digest, s, l. auto.
Qed.

Lemma start_epoch_simulates d st d' st' r s :
  start_epoch d st = (d', st', r) → stores st (store_key d) s →
  simulates st st' (store_key d) s (map_ok AGeneration r).
Proof.
  intros Hw Hs. unfold start_epoch in Hw.
  destruct (activation d); [|injection Hw as <- <- <-; by apply simulates_error..].
  destruct (rs_try_lock_instance st) as [st1 lock] eqn:Hl.
  assert (same_contents st st1) as Hc.
  { unfold same_contents. pose proof (rs_lock_contents st STATE_FILE_NAME) as H.
    by rewrite Hl in H. }
  destruct lock as [u|e].
  - destruct (with_locked_state_unchecked _ st1 _) as [st2 r2] eqn:Hu.
    assert (simulates st1 st2 (store_key d) s (map_ok AGeneration r2)) as (h & s' & Ht & Hs' & Hg).
    { eapply (locked_simulates _ _ _ _ (KRestart (store_id d))); [reflexivity|exact Hu|].
      by eapply stores_same. }
    exists h, s'. destruct r2 as [g|e]; injection Hw as <- <- <-; split_and!; try done.
    eapply stores_same; [|exact Hs']. apply rs_unlock_contents.
  - assert (st1 = st' ∧ ∃ e', r = Err e') as [-> [e' ->]]
      by (destruct e; injection Hw as <- <- <-; eauto).
    by apply simulates_error.
Qed.

(** Every public operation simulates ledger steps. *)
Lemma api_simulates d st a d' st' r s :
  api_exec d st a = (d', (st', r)) → stores st (store_key d) s →
  simulates st st' (store_key d) s r.
Proof.
  intros Ha Hs. destruct a; simpl in Ha; unfold answer in Ha.
  - destruct (start_epoch d st) as [[d1 st1] r1] eqn:He. simpl in Ha. simplify_eq.
    by eapply start_epoch_simulates.
  - destruct (current_generation d st) as [st1 r1] eqn:He. simpl in Ha. simplify_eq.
    unfold current_generation in He. locked_call He KGeneration.
  - destruct (stored_generation d st) as [st1 r1] eqn:He. simpl in Ha. simplify_eq.
    eapply (locked_simulates _ _ _ _ KGeneration); [reflexivity|exact He|done].
  - destruct (list_leases d st) as [st1 r1] eqn:He. simpl in Ha. simplify_eq.
    eapply (locked_simulates _ _ _ _ KList); [reflexivity|exact He|done].
  - destruct (reserve _ _ _ _ _) as [st1 r1] eqn:He. simpl in Ha. simplify_eq.
    unfold reserve in He.
    do 3 (eapply or_return_simulates; [exact He|assumption|clear He; intros ? He]).
    eapply (with_locked_simulates _ _ _ _ (KReserve _ _ _ _)); [reflexivity|exact He|done].
  - destruct (begin_use _ _ _ _ _) as [st1 r1] eqn:He. simpl in Ha. simplify_eq.
    unfold begin_use in He. eapply or_return_simulates; [exact He|assumption|].
    clear He. intros ? He.
    eapply (with_locked_simulates _ _ _ _ (KBeginUse _ _ _ _)); [reflexivity|exact He|done].
  - destruct (begin_completion _ _ _ _ _) as [st1 r1] eqn:He. simpl in Ha. simplify_eq.
    by eapply begin_completion_simulates.
  - destruct (resume_completion _ _ _ _ _ _) as [st1 r1] eqn:He. simpl in Ha. simplify_eq.
    unfold resume_completion in He. eapply or_return_simulates; [exact He|assumption|].
    clear He. intros ? He.
    eapply (with_locked_simulates _ _ _ _ (KResume _ _ _ _ _)); [reflexivity|exact He|done].
  - destruct (commit_completion _ _ _) as [st1 r1] eqn:He. simpl in Ha. simplify_eq.
    by eapply commit_completion_simulates.
  - destruct (finish_use _ _ _) as [st1 r1] eqn:He. simpl in Ha. simplify_eq.
    by eapply legacy_simulates.
  - destruct (abandon_use _ _ _) as [st1 r1] eqn:He. simpl in Ha. simplify_eq.
    by eapply legacy_simulates.
  - destruct (revoke _ _ _) as [st1 r1] eqn:He. simpl in Ha. simplify_eq.
    eapply (with_locked_simulates _ _ _ _ (KRevoke _ _)); [reflexivity|exact He|done].
Qed.

(** ** Histories of the shared storage

    Any number of processes, each with its own store object in any
    activation state, operate on one storage under one key.  An operation
    that fails returns nothing to its caller, whatever it wrote; anything
    that leaves the state file alone may happen in between. *)
Inductive api_trace (key : string) : rs_t → list response → rs_t → Prop :=
  | at_nil st : api_trace key st [] st
  | at_ok d st a d' st1 x rs st2 :
      store_key d = key → api_exec d st a = (d', (st1, Ok x)) →
      api_trace key st1 rs st2 → api_trace key st (x :: rs) st2
  | at_err d st a d' st1 e rs st2 :
      store_key d = key → api_exec d st a = (d', (st1, Err e)) →
      api_trace key st1 rs st2 → api_trace key st rs st2
  | at_env st st1 rs st2 :
      same_contents st st1 → api_trace key st1 rs st2 → api_trace key st rs st2.

(** Operations granted by responses that reached a caller. *)
Definition delivered_ops (lid : string) (rs : list response) : list string :=
  flat_map (granted_op lid) rs.

Lemma api_trace_simulates key st rs st' s :
  api_trace key st rs st' → stores st key s →
  ∃ h t, trace s h t ∧ stores st' key t ∧
    ∀ lid, delivered_ops lid rs `sublist_of` granted_ops lid h.
Proof.
  intros Ht. revert s.
  induction Ht as [st|d st a d' st1 x rs st2 Hk Ha _ IH|d st a d' st1 e rs st2 Hk Ha _ IH
                  |st st1 rs st2 Hc _ IH]; intros s Hs.
  - exists [], s. split_and!; [constructor|done|done].
  - subst key. destruct (api_simulates _ _ _ _ _ _ _ Ha Hs) as (h1 & s1 & Ht1 & Hs1 & Hg).
    destruct (IH s1 Hs1) as (h2 & t & Ht2 & Hs2 & Hsub). exists (h1 ++ h2), t.
    split_and!; [by eapply trace_app|done|]. intros lid. unfold granted_ops.
    rewrite flat_map_app. simpl. apply sublist_app; [|apply Hsub].
    by rewrite <- (Hg x eq_refl lid).
  - subst key. destruct (api_simulates _ _ _ _ _ _ _ Ha Hs) as (h1 & s1 & Ht1 & Hs1 & _).
    destruct (IH s1 Hs1) as (h2 & t & Ht2 & Hs2 & Hsub). exists (h1 ++ h2), t.
    split_and!; [by eapply trace_app|done|]. intros lid. unfold granted_ops.
    rewrite flat_map_app. by apply sublist_inserts_l, Hsub.
  - apply IH. by eapply stores_same.
Qed.

(** One process making calls one after the other. *)
Fixpoint run_api (d : DurableReplayStore) (st : rs_t) (calls : list api)
    : DurableReplayStore * rs_t * list response :=
  match calls with
  | [] => (d, st, [])
  | a :: calls' =>
      let '(d1, (st1, r)) := api_exec d st a in
      let '(d2, st2, rs) := run_api d1 st1 calls' in
      (d2, st2, match r with Ok x => x :: rs | Err _ => rs end)
  end.

Lemma api_exec_key d st a d' p : api_exec d st a = (d', p) → store_key d' = store_key d.
Proof.
  destruct a; simpl; intros H; try by injection H as <- _.
  unfold start_epoch in H. destruct (activation d); try by injection H as <- _.
  destruct (rs_try_lock_instance st) as [st1 [u|e]].
  - destruct (with_locked_state_unchecked _ _ _) as [st2 [g|e]]; by injection H as <- _.
  - destruct e; by injection H as <- _.
Qed.

Lemma run_api_trace d st calls :
  api_trace (store_key d) st (run_api d st calls).2 (run_api d st calls).1.2.
Proof.
  revert d st. induction calls as [|a calls IH]; intros d st; simpl; [constructor|].
  destruct (api_exec d st a) as [d1 [st1 r]] eqn:Ha.
  specialize (IH d1 st1). rewrite (api_exec_key _ _ _ _ _ Ha) in IH.
  destruct (run_api d1 st1 calls) as [[d2 st2] rs]. simpl in *.
  destruct r as [x|e]; [by eapply at_ok|by eapply at_err].
Qed.

(** ** Properties *)

(** C1: the operations on the shared storage implement the ledger, with
    failures: over any history of calls by any processes that starts with a
    bootstrapped store, whatever reads, locks and replacements fail or fail
    after taking effect, the state file still holds a ledger of the same
    store, no operation of a lease was granted twice, and the permits that
    reached a caller plus the remaining uses do not exceed the budget. *)
Theorem durable_permits key st rs st' id :
  stores st key (empty_ledger id) → api_trace key st rs st' →
  ∃ t, stores st' key t ∧ ps_store_id t = id ∧
    ∀ lid, NoDup (delivered_ops lid rs) ∧
      ∀ l, ps_leases t !! lid = Some l →
        ∃ m k, capacity (uses (pl_constraints l)) = CapacityBounded m k ∧
          (pl_remaining_uses l + N.of_nat (length (delivered_ops lid rs)) <= m)%N.
Proof.
  intros Hs Ht. destruct (api_trace_simulates _ _ _ _ _ Ht Hs) as (h & t & Htr & Hst & Hsub).
  exists t. split; [done|]. split; [by destruct (trace_le _ _ _ Htr)|]. intros lid.
  destruct (trace_used _ _ _ lid Htr) as (Hnd & _ & Hu).
  split; [by eapply sublist_NoDup|]. intros l Hl.
  destruct (trace_inv _ _ _ Htr (empty_ledger_inv id)) as [Hls _].
  destruct (Hls _ _ Hl) as (_ & (m & k & Hc & Hm & _) & _). exists m, k. split; [done|].
  unfold used in Hu. simpl in Hu. rewrite Hl, lookup_empty, (left_id_L ∅ (∪)) in Hu.
  pose proof (size_list_to_set (C := gset string) _ Hnd) as Hsz.
  rewrite <- Hu, size_dom in Hsz. pose proof (sublist_length _ _ (Hsub lid)). lia.
Qed.

(** what was written is what is read, and what is read was written
    under the key: a ledger that [write_authenticated_state] reports as
    written is the ledger the next successful read returns, and any ledger
    ever read carries the key's MAC over its canonical form. *)
Theorem authenticated_round_trip st key s st' :
  (write_authenticated_state st s key = (st', Ok tt) →
   ∀ s', read_authenticated_state st' key = Ok s' → s' = s) ∧
  (∀ s', read_authenticated_state st key = Ok s' →
   ∃ bytes signed input, rs_contents st STATE_FILE_NAME = Some bytes ∧
     from_slice bytes = Some signed ∧ ss_payload signed = s' ∧
     canonical_json_v1 {| mi_format_version := STORE_FORMAT_VERSION; mi_payload := s' |}
       = Ok input ∧
     hex_decode (ss_hmac_sha256 signed) = Some (hmac_sha256 key (STATE_LABEL +:+ input))).
Proof.
  split.
  - intros Hw s' Hr. apply write_stores in Hw as [Hw _]. eapply read_stores; eauto.
  - intros s' Hr. unfold read_authenticated_state in Hr.
    apply rbind_Ok in Hr as (bytes & Hb%map_err_Ok%rs_read_contents & Hr).
    unfold authenticate_state_bytes in Hr.
    apply rbind_Ok in Hr as (signed & Hsl%ok_or_Ok & Hr).
    apply fail_if_Ok in Hr as [Hv%negb_false_iff%N.eqb_eq Hr].
    apply rbind_Ok in Hr as (expected & He%ok_or_Ok & Hr).
    apply rbind_Ok in Hr as (mac & Hm & Hr).
    apply fail_if_Ok in Hr as [Hq%negb_false_iff%String.eqb_eq Hr].
    apply rbind_Ok in Hr as (? & _ & [= <-]).
    unfold state_mac in Hm. apply rbind_Ok in Hm as (input & Hi%map_err_Ok & [= <-]).
    rewrite Hv in Hi. exists bytes, signed, input. by subst expected.
Qed.

(** a store object starts at most one epoch: a start succeeds only from
    the inactive state and leaves the store active; every other start that
    got past the instance lock leaves it poisoned for ever; and only an
    active store serves leases. *)
Theorem start_epoch_once d st d' st' r :
  start_epoch d st = (d', st', r) →
  (is_ok r = true ↔ activation d = INACTIVE ∧ activation d' = ACTIVE) ∧
  (activation d' ≠ INACTIVE →
   ∀ st1, ∃ e, start_epoch d' st1 = (d', st1, Err e)) ∧
  (activation d' ≠ ACTIVE →
   ∀ st1 l o now, ∃ e, begin_use d' st1 l o now = (st1, Err e)).
Proof.
  intros Hs. split_and!.
  - unfold start_epoch in Hs. destruct (activation d) eqn:Ha;
      [|injection Hs as <- <- <-; rewrite Ha; naive_solver..].
    destruct (rs_try_lock_instance st) as [st1 [u|e]].
    + destruct (with_locked_state_unchecked _ _ _) as [st2 [g|e]];
        injection Hs as <- <- <-; simpl; naive_solver.
    + destruct e; injection Hs as <- <- <-; simpl; naive_solver.
  - intros Hn st1. unfold start_epoch. destruct (activation d'); [done|eauto..].
  - intros Hn st1 l o now. unfold begin_use, with_locked_state, ensure_active.
    rewrite bool_decide_eq_false_2 by done. simpl.
    destruct (validate_operation_id o); simpl; eauto.
Qed.
End durable.

(** ** An in-memory storage *)

(** A directory of files, the instance lock, and how many replacements will
    still succeed: the next one after those takes effect but reports an
    error. *)
Record MemoryDir := { md_files : gmap string string; md_locked : bool; md_good_writes : nat }.

#[export] Instance memory_storage : ReplayStorage := {|
  rs_t := MemoryDir;
  rs_bootstrap root workspace :=
    if starts_with workspace root then Err StStorageOverlapsWorkspace
    else Ok {| md_files := ∅; md_locked := false; md_good_writes := 100 |};
  rs_open_existing root := Err StMissing;
  rs_overlaps_directory st dir := Ok false;
  rs_lock_transaction st := Ok tt;
  rs_try_lock_instance st :=
    if md_locked st then (st, Err StInstanceAlreadyActive)
    else ({| md_files := md_files st; md_locked := true; md_good_writes := md_good_writes st |},
          Ok tt);
  rs_unlock_instance st :=
    {| md_files := md_files st; md_locked := false; md_good_writes := md_good_writes st |};
  rs_exists st n := Ok (bool_decide (is_Some (md_files st !! n)));
  rs_read st n limit :=
    match md_files st !! n with
    | Some b => if (limit <? str_len b)%N then Err StTooLarge else Ok b
    | None => Err StMissing
    end;
  rs_replace st n b :=
    ({| md_files := <[n := b]> (md_files st); md_locked := md_locked st;
        md_good_writes := md_good_writes st - 1 |},
     if (0 <? md_good_writes st)%nat then Ok tt else Err StIo);
|}.

#[export] Program Instance memory_storage_laws : ReplayStorageLaws memory_storage :=
  {| rs_contents st n := md_files st !! n |}.
Next Obligation.
  simpl. intros st n limit b H. destruct (md_files st !! n); [|done].
  destruct (limit <? str_len s)%N; [done|congruence].
Qed.
Next Obligation.
  simpl. intros st n b st' H. injection H as <- _. simpl. by rewrite lookup_insert_eq.
Qed.
Next Obligation.
  simpl. intros st n b st' e H. injection H as <- _. right. simpl. by rewrite lookup_insert_eq.
Qed.
Next Obligation. simpl. intros st n. by destruct (md_locked st). Qed.
Next Obligation. done. Qed.

(** ** Witnesses *)

Definition sample_key : string := "a protected host key".

(** A bootstrapped store on a storage whose third replacement fails late. *)
Definition bootstrapped : DurableReplayStore * MemoryDir :=
  match bootstrap (S := memory_storage) "/broker" "/work" sample_key (str_repeat "abcd" 8) with
  | Ok (d, st) => (d, {| md_files := md_files st; md_locked := false; md_good_writes := 2 |})
  | Err _ => (from_parts EmptyString sample_key,
              {| md_files := ∅; md_locked := false; md_good_writes := 0 |})
  end.

Definition failing_calls : list api :=
  [PStartEpoch; PReserve sample_digest "key" sample_binding;
   PBeginUse (sample_id LeaseIdK) "op" 150; PBeginUse (sample_id LeaseIdK) "op" 150].

(** The use whose write failed is in the ledger: its retry gets no permit. *)
Example failing_calls_run :
  (run_api (S := memory_storage) bootstrapped.1 bootstrapped.2 failing_calls).2 =
  [AGeneration 1; AReserved (RNew (sample_id LeaseIdK)); AUse (UExisting InProgress)].
Proof. vm_compute. reflexivity. Qed.

Lemma bootstrapped_stores :
  stores (S := memory_storage) bootstrapped.2 (store_key bootstrapped.1)
    (empty_ledger (store_id bootstrapped.1)).
Proof.
  exists (default EmptyString (md_files bootstrapped.2 !! STATE_FILE_NAME)).
  split; vm_compute; reflexivity.
Qed.

Lemma durable_permits_witness :
  ∃ t, stores (S := memory_storage)
         (run_api (S := memory_storage) bootstrapped.1 bootstrapped.2 failing_calls).1.2
         (store_key bootstrapped.1) t ∧ ps_store_id t = store_id bootstrapped.1.
Proof.
  destruct (durable_permits (S := memory_storage) (store_key bootstrapped.1) bootstrapped.2 _ _
    (store_id bootstrapped.1) bootstrapped_stores
    (run_api_trace (S := memory_storage) bootstrapped.1 bootstrapped.2 failing_calls))
    as (t & Hs & Hid & _).
  exists t. split; [exact Hs|exact Hid].
Defined.

Lemma authenticated_round_trip_witness :
  ∃ s', read_authenticated_state (S := memory_storage)
          (write_authenticated_state (S := memory_storage) bootstrapped.2
             (empty_ledger (store_id bootstrapped.1)) sample_key).1 sample_key = Ok s' ∧
    s' = empty_ledger (store_id bootstrapped.1).
Proof.
  exists (empty_ledger (store_id bootstrapped.1)). split; [vm_compute; reflexivity|].
  apply (proj1 (authenticated_round_trip (S := memory_storage) bootstrapped.2 sample_key
    (empty_ledger (store_id bootstrapped.1))
    (write_authenticated_state (S := memory_storage) bootstrapped.2
       (empty_ledger (store_id bootstrapped.1)) sample_key).1)); vm_compute; reflexivity.
Defined.

Lemma start_epoch_once_witness :
  ∃ d' st', start_epoch (S := memory_storage) bootstrapped.1 bootstrapped.2 = (d', st', Ok 1%N) ∧
    activation d' = ACTIVE.
Proof.
  eexists _, _. split; [vm_compute; reflexivity|].
  refine (proj2 (proj1 (proj1 (start_epoch_once (S := memory_storage) bootstrapped.1
    bootstrapped.2 _ _ (Ok 1%N) _)) eq_refl)); [vm_compute; reflexivity].
Defined.
