(* ===== verification/Locus.v ===== *)
(** * The Phantom-Locus compatibility contract:
      [crates/phantom-locus-contract/src/lib.rs]

    Value-free offers, the blockers between two of them and the negotiation,
    which succeeds only when there is none. *)

From S2P Require Import Prelude Ids External Canonical Constraints.

Definition CONTRACT_NAME : string := "phantom-locus-authority".
Definition CONTRACT_VERSION : N := 1.

Definition LOCUS_SESSION_SEAL_REVISION : string := "00162aa75c2a4139f1a6da7018b07a4f04843d88".
Definition LOCUS_CONTAINMENT_REVISION : string := "1f070a85fd3deb81ddeb07396b84bfde97307a7d".
Definition LOCUS_AUTHORITY_SANDBOX_REVISION : string :=
  "aa3cebe2dde9ee06c15630c8dc2e67c6dcb51e7e".
Definition LOCUS_APPROVAL_AUTHORITY_REVISION : string :=
  "0c35b10e5d84baf1e23da842bef2c795110e5753".

(** Double quotes for the apostrophes of a readable literal. *)
Fixpoint json_text (s : string) : string :=
  match s with
  | EmptyString => EmptyString
  | String c s' =>
      String (if ascii_eqb c "'"%char then "034"%char else c) (json_text s')
  end.

Definition CONTRACT_FIXTURE_V1 : string := json_text
  ("{'canonicalization':'rfc8785_jcs_v1','contract':'phantom-locus-authority'," +:+
   "'contract_version':1,'credential_handoff':'value_free_lease_v1','required_features':[" +:+
   "'canonical_signed_envelope','exact_session_authority','fail_closed_revocation'," +:+
   "'human_approval_out_of_band','peer_authenticated_native_transport','replay_safe_nonce'," +:+
   "'secret_reveal_forbidden','value_free_credential_lease']," +:+
   "'signature_algorithm':'ed25519','transport':'peer_authenticated_native_v1'}").

(** ** Offers *)

Inductive Product := Phantom | Locus.
Inductive RequiredFeatureV1 :=
  | CanonicalSignedEnvelope | ExactSessionAuthority | FailClosedRevocation
  | HumanApprovalOutOfBand | PeerAuthenticatedNativeTransport | ReplaySafeNonce
  | SecretRevealForbidden | ValueFreeCredentialLease.
Inductive CanonicalizationProfile := Rfc8785JcsV1 | LegacyMixedJson.
Inductive IdentityProfile := SharedOpaqueIdsV1 | LocusLegacyLabels.
Inductive CredentialHandoff := ValueFreeLeaseV1 | PlaintextStdoutReveal.
Inductive TransportProfile := PeerAuthenticatedNativeV1 | UnixSocketHmacV3 | TransportNone.
Inductive ApprovalProfile := ExternalEd25519NonceStoreV1 | DisabledSchemaOnly.
Inductive RevocationProfile := CrossRepoAtomicV1 | SessionGenerationOnly | RevocationNone.
Inductive SignatureAlgorithm := Ed25519 | SignatureNone.

#[export] Instance Product_eq_dec : EqDecision Product.
Proof. solve_decision. Defined.
#[export] Instance RequiredFeatureV1_eq_dec : EqDecision RequiredFeatureV1.
Proof. solve_decision. Defined.
#[export] Instance CanonicalizationProfile_eq_dec : EqDecision CanonicalizationProfile.
Proof. solve_decision. Defined.
#[export] Instance IdentityProfile_eq_dec : EqDecision IdentityProfile.
Proof. solve_decision. Defined.
#[export] Instance CredentialHandoff_eq_dec : EqDecision CredentialHandoff.
Proof. solve_decision. Defined.
#[export] Instance TransportProfile_eq_dec : EqDecision TransportProfile.
Proof. solve_decision. Defined.
#[export] Instance ApprovalProfile_eq_dec : EqDecision ApprovalProfile.
Proof. solve_decision. Defined.
#[export] Instance RevocationProfile_eq_dec : EqDecision RevocationProfile.
Proof. solve_decision. Defined.
#[export] Instance SignatureAlgorithm_eq_dec : EqDecision SignatureAlgorithm.
Proof. solve_decision. Defined.

Record SourceIdentityV1 := {
  coherent_revision : option string;
  component_revisions : list string;
}.

Record CompatibilityOfferV1 := {
  of_contract : string;
  of_product : Product;
  of_supported_versions : list N;
  of_canonicalization : CanonicalizationProfile;
  of_identity_profile : IdentityProfile;
  of_credential_handoff : CredentialHandoff;
  of_transport : TransportProfile;
  of_approval : ApprovalProfile;
  of_revocation : RevocationProfile;
  of_signature_algorithm : SignatureAlgorithm;
  of_features : list RequiredFeatureV1;
  of_fixture_sha256 : Sha256Digest;
  of_source : SourceIdentityV1;
}.

Inductive CompatibilityBlocker :=
  | BContractName | BSameProduct | BInvalidVersionAdvertisement | BNoExactVersion
  | BCanonicalization | BIdentityProfile | BCredentialHandoff | BTransport
  | BApprovalVerifier | BRevocation | BSignatureAlgorithm
  | BRequiredFeature (f : RequiredFeatureV1)
  | BFixtureDigest | BMissingCoherentRevision | BInvalidSourceRevision.

Definition feature_index (f : RequiredFeatureV1) : N :=
  match f with
  | CanonicalSignedEnvelope => 0 | ExactSessionAuthority => 1 | FailClosedRevocation => 2
  | HumanApprovalOutOfBand => 3 | PeerAuthenticatedNativeTransport => 4
  | ReplaySafeNonce => 5 | SecretRevealForbidden => 6 | ValueFreeCredentialLease => 7
  end.

(** The derived order: variants in order, a feature within its variant. *)
Definition blocker_index (b : CompatibilityBlocker) : N :=
  match b with
  | BContractName => 0 | BSameProduct => 1 | BInvalidVersionAdvertisement => 2
  | BNoExactVersion => 3 | BCanonicalization => 4 | BIdentityProfile => 5
  | BCredentialHandoff => 6 | BTransport => 7 | BApprovalVerifier => 8 | BRevocation => 9
  | BSignatureAlgorithm => 10
  | BRequiredFeature f => 11 + feature_index f
  | BFixtureDigest => 19 | BMissingCoherentRevision => 20 | BInvalidSourceRevision => 21
  end.

#[export] Instance Ord_blocker : Ord CompatibilityBlocker.
Proof. refine (Ord_index blocker_index _). intros x y; destruct x as [| | | | | | | | | | |[]| | |], y as [| | | | | | | | | | |[]| | |]; by intros [=]. Defined.

Record NegotiatedContractV1 := { nc_version : N; nc_fixture_sha256 : Sha256Digest }.

Definition required_features_v1 : list RequiredFeatureV1 :=
  [CanonicalSignedEnvelope; ExactSessionAuthority; FailClosedRevocation;
   HumanApprovalOutOfBand; PeerAuthenticatedNativeTransport; ReplaySafeNonce;
   SecretRevealForbidden; ValueFreeCredentialLease].

(** [fn valid_version_advertisement]: nonzero and strictly descending *)
Fixpoint strictly_descending (l : list N) : bool :=
  match l with
  | x :: ((y :: _) as l') => (y <? x)%N && strictly_descending l'
  | _ => true
  end.

Definition valid_version_advertisement (versions : list N) : bool :=
  match versions with [] => false | _ => true end
  && forallb (fun v => 0 <? v)%N versions
  && strictly_descending versions.

(** [fn valid_git_revision] *)
Definition valid_git_revision (r : string) : bool :=
  (String.length r =? 40)%nat && all_bytes is_lower_hex r.

Section negotiation.
Context `{X : External} `{XL : !ExternalLaws X}.

(** [fn fixture_sha256_v1]; the [expect] is discharged by the digest's shape. *)
Definition fixture_sha256_v1 : Sha256Digest :=
  mk_digest (sha256_hex CONTRACT_FIXTURE_V1)
    (hex32_valid (sha256 CONTRACT_FIXTURE_V1) (sha256_length CONTRACT_FIXTURE_V1)).

(** [fn phantom_required_offer_v1] *)
Definition phantom_required_offer_v1 (revision : string) : CompatibilityOfferV1 := {|
  of_contract := CONTRACT_NAME; of_product := Phantom;
  of_supported_versions := [CONTRACT_VERSION];
  of_canonicalization := Rfc8785JcsV1; of_identity_profile := SharedOpaqueIdsV1;
  of_credential_handoff := ValueFreeLeaseV1; of_transport := PeerAuthenticatedNativeV1;
  of_approval := ExternalEd25519NonceStoreV1; of_revocation := CrossRepoAtomicV1;
  of_signature_algorithm := Ed25519; of_features := required_features_v1;
  of_fixture_sha256 := fixture_sha256_v1;
  of_source := {| coherent_revision := Some revision; component_revisions := [] |} |}.

(** [fn audited_locus_candidate_offer_v1] *)
Definition zero_digest : Sha256Digest := mk_digest (str_repeat "00" 32) eq_refl.

Definition audited_locus_candidate_offer_v1 : CompatibilityOfferV1 := {|
  of_contract := CONTRACT_NAME; of_product := Locus;
  of_supported_versions := [CONTRACT_VERSION];
  of_canonicalization := LegacyMixedJson; of_identity_profile := LocusLegacyLabels;
  of_credential_handoff := PlaintextStdoutReveal; of_transport := UnixSocketHmacV3;
  of_approval := DisabledSchemaOnly; of_revocation := SessionGenerationOnly;
  of_signature_algorithm := SignatureNone;
  of_features := [ExactSessionAuthority; HumanApprovalOutOfBand];
  of_fixture_sha256 := zero_digest;
  of_source := {| coherent_revision := None;
                  component_revisions :=
                    [LOCUS_SESSION_SEAL_REVISION; LOCUS_CONTAINMENT_REVISION;
                     LOCUS_AUTHORITY_SANDBOX_REVISION; LOCUS_APPROVAL_AUTHORITY_REVISION] |} |}.

(** [if condition { blockers.insert(b); }] *)
Definition block_if (condition : bool) (b : CompatibilityBlocker)
    (blockers : list CompatibilityBlocker) : list CompatibilityBlocker :=
  if condition then btree_insert b blockers else blockers.

(** The body of [for offer in [local, remote]]. *)
Definition offer_blockers (o : CompatibilityOfferV1) (blockers : list CompatibilityBlocker)
    : list CompatibilityBlocker :=
  let b1 := block_if (negb (valid_version_advertisement (of_supported_versions o)))
              BInvalidVersionAdvertisement blockers in
  let b2 := block_if (negb (bool_decide (of_canonicalization o = Rfc8785JcsV1)))
              BCanonicalization b1 in
  let b3 := block_if (negb (bool_decide (of_identity_profile o = SharedOpaqueIdsV1)))
              BIdentityProfile b2 in
  let b4 := block_if (negb (bool_decide (of_credential_handoff o = ValueFreeLeaseV1)))
              BCredentialHandoff b3 in
  let b5 := block_if (negb (bool_decide (of_transport o = PeerAuthenticatedNativeV1)))
              BTransport b4 in
  let b6 := block_if (negb (bool_decide (of_approval o = ExternalEd25519NonceStoreV1)))
              BApprovalVerifier b5 in
  let b7 := block_if (negb (bool_decide (of_revocation o = CrossRepoAtomicV1)))
              BRevocation b6 in
  let b8 := block_if (negb (bool_decide (of_signature_algorithm o = Ed25519)))
              BSignatureAlgorithm b7 in
  let b9 := fold_left (fun acc f =>
              block_if (negb (bool_decide (f ∈ of_features o))) (BRequiredFeature f) acc)
              required_features_v1 b8 in
  let b10 := block_if (negb (bool_decide (of_fixture_sha256 o = fixture_sha256_v1)))
               BFixtureDigest b9 in
  let b11 := match coherent_revision (of_source o) with
             | None => btree_insert BMissingCoherentRevision b10
             | Some r => block_if (negb (valid_git_revision r)) BInvalidSourceRevision b10
             end in
  block_if (existsb (fun r => negb (valid_git_revision r)) (component_revisions (of_source o)))
    BInvalidSourceRevision b11.

(** [pub fn compatibility_blockers] *)
Definition compatibility_blockers (local remote : CompatibilityOfferV1)
    : list CompatibilityBlocker :=
  let b1 := block_if (negb (String.eqb (of_contract local) CONTRACT_NAME)
                      || negb (String.eqb (of_contract remote) CONTRACT_NAME))
              BContractName [] in
  let b2 := block_if (bool_decide (of_product local = of_product remote)) BSameProduct b1 in
  let b3 := fold_left (fun acc o => offer_blockers o acc) [local; remote] b2 in
  block_if (negb (bool_decide (CONTRACT_VERSION ∈ of_supported_versions local))
            || negb (bool_decide (CONTRACT_VERSION ∈ of_supported_versions remote)))
    BNoExactVersion b3.

(** [pub fn negotiate_v1]; the error is the list of blockers. *)
Definition negotiate_v1 (local remote : CompatibilityOfferV1)
    : result NegotiatedContractV1 (list CompatibilityBlocker) :=
  match compatibility_blockers local remote with
  | [] => Ok {| nc_version := CONTRACT_VERSION; nc_fixture_sha256 := fixture_sha256_v1 |}
  | blockers => Err blockers
  end.

(** ** Lemmas *)

Lemma block_if_elem x c b l : x ∈ block_if c b l ↔ (c = true ∧ x = b) ∨ x ∈ l.
Proof. unfold block_if. destruct c; rewrite ?btree_insert_elem; naive_solver. Qed.

Lemma block_if_sorted c b l : ord_sorted l → ord_sorted (block_if c b l).
Proof. unfold block_if. destruct c; auto with ordset. Qed.

(** What one side of the negotiation must satisfy. *)
Definition offer_meets (o : CompatibilityOfferV1) : Prop :=
  valid_version_advertisement (of_supported_versions o) = true ∧
  of_canonicalization o = Rfc8785JcsV1 ∧ of_identity_profile o = SharedOpaqueIdsV1 ∧
  of_credential_handoff o = ValueFreeLeaseV1 ∧
  of_transport o = PeerAuthenticatedNativeV1 ∧
  of_approval o = ExternalEd25519NonceStoreV1 ∧ of_revocation o = CrossRepoAtomicV1 ∧
  of_signature_algorithm o = Ed25519 ∧ (∀ f, f ∈ of_features o) ∧
  of_fixture_sha256 o = fixture_sha256_v1 ∧
  (∃ r, coherent_revision (of_source o) = Some r ∧ valid_git_revision r = true) ∧
  Forall (fun r => valid_git_revision r = true) (component_revisions (of_source o)).

(** The condition a blocker names, on one offer. *)
Definition offer_blocked (o : CompatibilityOfferV1) (b : CompatibilityBlocker) : Prop :=
  match b with
  | BInvalidVersionAdvertisement =>
      valid_version_advertisement (of_supported_versions o) = false
  | BCanonicalization => of_canonicalization o ≠ Rfc8785JcsV1
  | BIdentityProfile => of_identity_profile o ≠ SharedOpaqueIdsV1
  | BCredentialHandoff => of_credential_handoff o ≠ ValueFreeLeaseV1
  | BTransport => of_transport o ≠ PeerAuthenticatedNativeV1
  | BApprovalVerifier => of_approval o ≠ ExternalEd25519NonceStoreV1
  | BRevocation => of_revocation o ≠ CrossRepoAtomicV1
  | BSignatureAlgorithm => of_signature_algorithm o ≠ Ed25519
  | BRequiredFeature f => f ∉ of_features o
  | BFixtureDigest => of_fixture_sha256 o ≠ fixture_sha256_v1
  | BMissingCoherentRevision => coherent_revision (of_source o) = None
  | BInvalidSourceRevision =>
      (∃ r, coherent_revision (of_source o) = Some r ∧ valid_git_revision r = false) ∨
      (∃ r, r ∈ component_revisions (of_source o) ∧ valid_git_revision r = false)
  | _ => False
  end.

(** The condition a blocker names, on the two offers. *)
Definition blocked (local remote : CompatibilityOfferV1) (b : CompatibilityBlocker) : Prop :=
  match b with
  | BContractName => of_contract local ≠ CONTRACT_NAME ∨ of_contract remote ≠ CONTRACT_NAME
  | BSameProduct => of_product local = of_product remote
  | BNoExactVersion => ¬ (CONTRACT_VERSION ∈ of_supported_versions local ∧
                          CONTRACT_VERSION ∈ of_supported_versions remote)
  | _ => offer_blocked local b ∨ offer_blocked remote b
  end.

Lemma feature_fold_elem x o fs acc :
  x ∈ fold_left (fun acc f =>
        block_if (negb (bool_decide (f ∈ of_features o))) (BRequiredFeature f) acc) fs acc ↔
  (∃ f, f ∈ fs ∧ x = BRequiredFeature f ∧ f ∉ of_features o) ∨ x ∈ acc.
Proof.
  revert acc. induction fs as [|f fs IH]; intros acc; simpl.
  - split; [auto|]. intros [(f & Hf & _)|]; [by apply not_elem_of_nil in Hf|done].
  - rewrite IH, block_if_elem, negb_true_iff, bool_decide_eq_false.
    setoid_rewrite elem_of_cons. naive_solver.
Qed.

Lemma required_features_all f : f ∈ required_features_v1.
Proof. apply list_elem_of_In. destruct f; simpl; tauto. Qed.

Lemma revision_elem x o l :
  x ∈ match coherent_revision (of_source o) with
      | None => btree_insert BMissingCoherentRevision l
      | Some r => block_if (negb (valid_git_revision r)) BInvalidSourceRevision l
      end ↔
  (coherent_revision (of_source o) = None ∧ x = BMissingCoherentRevision) ∨
  ((∃ r, coherent_revision (of_source o) = Some r ∧ valid_git_revision r = false) ∧
   x = BInvalidSourceRevision) ∨ x ∈ l.
Proof.
  destruct (coherent_revision (of_source o)) as [r|].
  - rewrite block_if_elem, negb_true_iff. naive_solver.
  - rewrite btree_insert_elem. naive_solver.
Qed.

(** The disjunct of a chain that pairs a condition with its blocker. *)
Ltac pick_disjunct H :=
  first [solve [split; [exact H|reflexivity]]
        |left; solve [split; [exact H|reflexivity]]
        |left; solve [eexists; split; [reflexivity|exact H]]
        |right; pick_disjunct H].

Lemma offer_blockers_elem x o l : x ∈ offer_blockers o l ↔ offer_blocked o x ∨ x ∈ l.
Proof.
  unfold offer_blockers. cbv zeta.
  rewrite !block_if_elem, revision_elem, !block_if_elem, feature_fold_elem, !block_if_elem,
    !negb_true_iff, !bool_decide_eq_false, existsb_exists.
  setoid_rewrite <- list_elem_of_In. setoid_rewrite negb_true_iff.
  assert (∀ P : RequiredFeatureV1 → Prop,
    (∃ f, f ∈ required_features_v1 ∧ P f) ↔ ∃ f, P f) as ->.
  { intros P. split; [naive_solver|]. intros [f Hf]. eauto using required_features_all. }
  split.
  - intros H. repeat match type of H with _ ∨ _ => destruct H as [H|H] end;
      [..|by right]; left;
      try (destruct H as [H ->]; simpl; tauto); by destruct H as (f & -> & Hf).
  - intros [H|H]; [|by repeat right].
    destruct x; simpl in H; try done; [pick_disjunct H..|by destruct H; pick_disjunct H].
Qed.

Lemma offer_blockers_sorted o l : ord_sorted l → ord_sorted (offer_blockers o l).
Proof.
  intros Hl. unfold offer_blockers. cbv zeta. apply block_if_sorted.
  assert (∀ fs acc, ord_sorted acc → ord_sorted (fold_left (fun acc f =>
    block_if (negb (bool_decide (f ∈ of_features o))) (BRequiredFeature f) acc) fs acc)) as Hf.
  { induction fs; simpl; auto using block_if_sorted. }
  destruct (coherent_revision (of_source o));
    [apply block_if_sorted|apply btree_insert_sorted]; apply block_if_sorted, Hf;
    by repeat apply block_if_sorted.
Qed.

Lemma compatibility_blockers_elem local remote b :
  b ∈ compatibility_blockers local remote ↔ blocked local remote b.
Proof.
  unfold compatibility_blockers. cbn [fold_left].
  rewrite block_if_elem, !offer_blockers_elem, !block_if_elem.
  rewrite !orb_true_iff, !negb_true_iff, !bool_decide_eq_false, bool_decide_eq_true,
    !String.eqb_neq.
  assert (¬ (b ∈ ([] : list CompatibilityBlocker))) as Hnil by apply not_elem_of_nil.
  assert (∀ P Q : Prop, Decision P → (¬ P ∨ ¬ Q ↔ ¬ (P ∧ Q))) as Hdm.
  { intros P Q [|]; tauto. }
  rewrite Hdm by apply _. destruct b; simpl; naive_solver.
Qed.

Lemma blocked_none local remote :
  (∀ b, ¬ blocked local remote b) ↔
  of_contract local = CONTRACT_NAME ∧ of_contract remote = CONTRACT_NAME ∧
  of_product local ≠ of_product remote ∧
  CONTRACT_VERSION ∈ of_supported_versions local ∧
  CONTRACT_VERSION ∈ of_supported_versions remote ∧ offer_meets local ∧ offer_meets remote.
Proof.
  assert (∀ o, (∀ b, ¬ offer_blocked o b) ↔ offer_meets o) as Ho.
  { intros o. unfold offer_meets. split.
    - intros Hn.
      assert (∀ (P : Prop), Decision P → ¬ ¬ P → P) as Hdne by (intros P HP; by destruct HP).
      split_and!.
      + apply not_false_is_true, (Hn BInvalidVersionAdvertisement).
      + apply Hdne; [apply _|apply (Hn BCanonicalization)].
      + apply Hdne; [apply _|apply (Hn BIdentityProfile)].
      + apply Hdne; [apply _|apply (Hn BCredentialHandoff)].
      + apply Hdne; [apply _|apply (Hn BTransport)].
      + apply Hdne; [apply _|apply (Hn BApprovalVerifier)].
      + apply Hdne; [apply _|apply (Hn BRevocation)].
      + apply Hdne; [apply _|apply (Hn BSignatureAlgorithm)].
      + intros f. apply Hdne; [apply _|apply (Hn (BRequiredFeature f))].
      + apply Hdne; [apply _|apply (Hn BFixtureDigest)].
      + destruct (coherent_revision (of_source o)) as [r|] eqn:E.
        * exists r. split; [done|]. apply not_false_is_true. intros Hr.
          apply (Hn BInvalidSourceRevision). left. eauto.
        * exfalso. by apply (Hn BMissingCoherentRevision).
      + apply Forall_forall. intros r Hr. apply not_false_is_true. intros Hf.
        apply (Hn BInvalidSourceRevision). right. eauto.
    - intros (Hv & ? & ? & ? & ? & ? & ? & ? & Hf & ? & (r & Hr & Hg) & Hc) b Hb.
      rewrite Forall_forall in Hc.
      destruct b; simpl in Hb; try congruence; [by apply Hb|].
      destruct Hb as [(r' & Hr' & Hg')|(r' & Hr' & Hg')]; [congruence|].
      rewrite Hc in Hg' by done. done. }
  rewrite <- !Ho. split.
  - intros Hn.
    pose proof (Hn BContractName) as Hc. pose proof (Hn BSameProduct) as Hp.
    pose proof (Hn BNoExactVersion) as Hx. simpl in Hc, Hp, Hx.
    destruct (decide (of_contract local = CONTRACT_NAME)); [|tauto].
    destruct (decide (of_contract remote = CONTRACT_NAME)); [|tauto].
    destruct (decide (CONTRACT_VERSION ∈ of_supported_versions local)); [|tauto].
    destruct (decide (CONTRACT_VERSION ∈ of_supported_versions remote)); [|tauto].
    split_and!; try done; intros b Hb; specialize (Hn b); destruct b; simpl in *; tauto.
  - intros (? & ? & ? & ? & ? & Hl & Hr) b. specialize (Hl b). specialize (Hr b).
    destruct b; simpl in *; tauto.
Qed.

(** ** Properties *)

(** the negotiation reports every incompatibility at once: it fails with
    the sorted list, without repetition, of exactly the blockers whose
    condition holds of the two offers, and succeeds exactly when both offers
    meet every requirement. *)
Theorem negotiate_exact local remote :
  (∀ blockers, negotiate_v1 local remote = Err blockers →
     ord_sorted blockers ∧ blockers ≠ [] ∧ ∀ b, b ∈ blockers ↔ blocked local remote b) ∧
  (is_ok (negotiate_v1 local remote) = true ↔
     of_contract local = CONTRACT_NAME ∧ of_contract remote = CONTRACT_NAME ∧
     of_product local ≠ of_product remote ∧
     CONTRACT_VERSION ∈ of_supported_versions local ∧
     CONTRACT_VERSION ∈ of_supported_versions remote ∧
     offer_meets local ∧ offer_meets remote).
Proof.
  assert (ord_sorted (compatibility_blockers local remote)) as Hs.
  { unfold compatibility_blockers. simpl.
    apply block_if_sorted, offer_blockers_sorted, offer_blockers_sorted,
      block_if_sorted, block_if_sorted. constructor. }
  pose proof (compatibility_blockers_elem local remote) as He.
  rewrite <- blocked_none. unfold negotiate_v1.
  destruct (compatibility_blockers local remote) as [|b0 bs].
  - split; [done|]. split; [|done]. intros _ b Hb. apply He in Hb.
    by apply not_elem_of_nil in Hb.
  - split; [intros bl [= <-]; done|]. split; [done|]. intros Hn. exfalso.
    apply (Hn b0), He. by left.
Qed.
End negotiation.

Definition sample_revision : string := LOCUS_CONTAINMENT_REVISION.

(** A Locus that reproduced Phantom's offer would be compatible; the audited
    candidates are blocked in every dimension but two features. *)
Definition compatible_locus : CompatibilityOfferV1 :=
  let o := phantom_required_offer_v1 sample_revision in
  {| of_contract := of_contract o; of_product := Locus;
     of_supported_versions := of_supported_versions o;
     of_canonicalization := of_canonicalization o; of_identity_profile := of_identity_profile o;
     of_credential_handoff := of_credential_handoff o; of_transport := of_transport o;
     of_approval := of_approval o; of_revocation := of_revocation o;
     of_signature_algorithm := of_signature_algorithm o; of_features := of_features o;
     of_fixture_sha256 := of_fixture_sha256 o; of_source := of_source o |}.

Lemma negotiate_exact_witness :
  is_ok (negotiate_v1 (phantom_required_offer_v1 sample_revision) compatible_locus) = true ∧
  ∀ b, b ∈ [BCanonicalization; BIdentityProfile; BCredentialHandoff; BTransport;
            BApprovalVerifier; BRevocation; BSignatureAlgorithm;
            BRequiredFeature CanonicalSignedEnvelope; BRequiredFeature FailClosedRevocation;
            BRequiredFeature PeerAuthenticatedNativeTransport; BRequiredFeature ReplaySafeNonce;
            BRequiredFeature SecretRevealForbidden; BRequiredFeature ValueFreeCredentialLease;
            BFixtureDigest; BMissingCoherentRevision] ↔
       blocked (phantom_required_offer_v1 sample_revision) audited_locus_candidate_offer_v1 b.
Proof.
  split; [vm_compute; reflexivity|].
  refine (proj2 (proj2 (proj1 (negotiate_exact (phantom_required_offer_v1 sample_revision)
    audited_locus_candidate_offer_v1) _ _))).
  vm_compute. reflexivity.
Defined.
