(* ===== verification/Action.v ===== *)
(** * Engineering actions: [crates/phantom-runtime/src/action.rs]

    The closed cargo actions, their validated parts, and the argument vector
    they run with.  Paths follow [std::path] on Unix. *)

From S2P Require Import Prelude Ids External Canonical Constraints Schema.

Inductive ActionError := InvalidPackage | InvalidFilter | InvalidCwd.

(** [fn valid_bounded] *)
Definition valid_bounded (v : string) (max : nat) (allowed : ascii → bool) : bool :=
  negb (str_is_empty v) && (String.length v <=? max)%nat && all_bytes allowed v.

(** [b'-' | b'_' | b'.'] or alphanumeric *)
Definition package_byte (b : ascii) : bool :=
  is_ascii_alphanumeric b || ascii_eqb b "-"%char || ascii_eqb b "_"%char
  || ascii_eqb b "."%char.

Definition filter_byte (b : ascii) : bool := package_byte b || ascii_eqb b ":"%char.

(** The condition of [PackageName::parse]. *)
Definition valid_package (v : string) : bool :=
  option_byte_is is_ascii_alphanumeric (first_byte v) && valid_bounded v 128 package_byte.

(** The condition of [TestFilter::parse]. *)
Definition valid_filter (v : string) : bool :=
  option_byte_is is_ascii_alphanumeric (first_byte v) && valid_bounded v 128 filter_byte.

(** [std::path::Component] and [Path::components] on Unix: empty and [.]
    pieces are dropped, except a leading [.]. *)
Inductive Component := RootDir | CurDir | ParentDir | Normal (s : string).

Definition component_of (piece : string) : list Component :=
  if String.eqb piece "" || String.eqb piece "." then []
  else if String.eqb piece ".." then [ParentDir] else [Normal piece].

Definition is_absolute (v : string) : bool := starts_with "/" v.

Definition components (v : string) : list Component :=
  match split_char "/"%char v with
  | first :: rest =>
      (if is_absolute v then [RootDir]
       else if String.eqb first "." then [CurDir] else component_of first)
      ++ flat_map component_of rest
  | [] => []
  end.

Definition is_normal (c : Component) : bool :=
  match c with Normal _ => true | _ => false end.

(** The negated condition of [RelativeCwd::parse]. *)
Definition valid_cwd (v : string) : bool :=
  negb (str_is_empty v
        || (512 <? String.length v)%nat
        || is_absolute v
        || (negb (String.eqb v ".") && existsb (fun c => negb (is_normal c)) (components v))).

(** The validated strings; their fields are private. *)
Record PackageName := mk_package { package_str : string; package_ok : valid_package package_str = true }.
Record TestFilter := mk_filter { filter_str : string; filter_ok : valid_filter filter_str = true }.
Record RelativeCwd := mk_cwd { cwd_str : string; cwd_ok : valid_cwd cwd_str = true }.

Definition package_parse (v : string) : result PackageName ActionError :=
  with_proof (valid_package v) (fun H => Ok (mk_package v H)) (Err InvalidPackage).
Definition filter_parse (v : string) : result TestFilter ActionError :=
  with_proof (valid_filter v) (fun H => Ok (mk_filter v H)) (Err InvalidFilter).
Definition cwd_parse (v : string) : result RelativeCwd ActionError :=
  with_proof (valid_cwd v) (fun H => Ok (mk_cwd v H)) (Err InvalidCwd).

(** [RelativeCwd::workspace_root] *)
Definition workspace_root : RelativeCwd := mk_cwd "." eq_refl.

Inductive EngineeringAction :=
  | CargoCheck (package : option PackageName) (cwd : RelativeCwd)
  | CargoTest (package : option PackageName) (filter : option TestFilter) (cwd : RelativeCwd)
  | CargoClippy (package : option PackageName) (cwd : RelativeCwd)
  | CargoFmtCheck (cwd : RelativeCwd).

#[export] Instance Serialize_package : Serialize PackageName := fun p => VString (package_str p).
#[export] Instance Serialize_filter : Serialize TestFilter := fun f => VString (filter_str f).
#[export] Instance Serialize_cwd : Serialize RelativeCwd := fun c => VString (cwd_str c).
#[export] Instance Serialize_action : Serialize EngineeringAction := fun a =>
  match a with
  | CargoCheck p c =>
      VObject ([("action", VString "cargo_check")] ++ skip_none "package" p ++
               [("cwd", to_value c)])
  | CargoTest p f c =>
      VObject ([("action", VString "cargo_test")] ++ skip_none "package" p ++
               skip_none "filter" f ++ [("cwd", to_value c)])
  | CargoClippy p c =>
      VObject ([("action", VString "cargo_clippy")] ++ skip_none "package" p ++
               [("cwd", to_value c)])
  | CargoFmtCheck c => VObject [("action", VString "cargo_fmt_check"); ("cwd", to_value c)]
  end.

(** [EngineeringAction::required_operation] *)
Definition required_operation (a : EngineeringAction) : Operation := RunEngineeringCheck.

(** [fn append_package] *)
Definition append_package (args : list string) (p : option PackageName) : list string :=
  match p with
  | Some p => args ++ ["--package"; package_str p]
  | None => args ++ ["--workspace"]
  end.

(** [EngineeringAction::argv] *)
Definition argv (a : EngineeringAction) : list string :=
  match a with
  | CargoCheck p _ => append_package ["check"; "--locked"] p
  | CargoTest p f _ =>
      let args := append_package ["test"; "--locked"] p in
      match f with Some f => args ++ ["--"] ++ [filter_str f] | None => args end
  | CargoClippy p _ => append_package ["clippy"; "--locked"] p ++ ["--"; "-D"; "warnings"]
  | CargoFmtCheck _ => ["fmt"; "--all"; "--"; "--check"]
  end.

(** [EngineeringAction::cwd] *)
Definition action_cwd (a : EngineeringAction) : RelativeCwd :=
  match a with
  | CargoCheck _ c | CargoTest _ _ c | CargoClippy _ c | CargoFmtCheck c => c
  end.

Section action_digest.
Context `{X : External}.

(** [EngineeringAction::canonical_digest] *)
Definition canonical_digest (a : EngineeringAction) : result string CanonicalJsonError :=
  let? text := canonical_json_v1 a in Ok (hex_encode (sha256 text)).
End action_digest.

(** ** What a working directory resolves to

    The directory stack after walking the components of a path. *)

Definition walk_component (dir : list string) (c : Component) : list string :=
  match c with
  | RootDir => []
  | CurDir => dir
  | ParentDir => removelast dir
  | Normal s => dir ++ [s]
  end.

Definition walk (root : list string) (v : string) : list string :=
  fold_left walk_component (components v) root.

(** ** Lemmas *)

Lemma walk_normal cs root :
  forallb is_normal cs = true → ∃ below, fold_left walk_component cs root = root ++ below.
Proof.
  revert root. induction cs as [|c cs IH]; intros root Hc.
  { exists []. simpl. by rewrite app_nil_r. }
  cbn [forallb] in Hc. apply andb_true_iff in Hc as [Hc Hcs].
  destruct c as [| | |s]; try done. cbn [fold_left walk_component].
  destruct (IH (root ++ [s]) Hcs) as [below ->]. exists (s :: below). by rewrite <- app_assoc.
Qed.

Lemma existsb_negb {A} (f : A → bool) l :
  existsb (fun x => negb (f x)) l = false → forallb f l = true.
Proof.
  induction l as [|x l IH]; simpl; [done|]. intros [H1%negb_false_iff H2]%orb_false_iff.
  rewrite H1. auto.
Qed.

Lemma alnum_first_not_dash v :
  option_byte_is is_ascii_alphanumeric (first_byte v) = true → starts_with "-" v = false.
Proof.
  destruct v as [|c v]; simpl; [done|]. intros Hc. apply not_true_is_false.
  rewrite andb_true_r. intros <-%ascii_eqb_eq. by vm_compute in Hc.
Qed.

(** ** Properties *)

(** The options the program itself passes to cargo. *)
Definition fixed_options : list string :=
  ["--locked"; "--package"; "--workspace"; "--"; "-D"; "--all"; "--check"].

(** no option injection: whatever package, filter and directory an action
    carries, the only arguments that start with a dash are the program's own,
    the first argument is one of its four subcommands, and no argument is
    empty. *)
Theorem argv_no_injection a :
  (∀ x, x ∈ argv a → starts_with "-" x = true → x ∈ fixed_options) ∧
  (∃ sub rest, argv a = sub :: rest ∧ sub ∈ ["check"; "test"; "clippy"; "fmt"]) ∧
  "" ∉ argv a.
Proof.
  assert (∀ p, starts_with "-" (package_str p) = false ∧ package_str p ≠ "") as Hp.
  { intros [v Hv]; simpl. unfold valid_package in Hv. apply andb_true_iff in Hv as [Hv _].
    split; [by apply alnum_first_not_dash|]. by intros ->. }
  assert (∀ f, starts_with "-" (filter_str f) = false ∧ filter_str f ≠ "") as Hf.
  { intros [v Hv]; simpl. unfold valid_filter in Hv. apply andb_true_iff in Hv as [Hv _].
    split; [by apply alnum_first_not_dash|]. by intros ->. }
  assert (Forall (fun x => (starts_with "-" x = true → x ∈ fixed_options) ∧ x ≠ "") (argv a)
    ∧ ∃ sub rest, argv a = sub :: rest ∧ sub ∈ ["check"; "test"; "clippy"; "fmt"]) as [Ha Hs].
  { unfold fixed_options.
    destruct a as [[p|] c|[p|] [f|] c|[p|] c|c]; cbn [argv append_package app];
      (split; [|eexists _, _; split; [reflexivity|apply list_elem_of_In; simpl; tauto]]);
      repeat (apply Forall_cons; split); try apply Forall_nil_2;
      try match goal with
      | |- context [package_str p] => destruct (Hp p) as [Hd ?]; split; [congruence|done]
      | |- context [filter_str f] => destruct (Hf f) as [Hd ?]; split; [congruence|done]
      end;
      (split; [|done]);
      first [intros Hd; by vm_compute in Hd|intros _; apply list_elem_of_In; simpl; tauto]. }
  rewrite Forall_forall in Ha. split_and!; [|done|].
  - intros x Hx. by apply Ha.
  - intros Hx. by apply Ha in Hx as [_ ?].
Qed.

(** a parsed working directory stays inside the workspace: walked from any
    root, it ends in that root or in a directory below it. *)
Theorem cwd_contained v c root :
  cwd_parse v = Ok c → cwd_str c = v ∧ ∃ below, walk root (cwd_str c) = root ++ below.
Proof.
  intros H. assert (cwd_str c = v) as Hv.
  { unfold cwd_parse in H. destruct (decide (valid_cwd v = true)) as [Hv|Hv].
    - rewrite (with_proof_true _ _ _ Hv) in H. by injection H as <-.
    - rewrite with_proof_false in H; [done|]. by apply not_true_is_false. }
  split; [done|]. pose proof (cwd_ok c) as Hok. unfold valid_cwd in Hok.
  apply negb_true_iff in Hok. apply orb_false_iff in Hok as [Hok Hcomp].
  apply andb_false_iff in Hcomp as [Hdot%negb_false_iff%String.eqb_eq|Hcomp].
  - exists []. rewrite Hdot, app_nil_r. reflexivity.
  - apply walk_normal. by apply existsb_negb.
Qed.

Lemma cwd_contained_witness :
  ∃ c, cwd_parse "crates/core" = Ok c ∧
    ∃ below, walk ["work"; "repo"] "crates/core" = ["work"; "repo"] ++ below.
Proof.
  eexists. split; [vm_compute; reflexivity|].
  refine (proj2 (cwd_contained "crates/core" (mk_cwd "crates/core" eq_refl)
    ["work"; "repo"] _)). vm_compute. reflexivity.
Defined.

Example cwd_rejected :
  map (fun v => is_ok (cwd_parse v)) ["a/../b"; "/etc"; "./a"; ".."; ""; "a//./b"] =
  [false; false; false; false; false; true].
Proof. vm_compute. reflexivity. Qed.
