(* ===== verification/Runtime.v ===== *)
(** * The supervised runtime: [crates/phantom-runtime/src/runtime.rs] and
      [cancellation.rs]

    Building a runtime from an execution permit and running one action under
    it.  The durable guard owns the permit: finishing, abandoning and dropping
    it are operations on the replay store, so every function takes the storage
    and returns it.  The confinement backend is a sealed trait with no
    production implementation but [DenyAllConfinement]: it is the record
    [ConfinementBackend].  The shared cancellation and revocation flags are
    the booleans read when an execution starts. *)

From S2P Require Import Prelude Ids External Canonical Constraints Schema ReplayStore.
From S2P Require Import ReplayStore ReplaySpec DemoSerde ReplayDurable.
From S2P Require Import Action.

Definition MAX_DURATION_MS : N := 3600000.
Definition MAX_OUTPUT : N := 67108864.
Definition MAX_MEMORY : N := 17179869184.
Definition MAX_FILE : N := 4294967296.
Definition MAX_FILES : N := 1024.
Definition MAX_PROCESSES : N := 256.

Inductive ExecutionError :=
  | MissingWitness | DuplicateWitness | MissingWorkspaceHandle | MissingToolchain
  | MissingConfinement | ConfinementUnavailable | WitnessMismatch | NotYetActive
  | ExpiredWitness | InvalidPolicy | InvalidAction | RInvalidWorkspace | CwdEscape
  | ClockUnavailable | RuntimeSetup | DurableTransition | SpawnFailed (kind : string)
  | OutputRead | ReapFailed.

(** ** Cancellation *)

(** [CancellationToken]: the flag only ever goes from [false] to [true]. *)
Definition cancel (cancelled : bool) : bool := true.
Definition is_cancelled (cancelled : bool) : bool := cancelled.
Definition revoke_handle (revoked : bool) : bool := cancel revoked.
Definition is_revoked (revoked : bool) : bool := is_cancelled revoked.

(** ** Policy *)

Record PolicyV1 := {
  po_version : N;
  po_timeout_ms : N;
  po_output_bytes : N;
  po_memory_bytes : N;
  po_file_bytes : N;
  po_open_files : N;
  po_processes : N;
}.

#[export] Instance Serialize_policy : Serialize PolicyV1 := fun p =>
  VObject [("version", to_value (po_version p)); ("timeout_ms", to_value (po_timeout_ms p));
           ("output_bytes", to_value (po_output_bytes p));
           ("memory_bytes", to_value (po_memory_bytes p));
           ("file_bytes", to_value (po_file_bytes p));
           ("open_files", to_value (po_open_files p));
           ("processes", to_value (po_processes p))].

(** [ExecutionPolicy::conservative] *)
Definition conservative : PolicyV1 := {|
  po_version := 1; po_timeout_ms := 300000; po_output_bytes := 4 * 1024 * 1024;
  po_memory_bytes := 2 * 1024 * 1024 * 1024; po_file_bytes := 512 * 1024 * 1024;
  po_open_files := 256; po_processes := 64 |}.

(** [ExecutionPolicy::validate] *)
Definition policy_validate (p : PolicyV1) : result unit ExecutionError :=
  fail_if (negb (po_version p =? 1)
    || (po_timeout_ms p =? 0) || (MAX_DURATION_MS <? po_timeout_ms p)
    || (po_output_bytes p =? 0) || (MAX_OUTPUT <? po_output_bytes p)
    || (po_memory_bytes p =? 0) || (MAX_MEMORY <? po_memory_bytes p)
    || (po_file_bytes p =? 0) || (MAX_FILE <? po_file_bytes p)
    || (po_open_files p =? 0) || (MAX_FILES <? po_open_files p)
    || (po_processes p =? 0) || (MAX_PROCESSES <? po_processes p))%N
    InvalidPolicy (Ok tt).

(** [policy.manifest.output_bytes.min(response_limit)] *)
Definition limit_output (p : PolicyV1) (limit : N) : PolicyV1 := {|
  po_version := po_version p; po_timeout_ms := po_timeout_ms p;
  po_output_bytes := N.min (po_output_bytes p) limit; po_memory_bytes := po_memory_bytes p;
  po_file_bytes := po_file_bytes p; po_open_files := po_open_files p;
  po_processes := po_processes p |}.

(** ** Handles, requests and outcomes *)

Record Toolchain := { tc_cargo : string }.

Record WorkspaceHandle := {
  wh_root : string;
  wh_workspace_id : WorkspaceId;
  wh_manifest_sha256 : Sha256Digest;
}.

Inductive OutcomeKind :=
  | Exited (success : bool) (code : option Z)
  | TimedOut | KCancelled | KRevoked | OutputLimitExceeded.

Record ExecutionOutcome := {
  eo_kind : OutcomeKind;
  eo_stdout_bytes : N;
  eo_stderr_bytes : N;
}.

(** [ExecutionOutcome::empty] *)
Definition empty_outcome (k : OutcomeKind) : ExecutionOutcome :=
  {| eo_kind := k; eo_stdout_bytes := 0; eo_stderr_bytes := 0 |}.

Record BackendRequest := {
  br_executable : string;
  br_argv : list string;
  br_cwd : RelativeCwd;
  br_workspace : WorkspaceHandle;
  br_policy : PolicyV1;
  br_not_before : N;
  br_expires_at : N;
}.

(** [trait ConfinementBackend] *)
Record ConfinementBackend := {
  ensure_available : result unit ExecutionError;
  backend_execute : BackendRequest → result ExecutionOutcome ExecutionError;
}.

Definition DenyAllConfinement : ConfinementBackend := {|
  ensure_available := Err ConfinementUnavailable;
  backend_execute _ := Err ConfinementUnavailable |}.

Record DurableGuard := {
  dg_store : DurableReplayStore;
  dg_permit : option ExecutionPermit;
}.

Record RuntimeBuilder := {
  rb_guard : option DurableGuard;
  rb_workspace : option WorkspaceHandle;
  rb_toolchain : option Toolchain;
  rb_backend : option ConfinementBackend;
  rb_policy : PolicyV1;
}.

Record RuntimeAuthority := {
  ra_action_digest : string;
  ra_not_before : N;
  ra_expires_at : N;
  ra_request_limit : ByteLimit;
}.

Record SupervisedRuntime := {
  sr_authority : RuntimeAuthority;
  sr_guard : DurableGuard;
  sr_workspace : WorkspaceHandle;
  sr_toolchain : Toolchain;
  sr_backend : ConfinementBackend;
  sr_policy : PolicyV1;
}.

(** [RuntimeBuilder::new] and the builder's setters *)
Definition new_builder (p : PolicyV1) : RuntimeBuilder :=
  {| rb_guard := None; rb_workspace := None; rb_toolchain := None; rb_backend := None;
     rb_policy := p |}.
Definition with_workspace_handle (b : RuntimeBuilder) (w : WorkspaceHandle) : RuntimeBuilder :=
  {| rb_guard := rb_guard b; rb_workspace := Some w; rb_toolchain := rb_toolchain b;
     rb_backend := rb_backend b; rb_policy := rb_policy b |}.
Definition with_toolchain (b : RuntimeBuilder) (t : Toolchain) : RuntimeBuilder :=
  {| rb_guard := rb_guard b; rb_workspace := rb_workspace b; rb_toolchain := Some t;
     rb_backend := rb_backend b; rb_policy := rb_policy b |}.
Definition with_confinement_backend (b : RuntimeBuilder) (k : ConfinementBackend)
    : RuntimeBuilder :=
  {| rb_guard := rb_guard b; rb_workspace := rb_workspace b; rb_toolchain := rb_toolchain b;
     rb_backend := Some k; rb_policy := rb_policy b |}.

Section runtime.
Context `{X : External} `{DP : !Deserialize PersistedState} `{DS : !Deserialize SignedState}
  `{S : ReplayStorage}.

(** [ExecutionPolicy::digest] *)
Definition policy_digest (p : PolicyV1) : result Sha256Digest ExecutionError :=
  let? text := map_err (fun _ => InvalidPolicy) (canonical_json_v1 p) in
  map_err (fun _ => InvalidPolicy) (digest_from_str (hex_encode (sha256 text))).

(** [impl Drop for DurableGuard] *)
Definition guard_drop (g : DurableGuard) (st : rs_t) : rs_t :=
  match dg_permit g with
  | Some p => (abandon_use (dg_store g) st p).1
  | None => st
  end.

(** [DurableGuard::finish]: a failure drops the guard with its permit. *)
Definition guard_finish (g : DurableGuard) (st : rs_t) : rs_t * result unit ExecutionError :=
  match dg_permit g with
  | None => (st, Err RuntimeSetup)
  | Some p =>
      let '(st1, r) := finish_use (dg_store g) st p in
      match r with
      | Ok _ => (st1, Ok tt)
      | Err _ => (guard_drop g st1, Err DurableTransition)
      end
  end.

(** [DurableGuard::abandon] *)
Definition guard_abandon (g : DurableGuard) (st : rs_t) : rs_t * result unit ExecutionError :=
  match dg_permit g with
  | None => (st, Err RuntimeSetup)
  | Some p =>
      let '(st1, r) := abandon_use (dg_store g) st p in
      match r with
      | Ok _ => (st1, Ok tt)
      | Err _ => (guard_drop g st1, Err DurableTransition)
      end
  end.

Definition drop_option (g : option DurableGuard) (st : rs_t) : rs_t :=
  match g with Some g => guard_drop g st | None => st end.

(** [with_execution_permit]: a second permit drops both guards. *)
Definition with_execution_permit (b : RuntimeBuilder) (st : rs_t) (permit : ExecutionPermit)
    (store : DurableReplayStore) : rs_t * result RuntimeBuilder ExecutionError :=
  let replacement := {| dg_store := store; dg_permit := Some permit |} in
  match rb_guard b with
  | Some g => (guard_drop g (guard_drop replacement st), Err DuplicateWitness)
  | None =>
      (st, Ok {| rb_guard := Some replacement; rb_workspace := rb_workspace b;
                 rb_toolchain := rb_toolchain b; rb_backend := rb_backend b;
                 rb_policy := rb_policy b |})
  end.

(** The constraint test of [build]: [true] on a mismatch. *)
Definition unconfined_constraints (c : AuthorityConstraints) : bool :=
  read_only c
  || negb (is_denied (schemes (network c))) || negb (is_denied (hosts (network c)))
  || negb (is_denied (ports (network c))) || negb (is_denied (methods (network c)))
  || negb (is_denied (path_prefixes (network c))) || negb (is_forbidden (spend c)).

(** [match c.uses.max_response_bytes] *)
Definition response_limit (c : AuthorityConstraints) : result N ExecutionError :=
  match max_response_bytes (uses c) with
  | BytesBounded bytes => fail_if (negb (0 <? bytes)%N) WitnessMismatch (Ok bytes)
  | BytesDenied => Err WitnessMismatch
  end.

(** The body of [build], up to where the guard is moved or dropped. *)
Definition build_inner (b : RuntimeBuilder) : result SupervisedRuntime ExecutionError :=
  let? _ := policy_validate (rb_policy b) in
  let? guard := ok_or (rb_guard b) MissingWitness in
  let? workspace := ok_or (rb_workspace b) MissingWorkspaceHandle in
  let? toolchain := ok_or (rb_toolchain b) MissingToolchain in
  let? backend := ok_or (rb_backend b) MissingConfinement in
  let? _ := ensure_available backend in
  let? permit := ok_or (dg_permit guard) RuntimeSetup in
  let c := ep_constraints permit in
  fail_if (unconfined_constraints c) WitnessMismatch
  (let? limit := response_limit c in
   let policy := limit_output (rb_policy b) limit in
   fail_if (negb (bool_decide (ep_operation permit = RunEngineeringCheck))) WitnessMismatch
   (fail_if (negb (bool_decide (ep_workspace_id permit = wh_workspace_id workspace)))
      WitnessMismatch
   (fail_if (negb (bool_decide
               (ep_workspace_manifest_sha256 permit = wh_manifest_sha256 workspace)))
      WitnessMismatch
   (let? digest := policy_digest policy in
    fail_if (negb (bool_decide (ep_policy_sha256 permit = digest))) WitnessMismatch
    (Ok {| sr_authority := {| ra_action_digest := digest_str (ep_canonical_args_sha256 permit);
                              ra_not_before := not_before (time c);
                              ra_expires_at := expires_at (time c);
                              ra_request_limit := max_request_bytes (uses c) |};
           sr_guard := guard; sr_workspace := workspace; sr_toolchain := toolchain;
           sr_backend := backend; sr_policy := policy |}))))).

(** [RuntimeBuilder::build]: every error drops the guard. *)
Definition build (b : RuntimeBuilder) (st : rs_t)
    : rs_t * result SupervisedRuntime ExecutionError :=
  match build_inner b with
  | Ok rt => (st, Ok rt)
  | Err e => (drop_option (rb_guard b) st, Err e)
  end.

(** [execute_inner] up to the call of the backend. *)
Definition prepare (rt : SupervisedRuntime) (a : EngineeringAction)
    (revoked cancelled : bool) : result (ExecutionOutcome + BackendRequest) ExecutionError :=
  fail_if (negb (bool_decide (required_operation a = RunEngineeringCheck))) WitnessMismatch
  (let? digest := map_err (fun _ => InvalidAction) (canonical_digest a) in
   fail_if (negb (String.eqb digest (ra_action_digest (sr_authority rt)))) WitnessMismatch
   (let? text := map_err (fun _ => InvalidAction) (canonical_json_v1 a) in
    fail_if (match ra_request_limit (sr_authority rt) with
             | BytesBounded max => negb (str_len text <=? max)%N
             | BytesDenied => true
             end) WitnessMismatch
    (if is_revoked revoked then Ok (inl (empty_outcome KRevoked))
     else if is_cancelled cancelled then Ok (inl (empty_outcome KCancelled))
     else Ok (inr {| br_executable := tc_cargo (sr_toolchain rt); br_argv := argv a;
                     br_cwd := action_cwd a; br_workspace := sr_workspace rt;
                     br_policy := sr_policy rt;
                     br_not_before := ra_not_before (sr_authority rt);
                     br_expires_at := ra_expires_at (sr_authority rt) |})))).

(** [execute_inner] *)
Definition execute_inner (rt : SupervisedRuntime) (a : EngineeringAction)
    (revoked cancelled : bool) : result ExecutionOutcome ExecutionError :=
  let? p := prepare rt a revoked cancelled in
  match p with
  | inl outcome => Ok outcome
  | inr request => backend_execute (sr_backend rt) request
  end.

(** [SupervisedRuntime::execute] *)
Definition execute (rt : SupervisedRuntime) (st : rs_t) (a : EngineeringAction)
    (revoked cancelled : bool) : rs_t * result ExecutionOutcome ExecutionError :=
  match execute_inner rt a revoked cancelled with
  | Ok outcome =>
      let '(st1, r) := guard_finish (sr_guard rt) st in
      (st1, map_ok (fun _ => outcome) r)
  | Err error =>
      let '(st1, r) := guard_abandon (sr_guard rt) st in
      (st1, match r with Ok _ => Err error | Err e => Err e end)
  end.

(** ** Lemmas *)

Lemma build_inner_Ok b rt :
  build_inner b = Ok rt →
  ∃ g p limit digest, rb_guard b = Some g ∧ dg_permit g = Some p ∧ sr_guard rt = g ∧
    policy_validate (rb_policy b) = Ok tt ∧
    max_response_bytes (uses (ep_constraints p)) = BytesBounded limit ∧
    sr_policy rt = limit_output (rb_policy b) limit ∧
    policy_digest (sr_policy rt) = Ok digest ∧ ep_policy_sha256 p = digest ∧
    ep_operation p = RunEngineeringCheck ∧
    ep_workspace_id p = wh_workspace_id (sr_workspace rt) ∧
    ep_workspace_manifest_sha256 p = wh_manifest_sha256 (sr_workspace rt) ∧
    unconfined_constraints (ep_constraints p) = false ∧
    sr_authority rt = {| ra_action_digest := digest_str (ep_canonical_args_sha256 p);
                         ra_not_before := not_before (time (ep_constraints p));
                         ra_expires_at := expires_at (time (ep_constraints p));
                         ra_request_limit := max_request_bytes (uses (ep_constraints p)) |}.
Proof.
  unfold build_inner, response_limit. intros H.
  apply rbind_Ok in H as ([] & Hp & H). apply rbind_Ok in H as (g & Hg%ok_or_Ok & H).
  apply rbind_Ok in H as (w & _ & H). apply rbind_Ok in H as (t & _ & H).
  apply rbind_Ok in H as (k & _ & H). apply rbind_Ok in H as (? & _ & H).
  apply rbind_Ok in H as (p & Hpm%ok_or_Ok & H). apply fail_if_Ok in H as [Hc H].
  destruct (max_response_bytes _) as [|limit] eqn:Hl; [done|].
  apply rbind_Ok in H as (limit' & Hlim & H). apply fail_if_Ok in Hlim as [_ [= <-]].
  do 3 (apply fail_if_Ok in H as [?%negb_false_iff%bool_decide_eq_true H]).
  apply rbind_Ok in H as (digest & Hd & H).
  apply fail_if_Ok in H as [?%negb_false_iff%bool_decide_eq_true H].
  injection H as <-. simpl. exists g, p, limit, digest. split_and!; done.
Qed.

Lemma prepare_Ok rt a rv cn req :
  prepare rt a rv cn = Ok (inr req) →
  rv = false ∧ cn = false ∧
  ∃ text max, canonical_json_v1 a = Ok text ∧
    hex_encode (sha256 text) = ra_action_digest (sr_authority rt) ∧
    ra_request_limit (sr_authority rt) = BytesBounded max ∧ (str_len text <= max)%N ∧
    req = {| br_executable := tc_cargo (sr_toolchain rt); br_argv := argv a;
             br_cwd := action_cwd a; br_workspace := sr_workspace rt;
             br_policy := sr_policy rt;
             br_not_before := ra_not_before (sr_authority rt);
             br_expires_at := ra_expires_at (sr_authority rt) |}.
Proof.
  unfold prepare, canonical_digest. intros H. apply fail_if_Ok in H as [_ H].
  apply rbind_Ok in H as (digest & Hd%map_err_Ok & H).
  apply rbind_Ok in Hd as (text & Ht & [= <-]).
  apply fail_if_Ok in H as [He%negb_false_iff%String.eqb_eq H].
  rewrite Ht in H. simpl in H. apply fail_if_Ok in H as [Hl H].
  destruct (ra_request_limit _) as [|max] eqn:Hr; [done|].
  apply negb_false_iff, N.leb_le in Hl.
  destruct rv; [done|]. destruct cn; [done|]. injection H as <-.
  split_and!; [done|done|]. exists text, max. auto.
Qed.

(** ** Properties *)

(** what reaches the confinement backend is what the permit authorized:
    the action hashes to the permit's argument digest and fits its request
    limit, the workspace and manifest are the permit's, the policy is valid,
    hashes to the permit's policy digest and its output limit is within the
    permit's response limit, the permit is for an engineering check without
    network or spending, and neither revocation nor cancellation was seen. *)
Theorem request_authorized b st st' rt a rv cn req :
  build b st = (st', Ok rt) → prepare rt a rv cn = Ok (inr req) →
  st' = st ∧ rv = false ∧ cn = false ∧
  ∃ g p text max limit, rb_guard b = Some g ∧ dg_permit g = Some p ∧ sr_guard rt = g ∧
    canonical_json_v1 a = Ok text ∧
    hex_encode (sha256 text) = digest_str (ep_canonical_args_sha256 p) ∧
    max_request_bytes (uses (ep_constraints p)) = BytesBounded max ∧ (str_len text <= max)%N ∧
    br_argv req = argv a ∧ br_cwd req = action_cwd a ∧
    ep_workspace_id p = wh_workspace_id (br_workspace req) ∧
    ep_workspace_manifest_sha256 p = wh_manifest_sha256 (br_workspace req) ∧
    policy_validate (rb_policy b) = Ok tt ∧
    policy_digest (br_policy req) = Ok (ep_policy_sha256 p) ∧
    max_response_bytes (uses (ep_constraints p)) = BytesBounded limit ∧
    (po_output_bytes (br_policy req) <= limit)%N ∧
    ep_operation p = RunEngineeringCheck ∧
    network_denied (network (ep_constraints p)) = true ∧
    is_forbidden (spend (ep_constraints p)) = true ∧
    (∀ now, active_at (time (ep_constraints p)) now = true ↔
       (br_not_before req <= now < br_expires_at req)%N).
Proof.
  unfold build. intros Hb Hp. destruct (build_inner b) as [rt'|e] eqn:Hi; [|done].
  injection Hb as <- ->.
  apply build_inner_Ok in Hi as (g & p & limit & digest & Hg & Hpm & Hsg & Hv & Hl & Hpol &
    Hd & Hpd & Hop & Hw & Hm & Hc & Ha).
  apply prepare_Ok in Hp as (-> & -> & text & max & Ht & Hh & Hr & Hlen & ->).
  rewrite Ha in Hh, Hr. simpl in Hh, Hr. split_and!; try done.
  exists g, p, text, max, limit. rewrite Ha. simpl.
  unfold unconfined_constraints in Hc. split_bools.
  split_and!; try done.
  - by rewrite Hd, Hpd.
  - rewrite Hpol. simpl. lia.
  - unfold network_denied. by repeat match goal with H : is_denied _ = true |- _ => rewrite H; clear H end.
  - intros now. unfold active_at. rewrite andb_true_iff, N.leb_le, N.ltb_lt. done.
Qed.

Context `{XL : !ExternalLaws X} `{RP : !SerdeRoundTrip PersistedState}
  `{RS : !SerdeRoundTrip SignedState} `{SL : !ReplayStorageLaws S}.

(** The use of a permit is recorded with a terminal digest. *)
Definition recorded (st : rs_t) (d : DurableReplayStore) (p : ExecutionPermit)
    (x : TerminalDisposition) : Prop :=
  ∃ digest s l, legacy_digest d p x = Ok digest ∧ stores st (store_key d) s ∧
    ps_leases s !! id_str (ep_lease_id p) = Some l ∧
    pl_uses l !! ep_operation_sha256 p = Some (terminal_state digest x).

(** an execution ends durably: when it returns an outcome the permit's
    use is recorded finished, and when it returns an error other than a
    failed durable transition the use is recorded abandoned; so no execution
    that reported a result can be started again. *)
Theorem execute_terminal rt st st' a rv cn r d p s :
  execute rt st a rv cn = (st', r) →
  sr_guard rt = {| dg_store := d; dg_permit := Some p |} → stores st (store_key d) s →
  match r with
  | Ok _ => recorded st' d p DFinished
  | Err e => e = DurableTransition ∨ recorded st' d p DAbandoned
  end.
Proof.
  unfold execute. intros He Hg Hs. rewrite Hg in He.
  destruct (execute_inner rt a rv cn) as [o|e].
  - unfold guard_finish in He. simpl in He. unfold finish_use in He.
    destruct (legacy_terminalize d st p DFinished) as [st1 [[]|e]] eqn:Hl; simpl in He;
      injection He as <- <-; [|by left].
    destruct (legacy_terminal _ _ _ _ _ _ Hl Hs) as (digest & s' & l & ? & ? & ? & ?).
    exists digest, s', l. auto.
  - unfold guard_abandon in He. simpl in He. unfold abandon_use in He.
    destruct (legacy_terminalize d st p DAbandoned) as [st1 [[]|e']] eqn:Hl; simpl in He;
      injection He as <- <-; [right|by left].
    destruct (legacy_terminal _ _ _ _ _ _ Hl Hs) as (digest & s' & l & ? & ? & ? & ?).
    exists digest, s', l. auto.
Qed.
End runtime.

(** ** Witnesses: one formatting check *)

Definition check_action : EngineeringAction := CargoFmtCheck workspace_root.

Definition check_digest : Sha256Digest :=
  match canonical_digest check_action with
  | Ok h => match digest_from_str h with Ok d => d | Err _ => sample_digest end
  | Err _ => sample_digest
  end.

Definition check_constraints : AuthorityConstraints := {|
  environment := "production"; read_only := false;
  time := {| not_before := 100; expires_at := 200 |};
  uses := {| capacity := CapacityBounded 2 1; max_request_bytes := BytesBounded 1000;
             max_response_bytes := BytesBounded 5000 |};
  network := denied_network; spend := spend_forbidden |}.

Definition check_policy_digest : Sha256Digest :=
  match policy_digest (limit_output conservative 5000) with Ok d => d | Err _ => sample_digest end.

Definition check_store : DurableReplayStore := mk_store sample_store_id "a key" true ACTIVE.

Definition check_permit : ExecutionPermit := {|
  ep_lease_id := sample_id LeaseIdK; ep_broker_generation := 1;
  ep_action_id := sample_id ActionIdK; ep_operation := RunEngineeringCheck;
  ep_canonical_args_sha256 := check_digest; ep_workspace_id := sample_id WorkspaceIdK;
  ep_workspace_manifest_sha256 := sample_digest; ep_policy_sha256 := check_policy_digest;
  ep_constraints := check_constraints; ep_operation_sha256 := "operation";
  ep_store_binding := store_binding check_store |}.

Definition check_backend : ConfinementBackend := {|
  ensure_available := Ok tt;
  backend_execute r :=
    Ok {| eo_kind := Exited true (Some 0%Z); eo_stdout_bytes := po_output_bytes (br_policy r);
          eo_stderr_bytes := 0 |} |}.

Definition check_ledger : PersistedState :=
  mk_state sample_store_id 1 2 {["nonce"]} ∅
    {[ sample_lease_key := mk_lease (sample_id GrantIdK) (sample_id ActionIdK)
         RunEngineeringCheck check_digest (sample_id WorkspaceIdK) sample_digest
         check_policy_digest 1 check_constraints 1 {["operation" := UActive]} false ]}.

Definition check_dir : MemoryDir :=
  (write_authenticated_state (S := memory_storage)
     {| md_files := ∅; md_locked := true; md_good_writes := 10 |} check_ledger "a key").1.

Definition check_builder : RuntimeBuilder := {|
  rb_guard := Some {| dg_store := check_store; dg_permit := Some check_permit |};
  rb_workspace := Some {| wh_root := "/work"; wh_workspace_id := sample_id WorkspaceIdK;
                          wh_manifest_sha256 := sample_digest |};
  rb_toolchain := Some {| tc_cargo := "/usr/bin/cargo" |};
  rb_backend := Some check_backend; rb_policy := conservative |}.

Definition check_runtime : SupervisedRuntime :=
  {| sr_authority := {| ra_action_digest := digest_str check_digest; ra_not_before := 100;
                        ra_expires_at := 200; ra_request_limit := BytesBounded 1000 |};
     sr_guard := {| dg_store := check_store; dg_permit := Some check_permit |};
     sr_workspace := {| wh_root := "/work"; wh_workspace_id := sample_id WorkspaceIdK;
                        wh_manifest_sha256 := sample_digest |};
     sr_toolchain := {| tc_cargo := "/usr/bin/cargo" |}; sr_backend := check_backend;
     sr_policy := limit_output conservative 5000 |}.

Lemma check_builds : build (S := memory_storage) check_builder check_dir = (check_dir, Ok check_runtime).
Proof. vm_compute. reflexivity. Qed.

Definition check_request : BackendRequest := {|
  br_executable := "/usr/bin/cargo"; br_argv := ["fmt"; "--all"; "--"; "--check"];
  br_cwd := workspace_root; br_workspace := sr_workspace check_runtime;
  br_policy := limit_output conservative 5000; br_not_before := 100; br_expires_at := 200 |}.

Lemma request_authorized_witness :
  prepare check_runtime check_action false false = Ok (inr check_request) ∧
  ∃ p, ep_operation p = RunEngineeringCheck ∧
       policy_digest (br_policy check_request) = Ok (ep_policy_sha256 p).
Proof.
  assert (prepare check_runtime check_action false false = Ok (inr check_request)) as Hp
    by (vm_compute; reflexivity).
  split; [exact Hp|].
  destruct (request_authorized (S := memory_storage) _ _ _ _ _ _ _ _ check_builds Hp)
    as (_ & _ & _ & g & p & text & max & limit & H).
  decompose [and] H. exists p. split; assumption.
Defined.

Lemma check_dir_stores :
  stores (S := memory_storage) check_dir (store_key check_store) check_ledger.
Proof.
  exists (default EmptyString (md_files check_dir !! STATE_FILE_NAME)).
  split; vm_compute; reflexivity.
Qed.

Definition check_run : MemoryDir * result ExecutionOutcome ExecutionError :=
  execute (S := memory_storage) check_runtime check_dir check_action false false.

Lemma execute_terminal_witness :
  check_run.2 = Ok {| eo_kind := Exited true (Some 0%Z); eo_stdout_bytes := 5000;
                      eo_stderr_bytes := 0 |} ∧
  recorded (S := memory_storage) check_run.1 check_store check_permit DFinished.
Proof.
  assert (check_run.2 = Ok {| eo_kind := Exited true (Some 0%Z); eo_stdout_bytes := 5000;
                      eo_stderr_bytes := 0 |}) as Hr by (vm_compute; reflexivity).
  split; [exact Hr|].
  pose proof (execute_terminal (S := memory_storage) check_runtime check_dir check_run.1
    check_action false false check_run.2 check_store check_permit check_ledger
    (surjective_pairing check_run) eq_refl check_dir_stores) as H.
  rewrite Hr in H. exact H.
Defined.
