(* ===== verification/StateDir.v ===== *)
(** * Private state directories: the interface of
      [crates/phantom-core/src/fs/private_dir.rs]

    The session journal and the evidence log keep their files in a
    [PrivateStateDir].  The directory is the operating system's: its
    operations are the class [StateDir], what the clients rely on is the
    class [StateDirLaws], and an in-memory directory shows the laws can hold.
    Code that uses a directory is written in the monad [io]. *)

From S2P Require Import Prelude.

(** [std::io::ErrorKind], as far as the program distinguishes it *)
Inductive ErrorKind := NotFound | AlreadyExists | InvalidData | OtherKind.

#[export] Instance ErrorKind_eq_dec : EqDecision ErrorKind.
Proof. solve_decision. Defined.

(** What the program reads of a file's [Metadata] on Unix. *)
Record Metadata := mk_metadata {
  me_is_file : bool;
  me_is_symlink : bool;
  me_nlink : N;
  me_uid : N;
  me_mode : N;
}.

Class StateDir := {
  dir_t : Type;
  (** [libc::geteuid()] *)
  geteuid : N;
  (** [open_file(name, create)]: an existing file is never truncated *)
  open_file : dir_t → string → bool → dir_t * result unit ErrorKind;
  (** [open_file_readonly(name)] *)
  open_file_readonly : dir_t → string → result unit ErrorKind;
  (** [create_new_file(name)] *)
  create_new_file : dir_t → string → dir_t * result unit ErrorKind;
  (** [lock_exclusive] and [lock_shared] on an open file, held until the operation returns *)
  lock_exclusive : dir_t → string → result unit ErrorKind;
  lock_shared : dir_t → string → result unit ErrorKind;
  (** [metadata()] of an open file; its length is [file_len] *)
  file_metadata : dir_t → string → result Metadata ErrorKind;
  file_len : dir_t → string → result N ErrorKind;
  (** [take(limit).read_to_end()] of an open file *)
  read_take : dir_t → string → N → result string ErrorKind;
  (** [replace_file(name, contents)]: staged, synced and renamed *)
  replace_file : dir_t → string → string → dir_t * result unit ErrorKind;
  (** [seek(End(0))], [write_all], [sync_all] on an open file *)
  append_file : dir_t → string → string → dir_t * result unit ErrorKind;
  (** [sync()] of the directory itself *)
  sync_dir : dir_t → result unit ErrorKind;
}.

(** What a file holds after an operation that may have failed half way. *)
Class StateDirLaws (S : StateDir) := {
  file_contents : dir_t → string → option string;
  open_file_same : ∀ d n c d' r m,
    open_file d n c = (d', r) → m ≠ n ∨ c = false →
    file_contents d' m = file_contents d m;
  open_file_keeps : ∀ d n c d' r b,
    open_file d n c = (d', r) → file_contents d n = Some b → file_contents d' n = Some b;
  open_file_new : ∀ d n d' r,
    open_file d n true = (d', r) → file_contents d n = None →
    file_contents d' n = None ∨ file_contents d' n = Some EmptyString;
  open_file_ok : ∀ d n c d', open_file d n c = (d', Ok tt) → is_Some (file_contents d' n);
  open_file_missing : ∀ d n c d',
    open_file d n c = (d', Err NotFound) → file_contents d n = None;
  file_len_missing : ∀ d n, file_len d n = Err NotFound → file_contents d n = None;
  read_take_missing : ∀ d n k, read_take d n k = Err NotFound → file_contents d n = None;
  read_take_contents : ∀ d n k b,
    read_take d n k = Ok b → ∃ c, file_contents d n = Some c ∧ b = str_take (N.to_nat k) c;
  replace_file_other : ∀ d n b d' r m,
    replace_file d n b = (d', r) → m ≠ n → file_contents d' m = file_contents d m;
  replace_file_ok : ∀ d n b d', replace_file d n b = (d', Ok tt) → file_contents d' n = Some b;
  replace_file_err : ∀ d n b d' e,
    replace_file d n b = (d', Err e) →
    file_contents d' n = file_contents d n ∨ file_contents d' n = Some b;
  create_new_other : ∀ d n d' r m,
    create_new_file d n = (d', r) → m ≠ n → file_contents d' m = file_contents d m;
  create_new_ok : ∀ d n d',
    create_new_file d n = (d', Ok tt) →
    file_contents d n = None ∧ file_contents d' n = Some EmptyString;
  create_new_err : ∀ d n d' e,
    create_new_file d n = (d', Err e) →
    file_contents d' n = file_contents d n ∨
    (file_contents d n = None ∧ file_contents d' n = Some EmptyString);
  append_file_other : ∀ d n b d' r m,
    append_file d n b = (d', r) → m ≠ n → file_contents d' m = file_contents d m;
  append_file_ok : ∀ d n b d',
    append_file d n b = (d', Ok tt) →
    ∃ c, file_contents d n = Some c ∧ file_contents d' n = Some (c +:+ b);
  append_file_err : ∀ d n b d' e,
    append_file d n b = (d', Err e) →
    file_contents d' n = file_contents d n ∨
    ∃ c k, file_contents d n = Some c ∧ file_contents d' n = Some (c +:+ str_take k b);
}.

(** Path resolution: [symlink_metadata] (whether a path is a symbolic link and
    whether it is a directory), [canonicalize], and the opening of private
    directories by path or below another one. *)
Class HostPaths `{S : StateDir} := {
  symlink_metadata : string → result (bool * bool) ErrorKind;
  canonicalize : string → result string ErrorKind;
  ensure_dir : string → result dir_t ErrorKind;
  ensure_child : dir_t → string → result dir_t ErrorKind;
  dir_path : dir_t → string;
}.

(** [Path::join] of a plain component *)
Definition path_join (p name : string) : string := p +:+ "/" +:+ name.

(** The components of an absolute path, below the root *)
Definition path_components (p : string) : list string :=
  List.filter (fun c => negb (str_is_empty c)) (split_char "/"%char p).

Fixpoint is_prefix (base path : list string) : bool :=
  match base, path with
  | [], _ => true
  | b :: base', p :: path' => String.eqb b p && is_prefix base' path'
  | _ :: _, [] => false
  end.

(** [path.starts_with(base)] of absolute paths, component by component *)
Definition path_starts_with (base path : string) : bool :=
  is_prefix (path_components base) (path_components path).

(** ** The monad of the code that uses a directory *)

Section io_monad.
Context {W E : Type}.

(** A computation that changes what it works on, [W], and can fail. *)
Definition io (T : Type) : Type := W → W * result T E.

Definition io_ret {T} (x : T) : io T := fun d => (d, Ok x).
Definition io_throw {T} (e : E) : io T := fun d => (d, Err e).
Definition io_lift {T} (r : result T E) : io T := fun d => (d, r).
Definition io_query {T} (f : W → result T E) : io T := fun d => (d, f d).

Definition io_bind {T U} (m : io T) (k : T → io U) : io U := fun d =>
  let '(d1, r) := m d in
  match r with Ok x => k x d1 | Err e => (d1, Err e) end.

(** An early [return Err(e)]. *)
Definition io_fail_if {T} (b : bool) (e : E) (k : io T) : io T :=
  if b then io_throw e else k.

Lemma io_bind_Ok {T U} (m : io T) (k : T → io U) d d' u :
  io_bind m k d = (d', Ok u) ↔ ∃ d1 x, m d = (d1, Ok x) ∧ k x d1 = (d', Ok u).
Proof. unfold io_bind. destruct (m d) as [d1 [x|e]]; naive_solver. Qed.

Lemma io_lift_inv {T} (x y : result T E) w w' : io_lift x w = (w', y) → w' = w ∧ x = y.
Proof. by intros [= <- <-]. Qed.

Lemma io_bind_inv {T U} (m : io T) (k : T → io U) d d' r :
  io_bind m k d = (d', r) →
  (∃ d1 x, m d = (d1, Ok x) ∧ k x d1 = (d', r)) ∨ (∃ e, m d = (d', Err e) ∧ r = Err e).
Proof. unfold io_bind. destruct (m d) as [d1 [x|e]]; naive_solver. Qed.
End io_monad.

Arguments io W E T : clear implicits.

Notation "'do?' x ':=' m 'in' k" := (io_bind m (fun x => k))
  (at level 10, x pattern, m at level 100, k at level 200) : phantom_scope.

(** ** An in-memory directory for the witnesses

    [md_fails] names the files whose replacement and appending fail, the
    former before and the latter after one byte was written. *)

Record memory_dir := mk_dir { md_files : string → option string; md_fails : list string }.

Definition set_file (d : memory_dir) (n b : string) : memory_dir :=
  mk_dir (fun m => if String.eqb m n then Some b else md_files d m) (md_fails d).

#[export] Instance memory_state_dir : StateDir := {|
  dir_t := memory_dir;
  geteuid := 1000;
  open_file d n create :=
    match md_files d n with
    | Some _ => (d, Ok tt)
    | None => if create then (set_file d n EmptyString, Ok tt) else (d, Err NotFound)
    end;
  open_file_readonly d n :=
    match md_files d n with Some _ => Ok tt | None => Err NotFound end;
  create_new_file d n :=
    match md_files d n with
    | Some _ => (d, Err AlreadyExists)
    | None => (set_file d n EmptyString, Ok tt)
    end;
  lock_exclusive _ _ := Ok tt;
  lock_shared _ _ := Ok tt;
  file_metadata _ _ := Ok (mk_metadata true false 1 1000 384);
  file_len d n := match md_files d n with Some b => Ok (str_len b) | None => Err NotFound end;
  read_take d n k :=
    match md_files d n with
    | Some b => Ok (if (str_len b <=? k)%N then b else str_take (N.to_nat k) b)
    | None => Err NotFound
    end;
  replace_file d n b :=
    if bool_decide (n ∈ md_fails d) then (d, Err OtherKind) else (set_file d n b, Ok tt);
  append_file d n b :=
    match md_files d n with
    | Some c =>
        if bool_decide (n ∈ md_fails d) then (set_file d n (c +:+ str_take 1 b), Err OtherKind)
        else (set_file d n (c +:+ b), Ok tt)
    | None => (d, Err NotFound)
    end;
  sync_dir _ := Ok tt;
|}.

Lemma set_file_same d n b : md_files (set_file d n b) n = Some b.
Proof. simpl. by rewrite String.eqb_refl. Qed.

Lemma set_file_other d n b m : m ≠ n → md_files (set_file d n b) m = md_files d m.
Proof. simpl. intros H. by destruct (String.eqb_spec m n). Qed.

#[export] Instance memory_state_dir_laws : StateDirLaws memory_state_dir.
Proof.
  refine {| file_contents := md_files : @dir_t memory_state_dir → string → option string |}.
  all: simpl; unfold dir_t, memory_state_dir; simpl.
  - intros d n c d' r m H Hor. destruct (md_files d n) eqn:E; [by injection H as <- <-|].
    destruct c; injection H as <- <-; [|done]. destruct Hor; [|done]. by apply set_file_other.
  - intros d n c d' r b H Hb. rewrite Hb in H. by injection H as <- <-.
  - intros d n d' r H Hn. rewrite Hn in H. injection H as <- <-. right. apply set_file_same.
  - intros d n c d' H. destruct (md_files d n) eqn:E; [injection H as <-; by rewrite E|].
    destruct c; [|done]. injection H as <-. rewrite set_file_same. by eexists.
  - intros d n c d' H. destruct (md_files d n) eqn:E; [done|]. done.
  - intros d n H. by destruct (md_files d n).
  - intros d n k H. by destruct (md_files d n).
  - intros d n k b H. destruct (md_files d n) as [c|]; [|done]. injection H as <-.
    exists c. split; [done|]. destruct (N.leb_spec (str_len c) k); [|done].
    symmetry. apply str_take_long. unfold str_len in *. lia.
  - intros d n b d' r m H Hm. destruct (bool_decide (n ∈ md_fails d)); injection H as <- <-;
      [done|]. by apply set_file_other.
  - intros d n b d' H. destruct (bool_decide (n ∈ md_fails d)); [done|]. injection H as <-.
    apply set_file_same.
  - intros d n b d' e H. destruct (bool_decide (n ∈ md_fails d)); [|done].
    injection H as <- <-. by left.
  - intros d n d' r m H Hm. destruct (md_files d n); injection H as <- <-; [done|].
    by apply set_file_other.
  - intros d n d' H. destruct (md_files d n); [done|]. injection H as <-. split; [done|].
    apply set_file_same.
  - intros d n d' e H. destruct (md_files d n) eqn:Hn; [|done]. injection H as <- <-.
    left. by rewrite Hn.
  - intros d n b d' r m H Hm. destruct (md_files d n) as [c|]; [|by injection H as <- <-].
    destruct (bool_decide (n ∈ md_fails d)); injection H as <- <-; by apply set_file_other.
  - intros d n b d' H. destruct (md_files d n) as [c|]; [|done].
    destruct (bool_decide (n ∈ md_fails d)); [done|]. injection H as <-. exists c.
    split; [done|]. apply set_file_same.
  - intros d n b d' e H. destruct (md_files d n) as [c|] eqn:E; [|injection H as <- <-; by left].
    destruct (bool_decide (n ∈ md_fails d)); [|done]. injection H as <- <-. right.
    exists c, 1%nat. split; [done|]. apply set_file_same.
Defined.
