(* ===== verification/Session.v ===== *)
(** * The session journal: [crates/phantom-session/src/lib.rs]

    A value-free journal of one session: the intent of a step is recorded
    before the step, its completion after it, and the phase moves forward one
    legal transition at a time.  [intend], [complete], [recover], [bootstrap]
    and [open_existing] are here with the state file's encoding and checks;
    the directory is the interface of [StateDir], locks are exclusive for the
    length of an operation, so operations are sequential. *)

From S2P Require Import Prelude Ids External Canonical CanonicalUnique StateDir.

(** ** Data *)

Definition VERSION : N := 3.
Definition MAX_STATE : N := 256 * 1024.
Definition MAX_COMPLETED_TRANSITIONS : nat := 16.

Inductive SessionPhase :=
  | Created | AuthorityEvaluated | AuthorityDenied | LeaseReserved | PermitActive
  | WorkerObserved | PermitTerminal | RollbackResolved | EvidenceFinalized
  | ReceiptPersisted | Complete.

#[export] Instance SessionPhase_eq_dec : EqDecision SessionPhase.
Proof. solve_decision. Defined.

#[export] Instance Serialize_phase : Serialize SessionPhase := fun p =>
  VString match p with
  | Created => "created" | AuthorityEvaluated => "authority_evaluated"
  | AuthorityDenied => "authority_denied" | LeaseReserved => "lease_reserved"
  | PermitActive => "permit_active" | WorkerObserved => "worker_observed"
  | PermitTerminal => "permit_terminal" | RollbackResolved => "rollback_resolved"
  | EvidenceFinalized => "evidence_finalized" | ReceiptPersisted => "receipt_persisted"
  | Complete => "complete"
  end.

Inductive SubsystemStep :=
  | RecordAuthority | ReserveLease | ActivatePermit | RecordWorker | TerminalizePermit
  | ResolveRollback | FinalizeEvidence | PersistReceipt | MarkComplete.

#[export] Instance SubsystemStep_eq_dec : EqDecision SubsystemStep.
Proof. solve_decision. Defined.

Inductive StepIntent :=
  | IAuthorityDecision (decision_digest : Sha256Digest)
  | ILeaseReservation (reservation_digest : Sha256Digest)
  | IPermitActivation (activation_digest : Sha256Digest)
  | IWorkerProxyObservation (observation_digest : Sha256Digest)
  | IPermitTerminalState (terminal_digest : Sha256Digest)
  | IRollbackDisposition (disposition_digest : Sha256Digest)
  | IFinalizedEvidence (evidence_digest : Sha256Digest)
  | IPersistedReceipt (receipt_digest : Sha256Digest)
  | ICompletion (completion_digest : Sha256Digest).

#[export] Instance StepIntent_eq_dec : EqDecision StepIntent.
Proof. solve_decision. Defined.

(** [StepIntent::step] *)
Definition intent_step (i : StepIntent) : SubsystemStep :=
  match i with
  | IAuthorityDecision _ => RecordAuthority
  | ILeaseReservation _ => ReserveLease
  | IPermitActivation _ => ActivatePermit
  | IWorkerProxyObservation _ => RecordWorker
  | IPermitTerminalState _ => TerminalizePermit
  | IRollbackDisposition _ => ResolveRollback
  | IFinalizedEvidence _ => FinalizeEvidence
  | IPersistedReceipt _ => PersistReceipt
  | ICompletion _ => MarkComplete
  end.

Definition variant (name field : string) (d : Sha256Digest) : value :=
  VObject [(name, VObject [(field, to_value d)])].

#[export] Instance Serialize_intent : Serialize StepIntent := fun i =>
  match i with
  | IAuthorityDecision d => variant "authority_decision" "decision_digest" d
  | ILeaseReservation d => variant "lease_reservation" "reservation_digest" d
  | IPermitActivation d => variant "permit_activation" "activation_digest" d
  | IWorkerProxyObservation d => variant "worker_proxy_observation" "observation_digest" d
  | IPermitTerminalState d => variant "permit_terminal_state" "terminal_digest" d
  | IRollbackDisposition d => variant "rollback_disposition" "disposition_digest" d
  | IFinalizedEvidence d => variant "finalized_evidence" "evidence_digest" d
  | IPersistedReceipt d => variant "persisted_receipt" "receipt_digest" d
  | ICompletion d => variant "completion" "completion_digest" d
  end.

Inductive StepCompletion :=
  | CAuthorityDecision (result_digest : Sha256Digest)
  | CLeaseReservation (result_digest : Sha256Digest)
  | CPermitActivation (result_digest : Sha256Digest)
  | CWorkerProxyObservation (result_digest : Sha256Digest)
  | CPermitTerminalState (result_digest : Sha256Digest)
  | CRollbackDisposition (result_digest : Sha256Digest)
  | CFinalizedEvidence (result_digest : Sha256Digest)
  | CPersistedReceipt (result_digest : Sha256Digest)
  | CCompletion (result_digest : Sha256Digest).

#[export] Instance StepCompletion_eq_dec : EqDecision StepCompletion.
Proof. solve_decision. Defined.

(** [StepCompletion::step] *)
Definition completion_step (c : StepCompletion) : SubsystemStep :=
  match c with
  | CAuthorityDecision _ => RecordAuthority
  | CLeaseReservation _ => ReserveLease
  | CPermitActivation _ => ActivatePermit
  | CWorkerProxyObservation _ => RecordWorker
  | CPermitTerminalState _ => TerminalizePermit
  | CRollbackDisposition _ => ResolveRollback
  | CFinalizedEvidence _ => FinalizeEvidence
  | CPersistedReceipt _ => PersistReceipt
  | CCompletion _ => MarkComplete
  end.

#[export] Instance Serialize_completion : Serialize StepCompletion := fun c =>
  match c with
  | CAuthorityDecision d => variant "authority_decision" "result_digest" d
  | CLeaseReservation d => variant "lease_reservation" "result_digest" d
  | CPermitActivation d => variant "permit_activation" "result_digest" d
  | CWorkerProxyObservation d => variant "worker_proxy_observation" "result_digest" d
  | CPermitTerminalState d => variant "permit_terminal_state" "result_digest" d
  | CRollbackDisposition d => variant "rollback_disposition" "result_digest" d
  | CFinalizedEvidence d => variant "finalized_evidence" "result_digest" d
  | CPersistedReceipt d => variant "persisted_receipt" "result_digest" d
  | CCompletion d => variant "completion" "result_digest" d
  end.

Record Transition := mk_transition {
  tr_from : SessionPhase;
  tr_to : SessionPhase;
  tr_intent : StepIntent;
}.

#[export] Instance Transition_eq_dec : EqDecision Transition.
Proof. solve_decision. Defined.

#[export] Instance Serialize_transition : Serialize Transition := fun t =>
  VObject [("from", to_value (tr_from t)); ("to", to_value (tr_to t));
           ("intent", to_value (tr_intent t))].

Inductive RecoveryOutcome :=
  | RClean (phase : SessionPhase) (generation : N)
  | RPending (transition : Transition) (transition_id : Sha256Digest) (generation : N).

Inductive TransitionResult :=
  | TNew (transition_id : Sha256Digest) (generation : N)
  | TExisting (transition_id : Sha256Digest) (generation : N).

Record Pending := mk_pending {
  pe_transition_id : Sha256Digest;
  pe_transition : Transition;
}.

#[export] Instance Serialize_pending : Serialize Pending := fun p =>
  VObject [("transition_id", to_value (pe_transition_id p));
           ("transition", to_value (pe_transition p))].

Record Completed := mk_completed {
  co_transition_id : Sha256Digest;
  co_completion : StepCompletion;
  co_completion_id : Sha256Digest;
}.

#[export] Instance Serialize_completed : Serialize Completed := fun c =>
  VObject [("transition_id", to_value (co_transition_id c));
           ("completion", to_value (co_completion c));
           ("completion_id", to_value (co_completion_id c))].

Record GenesisBinding := mk_genesis {
  ge_session_id : SessionId;
  ge_workspace_identity_digest : Sha256Digest;
  ge_action_intent_root_digest : Sha256Digest;
  ge_store_id : Sha256Digest;
}.

#[export] Instance GenesisBinding_eq_dec : EqDecision GenesisBinding.
Proof. solve_decision. Defined.

#[export] Instance Serialize_genesis : Serialize GenesisBinding := fun g =>
  VObject [("session_id", to_value (ge_session_id g));
           ("workspace_identity_digest", to_value (ge_workspace_identity_digest g));
           ("action_intent_root_digest", to_value (ge_action_intent_root_digest g));
           ("store_id", to_value (ge_store_id g))].

Record StateBody := mk_body {
  sb_version : N;
  sb_genesis : GenesisBinding;
  sb_generation : N;
  sb_phase : SessionPhase;
  sb_pending : option Pending;
  sb_completed : list Completed;
}.

#[export] Instance Serialize_body : Serialize StateBody := fun b =>
  VObject [("version", to_value (sb_version b)); ("genesis", to_value (sb_genesis b));
           ("generation", to_value (sb_generation b)); ("phase", to_value (sb_phase b));
           ("pending", to_value (sb_pending b)); ("completed", to_value (sb_completed b))].

Record StateFile := mk_file { sf_body : StateBody; sf_mac : Sha256Digest }.

#[export] Instance Serialize_file : Serialize StateFile := fun f =>
  VObject [("body", to_value (sf_body f)); ("mac", to_value (sf_mac f))].

Inductive SessionError :=
  | Unavailable | UnsafeStorage | StorageOverlap | InvalidKey | InvalidStoreId | Tampered
  | Truncated | NonCanonical | Oversized | MissingState | StateAlreadyExists | GenesisMismatch
  | GenerationMismatch | GenerationExhausted | TransitionLimit | Conflict | CompletionMismatch
  | NoPending | IllegalTransition
  | ECanonical (e : CanonicalJsonError)
  | EIo (e : ErrorKind).

(** [DenyAllSessionFactory::open], the only production factory *)
Definition deny_all_open : result unit SessionError := Err Unavailable.

(** [fn storage_error] *)
Definition storage_error (e : ErrorKind) : SessionError :=
  if bool_decide (e = InvalidData) then UnsafeStorage else EIo e.

(** The retained directory is passed around; [key] is in memory only. *)
Record Journal := mk_journal {
  j_state : string;
  j_lock : string;
  j_genesis : GenesisBinding;
  j_key : string;
}.

(** ** The transition relation of the phases *)

(** [matches!((t.from, t.to, &t.intent), ...)] of [fn validate] *)
Definition legal (from to : SessionPhase) (i : StepIntent) : bool :=
  match from, to, i with
  | Created, AuthorityEvaluated, IAuthorityDecision _
  | Created, AuthorityDenied, IAuthorityDecision _
  | AuthorityEvaluated, LeaseReserved, ILeaseReservation _
  | LeaseReserved, PermitActive, IPermitActivation _
  | PermitActive, WorkerObserved, IWorkerProxyObservation _
  | WorkerObserved, PermitTerminal, IPermitTerminalState _
  | PermitTerminal, RollbackResolved, IRollbackDisposition _
  | AuthorityDenied, EvidenceFinalized, IFinalizedEvidence _
  | RollbackResolved, EvidenceFinalized, IFinalizedEvidence _
  | EvidenceFinalized, ReceiptPersisted, IPersistedReceipt _
  | ReceiptPersisted, Complete, ICompletion _ => true
  | _, _, _ => false
  end.

(** [fn validate] *)
Definition validate (t : Transition) (current : SessionPhase) : result unit SessionError :=
  fail_if (negb (bool_decide (tr_from t = current))) IllegalTransition
  (if legal (tr_from t) (tr_to t) (tr_intent t) then Ok tt else Err IllegalTransition).

(** ** Digests and the state file *)

Definition STATE_DOMAIN : string := "phantom.session.state.v3" +:+ nul.
Definition TRANSITION_DOMAIN : string := "phantom.session.transition.v3" +:+ nul.
Definition COMPLETION_DOMAIN : string := "phantom.session.completion.v1" +:+ nul.

(** [struct TransitionIdentity], [struct CompletionIdentity] *)
Definition transition_identity (g : GenesisBinding) (t : Transition) : value :=
  VObject [("genesis", to_value g); ("transition", to_value t)].

Definition completion_identity (g : GenesisBinding) (id : Sha256Digest) (c : StepCompletion)
    : value :=
  VObject [("genesis", to_value g); ("transition_id", to_value id); ("completion", to_value c)].

(** [serde_json::Error::is_eof] of the error of parsing some bytes *)
Class SerdeEof := json_is_eof : string → bool.

Section session.
Context `{X : External} `{DF : !Deserialize StateFile} `{EOF : SerdeEof} `{S : StateDir}.

Abbreviation journal_io := (io dir_t SessionError).

(** [hex::encode(..).parse().map_err(|_| Tampered)] *)
Definition parse_digest (bytes : string) : result Sha256Digest SessionError :=
  map_err (fun _ => Tampered) (digest_from_str (hex_encode bytes)).

(** [fn mac] *)
Definition mac (key : string) (body : StateBody) : result Sha256Digest SessionError :=
  let? text := map_err ECanonical (canonical_json_v1 body) in
  parse_digest (hmac_sha256 key (STATE_DOMAIN +:+ text)).

(** [fn transition_digest] *)
Definition transition_digest (g : GenesisBinding) (t : Transition)
    : result Sha256Digest SessionError :=
  let? text := map_err ECanonical (canonical_json_v1 (transition_identity g t)) in
  parse_digest (sha256 (TRANSITION_DOMAIN +:+ text)).

(** [fn completion_digest] *)
Definition completion_digest (g : GenesisBinding) (id : Sha256Digest) (c : StepCompletion)
    : result Sha256Digest SessionError :=
  let? text := map_err ECanonical (canonical_json_v1 (completion_identity g id c)) in
  parse_digest (sha256 (COMPLETION_DOMAIN +:+ text)).

(** The [for] loop of [validate_state_bindings] *)
Fixpoint validate_completed (g : GenesisBinding) (l : list Completed)
    : result unit SessionError :=
  match l with
  | [] => Ok tt
  | c :: l' =>
      let? id := completion_digest g (co_transition_id c) (co_completion c) in
      fail_if (negb (bool_decide (id = co_completion_id c))) Tampered (validate_completed g l')
  end.

(** [fn validate_state_bindings] *)
Definition validate_state_bindings (b : StateBody) : result unit SessionError :=
  let? _ :=
    match sb_pending b with
    | Some p =>
        let? id := transition_digest (sb_genesis b) (pe_transition p) in
        fail_if (negb (bool_decide (id = pe_transition_id p))
                 || negb (bool_decide (tr_from (pe_transition p) = sb_phase b))) Tampered
          (validate (pe_transition p) (sb_phase b))
    | None => Ok tt
    end in
  validate_completed (sb_genesis b) (sb_completed b).

(** What [load] does with the bytes it read. *)
Definition parse_state (j : Journal) (b : string) : result StateBody SessionError :=
  let? sf := ok_or (from_slice b) (if json_is_eof b then Truncated else Tampered) in
  let? text := map_err ECanonical (canonical_json_v1 sf) in
  fail_if (negb (String.eqb text b)) NonCanonical
  (let? expected := mac (j_key j) (sf_body sf) in
   fail_if (negb (bool_decide (expected = sf_mac sf))) Tampered
   (fail_if (negb (sb_version (sf_body sf) =? VERSION)%N
             || negb (bool_decide (sb_genesis (sf_body sf) = j_genesis j))) GenesisMismatch
    (fail_if (MAX_COMPLETED_TRANSITIONS <? length (sb_completed (sf_body sf)))%nat Oversized
     (let? _ := validate_state_bindings (sf_body sf) in Ok (sf_body sf))))).

(** ** The journal's operations *)

(** [Journal::lock] *)
Definition lock (j : Journal) : journal_io unit := fun d =>
  let '(d1, r) := open_file d (j_lock j) true in
  (d1, let? _ := map_err storage_error r in map_err EIo (lock_exclusive d1 (j_lock j))).

(** [Journal::load] *)
Definition load (j : Journal) : journal_io StateBody := fun d =>
  let '(d1, r) := open_file d (j_state j) false in
  (d1, let? _ := map_err storage_error r in
       let? len := map_err EIo (file_len d1 (j_state j)) in
       fail_if (MAX_STATE <? len)%N Oversized
       (let? b := map_err EIo (read_take d1 (j_state j) (MAX_STATE + 1)) in
        fail_if (MAX_STATE <? str_len b)%N Oversized (parse_state j b))).

(** The bytes [Journal::write] writes. *)
Definition state_bytes (j : Journal) (body : StateBody) : result string SessionError :=
  let? m := mac (j_key j) body in
  map_err ECanonical (canonical_json_v1 (mk_file body m)).

(** [Journal::write] *)
Definition write (j : Journal) (body : StateBody) : journal_io unit :=
  do? b := io_lift (state_bytes j body) in
  io_fail_if (MAX_STATE <? str_len b)%N Oversized
  (fun d => let '(d1, r) := replace_file d (j_state j) b in (d1, map_err storage_error r)).

(** [Journal::intend] *)
Definition intend (j : Journal) (expected : N) (t : Transition) : journal_io TransitionResult :=
  do? id := io_lift (transition_digest (j_genesis j) t) in
  do? _ := lock j in
  do? s := load j in
  match sb_pending s with
  | Some p =>
      if bool_decide (pe_transition_id p = id) && bool_decide (pe_transition p = t)
      then io_ret (TExisting id (sb_generation s))
      else io_throw Conflict
  | None =>
      if existsb (fun c => bool_decide (co_transition_id c = id)) (sb_completed s)
      then io_ret (TExisting id (sb_generation s))
      else
        io_fail_if (negb (sb_generation s =? expected)%N) GenerationMismatch
        (do? _ := io_lift (validate t (sb_phase s)) in
         do? generation := io_lift (ok_or (checked_add_u64 (sb_generation s) 1)
                                      GenerationExhausted) in
         do? _ := write j (mk_body (sb_version s) (sb_genesis s) generation (sb_phase s)
                             (Some (mk_pending id t)) (sb_completed s)) in
         io_ret (TNew id generation))
  end.

(** [Journal::complete] *)
Definition complete (j : Journal) (expected : N) (id : Sha256Digest) (completion : StepCompletion)
    : journal_io TransitionResult :=
  do? _ := lock j in
  do? s := load j in
  match List.find (fun c => bool_decide (co_transition_id c = id)) (sb_completed s) with
  | Some existing =>
      if bool_decide (co_completion existing = completion)
      then io_ret (TExisting id (sb_generation s))
      else io_throw Conflict
  | None =>
      io_fail_if (negb (sb_generation s =? expected)%N) GenerationMismatch
      (do? p := io_lift (ok_or (sb_pending s) NoPending) in
       io_fail_if (negb (bool_decide (pe_transition_id p = id))) Conflict
       (io_fail_if (negb (bool_decide (intent_step (tr_intent (pe_transition p))
                                       = completion_step completion))) CompletionMismatch
        (io_fail_if (MAX_COMPLETED_TRANSITIONS <=? length (sb_completed s))%nat TransitionLimit
         (do? completion_id := io_lift (completion_digest (j_genesis j) id completion) in
          do? generation := io_lift (ok_or (checked_add_u64 (sb_generation s) 1)
                                       GenerationExhausted) in
          do? _ := write j (mk_body (sb_version s) (sb_genesis s) generation
                              (tr_to (pe_transition p)) None
                              (sb_completed s ++
                                 [mk_completed (pe_transition_id p) completion completion_id])) in
          io_ret (TNew (pe_transition_id p) generation)))))
  end.

(** [Journal::recover] *)
Definition recover (j : Journal) : journal_io RecoveryOutcome :=
  do? _ := lock j in
  do? s := load j in
  io_ret match sb_pending s with
         | Some p => RPending (pe_transition p) (pe_transition_id p) (sb_generation s)
         | None => RClean (sb_phase s) (sb_generation s)
         end.

Section host.
Context `{HP : !HostPaths}.

(** [fn ensure_real_dir] *)
Definition ensure_real_dir (p : string) : result unit SessionError :=
  let? (is_symlink, is_dir) := map_err EIo (symlink_metadata p) in
  if is_symlink || negb is_dir then Err UnsafeStorage else Ok tt.

(** [Journal::prepare]: the journal and its directory. *)
Definition prepare (root workspace : string) (g : GenesisBinding) (key : string)
    : result (Journal * dir_t) SessionError :=
  fail_if (all_bytes (ascii_eqb zero_byte) key) InvalidKey
  (let? _ := ensure_real_dir root in
   let? root := map_err (fun _ => UnsafeStorage) (canonicalize root) in
   let? workspace := map_err (fun _ => UnsafeStorage) (canonicalize workspace) in
   fail_if (path_starts_with workspace root || path_starts_with root workspace) StorageOverlap
   (let? dir := map_err storage_error (ensure_dir (path_join root "sessions")) in
    Ok (mk_journal (id_str (ge_session_id g) +:+ ".json") (id_str (ge_session_id g) +:+ ".lock")
          g key, dir))).

Definition initial_body (g : GenesisBinding) : StateBody := mk_body VERSION g 0 Created None [].

(** [Journal::bootstrap]; [random] is what [fill_bytes] put in the store id. *)
Definition bootstrap (root workspace : string) (session_id : SessionId)
    (workspace_identity_digest action_intent_root_digest : Sha256Digest) (key random : string)
    : result (Journal * dir_t) SessionError :=
  fail_if (all_bytes (ascii_eqb zero_byte) random) InvalidStoreId
  (let? store_id := parse_digest random in
   let? (j, d) := prepare root workspace
     (mk_genesis session_id workspace_identity_digest action_intent_root_digest store_id) key in
   let '(d', r) :=
     (do? _ := lock j in
      do? _ := fun d =>
        let '(d1, r) := open_file d (j_state j) false in
        (d1, match r with
             | Ok _ => Err StateAlreadyExists
             | Err NotFound => Ok tt
             | Err e => Err (storage_error e)
             end) in
      do? _ := write j (initial_body (j_genesis j)) in
      load j) d in
   let? _ := r in Ok (j, d')).

(** [Journal::open_existing] *)
Definition open_existing (root workspace : string) (g : GenesisBinding) (key : string)
    : result (Journal * dir_t) SessionError :=
  let? (j, d) := prepare root workspace g key in
  let '(d', r) :=
    (do? _ := lock j in
     do? _ := fun d =>
       let '(d1, r) := open_file d (j_state j) false in
       (d1, match r with
            | Ok _ => Ok tt
            | Err NotFound => Err MissingState
            | Err e => Err (storage_error e)
            end) in
     load j) d in
  let? _ := r in Ok (j, d').
End host.
End session.
