(* ===== verification/SessionSpec.v ===== *)
(** * What the session journal promises

    The states a journal can reach form a transition system; the operations
    of [Session] are steps of it, whatever reads and writes fail.  From it:
    the order of the steps, the exact generation counter, the limits that are
    never met, and what a restarted process finds. *)

From S2P Require Import Prelude Ids External Canonical CanonicalUnique StateDir Session.

(** ** The state file determines the state *)

#[export] Instance SerializeInj_phase : SerializeInj SessionPhase.
Proof. split; [done|done|]. intros a b H. by destruct a, b; inversion H. Qed.

Lemma variant_inj n f d n' f' d' :
  json_equiv (variant n f d) (variant n' f' d') → n = n' ∧ f = f' ∧ d = d'.
Proof.
  intros [-> [-> H]%object_single]%object_single. by apply serialize_inj in H as ->.
Qed.

Lemma variant_well_formed n f d : well_formed (variant n f d).
Proof. repeat (split || constructor || apply not_elem_of_nil). Qed.

#[export] Instance SerializeInj_intent : SerializeInj StepIntent.
Proof.
  split.
  - by intros []; apply variant_well_formed.
  - by intros [].
  - intros [] []; intros (? & ? & ?)%variant_inj; congruence.
Qed.

#[export] Instance SerializeInj_completion : SerializeInj StepCompletion.
Proof.
  split.
  - by intros []; apply variant_well_formed.
  - by intros [].
  - intros [] []; intros (? & ? & ?)%variant_inj; congruence.
Qed.

#[export] Instance SerializeInj_transition : SerializeInj Transition.
Proof. split; [intros; record_well_formed|done|record_inj]. Qed.
#[export] Instance SerializeInj_pending : SerializeInj Pending.
Proof. split; [intros; record_well_formed|done|record_inj]. Qed.
#[export] Instance SerializeInj_completed : SerializeInj Completed.
Proof. split; [intros; record_well_formed|done|record_inj]. Qed.
#[export] Instance SerializeInj_genesis : SerializeInj GenesisBinding.
Proof. split; [intros; record_well_formed|done|record_inj]. Qed.
#[export] Instance SerializeInj_body : SerializeInj StateBody.
Proof. split; [intros; record_well_formed|done|record_inj]. Qed.
#[export] Instance SerializeInj_file : SerializeInj StateFile.
Proof. split; [intros; record_well_formed|done|record_inj]. Qed.

(** ** The course of a session

    The steps in the order they must be taken, with the phase each leads to:
    a session whose authority was granted, and one whose authority was
    denied. *)

Definition full_course : list (SubsystemStep * SessionPhase) :=
  [(RecordAuthority, AuthorityEvaluated); (ReserveLease, LeaseReserved);
   (ActivatePermit, PermitActive); (RecordWorker, WorkerObserved);
   (TerminalizePermit, PermitTerminal); (ResolveRollback, RollbackResolved);
   (FinalizeEvidence, EvidenceFinalized); (PersistReceipt, ReceiptPersisted);
   (MarkComplete, Complete)].

Definition denied_course : list (SubsystemStep * SessionPhase) :=
  [(RecordAuthority, AuthorityDenied); (FinalizeEvidence, EvidenceFinalized);
   (PersistReceipt, ReceiptPersisted); (MarkComplete, Complete)].

Definition phase_after (course : list (SubsystemStep * SessionPhase)) (n : nat) : SessionPhase :=
  match n with
  | O => Created
  | S k => match course !! k with Some (_, p) => p | None => Complete end
  end.

Definition completed_steps (s : StateBody) : list SubsystemStep :=
  map (fun c => completion_step (co_completion c)) (sb_completed s).

(** [s] is where [course] is after [n] completed steps, with the next step
    pending or not. *)
Record follows (course : list (SubsystemStep * SessionPhase)) (n : nat) (s : StateBody) : Prop := {
  follows_bound : (n <= length course)%nat;
  follows_steps : completed_steps s = map fst (take n course);
  follows_phase : sb_phase s = phase_after course n;
  follows_pending :
    match sb_pending s with
    | None => sb_generation s = (2 * N.of_nat n)%N
    | Some p => sb_generation s = (2 * N.of_nat n + 1)%N ∧
        tr_from (pe_transition p) = sb_phase s ∧
        course !! n = Some (intent_step (tr_intent (pe_transition p)), tr_to (pe_transition p))
    end;
}.

Definition on_course (s : StateBody) : Prop :=
  ∃ course n, (course = full_course ∨ course = denied_course) ∧ follows course n s.

(** A legal transition out of a phase of a course is that course's next step,
    or, at the start, the other course's. *)
Lemma legal_next course n to i :
  course = full_course ∨ course = denied_course →
  (n <= length course)%nat → legal (phase_after course n) to i = true →
  ∃ course', (course' = full_course ∨ course' = denied_course) ∧
    take n course' = take n course ∧ phase_after course' n = phase_after course n ∧
    course' !! n = Some (intent_step i, to).
Proof.
  intros [-> | ->] Hn Hl.
  - do 9 (destruct n as [|n]; [destruct to; try discriminate Hl; destruct i; try discriminate Hl;
      first [exists full_course; by repeat (split; [auto|]) | exists denied_course; by repeat (split; [auto|])]|]).
    destruct n; [by destruct to|simpl in Hn; lia].
  - do 4 (destruct n as [|n]; [destruct to; try discriminate Hl; destruct i; try discriminate Hl;
      first [exists full_course; by repeat (split; [auto|]) | exists denied_course; by repeat (split; [auto|])]|]).
    destruct n; [by destruct to|simpl in Hn; lia].
Qed.

(** ** The journal as a transition system *)

Section journal_system.
Context `{X : External}.

Inductive journal_step (s : StateBody) : StateBody → Prop :=
  | js_intend t id :
      sb_pending s = None →
      transition_digest (sb_genesis s) t = Ok id →
      id ∉ map co_transition_id (sb_completed s) →
      validate t (sb_phase s) = Ok tt →
      journal_step s (mk_body (sb_version s) (sb_genesis s) (sb_generation s + 1) (sb_phase s)
                        (Some (mk_pending id t)) (sb_completed s))
  | js_complete p c cid :
      sb_pending s = Some p →
      intent_step (tr_intent (pe_transition p)) = completion_step c →
      pe_transition_id p ∉ map co_transition_id (sb_completed s) →
      completion_digest (sb_genesis s) (pe_transition_id p) c = Ok cid →
      journal_step s (mk_body (sb_version s) (sb_genesis s) (sb_generation s + 1)
                        (tr_to (pe_transition p)) None
                        (sb_completed s ++ [mk_completed (pe_transition_id p) c cid])).

Lemma validate_Ok t p u :
  validate t p = Ok u → tr_from t = p ∧ legal p (tr_to t) (tr_intent t) = true.
Proof.
  unfold validate. intros H. inv_ok. split_bools. subst p. split; [done|].
  by destruct (legal _ _ _).
Qed.

Lemma journal_step_course s s' : on_course s → journal_step s s' → on_course s'.
Proof.
  intros (course & n & Hc & [Hb Hs Hp Hpe]) Hst.
  inversion Hst as [t id Hn _ _ Hv|p c cid Hpend Hstep _ _]; subst; clear Hst.
  - apply validate_Ok in Hv as [Hfrom Hl]. rewrite Hp in Hl.
    destruct (legal_next course n _ _ Hc Hb Hl) as (course' & Hc' & Htake & Hph & Hnext).
    exists course', n. split; [done|]. rewrite Hn in Hpe. constructor; simpl.
    + apply lookup_lt_Some in Hnext. lia.
    + unfold completed_steps in *. simpl. by rewrite Hs, Htake.
    + by rewrite Hp, Hph.
    + rewrite Hpe. auto.
  - rewrite Hpend in Hpe. destruct Hpe as (Hg & _ & Hnext).
    exists course, (S n). split; [done|]. constructor; simpl.
    + apply lookup_lt_Some in Hnext. lia.
    + unfold completed_steps in *. simpl. rewrite map_app, Hs, (take_S_r _ _ _ Hnext), map_app.
      simpl. by rewrite Hstep.
    + by rewrite Hnext.
    + rewrite Hg. lia.
Qed.

Lemma initial_on_course g : on_course (initial_body g).
Proof. exists full_course, 0%nat. split; [auto|]. constructor; simpl; (lia || done). Qed.

(** No session gets near the limits of the journal. *)
Lemma on_course_limits s :
  on_course s → (length (sb_completed s) <= 9)%nat ∧ (sb_generation s <= 18)%N.
Proof.
  intros (course & n & Hc & [Hb Hs Hp Hpe]).
  assert (length course <= 9)%nat as Hl by (destruct Hc as [-> | ->]; simpl; lia).
  pose proof (f_equal length Hs) as He. unfold completed_steps in He.
  rewrite !length_map, length_take in He. split; [lia|].
  destruct (sb_pending s); [|lia]. destruct Hpe as (-> & _ & Hn%lookup_lt_Some). lia.
Qed.
End journal_system.

(** ** Reading and writing the state file *)

Section journal_file.
Context `{X : External} `{JL : !JsonStringLaws X} `{DF : !Deserialize StateFile}
  `{EOF : SerdeEof} `{S : StateDir} `{SL : !StateDirLaws S}.

(** The state file is what [write] writes for [s]. *)
Definition holds (d : dir_t) (j : Journal) (s : StateBody) : Prop :=
  ∃ b, state_bytes j s = Ok b ∧ file_contents d (j_state j) = Some b.

Definition same_file (j : Journal) (d d' : dir_t) : Prop :=
  file_contents d' (j_state j) = file_contents d (j_state j).

(** A journal as [prepare] makes it: its two files are distinct. *)
Definition prepared (j : Journal) : Prop := j_lock j ≠ j_state j.

Lemma holds_same d d' j s : same_file j d d' → holds d j s → holds d' j s.
Proof. intros H (b & Hb & Hc). exists b. by rewrite H. Qed.

Lemma lock_same j d d' r : prepared j → lock j d = (d', r) → same_file j d d'.
Proof.
  unfold lock, prepared. intros Hj H. destruct (open_file d (j_lock j) true) as [d1 r1] eqn:Ho.
  injection H as <- <-. eapply open_file_same; [exact Ho|]. left. congruence.
Qed.

Lemma load_same j d d' r :
  load j d = (d', r) →
  same_file j d d' ∧
  ∀ s, r = Ok s → ∃ b, file_contents d (j_state j) = Some b ∧ parse_state j b = Ok s.
Proof.
  unfold load. intros H. destruct (open_file d (j_state j) false) as [d1 r1] eqn:Ho.
  injection H as <- <-.
  assert (same_file j d d1) as Hs by (eapply open_file_same; [exact Ho|auto]).
  split; [done|]. intros s Hr. apply rbind_Ok in Hr as (? & _ & Hr).
  apply rbind_Ok in Hr as (len & _ & Hr). apply fail_if_Ok in Hr as [_ Hr].
  apply rbind_Ok in Hr as (b & Hb%map_err_Ok & Hr). apply fail_if_Ok in Hr as [Hlen%N.ltb_ge Hr].
  apply read_take_contents in Hb as (c & Hc & ->).
  rewrite (str_take_whole MAX_STATE) in Hr by (done || reflexivity).
  exists c. split; [by rewrite <- Hs|done].
Qed.

Lemma parse_state_Ok j b s :
  parse_state j b = Ok s →
  state_bytes j s = Ok b ∧ sb_version s = VERSION ∧ sb_genesis s = j_genesis j ∧
  (length (sb_completed s) <= MAX_COMPLETED_TRANSITIONS)%nat ∧
  validate_state_bindings s = Ok tt.
Proof.
  unfold parse_state. intros H. apply rbind_Ok in H as (sf & Hsf%ok_or_Ok & H).
  apply rbind_Ok in H as (text & Ht%map_err_Ok & H).
  apply fail_if_Ok in H as [Hb%negb_false_iff%String.eqb_eq H].
  apply rbind_Ok in H as (m & Hm & H). inv_ok. split_bools. subst.
  destruct sf as [body mc]; simpl in *.
  match goal with u : unit |- _ => destruct u end.
  split_and!; [|by apply N.eqb_eq|done|by apply Nat.ltb_ge|done].
  unfold state_bytes. rewrite Hm. simpl. by rewrite Ht.
Qed.

Lemma state_bytes_inj j s s' b : state_bytes j s = Ok b → state_bytes j s' = Ok b → s = s'.
Proof.
  unfold state_bytes. intros H H'.
  apply rbind_Ok in H as (m & _ & H%map_err_Ok). apply rbind_Ok in H' as (m' & _ & H'%map_err_Ok).
  pose proof (canonical_inj _ _ _ H H') as He. by injection He.
Qed.

(** A journal that loads is the one that was written. *)
Lemma load_holds j d d' s s' :
  load j d = (d', Ok s') → holds d j s →
  s' = s ∧ sb_genesis s = j_genesis j ∧ validate_state_bindings s = Ok tt ∧ same_file j d d'.
Proof.
  intros Hl (b & Hb & Hc). apply load_same in Hl as [Hs Hl].
  destruct (Hl _ eq_refl) as (b' & Hc' & Hp). rewrite Hc in Hc'. injection Hc' as <-.
  apply parse_state_Ok in Hp as (Hb' & _ & Hg & _ & Hv).
  rewrite (state_bytes_inj _ _ _ _ Hb Hb'). done.
Qed.

Lemma write_holds j s d d' r :
  write j s d = (d', r) →
  (r = Ok tt → holds d' j s) ∧ (same_file j d d' ∨ holds d' j s) ∧
  r ≠ Err TransitionLimit ∧ r ≠ Err GenerationExhausted.
Proof.
  unfold write. intros H. apply io_bind_inv in H as [(d1 & b & Hb & H)|(e & Hb & ->)].
  - injection Hb as <- Hb. unfold io_fail_if in H.
    destruct (MAX_STATE <? str_len b)%N.
    { injection H as <- <-. split_and!; [done|by left|done|done]. }
    destruct (replace_file d (j_state j) b) as [d2 r2] eqn:Hr. injection H as <- <-.
    destruct r2 as [[]|e]; simpl.
    + apply replace_file_ok in Hr. assert (holds d2 j s) as Hh by (by exists b).
      split_and!; [done|by right|done|done].
    + apply replace_file_err in Hr. split_and!; [done| | |].
      * destruct Hr as [Hr|Hr]; [by left|right; by exists b].
      * unfold storage_error. by case_bool_decide.
      * unfold storage_error. by case_bool_decide.
  - injection Hb as <- Hb. split_and!; [done|by left| |]; intros [= ->];
      unfold state_bytes, mac, parse_digest in Hb;
      destruct (canonical_json_v1 s) eqn:E1; simpl in Hb; try done;
      destruct (digest_from_str _) eqn:E2; simpl in Hb; try done;
      destruct (canonical_json_v1 (mk_file _ _)) eqn:E3; simpl in Hb; done.
Qed.
End journal_file.

(** ** The operations are steps *)

Inductive call :=
  | KIntend (expected : N) (t : Transition)
  | KComplete (expected : N) (id : Sha256Digest) (c : StepCompletion)
  | KRecover.

Inductive answer :=
  | ATransition (r : TransitionResult)
  | ARecovery (r : RecoveryOutcome).

Section journal_ops.
Context `{X : External} `{JL : !JsonStringLaws X} `{DF : !Deserialize StateFile}
  `{EOF : SerdeEof} `{S : StateDir} `{SL : !StateDirLaws S}.

Definition call_exec (j : Journal) (c : call) : io dir_t SessionError answer :=
  match c with
  | KIntend e t => do? r := intend j e t in io_ret (ATransition r)
  | KComplete e id x => do? r := complete j e id x in io_ret (ATransition r)
  | KRecover => do? r := recover j in io_ret (ARecovery r)
  end.

(** A history of calls by any number of processes, one after the other. *)
Fixpoint run_calls (j : Journal) (d : dir_t) (cs : list call)
    : dir_t * list (result answer SessionError) :=
  match cs with
  | [] => (d, [])
  | c :: cs' =>
      let '(d1, r) := call_exec j c d in
      let '(d2, rs) := run_calls j d1 cs' in (d2, r :: rs)
  end.

(** Both limits of the journal are errors that no call reports. *)
Definition is_limit_error (e : SessionError) : Prop :=
  e = TransitionLimit ∨ e = GenerationExhausted.

(** What a call does to a journal that holds [s]: nothing, or one step. *)
Definition simulates {T} (j : Journal) (s : StateBody) (d d' : dir_t)
    (r : result T SessionError) : Prop :=
  (same_file j d d' ∨ ∃ s', journal_step s s' ∧ holds d' j s') ∧
  ∀ e, r = Err e → is_limit_error e → ¬ on_course s.

Lemma simulates_same {T} j s d d' (r : result T SessionError) :
  same_file j d d' → (∀ e, r = Err e → ¬ is_limit_error e) → simulates j s d d' r.
Proof. intros Hs He. split; [by left|]. intros e Hr Hl. by destruct (He e). Qed.

Lemma not_limit e : e ≠ TransitionLimit → e ≠ GenerationExhausted → ¬ is_limit_error e.
Proof. intros H1 H2 []; done. Qed.

Lemma parse_digest_error b e : parse_digest b = Err e → ¬ is_limit_error e.
Proof.
  unfold parse_digest. destruct (digest_from_str _); simpl; [done|].
  intros [= <-]. by apply not_limit.
Qed.

Lemma transition_digest_error g t e : transition_digest g t = Err e → ¬ is_limit_error e.
Proof.
  unfold transition_digest. intros [H|(x & _ & H)]%rbind_Err; [|by eapply parse_digest_error].
  destruct (canonical_json_v1 _); simpl in H; [done|]. injection H as <-. by apply not_limit.
Qed.

Lemma completion_digest_error g i c e : completion_digest g i c = Err e → ¬ is_limit_error e.
Proof.
  unfold completion_digest. intros [H|(x & _ & H)]%rbind_Err; [|by eapply parse_digest_error].
  destruct (canonical_json_v1 _); simpl in H; [done|]. injection H as <-. by apply not_limit.
Qed.

Lemma storage_error_limit e : ¬ is_limit_error (storage_error e).
Proof. unfold storage_error. case_bool_decide; by apply not_limit. Qed.

Lemma map_io_error {T} (r : result T ErrorKind) e : map_err EIo r = Err e → ¬ is_limit_error e.
Proof. destruct r; simpl; [done|]. intros [= <-]. by apply not_limit. Qed.

Lemma map_storage_error {T} (r : result T ErrorKind) e :
  map_err storage_error r = Err e → ¬ is_limit_error e.
Proof. destruct r; simpl; [done|]. intros [= <-]. apply storage_error_limit. Qed.

Lemma lock_error j d d' e : lock j d = (d', Err e) → ¬ is_limit_error e.
Proof.
  unfold lock. destruct (open_file _ _ _) as [d1 r1]. intros [= <- [H|(u & _ & H)]%rbind_Err];
    eauto using map_storage_error, map_io_error.
Qed.

Lemma validate_error t p e : validate t p = Err e → ¬ is_limit_error e.
Proof.
  unfold validate. intros [[_ <-]|[_ H]]%fail_if_Err; [by apply not_limit|].
  destruct (legal _ _ _); [done|]. injection H as <-. by apply not_limit.
Qed.

Lemma validate_completed_error g l e : validate_completed g l = Err e → ¬ is_limit_error e.
Proof.
  induction l as [|c l IH]; simpl; [done|].
  intros [H|(i & _ & [[_ <-]|[_ H]]%fail_if_Err)]%rbind_Err;
    [by eapply completion_digest_error|by apply not_limit|by apply IH].
Qed.

Lemma validate_bindings_error b e : validate_state_bindings b = Err e → ¬ is_limit_error e.
Proof.
  unfold validate_state_bindings.
  intros [H|(u & _ & H)]%rbind_Err; [|by eapply validate_completed_error].
  destruct (sb_pending b) as [p|]; [|done].
  apply rbind_Err in H as [H|(i & _ & [[_ <-]|[_ H]]%fail_if_Err)];
    [by eapply transition_digest_error|by apply not_limit|by eapply validate_error].
Qed.

Lemma mac_error key s e : mac key s = Err e → ¬ is_limit_error e.
Proof.
  unfold mac. intros [H|(x & _ & H)]%rbind_Err; [|by eapply parse_digest_error].
  destruct (canonical_json_v1 _); simpl in H; [done|]. injection H as <-. by apply not_limit.
Qed.

Lemma parse_state_error j b e : parse_state j b = Err e → ¬ is_limit_error e.
Proof.
  unfold parse_state. intros [H|(sf & _ & H)]%rbind_Err.
  { destruct (from_slice b); simpl in H; [done|]. injection H as <-.
    destruct (json_is_eof b); by apply not_limit. }
  apply rbind_Err in H as [H|(text & _ & [[_ <-]|[_ H]]%fail_if_Err)]; [|by apply not_limit|].
  { destruct (canonical_json_v1 sf); simpl in H; [done|]. injection H as <-. by apply not_limit. }
  apply rbind_Err in H as [H|(m & _ & [[_ <-]|[_ H]]%fail_if_Err)];
    [by eapply mac_error|by apply not_limit|].
  apply fail_if_Err in H as [[_ <-]|[_ [[_ <-]|[_ H]]%fail_if_Err]]; [by apply not_limit..|].
  apply rbind_Err in H as [H|(u & _ & H)]; [by eapply validate_bindings_error|done].
Qed.

Lemma load_error j d d' e : load j d = (d', Err e) → ¬ is_limit_error e.
Proof.
  unfold load. destruct (open_file _ _ _) as [d1 r1].
  intros [= <- [H|(u & _ & [H|(n & _ & [[_ <-]|[_ H]]%fail_if_Err)]%rbind_Err)]%rbind_Err];
    [by eapply map_storage_error|by eapply map_io_error|by apply not_limit|].
  apply rbind_Err in H as [H|(b & _ & [[_ <-]|[_ H]]%fail_if_Err)];
    [by eapply map_io_error|by apply not_limit|by eapply parse_state_error].
Qed.

Lemma not_existsb_id id l :
  existsb (fun c => bool_decide (co_transition_id c = id)) l = false →
  id ∉ map co_transition_id l.
Proof.
  intros He [c [-> Hc]]%list_elem_of_fmap.
  assert (existsb (fun c' => bool_decide (co_transition_id c' = co_transition_id c)) l = true);
    [|congruence].
  apply existsb_exists. exists c. split; [by apply list_elem_of_In|]. by apply bool_decide_eq_true.
Qed.

Lemma not_find_id id l :
  List.find (fun c => bool_decide (co_transition_id c = id)) l = None →
  id ∉ map co_transition_id l.
Proof.
  intros He [c [-> Hc]]%list_elem_of_fmap. apply list_elem_of_In in Hc.
  by apply (find_none _ _ He), bool_decide_eq_false in Hc.
Qed.

(** Past the lock and the load of an operation: it failed without a write and
    without a limit error, or it goes on with the stored state. *)
Lemma locked_load {T} j (k : StateBody → io dir_t SessionError T) d d' r s :
  prepared j → holds d j s →
  (do? _ := lock j in do? s := load j in k s) d = (d', r) →
  (same_file j d d' ∧ ∃ e, r = Err e ∧ ¬ is_limit_error e) ∨
  (sb_genesis s = j_genesis j ∧ validate_state_bindings s = Ok tt ∧
   ∃ d1, same_file j d d1 ∧ holds d1 j s ∧ k s d1 = (d', r)).
Proof.
  intros Hj Hs H. apply io_bind_inv in H as [(d1 & u & Hl & H)|(e & Hl & ->)];
    [|left; split; [by eapply lock_same|]; eauto using lock_error].
  pose proof (lock_same _ _ _ _ Hj Hl) as Hs1.
  apply io_bind_inv in H as [(d2 & s' & Hld & H)|(e & Hld & ->)].
  - pose proof (holds_same _ _ _ _ Hs1 Hs) as Hh1.
    destruct (load_holds _ _ _ _ _ Hld Hh1) as (-> & Hg & Hv & Hs2). right. split; [done|]. split; [done|].
    exists d2. split_and!; [by unfold same_file in *; congruence| |done].
    by eapply holds_same.
  - apply load_same in Hld as Hs2. destruct Hs2 as [Hs2 _].
    left. split; [unfold same_file in *; congruence|]. eauto using load_error.
Qed.

(** The write that ends an operation. *)
Lemma written j s s' d d' r (x : TransitionResult) :
  journal_step s s' →
  (do? _ := write j s' in io_ret x) d = (d', r) →
  simulates j s d d' r ∧ (∀ y, r = Ok y → y = x ∧ holds d' j s').
Proof.
  intros Hst H. apply io_bind_inv in H as [(d1 & u & Hw & H)|(e & Hw & ->)];
    apply write_holds in Hw as (Hok & Hor & He1 & He2).
  - injection H as <- <-. destruct u. split; [|intros y [= <-]; auto].
    split; [right; eauto|done].
  - split; [|done]. split.
    + destruct Hor as [|Hor]; [by left|right; eauto].
    + intros e' [= <-] [-> | ->]; congruence.
Qed.

Lemma intend_simulates j e t d d' r s :
  prepared j → holds d j s → intend j e t d = (d', r) →
  simulates j s d d' r ∧
  (∀ id g, r = Ok (TNew id g) → transition_digest (j_genesis j) t = Ok id ∧
     holds d' j (mk_body (sb_version s) (sb_genesis s) g (sb_phase s)
                   (Some (mk_pending id t)) (sb_completed s))).
Proof.
  intros Hj Hs H. unfold intend in H.
  apply io_bind_inv in H as [(d0 & id & Hid & H)|(e0 & Hid & ->)]; injection Hid as <- Hid;
    [|split; [|done]; apply simulates_same; [done|]; intros e1 [= <-];
      by eapply transition_digest_error].
  apply (locked_load j (fun s => _)) with (s := s) in H; [|done..].
  destruct H as [(Hsame & e0 & -> & He)|(Hg & Hbind & d1 & Hsame & Hs1 & H)];
    [split; [|done]; apply simulates_same; [done|]; by intros ? [= <-]|].
  assert (d1 = d' → (∀ id g, r ≠ Ok (TNew id g)) → (∀ e, r = Err e → ¬ is_limit_error e) →
    simulates j s d d' r ∧ (∀ id g, r = Ok (TNew id g) → transition_digest (j_genesis j) t = Ok id ∧
      holds d' j (mk_body (sb_version s) (sb_genesis s) g (sb_phase s)
                    (Some (mk_pending id t)) (sb_completed s)))) as Hquiet.
  { intros -> Hn He. split; [by apply simulates_same|]. intros i g Hr. by destruct (Hn i g). }
  destruct (sb_pending s) as [p|] eqn:Hp.
  { destruct (_ && _); injection H as <- <-; apply Hquiet; try done.
    intros e' [= <-]. by apply not_limit. }
  destruct (existsb _ _) eqn:Hex; [by injection H as <- <-; apply Hquiet|].
  unfold io_fail_if in H. destruct (negb _).
  { injection H as <- <-. apply Hquiet; [done..|]. intros e' [= <-]. by apply not_limit. }
  apply io_bind_inv in H as [(d2 & u & Hv & H)|(e1 & Hv & ->)]; injection Hv as -> Hv;
    [|apply Hquiet; [done..|]; intros ? [= <-]; by eapply validate_error].
  apply io_bind_inv in H as [(d3 & g & Hgen & H)|(e1 & Hgen & ->)]; injection Hgen as -> Hgen.
  - apply ok_or_Ok, checked_add_u64_Some in Hgen as [-> Hmax].
    destruct u. rewrite <- Hg in Hid.
    apply (written _ _ _ _ _ _ _ (js_intend s t id Hp Hid (not_existsb_id _ _ Hex) Hv))
      in H as [Hsim Hok].
    split.
    + destruct Hsim as [Hor He]. split; [|done].
      destruct Hor as [Hor|Hor]; [left|by right]. unfold same_file in *. congruence.
    + intros i g Hr. destruct (Hok _ Hr) as [[= -> ->] Hh]. by rewrite <- Hg.
  - split; [|done]. split; [by left|]. intros e2 [= <-] _ Hc.
    apply on_course_limits in Hc as [_ Hgen'].
    destruct (checked_add_u64 _ _) eqn:E; [done|]. apply checked_add_u64_None in E.
    unfold u64_max in E. lia.
Qed.

Lemma checked_generation s e :
  on_course s → ok_or (checked_add_u64 (sb_generation s) 1) GenerationExhausted ≠ Err e.
Proof.
  intros [_ Hg]%on_course_limits. destruct (checked_add_u64 _ _) eqn:E; [done|].
  apply checked_add_u64_None in E. unfold u64_max in E. lia.
Qed.

Lemma find_fresh id l x :
  id ∉ map co_transition_id l → co_transition_id x = id →
  List.find (fun c => bool_decide (co_transition_id c = id)) (l ++ [x]) = Some x.
Proof.
  intros Hn Hx. induction l as [|c l IH]; simpl.
  - by rewrite bool_decide_true.
  - simpl in Hn. apply not_elem_of_cons in Hn as [Hc Hn]. rewrite bool_decide_false by congruence.
    by apply IH.
Qed.

Lemma pending_bound s p :
  validate_state_bindings s = Ok tt → sb_pending s = Some p →
  transition_digest (sb_genesis s) (pe_transition p) = Ok (pe_transition_id p).
Proof.
  unfold validate_state_bindings. intros Hv Hp. rewrite Hp in Hv.
  apply rbind_Ok in Hv as (? & Hv & _). apply rbind_Ok in Hv as (id & Hid & Hv).
  apply fail_if_Ok in Hv as [Hv _]. split_bools. by subst id.
Qed.

Lemma complete_simulates j e id c d d' r s :
  prepared j → holds d j s → complete j e id c d = (d', r) →
  simulates j s d d' r ∧
  (∀ id' g, r = Ok (TNew id' g) → id' = id ∧
     ∃ p cid, sb_pending s = Some p ∧ pe_transition_id p = id ∧
       (id ∉ map co_transition_id (sb_completed s)) ∧
       transition_digest (j_genesis j) (pe_transition p) = Ok id ∧
       intent_step (tr_intent (pe_transition p)) = completion_step c ∧
       holds d' j (mk_body (sb_version s) (sb_genesis s) g (tr_to (pe_transition p)) None
                     (sb_completed s ++ [mk_completed id c cid]))).
Proof.
  intros Hj Hs H. unfold complete in H.
  apply (locked_load j (fun s => _)) with (s := s) in H; [|done..].
  destruct H as [(Hsame & e0 & -> & He)|(Hg & Hbind & d1 & Hsame & Hs1 & H)];
    [split; [|done]; apply simulates_same; [done|]; by intros ? [= <-]|].
  match goal with |- _ ∧ ?Q => assert (d1 = d' → (∀ id g, r ≠ Ok (TNew id g)) →
    (∀ e, r = Err e → ¬ is_limit_error e) → simulates j s d d' r ∧ Q) as Hquiet end.
  { intros -> Hn He. split; [by apply simulates_same|]. intros i g Hr. by destruct (Hn i g). }
  assert (∀ e1, ¬ is_limit_error e1 → ∀ e, Err (T := TransitionResult) e1 = Err e →
    ¬ is_limit_error e) as Hlim by (intros e1 H1 e2 [= <-]; done).
  destruct (List.find _ _) as [x|] eqn:Hfind.
  { destruct (bool_decide _); injection H as <- <-; apply Hquiet; try done.
    by apply Hlim, not_limit. }
  unfold io_fail_if in H. destruct (negb (sb_generation s =? e)%N).
  { injection H as <- <-. apply Hquiet; [done..|]. by apply Hlim, not_limit. }
  apply io_bind_inv in H as [(d2 & p & Hp & H)|(e1 & Hp & ->)]; injection Hp as -> Hp;
    [|destruct (sb_pending s); [done|]; injection Hp as <-; apply Hquiet; [done..|];
      by apply Hlim, not_limit].
  apply ok_or_Ok in Hp. destruct (bool_decide (pe_transition_id p = id)) eqn:Hid; cbn [negb] in H;
    [|injection H as <- <-; apply Hquiet; [done..|]; by apply Hlim, not_limit].
  apply bool_decide_eq_true in Hid.
  destruct (bool_decide (_ = completion_step c)) eqn:Hst; cbn [negb] in H;
    [|injection H as <- <-; apply Hquiet; [done..|]; by apply Hlim, not_limit].
  apply bool_decide_eq_true in Hst.
  destruct (MAX_COMPLETED_TRANSITIONS <=? length (sb_completed s))%nat eqn:Hlen.
  { injection H as <- <-. split; [|done]. split; [by left|]. intros ? _ _ [Hc _]%on_course_limits.
    apply Nat.leb_le in Hlen. unfold MAX_COMPLETED_TRANSITIONS in Hlen. lia. }
  apply io_bind_inv in H as [(d3 & cid & Hcid & H)|(e1 & Hcid & ->)]; injection Hcid as -> Hcid;
    [|apply Hquiet; [done..|]; apply Hlim; by eapply completion_digest_error].
  apply io_bind_inv in H as [(d4 & g & Hgen & H)|(e1 & Hgen & ->)]; injection Hgen as -> Hgen;
    [|split; [|done]; split; [by left|]; intros ? _ _ Hc; exact (checked_generation s e1 Hc Hgen)].
  apply ok_or_Ok, checked_add_u64_Some in Hgen as [-> _].
  rewrite <- Hg, <- Hid in Hcid. pose proof (not_find_id _ _ Hfind) as Hnew.
  rewrite <- Hid in Hnew.
  apply (written _ _ _ _ _ _ _ (js_complete s p c cid Hp Hst Hnew Hcid)) in H as [[Hor He] Hok].
  split.
  - split; [|done]. destruct Hor as [Hor|Hor]; [left|by right]. unfold same_file in *. congruence.
  - intros i g Hr. destruct (Hok _ Hr) as [[= -> ->] Hh]. split; [done|].
    exists p, cid. rewrite Hid in Hh. split_and!; try done.
    + by apply not_find_id.
    + rewrite <- Hg, <- Hid. by apply pending_bound.
Qed.

Lemma recover_simulates j d d' r s :
  prepared j → holds d j s → recover j d = (d', r) →
  same_file j d d' ∧ (∀ e, r = Err e → ¬ is_limit_error e) ∧
  ∀ x, r = Ok x → x = match sb_pending s with
                      | Some p => RPending (pe_transition p) (pe_transition_id p) (sb_generation s)
                      | None => RClean (sb_phase s) (sb_generation s)
                      end.
Proof.
  intros Hj Hs H. unfold recover in H.
  apply (locked_load j (fun s => _)) with (s := s) in H; [|done..].
  destruct H as [(Hsame & e0 & -> & He)|(Hg & Hbind & d1 & Hsame & Hs1 & H)].
  - split_and!; [done| |done]. by intros ? [= <-].
  - injection H as <- <-. split_and!; [done|done|]. by intros x [= <-].
Qed.

Lemma call_simulates j c d d' r s :
  prepared j → holds d j s → call_exec j c d = (d', r) → simulates j s d d' r.
Proof.
  intros Hj Hs H.
  assert (∀ T (f : T → answer) (r0 : result T SessionError), simulates j s d d' r0 →
    r = map_ok f r0 → simulates j s d d' r) as Hmap.
  { intros T f r0 [Hor He] ->. split; [done|]. intros e Hr. apply He.
    destruct r0; simpl in Hr; congruence. }
  destruct c as [e t|e id x|]; apply io_bind_inv in H as [(d1 & y & Hy & H)|(e1 & Hy & ->)];
    try (injection H as <- <-).
  - apply (Hmap _ ATransition (Ok y)); [|done]. by eapply intend_simulates.
  - apply (Hmap _ ATransition (Err e1)); [|done]. by eapply intend_simulates.
  - apply (Hmap _ ATransition (Ok y)); [|done]. by eapply complete_simulates.
  - apply (Hmap _ ATransition (Err e1)); [|done]. by eapply complete_simulates.
  - apply recover_simulates with (s := s) in Hy as (Hsame & He & _); [|done..].
    by apply simulates_same.
  - apply recover_simulates with (s := s) in Hy as (Hsame & He & _); [|done..].
    apply simulates_same; [done|]. intros e [= <-]. by apply He.
Qed.

(** ** Properties *)

(** C33: whatever reads, locks and writes fail, the journal only ever holds a
    session on course: the completed steps are an initial part of the granted
    or of the denied course, the phase is where that part ends, the next step
    may be pending and is the course's next, and the generation counts both;
    so no call ever reports that a limit of the journal was reached. *)
Theorem session_on_course j d s cs d' rs :
  prepared j → holds d j s → on_course s → run_calls j d cs = (d', rs) →
  (∃ s', holds d' j s' ∧ on_course s' ∧ rtc journal_step s s') ∧
  (Err TransitionLimit ∉ rs) ∧ (Err GenerationExhausted ∉ rs).
Proof.
  intros Hj. revert d s d' rs. induction cs as [|c cs IH]; intros d s d' rs Hs Hc Hr; simpl in Hr.
  - injection Hr as <- <-. split; [by exists s|split; apply not_elem_of_nil].
  - destruct (call_exec j c d) as [d1 r1] eqn:Hcall.
    destruct (run_calls j d1 cs) as [d2 rs2] eqn:Hrun. injection Hr as <- <-.
    destruct (call_simulates _ _ _ _ _ _ Hj Hs Hcall) as [Hor Hlim].
    assert (∃ s1, holds d1 j s1 ∧ on_course s1 ∧ rtc journal_step s s1) as (s1 & Hs1 & Hc1 & Hst1).
    { destruct Hor as [Hsame|(s1 & Hst & Hs1)].
      - exists s. split_and!; [by eapply holds_same|done|done].
      - exists s1. split_and!; [done|by eapply journal_step_course|by apply rtc_once]. }
    destruct (IH d1 s1 d2 rs2 Hs1 Hc1 Hrun) as ((s' & Hs' & Hc' & Hst') & Hn1 & Hn2).
    split; [exists s'; split_and!; [done|done|by etrans]|].
    rewrite !not_elem_of_cons. split_and!; try done; intros <-;
      (eapply Hlim; [reflexivity| |exact Hc]); [by left|by right].
Qed.

(** an intent that was reported as recorded is what a restarted process
    finds: as long as nothing else is written, [recover] can only answer that
    this transition is pending, a repeated [intend] that it exists already,
    and no other transition can be intended. *)
Theorem intend_durable j e t d s d' id g :
  prepared j → holds d j s → intend j e t d = (d', Ok (TNew id g)) →
  ∀ d1, same_file j d' d1 →
    (∀ d2 x, recover j d1 = (d2, Ok x) → x = RPending t id g) ∧
    (∀ e' d2 x, intend j e' t d1 = (d2, Ok x) → x = TExisting id g) ∧
    (∀ e' t' d2 x, intend j e' t' d1 = (d2, Ok x) → t' = t).
Proof.
  intros Hj Hs Hi d1 Hsame. apply intend_simulates with (s := s) in Hi as [_ Hi]; [|done..].
  destruct (Hi _ _ eq_refl) as [Hid Hh]. apply (holds_same _ _ _ _ Hsame) in Hh.
  split.
  - intros d2 x Hr. eapply recover_simulates in Hr as (_ & _ & Hx); [|done|exact Hh].
    by apply Hx.
  - assert (∀ e' t' d2 x, intend j e' t' d1 = (d2, Ok x) → t' = t ∧ x = TExisting id g) as H.
    { intros e' t' d2 x H. unfold intend in H.
      apply io_bind_Ok in H as (d3 & id' & Hid' & H). injection Hid' as <- Hid'.
      eapply (locked_load j (fun s => _)) in H as [(_ & ? & ? & _)|(_ & _ & d4 & _ & _ & H)];
        [done| |done|exact Hh].
      simpl in H. destruct (_ && _) eqn:E; [|done]. injection H as <- <-. split_bools. by subst. }
    split; intros; by eapply H.
Qed.

(** a completion that was reported as recorded stays: as long as nothing
    else is written, [recover] can only answer that the session is clean in
    the phase the transition led to, repeating the completion that it exists
    already, and completing the same transition differently is refused. *)
Theorem complete_durable j e id c d s d' id' g :
  prepared j → holds d j s → complete j e id c d = (d', Ok (TNew id' g)) →
  id' = id ∧ ∃ p, sb_pending s = Some p ∧ pe_transition_id p = id ∧
    intent_step (tr_intent (pe_transition p)) = completion_step c ∧
    ∀ d1, same_file j d' d1 →
      (∀ d2 x, recover j d1 = (d2, Ok x) → x = RClean (tr_to (pe_transition p)) g) ∧
      (∀ e' c' d2 x, complete j e' id c' d1 = (d2, Ok x) → c' = c ∧ x = TExisting id g) ∧
      (∀ e' d2 x, intend j e' (pe_transition p) d1 = (d2, Ok x) → x = TExisting id g).
Proof.
  intros Hj Hs Hco. apply complete_simulates with (s := s) in Hco as [_ Hco]; [|done..].
  destruct (Hco _ _ eq_refl) as (-> & p & cid & Hp & Hid & Hnew & Hdig & Hst & Hh).
  split; [done|]. exists p. split_and!; [done..|]. intros d1 Hsame.
  apply (holds_same _ _ _ _ Hsame) in Hh. split_and!.
  - intros d2 x Hr. eapply recover_simulates in Hr as (_ & _ & Hx); [|done|exact Hh].
    by apply Hx.
  - intros e' c' d2 x H. unfold complete in H.
    eapply (locked_load j (fun s => _)) in H as [(_ & ? & ? & _)|(_ & _ & d4 & _ & _ & H)];
      [done| |done|exact Hh].
    simpl in H. rewrite find_fresh in H by done. simpl in H.
    destruct (bool_decide (c = c')) eqn:E; [|done]. injection H as <- <-. by split_bools.
  - intros e' d2 x H. unfold intend in H.
    apply io_bind_Ok in H as (d3 & id' & Hid' & H). injection Hid' as <- Hid'.
    rewrite Hdig in Hid'. injection Hid' as <-.
    eapply (locked_load j (fun s => _)) in H as [(_ & ? & ? & _)|(_ & _ & d4 & _ & _ & H)];
      [done| |done|exact Hh].
    simpl in H. destruct (existsb _ _) eqn:E; [by injection H as <- <-|].
    apply not_existsb_id in E. exfalso. apply E. rewrite map_app. simpl. set_solver.
Qed.

(** the bytes that are accepted as a journal's state are exactly one text
    for each state: the canonical form of that state and its MAC under the
    journal's key, of this version, for this session and with every digest
    the digest of what it names. *)
Theorem parse_state_exact j b s :
  parse_state j b = Ok s ↔
  state_bytes j s = Ok b ∧
  (∃ m, mac (j_key j) s = Ok m ∧ from_slice b = Some (mk_file s m)) ∧
  sb_version s = VERSION ∧ sb_genesis s = j_genesis j ∧
  (length (sb_completed s) <= MAX_COMPLETED_TRANSITIONS)%nat ∧
  validate_state_bindings s = Ok tt.
Proof.
  split.
  - intros H. pose proof (parse_state_Ok _ _ _ H) as (Hb & Hv & Hg & Hl & Hbind).
    split_and!; try done. unfold parse_state in H.
    apply rbind_Ok in H as ([s' m] & Hsf%ok_or_Ok & H).
    apply rbind_Ok in H as (? & _ & H). apply fail_if_Ok in H as [_ H].
    apply rbind_Ok in H as (m' & Hm & H). inv_ok. split_bools. simpl in *. subst. by exists m.
  - intros (Hb & (m & Hm & Hsf) & Hv & Hg & Hl & Hbind). unfold parse_state. rewrite Hsf. simpl.
    unfold state_bytes in Hb. rewrite Hm in Hb. simpl in Hb. apply map_err_Ok in Hb.
    rewrite Hb. simpl. rewrite String.eqb_refl. simpl. rewrite Hm. simpl.
    rewrite bool_decide_true by done. simpl. rewrite Hv, Hg, bool_decide_true by done. simpl.
    apply Nat.ltb_ge in Hl. rewrite Hl. simpl. by rewrite Hbind.
Qed.
End journal_ops.

(** ** A concrete session for the witnesses

    A parser that knows the documents of one short session. *)

#[local] Existing Instance known_documents_external.
#[local] Existing Instance known_documents_laws.

Definition session_digest (c : ascii) : Sha256Digest :=
  match digest_from_str (str_repeat (String c EmptyString) 64) with
  | Ok d => d
  | Err _ => mk_digest (str_repeat "0" 64) eq_refl
  end.

Definition sample_session : SessionId :=
  mk_id (k := SessionIdK) ("ses_" +:+ str_repeat "1" 32) eq_refl.

Definition sample_genesis : GenesisBinding :=
  mk_genesis sample_session (session_digest "a"%char) (session_digest "b"%char)
    (session_digest "c"%char).

Definition sample_journal : Journal :=
  mk_journal (id_str sample_session +:+ ".json") (id_str sample_session +:+ ".lock")
    sample_genesis (str_repeat "k" 32).

Definition authority_granted : Transition :=
  mk_transition Created AuthorityEvaluated (IAuthorityDecision (session_digest "d"%char)).

Definition authority_id : Sha256Digest :=
  match transition_digest sample_genesis authority_granted with
  | Ok d => d
  | Err _ => session_digest "0"%char
  end.

Definition authority_result : StepCompletion := CAuthorityDecision (session_digest "e"%char).

Definition intended_body : StateBody :=
  mk_body VERSION sample_genesis 1 Created (Some (mk_pending authority_id authority_granted)) [].

Definition completed_body : StateBody :=
  mk_body VERSION sample_genesis 2 AuthorityEvaluated None
    [mk_completed authority_id authority_result
       match completion_digest sample_genesis authority_id authority_result with
       | Ok d => d
       | Err _ => session_digest "0"%char
       end].

(** The sample's state file of a body, and its text. *)
Definition sample_file (s : StateBody) : StateFile :=
  mk_file s match mac (j_key sample_journal) s with
            | Ok d => d
            | Err _ => session_digest "0"%char
            end.

Definition sample_text (s : StateBody) : string :=
  match state_bytes sample_journal s with Ok b => b | Err _ => EmptyString end.

#[export] Instance known_documents : Deserialize StateFile := fun v =>
  match v with
  | VString b =>
      option_map sample_file
        (List.find (fun s => String.eqb (sample_text s) b)
           [initial_body sample_genesis; intended_body; completed_body])
  | _ => None
  end.

#[export] Instance never_eof : SerdeEof := fun _ => false.

Definition sample_dir (s : StateBody) : dir_t (StateDir := memory_state_dir) :=
  set_file (mk_dir (fun _ => None) []) (j_state sample_journal) (sample_text s).

Lemma sample_prepared : prepared sample_journal.
Proof. unfold prepared. by vm_compute. Qed.

Lemma sample_holds s :
  state_bytes sample_journal s = Ok (sample_text s) → holds (sample_dir s) sample_journal s.
Proof. intros H. exists (sample_text s). split; [done|]. apply set_file_same. Qed.

Definition sample_calls : list call :=
  [KRecover; KIntend 0 authority_granted; KIntend 9 authority_granted; KRecover;
   KComplete 1 authority_id authority_result; KComplete 7 authority_id authority_result;
   KComplete 2 (session_digest "0"%char) authority_result; KRecover].

Example sample_answers :
  (run_calls sample_journal (sample_dir (initial_body sample_genesis)) sample_calls).2 =
  [Ok (ARecovery (RClean Created 0)); Ok (ATransition (TNew authority_id 1));
   Ok (ATransition (TExisting authority_id 1));
   Ok (ARecovery (RPending authority_granted authority_id 1));
   Ok (ATransition (TNew authority_id 2)); Ok (ATransition (TExisting authority_id 2));
   Err NoPending; Ok (ARecovery (RClean AuthorityEvaluated 2))].
Proof. vm_compute. reflexivity. Qed.

Lemma session_on_course_witness :
  ∃ s', holds (run_calls sample_journal (sample_dir (initial_body sample_genesis)) sample_calls).1
          sample_journal s' ∧ on_course s'.
Proof.
  destruct (session_on_course sample_journal (sample_dir (initial_body sample_genesis))
    (initial_body sample_genesis) sample_calls _ _ sample_prepared
    (sample_holds (initial_body sample_genesis) ltac:(vm_compute; reflexivity))
    (initial_on_course sample_genesis) (surjective_pairing _)) as [(s' & Hs & Hc & _) _].
  exists s'. split; [exact Hs|exact Hc].
Defined.

Lemma intend_durable_witness :
  ∃ d2 x, recover sample_journal (intend sample_journal 0 authority_granted
            (sample_dir (initial_body sample_genesis))).1 = (d2, Ok x) ∧
    x = RPending authority_granted authority_id 1.
Proof.
  exists (recover sample_journal (intend sample_journal 0 authority_granted
    (sample_dir (initial_body sample_genesis))).1).1, (RPending authority_granted authority_id 1).
  split; [vm_compute; reflexivity|].
  refine (proj1 (intend_durable sample_journal 0 authority_granted
    (sample_dir (initial_body sample_genesis)) (initial_body sample_genesis)
    (intend sample_journal 0 authority_granted (sample_dir (initial_body sample_genesis))).1
    authority_id 1 sample_prepared
    (sample_holds (initial_body sample_genesis) ltac:(vm_compute; reflexivity)) _ _ eq_refl)
    (recover sample_journal (intend sample_journal 0 authority_granted
      (sample_dir (initial_body sample_genesis))).1).1 _ _); vm_compute; reflexivity.
Defined.

Lemma complete_durable_witness :
  ∃ d2 x, recover sample_journal (complete sample_journal 1 authority_id authority_result
            (sample_dir intended_body)).1 = (d2, Ok x) ∧
    x = RClean AuthorityEvaluated 2.
Proof.
  exists (recover sample_journal (complete sample_journal 1 authority_id authority_result
    (sample_dir intended_body)).1).1, (RClean AuthorityEvaluated 2).
  split; [vm_compute; reflexivity|].
  destruct (complete_durable sample_journal 1 authority_id authority_result
    (sample_dir intended_body) intended_body
    (complete sample_journal 1 authority_id authority_result (sample_dir intended_body)).1
    authority_id 2 sample_prepared
    (sample_holds intended_body ltac:(vm_compute; reflexivity)) ltac:(vm_compute; reflexivity))
    as (_ & p & Hp & _ & _ & H).
  injection Hp as <-. refine (proj1 (H _ eq_refl)
    (recover sample_journal (complete sample_journal 1 authority_id authority_result
      (sample_dir intended_body)).1).1 _ _). vm_compute. reflexivity.
Defined.
