(* ===== verification/Evidence.v ===== *)
(** * The evidence log: [crates/phantom-evidence/src/lib.rs], the records

    The closed events of a session, the state machine that replays them, the
    records of the log with their MAC chain, and the receipt.  The store's
    operations are in [EvidenceStore]. *)

From S2P Require Import Prelude Text Ids External Canonical CanonicalUnique StateDir.

(** ** Data *)

Definition SCHEMA_VERSION : N := 1.
Definition MAX_LOG_BYTES : N := 16 * 1024 * 1024.
Definition MAX_RECORDS : N := 10000.
Definition MAX_KEY_BYTES : N := 1024.
Definition EVIDENCE_DIR : string := "evidence".
Definition LOCK_FILE : string := "evidence.lock".
Definition KEY_FILE : string := "evidence-integrity.key".

Definition RECORD_MAC_DOMAIN : string := "phantom.execution-evidence.record.v1" +:+ nul.
Definition RECEIPT_MAC_DOMAIN : string := "phantom.execution-evidence.receipt.v1" +:+ nul.
Definition RECEIPT_DIGEST_DOMAIN : string :=
  "phantom.execution-evidence.payload-digest.v1" +:+ nul.
Definition SIGNING_ASSERTION_DOMAIN : string :=
  "phantom.execution-evidence.signing-assertion.v1" +:+ nul.
Definition EVENT_DIGEST_DOMAIN : string := "phantom.execution-evidence.event.v1" +:+ nul.
Definition APPEND_WITNESS_DOMAIN : string :=
  "phantom.execution-evidence.append-witness.v1" +:+ nul.

(** [GENESIS_MAC.parse().expect(..)] *)
Definition GENESIS_MAC : Sha256Digest := mk_digest (str_repeat "0" 64) eq_refl.

Inductive AuthorityDenial :=
  | NoVerifier | InvalidIntent | InsufficientAuthority | Expired | DRevoked | Replay.

Inductive AuthorityDecision :=
  | ADenied (authority_digest : Sha256Digest) (reason : AuthorityDenial)
  | AGranted (authority_digest : Sha256Digest) (grant_id : GrantId) (grant_digest : Sha256Digest).

Inductive WorkerResult := WSucceeded | WFailed | WTimedOut | WRevoked.

Inductive RollbackResult := RApplied | RFailed | RNotRequired.

Inductive FinalOutcome := FSucceeded | FDenied | FFailed | FTimedOut | FRevoked | FRolledBack.

Inductive EvidenceEvent :=
  | SessionStarted (workspace_id : WorkspaceId) (action_id : ActionId)
      (intent_digest : Sha256Digest)
  | AuthorityDecided (decision : AuthorityDecision)
  | LeaseBound (grant_id : GrantId) (grant_digest : Sha256Digest) (lease_id : LeaseId)
      (lease_digest : Sha256Digest)
  | ProxyUseAggregate (lease_id : LeaseId)
      (attempted_requests forwarded_requests denied_requests request_bytes response_bytes : N)
  | WorkerCompleted (result : WorkerResult) (result_digest : option Sha256Digest)
  | RollbackCompleted (result : RollbackResult) (rollback_digest : option Sha256Digest)
  | FinalOutcomeIs (outcome : FinalOutcome) (outcome_digest : Sha256Digest).

#[export] Instance AuthorityDenial_eq_dec : EqDecision AuthorityDenial.
Proof. solve_decision. Defined.
#[export] Instance AuthorityDecision_eq_dec : EqDecision AuthorityDecision.
Proof. solve_decision. Defined.
#[export] Instance WorkerResult_eq_dec : EqDecision WorkerResult.
Proof. solve_decision. Defined.
#[export] Instance RollbackResult_eq_dec : EqDecision RollbackResult.
Proof. solve_decision. Defined.
#[export] Instance FinalOutcome_eq_dec : EqDecision FinalOutcome.
Proof. solve_decision. Defined.
#[export] Instance EvidenceEvent_eq_dec : EqDecision EvidenceEvent.
Proof. solve_decision. Defined.

#[export] Instance Serialize_denial : Serialize AuthorityDenial := fun d =>
  VString match d with
  | NoVerifier => "no_verifier" | InvalidIntent => "invalid_intent"
  | InsufficientAuthority => "insufficient_authority" | Expired => "expired"
  | DRevoked => "revoked" | Replay => "replay"
  end.

#[export] Instance Serialize_decision : Serialize AuthorityDecision := fun d =>
  match d with
  | ADenied a r =>
      VObject [("result", VString "denied"); ("authority_digest", to_value a);
               ("reason", to_value r)]
  | AGranted a g gd =>
      VObject [("result", VString "granted"); ("authority_digest", to_value a);
               ("grant_id", to_value g); ("grant_digest", to_value gd)]
  end.

#[export] Instance Serialize_worker : Serialize WorkerResult := fun r =>
  VString match r with
  | WSucceeded => "succeeded" | WFailed => "failed" | WTimedOut => "timed_out"
  | WRevoked => "revoked"
  end.

#[export] Instance Serialize_rollback : Serialize RollbackResult := fun r =>
  VString match r with
  | RApplied => "applied" | RFailed => "failed" | RNotRequired => "not_required"
  end.

#[export] Instance Serialize_outcome : Serialize FinalOutcome := fun o =>
  VString match o with
  | FSucceeded => "succeeded" | FDenied => "denied" | FFailed => "failed"
  | FTimedOut => "timed_out" | FRevoked => "revoked" | FRolledBack => "rolled_back"
  end.

#[export] Instance Serialize_event : Serialize EvidenceEvent := fun e =>
  match e with
  | SessionStarted w a i =>
      VObject [("kind", VString "session_started"); ("workspace_id", to_value w);
               ("action_id", to_value a); ("intent_digest", to_value i)]
  | AuthorityDecided d =>
      VObject [("kind", VString "authority_decision"); ("decision", to_value d)]
  | LeaseBound g gd l ld =>
      VObject [("kind", VString "lease_bound"); ("grant_id", to_value g);
               ("grant_digest", to_value gd); ("lease_id", to_value l);
               ("lease_digest", to_value ld)]
  | ProxyUseAggregate l a f d q p =>
      VObject [("kind", VString "proxy_use_aggregate"); ("lease_id", to_value l);
               ("attempted_requests", to_value a); ("forwarded_requests", to_value f);
               ("denied_requests", to_value d); ("request_bytes", to_value q);
               ("response_bytes", to_value p)]
  | WorkerCompleted r d =>
      VObject [("kind", VString "worker_completed"); ("result", to_value r);
               ("result_digest", to_value d)]
  | RollbackCompleted r d =>
      VObject [("kind", VString "rollback_completed"); ("result", to_value r);
               ("rollback_digest", to_value d)]
  | FinalOutcomeIs o d =>
      VObject [("kind", VString "final_outcome"); ("outcome", to_value o);
               ("outcome_digest", to_value d)]
  end.

Record ProxyUseTotals := mk_totals {
  aggregates : N;
  attempted_requests : N;
  forwarded_requests : N;
  denied_requests : N;
  request_bytes : N;
  response_bytes : N;
}.

Record EvidenceSummary := mk_summary {
  es_workspace_id : option WorkspaceId;
  es_action_id : option ActionId;
  es_intent_digest : option Sha256Digest;
  es_authority_digest : option Sha256Digest;
  es_authority_denial : option AuthorityDenial;
  es_grant_id : option GrantId;
  es_grant_digest : option Sha256Digest;
  es_lease_id : option LeaseId;
  es_lease_digest : option Sha256Digest;
  es_proxy_use : ProxyUseTotals;
  es_worker_result : option WorkerResult;
  es_worker_result_digest : option Sha256Digest;
  es_rollback_result : option RollbackResult;
  es_rollback_digest : option Sha256Digest;
  es_final_outcome : option FinalOutcome;
  es_final_outcome_digest : option Sha256Digest;
}.

#[export] Instance ProxyUseTotals_eq_dec : EqDecision ProxyUseTotals.
Proof. solve_decision. Defined.
#[export] Instance EvidenceSummary_eq_dec : EqDecision EvidenceSummary.
Proof. solve_decision. Defined.

#[export] Instance Serialize_totals : Serialize ProxyUseTotals := fun t =>
  VObject [("aggregates", to_value (aggregates t));
           ("attempted_requests", to_value (attempted_requests t));
           ("forwarded_requests", to_value (forwarded_requests t));
           ("denied_requests", to_value (denied_requests t));
           ("request_bytes", to_value (request_bytes t));
           ("response_bytes", to_value (response_bytes t))].

#[export] Instance Serialize_summary : Serialize EvidenceSummary := fun s =>
  VObject [("workspace_id", to_value (es_workspace_id s));
           ("action_id", to_value (es_action_id s));
           ("intent_digest", to_value (es_intent_digest s));
           ("authority_digest", to_value (es_authority_digest s));
           ("authority_denial", to_value (es_authority_denial s));
           ("grant_id", to_value (es_grant_id s));
           ("grant_digest", to_value (es_grant_digest s));
           ("lease_id", to_value (es_lease_id s));
           ("lease_digest", to_value (es_lease_digest s));
           ("proxy_use", to_value (es_proxy_use s));
           ("worker_result", to_value (es_worker_result s));
           ("worker_result_digest", to_value (es_worker_result_digest s));
           ("rollback_result", to_value (es_rollback_result s));
           ("rollback_digest", to_value (es_rollback_digest s));
           ("final_outcome", to_value (es_final_outcome s));
           ("final_outcome_digest", to_value (es_final_outcome_digest s))].

Record ReceiptPayload := mk_payload {
  rp_schema_version : N;
  rp_session_id : SessionId;
  rp_event_count : N;
  rp_chain_head : Sha256Digest;
  rp_summary : EvidenceSummary;
}.

#[export] Instance ReceiptPayload_eq_dec : EqDecision ReceiptPayload.
Proof. solve_decision. Defined.

#[export] Instance Serialize_payload : Serialize ReceiptPayload := fun p =>
  VObject [("schema_version", to_value (rp_schema_version p));
           ("session_id", to_value (rp_session_id p));
           ("event_count", to_value (rp_event_count p));
           ("chain_head", to_value (rp_chain_head p));
           ("summary", to_value (rp_summary p))].

Inductive ReceiptTrustState := UnsignedUntrusted | CallerAsserted.

Inductive CallerAssertedSignatureAlgorithm := DigestSignature64V1.

#[export] Instance Algorithm_eq_dec : EqDecision CallerAssertedSignatureAlgorithm.
Proof. solve_decision. Defined.

#[export] Instance Serialize_algorithm : Serialize CallerAssertedSignatureAlgorithm :=
  fun _ => VString "digest_signature64_v1".

Definition CALLER_ASSERTED_ALGORITHM : CallerAssertedSignatureAlgorithm := DigestSignature64V1.

Inductive ReceiptTrust :=
  | TUnsignedUntrusted
  | TCallerAsserted (signer_id : InstallationId) (algorithm : CallerAssertedSignatureAlgorithm)
      (signature_hex : string).

#[export] Instance ReceiptTrust_eq_dec : EqDecision ReceiptTrust.
Proof. solve_decision. Defined.

#[export] Instance Serialize_trust : Serialize ReceiptTrust := fun t =>
  match t with
  | TUnsignedUntrusted => VObject [("state", VString "unsigned_untrusted")]
  | TCallerAsserted i a s =>
      VObject [("state", VString "caller_asserted"); ("signer_id", to_value i);
               ("algorithm", to_value a); ("signature_hex", to_value s)]
  end.

(** [SessionReceipt] and [StoredSessionReceipt] have the same fields. *)
Record SessionReceipt := mk_receipt {
  sr_payload : ReceiptPayload;
  sr_payload_digest : Sha256Digest;
  sr_local_integrity_mac : Sha256Digest;
  sr_trust : ReceiptTrust;
}.

#[export] Instance Serialize_receipt : Serialize SessionReceipt := fun r =>
  VObject [("payload", to_value (sr_payload r)); ("payload_digest", to_value (sr_payload_digest r));
           ("local_integrity_mac", to_value (sr_local_integrity_mac r));
           ("trust", to_value (sr_trust r))].

(** [SessionReceipt::trust_state] *)
Definition trust_state (r : SessionReceipt) : ReceiptTrustState :=
  match sr_trust r with
  | TUnsignedUntrusted => UnsignedUntrusted
  | TCallerAsserted _ _ _ => CallerAsserted
  end.

Record LogRecord := mk_record {
  lr_schema_version : N;
  lr_session_id : SessionId;
  lr_sequence : N;
  lr_observed_at_unix_ms : N;
  lr_event : EvidenceEvent;
  lr_previous_mac : Sha256Digest;
  lr_mac : Sha256Digest;
}.

#[export] Instance Serialize_record : Serialize LogRecord := fun r =>
  VObject [("schema_version", to_value (lr_schema_version r));
           ("session_id", to_value (lr_session_id r)); ("sequence", to_value (lr_sequence r));
           ("observed_at_unix_ms", to_value (lr_observed_at_unix_ms r));
           ("event", to_value (lr_event r)); ("previous_mac", to_value (lr_previous_mac r));
           ("mac", to_value (lr_mac r))].

(** [struct UnsignedRecord] of a record *)
Definition unsigned_record (r : LogRecord) : value :=
  VObject [("schema_version", to_value (lr_schema_version r));
           ("session_id", to_value (lr_session_id r)); ("sequence", to_value (lr_sequence r));
           ("observed_at_unix_ms", to_value (lr_observed_at_unix_ms r));
           ("event", to_value (lr_event r)); ("previous_mac", to_value (lr_previous_mac r))].

Inductive SignerError := SignerDenied | SignerUnavailable.

Inductive EvidenceError :=
  | StorageInsideWorkspace | InvalidStorageBoundary | UnsafeStorage | Truncated | NonCanonical
  | Tampered | ReplayOrSequence | UnexpectedSequence | IdempotencyConflict | InvalidLifecycle
  | SessionFinalized | SessionNotStarted | SessionNotFinalized | TimestampRegression
  | AggregateOverflow | SequenceExhausted | LogTooLarge | RecordLimitExceeded
  | TemporaryFileExhausted | InvalidKey | InvalidDigest | UnverifiedSignature | ReceiptConflict
  | ClockBeforeEpoch | ClockOverflow
  | ESigner (e : SignerError)
  | ECanonical (e : CanonicalJsonError)
  | EIo (e : ErrorKind).

#[export] Instance SignerError_eq_dec : EqDecision SignerError.
Proof. solve_decision. Defined.
#[export] Instance EvidenceError_eq_dec : EqDecision EvidenceError.
Proof. solve_decision. Defined.

(** ** The state machine of a session's events *)

Definition zero_totals : ProxyUseTotals := mk_totals 0 0 0 0 0 0.

Definition empty_summary : EvidenceSummary :=
  mk_summary None None None None None None None None None zero_totals None None None None None None.

Record ReplayState := mk_replay {
  summary : EvidenceSummary;
  last_timestamp : option N;
  started : bool;
  authority_decided : bool;
  authority_granted : bool;
  lease_bound : bool;
  worker_completed : bool;
  rollback_completed : bool;
  finalized : bool;
}.

(** [ReplayState::default()] *)
Definition default_replay : ReplayState :=
  mk_replay empty_summary None false false false false false false false.

(** [ReplayState::can_finalize] *)
Definition can_finalize (s : ReplayState) (o : FinalOutcome) : bool :=
  if negb (authority_decided s) then false else
  match o with
  | FDenied => negb (authority_granted s)
  | FSucceeded =>
      rollback_completed s
      && bool_decide (es_worker_result (summary s) = Some WSucceeded)
      && bool_decide (es_rollback_result (summary s) = Some RNotRequired)
  | FTimedOut =>
      rollback_completed s && bool_decide (es_worker_result (summary s) = Some WTimedOut)
  | FRevoked =>
      rollback_completed s && bool_decide (es_worker_result (summary s) = Some WRevoked)
  | FRolledBack => bool_decide (es_rollback_result (summary s) = Some RApplied)
  | FFailed =>
      rollback_completed s
      && (bool_decide (es_worker_result (summary s) = Some WFailed)
          || bool_decide (es_rollback_result (summary s) = Some RFailed))
  end.

Definition is_some {T} (o : option T) : bool := match o with Some _ => true | None => false end.

(** The guard of the arm of [validate_next] that an event belongs to. *)
Definition event_guard (s : ReplayState) (e : EvidenceEvent) : bool :=
  match e with
  | SessionStarted _ _ _ => negb (started s)
  | AuthorityDecided _ => started s && negb (authority_decided s)
  | LeaseBound g gd _ _ =>
      authority_granted s && negb (lease_bound s)
      && bool_decide (es_grant_id (summary s) = Some g)
      && bool_decide (es_grant_digest (summary s) = Some gd)
  | ProxyUseAggregate l a f d _ _ =>
      lease_bound s && negb (worker_completed s)
      && bool_decide (es_lease_id (summary s) = Some l)
      && match checked_add_u64 f d with Some total => (total <=? a)%N | None => false end
  | WorkerCompleted _ d => lease_bound s && negb (worker_completed s) && is_some d
  | RollbackCompleted r d =>
      worker_completed s && negb (rollback_completed s)
      && match r with RApplied | RFailed => is_some d | RNotRequired => negb (is_some d) end
  | FinalOutcomeIs o _ => can_finalize s o
  end.

(** [ReplayState::validate_next] *)
Definition validate_next (s : ReplayState) (e : EvidenceEvent) (timestamp : N)
    : result unit EvidenceError :=
  fail_if (finalized s) SessionFinalized
  (fail_if (match last_timestamp s with Some last => timestamp <? last | None => false end)%N
     TimestampRegression
  (if event_guard s e then Ok tt else Err InvalidLifecycle)).

(** [fn checked_add] *)
Definition checked_add (left right : N) : result N EvidenceError :=
  ok_or (checked_add_u64 left right) AggregateOverflow.

(** The arm of [apply] for an aggregate: every total, checked. *)
Definition add_totals (t : ProxyUseTotals) (a f d q p : N) : result ProxyUseTotals EvidenceError :=
  let? aggregates' := checked_add (aggregates t) 1 in
  let? attempted' := checked_add (attempted_requests t) a in
  let? forwarded' := checked_add (forwarded_requests t) f in
  let? denied' := checked_add (denied_requests t) d in
  let? request' := checked_add (request_bytes t) q in
  let? response' := checked_add (response_bytes t) p in
  Ok (mk_totals aggregates' attempted' forwarded' denied' request' response').

(** The fields [apply] assigns for an event, in the order of the source. *)
Definition record_event (s : ReplayState) (e : EvidenceEvent) : result ReplayState EvidenceError :=
  let m := summary s in
  match e with
  | SessionStarted w a i =>
      Ok (mk_replay
        (mk_summary (Some w) (Some a) (Some i) (es_authority_digest m) (es_authority_denial m)
           (es_grant_id m) (es_grant_digest m) (es_lease_id m) (es_lease_digest m)
           (es_proxy_use m) (es_worker_result m) (es_worker_result_digest m)
           (es_rollback_result m) (es_rollback_digest m) (es_final_outcome m)
           (es_final_outcome_digest m))
        (last_timestamp s) true (authority_decided s) (authority_granted s) (lease_bound s)
        (worker_completed s) (rollback_completed s) (finalized s))
  | AuthorityDecided (ADenied ad reason) =>
      Ok (mk_replay
        (mk_summary (es_workspace_id m) (es_action_id m) (es_intent_digest m) (Some ad)
           (Some reason) (es_grant_id m) (es_grant_digest m) (es_lease_id m) (es_lease_digest m)
           (es_proxy_use m) (es_worker_result m) (es_worker_result_digest m)
           (es_rollback_result m) (es_rollback_digest m) (es_final_outcome m)
           (es_final_outcome_digest m))
        (last_timestamp s) (started s) true (authority_granted s) (lease_bound s)
        (worker_completed s) (rollback_completed s) (finalized s))
  | AuthorityDecided (AGranted ad g gd) =>
      Ok (mk_replay
        (mk_summary (es_workspace_id m) (es_action_id m) (es_intent_digest m) (Some ad)
           (es_authority_denial m) (Some g) (Some gd) (es_lease_id m) (es_lease_digest m)
           (es_proxy_use m) (es_worker_result m) (es_worker_result_digest m)
           (es_rollback_result m) (es_rollback_digest m) (es_final_outcome m)
           (es_final_outcome_digest m))
        (last_timestamp s) (started s) true true (lease_bound s)
        (worker_completed s) (rollback_completed s) (finalized s))
  | LeaseBound _ _ l ld =>
      Ok (mk_replay
        (mk_summary (es_workspace_id m) (es_action_id m) (es_intent_digest m)
           (es_authority_digest m) (es_authority_denial m) (es_grant_id m) (es_grant_digest m)
           (Some l) (Some ld) (es_proxy_use m) (es_worker_result m) (es_worker_result_digest m)
           (es_rollback_result m) (es_rollback_digest m) (es_final_outcome m)
           (es_final_outcome_digest m))
        (last_timestamp s) (started s) (authority_decided s) (authority_granted s) true
        (worker_completed s) (rollback_completed s) (finalized s))
  | ProxyUseAggregate _ a f d q p =>
      let? totals := add_totals (es_proxy_use m) a f d q p in
      Ok (mk_replay
        (mk_summary (es_workspace_id m) (es_action_id m) (es_intent_digest m)
           (es_authority_digest m) (es_authority_denial m) (es_grant_id m) (es_grant_digest m)
           (es_lease_id m) (es_lease_digest m) totals (es_worker_result m)
           (es_worker_result_digest m) (es_rollback_result m) (es_rollback_digest m)
           (es_final_outcome m) (es_final_outcome_digest m))
        (last_timestamp s) (started s) (authority_decided s) (authority_granted s) (lease_bound s)
        (worker_completed s) (rollback_completed s) (finalized s))
  | WorkerCompleted r d =>
      Ok (mk_replay
        (mk_summary (es_workspace_id m) (es_action_id m) (es_intent_digest m)
           (es_authority_digest m) (es_authority_denial m) (es_grant_id m) (es_grant_digest m)
           (es_lease_id m) (es_lease_digest m) (es_proxy_use m) (Some r) d
           (es_rollback_result m) (es_rollback_digest m) (es_final_outcome m)
           (es_final_outcome_digest m))
        (last_timestamp s) (started s) (authority_decided s) (authority_granted s) (lease_bound s)
        true (rollback_completed s) (finalized s))
  | RollbackCompleted r d =>
      Ok (mk_replay
        (mk_summary (es_workspace_id m) (es_action_id m) (es_intent_digest m)
           (es_authority_digest m) (es_authority_denial m) (es_grant_id m) (es_grant_digest m)
           (es_lease_id m) (es_lease_digest m) (es_proxy_use m) (es_worker_result m)
           (es_worker_result_digest m) (Some r) d (es_final_outcome m)
           (es_final_outcome_digest m))
        (last_timestamp s) (started s) (authority_decided s) (authority_granted s) (lease_bound s)
        (worker_completed s) true (finalized s))
  | FinalOutcomeIs o d =>
      Ok (mk_replay
        (mk_summary (es_workspace_id m) (es_action_id m) (es_intent_digest m)
           (es_authority_digest m) (es_authority_denial m) (es_grant_id m) (es_grant_digest m)
           (es_lease_id m) (es_lease_digest m) (es_proxy_use m) (es_worker_result m)
           (es_worker_result_digest m) (es_rollback_result m) (es_rollback_digest m) (Some o)
           (Some d))
        (last_timestamp s) (started s) (authority_decided s) (authority_granted s) (lease_bound s)
        (worker_completed s) (rollback_completed s) true)
  end.

Definition set_timestamp (s : ReplayState) (t : N) : ReplayState :=
  mk_replay (summary s) (Some t) (started s) (authority_decided s) (authority_granted s)
    (lease_bound s) (worker_completed s) (rollback_completed s) (finalized s).

(** [ReplayState::apply] *)
Definition apply_event (s : ReplayState) (e : EvidenceEvent) (timestamp : N)
    : result ReplayState EvidenceError :=
  let? _ := validate_next s e timestamp in
  record_event (set_timestamp s timestamp) e.

(** The loop of [fn replay], at record [index]. *)
Fixpoint replay_from (session_id : SessionId) (index : N) (s : ReplayState) (records : list LogRecord)
    : result ReplayState EvidenceError :=
  match records with
  | [] => Ok s
  | r :: rest =>
      fail_if (negb (bool_decide (lr_session_id r = session_id))
               || negb (lr_sequence r =? index)%N) ReplayOrSequence
      (let? s' := apply_event s (lr_event r) (lr_observed_at_unix_ms r) in
       replay_from session_id (index + 1) s' rest)
  end.

(** [fn replay] *)
Definition replay (session_id : SessionId) (records : list LogRecord)
    : result ReplayState EvidenceError :=
  replay_from session_id 0 default_replay records.

(** ** Digests, MACs and keys *)

Section evidence_digests.
Context `{X : External}.

(** [hex::encode(mac.finalize()).parse().map_err(..)] *)
Definition compute_mac (key domain payload : string) : result Sha256Digest EvidenceError :=
  map_err (fun _ => InvalidDigest)
    (digest_from_str (hex_encode (hmac_sha256 key (domain +:+ payload)))).

(** [fn verify_mac] *)
Definition verify_mac (key domain payload : string) (expected : Sha256Digest)
    : result unit EvidenceError :=
  let? expected := ok_or (hex_decode (digest_str expected)) Tampered in
  fail_if (negb (String.eqb (hmac_sha256 key (domain +:+ payload)) expected)) Tampered (Ok tt).

(** [fn sha256_domain_digest]; the [expect] of the source is the default. *)
Definition sha256_domain_digest (domain bytes : string) : Sha256Digest :=
  match digest_from_str (sha256_hex (domain +:+ bytes)) with Ok d => d | Err _ => GENESIS_MAC end.

Definition canonical {T} `{Serialize T} (x : T) : result string EvidenceError :=
  map_err ECanonical (canonical_json_v1 x).

(** [fn event_digest] *)
Definition event_digest (e : EvidenceEvent) : result Sha256Digest EvidenceError :=
  map_ok (sha256_domain_digest EVENT_DIGEST_DOMAIN) (canonical e).

(** [signing_assertion_digest] at [SCHEMA_VERSION] *)
Definition signing_assertion_digest (payload_digest : Sha256Digest) (signer_id : InstallationId)
    : result Sha256Digest EvidenceError :=
  map_ok (sha256_domain_digest SIGNING_ASSERTION_DOMAIN)
    (canonical (VObject [("schema_version", to_value SCHEMA_VERSION);
                         ("payload_digest", to_value payload_digest);
                         ("signer_id", to_value signer_id);
                         ("algorithm", to_value CALLER_ASSERTED_ALGORITHM)])).

(** [fn append_witness] *)
Definition append_witness (session_id : SessionId) (sequence : N) (record_mac : Sha256Digest)
    : result Sha256Digest EvidenceError :=
  map_ok (sha256_domain_digest APPEND_WITNESS_DOMAIN)
    (canonical (VObject [("session_id", to_value session_id); ("sequence", to_value sequence);
                         ("record_mac", to_value record_mac)])).

(** [fn validated_integrity_key] *)
Definition validated_integrity_key (raw : string) : result string EvidenceError :=
  fail_if (all_bytes (ascii_eqb zero_byte) raw) InvalidKey (Ok raw).

(** [fn parse_key] *)
Definition parse_key (bytes : string) : result string EvidenceError :=
  fail_if (negb (utf8_valid bytes)) InvalidKey
  (let? decoded := ok_or (hex_decode (trim bytes)) InvalidKey in
   fail_if (negb (str_len decoded =? 32)%N) InvalidKey (validated_integrity_key decoded)).
End evidence_digests.

(** ** Records *)

Definition newline : ascii := "010"%char.

Section evidence_records.
Context `{X : External} `{DR : !Deserialize LogRecord}.

(** The loop of [decode_records], at line [index] after a record with MAC
    [expected_previous]. *)
Fixpoint decode_lines (session_id : SessionId) (key : string) (index : N)
    (expected_previous : Sha256Digest) (lines : list string)
    : result (list LogRecord) EvidenceError :=
  match lines with
  | [] => Ok []
  | line :: rest =>
      fail_if (MAX_RECORDS <=? index)%N RecordLimitExceeded
      (fail_if (str_is_empty line) Truncated
      (let? r := ok_or (from_slice line) Tampered in
       let? text := canonical r in
       fail_if (negb (String.eqb text line)) NonCanonical
       (fail_if (negb (lr_schema_version r =? SCHEMA_VERSION)%N
                 || negb (bool_decide (lr_session_id r = session_id))
                 || negb (lr_sequence r =? index)%N
                 || negb (bool_decide (lr_previous_mac r = expected_previous))) ReplayOrSequence
        (let? unsigned := canonical (unsigned_record r) in
         let? _ := verify_mac key RECORD_MAC_DOMAIN unsigned (lr_mac r) in
         let? records := decode_lines session_id key (index + 1) (lr_mac r) rest in
         Ok (r :: records)))))
  end.

(** [EvidenceStore::decode_records] *)
Definition decode_records (session_id : SessionId) (key bytes : string)
    : result (list LogRecord) EvidenceError :=
  if str_is_empty bytes then Ok [] else
  fail_if (negb (ends_with_char newline bytes)) Truncated
  (let? records := decode_lines session_id key 0 GENESIS_MAC
     (split_char newline (str_take (String.length bytes - 1) bytes)) in
   let? _ := replay session_id records in
   Ok records).

(** The MAC a new record is chained to. *)
Definition chain_head (records : list LogRecord) : Sha256Digest :=
  match last records with Some r => lr_mac r | None => GENESIS_MAC end.

(** The record [append_new_locked] makes, after its checks. *)
Definition new_record (session_id : SessionId) (key : string) (records : list LogRecord)
    (event : EvidenceEvent) (observed_at : N) : result LogRecord EvidenceError :=
  let? state := replay session_id records in
  let? _ := validate_next state event observed_at in
  fail_if (MAX_RECORDS <=? N.of_nat (length records))%N RecordLimitExceeded
  (let? _ := event_digest event in
   let unsigned := mk_record SCHEMA_VERSION session_id (N.of_nat (length records)) observed_at
     event (chain_head records) GENESIS_MAC in
   let? unsigned_bytes := canonical (unsigned_record unsigned) in
   let? mac := compute_mac key RECORD_MAC_DOMAIN unsigned_bytes in
   Ok (mk_record SCHEMA_VERSION session_id (N.of_nat (length records)) observed_at event
         (chain_head records) mac)).

(** [rebuild_unsigned_receipt_locked] *)
Definition rebuild_unsigned_receipt (session_id : SessionId) (key : string)
    (records : list LogRecord) : result SessionReceipt EvidenceError :=
  let? state := replay session_id records in
  fail_if (negb (finalized state)) SessionNotFinalized
  (let? head := ok_or (option_map lr_mac (last records)) SessionNotStarted in
   let payload := mk_payload SCHEMA_VERSION session_id (N.of_nat (length records)) head
     (summary state) in
   let? payload_bytes := canonical payload in
   let? mac := compute_mac key RECEIPT_MAC_DOMAIN payload_bytes in
   Ok (mk_receipt payload (sha256_domain_digest RECEIPT_DIGEST_DOMAIN payload_bytes) mac
         TUnsignedUntrusted)).
End evidence_records.
