(* ===== verification/EvidenceGrammar.v ===== *)
(** * The sessions of the evidence log

    The logs that are accepted and finalized are exactly the logs of a
    grammar of sessions, and the totals are the sums of the aggregates. *)

From S2P Require Import Prelude Ids External Canonical CanonicalUnique StateDir Evidence.

(** ** The grammar of finalized sessions *)

(** An aggregate on lease [l] that does not claim more outcomes than attempts *)
Definition use_of (l : LeaseId) (e : EvidenceEvent) : Prop :=
  match e with
  | ProxyUseAggregate l' a f d _ _ => l' = l ∧ (f + d <= a)%N ∧ (f + d <= u64_max)%N
  | _ => False
  end.

(** A rollback that ran has a digest, one that was not required has none. *)
Definition rollback_digest_ok (r : RollbackResult) (d : option Sha256Digest) : Prop :=
  match r with RApplied | RFailed => is_Some d | RNotRequired => d = None end.

(** The outcomes a granted session may be given, by what happened in it *)
Definition outcome_allowed (o : FinalOutcome) (w : WorkerResult) (r : RollbackResult) : Prop :=
  match o with
  | FSucceeded => w = WSucceeded ∧ r = RNotRequired
  | FDenied => False
  | FFailed => w = WFailed ∨ r = RFailed
  | FTimedOut => w = WTimedOut
  | FRevoked => w = WRevoked
  | FRolledBack => r = RApplied
  end.

Inductive complete_log : list EvidenceEvent → Prop :=
  | cl_denied w a i ad reason od :
      complete_log [SessionStarted w a i; AuthorityDecided (ADenied ad reason);
                    FinalOutcomeIs FDenied od]
  | cl_granted w a i ad g gd l ld uses wr wd rr rd o od :
      Forall (use_of l) uses → rollback_digest_ok rr rd → outcome_allowed o wr rr →
      complete_log ([SessionStarted w a i; AuthorityDecided (AGranted ad g gd);
                     LeaseBound g gd l ld] ++ uses ++
                    [WorkerCompleted wr (Some wd); RollbackCompleted rr rd;
                     FinalOutcomeIs o od]).

(** ** Totals *)

(** What an aggregate adds to the totals; other events add nothing. *)
Definition use_totals (e : EvidenceEvent) : ProxyUseTotals :=
  match e with
  | ProxyUseAggregate _ a f d q p => mk_totals 1 a f d q p
  | _ => zero_totals
  end.

Definition plus_totals (t u : ProxyUseTotals) : ProxyUseTotals :=
  mk_totals (aggregates t + aggregates u) (attempted_requests t + attempted_requests u)
    (forwarded_requests t + forwarded_requests u) (denied_requests t + denied_requests u)
    (request_bytes t + request_bytes u) (response_bytes t + response_bytes u).

Definition totals_of (es : list EvidenceEvent) : ProxyUseTotals :=
  foldr (fun e t => plus_totals (use_totals e) t) zero_totals es.

(** Every total fits the [u64] it is kept in. *)
Definition in_range (t : ProxyUseTotals) : Prop :=
  (aggregates t <= u64_max)%N ∧ (attempted_requests t <= u64_max)%N ∧
  (forwarded_requests t <= u64_max)%N ∧ (denied_requests t <= u64_max)%N ∧
  (request_bytes t <= u64_max)%N ∧ (response_bytes t <= u64_max)%N.

(** ** Replaying events *)

Fixpoint replay_events (s : ReplayState) (l : list (EvidenceEvent * N))
    : result ReplayState EvidenceError :=
  match l with
  | [] => Ok s
  | (e, t) :: rest => let? s' := apply_event s e t in replay_events s' rest
  end.

Definition timed_event (r : LogRecord) : EvidenceEvent * N :=
  (lr_event r, lr_observed_at_unix_ms r).

(** Records of one session, numbered from [index] *)
Fixpoint numbered (session_id : SessionId) (index : N) (records : list LogRecord) : Prop :=
  match records with
  | [] => True
  | r :: rest =>
      lr_session_id r = session_id ∧ lr_sequence r = index ∧ numbered session_id (index + 1) rest
  end.

Lemma replay_from_Ok id i s records s' :
  replay_from id i s records = Ok s' ↔
  numbered id i records ∧ replay_events s (map timed_event records) = Ok s'.
Proof.
  revert i s. induction records as [|r records IH]; intros i s; simpl; [tauto|].
  rewrite fail_if_Ok, orb_false_iff, !negb_false_iff, bool_decide_eq_true, N.eqb_eq.
  rewrite !rbind_Ok. split.
  - intros ((Hid & Hseq) & s1 & Ha & Hr). apply IH in Hr as [Hn Hr]. eauto 10.
  - intros ((Hid & Hseq & Hn) & s1 & Ha & Hr). split; [done|]. exists s1. split; [done|].
    by apply IH.
Qed.

Lemma replay_events_app s l l' s' :
  replay_events s (l ++ l') = Ok s' ↔
  ∃ s1, replay_events s l = Ok s1 ∧ replay_events s1 l' = Ok s'.
Proof.
  revert s. induction l as [|[e t] l IH]; intros s; simpl.
  { split; [by exists s|]. by intros (s1 & [= ->] & H). }
  rewrite rbind_Ok. split.
  - intros (s1 & Ha & (s2 & H1 & H2)%IH). exists s2. split; [|done]. rewrite Ha. done.
  - intros (s2 & (s1 & Ha & H1)%rbind_Ok & H2). exists s1. split; [done|]. apply IH. eauto.
Qed.

Lemma apply_event_Ok s e t s' :
  apply_event s e t = Ok s' ↔
  finalized s = false ∧ (∀ last, last_timestamp s = Some last → (last <= t)%N) ∧
  event_guard s e = true ∧ record_event (set_timestamp s t) e = Ok s'.
Proof.
  unfold apply_event, validate_next. rewrite rbind_Ok. split.
  - intros (u & (Hf & (Ht & Hg)%fail_if_Ok)%fail_if_Ok & Hr). split_and!; try done.
    + intros last Hl. rewrite Hl in Ht. by apply N.ltb_ge.
    + by destruct (event_guard s e).
  - intros (Hf & Ht & Hg & Hr). exists tt. split; [|done]. rewrite !fail_if_Ok, Hg.
    split_and!; try done. destruct (last_timestamp s) as [last|]; [|done]. by apply N.ltb_ge, Ht.
Qed.

Lemma checked_add_Ok a b c : checked_add a b = Ok c ↔ c = (a + b)%N ∧ (a + b <= u64_max)%N.
Proof. unfold checked_add. by rewrite ok_or_Ok, checked_add_u64_Some. Qed.

Lemma add_totals_Ok t a f d q p t' :
  add_totals t a f d q p = Ok t' ↔
  t' = plus_totals t (mk_totals 1 a f d q p) ∧ in_range (plus_totals t (mk_totals 1 a f d q p)).
Proof.
  unfold add_totals, in_range. split.
  - intros H. inv_ok. repeat match goal with H : checked_add _ _ = Ok _ |- _ =>
      apply checked_add_Ok in H as [-> ?] end. subst. simpl. split_and!; done.
  - intros (-> & H1 & H2 & H3 & H4 & H5 & H6). simpl in *.
    repeat (apply rbind_Ok; eexists; split; [by apply checked_add_Ok|]). done.
Qed.

Lemma plus_totals_assoc t u v : plus_totals (plus_totals t u) v = plus_totals t (plus_totals u v).
Proof. unfold plus_totals. simpl. f_equal; lia. Qed.

Lemma plus_totals_zero t : plus_totals t zero_totals = t.
Proof. destruct t. unfold plus_totals. simpl. f_equal; lia. Qed.

(** What [record_event] does to the totals and the clock *)
Lemma record_event_totals s e s' :
  record_event s e = Ok s' →
  es_proxy_use (summary s') = plus_totals (es_proxy_use (summary s)) (use_totals e) ∧
  (in_range (es_proxy_use (summary s)) → in_range (es_proxy_use (summary s'))) ∧
  last_timestamp s' = last_timestamp s.
Proof.
  destruct e as [| [] | |l a f d q p | | |]; simpl; intros H;
    try (injection H as <-; simpl; by rewrite plus_totals_zero).
  apply rbind_Ok in H as (t & [-> Ht]%add_totals_Ok & H). by injection H as <-.
Qed.

Lemma replay_events_totals s l s' :
  replay_events s l = Ok s' →
  es_proxy_use (summary s') = plus_totals (es_proxy_use (summary s)) (totals_of (map fst l)) ∧
  (in_range (es_proxy_use (summary s)) → in_range (es_proxy_use (summary s'))).
Proof.
  revert s. induction l as [|[e t] l IH]; intros s; simpl.
  - intros [= <-]. by rewrite plus_totals_zero.
  - intros (s1 & Ha & Hr)%rbind_Ok. apply apply_event_Ok in Ha as (_ & _ & _ & Ha).
    apply record_event_totals in Ha as (Ht & Hin & _). apply IH in Hr as [Hr Hin'].
    simpl in Ht. split; [|by auto]. by rewrite Hr, Ht, plus_totals_assoc.
Qed.

(** The clock never runs backwards. *)
Lemma replay_events_sorted s l s' :
  replay_events s l = Ok s' →
  Sorted N.le (map snd l) ∧ (∀ last t, last_timestamp s = Some last → head (map snd l) = Some t →
    (last <= t)%N).
Proof.
  revert s. induction l as [|[e t] l IH]; intros s; simpl; [by repeat constructor|].
  intros (s1 & Ha & Hr)%rbind_Ok. apply apply_event_Ok in Ha as (_ & Ht & _ & Ha).
  apply record_event_totals in Ha as (_ & _ & Hlast). apply IH in Hr as [Hs Hh]. split.
  - constructor; [done|]. destruct (map snd l) as [|t2 ts] eqn:E; constructor.
    by apply (Hh t t2); [by rewrite Hlast|].
  - intros last t' Hl [= <-]. by apply Ht.
Qed.

(** ** The stages of a session *)

Definition flags (s : ReplayState) : list bool :=
  [started s; authority_decided s; authority_granted s; lease_bound s; worker_completed s;
   rollback_completed s; finalized s].

(** The beginning of a granted session on a lease, and its uses so far *)
Definition leased (w : WorkspaceId) (a : ActionId) (i ad : Sha256Digest) (g : GrantId)
    (gd : Sha256Digest) (l : LeaseId) (ld : Sha256Digest) (uses : list EvidenceEvent)
    : list EvidenceEvent :=
  [SessionStarted w a i; AuthorityDecided (AGranted ad g gd); LeaseBound g gd l ld] ++ uses.

(** What the state knows of the events that led to it. *)
Inductive stage : list EvidenceEvent → ReplayState → Prop :=
  | stage_empty s :
      flags s = [false; false; false; false; false; false; false] →
      es_rollback_result (summary s) = None → stage [] s
  | stage_started w a i s :
      flags s = [true; false; false; false; false; false; false] →
      es_rollback_result (summary s) = None → stage [SessionStarted w a i] s
  | stage_denied w a i ad reason s :
      flags s = [true; true; false; false; false; false; false] →
      es_rollback_result (summary s) = None →
      stage [SessionStarted w a i; AuthorityDecided (ADenied ad reason)] s
  | stage_granted w a i ad g gd s :
      flags s = [true; true; true; false; false; false; false] →
      es_rollback_result (summary s) = None →
      es_grant_id (summary s) = Some g → es_grant_digest (summary s) = Some gd →
      stage [SessionStarted w a i; AuthorityDecided (AGranted ad g gd)] s
  | stage_leased w a i ad g gd l ld uses s :
      flags s = [true; true; true; true; false; false; false] →
      es_rollback_result (summary s) = None → es_lease_id (summary s) = Some l →
      Forall (use_of l) uses → stage (leased w a i ad g gd l ld uses) s
  | stage_worked w a i ad g gd l ld uses wr wd s :
      flags s = [true; true; true; true; true; false; false] →
      es_rollback_result (summary s) = None → es_worker_result (summary s) = Some wr →
      Forall (use_of l) uses →
      stage (leased w a i ad g gd l ld uses ++ [WorkerCompleted wr (Some wd)]) s
  | stage_rolled w a i ad g gd l ld uses wr wd rr rd s :
      flags s = [true; true; true; true; true; true; false] →
      es_rollback_result (summary s) = Some rr → es_worker_result (summary s) = Some wr →
      Forall (use_of l) uses → rollback_digest_ok rr rd →
      stage (leased w a i ad g gd l ld uses ++
             [WorkerCompleted wr (Some wd); RollbackCompleted rr rd]) s
  | stage_final es s : finalized s = true → complete_log es → stage es s.

(** The guard of a final outcome, at each stage at which it can hold *)
Lemma can_finalize_rolled s o wr rr :
  flags s = [true; true; true; true; true; true; false] →
  es_worker_result (summary s) = Some wr → es_rollback_result (summary s) = Some rr →
  can_finalize s o = true ↔ outcome_allowed o wr rr.
Proof.
  intros Hf Hw Hr. unfold can_finalize. unfold flags in Hf. injection Hf as H1 H2 H3 H4 H5 H6 H7.
  rewrite H2, H3, H6, Hw, Hr. destruct o; simpl;
    rewrite ?andb_true_iff, ?orb_true_iff, ?bool_decide_eq_true; naive_solver.
Qed.

(** Read the flags of a state, and decide a guard with them. *)
Ltac read_flags H :=
  unfold flags in H;
  let H1 := fresh "F" in let H2 := fresh "F" in let H3 := fresh "F" in let H4 := fresh "F" in
  let H5 := fresh "F" in let H6 := fresh "F" in let H7 := fresh "F" in
  injection H as H1 H2 H3 H4 H5 H6 H7.

Ltac decide_guard s Hg :=
  cbn [event_guard] in Hg; try unfold can_finalize in Hg;
  repeat match goal with
  | H : ?f s = _ |- _ => match type of Hg with context [f s] => rewrite H in Hg end
  | H : ?f (summary s) = _ |- _ =>
      match type of Hg with context [f (summary s)] => rewrite H in Hg end
  end;
  cbn in Hg.

Ltac same_flags := unfold flags; cbn; congruence.

(** A state after [record_event], as it is *)
Ltac next_state Hr :=
  cbn in Hr; injection Hr as <-; unfold flags; cbn.

Lemma stage_step es s e t s' :
  stage es s → apply_event s e t = Ok s' → stage (es ++ [e]) s'.
Proof.
  intros Hst. rewrite apply_event_Ok. intros (Hfin & _ & Hg & Hr).
  destruct Hst as [s Hf Hn|w a i s Hf Hn|w a i ad reason s Hf Hn|w a i ad g gd s Hf Hn Hgi Hgd
    |w a i ad g gd l ld uses s Hf Hn Hl Hu|w a i ad g gd l ld uses wr wd s Hf Hn Hw Hu
    |w a i ad g gd l ld uses wr wd rr rd s Hf Hn Hw Hu Hd|es s Hf Hc]; [..|congruence];
    read_flags Hf;
    destruct e as [w' a' i'|[ad' reason'|ad' g' gd']|g' gd' l' ld'|l' x f d q p|r d|r d|o d];
    try (decide_guard s Hg; discriminate Hg);
    try (decide_guard s Hg; destruct o; discriminate Hg).
  - next_state Hr. by apply stage_started; [same_flags|].
  - next_state Hr. by apply stage_denied; [same_flags|].
  - next_state Hr. by apply stage_granted; [same_flags|..].
  - decide_guard s Hg. destruct o; try discriminate Hg. next_state Hr.
    apply stage_final; [done|constructor].
  - decide_guard s Hg. apply andb_true_iff in Hg as [Hg1 Hg2]. split_bools. simplify_eq.
    next_state Hr. by apply (stage_leased w a i ad g' gd' l' ld' []); [same_flags|..].
  - decide_guard s Hg. apply andb_true_iff in Hg as [Hg1 Hg2]. split_bools. simplify_eq.
    destruct (checked_add_u64 f d) as [total|] eqn:E; [|discriminate Hg2].
    apply checked_add_u64_Some in E as [-> E]. apply N.leb_le in Hg2.
    cbn in Hr. apply rbind_Ok in Hr as (tot & _ & Hr). injection Hr as <-.
    unfold leased. rewrite <- app_assoc. apply stage_leased; [same_flags|done|done|].
    apply Forall_app. by split; [|constructor].
  - decide_guard s Hg. destruct d as [d|]; [|discriminate Hg]. next_state Hr.
    by apply stage_worked; [same_flags|..].
  - decide_guard s Hg. next_state Hr. rewrite <- app_assoc. simpl.
    apply stage_rolled; [same_flags|done|done|done|]. by destruct r, d; first [done|eexists].
  - apply can_finalize_rolled with (wr := wr) (rr := rr) in Hg; [|same_flags|done|done].
    next_state Hr. apply stage_final; [done|]. unfold leased. rewrite <- !app_assoc.
    by apply cl_granted.
Qed.

Lemma stage_replay es s l s' :
  stage es s → replay_events s l = Ok s' → stage (es ++ map fst l) s'.
Proof.
  revert es s. induction l as [|[e t] l IH]; intros es s Hst; simpl.
  - intros [= <-]. by rewrite app_nil_r.
  - intros (s1 & Ha & Hr)%rbind_Ok. pose proof (stage_step _ _ _ _ _ Hst Ha) as Hst1.
    specialize (IH _ _ Hst1 Hr). by rewrite <- app_assoc in IH.
Qed.

Lemma stage_finalized es s : stage es s → finalized s = true → complete_log es.
Proof. intros []; try done; intros Hf; read_flags H; congruence. Qed.

(** ** Every log of the grammar is accepted *)

(** The rest of a log, in time order and not before the state's clock *)
Definition clock (s : ReplayState) (l : list (EvidenceEvent * N)) : Prop :=
  StronglySorted N.le (map snd l) ∧
  ∀ last, last_timestamp s = Some last → Forall (N.le last) (map snd l).

Lemma in_range_mono t u v : in_range (plus_totals t (plus_totals u v)) → in_range (plus_totals t u).
Proof. unfold in_range. simpl. intros (H1 & H2 & H3 & H4 & H5 & H6). split_and!; lia. Qed.

(** One more event of a log whose guard holds *)
Lemma accept s e t l :
  clock s ((e, t) :: l) → finalized s = false → event_guard s e = true →
  in_range (plus_totals (es_proxy_use (summary s)) (totals_of (map fst ((e, t) :: l)))) →
  ∃ s', apply_event s e t = Ok s' ∧ record_event (set_timestamp s t) e = Ok s' ∧ clock s' l ∧
    in_range (plus_totals (es_proxy_use (summary s')) (totals_of (map fst l))).
Proof.
  intros [Hs Hc] Hf Hg Hin. simpl in Hin.
  assert (∃ s', record_event (set_timestamp s t) e = Ok s') as [s' Hs'].
  { destruct e as [| [] | |l' a f d q p | | |]; try (simpl; by eexists). cbn [record_event].
    apply in_range_mono in Hin. simpl in Hin.
    assert (add_totals (es_proxy_use (summary (set_timestamp s t))) a f d q p =
      Ok (plus_totals (es_proxy_use (summary s)) (mk_totals 1 a f d q p))) as ->
      by (by apply add_totals_Ok). by eexists. }
  exists s'. pose proof (record_event_totals _ _ _ Hs') as (Ht & _ & Hl). split_and!.
  - apply apply_event_Ok. split_and!; try done. intros last Hlast.
    specialize (Hc _ Hlast). by inversion Hc.
  - done.
  - simpl in Hs. apply StronglySorted_inv in Hs as [Hs Hall]. split; [done|].
    intros last. rewrite Hl. simpl. by intros [= <-].
  - rewrite Ht. simpl. by rewrite plus_totals_assoc.
Qed.

(** Aggregates change nothing but the totals and the clock. *)
Lemma accept_uses s lid uses l :
  flags s = [true; true; true; true; false; false; false] → es_lease_id (summary s) = Some lid →
  Forall (use_of lid) (map fst uses) → clock s (uses ++ l) →
  in_range (plus_totals (es_proxy_use (summary s)) (totals_of (map fst (uses ++ l)))) →
  ∃ s', replay_events s uses = Ok s' ∧ flags s' = flags s ∧ clock s' l ∧
    in_range (plus_totals (es_proxy_use (summary s')) (totals_of (map fst l))).
Proof.
  revert s. induction uses as [|[e t] uses IH]; intros s Hf Hl Hu Hc Hin; [by exists s|].
  simpl in Hu. apply Forall_cons in Hu as [He Hu].
  destruct e as [| | |l' a f d q p | | |]; try done. destruct He as (-> & Hle & Hmax).
  pose proof Hf as Hf'. read_flags Hf'.
  destruct (accept s (ProxyUseAggregate lid a f d q p) t (uses ++ l)) as
    (s1 & Ha & Hr & Hc1 & Hin1); try done.
  { cbn [event_guard]. rewrite F2, F3, Hl, bool_decide_true by done. simpl.
    destruct (checked_add_u64 f d) as [total|] eqn:E.
    - apply checked_add_u64_Some in E as [-> _]. by apply N.leb_le.
    - apply checked_add_u64_None in E. lia. }
  cbn [record_event] in Hr. apply rbind_Ok in Hr as (tot & _ & Hr).
  assert (flags s1 = flags s) as Hf1 by (injection Hr as <-; done).
  assert (es_lease_id (summary s1) = es_lease_id (summary s)) as Hl1 by (injection Hr as <-; done).
  destruct (IH s1) as (s2 & Hr2 & Hf2 & Hc2 & Hin2); try congruence.
  exists s2. cbn [replay_events]. rewrite Ha. simpl. split_and!; try done. congruence.
Qed.

(** The next event of a log, through [accept], with the state after it. *)
Ltac accept_next s' Hin' Hc' :=
  match goal with
  | Hc : clock ?s ((?e, ?t) :: ?l), Hin : in_range _ |- _ =>
      let Ha := fresh "Ha" in let Hr := fresh "Hr" in
      destruct (accept s e t l Hc) as (s' & Ha & Hr & Hc' & Hin');
      [try done|cbn; rewrite ?bool_decide_true by done; try reflexivity|exact Hin|cbn in Hr; clear Hc Hin; cbn [replay_events]; rewrite Ha; cbn [rbind];
       injection Hr as Hr]
  end.

Lemma complete_log_accepted l :
  complete_log (map fst l) → StronglySorted N.le (map snd l) → in_range (totals_of (map fst l)) →
  ∃ s, replay_events default_replay l = Ok s ∧ finalized s = true.
Proof.
  intros Hcl Hs Hin. assert (clock default_replay l) as Hc by done.
  assert (in_range (plus_totals (es_proxy_use (summary default_replay)) (totals_of (map fst l))))
    as Hin0 by exact Hin. clear Hs Hin.
  assert (∃ es, map fst l = es ∧ complete_log es) as (es & Hes & Hcl') by eauto. clear Hcl.
  destruct Hcl' as [w a i ad reason od|w a i ad g gd lid ld uses wr wd rr rd o od Hu Hrd Ho].
  - destruct l as [|[e1 t1] [|[e2 t2] [|[e3 t3] [|]]]]; try discriminate Hes.
    injection Hes as -> -> ->.
    accept_next s1 Hin1 Hc1. subst s1. accept_next s2 Hin2 Hc2. subst s2.
    accept_next s3 Hin3 Hc3. subst s3. by eexists.
  - destruct l as [|[e1 t1] [|[e2 t2] [|[e3 t3] l]]]; try discriminate Hes.
    injection Hes as -> -> -> Hes.
    apply (fmap_app_inv fst) in Hes as (lu & lr & -> & Hr3 & ->).
    destruct lr as [|[e4 t4] [|[e5 t5] [|[e6 t6] [|]]]]; try discriminate Hr3.
    injection Hr3 as <- <- <-.
    accept_next s1 Hin1 Hc1. subst s1. accept_next s2 Hin2 Hc2. subst s2.
    accept_next s3 Hin3 Hc3.
    destruct (accept_uses s3 lid lu [(WorkerCompleted wr (Some wd), t4);
      (RollbackCompleted rr rd, t5); (FinalOutcomeIs o od, t6)]) as (s4 & Ha4 & Hf4 & Hc4 & Hin4);
      try (subst s3; done).
    enough (∃ s, replay_events s4 [(WorkerCompleted wr (Some wd), t4);
      (RollbackCompleted rr rd, t5); (FinalOutcomeIs o od, t6)] = Ok s ∧ finalized s = true)
      as (s & Hlast & Hfin).
    { exists s. split; [|done]. apply replay_events_app. eauto. }
    clear Hc3 Hin3. subst s3. read_flags Hf4.
    accept_next s5 Hin5 Hc5; [by rewrite F2, F3|].
    accept_next s6 Hin6 Hc6.
    { by subst s5. }
    { subst s5. cbn. rewrite F4. simpl. destruct rr; simpl in *; by destruct rd, Hrd || subst rd. }
    accept_next s7 Hin7 Hc7.
    { by subst s6 s5. }
    { apply (can_finalize_rolled _ _ wr rr); [subst s6 s5; same_flags|by subst s6 s5..|done]. }
    exists s7. by subst s7.
Qed.

(** ** The sessions that are finalized *)

(** C34: the finalized sessions are exactly those of the grammar: a session
    that was started and denied authority, or one whose authority was
    granted, whose lease is of that grant, whose uses are of that lease and
    never claim more outcomes than attempts, that ran, rolled back as
    recorded and is given an outcome that both allow; in time order, numbered
    without a gap, with totals that fit their width. *)
Theorem finalized_log_exact id records :
  (∃ st, replay id records = Ok st ∧ finalized st = true) ↔
  numbered id 0 records ∧ complete_log (map lr_event records) ∧
  StronglySorted N.le (map lr_observed_at_unix_ms records) ∧
  in_range (totals_of (map lr_event records)).
Proof.
  assert (map fst (map timed_event records) = map lr_event records) as Hfst
    by (rewrite map_map; done).
  assert (map snd (map timed_event records) = map lr_observed_at_unix_ms records) as Hsnd
    by (rewrite map_map; done).
  unfold replay. setoid_rewrite replay_from_Ok. rewrite <- Hfst, <- Hsnd. split.
  - intros (st & (Hn & Hr) & Hf). pose proof (replay_events_sorted _ _ _ Hr) as [Hs _].
    pose proof (replay_events_totals _ _ _ Hr) as [Ht Hin].
    assert (stage [] default_replay) as Hst by (by apply stage_empty).
    pose proof (stage_replay _ _ _ _ Hst Hr) as Hstage. split_and!; [done| | |].
    + exact (stage_finalized _ _ Hstage Hf).
    + apply Sorted_StronglySorted; [|done]. intros x y z. apply N.le_trans.
    + rewrite Ht in Hin. destruct (totals_of _) as [t1 t2 t3 t4 t5 t6] eqn:E. apply Hin. done.
  - intros (Hn & Hc & Hs & Hin).
    destruct (complete_log_accepted _ Hc Hs Hin) as (st & Hr & Hf). eauto.
Qed.

(** an unsigned receipt says what its log says: it is only made for a
    finalized session of the grammar, counts its records, names the MAC of
    the last one, and its totals are the sums over the session's aggregates. *)
Theorem receipt_sound `{X : External} id key records r :
  rebuild_unsigned_receipt id key records = Ok r →
  complete_log (map lr_event records) ∧
  rp_session_id (sr_payload r) = id ∧
  rp_event_count (sr_payload r) = N.of_nat (length records) ∧
  option_map lr_mac (last records) = Some (rp_chain_head (sr_payload r)) ∧
  es_proxy_use (rp_summary (sr_payload r)) = totals_of (map lr_event records) ∧
  trust_state r = UnsignedUntrusted ∧
  ∃ bytes, canonical (sr_payload r) = Ok bytes ∧
    compute_mac key RECEIPT_MAC_DOMAIN bytes = Ok (sr_local_integrity_mac r) ∧
    sr_payload_digest r = sha256_domain_digest RECEIPT_DIGEST_DOMAIN bytes.
Proof.
  unfold rebuild_unsigned_receipt. intros H. apply rbind_Ok in H as (st & Hst & H).
  apply fail_if_Ok in H as [Hf%negb_false_iff H].
  apply rbind_Ok in H as (hd & Hhd%ok_or_Ok & H). apply rbind_Ok in H as (b & Hb & H).
  apply rbind_Ok in H as (m & Hm & [= <-]). simpl.
  unfold replay in Hst. apply replay_from_Ok in Hst as [_ Hst].
  assert (map fst (map timed_event records) = map lr_event records) as Hfst
    by (rewrite map_map; done).
  assert (stage [] default_replay) as H0 by (by apply stage_empty).
  pose proof (stage_finalized _ _ (stage_replay _ _ _ _ H0 Hst) Hf) as Hc. simpl in Hc.
  rewrite Hfst in Hc. pose proof (replay_events_totals _ _ _ Hst) as [Ht _].
  rewrite Hfst in Ht. split_and!; try done.
  - rewrite Ht. simpl. by destruct (totals_of _).
  - by exists b.
Qed.

(** ** A concrete session for the witnesses

    A granted session with one aggregate that fills a total. *)

#[local] Existing Instance known_documents_external.

Definition log_session : SessionId :=
  mk_id (k := SessionIdK) ("ses_" +:+ str_repeat "1" 32) eq_refl.
Definition log_lease : LeaseId := mk_id (k := LeaseIdK) ("lea_" +:+ str_repeat "5" 32) eq_refl.
Definition log_grant : GrantId := mk_id (k := GrantIdK) ("grt_" +:+ str_repeat "4" 32) eq_refl.
Definition log_digest : Sha256Digest := mk_digest (str_repeat "a" 64) eq_refl.
Definition log_key : string := str_repeat "k" 32.

Definition granted_events : list EvidenceEvent :=
  [SessionStarted (mk_id (k := WorkspaceIdK) ("wrk_" +:+ str_repeat "2" 32) eq_refl)
     (mk_id (k := ActionIdK) ("act_" +:+ str_repeat "3" 32) eq_refl) log_digest;
   AuthorityDecided (AGranted log_digest log_grant log_digest);
   LeaseBound log_grant log_digest log_lease log_digest;
   ProxyUseAggregate log_lease 3 2 1 u64_max 7].

Definition overflowing_use : EvidenceEvent := ProxyUseAggregate log_lease 1 1 0 1 0.

Definition worker_done : EvidenceEvent := WorkerCompleted WSucceeded (Some log_digest).

(** The records of some events, as the store makes them *)
Definition record_all (records : list LogRecord) (events : list EvidenceEvent) : list LogRecord :=
  fold_left (fun rs e =>
    match new_record log_session log_key rs e 1000 with Ok r => rs ++ [r] | Err _ => rs end)
    events records.

Definition granted_records : list LogRecord := record_all [] granted_events.

Definition finished_records : list LogRecord :=
  record_all granted_records
    [worker_done; RollbackCompleted RNotRequired None; FinalOutcomeIs FSucceeded log_digest].

Definition sample_receipt : SessionReceipt :=
  match rebuild_unsigned_receipt log_session log_key finished_records with
  | Ok r => r
  | Err _ =>
      mk_receipt (mk_payload 0 log_session 0 log_digest empty_summary) log_digest log_digest
        TUnsignedUntrusted
  end.

Lemma receipt_sound_witness :
  complete_log (map lr_event finished_records) ∧
  es_proxy_use (rp_summary (sr_payload sample_receipt)) = mk_totals 1 3 2 1 u64_max 7.
Proof.
  destruct (receipt_sound (X := known_documents_external) log_session log_key finished_records sample_receipt
    ltac:(vm_compute; reflexivity)) as (Hc & _ & _ & _ & Ht & _).
  split; [exact Hc|]. rewrite Ht. vm_compute. reflexivity.
Defined.
