(* ===== verification/EvidenceStore.v ===== *)
(** * The evidence store: [crates/phantom-evidence/src/lib.rs], the operations

    [EvidenceStore]'s operations over two private directories: the home
    directory's [.phantom], with the lock and the key, and its child
    [evidence], with the log and the receipts. *)

From S2P Require Import Prelude Ids External Canonical CanonicalUnique StateDir Evidence.

(** [fn storage_error] *)
Definition storage_error (e : ErrorKind) : EvidenceError :=
  if bool_decide (e = InvalidData) then UnsafeStorage else EIo e.

(** [EvidenceStore]; the retained directories are the state. *)
Record EvidenceStore := mk_evidence_store {
  log_name : string;
  session_id : SessionId;
}.

(** [trait EvidenceSigner] *)
Record EvidenceSigner := {
  signer_id : InstallationId;
  sign : Sha256Digest → result string SignerError;
  verify : Sha256Digest → string → bool;
}.

Inductive SigningBoundary := NoVerifiedSigner | BCallerAsserted (signer : EvidenceSigner).

(** [DenyAllEvidenceSigner] *)
Definition deny_all_signer : EvidenceSigner := {|
  signer_id := mk_id (k := InstallationIdK) ("ins_" +:+ str_repeat "0" 32) eq_refl;
  sign _ := Err SignerDenied;
  verify _ _ := false;
|}.

Inductive AppendOnceResult :=
  | AppendNew (sequence : N) (event_digest record_witness : Sha256Digest)
  | AppendExisting (sequence : N) (event_digest record_witness : Sha256Digest).

(** [fn unix_millis]; [now] is the clock's distance from the Unix epoch. *)
Definition unix_millis (now : Z) : result N EvidenceError :=
  if (now <? 0)%Z then Err ClockBeforeEpoch
  else fail_if (u64_max <? Z.to_N now)%N ClockOverflow (Ok (Z.to_N now)).

Section store.
Context `{X : External} `{DR : !Deserialize LogRecord} `{DS : !Deserialize SessionReceipt}
  `{S : StateDir}.

Record directories := mk_directories { phantom_dir : dir_t; evidence : dir_t }.

Abbreviation store_io := (io directories EvidenceError).

Definition on_phantom {T} (m : io dir_t EvidenceError T) : store_io T := fun w =>
  let '(d, r) := m (phantom_dir w) in (mk_directories d (evidence w), r).

Definition on_evidence {T} (m : io dir_t EvidenceError T) : store_io T := fun w =>
  let '(d, r) := m (evidence w) in (mk_directories (phantom_dir w) d, r).

(** [directory.open_file(name, create).map_err(storage_error)] *)
Definition open_private (name : string) (create : bool) : io dir_t EvidenceError unit := fun d =>
  let '(d1, r) := open_file d name create in (d1, map_err storage_error r).

(** The length check and the bounded read of [read_private_file_bounded]. *)
Definition read_bounded (d : dir_t) (name : string) (max_bytes : N) : result string EvidenceError :=
  let? len := map_err EIo (file_len d name) in
  fail_if (max_bytes <? len)%N LogTooLarge
  (let? bytes := map_err EIo (read_take d name (N.min (max_bytes + 1) u64_max)) in
   fail_if (max_bytes <? str_len bytes)%N LogTooLarge (Ok bytes)).

(** [fn read_private_file_bounded] *)
Definition read_private_file_bounded (name : string) (max_bytes : N)
    : io dir_t EvidenceError string :=
  do? _ := open_private name false in
  io_query (fun d => read_bounded d name max_bytes).

(** [fn validate_existing_private_readonly], on Unix *)
Definition validate_existing_private_readonly (m : Metadata) : result unit EvidenceError :=
  fail_if (negb (me_is_file m) || me_is_symlink m) UnsafeStorage
  (fail_if (negb (me_nlink m =? 1)%N || negb (me_uid m =? geteuid)%N
            || negb (N.land (me_mode m) 4095 =? 384)%N) UnsafeStorage (Ok tt)).

(** [fn open_existing_private_readonly] *)
Definition open_existing_private_readonly (d : dir_t) (name : string)
    : result unit EvidenceError :=
  let? _ := map_err storage_error (open_file_readonly d name) in
  let? m := map_err EIo (file_metadata d name) in
  validate_existing_private_readonly m.

(** [fn read_existing_private_file_bounded] *)
Definition read_existing_private_file_bounded (d : dir_t) (name : string) (max_bytes : N)
    : result string EvidenceError :=
  let? _ := open_existing_private_readonly d name in read_bounded d name max_bytes.

(** [acquire_lock] *)
Definition acquire_lock : store_io unit := on_phantom (
  do? _ := open_private LOCK_FILE true in
  io_query (fun d => map_err EIo (lock_exclusive d LOCK_FILE))).

(** [acquire_existing_read_lock] *)
Definition acquire_existing_read_lock : store_io unit := on_phantom (
  io_query (fun d =>
    let? _ := open_existing_private_readonly d LOCK_FILE in
    map_err EIo (lock_shared d LOCK_FILE))).

Definition is_not_found (e : EvidenceError) : bool :=
  match e with EIo NotFound => true | _ => false end.

(** [create_new_file(KEY_FILE)], [write_all], [sync_all] and [sync] *)
Definition create_key_file (encoded : string) : io dir_t EvidenceError unit :=
  do? _ := fun d =>
    let '(d1, r) := create_new_file d KEY_FILE in (d1, map_err storage_error r) in
  do? _ := fun d =>
    let '(d1, r) := append_file d KEY_FILE encoded in (d1, map_err EIo r) in
  io_query (fun d => map_err EIo (sync_dir d)).

(** [load_or_create_key_locked]; [random] is what the generator filled in. *)
Definition load_or_create_key_locked (random : string) : store_io string := on_phantom (fun d =>
  match read_private_file_bounded KEY_FILE MAX_KEY_BYTES d with
  | (d1, Ok bytes) => (d1, parse_key bytes)
  | (d1, Err e) =>
      if is_not_found e then
        (do? key := io_lift (validated_integrity_key random) in
         do? _ := create_key_file (hex_encode key) in
         io_ret key) d1
      else (d1, Err e)
  end).

(** [load_existing_key_locked] *)
Definition load_existing_key_locked : store_io string := on_phantom (
  do? bytes := read_private_file_bounded KEY_FILE MAX_KEY_BYTES in
  io_lift (parse_key bytes)).

(** [load_existing_key_readonly] *)
Definition load_existing_key_readonly : store_io string := on_phantom (
  io_query (fun d =>
    let? bytes := read_existing_private_file_bounded d KEY_FILE MAX_KEY_BYTES in
    parse_key bytes)).

(** [load_records_locked] *)
Definition load_records_locked (s : EvidenceStore) (key : string) : store_io (list LogRecord) :=
  on_evidence (fun d =>
    match read_private_file_bounded (log_name s) MAX_LOG_BYTES d with
    | (d1, Ok bytes) => (d1, decode_records (session_id s) key bytes)
    | (d1, Err e) => (d1, if is_not_found e then Ok [] else Err e)
    end).

(** [load_records_readonly] *)
Definition load_records_readonly (s : EvidenceStore) (key : string) : store_io (list LogRecord) :=
  on_evidence (io_query (fun d =>
    let? bytes := read_existing_private_file_bounded d (log_name s) MAX_LOG_BYTES in
    decode_records (session_id s) key bytes)).

(** The opening of the log in [append_line_locked]: whether it was created *)
Definition open_log (name : string) : io dir_t EvidenceError bool := fun d =>
  match open_file d name false with
  | (d1, Ok _) => (d1, Ok false)
  | (d1, Err NotFound) =>
      let '(d2, r) := open_file d1 name true in
      (d2, map_ok (fun _ => true) (map_err storage_error r))
  | (d1, Err e) => (d1, Err (storage_error e))
  end.

(** [append_line_locked] *)
Definition append_line_locked (s : EvidenceStore) (line : string) : store_io unit := on_evidence (
  do? created := open_log (log_name s) in
  do? m := io_query (fun d => map_err EIo (file_metadata d (log_name s))) in
  io_fail_if (negb (me_is_file m)) UnsafeStorage
  (do? len := io_query (fun d => map_err EIo (file_len d (log_name s))) in
   do? new_len := io_lift (ok_or (checked_add_u64 len (str_len line)) LogTooLarge) in
   io_fail_if (MAX_LOG_BYTES <? new_len)%N LogTooLarge
   (do? _ := fun d =>
      let '(d1, r) := append_file d (log_name s) line in (d1, map_err EIo r) in
    io_query (fun d => if created : bool then map_err EIo (sync_dir d) else Ok tt)))).

(** [append_new_locked] *)
Definition append_new_locked (s : EvidenceStore) (key : string) (records : list LogRecord)
    (event : EvidenceEvent) (observed_at_unix_ms : N)
    : store_io (N * Sha256Digest * Sha256Digest) :=
  do? record := io_lift (new_record (session_id s) key records event observed_at_unix_ms) in
  do? digest := io_lift (event_digest event) in
  do? witness := io_lift (append_witness (session_id s) (lr_sequence record) (lr_mac record)) in
  do? line := io_lift (canonical record) in
  do? _ := append_line_locked s (line +:+ String newline EmptyString) in
  io_ret (lr_sequence record, digest, witness).

(** [append_internal] with [None]: the time is the clock's. *)
Definition append (s : EvidenceStore) (now : Z) (event : EvidenceEvent) : store_io N :=
  do? _ := acquire_lock in
  do? observed_at := io_lift (unix_millis now) in
  do? key := load_existing_key_locked in
  do? records := load_records_locked s key in
  do? (sequence, _, _) := append_new_locked s key records event observed_at in
  io_ret sequence.

(** [EvidenceStore::append_once] *)
Definition append_once (s : EvidenceStore) (now : Z) (expected_sequence : N)
    (event : EvidenceEvent) : store_io AppendOnceResult :=
  do? _ := acquire_lock in
  do? key := load_existing_key_locked in
  do? records := load_records_locked s key in
  do? requested := io_lift (event_digest event) in
  match records !! N.to_nat expected_sequence with
  | Some r =>
      do? existing := io_lift (event_digest (lr_event r)) in
      io_fail_if (negb (bool_decide (existing = requested))
                  || negb (bool_decide (lr_event r = event))) IdempotencyConflict
      (do? witness := io_lift (append_witness (session_id s) expected_sequence (lr_mac r)) in
       io_ret (AppendExisting expected_sequence requested witness))
  | None =>
      io_fail_if (negb (expected_sequence =? N.of_nat (length records))%N) UnexpectedSequence
      (do? observed_at := io_lift (unix_millis now) in
       do? (sequence, digest, witness) := append_new_locked s key records event observed_at in
       io_ret (AppendNew sequence digest witness))
  end.

(** [EvidenceStore::event_count] *)
Definition event_count (s : EvidenceStore) : store_io N :=
  do? _ := acquire_lock in
  do? key := load_existing_key_locked in
  do? records := load_records_locked s key in
  io_ret (N.of_nat (length records)).

(** ** Receipts *)

Definition receipt_name (s : EvidenceStore) (suffix : string) : string :=
  id_str (session_id s) +:+ ".receipt." +:+ suffix +:+ ".json".

(** What a stored receipt must satisfy to be returned again. *)
Definition check_asserted_receipt (expected : SessionReceipt) (signer : EvidenceSigner)
    (bytes : string) : result SessionReceipt EvidenceError :=
  let? receipt := ok_or (from_slice bytes) Tampered in
  let? text := canonical receipt in
  fail_if (negb (String.eqb text bytes)) NonCanonical
  (fail_if (negb (bool_decide (sr_payload receipt = sr_payload expected))
            || negb (bool_decide (sr_payload_digest receipt = sr_payload_digest expected))
            || negb (bool_decide (sr_local_integrity_mac receipt
                                  = sr_local_integrity_mac expected))) ReceiptConflict
   (let? signature_hex :=
      match sr_trust receipt with
      | TCallerAsserted i a h =>
          if bool_decide (i = signer_id signer) && bool_decide (a = CALLER_ASSERTED_ALGORITHM)
          then Ok h else Err ReceiptConflict
      | TUnsignedUntrusted => Err ReceiptConflict
      end in
    let? signature := ok_or (hex_decode signature_hex) Tampered in
    fail_if (negb (str_len signature =? 64)%N) Tampered
    (let? digest := signing_assertion_digest (sr_payload_digest receipt) (signer_id signer) in
     fail_if (negb (verify signer digest signature)) ReceiptConflict (Ok receipt)))).

(** [load_existing_asserted_receipt_locked] *)
Definition load_existing_asserted_receipt_locked (s : EvidenceStore) (expected : SessionReceipt)
    (signer : EvidenceSigner) : store_io (option SessionReceipt) := on_evidence (fun d =>
  match read_private_file_bounded (receipt_name s (id_str (signer_id signer))) MAX_LOG_BYTES d with
  | (d1, Ok bytes) => (d1, map_ok Some (check_asserted_receipt expected signer bytes))
  | (d1, Err e) => (d1, if is_not_found e then Ok None else Err e)
  end).

(** [fn atomic_private_write] *)
Definition atomic_private_write (name bytes : string) : io dir_t EvidenceError unit :=
  do? _ := fun d =>
    match open_file d name false with
    | (d1, Ok _) | (d1, Err NotFound) => (d1, Ok tt)
    | (d1, Err e) => (d1, Err (storage_error e))
    end in
  fun d =>
    let '(d1, r) := replace_file d name bytes in
    (d1, map_err (fun e => if bool_decide (e = AlreadyExists) then TemporaryFileExhausted
                           else storage_error e) r).

(** [persist_receipt_locked] *)
Definition persist_receipt_locked (s : EvidenceStore) (receipt : SessionReceipt) : store_io unit :=
  let name := receipt_name s match sr_trust receipt with
                             | TUnsignedUntrusted => "unsigned"
                             | TCallerAsserted i _ _ => id_str i
                             end in
  do? bytes := io_lift (canonical receipt) in
  let persist := on_evidence (
    do? _ := atomic_private_write name bytes in
    io_query (fun d => map_err EIo (sync_dir d))) in
  match sr_trust receipt with
  | TUnsignedUntrusted => persist
  | TCallerAsserted _ _ _ => fun w =>
      match read_private_file_bounded name MAX_LOG_BYTES (evidence w) with
      | (d1, Ok existing) =>
          (mk_directories (phantom_dir w) d1,
           if String.eqb existing bytes then Ok tt else Err ReceiptConflict)
      | (d1, Err e) =>
          let w1 := mk_directories (phantom_dir w) d1 in
          if is_not_found e then persist w1 else (w1, Err e)
      end
  end.

(** A receipt with the signature of a caller's signer, checked by it *)
Definition assert_receipt (receipt : SessionReceipt) (signer : EvidenceSigner)
    : result SessionReceipt EvidenceError :=
  let? digest := signing_assertion_digest (sr_payload_digest receipt) (signer_id signer) in
  let? signature := map_err ESigner (sign signer digest) in
  fail_if (negb (verify signer digest signature)) UnverifiedSignature
  (Ok (mk_receipt (sr_payload receipt) (sr_payload_digest receipt) (sr_local_integrity_mac receipt)
         (TCallerAsserted (signer_id signer) CALLER_ASSERTED_ALGORITHM (hex_encode signature)))).

(** [EvidenceStore::receipt] *)
Definition receipt (s : EvidenceStore) (boundary : SigningBoundary) : store_io SessionReceipt :=
  do? _ := acquire_lock in
  do? key := load_existing_key_locked in
  do? records := load_records_locked s key in
  do? unsigned := io_lift (rebuild_unsigned_receipt (session_id s) key records) in
  match boundary with
  | NoVerifiedSigner =>
      do? _ := persist_receipt_locked s unsigned in io_ret unsigned
  | BCallerAsserted signer =>
      do? stored := load_existing_asserted_receipt_locked s unsigned signer in
      match stored with
      | Some existing => io_ret existing
      | None =>
          do? asserted := io_lift (assert_receipt unsigned signer) in
          do? _ := persist_receipt_locked s asserted in io_ret asserted
      end
  end.

(** [EvidenceStore::verify_local_receipt] *)
Definition verify_local_receipt (s : EvidenceStore) (r : SessionReceipt) : store_io unit :=
  do? _ := acquire_existing_read_lock in
  do? key := load_existing_key_readonly in
  do? records := load_records_readonly s key in
  do? rebuilt := io_lift (rebuild_unsigned_receipt (session_id s) key records) in
  io_fail_if (negb (bool_decide (sr_payload r = sr_payload rebuilt))
              || negb (bool_decide (sr_payload_digest r = sr_payload_digest rebuilt))
              || negb (bool_decide (sr_local_integrity_mac r = sr_local_integrity_mac rebuilt)))
    Tampered (io_ret tt).

Section host.
Context `{HP : !HostPaths}.

(** [fn ensure_existing_private_root] *)
Definition ensure_existing_private_root (path : string) : result unit EvidenceError :=
  let? (is_symlink, is_dir) := map_err (fun _ => InvalidStorageBoundary) (symlink_metadata path) in
  if is_symlink || negb is_dir then Err InvalidStorageBoundary else Ok tt.

(** [EvidenceStore::open] *)
Definition open (home_dir workspace_root : string) (session : SessionId) (random : string)
    : result (EvidenceStore * directories) EvidenceError :=
  let? _ := ensure_existing_private_root home_dir in
  let? workspace := map_err (fun _ => InvalidStorageBoundary) (canonicalize workspace_root) in
  let? phantom := map_err storage_error (ensure_dir (path_join home_dir ".phantom")) in
  let? evidence := map_err storage_error (ensure_child phantom EVIDENCE_DIR) in
  let? evidence_canonical :=
    map_err (fun _ => InvalidStorageBoundary) (canonicalize (dir_path evidence)) in
  fail_if (path_starts_with workspace evidence_canonical
           || path_starts_with evidence_canonical workspace) StorageInsideWorkspace
  (let store := mk_evidence_store (id_str session +:+ ".jsonl") session in
   let '(w, r) :=
     (do? _ := acquire_lock in load_or_create_key_locked random)
       (mk_directories phantom evidence) in
   let? _ := r in Ok (store, w)).
End host.
End store.
