(* ===== verification/EvidenceSpec.v ===== *)
(** * What the evidence store promises

    A log is one canonical text for its records, chained by MACs; appending is
    all or nothing and, with a sequence number, idempotent. *)

From S2P Require Import Prelude Ids External Canonical CanonicalUnique StateDir Evidence.
From S2P Require Import EvidenceStore EvidenceGrammar.

(** ** A record is determined by its line *)

#[export] Instance SerializeInj_denial : SerializeInj AuthorityDenial.
Proof. split; [done|done|]. intros a b H. by destruct a, b; inversion H. Qed.
#[export] Instance SerializeInj_worker : SerializeInj WorkerResult.
Proof. split; [done|done|]. intros a b H. by destruct a, b; inversion H. Qed.
#[export] Instance SerializeInj_rollback : SerializeInj RollbackResult.
Proof. split; [done|done|]. intros a b H. by destruct a, b; inversion H. Qed.
#[export] Instance SerializeInj_outcome : SerializeInj FinalOutcome.
Proof. split; [done|done|]. intros a b H. by destruct a, b; inversion H. Qed.
#[export] Instance SerializeInj_decision : SerializeInj AuthorityDecision.
Proof. split; [intros []; record_well_formed|by intros []|tagged_inj]. Qed.
#[export] Instance SerializeInj_event : SerializeInj EvidenceEvent.
Proof. split; [intros []; record_well_formed|by intros []|tagged_inj]. Qed.
#[export] Instance SerializeInj_record : SerializeInj LogRecord.
Proof. split; [intros; record_well_formed|done|record_inj]. Qed.

(** ** The log as a text *)

Section log.
Context `{X : External} `{JL : !JsonStringLaws X} `{DR : !Deserialize LogRecord}.

(** The bytes of a log: one canonical line for each record *)
Definition log_text (records : list LogRecord) (bytes : string) : Prop :=
  ∃ lines, Forall2 (fun r l => canonical_json_v1 r = Ok l) records lines ∧
           bytes = join_lines newline lines.

(** The chain of the records: each is of the session and in its place, names
    the MAC of the one before and carries its own. *)
Fixpoint chained (id : SessionId) (key : string) (index : N) (previous : Sha256Digest)
    (records : list LogRecord) : Prop :=
  match records with
  | [] => True
  | r :: rest =>
      lr_schema_version r = SCHEMA_VERSION ∧ lr_session_id r = id ∧ lr_sequence r = index ∧
      lr_previous_mac r = previous ∧
      (∃ unsigned, canonical (unsigned_record r) = Ok unsigned ∧
         verify_mac key RECORD_MAC_DOMAIN unsigned (lr_mac r) = Ok tt) ∧
      chained id key (index + 1) (lr_mac r) rest
  end.

Lemma canonical_Ok {T} `{Serialize T} (x : T) s : canonical x = Ok s ↔ canonical_json_v1 x = Ok s.
Proof. apply map_err_Ok. Qed.

Lemma decode_lines_Ok id key index prev lines records :
  decode_lines id key index prev lines = Ok records ↔
  Forall2 (fun r l => from_slice l = Some r ∧ canonical_json_v1 r = Ok l ∧ l ≠ EmptyString)
    records lines ∧
  chained id key index prev records ∧
  (records ≠ [] → (index + N.of_nat (length records) <= MAX_RECORDS)%N).
Proof.
  revert index prev records. induction lines as [|line lines IH]; intros index prev records; simpl.
  - split; [intros [= <-]; split_and!; by try constructor|].
    intros (HF & _). by apply Forall2_nil_inv_r in HF as ->.
  - rewrite !fail_if_Ok. split.
    + intros (Hmax%N.leb_gt & Hne & H).
      apply rbind_Ok in H as (r & Hr%ok_or_Ok & H). apply rbind_Ok in H as (text & Ht & H).
      apply canonical_Ok in Ht. apply fail_if_Ok in H as [Heq H].
      apply negb_false_iff, String.eqb_eq in Heq as ->. apply fail_if_Ok in H as [Hc H].
      apply orb_false_iff in Hc as [[[Hc1 Hc2]%orb_false_iff Hc3]%orb_false_iff Hc4].
      apply rbind_Ok in H as (u & Hu & H). apply rbind_Ok in H as ([] & Hv & H).
      apply rbind_Ok in H as (rest & Hrest & [= <-]).
      apply IH in Hrest as (HF & Hch & Hlen). split_bools.
      apply N.eqb_eq in Hc1, Hc3. split_and!.
      * constructor; [|done]. by split_and!; [..|intros ->].
      * simpl. split_and!; eauto.
      * intros _. simpl. destruct rest as [|r2 rest]; [simpl; lia|].
        specialize (Hlen ltac:(done)). simpl in Hlen |- *. lia.
    + intros (HF & Hch & Hlen). apply Forall2_cons_inv_r in HF as (r & rest & Hr & HF & ->).
      destruct Hr as (Hfrom & Htext & Hne).
      simpl in Hch. destruct Hch as (H1 & H2 & H3 & H4 & (u & Hu & Hv) & Hch).
      specialize (Hlen ltac:(done)). simpl in Hlen.
      split; [apply N.leb_gt; lia|]. split; [by destruct line|].
      rewrite Hfrom. simpl. rewrite (proj2 (canonical_Ok _ _) Htext). simpl.
      rewrite String.eqb_refl, H1, H3, !bool_decide_true, N.eqb_refl by done. simpl.
      rewrite Hu. simpl. rewrite Hv. simpl.
      rewrite N.eqb_refl. simpl. rewrite (proj2 (IH (index + 1)%N (lr_mac r) rest)); [done|].
      split_and!; [done|done|]. intros Hr. simpl in Hlen. lia.
Qed.

Lemma text_lines records lines :
  Forall2 (fun r l => canonical_json_v1 (T := LogRecord) r = Ok l) records lines →
  Forall (fun l => contains_char newline l = false) lines.
Proof.
  induction 1 as [|r l records lines Hr _ IH]; constructor; [|done].
  exact (write_one_line _ _ Hr).
Qed.

Lemma log_text_inj records records' bytes :
  log_text records bytes → log_text records' bytes → records = records'.
Proof.
  intros (ls & HF & Hb) (ls' & HF' & Hb'). pose proof (text_lines _ _ HF) as Hl.
  pose proof (text_lines _ _ HF') as Hl'.
  assert (ls = ls') as <-.
  { subst bytes. destruct ls as [|l ls].
    { destruct ls' as [|l' ls']; [done|]. simpl in Hb'. by destruct l'. }
    destruct ls' as [|l' ls']; [simpl in Hb'; by destruct l|].
    destruct (split_join newline (l :: ls)) as (s & Hs & Hsp); [done|done|].
    destruct (split_join newline (l' :: ls')) as (s' & Hs' & Hsp'); [done|done|].
    rewrite Hs, Hs' in Hb'. apply (f_equal (fun t => str_take (String.length t - 1) t)) in Hb'.
    rewrite !str_take_init in Hb'. congruence. }
  clear Hb Hb' Hl Hl'. revert records' HF'.
  induction HF as [|r l records ls Hr _ IH]; intros records' HF'.
  - by apply Forall2_nil_inv_r in HF' as ->.
  - apply Forall2_cons_inv_r in HF' as (r' & rest & Hr' & HF' & ->).
    rewrite (canonical_inj _ _ _ Hr Hr'). f_equal. by apply IH.
Qed.

(** the bytes accepted as a session's log are exactly the canonical lines
    of records that parse back, are chained by MACs under the key from the
    genesis on, are not too many, and replay. *)
Theorem log_decode_exact id key bytes records :
  decode_records id key bytes = Ok records ↔
  log_text records bytes ∧
  Forall (fun r => ∀ l, canonical_json_v1 r = Ok l → from_slice l = Some r) records ∧
  chained id key 0 GENESIS_MAC records ∧
  (N.of_nat (length records) <= MAX_RECORDS)%N ∧
  is_ok (replay id records) = true.
Proof.
  unfold decode_records. destruct (str_is_empty bytes) eqn:He.
  - destruct bytes; [|done]. split.
    + intros [= <-]. split_and!; [by exists []|constructor|done|done|done].
    + intros (Ht & _). f_equal. symmetry. eapply log_text_inj; [done|]. by exists [].
  - split.
    + rewrite fail_if_Ok. intros [Hend%negb_false_iff H].
      apply rbind_Ok in H as (rs & Hd & H). apply rbind_Ok in H as (st & Hst & [= <-]).
      apply decode_lines_Ok in Hd as (HF & Hch & Hlen). split_and!.
      * exists (split_char newline (str_take (String.length bytes - 1) bytes)). split.
        -- eapply Forall2_impl; [exact HF|]. naive_solver.
        -- rewrite join_split. by apply ends_with_inv.
      * apply Forall_forall. intros r Hr l Hl. apply list_elem_of_lookup in Hr as [i Hi].
        destruct (Forall2_lookup_l _ _ _ _ _ HF Hi) as (l' & _ & Hf & Hl' & _). congruence.
      * done.
      * destruct rs as [|r rs]; [done|]. by apply Hlen.
      * by rewrite Hst.
    + intros ((ls & HF & Hb) & Hback & Hch & Hlen & Hst).
      pose proof (text_lines _ _ HF) as Hl.
      assert (ls ≠ []) as Hne by (intros ->; by subst bytes).
      destruct (split_join newline ls Hne Hl) as (s & Hs & Hsp).
      rewrite Hb, Hs. unfold ends_with_char. rewrite last_byte_app, ascii_eqb_refl. simpl.
      rewrite str_take_init, Hsp.
      rewrite (proj2 (decode_lines_Ok id key 0 GENESIS_MAC ls records)).
      * simpl. destruct (replay id records); [done|discriminate Hst].
      * split_and!; [|done|intros _; lia]. clear -HF Hback JL.
        induction HF as [|r l records ls Hr _ IH]; constructor; apply Forall_cons in Hback as [Hr' Hb].
        -- split_and!; [by apply Hr'|done|]. intros ->.
           destruct (write_head (to_value r) EmptyString) as (c & t & ? & _); try done.
           apply serialize_well_formed.
        -- by apply IH.
Qed.
End log.

(** ** The log file and the operations *)

Section store_spec.
Context `{X : External} `{JL : !JsonStringLaws X} `{DR : !Deserialize LogRecord}
  `{S : StateDir} `{SL : !StateDirLaws S}.

Definition log_file (s : EvidenceStore) (w : directories) : option string :=
  file_contents (evidence w) (log_name s).

Definition same_log (s : EvidenceStore) (w w' : directories) : Prop :=
  log_file s w' = log_file s w.

(** The log holds these records: no file yet, or their text *)
Definition holds_log (s : EvidenceStore) (w : directories) (records : list LogRecord) : Prop :=
  match log_file s w with Some b => log_text records b | None => records = [] end.

Lemma on_phantom_same {T} s (m : io dir_t EvidenceError T) w w' r :
  on_phantom m w = (w', r) → same_log s w w'.
Proof. unfold on_phantom. destruct (m (phantom_dir w)) as [d x]. by intros [= <- <-]. Qed.

Lemma open_private_spec name create d d' r :
  open_private name create d = (d', r) →
  (create = false → ∀ n, file_contents d' n = file_contents d n) ∧
  (r = Err (EIo NotFound) → file_contents d name = None).
Proof.
  unfold open_private. destruct (open_file d name create) as [d1 r1] eqn:Ho.
  intros [= <- <-]. split.
  - intros -> n. eapply open_file_same; [exact Ho|auto].
  - destruct r1 as [|e]; simpl; [done|]. unfold storage_error. case_bool_decide; [done|].
    intros [= ->]. by eapply open_file_missing.
Qed.

Lemma read_private_spec name max d d' r :
  (max < u64_max)%N → read_private_file_bounded name max d = (d', r) →
  (∀ n, file_contents d' n = file_contents d n) ∧
  (∀ b, r = Ok b → file_contents d name = Some b) ∧
  (r = Err (EIo NotFound) → file_contents d name = None).
Proof.
  intros Hmax H. unfold read_private_file_bounded in H.
  apply io_bind_inv in H as [(d1 & u & Ho & H)|(e & Ho & ->)];
    apply open_private_spec in Ho as [Hs Hn]; specialize (Hs eq_refl).
  - injection H as <- <-. split; [done|]. unfold read_bounded. split.
    + intros b H. apply rbind_Ok in H as (len & _ & H). apply fail_if_Ok in H as [_ H].
      apply rbind_Ok in H as (b' & Hb%map_err_Ok & H). apply fail_if_Ok in H as [Hlen%N.ltb_ge [= ->]].
      apply read_take_contents in Hb as (c & Hc & ->). rewrite N.min_l in Hlen |- * by lia.
      rewrite (str_take_whole max) by (done || lia). by rewrite <- Hs.
    + rewrite <- Hs. intros [H|(len & _ & [[_ [=]]|[_ [H|(b & _ & [[_ [=]]|[_ [=]]]%fail_if_Err)]%rbind_Err]]%fail_if_Err)]%rbind_Err.
      * destruct (file_len d1 name) eqn:E; [done|]. injection H as ->. by apply file_len_missing.
      * destruct (read_take d1 name _) eqn:E; [done|]. injection H as ->. by eapply read_take_missing.
  - split; [done|]. split; [done|]. intros [= ->]. by apply Hn.
Qed.

Lemma is_not_found_true e : is_not_found e = true → e = EIo NotFound.
Proof. by destruct e as [| | | | | | | | | | | | | | | | | | | | | | | | | | |[]]. Qed.

(** A log that loads is the one that was written. *)
Lemma load_log s key w w' rs records :
  load_records_locked s key w = (w', Ok rs) → holds_log s w records →
  rs = records ∧ is_ok (replay (session_id s) records) = true.
Proof.
  unfold load_records_locked, on_evidence, holds_log, log_file. intros H Hh.
  destruct (read_private_file_bounded _ _ _) as [d1 [b|e]] eqn:Hr;
    apply read_private_spec in Hr as (Hs & Hok & Hnf); try reflexivity; injection H as <- H.
  - rewrite (Hok _ eq_refl) in Hh. apply log_decode_exact in H as (Ht & _ & _ & _ & Hrep).
    rewrite (log_text_inj _ _ _ Ht Hh) in *. done.
  - destruct (is_not_found e) eqn:He; [|done]. injection H as <-.
    apply is_not_found_true in He as ->. rewrite Hnf in Hh by done. by subst.
Qed.

Lemma load_log_same s key w w' r :
  load_records_locked s key w = (w', r) → same_log s w w'.
Proof.
  unfold load_records_locked, on_evidence, same_log, log_file. intros H.
  destruct (read_private_file_bounded _ _ _) as [d1 [b|e]] eqn:Hr;
    apply read_private_spec in Hr as (Hs & _); try reflexivity; injection H as <- _; apply Hs.
Qed.

Definition log_or_empty (s : EvidenceStore) (w : directories) : string :=
  default EmptyString (log_file s w).

Lemma open_log_spec n d d' r :
  open_log n d = (d', r) →
  (∀ b, r = Ok b → file_contents d' n = Some (default EmptyString (file_contents d n))) ∧
  (file_contents d' n = file_contents d n ∨
   file_contents d' n = Some (default EmptyString (file_contents d n))).
Proof.
  unfold open_log. destruct (open_file d n false) as [d1 r1] eqn:Ho1. intros H.
  pose proof (open_file_same _ _ _ _ _ n Ho1 (or_intror eq_refl)) as Hs1.
  assert (∀ e, (d1, Err e) = (d', r) →
    (∀ b, r = Ok b → file_contents d' n = Some (default EmptyString (file_contents d n))) ∧
    (file_contents d' n = file_contents d n ∨
     file_contents d' n = Some (default EmptyString (file_contents d n)))) as Hfail.
  { intros e [= <- <-]. split; [done|by left]. }
  destruct r1 as [[]|[]]; try (by eapply Hfail).
  - injection H as <- <-. destruct (open_file_ok _ _ _ _ Ho1) as [c Hc].
    rewrite <- Hs1, Hc. simpl. auto.
  - pose proof (open_file_missing _ _ _ _ Ho1) as Hm. rewrite <- Hs1 in Hm |- *. clear Hs1.
    destruct (open_file d1 n true) as [d2 r2] eqn:Ho2. injection H as <- <-.
    rewrite Hm. simpl. pose proof (open_file_new _ _ _ _ Ho2 Hm) as Hn. split; [|done].
    intros b Hb. destruct r2 as [[]|]; [|done].
    destruct (open_file_ok _ _ _ _ Ho2) as [c Hc]. destruct Hn; congruence.
Qed.

(** Appending a line: it is there, or a beginning of it is, or none of it. *)
Lemma append_line_spec s line w w' r :
  append_line_locked s line w = (w', r) →
  (r = Ok tt → log_file s w' = Some (log_or_empty s w +:+ line)) ∧
  (same_log s w w' ∨ ∃ k, log_file s w' = Some (log_or_empty s w +:+ str_take k line)).
Proof.
  unfold append_line_locked, on_evidence, same_log, log_or_empty, log_file.
  destruct (io_bind _ _ (evidence w)) as [d1 r1] eqn:H. intros [= <- <-]. simpl.
  set (n := log_name s) in *. set (d := evidence w) in *.
  assert (∀ x, x +:+ str_take 0 line = x) as Hzero by (intros x; simpl; apply str_app_nil_r).
  apply io_bind_inv in H as [(d2 & created & Ho & H)|(e & Ho & ->)];
    apply open_log_spec in Ho as [Hok Hor].
  - specialize (Hok _ eq_refl). set (c := default EmptyString (file_contents d n)) in *.
    assert (file_contents d1 n = file_contents d2 n → r1 ≠ Ok tt →
      (r1 = Ok tt → file_contents d1 n = Some (c +:+ line)) ∧
      (file_contents d1 n = file_contents d n ∨
       ∃ k, file_contents d1 n = Some (c +:+ str_take k line))) as Hfail.
    { intros Hx Hr. split; [done|]. right. exists 0%nat. by rewrite Hx, Hok, Hzero. }
    apply io_bind_inv in H as [(d3 & m & Hm & H)|(e & Hm & ->)]; injection Hm as <- Hm;
      [|by apply Hfail].
    unfold io_fail_if in H. destruct (negb (me_is_file m)); [injection H as <- <-; by apply Hfail|].
    apply io_bind_inv in H as [(d3 & len & Hl & H)|(e & Hl & ->)]; injection Hl as <- Hl;
      [|by apply Hfail].
    apply io_bind_inv in H as [(d3 & nl & Hnl & H)|(e & Hnl & ->)]; injection Hnl as <- Hnl;
      [|by apply Hfail].
    destruct (MAX_LOG_BYTES <? nl)%N; [injection H as <- <-; by apply Hfail|].
    apply io_bind_inv in H as [(d3 & u & Ha & H)|(e & Ha & ->)];
      destruct (append_file d2 n line) as [d4 [[]|k]] eqn:Hap; try discriminate Ha;
      injection Ha as <- Ha.
    + injection H as <- Hsync. apply append_file_ok in Hap as (c' & Hc' & Hd4).
      rewrite Hok in Hc'. injection Hc' as <-. split; [done|]. right.
      exists (String.length line). by rewrite Hd4, str_take_all.
    + split; [done|]. right. apply append_file_err in Hap as [Hd4|(c' & k' & Hc' & Hd4)].
      * exists 0%nat. by rewrite Hd4, Hok, Hzero.
      * rewrite Hok in Hc'. injection Hc' as <-. by exists k'.
  - split; [done|]. destruct Hor as [Hor|Hor]; [by left|]. right. exists 0%nat. by rewrite Hor, Hzero.
Qed.

(** ** One more record *)

Lemma log_text_snoc records r b line :
  log_text records b → canonical_json_v1 r = Ok line →
  log_text (records ++ [r]) (b +:+ line +:+ String newline EmptyString).
Proof.
  intros (ls & HF & ->) Hl. exists (ls ++ [line]). split.
  - apply Forall2_app; [done|]. by repeat constructor.
  - rewrite join_lines_app. done.
Qed.

(** A beginning of a line is no line. *)
Lemma torn_line line k :
  one_line line → str_take k (line +:+ String newline EmptyString) = EmptyString ∨
  str_take k (line +:+ String newline EmptyString) = line +:+ String newline EmptyString ∨
  ∃ t c, str_take k (line +:+ String newline EmptyString) = t +:+ String c EmptyString ∧ c ≠ newline.
Proof.
  revert k. induction line as [|a line IH]; intros [|k] Hl; try (by left); simpl.
  - right. left. by destruct k.
  - unfold one_line in Hl. simpl in Hl. apply orb_false_iff in Hl as [Ha Hl].
    right. destruct (IH k Hl) as [->|[->|(t & c & -> & Hc)]].
    + right. exists EmptyString, a. split; [done|]. intros ->. by rewrite ascii_eqb_refl in Ha.
    + by left.
    + right. by exists (String a t), c.
Qed.

Lemma decode_torn id key records r b line k rs :
  log_text records b → canonical_json_v1 r = Ok line →
  decode_records id key (b +:+ str_take k (line +:+ String newline EmptyString)) = Ok rs →
  rs = records ∨ rs = records ++ [r].
Proof.
  intros Hb Hl Hd. pose proof (write_one_line _ _ Hl) as H1.
  destruct (torn_line line k H1) as [He|[He|(t & c & He & Hc)]]; rewrite He in Hd.
  - rewrite str_app_nil_r in Hd. apply log_decode_exact in Hd as (Ht & _).
    left. by eapply log_text_inj.
  - apply log_decode_exact in Hd as (Ht & _). right.
    eapply log_text_inj; [exact Ht|]. by apply log_text_snoc.
  - exfalso. unfold decode_records in Hd. rewrite <- str_app_assoc in Hd.
    destruct (str_is_empty _) eqn:Hem; [by destruct b, t|].
    unfold ends_with_char in Hd. rewrite last_byte_app in Hd.
    destruct (ascii_eqb newline c) eqn:E; [|done]. apply ascii_eqb_eq in E. congruence.
Qed.

Lemma new_record_Ok id key records e t r :
  new_record id key records e t = Ok r →
  lr_event r = e ∧ lr_sequence r = N.of_nat (length records) ∧
  lr_observed_at_unix_ms r = t ∧
  ∃ st, replay id records = Ok st ∧ validate_next st e t = Ok tt.
Proof.
  unfold new_record. intros H. apply rbind_Ok in H as (st & Hst & H).
  apply rbind_Ok in H as ([] & Hv & H). apply fail_if_Ok in H as [_ H].
  apply rbind_Ok in H as (? & _ & H). apply rbind_Ok in H as (? & _ & H).
  apply rbind_Ok in H as (m & _ & [= <-]). split_and!; eauto.
Qed.

(** What is readable of the log after an append, whatever failed *)
Definition may_read (s : EvidenceStore) (w : directories) (P : list LogRecord → Prop) : Prop :=
  ∀ w1 key w2 rs, same_log s w w1 → load_records_locked s key w1 = (w2, Ok rs) → P rs.

Lemma may_read_holds s w records : holds_log s w records → may_read s w (eq records).
Proof.
  intros Hh w1 key w2 rs Hs Hl. symmetry.
  eapply (load_log s key w1 w2 rs records Hl). unfold holds_log, same_log in *. by rewrite Hs.
Qed.

Lemma append_new_spec s key records e t w w' r :
  holds_log s w records → append_new_locked s key records e t w = (w', r) →
  (∀ n d x, r = Ok (n, d, x) →
     ∃ rec, new_record (session_id s) key records e t = Ok rec ∧ n = lr_sequence rec ∧
       event_digest e = Ok d ∧ append_witness (session_id s) n (lr_mac rec) = Ok x ∧
       holds_log s w' (records ++ [rec])) ∧
  may_read s w' (fun rs => rs = records ∨
    ∃ rec, new_record (session_id s) key records e t = Ok rec ∧ rs = records ++ [rec]).
Proof.
  intros Hh H. unfold append_new_locked in H.
  assert (∀ e', (w, Err e') = (w', r) →
    (∀ n d x, r = Ok (n, d, x) → False) ∧ may_read s w' (eq records)) as Hfail.
  { intros e' [= <- <-]. split; [done|]. by apply may_read_holds. }
  assert ((∀ n d x, r = Ok (n, d, x) → False) ∧ may_read s w' (eq records) →
    (∀ n d x, r = Ok (n, d, x) →
     ∃ rec, new_record (session_id s) key records e t = Ok rec ∧ n = lr_sequence rec ∧
       event_digest e = Ok d ∧ append_witness (session_id s) n (lr_mac rec) = Ok x ∧
       holds_log s w' (records ++ [rec])) ∧
    may_read s w' (fun rs => rs = records ∨
      ∃ rec, new_record (session_id s) key records e t = Ok rec ∧ rs = records ++ [rec])) as Hweak.
  { intros [H1 H2]. split; [intros n d x Hr; by destruct (H1 n d x)|].
    intros w1 key1 w2 rs Hs Hl. left. symmetry. by eapply H2. }
  apply io_bind_inv in H as [(w1 & rec & Hrec & H)|(e' & Hrec & ->)]; injection Hrec as <- Hrec;
    [|by eapply Hweak, Hfail].
  apply io_bind_inv in H as [(w1 & d & Hd & H)|(e' & Hd & ->)]; apply io_lift_inv in Hd as [-> Hd];
    [|by eapply Hweak, Hfail].
  apply io_bind_inv in H as [(w1 & x & Hx & H)|(e' & Hx & ->)]; apply io_lift_inv in Hx as [-> Hx];
    [|by eapply Hweak, Hfail].
  apply io_bind_inv in H as [(w1 & line & Hl & H)|(e' & Hl & ->)]; injection Hl as <- Hl;
    [|by eapply Hweak, Hfail].
  apply canonical_Ok in Hl.
  assert (log_text records (log_or_empty s w)) as Htext.
  { unfold holds_log, log_or_empty in *. destruct (log_file s w); [done|]. subst. by exists []. }
  apply io_bind_inv in H as [(w1 & u & Ha & H)|(e' & Ha & ->)];
    apply append_line_spec in Ha as [Hok Hor].
  - injection H as <- <-. destruct u.
    assert (holds_log s w1 (records ++ [rec])) as Hnew.
    { unfold holds_log. rewrite (Hok eq_refl). by apply log_text_snoc. }
    split.
    + intros n d' x' [= <- <- <-]. exists rec. exact (conj Hrec (conj eq_refl (conj Hd (conj Hx Hnew)))).
    + intros w2 key2 w3 rs Hs Hld. right. exists rec. split; [done|].
      symmetry. by eapply (may_read_holds _ _ _ Hnew).
  - split; [done|]. intros w2 key2 w3 rs Hs Hld. unfold same_log in *.
    destruct Hor as [Hor|[k Hk]].
    + left. symmetry. eapply (may_read_holds _ _ _ Hh); [|exact Hld]. unfold same_log. congruence.
    + unfold load_records_locked, on_evidence in Hld.
      destruct (read_private_file_bounded _ _ _) as [d1 [b|e1]] eqn:Hr;
        apply read_private_spec in Hr as (_ & Hb & Hnf); try reflexivity; injection Hld as _ Hld.
      * specialize (Hb _ eq_refl). unfold log_file in Hs, Hk. rewrite Hs, Hk in Hb.
        injection Hb as <-. apply (decode_torn _ _ records rec) in Hld as [->| ->]; eauto.
      * destruct (is_not_found e1) eqn:He; [|done]. apply is_not_found_true in He as ->.
        unfold log_file in Hs, Hk. rewrite Hnf in Hs by done. congruence.
Qed.

(** Past the lock, the key and the load of an operation on the log *)
Lemma with_records {T} s (k : string → list LogRecord → io directories EvidenceError T) w w' r
    records :
  holds_log s w records →
  (do? _ := acquire_lock in
   do? key := load_existing_key_locked in
   do? rs := load_records_locked s key in k key rs) w = (w', r) →
  (same_log s w w' ∧ ∃ e, r = Err e) ∨
  ∃ w1 key, same_log s w w1 ∧ k key records w1 = (w', r) ∧
    is_ok (replay (session_id s) records) = true.
Proof.
  intros Hh H. apply io_bind_inv in H as [(w1 & u & Hl & H)|(e & Hl & ->)];
    apply (on_phantom_same s) in Hl; [|left; eauto].
  apply io_bind_inv in H as [(w2 & key & Hk & H)|(e & Hk & ->)];
    apply (on_phantom_same s) in Hk; unfold same_log in *; [|left; split; [congruence|eauto]].
  apply io_bind_inv in H as [(w3 & rs & Hr & H)|(e & Hr & ->)].
  - pose proof (load_log_same _ _ _ _ _ Hr) as Hs. unfold same_log in Hs.
    apply load_log with (records := records) in Hr as [-> Hrep];
      [|unfold holds_log; by rewrite Hk, Hl].
    right. exists w3, key. split_and!; [congruence|done|done].
  - apply load_log_same in Hr. unfold same_log in Hr. left. split; [congruence|eauto].
Qed.

Lemma holds_same_log s w w' records :
  same_log s w w' → holds_log s w records → holds_log s w' records.
Proof. unfold same_log, holds_log. by intros ->. Qed.

(** C35: appending is all or nothing, also across a crash or a failing write:
    an append that succeeds leaves the log with exactly one more record, of
    that event and in its place; one that fails leaves a log that, if it can
    be read at all, has the old records or those and the new one. *)
Theorem append_atomic s now e w w' r records :
  holds_log s w records → append s now e w = (w', r) →
  (∀ n, r = Ok n → n = N.of_nat (length records) ∧
     ∃ rec, lr_event rec = e ∧ lr_sequence rec = n ∧ holds_log s w' (records ++ [rec])) ∧
  may_read s w' (fun rs => rs = records ∨ ∃ rec, lr_event rec = e ∧ rs = records ++ [rec]).
Proof.
  intros Hh H. unfold append in H.
  assert (∀ w1, same_log s w w1 → may_read s w1
    (fun rs => rs = records ∨ ∃ rec, lr_event rec = e ∧ rs = records ++ [rec])) as Hsame.
  { intros w1 Hs w2 key w3 rs Hs2 Hl. left. symmetry. eapply (may_read_holds _ _ _ Hh); [|exact Hl].
    unfold same_log in *. congruence. }
  apply io_bind_inv in H as [(w1 & u & Hl & H)|(e0 & Hl & ->)];
    apply (on_phantom_same s) in Hl; [|split; [done|by apply Hsame]].
  apply io_bind_inv in H as [(w2 & t & Ht & H)|(e0 & Ht & ->)]; apply io_lift_inv in Ht as [-> _];
    [|split; [done|by apply Hsame]].
  apply io_bind_inv in H as [(w2 & key & Hk & H)|(e0 & Hk & ->)];
    apply (on_phantom_same s) in Hk; unfold same_log in *;
    [|split; [done|apply Hsame; congruence]].
  apply io_bind_inv in H as [(w3 & rs & Hr & H)|(e0 & Hr & ->)];
    pose proof (load_log_same _ _ _ _ _ Hr) as Hs; unfold same_log in Hs;
    [|split; [done|apply Hsame; congruence]].
  apply load_log with (records := records) in Hr as [-> _];
    [|unfold holds_log; by rewrite Hk, Hl].
  assert (holds_log s w3 records) as Hh3 by (unfold holds_log in *; by rewrite Hs, Hk, Hl).
  assert (∀ r0, append_new_locked s key records e t w3 = (w', r0) → may_read s w'
    (fun rs => rs = records ∨ ∃ rec, lr_event rec = e ∧ rs = records ++ [rec])) as Hread.
  { intros r0 Ha w4 key4 w5 rs Hs4 Hl4. apply append_new_spec in Ha as [_ Hm]; [|done].
    destruct (Hm w4 key4 w5 rs Hs4 Hl4) as [|(rec & Hrec%new_record_Ok & ->)]; [by left|].
    right. exists rec. by destruct Hrec. }
  apply io_bind_inv in H as [(w4 & [[n d] x] & Ha & H)|(e0 & Ha & ->)].
  - injection H as <- <-. split; [|by eapply Hread].
    apply append_new_spec in Ha as [Hok _]; [|done].
    destruct (Hok _ _ _ eq_refl) as (rec & Hrec & -> & _ & _ & Hnew).
    apply new_record_Ok in Hrec as (He & Hseq & _).
    intros n [= <-]. split; [done|]. by exists rec.
  - split; [done|by eapply Hread].
Qed.

(** [append_once] takes effect at most once at a sequence number: after
    it reported the record as new, a call for the same number can only
    succeed for the same event, and then reports it as existing with the same
    digest and the same witness. *)
Theorem append_once_idempotent s now n e w w' n' d x records :
  holds_log s w records → append_once s now n e w = (w', Ok (AppendNew n' d x)) →
  n' = n ∧ n = N.of_nat (length records) ∧
  ∀ now2 e2 w2 w3 y, same_log s w' w2 → append_once s now2 n e2 w2 = (w3, Ok y) →
    e2 = e ∧ y = AppendExisting n d x.
Proof.
  intros Hh H. unfold append_once in H.
  apply (with_records s (fun key records => _)) with (records := records) in H; [|done].
  destruct H as [(_ & ? & ?)|(w1 & key & Hs & H & _)]; [done|].
  apply io_bind_Ok in H as (w2 & d0 & Hd & H). apply io_lift_inv in Hd as [-> Hd].
  destruct (records !! N.to_nat n) as [r0|] eqn:Hlook.
  { apply io_bind_Ok in H as (w2 & ? & _ & H). unfold io_fail_if in H. destruct (_ || _); [done|].
    by apply io_bind_Ok in H as (w4 & ? & _ & H). }
  unfold io_fail_if in H. destruct (N.eqb_spec n (N.of_nat (length records))) as [Hn|]; [|done].
  cbn [negb] in H. apply io_bind_Ok in H as (w2 & t & Ht & H). apply io_lift_inv in Ht as [-> _].
  apply io_bind_Ok in H as (w2 & [[n1 d1] x1] & Ha & H). injection H as <- <- <- <-.
  apply append_new_spec in Ha as [Hok _]; [|by eapply holds_same_log].
  destruct (Hok _ _ _ eq_refl) as (rec & Hrec & Hn1 & Hd1 & Hx & Hnew).
  apply new_record_Ok in Hrec as (He & Hseq & _). rewrite Hd in Hd1. injection Hd1 as <-.
  assert (n1 = n) as -> by congruence. split_and!; [done|done|].
  intros now2 e2 w3 w4 y Hs2 H2. unfold append_once in H2.
  apply (with_records s (fun key records => _)) with (records := records ++ [rec]) in H2;
    [|by eapply holds_same_log].
  destruct H2 as [(_ & ? & ?)|(w5 & key2 & _ & H2 & _)]; [done|].
  apply io_bind_Ok in H2 as (w6 & d2 & Hd2 & H2). apply io_lift_inv in Hd2 as [-> Hd2].
  rewrite lookup_app_r in H2 by lia.
  replace (N.to_nat n - length records)%nat with 0%nat in H2 by lia. cbn [lookup list_lookup] in H2.
  apply io_bind_Ok in H2 as (w6 & d3 & Hd3 & H2). apply io_lift_inv in Hd3 as [-> Hd3].
  unfold io_fail_if in H2. destruct (_ || _) eqn:E; [done|]. apply orb_false_iff in E as [E1 E2].
  apply negb_false_iff, bool_decide_eq_true in E1, E2.
  apply io_bind_Ok in H2 as (w6 & x2 & Hx2 & H2). apply io_lift_inv in Hx2 as [-> Hx2].
  injection H2 as _ <-. split; [congruence|]. f_equal; congruence.
Qed.

(** C40: a finding: [append] checks an event with [validate_next] only, which
    does not look at the totals.  An aggregate that takes a total past [u64]
    is recorded with success, and from then on no operation can read the log:
    every load fails when it replays that record. *)
Theorem append_overflow_bricks s now l a f d q p w w' n records st :
  holds_log s w records → replay (session_id s) records = Ok st →
  ¬ in_range (plus_totals (es_proxy_use (summary st)) (mk_totals 1 a f d q p)) →
  append s now (ProxyUseAggregate l a f d q p) w = (w', Ok n) →
  ∀ w1 key w2 rs, same_log s w' w1 → load_records_locked s key w1 ≠ (w2, Ok rs).
Proof.
  intros Hh Hst Hbig H w1 key w2 rs Hs Hl.
  assert (∃ rec t, holds_log s w' (records ++ [rec]) ∧
    timed_event rec = (ProxyUseAggregate l a f d q p, t)) as (rec & t & Hnew & Hev).
  { unfold append in H. apply io_bind_Ok in H as (w3 & u & Hlk & H).
    apply (on_phantom_same s) in Hlk. apply io_bind_Ok in H as (w4 & t & Ht & H).
    apply io_lift_inv in Ht as [-> _]. apply io_bind_Ok in H as (w4 & k & Hk & H).
    apply (on_phantom_same s) in Hk. apply io_bind_Ok in H as (w5 & rs0 & Hr & H).
    pose proof (load_log_same _ _ _ _ _ Hr) as Hs5. unfold same_log in *.
    apply load_log with (records := records) in Hr as [-> _];
      [|unfold holds_log; by rewrite Hk, Hlk].
    apply io_bind_Ok in H as (w6 & [[n0 d0] x0] & Ha & H). injection H as <- _.
    apply append_new_spec in Ha as [Hok _];
      [|unfold holds_log in *; by rewrite Hs5, Hk, Hlk].
    destruct (Hok _ _ _ eq_refl) as (rec & Hrec & _ & _ & _ & Hnew).
    apply new_record_Ok in Hrec as (He & _ & Ht & _). exists rec, t. split; [done|].
    unfold timed_event. by rewrite He, Ht. }
  destruct (load_log _ _ _ _ _ _ Hl (holds_same_log _ _ _ _ Hs Hnew)) as [_ Hrep].
  destruct (replay (session_id s) (records ++ [rec])) as [st'|] eqn:E; [|done].
  unfold replay in E, Hst. apply replay_from_Ok in E as [_ E], Hst as [_ Hst].
  rewrite map_app in E. apply replay_events_app in E as (st1 & Hst1 & E).
  rewrite Hst in Hst1. injection Hst1 as <-. cbn [map] in E. rewrite Hev in E.
  cbn [replay_events] in E.
  apply rbind_Ok in E as (s2 & Ha & _). apply apply_event_Ok in Ha as (_ & _ & _ & Ha).
  cbn [record_event] in Ha. apply rbind_Ok in Ha as (tot & Ht & _).
  by apply add_totals_Ok in Ht as [_ Ht].
Qed.
End store_spec.

(** ** A concrete log for the witnesses

    A granted session with one aggregate that fills a total. *)

#[local] Existing Instance known_documents_external.
#[local] Existing Instance known_documents_laws.

Definition record_text (r : LogRecord) : string :=
  match canonical_json_v1 r with Ok b => b | Err _ => EmptyString end.

#[local] Instance known_records : Deserialize LogRecord :=
  known_documents record_text
    (record_all granted_records [overflowing_use] ++ record_all granted_records [worker_done]).

Definition log_bytes (records : list LogRecord) : string :=
  join_lines newline (map record_text records).

Definition log_store : EvidenceStore :=
  mk_evidence_store (id_str log_session +:+ ".jsonl") log_session.

Definition log_directories (records : list LogRecord) : directories (S := memory_state_dir) :=
  mk_directories (S := memory_state_dir)
    (set_file (mk_dir (fun _ => None) []) KEY_FILE (demo_hex_encode log_key))
    (set_file (mk_dir (fun _ => None) []) (log_name log_store) (log_bytes records)).

Lemma known_holds records :
  forallb (fun r => is_ok (canonical_json_v1 (T := LogRecord) r)) records = true →
  holds_log log_store (log_directories records) records.
Proof.
  intros Hall.
  assert (Forall (fun r => canonical_json_v1 r = Ok (record_text r)) records) as Hr.
  { apply Forall_forall. intros r Hr%list_elem_of_In. rewrite forallb_forall in Hall.
    specialize (Hall r Hr). unfold record_text. by destruct (canonical_json_v1 r). }
  unfold holds_log.
  assert (log_file log_store (log_directories records) = Some (log_bytes records)) as ->
    by apply set_file_same.
  exists (map record_text records). split; [|done].
  clear Hall. induction Hr as [|r rs Hr _ IH]; [constructor|]. by apply Forall2_cons_2.
Qed.

Lemma granted_holds : holds_log log_store (log_directories granted_records) granted_records.
Proof. apply known_holds. vm_compute. reflexivity. Qed.

(** The store accepts the overflowing aggregate and can then not be read. *)
Example overflow_run :
  let '(w1, r1) := append log_store 1000 overflowing_use (log_directories granted_records) in
  r1 = Ok 4%N ∧ (event_count log_store w1).2 = Err AggregateOverflow ∧
  (append log_store 1000 worker_done w1).2 = Err AggregateOverflow.
Proof. vm_compute. split_and!; reflexivity. Qed.

Lemma append_atomic_witness :
  ∃ rec, lr_event rec = worker_done ∧
    holds_log log_store (append log_store 1000 worker_done (log_directories granted_records)).1
      (granted_records ++ [rec]).
Proof.
  destruct (append_atomic log_store 1000 worker_done (log_directories granted_records)
    (append log_store 1000 worker_done (log_directories granted_records)).1
    (append log_store 1000 worker_done (log_directories granted_records)).2
    granted_records granted_holds (surjective_pairing _)) as [Hok _].
  destruct (Hok 4%N ltac:(vm_compute; reflexivity)) as (_ & rec & He & _ & Hh).
  exists rec. split; [exact He|exact Hh].
Defined.

(** What [append_once] reported for the worker's completion *)
Definition reported : Sha256Digest * Sha256Digest :=
  match (append_once log_store 1000 4 worker_done (log_directories granted_records)).2 with
  | Ok (AppendNew _ d x) => (d, x)
  | _ => (log_digest, log_digest)
  end.

Lemma append_once_idempotent_witness :
  ∃ w y, append_once log_store 1000 4 worker_done
           (append_once log_store 1000 4 worker_done (log_directories granted_records)).1
         = (w, Ok y) ∧ y = AppendExisting 4 reported.1 reported.2.
Proof.
  exists (append_once log_store 1000 4 worker_done
    (append_once log_store 1000 4 worker_done (log_directories granted_records)).1).1,
    (AppendExisting 4 reported.1 reported.2).
  split; [vm_compute; reflexivity|].
  refine (proj2 (proj2 (proj2 (append_once_idempotent log_store 1000 4 worker_done
    (log_directories granted_records)
    (append_once log_store 1000 4 worker_done (log_directories granted_records)).1
    4 reported.1 reported.2 granted_records granted_holds _)) 1000%Z worker_done _ _ _ eq_refl _));
    vm_compute; reflexivity.
Defined.

Definition granted_state : ReplayState :=
  match replay log_session granted_records with Ok st => st | Err _ => default_replay end.

Lemma append_overflow_bricks_witness :
  (load_records_locked log_store log_key
     (append log_store 1000 overflowing_use (log_directories granted_records)).1).2
  ≠ Ok granted_records.
Proof.
  intros H.
  refine (append_overflow_bricks log_store 1000 log_lease 1 1 0 1 0
    (log_directories granted_records)
    (append log_store 1000 overflowing_use (log_directories granted_records)).1 4
    granted_records granted_state granted_holds _ _ _
    (append log_store 1000 overflowing_use (log_directories granted_records)).1 log_key
    (load_records_locked log_store log_key
      (append log_store 1000 overflowing_use (log_directories granted_records)).1).1
    granted_records eq_refl _).
  - vm_compute. reflexivity.
  - intros (_ & _ & _ & _ & Hq & _). revert Hq. vm_compute. by intros [].
  - vm_compute. reflexivity.
  - rewrite <- H. apply surjective_pairing.
Defined.
