(* ===== verification/RateLimiter.v ===== *)
(** * The proxy's rate limiter: [crates/phantom-proxy/src/rate_limiter.rs]

    Sliding windows of request times for every secret and for all of them, and
    the decision made from their counts.  An [Instant] and a [Duration] are
    counted in nanoseconds.  [std::time::Instant::now] is read while the
    limiter's mutex is held, so the clock of a history of calls never runs
    backwards: that is the hypothesis [clock_forward] of the theorems.  Products
    that the code does not check wrap around, as in a release build. *)

From S2P Require Import Prelude.

Definition Instant : Type := N.
Definition Duration : Type := N.

(** [Duration::from_secs] *)
Definition from_secs (n : N) : Duration := (n * 1000000000)%N.

(** ** Data *)

Inductive AnomalyClass := Normal | Caution | Alert.

#[export] Instance AnomalyClass_eq_dec : EqDecision AnomalyClass.
Proof. solve_decision. Defined.

(** [AnomalyClass::score], [AnomalyClass::as_str] *)
Definition score (c : AnomalyClass) : N :=
  match c with Normal => 0 | Caution => 1 | Alert => 2 end.

Definition as_str (c : AnomalyClass) : string :=
  match c with Normal => "normal" | Caution => "caution" | Alert => "alert" end.

Record RateDecision := mk_decision {
  rd_class : AnomalyClass;
  rd_per_secret_10s : N;
  rd_total_10s : N;
  rd_per_secret_60s : N;
  rd_anomaly_score : N;
}.

Definition DEFAULT_BURST_TOTAL_10S : N := 100.

Record RateLimitConfig := mk_config { per_secret_rps : N; burst_total_10s : N }.

(** [RateLimitConfig::default] *)
Definition default_config : RateLimitConfig := mk_config 5 DEFAULT_BURST_TOTAL_10S.

(** [str::parse::<u64>]: an optional plus sign, then digits that do not overflow *)
Definition parse_u64 (s : string) : option N :=
  let digits := match s with String "+" s' => s' | _ => s end in
  if negb (str_is_empty digits) && all_bytes is_ascii_digit digits
     && (dec_value 0 digits <=? u64_max)%N
  then Some (dec_value 0 digits) else None.

(** [RateLimitConfig::from_vars] *)
Definition from_vars (per_secret burst : option string) : RateLimitConfig :=
  mk_config (default 5%N (v ← per_secret; parse_u64 v))
            (default DEFAULT_BURST_TOTAL_10S (v ← burst; parse_u64 v)).

(** [RateLimitConfig::per_secret_10s_limit] *)
Definition per_secret_10s_limit (c : RateLimitConfig) : N :=
  wrapping_mul_u64 (per_secret_rps c) 10.

(** ** Sliding windows *)

Record SlidingWindow := mk_window { timestamps : list Instant; window : Duration }.

Definition new_window (w : Duration) : SlidingWindow := mk_window [] w.

(** [now.duration_since(t)], which is zero for a later [t] *)
Definition duration_since (now t : Instant) : Duration := (now - t)%N.

(** The loop of [SlidingWindow::evict]: pop from the front while it is too old. *)
Fixpoint evict_loop (window : Duration) (now : Instant) (ts : list Instant) : list Instant :=
  match ts with
  | front :: rest => if (window <? duration_since now front)%N then evict_loop window now rest else ts
  | [] => []
  end.

Definition evict (w : SlidingWindow) (now : Instant) : SlidingWindow :=
  mk_window (evict_loop (window w) now (timestamps w)) (window w).

(** [SlidingWindow::record_and_count] *)
Definition record_and_count (w : SlidingWindow) (now : Instant) : SlidingWindow * N :=
  let w' := evict (mk_window (timestamps w ++ [now]) (window w)) now in
  (w', N.of_nat (length (timestamps w'))).

(** ** The limiter *)

Record SecretCounters := mk_counters { window_60s : SlidingWindow; window_10s : SlidingWindow }.

Definition new_counters : SecretCounters :=
  mk_counters (new_window (from_secs 60)) (new_window (from_secs 10)).

Record RateLimiterInner := mk_inner {
  per_secret : gmap string SecretCounters;
  global_10s : SlidingWindow;
  config : RateLimitConfig;
}.

Definition new_inner (c : RateLimitConfig) : RateLimiterInner :=
  mk_inner ∅ (new_window (from_secs 10)) c.

(** The classification in [RateLimiterInner::record] *)
Definition classify (c : RateLimitConfig) (per_secret_10s total_10s : N) : AnomalyClass :=
  let limit := per_secret_10s_limit c in
  let burst := burst_total_10s c in
  if ((limit <? per_secret_10s) || (burst <? total_10s))%N then Alert
  else if ((limit <=? wrapping_mul_u64 per_secret_10s 2)
           || (wrapping_mul_u64 burst 3 <=? wrapping_mul_u64 total_10s 4))%N then Caution
  else Normal.

(** [x.saturating_mul(100).checked_div(limit).unwrap_or(0).min(100)] *)
Definition percentage (x limit : N) : N :=
  N.min (default 0%N (checked_div_u64 (saturating_mul_u64 x 100) limit)) 100.

Definition anomaly_score (c : RateLimitConfig) (per_secret_10s total_10s : N) : N :=
  N.max (percentage per_secret_10s (per_secret_10s_limit c))
        (percentage total_10s (burst_total_10s c)).

(** [RateLimiterInner::record] at the time [now] *)
Definition record (i : RateLimiterInner) (now : Instant) (secret_key : string)
    : RateLimiterInner * RateDecision :=
  let counters := default new_counters (per_secret i !! secret_key) in
  let '(w60, per_secret_60s) := record_and_count (window_60s counters) now in
  let '(w10, per_secret_10s) := record_and_count (window_10s counters) now in
  let '(g10, total_10s) := record_and_count (global_10s i) now in
  (mk_inner (<[secret_key := mk_counters w60 w10]> (per_secret i)) g10 (config i),
   mk_decision (classify (config i) per_secret_10s total_10s) per_secret_10s total_10s
     per_secret_60s (anomaly_score (config i) per_secret_10s total_10s)).

#[global] Arguments record : simpl never.
#[global] Arguments record_and_count : simpl never.

(** A request: its time and the secret of its route *)
Definition request : Type := Instant * string.

(** A history of calls of [RateLimiter::record], each under the mutex *)
Fixpoint serve (i : RateLimiterInner) (rs : list request) : RateLimiterInner * list RateDecision :=
  match rs with
  | [] => (i, [])
  | (now, key) :: rs' =>
      let '(i1, d) := record i now key in
      let '(i2, ds) := serve i1 rs' in (i2, d :: ds)
  end.

(** ** The specification: counting over the whole history *)

Definition times (rs : list request) : list Instant := map fst rs.

Definition of_secret (key : string) (rs : list request) : list request :=
  filter (λ r, r.2 = key) rs.

(** The requests not older than [w] at the time [now] *)
Definition count_within (w : Duration) (now : Instant) (ts : list Instant) : N :=
  N.of_nat (length (filter (λ t, duration_since now t <= w)%N ts)).

(** The clock does not run backwards. *)
Definition clock_forward (ts : list Instant) : Prop := StronglySorted N.le ts.

(** A window tracks the times [ts] when it holds all but ones that are too old. *)
Definition tracks (w : SlidingWindow) (ts : list Instant) : Prop :=
  ∃ old, ts = old ++ timestamps w ∧ ∀ t, t ∈ old → ∃ s, s ∈ ts ∧ (window w < duration_since s t)%N.

(** ** Lists *)

Lemma filter_none {A} (P : A → Prop) `{∀ x, Decision (P x)} (l : list A) :
  (∀ x, x ∈ l → ¬ P x) → filter P l = [].
Proof.
  induction l as [|x l IH]; intros Hl; [done|]. rewrite filter_cons_False by (apply Hl; set_solver).
  apply IH. set_solver.
Qed.

Lemma filter_all {A} (P : A → Prop) `{∀ x, Decision (P x)} (l : list A) :
  (∀ x, x ∈ l → P x) → filter P l = l.
Proof.
  induction l as [|x l IH]; intros Hl; [done|]. rewrite filter_cons_True by (apply Hl; set_solver).
  f_equal. apply IH. set_solver.
Qed.

Lemma filter_length_mono {A} (P Q : A → Prop) `{∀ x, Decision (P x), ∀ x, Decision (Q x)} (l : list A) :
  (∀ x, x ∈ l → P x → Q x) → (length (filter P l) <= length (filter Q l))%nat.
Proof.
  induction l as [|x l IH]; intros Hl; [done|]. rewrite !filter_cons.
  assert (length (filter P l) <= length (filter Q l))%nat by (apply IH; set_solver).
  destruct (decide (P x)), (decide (Q x)); simpl; try lia. exfalso. set_solver.
Qed.

(** ** Windows track their history *)

Lemma evict_loop_spec w now ts :
  ∃ old, ts = old ++ evict_loop w now ts ∧ (∀ t, t ∈ old → (w < duration_since now t)%N) ∧
    ∀ f, head (evict_loop w now ts) = Some f → (duration_since now f <= w)%N.
Proof.
  induction ts as [|t ts IH]; simpl.
  - exists []. split_and!; [done|set_solver|done].
  - destruct (N.ltb_spec w (duration_since now t)) as [Hlt|Hle].
    + destruct IH as (old & Hts & Hold & Hhead). exists (t :: old).
      split_and!; [simpl; by f_equal|set_solver|done].
    + exists []. split_and!; [done|set_solver|]. simpl. intros f [= <-]. done.
Qed.

Lemma clock_forward_app ts ts' :
  clock_forward (ts ++ ts') ↔
  clock_forward ts ∧ clock_forward ts' ∧ ∀ t s, t ∈ ts → s ∈ ts' → (t <= s)%N.
Proof.
  unfold clock_forward. induction ts as [|t ts IH]; simpl.
  - split; [intros H; split_and!; [constructor|done|set_solver]|tauto].
  - rewrite !StronglySorted_cons, IH, Forall_app, !Forall_forall. set_solver.
Qed.

Lemma clock_forward_snoc ts now :
  clock_forward (ts ++ [now]) ↔ clock_forward ts ∧ ∀ t, t ∈ ts → (t <= now)%N.
Proof.
  rewrite clock_forward_app. split; [set_solver|]. intros [H1 H2].
  split_and!; [done|repeat constructor|set_solver].
Qed.

Lemma clock_forward_filter (P : request → Prop) `{∀ r, Decision (P r)} rs :
  clock_forward (times rs) → clock_forward (times (filter P rs)).
Proof.
  unfold clock_forward, times. induction rs as [|r rs IH]; simpl; [done|].
  rewrite StronglySorted_cons. intros [Hall H']. rewrite filter_cons.
  destruct (decide (P r)); [|by apply IH]. simpl. apply StronglySorted_cons.
  split; [|by apply IH]. rewrite Forall_forall in *. intros t Ht. apply Hall.
  apply list_elem_of_fmap in Ht as (x & -> & Hx). apply list_elem_of_filter in Hx.
  apply list_elem_of_fmap. naive_solver.
Qed.

Lemma tracks_new w : tracks (new_window w) [].
Proof. exists []. split; [done|set_solver]. Qed.

(** One call: the window still tracks the history, and its length counts the
    requests of the whole history that are recent enough. *)
Lemma record_and_count_spec w ts now w' n :
  tracks w ts → clock_forward (ts ++ [now]) → record_and_count w now = (w', n) →
  tracks w' (ts ++ [now]) ∧ window w' = window w ∧ n = count_within (window w) now (ts ++ [now]).
Proof.
  intros (old & -> & Hold) Hf [= <- <-]. simpl.
  destruct (evict_loop_spec (window w) now (timestamps w ++ [now])) as (ev & Heq & Hev & Hhead).
  set (rest := evict_loop (window w) now (timestamps w ++ [now])) in *.
  assert (Hle : ∀ t, t ∈ (old ++ timestamps w) ++ [now] → (t <= now)%N).
  { apply clock_forward_snoc in Hf as [_ Hf]. intros t [Ht|Ht]%elem_of_app; [by apply Hf|set_solver]. }
  assert (Hgone : ∀ t, t ∈ old ++ ev → (window w < duration_since now t)%N).
  { intros t [Ht|Ht]%elem_of_app; [|by apply Hev]. destruct (Hold t Ht) as (s & Hs & Hw).
    assert (s <= now)%N by (apply Hle; set_solver). unfold duration_since in *. lia. }
  assert (Hsplit : (old ++ timestamps w) ++ [now] = (old ++ ev) ++ rest).
  { rewrite <- !app_assoc. by rewrite Heq. }
  split_and!; [|done|].
  - exists (old ++ ev). split; [done|]. intros t Ht. exists now. split; [set_solver|]. by apply Hgone.
  - unfold count_within. rewrite Hsplit, filter_app.
    rewrite (filter_none _ (old ++ ev)) by (intros t Ht; specialize (Hgone t Ht); lia).
    simpl. f_equal. f_equal. symmetry. apply filter_all.
    rewrite Hsplit, clock_forward_app in Hf. destruct Hf as (_ & Hrest & _).
    destruct rest as [|f rest']; [set_solver|]. specialize (Hhead f eq_refl).
    apply StronglySorted_inv in Hrest as [_ Hall]. rewrite Forall_forall in Hall.
    intros t [->|Ht]%elem_of_cons; [done|]. specialize (Hall t Ht).
    unfold duration_since in *. lia.
Qed.

(** ** The limiter tracks its history *)

Definition counters_track (key : string) (rs : list request) (c : SecretCounters) : Prop :=
  tracks (window_60s c) (times (of_secret key rs)) ∧ window (window_60s c) = from_secs 60 ∧
  tracks (window_10s c) (times (of_secret key rs)) ∧ window (window_10s c) = from_secs 10.

Record limiter_tracks (c : RateLimitConfig) (rs : list request) (i : RateLimiterInner) : Prop := {
  lt_config : config i = c;
  lt_global : tracks (global_10s i) (times rs) ∧ window (global_10s i) = from_secs 10;
  lt_secret : ∀ key, counters_track key rs (default new_counters (per_secret i !! key));
}.

(** The decision the history calls for, by counting requests. *)
Definition decision_spec (c : RateLimitConfig) (rs : list request) (now : Instant) (key : string)
    : RateDecision :=
  let all := rs ++ [(now, key)] in
  let per_secret_10s := count_within (from_secs 10) now (times (of_secret key all)) in
  let total_10s := count_within (from_secs 10) now (times all) in
  mk_decision (classify c per_secret_10s total_10s) per_secret_10s total_10s
    (count_within (from_secs 60) now (times (of_secret key all)))
    (anomaly_score c per_secret_10s total_10s).

Lemma times_snoc rs now key : times (rs ++ [(now, key)]) = times rs ++ [now].
Proof. unfold times. by rewrite map_app. Qed.

Lemma of_secret_snoc key rs now key' :
  times (of_secret key (rs ++ [(now, key')])) =
  if decide (key' = key) then times (of_secret key rs) ++ [now] else times (of_secret key rs).
Proof.
  unfold of_secret. rewrite filter_app. simpl.
  destruct (decide (key' = key)) as [->|Hne].
  - rewrite filter_cons_True by done. by rewrite filter_nil, times_snoc.
  - rewrite filter_cons_False by done. by rewrite filter_nil, app_nil_r.
Qed.

Lemma clock_forward_of_secret key rs now :
  clock_forward (times (rs ++ [(now, key)])) → clock_forward (times (of_secret key rs) ++ [now]).
Proof.
  intros Hf. apply (clock_forward_filter (λ r, r.2 = key)) in Hf.
  change (clock_forward (times (of_secret key (rs ++ [(now, key)])))) in Hf.
  rewrite of_secret_snoc in Hf. by rewrite decide_True in Hf.
Qed.

Lemma limiter_tracks_new c : limiter_tracks c [] (new_inner c).
Proof.
  split; [done|split; [apply tracks_new|done]|]. intros key. simpl. rewrite lookup_empty. simpl.
  split_and!; try apply tracks_new; done.
Qed.

(** One call: the limiter still tracks the history, and its decision is the
    one the history calls for. *)
Lemma record_spec c rs i now key i' d :
  limiter_tracks c rs i → clock_forward (times (rs ++ [(now, key)])) → record i now key = (i', d) →
  limiter_tracks c (rs ++ [(now, key)]) i' ∧ d = decision_spec c rs now key.
Proof.
  intros [Hc [Hg Hgw] Hs] Hf H. unfold record in H.
  destruct (Hs key) as (H60 & Hw60 & H10 & Hw10).
  destruct (record_and_count (window_60s _) now) as [w60 n60] eqn:E60.
  destruct (record_and_count (window_10s _) now) as [w10 n10] eqn:E10.
  destruct (record_and_count (global_10s _) now) as [g10 n] eqn:Eg. injection H as <- <-.
  pose proof (clock_forward_of_secret _ _ _ Hf) as Hfk. rewrite times_snoc in Hf.
  eapply record_and_count_spec in E60 as (T60 & W60 & ->); [|done..].
  eapply record_and_count_spec in E10 as (T10 & W10 & ->); [|done..].
  eapply record_and_count_spec in Eg as (Tg & Wg & ->); [|done..].
  split; [split|]; simpl.
  - done.
  - rewrite times_snoc. split; [done|congruence].
  - intros k. unfold counters_track. rewrite of_secret_snoc.
    destruct (decide (key = k)) as [<-|Hne].
    + rewrite lookup_insert_eq. simpl. split_and!; (done || congruence).
    + rewrite lookup_insert_ne by done. apply Hs.
  - unfold decision_spec. rewrite times_snoc, of_secret_snoc, decide_True by done.
    by rewrite Hw60, Hw10, Hgw, Hc.
Qed.

Lemma serve_snoc i rs now key :
  serve i (rs ++ [(now, key)]) =
  let '(i1, ds) := serve i rs in let '(i2, d) := record i1 now key in (i2, ds ++ [d]).
Proof.
  revert i. induction rs as [|[t k] rs IH]; intros i; cbn [app serve].
  - by destruct (record i now key).
  - destruct (record i t k) as [i1 d1]. rewrite IH. destruct (serve i1 rs) as [i2 ds].
    by destruct (record i2 now key).
Qed.

Lemma serve_tracks c rs :
  clock_forward (times rs) → limiter_tracks c rs (serve (new_inner c) rs).1.
Proof.
  induction rs as [|[now key] rs IH] using rev_ind; intros Hf; [apply limiter_tracks_new|].
  pose proof Hf as Hf'. rewrite times_snoc, clock_forward_snoc in Hf'. specialize (IH (proj1 Hf')).
  rewrite serve_snoc. destruct (serve (new_inner c) rs) as [i ds]. simpl in IH.
  destruct (record i now key) as [i' d] eqn:E. simpl. by eapply record_spec in E as [? _].
Qed.

(** ** What gets through *)

(** The requests of a history that were not answered with Alert: the proxy
    forwards these ([server.rs], [handle_request]) and refuses the others. *)
Definition admitted (c : RateLimitConfig) (rs : list request) : list request :=
  map fst (filter (λ p, rd_class p.2 ≠ Alert) (zip rs (serve (new_inner c) rs).2)).

(** The requests in the ten seconds that start at [from] *)
Definition in_burst (from : Instant) (r : request) : Prop :=
  (from <= r.1 ∧ r.1 <= from + from_secs 10)%N.

#[export] Instance in_burst_dec from r : Decision (in_burst from r).
Proof. unfold in_burst. apply _. Defined.

Lemma count_within_times w now rs :
  count_within w now (times rs) =
  N.of_nat (length (filter (λ r : request, duration_since now r.1 <= w)%N rs)).
Proof.
  unfold count_within, times. f_equal. induction rs as [|r rs IH]; simpl; [done|].
  rewrite !filter_cons. destruct (decide _); simpl; by rewrite IH.
Qed.

Lemma serve_length i rs : length (serve i rs).2 = length rs.
Proof.
  revert i. induction rs as [|[now key] rs IH]; intros i; cbn [serve]; [done|].
  destruct (record i now key) as [i1 d]. specialize (IH i1). destruct (serve i1 rs). simpl in *.
  lia.
Qed.

Lemma admitted_record c rs now key :
  admitted c (rs ++ [(now, key)]) =
  admitted c rs ++
    if decide (rd_class (record (serve (new_inner c) rs).1 now key).2 ≠ Alert) then [(now, key)]
    else [].
Proof.
  unfold admitted. rewrite serve_snoc. pose proof (serve_length (new_inner c) rs) as Hl.
  destruct (serve (new_inner c) rs) as [i ds]. destruct (record i now key) as [i' d] eqn:E.
  simpl in Hl. cbn [fst snd]. rewrite E. cbn [snd]. rewrite zip_with_app by done.
  cbn [zip_with]. rewrite filter_app, map_app. f_equal.
  rewrite filter_cons, filter_nil. cbn [snd]. by destruct (decide _).
Qed.

Lemma admitted_snoc c rs now key :
  clock_forward (times (rs ++ [(now, key)])) →
  admitted c (rs ++ [(now, key)]) =
  admitted c rs ++
    if decide (rd_class (decision_spec c rs now key) ≠ Alert) then [(now, key)] else [].
Proof.
  intros Hf. rewrite admitted_record. pose proof (serve_tracks c rs) as Ht.
  destruct (record _ now key) as [i' d] eqn:E.
  eapply record_spec in E as [_ ->]; [done|apply Ht|done].
  rewrite times_snoc, clock_forward_snoc in Hf. tauto.
Qed.

Lemma admitted_le (P : request → Prop) `{∀ r, Decision (P r)} c rs :
  (length (filter P (admitted c rs)) <= length (filter P rs))%nat.
Proof.
  unfold admitted. generalize (serve (new_inner c) rs).2 as ds.
  induction rs as [|r rs IH]; intros ds; [done|]. destruct ds as [|d ds]; simpl; [lia|].
  rewrite !filter_cons. specialize (IH ds).
  destruct (decide (rd_class (r, d).2 ≠ Alert)); simpl; [rewrite filter_cons|];
    destruct (decide (P r)); simpl; lia.
Qed.

Lemma classify_admits c per_secret total :
  classify c per_secret total ≠ Alert →
  (per_secret <= per_secret_10s_limit c)%N ∧ (total <= burst_total_10s c)%N.
Proof.
  unfold classify. destruct (N.ltb_spec (per_secret_10s_limit c) per_secret); [done|].
  by destruct (N.ltb_spec (burst_total_10s c) total).
Qed.

(** The requests of one kind that are admitted in ten seconds stay within a
    limit that every admitted request of the kind observed. *)
Lemma burst_bound (P : request → Prop) `{∀ r, Decision (P r)} (limit : N) c rs from :
  clock_forward (times rs) →
  (∀ rs' now key, rs' ++ [(now, key)] `prefix_of` rs → P (now, key) →
     rd_class (decision_spec c rs' now key) ≠ Alert →
     (count_within (from_secs 10) now (times (filter P (rs' ++ [(now, key)]))) <= limit)%N) →
  (N.of_nat (length (filter (λ r, in_burst from r ∧ P r) (admitted c rs))) <= limit)%N.
Proof.
  induction rs as [|[now key] rs IH] using rev_ind; intros Hf Hlim; [simpl; lia|].
  assert (Hf' := Hf). rewrite times_snoc, clock_forward_snoc in Hf'. destruct Hf' as [Hf' Hle].
  assert (N.of_nat (length (filter (λ r, in_burst from r ∧ P r) (admitted c rs))) <= limit)%N
    as Hrs.
  { apply IH; [done|]. intros rs' n k Hp. apply Hlim. by apply prefix_app_r. }
  rewrite admitted_snoc by done. rewrite filter_app, length_app.
  destruct (decide (rd_class (decision_spec c rs now key) ≠ Alert)) as [Hok|];
    [|simpl; rewrite Nat.add_0_r; done].
  rewrite filter_cons, filter_nil. destruct (decide _) as [[Hin HP]|]; simpl;
    [|rewrite Nat.add_0_r; done].
  specialize (Hlim rs now key ltac:(done) HP Hok). rewrite count_within_times in Hlim.
  etrans; [|exact Hlim]. rewrite filter_app, filter_app, filter_cons_True, filter_nil by done.
  rewrite length_app, filter_cons_True by (unfold duration_since; simpl; lia). simpl.
  pose proof (admitted_le (λ r, in_burst from r ∧ P r) c rs).
  rewrite list_filter_filter.
  assert (length (filter (λ r, in_burst from r ∧ P r) rs) <=
    length (filter (λ r : request, duration_since now r.1 <= from_secs 10 ∧ P r)%N rs))%nat; [|lia].
  apply filter_length_mono. intros r Hr [[H1 H2] HPr]. split; [|done].
  destruct Hin as [_ Hin]. simpl in Hin. unfold duration_since. lia.
Qed.

(** In any ten seconds of any history, the admitted requests stay within the
    two limits. *)
Lemma admitted_bounded c rs from key :
  clock_forward (times rs) →
  (N.of_nat (length (filter (λ r, in_burst from r ∧ r.2 = key) (admitted c rs)))
     <= per_secret_10s_limit c)%N ∧
  (N.of_nat (length (filter (λ r, in_burst from r ∧ True) (admitted c rs))) <= burst_total_10s c)%N.
Proof.
  intros Hf. split; (apply burst_bound; [done|]); intros rs' now k Hp HP [Hs Ht]%classify_admits.
  - simpl in HP. by subst k.
  - by rewrite (filter_all (λ _, True)).
Qed.

(** the limiter counts exactly: after any history of requests, whatever
    secrets they used, the counts in the next decision are the numbers of
    requests of the whole history in the last ten and sixty seconds, although
    only the recent times are kept, and the class and score are those of the
    counts. *)
Theorem rate_counts_exact c rs now key :
  clock_forward (times (rs ++ [(now, key)])) →
  (record (serve (new_inner c) rs).1 now key).2 = decision_spec c rs now key.
Proof.
  intros Hf. destruct (record _ now key) as [i d] eqn:E. simpl.
  eapply record_spec in E as [_ ->]; [done|apply serve_tracks|done].
  rewrite times_snoc, clock_forward_snoc in Hf. tauto.
Qed.

(** no burst gets through: in any ten seconds of any history, at most
    [per_secret_10s_limit] requests for one secret are admitted, and at most
    [burst_total_10s] requests altogether. *)
Theorem rate_burst_bounded c rs from key :
  clock_forward (times rs) →
  (N.of_nat (length (filter (λ r, in_burst from r ∧ r.2 = key) (admitted c rs)))
     <= per_secret_10s_limit c)%N ∧
  (N.of_nat (length (filter (λ r, in_burst from r ∧ True) (admitted c rs))) <= burst_total_10s c)%N.
Proof.
  apply admitted_bounded.
Qed.

(** ** Bounds *)

Lemma percentage_small x limit :
  (x * 100 <= u64_max)%N → limit ≠ 0%N → percentage x limit = N.min (x * 100 / limit) 100.
Proof.
  intros Hx Hl. unfold percentage, saturating_mul_u64, checked_div_u64.
  destruct (N.eqb_spec limit 0); [done|]. by rewrite (N.min_l (x * 100)).
Qed.

Lemma percentage_full x limit :
  (x * 100 <= u64_max)%N → limit ≠ 0%N → (limit <= x)%N → percentage x limit = 100%N.
Proof.
  intros Hx Hl Hle. rewrite percentage_small by done. apply N.min_r.
  rewrite <- (N.div_mul 100 limit) at 1 by done. apply N.Div0.div_le_mono. lia.
Qed.

(** the numbers of a decision are in range and agree with its class: the
    score is at most 100; it is 100 for every Alert unless a limit is
    configured as zero; a Caution or Normal score is the larger of the two
    shares of the limits in percent; and the limit is ten times the configured
    rate exactly when that product fits the 64 bits, otherwise it is smaller. *)
Theorem rate_decision_bounds c per_secret total :
  (per_secret_rps c <= u64_max)%N → (per_secret * 100 <= u64_max)%N → (total * 100 <= u64_max)%N →
  (anomaly_score c per_secret total <= 100)%N ∧
  (per_secret_10s_limit c ≠ 0%N → burst_total_10s c ≠ 0%N →
   (classify c per_secret total = Alert → anomaly_score c per_secret total = 100%N) ∧
   (classify c per_secret total ≠ Alert →
    anomaly_score c per_secret total =
      N.max (per_secret * 100 / per_secret_10s_limit c) (total * 100 / burst_total_10s c))) ∧
  (if decide (per_secret_rps c <= u64_max / 10)%N
   then per_secret_10s_limit c = (per_secret_rps c * 10)%N
   else (per_secret_10s_limit c < per_secret_rps c * 10)%N).
Proof.
  intros Hr Hp Ht. split_and!.
  - unfold anomaly_score, percentage. lia.
  - intros Hl Hb. split.
    + unfold classify, anomaly_score. intros Hc.
      destruct (N.ltb_spec (per_secret_10s_limit c) per_secret).
      { rewrite percentage_full by (done || lia). unfold percentage. lia. }
      destruct (N.ltb_spec (burst_total_10s c) total); [|by simpl in Hc; repeat case_match].
      rewrite (percentage_full total) by (done || lia). unfold percentage. lia.
    + intros [Hlp Hlt]%classify_admits. unfold anomaly_score. rewrite !percentage_small by done.
      rewrite !N.min_l; [done|apply N.Div0.div_le_upper_bound; lia..].
  - unfold per_secret_10s_limit. case_decide as Hd.
    + apply wrapping_mul_u64_small. unfold u64_max in *. change (18446744073709551615 / 10)%N
        with 1844674407370955161%N in Hd. lia.
    + unfold wrapping_mul_u64. apply N.lt_le_trans with (u64_max + 1)%N.
      * by apply N.mod_lt.
      * unfold u64_max in *. change (18446744073709551615 / 10)%N
          with 1844674407370955161%N in Hd. lia.
Qed.

(** A rate that is a little above the largest one whose product fits is read as
    a limit of four requests. *)
Lemma rate_limit_wraps :
  per_secret_10s_limit (from_vars (Some "1844674407370955162") None) = 4%N.
Proof. vm_compute. reflexivity. Qed.

(** ** A history: six requests at a limit of one per second and four in all *)

Definition sample_config : RateLimitConfig := from_vars (Some "1") (Some "+4").

Definition sample_requests : list request :=
  [(from_secs 1, "OPENAI_API_KEY"); (from_secs 2, "OPENAI_API_KEY"); (from_secs 2, "XAI_API_KEY");
   (from_secs 3, "OPENAI_API_KEY"); (from_secs 4, "XAI_API_KEY"); (from_secs 14, "XAI_API_KEY")].

Example sample_decisions :
  map (λ d, (rd_class d, rd_per_secret_10s d, rd_total_10s d, rd_per_secret_60s d,
             rd_anomaly_score d)) (serve (new_inner sample_config) sample_requests).2 =
  [(Normal, 1, 1, 1, 25); (Normal, 2, 2, 2, 50); (Caution, 1, 3, 1, 75); (Caution, 3, 4, 3, 100);
   (Alert, 2, 5, 2, 100); (Normal, 2, 2, 3, 50)]%N.
Proof. vm_compute. reflexivity. Qed.

Lemma sample_forward : clock_forward (times sample_requests).
Proof. unfold clock_forward, times. simpl. repeat constructor; unfold from_secs; lia. Qed.

Lemma rate_counts_exact_witness :
  (record (serve (new_inner sample_config) (take 5 sample_requests)).1 (from_secs 14)
     "XAI_API_KEY").2 = mk_decision Normal 2 2 3 50.
Proof.
  rewrite (rate_counts_exact sample_config (take 5 sample_requests) (from_secs 14) "XAI_API_KEY"
    sample_forward).
  vm_compute. reflexivity.
Defined.

Lemma rate_burst_bounded_witness :
  length (admitted sample_config sample_requests) = 5%nat ∧
  (N.of_nat (length (filter (λ r, in_burst (from_secs 1) r ∧ True)
                       (admitted sample_config sample_requests))) <= 4)%N.
Proof.
  split; [vm_compute; reflexivity|].
  apply (rate_burst_bounded sample_config sample_requests (from_secs 1) "XAI_API_KEY"
    sample_forward).
Defined.

Lemma rate_decision_bounds_witness :
  anomaly_score sample_config 2 5 = 100%N ∧ per_secret_10s_limit sample_config = 10%N.
Proof.
  destruct (rate_decision_bounds sample_config 2 5 ltac:(vm_compute; discriminate)
    ltac:(vm_compute; discriminate) ltac:(vm_compute; discriminate)) as (_ & H1 & H2).
  destruct (H1 ltac:(vm_compute; discriminate) ltac:(vm_compute; discriminate)) as [H3 _].
  split; [by apply H3|exact H2].
Defined.
