(* ===== verification/Services.v ===== *)
(** * Service routes: [crates/phantom-proxy/src/services.rs]

    The registry of routes that the proxy serves, how a request path is matched
    to one, and the path that is requested upstream; with the trusted built-in
    definitions of [crates/phantom-core/src/config.rs], which alone may select
    a credential profile other than the standard one.

    A [BTreeMap] and a [HashMap] are [gmap]s: the former is iterated in the
    order of its keys, the latter in an order that nothing here depends on. *)

From S2P Require Import Prelude Text.

(** ** Configuration: [config.rs] *)

Record ServiceConfig := mk_service {
  sc_secret_key : string;
  sc_pattern : option string;
  sc_header : option string;
  sc_header_format : option string;
  sc_secret_type : string;
}.

#[export] Instance ServiceConfig_eq_dec : EqDecision ServiceConfig.
Proof. solve_decision. Defined.

Record TrustedProxyDefinition := mk_trusted {
  tp_name : string;
  tp_secret_key : string;
  tp_pattern : string;
  tp_header : string;
  tp_header_format : string;
}.

(** [TrustedProxyDefinition::service_config] *)
Definition service_config (d : TrustedProxyDefinition) : ServiceConfig :=
  mk_service (tp_secret_key d) (Some (tp_pattern d)) (Some (tp_header d))
    (Some (tp_header_format d)) "api_key".

Definition TRUSTED_PROXY_SERVICES : list TrustedProxyDefinition :=
  [mk_trusted "posthog_fleet" "POSTHOG_API_KEY" "us.i.posthog.com"
     "Authorization" "Bearer {secret}";
   mk_trusted "openai" "OPENAI_API_KEY" "api.openai.com"
     "Authorization" "Bearer {secret}";
   mk_trusted "anthropic" "ANTHROPIC_API_KEY" "api.anthropic.com"
     "x-api-key" "{secret}";
   mk_trusted "stripe" "STRIPE_SECRET_KEY" "api.stripe.com"
     "Authorization" "Bearer {secret}";
   mk_trusted "stripe_pub" "STRIPE_PUBLISHABLE_KEY" "api.stripe.com"
     "Authorization" "Bearer {secret}";
   mk_trusted "supabase" "SUPABASE_SERVICE_ROLE_KEY" "supabase.co"
     "Authorization" "Bearer {secret}";
   mk_trusted "supabase_anon" "SUPABASE_ANON_KEY" "supabase.co"
     "apikey" "{secret}";
   mk_trusted "resend" "RESEND_API_KEY" "api.resend.com"
     "Authorization" "Bearer {secret}";
   mk_trusted "sendgrid" "SENDGRID_API_KEY" "api.sendgrid.com"
     "Authorization" "Bearer {secret}";
   mk_trusted "twilio" "TWILIO_AUTH_TOKEN" "api.twilio.com"
     "Authorization" "Basic {secret}";
   mk_trusted "cloudflare" "CLOUDFLARE_API_TOKEN" "api.cloudflare.com"
     "Authorization" "Bearer {secret}";
   mk_trusted "github_api" "GITHUB_TOKEN" "api.github.com"
     "Authorization" "Bearer {secret}";
   mk_trusted "pinecone" "PINECONE_API_KEY" "pinecone.io"
     "Api-Key" "{secret}";
   mk_trusted "replicate" "REPLICATE_API_TOKEN" "api.replicate.com"
     "Authorization" "Bearer {secret}";
   mk_trusted "fleet_devin" "DEVIN_API_KEY" "api.devin.ai"
     "Authorization" "Bearer {secret}";
   mk_trusted "fleet_cursor_cloud" "CURSOR_API_KEY" "api.cursor.com"
     "Authorization" "Bearer {secret}";
   mk_trusted "fleet_email" "FLEET_EMAIL_API_KEY" "api.resend.com"
     "Authorization" "Bearer {secret}";
   mk_trusted "xai" "XAI_API_KEY" "api.x.ai"
     "Authorization" "Bearer {secret}";
   mk_trusted "mistral" "MISTRAL_API_KEY" "api.mistral.ai"
     "Authorization" "Bearer {secret}";
   mk_trusted "perplexity" "PERPLEXITY_API_KEY" "api.perplexity.ai"
     "Authorization" "Bearer {secret}";
   mk_trusted "cohere" "COHERE_API_KEY" "api.cohere.com"
     "Authorization" "Bearer {secret}";
   mk_trusted "huggingface" "HUGGINGFACE_API_KEY" "api-inference.huggingface.co"
     "Authorization" "Bearer {secret}";
   mk_trusted "google_ai" "GEMINI_API_KEY" "generativelanguage.googleapis.com"
     "x-goog-api-key" "{secret}"].

(** [PhantomConfig::trusted_builtin_proxy_service] *)
Definition trusted_builtin_proxy_service (name : string) : option ServiceConfig :=
  option_map service_config (List.find (λ d, String.eqb (tp_name d) name) TRUSTED_PROXY_SERVICES).

(** [PhantomConfig::trusted_builtin_proxy_service_for_secret] *)
Definition trusted_builtin_proxy_service_for_secret (secret_key : string)
    : option (string * ServiceConfig) :=
  option_map (λ d, (tp_name d, service_config d))
    (List.find (λ d, String.eqb (tp_secret_key d) secret_key) TRUSTED_PROXY_SERVICES).

Definition DEFAULT_PROXY_SERVICE_NAMES : list string :=
  ["openai"; "anthropic"; "stripe";
   "supabase"; "xai"; "mistral";
   "perplexity"; "cohere"; "replicate";
   "huggingface"; "google_ai"].

(** The services of [PhantomConfig::new_with_defaults]; its [expect] never
    fails ([default_services_trusted]). *)
Definition default_services : gmap string ServiceConfig :=
  <["database" := mk_service "DATABASE_URL" None None None "connection_string"]>
    (foldr (λ name m, match trusted_builtin_proxy_service name with
                      | Some s => <[name := s]> m
                      | None => m
                      end) ∅ DEFAULT_PROXY_SERVICE_NAMES).

(** ** Routes *)

Inductive CredentialProfile := Standard | BasicPassword | GoogleApiKey | PostHogCapture.

#[export] Instance CredentialProfile_eq_dec : EqDecision CredentialProfile.
Proof. solve_decision. Defined.

Record ServiceRoute := mk_route {
  sr_name : string;
  sr_target_base : string;
  sr_secret_key : string;
  sr_header : string;
  sr_header_format : string;
  sr_credential_profile : CredentialProfile;
  sr_sdk_base_path : option string;
}.

(** [ServiceRegistry] *)
Definition ServiceRegistry : Type := gmap string ServiceRoute.

Definition SDK_BASE_PATHS : list (string * string) :=
  [("api.openai.com", "/v1"); ("api.x.ai", "/v1"); ("api.mistral.ai", "/v1");
   ("api.replicate.com", "/v1"); ("api.cloudflare.com", "/client/v4")].

(** [fn sdk_base_path_for] *)
Definition sdk_base_path_for (host : string) : option string :=
  option_map snd (List.find (λ p, String.eqb p.1 host) SDK_BASE_PATHS).

Definition slash : ascii := "/".

(** The base path that [upstream_path] restores, without its slashes *)
Definition sdk_base (r : ServiceRoute) : option string :=
  match option_map (trim_char slash) (sr_sdk_base_path r) with
  | Some p => if str_is_empty p then None else Some p
  | None => None
  end.

(** The [already_prefixed] test of [upstream_path] *)
Definition has_base (base trimmed : string) : bool :=
  match strip_prefix base trimmed with
  | Some rest => str_is_empty rest || starts_with "/" rest
  | None => false
  end.

(** [collapsed] in [upstream_path]: several leading slashes become one. *)
Definition collapse (remainder : string) : string :=
  let trimmed := trim_start_char slash remainder in
  if (1 <? String.length remainder - String.length trimmed)%nat then "/" +:+ trimmed
  else remainder.

(** [ServiceRoute::upstream_path] *)
Definition upstream_path (r : ServiceRoute) (remainder : string) : string :=
  let trimmed := trim_start_char slash remainder in
  match sdk_base r with
  | None => collapse remainder
  | Some base =>
      if str_is_empty trimmed then collapse remainder
      else if has_base base trimmed then collapse remainder
      else "/" +:+ base +:+ "/" +:+ trimmed
  end.

(** [CredentialProfile::for_configured_route] *)
Definition for_configured_route (name : string) (config : ServiceConfig) : CredentialProfile :=
  if bool_decide (trusted_builtin_proxy_service name = Some config) then
    if String.eqb name "twilio" then BasicPassword
    else if String.eqb name "google_ai" then GoogleApiKey
    else if String.eqb name "posthog_fleet" then PostHogCapture
    else Standard
  else Standard.

Inductive AuthInjection := Template | InjectBasicPassword.

(** [ServiceRoute::auth_injection] *)
Definition auth_injection (r : ServiceRoute) : AuthInjection :=
  match sr_credential_profile r with
  | BasicPassword => InjectBasicPassword
  | Standard | GoogleApiKey | PostHogCapture => Template
  end.

Record OwnedSlots := mk_slots {
  query_params : list string;
  headers_carrying_phantom_token : list string;
}.

(** [ServiceRoute::owned_alternate_slots] *)
Definition owned_alternate_slots (r : ServiceRoute) : OwnedSlots :=
  match sr_credential_profile r with
  | GoogleApiKey => mk_slots ["key"; "api_key"] ["authorization"]
  | Standard | BasicPassword | PostHogCapture => mk_slots [] []
  end.

(** [ServiceRoute::allows_request] *)
Definition allows_request (r : ServiceRoute) (method remainder : string) : bool :=
  negb (bool_decide (sr_credential_profile r = PostHogCapture))
  || (String.eqb method "POST"
      && (String.eqb (upstream_path r remainder) "/i/v1/analytics/events"
          || String.eqb (upstream_path r remainder) "/i/v1/analytics/events/")).

(** ** The registry *)

(** [ServiceRegistry::add_route] *)
Definition add_route (g : ServiceRegistry) (r : ServiceRoute) : ServiceRegistry :=
  <[sr_name r := r]> g.

(** The route that [from_config] adds for a configured service, if any. *)
Definition route_of (name : string) (config : ServiceConfig) : option ServiceRoute :=
  match sc_pattern config with
  | Some pattern =>
      if String.eqb (sc_secret_type config) "api_key" then
        Some (mk_route name ("https://" +:+ pattern) (sc_secret_key config)
          (default "Authorization" (sc_header config))
          (default "Bearer {secret}" (sc_header_format config))
          (for_configured_route name config) (sdk_base_path_for pattern))
      else None
  | None => None
  end.

(** [ServiceRegistry::from_config] *)
Definition from_config (services : gmap string ServiceConfig) : ServiceRegistry :=
  foldl (λ g e, match route_of e.1 e.2 with Some r => add_route g r | None => g end)
    ∅ (btree_iter services).

(** [ServiceRegistry::retain_routes] *)
Definition retain_routes (keep : ServiceRoute → bool) (g : ServiceRegistry) : ServiceRegistry :=
  filter (λ e, keep e.2 = true) g.

(** The service name and the remainder of a path *)
Definition split_route (path : string) : string * string :=
  let path := default path (strip_prefix "/" path) in
  match split_once slash path with
  | Some (service, rest) => (service, String slash rest)
  | None => (path, EmptyString)
  end.

(** [ServiceRegistry::match_route] *)
Definition match_route (g : ServiceRegistry) (path : string) : option (ServiceRoute * string) :=
  let '(service, remainder) := split_route path in
  option_map (λ r, (r, remainder)) (g !! service).

(** ** Base URL overrides *)

(** [fn sdk_base_url_env_aliases] *)
Definition sdk_base_url_env_aliases (target_base : string) : list string :=
  if String.eqb target_base "https://generativelanguage.googleapis.com" then
    ["GOOGLE_GEMINI_BASE_URL"]
  else if String.eqb target_base "https://api.cohere.com" then ["CO_API_URL"]
  else if String.eqb target_base "https://api.cloudflare.com" then
    ["CLOUDFLARE_BASE_URL"; "CLOUDFLARE_API_BASE_URL"]
  else [].

(** [fn route_override_env_name] *)
Definition route_override_env_name (name secret_key : string) : string :=
  if String.eqb name "openai" then "OPENAI_BASE_URL"
  else if String.eqb name "anthropic" then "ANTHROPIC_BASE_URL"
  else trim_end_matches "_KEY" (trim_end_matches "_SECRET_KEY"
         (trim_end_matches "_API_KEY" secret_key)) +:+ "_BASE_URL".

(** The overrides of one route *)
Definition route_overrides (proxy_port : N) (proxy_token : option string) (name : string)
    (r : ServiceRoute) : list (string * string) :=
  let url := "http://127.0.0.1:" +:+ N_to_string proxy_port +:+ "/" +:+ name +:+
    match proxy_token with
    | Some token => "/_phantom/" +:+ token +:+ "/"
    | None => EmptyString
    end in
  (route_override_env_name name (sr_secret_key r), url) ::
  map (λ alias, (alias, url)) (sdk_base_url_env_aliases (sr_target_base r)).

(** [ServiceRegistry::base_url_overrides_with_token], in some order of the routes *)
Definition base_url_overrides_with_token (g : ServiceRegistry) (proxy_port : N)
    (proxy_token : option string) : list (string * string) :=
  map_to_list g ≫= λ e, route_overrides proxy_port proxy_token e.1 e.2.

(** [ServiceRegistry::known_override_env_names] *)
Definition known_override_env_names : list string :=
  ["OPENAI_BASE_URL"; "ANTHROPIC_BASE_URL"; "STRIPE_BASE_URL";
   "STRIPE_PUBLISHABLE_BASE_URL"; "SUPABASE_SERVICE_ROLE_BASE_URL"; "SUPABASE_ANON_BASE_URL";
   "RESEND_BASE_URL"; "SENDGRID_BASE_URL"; "TWILIO_AUTH_TOKEN_BASE_URL";
   "CLOUDFLARE_API_TOKEN_BASE_URL"; "GITHUB_TOKEN_BASE_URL"; "PINECONE_BASE_URL";
   "REPLICATE_API_TOKEN_BASE_URL"; "XAI_BASE_URL"; "MISTRAL_BASE_URL";
   "PERPLEXITY_BASE_URL"; "COHERE_BASE_URL"; "HUGGINGFACE_BASE_URL";
   "GEMINI_BASE_URL"; "GOOGLE_GEMINI_BASE_URL"; "CO_API_URL";
   "CLOUDFLARE_BASE_URL"; "CLOUDFLARE_API_BASE_URL"; "POSTHOG_BASE_URL"].

(** ** The upstream path *)

Lemma sdk_base_head r base :
  sdk_base r = Some base → base ≠ EmptyString ∧ byte_at base 0 ≠ Some slash.
Proof.
  unfold sdk_base. destruct (sr_sdk_base_path r) as [q|]; simpl; [|done].
  destruct (str_is_empty (trim_char slash q)) eqn:E; [done|]. intros [= <-].
  split; [by intros He; rewrite He in E|apply trim_char_head].
Qed.

Lemma collapse_shape p :
  ∃ pre, collapse p = pre +:+ trim_start_char slash p ∧ (pre = EmptyString ∨ pre = "/").
Proof.
  unfold collapse. destruct (Nat.ltb_spec 1
    (String.length p - String.length (trim_start_char slash p))) as [|Hle]; [by exists "/"; auto|].
  pose proof (trim_start_char_split slash p) as Hp.
  destruct (String.length p - String.length (trim_start_char slash p))%nat as [|[|n]]; [..|lia];
    simpl in Hp; [exists EmptyString|exists "/"]; auto.
Qed.

(** Dropping the leading slashes undoes the collapse. *)
Lemma collapse_trim p : trim_start_char slash (collapse p) = trim_start_char slash p.
Proof.
  unfold collapse. destruct (_ <? _)%nat; [|done]. simpl. apply trim_start_char_idem.
Qed.

Lemma collapse_idem p : collapse (collapse p) = collapse p.
Proof.
  unfold collapse at 1. rewrite collapse_trim. destruct (collapse_shape p) as (pre & -> & Hpre).
  rewrite str_length_app. destruct (Nat.ltb_spec 1 (String.length pre +
    String.length (trim_start_char slash p) - String.length (trim_start_char slash p))); [|done].
  destruct Hpre as [-> | ->]; simpl in *; lia.
Qed.

Lemma no_double_slash pre t :
  (pre = EmptyString ∨ pre = "/") → byte_at t 0 ≠ Some slash → starts_with "//" (pre +:+ t) = false.
Proof.
  intros [-> | ->] Ht; destruct t as [|c t]; try done; simpl in *;
    destruct (ascii_eqb "/" c) eqn:E; try done; apply ascii_eqb_eq in E; subst; by destruct Ht.
Qed.

Lemma prefixed_trim base t :
  base ≠ EmptyString → byte_at base 0 ≠ Some slash →
  trim_start_char slash ("/" +:+ base +:+ "/" +:+ t) = base +:+ "/" +:+ t.
Proof. intros Hne Hh. simpl. by rewrite trim_start_char_app. Qed.

Lemma prefixed_collapse base t :
  base ≠ EmptyString → byte_at base 0 ≠ Some slash →
  collapse ("/" +:+ base +:+ "/" +:+ t) = "/" +:+ base +:+ "/" +:+ t.
Proof.
  intros Hne Hh. unfold collapse. rewrite prefixed_trim by done.
  rewrite (proj2 (Nat.ltb_ge 1 _)); [done|]. rewrite (str_length_app "/"). simpl. lia.
Qed.

Lemma prefixed_has_base base t : has_base base (base +:+ "/" +:+ t) = true.
Proof.
  unfold has_base. by rewrite (proj2 (strip_prefix_Some base _ ("/" +:+ t)) eq_refl).
Qed.

(** the upstream path is settled: requesting the result again changes
    nothing, so a version prefix is never doubled; it starts with at most one
    slash; it ends with the path that was asked for; and when the route has
    an SDK base path, every path that names anything lies under it. *)
Theorem upstream_path_settled r p :
  let q := upstream_path r p in
  upstream_path r q = q ∧
  starts_with "//" q = false ∧
  (∃ pre, q = pre +:+ trim_start_char slash p ∧
     (pre = EmptyString ∨ pre = "/" ∨ ∃ base, sdk_base r = Some base ∧ pre = "/" +:+ base +:+ "/")) ∧
  (∀ base, sdk_base r = Some base → trim_start_char slash p ≠ EmptyString →
     has_base base (trim_start_char slash q) = true).
Proof.
  cbv zeta. assert (Hcollapse : starts_with "//" (collapse p) = false ∧
    ∃ pre, collapse p = pre +:+ trim_start_char slash p ∧ (pre = EmptyString ∨ pre = "/")).
  { destruct (collapse_shape p) as (pre & Heq & Hpre). split; [|eauto].
    rewrite Heq. apply no_double_slash; [done|apply trim_start_char_head]. }
  destruct Hcollapse as [Hds (pre & Hshape & Hpre)].
  unfold upstream_path. destruct (sdk_base r) as [base|] eqn:Hbase.
  2: { split_and!; [apply collapse_idem|done|exists pre; naive_solver|done]. }
  destruct (sdk_base_head r base Hbase) as [Hne Hh].
  destruct (str_is_empty (trim_start_char slash p)) eqn:Hempty.
  { rewrite !collapse_trim, Hempty. split_and!;
      [apply collapse_idem|done|exists pre; naive_solver|].
    intros b _ Hx. by destruct (trim_start_char slash p). }
  destruct (has_base base (trim_start_char slash p)) eqn:Hb.
  { rewrite !collapse_trim, Hempty, Hb. split_and!;
      [apply collapse_idem|done|exists pre; naive_solver|]. by intros b [= <-] _. }
  rewrite prefixed_trim by done. rewrite prefixed_has_base. split_and!.
  - rewrite prefixed_collapse by done. by destruct base.
  - apply (no_double_slash "/"); [by right|]. by destruct base.
  - exists ("/" +:+ base +:+ "/"). rewrite !str_app_assoc. split; [done|]. right; right. by exists base.
  - intros b [= <-] _. apply prefixed_has_base.
Qed.

(** ** Matching a path to a configured route *)

Lemma split_route_spec path :
  let '(service, remainder) := split_route path in
  default path (strip_prefix "/" path) = service +:+ remainder ∧
  contains_char slash service = false ∧
  (remainder = EmptyString ∨ starts_with "/" remainder = true).
Proof.
  unfold split_route. set (p := default path (strip_prefix "/" path)).
  destruct (split_once slash p) as [[a b]|] eqn:E.
  - apply split_once_Some in E as [-> Ha]. split_and!; [done..|]. right.
    by apply (starts_with_app "/").
  - apply split_once_None in E. rewrite str_app_nil_r. auto.
Qed.

Lemma route_of_name name config r : route_of name config = Some r → sr_name r = name.
Proof. unfold route_of. intros H. destruct_matches_in H. done. Qed.

Lemma from_config_fold l (g : ServiceRegistry) service :
  NoDup l.*1 →
  foldl (λ g e, match route_of e.1 e.2 with Some r => add_route g r | None => g end) g l !! service =
  match list_to_map (M := gmap string ServiceConfig) l !! service ≫= route_of service with
  | Some r => Some r
  | None => g !! service
  end.
Proof.
  revert g. induction l as [|[name config] l IH]; intros g Hl; [done|].
  apply NoDup_cons in Hl as [Hnew Hl]. simpl. rewrite IH by done.
  destruct (decide (name = service)) as [->|Hne].
  - rewrite lookup_insert_eq. simpl.
    rewrite (not_elem_of_list_to_map_1 l service) by done. simpl.
    destruct (route_of service config) as [r|] eqn:E; [|done].
    unfold add_route. rewrite (route_of_name _ _ _ E). apply lookup_insert_eq.
  - rewrite lookup_insert_ne by done. destruct (list_to_map l !! service ≫= _); [done|].
    destruct (route_of name config) as [r|] eqn:E; [|done].
    unfold add_route. rewrite (route_of_name _ _ _ E). by apply lookup_insert_ne.
Qed.

Lemma from_config_lookup services name :
  from_config services !! name = services !! name ≫= route_of name.
Proof.
  unfold from_config. rewrite from_config_fold by apply btree_iter_NoDup.
  assert (list_to_map (M := gmap string ServiceConfig) (btree_iter services) !! name
          = services !! name) as ->.
  2: { destruct (services !! name ≫= _); [done|]. apply lookup_empty. }
  apply option_eq. intros c. rewrite <- (btree_iter_elem services). split.
  - apply elem_of_list_to_map_2.
  - apply elem_of_list_to_map_1, btree_iter_NoDup.
Qed.

(** a request reaches exactly the route of its first path segment: the
    path, without one leading slash, is the name of a configured API service
    with a host pattern, followed by the remainder that is passed on; no other
    request matches, and one that matches goes to that service's host with
    that service's key. *)
Theorem match_route_exact services path r remainder :
  match_route (from_config services) path = Some (r, remainder) ↔
  ∃ name config, default path (strip_prefix "/" path) = name +:+ remainder ∧
    contains_char slash name = false ∧
    (remainder = EmptyString ∨ starts_with "/" remainder = true) ∧
    services !! name = Some config ∧ route_of name config = Some r.
Proof.
  unfold match_route. pose proof (split_route_spec path) as Hs.
  destruct (split_route path) as [service rest]. destruct Hs as (Hp & Hc & Hr).
  rewrite from_config_lookup. split.
  - intros H. destruct (services !! service) as [config|] eqn:E; [|done]. simpl in H.
    destruct (route_of service config) as [r'|] eqn:Er; [|done]. injection H as <- <-.
    exists service, config. auto.
  - intros (name & config & Hp' & Hc' & Hr' & Hconf & Hroute).
    enough (service = name ∧ rest = remainder) as [-> ->] by (rewrite Hconf; simpl; by rewrite Hroute).
    rewrite Hp in Hp'. clear Hp Hconf Hroute. revert name Hp' Hc'. unfold contains_char in *.
    induction service as [|c service IH]; intros [|d name] Hp' Hc'; simpl in *.
    + auto.
    + exfalso. subst rest. destruct Hr as [|Hr]; [done|]. simpl in Hr.
      unfold slash in Hc'. destruct (ascii_eqb "/" d); done.
    + exfalso. subst remainder. destruct Hr' as [|Hr']; [done|]. simpl in Hr'.
      unfold slash in Hc. destruct (ascii_eqb "/" c); done.
    + injection Hp' as -> Hp'. split_bools.
      destruct (IH ltac:(done) name Hp' ltac:(done)) as [-> ->]. done.
Qed.

(** ** Credential profiles *)

(** The three routes that do not inject the key with a template of their own:
    their destination, key and header are fixed. *)
Definition special_routes : list ServiceRoute :=
  [mk_route "twilio" "https://api.twilio.com" "TWILIO_AUTH_TOKEN" "Authorization" "Basic {secret}"
     BasicPassword None;
   mk_route "google_ai" "https://generativelanguage.googleapis.com" "GEMINI_API_KEY"
     "x-goog-api-key" "{secret}" GoogleApiKey None;
   mk_route "posthog_fleet" "https://us.i.posthog.com" "POSTHOG_API_KEY" "Authorization"
     "Bearer {secret}" PostHogCapture None].

(** configuration cannot borrow a credential profile: whatever services a
    repository configures, a route with any profile but the standard one is,
    field for field, one of the three built-in routes; the PostHog route
    admits nothing but the posting of events; and the other two admit every
    request. *)
Theorem profiles_trusted services name r :
  from_config services !! name = Some r → sr_credential_profile r ≠ Standard →
  r ∈ special_routes ∧ name = sr_name r ∧
  ∀ method remainder, allows_request r method remainder = true ↔
    (sr_credential_profile r = PostHogCapture →
     method = "POST" ∧ upstream_path r remainder ∈ ["/i/v1/analytics/events"; "/i/v1/analytics/events/"]).
Proof.
  intros H Hp. rewrite from_config_lookup in H.
  destruct (services !! name) as [config|]; [|done]. simpl in H.
  split_and!; [|by rewrite (route_of_name _ _ _ H)|].
  - unfold route_of in H. destruct (sc_pattern config) as [pattern|] eqn:Epat; [|done].
    destruct (String.eqb (sc_secret_type config) "api_key"); [|done]. injection H as <-.
    simpl in Hp. unfold for_configured_route in *.
    destruct (bool_decide_reflect (trusted_builtin_proxy_service name = Some config)) as [Ht|];
      [|done].
    destruct (String.eqb_spec name "twilio") as [->|];
      [|destruct (String.eqb_spec name "google_ai") as [->|];
        [|destruct (String.eqb_spec name "posthog_fleet") as [->|]; [|done]]];
      vm_compute in Ht; injection Ht as <-; injection Epat as <-; simpl; set_solver.
  - intros method remainder. unfold allows_request.
    destruct (bool_decide_reflect (sr_credential_profile r = PostHogCapture)); simpl; [|naive_solver].
    rewrite andb_true_iff, orb_true_iff, !String.eqb_eq, !elem_of_cons, elem_of_nil. naive_solver.
Qed.

(** ** Overrides *)

Lemma default_services_trusted :
  Forall (λ name, is_Some (trusted_builtin_proxy_service name)) DEFAULT_PROXY_SERVICE_NAMES.
Proof. repeat constructor; by eexists. Qed.

(** The variables a default configuration exports are removed from a child's
    inherited environment; of the built-in routes, three export one that
    [known_override_env_names] does not list. *)
Lemma default_overrides_known :
  Forall (λ o, o.1 ∈ known_override_env_names)
    (base_url_overrides_with_token (from_config default_services) 8080 None).
Proof.
  apply (bool_decide_unpack _). vm_compute. exact I.
Qed.

Lemma unknown_overrides :
  filter (λ v, v ∉ known_override_env_names)
    (TRUSTED_PROXY_SERVICES ≫= λ d,
       match route_of (tp_name d) (service_config d) with
       | Some r => map fst (route_overrides 8080 None (tp_name d) r)
       | None => []
       end) = ["DEVIN_BASE_URL"; "CURSOR_BASE_URL"; "FLEET_EMAIL_BASE_URL"].
Proof. vm_compute. reflexivity. Qed.

(** ** Examples *)

Definition sample_services : gmap string ServiceConfig :=
  <["mine" := mk_service "MY_KEY" (Some "api.example.com") None None "api_key"]>
    (<["twilio" := mk_service "TWILIO_AUTH_TOKEN" (Some "api.twilio.com") (Some "Authorization")
                     (Some "Basic {secret}") "api_key"]> default_services).

Definition upstream_of (path : string) : option string :=
  '(r, remainder) ← match_route (from_config sample_services) path;
  Some (sr_target_base r +:+ upstream_path r remainder).

Example upstream_examples :
  map upstream_of ["/openai/chat/completions"; "/openai/v1/models"; "openai//v1/models";
                   "/openai/v1x"; "/mine/a/b"; "/mine"; "/database/x"; "/other"] =
  [Some "https://api.openai.com/v1/chat/completions"; Some "https://api.openai.com/v1/models";
   Some "https://api.openai.com/v1/models"; Some "https://api.openai.com/v1/v1x";
   Some "https://api.example.com/a/b"; Some "https://api.example.com"; None; None].
Proof. vm_compute. reflexivity. Qed.

Lemma profiles_trusted_witness :
  ∃ r, from_config sample_services !! "twilio" = Some r ∧ r ∈ special_routes.
Proof.
  eexists. split; [vm_compute; reflexivity|].
  apply (profiles_trusted sample_services "twilio"); [vm_compute; reflexivity|].
  vm_compute. discriminate.
Defined.
