(* ===== verification/ProxyPath.v ===== *)
(** * Request paths and queries: [crates/phantom-proxy/src/server.rs]

    The pure helpers of the proxy server: percent decoding, the guard against
    path segments that an upstream could resolve, the URL-carried session
    token, the rebuilding of the query, and the confinement of upstream
    cookies to a route. *)

From S2P Require Import Prelude Text.

(** ** Percent decoding *)

(** The inner [fn hex] of [percent_decode_bytes] *)
Definition hex (c : ascii) : option N :=
  let b := N_of_ascii c in
  if byte_in "0"%char "9"%char c then Some (b - 48)%N
  else if byte_in "a"%char "f"%char c then Some (b - 97 + 10)%N
  else if byte_in "A"%char "F"%char c then Some (b - 65 + 10)%N
  else None.

Definition percent : ascii := "%".
Definition backslash : ascii := "092"%char.

(** [fn percent_decode_bytes]; [percent_decode] is the same on a [&str]. *)
Fixpoint percent_decode_bytes (s : string) (plus_as_space : bool) : string :=
  match s with
  | EmptyString => EmptyString
  | String c s1 =>
      if ascii_eqb c percent then
        match s1 with
        | String h (String l s3) =>
            match hex h, hex l with
            | Some high, Some low =>
                String (ascii_of_N (N.lor (N.shiftl high 4) low))
                  (percent_decode_bytes s3 plus_as_space)
            | _, _ => String percent (percent_decode_bytes s1 plus_as_space)
            end
        | _ => String percent (percent_decode_bytes s1 plus_as_space)
        end
      else if ascii_eqb c "+" && plus_as_space then
        String " " (percent_decode_bytes s1 plus_as_space)
      else String c (percent_decode_bytes s1 plus_as_space)
  end.

(** [fn percent_decode_query_component] *)
Definition percent_decode_query_component (s : string) : string := percent_decode_bytes s true.

(** ** The path guard *)

Definition MAX_PATH_DECODE_LAYERS : nat := 4.

(** The bytes of a string that satisfy a test *)
Fixpoint filter_bytes (p : ascii → bool) (s : string) : string :=
  match s with
  | EmptyString => EmptyString
  | String c s' => if p c then String c (filter_bytes p s') else filter_bytes p s'
  end.

(** Tab, newline and carriage return *)
Definition is_url_whitespace (c : ascii) : bool :=
  ascii_eqb c "009"%char || ascii_eqb c "010"%char || ascii_eqb c "013"%char.

(** [fn is_dot_segment_or_has_separator] *)
Definition is_dot_segment_or_has_separator (decoded : string) : bool :=
  let significant := filter_bytes (λ c, negb (is_url_whitespace c)) decoded in
  String.eqb significant "." || String.eqb significant ".."
  || contains_char "/" decoded || contains_char backslash decoded.

(** The loop over the decoding layers of a segment, [layers] of them left *)
Fixpoint segment_refused (layers : nat) (layer : string) : bool :=
  match layers with
  | O => true
  | S layers' =>
      let decoded := percent_decode_bytes layer false in
      if is_dot_segment_or_has_separator decoded then true
      else if String.eqb decoded layer then false
      else segment_refused layers' decoded
  end.

(** [fn path_has_dot_segment_or_encoded_separator] *)
Definition path_has_dot_segment_or_encoded_separator (path : string) : bool :=
  contains_char backslash path
  || existsb (segment_refused MAX_PATH_DECODE_LAYERS) (split_char "/" path).

(** ** The session token in the path *)

Definition PATH_AUTH_SEGMENT : string := "_phantom".

(** [fn strip_path_proxy_token] *)
Definition strip_path_proxy_token (path : string) : string * option string :=
  match split_char "/" path with
  | first :: route :: segment :: token :: rest =>
      if str_is_empty first && negb (str_is_empty route) && String.eqb segment PATH_AUTH_SEGMENT
      then (join "/" (first :: route :: rest), Some token)
      else (path, None)
  | _ => (path, None)
  end.

(** [fn path_has_path_auth_segment] *)
Definition path_has_path_auth_segment (path : string) : bool :=
  existsb (λ segment, eq_ignore_ascii_case (percent_decode_bytes segment false) PATH_AUTH_SEGMENT)
    (split_char "/" path).

(** [fn constant_time_eq]: its result, not its timing *)
Definition constant_time_eq (a b : string) : bool :=
  (String.length a =? String.length b)%nat && String.eqb a b.

(** ** The query *)

(** The decoded name of a [name=value] pair *)
Definition pair_name (pair : string) : string :=
  percent_decode_query_component match split_once "=" pair with Some (name, _) => name | None => pair end.

(** Whether a pair is one of the parameters that are never forwarded *)
Definition is_owned_param (owned_params : list string) (pair : string) : bool :=
  existsb (eq_ignore_ascii_case (pair_name pair)) ("phantom_token" :: owned_params).

(** [fn filter_query] *)
Definition filter_query (raw : option string) (owned_params : list string) : string :=
  match raw with
  | None => EmptyString
  | Some raw =>
      match List.filter (λ pair, negb (is_owned_param owned_params pair)) (split_char "&" raw) with
      | [] => EmptyString
      | kept => "?" +:+ join "&" kept
      end
  end.

(** [fn carries_phantom_token]: some four bytes are the marker, in any case *)
Definition carries_phantom_token (value : string) : bool :=
  contains_str "phm_" (to_ascii_lowercase value).

(** ** Cookies *)

(** The name of a cookie attribute *)
Definition attribute_name (attribute : string) : string :=
  trim match split_once "=" attribute with Some (name, _) => name | None => attribute end.

(** Whether an attribute is dropped *)
Definition attribute_dropped (attribute : string) : bool :=
  str_is_empty attribute || eq_ignore_ascii_case (attribute_name attribute) "path"
  || eq_ignore_ascii_case (attribute_name attribute) "domain".

(** The attribute of a cookie, if it is kept *)
Definition cookie_attribute (attribute : string) : list string :=
  let attribute := trim attribute in
  if attribute_dropped attribute then [] else [attribute].

(** [fn scope_set_cookie_to_route] *)
Definition scope_set_cookie_to_route (value route_name : string) : option string :=
  if str_is_empty route_name
     || negb (all_bytes (λ c, is_ascii_graphic c && negb (ascii_eqb c ";") && negb (ascii_eqb c ","))
                route_name)
  then None
  else match split_char ";" value with
       | first :: parts =>
           let cookie := trim first in
           if str_is_empty cookie then None
           else Some (join "; " (cookie :: (parts ≫= cookie_attribute) ++ ["Path=/" +:+ route_name]))
       | [] => None
       end.

(** ** Decoding until nothing changes *)

Lemma str_len_ind (P : string → Prop) :
  (∀ s, (∀ t, (String.length t < String.length s)%nat → P t) → P s) → ∀ s, P s.
Proof.
  intros Hstep s. enough (∀ n t, (String.length t < n)%nat → P t) as H by (apply (H (S (String.length s))); lia).
  induction n as [|n IH]; intros t Ht; [lia|]. apply Hstep. intros u Hu. apply IH. lia.
Qed.

Lemma decode_no_percent s :
  contains_char percent s = false → percent_decode_bytes s false = s.
Proof.
  unfold contains_char. induction s as [|c s IH]; simpl; [done|]. intros H.
  apply orb_false_iff in H as [Hc Hs]. unfold ascii_eqb in *. rewrite Ascii.eqb_sym in Hc.
  rewrite Hc, andb_false_r, IH; done.
Qed.

(** The decoding layers of a segment *)
Definition decoded_layer (n : nat) (segment : string) : string :=
  Nat.iter n (λ s, percent_decode_bytes s false) segment.

Lemma decoded_layer_fixed n s :
  percent_decode_bytes s false = s → decoded_layer n s = s.
Proof. intros Hs. induction n as [|n IH]; [done|]. simpl. unfold decoded_layer in *. by rewrite IH. Qed.

Lemma decoded_layer_succ n s :
  decoded_layer (S n) s = decoded_layer n (percent_decode_bytes s false).
Proof.
  unfold decoded_layer. induction n as [|n IH]; [done|]. simpl in *. by rewrite IH.
Qed.

Lemma segment_refused_spec n s :
  segment_refused n s = false ↔
  (∀ j, is_dot_segment_or_has_separator (decoded_layer (S j) s) = false) ∧
  ∃ m, n = S m ∧ decoded_layer n s = decoded_layer m s.
Proof.
  revert s. induction n as [|n IH]; intros s; cbn [segment_refused]; [naive_solver|].
  destruct (is_dot_segment_or_has_separator (percent_decode_bytes s false)) eqn:Hbad.
  { split; [done|]. intros [H _]. specialize (H 0%nat).
    change (decoded_layer 1 s) with (percent_decode_bytes s false) in H. congruence. }
  destruct (String.eqb_spec (percent_decode_bytes s false) s) as [Hfix|Hne].
  - split; [|done]. intros _. split.
    + intros j. rewrite decoded_layer_fixed by done. by rewrite Hfix in Hbad.
    + exists n. split; [done|]. by rewrite !decoded_layer_fixed.
  - rewrite IH. split; intros [Hall (m & Hm & Heq)].
    + split.
      * intros [|j]; [done|]. rewrite decoded_layer_succ. apply Hall.
      * exists n. split; [done|]. subst n. by rewrite (decoded_layer_succ (S m) s), (decoded_layer_succ m s).
    + injection Hm as <-. split.
      * intros j. rewrite <- decoded_layer_succ. apply Hall.
      * destruct n as [|n]; [by destruct Hne|]. exists n. split; [done|].
        by rewrite <- !decoded_layer_succ.
Qed.

Lemma dot_segment_decodes s :
  is_dot_segment_or_has_separator s = true →
  contains_char "/" s = false → contains_char backslash s = false →
  percent_decode_bytes s false = s.
Proof.
  unfold is_dot_segment_or_has_separator. intros H H1 H2.
  rewrite H1, H2, !orb_false_r in H. apply decode_no_percent. unfold contains_char.
  assert (∀ s, any_byte (ascii_eqb percent) s = true →
    any_byte (ascii_eqb percent) (filter_bytes (λ c, negb (is_url_whitespace c)) s) = true) as Hkeep.
  { clear. induction s as [|c s IH]; simpl; [done|]. intros H.
    destruct (ascii_eqb percent c) eqn:Hc.
    - apply ascii_eqb_eq in Hc as <-. done.
    - destruct (negb (is_url_whitespace c)); simpl; [rewrite Hc|]; by apply IH. }
  destruct (any_byte (ascii_eqb percent) s) eqn:E; [|done]. apply Hkeep in E.
  apply orb_true_iff in H as [H|H]; apply String.eqb_eq in H; by rewrite H in E.
Qed.

Lemma path_admitted path :
  path_has_dot_segment_or_encoded_separator path = false →
  ∀ segment, segment ∈ split_char "/" path →
  ∀ n, is_dot_segment_or_has_separator (decoded_layer n segment) = false.
Proof.
  unfold path_has_dot_segment_or_encoded_separator. rewrite orb_false_iff.
  intros [Hback Hsegs] seg Hseg. assert (segment_refused MAX_PATH_DECODE_LAYERS seg = false) as Hs.
  { rewrite <- not_true_iff_false in Hsegs |- *. contradict Hsegs. apply existsb_exists.
    exists seg. by rewrite <- list_elem_of_In. }
  apply segment_refused_spec in Hs as [Hall _].
  intros [|n]; [|apply Hall]. specialize (Hall 0%nat). simpl in Hall |- *.
  destruct (is_dot_segment_or_has_separator seg) eqn:Hd; [|done].
  rewrite dot_segment_decodes, Hd in Hall; [done..| |].
  + by eapply split_char_pieces.
  + rewrite <- (join_split_char "/" path) in Hback. revert Hback Hseg. unfold contains_char.
    generalize (split_char "/" path). clear. induction l as [|p l IH]; [set_solver|].
    intros Hj [->|Hp]%elem_of_cons.
    * destruct l as [|q l]; [done|]. rewrite join_cons, any_byte_app in Hj. by split_bools.
    * destruct l as [|q l]; [set_solver|]. rewrite join_cons, !any_byte_app in Hj.
      split_bools. by apply IH.
Qed.

(** the path guard lets through exactly the paths none of whose segments,
    however many times it is percent-decoded, is a dot segment or contains a
    separator, and whose decoding is settled within the layers inspected: so
    no upstream, proxy or URL parser, decoding as often as it likes, can
    resolve an admitted path to another one. *)
Theorem path_guard_exact path :
  path_has_dot_segment_or_encoded_separator path = false ↔
  ∀ segment, segment ∈ split_char "/" path →
    (∀ n, is_dot_segment_or_has_separator (decoded_layer n segment) = false) ∧
    decoded_layer MAX_PATH_DECODE_LAYERS segment =
      decoded_layer (Nat.pred MAX_PATH_DECODE_LAYERS) segment.
Proof.
  split.
  - intros Hg seg Hseg. split; [by apply (path_admitted path)|].
    unfold path_has_dot_segment_or_encoded_separator in Hg. apply orb_false_iff in Hg as [_ Hsegs].
    assert (segment_refused MAX_PATH_DECODE_LAYERS seg = false) as Hs.
    { rewrite <- not_true_iff_false in Hsegs |- *. contradict Hsegs. apply existsb_exists.
      exists seg. by rewrite <- list_elem_of_In. }
    apply segment_refused_spec in Hs as [_ (m & Hm & Heq)]. by injection Hm as <-.
  - intros Hall. unfold path_has_dot_segment_or_encoded_separator. apply orb_false_iff. split.
    + rewrite <- (join_split_char "/" path). unfold contains_char.
      assert (∀ seg, seg ∈ split_char "/" path → any_byte (ascii_eqb backslash) seg = false) as Hb.
      { intros seg Hseg. destruct (Hall seg Hseg) as [H _]. specialize (H 0%nat). simpl in H.
        unfold is_dot_segment_or_has_separator in H. by split_bools. }
      revert Hb. generalize (split_char "/" path). clear. induction l as [|p l IH]; [done|].
      intros Hb. destruct l as [|q l]; [apply Hb; set_solver|].
      rewrite join_cons, !any_byte_app, (Hb p), IH by set_solver. done.
    + apply not_true_iff_false. rewrite existsb_exists. intros (seg & Hin & Hr).
      apply list_elem_of_In in Hin. destruct (Hall seg Hin) as [Hbad Heq].
      enough (segment_refused MAX_PATH_DECODE_LAYERS seg = false) by congruence.
      apply segment_refused_spec. split; [intros j; apply Hbad|by eexists].
Qed.

(** the session token of a URL is read back exactly where it is written:
    a path splits into a token and the rest precisely when it is a route, the
    marker segment, the token and a remainder, and what is left is the same
    path without the pair. *)
Theorem strip_path_token_exact path path' token :
  strip_path_proxy_token path = (path', Some token) ↔
  ∃ route remainder,
    path = "/" +:+ route +:+ "/_phantom/" +:+ token +:+ remainder ∧
    path' = "/" +:+ route +:+ remainder ∧ route ≠ EmptyString ∧
    contains_char "/" route = false ∧ contains_char "/" token = false ∧
    (remainder = EmptyString ∨ starts_with "/" remainder = true).
Proof.
  unfold strip_path_proxy_token. split.
  - intros H. pose proof (join_split_char "/" path) as Hj.
    pose proof (split_char_pieces "/" path) as Hp.
    destruct (split_char "/" path) as [|first [|route [|seg [|tok rest]]]]; try done.
    destruct (str_is_empty first && _ && _) eqn:E; [|done]. injection H as <- <-.
    split_bools. destruct first; [|done]. apply String.eqb_eq in H0 as ->.
    exists route, match rest with [] => EmptyString | _ => "/" +:+ join "/" rest end.
    rewrite <- Hj. rewrite !join_cons.
    split_and!; [..|by destruct route|apply Hp; set_solver|apply Hp; set_solver|].
    + destruct rest as [|r rest]; simpl; [by rewrite str_app_nil_r|done].
    + destruct rest as [|r rest]; simpl; [by rewrite str_app_nil_r|done].
    + destruct rest; [by left|by right].
  - intros (route & remainder & -> & -> & Hne & Hr & Ht & Hrem).
    assert (split_char "/" ("/" +:+ route +:+ "/_phantom/" +:+ token +:+ remainder) =
      EmptyString :: route :: PATH_AUTH_SEGMENT :: token ::
        match remainder with EmptyString => [] | String _ q => split_char "/" q end) as ->.
    { simpl. rewrite split_char_app by done. f_equal. f_equal. simpl. f_equal.
      destruct remainder as [|c q]; [by rewrite str_app_nil_r, split_char_one|].
      destruct Hrem as [|Hc]; [done|]. simpl in Hc. apply andb_true_iff in Hc as [Hc _].
      apply ascii_eqb_eq in Hc as <-. by rewrite split_char_app. }
    destruct route as [|c route]; [done|]. cbn [str_is_empty negb andb].
    rewrite String.eqb_refl. f_equal. rewrite !join_cons.
    destruct remainder as [|d q]; [by rewrite str_app_nil_r|].
    destruct Hrem as [|Hc]; [done|]. simpl in Hc. apply andb_true_iff in Hc as [Hc _].
    apply ascii_eqb_eq in Hc as <-.
    pose proof (split_char_not_nil "/" q). pose proof (join_split_char "/" q) as Hq.
    destruct (split_char "/" q) as [|x xs]; [done|]. rewrite join_cons, Hq. done.
Qed.

(** The parameters an upstream reads from a query with its question mark *)
Definition query_pairs (query : string) : list string :=
  match strip_prefix "?" query with Some pairs => split_char "&" pairs | None => [] end.

Lemma filter_query_pairs_Some raw owned :
  query_pairs (filter_query (Some raw) owned) =
    List.filter (λ pair, negb (is_owned_param owned pair)) (split_char "&" raw).
Proof.
  unfold filter_query.
  pose proof (split_char_pieces "&" raw) as Hp.
  assert (∀ p, p ∈ List.filter (λ pair, negb (is_owned_param owned pair)) (split_char "&" raw) →
    contains_char "&" p = false) as Hk.
  { intros p [Hin _]%list_elem_of_In%filter_In. apply Hp. by apply list_elem_of_In. }
  destruct (List.filter _ _) as [|k ks]; [done|]. unfold query_pairs.
  rewrite (proj2 (strip_prefix_Some "?" _ _) eq_refl). by apply split_char_join.
Qed.

(** the query that is forwarded has exactly the parameters of the client
    that are not owned, byte for byte and in their order: the session token
    and the credential parameters of the route, however their names are
    written, never reach the upstream, and nothing else is lost. *)
Theorem filter_query_exact raw owned :
  query_pairs (filter_query (Some raw) owned) =
    List.filter (λ pair, negb (is_owned_param owned pair)) (split_char "&" raw) ∧
  (∀ pair, pair ∈ query_pairs (filter_query (Some raw) owned) →
     Forall (λ name, eq_ignore_ascii_case (pair_name pair) name = false) ("phantom_token" :: owned)) ∧
  (filter_query (Some raw) owned = EmptyString ∨
   starts_with "?" (filter_query (Some raw) owned) = true).
Proof.
  pose proof (filter_query_pairs_Some raw owned) as Heq.
  split_and!; [done| |].
  - intros pair. rewrite Heq. intros [_ Hk]%list_elem_of_In%filter_In.
    apply negb_true_iff in Hk. unfold is_owned_param in Hk. apply Forall_forall. intros name Hname.
    destruct (eq_ignore_ascii_case (pair_name pair) name) eqn:E; [|done].
    rewrite <- not_true_iff_false in Hk. contradict Hk. apply existsb_exists. exists name.
    by rewrite <- list_elem_of_In.
  - unfold filter_query. destruct (List.filter _ _); [by left|by right].
Qed.

(** A parameter that may not be forwarded, however its name is written *)
Definition owned_name (owned : list string) (pair : string) : Prop :=
  Exists (λ name, eq_ignore_ascii_case (pair_name pair) name = true) ("phantom_token" :: owned).

Lemma is_owned_param_spec owned pair : is_owned_param owned pair = true ↔ owned_name owned pair.
Proof.
  unfold is_owned_param, owned_name. rewrite existsb_exists, Exists_exists.
  by setoid_rewrite list_elem_of_In.
Qed.

(** The pairs of the client's query, if it has one *)
Definition client_pairs (raw : option string) : list string :=
  match raw with Some raw => split_char "&" raw | None => [] end.

Lemma filter_query_pairs raw owned :
  query_pairs (filter_query raw owned) = List.filter (λ pair, negb (is_owned_param owned pair)) (client_pairs raw).
Proof. destruct raw as [raw|]; [apply filter_query_pairs_Some|done]. Qed.

Lemma filter_query_forwards raw owned pair :
  pair ∈ query_pairs (filter_query raw owned) ↔ pair ∈ client_pairs raw ∧ ¬ owned_name owned pair.
Proof.
  rewrite filter_query_pairs, !list_elem_of_In, filter_In, negb_true_iff, <- is_owned_param_spec, not_true_iff_false.
  done.
Qed.

Lemma filter_query_order raw owned : query_pairs (filter_query raw owned) `sublist_of` client_pairs raw.
Proof. rewrite filter_query_pairs. induction (client_pairs raw) as [|p l IH]; cbn; [done|]. destruct (negb _); by constructor. Qed.

(** an upstream cookie is confined to its route: the rewritten cookie has
    the client's name and value, the other attributes in their order, no
    [Domain], and one [Path], which is the route; it is dropped only when the
    route cannot be written in a cookie path or the cookie is empty. *)
Theorem set_cookie_scoped value route :
  match scope_set_cookie_to_route value route with
  | Some scoped =>
      ∃ cookie kept,
        map trim (split_char ";" scoped) = cookie :: kept ++ ["Path=/" +:+ route] ∧
        head (map trim (split_char ";" value)) = Some cookie ∧
        kept = List.filter (λ a, negb (attribute_dropped a)) (tail (map trim (split_char ";" value))) ∧
        Forall (λ a, eq_ignore_ascii_case (attribute_name a) "path" = false ∧
                     eq_ignore_ascii_case (attribute_name a) "domain" = false) kept
  | None =>
      route = EmptyString ∨
      any_byte (λ c, negb (is_ascii_graphic c) || ascii_eqb c ";" || ascii_eqb c ",") route = true ∨
      head (map trim (split_char ";" value)) = Some EmptyString
  end.
Proof.
  unfold scope_set_cookie_to_route. destruct (str_is_empty route) eqn:Hr.
  { left. by destruct route. }
  cbn [orb]. clear Hr.
  assert (Hg : ∀ s, all_bytes (λ c, is_ascii_graphic c && negb (ascii_eqb c ";")
      && negb (ascii_eqb c ",")) s =
    negb (any_byte (λ c, negb (is_ascii_graphic c) || ascii_eqb c ";" || ascii_eqb c ",") s)).
  { induction s as [|c s IH]; simpl; [done|]. rewrite IH, !negb_orb, negb_involutive. done. }
  rewrite Hg, negb_involutive. destruct (any_byte _ route) eqn:Hbad; [by right; left|].
  assert (Hroute : contains_char ";" ("Path=/" +:+ route) = false ∧ trimmed ("Path=/" +:+ route)).
  { split.
    - clear -Hbad. unfold contains_char. simpl. induction route as [|c s IH]; simpl in *; [done|].
      split_bools. rewrite IH by done. unfold ascii_eqb in *. rewrite Ascii.eqb_sym.
      by rewrite orb_false_r.
    - apply graphic_trimmed. simpl. clear -Hbad. induction route as [|c s IH]; simpl in *; [done|].
      split_bools. rewrite H. by apply IH. }
  pose proof (split_char_pieces ";" value) as Hp.
  destruct (split_char ";" value) as [|first parts] eqn:Es; [by destruct (split_char_not_nil ";" value)|].
  simpl map. simpl head. simpl tail. destruct (str_is_empty (trim first)) eqn:He.
  { right; right. by destruct (trim first). }
  assert (Hkept : parts ≫= cookie_attribute =
    List.filter (λ a, negb (attribute_dropped a)) (map trim parts)).
  { clear. induction parts as [|a parts IH]; [done|]. rewrite bind_cons, IH. simpl.
    unfold cookie_attribute. by destruct (attribute_dropped (trim a)). }
  exists (trim first), (parts ≫= cookie_attribute). split_and!; [|done|done|].
  - rewrite app_comm_cons. apply split_join_space; [done..|]. intros q Hq.
    apply elem_of_app in Hq as [Hq|Hq]; [|apply list_elem_of_singleton in Hq as ->; done].
    apply elem_of_cons in Hq as [->|Hq].
    + split; [apply trim_contains, Hp; set_solver|apply trim_trimmed].
    + rewrite Hkept in Hq. apply list_elem_of_In, filter_In in Hq as [Hq _].
      apply in_map_iff in Hq as (a & <- & Ha).
      split; [apply trim_contains, Hp; apply list_elem_of_In in Ha; set_solver|apply trim_trimmed].
  - rewrite Hkept. apply Forall_forall. intros a Ha.
    apply list_elem_of_In, filter_In in Ha as [_ Ha]. apply negb_true_iff in Ha.
    unfold attribute_dropped in Ha. by split_bools.
Qed.

Example paths_refused :
  map path_has_dot_segment_or_encoded_separator
    ["/openai/v1/models"; "/openai/../admin"; "/openai/%2e%2E/x"; "/openai/%252e%252e/x";
     "/openai/a%2fb"; "/openai/a%25b"; "/openai/%2525252525"] =
  [false; true; true; true; true; false; true].
Proof. vm_compute. reflexivity. Qed.

Example queries :
  map (λ q, filter_query (Some q) ["key"; "api_key"])
    ["a=1&KEY=x&b=2"; "ph%61ntom_token=t"; ""; "api%5Fkey=1&c"] = ["?a=1&b=2"; ""; "?"; "?c"].
Proof. vm_compute. reflexivity. Qed.

Example cookies :
  scope_set_cookie_to_route "sid=1; Path=/; HttpOnly; Domain=example.com ; Secure" "openai" =
  Some "sid=1; HttpOnly; Secure; Path=/openai".
Proof. vm_compute. reflexivity. Qed.
