(* ===== verification/Interceptor.v ===== *)
(** * Credential injection: [crates/phantom-proxy/src/interceptor.rs]

    The [Interceptor]: the session's tokens and secrets, and the header values
    made from a named secret.  (The response analyzer of the same file is in
    [Scrubber].)  Base64 is a crate: the class [Base64]. *)

From S2P Require Import Prelude Text.

(** The [base64] crate's STANDARD engine *)
Class Base64 := {
  base64_encode : string → string;
  base64_decode : string → option string;
}.

(** [Interceptor]; a [SecretValue] is its string. *)
Record Interceptor := mk_interceptor {
  token_map : gmap string string;
  token_secret_keys : gmap string string;
  named_secrets : gmap string string;
}.

(** [Interceptor::new_with_named]: a token belongs to the one secret that has
    its value, if there is only one. *)
Definition token_owner (named : gmap string string) (value : string) : option string :=
  match List.filter (λ e, String.eqb e.2 value) (map_to_list named) with
  | [(name, _)] => Some name
  | _ => None
  end.

Definition new_with_named (mappings named : gmap string string) : Interceptor :=
  mk_interceptor mappings (omap (token_owner named) mappings) named.

(** [Interceptor::new_scoped] *)
Definition new_scoped (mappings : gmap string (string * string)) (named : gmap string string)
    : Interceptor :=
  mk_interceptor (snd <$> mappings) (fst <$> mappings) named.

(** [s.replace(pattern, replacement)] for a pattern that is not empty; [skip]
    bytes of a match that was replaced are still to be dropped. *)
Fixpoint replace_from (skip : nat) (pattern replacement s : string) : string :=
  match s with
  | EmptyString => EmptyString
  | String c s' =>
      match skip with
      | S k => replace_from k pattern replacement s'
      | O => if starts_with pattern s
             then replacement +:+ replace_from (String.length pattern - 1) pattern replacement s'
             else String c (replace_from 0 pattern replacement s')
      end
  end.

Definition replace (pattern replacement s : string) : string :=
  replace_from 0 pattern replacement s.

(** [Interceptor::format_header_for_secret_key] *)
Definition format_header_for_secret_key (i : Interceptor) (format secret_key : string)
    : option string :=
  option_map (λ secret, replace "{secret}" secret format) (named_secrets i !! secret_key).

(** [Interceptor::format_basic_auth_for_secret_key] *)
Definition format_basic_auth_for_secret_key `{Base64} (i : Interceptor)
    (username secret_key : string) : option string :=
  if contains_char ":" username then None
  else option_map (λ secret, "Basic " +:+ base64_encode (username +:+ ":" +:+ secret))
         (named_secrets i !! secret_key).

(** The compatibility operations: nothing of the client is ever resolved.
    [replace_in_str], [replace_in_bytes] and their variants for a secret; *)
Definition replace_in_str (i : Interceptor) (input : string) : string * bool := (input, false).

Definition replace_in_str_for_secret (i : Interceptor) (input secret_key : string)
    : string * bool := (input, false).

(** [format_header_value], [resolve] and [contains_phantom_token] *)
Definition format_header_value (i : Interceptor) (format phantom_token : string)
    : option string := None.

Definition resolve (i : Interceptor) (phantom_token : string) : option string := None.

Definition contains_phantom_token (i : Interceptor) (value : string) : bool := false.

(** [Interceptor::max_secret_len] *)
Definition max_secret_len (i : Interceptor) : nat :=
  foldr (λ e m, Nat.max (String.length e.2) m) 0%nat (map_to_list (token_map i)).

(** The pairs of [to_response_scrubber_with_injected]: every token and its
    secret, and the value this request sent, if it is not empty. *)
Definition scrubber_pairs (i : Interceptor) (injected : option (string * string))
    : list (string * string) :=
  map_to_list (token_map i) ++
  match injected with
  | Some (name, value) => if str_is_empty value then [] else [(name, value)]
  | None => []
  end.
