(* ===== verification/ProxyServer.v ===== *)
(** * The proxy's request side: [crates/phantom-proxy/src/server.rs]

    [handle_request] from the arrival of a request to the request that is sent
    upstream: authentication, the path guards, routing, the limits, the
    injection of the route's credential, and the headers and body that are
    forwarded.  The upstream exchange and the response are not part of it.

    A header map is the list of its entries in iteration order; hyper stores
    names in lower case.  Body frames arrive with what the shared budget has
    left at that moment, which other requests change, and after waits: the
    rate limiter records a request when its head is handled, the request is
    sent when its body has come, up to [REQUEST_BODY_TIMEOUT] later. *)

From S2P Require Import Prelude Text RateLimiter Services ProxyPath Interceptor.

Record ProxyState := mk_state {
  ps_registry : ServiceRegistry;
  ps_interceptor : Interceptor;
  ps_rate_limiter : RateLimiterInner;
  ps_request_slots : N;
  ps_proxy_token : string;
  ps_allow_query_token_auth : bool;
  ps_max_body_size : N;
}.

Definition headers : Type := list (string * string).

Definition REQUEST_BODY_TIMEOUT : Duration := from_secs 30.

(** What the body stream yields: data, with the permits the buffer budget has
    at that moment; a frame of another kind; an error.  Before each of them
    and before the end the handler may wait. *)
Inductive body_event :=
  | BodyData (data : string) (budget : N)
  | BodyOther
  | BodyReadFailed
  | BodyWait (wait : Duration).

Record Request := mk_request {
  rq_method : string;
  rq_path : string;
  rq_query : option string;
  rq_headers : headers;
  rq_body : list body_event;
}.

(** The responses the proxy makes itself before it contacts an upstream *)
Inductive Refusal :=
  | MissingToken | MisplacedToken | UnsafePath | NoRoute | NotPermitted | NoCapacity
  | RateLimited (d : RateDecision) | NoUsername | NoCredential
  | BodyTooLarge | BudgetExhausted | BodyUnreadable | BodyTimedOut.

Definition refusal_status (r : Refusal) : N :=
  match r with
  | MissingToken => 401
  | MisplacedToken | UnsafePath | NoUsername | BodyUnreadable => 400
  | NoRoute => 404
  | NotPermitted => 403
  | NoCapacity | NoCredential | BudgetExhausted => 503
  | RateLimited _ => 429
  | BodyTooLarge => 413
  | BodyTimedOut => 408
  end.

Record Upstream := mk_upstream {
  up_route : ServiceRoute;
  up_method : string;
  up_url : string;
  up_headers : headers;
  up_body : string;
}.

Inductive Outcome :=
  | Refused (why : Refusal)
  | Healthy
  | Forwarded (u : Upstream).

(** ** Headers *)

(** [HeaderValue::to_str] *)
Definition to_str (value : string) : option string :=
  if all_bytes (λ c, byte_in " "%char "~"%char c || ascii_eqb c "009"%char) value
  then Some value else None.

(** [headers.get(name)]: the first value; the name is looked up in lower case. *)
Definition header_get (h : headers) (name : string) : option string :=
  option_map snd (List.find (λ e, String.eqb e.1 (to_ascii_lowercase name)) h).

Definition HOP_BY_HOP_HEADERS : list string :=
  ["connection"; "keep-alive"; "proxy-connection"; "proxy-authenticate"; "proxy-authorization";
   "te"; "trailer"; "transfer-encoding"; "upgrade"].

(** The header names in one [Connection] value *)
Definition connection_names (value : string) : list string :=
  match to_str value with
  | Some text =>
      List.filter (λ n, negb (str_is_empty n))
        (map (λ n, to_ascii_lowercase (trim n)) (split_char "," text))
  | None => []
  end.

(** [fn connection_named_headers] *)
Definition connection_named_headers (h : headers) : list string :=
  List.filter (λ e, String.eqb e.1 "connection") h ≫= λ e, connection_names e.2.

(** [fn is_hop_by_hop] *)
Definition is_hop_by_hop (name : string) (connection_named : list string) : bool :=
  existsb (String.eqb name) HOP_BY_HOP_HEADERS || existsb (String.eqb name) connection_named.

(** The tests of the loop that copies the client's headers *)
Definition header_forwarded (r : ServiceRoute) (connection_named : list string)
    (name value : string) : bool :=
  negb (existsb (String.eqb name)
          ["host"; "accept-encoding"; "x-phantom-proxy-token"; "content-length"]
        || is_hop_by_hop name connection_named)
  && negb (eq_ignore_ascii_case name (sr_header r))
  && negb (existsb (eq_ignore_ascii_case name)
             (headers_carrying_phantom_token (owned_alternate_slots r))
           && carries_phantom_token value).

(** The client's headers that are copied *)
Definition forwarded_headers (r : ServiceRoute) (h : headers) : headers :=
  List.filter (λ e, header_forwarded r (connection_named_headers h) e.1 e.2) h.

(** ** Authentication *)

(** The token of the query, or the empty string *)
Definition query_token (query : option string) : string :=
  default EmptyString (q ← query; head (omap (strip_prefix "phantom_token=") (split_char "&" q))).

(** Whether the request passes the token check of [handle_request] *)
Definition authenticated (st : ProxyState) (rq : Request) (path_token : option string) : bool :=
  let token := ps_proxy_token st in
  let provided := default EmptyString (header_get (rq_headers rq) "x-phantom-proxy-token" ≫= to_str) in
  let valid_header_token := constant_time_eq provided token in
  let valid_path_token :=
    ps_allow_query_token_auth st
    && match path_token with Some t => constant_time_eq t token | None => false end in
  str_is_empty token || valid_header_token || valid_path_token
  || (ps_allow_query_token_auth st && constant_time_eq (query_token (rq_query rq)) token).

(** ** Credentials *)

Section credentials.
Context `{Base64}.

Definition username_byte (c : ascii) : bool :=
  is_ascii_alphanumeric c || existsb (ascii_eqb c) ["."; "_"; "-"; "@"; "+"]%char.

(** [fn basic_auth_username] *)
Definition basic_auth_username (value : string) : option string :=
  text ← to_str value;
  '(scheme, encoded) ← split_once " " (trim text);
  if negb (eq_ignore_ascii_case scheme "basic") then None else
  decoded ← base64_decode (trim encoded);
  '(username, _) ← split_once ":" decoded;
  if str_is_empty username || (128 <? String.length username)%nat
     || negb (all_bytes username_byte username) || carries_phantom_token username
  then None else Some username.

(** The value of the route's header, or why there is none *)
Definition configured_auth_header (st : ProxyState) (r : ServiceRoute) (h : headers)
    : result string Refusal :=
  match auth_injection r with
  | InjectBasicPassword =>
      let? username := ok_or (header_get h (sr_header r) ≫= basic_auth_username) NoUsername in
      ok_or (format_basic_auth_for_secret_key (ps_interceptor st) username (sr_secret_key r))
        NoCredential
  | Template =>
      ok_or (format_header_for_secret_key (ps_interceptor st) (sr_header_format r)
               (sr_secret_key r)) NoCredential
  end.

(** ** Bodies *)

(** [BufferReservation::try_reserve]: permits are counted in 32 bits. *)
Definition try_reserve (budget bytes : N) : bool :=
  (bytes =? 0)%N || ((bytes <=? u32_max)%N && (bytes <=? budget)%N).

(** The loop of [collect] under [tokio::time::timeout]: [left] is the time to
    the deadline. *)
Fixpoint collect_body (max_body_size : N) (left : Duration) (collected : string) (events : list body_event)
    : result string Refusal :=
  match events with
  | [] => Ok collected
  | BodyData data budget :: rest =>
      fail_if (max_body_size <? str_len collected + str_len data)%N BodyTooLarge
      (fail_if (negb (try_reserve budget (str_len data))) BudgetExhausted
       (collect_body max_body_size left (collected +:+ data) rest))
  | BodyOther :: rest => collect_body max_body_size left collected rest
  | BodyReadFailed :: _ => Err BodyUnreadable
  | BodyWait wait :: rest =>
      fail_if (left <? wait)%N BodyTimedOut (collect_body max_body_size (left - wait)%N collected rest)
  end.

(** ** The handler *)

(** From the matched route on: the limits, the credential and the forwarded
    request.  The limiter records the request at [now]; what follows up to the
    body neither waits nor reads the clock, and the body is waited for. *)
Definition forward (st : ProxyState) (rq : Request) (r : ServiceRoute) (remainder : string)
    (now : Instant) : RateLimiterInner * Outcome :=
  let slots := owned_alternate_slots r in
  let target_url := sr_target_base r +:+ upstream_path r remainder
    +:+ filter_query (rq_query rq) (query_params slots) in
  if (ps_request_slots st =? 0)%N then (ps_rate_limiter st, Refused NoCapacity) else
  let '(limiter, decision) := record (ps_rate_limiter st) now (sr_secret_key r) in
  if bool_decide (rd_class decision = Alert) then (limiter, Refused (RateLimited decision)) else
  (limiter,
   match (let? credential := configured_auth_header st r (rq_headers rq) in
          let? body := collect_body (ps_max_body_size st) REQUEST_BODY_TIMEOUT EmptyString (rq_body rq) in
          Ok (mk_upstream r (rq_method rq) target_url
                (forwarded_headers r (rq_headers rq)
                   ++ [(sr_header r, credential); ("accept-encoding", "identity")]) body)) with
   | Ok u => Forwarded u
   | Err why => Refused why
   end).

(** [handle_request], up to the upstream exchange: the new state of the rate
    limiter after the head was handled, at [now], and what becomes of the
    request when its body has come *)
Definition handle_request (st : ProxyState) (rq : Request) (now : Instant)
    : RateLimiterInner * Outcome :=
  let keep o := (ps_rate_limiter st, o) in
  let '(path, path_token) := strip_path_proxy_token (rq_path rq) in
  if negb (authenticated st rq path_token) then keep (Refused MissingToken)
  else if String.eqb path "/phantom/health" then keep Healthy
  else if path_has_path_auth_segment path then keep (Refused MisplacedToken)
  else if path_has_dot_segment_or_encoded_separator path then keep (Refused UnsafePath)
  else match match_route (ps_registry st) path with
       | None => keep (Refused NoRoute)
       | Some (r, remainder) =>
           if negb (allows_request r (rq_method rq) remainder) then keep (Refused NotPermitted)
           else forward st rq r remainder now
       end.
End credentials.

(** ** What a forwarded request is *)

Section theorems.
Context `{Base64}.

Lemma constant_time_eq_spec a b : constant_time_eq a b = true ↔ a = b.
Proof.
  unfold constant_time_eq. rewrite andb_true_iff, Nat.eqb_eq, String.eqb_eq. naive_solver.
Qed.

(** The ways a request proves that it belongs to the session *)
Definition presents_token (st : ProxyState) (rq : Request) : Prop :=
  ps_proxy_token st = EmptyString ∨
  default EmptyString (header_get (rq_headers rq) "x-phantom-proxy-token" ≫= to_str)
    = ps_proxy_token st ∨
  ps_allow_query_token_auth st = true ∧
  ((strip_path_proxy_token (rq_path rq)).2 = Some (ps_proxy_token st) ∨
   query_token (rq_query rq) = ps_proxy_token st).

Lemma authenticated_spec st rq :
  authenticated st rq (strip_path_proxy_token (rq_path rq)).2 = true ↔ presents_token st rq.
Proof.
  unfold authenticated, presents_token. rewrite !orb_true_iff, !andb_true_iff.
  rewrite !constant_time_eq_spec.
  assert (str_is_empty (ps_proxy_token st) = true ↔ ps_proxy_token st = EmptyString) as ->
    by by destruct (ps_proxy_token st).
  assert ((match (strip_path_proxy_token (rq_path rq)).2 with
           | Some t => constant_time_eq t (ps_proxy_token st) | None => false end) = true ↔
    (strip_path_proxy_token (rq_path rq)).2 = Some (ps_proxy_token st)) as ->.
  { destruct (strip_path_proxy_token (rq_path rq)).2; [rewrite constant_time_eq_spec|];
      naive_solver. }
  tauto.
Qed.

(** The bytes of the data frames of a body *)
Fixpoint body_data (events : list body_event) : string :=
  match events with
  | BodyData data _ :: rest => data +:+ body_data rest
  | _ :: rest => body_data rest
  | [] => EmptyString
  end.

Definition body_readable (e : body_event) : Prop :=
  match e with BodyReadFailed => False | _ => True end.

(** How long a body is waited for *)
Fixpoint body_wait (events : list body_event) : Duration :=
  match events with
  | BodyWait wait :: rest => (wait + body_wait rest)%N
  | _ :: rest => body_wait rest
  | [] => 0%N
  end.

Lemma collect_body_Ok max left events collected body :
  (str_len collected <= max)%N → collect_body max left collected events = Ok body →
  body = collected +:+ body_data events ∧ (str_len body <= max)%N ∧ Forall body_readable events ∧
  (body_wait events <= left)%N.
Proof.
  revert left collected. induction events as [|[data budget| | |wait] events IH]; intros left collected Hlen Hb;
    simpl in *; try done.
  - injection Hb as <-. rewrite str_app_nil_r. split_and!; [done..|lia].
  - apply fail_if_Ok in Hb as [Hmax Hb]. apply fail_if_Ok in Hb as [_ Hb].
    apply N.ltb_ge in Hmax. apply IH in Hb as (-> & Hl & Hr & Ht); [|by rewrite str_len_app].
    rewrite str_app_assoc. split_and!; [done|by rewrite str_app_assoc in Hl|by constructor|done].
  - apply IH in Hb as (-> & Hl & Hr & Ht); [|done]. split_and!; [done..|by constructor|done].
  - apply fail_if_Ok in Hb as [Hw%N.ltb_ge Hb]. apply IH in Hb as (-> & Hl & Hr & Ht); [|done].
    split_and!; [done..|by constructor|lia].
Qed.

(** What [handle_request] does, by the guard that decides. *)
Lemma handle_request_forwarded st rq now limiter u :
  handle_request st rq now = (limiter, Forwarded u) →
  let '(path, path_token) := strip_path_proxy_token (rq_path rq) in
  authenticated st rq path_token = true ∧ path_has_path_auth_segment path = false ∧
  path_has_dot_segment_or_encoded_separator path = false ∧
  ∃ r remainder, match_route (ps_registry st) path = Some (r, remainder) ∧
    allows_request r (rq_method rq) remainder = true ∧
    forward st rq r remainder now = (limiter, Forwarded u).
Proof.
  unfold handle_request. destruct (strip_path_proxy_token (rq_path rq)) as [path token].
  destruct (authenticated st rq token); simpl; [|done].
  destruct (String.eqb path _); [done|]. destruct (path_has_path_auth_segment path); [done|].
  destruct (path_has_dot_segment_or_encoded_separator path); [done|].
  destruct (match_route _ _) as [[r remainder]|]; [|done].
  destruct (allows_request r (rq_method rq) remainder) eqn:E; simpl; [|done]. eauto 10.
Qed.

Lemma forward_forwarded st rq r remainder now limiter u :
  forward st rq r remainder now = (limiter, Forwarded u) →
  up_route u = r ∧ up_method u = rq_method rq ∧
  up_url u = sr_target_base r +:+ upstream_path r remainder
    +:+ filter_query (rq_query rq) (query_params (owned_alternate_slots r)) ∧
  (∃ credential, configured_auth_header st r (rq_headers rq) = Ok credential ∧
     up_headers u = forwarded_headers r (rq_headers rq)
       ++ [(sr_header r, credential); ("accept-encoding", "identity")]) ∧
  collect_body (ps_max_body_size st) REQUEST_BODY_TIMEOUT EmptyString (rq_body rq) = Ok (up_body u) ∧
  ps_request_slots st ≠ 0%N ∧
  ∃ decision, record (ps_rate_limiter st) now (sr_secret_key r) = (limiter, decision) ∧
    rd_class decision ≠ Alert.
Proof.
  unfold forward. destruct (N.eqb_spec (ps_request_slots st) 0); [done|].
  destruct (record _ _ _) as [l decision].
  destruct (bool_decide_reflect (rd_class decision = Alert)); [done|].
  destruct (configured_auth_header _ _ _) as [credential|]; [|done]. simpl.
  destruct (collect_body _ _ _) as [body|]; [|done]. simpl. intros [= <- <-]. simpl.
  split_and!; try done; [by eexists|by eexists].
Qed.

(** Every segment of a route's remainder is a segment of the path. *)
Lemma route_segments path service remainder :
  default path (strip_prefix "/" path) = service +:+ remainder →
  contains_char "/" service = false →
  (remainder = EmptyString ∨ starts_with "/" remainder = true) →
  ∀ segment, segment ∈ split_char "/" remainder → segment = EmptyString ∨ segment ∈ split_char "/" path.
Proof.
  intros Hp Hs [->|Hr] seg Hseg; [apply list_elem_of_singleton in Hseg; by left|].
  destruct remainder as [|c q]; [done|]. simpl in Hr. apply andb_true_iff in Hr as [Hc _].
  apply ascii_eqb_eq in Hc as <-. simpl in Hseg. apply elem_of_cons in Hseg as [->|Hseg]; [by left|].
  right. destruct (strip_prefix "/" path) as [p|] eqn:E; simpl in Hp.
  - apply strip_prefix_Some in E as ->. subst p. simpl. rewrite split_char_app by done. set_solver.
  - subst path. rewrite split_char_app by done. set_solver.
Qed.

(** C26: what the proxy sends upstream was asked for by the session, for that
    route, and stays on it: the request presented the session's token; the
    route is the one its path names, and permits the method and path; the URL
    is the route's host, the settled path, and a query.  No segment that the
    client chose can be decoded, however often, to a dot segment or to a
    separator, and none is the token marker, literally or decoded once (one
    that has to be decoded twice passes); the query has exactly those of the
    client's parameters, in their order, whose decoded name is neither the
    token's nor that of a credential parameter of the route, in any case.  The
    body is all of the client's body, within the limit, and came within its
    deadline; and the rate limiter did not object. *)
Theorem forwarded_authorized st rq now limiter u :
  handle_request st rq now = (limiter, Forwarded u) →
  presents_token st rq ∧
  ∃ remainder query,
    match_route (ps_registry st) (strip_path_proxy_token (rq_path rq)).1
      = Some (up_route u, remainder) ∧
    allows_request (up_route u) (rq_method rq) remainder = true ∧
    up_method u = rq_method rq ∧
    up_url u = sr_target_base (up_route u) +:+ upstream_path (up_route u) remainder +:+ query ∧
    (∀ segment, segment ∈ split_char "/" remainder →
       (∀ n, is_dot_segment_or_has_separator (decoded_layer n segment) = false) ∧
       eq_ignore_ascii_case (decoded_layer 1 segment) PATH_AUTH_SEGMENT = false) ∧
    (∀ pair, pair ∈ query_pairs query ↔
       pair ∈ client_pairs (rq_query rq) ∧
       ¬ owned_name (query_params (owned_alternate_slots (up_route u))) pair) ∧
    query_pairs query `sublist_of` client_pairs (rq_query rq) ∧
    up_body u = body_data (rq_body rq) ∧ (str_len (up_body u) <= ps_max_body_size st)%N ∧
    Forall body_readable (rq_body rq) ∧ (body_wait (rq_body rq) <= REQUEST_BODY_TIMEOUT)%N ∧
    ∃ decision, record (ps_rate_limiter st) now (sr_secret_key (up_route u)) = (limiter, decision) ∧
      rd_class decision ≠ Alert.
Proof.
  intros Hh. apply handle_request_forwarded in Hh.
  pose proof (authenticated_spec st rq) as Hauth.
  destruct (strip_path_proxy_token (rq_path rq)) as [path token]. cbn [fst snd] in Hauth |- *.
  destruct Hh as (Ha & Hsegs & Hdots & r & remainder & Hm & Hallow & Hf).
  apply forward_forwarded in Hf as (-> & Hmethod & Hurl & _ & Hbody & _ & Hrate).
  apply collect_body_Ok in Hbody as (Hb1 & Hb2 & Hb3 & Hb4); [|unfold str_len; simpl; lia].
  split; [by apply Hauth|].
  exists remainder, (filter_query (rq_query rq) (query_params (owned_alternate_slots r))).
  split_and!; try done; [|apply filter_query_forwards|apply filter_query_order].
  intros seg Hseg. unfold match_route in Hm. pose proof (split_route_spec path) as Hsplit.
  destruct (split_route path) as [service rest]. destruct (ps_registry st !! service); [|done].
  injection Hm as -> ->. destruct Hsplit as (Hp & Hns & Hr).
  destruct (route_segments _ _ _ Hp Hns Hr _ Hseg) as [->|Hin]; [split; [|done]|split].
  - intros n. rewrite decoded_layer_fixed by done. done.
  - by apply (path_admitted path).
  - unfold path_has_path_auth_segment in Hsegs. rewrite <- not_true_iff_false in Hsegs |- *.
    contradict Hsegs. apply existsb_exists. exists seg. by rewrite <- list_elem_of_In.
Qed.

(** How the value of the route's header is made: from the secret of the
    route's own key and, on a Basic route, the username the client sent *)
Definition credential_of (st : ProxyState) (r : ServiceRoute) (h : headers) (credential : string)
    : Prop :=
  ∃ secret, named_secrets (ps_interceptor st) !! sr_secret_key r = Some secret ∧
    match auth_injection r with
    | Template => credential = replace "{secret}" secret (sr_header_format r)
    | InjectBasicPassword =>
        ∃ username, header_get h (sr_header r) ≫= basic_auth_username = Some username ∧
          contains_char ":" username = false ∧
          credential = "Basic " +:+ base64_encode (username +:+ ":" +:+ secret)
    end.

Lemma configured_auth_header_spec st r h credential :
  configured_auth_header st r h = Ok credential ↔ credential_of st r h credential.
Proof.
  unfold configured_auth_header, credential_of, format_header_for_secret_key,
    format_basic_auth_for_secret_key. destruct (auth_injection r).
  - destruct (named_secrets (ps_interceptor st) !! sr_secret_key r); cbn [option_map ok_or];
      naive_solver.
  - destruct (header_get h (sr_header r) ≫= basic_auth_username) as [username|];
      cbn [ok_or rbind]; [|naive_solver].
    destruct (contains_char ":" username) eqn:E; cbn [ok_or].
    { split; [done|]. intros (secret & _ & u & [= <-] & Hu & _). congruence. }
    destruct (named_secrets (ps_interceptor st) !! sr_secret_key r) as [secret|];
      cbn [option_map ok_or]; [|naive_solver]. split.
    + intros [= <-]. eauto 10.
    + intros (secret' & [= <-] & u & [= <-] & _ & ->). done.
Qed.

Lemma sublist_filter {A} (f : A → bool) l : List.filter f l `sublist_of` l.
Proof.
  induction l as [|x l IH]; simpl; [done|].
  destruct (f x); [by apply sublist_skip|by apply sublist_cons].
Qed.

(** C18: the upstream sees one credential and the client cannot touch it: a
    forwarded request carries the client's headers that may pass, in their
    order and unchanged, then the route's header with the value made from the
    route's own secret; none of the copied headers is that header in any
    spelling, is hop-by-hop, carries the proxy's token, or smuggles a token
    of the session into another slot the provider reads a credential from. *)
Theorem credential_confined st rq now limiter u :
  handle_request st rq now = (limiter, Forwarded u) →
  ∃ credential,
    credential_of st (up_route u) (rq_headers rq) credential ∧
    up_headers u = forwarded_headers (up_route u) (rq_headers rq)
      ++ [(sr_header (up_route u), credential); ("accept-encoding", "identity")] ∧
    forwarded_headers (up_route u) (rq_headers rq) `sublist_of` rq_headers rq ∧
    ∀ name value, (name, value) ∈ forwarded_headers (up_route u) (rq_headers rq) →
      eq_ignore_ascii_case name (sr_header (up_route u)) = false ∧
      (name ∉ "host" :: "content-length" :: "accept-encoding" :: "x-phantom-proxy-token"
        :: HOP_BY_HOP_HEADERS ++ connection_named_headers (rq_headers rq)) ∧
      (Exists (λ owned, eq_ignore_ascii_case name owned = true)
         (headers_carrying_phantom_token (owned_alternate_slots (up_route u))) →
       carries_phantom_token value = false).
Proof.
  intros Hh. apply handle_request_forwarded in Hh.
  destruct (strip_path_proxy_token (rq_path rq)) as [path token].
  destruct Hh as (_ & _ & _ & r & remainder & _ & _ & Hf).
  apply forward_forwarded in Hf as (-> & _ & _ & (credential & Hc & Hheaders) & _).
  exists credential. split_and!; [by apply configured_auth_header_spec|done| |].
  - apply sublist_filter.
  - intros name value [_ Hf]%list_elem_of_In%filter_In. unfold header_forwarded in Hf.
    cbn [fst snd] in Hf. apply andb_true_iff in Hf as [Hf Hslot]. apply andb_true_iff in Hf as [Hn He].
    apply negb_true_iff in Hn, He, Hslot. split_and!; [done| |].
    + intros Hin. rewrite <- not_true_iff_false in Hn. contradict Hn. unfold is_hop_by_hop.
      rewrite !orb_true_iff, !existsb_exists. setoid_rewrite <- list_elem_of_In.
      setoid_rewrite String.eqb_eq.
      assert (name ∈ ["host"; "accept-encoding"; "x-phantom-proxy-token"; "content-length"] ∨
        name ∈ HOP_BY_HOP_HEADERS ∨ name ∈ connection_named_headers (rq_headers rq)) by set_solver.
      naive_solver.
    + intros (owned & Hin & Heq)%Exists_exists. apply andb_false_iff in Hslot as [Hslot|]; [|done].
      rewrite <- not_true_iff_false in Hslot. contradict Hslot. apply existsb_exists.
      exists owned. by rewrite <- list_elem_of_In.
Qed.

(** The same session with other secrets and tokens *)
Definition with_interceptor (st : ProxyState) (i : Interceptor) : ProxyState :=
  mk_state (ps_registry st) i (ps_rate_limiter st) (ps_request_slots st) (ps_proxy_token st)
    (ps_allow_query_token_auth st) (ps_max_body_size st).

(** no other secret is involved: what becomes of a request does not depend
    on the session's tokens, nor on any secret but the one of the route that
    its path names; so a client that sends tokens of the session, in headers,
    URL or body, learns and reaches nothing by them. *)
Theorem secrets_isolated st i rq now :
  (∀ r remainder,
     match_route (ps_registry st) (strip_path_proxy_token (rq_path rq)).1 = Some (r, remainder) →
     named_secrets i !! sr_secret_key r = named_secrets (ps_interceptor st) !! sr_secret_key r) →
  handle_request (with_interceptor st i) rq now = handle_request st rq now.
Proof.
  unfold handle_request. destruct (strip_path_proxy_token (rq_path rq)) as [path token].
  cbn [fst]. intros Hi. change (authenticated (with_interceptor st i) rq token)
    with (authenticated st rq token).
  repeat match goal with |- (if ?b then _ else _) = _ => destruct b; [done|] end. simpl.
  destruct (match_route (ps_registry st) path) as [[r remainder]|] eqn:Hm; [|done].
  destruct (negb _); [done|]. specialize (Hi r remainder eq_refl).
  assert (configured_auth_header (with_interceptor st i) r (rq_headers rq)
    = configured_auth_header st r (rq_headers rq)) as Hc.
  { unfold configured_auth_header, format_header_for_secret_key, format_basic_auth_for_secret_key.
    simpl. by rewrite Hi. }
  unfold forward. rewrite Hc. done.
Qed.

(** ** A session: requests one after the other *)

(** When a request is handled, how many request slots are free then, and the
    request *)
Definition arrival : Type := Instant * N * Request.

Definition arrivals_times (arrivals : list arrival) : list Instant := map (λ a, a.1.1) arrivals.

(** The state when a request is handled *)
Definition at_arrival (st : ProxyState) (limiter : RateLimiterInner) (slots : N) : ProxyState :=
  mk_state (ps_registry st) (ps_interceptor st) limiter slots (ps_proxy_token st)
    (ps_allow_query_token_auth st) (ps_max_body_size st).

(** When the limiter recorded a request that was forwarded, when it was sent
    upstream, and for which secret *)
Record sending := mk_sending { sn_recorded : Instant; sn_sent : Instant; sn_key : string }.

Definition recorded_request (s : sending) : request := (sn_recorded s, sn_key s).

(** The heads are handled in turn, bodies are waited for meanwhile; the limiter
    is only touched by heads.  The result is the limiter's last state, and what
    was forwarded. *)
Fixpoint run_session (st : ProxyState) (limiter : RateLimiterInner) (arrivals : list arrival)
    : RateLimiterInner * list sending :=
  match arrivals with
  | [] => (limiter, [])
  | (now, slots, rq) :: rest =>
      let '(limiter1, outcome) := handle_request (at_arrival st limiter slots) rq now in
      let '(limiter2, sent) := run_session st limiter1 rest in
      (limiter2,
       match outcome with
       | Forwarded u => mk_sending now (now + body_wait (rq_body rq))%N (sr_secret_key (up_route u)) :: sent
       | _ => sent
       end)
  end.

Lemma handle_request_limiter st rq now :
  let '(limiter, outcome) := handle_request st rq now in
  (limiter = ps_rate_limiter st ∧ ∀ u, outcome ≠ Forwarded u) ∨
  ∃ key decision, record (ps_rate_limiter st) now key = (limiter, decision) ∧
    ∀ u, outcome = Forwarded u → sr_secret_key (up_route u) = key ∧ rd_class decision ≠ Alert.
Proof.
  unfold handle_request. destruct (strip_path_proxy_token (rq_path rq)) as [path token].
  repeat match goal with
    |- let '(_, _) := if ?b then _ else _ in _ => destruct b; [left; naive_solver|] end.
  destruct (match_route _ _) as [[r remainder]|]; [|left; naive_solver].
  destruct (negb _); [left; naive_solver|].
  unfold forward. destruct (N.eqb _ _); [left; naive_solver|].
  destruct (record _ _ _) as [l d] eqn:E.
  destruct (bool_decide_reflect (rd_class d = Alert)); right; exists (sr_secret_key r), d;
    (split; [done|]); [done|].
  intros u. destruct (configured_auth_header _ _ _); simpl; [|done].
  destruct (collect_body _ _ _); simpl; [|done]. by intros [= <-].
Qed.

(** The limiter sees some of the arrivals in their order, and everything that
    is sent is something it admits. *)
Lemma run_session_admitted st c rs arrivals :
  let '(limiter, sent) := run_session st (serve (new_inner c) rs).1 arrivals in
  ∃ rs', times rs' `sublist_of` arrivals_times arrivals ∧
    ∃ more, admitted c (rs ++ rs') = admitted c rs ++ more ∧ map recorded_request sent `sublist_of` more.
Proof.
  revert rs. induction arrivals as [|[[now slots] rq] rest IH]; intros rs; cbn [run_session].
  { exists []. split; [done|]. exists []. by rewrite !app_nil_r. }
  pose proof (handle_request_limiter (at_arrival st (serve (new_inner c) rs).1 slots) rq now) as Hh.
  destruct (handle_request _ rq now) as [limiter outcome].
  cbn [ps_rate_limiter at_arrival] in Hh.
  destruct Hh as [[-> Hout]|(key & d & Hrec & Hout)].
  - specialize (IH rs). destruct (run_session st _ rest) as [l sent].
    destruct IH as (rs' & Hsub & more & Hmore & Hsent). exists rs'.
    split; [by apply sublist_cons|]. exists more. split; [done|].
    by destruct outcome as [| |u]; [..|destruct (Hout u)].
  - assert ((serve (new_inner c) (rs ++ [(now, key)])).1 = limiter) as Hl.
    { rewrite serve_snoc. destruct (serve (new_inner c) rs) as [i ds]. simpl in Hrec.
      by rewrite Hrec. }
    specialize (IH (rs ++ [(now, key)])). rewrite Hl in IH.
    destruct (run_session st _ rest) as [l sent].
    destruct IH as (rs' & Hsub & more & Hmore & Hsent).
    rewrite admitted_record, Hrec, <- !app_assoc in Hmore. cbn [snd app] in Hmore.
    exists ((now, key) :: rs'). split; [by apply sublist_skip|]. eexists. split; [exact Hmore|].
    destruct outcome as [| |u]; [by apply sublist_inserts_l..|].
    destruct (Hout u eq_refl) as [-> Hd]. destruct (decide _); [|done]. by apply sublist_skip.
Qed.

Lemma sublist_sorted (ts ts' : list Instant) :
  ts `sublist_of` ts' → clock_forward ts' → clock_forward ts.
Proof.
  unfold clock_forward. induction 1 as [|t ts ts' Hsub IH|t ts ts' Hsub IH]; [done| |];
    intros [Hs Hf]%StronglySorted_inv; [|by apply IH]. constructor; [by apply IH|].
  rewrite Forall_forall in Hf |- *. intros s Hin. apply Hf.
  by eapply elem_of_sublist; [|exact Hsub]. 
Qed.

Lemma sublist_filter_length (P : request → Prop) `{∀ r, Decision (P r)} (l l' : list request) :
  l `sublist_of` l' → (length (filter P l) <= length (filter P l'))%nat.
Proof.
  induction 1; [done| |]; rewrite ?filter_cons; repeat case_decide; simpl; lia.
Qed.

(** What is sent was recorded at most a body's deadline before. *)
Definition timely (s : sending) : Prop := (sn_recorded s <= sn_sent s <= sn_recorded s + REQUEST_BODY_TIMEOUT)%N.

Lemma forwarded_in_time st rq now limiter u :
  handle_request st rq now = (limiter, Forwarded u) → (body_wait (rq_body rq) <= REQUEST_BODY_TIMEOUT)%N.
Proof.
  intros Hh%handle_request_forwarded. destruct (strip_path_proxy_token (rq_path rq)) as [path token].
  destruct Hh as (_ & _ & _ & r & remainder & _ & _ & Hf). apply forward_forwarded in Hf as (_ & _ & _ & _ & Hb & _).
  apply collect_body_Ok in Hb; [apply Hb|unfold str_len; simpl; lia].
Qed.

Lemma run_session_timely st limiter arrivals : Forall timely (run_session st limiter arrivals).2.
Proof.
  revert limiter. induction arrivals as [|[[now slots] rq] rest IH]; intros limiter; cbn [run_session]; [constructor|].
  destruct (handle_request _ rq now) as [limiter1 outcome] eqn:Eh. specialize (IH limiter1).
  destruct (run_session st limiter1 rest) as [limiter2 sent]. cbn [snd] in *.
  destruct outcome as [| |u]; [done..|]. apply forwarded_in_time in Eh. constructor; [|done]. unfold timely. cbn. lia.
Qed.

(** Sent in the ten seconds that start at [from] *)
Definition sent_in (from : Instant) (s : sending) : Prop := (from <= sn_sent s ∧ sn_sent s <= from + from_secs 10)%N.

#[export] Instance sent_in_dec from s : Decision (sent_in from s).
Proof. unfold sent_in. apply _. Defined.

(** What is sent in ten seconds was recorded in one of four stretches of ten
    seconds. *)
Lemma sent_recorded from s : timely s → sent_in from s →
  in_burst (from - from_secs 30)%N (recorded_request s) ∨ in_burst (from - from_secs 20)%N (recorded_request s) ∨
  in_burst (from - from_secs 10)%N (recorded_request s) ∨ in_burst from (recorded_request s).
Proof.
  unfold timely, sent_in, in_burst, REQUEST_BODY_TIMEOUT, from_secs. destruct s as [recorded sent key]. cbn. lia.
Qed.

Lemma sent_count (P : request → Prop) `{∀ r, Decision (P r)} from l : Forall timely l →
  (length (filter (λ s, sent_in from s ∧ P (recorded_request s)) l) <=
   length (filter (λ r, in_burst (from - from_secs 30)%N r ∧ P r) (map recorded_request l)) +
   length (filter (λ r, in_burst (from - from_secs 20)%N r ∧ P r) (map recorded_request l)) +
   length (filter (λ r, in_burst (from - from_secs 10)%N r ∧ P r) (map recorded_request l)) +
   length (filter (λ r, in_burst from r ∧ P r) (map recorded_request l)))%nat.
Proof.
  induction 1 as [|s l Ht _ IH]; [done|]. cbn [map]. pose proof (sent_recorded from s Ht) as Hs.
  rewrite !filter_cons. repeat case_decide; cbn [length]; try lia; exfalso; tauto.
Qed.

(** C32: bursts to the providers are bounded.  Of the requests that the proxy forwards
    in a session, whatever its clients send, at most [per_secret_10s_limit]
    for one secret passed the limiter in any ten seconds, and at most
    [burst_total_10s] in all.  A request is sent when its body has come, up to
    thirty seconds after it passed; so of those sent in any ten seconds, at
    most four times as many use one secret, and four times as many in all. *)
Theorem forward_rate_bounded st c arrivals from key :
  clock_forward (arrivals_times arrivals) →
  let sent := (run_session st (new_inner c) arrivals).2 in
  (N.of_nat (length (filter (λ r, in_burst from r ∧ r.2 = key) (map recorded_request sent))) <= per_secret_10s_limit c)%N ∧
  (N.of_nat (length (filter (λ r, in_burst from r ∧ True) (map recorded_request sent))) <= burst_total_10s c)%N ∧
  (N.of_nat (length (filter (λ s, sent_in from s ∧ sn_key s = key) sent)) <= 4 * per_secret_10s_limit c)%N ∧
  (N.of_nat (length (filter (λ s, sent_in from s ∧ True) sent)) <= 4 * burst_total_10s c)%N.
Proof.
  intros Hf. pose proof (run_session_admitted st c [] arrivals) as Hs. cbn [serve fst] in Hs.
  pose proof (run_session_timely st (new_inner c) arrivals) as Ht.
  destruct (run_session st (new_inner c) arrivals) as [limiter sent]. cbn [snd] in Ht |- *.
  destruct Hs as (rs & Hsub & more & Hmore & Hsent). cbn [app] in Hmore.
  change (admitted c []) with (@nil request) in Hmore. simpl in Hmore. subst more.
  assert (∀ from,
    (N.of_nat (length (filter (λ r, in_burst from r ∧ r.2 = key) (map recorded_request sent))) <= per_secret_10s_limit c)%N ∧
    (N.of_nat (length (filter (λ r, in_burst from r ∧ True) (map recorded_request sent))) <= burst_total_10s c)%N) as Hb.
  { intros from'. pose proof (admitted_bounded c rs from' key (sublist_sorted _ _ Hsub Hf)) as [H1 H2].
    split; (etrans; [|eassumption]); apply N2Z.inj_le; rewrite !nat_N_Z; apply inj_le; by apply sublist_filter_length. }
  pose proof (Hb from) as [H1 H2]. destruct (Hb (from - from_secs 10)%N), (Hb (from - from_secs 20)%N), (Hb (from - from_secs 30)%N).
  pose proof (sent_count (λ r, r.2 = key) from sent Ht). pose proof (sent_count (λ _, True) from sent Ht).
  split_and!; [done|done| |]; [cbn [recorded_request snd] in *; lia|lia].
Qed.
End theorems.

(** ** A session with the built-in routes

    The [base64] crate stands in by the identity here. *)

Definition demo_base64 : Base64 := {| base64_encode s := s; base64_decode s := Some s |}.

Definition demo_secrets : gmap string string :=
  {[ "OPENAI_API_KEY" := "sk-live-0123456789"; "ANTHROPIC_API_KEY" := "sk-ant-9876543210" ]}.

Definition demo_state (secrets : gmap string string) : ProxyState :=
  mk_state (from_config default_services) (mk_interceptor ∅ ∅ secrets) (new_inner default_config)
    8 "session-token" false 1024.

Definition demo_request (body : list body_event) : Request :=
  mk_request "POST" "/openai/v1//chat" (Some "stream=1&phantom_token=guess&key=phm_x")
    [("x-phantom-proxy-token", "session-token"); ("Authorization", "Bearer phm_stolen");
     ("connection", "close, x-trace"); ("x-trace", "7"); ("accept", "*/*")] body.

Definition demo_body : list body_event := [BodyData "{a:" 100; BodyOther; BodyData "1}" 98].

Definition demo_outcome : Outcome :=
  (handle_request (H := demo_base64) (demo_state demo_secrets) (demo_request demo_body)
     (from_secs 5)).2.

Definition demo_upstream : Upstream :=
  match demo_outcome with
  | Forwarded u => u
  | _ => mk_upstream (mk_route "" "" "" "" "" Standard None) "" "" [] ""
  end.

Example demo_forwarded :
  up_url demo_upstream = "https://api.openai.com/v1//chat?stream=1&key=phm_x" ∧
  up_headers demo_upstream =
    [("accept", "*/*"); ("Authorization", "Bearer sk-live-0123456789");
     ("accept-encoding", "identity")] ∧ up_body demo_upstream = "{a:1}".
Proof. vm_compute. auto. Qed.

Definition demo_limiter : RateLimiterInner :=
  (handle_request (H := demo_base64) (demo_state demo_secrets) (demo_request demo_body)
     (from_secs 5)).1.

Lemma demo_handled :
  handle_request (H := demo_base64) (demo_state demo_secrets) (demo_request demo_body) (from_secs 5)
  = (demo_limiter, Forwarded demo_upstream).
Proof. vm_compute. reflexivity. Qed.

Lemma forwarded_authorized_witness :
  presents_token (demo_state demo_secrets) (demo_request demo_body) ∧ up_body demo_upstream = "{a:1}".
Proof.
  destruct (@forwarded_authorized demo_base64 (demo_state demo_secrets) (demo_request demo_body)
    (from_secs 5) demo_limiter demo_upstream demo_handled)
    as (Hp & remainder & query & _ & _ & _ & _ & _ & _ & _ & Hb & _).
  split; [exact Hp|rewrite Hb; vm_compute; reflexivity].
Defined.

Lemma credential_confined_witness :
  ∃ credential, @credential_of demo_base64 (demo_state demo_secrets) (up_route demo_upstream)
    (rq_headers (demo_request demo_body)) credential.
Proof.
  destruct (@credential_confined demo_base64 (demo_state demo_secrets) (demo_request demo_body)
    (from_secs 5) demo_limiter demo_upstream demo_handled) as (credential & Hc & _).
  exists credential. exact Hc.
Defined.

Lemma secrets_isolated_witness :
  (handle_request (H := demo_base64) (demo_state {[ "OPENAI_API_KEY" := "sk-live-0123456789" ]})
     (demo_request demo_body) (from_secs 5)).2 = Forwarded demo_upstream.
Proof.
  change (demo_state {[ "OPENAI_API_KEY" := "sk-live-0123456789" ]}) with
    (with_interceptor (demo_state demo_secrets)
       (mk_interceptor ∅ ∅ {[ "OPENAI_API_KEY" := "sk-live-0123456789" ]})).
  rewrite (@secrets_isolated demo_base64 (demo_state demo_secrets)
    (mk_interceptor ∅ ∅ {[ "OPENAI_API_KEY" := "sk-live-0123456789" ]})
    (demo_request demo_body) (from_secs 5)); [by rewrite demo_handled|].
  assert (match_route (ps_registry (demo_state demo_secrets))
    (strip_path_proxy_token (rq_path (demo_request demo_body))).1
    = Some (up_route demo_upstream, "/v1//chat")) as -> by (vm_compute; reflexivity).
  intros r remainder Hm. apply (inj Some), pair_equal_spec in Hm as [<- _].
  vm_compute. reflexivity.
Defined.

Definition slow_body : list body_event := [BodyData "{a:" 100; BodyWait (from_secs 20); BodyData "1}" 98; BodyWait (from_secs 9)]%N.

(** One request is answered for want of a slot, one for its body; the second
    that is forwarded is sent 29 seconds after the limiter recorded it. *)
Definition demo_arrivals : list arrival :=
  [(from_secs 5, 8, demo_request demo_body); (from_secs 5, 0, demo_request demo_body);
   (from_secs 6, 8, demo_request [BodyReadFailed]); (from_secs 6, 8, demo_request slow_body);
   (from_secs 6, 8, demo_request [BodyWait (from_secs 31)])]%N.

Lemma forward_rate_bounded_witness :
  let sent := (@run_session demo_base64 (demo_state demo_secrets) (new_inner sample_config)
    demo_arrivals).2 in
  map sn_sent sent = [from_secs 5; from_secs 35] ∧
  (N.of_nat (length (filter (λ r, in_burst (from_secs 5) r ∧ r.2 = "OPENAI_API_KEY") (map recorded_request sent)))
     <= 10)%N.
Proof.
  split; [vm_compute; reflexivity|].
  apply (@forward_rate_bounded demo_base64 (demo_state demo_secrets) sample_config demo_arrivals
    (from_secs 5) "OPENAI_API_KEY").
  unfold clock_forward. vm_compute. repeat constructor; vm_compute; discriminate.
Defined.
