(* ===== verification/Bytes.v ===== *)
(** * Byte slices

    The [&[u8]] operations of the scrubber: slices as lists, with
    [starts_with], [take_while] and the bytes of a string. *)

From S2P Require Import Prelude.

Abbreviation bytes := (list ascii).

(** [as_bytes]; a [b] literal is the bytes of its text. *)
Fixpoint as_bytes (s : string) : bytes :=
  match s with EmptyString => [] | String c s' => c :: as_bytes s' end.

(** [s.starts_with(p)] on slices *)
Fixpoint bytes_start_with (p s : bytes) : bool :=
  match p, s with
  | [], _ => true
  | _, [] => false
  | a :: p', b :: s' => ascii_eqb a b && bytes_start_with p' s'
  end.

(** Equality of slices *)
Definition bytes_eqb (a b : bytes) : bool := bool_decide (a = b).

(** [iter().take_while(f)] and what is left *)
Fixpoint take_while {A} (f : A → bool) (l : list A) : list A :=
  match l with x :: l' => if f x then x :: take_while f l' else [] | [] => [] end.

Fixpoint drop_while {A} (f : A → bool) (l : list A) : list A :=
  match l with x :: l' => if f x then drop_while f l' else l | [] => [] end.

Lemma bytes_start_with_spec p s : bytes_start_with p s = true ↔ p `prefix_of` s.
Proof.
  revert s. induction p as [|a p IH]; intros [|b s]; simpl.
  - split; [intros; apply prefix_nil|done].
  - split; [intros; apply prefix_nil|done].
  - split; [done|]. intros [k Hk]. done.
  - rewrite andb_true_iff, ascii_eqb_eq, IH. split.
    + intros [-> Hp]. by apply prefix_cons.
    + intros Hp. split; [by eapply prefix_cons_inv_1|by eapply prefix_cons_inv_2].
Qed.

Lemma bytes_start_with_false p s : bytes_start_with p s = false ↔ ¬ p `prefix_of` s.
Proof. by rewrite <- bytes_start_with_spec, not_true_iff_false. Qed.

(** Of two prefixes of one slice, the shorter is a prefix of the longer. *)
Lemma prefix_shorter {A} (p q s : list A) :
  p `prefix_of` s → q `prefix_of` s → (length p <= length q)%nat → p `prefix_of` q.
Proof.
  intros [k ->] [k' Hq] Hl. exists (drop (length p) q).
  rewrite <- (take_drop (length p) q) at 1. f_equal.
  assert (take (length p) (p ++ k) = take (length p) (q ++ k')) as Ht by by rewrite Hq.
  rewrite take_app_length, take_app_le in Ht by done. done.
Qed.

Lemma prefix_weaken {A} (p l k : list A) : p `prefix_of` l → p `prefix_of` l ++ k.
Proof. intros [q ->]. exists (q ++ k). by rewrite app_assoc. Qed.

Lemma prefix_app_cut {A} (p l k : list A) :
  p `prefix_of` l ++ k → (length p <= length l)%nat → p `prefix_of` l.
Proof. intros Hp Hl. eapply prefix_shorter; [done| |done]. by exists k. Qed.

Section take_while.
Context {A : Type} (f : A → bool).

Lemma take_drop_while l : take_while f l ++ drop_while f l = l.
Proof. induction l as [|x l IH]; simpl; [done|]. destruct (f x); simpl; [by rewrite IH|done]. Qed.

Lemma take_while_all l : Forall (λ x, f x = true) (take_while f l).
Proof. induction l as [|x l IH]; simpl; [done|]. destruct (f x) eqn:E; by constructor. Qed.

Lemma drop_while_head l x l' : drop_while f l = x :: l' → f x = false.
Proof.
  induction l as [|y l IH]; simpl; [done|]. destruct (f y) eqn:E; [done|]. by intros [= <- <-].
Qed.

Lemma take_while_length l : (length (take_while f l) <= length l)%nat.
Proof. rewrite <- (take_drop_while l) at 2. rewrite length_app. lia. Qed.

(** A run that stops within [l] is not changed by what follows. *)
Lemma take_while_app_short l k :
  (length (take_while f l) < length l)%nat → take_while f (l ++ k) = take_while f l.
Proof.
  induction l as [|x l IH]; simpl; [lia|]. destruct (f x); simpl; [|done].
  intros Hl. rewrite IH by lia. done.
Qed.

Lemma take_while_app_all l k :
  length (take_while f l) = length l → take_while f (l ++ k) = l ++ take_while f k.
Proof.
  induction l as [|x l IH]; simpl; [done|]. destruct (f x); simpl; [|done].
  intros [= Hl]. by rewrite IH.
Qed.

Lemma take_while_id l : Forall (λ x, f x = true) l → take_while f l = l.
Proof. induction 1 as [|x l Hx Hl IH]; simpl; [done|]. by rewrite Hx, IH. Qed.

Lemma drop_while_length l : drop_while f l = drop (length (take_while f l)) l.
Proof.
  rewrite <- (take_drop_while l) at 3. by rewrite drop_app_length.
Qed.

End take_while.
