(* ===== verification/Token.v ===== *)
(** * Phantom tokens: [crates/phantom-core/src/token.rs]

    The opaque tokens that stand for secrets in a project's files, and the
    two-way map between secret names and tokens.  The random bytes of
    [PhantomToken::generate] are an argument of the model. *)

From S2P Require Import Prelude Text.

Definition PHANTOM_PREFIX : string := "phm_".

Definition TOKEN_RANDOM_BYTES : nat := 32.

(** [PhantomToken(String)] *)
Record PhantomToken := mk_token { as_str : string }.

#[export] Instance PhantomToken_eq_dec : EqDecision PhantomToken.
Proof. solve_decision. Defined.

(** [hex::encode]: two lower-case digits for every byte *)
Definition hex_digit (n : N) : ascii := if (n <? 10)%N then digit_char n else ascii_of_N (87 + n).

Fixpoint hex_encode (bytes : list N) : string :=
  match bytes with
  | [] => EmptyString
  | b :: rest =>
      String (hex_digit ((b / 16) mod 16)) (String (hex_digit (b mod 16)) (hex_encode rest))
  end.

(** [PhantomToken::generate], given the bytes that the generator filled in *)
Definition generate (random : list N) : PhantomToken :=
  mk_token (PHANTOM_PREFIX +:+ hex_encode (take TOKEN_RANDOM_BYTES random)).

(** [PhantomToken::is_phantom_token] *)
Definition is_phantom_token (s : string) : bool := starts_with PHANTOM_PREFIX s.

(** [PhantomToken::parse] *)
Definition token_parse (s : string) : option PhantomToken :=
  if starts_with PHANTOM_PREFIX s then Some (mk_token s) else None.

Record TokenMap := mk_token_map {
  name_to_token : gmap string PhantomToken;
  token_to_name : gmap string string;
}.

(** [TokenMap::new] *)
Definition tm_new : TokenMap := mk_token_map ∅ ∅.

(** [TokenMap::insert_with_token]; [TokenMap::insert] generates the token. *)
Definition insert_with_token (name : string) (token : PhantomToken) (m : TokenMap) : TokenMap :=
  mk_token_map (<[name := token]> (name_to_token m)) (<[as_str token := name]> (token_to_name m)).

Definition tm_insert (name : string) (random : list N) (m : TokenMap) : TokenMap * PhantomToken :=
  let token := generate random in
  (mk_token_map (<[name := token]> (name_to_token m)) (<[as_str token := name]> (token_to_name m)),
   token).

(** [TokenMap::resolve_token], [TokenMap::get_token] *)
Definition resolve_token (m : TokenMap) (token : string) : option string := token_to_name m !! token.
Definition get_token (m : TokenMap) (name : string) : option PhantomToken := name_to_token m !! name.

(** [TokenMap::secret_names]; the callers sort the names or use them as a set. *)
Definition secret_names (m : TokenMap) : list string := (map_to_list (name_to_token m)).*1.

(** [TokenMap::len], [TokenMap::is_empty] *)
Definition tm_len (m : TokenMap) : nat := size (name_to_token m).
Definition tm_is_empty (m : TokenMap) : bool := (tm_len m =? 0)%nat.

(** [TokenMap::remove] *)
Definition tm_remove (name : string) (m : TokenMap) : TokenMap * option PhantomToken :=
  match name_to_token m !! name with
  | Some token =>
      (mk_token_map (delete name (name_to_token m)) (delete (as_str token) (token_to_name m)),
       Some token)
  | None => (m, None)
  end.

(** ** Lemmas *)

(** The bytes of the tokens that [generate] makes *)
Definition token_byte (c : ascii) : bool := is_ascii_alphanumeric c || ascii_eqb c "_".

(** Tokens that are safe in a dotenv value *)
Definition token_safe (t : PhantomToken) : Prop :=
  is_phantom_token (as_str t) = true ∧ all_bytes token_byte (as_str t) = true.

Lemma hex_digit_token n : (n < 16)%N → token_byte (hex_digit n) = true.
Proof.
  intros Hn. unfold token_byte, hex_digit, is_ascii_alphanumeric.
  destruct (N.ltb_spec n 10) as [Hd|Hd].
  - by rewrite (digit_char_digit n Hd), ?orb_true_r.
  - assert (n = 10 ∨ n = 11 ∨ n = 12 ∨ n = 13 ∨ n = 14 ∨ n = 15)%N as Hc by lia.
    by destruct Hc as [->|[->|[->|[->|[->| ->]]]]].
Qed.

Lemma hex_encode_token bytes : all_bytes token_byte (hex_encode bytes) = true.
Proof.
  induction bytes as [|b bytes IH]; [done|]. cbn [hex_encode all_bytes].
  rewrite !hex_digit_token, IH by (apply N.mod_lt; lia). done.
Qed.

(** What [generate] makes is safe in a dotenv value. *)
Lemma generate_safe random : token_safe (generate random).
Proof.
  split; [by apply starts_with_app|].
  unfold generate, as_str. rewrite all_bytes_app, hex_encode_token. done.
Qed.

Lemma hex_encode_length bytes : String.length (hex_encode bytes) = (2 * length bytes)%nat.
Proof. induction bytes as [|b bytes IH]; simpl; lia. Qed.

Lemma insert_with_token_get name token m n :
  get_token (insert_with_token name token m) n
  = if decide (name = n) then Some token else get_token m n.
Proof. unfold get_token. simpl. apply lookup_insert. Qed.

Lemma secret_names_elem m n : n ∈ secret_names m ↔ is_Some (get_token m n).
Proof.
  unfold secret_names, get_token. rewrite list_elem_of_fmap. split.
  - intros ([n' t] & -> & Hin). apply elem_of_map_to_list in Hin. by eexists.
  - intros [t Ht]. exists (n, t). split; [done|]. by apply elem_of_map_to_list.
Qed.
