(* ===== verification/Dotenv.v ===== *)
(** * Dotenv files: [crates/phantom-core/src/dotenv.rs], the parser and the rewriter

    A [.env] source is a list of bytes.  [parse_str] reads it into records
    with the exact spans of their values, and issues; the mutations refuse a
    source with issues or duplicate names and replace spans only.  The code
    keeps a cursor into the whole source; here a step sees [&content[cursor..]]
    as [rest], its offsets are relative to the cursor, and the loop adds the
    cursor back.  Every separator is ASCII, so bytes and characters agree. *)

From S2P Require Import Prelude Text Bytes Token.

Definition LF : ascii := "010".
Definition CR : ascii := "013".
Definition TAB : ascii := "009".
Definition DQUOTE : ascii := "034".
Definition SQUOTE : ascii := "039".
Definition BACKSLASH : ascii := "092".

Definition UTF8_BOM : bytes := ["239"; "187"; "191"]%char.

(** [String] from the bytes of a slice *)
Fixpoint of_bytes (s : bytes) : string :=
  match s with [] => EmptyString | c :: s' => String c (of_bytes s') end.

(** [&s[a..b]] *)
Definition slice (a b : nat) (s : bytes) : bytes := take (b - a) (drop a s).

(** A half-open range of offsets *)
Definition span : Type := nat * nat.

(** ** Data *)

Record EnvEntry := mk_entry { key : string; value : string; is_phantom : bool }.

Inductive DotenvParseIssueKind :=
  | MissingEquals | EmptyKey | InvalidKey | UnexpectedByteOrderMark | UnterminatedDoubleQuote
  | UnterminatedSingleQuote | UnexpectedCharactersAfterQuotedValue.

Record DotenvParseIssue := mk_issue {
  issue_line : nat;
  issue_column : nat;
  issue_kind : DotenvParseIssueKind;
}.

Record ParsedRecord := mk_record { entry : EnvEntry; record_span : span; value_span : span }.

Record DotenvFile := mk_file {
  source : bytes;
  records : list ParsedRecord;
  issues : list DotenvParseIssue;
}.

#[export] Instance EnvEntry_eq_dec : EqDecision EnvEntry.
Proof. solve_decision. Defined.
#[export] Instance DotenvParseIssueKind_eq_dec : EqDecision DotenvParseIssueKind.
Proof. solve_decision. Defined.
#[export] Instance DotenvParseIssue_eq_dec : EqDecision DotenvParseIssue.
Proof. solve_decision. Defined.
#[export] Instance ParsedRecord_eq_dec : EqDecision ParsedRecord.
Proof. solve_decision. Defined.

(** The messages of [PhantomError::DotenvParseError] *)
Inductive DotenvError :=
  | Malformed (issue : DotenvParseIssue)
  | DuplicateMapping (name : string)
  | NotOneMapping (name : string) (found : nat)
  | NotPhantom (name : string)
  | InvalidAppendedName
  | MissingPreparedToken.

(** ** Lexical helpers *)

(** The characters of [trim_start_matches([' ', '\t'])] *)
Definition is_blank (c : ascii) : bool := ascii_eqb c " " || ascii_eqb c TAB.

Definition trim_start_blanks (s : bytes) : bytes := drop_while is_blank s.
Definition trim_end_blanks (s : bytes) : bytes := rev (drop_while is_blank (rev s)).

(** [u8::is_ascii_whitespace] *)
Definition is_ascii_whitespace (c : ascii) : bool :=
  ascii_eqb c " " || ascii_eqb c TAB || ascii_eqb c LF || ascii_eqb c "012" || ascii_eqb c CR.

Definition starts_with_byte (c : ascii) (s : bytes) : bool :=
  match s with d :: _ => ascii_eqb c d | [] => false end.

Definition ends_with_byte (c : ascii) (s : bytes) : bool := starts_with_byte c (rev s).

(** [s.find(c)] *)
Fixpoint find_byte (c : ascii) (s : bytes) : option nat :=
  match s with
  | [] => None
  | d :: s' => if ascii_eqb c d then Some 0%nat else S <$> find_byte c s'
  end.

(** The length of a line break at a [CR] that [s] follows: [CR LF] is one break. *)
Definition cr_length (s : bytes) : nat := if starts_with_byte LF s then 2 else 1.

(** [physical_line_bounds] from the start of [s] *)
Fixpoint line_bounds (s : bytes) : nat * nat :=
  match s with
  | [] => (0, 0)
  | c :: s' =>
      if ascii_eqb c LF then (0, 1)
      else if ascii_eqb c CR then (0, cr_length s')
      else let '(line_end, next) := line_bounds s' in (S line_end, S next)
  end%nat.

(** [physical_line_bounds]: the end of the line's content and of its line break *)
Definition physical_line_bounds (s : bytes) (start : nat) : nat * nat :=
  let '(line_end, next) := line_bounds (drop start s) in (start + line_end, start + next)%nat.

(** [find_closing_quote], from the start of [s]; a backslash in a
    double-quoted value hides the byte after it. *)
Fixpoint closing_quote (quote : ascii) (s : bytes) : option nat :=
  match s with
  | [] => None
  | c :: s' =>
      if ascii_eqb quote DQUOTE && ascii_eqb c BACKSLASH then
        match s' with
        | _ :: s'' => (λ n, S (S n)) <$> closing_quote quote s''
        | [] => None
        end
      else if ascii_eqb c quote then Some 0%nat
      else S <$> closing_quote quote s'
  end.

Definition find_closing_quote (s : bytes) (start : nat) (quote : ascii) : option nat :=
  (λ n, start + n)%nat <$> closing_quote quote (drop start s).

(** [count_line_breaks] *)
Fixpoint count_line_breaks (s : bytes) : nat :=
  match s with
  | [] => 0
  | c :: s' =>
      if ascii_eqb c CR then
        match s' with
        | d :: s'' => S (if ascii_eqb d LF then count_line_breaks s'' else count_line_breaks s')
        | [] => 1
        end
      else if ascii_eqb c LF then S (count_line_breaks s')
      else count_line_breaks s'
  end%nat.

(** [count_consumed_lines] *)
Definition count_consumed_lines (s : bytes) : nat :=
  (count_line_breaks s + if ends_with_byte LF s || ends_with_byte CR s then 0 else 1)%nat.

(** [normalize_line_endings]: [CR LF] and [CR] become [LF]. *)
Fixpoint normalize_line_endings (s : bytes) : bytes :=
  match s with
  | [] => []
  | c :: s' =>
      if ascii_eqb c CR then
        match s' with
        | d :: s'' =>
            LF :: (if ascii_eqb d LF then normalize_line_endings s'' else normalize_line_endings s')
        | [] => [LF]
        end
      else c :: normalize_line_endings s'
  end.

(** The byte that an escape stands for, when it is a known one *)
Definition unescaped (c : ascii) : option ascii :=
  if ascii_eqb c "n" then Some LF
  else if ascii_eqb c "r" then Some CR
  else if ascii_eqb c "t" then Some TAB
  else if ascii_eqb c BACKSLASH || ascii_eqb c DQUOTE || ascii_eqb c SQUOTE then Some c
  else None.

(** [unescape_double_quoted]; an unknown escape stays as it is. *)
Fixpoint unescape_double_quoted (s : bytes) : bytes :=
  match s with
  | [] => []
  | c :: s' =>
      if ascii_eqb c BACKSLASH then
        match s' with
        | d :: s'' =>
            match unescaped d with
            | Some e => e :: unescape_double_quoted s''
            | None => BACKSLASH :: d :: unescape_double_quoted s''
            end
        | [] => [BACKSLASH]
        end
      else c :: unescape_double_quoted s'
  end.

(** [physical_location]: the line and the column of an offset *)
Fixpoint physical_location (s : bytes) (offset line column : nat) : nat * nat :=
  match offset, s with
  | O, _ | _, [] => (line, column)
  | S offset', c :: s' =>
      if ascii_eqb c CR then
        match s' with
        | d :: s'' =>
            if ascii_eqb d LF then physical_location s'' (offset' - 1) (S line) 1
            else physical_location s' offset' (S line) 1
        | [] => (S line, 1)
        end
      else if ascii_eqb c LF then physical_location s' offset' (S line) 1
      else physical_location s' offset' line (S column)
  end%nat.

(** [source.match_indices(UTF8_BOM)], from offset [at]; a match cannot overlap
    another one. *)
Fixpoint bom_offsets (s : bytes) (at_ : nat) : list nat :=
  match s with
  | [] => []
  | _ :: s' => (if bytes_start_with UTF8_BOM s then [at_] else []) ++ bom_offsets s' (S at_)
  end.

(** [unexpected_bom_issues] *)
Definition unexpected_bom_issues (s : bytes) : list DotenvParseIssue :=
  map (λ offset, let '(line, column) := physical_location s offset 1 1 in
                 mk_issue line column UnexpectedByteOrderMark)
    (List.filter (λ offset, negb (offset =? 0)%nat) (bom_offsets s 0)).

(** The issues by line and column, in a stable order: [issues.sort_by_key] *)
Definition issue_le (a b : DotenvParseIssue) : bool :=
  (issue_line a <? issue_line b)%nat
  || ((issue_line a =? issue_line b)%nat && (issue_column a <=? issue_column b)%nat).

Fixpoint issue_insert (i : DotenvParseIssue) (l : list DotenvParseIssue) : list DotenvParseIssue :=
  match l with
  | [] => [i]
  | j :: l' => if issue_le i j then i :: l else j :: issue_insert i l'
  end.

Definition sort_issues (l : list DotenvParseIssue) : list DotenvParseIssue :=
  foldr issue_insert [] l.

(** ** The parser *)

Definition key_byte (c : ascii) : bool :=
  is_ascii_alphanumeric c || ascii_eqb c "_" || ascii_eqb c "." || ascii_eqb c "-".

Definition EXPORT : bytes := as_bytes "export ".

(** [s.strip_prefix("export ")], or the text itself *)
Definition strip_export (s : bytes) : bytes :=
  if bytes_start_with EXPORT s then drop (length EXPORT) s else s.

(** [key.contains(UTF8_BOM)] *)
Definition contains_bom (s : string) : bool := contains_str (of_bytes UTF8_BOM) s.

(** The part of a line before its value: nothing to read, an issue, a key
    with a byte order mark, or a key, the offset of its [=] and the offset of
    its value.  [column] is what the issue reports. *)
Inductive line_head :=
  | NoRecord
  | BadHead (column : nat) (kind : DotenvParseIssueKind)
  | BomKey
  | KeyAt (key : string) (eq value_start : nat).

Definition parse_head (line : bytes) : line_head :=
  let trimmed := trim_start_blanks line in
  let leading := (length line - length trimmed)%nat in
  if (length trimmed =? 0)%nat || starts_with_byte "#" trimmed then NoRecord
  else
    let working := strip_export trimmed in
    let working_start := (leading + (length trimmed - length working))%nat in
    match find_byte "=" working with
    | None => BadHead (leading + 1) MissingEquals
    | Some eq_rel =>
        let key := trim (of_bytes (take eq_rel working)) in
        if str_is_empty key then BadHead (working_start + 1) EmptyKey
        else if contains_bom key then BomKey
        else if negb (all_bytes key_byte key) then BadHead (working_start + 1) InvalidKey
        else
          let eq := (working_start + eq_rel)%nat in
          KeyAt key eq (eq + 1 + length (take_while is_blank (drop (eq + 1) line)))
    end.

(** The first [#] of an unquoted value that starts a comment: the one at the
    start, after a blank, or one after white space. *)
Fixpoint find_comment (after_space : bool) (raw : bytes) : option nat :=
  match raw with
  | [] => None
  | c :: raw' =>
      if ascii_eqb c "#" && after_space then Some 0%nat
      else S <$> find_comment (is_ascii_whitespace c) raw'
  end.

(** The value and its span, where the record ends and how many lines it takes,
    and the issue found behind a closing quote *)
Record value_read := mk_value {
  vr_span : span;
  vr_end : nat;
  vr_value : bytes;
  vr_lines : nat;
  vr_issue : option DotenvParseIssue;
}.

Definition read_quoted (rest : bytes) (line_number value_start : nat) (quote : ascii)
    : result value_read DotenvParseIssue :=
  let inner_start := (value_start + 1)%nat in
  match find_closing_quote rest inner_start quote with
  | None =>
      Err (mk_issue line_number (value_start + 1)
             (if ascii_eqb quote DQUOTE then UnterminatedDoubleQuote else UnterminatedSingleQuote))
  | Some close =>
      let '(closing_line_end, closing_next_line) := physical_line_bounds rest close in
      let trailing := trim_start_blanks (slice (close + 1) closing_line_end rest) in
      let raw := slice inner_start close rest in
      Ok (mk_value (inner_start, close) closing_next_line
            (if ascii_eqb quote DQUOTE then unescape_double_quoted (normalize_line_endings raw)
             else normalize_line_endings raw)
            (count_consumed_lines (take closing_next_line rest))
            (if negb (length trailing =? 0)%nat && negb (starts_with_byte "#" trailing)
             then Some (mk_issue (line_number + count_line_breaks (take close rest)) 1
                          UnexpectedCharactersAfterQuotedValue)
             else None))
  end.

Definition read_unquoted (rest : bytes) (eq value_start line_end next_line : nat) : value_read :=
  let raw := slice value_start line_end rest in
  let comment := find_comment (eq + 1 <? value_start)%nat raw in
  let candidate := take (default (length raw) comment) raw in
  let end_ := (value_start + length (trim_end_blanks candidate))%nat in
  mk_value (value_start, end_) next_line (slice value_start end_ rest) 1 None.

Definition read_value (rest : bytes) (line_number eq value_start line_end next_line : nat)
    : result value_read DotenvParseIssue :=
  match rest !! value_start with
  | Some c =>
      if ascii_eqb c DQUOTE || ascii_eqb c SQUOTE then read_quoted rest line_number value_start c
      else Ok (read_unquoted rest eq value_start line_end next_line)
  | None => Ok (read_unquoted rest eq value_start line_end next_line)
  end.

(** One round of the loop of [parse_str]: go on at [next] after one line
    (with an issue or without), stop, or go on behind a record. *)
Inductive line_step :=
  | NextLine (issue : option DotenvParseIssue) (next : nat)
  | StopAt (issue : DotenvParseIssue)
  | GotRecord (record : ParsedRecord) (issue : option DotenvParseIssue) (next lines : nat).

Definition parse_line (rest : bytes) (line_number : nat) : line_step :=
  let '(line_end, next_line) := physical_line_bounds rest 0 in
  match parse_head (take line_end rest) with
  | NoRecord | BomKey => NextLine None next_line
  | BadHead column kind => NextLine (Some (mk_issue line_number column kind)) next_line
  | KeyAt key eq value_start =>
      match read_value rest line_number eq value_start line_end next_line with
      | Err issue => StopAt issue
      | Ok v =>
          let value := of_bytes (vr_value v) in
          GotRecord (mk_record (mk_entry key value (is_phantom_token value))
                       (0%nat, vr_end v) (vr_span v))
            (vr_issue v) (vr_end v) (vr_lines v)
      end
  end.

Definition shift_span (n : nat) (s : span) : span := (n + s.1, n + s.2)%nat.

Definition shift_record (n : nat) (r : ParsedRecord) : ParsedRecord :=
  mk_record (entry r) (shift_span n (record_span r)) (shift_span n (value_span r)).

(** The loop of [parse_str]; every round consumes a byte, so the length of the
    source is enough fuel ([parse_loop_fuel]). *)
Fixpoint parse_loop (fuel : nat) (rest : bytes) (cursor line_number : nat)
    : list ParsedRecord * list DotenvParseIssue :=
  match fuel with
  | O => ([], [])
  | S fuel' =>
      if (length rest =? 0)%nat then ([], [])
      else match parse_line rest line_number with
      | NextLine issue next =>
          let '(rs, iss) := parse_loop fuel' (drop next rest) (cursor + next) (line_number + 1) in
          (rs, option_list issue ++ iss)
      | StopAt issue => ([], [issue])
      | GotRecord r issue next lines =>
          let '(rs, iss) := parse_loop fuel' (drop next rest) (cursor + next) (line_number + lines) in
          (shift_record cursor r :: rs, option_list issue ++ iss)
      end
  end.

(** The length of a byte order mark that the source starts with *)
Definition bom_length (s : bytes) : nat :=
  if bytes_start_with UTF8_BOM s then length UTF8_BOM else 0.

(** [DotenvFile::parse_str] *)
Definition parse_str (content : bytes) : DotenvFile :=
  let cursor := bom_length content in
  let '(rs, iss) := parse_loop (length content) (drop cursor content) cursor 1 in
  mk_file content rs (sort_issues (unexpected_bom_issues content ++ iss)).

(** ** Queries *)

(** [entries], [entries_with_quote] *)
Definition entries (f : DotenvFile) : list EnvEntry := map entry (records f).

Definition quote_before (s : bytes) (start : nat) : option ascii :=
  match start with
  | O => None
  | S before =>
      match s !! before with
      | Some c => if ascii_eqb c DQUOTE || ascii_eqb c SQUOTE then Some c else None
      | None => None
      end
  end.

Definition entries_with_quote (f : DotenvFile) : list (EnvEntry * option ascii) :=
  map (λ r, (entry r, quote_before (source f) (value_span r).1)) (records f).

Definition DOTENVX_ENCRYPTED_PREFIX : string := "encrypted:".
Definition DOTENVX_PUBLIC_KEY_NAME : string := "DOTENV_PUBLIC_KEY".

Definition is_dotenvx_public_key_name (key : string) : bool :=
  String.eqb key DOTENVX_PUBLIC_KEY_NAME
  || match strip_prefix DOTENVX_PUBLIC_KEY_NAME key with
     | Some rest => starts_with "_" rest
     | None => false
     end.

(** [str::trim_start] *)
Definition trim_start_str (s : string) : string := trim_start white_space (String.length s) s.

(** [dotenvx_encrypted_entry] *)
Definition dotenvx_encrypted_entry (f : DotenvFile) : option string :=
  if negb (existsb (λ e, is_dotenvx_public_key_name (key e)) (entries f)) then None
  else key <$> List.find (λ e, starts_with DOTENVX_ENCRYPTED_PREFIX (trim_start_str (value e)))
                 (entries f).

(** ** Mutations *)

(** The first name that an earlier record has, given the names in [seen]:
    [BTreeSet::insert] in [validate_for_mutation] *)
Fixpoint first_duplicate (seen : list string) (rs : list ParsedRecord) : option string :=
  match rs with
  | [] => None
  | r :: rs' =>
      if bool_decide (key (entry r) ∈ seen) then Some (key (entry r))
      else first_duplicate (key (entry r) :: seen) rs'
  end.

(** [validate_for_mutation] *)
Definition validate_for_mutation (f : DotenvFile) : result unit DotenvError :=
  match issues f with
  | issue :: _ => Err (Malformed issue)
  | [] =>
      match first_duplicate [] (records f) with
      | Some name => Err (DuplicateMapping name)
      | None => Ok tt
      end
  end.

(** [splice_source]: apply ordered, disjoint replacements *)
Fixpoint splice_from (s : bytes) (cursor : nat) (replacements : list (span * bytes)) : bytes :=
  match replacements with
  | [] => drop cursor s
  | (sp, replacement) :: rest => slice cursor sp.1 s ++ replacement ++ splice_from s sp.2 rest
  end.

Definition splice_source (s : bytes) (replacements : list (span * bytes)) : bytes :=
  splice_from s 0 replacements.

(** [render_replacement]: a value put in front of a comment's [#] needs a blank. *)
Definition render_replacement (s : bytes) (sp : span) (replacement : bytes) : bytes :=
  if (sp.2 <=? sp.1)%nat && option_byte_is (ascii_eqb "#") (s !! sp.2)
  then replacement ++ [" "%char] else replacement.

(** [remove_phantom_mapping] *)
Definition remove_phantom_mapping (f : DotenvFile) (name : string) : result bytes DotenvError :=
  let? _ := validate_for_mutation f in
  match List.filter (λ r, String.eqb (key (entry r)) name) (records f) with
  | [r] =>
      if negb (is_phantom (entry r)) then Err (NotPhantom name)
      else Ok (splice_source (source f) [(record_span r, [])])
  | matches => Err (NotOneMapping name (length matches))
  end.

(** The replacements and the original values of [rewrite_with_phantoms] *)
Definition replacements (f : DotenvFile) (m : TokenMap) : list (span * bytes) :=
  omap (λ r, (λ token, (value_span r,
                        render_replacement (source f) (value_span r) (as_bytes (as_str token))))
               <$> get_token m (key (entry r)))
    (records f).

Definition original_values (f : DotenvFile) (m : TokenMap) : gmap string string :=
  foldl (λ acc r,
           match get_token m (key (entry r)) with
           | Some _ => if is_phantom (entry r) then acc
                       else <[key (entry r) := value (entry r)]> acc
           | None => acc
           end) ∅ (records f).

(** [rewrite_with_phantoms] *)
Definition rewrite_with_phantoms (f : DotenvFile) (m : TokenMap)
    : result (bytes * gmap string string) DotenvError :=
  let? _ := validate_for_mutation f in
  Ok (splice_source (source f) (replacements f m), original_values f m).

(** [is_canonical_env_name] *)
Definition is_canonical_env_name (name : string) : bool :=
  match name with
  | EmptyString => false
  | String c rest =>
      (is_ascii_uppercase c || is_ascii_lowercase c || ascii_eqb c "_")
      && all_bytes (λ c, is_ascii_alphanumeric c || ascii_eqb c "_") rest
  end.

(** [preferred_line_ending]: the first one that the source uses *)
Fixpoint preferred_line_ending (s : bytes) : bytes :=
  match s with
  | [] => [LF]
  | c :: s' =>
      if ascii_eqb c CR then (if starts_with_byte LF s' then [CR; LF] else [CR])
      else if ascii_eqb c LF then [LF]
      else preferred_line_ending s'
  end.

(** The names of the map that no record has, sorted *)
Definition absent_names (f : DotenvFile) (m : TokenMap) : list string :=
  btree_collect
    (List.filter (λ name, negb (existsb (λ e, String.eqb (key e) name) (entries f)))
       (secret_names m)).

(** The lines that [upsert_with_phantoms] appends *)
Fixpoint appended_lines (m : TokenMap) (eol : bytes) (last_eol : bool) (absent : list string) : bytes :=
  match absent with
  | [] => []
  | name :: rest =>
      as_bytes name ++ "="%char :: match get_token m name with Some t => as_bytes (as_str t) | None => [] end
      ++ (if (0 <? length rest)%nat || last_eol then eol else [])
      ++ appended_lines m eol last_eol rest
  end.

(** [upsert_with_phantoms] *)
Definition upsert_with_phantoms (f : DotenvFile) (m : TokenMap)
    : result (bytes * gmap string string) DotenvError :=
  let? _ := validate_for_mutation f in
  let absent := absent_names f m in
  fail_if (existsb (λ name, negb (is_canonical_env_name name)) absent) InvalidAppendedName (
  fail_if (existsb (λ name, negb (bool_decide (is_Some (get_token m name)))) absent)
    MissingPreparedToken (
  let? (rewritten, originals) := rewrite_with_phantoms f m in
  if (length absent =? 0)%nat then Ok (rewritten, originals)
  else
    let eol := preferred_line_ending (source f) in
    let had_terminal_eol := ends_with_byte LF (source f) || ends_with_byte CR (source f) in
    let body := drop (bom_length (source f)) (source f) in
    let separator := if (0 <? length body)%nat && negb had_terminal_eol then eol else [] in
    Ok (rewritten ++ separator ++ appended_lines m eol had_terminal_eol absent, originals))).
