(* ===== verification/DotenvLines.v ===== *)
(** * Dotenv files: how a line is read

    The physical lines of a source, the head of an assignment, and what one
    step of the parser depends on: a record is determined by its own bytes and
    the first byte behind them, and its value can be replaced in place. *)

From S2P Require Import Prelude Text Bytes Token Dotenv.

(** ** Bytes *)

Lemma of_as_bytes s : of_bytes (as_bytes s) = s.
Proof. induction s as [|c s IH]; simpl; [done|by rewrite IH]. Qed.

Lemma as_of_bytes s : as_bytes (of_bytes s) = s.
Proof. induction s as [|c s IH]; simpl; [done|by rewrite IH]. Qed.

Lemma all_bytes_Forall p s : all_bytes p s = true ↔ Forall (λ c, p c = true) (as_bytes s).
Proof.
  induction s as [|c s IH]; simpl; [split; [constructor|done]|].
  rewrite andb_true_iff, IH, Forall_cons. done.
Qed.

Lemma as_bytes_length s : length (as_bytes s) = String.length s.
Proof. induction s; simpl; congruence. Qed.

Lemma slice_mid a b (x y z : bytes) :
  length x = a → (a + length y)%nat = b → slice a b (x ++ y ++ z) = y.
Proof.
  intros <- <-. unfold slice. rewrite drop_app_length.
  replace (length x + length y - length x)%nat with (length y) by lia. apply take_app_length.
Qed.

Lemma slice_cut a b c (s : bytes) :
  (a <= b)%nat → (b <= c)%nat → slice a c s = slice a b s ++ slice b c s.
Proof.
  intros Hab Hbc. unfold slice.
  replace (c - a)%nat with ((b - a) + (c - b))%nat by lia.
  rewrite <- take_take_drop, drop_drop. do 3 f_equal. lia.
Qed.

Lemma drop_slice a b (s : bytes) : (a <= b)%nat → drop a s = slice a b s ++ drop b s.
Proof.
  intros Hab. unfold slice. rewrite <- (take_drop (b - a) (drop a s)) at 1.
  rewrite drop_drop. do 2 f_equal. lia.
Qed.

Lemma starts_with_byte_spec c s : starts_with_byte c s = true ↔ head s = Some c.
Proof.
  destruct s as [|d s]; simpl; [done|]. rewrite ascii_eqb_eq. split; [by intros ->|by intros [= ->]].
Qed.

Lemma starts_with_byte_head c s s' :
  head s = head s' → starts_with_byte c s = starts_with_byte c s'.
Proof. destruct s, s'; simpl; congruence. Qed.

Lemma find_byte_app c (k r : bytes) :
  Forall (λ d, ascii_eqb c d = false) k → find_byte c (k ++ c :: r) = Some (length k).
Proof.
  induction 1 as [|d k Hd Hk IH]; simpl; [by rewrite ascii_eqb_refl|]. by rewrite Hd, IH.
Qed.

Lemma find_byte_Some c s n :
  find_byte c s = Some n →
  ∃ k r, s = k ++ c :: r ∧ length k = n ∧ Forall (λ d, ascii_eqb c d = false) k.
Proof.
  revert n. induction s as [|d s IH]; intros n; simpl; [done|].
  destruct (ascii_eqb c d) eqn:E.
  - intros [= <-]. apply ascii_eqb_eq in E as <-. by exists [], s.
  - intros (m & Hm & ->)%fmap_Some. apply IH in Hm as (k & r & -> & <- & Hk).
    exists (d :: k), r. split_and!; [done|done|by constructor].
Qed.

Lemma take_while_prefix {A} (f : A → bool) (l k : list A) :
  Forall (λ x, f x = true) l → match k with x :: _ => f x = false | [] => True end →
  take_while f (l ++ k) = l ∧ drop_while f (l ++ k) = k.
Proof.
  intros Hl Hk. induction Hl as [|x l Hx Hl IH]; simpl.
  - destruct k as [|y k]; simpl; [done|]. by rewrite Hk.
  - rewrite Hx. by destruct IH as [-> ->].
Qed.

(** Every list splits at the end of its run. *)
Lemma take_while_split {A} (f : A → bool) (l : list A) :
  ∃ a b, l = a ++ b ∧ Forall (λ x, f x = true) a ∧
    match b with x :: _ => f x = false | [] => True end ∧
    take_while f l = a ∧ drop_while f l = b.
Proof.
  exists (take_while f l), (drop_while f l). split_and!; [|apply take_while_all| |done|done].
  - by rewrite take_drop_while.
  - destruct (drop_while f l) eqn:E; [done|]. by eapply drop_while_head.
Qed.

(** ** Physical lines *)

Definition no_eol (c : ascii) : bool := negb (ascii_eqb c LF) && negb (ascii_eqb c CR).

(** [eol] is the line break in front of [tail]. *)
Definition line_break (eol tail : bytes) : Prop :=
  (eol = [] ∧ tail = []) ∨ eol = [LF] ∨ eol = [CR; LF]
  ∨ (eol = [CR] ∧ starts_with_byte LF tail = false).

Lemma line_bounds_app l eol tail :
  Forall (λ c, no_eol c = true) l → line_break eol tail →
  line_bounds (l ++ eol ++ tail) = (length l, length l + length eol)%nat.
Proof.
  intros Hl Hb. induction Hl as [|c l Hc Hl IH]; simpl.
  - destruct Hb as [[-> ->]|[->|[->|[-> Ht]]]]; simpl; try done. unfold cr_length. by rewrite Ht.
  - unfold no_eol in Hc. split_bools. rewrite H, H0. by rewrite IH.
Qed.

Lemma line_split s :
  ∃ l eol tail, s = l ++ eol ++ tail ∧ Forall (λ c, no_eol c = true) l ∧ line_break eol tail ∧
    line_bounds s = (length l, length l + length eol)%nat.
Proof.
  induction s as [|c s IH].
  - exists [], [], []. split_and!; try done; by left.
  - simpl. destruct (ascii_eqb c LF) eqn:E1.
    { apply ascii_eqb_eq in E1 as ->. exists [], [LF], s. split_and!; try done.
      right; by left. }
    destruct (ascii_eqb c CR) eqn:E2.
    { apply ascii_eqb_eq in E2 as ->. unfold cr_length. destruct (starts_with_byte LF s) eqn:E3.
      - destruct s as [|d s]; [done|]. simpl in E3. apply ascii_eqb_eq in E3 as <-.
        exists [], [CR; LF], s. split_and!; try done. right; right; by left.
      - exists [], [CR], s. split_and!; try done. right; right; by right. }
    destruct IH as (l & eol & tail & -> & Hl & Hb & ->). exists (c :: l), eol, tail.
    split_and!; try done. constructor; [|done]. unfold no_eol. by rewrite E1, E2.
Qed.

Lemma line_break_head eol tail tail' :
  line_break eol tail → head tail = head tail' → line_break eol tail'.
Proof.
  unfold line_break. intros Hb Hh. rewrite <- (starts_with_byte_head _ _ _ Hh).
  destruct Hb as [[-> ->]|Hb]; [left|by right]. by destruct tail'.
Qed.

Lemma line_break_nonempty l eol tail : line_break eol tail → l ++ eol ++ tail ≠ [] → l ++ eol ≠ [].
Proof. intros [[-> ->]|[->|[->|[-> _]]]]; by destruct l. Qed.

(** ** The head of an assignment *)

(** [ind], [exp], [k] and [bl] are what a line has before its value: blanks,
    the word export, the text of the name, and the blanks behind [=]. *)
Record head_text (ind exp k bl : bytes) : Prop := {
  ht_ind : Forall (λ c, is_blank c = true) ind;
  ht_exp : exp = EXPORT ∨ exp = [] ∧ bytes_start_with EXPORT (k ++ ["="%char]) = false;
  ht_first : match exp ++ k ++ ["="%char] with
             | c :: _ => is_blank c = false ∧ ascii_eqb "#" c = false
             | [] => False
             end;
  ht_k : Forall (λ d, ascii_eqb "=" d = false) k;
  ht_bl : Forall (λ c, is_blank c = true) bl;
  ht_key : str_is_empty (trim (of_bytes k)) = false ∧ contains_bom (trim (of_bytes k)) = false ∧
           all_bytes key_byte (trim (of_bytes k)) = true;
}.

Definition head_bytes (ind exp k bl : bytes) : bytes := ind ++ exp ++ k ++ "="%char :: bl.

Lemma export_cut k x :
  Forall (λ d, ascii_eqb "=" d = false) k →
  bytes_start_with EXPORT (k ++ "="%char :: x) = bytes_start_with EXPORT (k ++ ["="%char]).
Proof.
  intros Hk. unfold EXPORT. simpl as_bytes.
  do 7 (destruct Hk as [|? k ? Hk]; [by simpl; rewrite ?andb_false_r|]).
  done.
Qed.

Lemma trim_start_blanks_ind ind t :
  Forall (λ c, is_blank c = true) ind →
  match t with x :: _ => is_blank x = false | [] => True end →
  trim_start_blanks (ind ++ t) = t.
Proof. intros Hi Ht. by apply take_while_prefix. Qed.

(** A line with such a head is read as an assignment, whatever its value is. *)
Lemma parse_head_build ind exp k bl v :
  head_text ind exp k bl →
  match v with x :: _ => is_blank x = false | [] => True end →
  parse_head (head_bytes ind exp k bl ++ v)
  = KeyAt (trim (of_bytes k)) (length ind + length exp + length k)%nat
      (length (head_bytes ind exp k bl)).
Proof.
  intros [Hi He Hf Hk Hb (K1 & K2 & K3)] Hv.
  set (line := head_bytes ind exp k bl ++ v).
  assert (line = ind ++ exp ++ k ++ "="%char :: bl ++ v) as Hline.
  { unfold line, head_bytes. by rewrite <- !app_assoc. }
  assert (trim_start_blanks line = exp ++ k ++ "="%char :: bl ++ v) as Ht.
  { rewrite Hline. apply trim_start_blanks_ind; [done|]. destruct exp; [destruct k|]; simpl in *; tauto. }
  assert (strip_export (exp ++ k ++ "="%char :: bl ++ v) = k ++ "="%char :: bl ++ v) as Hs.
  { unfold strip_export. destruct He as [->|[-> He]]; [done|]. rewrite !app_nil_l.
    by rewrite (export_cut k), He. }
  assert (starts_with_byte "#" (exp ++ k ++ "="%char :: bl ++ v) = false) as Hh.
  { destruct exp; [destruct k|]; simpl in *; tauto. }
  unfold parse_head. rewrite Ht, Hs, Hh.
  rewrite (find_byte_app "=" k) by done. rewrite take_app_length, K1, K2, K3.
  replace (length (exp ++ k ++ "="%char :: bl ++ v) =? 0)%nat with false
    by (symmetry; apply Nat.eqb_neq; rewrite !length_app; simpl; lia).
  cbn [negb orb]. f_equal.
  - rewrite Hline, !length_app. simpl. rewrite !length_app. lia.
  - replace (length line - _ + _ + _)%nat with (length ind + length exp + length k)%nat
      by (rewrite Hline, !length_app; simpl; rewrite !length_app; lia).
    replace (drop _ line) with (bl ++ v).
    + destruct (take_while_prefix is_blank bl v) as [-> _]; [done..|].
      unfold head_bytes. rewrite !length_app. simpl. lia.
    + rewrite Hline.
      replace (ind ++ exp ++ k ++ "="%char :: bl ++ v)
        with ((ind ++ exp ++ k ++ ["="%char]) ++ bl ++ v) by (by rewrite <- !app_assoc).
      symmetry. rewrite drop_app_length'; [done|]. rewrite !length_app. simpl. lia.
Qed.

(** Every line that is read as an assignment has such a head. *)
Lemma parse_head_inv line key eq value_start :
  parse_head line = KeyAt key eq value_start →
  ∃ ind exp k bl v, line = head_bytes ind exp k bl ++ v ∧ head_text ind exp k bl ∧
    match v with x :: _ => is_blank x = false | [] => True end ∧
    key = trim (of_bytes k) ∧ eq = (length ind + length exp + length k)%nat ∧
    value_start = length (head_bytes ind exp k bl).
Proof.
  intros H.
  destruct (take_while_split is_blank line) as (ind & t & Hline & Hi & Hf & _ & Hd).
  assert (∃ exp k bl v, t = exp ++ k ++ "="%char :: bl ++ v ∧ head_text ind exp k bl ∧
    match v with x :: _ => is_blank x = false | [] => True end) as (exp & k & bl & v & -> & Hh & Hv).
  { unfold parse_head in H. unfold trim_start_blanks in H. rewrite Hd in H.
    destruct (length t =? 0)%nat eqn:E0; [done|]. destruct (starts_with_byte "#" t) eqn:E1; [done|].
    cbn [orb] in H. destruct (find_byte "=" (strip_export t)) as [n|] eqn:E2; [|done].
    apply find_byte_Some in E2 as (k & r & Hs & <- & Hk). rewrite Hs, take_app_length in H.
    destruct (str_is_empty _) eqn:K1; [done|]. destruct (contains_bom _) eqn:K2; [done|].
    destruct (all_bytes _ _) eqn:K3; [|done].
    destruct (take_while_split is_blank r) as (bl & v & -> & Hb & Hv & _).
    assert (∃ exp, t = exp ++ k ++ "="%char :: bl ++ v ∧
      (exp = EXPORT ∨ exp = [] ∧ bytes_start_with EXPORT (k ++ ["="%char]) = false))
      as (exp & -> & He).
    { unfold strip_export in Hs. destruct (bytes_start_with EXPORT t) eqn:E.
      - apply bytes_start_with_spec in E as [u ->]. rewrite drop_app_length in Hs. subst u.
        exists EXPORT. split; [done|by left].
      - exists []. split; [done|]. right. split; [done|]. rewrite <- (export_cut k (bl ++ v)) by done.
        by rewrite <- Hs. }
    exists exp, k, bl, v. split_and!; [done| |done]. constructor; try done.
    destruct exp; [destruct k|]; simpl in *; auto. }
  exists ind, exp, k, bl, v.
  assert (line = head_bytes ind exp k bl ++ v) as Hl
    by (rewrite Hline; unfold head_bytes; by rewrite <- !app_assoc).
  rewrite Hl, (parse_head_build ind exp k bl v) in H by done.
  injection H as <- <- <-. done.
Qed.

(** ** One step on an assignment *)

Lemma line_bounds_prefix p s :
  Forall (λ c, no_eol c = true) p →
  line_bounds (p ++ s) = (length p + (line_bounds s).1, length p + (line_bounds s).2)%nat.
Proof.
  induction 1 as [|c p Hc Hp IH]; simpl; [by destruct (line_bounds s)|].
  unfold no_eol in Hc. split_bools. by rewrite H, H0, IH.
Qed.

Lemma line_bounds_le s :
  ((line_bounds s).1 <= (line_bounds s).2)%nat ∧ ((line_bounds s).2 <= length s)%nat.
Proof.
  destruct (line_split s) as (l & eol & tail & -> & _ & _ & ->). simpl. rewrite !length_app. lia.
Qed.

(** What a step does with the value behind a head: [vr] read, or the issue *)
Definition record_step (k : bytes) (r : result value_read DotenvParseIssue) : line_step :=
  match r with
  | Err issue => StopAt issue
  | Ok v =>
      let key := trim (of_bytes k) in
      let value := of_bytes (vr_value v) in
      GotRecord (mk_record (mk_entry key value (is_phantom_token value)) (0%nat, vr_end v) (vr_span v))
        (vr_issue v) (vr_end v) (vr_lines v)
  end.

Definition not_blank_first (s : bytes) : Prop :=
  match s with x :: _ => is_blank x = false | [] => True end.

Lemma parse_line_head ind exp k bl s ln :
  let pre := head_bytes ind exp k bl in
  head_text ind exp k bl → Forall (λ c, no_eol c = true) pre → not_blank_first s →
  parse_line (pre ++ s) ln
  = record_step k (read_value (pre ++ s) ln (length ind + length exp + length k) (length pre)
      (length pre + (line_bounds s).1) (length pre + (line_bounds s).2)).
Proof.
  intros pre Hh Hp Hs. unfold parse_line, physical_line_bounds. rewrite drop_0, line_bounds_prefix by done.
  rewrite !Nat.add_0_l, take_app_add'; [|done].
  rewrite (parse_head_build ind exp k bl); [|done|].
  - fold pre. unfold record_step. by destruct (read_value _ _ _ _ _ _).
  - destruct (line_bounds s).1; [done|]. by destruct s.
Qed.

Lemma parse_line_inv rest ln r issue next lines :
  parse_line rest ln = GotRecord r issue next lines →
  ∃ ind exp k bl s, rest = head_bytes ind exp k bl ++ s ∧ head_text ind exp k bl ∧
    Forall (λ c, no_eol c = true) (head_bytes ind exp k bl) ∧ not_blank_first s.
Proof.
  intros H. destruct (line_split rest) as (l & eol & tail & -> & Hl & Hb & Hlb).
  unfold parse_line, physical_line_bounds in H. rewrite drop_0, Hlb in H. rewrite !Nat.add_0_l in H.
  rewrite take_app_length in H. destruct (parse_head l) as [| | |key eq vs] eqn:Hp; try done.
  apply parse_head_inv in Hp as (ind & exp & k & bl & v & -> & Hh & Hv & _).
  apply Forall_app in Hl as [Hl1 Hl2]. exists ind, exp, k, bl, (v ++ eol ++ tail).
  split_and!; [by rewrite <- app_assoc|done|done|].
  destruct v; [|done]. by destruct Hb as [[-> ->]|[->|[->|[-> _]]]].
Qed.

Lemma head_bytes_length ind exp k bl :
  (length (head_bytes ind exp k bl) = length ind + length exp + length k + 1 + length bl)%nat.
Proof. unfold head_bytes. rewrite !length_app. simpl. lia. Qed.

(** ** Unquoted values *)

Lemma trim_end_blanks_app w sp :
  Forall (λ c, is_blank c = true) sp → (∀ c, last w = Some c → is_blank c = false) →
  trim_end_blanks (w ++ sp) = w.
Proof.
  intros Hs Hw. unfold trim_end_blanks. rewrite rev_app_distr.
  destruct (take_while_prefix is_blank (rev sp) (rev w)) as [_ ->]; [| |apply rev_involutive].
  - by apply List.Forall_rev.
  - destruct (rev w) as [|c u] eqn:E; [done|]. apply Hw.
    rewrite <- (rev_involutive w), E. simpl. by rewrite last_snoc.
Qed.

(** Trimming takes blanks off the end. *)
Lemma trim_end_blanks_split s :
  ∃ sp, s = trim_end_blanks s ++ sp ∧ Forall (λ c, is_blank c = true) sp ∧
    ∀ c, last (trim_end_blanks s) = Some c → is_blank c = false.
Proof.
  destruct (take_while_split is_blank (rev s)) as (a & b & Hs & Ha & Hb & _ & Hd).
  exists (rev a). unfold trim_end_blanks. rewrite Hd. split_and!.
  - rewrite <- rev_app_distr, <- Hs. by rewrite rev_involutive.
  - by apply List.Forall_rev.
  - intros c Hc. destruct b as [|x b]; [done|]. simpl in Hc. rewrite last_snoc in Hc. by injection Hc as <-.
Qed.

(** Whether the byte in front is white space, behind [w] *)
Definition after_space (ab : bool) (w : bytes) : bool :=
  match last w with Some c => is_ascii_whitespace c | None => ab end.

Lemma find_comment_app ab w x :
  Forall (λ c, ascii_eqb c "#" = false) w →
  find_comment ab (w ++ x) = (λ n, length w + n)%nat <$> find_comment (after_space ab w) x.
Proof.
  intros Hw. revert ab. induction Hw as [|c w Hc Hw IH]; intros ab; simpl.
  - by destruct (find_comment _ x).
  - rewrite Hc. simpl. rewrite IH. unfold after_space.
    rewrite last_cons. destruct (last w); by destruct (find_comment _ x).
Qed.

Lemma find_comment_Some ab raw n :
  find_comment ab raw = Some n →
  ∃ w x, raw = w ++ "#"%char :: x ∧ length w = n ∧ after_space ab w = true.
Proof.
  revert ab n. induction raw as [|c raw IH]; intros ab n; simpl; [done|].
  destruct (ascii_eqb c "#" && ab) eqn:E.
  - intros [= <-]. apply andb_true_iff in E as [E ->]. apply ascii_eqb_eq in E as ->.
    by exists [], raw.
  - intros (m & Hm & ->)%fmap_Some. apply IH in Hm as (w & x & -> & <- & Hw).
    exists (c :: w), x. split_and!; [done|done|]. unfold after_space in *. rewrite last_cons.
    by destruct (last w).
Qed.

(** The value that an unquoted line holds *)
Definition unquoted_value (ab : bool) (raw : bytes) : bytes :=
  trim_end_blanks (take (default (length raw) (find_comment ab raw)) raw).

Lemma unquoted_split ab raw :
  ∃ sp cm, raw = unquoted_value ab raw ++ sp ++ cm ∧ Forall (λ c, is_blank c = true) sp ∧
    (cm = [] ∨ starts_with_byte "#" cm = true ∧ after_space ab (unquoted_value ab raw ++ sp) = true) ∧
    ∀ c, last (unquoted_value ab raw) = Some c → is_blank c = false.
Proof.
  unfold unquoted_value. destruct (find_comment ab raw) as [n|] eqn:E; simpl.
  - apply find_comment_Some in E as (w & x & -> & <- & Hw). rewrite take_app_length.
    destruct (trim_end_blanks_split w) as (sp & Hsp & Hb & Hl). exists sp, ("#"%char :: x).
    split_and!; [|done| |done].
    + rewrite app_assoc. by rewrite <- Hsp.
    + right. split; [done|]. by rewrite <- Hsp.
  - rewrite take_ge by done. destruct (trim_end_blanks_split raw) as (sp & Hsp & Hb & Hl).
    exists sp, []. rewrite app_nil_r. split_and!; [done|done|by left|done].
Qed.

(** The bytes of a token neither end a value nor start a comment. *)
Lemma token_byte_facts c :
  token_byte c = true →
  is_blank c = false ∧ is_ascii_whitespace c = false ∧ ascii_eqb c "#" = false ∧
  ascii_eqb c DQUOTE = false ∧ ascii_eqb c SQUOTE = false ∧ ascii_eqb c BACKSLASH = false ∧
  no_eol c = true ∧ (N_of_ascii c < 128)%N.
Proof.
  destruct c as [[] [] [] [] [] [] [] []]; intros H; vm_compute in H; try discriminate H;
    by vm_compute.
Qed.

Definition token_bytes (t : bytes) : Prop := t ≠ [] ∧ Forall (λ c, token_byte c = true) t.

Lemma unquoted_build ab t sp cm :
  token_bytes t → Forall (λ c, is_blank c = true) sp →
  (cm = [] ∨ starts_with_byte "#" cm = true ∧ sp ≠ []) →
  unquoted_value ab (t ++ sp ++ cm) = t.
Proof.
  intros [Ht Hf] Hs Hc. unfold unquoted_value.
  assert (Forall (λ c, ascii_eqb c "#" = false) (t ++ sp)) as Hn.
  { apply Forall_app. split; eapply Forall_impl; try done; simpl.
    - intros c Hc'. by destruct (token_byte_facts _ Hc') as (_ & _ & ? & _).
    - intros c Hc'. unfold is_blank in Hc'. apply orb_true_iff in Hc' as [Hc'|Hc'];
        apply ascii_eqb_eq in Hc' as ->; done. }
  assert (∀ c, last t = Some c → is_blank c = false) as Hlast.
  { intros c Hc'. apply last_Some_elem_of in Hc'. rewrite Forall_forall in Hf.
    by destruct (token_byte_facts _ (Hf _ Hc')) as (? & _). }
  rewrite app_assoc, find_comment_app by done. destruct Hc as [->|[Hc Hsp]].
  - simpl. rewrite app_nil_r, take_ge by done. by apply trim_end_blanks_app.
  - destruct cm as [|d cm]; [done|]. simpl in Hc. apply ascii_eqb_eq in Hc as <-.
    assert (after_space ab (t ++ sp) = true) as ->.
    { unfold after_space. rewrite last_app. destruct (last sp) as [c|] eqn:E.
      - apply last_Some_elem_of in E. rewrite Forall_forall in Hs. apply Hs in E. simpl in E.
        unfold is_blank in E. unfold is_ascii_whitespace. apply orb_true_iff in E as [->| ->]; [done|].
        by rewrite orb_true_r.
      - by apply last_None in E. }
    simpl. rewrite Nat.add_0_r, take_app_length. by apply trim_end_blanks_app.
Qed.

(** ** Quoted values *)

(** A closing quote that was found stays one, whatever follows it. *)
Lemma closing_quote_Some q s n :
  closing_quote q s = Some n →
  ∃ raw x, s = raw ++ q :: x ∧ length raw = n ∧ ∀ x', closing_quote q (raw ++ q :: x') = Some n.
Proof.
  revert n. induction s as [s IH] using (induction_ltof1 _ (@length ascii)). unfold ltof in IH.
  intros n. destruct s as [|c s]; simpl; [done|].
  destruct (ascii_eqb q DQUOTE && ascii_eqb c BACKSLASH) eqn:E1.
  - destruct s as [|d s]; [done|]. intros (m & Hm & ->)%fmap_Some.
    apply IH in Hm as (raw & x & -> & <- & Hx); [|simpl; lia]. exists (c :: d :: raw), x.
    split_and!; [done|done|]. intros x'. simpl. by rewrite E1, Hx.
  - destruct (ascii_eqb c q) eqn:E2.
    + intros [= <-]. apply ascii_eqb_eq in E2 as ->. exists [], s. split_and!; [done|done|].
      intros x'. simpl. by rewrite E1, ascii_eqb_refl.
    + intros (m & Hm & ->)%fmap_Some. apply IH in Hm as (raw & x & -> & <- & Hx); [|simpl; lia].
      exists (c :: raw), x. split_and!; [done|done|]. intros x'. simpl. by rewrite E1, E2, Hx.
Qed.

Definition is_quote (c : ascii) : bool := ascii_eqb c DQUOTE || ascii_eqb c SQUOTE.

Lemma is_quote_facts q : is_quote q = true → is_blank q = false ∧ no_eol q = true ∧ ascii_eqb q BACKSLASH = false.
Proof. intros Hq. apply orb_true_iff in Hq as [Hq|Hq]; apply ascii_eqb_eq in Hq as ->; done. Qed.

Lemma closing_quote_token q t x :
  is_quote q = true → Forall (λ c, token_byte c = true) t →
  closing_quote q (t ++ q :: x) = Some (length t).
Proof.
  intros Hq. induction 1 as [|c t Hc Ht IH]; simpl.
  - destruct (is_quote_facts q Hq) as (_ & _ & ->). by rewrite andb_false_r, ascii_eqb_refl.
  - destruct (token_byte_facts c Hc) as (_ & _ & _ & Hd & Hs & -> & _). rewrite andb_false_r.
    replace (ascii_eqb c q) with false; [by rewrite IH|].
    apply orb_true_iff in Hq as [Hq|Hq]; apply ascii_eqb_eq in Hq as ->; done.
Qed.

Lemma decode_token t :
  Forall (λ c, token_byte c = true) t →
  normalize_line_endings t = t ∧ unescape_double_quoted t = t.
Proof.
  induction 1 as [|c t Hc Ht [IH1 IH2]]; [done|].
  destruct (token_byte_facts c Hc) as (_ & _ & _ & _ & _ & Hb & He & _).
  unfold no_eol in He. split_bools. cbn [normalize_line_endings unescape_double_quoted].
  by rewrite H0, Hb, IH1, IH2.
Qed.

(** What reading a quoted value depends on: [raw] up to its closing quote, the
    rest [trl] of that line with its line break, and not what follows *)
Lemma read_quoted_build pre q raw trl eol tail ln value :
  is_quote q = true →
  closing_quote q (raw ++ q :: trl ++ eol ++ tail) = Some (length raw) →
  Forall (λ c, no_eol c = true) trl → line_break eol tail →
  (trim_start_blanks trl = [] ∨ starts_with_byte "#" (trim_start_blanks trl) = true) →
  value = (if ascii_eqb q DQUOTE then unescape_double_quoted (normalize_line_endings raw)
           else normalize_line_endings raw) →
  let before := pre ++ [q] in
  let next := length (before ++ raw ++ q :: trl ++ eol) in
  ∃ lines, read_quoted (before ++ raw ++ q :: trl ++ eol ++ tail) ln (length pre) q
    = Ok (mk_value (length before, (length before + length raw)%nat) next value lines None).
Proof.
  intros Hq Hc Ht Hb Htr -> before next. set (rest := before ++ raw ++ q :: trl ++ eol ++ tail).
  assert (length before = (length pre + 1)%nat) as Hlb by (unfold before; rewrite length_app; simpl; lia).
  unfold read_quoted, find_closing_quote. rewrite <- Hlb.
  replace (drop (length before) rest) with (raw ++ q :: trl ++ eol ++ tail)
    by (unfold rest; by rewrite drop_app_length).
  rewrite Hc. cbn [fmap option_fmap option_map].
  assert (physical_line_bounds rest (length before + length raw)
          = ((length before + length raw + 1 + length trl)%nat, next)) as ->.
  { unfold physical_line_bounds, rest. rewrite app_assoc, drop_app_length' by (rewrite length_app; lia).
    change (q :: trl ++ eol ++ tail) with ((q :: trl) ++ eol ++ tail). rewrite line_bounds_app; [|constructor|done].
    - simpl. f_equal; [lia|]. unfold next. rewrite !length_app. simpl. rewrite !length_app. lia.
    - by destruct (is_quote_facts q Hq) as (_ & ? & _).
    - done. }
  replace (slice (length before) (length before + length raw) rest) with raw
    by (unfold rest; symmetry; by apply slice_mid).
  replace (slice (length before + length raw + 1) (length before + length raw + 1 + length trl) rest)
    with trl.
  2:{ unfold rest. symmetry.
      replace (before ++ raw ++ q :: trl ++ eol ++ tail) with ((before ++ raw ++ [q]) ++ trl ++ eol ++ tail)
        by (by rewrite <- !app_assoc).
      apply slice_mid; [rewrite !length_app; simpl; lia|done]. }
  eexists. f_equal. f_equal. destruct Htr as [->| ->]; [done|]. by rewrite andb_false_r.
Qed.

(** Every quoted value without an issue is of that form. *)
Lemma read_quoted_inv pre q s ln v :
  is_quote q = true →
  read_quoted (pre ++ q :: s) ln (length pre) q = Ok v → vr_issue v = None →
  ∃ raw trl eol tail, s = raw ++ q :: trl ++ eol ++ tail ∧
    (∀ x, closing_quote q (raw ++ q :: x) = Some (length raw)) ∧
    Forall (λ c, no_eol c = true) trl ∧ line_break eol tail ∧
    (trim_start_blanks trl = [] ∨ starts_with_byte "#" (trim_start_blanks trl) = true).
Proof.
  intros Hq H Hi. unfold read_quoted, find_closing_quote in H.
  replace (drop (length pre + 1) (pre ++ q :: s)) with s in H.
  2:{ change (q :: s) with ([q] ++ s). rewrite app_assoc, drop_app_length'; [done|].
      rewrite length_app. simpl. lia. }
  destruct (closing_quote q s) as [n|] eqn:E; [|done].
  apply closing_quote_Some in E as (raw & x & -> & <- & Hx).
  destruct (line_split x) as (trl & eol & tail & -> & Hn & Hb & _).
  exists raw, trl, eol, tail. split_and!; try done.
  cbn [fmap option_fmap option_map] in H.
  assert (physical_line_bounds (pre ++ q :: raw ++ q :: trl ++ eol ++ tail) (length pre + 1 + length raw)
          = ((length pre + 1 + length raw + 1 + length trl)%nat,
             (length pre + 1 + length raw + 1 + length trl + length eol)%nat)) as Hl.
  { unfold physical_line_bounds.
    replace (pre ++ q :: raw ++ q :: trl ++ eol ++ tail)
      with ((pre ++ [q] ++ raw) ++ q :: trl ++ eol ++ tail) by (by rewrite <- !app_assoc).
    rewrite drop_app_length' by (rewrite !length_app; simpl; lia).
    change (q :: trl ++ eol ++ tail) with ((q :: trl) ++ eol ++ tail).
    rewrite line_bounds_app; [|constructor; [by destruct (is_quote_facts q Hq) as (_ & ? & _)|done]|done].
    simpl. f_equal; lia. }
  rewrite Hl in H. injection H as <-. cbn [vr_issue] in Hi.
  replace (slice (length pre + 1 + length raw + 1) (length pre + 1 + length raw + 1 + length trl)
             (pre ++ q :: raw ++ q :: trl ++ eol ++ tail)) with trl in Hi.
  2:{ symmetry.
      replace (pre ++ q :: raw ++ q :: trl ++ eol ++ tail)
        with ((pre ++ [q] ++ raw ++ [q]) ++ trl ++ eol ++ tail) by (by rewrite <- !app_assoc).
      apply slice_mid; [rewrite !length_app; simpl; lia|done]. }
  destruct (trim_start_blanks trl) as [|c u]; [by left|right].
  destruct (starts_with_byte "#" (c :: u)); [done|]. done.
Qed.

(** ** A record and its replacement *)

Lemma read_unquoted_build pre w x eol tail eq :
  unquoted_value (eq + 1 <? length pre)%nat (w ++ x) = w →
  read_unquoted (pre ++ (w ++ x) ++ eol ++ tail) eq (length pre)
    (length pre + length (w ++ x)) (length (pre ++ (w ++ x) ++ eol))
  = mk_value (length pre, (length pre + length w)%nat) (length (pre ++ (w ++ x) ++ eol)) w 1 None.
Proof.
  intros Hw. unfold read_unquoted.
  rewrite (slice_mid (length pre) (length pre + length (w ++ x)) pre (w ++ x) (eol ++ tail)) by done.
  unfold unquoted_value in Hw. rewrite Hw. f_equal.
  replace (pre ++ (w ++ x) ++ eol ++ tail) with (pre ++ w ++ x ++ eol ++ tail) by (by rewrite <- !app_assoc).
  by apply slice_mid.
Qed.

(** The entry of a name [k] and a value [v] *)
Definition entry_of (k : string) (v : bytes) : EnvEntry :=
  mk_entry k (of_bytes v) (is_phantom_token (of_bytes v)).

(** [parse_line] reads [before ++ raw ++ after], in front of every line break,
    as the one record of [k] and [v] at that span. *)
Definition reads_record (before raw after : bytes) (k : string) (v : bytes) : Prop :=
  ∀ eol tail ln, line_break eol tail → ∃ lines sp,
    parse_line (before ++ raw ++ after ++ eol ++ tail) ln
    = GotRecord (mk_record (entry_of k v) (0%nat, length (before ++ raw ++ after ++ eol)) sp) None
        (length (before ++ raw ++ after ++ eol)) lines ∧
    sp.1 = length before.

Lemma reads_quoted ind exp k bl q raw trl v :
  let before := head_bytes ind exp k bl ++ [q] in
  head_text ind exp k bl → Forall (λ c, no_eol c = true) (head_bytes ind exp k bl) →
  is_quote q = true → (∀ x, closing_quote q (raw ++ q :: x) = Some (length raw)) →
  Forall (λ c, no_eol c = true) trl →
  (trim_start_blanks trl = [] ∨ starts_with_byte "#" (trim_start_blanks trl) = true) →
  v = (if ascii_eqb q DQUOTE then unescape_double_quoted (normalize_line_endings raw)
       else normalize_line_endings raw) →
  reads_record before raw (q :: trl) (trim (of_bytes k)) v.
Proof.
  intros before Hh Hp Hq Hc Ht Htr Hv eol tail ln Hb.
  set (pre := head_bytes ind exp k bl) in *.
  assert (before ++ raw ++ (q :: trl) ++ eol ++ tail = pre ++ q :: raw ++ q :: trl ++ eol ++ tail) as ->.
  { unfold before. by rewrite <- !app_assoc. }
  unfold pre. rewrite parse_line_head; [|done|done|by destruct (is_quote_facts q Hq)]. fold pre.
  unfold read_value. rewrite list_lookup_middle by done.
  unfold is_quote in Hq. rewrite Hq.
  destruct (read_quoted_build pre q raw trl eol tail ln v) as (lines & Hr); try done.
  replace (pre ++ q :: raw ++ q :: trl ++ eol ++ tail)
    with ((pre ++ [q]) ++ raw ++ q :: trl ++ eol ++ tail) by (by rewrite <- !app_assoc).
  rewrite Hr. eexists lines, (_, _). split; [by cbn [record_step vr_value vr_end vr_span vr_issue vr_lines]|done].
Qed.

Lemma parse_unquoted ind exp k bl w x eol tail ln :
  let pre := head_bytes ind exp k bl in
  head_text ind exp k bl → Forall (λ c, no_eol c = true) pre →
  Forall (λ c, no_eol c = true) (w ++ x) → not_blank_first (w ++ x) →
  match w ++ x with c :: _ => is_quote c = false | [] => True end → line_break eol tail →
  unquoted_value (length ind + length exp + length k + 1 <? length pre)%nat (w ++ x) = w →
  parse_line (pre ++ (w ++ x) ++ eol ++ tail) ln
  = GotRecord (mk_record (entry_of (trim (of_bytes k)) w) (0%nat, length (pre ++ (w ++ x) ++ eol))
                 (length pre, (length pre + length w)%nat)) None (length (pre ++ (w ++ x) ++ eol)) 1.
Proof.
  intros pre Hh Hp Hn Hf Hq Hb Hu.
  unfold pre. rewrite parse_line_head; [fold pre|done|done|].
  - rewrite line_bounds_app by done. cbn [fst snd].
    replace (length pre + (length (w ++ x) + length eol))%nat with (length (pre ++ (w ++ x) ++ eol))
      by (rewrite !length_app; lia).
    replace (read_value _ _ _ _ _ _)
      with (@Ok _ DotenvParseIssue (mk_value (length pre, (length pre + length w)%nat)
              (length (pre ++ (w ++ x) ++ eol)) w 1 None)); [done|].
    unfold read_value. rewrite lookup_app_r, Nat.sub_diag by done. rewrite read_unquoted_build by done.
    destruct (w ++ x) as [|c u]; simpl.
    + by destruct Hb as [[-> ->]|[->|[->|[-> _]]]].
    + unfold is_quote in Hq. by rewrite Hq.
  - destruct (w ++ x); [|done]. by destruct Hb as [[-> ->]|[->|[->|[-> _]]]].
Qed.

Lemma reads_unquoted ind exp k bl w x :
  let pre := head_bytes ind exp k bl in
  head_text ind exp k bl → Forall (λ c, no_eol c = true) pre →
  Forall (λ c, no_eol c = true) (w ++ x) → not_blank_first (w ++ x) →
  match w ++ x with c :: _ => is_quote c = false | [] => True end →
  unquoted_value (length ind + length exp + length k + 1 <? length pre)%nat (w ++ x) = w →
  reads_record pre w x (trim (of_bytes k)) w.
Proof.
  intros pre Hh Hp Hn Hf Hq Hu eol tail ln Hb.
  pose proof (parse_unquoted ind exp k bl w x eol tail ln Hh Hp Hn Hf Hq Hb Hu) as H.
  fold pre in H. rewrite <- !app_assoc in H. rewrite H. by eexists _, (_, _).
Qed.

Definition FF : ascii := "012".

(** The record does not depend on where its bytes are cut. *)
Lemma reads_record_assoc before raw after raw' after' k v :
  raw ++ after = raw' ++ after' →
  reads_record before raw after k v → reads_record before raw' after' k v.
Proof.
  intros He H eol tail ln Ht. destruct (H eol tail ln Ht) as (lines & sp & Hr & Hs).
  rewrite !(app_assoc raw), He, <- !app_assoc in Hr. by exists lines, sp.
Qed.

(** What [render_replacement] appends to a token keeps a comment apart. *)
Lemma render_gap pre w sp cm x t ab :
  (cm = [] ∨ starts_with_byte "#" cm = true ∧ after_space ab (w ++ sp) = true) →
  (∀ c, last w = Some c → is_blank c = false) → FF ∉ w → Forall (λ c, no_eol c = true) w →
  ∃ gap, render_replacement (pre ++ (w ++ sp ++ cm) ++ x) (length pre, (length pre + length w)%nat) t
         = t ++ gap ∧
    Forall (λ c, is_blank c = true) gap ∧
    (cm = [] ∨ starts_with_byte "#" cm = true ∧ gap ++ sp ≠ []).
Proof.
  intros Hc Hl Hff Hn. unfold render_replacement. cbn [fst snd].
  destruct (_ && _) eqn:E.
  { exists [" "%char]. split_and!; [done|by constructor|]. destruct Hc as [->|[Hc _]]; [by left|by right]. }
  exists []. split_and!; [by rewrite app_nil_r|done|].
  destruct Hc as [->|[Hc Ha]]; [by left|right]. split; [done|]. rewrite app_nil_l. intros ->. simpl in E, Ha.
  rewrite app_nil_r in Ha. unfold after_space in Ha. destruct w as [|d w0] using rev_ind.
  - simpl in E. destruct cm as [|d cm]; [done|]. simpl in Hc. apply ascii_eqb_eq in Hc as <-.
    rewrite Nat.add_0_r, Nat.leb_refl, lookup_app_r, Nat.sub_diag in E by done. done.
  - rewrite last_snoc in Ha, Hl. specialize (Hl d eq_refl).
    apply Forall_app in Hn as [_ Hn]. apply Forall_cons in Hn as [Hn _].
    unfold is_ascii_whitespace in Ha. unfold is_blank in Hl. unfold no_eol in Hn. split_bools.
    rewrite H, H0 in Ha. rewrite H1 in Ha. rewrite H2, orb_false_r in Ha. simpl in Ha.
    apply ascii_eqb_eq in Ha as ->. apply Hff. apply elem_of_app. right. by apply list_elem_of_singleton.
Qed.

(** The last byte of a line before its break *)
Definition ends_clean (s : bytes) : Prop := ∀ c, last s = Some c → no_eol c = true.

Lemma ends_clean_app a b : Forall (λ c, no_eol c = true) b → b ≠ [] ∨ ends_clean a → ends_clean (a ++ b).
Proof.
  intros Hb Ha c. rewrite last_app. destruct (last b) as [d|] eqn:E.
  - intros [= <-]. apply last_Some_elem_of in E. rewrite Forall_forall in Hb. by apply Hb.
  - apply last_None in E as ->. destruct Ha as [Ha|Ha]; [done|]. apply Ha.
Qed.

(** A record that is read without an issue is read the same way in front of
    every line break, and with a token in place of its value it is read as the
    record of that token. *)
Lemma record_replace rest ln r next lines :
  parse_line rest ln = GotRecord r None next lines →
  ∃ before raw after eol tail v, rest = before ++ raw ++ after ++ eol ++ tail ∧
    line_break eol tail ∧ before ≠ [] ∧ ends_clean (before ++ raw ++ after) ∧
    value_span r = (length before, (length before + length raw)%nat) ∧
    record_span r = (0%nat, next) ∧ next = length (before ++ raw ++ after ++ eol) ∧
    entry r = entry_of (key (entry r)) v ∧
    reads_record before raw after (key (entry r)) v ∧
    ∀ t, token_bytes t → FF ∉ rest →
      reads_record before (render_replacement rest (value_span r) t) after (key (entry r)) t.
Proof.
  intros H. destruct (parse_line_inv _ _ _ _ _ _ H) as (ind & exp & k & bl & s & -> & Hh & Hp & Hs).
  pose proof H as Hpl. rewrite parse_line_head in H by done. set (pre := head_bytes ind exp k bl) in *.
  assert (pre ≠ []) as Hne.
  { intros He. pose proof (head_bytes_length ind exp k bl) as Hl. fold pre in Hl. rewrite He in Hl.
    simpl in Hl. lia. }
  destruct (match s with c :: _ => is_quote c | [] => false end) eqn:Eq.
  - destruct s as [|q s]; [done|]. unfold read_value in H. rewrite list_lookup_middle in H by done.
    unfold is_quote in Eq. rewrite Eq in H. fold (is_quote q) in Eq.
    destruct (read_quoted (pre ++ q :: s) ln (length pre) q) as [v|] eqn:Er; [|done].
    cbn [record_step] in H.
    assert (vr_issue v = None) as Hi by (by injection H).
    destruct (read_quoted_inv _ _ _ _ _ Eq Er Hi) as (raw & trl & eol & tail & -> & Hc & Ht & Hb & Htr).
    destruct (read_quoted_build pre q raw trl eol tail ln _ Eq (Hc _) Ht Hb Htr eq_refl) as (lines' & Hr).
    replace (pre ++ q :: raw ++ q :: trl ++ eol ++ tail)
      with ((pre ++ [q]) ++ raw ++ q :: trl ++ eol ++ tail) in * by (by rewrite <- !app_assoc).
    rewrite Hr in Er. injection Er as <-.
    cbn [vr_value vr_end vr_span vr_issue vr_lines] in H. injection H as <- <- <-.
    exists (pre ++ [q]), raw, (q :: trl), eol, tail, (if ascii_eqb q DQUOTE
      then unescape_double_quoted (normalize_line_endings raw) else normalize_line_endings raw).
    split_and!; try done.
    + by destruct pre.
    + rewrite app_assoc. apply ends_clean_app; [|by left]. constructor; [|done].
      by destruct (is_quote_facts q Eq) as (_ & ? & _).
    + by apply reads_quoted.
    + intros t Ht' _. cbn [value_span entry key].
      replace (render_replacement _ _ t) with t.
      * apply reads_quoted; try done.
        -- intros x. by apply closing_quote_token, Ht'.
        -- destruct (decode_token t) as [-> ->]; [apply Ht'|]. by destruct (ascii_eqb q DQUOTE).
      * symmetry. unfold render_replacement. cbn [fst snd].
        rewrite app_assoc, list_lookup_middle by (rewrite !length_app; lia).
        simpl. replace (ascii_eqb "#" q) with false; [by rewrite andb_false_r|].
        apply orb_true_iff in Eq as [Eq|Eq]; apply ascii_eqb_eq in Eq as ->; done.
  - destruct (line_split s) as (l & eol & tail & -> & Hn & Hb & Hlb).
    destruct (unquoted_split (length ind + length exp + length k + 1 <? length pre)%nat l)
      as (sp & cm & Hl & Hsp & Hcm & Hlast).
    set (ab := (length ind + length exp + length k + 1 <? length pre)%nat) in *.
    set (w := unquoted_value ab l) in *.
    assert (w = unquoted_value ab l) as Hw by done. clearbody w. subst l.
    assert (not_blank_first (w ++ sp ++ cm)) as Hfl by (by destruct (w ++ sp ++ cm)).
    assert (match w ++ sp ++ cm with c :: _ => is_quote c = false | [] => True end) as Hql
      by (by destruct (w ++ sp ++ cm)).
    fold pre in Hw.
    pose proof (parse_unquoted ind exp k bl w (sp ++ cm) eol tail ln Hh Hp Hn Hfl Hql Hb (eq_sym Hw)) as Hr.
    fold pre in Hr. rewrite Hr in Hpl. injection Hpl as <- <- <-. cbn [value_span entry record_span] in *.
    exists pre, w, (sp ++ cm), eol, tail, w. split_and!; try done.
    + by rewrite <- !app_assoc.
    + apply ends_clean_app; [done|]. right. intros c Hc. apply last_Some_elem_of in Hc.
      rewrite Forall_forall in Hp. by apply Hp.
    + by rewrite <- !app_assoc.
    + by apply reads_unquoted.
    + intros t Ht Hff. cbn [entry_of key].
      destruct (render_gap pre w sp cm (eol ++ tail) t ab) as (gap & Hrd & Hg & Hgc); try done.
      { intros Hlf. apply Hff. rewrite !elem_of_app in *. tauto. }
      { by apply Forall_app in Hn as [? _]. }
      rewrite <- !app_assoc in Hrd |- *. rewrite Hrd.
      apply (reads_record_assoc pre t (gap ++ sp ++ cm)); [by rewrite <- !app_assoc|].
      destruct Ht as [Ht1 Ht2].
      assert (Forall (λ c, no_eol c = true) gap) as Hge.
      { eapply Forall_impl; [done|]. intros c Hc. unfold is_blank in Hc.
        apply orb_true_iff in Hc as [Hc|Hc]; apply ascii_eqb_eq in Hc as ->; done. }
      apply reads_unquoted; try done.
      * apply Forall_app. split; [|apply Forall_app; split; [done|by apply Forall_app in Hn as [_ ?]]].
        eapply Forall_impl; [done|]. intros c Hc. by destruct (token_byte_facts c Hc) as (_&_&_&_&_&_&?&_).
      * destruct t as [|c t]; [done|]. apply Forall_cons in Ht2 as [Hc _].
        by destruct (token_byte_facts c Hc).
      * destruct t as [|c t]; [done|]. apply Forall_cons in Ht2 as [Hc _].
        destruct (token_byte_facts c Hc) as (_&_&_&E1&E2&_). simpl. unfold is_quote. by rewrite E1, E2.
      * rewrite (app_assoc gap). apply unquoted_build; [done| |done]. by apply Forall_app.
Qed.

(** ** Lines without a record *)

Lemma skip_stable rest ln next :
  parse_line rest ln = NextLine None next →
  ∃ l eol tail, rest = l ++ eol ++ tail ∧ line_break eol tail ∧ next = length (l ++ eol) ∧
    Forall (λ c, no_eol c = true) l ∧
    ∀ eol' tail' ln', line_break eol' tail' →
      parse_line (l ++ eol' ++ tail') ln' = NextLine None (length (l ++ eol')).
Proof.
  intros H. destruct (line_split rest) as (l & eol & tail & -> & Hl & Hb & Hlb).
  unfold parse_line, physical_line_bounds in H. rewrite drop_0, Hlb in H. cbn [Nat.add] in H.
  rewrite take_app_length in H. exists l, eol, tail. split_and!; [done|done| |done|].
  - destruct (parse_head l); try done; [| |by destruct (read_value _ _ _ _ _ _)];
      injection H as <-; by rewrite length_app.
  - intros eol' tail' ln' Hb'. unfold parse_line, physical_line_bounds.
    rewrite drop_0, line_bounds_app by done. cbn [Nat.add]. rewrite take_app_length, length_app.
    destruct (parse_head l); try done. by destruct (read_value _ _ _ _ _ _).
Qed.

(** Every step consumes a byte. *)
Lemma parse_line_advances rest ln :
  rest ≠ [] →
  match parse_line rest ln with
  | NextLine _ next | GotRecord _ _ next _ => (0 < next <= length rest)%nat
  | StopAt _ => True
  end.
Proof.
  intros Hne. destruct (parse_line rest ln) as [issue next|issue|r issue next lines] eqn:H; [|done|].
  - destruct (line_split rest) as (l & eol & tail & -> & Hl & Hb & Hlb).
    unfold parse_line, physical_line_bounds in H. rewrite drop_0, Hlb in H. cbn [Nat.add] in H.
    rewrite take_app_length in H.
    assert (next = length (l ++ eol)) as ->.
    { rewrite length_app. destruct (parse_head l); try (by injection H as <- <-).
      by destruct (read_value _ _ _ _ _ _). }
    pose proof (line_break_nonempty l eol tail Hb Hne) as Hn.
    rewrite app_assoc, (length_app (l ++ eol)). destruct (l ++ eol); simpl in *; [done|lia].
  - destruct (parse_line_inv _ _ _ _ _ _ H) as (ind & exp & k & bl & s & -> & Hh & Hp & Hs).
    rewrite parse_line_head in H by done. pose proof (head_bytes_length ind exp k bl) as Hlen.
    set (pre := head_bytes ind exp k bl) in *. rewrite length_app.
    pose proof (line_bounds_le s) as [Hb1 Hb2].
    assert (∀ v, read_value (pre ++ s) ln (length ind + length exp + length k) (length pre)
      (length pre + (line_bounds s).1) (length pre + (line_bounds s).2) = Ok v →
      (0 < vr_end v <= length pre + length s)%nat) as Hv; [|].
    { intros v Hr. unfold read_value in Hr. destruct ((pre ++ s) !! length pre) as [q|] eqn:Eq;
        [|injection Hr as <-; cbn [read_unquoted vr_end]; lia].
      destruct (_ || _); [|injection Hr as <-; cbn [read_unquoted vr_end]; lia].
      unfold read_quoted, find_closing_quote in Hr.
      destruct (closing_quote _ _) as [n|] eqn:En; [|done]. cbn [fmap option_fmap option_map] in Hr.
      unfold physical_line_bounds in Hr.
      pose proof (line_bounds_le (drop (length pre + 1 + n) (pre ++ s))) as [Hc1 Hc2].
      destruct (line_bounds (drop _ (pre ++ s))) as [a b]. injection Hr as <-. cbn [vr_end fst snd] in *.
      rewrite length_drop, length_app in Hc2.
      apply closing_quote_Some in En as (raw & x & En & Hraw & _).
      apply (f_equal length) in En. rewrite length_drop, !length_app in En. simpl in En. lia. }
    destruct (read_value _ _ _ _ _ _) as [v|] eqn:Hr; [|done]. cbn [record_step] in H.
    injection H as _ _ <- _. by apply Hv.
Qed.
