(* ===== verification/DotenvSpec.v ===== *)
(** * Dotenv files: what a mutation does to a source

    The parser consumes the whole source; a rewritten source is read as the
    same entries with tokens in place of the mapped values. *)

From S2P Require Import Prelude Text Bytes Token Dotenv DotenvLines.

(** ** The loop *)

(** Enough fuel does not matter. *)
Lemma parse_loop_enough fuel fuel' rest cursor ln :
  (length rest <= fuel)%nat → (length rest <= fuel')%nat →
  parse_loop fuel rest cursor ln = parse_loop fuel' rest cursor ln.
Proof.
  revert fuel' rest cursor ln. induction fuel as [|fuel IH]; intros [|fuel'] rest cursor ln H H'; simpl.
  - done.
  - by destruct rest; [|simpl in *; lia].
  - by destruct rest; [|simpl in *; lia].
  - destruct (length rest =? 0)%nat eqn:E; [done|]. apply Nat.eqb_neq in E.
    pose proof (parse_line_advances rest ln) as Ha.
    destruct (parse_line rest ln) as [i n|i|r i n lines]; [|done|].
    all: assert (rest ≠ []) as Hne by (by intros ->); specialize (Ha Hne);
      rewrite (IH fuel'); [done|rewrite length_drop; lia..].
Qed.

(** One round of the loop, with the fuel of the rest *)
Lemma parse_loop_step rest cursor ln :
  rest ≠ [] →
  parse_loop (length rest) rest cursor ln
  = match parse_line rest ln with
    | NextLine issue next =>
        let '(rs, iss) := parse_loop (length (drop next rest)) (drop next rest) (cursor + next) (ln + 1) in
        (rs, option_list issue ++ iss)
    | StopAt issue => ([], [issue])
    | GotRecord r issue next lines =>
        let '(rs, iss) :=
          parse_loop (length (drop next rest)) (drop next rest) (cursor + next) (ln + lines) in
        (shift_record cursor r :: rs, option_list issue ++ iss)
    end.
Proof.
  intros Hne. destruct (length rest) as [|n] eqn:E; [by destruct rest|].
  cbn [parse_loop]. rewrite E. cbn [Nat.eqb].
  pose proof (parse_line_advances rest ln Hne) as Ha.
  destruct (parse_line rest ln) as [i next|i|r i next lines]; [|done|];
    rewrite (parse_loop_enough n (length (drop next rest))) by (rewrite ?length_drop; lia); done.
Qed.

(** The values of the records lie at the cursor or behind it. *)
Lemma parse_loop_spans fuel rest cursor ln rs iss :
  parse_loop fuel rest cursor ln = (rs, iss) →
  Forall (λ r, (cursor <= (value_span r).1)%nat ∧ (cursor <= (record_span r).1)%nat) rs.
Proof.
  revert rest cursor ln rs iss. induction fuel as [|fuel IH]; intros rest cursor ln rs iss; simpl.
  - intros [= <- <-]. constructor.
  - destruct (length rest =? 0)%nat; [intros [= <- <-]; constructor|].
    assert (∀ c c' rs', (c <= c')%nat →
      Forall (λ r, (c' <= (value_span r).1)%nat ∧ (c' <= (record_span r).1)%nat) rs' →
      Forall (λ r, (c <= (value_span r).1)%nat ∧ (c <= (record_span r).1)%nat) rs') as Hmono.
    { intros c c' rs' Hc Hf. eapply Forall_impl; [done|]. simpl. lia. }
    destruct (parse_line rest ln) as [i next|i|r i next lines].
    + destruct (parse_loop fuel _ _ _) as [rs' iss'] eqn:E. intros [= <- <-].
      apply IH in E. eapply Hmono; [|done]. lia.
    + intros [= <- <-]. constructor.
    + destruct (parse_loop fuel _ _ _) as [rs' iss'] eqn:E. intros [= <- <-].
      constructor; [simpl; lia|]. apply IH in E. eapply Hmono; [|done]. lia.
Qed.

(** ** Splicing *)

(** The replacements at or behind [c] *)
Definition reps_from (c : nat) (reps : list (span * bytes)) : Prop :=
  match reps with [] => True | (sp, _) :: _ => (c <= sp.1)%nat end.

(** Up to the first replacement a splice copies. *)
Lemma splice_advance s c c' reps :
  (c <= c')%nat → reps_from c' reps →
  splice_from s c reps = slice c c' s ++ splice_from s c' reps.
Proof.
  intros Hc Hr. destruct reps as [|[sp t] reps]; simpl in *; [by apply drop_slice|].
  rewrite (slice_cut c c' sp.1) by lia. by rewrite <- !app_assoc.
Qed.

Lemma slice_of_drop s c (a b : bytes) :
  drop c s = a ++ b → slice c (c + length a) s = a ∧ drop (c + length a) s = b.
Proof.
  intros H. unfold slice. split.
  - replace (c + length a - c)%nat with (length a) by lia. rewrite H. apply take_app_length.
  - rewrite <- drop_drop, H. apply drop_app_length.
Qed.

(** [render_replacement] looks at the source behind the span only. *)
Lemma render_shift s c rest sp t :
  drop c s = rest → render_replacement s (shift_span c sp) t = render_replacement rest sp t.
Proof.
  intros <-. unfold render_replacement, shift_span. cbn [fst snd]. rewrite lookup_drop.
  replace (c + sp.2 <=? c + sp.1)%nat with (sp.2 <=? sp.1)%nat; [done|].
  destruct (Nat.leb_spec sp.2 sp.1), (Nat.leb_spec (c + sp.2) (c + sp.1)); (done || lia).
Qed.

(** ** What a splice replaces *)

(** In [s] the pieces [old] of the list are replaced by the [new] ones, in
    their order, and nothing else: [s'] is the result. *)
Inductive replaced : bytes → list (bytes * bytes) → bytes → Prop :=
  | replaced_end s : replaced s [] s
  | replaced_piece gap old new s edits s' :
      replaced s edits s' → replaced (gap ++ old ++ s) ((old, new) :: edits) (gap ++ new ++ s').

Lemma replaced_prefix p s edits s' : replaced s edits s' → replaced (p ++ s) edits (p ++ s').
Proof. destruct 1; [constructor|]. rewrite !(app_assoc p). by constructor. Qed.

(** Spans in order, from [c] up to [n] *)
Fixpoint spans_within (c n : nat) (spans : list span) : Prop :=
  match spans with
  | [] => (c <= n)%nat
  | sp :: rest => (c <= sp.1 <= sp.2)%nat ∧ spans_within sp.2 n rest
  end.

Lemma spans_within_from c c' n spans : (c <= c')%nat → spans_within c' n spans → spans_within c n spans.
Proof. destruct spans as [|sp rest]; simpl; [lia|]. intros Hc [H1 H2]. split; [lia|done]. Qed.

(** Leaving spans out *)
Lemma spans_within_omap {A} (f : A → option (span * bytes)) (g : A → span) c n (l : list A) :
  (∀ x y, f x = Some y → y.1 = g x) → spans_within c n (map g l) → spans_within c n (omap f l).*1.
Proof.
  intros Hf. revert c. induction l as [|x l IH]; intros c; [done|]. cbn [map spans_within]. intros [Hc Hl].
  cbn [omap list_omap]. destruct (f x) as [y|] eqn:E.
  - cbn. rewrite (Hf _ _ E). split; [done|by apply IH].
  - apply IH. eapply spans_within_from; [|done]. lia.
Qed.

Lemma splice_replaced s reps c : spans_within c (length s) reps.*1 →
  replaced (drop c s) (map (λ r, (slice r.1.1 r.1.2 s, r.2)) reps) (splice_from s c reps).
Proof.
  revert c. induction reps as [|[sp t] reps IH]; intros c; [constructor|]. cbn [fmap list_fmap spans_within fst snd].
  intros [Hc Hr]. cbn [map splice_from fst snd]. rewrite (drop_slice c sp.1), (drop_slice sp.1 sp.2) by lia.
  constructor. by apply IH.
Qed.

(** ** Byte order marks *)

(** [s'] is [s] with parts replaced by ASCII texts that are not empty. *)
Inductive edited : bytes → bytes → Prop :=
  | edited_refl s : edited s s
  | edited_step a raw t s s' :
      a ≠ [] → t ≠ [] → Forall (λ c, (N_of_ascii c < 128)%N) t → edited s s' →
      edited (a ++ raw ++ s) (a ++ t ++ s').

Lemma edited_prefix p s s' : edited s s' → edited (p ++ s) (p ++ s').
Proof.
  destruct 1 as [s|a raw t s s' Ha Ht Hf He]; [constructor|].
  rewrite !(app_assoc p). constructor; try done. by destruct p.
Qed.

(** A byte order mark at offset [n] *)
Definition bom_at (s : bytes) (n : nat) : Prop :=
  s !! n = Some "239"%char ∧ s !! S n = Some "187"%char ∧ s !! S (S n) = Some "191"%char.

Lemma bom_start_with s : bytes_start_with UTF8_BOM s = true ↔ bom_at s 0.
Proof.
  unfold bom_at, UTF8_BOM.
  destruct s as [|a [|b [|c s]]]; cbn [bytes_start_with lookup list_lookup];
    rewrite ?andb_true_iff, ?ascii_eqb_eq; naive_solver.
Qed.

Lemma bom_offsets_spec s k n : n ∈ bom_offsets s k ↔ ∃ m, n = (k + m)%nat ∧ bom_at s m.
Proof.
  revert k. induction s as [|c s IH]; intros k; cbn [bom_offsets].
  - split; [by intros ?%elem_of_nil|]. by intros (m & _ & H & _).
  - rewrite elem_of_app, IH. split.
    + intros [H|(m & -> & H)].
      * exists 0%nat. destruct (bytes_start_with _ _) eqn:E; [|by apply elem_of_nil in H].
        apply list_elem_of_singleton in H as ->. split; [lia|]. by apply bom_start_with.
      * exists (S m). split; [lia|done].
    + intros ([|m] & -> & H); [left|right].
      * apply bom_start_with in H as ->. apply list_elem_of_singleton. lia.
      * exists m. split; [lia|done].
Qed.

Lemma bom_issues_nil s : unexpected_bom_issues s = [] ↔ ∀ n, bom_at s n → n = 0%nat.
Proof.
  unfold unexpected_bom_issues. split.
  - intros H n Hn. apply map_eq_nil in H. destruct (decide (n = 0%nat)) as [|Hz]; [done|exfalso].
    assert (In n (List.filter (λ offset, negb (offset =? 0)%nat) (bom_offsets s 0))) as Hin.
    { apply filter_In. split; [|by apply negb_true_iff, Nat.eqb_neq].
      apply list_elem_of_In, bom_offsets_spec. by exists n. }
    by rewrite H in Hin.
  - intros H. rewrite (filter_ext_in _ (λ _, false)); [by rewrite filter_false|].
    intros n Hin%list_elem_of_In%bom_offsets_spec. destruct Hin as (m & -> & Hm).
    by rewrite (H m Hm).
Qed.

Lemma bom_high c : c ∈ UTF8_BOM → (128 <= N_of_ascii c)%N.
Proof. unfold UTF8_BOM. rewrite !elem_of_cons, elem_of_nil. by intros [->|[->|[->|[]]]]. Qed.

(** An edit makes no byte order mark. *)
Lemma edited_bom s s' n : edited s s' → bom_at s' n → ∃ m, bom_at s m ∧ (m = 0 ↔ n = 0)%nat.
Proof.
  intros He. revert n. induction He as [s|a raw t s s' Ha Ht Hf He IH]; intros n Hn; [by exists n|].
  assert (∀ i c, (a ++ t ++ s') !! i = Some c → c ∈ UTF8_BOM →
    (i < length a)%nat ∧ a !! i = Some c ∨
    (length a + length t <= i)%nat ∧ s' !! (i - length a - length t)%nat = Some c) as Hcase.
  { intros i c Hi Hc. apply lookup_app_Some in Hi as [Hi|[Hl Hi]];
      [left; split; [by eapply lookup_lt_Some|done]|].
    apply lookup_app_Some in Hi as [Hi|[Hl' Hi]]; [|right; split; [lia|done]].
    exfalso. rewrite Forall_lookup in Hf. apply Hf in Hi. apply bom_high in Hc. simpl in Hi. lia. }
  destruct Hn as (H1 & H2 & H3).
  apply Hcase in H1; [|by unfold UTF8_BOM; set_solver]. apply Hcase in H2; [|by unfold UTF8_BOM; set_solver].
  apply Hcase in H3; [|by unfold UTF8_BOM; set_solver].
  assert (0 < length t)%nat as Hlt by (destruct t; simpl; [done|lia]).
  assert (0 < length a)%nat as Hla by (destruct a; simpl; [done|lia]).
  destruct H1 as [[Hi H1]|[Hi H1]].
  - destruct H2 as [[Hi2 H2]|[Hi2 _]]; [|lia]. destruct H3 as [[Hi3 H3]|[Hi3 _]]; [|lia].
    exists n. split; [|done]. unfold bom_at. by rewrite !lookup_app_l by lia.
  - destruct H2 as [[Hi2 _]|[Hi2 H2]]; [lia|]. destruct H3 as [[Hi3 _]|[Hi3 H3]]; [lia|].
    destruct (IH (n - length a - length t)%nat) as (m & (M1 & M2 & M3) & _).
    { unfold bom_at. split_and!; [done| |].
      - by replace (S (n - length a - length t)) with (S n - length a - length t)%nat by lia.
      - by replace (S (S (n - length a - length t))) with (S (S n) - length a - length t)%nat by lia. }
    exists (length a + (length raw + m))%nat. split; [|lia]. unfold bom_at.
    rewrite <- !Nat.add_succ_r.
    rewrite !lookup_app_r by lia.
    by replace (length a + (length raw + m) - length a - length raw)%nat with m by lia;
      replace (length a + (length raw + S m) - length a - length raw)%nat with (S m) by lia;
      replace (length a + (length raw + S (S m)) - length a - length raw)%nat with (S (S m)) by lia.
Qed.

(** Whether a text ends with a line break *)
Definition ends_eol (s : bytes) : bool := match last s with Some c => negb (no_eol c) | None => false end.

Lemma ends_eol_app a b : b ≠ [] → ends_eol (a ++ b) = ends_eol b.
Proof. intros Hb. unfold ends_eol. rewrite last_app. by destruct (last b) eqn:E; [|apply last_None in E]. Qed.

Lemma ends_eol_clean s : ends_eol s = false ↔ ends_clean s.
Proof.
  unfold ends_eol, ends_clean. destruct (last s) as [c|]; [|by split].
  rewrite negb_false_iff. split; [by intros Hc d [= <-]|auto].
Qed.

Lemma line_break_ends eol tail a :
  line_break eol tail → eol ≠ [] → ends_eol (a ++ eol) = true.
Proof. intros Hb He. rewrite ends_eol_app by done. by destruct Hb as [[-> _]|[->|[->|[-> _]]]]. Qed.

(** Two lines with the same break and tails that end alike end alike. *)
Lemma ends_eol_lines a a' eol tail out :
  line_break eol tail → ends_clean a → ends_clean a' → head out = head tail →
  ends_eol out = ends_eol tail → ends_eol (a ++ eol ++ tail) = ends_eol (a' ++ eol ++ out).
Proof.
  intros Hb Ha Ha' Hh He. destruct tail as [|c tail].
  - destruct out; [|done]. rewrite app_nil_r. destruct eol as [|d eol].
    + rewrite !app_nil_r. apply ends_eol_clean in Ha as ->. symmetry. by apply ends_eol_clean.
    + by rewrite !(line_break_ends _ _ _ Hb).
  - destruct out as [|d out]; [done|]. rewrite !app_assoc, !ends_eol_app by done. done.
Qed.

(** ** Rewriting values *)

Section rewrite.
Context (f : string → option bytes).
Hypothesis f_token : ∀ k t, f k = Some t → token_bytes t.

(** The entry of a record whose value [f] replaces *)
Definition rewritten (e : EnvEntry) : EnvEntry :=
  match f (key e) with Some t => entry_of (key e) t | None => e end.

Definition value_reps (s : bytes) (rs : list ParsedRecord) : list (span * bytes) :=
  omap (λ r, (λ t, (value_span r, render_replacement s (value_span r) t)) <$> f (key (entry r))) rs.

Lemma value_reps_from s c rs :
  Forall (λ r, (c <= (value_span r).1)%nat) rs → reps_from c (value_reps s rs).
Proof.
  induction 1 as [|r rs Hr Hf IH]; [done|]. unfold value_reps. simpl.
  by destruct (f (key (entry r))).
Qed.

Lemma render_not_nil s sp t : t ≠ [] → render_replacement s sp t ≠ [].
Proof. unfold render_replacement. destruct (_ && _); [|done]. by destruct t. Qed.

Lemma render_ascii s sp t : token_bytes t →
  Forall (λ c, (N_of_ascii c < 128)%N) (render_replacement s sp t).
Proof.
  intros [_ Hf].
  assert (Forall (λ c, (N_of_ascii c < 128)%N) t) as Ht.
  { eapply Forall_impl; [done|]. intros c Hc. by destruct (token_byte_facts c Hc) as (_&_&_&_&_&_&_&?). }
  unfold render_replacement. destruct (_ && _); [|done]. apply Forall_app. split; [done|].
  by constructor.
Qed.

Lemma token_clean t : token_bytes t → Forall (λ c, no_eol c = true) t.
Proof.
  intros [_ Hf]. eapply Forall_impl; [done|]. intros c Hc.
  by destruct (token_byte_facts c Hc) as (_&_&_&_&_&_&?&_).
Qed.

Lemma render_clean s sp t a raw b :
  ends_clean (a ++ raw ++ b) → token_bytes t → ends_clean (a ++ render_replacement s sp t ++ b).
Proof.
  intros Hc Ht. destruct b as [|d b].
  - rewrite app_nil_r. apply ends_clean_app; [|left; by apply render_not_nil, Ht].
    unfold render_replacement. destruct (_ && _); [|by apply token_clean].
    apply Forall_app. split; [by apply token_clean|by constructor].
  - intros c. rewrite app_assoc, last_app_cons. intros Hl. apply Hc.
    by rewrite app_assoc, last_app_cons.
Qed.

Lemma loop_rewrite s n : ∀ rest cursor ln rs,
  length rest = n → drop cursor s = rest → FF ∉ rest →
  parse_loop (length rest) rest cursor ln = (rs, []) →
  let out := splice_from s cursor (value_reps s rs) in
  head out = head rest ∧ edited rest out ∧ ends_eol out = ends_eol rest ∧
  ∀ cursor' ln', ∃ rs', parse_loop (length out) out cursor' ln' = (rs', []) ∧
    map entry rs' = map (λ r, rewritten (entry r)) rs.
Proof.
  induction (lt_wf n) as [n _ IH]. intros rest cursor ln rs Hn Hd Hff H.
  destruct (decide (rest = [])) as [->|Hne].
  { simpl in H. injection H as <-. cbn [value_reps omap list_omap splice_from]. rewrite Hd.
    split_and!; [done|constructor|done|]. intros c' ln'. by exists []. }
  pose proof (parse_line_advances rest ln Hne) as Hadv.
  rewrite parse_loop_step in H by done.
  destruct (parse_line rest ln) as [i next|i|r i next lines] eqn:Hl; [| |].
  - destruct (parse_loop _ _ (cursor + next) _) as [rs1 iss1] eqn:E. destruct i; [done|].
    injection H as <- ->.
    destruct (skip_stable rest ln next Hl) as (l & eol & tail & -> & Hlb & -> & Hcl & Hst).
    assert (l ++ eol ≠ []) as Hl0 by by eapply line_break_nonempty.
    rewrite app_assoc, drop_app_length in E.
    assert (drop cursor s = (l ++ eol) ++ tail) as Hd' by (by rewrite Hd, <- app_assoc).
    destruct (slice_of_drop _ _ _ _ Hd') as [Hsl Htl].
    destruct (IH (length tail)) with (5 := E) as (Hh & Hed & Hend & Hp); try done.
    { rewrite app_assoc, length_app in Hn. destruct (l ++ eol); simpl in *; [done|lia]. }
    { rewrite !elem_of_app in Hff. tauto. }
    pose proof (parse_loop_spans _ _ _ _ _ _ E) as Hsp.
    rewrite (splice_advance s cursor (cursor + length (l ++ eol)))
      by (lia || (apply value_reps_from; eapply Forall_impl; [done|]; simpl; tauto)).
    rewrite Hsl, (app_assoc l). set (out := splice_from _ _ _) in *. split_and!.
    + by destruct (l ++ eol).
    + by apply edited_prefix.
    + rewrite <- !app_assoc. assert (ends_clean l).
      { rewrite <- (app_nil_l l). by apply ends_clean_app; [|right]. }
      symmetry. by apply ends_eol_lines.
    + intros c' ln'. rewrite parse_loop_step by (by destruct (l ++ eol)).
      rewrite <- app_assoc, (Hst eol out ln') by (by eapply line_break_head).
      rewrite app_assoc, drop_app_length.
      destruct (Hp (c' + length (l ++ eol))%nat (ln' + 1)%nat) as (rs' & Hrs & He). rewrite Hrs. by exists rs'.
  - done.
  - destruct (parse_loop _ _ (cursor + next) _) as [rs1 iss1] eqn:E. destruct i; [done|].
    injection H as <- ->.
    destruct (record_replace rest ln r next lines Hl)
      as (before & raw & aft & eol & tail & v & -> & Hlb & Hb & Hcl & Hvs & _ & -> & Hent & Hsame & Hrep).
    pose (after := aft ++ eol).
    replace (before ++ raw ++ aft ++ eol ++ tail) with (before ++ raw ++ after ++ tail) in *
      by (unfold after; by rewrite <- !app_assoc).
    assert (drop (length (before ++ raw ++ after)) (before ++ raw ++ after ++ tail) = tail) as Hdt.
    { replace (before ++ raw ++ after ++ tail) with ((before ++ raw ++ after) ++ tail)
        by (by rewrite <- !app_assoc). apply drop_app_length. }
    fold after in E |- *. rewrite Hdt in E.
    assert (drop cursor s = (before ++ raw ++ after) ++ tail) as Hd' by (by rewrite Hd, <- !app_assoc).
    destruct (slice_of_drop _ _ _ _ Hd') as [Hsl Htl].
    destruct (IH (length tail)) with (5 := E) as (Hh & Hed & Hend & Hp); try done.
    { rewrite !length_app in Hn. destruct before; simpl in *; [done|lia]. }
    { rewrite !elem_of_app in Hff. tauto. }
    pose proof (parse_loop_spans _ _ _ _ _ _ E) as Hsp.
    set (next := length (before ++ raw ++ after)) in *.
    assert (reps_from (cursor + next) (value_reps s rs1)) as Hfrom.
    { apply value_reps_from. eapply Forall_impl; [done|]. simpl. tauto. }
    assert (∀ x out, head out = head tail → line_break eol out ∧
      before ++ x ++ after ++ out = before ++ x ++ aft ++ eol ++ out) as Hout.
    { intros x out Ho. split; [by eapply line_break_head|]. unfold after. by rewrite <- !app_assoc. }
    cbn [value_reps omap list_omap]. fold (value_reps s rs1).
    cbn [shift_record entry value_span]. cbn [map].
    destruct (f (key (entry r))) as [t|] eqn:Ef; cbn [fmap option_fmap option_map].
    + cbn [splice_from]. rewrite (render_shift s cursor _ _ _ Hd). rewrite Hvs. cbn [shift_span fst snd].
      rewrite Hvs in Hrep.
      specialize (Hrep t (f_token _ _ Ef) Hff). set (t' := render_replacement _ _ t) in *.
      destruct (slice_of_drop _ _ _ _ Hd) as [Hsb Htb].
      rewrite Hsb.
      assert (drop (cursor + (length before + length raw)) s = after ++ tail) as Hda.
      { rewrite Nat.add_assoc, <- drop_drop, Htb. apply drop_app_length. }
      destruct (slice_of_drop _ _ _ _ Hda) as [Hsa _].
      replace (cursor + (length before + length raw) + length after)%nat with (cursor + next)%nat in Hsa
        by (unfold next; rewrite !length_app; lia).
      rewrite (splice_advance s _ (cursor + next)), Hsa by (done || (unfold next; rewrite !length_app; lia)).
      set (out := splice_from _ _ _) in *. split_and!.
      * by destruct before.
      * constructor; [done|apply render_not_nil, (f_token _ _ Ef)|apply render_ascii, (f_token _ _ Ef)|].
        by apply edited_prefix.
      * destruct (Hout t' out Hh) as [_ ->]. destruct (Hout raw tail eq_refl) as [_ ->].
        replace (before ++ t' ++ aft ++ eol ++ out) with ((before ++ t' ++ aft) ++ eol ++ out)
          by (by rewrite <- !app_assoc).
        replace (before ++ raw ++ aft ++ eol ++ tail) with ((before ++ raw ++ aft) ++ eol ++ tail)
          by (by rewrite <- !app_assoc).
        symmetry. apply ends_eol_lines; try done. by eapply render_clean, (f_token _ _ Ef).
      * intros c' ln'. destruct (Hout t' out Hh) as [Hbk Heq].
        destruct (Hrep eol out ln' Hbk) as (lines' & sp & Hr & _). rewrite <- Heq in Hr. fold after in Hr.
        rewrite parse_loop_step by (by destruct before). rewrite Hr.
        replace (before ++ t' ++ after ++ out) with ((before ++ t' ++ after) ++ out) by (by rewrite <- !app_assoc).
        rewrite drop_app_length.
        destruct (Hp (c' + length (before ++ t' ++ after))%nat (ln' + lines')%nat) as (rs' & Hrs & He).
        rewrite Hrs. eexists. split; [done|]. cbn [map shift_record entry entry_of key].
        rewrite He. f_equal. unfold rewritten. by rewrite Ef.
    + rewrite (splice_advance s cursor (cursor + next)), Hsl by (lia || done).
      set (out := splice_from _ _ _) in *. rewrite <- !app_assoc. split_and!.
      * by destruct before.
      * by rewrite !(app_assoc raw), !(app_assoc before); apply edited_prefix.
      * destruct (Hout raw out Hh) as [_ ->]. destruct (Hout raw tail eq_refl) as [_ ->].
        replace (before ++ raw ++ aft ++ eol ++ out) with ((before ++ raw ++ aft) ++ eol ++ out)
          by (by rewrite <- !app_assoc).
        replace (before ++ raw ++ aft ++ eol ++ tail) with ((before ++ raw ++ aft) ++ eol ++ tail)
          by (by rewrite <- !app_assoc).
        symmetry. by apply ends_eol_lines.
      * intros c' ln'. destruct (Hout raw out Hh) as [Hbk Heq].
        destruct (Hsame eol out ln' Hbk) as (lines' & sp & Hr & _). rewrite <- Heq in Hr. fold after in Hr.
        rewrite parse_loop_step by (by destruct before). rewrite Hr.
        replace (before ++ raw ++ after ++ out) with ((before ++ raw ++ after) ++ out) by (by rewrite <- !app_assoc).
        rewrite drop_app_length.
        destruct (Hp (c' + length (before ++ raw ++ after))%nat (ln' + lines')%nat) as (rs' & Hrs & He).
        fold next in Hrs |- *. rewrite Hrs. eexists. split; [done|]. cbn [map shift_record entry].
        rewrite He. f_equal. unfold rewritten. by rewrite Ef, <- Hent.
Qed.

End rewrite.

(** ** Parsing a whole source *)

Lemma sort_issues_nil l : sort_issues l = [] → l = [].
Proof.
  destruct l as [|i l]; [done|]. simpl. intros H. exfalso. revert H.
  by destruct (sort_issues l) as [|j l']; simpl; [|destruct (issue_le i j)].
Qed.

Lemma parse_str_clean content :
  issues (parse_str content) = [] ↔
  unexpected_bom_issues content = [] ∧
  parse_loop (length content) (drop (bom_length content) content) (bom_length content) 1
  = (records (parse_str content), []).
Proof.
  unfold parse_str. destruct (parse_loop _ _ _ _) as [rs iss] eqn:E. cbn [issues records]. split.
  - by intros [-> ->]%sort_issues_nil%app_eq_nil.
  - intros [-> [= ->]]. done.
Qed.

Lemma first_duplicate_None seen rs :
  first_duplicate seen rs = None ↔
  NoDup (map (λ r, key (entry r)) rs) ∧ Forall (λ r, key (entry r) ∉ seen) rs.
Proof.
  revert seen. induction rs as [|r rs IH]; intros seen; cbn [first_duplicate map].
  - split; [|done]. intros _. split; constructor.
  - case_bool_decide as E.
    + split; [done|]. intros [_ Hf]. apply Forall_cons in Hf as [Hf _]. done.
    + rewrite IH, NoDup_cons, Forall_cons. setoid_rewrite not_elem_of_cons. rewrite Forall_and.
      assert (Forall (λ r', key (entry r') ≠ key (entry r)) rs ↔
        key (entry r) ∉ map (λ r', key (entry r')) rs) as ->; [|tauto].
      rewrite Forall_forall. split.
      * intros Hf (r' & Hk & Hin)%list_elem_of_fmap. by eapply Hf.
      * intros Hk r' Hin Heq. apply Hk. apply list_elem_of_fmap. by exists r'.
Qed.

Lemma validate_exact file :
  validate_for_mutation file = Ok tt ↔ issues file = [] ∧ NoDup (map key (entries file)).
Proof.
  unfold validate_for_mutation, entries. rewrite map_map. destruct (issues file) as [|i iss]; [|split; [done|by intros []]].
  destruct (first_duplicate [] (records file)) as [k|] eqn:E.
  - split; [done|]. intros [_ Hn]. exfalso.
    assert (first_duplicate [] (records file) = None) as E'; [|congruence].
    apply first_duplicate_None. split; [done|]. apply Forall_forall. intros r _. apply not_elem_of_nil.
  - apply first_duplicate_None in E as [E _]. done.
Qed.

Lemma bom_length_spec s :
  bom_length s = 0%nat ∧ ¬ bom_at s 0 ∨ bom_length s = 3%nat ∧ take 3 s = UTF8_BOM.
Proof.
  unfold bom_length. destruct (bytes_start_with UTF8_BOM s) eqn:E; [right|left].
  - apply bytes_start_with_spec in E as [k ->]. done.
  - split; [done|]. intros H. apply bom_start_with in H. congruence.
Qed.

(** A text that is edited behind its byte order mark *)
Lemma bom_length_edited s out :
  edited (drop (bom_length s) s) out →
  bom_length (take (bom_length s) s ++ out) = bom_length s.
Proof.
  intros He. destruct (bom_length_spec s) as [[Hb Hn]|[Hb Ht]]; rewrite Hb in *.
  - rewrite drop_0 in He. simpl. destruct (bom_length_spec out) as [[-> _]|[_ Ho]]; [done|].
    exfalso. assert (bom_at out 0) as Hbo.
    { apply bom_start_with, bytes_start_with_spec. exists (drop 3 out). by rewrite <- Ho, take_drop. }
    destruct (edited_bom _ _ _ He Hbo) as (m & Hm & Hz). by rewrite (proj2 Hz eq_refl) in Hm.
  - rewrite Ht. unfold bom_length. by rewrite (proj2 (bytes_start_with_spec _ _)) by by exists out.
Qed.

Section rewritten_source.
Context (f : string → option bytes) (f_token : ∀ k t, f k = Some t → token_bytes t).

(** A source without issues stays one when values are replaced by tokens. *)
Lemma source_rewritten content :
  FF ∉ content → issues (parse_str content) = [] →
  let content' := splice_source content (value_reps f content (records (parse_str content))) in
  issues (parse_str content') = [] ∧
  entries (parse_str content') = map (rewritten f) (entries (parse_str content)) ∧
  bom_length content' = bom_length content ∧
  head (drop (bom_length content) content') = head (drop (bom_length content) content) ∧
  ends_eol (drop (bom_length content) content') = ends_eol (drop (bom_length content) content).
Proof.
  intros Hff Hi content'. apply parse_str_clean in Hi as [Hbom Hp].
  set (rs := records (parse_str content)) in *. set (c := bom_length content) in *.
  assert (c <= length content)%nat as Hcl.
  { unfold c. destruct (bom_length_spec content) as [[-> _]|[-> Ht]]; [lia|].
    apply (f_equal length) in Ht. rewrite length_take in Ht. change (length UTF8_BOM) with 3%nat in Ht. lia. }
  rewrite (parse_loop_enough _ (length (drop c content))) in Hp by (rewrite ?length_drop; lia).
  destruct (loop_rewrite f f_token content _ (drop c content) c 1%nat rs eq_refl eq_refl) as (Hhd & He & Hends & Hr);
    [|done|].
  { intros H. apply Hff. rewrite <- (take_drop c content). apply elem_of_app. by right. }
  set (out := splice_from content c _) in *.
  assert (content' = take c content ++ out) as Hc'.
  { unfold content', splice_source. rewrite (splice_advance content 0 c).
    - f_equal. unfold slice. by rewrite drop_0, Nat.sub_0_r.
    - lia.
    - apply value_reps_from. eapply Forall_impl; [by eapply parse_loop_spans|]. simpl. tauto. }
  assert (bom_length content' = c) as Hb' by (rewrite Hc'; by apply bom_length_edited).
  assert (drop c content' = out) as Hd'.
  { rewrite Hc', drop_app_length'; [done|]. rewrite length_take. lia. }
  destruct (Hr c 1%nat) as (rs' & Hp' & Hent).
  assert (edited content content') as Hed.
  { rewrite Hc', <- (take_drop c content) at 1. by apply edited_prefix. }
  assert (unexpected_bom_issues content' = []) as Hbom'.
  { apply bom_issues_nil. intros n Hn. destruct (edited_bom _ _ _ Hed Hn) as (m & Hm & Hz).
    apply Hz. by apply (proj1 (bom_issues_nil content) Hbom). }
  assert (parse_str content' = mk_file content' rs' []) as ->.
  { assert (length out <= length content')%nat by (rewrite Hc', length_app; lia).
    unfold parse_str. rewrite Hb', Hd', Hbom'. rewrite (parse_loop_enough _ (length out)) by lia.
    by rewrite Hp'. }
  split_and!; [done| |done|by rewrite Hd'|by rewrite Hd'].
  unfold entries. cbn [records]. by rewrite Hent, map_map.
Qed.

End rewritten_source.

(** The values of the records of a clean source lie behind one another. *)
Lemma parse_loop_within n : ∀ rest cursor ln rs, length rest = n →
  parse_loop (length rest) rest cursor ln = (rs, []) →
  spans_within cursor (cursor + length rest) (map value_span rs).
Proof.
  induction (lt_wf n) as [n _ IH]. intros rest cursor ln rs Hn H.
  destruct (decide (rest = [])) as [->|Hne]; [simpl in H; injection H as <-; simpl; lia|].
  pose proof (parse_line_advances rest ln Hne) as Hadv. rewrite parse_loop_step in H by done.
  assert (∀ next ln' rs', (0 < next <= length rest)%nat →
    parse_loop (length (drop next rest)) (drop next rest) (cursor + next) ln' = (rs', []) →
    spans_within (cursor + next) (cursor + length rest) (map value_span rs')) as Hrest.
  { intros next ln' rs' Hb E. assert (length (drop next rest) < n)%nat as Hlt by (rewrite length_drop; lia).
    specialize (IH _ Hlt _ _ _ _ eq_refl E). rewrite length_drop in IH.
    by replace (cursor + length rest)%nat with (cursor + next + (length rest - next))%nat by lia. }
  destruct (parse_line rest ln) as [i next|i|r i next lines] eqn:Hl; [|done|].
  - destruct (parse_loop _ _ (cursor + next) _) as [rs1 iss1] eqn:E. destruct i; [done|]. injection H as <- ->.
    eapply spans_within_from; [|eapply Hrest; [exact Hadv|exact E]]. lia.
  - destruct (parse_loop _ _ (cursor + next) _) as [rs1 iss1] eqn:E. destruct i; [done|]. injection H as <- ->.
    destruct (record_replace rest ln r next lines Hl)
      as (before & raw & aft & eol & tail & v & _ & _ & _ & _ & Hvs & _ & Hnext & _).
    rewrite !length_app in Hnext.
    cbn [map shift_record value_span spans_within]. rewrite Hvs. cbn [shift_span fst snd]. split; [lia|].
    eapply spans_within_from; [|eapply Hrest; [exact Hadv|exact E]]. lia.
Qed.

Lemma values_within content : issues (parse_str content) = [] →
  spans_within 0 (length content) (map value_span (records (parse_str content))).
Proof.
  intros Hi. apply parse_str_clean in Hi as [_ Hp]. set (c := bom_length content) in *.
  assert (c <= length content)%nat as Hc.
  { unfold c. destruct (bom_length_spec content) as [[-> _]|[-> Ht]]; [lia|].
    apply (f_equal length) in Ht. rewrite length_take in Ht. change (length UTF8_BOM) with 3%nat in Ht. lia. }
  rewrite (parse_loop_enough _ (length (drop c content))) in Hp by (rewrite ?length_drop; lia).
  eapply spans_within_from; [|replace (length content) with (c + length (drop c content))%nat by (rewrite length_drop; lia);
    by eapply parse_loop_within]. lia.
Qed.

(** ** The rewrite *)

Definition token_for (m : TokenMap) (name : string) : option bytes :=
  (λ t, as_bytes (as_str t)) <$> get_token m name.

(** Every token of the map is of the form that [PhantomToken::generate] makes. *)
Definition safe_map (m : TokenMap) : Prop := ∀ name t, get_token m name = Some t → token_safe t.

Lemma token_for_bytes m : safe_map m → ∀ k t, token_for m k = Some t → token_bytes t.
Proof.
  intros Hs k t (tok & Ht & ->)%fmap_Some. apply Hs in Ht as [Hp Hb]. split.
  - unfold is_phantom_token in Hp. destruct tok as [[|c s]]; [|done]. done.
  - by apply all_bytes_Forall.
Qed.

(** The entry with the token of its name in place of the value *)
Definition tokenized (m : TokenMap) (e : EnvEntry) : EnvEntry :=
  match get_token m (key e) with
  | Some t => mk_entry (key e) (as_str t) true
  | None => e
  end.

Lemma rewritten_tokenized m e : safe_map m → rewritten (token_for m) e = tokenized m e.
Proof.
  intros Hs. unfold rewritten, tokenized, token_for.
  destruct (get_token m (key e)) as [t|] eqn:E; [|done]. simpl. unfold entry_of.
  rewrite of_as_bytes. by destruct (Hs _ _ E) as [-> _].
Qed.

Lemma replacements_reps file m :
  replacements file m = value_reps (token_for m) (source file) (records file).
Proof.
  unfold replacements, value_reps. induction (records file) as [|r rs IH]; [done|].
  cbn [omap list_omap]. rewrite IH. unfold token_for. by destruct (get_token m (key (entry r))).
Qed.

(** The original values are those of the mapped plain entries. *)
Lemma original_values_spec file m name v :
  NoDup (map key (entries file)) →
  original_values file m !! name = Some v ↔
  ∃ e, e ∈ entries file ∧ key e = name ∧ value e = v ∧ is_phantom e = false ∧ is_Some (get_token m name).
Proof.
  unfold original_values, entries. generalize (records file) as rs. clear file. intros rs.
  induction rs as [|r rs IH] using rev_ind; intros Hn.
  - simpl. rewrite lookup_empty. split; [done|]. by intros (e & ?%elem_of_nil & _).
  - rewrite foldl_app. cbn [foldl]. rewrite !map_app in Hn. cbn [map] in Hn.
    apply NoDup_app in Hn as (Hn & Hd & _). specialize (IH Hn).
    set (acc := foldl _ _ rs) in *.
    assert (∀ Q : EnvEntry → Prop,
      (∃ e, e ∈ map entry (rs ++ [r]) ∧ Q e) ↔ (∃ e, e ∈ map entry rs ∧ Q e) ∨ Q (entry r)) as Hex.
    { intros Q. rewrite map_app. cbn [map]. setoid_rewrite elem_of_app.
      setoid_rewrite list_elem_of_singleton. naive_solver. }
    rewrite Hex.
    assert (∀ e, e ∈ map entry rs → key e ≠ key (entry r)) as Hne.
    { intros e He Hk. apply (Hd (key e)); [by apply list_elem_of_fmap_2|].
      rewrite Hk. by apply list_elem_of_singleton. }
    destruct (get_token m (key (entry r))) as [t|] eqn:Et.
    + destruct (is_phantom (entry r)) eqn:Ep; [rewrite IH; naive_solver|].
      destruct (decide (key (entry r) = name)) as [<-|Hk].
      * rewrite lookup_insert_eq. rewrite Et. split; [intros [= <-]; right; naive_solver|].
        intros [(e & He & Hk & _)|(_ & -> & _)]; [|done]. by destruct (Hne e He).
      * rewrite lookup_insert_ne by done. rewrite IH. naive_solver.
    + rewrite IH. split; [by left|]. intros [H|(<- & _ & _ & H)]; [done|]. rewrite Et in H. by destruct H.
Qed.

(** What a rewrite does to the bytes of a mapped value: they become the token,
    with a blank behind it where an empty value is followed by a comment. *)
Definition value_edit (content : bytes) (m : TokenMap) (r : ParsedRecord) (edit : bytes * bytes) : Prop :=
  edit.1 = slice (value_span r).1 (value_span r).2 content ∧
  ∃ t, get_token m (key (entry r)) = Some t ∧
    (edit.2 = as_bytes (as_str t) ∨ edit.1 = [] ∧ edit.2 = as_bytes (as_str t) ++ [" "%char]).

Definition mapped (m : TokenMap) (r : ParsedRecord) : Prop := is_Some (get_token m (key (entry r))).

Lemma value_edits content m rs :
  Forall2 (value_edit content m) (filter (mapped m) rs)
    (map (λ r, (slice r.1.1 r.1.2 content, r.2)) (value_reps (token_for m) content rs)).
Proof.
  induction rs as [|r rs IH]; [constructor|]. unfold value_reps. cbn [omap list_omap]. fold (value_reps (token_for m) content rs).
  destruct (decide (mapped m r)) as [Hm|Hm]; [rewrite filter_cons_True by done|rewrite filter_cons_False by done].
  - destruct Hm as [t Et]. unfold token_for at 1. rewrite Et. cbn [fmap option_fmap option_map map].
    constructor; [|done]. split; [done|]. exists t. split; [done|]. cbn [fst snd].
    unfold render_replacement. destruct (Nat.leb_spec (value_span r).2 (value_span r).1); [|by left].
    destruct (option_byte_is _ _); [right|by left]. split; [|done]. unfold slice.
    by replace ((value_span r).2 - (value_span r).1)%nat with 0%nat by lia.
  - apply eq_None_not_Some in Hm. unfold token_for at 1. by rewrite Hm.
Qed.

(** C11: a rewrite replaces values and nothing else.  When a source without a
    form feed is accepted, and the tokens of the map are of the form that
    [PhantomToken::generate] makes, the new source is the old one with the
    bytes of every mapped value replaced by its token, and a blank in front of
    a comment that an empty value would run into; every other byte stays.  It
    is read without issues as the same entries in the same order, with the
    token of its name in place of every mapped value, and the values handed to
    the vault are exactly the plain ones that went.  (With a form feed in front
    of a comment it is not: [form_feed_joins_comment].) *)
Theorem rewrite_round_trip content m content' originals :
  safe_map m → FF ∉ content →
  rewrite_with_phantoms (parse_str content) m = Ok (content', originals) →
  (∃ edits, replaced content edits content' ∧
     Forall2 (value_edit content m) (filter (mapped m) (records (parse_str content))) edits) ∧
  issues (parse_str content') = [] ∧
  entries (parse_str content') = map (tokenized m) (entries (parse_str content)) ∧
  ∀ name v, originals !! name = Some v ↔
    ∃ e, e ∈ entries (parse_str content) ∧ key e = name ∧ value e = v ∧ is_phantom e = false ∧
         is_Some (get_token m name).
Proof.
  intros Hs Hff H. unfold rewrite_with_phantoms in H. apply rbind_Ok in H as ([] & Hv & H).
  apply validate_exact in Hv as [Hi Hn]. apply Ok_inj, pair_equal_spec in H as [<- <-].
  rewrite replacements_reps.
  destruct (source_rewritten (token_for m) (token_for_bytes m Hs) content Hff Hi) as (Hi' & He & _).
  assert (source (parse_str content) = content) as -> by (unfold parse_str; by destruct (parse_loop _ _ _ _)).
  split_and!; [|done| |].
  - eexists. split; [|apply value_edits]. rewrite <- (drop_0 content) at 1. apply splice_replaced.
    eapply (spans_within_omap _ value_span); [|by apply values_within].
    intros r y Hy. by destruct (token_for m (key (entry r))); [injection Hy as <-|].
  - rewrite He. apply map_ext. intros e. by apply rewritten_tokenized.
  - intros name v. by apply original_values_spec.
Qed.

(** A file with comments, an exported quoted value over two lines, and an
    empty value in front of a comment *)
Definition sample_dotenv : bytes :=
  as_bytes "# app" ++ [LF] ++ as_bytes "export API_KEY='s3" ++ [CR; LF] ++ as_bytes "cret' # old" ++ [CR; LF] ++
  as_bytes "PORT=3000" ++ [LF] ++ as_bytes "  TOKEN = #none".

Definition sample_token (digits : list N) : PhantomToken := generate digits.

Definition sample_map : TokenMap :=
  insert_with_token "TOKEN" (sample_token [1; 2]%N) (insert_with_token "API_KEY" (sample_token [255; 0]%N) tm_new).

Lemma sample_map_safe : safe_map sample_map.
Proof.
  intros name t. unfold sample_map. rewrite !insert_with_token_get.
  repeat case_decide; intros Ht; [injection Ht as <-; apply generate_safe..|].
  unfold get_token, tm_new in Ht. cbn [name_to_token] in Ht. by rewrite lookup_empty in Ht.
Qed.

Lemma rewrite_round_trip_witness :
  let content' := as_bytes "# app" ++ [LF] ++ as_bytes "export API_KEY='phm_ff00' # old" ++ [CR; LF] ++
    as_bytes "PORT=3000" ++ [LF] ++ as_bytes "  TOKEN = phm_0102 #none" in
  entries (parse_str sample_dotenv)
  = [mk_entry "API_KEY" (of_bytes (as_bytes "s3" ++ [LF] ++ as_bytes "cret")) false;
     mk_entry "PORT" "3000" false; mk_entry "TOKEN" "" false] ∧
  entries (parse_str content') = map (tokenized sample_map) (entries (parse_str sample_dotenv)).
Proof.
  intros content'. split; [by vm_compute|].
  refine (proj1 (proj2 (proj2 (rewrite_round_trip sample_dotenv sample_map content'
    (original_values (parse_str sample_dotenv) sample_map) _ _ _)))).
  - exact sample_map_safe.
  - by apply (bool_decide_unpack (FF ∉ sample_dotenv)).
  - unfold rewrite_with_phantoms. by vm_compute (validate_for_mutation _).
Defined.

(** The form feed is needed: it is white space for a comment, but stays in the
    value, so it goes with the value and the comment runs into the token. *)
Lemma form_feed_joins_comment :
  let content := as_bytes "TOKEN=a" ++ [FF] ++ as_bytes "#c" in
  entries (parse_str content) = [mk_entry "TOKEN" (of_bytes (as_bytes "a" ++ [FF])) false] ∧
  rewrite_with_phantoms (parse_str content) sample_map
    = Ok (as_bytes "TOKEN=phm_0102#c", {["TOKEN" := of_bytes (as_bytes "a" ++ [FF])]}) ∧
  entries (parse_str (as_bytes "TOKEN=phm_0102#c")) = [mk_entry "TOKEN" "phm_0102#c" true].
Proof. split_and!; by vm_compute. Qed.
