(* ===== verification/DotenvEdit.v ===== *)
(** * Dotenv files: removing and adding assignments

    A source without issues is a sequence of lines, each of which is read the
    same way in front of every line break ([document]).  Lines can therefore be
    taken out and put in; [remove_phantom_mapping] and [upsert_with_phantoms]
    do so. *)

From S2P Require Import Prelude Text Bytes Token Dotenv DotenvLines DotenvSpec.

(** ** Documents *)

(** [body] is read as [o], whatever line break follows. *)
Definition line_reads (body : bytes) (o : option EnvEntry) : Prop :=
  ends_clean body ∧
  ∀ eol tail ln, line_break eol tail → body ++ eol ≠ [] →
    match o with
    | None => parse_line (body ++ eol ++ tail) ln = NextLine None (length (body ++ eol))
    | Some e => ∃ r lines, entry r = e ∧
        parse_line (body ++ eol ++ tail) ln = GotRecord r None (length (body ++ eol)) lines
    end.

Inductive document : bytes → list EnvEntry → Prop :=
  | document_end : document [] []
  | document_line body eol tail o es :
      line_reads body o → line_break eol tail → body ++ eol ≠ [] → document tail es →
      document (body ++ eol ++ tail) (option_list o ++ es).

(** What a step of the parser without an issue reads *)
Lemma step_line_reads rest ln :
  rest ≠ [] →
  match parse_line rest ln with
  | NextLine None next =>
      ∃ body eol tail, rest = body ++ eol ++ tail ∧ line_break eol tail ∧ next = length (body ++ eol) ∧
        body ++ eol ≠ [] ∧ line_reads body None
  | GotRecord r None next _ =>
      ∃ body eol tail, rest = body ++ eol ++ tail ∧ line_break eol tail ∧ next = length (body ++ eol) ∧
        body ++ eol ≠ [] ∧ line_reads body (Some (entry r)) ∧ record_span r = (0%nat, next)
  | _ => True
  end.
Proof.
  intros Hne. destruct (parse_line rest ln) as [[|] next|i|r [|] next lines] eqn:H; try done.
  - destruct (skip_stable _ _ _ H) as (l & eol & tail & -> & Hb & -> & Hc & Hst).
    exists l, eol, tail. split_and!; try done; [by eapply line_break_nonempty|]. split.
    + rewrite <- (app_nil_l l). by apply ends_clean_app; [|right].
    + intros eol' tail' ln' Hb' _. by apply Hst.
  - destruct (record_replace _ _ _ _ _ H)
      as (before & raw & after & eol & tail & v & -> & Hb & Hne' & Hc & _ & Hsp & -> & Hent & Hs & _).
    exists (before ++ raw ++ after), eol, tail. rewrite <- !app_assoc in *.
    split_and!; try done; [by destruct before|]. split; [done|].
    intros eol' tail' ln' Hb' _. destruct (Hs eol' tail' ln' Hb') as (lines' & sp & Hr & _).
    rewrite <- !app_assoc, Hr. eexists _, lines'. split; [|done]. by rewrite <- Hent.
Qed.

(** The parser reads exactly the documents without an issue. *)
Lemma document_exact rest es cursor ln :
  document rest es ↔ ∃ rs, parse_loop (length rest) rest cursor ln = (rs, []) ∧ map entry rs = es.
Proof.
  split.
  - intros Hd. revert cursor ln. induction Hd as [|body eol tail o es [_ Hl] Hb Hne Hd IH]; intros cursor ln.
    { by exists []. }
    rewrite parse_loop_step by (rewrite app_assoc; by destruct (body ++ eol)).
    specialize (Hl eol tail ln Hb Hne). destruct o as [e|].
    + destruct Hl as (r & lines & <- & ->). rewrite app_assoc, drop_app_length.
      destruct (IH (cursor + length (body ++ eol))%nat (ln + lines)%nat) as (rs & -> & <-).
      by eexists.
    + rewrite Hl, app_assoc, drop_app_length.
      destruct (IH (cursor + length (body ++ eol))%nat (ln + 1)%nat) as (rs & -> & <-). by eexists.
  - remember (length rest) as n eqn:Hn. revert rest es cursor ln Hn.
    induction (lt_wf n) as [n _ IH]. intros rest es cursor ln -> (rs & H & <-).
    destruct (decide (rest = [])) as [->|Hne]; [injection H as <-; constructor|].
    rewrite parse_loop_step in H by done. pose proof (step_line_reads rest ln Hne) as Hs.
    destruct (parse_line rest ln) as [i next|i|r i next lines]; [|done|].
    all: destruct (parse_loop _ _ (cursor + next) _) as [rs1 iss1] eqn:E; destruct i; [done|];
      injection H as <- ->.
    + destruct Hs as (body & eol & tail & -> & Hb & -> & Hn & Hr).
      rewrite app_assoc, drop_app_length in E.
      apply (document_line body eol tail None); try done.
      eapply IH; [|done|by exists rs1]. rewrite app_assoc, length_app. destruct (body ++ eol); simpl; [done|lia].
    + destruct Hs as (body & eol & tail & -> & Hb & -> & Hn & Hr & _).
      rewrite app_assoc, drop_app_length in E.
      apply (document_line body eol tail (Some (entry r))); try done.
      eapply IH; [|done|by exists rs1]. rewrite app_assoc, length_app. destruct (body ++ eol); simpl; [done|lia].
Qed.

(** A line break and the line feed behind it are one line break. *)
Lemma document_lf tail es : document (LF :: tail) es → document tail es.
Proof.
  intros (rs & H & <-)%(document_exact _ _ 0 1). apply (document_exact _ _ 1 2).
  rewrite parse_loop_step in H by done.
  change (parse_line (LF :: tail) 1) with (NextLine None 1) in H. cbv iota in H.
  change (drop 1 (LF :: tail)) with tail in H.
  change (0 + 1)%nat with 1%nat in H. change (1 + 1)%nat with 2%nat in H.
  destruct (parse_loop _ _ _ _) as [rs' iss']. injection H as <- ->. by exists rs'.
Qed.

(** A line with a break can stand in front of every document. *)
Lemma document_cons body eol tail o es :
  line_reads body o → eol = [LF] ∨ eol = [CR] ∨ eol = [CR; LF] → document tail es →
  document (body ++ eol ++ tail) (option_list o ++ es).
Proof.
  intros Hl He Hd.
  destruct (decide (eol = [CR] ∧ starts_with_byte LF tail = true)) as [[-> Ht]|Hn].
  - destruct tail as [|c tail]; [done|]. simpl in Ht. apply ascii_eqb_eq in Ht as <-.
    apply document_lf in Hd. change ([CR] ++ LF :: tail) with ([CR; LF] ++ tail).
    apply document_line; try done; [right; right; by left|by destruct body].
  - apply document_line; try done.
    + destruct He as [->|[->| ->]]; [right; by left| |right; right; by left].
      right; right; right. split; [done|]. apply not_true_iff_false. naive_solver.
    + destruct He as [->|[->| ->]]; by destruct body.
Qed.

Lemma line_break_cases eol tail :
  line_break eol tail → eol = [] ∧ tail = [] ∨ eol = [LF] ∨ eol = [CR] ∨ eol = [CR; LF].
Proof. unfold line_break. tauto. Qed.

(** Documents can be put together at a line break. *)
Lemma document_app s es s' es' :
  document s es → s = [] ∨ ends_eol s = true → document s' es' → document (s ++ s') (es ++ es').
Proof.
  intros Hd He Hd'. induction Hd as [|body eol tail o es Hl Hb Hne Hd IH]; [done|].
  rewrite <- !app_assoc. apply line_break_cases in Hb as [[-> ->]|Hb].
  - exfalso. rewrite !app_nil_r in *. destruct He as [He|He]; [done|].
    destruct Hl as [Hl _]. apply ends_eol_clean in Hl. congruence.
  - apply document_cons; [done..|]. apply IH. destruct tail as [|c tail]; [by left|right].
    destruct He as [He|He]; [by destruct body, eol|]. by rewrite app_assoc, ends_eol_app in He.
Qed.

(** A last line without a break can be given one. *)
Lemma document_close s es eol :
  document s es → s ≠ [] → ends_eol s = false → eol = [LF] ∨ eol = [CR] ∨ eol = [CR; LF] →
  document (s ++ eol) es.
Proof.
  intros Hd Hs He Heol. induction Hd as [|body eol' tail o es Hl Hb Hne Hd IH]; [done|].
  pose proof Hb as Hb'. rewrite <- !app_assoc. apply line_break_cases in Hb as [[-> ->]|Hb].
  - rewrite !app_nil_l. rewrite <- (app_nil_r eol). apply document_cons; try done.
  - apply document_cons; [done..|]. destruct tail as [|c tail].
    + rewrite app_nil_r in He.
      rewrite (line_break_ends _ _ _ Hb') in He by (destruct Hb as [->|[->| ->]]; done). done.
    + apply IH; [done|]. by rewrite app_assoc, ends_eol_app in He.
Qed.

(** ** Sources *)

(** A source is accepted without issues when it is a document behind its byte
    order mark and has no other mark. *)
Lemma parse_document content es :
  (issues (parse_str content) = [] ∧ entries (parse_str content) = es) ↔
  (∀ n, bom_at content n → n = 0%nat) ∧ document (drop (bom_length content) content) es.
Proof.
  rewrite (document_exact _ _ (bom_length content) 1), <- bom_issues_nil, parse_str_clean.
  rewrite (parse_loop_enough (length content) (length (drop (bom_length content) content)))
    by (rewrite ?length_drop; lia).
  unfold entries. split.
  - intros [[Hb Hp] He]. split; [done|]. by eexists.
  - intros [Hb (rs & Hp & He)]. unfold parse_str.
    rewrite (parse_loop_enough (length content) (length (drop (bom_length content) content)))
      by (rewrite ?length_drop; lia).
    by rewrite Hp.
Qed.

(** ** Byte order marks of joined texts *)

Lemma bom_at_prefix a b n : bom_at a n → bom_at (a ++ b) n.
Proof.
  intros (H1 & H2 & H3). unfold bom_at.
  by rewrite (lookup_app_l_Some _ _ _ _ H1), (lookup_app_l_Some _ _ _ _ H2), (lookup_app_l_Some _ _ _ _ H3).
Qed.

Lemma bom_at_suffix a b n : bom_at b n → bom_at (a ++ b) (length a + n).
Proof.
  unfold bom_at. rewrite <- !Nat.add_succ_r, !lookup_app_r by lia. by rewrite !Nat.add_sub_swap, !Nat.sub_diag by lia.
Qed.

(** No mark goes over the end of a text that is empty, ends with a line break,
    or is a byte order mark. *)
Lemma bom_at_join a b n :
  a = [] ∨ ends_eol a = true ∨ a = UTF8_BOM →
  bom_at (a ++ b) n → bom_at a n ∨ ∃ m, n = (length a + m)%nat ∧ bom_at b m.
Proof.
  intros Ha Hn. destruct (decide (length a <= n)%nat) as [Hl|Hl].
  { right. exists (n - length a)%nat. split; [lia|]. destruct Hn as (H1 & H2 & H3). unfold bom_at.
    rewrite !lookup_app_r in H1, H2, H3 by lia.
    by replace (S (n - length a)) with (S n - length a)%nat by lia;
      replace (S (S n - length a)) with (S (S n) - length a)%nat by lia. }
  left. destruct Ha as [->|[Ha| ->]]; [simpl in Hl; lia| |].
  - destruct a as [|d a _] using rev_ind; [done|]. unfold ends_eol in Ha. rewrite last_snoc in Ha.
    rewrite length_app in Hl. simpl in Hl. destruct Hn as (H1 & H2 & H3).
    assert (∀ i c, (i <= length a)%nat → ((a ++ [d]) ++ b) !! i = Some c → c ∈ UTF8_BOM →
      (i < length a)%nat ∧ (a ++ [d]) !! i = Some c) as Hc.
    { intros i c Hi Hlk Hc. rewrite lookup_app_l in Hlk by (rewrite length_app; simpl; lia).
      split; [|done]. destruct (decide (i = length a)) as [->|]; [|lia]. exfalso.
      rewrite list_lookup_middle in Hlk by done. injection Hlk as ->.
      unfold UTF8_BOM in Hc. rewrite !elem_of_cons, elem_of_nil in Hc.
      by destruct Hc as [->|[->|[->|[]]]]. }
    apply Hc in H1 as [? H1]; [|lia|by unfold UTF8_BOM; set_solver].
    apply Hc in H2 as [? H2]; [|lia|by unfold UTF8_BOM; set_solver].
    apply Hc in H3 as [? H3]; [|lia|by unfold UTF8_BOM; set_solver]. done.
  - destruct Hn as (H1 & _). simpl in Hl. destruct n as [|[|[|n]]]; [done|done|done|lia].
Qed.

(** The mark in front of a source *)
Definition bom_of (s : bytes) : bytes := take (bom_length s) s.

Lemma bom_of_cases s : (bom_of s = [] ∧ bom_length s = 0%nat ∧ ¬ bom_at s 0) ∨ (bom_of s = UTF8_BOM ∧ bom_length s = 3%nat).
Proof.
  unfold bom_of. destruct (bom_length_spec s) as [[-> Hn]|[-> Ht]]; [left|right]; split; done.
Qed.

Lemma bom_split s : s = bom_of s ++ drop (bom_length s) s.
Proof. symmetry. apply take_drop. Qed.

Lemma bom_of_length s : length (bom_of s) = bom_length s.
Proof. by destruct (bom_of_cases s) as [(-> & -> & _)|[-> ->]]. Qed.

(** A text behind the same mark *)
Lemma bom_length_join s x :
  (bom_at (bom_of s ++ x) 0 → bom_at s 0) → bom_length (bom_of s ++ x) = bom_length s.
Proof.
  intros H. destruct (bom_of_cases s) as [(Hb & Hl & Hn)|[Hb Hl]]; rewrite Hb in *; rewrite Hl.
  - destruct (bom_length_spec ([] ++ x)) as [[-> _]|[_ Ho]]; [done|]. exfalso. apply Hn, H.
    apply bom_start_with, bytes_start_with_spec. exists (drop 3 ([] ++ x)). by rewrite <- Ho, take_drop.
  - unfold bom_length. by rewrite (proj2 (bytes_start_with_spec _ _)) by by exists x.
Qed.

(** ** Removal *)

Lemma line_break_inner eol tail :
  line_break eol tail → tail ≠ [] → eol = [LF] ∨ eol = [CR] ∨ eol = [CR; LF].
Proof. intros Hb Ht. by apply line_break_cases in Hb as [[_ ->]|Hb]. Qed.

Lemma line_before_ends body eol before x :
  line_break eol (before ++ x) → before ++ x ≠ [] → before = [] ∨ ends_eol before = true →
  ends_eol (body ++ eol ++ before) = true.
Proof.
  intros Hb Hne [->|He].
  - rewrite app_nil_r. apply (line_break_ends _ _ _ Hb).
    by destruct (line_break_inner _ _ Hb Hne) as [->|[->| ->]].
  - rewrite app_assoc, ends_eol_app; [done|]. by intros ->.
Qed.

(** A record lies between two documents that fit together. *)
Lemma document_remove n : ∀ rest cursor ln rs1 r rs2,
  length rest = n → parse_loop (length rest) rest cursor ln = (rs1 ++ r :: rs2, []) →
  ∃ before seg after, rest = before ++ seg ++ after ∧ seg ≠ [] ∧ (before = [] ∨ ends_eol before = true) ∧
    record_span r = ((cursor + length before)%nat, (cursor + length before + length seg)%nat) ∧
    document (before ++ after) (map entry (rs1 ++ rs2)).
Proof.
  induction (lt_wf n) as [n _ IH]. intros rest cursor ln rs1 r rs2 Hn H.
  destruct (decide (rest = [])) as [->|Hne]; [injection H as H; by destruct rs1|].
  rewrite parse_loop_step in H by done. pose proof (step_line_reads rest ln Hne) as Hs.
  destruct (parse_line rest ln) as [i next|i|r' i next lines]; [|by destruct rs1|].
  - destruct (parse_loop _ _ (cursor + next) _) as [rs iss1] eqn:E; destruct i; [done|]. injection H as -> ->.
    destruct Hs as (body & eol & tail & -> & Hb & -> & Hn' & Hr).
    rewrite app_assoc, drop_app_length in E.
    eapply IH in E as (before & seg & after & -> & Hseg & Hbe & Hsp & Hd); [| |done].
    2:{ rewrite app_assoc, length_app in Hn. destruct (body ++ eol); simpl in *; [done|lia]. }
    assert (before ++ seg ++ after ≠ []) as Hte by (destruct before; [by destruct seg|done]).
    exists (body ++ eol ++ before), seg, after. split_and!; [by rewrite <- !app_assoc|done| | |].
    + right. by eapply line_before_ends.
    + rewrite Hsp, !length_app. f_equal; lia.
    + rewrite <- !app_assoc. eapply (document_cons body eol _ None); [done| |done]. by eapply line_break_inner.
  - destruct (parse_loop _ _ (cursor + next) _) as [rs iss1] eqn:E; destruct i; [done|]. injection H as H ->.
    destruct Hs as (body & eol & tail & -> & Hb & -> & Hn' & Hr & Hsp').
    rewrite app_assoc, drop_app_length in E.
    destruct rs1 as [|r1 rs1].
    + injection H as <- ->. exists [], (body ++ eol), tail. split_and!; [by rewrite <- app_assoc|done|by left| |].
      * cbn [shift_record record_span]. rewrite Hsp'. unfold shift_span. simpl. f_equal; lia.
      * cbn [app]. apply (document_exact _ _ (cursor + length (body ++ eol)) (ln + lines)). by exists rs2.
    + injection H as <- ->.
      eapply IH in E as (before & seg & after & -> & Hseg & Hbe & Hsp & Hd); [| |done].
      2:{ rewrite app_assoc, length_app in Hn. destruct (body ++ eol); simpl in *; [done|lia]. }
      assert (before ++ seg ++ after ≠ []) as Hte by (destruct before; [by destruct seg|done]).
      exists (body ++ eol ++ before), seg, after. split_and!; [by rewrite <- !app_assoc|done| | |].
      * right. by eapply line_before_ends.
      * rewrite Hsp, !length_app. f_equal; lia.
      * rewrite <- !app_assoc. cbn [map app].
        eapply (document_cons body eol _ (Some (entry r'))); [done| |done]. by eapply line_break_inner.
Qed.

Lemma source_parse_str content : source (parse_str content) = content.
Proof. unfold parse_str. by destruct (parse_loop _ _ _ _). Qed.

Lemma filter_singleton (p : ParsedRecord → bool) rs r :
  List.filter p rs = [r] → ∃ rs1 rs2, rs = rs1 ++ r :: rs2 ∧ p r = true.
Proof.
  induction rs as [|r' rs IH]; simpl; [done|]. destruct (p r') eqn:E.
  - intros [= -> _]. by exists [], rs.
  - intros (rs1 & rs2 & -> & Hp)%IH. by exists (r' :: rs1), rs2.
Qed.

(** removing a mapping takes out the bytes of its one record and nothing
    else: the rest of the source stays byte for byte, and what is left is read
    without issues as the other entries in their order.  Only a mapping whose
    value is a token is removed. *)
Theorem remove_exact content name content' :
  remove_phantom_mapping (parse_str content) name = Ok content' →
  ∃ before seg after es1 e es2,
    content = before ++ seg ++ after ∧ content' = before ++ after ∧
    entries (parse_str content) = es1 ++ e :: es2 ∧ key e = name ∧ is_phantom e = true ∧
    issues (parse_str content') = [] ∧ entries (parse_str content') = es1 ++ es2.
Proof.
  intros H. unfold remove_phantom_mapping in H. apply rbind_Ok in H as ([] & Hv & H).
  apply validate_exact in Hv as [Hi _].
  destruct (List.filter _ _) as [|r [|]] eqn:Ef; [done| |done].
  destruct (is_phantom (entry r)) eqn:Ep; [|done]. cbn [negb] in H. apply Ok_inj in H as <-.
  apply filter_singleton in Ef as (rs1 & rs2 & Hrs & Hk). apply String.eqb_eq in Hk.
  apply parse_str_clean in Hi as [Hbom Hp]. rewrite Hrs in Hp.
  set (c := bom_length content) in *.
  rewrite (parse_loop_enough (length content) (length (drop c content))) in Hp by (rewrite ?length_drop; lia).
  eapply document_remove in Hp as (before & seg & after & Hd & Hseg & Hbe & Hsp & Hdoc); [|done].
  assert (content = (bom_of content ++ before) ++ seg ++ after) as Hc.
  { rewrite <- app_assoc, <- Hd. apply bom_split. }
  assert (splice_source (source (parse_str content)) [(record_span r, [])]
          = (bom_of content ++ before) ++ after) as ->.
  { rewrite source_parse_str, Hsp. unfold splice_source. cbn [splice_from fst snd].
    rewrite Hc at 1 2. pose proof (bom_of_length content) as Hbl. fold c in Hbl. unfold slice.
    rewrite drop_0, Nat.sub_0_r. rewrite app_nil_l.
    rewrite take_app_length' by (rewrite length_app; lia).
    rewrite (app_assoc (bom_of content ++ before)), drop_app_length'; [done|].
    rewrite !length_app. lia. }
  assert (∀ n, bom_at ((bom_of content ++ before) ++ after) n → n = 0%nat ∧ bom_at content 0) as Hj.
  { intros n Hn. pose proof (proj1 (bom_issues_nil content) Hbom) as Hz.
    apply bom_at_join in Hn as [Hn|(m & -> & Hn)].
    - apply (bom_at_prefix _ (seg ++ after)) in Hn. rewrite <- Hc in Hn. by destruct (Hz _ Hn).
    - exfalso. apply (bom_at_suffix seg), (bom_at_suffix (bom_of content ++ before)) in Hn.
      rewrite <- Hc in Hn. apply Hz in Hn. destruct seg; simpl in *; [done|lia].
    - destruct Hbe as [->|Hbe]; [rewrite app_nil_r; destruct (bom_of_cases content) as [(-> & _)|[-> _]]; auto|].
      right; left. rewrite ends_eol_app; [done|]. by intros ->. }
  destruct (proj2 (parse_document ((bom_of content ++ before) ++ after) (map entry (rs1 ++ rs2))))
    as [Hi' He'].
  { split; [by intros n [-> _]%Hj|]. rewrite <- app_assoc in Hj |- *.
    rewrite bom_length_join by (by intros [_ ?]%Hj). rewrite <- bom_of_length. by rewrite drop_app_length. }
  exists (bom_of content ++ before), seg, after, (map entry rs1), (entry r), (map entry rs2).
  split_and!; try done.
  - unfold entries. by rewrite Hrs, map_app.
  - by rewrite He', map_app.
Qed.

Lemma remove_exact_witness :
  let content := as_bytes "A=1" ++ [CR] ++ as_bytes "B='phm_ff' # b" ++ [LF; LF] ++ as_bytes "C=3" in
  remove_phantom_mapping (parse_str content) "B" = Ok (as_bytes "A=1" ++ [CR; LF] ++ as_bytes "C=3") ∧
  ∃ before seg after es1 e es2,
    content = before ++ seg ++ after ∧ as_bytes "A=1" ++ [CR; LF] ++ as_bytes "C=3" = before ++ after ∧
    entries (parse_str content) = es1 ++ e :: es2 ∧ key e = "B" ∧ is_phantom e = true ∧
    issues (parse_str (as_bytes "A=1" ++ [CR; LF] ++ as_bytes "C=3")) = [] ∧
    entries (parse_str (as_bytes "A=1" ++ [CR; LF] ++ as_bytes "C=3")) = es1 ++ es2.
Proof.
  intros content. split; [by vm_compute|]. apply (remove_exact content "B"). by vm_compute.
Defined.

(** ** Appended assignments *)

Lemma name_byte_facts c :
  token_byte c = true → is_ascii_graphic c = true ∧ key_byte c = true ∧ ascii_eqb "=" c = false ∧
    ascii_eqb "#" c = false ∧ ascii_eqb c " " = false.
Proof.
  destruct c as [[] [] [] [] [] [] [] []]; intros H; vm_compute in H; try discriminate H;
    by vm_compute.
Qed.

Lemma canonical_name_bytes name :
  is_canonical_env_name name = true → name ≠ EmptyString ∧ all_bytes token_byte name = true.
Proof.
  destruct name as [|c rest]; [done|]. cbn [is_canonical_env_name]. intros [Hc Hr]%andb_true_iff.
  split; [done|]. cbn [all_bytes]. apply andb_true_iff. split; [|done].
  unfold token_byte, is_ascii_alphanumeric. by destruct (is_ascii_digit c), (is_ascii_lowercase c),
    (is_ascii_uppercase c).
Qed.

Lemma contains_str_not f p c s :
  all_bytes f s = true → f c = false → contains_str (String c p) s = false.
Proof.
  intros Hs Hc. induction s as [|d s IH]; [done|]. cbn [all_bytes] in Hs. apply andb_true_iff in Hs as [Hd Hs].
  cbn [contains_str starts_with]. rewrite (IH Hs). replace (ascii_eqb c d) with false; [done|].
  symmetry. apply not_true_iff_false. intros ->%ascii_eqb_eq. congruence.
Qed.

Lemma all_bytes_impl f g s :
  (∀ c, f c = true → g c = true) → all_bytes f s = true → all_bytes g s = true.
Proof.
  intros Hfg. rewrite !all_bytes_Forall. intros Hs. by eapply Forall_impl.
Qed.

Lemma name_head_text name :
  is_canonical_env_name name = true → head_text [] [] (as_bytes name) [].
Proof.
  intros Hn. destruct (canonical_name_bytes name Hn) as [Hne Hb].
  assert (Forall (λ c, token_byte c = true) (as_bytes name)) as Hf by by apply all_bytes_Forall.
  assert (trim (of_bytes (as_bytes name)) = name) as Htr.
  { rewrite of_as_bytes. apply trim_id, graphic_trimmed. eapply all_bytes_impl; [|done].
    intros c Hc. by apply name_byte_facts. }
  constructor; try done.
  - right. split; [done|]. apply bytes_start_with_false. intros Hp.
    assert (" "%char ∈ as_bytes name ++ ["="%char]) as Hin.
    { destruct Hp as [x ->]. apply elem_of_app. left. unfold EXPORT. simpl. set_solver. }
    apply elem_of_app in Hin as [Hin|Hin]; [|by apply list_elem_of_singleton in Hin].
    rewrite Forall_forall in Hf. apply Hf, name_byte_facts in Hin as (_ & _ & _ & _ & Hin). done.
  - destruct name as [|c s]; [done|]. simpl in Hf |- *. apply Forall_cons in Hf as [Hc _].
    split; [by destruct (token_byte_facts c Hc)|by destruct (name_byte_facts c Hc) as (_&_&_&?&_)].
  - eapply Forall_impl; [done|]. intros c Hc. by destruct (name_byte_facts c Hc) as (_&_&?&_).
  - rewrite Htr. split_and!.
    + by destruct name.
    + unfold contains_bom. by apply (contains_str_not token_byte).
    + eapply all_bytes_impl; [|done]. intros c Hc. by destruct (name_byte_facts c Hc) as (_&?&_).
Qed.

Lemma appended_line_reads name t :
  is_canonical_env_name name = true → token_safe t →
  line_reads (as_bytes name ++ "="%char :: as_bytes (as_str t)) (Some (mk_entry name (as_str t) true)).
Proof.
  intros Hn [Hp Ht]. destruct (canonical_name_bytes name Hn) as [Hne Hb].
  pose proof (name_head_text name Hn) as Hh.
  assert (Forall (λ c, token_byte c = true) (as_bytes name)) as Hf by by apply all_bytes_Forall.
  assert (token_bytes (as_bytes (as_str t))) as Htb.
  { split; [by destruct t as [[|c s]]|by apply all_bytes_Forall]. }
  assert (Forall (λ c, no_eol c = true) (head_bytes [] [] (as_bytes name) [])) as Hpre.
  { unfold head_bytes. simpl. apply Forall_app. split; [|by constructor].
    eapply Forall_impl; [done|]. intros c Hc. by destruct (token_byte_facts c Hc) as (_&_&_&_&_&_&?&_). }
  assert (reads_record (head_bytes [] [] (as_bytes name) []) (as_bytes (as_str t)) [] name (as_bytes (as_str t))) as Hr.
  { replace name with (trim (of_bytes (as_bytes name))) at 2.
    - destruct Htb as [Htn Htf]. apply reads_unquoted; try done; rewrite ?app_nil_r.
      + by apply token_clean.
      + destruct (as_bytes (as_str t)) as [|c u]; [done|]. apply Forall_cons in Htf as [Hc _].
        by destruct (token_byte_facts c Hc).
      + destruct (as_bytes (as_str t)) as [|c u]; [done|]. apply Forall_cons in Htf as [Hc _].
        destruct (token_byte_facts c Hc) as (_&_&_&E1&E2&_). unfold is_quote. by rewrite E1, E2.
      + rewrite <- (app_nil_r (as_bytes (as_str t))) at 1. apply (unquoted_build _ _ [] []); [done|done|by left].
    - rewrite of_as_bytes. apply trim_id, graphic_trimmed. eapply all_bytes_impl; [|done].
      intros c Hc. by apply name_byte_facts. }
  split.
  - change (as_bytes name ++ "="%char :: as_bytes (as_str t))
      with (as_bytes name ++ ["="%char] ++ as_bytes (as_str t)). rewrite app_assoc.
    apply ends_clean_app; [by apply token_clean|left; apply Htb].
  - intros eol tail ln Hb' _. destruct (Hr eol tail ln Hb') as (lines & sp & Hr' & _).
    unfold head_bytes in Hr'. simpl in Hr'. rewrite <- !app_assoc in Hr'. simpl in Hr'.
    eexists _, lines. split; [|rewrite <- !app_assoc; simpl; exact Hr'].
    cbn [entry]. unfold entry_of. by rewrite of_as_bytes, Hp.
Qed.

(** The entry of an appended name *)
Definition appended_entry (m : TokenMap) (name : string) : EnvEntry :=
  mk_entry name (match get_token m name with Some t => as_str t | None => "" end) true.

Lemma appended_document m eol last_eol absent :
  safe_map m → eol = [LF] ∨ eol = [CR] ∨ eol = [CR; LF] →
  Forall (λ n, is_canonical_env_name n = true ∧ is_Some (get_token m n)) absent →
  document (appended_lines m eol last_eol absent) (map (appended_entry m) absent).
Proof.
  intros Hs He Hf. induction Hf as [|n absent [Hn [t Ht]] Hf IH]; [constructor|].
  cbn [appended_lines map]. unfold appended_entry at 1. rewrite Ht.
  pose proof (appended_line_reads n t Hn (Hs _ _ Ht)) as Hr.
  destruct ((0 <? length absent)%nat || last_eol) eqn:E.
  - replace (as_bytes n ++ "="%char :: as_bytes (as_str t) ++ eol ++ appended_lines m eol last_eol absent)
      with ((as_bytes n ++ "="%char :: as_bytes (as_str t)) ++ eol ++ appended_lines m eol last_eol absent)
      by (by rewrite <- app_assoc).
    by apply (document_cons _ _ _ (Some (mk_entry n (as_str t) true))).
  - destruct absent; [|done]. cbn [appended_lines map].
    replace (as_bytes n ++ "="%char :: as_bytes (as_str t) ++ [] ++ [])
      with ((as_bytes n ++ "="%char :: as_bytes (as_str t)) ++ [] ++ []) by (by rewrite <- app_assoc).
    apply (document_line _ _ _ (Some (mk_entry n (as_str t) true))); [done|by left| |constructor].
    by destruct (as_bytes n).
Qed.

Lemma preferred_line_ending_cases s :
  let eol := preferred_line_ending s in eol = [LF] ∨ eol = [CR] ∨ eol = [CR; LF].
Proof.
  induction s as [|c s IH]; simpl; [by left|].
  destruct (ascii_eqb c CR); [destruct (starts_with_byte LF s); auto|].
  destruct (ascii_eqb c LF); auto.
Qed.

Lemma terminal_eol s : ends_with_byte LF s || ends_with_byte CR s = ends_eol s.
Proof.
  unfold ends_with_byte, ends_eol, no_eol. destruct s as [|c s _] using rev_ind; [done|].
  rewrite rev_app_distr, last_snoc. simpl. rewrite negb_andb, !negb_involutive.
  f_equal; apply eq_true_iff_eq; rewrite !ascii_eqb_eq; naive_solver.
Qed.

Definition is_ascii_bytes (s : bytes) : Prop := Forall (λ c, (N_of_ascii c < 128)%N) s.

Lemma bom_at_ascii x a n : is_ascii_bytes a → bom_at (x ++ a) n ↔ bom_at x n.
Proof.
  intros Ha. split; [|by apply bom_at_prefix].
  assert (∀ i c, (x ++ a) !! i = Some c → c ∈ UTF8_BOM → x !! i = Some c) as H.
  { intros i c [Hi|[_ Hi]]%lookup_app_Some Hc; [done|exfalso].
    unfold is_ascii_bytes in Ha. rewrite Forall_lookup in Ha. apply Ha in Hi. apply bom_high in Hc. simpl in Hi. lia. }
  intros (H1 & H2 & H3). unfold bom_at, UTF8_BOM in *. split_and!; apply H; try done; set_solver.
Qed.

Lemma bom_length_ext s s' : (bom_at s 0 ↔ bom_at s' 0) → bom_length s = bom_length s'.
Proof.
  rewrite <- !bom_start_with. unfold bom_length. intros H.
  by rewrite (eq_true_iff_eq _ _ H).
Qed.

Lemma bom_length_ascii x a : is_ascii_bytes a → bom_length (x ++ a) = bom_length x.
Proof. intros Ha. apply bom_length_ext. by apply bom_at_ascii. Qed.

Lemma appended_ascii m eol last_eol absent :
  safe_map m → is_ascii_bytes eol →
  Forall (λ n, is_canonical_env_name n = true ∧ is_Some (get_token m n)) absent →
  is_ascii_bytes (appended_lines m eol last_eol absent).
Proof.
  intros Hs He Hf. assert (∀ s, all_bytes token_byte s = true → is_ascii_bytes (as_bytes s)) as Hb.
  { intros s Hb%all_bytes_Forall. eapply Forall_impl; [done|]. intros c Hc.
    by destruct (token_byte_facts c Hc) as (_&_&_&_&_&_&_&?). }
  induction Hf as [|n absent [Hn [t Ht]] Hf IH]; [constructor|]. cbn [appended_lines]. rewrite Ht.
  apply Forall_app. split; [by apply Hb, canonical_name_bytes|]. constructor; [done|].
  apply Forall_app. split; [by apply Hb, (Hs _ _ Ht)|]. apply Forall_app. split; [|done].
  by destruct (_ || _).
Qed.

(** The names that [upsert_with_phantoms] appends *)
Lemma absent_names_spec file m n :
  n ∈ absent_names file m ↔ is_Some (get_token m n) ∧ n ∉ map key (entries file).
Proof.
  unfold absent_names. rewrite btree_collect_elem, list_elem_of_In, filter_In, <- list_elem_of_In,
    secret_names_elem, negb_true_iff. apply and_iff_compat_l. rewrite <- not_true_iff_false.
  apply not_iff_compat. rewrite existsb_exists, list_elem_of_fmap.
  setoid_rewrite <- list_elem_of_In. setoid_rewrite String.eqb_eq. naive_solver.
Qed.

Lemma absent_names_NoDup file m : NoDup (absent_names file m).
Proof. apply ord_sorted_NoDup, btree_collect_sorted. Qed.

(** What a clean source becomes when clean lines are appended to it *)
Lemma source_appended x es lines es' eol :
  issues (parse_str x) = [] → entries (parse_str x) = es →
  document lines es' → is_ascii_bytes lines → eol = [LF] ∨ eol = [CR] ∨ eol = [CR; LF] →
  let body := drop (bom_length x) x in
  let separator := if (0 <? length body)%nat && negb (ends_eol body) then eol else [] in
  issues (parse_str (x ++ separator ++ lines)) = [] ∧
  entries (parse_str (x ++ separator ++ lines)) = es ++ es'.
Proof.
  intros Hi He Hd Ha Heol body separator.
  destruct (proj1 (parse_document x es) (conj Hi He)) as [Hb Hx]. fold body in Hx.
  assert (is_ascii_bytes (separator ++ lines)) as Has.
  { apply Forall_app. split; [|done]. unfold separator. destruct (_ && _); [|constructor].
    destruct Heol as [->|[->| ->]]; repeat constructor. }
  apply parse_document. split.
  - intros n Hn. apply Hb. by apply (proj1 (bom_at_ascii x (separator ++ lines) n Has)).
  - rewrite bom_length_ascii by done.
    assert (drop (bom_length x) (x ++ separator ++ lines) = (body ++ separator) ++ lines) as ->.
    { rewrite drop_app_le; [by rewrite <- app_assoc|]. rewrite <- bom_of_length. unfold bom_of.
      rewrite length_take. lia. }
    unfold separator. destruct body as [|c body'] eqn:Eb.
    + cbn [length Nat.ltb Nat.leb andb]. rewrite app_nil_r. by apply document_app; [|left|].
    + destruct (ends_eol (c :: body')) eqn:Ee; simpl negb; rewrite ?andb_false_r, ?app_nil_r.
      * by apply document_app; [|right|].
      * simpl "&&". cbn [length Nat.ltb Nat.leb]. apply document_app; [by apply document_close| |done].
        right. rewrite ends_eol_app by (destruct Heol as [->|[->| ->]]; done).
        by destruct Heol as [->|[->| ->]].
Qed.

(** C24: an upsert gives every name of the map its token.  When a source
    without a form feed is accepted, and the tokens of the map are of the form
    that [PhantomToken::generate] makes, the new source is accepted again; it
    has the old entries in their order with the tokens in place of the mapped
    values, then one new entry for every name that had none, in order of the
    names; so every name of the map is bound to its token.  (A form feed in
    front of a comment makes the comment part of the value:
    [form_feed_joins_comment].) *)
Theorem upsert_exact content m content' originals :
  safe_map m → FF ∉ content →
  upsert_with_phantoms (parse_str content) m = Ok (content', originals) →
  validate_for_mutation (parse_str content') = Ok tt ∧
  entries (parse_str content')
    = map (tokenized m) (entries (parse_str content))
      ++ map (appended_entry m) (absent_names (parse_str content) m) ∧
  ∀ name t, get_token m name = Some t → mk_entry name (as_str t) true ∈ entries (parse_str content').
Proof.
  intros Hs Hff H. unfold upsert_with_phantoms in H. apply rbind_Ok in H as ([] & Hv & H).
  apply fail_if_Ok in H as [Hc H]. apply fail_if_Ok in H as [Hg H].
  apply rbind_Ok in H as ([x o] & Hr & H).
  set (file := parse_str content) in *. set (absent := absent_names file m) in *.
  assert (Forall (λ n, is_canonical_env_name n = true ∧ is_Some (get_token m n)) absent) as Hab.
  { apply Forall_forall. intros n Hn. split; [|by apply absent_names_spec in Hn as [? _]].
    apply not_false_iff_true. intros Hf. apply not_true_iff_false in Hc. apply Hc, existsb_exists.
    exists n. rewrite <- list_elem_of_In, Hf. done. }
  apply validate_exact in Hv as [Hi Hn].
  unfold rewrite_with_phantoms in Hr. apply rbind_Ok in Hr as (_ & _ & Hr). apply Ok_inj, pair_equal_spec in Hr as [Hx Ho].
  rewrite replacements_reps in Hx.
  destruct (source_rewritten (token_for m) (token_for_bytes m Hs) content Hff Hi) as (Hi' & He & Hbl & Hhd & Hends).
  fold file in Hi', He, Hbl, Hhd, Hends. unfold file in Hx at 1 2. rewrite source_parse_str in Hx. fold file in Hx.
  rewrite Hx in *.
  assert (entries (parse_str x) = map (tokenized m) (entries file)) as He'.
  { rewrite He. apply map_ext. intros e. by apply rewritten_tokenized. }
  assert (issues (parse_str content') = [] ∧
    entries (parse_str content') = map (tokenized m) (entries file) ++ map (appended_entry m) absent) as [Hi2 He2].
  { destruct (length absent =? 0)%nat eqn:El.
    - apply Ok_inj, pair_equal_spec in H as [<- _]. apply Nat.eqb_eq in El.
      destruct absent; [|done]. rewrite app_nil_r. done.
    - apply Ok_inj, pair_equal_spec in H as [<- _]. unfold file. rewrite !source_parse_str.
      set (eol := preferred_line_ending content). set (body := drop (bom_length content) content) in *.
      rewrite !terminal_eol.
      pose proof (preferred_line_ending_cases content) as Heol. fold eol in Heol. cbv zeta in Heol.
      assert (is_ascii_bytes eol) as Hae by (destruct Heol as [->|[->| ->]]; repeat constructor).
      assert (body ≠ [] → ends_eol content = ends_eol body) as Hce.
      { intros Hb. unfold body. rewrite (bom_split content) at 1. by rewrite ends_eol_app. }
      pose proof (source_appended x _ (appended_lines m eol (ends_eol content) absent) _ eol Hi' He'
        (appended_document m eol (ends_eol content) absent Hs Heol Hab)
        (appended_ascii m eol (ends_eol content) absent Hs Hae Hab) Heol) as Happ.
      cbv zeta in Happ. rewrite Hbl in Happ.
      set (body' := drop (bom_length content) x) in *.
      replace (if (0 <? length body)%nat && negb (ends_eol content) then eol else [])
        with (if (0 <? length body')%nat && negb (ends_eol body') then eol else []); [exact Happ|].
      rewrite Hends. destruct body as [|c b], body' as [|c' b']; try done.
      by rewrite Hce. }
  split_and!.
  - apply validate_exact. split; [done|]. rewrite He2, map_app, !map_map.
    assert (map (λ e, key (tokenized m e)) (entries file) = map key (entries file)) as ->.
    { apply map_ext. intros e. unfold tokenized. by destruct (get_token m (key e)). }
    cbn [appended_entry key]. rewrite map_id. apply NoDup_app. split_and!; [done| |apply absent_names_NoDup].
    intros n Hk Hn'. by apply absent_names_spec in Hn' as [_ Hn'].
  - done.
  - intros n t Ht. rewrite He2. apply elem_of_app.
    destruct (decide (n ∈ map key (entries file))) as [Hk|Hk]; [left|right].
    + apply list_elem_of_fmap in Hk as (e & -> & Hk). apply list_elem_of_fmap. exists e. split; [|done].
      unfold tokenized. by rewrite Ht.
    + apply list_elem_of_fmap. exists n. split; [unfold appended_entry; by rewrite Ht|].
      apply absent_names_spec. split; [by eexists|done].
Qed.

Lemma upsert_exact_witness :
  let content := UTF8_BOM ++ as_bytes "TOKEN=old # t" ++ [CR; LF] ++ as_bytes "PORT=1" in
  let content' := UTF8_BOM ++ as_bytes "TOKEN=phm_0102 # t" ++ [CR; LF] ++ as_bytes "PORT=1" ++ [CR; LF]
    ++ as_bytes "API_KEY=phm_ff00" in
  upsert_with_phantoms (parse_str content) sample_map = Ok (content', {["TOKEN" := "old"]}) ∧
  validate_for_mutation (parse_str content') = Ok tt ∧
  entries (parse_str content')
    = map (tokenized sample_map) (entries (parse_str content))
      ++ map (appended_entry sample_map) (absent_names (parse_str content) sample_map) ∧
  ∀ name t, get_token sample_map name = Some t → mk_entry name (as_str t) true ∈ entries (parse_str content').
Proof.
  intros content content'. split; [by vm_compute|].
  apply (upsert_exact content sample_map content' {["TOKEN" := "old"]}).
  - exact sample_map_safe.
  - by apply (bool_decide_unpack (FF ∉ content)).
  - by vm_compute.
Defined.
