(* ===== verification/Redact.v ===== *)
(** * Response credential grammars: [crates/phantom-core/src/redact/response.rs]

    The byte grammars of the credential formats that the proxy recognises in
    responses, and the tests that the buffered and the streaming scrubber make
    on them: is a match complete, can one still become complete, does a byte
    continue one. *)

From S2P Require Import Prelude Bytes.

Inductive ByteClass :=
  | Alnum | AlnumUnderscore | AlnumDashUnderscore | UpperAlnum | AlnumDash | HexLower.

(** [ByteClass::contains] *)
Definition class_contains (class : ByteClass) (byte : ascii) : bool :=
  match class with
  | Alnum => is_ascii_alphanumeric byte
  | AlnumUnderscore => is_ascii_alphanumeric byte || ascii_eqb byte "_"
  | AlnumDashUnderscore => is_ascii_alphanumeric byte || ascii_eqb byte "-" || ascii_eqb byte "_"
  | UpperAlnum => is_ascii_uppercase byte || is_ascii_digit byte
  | AlnumDash => is_ascii_alphanumeric byte || ascii_eqb byte "-"
  | HexLower => is_ascii_digit byte || byte_in "a" "f" byte
  end.

Inductive FormatShape :=
  | Unbounded (class : ByteClass) (min : nat)
  | Fixed (class : ByteClass) (len : nat)
  | SendGrid.

#[export] Instance ByteClass_eq_dec : EqDecision ByteClass.
Proof. solve_decision. Defined.

#[export] Instance FormatShape_eq_dec : EqDecision FormatShape.
Proof. solve_decision. Defined.

Record FormatSpec := mk_spec {
  fs_label : string;
  fs_prefix : bytes;
  fs_shape : FormatShape;
}.

(** Whether all bytes of a slice are in a class *)
Definition all_in (class : ByteClass) (s : bytes) : bool := forallb (class_contains class) s.

(** [FormatSpec::minimum_match_len] *)
Definition minimum_match_len (spec : FormatSpec) : nat :=
  length (fs_prefix spec)
  + match fs_shape spec with
    | Unbounded _ min => min
    | Fixed _ len => len
    | SendGrid => 22 + 1 + 43
    end.

(** [FormatSpec::is_unbounded] *)
Definition is_unbounded (spec : FormatSpec) : bool :=
  match fs_shape spec with Unbounded _ _ => true | _ => false end.

(** [FormatSpec::continuation_contains] *)
Definition continuation_contains (spec : FormatSpec) (byte : ascii) : bool :=
  match fs_shape spec with Unbounded class _ => class_contains class byte | _ => false end.

(** [fn sendgrid_prefix_is_incomplete] *)
Definition sendgrid_prefix_is_incomplete (suffix : bytes) : bool :=
  if (length suffix <=? 22)%nat then all_in AlnumDashUnderscore suffix
  else match suffix !! 22%nat with
       | Some dot =>
           if negb (ascii_eqb dot ".") then false
           else let tail := drop 23 suffix in
                (length tail <? 43)%nat && all_in AlnumDashUnderscore tail
       | None => false
       end.

(** [FormatSpec::is_incomplete_prefix] *)
Definition is_incomplete_prefix (spec : FormatSpec) (candidate : bytes) : bool :=
  if (length candidate <=? length (fs_prefix spec))%nat then
    bytes_start_with candidate (fs_prefix spec)
  else if negb (bytes_start_with (fs_prefix spec) candidate) then false
  else
    let suffix := drop (length (fs_prefix spec)) candidate in
    match fs_shape spec with
    | Unbounded class min => (length suffix <? min)%nat && all_in class suffix
    | Fixed class len => (length suffix <? len)%nat && all_in class suffix
    | SendGrid => sendgrid_prefix_is_incomplete suffix
    end.

(** Whether a suffix starts with the tail of a SendGrid key *)
Definition sendgrid_complete (suffix : bytes) : bool :=
  (22 + 1 + 43 <=? length suffix)%nat
  && all_in AlnumDashUnderscore (take 22 suffix)
  && match suffix !! 22%nat with Some dot => ascii_eqb dot "." | None => false end
  && all_in AlnumDashUnderscore (take 43 (drop 23 suffix)).

(** [FormatSpec::complete_prefix_len] *)
Definition complete_prefix_len (spec : FormatSpec) (candidate : bytes) : option nat :=
  if negb (bytes_start_with (fs_prefix spec) candidate) then None else
  let suffix := drop (length (fs_prefix spec)) candidate in
  match fs_shape spec with
  | Unbounded class min =>
      let run := length (take_while (class_contains class) suffix) in
      if (min <=? run)%nat then Some (length (fs_prefix spec) + run)%nat else None
  | Fixed class len =>
      if (len <=? length suffix)%nat && all_in class (take len suffix)
      then Some (length (fs_prefix spec) + len)%nat else None
  | SendGrid =>
      if sendgrid_complete suffix then Some (length (fs_prefix spec) + (22 + 1 + 43))%nat else None
  end.

(** [FormatSpec::match_ranges] from [cursor] on, with [skip] bytes of the last
    match still to be passed *)
Fixpoint match_ranges_from (spec : FormatSpec) (cursor skip : nat) (input : bytes)
    : list (nat * nat) :=
  match input with
  | [] => []
  | _ :: rest =>
      match skip with
      | S k => match_ranges_from spec (S cursor) k rest
      | O =>
          match complete_prefix_len spec input with
          | Some len => (cursor, cursor + len)%nat :: match_ranges_from spec (S cursor) (len - 1) rest
          | None => match_ranges_from spec (S cursor) 0 rest
          end
      end
  end.

Definition match_ranges (spec : FormatSpec) (input : bytes) : list (nat * nat) :=
  match_ranges_from spec 0 0 input.

Definition FORMAT_SPECS : list FormatSpec :=
  [mk_spec "sk_*" (as_bytes "sk-") (Unbounded AlnumDashUnderscore 20);
   mk_spec "sk_live_*" (as_bytes "sk_live_") (Unbounded Alnum 20);
   mk_spec "sk_test_*" (as_bytes "sk_test_") (Unbounded Alnum 20);
   mk_spec "ghp_*" (as_bytes "ghp_") (Unbounded Alnum 36);
   mk_spec "github_pat_*" (as_bytes "github_pat_") (Unbounded AlnumUnderscore 80);
   mk_spec "AKIA*" (as_bytes "AKIA") (Fixed UpperAlnum 16);
   mk_spec "AIza*" (as_bytes "AIza") (Fixed AlnumDashUnderscore 35);
   mk_spec "xoxb-*" (as_bytes "xoxb-") (Unbounded AlnumDash 40);
   mk_spec "xoxp-*" (as_bytes "xoxp-") (Unbounded AlnumDash 40);
   mk_spec "SG.*" (as_bytes "SG.") SendGrid;
   mk_spec "AC*" (as_bytes "AC") (Fixed HexLower 32);
   mk_spec "phm_*" (as_bytes "phm_") (Fixed HexLower 64)].

(** ** What the grammars mean *)

Definition in_class (class : ByteClass) (s : bytes) : Prop :=
  Forall (λ c, class_contains class c = true) s.

(** The tails of the credentials of a shape *)
Definition tail_of_shape (shape : FormatShape) (tail : bytes) : Prop :=
  match shape with
  | Unbounded class min => (min <= length tail)%nat ∧ in_class class tail
  | Fixed class len => length tail = len ∧ in_class class tail
  | SendGrid =>
      ∃ id key, tail = id ++ ["."%char] ++ key ∧ length id = 22%nat ∧ length key = 43%nat ∧
        in_class AlnumDashUnderscore id ∧ in_class AlnumDashUnderscore key
  end.

(** The credentials of a format *)
Definition credential (spec : FormatSpec) (s : bytes) : Prop :=
  ∃ tail, s = fs_prefix spec ++ tail ∧ tail_of_shape (fs_shape spec) tail.

Lemma all_in_spec class s : all_in class s = true ↔ in_class class s.
Proof.
  unfold all_in, in_class. rewrite Forall_forall, forallb_forall.
  by setoid_rewrite list_elem_of_In.
Qed.

Lemma in_class_prefix class s t : s `prefix_of` t → in_class class t → in_class class s.
Proof. intros [k ->] [Hs _]%Forall_app. done. Qed.

Lemma class_ascii class c : class_contains class c = true → (N_of_ascii c < 128)%N.
Proof. destruct class, c as [[] [] [] [] [] [] [] []]; vm_compute; done. Qed.

Lemma sendgrid_complete_spec suffix :
  sendgrid_complete suffix = true ↔
  (66 <= length suffix)%nat ∧ tail_of_shape SendGrid (take 66 suffix).
Proof.
  unfold sendgrid_complete. rewrite !andb_true_iff, !all_in_spec, Nat.leb_le. simpl. split.
  - intros [[[Hl Ha] Hdot] Hb]. split; [done|].
    destruct (suffix !! 22%nat) as [dot|] eqn:E; [|done]. apply ascii_eqb_eq in Hdot as ->.
    exists (take 22 suffix), (take 43 (drop 23 suffix)).
    rewrite !length_take, length_drop. split_and!; try done; try lia.
    apply take_drop_middle in E. rewrite <- E at 1.
    rewrite take_app, length_take, Nat.min_l by lia. cbn [app].
    replace (66 - 22)%nat with 44%nat by lia. rewrite take_take. done.
  - intros [Hl (a & b & Ht & Ha & Hb & Hca & Hcb)].
    rewrite <- (take_drop 66 suffix), Ht, <- !app_assoc.
    rewrite (take_app_length' a) by done. rewrite lookup_app_r by lia. rewrite Ha.
    replace (a ++ ("."%char :: b) ++ drop 66 suffix)
      with ((a ++ ["."%char]) ++ b ++ drop 66 suffix) by by rewrite <- app_assoc.
    rewrite (drop_app_length' (a ++ ["."%char])) by (rewrite length_app, Ha; done).
    rewrite (take_app_length' b) by done. rewrite !length_app. simpl.
    split_and!; try done. lia.
Qed.

(** The length of the tail that a suffix starts with, as [complete_prefix_len]
    computes it *)
Definition tail_length (shape : FormatShape) (suffix : bytes) : option nat :=
  match shape with
  | Unbounded class min =>
      let run := length (take_while (class_contains class) suffix) in
      if (min <=? run)%nat then Some run else None
  | Fixed class len =>
      if (len <=? length suffix)%nat && all_in class (take len suffix) then Some len else None
  | SendGrid => if sendgrid_complete suffix then Some 66%nat else None
  end.

Lemma complete_prefix_len_tail spec candidate :
  complete_prefix_len spec candidate =
  if bytes_start_with (fs_prefix spec) candidate then
    Nat.add (length (fs_prefix spec))
      <$> tail_length (fs_shape spec) (drop (length (fs_prefix spec)) candidate)
  else None.
Proof.
  unfold complete_prefix_len, tail_length. destruct (bytes_start_with _ candidate); [|done].
  cbn [negb]. destruct (fs_shape spec); by case_match.
Qed.

Lemma tail_length_Some shape suffix n :
  tail_length shape suffix = Some n →
  (n <= length suffix)%nat ∧ tail_of_shape shape (take n suffix) ∧
  ∀ tail, tail `prefix_of` suffix → tail_of_shape shape tail → (length tail <= n)%nat.
Proof.
  destruct shape as [class min|class len|]; cbn [tail_length tail_of_shape].
  - destruct (Nat.leb_spec min (length (take_while (class_contains class) suffix))); [|done].
    intros [= <-]. split; [apply take_while_length|]. 
    assert (take (length (take_while (class_contains class) suffix)) suffix
      = take_while (class_contains class) suffix) as ->.
    { rewrite <- (take_drop_while (class_contains class) suffix) at 2. apply take_app_length. }
    split; [split; [done|apply take_while_all]|]. intros tail [k ->] [_ Ht].
    rewrite take_while_app_all by by rewrite take_while_id. rewrite length_app. lia.
  - destruct (Nat.leb_spec len (length suffix)); [|done].
    destruct (all_in class (take len suffix)) eqn:E; [|done]. intros [= <-].
    apply all_in_spec in E. rewrite length_take, Nat.min_l by done.
    split_and!; try done. intros tail _ [<- _]. done.
  - destruct (sendgrid_complete suffix) eqn:E; [|done]. intros [= <-].
    apply sendgrid_complete_spec in E as [Hl E]. split_and!; [done|exact E|].
    intros tail _ (a & b & -> & Ha & Hb & _). rewrite !length_app. simpl. lia.
Qed.

Lemma tail_length_None shape suffix tail :
  tail_length shape suffix = None → tail `prefix_of` suffix → ¬ tail_of_shape shape tail.
Proof.
  destruct shape as [class min|class len|]; cbn [tail_length tail_of_shape].
  - destruct (Nat.leb_spec min (length (take_while (class_contains class) suffix))); [done|].
    intros _ [k ->] [Hm Ht]. rewrite take_while_app_all in H by by rewrite take_while_id.
    rewrite length_app in H. lia.
  - intros Hb [k ->] [<- Ht]. rewrite take_app_length, length_app in Hb.
    apply all_in_spec in Ht. rewrite Ht in Hb. destruct (Nat.leb_spec (length tail) (length tail + length k));
      [done|lia].
  - destruct (sendgrid_complete suffix) eqn:E; [done|]. intros _ [k ->] Ht.
    apply not_true_iff_false in E. contradict E. apply sendgrid_complete_spec.
    assert (length tail = 66%nat) as Hl.
    { destruct Ht as (a & b & -> & Ha & Hb & _). rewrite !length_app. simpl. lia. }
    rewrite length_app, take_app_le, take_ge by lia. split; [lia|exact Ht].
Qed.

Lemma complete_prefix_Some spec c n :
  complete_prefix_len spec c = Some n →
  (n <= length c)%nat ∧ credential spec (take n c) ∧
  ∀ p, p `prefix_of` c → credential spec p → (length p <= n)%nat.
Proof.
  rewrite complete_prefix_len_tail. destruct (bytes_start_with _ c) eqn:Ep; [|done].
  apply bytes_start_with_spec in Ep as [suffix ->]. rewrite drop_app_length.
  destruct (tail_length (fs_shape spec) suffix) as [m|] eqn:Et; [|done]. intros [= <-].
  apply tail_length_Some in Et as (Hl & Ht & Hmax). rewrite !length_app. split_and!; [lia| |].
  - exists (take m suffix). split; [|done]. rewrite take_app, Nat.add_comm, Nat.add_sub.
    by rewrite take_ge by lia.
  - intros p Hp (tail & -> & Htail). rewrite length_app. apply prefix_app_inv in Hp.
    specialize (Hmax tail Hp Htail). lia.
Qed.

Lemma complete_prefix_None spec c p :
  complete_prefix_len spec c = None → p `prefix_of` c → ¬ credential spec p.
Proof.
  rewrite complete_prefix_len_tail. destruct (bytes_start_with _ c) eqn:Ep.
  - apply bytes_start_with_spec in Ep as [suffix ->]. rewrite drop_app_length.
    destruct (tail_length (fs_shape spec) suffix) as [m|] eqn:Et; [done|]. intros _ Hp.
    intros (tail & -> & Htail). apply prefix_app_inv in Hp. by eapply tail_length_None.
  - intros _ Hp (tail & -> & _). apply bytes_start_with_false in Ep. contradict Ep.
    etrans; [|exact Hp]. by eexists.
Qed.

Lemma minimum_match_spec spec s : credential spec s → (minimum_match_len spec <= length s)%nat.
Proof.
  intros (tail & -> & Ht). unfold minimum_match_len. rewrite length_app.
  destruct (fs_shape spec) as [class min|class len|]; simpl in Ht; [lia|lia|].
  destruct Ht as (a & b & -> & Ha & Hb & _). rewrite !length_app. simpl. lia.
Qed.

Definition tail_positive (shape : FormatShape) : Prop :=
  match shape with Unbounded _ min => min ≠ 0%nat | Fixed _ len => len ≠ 0%nat | SendGrid => True end.

Lemma tail_incomplete shape suffix tail :
  tail_of_shape shape tail → suffix `prefix_of` tail → (length suffix < length tail)%nat →
  (∀ t, t `prefix_of` suffix → ¬ tail_of_shape shape t) →
  match shape with
  | Unbounded class min => (length suffix <? min)%nat && all_in class suffix
  | Fixed class len => (length suffix <? len)%nat && all_in class suffix
  | SendGrid => sendgrid_prefix_is_incomplete suffix
  end = true.
Proof.
  intros Ht Hst Hlt Hno. destruct shape as [class min|class len|]; simpl in Ht.
  - rewrite andb_true_iff, Nat.ltb_lt, all_in_spec.
    assert (in_class class suffix) by (eapply in_class_prefix; [done|tauto]). split; [|done].
    destruct (decide (min <= length suffix)%nat); [|lia]. by destruct (Hno suffix).
  - rewrite andb_true_iff, Nat.ltb_lt, all_in_spec. destruct Ht as [Hlen Hc].
    split; [lia|by eapply in_class_prefix].
  - destruct Ht as (a & b & -> & Ha & Hb & Hca & Hcb). unfold sendgrid_prefix_is_incomplete.
    rewrite !length_app in Hlt. simpl in Hlt. destruct (Nat.leb_spec (length suffix) 22).
    + apply all_in_spec. eapply in_class_prefix, Hca. eapply prefix_app_cut; [exact Hst|lia].
    + assert (a `prefix_of` suffix) as [rest ->]
        by (eapply prefix_shorter; [by eexists|exact Hst|lia]).
      apply prefix_app_inv in Hst. rewrite length_app in *. destruct rest as [|dot rest]; [simpl in *; lia|].
      assert (dot = "."%char) as -> by by eapply prefix_cons_inv_1.
      apply prefix_cons_inv_2 in Hst. rewrite lookup_app_r, Ha by lia. cbn.
      replace (a ++ "."%char :: rest) with ((a ++ ["."%char]) ++ rest) by by rewrite <- app_assoc.
      rewrite (drop_app_length' (a ++ ["."%char])) by (rewrite length_app, Ha; done).
      rewrite ascii_eqb_refl. cbn [negb]. rewrite andb_true_iff, Nat.leb_le, all_in_spec.
      simpl in *. split; [lia|by eapply in_class_prefix].
Qed.

(** A slice that starts no credential, but is the start of one, is incomplete. *)
Lemma incomplete_prefix_sound spec c ext :
  tail_positive (fs_shape spec) → complete_prefix_len spec c = None → credential spec (c ++ ext) →
  is_incomplete_prefix spec c = true.
Proof.
  intros Hpos Hnone (tail & Heq & Ht). unfold is_incomplete_prefix.
  assert (fs_prefix spec `prefix_of` c ++ ext) as Hpre by (rewrite Heq; by eexists).
  destruct (Nat.leb_spec (length c) (length (fs_prefix spec))) as [Hl|Hl].
  - apply bytes_start_with_spec. by eapply prefix_shorter; [|exact Hpre|]; [by eexists|].
  - apply prefix_app_cut in Hpre as [suffix ->]; [|lia].
    assert (bytes_start_with (fs_prefix spec) (fs_prefix spec ++ suffix) = true) as Hb
      by (apply bytes_start_with_spec; by eexists).
    rewrite Hb. cbn [negb]. rewrite drop_app_length. rewrite <- app_assoc in Heq.
    apply app_inv_head in Heq. rewrite complete_prefix_len_tail, Hb, drop_app_length in Hnone.
    assert (∀ t, t `prefix_of` suffix → ¬ tail_of_shape (fs_shape spec) t) as Hno.
    { intros t Htp. eapply tail_length_None; [|done]. by destruct (tail_length _ _). }
    assert (suffix `prefix_of` tail) as Hst by by eexists.
    assert (length suffix < length tail)%nat as Hlt.
    { destruct (decide (length tail <= length suffix)%nat); [|lia]. destruct (Hno tail); [|done].
      by eapply prefix_shorter; [|exact Hst|]. }
    by apply tail_incomplete with tail.
Qed.

Lemma class_inhabited class : class_contains class "0" = true.
Proof. by destruct class. Qed.

Lemma in_class_pad class s n : in_class class s → in_class class (s ++ replicate n "0"%char).
Proof.
  intros Hs. apply Forall_app. split; [done|]. apply Forall_replicate, class_inhabited.
Qed.

Lemma tail_exists shape : ∃ tail, tail_of_shape shape tail.
Proof.
  destruct shape as [class min|class len|].
  - exists (replicate min "0"%char). simpl. rewrite length_replicate.
    split; [done|]. apply Forall_replicate, class_inhabited.
  - exists (replicate len "0"%char). simpl. rewrite length_replicate.
    split; [done|]. apply Forall_replicate, class_inhabited.
  - exists (replicate 22 "0"%char ++ ["."%char] ++ replicate 43 "0"%char).
    exists (replicate 22 "0"%char), (replicate 43 "0"%char).
    split_and!; try done; apply Forall_replicate, class_inhabited.
Qed.

(** An incomplete slice that is not a SendGrid one is shorter than every
    credential and can be extended to one. *)
Lemma incomplete_prefix_extends spec c :
  tail_positive (fs_shape spec) → fs_shape spec ≠ SendGrid → is_incomplete_prefix spec c = true →
  (length c < minimum_match_len spec)%nat ∧ ∃ ext, credential spec (c ++ ext).
Proof.
  intros Hpos Hsg. unfold is_incomplete_prefix, minimum_match_len.
  destruct (Nat.leb_spec (length c) (length (fs_prefix spec))) as [Hl|Hl].
  - intros [ext Hext]%bytes_start_with_spec. split; [destruct (fs_shape spec); simpl in *; lia|].
    destruct (tail_exists (fs_shape spec)) as [tail Ht]. exists (ext ++ tail), tail.
    split; [|done]. by rewrite app_assoc, <- Hext.
  - destruct (bytes_start_with _ c) eqn:Ep; [|done]. cbn [negb].
    apply bytes_start_with_spec in Ep as [suffix ->]. rewrite drop_app_length, !length_app.
    destruct (fs_shape spec) as [class min|class len|] eqn:Es; [| |done];
      intros [Hlt Hin%all_in_spec]%andb_true_iff; apply Nat.ltb_lt in Hlt; (split; [lia|]).
    + exists (replicate (min - length suffix) "0"%char), (suffix ++ replicate (min - length suffix) "0"%char).
      rewrite app_assoc, Es. split; [done|]. simpl. rewrite length_app, length_replicate.
      split; [lia|by apply in_class_pad].
    + exists (replicate (len - length suffix) "0"%char), (suffix ++ replicate (len - length suffix) "0"%char).
      rewrite app_assoc, Es. split; [done|]. simpl. rewrite length_app, length_replicate.
      split; [lia|by apply in_class_pad].
Qed.

Lemma catalog_positive spec : spec ∈ FORMAT_SPECS → tail_positive (fs_shape spec).
Proof.
  revert spec. apply (proj1 (Forall_forall _ _)). repeat constructor; simpl; lia.
Qed.

Lemma credential_ascii spec s :
  spec ∈ FORMAT_SPECS → credential spec s → Forall (λ c, N_of_ascii c < 128)%N s.
Proof.
  intros Hin (tail & -> & Ht). apply Forall_app. split.
  - clear Ht. revert spec Hin. apply (proj1 (Forall_forall _ _)). repeat constructor.
  - assert (∀ class t, in_class class t → Forall (λ c, N_of_ascii c < 128)%N t) as Hclass.
    { intros class t Hc. eapply Forall_impl; [exact Hc|]. intros c. apply class_ascii. }
    destruct (fs_shape spec) as [class min|class len|]; simpl in Ht; [by eapply Hclass, Ht..|].
    destruct Ht as (a & b & -> & _ & _ & Ha & Hb). rewrite !Forall_app.
    split; [by eapply Hclass|]. constructor; [done|by eapply Hclass].
Qed.

(** a slice starts a credential of a format exactly as the grammar says,
    and the length that is reported is that of the longest one: redacting it
    leaves no byte of the credential behind. *)
Theorem complete_prefix_exact spec c n :
  complete_prefix_len spec c = Some n ↔
  (n <= length c)%nat ∧ credential spec (take n c) ∧
  ∀ p, p `prefix_of` c → credential spec p → (length p <= n)%nat.
Proof.
  split; [apply complete_prefix_Some|]. intros (Hl & Hc & Hmax).
  destruct (complete_prefix_len spec c) as [m|] eqn:E.
  - apply complete_prefix_Some in E as (Hm & Hcm & Hmm). f_equal.
    pose proof (Hmm _ (prefix_take c n) Hc). pose proof (Hmax _ (prefix_take c m) Hcm).
    rewrite length_take in *. lia.
  - by destruct (complete_prefix_None spec c _ E (prefix_take c n)).
Qed.

(** a stream is held back for a format of the catalog exactly while it must
    be: the slice is no credential yet, nor starts with one, and more bytes
    can make it one.  (Of the SendGrid format only one direction holds.) *)
Theorem incomplete_prefix_exact spec c :
  spec ∈ FORMAT_SPECS →
  (complete_prefix_len spec c = None ∧ (∃ ext, credential spec (c ++ ext)) →
   is_incomplete_prefix spec c = true) ∧
  (fs_shape spec ≠ SendGrid → is_incomplete_prefix spec c = true →
   complete_prefix_len spec c = None ∧ ∃ ext, credential spec (c ++ ext)).
Proof.
  intros Hspec%catalog_positive. split.
  - intros [Hn [ext Hc]]. by eapply incomplete_prefix_sound.
  - intros Hsg [Hl He]%incomplete_prefix_extends; [|done..]. split; [|done].
    destruct (complete_prefix_len spec c) as [n|] eqn:E; [|done].
    apply complete_prefix_Some in E as (Hn & Hc%minimum_match_spec & _).
    rewrite length_take in Hc. lia.
Qed.

(** The check of a SendGrid key that is more than 25 bytes long passes over the
    first 22 of them: this slice can never become a key. *)
Lemma sendgrid_overapproximates :
  let spec := mk_spec "SG.*" (as_bytes "SG.") SendGrid in
  let c := as_bytes "SG.!!!!!!!!!!!!!!!!!!!!!!." in
  is_incomplete_prefix spec c = true ∧ ∀ ext, ¬ credential spec (c ++ ext).
Proof.
  split; [vm_compute; reflexivity|]. intros ext (tail & Heq & a & b & -> & Ha & Hb & Hca & _).
  simpl in Heq. injection Heq as Heq. destruct a as [|x a]; [done|]. injection Heq as <- _.
  apply Forall_cons in Hca as [Hx _]. vm_compute in Hx. done.
Qed.

(** ** Ranges *)

Lemma complete_prefix_positive spec c n :
  tail_positive (fs_shape spec) → complete_prefix_len spec c = Some n →
  (0 < n)%nat ∧ (n <= length c)%nat.
Proof.
  intros Hpos (Hn & Hc%minimum_match_spec & _)%complete_prefix_Some. split; [|done].
  rewrite length_take in Hc. unfold minimum_match_len in Hc.
  destruct (fs_shape spec); simpl in *; lia.
Qed.

Lemma drop_shift {A} (x : A) l s cursor :
  (S cursor <= s)%nat → drop (s - cursor) (x :: l) = drop (s - S cursor) l.
Proof. intros Hs. by replace (s - cursor)%nat with (S (s - S cursor)) by lia. Qed.

(** The matches from [cursor] on, the first [skip] bytes passed over *)
Definition ranges_from (spec : FormatSpec) (cursor skip : nat) (input : bytes)
    (rs : list (nat * nat)) : Prop :=
  (∀ s e, (s, e) ∈ rs → (cursor + skip <= s)%nat ∧
     complete_prefix_len spec (drop (s - cursor) input) = Some (e - s)%nat ∧ (s < e)%nat) ∧
  StronglySorted (λ r r', r.2 <= r'.1)%nat rs ∧
  (∀ p, (cursor + skip <= p)%nat → (p - cursor < length input)%nat →
     complete_prefix_len spec (drop (p - cursor) input) ≠ None →
     ∃ s e, (s, e) ∈ rs ∧ (s <= p)%nat ∧ (p < e)%nat).

(** One byte further *)
Lemma ranges_from_cons spec cursor skip x input rs :
  ranges_from spec (S cursor) skip input rs → ranges_from spec cursor (S skip) (x :: input) rs.
Proof.
  intros (H1 & H2 & H3). split_and!; [|done|].
  - intros s e Hin. destruct (H1 s e Hin) as (Hs & Hc & He).
    rewrite drop_shift by lia. split_and!; [lia|done|done].
  - intros p Hp Hl. rewrite drop_shift by lia. simpl in Hl. apply H3; lia.
Qed.

Lemma match_ranges_from_spec spec cursor skip input :
  tail_positive (fs_shape spec) →
  ranges_from spec cursor skip input (match_ranges_from spec cursor skip input).
Proof.
  intros Hpos. revert cursor skip. induction input as [|x input IH]; intros cursor skip.
  { split_and!; [set_solver|constructor|simpl; lia]. }
  destruct skip as [|skip]; cbn [match_ranges_from]; [|by apply ranges_from_cons].
  destruct (complete_prefix_len spec (x :: input)) as [len|] eqn:E.
  - destruct (complete_prefix_positive _ _ _ Hpos E) as [H0 _].
    pose proof (ranges_from_cons _ _ _ x _ _ (IH (S cursor) (len - 1)%nat)) as (H1 & H2 & H3).
    replace (S (len - 1)) with len in * by lia. split_and!.
    + intros s e [[= -> ->]|Hin]%elem_of_cons; [|naive_solver lia].
      rewrite Nat.sub_diag. replace (cursor + len - cursor)%nat with len by lia. split_and!; [lia|done|lia].
    + constructor; [done|]. apply Forall_forall. intros [s e] Hin. simpl. naive_solver lia.
    + intros p Hp Hl Hc. destruct (decide (p < cursor + len)%nat) as [Hlt|].
      * exists cursor, (cursor + len)%nat. rewrite elem_of_cons. naive_solver lia.
      * destruct (H3 p) as (s & e & Hin & Hr); [lia|done..|]. exists s, e.
        rewrite elem_of_cons. naive_solver.
  - destruct (ranges_from_cons _ _ _ x _ _ (IH (S cursor) 0%nat)) as (H1 & H2 & H3).
    split_and!; [|done|].
    + intros s e Hin. destruct (H1 s e Hin) as (Hs & Hr). split; [lia|done].
    + intros p Hp Hl Hc. destruct (decide (p = cursor)) as [->|]; [by rewrite Nat.sub_diag in Hc|].
      apply H3; [lia|done|done].
Qed.

(** the ranges of a format are all its credentials and nothing else: each
    is a complete match, as long as it can be, of ASCII bytes only; they come
    in order and do not overlap; and no credential starts outside them. *)
Theorem match_ranges_exact spec input :
  spec ∈ FORMAT_SPECS →
  let rs := match_ranges spec input in
  (∀ s e, (s, e) ∈ rs →
     complete_prefix_len spec (drop s input) = Some (e - s)%nat ∧ (s < e)%nat ∧
     Forall (λ c, N_of_ascii c < 128)%N (take (e - s) (drop s input))) ∧
  StronglySorted (λ r r', r.2 <= r'.1)%nat rs ∧
  (∀ p c, c `prefix_of` drop p input → credential spec c →
     ∃ s e, (s, e) ∈ rs ∧ (s <= p)%nat ∧ (p < e)%nat).
Proof.
  intros Hin rs. pose proof (catalog_positive spec Hin) as Hpos.
  destruct (match_ranges_from_spec spec 0 0 input Hpos) as (H1 & H2 & H3). split_and!; [|done|].
  - intros s e Hse. destruct (H1 s e Hse) as (_ & Hc & Hlt). rewrite Nat.sub_0_r in Hc.
    split_and!; [done..|]. apply complete_prefix_Some in Hc as (_ & Hc & _).
    by apply credential_ascii with spec.
  - intros p c Hp Hc. apply H3; rewrite ?Nat.sub_0_r; [lia| |].
    + pose proof (minimum_match_spec _ _ Hc) as Hm. apply prefix_length in Hp.
      rewrite length_drop in Hp. unfold minimum_match_len in Hm.
      destruct (fs_shape spec); simpl in *; lia.
    + intros Hn. by eapply complete_prefix_None.
Qed.

(** ** Examples *)

Definition ghp_spec : FormatSpec := mk_spec "ghp_*" (as_bytes "ghp_") (Unbounded Alnum 36).

Lemma ghp_in_catalog : ghp_spec ∈ FORMAT_SPECS.
Proof. do 3 right. left. Qed.

Definition sample_key : string := "ghp_" +:+ str_repeat "a1B2" 10.

Definition sample_text : bytes := as_bytes ("x=" +:+ sample_key +:+ ";y=" +:+ sample_key).

Example sample_ranges : match_ranges ghp_spec sample_text = [(2, 46); (49, 93)]%nat.
Proof. vm_compute. reflexivity. Qed.

Lemma incomplete_prefix_exact_witness :
  complete_prefix_len ghp_spec (as_bytes "ghp_a1") = None ∧
  ∃ ext, credential ghp_spec (as_bytes "ghp_a1" ++ ext).
Proof.
  apply (proj2 (incomplete_prefix_exact ghp_spec (as_bytes "ghp_a1") ghp_in_catalog));
    [discriminate|vm_compute; reflexivity].
Defined.

Lemma match_ranges_exact_witness :
  complete_prefix_len ghp_spec (drop 49 sample_text) = Some 44%nat.
Proof.
  apply (proj1 (match_ranges_exact ghp_spec sample_text ghp_in_catalog) 49%nat 93%nat).
  rewrite sample_ranges. right. left.
Defined.
