(* ===== verification/Credentials.v ===== *)
(** * Credential shapes in logs and code: [crates/phantom-core/src/redact/mod.rs]

    The catalog of provider key prefixes, the scan of a text for them, the
    spans that are scrubbed from logs, the staged-code scan, which caches the
    run behind a prefix, and the prefix rule that dotenv classification uses. *)

From S2P Require Import Prelude Text Bytes Redact.

Record CredentialPattern := mk_pattern {
  cp_prefix : string;
  cp_label : string;
  min_tail : nat;
  upper_alnum_only : bool;
}.

#[export] Instance CredentialPattern_eq_dec : EqDecision CredentialPattern.
Proof. solve_decision. Defined.

Definition CREDENTIAL_PATTERNS : list CredentialPattern :=
  [mk_pattern "sk-" "OpenAI API key" 20 false;
   mk_pattern "sk_live_" "Stripe live key" 16 false;
   mk_pattern "sk_test_" "Stripe test key" 16 false;
   mk_pattern "ghp_" "GitHub personal token" 30 false;
   mk_pattern "github_pat_" "GitHub PAT" 30 false;
   mk_pattern "glpat-" "GitLab PAT" 20 false;
   mk_pattern "xoxb-" "Slack bot token" 20 false;
   mk_pattern "xoxp-" "Slack user token" 20 false;
   mk_pattern "AKIA" "AWS access key" 16 true;
   mk_pattern "xapp-" "Slack app token" 20 false;
   mk_pattern "xoxa-" "Slack app token" 20 false;
   mk_pattern "xoxs-" "Slack session token" 20 false;
   mk_pattern "xoxr-" "Slack refresh token" 20 false;
   mk_pattern "gho_" "GitHub OAuth token" 30 false;
   mk_pattern "ghu_" "GitHub user token" 30 false;
   mk_pattern "ghs_" "GitHub installation token" 30 false;
   mk_pattern "ghr_" "GitHub refresh token" 30 false;
   mk_pattern "ASIA" "AWS temporary access key" 16 true;
   mk_pattern "sk_" "Secret API key" 16 false;
   mk_pattern "pk_" "Publishable API key" 16 false;
   mk_pattern "rk_" "Restricted API key" 16 false;
   mk_pattern "whsec_" "Webhook signing secret" 16 false;
   mk_pattern "shpat_" "Shopify access token" 16 false;
   mk_pattern "Bearer " "Bearer credential" 1 false].

Definition prefix_bytes (p : CredentialPattern) : bytes := as_bytes (cp_prefix p).

(** [tail_byte] *)
Definition tail_byte (p : CredentialPattern) (c : ascii) : bool :=
  if upper_alnum_only p then is_ascii_uppercase c || is_ascii_digit c
  else is_ascii_alphanumeric c || ascii_eqb c "_" || ascii_eqb c "-"
       || (String.eqb (cp_prefix p) "Bearer " && existsb (ascii_eqb c) (as_bytes ".+/=~")).

(** The bytes of the tail that a pattern has at the start of [s] *)
Definition tail_run (p : CredentialPattern) (s : bytes) : bytes := take_while (tail_byte p) s.

(** ** Dotenv values *)

(** [min_by_key(prefix.len())]: the first one of the shortest *)
Fixpoint shortest_prefix (ps : list CredentialPattern) : option CredentialPattern :=
  match ps with
  | [] => None
  | p :: ps' =>
      match shortest_prefix ps' with
      | Some q => if (String.length (cp_prefix p) <=? String.length (cp_prefix q))%nat then Some p else Some q
      | None => Some p
      end
  end.

(** [known_value_prefix]; the new prefix ASIA needs its tail. *)
Definition known_value_prefix (value : string) : option string :=
  cp_prefix <$> shortest_prefix
    (List.filter (λ p, negb (String.eqb (cp_prefix p) "ASIA")
                       || (min_tail p <=? length (tail_run p (drop (length (prefix_bytes p)) (as_bytes value))))%nat)
       (List.filter (λ p, starts_with (cp_prefix p) value) CREDENTIAL_PATTERNS)).

(** ** The scan *)

(** A match: its pattern and its span *)
Definition CredentialMatch : Type := CredentialPattern * (nat * nat).

(** [start > 0 && input[start - 1].is_ascii_alphanumeric()] *)
Definition inside_word (input : bytes) (start : nat) : bool :=
  match start with
  | O => false
  | S before => option_byte_is is_ascii_alphanumeric (input !! before)
  end.

(** A byte that prose in lower case does not have *)
Definition key_like (c : ascii) : bool := is_ascii_digit c || is_ascii_uppercase c.

(** The patterns of [patterns_by_first_byte()[input[start]]] *)
Definition bucket (input : bytes) (start : nat) : list CredentialPattern :=
  List.filter (λ p, bool_decide (head (prefix_bytes p) = input !! start)) CREDENTIAL_PATTERNS.

(** The patterns at one position: the match found, if any, and where the scan
    goes on; [None] when no pattern stops it *)
Fixpoint first_match (code : bool) (input : bytes) (start : nat) (ps : list CredentialPattern)
    : option (option CredentialMatch * nat) :=
  match ps with
  | [] => None
  | p :: ps' =>
      if code && String.eqb (cp_prefix p) "Bearer " then first_match code input start ps'
      else if negb (bytes_start_with (prefix_bytes p) (drop start input)) then
        first_match code input start ps'
      else
        let tail_start := (start + length (prefix_bytes p))%nat in
        let tail := tail_run p (drop tail_start input) in
        let end_ := (tail_start + length tail)%nat in
        if (length tail <? min_tail p)%nat then first_match code input start ps'
        else if code && negb (existsb key_like tail) then Some (None, end_)
        else Some (Some (p, (start, end_)), end_)
  end.

(** [matches], from [start] on; every round goes on behind [start], so the
    length of the input is enough fuel. *)
Fixpoint matches_from (fuel : nat) (code : bool) (input : bytes) (start : nat) : list CredentialMatch :=
  match fuel with
  | O => []
  | S fuel' =>
      if (length input <=? start)%nat then []
      else if inside_word input start then matches_from fuel' code input (S start)
      else match first_match code input start (bucket input start) with
      | Some (found, next) => option_list found ++ matches_from fuel' code input next
      | None => matches_from fuel' code input (S start)
      end
  end.

Definition matches (input : bytes) (code : bool) : list CredentialMatch :=
  matches_from (length input) code input 0.

(** [code_credential_matches] *)
Definition code_credential_matches (input : bytes) : list CredentialMatch := matches input true.

(** ** Spans to scrub *)

(** [spans.push] for every response shape at every position *)
Definition response_spans (input : bytes) : list (nat * nat) :=
  List.flat_map (λ cursor,
    List.flat_map (λ spec, match complete_prefix_len spec (drop cursor input) with
                      | Some len => [(cursor, (cursor + len)%nat)]
                      | None => []
                      end) FORMAT_SPECS) (seq 0 (length input)).

(** [sort_unstable_by_key(|span| (span.start, span.end))] *)
Definition span_le (a b : nat * nat) : Prop := (a.1 < b.1 ∨ a.1 = b.1 ∧ a.2 <= b.2)%nat.

#[export] Instance span_le_dec a b : Decision (span_le a b).
Proof. unfold span_le. apply _. Defined.

(** Coalesce spans that overlap or touch; [cur] is [merged.last_mut()]. *)
Fixpoint merge_spans (cur : nat * nat) (spans : list (nat * nat)) : list (nat * nat) :=
  match spans with
  | [] => [cur]
  | sp :: rest =>
      if (sp.1 <=? cur.2)%nat then merge_spans (cur.1, Nat.max cur.2 sp.2) rest
      else cur :: merge_spans sp rest
  end.

Definition coalesce (spans : list (nat * nat)) : list (nat * nat) :=
  match spans with [] => [] | sp :: rest => merge_spans sp rest end.

(** [credential_spans] *)
Definition credential_spans (input : bytes) : list (nat * nat) :=
  coalesce (merge_sort span_le (map snd (matches input false) ++ response_spans input)).

Definition REDACTED : bytes := as_bytes "[REDACTED]".

(** The loop of [redact_text] *)
Fixpoint redact_from (input : bytes) (copied : nat) (spans : list (nat * nat)) : bytes :=
  match spans with
  | [] => drop copied input
  | sp :: rest => take (sp.1 - copied) (drop copied input) ++ REDACTED ++ redact_from input sp.2 rest
  end.

Definition redact_text (input : bytes) : bytes := redact_from input 0 (credential_spans input).

(** ** The staged-code scan *)

(** [staged_code_patterns] *)
Definition staged_code_patterns : list CredentialPattern := take 9 CREDENTIAL_PATTERNS.

(** The last key-like byte of a run that starts at [at_] *)
Fixpoint last_key_byte (run : bytes) (at_ : nat) (found : option nat) : option nat :=
  match run with
  | [] => found
  | c :: run' => last_key_byte run' (S at_) (if key_like c then Some at_ else found)
  end.

(** One family: the end of the run behind the last prefix and its last
    key-like byte are kept for the prefixes within that run. *)
Fixpoint staged_scan (p : CredentialPattern) (input : bytes) (starts : list nat) (run_end : nat)
    (last_key : option nat) : list CredentialMatch :=
  match starts with
  | [] => []
  | start :: starts' =>
      if inside_word input start || negb (bytes_start_with (prefix_bytes p) (drop start input)) then
        staged_scan p input starts' run_end last_key
      else
        let tail_start := (start + length (prefix_bytes p))%nat in
        let run := tail_run p (drop tail_start input) in
        let '(run_end, last_key) :=
          if (run_end <? tail_start)%nat
          then ((tail_start + length run)%nat, last_key_byte run tail_start None)
          else (run_end, last_key) in
        let len := (run_end - tail_start)%nat in
        (if (min_tail p <=? len)%nat && match last_key with Some index => (tail_start <=? index)%nat | None => false end
         then [(p, (start, (tail_start + len)%nat))] else [])
        ++ staged_scan p input starts' run_end last_key
  end.

(** [staged_code_credential_matches] *)
Definition staged_code_credential_matches (input : bytes) : list CredentialMatch :=
  List.flat_map (λ p, staged_scan p input (seq 0 (length input)) 0 None) staged_code_patterns.
