(* ===== verification/CredentialsSpec.v ===== *)
(** * Credential shapes: what the scans find

    The staged-code scan with its cached run finds what a scan of every prefix
    by itself finds; the spans scrubbed from logs are disjoint and cover every
    shape. *)

From S2P Require Import Prelude Text Bytes Redact Credentials.

(** ** Runs *)

Lemma take_while_drop {A} (f : A → bool) n (l : list A) :
  (n <= length (take_while f l))%nat → take_while f (drop n l) = drop n (take_while f l).
Proof.
  revert l. induction n as [|n IH]; intros l Hn; [done|]. destruct l as [|x l]; [done|].
  simpl in Hn |- *. destruct (f x); simpl in *; [apply IH; lia|lia].
Qed.

(** The byte behind a run is not one of it. *)
Lemma take_while_next {A} (f : A → bool) (l : list A) x :
  l !! length (take_while f l) = Some x → f x = false.
Proof.
  induction l as [|y l IH]; simpl; [done|]. destruct (f y) eqn:E; [apply IH|]. by intros [= <-].
Qed.

Lemma take_while_lookup {A} (f : A → bool) (l : list A) i :
  (i < length (take_while f l))%nat → ∃ x, l !! i = Some x ∧ f x = true.
Proof.
  intros Hi. destruct (lookup_lt_is_Some_2 _ _ Hi) as [x Hx]. exists x. split.
  - rewrite <- (take_drop_while f l). by apply lookup_app_l_Some.
  - pose proof (take_while_all f l) as Hf. rewrite Forall_lookup in Hf. by eapply Hf.
Qed.

Lemma prefix_not_nil p : p ∈ CREDENTIAL_PATTERNS → prefix_bytes p ≠ [].
Proof.
  assert (forallb (λ p, negb (length (prefix_bytes p) =? 0)%nat) CREDENTIAL_PATTERNS = true) as H by done.
  rewrite forallb_forall in H. intros Hp%list_elem_of_In He. apply H in Hp. by rewrite He in Hp.
Qed.

(** ** The staged scan *)

(** What one prefix by itself gives at one position *)
Definition staged_at (p : CredentialPattern) (input : bytes) (start : nat) : list CredentialMatch :=
  if inside_word input start || negb (bytes_start_with (prefix_bytes p) (drop start input)) then []
  else
    let tail_start := (start + length (prefix_bytes p))%nat in
    let tail := tail_run p (drop tail_start input) in
    if (min_tail p <=? length tail)%nat && existsb key_like tail
    then [(p, (start, (tail_start + length tail)%nat))] else [].

Lemma last_key_byte_snoc run c at_ found :
  last_key_byte (run ++ [c]) at_ found
  = if key_like c then Some (at_ + length run)%nat else last_key_byte run at_ found.
Proof.
  revert at_ found. induction run as [|d run IH]; intros at_ found; simpl.
  - by rewrite Nat.add_0_r.
  - rewrite IH. destruct (key_like c); [f_equal; lia|done].
Qed.

(** The last key-like byte tells whether a suffix of the run has one. *)
Lemma last_key_byte_suffix run at_ n :
  match last_key_byte run at_ None with Some i => (at_ + n <=? i)%nat | None => false end
  = existsb key_like (drop n run).
Proof.
  induction run as [|c run IH] using rev_ind; [by rewrite drop_nil|].
  rewrite last_key_byte_snoc. destruct (decide (n <= length run)%nat) as [Hn|Hn].
  - rewrite drop_app_le, existsb_app by done. simpl. rewrite orb_false_r.
    destruct (key_like c); [|by rewrite orb_false_r].
    rewrite orb_true_r. apply Nat.leb_le. lia.
  - rewrite (drop_ge (run ++ [c])) by (rewrite length_app; simpl; lia). simpl.
    rewrite (drop_ge run) in IH by lia. destruct (key_like c); [|done]. apply Nat.leb_gt. lia.
Qed.

(** The state of the scan at position [k]: nothing cached that matters, or
    the run that starts at some [t0] *)
Definition cache_ok (p : CredentialPattern) (input : bytes) (k run_end : nat) (last_key : option nat) : Prop :=
  (run_end < k + length (prefix_bytes p))%nat ∨
  ∃ t0, (t0 <= k + length (prefix_bytes p))%nat ∧
    run_end = (t0 + length (tail_run p (drop t0 input)))%nat ∧
    last_key = last_key_byte (tail_run p (drop t0 input)) t0 None.

Lemma cache_ok_next p input k run_end last_key :
  cache_ok p input k run_end last_key → cache_ok p input (S k) run_end last_key.
Proof. intros [H|(t0 & H1 & H2 & H3)]; [left; lia|right]. exists t0. split_and!; [lia|done|done]. Qed.

Lemma staged_scan_at p input n : ∀ k run_end last_key,
  cache_ok p input k run_end last_key →
  staged_scan p input (seq k n) run_end last_key = List.flat_map (staged_at p input) (seq k n).
Proof.
  induction n as [|n IH]; intros k run_end last_key Hc; [done|]. cbn [seq staged_scan List.flat_map].
  unfold staged_at at 1. destruct (_ || _); [by apply IH, cache_ok_next|].
  set (ts := (k + length (prefix_bytes p))%nat) in *. set (run := tail_run p (drop ts input)) in *.
  destruct (Nat.ltb_spec run_end ts) as [Hlt|Hge].
  - rewrite IH by (right; exists ts; split_and!; [lia|done|done]). f_equal.
    replace (ts + length run - ts)%nat with (length run) by lia.
    pose proof (last_key_byte_suffix run ts 0) as Hk. rewrite Nat.add_0_r, drop_0 in Hk. by rewrite Hk.
  - destruct Hc as [Hc|(t0 & H1 & H2 & H3)]; [unfold ts in Hge; lia|].
    fold ts in H1.
    assert (run = drop (ts - t0) (tail_run p (drop t0 input))) as Hrun.
    { unfold run, tail_run. rewrite <- take_while_drop by (unfold tail_run in H2; lia).
      rewrite drop_drop. do 2 f_equal. lia. }
    assert (length run = run_end - ts)%nat as Hlen by (rewrite Hrun, length_drop; lia).
    rewrite IH by (apply cache_ok_next; right; exists t0; split_and!; [unfold ts in H1; lia|done|done]).
    rewrite <- Hlen. f_equal.
    pose proof (last_key_byte_suffix (tail_run p (drop t0 input)) t0 (ts - t0)) as Hk.
    rewrite <- Hrun, <- H3 in Hk. replace (t0 + (ts - t0))%nat with ts in Hk by lia. by rewrite Hk.
Qed.

(** the staged-code scan keeps the end of the run behind the last prefix
    and its last key-like byte instead of reading every tail again; it finds
    exactly what reading every tail by itself finds, in the same order. *)
Theorem staged_scan_exact input :
  staged_code_credential_matches input
  = List.flat_map (λ p, List.flat_map (staged_at p input) (seq 0 (length input))) staged_code_patterns.
Proof.
  unfold staged_code_credential_matches. assert (∀ p, p ∈ staged_code_patterns → p ∈ CREDENTIAL_PATTERNS) as Hin.
  { intros p Hp. unfold staged_code_patterns in Hp. rewrite <- (take_drop 9 CREDENTIAL_PATTERNS).
    apply elem_of_app. by left. }
  revert Hin. induction staged_code_patterns as [|p ps IH]; intros Hin; [done|]. cbn [List.flat_map].
  rewrite IH by (intros q Hq; apply Hin; by right). f_equal. apply staged_scan_at. left.
  pose proof (prefix_not_nil p (Hin p ltac:(left))) as Hp. destruct (prefix_bytes p); simpl; [done|lia].
Qed.

(** ** What the scan covers *)

(** The tail of [p] at [start], and where its shape ends *)
Definition tail_at (p : CredentialPattern) (input : bytes) (start : nat) : bytes :=
  tail_run p (drop (start + length (prefix_bytes p)) input).

Definition shape_end (p : CredentialPattern) (input : bytes) (start : nat) : nat :=
  (start + length (prefix_bytes p) + length (tail_at p input start))%nat.

(** [p] has a shape at [start], as the log policy counts it. *)
Definition shape_at (p : CredentialPattern) (input : bytes) (start : nat) : Prop :=
  prefix_bytes p `prefix_of` drop start input ∧ (min_tail p <= length (tail_at p input start))%nat.

Lemma first_match_log input start ps :
  match first_match false input start ps with
  | Some (o, next) => ∃ q, q ∈ ps ∧ shape_at q input start ∧ next = shape_end q input start ∧
      o = Some (q, (start, next))
  | None => ∀ q, q ∈ ps → ¬ shape_at q input start
  end.
Proof.
  induction ps as [|q ps IH]; [by intros q ?%elem_of_nil|]. cbn [first_match andb].
  fold (tail_at q input start). fold (shape_end q input start).
  assert (¬ shape_at q input start →
    match first_match false input start ps with
    | Some (o, next) => ∃ q0, q0 ∈ q :: ps ∧ shape_at q0 input start ∧ next = shape_end q0 input start ∧
        o = Some (q0, (start, next))
    | None => ∀ q0, q0 ∈ q :: ps → ¬ shape_at q0 input start
    end) as Hskip.
  { intros Hq. destruct (first_match false input start ps) as [[o next]|].
    - destruct IH as (q0 & Hin & H). exists q0. split; [by right|done].
    - intros q0 [->|Hin]%elem_of_cons; [done|by apply IH]. }
  destruct (bytes_start_with (prefix_bytes q) (drop start input)) eqn:Ep; cbn [negb].
  2:{ apply Hskip. intros [H _]. apply bytes_start_with_spec in H. congruence. }
  apply bytes_start_with_spec in Ep.
  destruct (Nat.ltb_spec (length (tail_at q input start)) (min_tail q)) as [Hl|Hl].
  { apply Hskip. intros [_ H]. lia. }
  exists q. split_and!; [by left|by split|done|done].
Qed.

Lemma bucket_elem p input start :
  p ∈ CREDENTIAL_PATTERNS → prefix_bytes p `prefix_of` drop start input → p ∈ bucket input start.
Proof.
  intros Hp [k Hk]. unfold bucket. apply list_elem_of_In, filter_In. split; [by apply list_elem_of_In|].
  apply bool_decide_eq_true. rewrite <- (Nat.add_0_r start), <- lookup_drop, Hk.
  pose proof (prefix_not_nil p Hp). by destruct (prefix_bytes p).
Qed.

Lemma bucket_sub p input start : p ∈ bucket input start → p ∈ CREDENTIAL_PATTERNS.
Proof. unfold bucket. rewrite !list_elem_of_In. by intros [Hp _]%filter_In. Qed.

(** The bytes of a shape other than a bearer one are letters, digits, [_] and [-]. *)
Definition word_byte (c : ascii) : bool := is_ascii_alphanumeric c || ascii_eqb c "_" || ascii_eqb c "-".

Lemma prefix_word p :
  p ∈ CREDENTIAL_PATTERNS → cp_prefix p ≠ "Bearer " → Forall (λ c, word_byte c = true) (prefix_bytes p).
Proof.
  assert (forallb (λ p, String.eqb (cp_prefix p) "Bearer " || forallb word_byte (prefix_bytes p))
    CREDENTIAL_PATTERNS = true) as H by done.
  rewrite forallb_forall in H. intros Hp%list_elem_of_In Hn. apply H in Hp.
  apply orb_true_iff in Hp as [Hp|Hp]; [by apply String.eqb_eq in Hp|].
  rewrite forallb_forall in Hp. apply Forall_forall. intros c Hc. by apply Hp, list_elem_of_In.
Qed.

Lemma tail_byte_word p c : cp_prefix p ≠ "Bearer " → tail_byte p c = true → word_byte c = true.
Proof.
  intros Hn. unfold tail_byte, word_byte, is_ascii_alphanumeric.
  rewrite (proj2 (String.eqb_neq _ _) Hn). destruct (upper_alnum_only p);
    destruct (is_ascii_uppercase c), (is_ascii_digit c), (is_ascii_lowercase c); simpl; try done;
    by rewrite orb_false_r.
Qed.

Lemma word_tail_byte p c : upper_alnum_only p = false → word_byte c = true → tail_byte p c = true.
Proof. intros Hu Hw. unfold tail_byte. rewrite Hu. unfold word_byte in Hw. by rewrite Hw. Qed.

Lemma shape_lookup p input start i :
  p ∈ CREDENTIAL_PATTERNS → cp_prefix p ≠ "Bearer " → prefix_bytes p `prefix_of` drop start input →
  (start <= i < shape_end p input start)%nat → ∃ c, input !! i = Some c ∧ word_byte c = true.
Proof.
  intros Hp Hn [k Hk] Hi. unfold shape_end in Hi.
  destruct (decide (i < start + length (prefix_bytes p))%nat) as [Hlt|Hge].
  - destruct (lookup_lt_is_Some_2 (prefix_bytes p) (i - start)) as [c Hc]; [lia|].
    exists c. split.
    + replace i with (start + (i - start))%nat by lia. rewrite <- lookup_drop, Hk. by apply lookup_app_l_Some.
    + pose proof (prefix_word p Hp Hn) as Hf. rewrite Forall_lookup in Hf. by eapply Hf.
  - destruct (take_while_lookup (tail_byte p) (drop (start + length (prefix_bytes p)) input)
      (i - (start + length (prefix_bytes p)))) as (c & Hc & Ht); [fold (tail_at p input start); unfold tail_at, tail_run in Hi; lia|].
    exists c. split; [|by eapply tail_byte_word].
    rewrite lookup_drop in Hc. rewrite <- Hc. f_equal. lia.
Qed.

(** The byte behind a shape is not one of its tail. *)
Lemma shape_end_next p input start c :
  input !! shape_end p input start = Some c → tail_byte p c = false.
Proof.
  unfold shape_end. rewrite <- lookup_drop. apply take_while_next.
Qed.

(** The catalog: the shapes with upper-case tails have alphanumeric bytes, and
    no other prefix goes with theirs. *)
Lemma upper_pattern q p :
  q ∈ CREDENTIAL_PATTERNS → p ∈ CREDENTIAL_PATTERNS → upper_alnum_only q = true →
  Forall (λ c, is_ascii_alphanumeric c = true) (prefix_bytes q) ∧
  (∀ s, prefix_bytes q `prefix_of` s → prefix_bytes p `prefix_of` s → p = q).
Proof.
  assert (forallb (λ q, negb (upper_alnum_only q) ||
    (forallb is_ascii_alphanumeric (prefix_bytes q) &&
     forallb (λ p, bool_decide (p = q) ||
       negb (bytes_start_with (prefix_bytes p) (prefix_bytes q) || bytes_start_with (prefix_bytes q) (prefix_bytes p)))
       CREDENTIAL_PATTERNS)) CREDENTIAL_PATTERNS = true) as H by by vm_compute.
  rewrite forallb_forall in H. intros Hq%list_elem_of_In Hp%list_elem_of_In Hu. apply H in Hq. rewrite Hu in Hq.
  cbn [negb orb] in Hq. apply andb_true_iff in Hq as [Ha Hb]. rewrite forallb_forall in Ha, Hb. split.
  - apply Forall_forall. intros c Hc. by apply Ha, list_elem_of_In.
  - intros s H1 H2. apply Hb in Hp. apply orb_true_iff in Hp as [Hp|Hp]; [by apply bool_decide_eq_true in Hp|].
    apply negb_true_iff, orb_false_iff in Hp as [Hp1 Hp2].
    apply bytes_start_with_false in Hp1, Hp2. exfalso.
    destruct (decide (length (prefix_bytes p) <= length (prefix_bytes q))%nat) as [Hl|Hl].
    + apply Hp1. by eapply prefix_shorter.
    + apply Hp2. eapply prefix_shorter; [done..|lia].
Qed.

Lemma upper_shape_alnum q input start i :
  q ∈ CREDENTIAL_PATTERNS → upper_alnum_only q = true → prefix_bytes q `prefix_of` drop start input →
  (start <= i < shape_end q input start)%nat → ∃ c, input !! i = Some c ∧ is_ascii_alphanumeric c = true.
Proof.
  intros Hq Hu [k Hk] Hi. unfold shape_end in Hi.
  destruct (decide (i < start + length (prefix_bytes q))%nat) as [Hlt|Hge].
  - destruct (lookup_lt_is_Some_2 (prefix_bytes q) (i - start)) as [c Hc]; [lia|]. exists c. split.
    + replace i with (start + (i - start))%nat by lia. rewrite <- lookup_drop, Hk. by apply lookup_app_l_Some.
    + destruct (upper_pattern q q Hq Hq Hu) as [Hf _]. rewrite Forall_lookup in Hf. by eapply Hf.
  - destruct (take_while_lookup (tail_byte q) (drop (start + length (prefix_bytes q)) input)
      (i - (start + length (prefix_bytes q)))) as (c & Hc & Ht); [unfold tail_at, tail_run in Hi; lia|].
    exists c. rewrite lookup_drop in Hc. split; [rewrite <- Hc; f_equal; lia|].
    unfold tail_byte in Ht. rewrite Hu in Ht. unfold is_ascii_alphanumeric.
    by destruct (is_ascii_digit c), (is_ascii_uppercase c); rewrite ?orb_true_r.
Qed.

(** A shape that starts within another one does not go beyond it. *)
Lemma shape_nested p q input start start' :
  p ∈ CREDENTIAL_PATTERNS → cp_prefix p ≠ "Bearer " → q ∈ CREDENTIAL_PATTERNS →
  shape_at q input start → shape_at p input start' → inside_word input start' = false →
  (start <= start' < shape_end q input start)%nat →
  (shape_end p input start' <= shape_end q input start)%nat.
Proof.
  intros Hp Hn Hq [Hq1 Hq2] [Hp1 Hp2] Hw Hs. destruct (upper_alnum_only q) eqn:Hu.
  - destruct (decide (start' = start)) as [->|Hne].
    + by rewrite (proj2 (upper_pattern q p Hq Hp Hu) _ Hq1 Hp1).
    + exfalso. destruct (upper_shape_alnum q input start (start' - 1) Hq Hu Hq1) as (c & Hc & Ha); [lia|].
      destruct start' as [|b]; [lia|]. simpl in Hw, Hc. rewrite Nat.sub_0_r in Hc. rewrite Hc in Hw.
      simpl in Hw. congruence.
  - apply Nat.nlt_ge. intros Hlt.
    destruct (shape_lookup p input start' (shape_end q input start) Hp Hn Hp1) as (c & Hc & Hwc); [lia|].
    apply shape_end_next in Hc. by rewrite (word_tail_byte q c Hu Hwc) in Hc.
Qed.

Lemma shape_end_lt p input start : p ∈ CREDENTIAL_PATTERNS → (start < shape_end p input start)%nat.
Proof.
  intros Hp. pose proof (prefix_not_nil p Hp) as Hne. unfold shape_end.
  destruct (prefix_bytes p); simpl; [done|lia].
Qed.

(** Every shape at a word boundary, but for bearer ones, lies within a match. *)
Lemma matches_cover p input start fuel from :
  p ∈ CREDENTIAL_PATTERNS → cp_prefix p ≠ "Bearer " →
  shape_at p input start → inside_word input start = false →
  (from <= start)%nat → (length input <= from + fuel)%nat → (start < length input)%nat →
  ∃ q a b, (q, (a, b)) ∈ matches_from fuel false input from ∧ (a <= start)%nat ∧ (shape_end p input start <= b)%nat.
Proof.
  intros Hp Hn Hs Hw. revert from. induction fuel as [|fuel IH]; intros from Hf Hl Hst; [lia|].
  cbn [matches_from]. destruct (Nat.leb_spec (length input) from) as [|Hlt]; [lia|].
  destruct (inside_word input from) eqn:Ew.
  { assert (from ≠ start) by (intros ->; congruence). apply IH; lia. }
  pose proof (first_match_log input from (bucket input from)) as Hfm.
  destruct (first_match false input from (bucket input from)) as [[o next]|].
  - destruct Hfm as (q & Hq%bucket_sub & Hsq & -> & ->).
    pose proof (shape_end_lt q input from Hq) as Hgt.
    destruct (decide (shape_end q input from <= start)%nat) as [Hle|Hgt'].
    + destruct (IH (shape_end q input from)) as (q' & a & b & Hin & H); [lia..|].
      exists q', a, b. split; [|done]. apply elem_of_app. by right.
    + exists q, from, (shape_end q input from). split_and!; [by apply elem_of_app; left; left|lia|].
      by eapply shape_nested; [..|lia].
  - destruct (decide (from = start)) as [->|]; [|apply IH; lia].
    exfalso. apply (Hfm p); [|done]. apply bucket_elem; [done|apply Hs].
Qed.

(** ** Coalescing *)

(** Offset [i] lies in one of the spans. *)
Definition covered (spans : list (nat * nat)) (i : nat) : Prop :=
  ∃ a b, (a, b) ∈ spans ∧ (a <= i < b)%nat.

(** Spans that are not empty, in order, with a gap between them *)
Fixpoint separated (lo : nat) (spans : list (nat * nat)) : Prop :=
  match spans with
  | [] => True
  | (a, b) :: rest => (lo <= a)%nat ∧ (a < b)%nat ∧ separated (S b) rest
  end.

Lemma covered_cons a b spans i : covered ((a, b) :: spans) i ↔ (a <= i < b)%nat ∨ covered spans i.
Proof.
  unfold covered. split.
  - intros (a' & b' & [[= -> ->]|Hin]%elem_of_cons & H); [by left|right]. by exists a', b'.
  - intros [H|(a' & b' & Hin & H)]; [exists a, b; split; [by left|done]|exists a', b'; split; [by right|done]].
Qed.

Lemma covered_app s1 s2 i : covered (s1 ++ s2) i ↔ covered s1 i ∨ covered s2 i.
Proof. unfold covered. setoid_rewrite elem_of_app. naive_solver. Qed.

#[export] Instance covered_proper : Proper ((≡ₚ) ==> eq ==> iff) covered.
Proof. intros s1 s2 Hs i ? <-. unfold covered. by setoid_rewrite Hs. Qed.

#[export] Instance span_le_trans : Transitive span_le.
Proof. intros a b c. unfold span_le. lia. Qed.
#[export] Instance span_le_total : Total span_le.
Proof. intros a b. unfold span_le. lia. Qed.

Lemma merge_spans_spec cur spans lo :
  (lo <= cur.1)%nat → (cur.1 < cur.2)%nat → Forall (λ sp, (sp.1 < sp.2)%nat) spans →
  StronglySorted span_le (cur :: spans) →
  separated lo (merge_spans cur spans) ∧ ∀ i, covered (merge_spans cur spans) i ↔ covered (cur :: spans) i.
Proof.
  revert cur lo. induction spans as [|sp spans IH]; intros cur lo Hlo Hcur Hf Hs; cbn [merge_spans].
  - destruct cur as [a b]. simpl in *. split; [done|]. done.
  - apply Forall_cons in Hf as [Hsp Hf]. apply StronglySorted_inv in Hs as [Hs Hall].
    apply Forall_cons in Hall as [Hle Hall]. pose proof Hs as Hs'. apply StronglySorted_inv in Hs' as [Hs' Hall'].
    destruct cur as [a b], sp as [a' b']. unfold span_le in Hle. cbn [fst snd] in *.
    destruct (Nat.leb_spec a' b) as [Hov|Hgap].
    + destruct (IH (a, Nat.max b b') lo) as [H1 H2]; cbn [fst snd]; [lia|lia|done| |].
      { constructor; [done|]. eapply Forall_impl; [exact Hall'|]. intros [x y]. unfold span_le. simpl. lia. }
      split; [done|]. intros i. rewrite H2, !covered_cons.
      assert ((a <= i < Nat.max b b')%nat ↔ (a <= i < b)%nat ∨ (a' <= i < b')%nat) as -> by lia. tauto.
    + destruct (IH (a', b') (S b)) as [H1 H2]; cbn [fst snd]; [lia|lia|done|done|].
      split; [by cbn [separated]|]. intros i. by rewrite !(covered_cons a b), H2.
Qed.

Lemma coalesce_spec spans :
  Forall (λ sp, (sp.1 < sp.2)%nat) spans → StronglySorted span_le spans →
  separated 0 (coalesce spans) ∧ ∀ i, covered (coalesce spans) i ↔ covered spans i.
Proof.
  intros Hf Hs. destruct spans as [|sp spans]; [done|]. apply Forall_cons in Hf as [Hsp Hf].
  by apply merge_spans_spec; [lia|..].
Qed.

Lemma matches_from_nonempty fuel input from :
  Forall (λ sp, (sp.1 < sp.2)%nat) (map snd (matches_from fuel false input from)).
Proof.
  revert from. induction fuel as [|fuel IH]; intros from; [constructor|]. cbn [matches_from].
  destruct (_ <=? _)%nat; [constructor|]. destruct (inside_word _ _); [apply IH|].
  pose proof (first_match_log input from (bucket input from)) as Hfm.
  destruct (first_match _ _ _ _) as [[o next]|]; [|apply IH].
  destruct Hfm as (q & Hq%bucket_sub & _ & -> & ->). constructor; [|apply IH].
  by apply shape_end_lt.
Qed.

Lemma response_spans_elem input a b :
  (a, b) ∈ response_spans input ↔
  ∃ spec len, spec ∈ FORMAT_SPECS ∧ (a < length input)%nat ∧
    complete_prefix_len spec (drop a input) = Some len ∧ b = (a + len)%nat.
Proof.
  unfold response_spans. rewrite list_elem_of_In, in_flat_map. setoid_rewrite in_flat_map.
  setoid_rewrite <- list_elem_of_In. setoid_rewrite elem_of_seq. split.
  - intros (cur & Hc & spec & Hs & Hin). destruct (complete_prefix_len _ _) as [len|] eqn:E;
      [|by apply elem_of_nil in Hin]. apply list_elem_of_singleton in Hin as [= -> ->].
    exists spec, len. split_and!; try done. lia.
  - intros (spec & len & Hs & Ha & E & ->). exists a. split; [lia|]. exists spec. split; [done|].
    rewrite E. by left.
Qed.

Lemma matches_from_shape fuel input from q a b :
  (q, (a, b)) ∈ matches_from fuel false input from →
  q ∈ CREDENTIAL_PATTERNS ∧ shape_at q input a ∧ inside_word input a = false ∧ b = shape_end q input a.
Proof.
  revert from. induction fuel as [|fuel IH]; intros from; [by intros ?%elem_of_nil|]. cbn [matches_from].
  destruct (_ <=? _)%nat; [by intros ?%elem_of_nil|]. destruct (inside_word input from) eqn:Ew; [apply IH|].
  pose proof (first_match_log input from (bucket input from)) as Hfm.
  destruct (first_match _ _ _ _) as [[o next]|]; [|apply IH].
  destruct Hfm as (q' & Hq%bucket_sub & Hs & -> & ->). cbn [option_list].
  intros [[= -> -> ->]|Hin]%elem_of_cons; [done|by eapply IH].
Qed.

Lemma tail_run_length p s : (length (tail_run p s) <= length s)%nat.
Proof. apply take_while_length. Qed.

Lemma shape_end_le p input start :
  p ∈ CREDENTIAL_PATTERNS → shape_at p input start → (shape_end p input start <= length input)%nat.
Proof.
  intros Hin [[k Hk] _]. pose proof (prefix_not_nil p Hin) as Hne.
  assert (0 < length (prefix_bytes p))%nat by (destruct (prefix_bytes p); simpl; [done|lia]). unfold shape_end, tail_at.
  pose proof (tail_run_length p (drop (start + length (prefix_bytes p)) input)) as Hl.
  apply (f_equal length) in Hk. rewrite length_app, !length_drop in *. lia.
Qed.

Lemma format_positive spec : spec ∈ FORMAT_SPECS → tail_positive (fs_shape spec).
Proof.
  intros Hs. unfold FORMAT_SPECS in Hs. rewrite !elem_of_cons, elem_of_nil in Hs.
  repeat destruct Hs as [->|Hs]; try done; simpl; lia.
Qed.

Lemma covered_log_spans input i :
  separated 0 (credential_spans input) ∧
  (covered (credential_spans input) i ↔
   covered (map snd (matches input false)) i ∨ covered (response_spans input) i).
Proof.
  unfold credential_spans. set (l := map snd (matches input false) ++ response_spans input).
  destruct (coalesce_spec (merge_sort span_le l)) as [H1 H2].
  - rewrite merge_sort_Permutation. apply Forall_app. split; [apply matches_from_nonempty|].
    apply Forall_forall. intros [a b] (spec & len & Hs & Ha & Hc & ->)%response_spans_elem. simpl.
    apply complete_prefix_positive in Hc as [? _]; [lia|by apply format_positive].
  - apply StronglySorted_merge_sort; apply _.
  - split; [done|]. rewrite H2, merge_sort_Permutation. apply covered_app.
Qed.

(** C25: what is scrubbed from a log.  The spans are in order and apart, and a
    byte is scrubbed only as part of a catalog shape at a word boundary or of a
    response credential; every response credential is scrubbed whole wherever
    it stands, and so is every catalog shape at a word boundary other than a
    bearer one, whatever other shapes it overlaps. *)
Theorem log_spans_exact input :
  let spans := credential_spans input in
  separated 0 spans ∧
  (∀ i, covered spans i →
     (∃ p start, p ∈ CREDENTIAL_PATTERNS ∧ shape_at p input start ∧ inside_word input start = false ∧
                 (start <= i < shape_end p input start)%nat) ∨
     (∃ spec start len, spec ∈ FORMAT_SPECS ∧ credential spec (take len (drop start input)) ∧
                        (start <= i < start + len)%nat)) ∧
  (∀ spec start c i, spec ∈ FORMAT_SPECS → credential spec c → c `prefix_of` drop start input →
     (start <= i < start + length c)%nat → covered spans i) ∧
  (∀ p start i, p ∈ CREDENTIAL_PATTERNS → cp_prefix p ≠ "Bearer " → shape_at p input start →
     inside_word input start = false → (start <= i < shape_end p input start)%nat → covered spans i).
Proof.
  split_and!.
  - apply (covered_log_spans input 0).
  - intros i Hi. apply covered_log_spans in Hi as [(a & b & Hin & Hi)|(a & b & Hin & Hi)].
    + left. apply list_elem_of_fmap in Hin as ([q [a' b']] & [= -> ->] & Hin).
      apply matches_from_shape in Hin as (Hq & Hs & Hw & ->). by exists q, a'.
    + right. apply response_spans_elem in Hin as (spec & len & Hs & _ & Hc & ->).
      apply complete_prefix_Some in Hc as (_ & Hc & _). by exists spec, a, len.
  - intros spec start c i Hs Hc Hp Hi. apply covered_log_spans. right.
    destruct (complete_prefix_len spec (drop start input)) as [len|] eqn:E.
    + pose proof (complete_prefix_Some _ _ _ E) as (Hl & _ & Hmax). specialize (Hmax c Hp Hc).
      rewrite length_drop in Hl. exists start, (start + len)%nat. split; [|lia].
      apply response_spans_elem. exists spec, len. split_and!; [done|lia|done|done].
    + exfalso. by eapply complete_prefix_None.
  - intros p start i Hp Hn Hs Hw Hi. apply covered_log_spans. left.
    pose proof (shape_end_le p input start Hp Hs) as Hle.
    destruct (matches_cover p input start (length input) 0 Hp Hn Hs Hw) as (q & a & b & Hin & Ha & Hb); [lia..|].
    exists a, b. split; [|lia]. by apply (list_elem_of_fmap_2 snd (matches input false) (q, (a, b))).
Qed.

(** Bearer is left out above for a reason: its prefix ends with a blank, which
    is not a byte of another tail.  A bearer word behind a key and a dash is
    skipped with the key, and the credential behind it stays. *)
Lemma bearer_hidden :
  credential_spans (as_bytes "Bearer s3cr3tvalue") = [(0, 18)%nat] ∧
  redact_text (as_bytes "sk-aaaaaaaaaaaaaaaaaaaa-Bearer s3cr3tvalue") = as_bytes "[REDACTED] s3cr3tvalue".
Proof. by vm_compute. Qed.

Lemma log_spans_exact_witness :
  let input := as_bytes "id AKIA0123456789ABCDEF-sk_live_0123456789abcdef" in
  credential_spans input = [(3, 23)%nat; (24, 48)%nat] ∧ covered (credential_spans input) 30.
Proof.
  intros input. split; [by vm_compute|].
  refine (proj2 (proj2 (proj2 (log_spans_exact input)))
    (mk_pattern "sk_live_" "Stripe live key" 16 false) 24 30 _ _ _ _ _).
  - unfold CREDENTIAL_PATTERNS. right; left.
  - done.
  - split; [apply bytes_start_with_spec; by vm_compute|]. apply Nat.leb_le. by vm_compute.
  - by vm_compute.
  - split; apply Nat.leb_le; by vm_compute.
Defined.
