(* ===== verification/Classify.v ===== *)
(** * Classification of dotenv entries: [crates/phantom-core/src/dotenv.rs]

    Which entries are secrets, which are public keys of a framework, and the
    rule that decided; the placeholders of generated example files; and that
    what has the shape of a credential is protected ([rewrite_protects]).  A parsed
    name is ASCII ([key_byte]), so its upper and lower case are the ASCII ones. *)

From S2P Require Import Prelude Text Bytes Token Dotenv DotenvLines DotenvSpec Redact Credentials CredentialsSpec.

Inductive SecretClassification := Secret | PublicKey | NotSecret.

Inductive ValueRule :=
  | KnownPrefix (prefix : string) | PemPrivateKey | UrlCredentials | UrlAuthParam | HighEntropy.

Inductive ClassificationReason :=
  | PublicPrefix (prefix : string)
  | PublicPrefixWithSecretValue (prefix : string) (rule : ValueRule)
  | KeyName (pattern : string)
  | ConnectionPattern (pattern : string)
  | Value (rule : ValueRule)
  | NoSecretPattern.

#[export] Instance SecretClassification_eq_dec : EqDecision SecretClassification.
Proof. solve_decision. Defined.
#[export] Instance ValueRule_eq_dec : EqDecision ValueRule.
Proof. solve_decision. Defined.
#[export] Instance ClassificationReason_eq_dec : EqDecision ClassificationReason.
Proof. solve_decision. Defined.

(** [ClassificationReason::label], [ClassificationReason::matched_pattern] *)
Definition reason_label (r : ClassificationReason) : string :=
  match r with
  | PublicPrefix _ => "public_prefix"
  | PublicPrefixWithSecretValue _ _ => "public_prefix_with_secret_value"
  | KeyName _ => "key_name"
  | ConnectionPattern _ => "connection_pattern"
  | Value _ => "value_pattern"
  | NoSecretPattern => "no_secret_pattern"
  end.

Definition matched_pattern (r : ClassificationReason) : option string :=
  match r with
  | PublicPrefix p | PublicPrefixWithSecretValue p _ | KeyName p | ConnectionPattern p => Some p
  | Value _ | NoSecretPattern => None
  end.

Definition NAME_RULE_FRAGMENTS : list string :=
  ["KEY"; "SECRET"; "TOKEN"; "PASSWORD"; "PASSWD"; "PWD"; "CREDENTIAL"; "AUTH"; "PRIVATE"; "API_KEY";
   "ACCESS_KEY"; "SIGNING"].

Definition CONNECTION_KEY_PATTERNS : list string :=
  ["DATABASE_URL"; "REDIS_URL"; "MONGO_URL"; "POSTGRES_URL"; "MYSQL_URL"; "AMQP_URL"; "RABBITMQ_URL";
   "ELASTICSEARCH_URL"; "CONNECTION_STRING"; "DSN"].

Definition NON_PUBLIC_VALUE_PREFIXES : list string := ["eyJ"; "-----BEGIN "].

Definition PUBLIC_KEY_PREFIXES : list string :=
  ["NEXT_PUBLIC_"; "EXPO_PUBLIC_"; "VITE_"; "REACT_APP_"; "NUXT_PUBLIC_"; "GATSBY_"].

Definition SECRET_QUERY_PARAMS : list string :=
  ["password"; "passwd"; "secret"; "client_secret"; "api_secret"; "sig"; "signature"; "x-amz-signature";
   "x-goog-signature"].

Definition TOKEN_QUERY_PARAMS : list string :=
  ["token"; "access_token"; "auth_token"; "api_key"; "apikey"; "key"].

Definition AUTH_QUERY_PARAMS : list string :=
  ["api_key"; "apikey"; "api-key"; "access_token"; "accesstoken"; "auth_token"; "authtoken"; "auth"; "token"].

(** ** Strings *)

Definition to_upper_byte (c : ascii) : ascii :=
  if is_ascii_lowercase c then ascii_of_N (N_of_ascii c - 32) else c.

(** [key.to_uppercase()] *)
Fixpoint to_uppercase (s : string) : string :=
  match s with EmptyString => EmptyString | String c s' => String (to_upper_byte c) (to_uppercase s') end.

(** [s.split_once(p)] for a string that is not empty *)
Fixpoint split_once_str (p s : string) : option (string * string) :=
  if starts_with p s then Some (EmptyString, str_drop (String.length p) s)
  else match s with
  | EmptyString => None
  | String c s' =>
      match split_once_str p s' with Some (a, b) => Some (String c a, b) | None => None end
  end.

(** [s.rsplit_once(c)] *)
Fixpoint rsplit_once (c : ascii) (s : string) : option (string * string) :=
  match s with
  | EmptyString => None
  | String d s' =>
      match rsplit_once c s' with
      | Some (a, b) => Some (String d a, b)
      | None => if ascii_eqb c d then Some (EmptyString, s') else None
      end
  end.

(** [s.split(set)] *)
Fixpoint split_set (set : list ascii) (s : string) : list string :=
  match s with
  | EmptyString => [EmptyString]
  | String c s' =>
      if existsb (ascii_eqb c) set then EmptyString :: split_set set s'
      else match split_set set s' with
      | piece :: rest => String c piece :: rest
      | [] => [String c EmptyString]
      end
  end.

Definition str_in (l : list string) (s : string) : bool := existsb (String.eqb s) l.

(** [(b as char).to_digit(16)] *)
Definition to_digit16 (c : ascii) : option N :=
  if is_ascii_digit c then Some (N_of_ascii c - 48)%N
  else if byte_in "a" "f" c then Some (N_of_ascii c - 87)%N
  else if byte_in "A" "F" c then Some (N_of_ascii c - 55)%N
  else None.

(** The decoded bytes of [percent_decode_lossy] *)
Fixpoint percent_decode (s : string) : string :=
  match s with
  | EmptyString => EmptyString
  | String c s1 =>
      if ascii_eqb c "%" then
        match s1 with
        | String a (String b s3) =>
            match to_digit16 a, to_digit16 b with
            | Some hi, Some lo => String (ascii_of_N (hi * 16 + lo)) (percent_decode s3)
            | _, _ => String c (percent_decode s1)
            end
        | _ => String c (percent_decode s1)
        end
      else String c (percent_decode s1)
  end.

(** The length of the valid sequence that [s] starts with, or of the longest
    part of one, and whether it is whole *)
Definition utf8_sequence (s : string) : nat * bool :=
  match s with
  | EmptyString => (0, true)
  | String a s1 =>
      let b := default zero_byte (byte_at s1 0) in
      let c := default zero_byte (byte_at s1 1) in
      let d := default zero_byte (byte_at s1 2) in
      if byte_in "000" "127" a then (1, true)
      else if byte_in "194" "223" a then (if is_continuation b then (2, true) else (1, false))
      else if byte_in "224" "239" a then
        let second :=
          if ascii_eqb a "224" then byte_in "160" "191" b
          else if ascii_eqb a "237" then byte_in "128" "159" b
          else is_continuation b in
        if negb second then (1, false)
        else if is_continuation c then (3, true) else (2, false)
      else if byte_in "240" "244" a then
        let second :=
          if ascii_eqb a "240" then byte_in "144" "191" b
          else if ascii_eqb a "244" then byte_in "128" "143" b
          else is_continuation b in
        if negb second then (1, false)
        else if negb (is_continuation c) then (2, false)
        else if is_continuation d then (4, true) else (3, false)
      else (1, false)
  end%nat.

Definition REPLACEMENT_CHARACTER : string := String "239" (String "191" (String "189" EmptyString)).

(** [String::from_utf8_lossy]; every round consumes a byte, so the length is
    enough fuel. *)
Fixpoint utf8_lossy (fuel : nat) (s : string) : string :=
  match fuel, s with
  | O, _ | _, EmptyString => EmptyString
  | S fuel', _ =>
      let '(n, whole) := utf8_sequence s in
      (if whole then str_take n s else REPLACEMENT_CHARACTER) +:+ utf8_lossy fuel' (str_drop n s)
  end.

(** [percent_decode_lossy] *)
Definition percent_decode_lossy (s : string) : string :=
  let decoded := percent_decode s in utf8_lossy (String.length decoded) decoded.

(** ** URLs *)

Record UrlParam := mk_param { param_name : string; param_value : string }.
Record UrlParams := mk_params { query : list UrlParam; fragment : list UrlParam }.

(** [parse_url_pairs_split] *)
Definition parse_url_pairs_split (pairs : string) (separators : list ascii) : list UrlParam :=
  omap (λ pair, (λ nv, mk_param (to_ascii_lowercase (percent_decode_lossy nv.1)) (percent_decode_lossy nv.2))
                  <$> split_once "=" pair)
    (split_set separators pairs).

(** [parse_url_pairs] *)
Definition parse_url_pairs (pairs : string) : list UrlParam := parse_url_pairs_split pairs ["&"%char].

(** [url_params] *)
Definition url_params (value : string) : option UrlParams :=
  match split_once_str "://" value with
  | None => None
  | Some (_, rest) =>
      let '(before_fragment, frag) :=
        match split_once "#" rest with Some (head, frag) => (head, Some frag) | None => (rest, None) end in
      Some (mk_params
        (match split_once "?" before_fragment with Some (_, q) => parse_url_pairs q | None => [] end)
        (match frag with Some f => parse_url_pairs_split f ["&"%char; "?"%char] | None => [] end))
  end.

(** [has_secret_value_pattern] *)
Definition has_secret_value_pattern (value : string) : bool :=
  match known_value_prefix value with Some _ => true | None => false end.

(** [is_query_credential] *)
Definition is_query_credential (p : UrlParam) : bool :=
  negb (str_is_empty (param_value p))
  && (str_in SECRET_QUERY_PARAMS (param_name p)
      || (str_in TOKEN_QUERY_PARAMS (param_name p) && has_secret_value_pattern (param_value p))).

(** [url_has_auth_query_param] *)
Definition url_has_auth_query_param (value : string) : bool :=
  match url_params value with
  | None => false
  | Some params =>
      existsb (λ p, is_query_credential p || str_in AUTH_QUERY_PARAMS (param_name p)
                    || str_in SECRET_QUERY_PARAMS (param_name p)) (query params ++ fragment params)
  end.

(** [url_has_query_credential] *)
Definition url_has_query_credential (value : string) : bool :=
  match url_params value with
  | None => false
  | Some params => existsb is_query_credential (query params)
  end.

(** [url_has_userinfo_password] *)
Definition url_has_userinfo_password (value : string) : bool :=
  match split_once_str "://" value with
  | None => false
  | Some (_, rest) =>
      let authority := default rest (head (split_set ["/"; "?"; "#"]%char rest)) in
      match rsplit_once "@" authority with
      | None => false
      | Some (userinfo, _) =>
          match split_once ":" userinfo with
          | None => false
          | Some (_, pass) => negb (str_is_empty pass)
          end
      end
  end.

(** The first line of a text, as [str::lines] gives it: without its line feed
    and a carriage return in front of that *)
Definition first_line (s : string) : option string :=
  if str_is_empty s then None
  else match split_once LF s with
  | Some (line, _) => Some (match strip_suffix (String CR EmptyString) line with Some l => l | None => line end)
  | None => Some s
  end.

(** [is_pem_private_key] *)
Definition is_pem_private_key (value : string) : bool :=
  match strip_prefix "-----BEGIN " value with
  | None => false
  | Some rest => match first_line rest with Some header => contains_str "PRIVATE KEY" header | None => false end
  end.

(** ** The decision *)

(** [is_twilio_account_sid] *)
Definition is_twilio_account_sid (upper_key value : string) : bool :=
  ends_with "ACCOUNT_SID" upper_key && (String.length value =? 34)%nat && starts_with "AC" value
  && all_bytes (λ b, is_ascii_digit b || byte_in "a" "f" b) (str_drop 2 value).

(** A long string of the bytes that hexadecimal and base64 texts have *)
Definition high_entropy (value : string) : bool :=
  (32 <=? String.length value)%nat
  && all_bytes (λ c, is_ascii_alphanumeric c || ascii_eqb c "-" || ascii_eqb c "_" || ascii_eqb c "+"
                     || ascii_eqb c "/" || ascii_eqb c "=") value.

(** [deciding_rule]: the first rule that matches *)
Definition deciding_rule (e : EnvEntry) : option ClassificationReason :=
  let key := to_uppercase (key e) in
  let value := value e in
  match List.find (λ p, contains_str p key) NAME_RULE_FRAGMENTS with
  | Some pattern => Some (KeyName pattern)
  | None =>
  match List.find (λ p, contains_str p key) CONNECTION_KEY_PATTERNS with
  | Some pattern => Some (ConnectionPattern pattern)
  | None =>
  match match known_value_prefix value with
        | Some prefix => Some prefix
        | None => List.find (λ p, starts_with p value) NON_PUBLIC_VALUE_PREFIXES
        end with
  | Some prefix => Some (Value (KnownPrefix prefix))
  | None =>
      if contains_str "://" value && contains_char "@" value then Some (Value UrlCredentials)
      else if contains_str "://" value && url_has_auth_query_param value then Some (Value UrlAuthParam)
      else if is_twilio_account_sid key value then None
      else if high_entropy value then Some (Value HighEntropy)
      else None
  end end end.

(** [public_key_prefix], [is_public_key] *)
Definition public_key_prefix (key : string) : option string :=
  List.find (λ p, starts_with p key) PUBLIC_KEY_PREFIXES.

Definition is_public_key (key : string) : bool :=
  match public_key_prefix key with Some _ => true | None => false end.

(** [public_value_rule] *)
Definition public_value_rule (value : string) : option ValueRule :=
  match known_value_prefix value with
  | Some prefix => Some (KnownPrefix prefix)
  | None =>
      if is_pem_private_key value then Some PemPrivateKey
      else if url_has_userinfo_password value then Some UrlCredentials
      else if url_has_query_credential value then Some UrlAuthParam
      else None
  end.

(** [classify_with_reason] *)
Definition classify_with_reason (e : EnvEntry) : SecretClassification * ClassificationReason :=
  match public_key_prefix (key e) with
  | Some prefix =>
      match public_value_rule (value e) with
      | Some rule => (Secret, PublicPrefixWithSecretValue prefix rule)
      | None => (PublicKey, PublicPrefix prefix)
      end
  | None =>
      match deciding_rule e with
      | Some reason => (Secret, reason)
      | None => (NotSecret, NoSecretPattern)
      end
  end.

(** [classify] *)
Definition classify (e : EnvEntry) : SecretClassification := (classify_with_reason e).1.

(** [real_secret_entries], [classified_entries], [public_key_entries] *)
Definition real_secret_entries (f : DotenvFile) : list EnvEntry :=
  List.filter (λ e, negb (is_phantom e) && bool_decide (classify e = Secret)) (entries f).

Definition classified_entries (f : DotenvFile) : list (EnvEntry * SecretClassification) :=
  map (λ e, (e, classify e)) (List.filter (λ e, negb (is_phantom e)) (entries f)).

Definition public_key_entries (f : DotenvFile) : list EnvEntry :=
  List.filter (λ e, negb (is_phantom e) && bool_decide (classify e = PublicKey)) (entries f).

(** ** Placeholders *)

(** [is_example_template_file] *)
Definition is_example_template_file (path : string) : bool :=
  let name := List.last (split_set ["/"; "092"]%char path) path in
  str_in [".env.example"; ".env.sample"; ".env.template"] name.

(** [is_example_placeholder] *)
Definition is_example_placeholder (value : string) : bool :=
  if str_is_empty value then true
  else if (128 <? String.length value)%nat then false
  else
    match strip_prefix "your_" value with
    | None => false
    | Some rest =>
        match strip_suffix "_here" rest with
        | None => false
        | Some middle =>
            negb (str_is_empty middle)
            && all_bytes (λ c, is_ascii_lowercase c || is_ascii_digit c || ascii_eqb c "_" || ascii_eqb c "-") middle
        end
    end.

(** [generate_placeholder]; [services] are the services of the configuration,
    in order, with their secret names; it is empty without a configuration. *)
Definition generate_placeholder (key : string) (services : list (string * string)) : string :=
  match List.find (λ svc, String.eqb svc.2 key) services with
  | Some svc => "your_" +:+ svc.1 +:+ "_here"
  | None =>
      let key_lower := to_ascii_lowercase key in
      if contains_str "url" key_lower then "your_connection_string_here"
      else if contains_str "password" key_lower || contains_str "passwd" key_lower then "your_password_here"
      else "your_" +:+ key_lower +:+ "_here"
  end.

(** ** Classification: what is protected

    A value with the shape of a credential is a secret whatever its name is,
    and a rewrite with tokens for the secrets leaves none in the file. *)

(** ** Strings *)

Lemma split_once_str_Some p s a b : split_once_str p s = Some (a, b) → s = a +:+ p +:+ b.
Proof.
  revert a b. induction s as [|c s IH]; intros a b; cbn [split_once_str].
  - destruct p as [|c p]; simpl; [by intros [= <- <-]|done].
  - destruct (starts_with p (String c s)) eqn:E.
    + intros [= <- <-]. apply starts_with_spec in E as [t Ht]. rewrite Ht. by rewrite str_drop_app.
    + destruct (split_once_str p s) as [[a' b']|]; [|done]. intros [= <- <-]. simpl. f_equal. by apply IH.
Qed.

Lemma contains_str_app p a b : contains_str p (a +:+ p +:+ b) = true.
Proof.
  induction a as [|c a IH]; simpl.
  - destruct (p +:+ b) eqn:E; simpl; rewrite <- ?E, starts_with_app; [done|]. done.
  - by rewrite IH, orb_true_r.
Qed.

Lemma rsplit_once_Some c s a b : rsplit_once c s = Some (a, b) → s = a +:+ String c b.
Proof.
  revert a b. induction s as [|d s IH]; intros a b; simpl; [done|].
  destruct (rsplit_once c s) as [[a' b']|].
  - intros [= <- <-]. simpl. f_equal. by apply IH.
  - destruct (ascii_eqb c d) eqn:E; [|done]. apply ascii_eqb_eq in E as ->. by intros [= <- <-].
Qed.

(** Every piece of a split is a part of the text. *)
Lemma split_set_head set s p : head (split_set set s) = Some p → ∃ t, s = p +:+ t.
Proof.
  revert p. induction s as [|c s IH]; intros p; simpl.
  - intros [= <-]. by exists "".
  - destruct (existsb _ _); [intros [= <-]; by eexists|].
    destruct (split_set set s) as [|q rest]; intros [= <-]; [by exists s|].
    destruct (IH q eq_refl) as [t ->]. by exists t.
Qed.

Lemma contains_char_app c a b : contains_char c (a +:+ b) = contains_char c a || contains_char c b.
Proof. apply any_byte_app. Qed.

(** ** The rules *)

Lemma userinfo_in_url value :
  url_has_userinfo_password value = true → contains_str "://" value = true ∧ contains_char "@" value = true.
Proof.
  unfold url_has_userinfo_password. destruct (split_once_str "://" value) as [[a rest]|] eqn:E; [|done].
  apply split_once_str_Some in E as ->. intros H. split; [apply contains_str_app|].
  destruct (rsplit_once "@" _) as [[u h]|] eqn:Er; [|done]. apply rsplit_once_Some in Er.
  rewrite !contains_char_app. apply orb_true_iff. right. apply orb_true_iff. right.
  assert (∃ t, rest = default rest (head (split_set ["/"; "?"; "#"]%char rest)) +:+ t) as [t ->].
  { destruct (head (split_set _ rest)) as [p|] eqn:Eh; [by apply split_set_head in Eh|].
    exists "". by rewrite str_app_nil_r. }
  rewrite contains_char_app. apply orb_true_iff. left. rewrite Er, contains_char_app.
  apply orb_true_iff. right. unfold contains_char. simpl. done.
Qed.

Lemma query_credential_auth value :
  url_has_query_credential value = true →
  contains_str "://" value = true ∧ url_has_auth_query_param value = true.
Proof.
  unfold url_has_query_credential, url_has_auth_query_param. destruct (url_params value) as [ps|] eqn:E; [|done].
  intros H. split.
  - unfold url_params in E. destruct (split_once_str "://" value) as [[a b]|] eqn:Es; [|done].
    apply split_once_str_Some in Es as ->. apply contains_str_app.
  - apply existsb_exists in H as (p & Hp & Hc). apply existsb_exists. exists p.
    split; [apply in_app_iff; by left|]. by rewrite Hc.
Qed.

(** What is certainly a credential: a value that starts with a provider prefix
    (ASIA only with its tail), a PEM private key, a URL with a password or with
    a credential in its query, under every name, public prefixes included; and
    every value under a name with a secret fragment and without a public
    prefix. *)
Definition credential_like (e : EnvEntry) : Prop :=
  (∃ p, p ∈ CREDENTIAL_PATTERNS ∧ starts_with (cp_prefix p) (value e) = true ∧
        (cp_prefix p = "ASIA" → (min_tail p <= length (tail_at p (as_bytes (value e)) 0))%nat))
  ∨ is_pem_private_key (value e) = true ∨ url_has_userinfo_password (value e) = true
  ∨ url_has_query_credential (value e) = true
  ∨ is_public_key (key e) = false ∧ ∃ f, f ∈ NAME_RULE_FRAGMENTS ++ CONNECTION_KEY_PATTERNS ∧
      contains_str f (to_uppercase (key e)) = true.

Lemma credential_like_secret e : credential_like e → classify e = Secret.
Proof.
  intros H. unfold credential_like in H. unfold classify, classify_with_reason.
  assert (∀ l : list string, ∀ q f, List.find q l = None → f ∈ l → q f = false) as Hfind.
  { intros l q f Hn Hin. by apply (find_none q l Hn), list_elem_of_In. }
  assert ((∃ p, p ∈ CREDENTIAL_PATTERNS ∧ starts_with (cp_prefix p) (value e) = true ∧
     (cp_prefix p = "ASIA" → (min_tail p <= length (tail_at p (as_bytes (value e)) 0))%nat)) →
     known_value_prefix (value e) ≠ None) as Hkp.
  { intros (p & Hp & Hs & Ht). unfold known_value_prefix.
    set (l := List.filter _ _).
    assert (p ∈ l) as Hl.
    { unfold l. apply list_elem_of_In, filter_In. split.
      - apply filter_In. split; [by apply list_elem_of_In|done].
      - destruct (String.eqb_spec (cp_prefix p) "ASIA") as [Ha|]; [|done].
        simpl. apply Nat.leb_le. by apply Ht. }
    destruct l as [|q l']; [by apply elem_of_nil in Hl|]. simpl.
    destruct (shortest_prefix l'); [destruct (_ <=? _)%nat|]; done. }
  destruct (public_key_prefix (key e)) as [pre|] eqn:Epub.
  - unfold is_public_key in H. rewrite Epub in H. unfold public_value_rule.
    destruct (known_value_prefix (value e)) eqn:Ek; [done|].
    destruct (is_pem_private_key (value e)) eqn:E1; [done|].
    destruct (url_has_userinfo_password (value e)) eqn:E2; [done|].
    destruct (url_has_query_credential (value e)) eqn:E3; [done|].
    exfalso. destruct H as [H|[H|[H|[H|[H _]]]]]; try discriminate H. by apply Hkp.
  - unfold deciding_rule.
    destruct (List.find _ NAME_RULE_FRAGMENTS) eqn:F1; [done|].
    destruct (List.find _ CONNECTION_KEY_PATTERNS) eqn:F2; [done|].
    destruct (known_value_prefix (value e)) as [kp|] eqn:Ek; [done|].
    destruct (List.find _ NON_PUBLIC_VALUE_PREFIXES) eqn:F3; [done|].
    destruct (contains_str "://" (value e) && contains_char "@" (value e)) eqn:F4; [done|].
    destruct (contains_str "://" (value e) && url_has_auth_query_param (value e)) eqn:F5; [done|].
    exfalso. destruct H as [H|[H|[H|[H|[_ (f & Hf & Hc)]]]]].
    + by apply Hkp.
    + unfold is_pem_private_key in H. destruct (strip_prefix "-----BEGIN " (value e)) as [r|] eqn:Er; [|done].
      apply strip_prefix_Some in Er.
      assert (starts_with "-----BEGIN " (value e) = true) as Hs by (rewrite Er; apply starts_with_app).
      pose proof (Hfind _ _ "-----BEGIN " F3 ltac:(unfold NON_PUBLIC_VALUE_PREFIXES; right; left)) as Hn.
      cbv beta in Hn. congruence.
    + apply userinfo_in_url in H as [H1 H2]. by rewrite H1, H2 in F4.
    + apply query_credential_auth in H as [H1 H2]. by rewrite H1, H2 in F5.
    + apply elem_of_app in Hf as [Hf|Hf].
      * pose proof (Hfind _ _ f F1 Hf) as Hn. cbv beta in Hn. congruence.
      * pose proof (Hfind _ _ f F2 Hf) as Hn. cbv beta in Hn. congruence.
Qed.

Example credentials_are_secret :
  map classify [mk_entry "VITE_PAYMENTS" "sk_live_1" false; mk_entry "NEXT_PUBLIC_DB" "postgres://app:pw@db/x" false;
                mk_entry "NEXT_PUBLIC_API_KEY" "abc" false]
  = [Secret; Secret; PublicKey].
Proof. by vm_compute. Qed.

(** ** Protection *)


