(* ===== verification/Scrubber.v ===== *)
(** * Response scrubbing: [crates/phantom-proxy/src/response_scrubber.rs] and
    the [ResponseLeakAnalyzer] of [interceptor.rs]

    The streaming scrubber.  Its first stage finds the session's secrets and
    the credential formats of [Redact] in the bytes of a response, however the
    response is cut into chunks; its second stage finds runs of twelve bytes
    of a secret.  What is found is replaced by a marker.

    A [Vec] of values keeps its order; the order of a hash map is that of the
    list the analyzer is made from.  The timestamps of events are left out, as
    is the zeroing of buffers. *)

From S2P Require Import Prelude Bytes Redact.

(** ** The analyzer's constants *)

Definition PARTIAL_MIN_RUN : nat := 12.
Definition PARTIAL_MIN_VALUE_LEN : nat := 16.
Definition PUBLIC_PREFIX_SCAN : nat := 16.
Definition PARTIAL_FILTER_WORDS : nat := 1024.
Definition WINDOW_HASH_BASE : N := 0x100000001b3.

(** [fn is_token_like] *)
Definition is_token_like (value : bytes) : bool :=
  (PARTIAL_MIN_VALUE_LEN <=? length value)%nat
  && forallb (λ b, is_ascii_alphanumeric b || existsb (ascii_eqb b) (as_bytes "-_.+/=~")) value.

(** [iter().rposition(f)] *)
Fixpoint rposition {A} (f : A → bool) (l : list A) : option nat :=
  match l with
  | [] => None
  | x :: l' => match rposition f l' with Some i => Some (S i) | None => if f x then Some 0%nat else None end
  end.

(** [fn public_prefix_len] *)
Definition public_prefix_len (value : bytes) : nat :=
  let head := take (Nat.min (length value) PUBLIC_PREFIX_SCAN) value in
  match rposition (λ b, ascii_eqb b "-" || ascii_eqb b "_") head with Some i => i + 1 | None => 0 end.

(** [fn partial_window_starts] *)
Definition partial_window_starts (value : bytes) : list nat :=
  let eligible := is_token_like value && (PARTIAL_MIN_RUN <=? length value)%nat in
  let first := (public_prefix_len value - (PARTIAL_MIN_RUN - 1))%nat in
  let last := if eligible then (length value - PARTIAL_MIN_RUN + 1)%nat else 0%nat in
  seq (Nat.min first last) (last - Nat.min first last).

(** [value[start..start + PARTIAL_MIN_RUN]] *)
Definition window_at (value : bytes) (start : nat) : bytes := take PARTIAL_MIN_RUN (drop start value).

(** The windows of a value that are searched for *)
Definition partial_windows (value : bytes) : list bytes :=
  map (window_at value) (partial_window_starts value).

(** ** Hashes *)

Definition byte_term (b : ascii) : N := N_of_ascii b + 1.

(** [fn window_hash] *)
Definition window_hash (window : bytes) : N :=
  foldl (λ h b, wrapping_add_u64 (wrapping_mul_u64 h WINDOW_HASH_BASE) (byte_term b)) 0%N window.

Definition WINDOW_HASH_TOP : N :=
  Nat.iter (PARTIAL_MIN_RUN - 1) (λ p, wrapping_mul_u64 p WINDOW_HASH_BASE) 1%N.

(** [fn roll_hash] *)
Definition roll_hash (hash : N) (outgoing incoming : ascii) : N :=
  wrapping_add_u64
    (wrapping_mul_u64
       (wrapping_sub_u64 hash (wrapping_mul_u64 (byte_term outgoing) WINDOW_HASH_TOP))
       WINDOW_HASH_BASE)
    (byte_term incoming).

(** [fn partial_bit] *)
Definition partial_bit (hash : N) : N := N.shiftr (wrapping_mul_u64 hash 0x9E3779B97F4A7C15) 48.

(** [bits[bit / 64] |= 1 << (bit % 64)] *)
Definition set_bit (bits : list N) (bit : N) : list N :=
  alter (λ w, N.lor w (N.shiftl 1 (bit mod 64))) (N.to_nat (bit / 64)) bits.

(** [filter[bit / 64] & (1 << (bit % 64)) != 0] *)
Definition test_bit (filter : list N) (bit : N) : bool :=
  match filter !! N.to_nat (bit / 64) with
  | Some w => negb (N.land w (N.shiftl 1 (bit mod 64)) =? 0)%N
  | None => false
  end.

(** ** The analyzer *)

Record ResponseLeakAnalyzer := mk_analyzer {
  vault_values : list (bytes * string);
  partial_filter : option (list N);
}.

(** The bits of the windows of all values *)
Definition filter_bits (vault_values : list (bytes * string)) : list N :=
  map (λ w, partial_bit (window_hash w)) (vault_values ≫= λ v, partial_windows v.1).

(** [ResponseLeakAnalyzer::with_partial_filter] *)
Definition with_partial_filter (vault_values : list (bytes * string)) : ResponseLeakAnalyzer :=
  let bits := filter_bits vault_values in
  mk_analyzer vault_values
    match bits with
    | [] => None
    | _ => Some (foldl set_bit (replicate PARTIAL_FILTER_WORDS 0%N) bits)
    end.

(** [ResponseLeakAnalyzer::from_token_secret_pairs] *)
Definition from_token_secret_pairs (pairs : list (string * string)) : ResponseLeakAnalyzer :=
  with_partial_filter (map (λ p, (as_bytes p.2, p.1)) pairs).

Definition has_partial_matching (a : ResponseLeakAnalyzer) : bool :=
  match partial_filter a with Some _ => true | None => false end.

Definition vault_name (a : ResponseLeakAnalyzer) (index : nat) : string :=
  match vault_values a !! index with Some v => v.2 | None => EmptyString end.

(** [ResponseLeakAnalyzer::managed_exact_name] *)
Definition managed_exact_name (a : ResponseLeakAnalyzer) (candidate : bytes) : option string :=
  option_map snd (List.find (λ v, bytes_eqb v.1 candidate) (vault_values a)).

(** [ResponseLeakAnalyzer::is_managed_prefix] *)
Definition is_managed_prefix (a : ResponseLeakAnalyzer) (candidate : bytes) : bool :=
  match candidate with
  | [] => false
  | _ => existsb (λ v, (length candidate <? length v.1)%nat && bytes_start_with candidate v.1)
           (vault_values a)
  end.

(** [max_by_key]: the last of the longest *)
Definition longer_match (best : option (nat * string)) (m : nat * string) : option (nat * string) :=
  match best with
  | Some b => if (b.1 <=? m.1)%nat then Some m else Some b
  | None => Some m
  end.

(** [ResponseLeakAnalyzer::managed_prefix_match] *)
Definition managed_prefix_match (a : ResponseLeakAnalyzer) (candidate : bytes)
    : option (nat * string) :=
  foldl longer_match None
    (map (λ v, (length v.1, v.2))
       (List.filter (λ v, negb (length v.1 =? 0)%nat && bytes_start_with v.1 candidate)
          (vault_values a))).

(** [ResponseLeakAnalyzer::max_managed_value_len] *)
Definition max_managed_value_len (a : ResponseLeakAnalyzer) : nat :=
  foldr (λ v m, Nat.max (length v.1) m) 0%nat (vault_values a).

(** [ResponseLeakAnalyzer::verify_partial_window]: the first value that has
    the window *)
Fixpoint verify_partial_window (vault_values : list (bytes * string)) (window : bytes)
    : option nat :=
  match vault_values with
  | [] => None
  | v :: rest =>
      if existsb (bytes_eqb window) (partial_windows v.1) then Some 0%nat
      else option_map S (verify_partial_window rest window)
  end.

(** A run: where it starts and ends, and the value it belongs to *)
Definition run : Type := nat * nat * nat.

(** [match runs.last_mut() { Some(last) if start <= last.1 => .., _ => runs.push(..) }] *)
Fixpoint push_run (runs : list run) (r : run) : list run :=
  let '(start, stop, index) := r in
  match runs with
  | [] => [r]
  | [(s, e, i)] => if (start <=? e)%nat then [(s, Nat.max e stop, i)] else [(s, e, i); r]
  | last :: rest => last :: push_run rest r
  end.

(** The loop of [partial_runs] at [start]; [rest] is the input from there. *)
Fixpoint partial_runs_loop (values : list (bytes * string)) (filter : list N) (start : nat)
    (hash : N) (rest : bytes) (runs : list run) : list run :=
  match rest with
  | [] => runs
  | outgoing :: rest' =>
      let runs1 :=
        if test_bit filter (partial_bit hash) then
          match verify_partial_window values (take PARTIAL_MIN_RUN rest) with
          | Some index => push_run runs (start, start + PARTIAL_MIN_RUN, index)%nat
          | None => runs
          end
        else runs in
      match rest !! PARTIAL_MIN_RUN with
      | Some incoming =>
          partial_runs_loop values filter (S start) (roll_hash hash outgoing incoming) rest' runs1
      | None => runs1
      end
  end.

(** [ResponseLeakAnalyzer::partial_runs] *)
Definition partial_runs (a : ResponseLeakAnalyzer) (input : bytes) : list run :=
  match partial_filter a with
  | None => []
  | Some filter =>
      if (length input <? PARTIAL_MIN_RUN)%nat then []
      else partial_runs_loop (vault_values a) filter 0 (window_hash (take PARTIAL_MIN_RUN input))
             input []
  end.

(** Whether a slice is the start of a window of some value *)
Definition starts_window (a : ResponseLeakAnalyzer) (suffix : bytes) : bool :=
  existsb (λ v, existsb (bytes_start_with suffix) (partial_windows v.1)) (vault_values a).

(** [ResponseLeakAnalyzer::partial_hold_start] *)
Definition partial_hold_start (a : ResponseLeakAnalyzer) (input : bytes) : nat :=
  match partial_filter a with
  | None => length input
  | Some _ =>
      let from := (length input - (PARTIAL_MIN_RUN - 1))%nat in
      default (length input)
        (List.find (λ j, starts_window a (drop j input)) (seq from (length input - from)))
  end.

(** ** The streaming state *)

Inductive LeakSeverity := High | Medium.

#[export] Instance LeakSeverity_eq_dec : EqDecision LeakSeverity.
Proof. solve_decision. Defined.

(** [LeakEvent], for a body *)
Record LeakEvent := mk_event {
  ev_severity : LeakSeverity;
  ev_secret_name : option string;
  ev_pattern : string;
  ev_match_count : N;
}.

(** [StreamingScrubState] *)
Record StreamingScrubState := mk_scrub_state {
  pending : bytes;
  suppressing : option nat;
  suppression_prefix : bytes;
  partial_tail : bytes;
  partial_tail_marked : nat;
  partial_tail_index : nat;
  partial_in_run : bool;
}.

(** [StreamingScrubState::with_carry] *)
Definition with_carry (pending : bytes) (suppressing : option nat) (suppression_prefix : bytes)
    : StreamingScrubState :=
  mk_scrub_state pending suppressing suppression_prefix [] 0 0 false.

(** [StreamingScrubState::new] *)
Definition new_scrub_state : StreamingScrubState := with_carry [] None [].

(** Assignments to fields *)
Definition set_pending (st : StreamingScrubState) (p : bytes) : StreamingScrubState :=
  mk_scrub_state p (suppressing st) (suppression_prefix st) (partial_tail st)
    (partial_tail_marked st) (partial_tail_index st) (partial_in_run st).

Definition set_suppression (st : StreamingScrubState) (s : option nat) (p : bytes)
    : StreamingScrubState :=
  mk_scrub_state (pending st) s p (partial_tail st)
    (partial_tail_marked st) (partial_tail_index st) (partial_in_run st).

Definition set_partial (st : StreamingScrubState) (tail : bytes) (marked index : nat)
    (in_run : bool) : StreamingScrubState :=
  mk_scrub_state (pending st) (suppressing st) (suppression_prefix st) tail marked index in_run.

(** [StreamingScrubState::buffered_len] *)
Definition buffered_len (st : StreamingScrubState) : nat :=
  (length (pending st) + length (suppression_prefix st) + length (partial_tail st))%nat.

(** [StreamingScrubState::is_suppressing] *)
Definition is_suppressing (st : StreamingScrubState) : bool :=
  match suppressing st with Some _ => true | None => false end.

(** [StreamingScrubState::clear_suppression] *)
Definition clear_suppression (st : StreamingScrubState) : StreamingScrubState :=
  set_suppression st None [].

(** What [events.iter_mut().find(..)] does: count a known event, or add one. *)
Fixpoint record_leak (events : list LeakEvent) (severity : LeakSeverity)
    (secret_name : option string) (pattern : string) : list LeakEvent :=
  match events with
  | [] => [mk_event severity secret_name pattern 1]
  | e :: rest =>
      if bool_decide (ev_severity e = severity ∧ ev_pattern e = pattern ∧
                      ev_secret_name e = secret_name)
      then mk_event severity secret_name pattern (wrapping_add_u64 (ev_match_count e) 1) :: rest
      else e :: record_leak rest severity secret_name pattern
  end.

(** The scrubber's state, output and events *)
Definition progress : Type := StreamingScrubState * bytes * list LeakEvent.

Definition marker (pattern : string) : bytes :=
  as_bytes "[REDACTED:" ++ as_bytes pattern ++ as_bytes "]".

(** [fn redact_pending_prefix] *)
Definition redact_pending_prefix (p : progress) (match_len : nat) (pattern : string)
    (severity : LeakSeverity) (secret_name : option string) : progress :=
  let '(st, output, events) := p in
  (set_pending st (drop match_len (pending st)), output ++ marker pattern,
   record_leak events severity secret_name pattern).

(** [enumerate().find_map(..)] over the catalog from [index] on *)
Fixpoint find_format (index : nat) (specs : list FormatSpec) (candidate : bytes)
    : option (nat * FormatSpec * nat) :=
  match specs with
  | [] => None
  | spec :: rest =>
      match complete_prefix_len spec candidate with
      | Some len => Some (index, spec, len)
      | None => find_format (S index) rest candidate
      end
  end.

(** What an iteration of the loop of [drain_stream_pending] does next *)
Inductive flow := Continue (p : progress) | Return (p : progress).

(** The body of the loop, for [pending] that is not empty *)
Definition drain_step (a : ResponseLeakAnalyzer) (finish : bool) (p : progress) : flow :=
  let '(st, output, events) := p in
  match managed_exact_name a (pending st) with
  | Some name =>
      if negb finish && is_managed_prefix a (pending st) then Return p
      else Continue (redact_pending_prefix p (length (pending st)) "vault-secret" High (Some name))
  | None =>
  if negb finish && is_managed_prefix a (pending st) then Return p else
  match managed_prefix_match a (pending st) with
  | Some (match_len, name) =>
      Continue (redact_pending_prefix p match_len "vault-secret" High (Some name))
  | None =>
  match find_format 0 FORMAT_SPECS (pending st) with
  | Some (spec_index, spec, match_len) =>
      let suppress := negb finish && is_unbounded spec && (match_len =? length (pending st))%nat in
      let prefix := take (minimum_match_len spec) (pending st) in
      let '(st1, output1, events1) := redact_pending_prefix p match_len (fs_label spec) Medium None in
      if suppress then Return (set_suppression st1 (Some spec_index) prefix, output1, events1)
      else Continue (st1, output1, events1)
  | None =>
  if negb finish && existsb (λ spec, is_incomplete_prefix spec (pending st)) FORMAT_SPECS then Return p
  else Continue (set_pending st (drop 1 (pending st)), output ++ take 1 (pending st), events)
  end end end.

#[global] Arguments drain_step : simpl never.

(** [while !state.pending.is_empty()], for [fuel] iterations *)
Fixpoint drain_loop (fuel : nat) (a : ResponseLeakAnalyzer) (finish : bool) (p : progress)
    : option progress :=
  match pending p.1.1 with
  | [] => Some p
  | _ =>
      match fuel with
      | O => None
      | S fuel' =>
          match drain_step a finish p with
          | Return p' => Some p'
          | Continue p' => drain_loop fuel' a finish p'
          end
      end
  end.

(** [drain_stream_pending]: an iteration takes a byte at least
    ([drain_terminates]). *)
Definition drain_stream_pending (a : ResponseLeakAnalyzer) (finish : bool) (p : progress) : progress :=
  default p (drain_loop (length (pending p.1.1)) a finish p).

#[global] Arguments drain_stream_pending : simpl never.

(** The loop over the bytes in [process_stream_bytes] *)
Definition process_byte (a : ResponseLeakAnalyzer) (p : progress) (byte : ascii) : progress :=
  let '(st, output, events) := p in
  let push st := drain_stream_pending a false (set_pending st (pending st ++ [byte]), output, events) in
  match suppressing st with
  | Some spec_index =>
      if match FORMAT_SPECS !! spec_index with
         | Some spec => continuation_contains spec byte | None => false end
      then p else push (clear_suppression st)
  | None => push st
  end.

#[global] Arguments process_byte : simpl never.

(** ** The partial stage *)

(** [record_partial_event] *)
Definition record_partial_event (events : list LeakEvent) (name : string) : list LeakEvent :=
  record_leak events High (Some name) "vault-secret".

(** The loop over the runs: where it is in [buf], the output, the events, the
    marks that are carried, and whether the last byte was redacted *)
Record emitted := mk_emitted {
  em_cursor : nat;
  em_output : bytes;
  em_events : list LeakEvent;
  em_carried : nat * nat;
  em_last_marked : bool;
}.

(** [&buf[from..to]] *)
Definition slice (buf : bytes) (from to : nat) : bytes := take (to - from) (drop from buf).

Fixpoint emit_runs (a : ResponseLeakAnalyzer) (buf : bytes) (final_len : nat) (in_run : bool)
    (runs : list run) (e : emitted) : emitted :=
  match runs with
  | [] => e
  | (start, stop, index) :: rest =>
      if (final_len <=? start)%nat then e else
      let output := em_output e ++ slice buf (em_cursor e) start in
      let joined := (start =? 0)%nat && in_run in
      emit_runs a buf final_len in_run rest
        (mk_emitted (Nat.min stop final_len)
           (if joined then output else output ++ marker "vault-secret")
           (if joined then em_events e else record_partial_event (em_events e) (vault_name a index))
           (if (final_len <? stop)%nat then (stop - final_len, index)%nat else em_carried e)
           (final_len <=? stop)%nat)
  end.

(** [partial_stage] *)
Definition partial_stage (a : ResponseLeakAnalyzer) (st : StreamingScrubState) (input : bytes)
    (finish : bool) (events : list LeakEvent) : progress :=
  if negb (has_partial_matching a) then (st, input, events) else
  let buf := partial_tail st ++ input in
  let carried := if (0 <? partial_tail_marked st)%nat
                 then [(0, partial_tail_marked st, partial_tail_index st)%nat] else [] in
  let runs := foldl push_run carried (partial_runs a buf) in
  let final_len := if finish then length buf else partial_hold_start a buf in
  if (final_len =? 0)%nat then
    (set_partial st buf (partial_tail_marked st) (partial_tail_index st) (partial_in_run st), [], events)
  else
    let e := emit_runs a buf final_len (partial_in_run st) runs (mk_emitted 0 [] events (0, 0)%nat false) in
    let copied := (em_cursor e <? final_len)%nat in
    let tail := drop final_len buf in
    (set_partial st tail (Nat.min (em_carried e).1 (length tail)) (em_carried e).2
       (if copied then false else em_last_marked e),
     if copied then em_output e ++ slice buf (em_cursor e) final_len else em_output e,
     em_events e).

(** ** The operations *)

(** The first stage of [process_stream_bytes] *)
Definition exact_stage (a : ResponseLeakAnalyzer) (st : StreamingScrubState) (input : bytes)
    (finish : bool) : progress :=
  let '(st1, output, events) := foldl (process_byte a) (st, [], []) input in
  if finish then drain_stream_pending a true (clear_suppression st1, output, events)
  else (st1, output, events).

(** [process_stream_bytes] *)
Definition process_stream_bytes (a : ResponseLeakAnalyzer) (st : StreamingScrubState)
    (input : bytes) (finish : bool) : progress :=
  let '(st1, output, events) := exact_stage a st input finish in
  partial_stage a st1 output finish events.

(** [ResponseScrubber::scrub_stream_chunk] and [finish_stream] *)
Definition scrub_stream_chunk (a : ResponseLeakAnalyzer) (st : StreamingScrubState) (chunk : bytes)
    : progress := process_stream_bytes a st chunk false.

Definition finish_stream (a : ResponseLeakAnalyzer) (st : StreamingScrubState) : bytes * list LeakEvent :=
  let '(_, output, events) := process_stream_bytes a st [] true in (output, events).

(** [ResponseScrubber::stream_buffer_bound] *)
Definition stream_buffer_bound (a : ResponseLeakAnalyzer) : nat :=
  let unmanaged_bound := foldr (λ spec m, Nat.max (minimum_match_len spec) m) 0%nat FORMAT_SPECS in
  let exact_bound := Nat.max (max_managed_value_len a - 1) unmanaged_bound in
  let partial_bound := if has_partial_matching a then (PARTIAL_MIN_RUN - 1)%nat else 0%nat in
  (exact_bound + partial_bound)%nat.

(** A response that arrives in chunks: what the client receives *)
Fixpoint scrub_chunks (a : ResponseLeakAnalyzer) (st : StreamingScrubState) (chunks : list bytes)
    : bytes :=
  match chunks with
  | [] => (finish_stream a st).1
  | chunk :: rest =>
      let '(st1, output, _) := scrub_stream_chunk a st chunk in output ++ scrub_chunks a st1 rest
  end.

Definition scrub_response (a : ResponseLeakAnalyzer) (chunks : list bytes) : bytes :=
  scrub_chunks a new_scrub_state chunks.
