(* ===== verification/ScrubberExact.v ===== *)
(** * The scrubber's exact stage, against a scan of the whole response

    The reference is a scan of a response that is there in full: at each
    position the longest secret, else the format that matches, else a byte that
    is passed on.  The streaming stage writes what the reference writes,
    however the response is cut into chunks; and what it retains is bounded. *)

From S2P Require Import Prelude Bytes Redact Scrubber.

(** ** The reference *)

(** What is redacted at the start of a slice: the marker's text and the length *)
Definition exact_at (a : ResponseLeakAnalyzer) (bs : bytes) : option (string * nat) :=
  match managed_prefix_match a bs with
  | Some (len, _) => Some ("vault-secret", len)
  | None =>
      match find_format 0 FORMAT_SPECS bs with
      | Some (_, spec, len) => Some (fs_label spec, len)
      | None => None
      end
  end.

(** The scan; [skip] bytes of what was redacted are still to be dropped. *)
Fixpoint exact_scan (a : ResponseLeakAnalyzer) (skip : nat) (bs : bytes) : bytes :=
  match bs with
  | [] => []
  | c :: rest =>
      match skip with
      | S k => exact_scan a k rest
      | O =>
          match exact_at a bs with
          | Some (label, len) => marker label ++ exact_scan a (len - 1) rest
          | None => c :: exact_scan a 0 rest
          end
      end
  end.

(** ** Managed values *)

Section exact.
Context (a : ResponseLeakAnalyzer).

(** The secrets that a slice starts with *)
Definition managed_at (bs v : bytes) : Prop :=
  v ≠ [] ∧ v `prefix_of` bs ∧ ∃ name, (v, name) ∈ vault_values a.

Lemma longer_match_fold l best :
  match foldl longer_match best l with
  | Some m => (best = Some m ∨ m ∈ l) ∧
      (∀ m', best = Some m' ∨ m' ∈ l → (m'.1 <= m.1)%nat)
  | None => best = None ∧ l = []
  end.
Proof.
  revert best. induction l as [|m l IH]; intros best; cbn [foldl].
  { destruct best; [|done]. split; [by left|]. intros m' [[= ->]|?%elem_of_nil]; done. }
  specialize (IH (longer_match best m)). destruct (foldl longer_match _ l) as [r|].
  - destruct IH as [Hr Hmax]. unfold longer_match in *. destruct best as [b|].
    + destruct (Nat.leb_spec b.1 m.1).
      * split; [set_solver|]. intros m' [[= <-]|[->|Hin]%elem_of_cons];
          [etrans; [done|]; apply Hmax; by left|apply Hmax; by left|apply Hmax; by right].
      * split; [set_solver|]. intros m' [[= <-]|[->|Hin]%elem_of_cons];
          [apply Hmax; by left|etrans; [|apply Hmax; by left]; lia|apply Hmax; by right].
    + split; [set_solver|]. intros m' [?|[->|Hin]%elem_of_cons];
        [done|apply Hmax; by left|apply Hmax; by right].
  - destruct IH as [Hn _]. unfold longer_match in Hn. repeat case_match; done.
Qed.

Lemma managed_prefix_match_spec bs :
  match managed_prefix_match a bs with
  | Some (len, _) => (∃ v, managed_at bs v ∧ length v = len) ∧
      (∀ v, managed_at bs v → (length v <= len)%nat)
  | None => ∀ v, ¬ managed_at bs v
  end.
Proof.
  unfold managed_prefix_match. pose proof (longer_match_fold (map (λ v, (length v.1, v.2))
    (List.filter (λ v, negb (length v.1 =? 0)%nat && bytes_start_with v.1 bs) (vault_values a)))
    None) as Hf.
  assert (∀ v name, (v, name) ∈ List.filter
    (λ v, negb (length v.1 =? 0)%nat && bytes_start_with v.1 bs) (vault_values a) ↔
    (v, name) ∈ vault_values a ∧ v ≠ [] ∧ v `prefix_of` bs) as Hin.
  { intros v name. rewrite !list_elem_of_In, filter_In. cbn [fst].
    rewrite andb_true_iff, negb_true_iff, Nat.eqb_neq, bytes_start_with_spec.
    assert (length v ≠ 0%nat ↔ v ≠ []) as -> by (destruct v; simpl; naive_solver). done. }
  destruct (foldl longer_match None _) as [[len name]|].
  - destruct Hf as [[?|Hm] Hmax]; [done|]. apply list_elem_of_fmap in Hm as ([v n] & Hm & Hv).
    simplify_eq/=. apply Hin in Hv as (Hv & Hne & Hp). split.
    + exists v. split; [|done]. split_and!; [done..|by eexists].
    + intros v' (Hne' & Hp' & name' & Hv'). apply (Hmax (length v', name')). right.
      apply list_elem_of_fmap. exists (v', name'). split; [done|]. by apply Hin.
  - destruct Hf as [_ Hnil]. intros v (Hne & Hp & name & Hv). apply map_eq_nil in Hnil.
    assert ((v, name) ∈ @nil (bytes * string)) as Hx; [|by apply elem_of_nil in Hx].
    rewrite <- Hnil. by apply Hin.
Qed.

Lemma is_managed_prefix_spec p :
  is_managed_prefix a p = true ↔
  p ≠ [] ∧ ∃ v name, (v, name) ∈ vault_values a ∧ p `prefix_of` v ∧ (length p < length v)%nat.
Proof.
  unfold is_managed_prefix. destruct p as [|c p]; [split; [done|by intros [? _]]|].
  rewrite existsb_exists. setoid_rewrite <- list_elem_of_In.
  setoid_rewrite andb_true_iff. setoid_rewrite Nat.ltb_lt. setoid_rewrite bytes_start_with_spec.
  split.
  - intros ([v name] & Hin & Hl & Hp). split; [done|]. eauto.
  - intros (_ & v & name & Hin & Hp & Hl). by exists (v, name).
Qed.

Lemma managed_exact_name_spec p name :
  managed_exact_name a p = Some name → ∃ n, (p, n) ∈ vault_values a.
Proof.
  unfold managed_exact_name. destruct (List.find _ _) as [[v n]|] eqn:E; [|done].
  apply find_some in E as [Hin Heq]. apply bool_decide_eq_true in Heq. simpl in Heq. subst v.
  intros _. exists n. by apply list_elem_of_In.
Qed.

(** A slice that is no proper prefix of a secret starts with the same secrets
    whatever follows it. *)
Lemma managed_at_app p r v :
  p ≠ [] → is_managed_prefix a p = false → managed_at (p ++ r) v ↔ managed_at p v.
Proof.
  intros Hne Hp. unfold managed_at. split; intros (Hv & Hpre & name & Hin).
  - split_and!; [done| |by eexists]. eapply prefix_app_cut; [done|].
    destruct (decide (length v <= length p)%nat); [done|]. apply not_true_iff_false in Hp.
    contradict Hp. apply is_managed_prefix_spec. split; [done|]. exists v, name.
    split_and!; [done| |lia]. eapply prefix_shorter; [|done|lia]. by eexists.
  - split_and!; [done|by apply prefix_weaken|by eexists].
Qed.

(** The length of the longest secret at the start of a slice *)
Definition managed_len (bs : bytes) : option nat := fst <$> managed_prefix_match a bs.

Lemma managed_len_Some bs len :
  managed_len bs = Some len ↔
  (∃ v, managed_at bs v ∧ length v = len) ∧ ∀ v, managed_at bs v → (length v <= len)%nat.
Proof.
  unfold managed_len. pose proof (managed_prefix_match_spec bs) as Hs.
  destruct (managed_prefix_match a bs) as [[n name]|]; cbn.
  - split; [by intros [= <-]|]. intros [(v & Hv & <-) Hmax]. destruct Hs as [(v' & Hv' & <-) Hmax'].
    f_equal. apply Nat.le_antisymm; auto.
  - split; [done|]. intros [(v & Hv & _) _]. by destruct (Hs v).
Qed.

Lemma managed_len_None bs : managed_len bs = None ↔ ∀ v, ¬ managed_at bs v.
Proof.
  unfold managed_len. pose proof (managed_prefix_match_spec bs) as Hs.
  destruct (managed_prefix_match a bs) as [[n name]|]; cbn; [|done].
  split; [done|]. intros Hno. destruct Hs as [(v & Hv & _) _]. by destruct (Hno v).
Qed.

Lemma managed_len_app p r :
  p ≠ [] → is_managed_prefix a p = false → managed_len (p ++ r) = managed_len p.
Proof.
  intros Hne Hp. destruct (managed_len p) as [len|] eqn:E.
  - rewrite managed_len_Some in E |- *. by setoid_rewrite managed_at_app.
  - rewrite managed_len_None in E |- *. intros v. by rewrite managed_at_app.
Qed.

Lemma managed_len_exact p name :
  p ≠ [] → managed_exact_name a p = Some name → managed_len p = Some (length p).
Proof.
  intros Hne [n Hin]%managed_exact_name_spec. apply managed_len_Some. split.
  - exists p. split; [|done]. split_and!; [done|done|by eexists].
  - intros v (_ & Hp & _). by apply prefix_length.
Qed.

Lemma managed_len_bounds bs len : managed_len bs = Some len → (0 < len <= length bs)%nat.
Proof.
  intros [(v & (Hne & Hp & _) & <-) _]%managed_len_Some. apply prefix_length in Hp.
  destruct v; [done|]. simpl in *. lia.
Qed.
End exact.

(** ** Formats *)

(** No prefix of the catalog starts another: at most one format can match. *)
Lemma catalog_unique i j s s' c :
  FORMAT_SPECS !! i = Some s → FORMAT_SPECS !! j = Some s' →
  fs_prefix s `prefix_of` c → fs_prefix s' `prefix_of` c → i = j.
Proof.
  intros Hi Hj Hs Hs'.
  assert (forallb (λ i, forallb (λ j, match FORMAT_SPECS !! i, FORMAT_SPECS !! j with
    | Some s, Some s' => negb (bytes_start_with (fs_prefix s) (fs_prefix s')) || (i =? j)%nat
    | _, _ => true end) (seq 0 12)) (seq 0 12) = true) as Hall by (vm_compute; reflexivity).
  assert (∀ i j s s', FORMAT_SPECS !! i = Some s → FORMAT_SPECS !! j = Some s' →
    fs_prefix s `prefix_of` fs_prefix s' → i = j) as Hinc.
  { clear -Hall. intros i j s s' Hi Hj Hp. rewrite forallb_forall in Hall.
    pose proof (lookup_lt_Some _ _ _ Hi) as Hli. pose proof (lookup_lt_Some _ _ _ Hj) as Hlj.
    specialize (Hall i ltac:(apply in_seq; simpl in *; lia)). rewrite forallb_forall in Hall.
    specialize (Hall j ltac:(apply in_seq; simpl in *; lia)). rewrite Hi, Hj in Hall.
    apply bytes_start_with_spec in Hp. rewrite Hp in Hall. by apply Nat.eqb_eq. }
  destruct (decide (length (fs_prefix s) <= length (fs_prefix s'))%nat).
  - eapply Hinc; [done..|]. by eapply prefix_shorter.
  - symmetry. eapply Hinc; [done..|]. eapply prefix_shorter; [done..|lia].
Qed.

Lemma complete_prefix_starts s c n : complete_prefix_len s c = Some n → fs_prefix s `prefix_of` c.
Proof.
  rewrite complete_prefix_len_tail. destruct (bytes_start_with _ c) eqn:E; [|done].
  by apply bytes_start_with_spec in E.
Qed.

Lemma find_format_from i specs c :
  match find_format i specs c with
  | Some (j, s, n) => (i <= j)%nat ∧ specs !! (j - i)%nat = Some s ∧ complete_prefix_len s c = Some n
  | None => ∀ s, s ∈ specs → complete_prefix_len s c = None
  end.
Proof.
  revert i. induction specs as [|s specs IH]; intros i; cbn [find_format].
  { intros s Hs. by apply elem_of_nil in Hs. }
  destruct (complete_prefix_len s c) as [n|] eqn:E; [by rewrite Nat.sub_diag|].
  specialize (IH (S i)). destruct (find_format (S i) specs c) as [[[j s'] n]|].
  - destruct IH as (Hj & Hl & Hc). replace (j - i)%nat with (S (j - S i)) by lia.
    split_and!; [lia|done|done].
  - intros s' [->|Hin]%elem_of_cons; [done|by apply IH].
Qed.

(** The catalog's order does not matter. *)
Lemma find_format_Some c i s n :
  find_format 0 FORMAT_SPECS c = Some (i, s, n) ↔
  FORMAT_SPECS !! i = Some s ∧ complete_prefix_len s c = Some n.
Proof.
  pose proof (find_format_from 0 FORMAT_SPECS c) as Hf. split.
  - intros E. rewrite E in Hf. rewrite Nat.sub_0_r in Hf. tauto.
  - intros [Hi Hc]. destruct (find_format 0 FORMAT_SPECS c) as [[[j s'] n']|].
    + rewrite Nat.sub_0_r in Hf. destruct Hf as (_ & Hj & Hc').
      assert (j = i) by exact (catalog_unique _ _ _ _ _ Hj Hi (complete_prefix_starts _ _ _ Hc')
        (complete_prefix_starts _ _ _ Hc)).
      subst j. congruence.
    + rewrite (Hf s) in Hc by (by eapply list_elem_of_lookup_2). done.
Qed.

Lemma find_format_None c :
  find_format 0 FORMAT_SPECS c = None ↔ ∀ s, s ∈ FORMAT_SPECS → complete_prefix_len s c = None.
Proof.
  pose proof (find_format_from 0 FORMAT_SPECS c) as Hf. split; [intros E; by rewrite E in Hf|].
  intros Hno. destruct (find_format 0 FORMAT_SPECS c) as [[[j s] n]|]; [|done].
  destruct Hf as (_ & Hj & Hc). rewrite (Hno s) in Hc by (by eapply list_elem_of_lookup_2). done.
Qed.

(** A slice that can no longer become a credential stays none. *)
Lemma find_format_app_None p r :
  find_format 0 FORMAT_SPECS p = None →
  existsb (λ s, is_incomplete_prefix s p) FORMAT_SPECS = false →
  find_format 0 FORMAT_SPECS (p ++ r) = None.
Proof.
  rewrite !find_format_None. intros Hn Hi s Hs.
  destruct (complete_prefix_len s (p ++ r)) as [n|] eqn:E; [|done].
  apply not_true_iff_false in Hi. contradict Hi. apply existsb_exists. exists s.
  split; [by apply list_elem_of_In|].
  apply complete_prefix_Some in E as (Hl & Hc & _). specialize (Hn s Hs).
  destruct (decide (n <= length p)%nat) as [Hle|Hle].
  { exfalso. eapply (complete_prefix_None s p); [done| |exact Hc]. rewrite take_app_le by done.
    apply prefix_take. }
  apply (incomplete_prefix_sound s p (take (n - length p) r)); [by apply catalog_positive|done|].
  rewrite take_app, take_ge in Hc by lia. done.
Qed.

(** How a match grows with what follows: by the bytes that continue it. *)
Lemma complete_prefix_app s p r n :
  complete_prefix_len s p = Some n →
  complete_prefix_len s (p ++ r) =
    if is_unbounded s && (n =? length p)%nat
    then Some (n + length (take_while (continuation_contains s) r))%nat else Some n.
Proof.
  rewrite !complete_prefix_len_tail. destruct (bytes_start_with _ p) eqn:Ep; [|done].
  apply bytes_start_with_spec in Ep as [suffix ->]. rewrite <- app_assoc.
  assert (bytes_start_with (fs_prefix s) (fs_prefix s ++ suffix ++ r) = true) as ->
    by (apply bytes_start_with_spec; by eexists).
  rewrite !drop_app_length, length_app. unfold is_unbounded, continuation_contains.
  destruct (fs_shape s) as [class min|class len|]; cbn [tail_length andb].
  - destruct (Nat.leb_spec min (length (take_while (class_contains class) suffix))); [|done].
    intros [= <-]. pose proof (take_while_length (class_contains class) suffix) as Hl.
    destruct (Nat.eqb_spec (length (fs_prefix s) + length (take_while (class_contains class) suffix))
      (length (fs_prefix s) + length suffix)).
    + rewrite take_while_app_all by lia. rewrite length_app.
      destruct (Nat.leb_spec min (length suffix + length (take_while (class_contains class) r))); [|lia].
      cbn. f_equal. change (λ byte, class_contains class byte) with (class_contains class). lia.
    + rewrite take_while_app_short by lia.
      by destruct (Nat.leb_spec min (length (take_while (class_contains class) suffix))); [|lia].
  - destruct (Nat.leb_spec len (length suffix)); [|done].
    rewrite take_app_le by done. destruct (all_in class (take len suffix)); [|done].
    rewrite length_app. by destruct (Nat.leb_spec len (length suffix + length r)); [|lia].
  - destruct (sendgrid_complete suffix) eqn:E; [|done].
    assert (sendgrid_complete (suffix ++ r) = true) as ->; [|done].
    rewrite sendgrid_complete_spec in E |- *. destruct E as [Hl Ht].
    rewrite length_app, take_app_le by lia. split; [lia|done].
Qed.

(** ** The scan *)

Section scan.
Context (a : ResponseLeakAnalyzer).

Lemma exact_scan_skip skip bs : exact_scan a skip bs = exact_scan a 0 (drop skip bs).
Proof. revert skip. induction bs as [|c bs IH]; intros [|skip]; try done. apply IH. Qed.

Lemma exact_scan_redact bs label len :
  exact_at a bs = Some (label, len) → (0 < len <= length bs)%nat →
  exact_scan a 0 bs = marker label ++ exact_scan a 0 (drop len bs).
Proof.
  intros Hat Hl. destruct bs as [|c bs]; [simpl in Hl; lia|]. cbn [exact_scan]. rewrite Hat.
  rewrite exact_scan_skip. by replace len with (S (len - 1)) at 2 by lia.
Qed.

Lemma exact_scan_literal c bs :
  exact_at a (c :: bs) = None → exact_scan a 0 (c :: bs) = c :: exact_scan a 0 bs.
Proof. intros Hat. cbn [exact_scan]. by rewrite Hat. Qed.

Lemma exact_at_managed bs len :
  managed_len a bs = Some len → exact_at a bs = Some ("vault-secret", len).
Proof.
  unfold managed_len, exact_at. by destruct (managed_prefix_match a bs) as [[n name]|]; [intros [= <-]|].
Qed.

Lemma exact_at_format bs :
  managed_len a bs = None →
  exact_at a bs =
    option_map (λ m : nat * FormatSpec * nat, (fs_label m.1.2, m.2)) (find_format 0 FORMAT_SPECS bs).
Proof.
  unfold managed_len, exact_at. destruct (managed_prefix_match a bs) as [[n name]|]; [done|].
  intros _. by destruct (find_format 0 FORMAT_SPECS bs) as [[[i s] n]|].
Qed.

Lemma find_format_bounds c i s n :
  find_format 0 FORMAT_SPECS c = Some (i, s, n) → (0 < n <= length c)%nat.
Proof.
  intros [Hi Hc]%find_format_Some. eapply complete_prefix_positive; [|done].
  by apply catalog_positive, list_elem_of_lookup_2 with i.
Qed.

(** What is still to be written for a stream in a given state, whatever comes *)
Definition resume (st : StreamingScrubState) (rest : bytes) : bytes :=
  match suppressing st with
  | Some i =>
      match FORMAT_SPECS !! i with
      | Some s => exact_scan a 0 (drop_while (continuation_contains s) rest)
      | None => exact_scan a 0 rest
      end
  | None => exact_scan a 0 (pending st ++ rest)
  end.

(** Nothing but the exact stage's own fields changes. *)
Definition same_partial (st st' : StreamingScrubState) : Prop :=
  partial_tail st' = partial_tail st ∧ partial_tail_marked st' = partial_tail_marked st ∧
  partial_tail_index st' = partial_tail_index st ∧ partial_in_run st' = partial_in_run st.

(** Why bytes are retained between calls *)
Definition held (st : StreamingScrubState) : Prop :=
  match suppressing st with
  | Some i => pending st = [] ∧ ∃ s, FORMAT_SPECS !! i = Some s ∧
      length (suppression_prefix st) = minimum_match_len s
  | None => suppression_prefix st = [] ∧
      (pending st = [] ∨ is_managed_prefix a (pending st) = true ∨
       ∃ s, s ∈ FORMAT_SPECS ∧ is_incomplete_prefix s (pending st) = true)
  end.

(** One progress after another: [o] is what was written in between. *)
Definition advances (finish : bool) (st : StreamingScrubState) (output : bytes) (p' : progress) : Prop :=
  ∃ o, p'.1.2 = output ++ o ∧ same_partial st p'.1.1 ∧
    ∀ rest, (finish = true → rest = []) → exact_scan a 0 (pending st ++ rest) = o ++ resume p'.1.1 rest.

(** A credential without an end is redacted, and its continuation suppressed. *)
Lemma drain_suppress finish st output events i s :
  negb finish = true → is_unbounded s = true →
  find_format 0 FORMAT_SPECS (pending st) = Some (i, s, length (pending st)) →
  (∀ rest, (finish = true → rest = []) → managed_len a (pending st ++ rest) = None) →
  let st' := set_suppression (set_pending st (drop (length (pending st)) (pending st)))
    (Some i) (take (minimum_match_len s) (pending st)) in
  finish = false ∧ held st' ∧
  advances finish st output (st', output ++ marker (fs_label s), events).
Proof.
  intros Hf Hu Hfind Hnone. apply find_format_Some in Hfind as Hc. destruct Hc as [Hi Hc].
  apply negb_true_iff in Hf. subst finish. split; [done|]. split.
  - unfold held. simpl. rewrite drop_all. split; [done|]. exists s. split; [done|].
    rewrite length_take. apply complete_prefix_Some in Hc as (_ & Hc%minimum_match_spec & _).
    rewrite take_ge in Hc by done. lia.
  - exists (marker (fs_label s)). split_and!; [done|done..|]. intros rest _. unfold resume. simpl.
    rewrite Hi. pose proof (complete_prefix_app _ _ rest _ Hc) as Happ.
    rewrite Hu, Nat.eqb_refl in Happ. cbn [andb] in Happ.
    rewrite (exact_scan_redact _ (fs_label s)
      (length (pending st) + length (take_while (continuation_contains s) rest))).
    + f_equal. rewrite drop_app_add, drop_while_length. done.
    + rewrite exact_at_format by by apply Hnone.
      assert (find_format 0 FORMAT_SPECS (pending st ++ rest) = Some (i, s,
        length (pending st) + length (take_while (continuation_contains s) rest))%nat) as ->; [|done].
      by apply find_format_Some.
    + apply find_format_bounds in Hfind. rewrite length_app.
      pose proof (take_while_length (continuation_contains s) rest). lia.
Qed.

Lemma drain_step_spec finish st output events :
  pending st ≠ [] → suppressing st = None → suppression_prefix st = [] →
  match drain_step a finish (st, output, events) with
  | Return p' => finish = false ∧ held p'.1.1 ∧ advances finish st output p'
  | Continue p' => suppressing p'.1.1 = None ∧ suppression_prefix p'.1.1 = [] ∧
      (length (pending p'.1.1) < length (pending st))%nat ∧ advances finish st output p'
  end.
Proof.
  intros Hne Hs Hsp.
  assert (∀ len label sev name,
    (0 < len <= length (pending st))%nat →
    (∀ rest, (finish = true → rest = []) →
       exact_at a (pending st ++ rest) = Some (label, len)) →
    let p' := redact_pending_prefix (st, output, events) len label sev name in
    suppressing p'.1.1 = None ∧ suppression_prefix p'.1.1 = [] ∧
    (length (pending p'.1.1) < length (pending st))%nat ∧ advances finish st output p') as Hredact.
  { intros len label sev name Hl Hat. simpl. rewrite length_drop. split_and!; [done|done|lia|].
    exists (marker label). split_and!; [done|done..|]. intros rest Hrest. unfold resume. simpl.
    rewrite Hs. rewrite (exact_scan_redact _ label len); [|by apply Hat|rewrite length_app; lia].
    by rewrite drop_app_le by lia. }
  assert (finish = false → held st → match Return (st, output, events) with
    | Return p' => finish = false ∧ held p'.1.1 ∧ advances finish st output p'
    | Continue _ => True end) as Hhold.
  { intros Hf Hh. split_and!; [done|done|]. exists []. rewrite app_nil_r.
    split_and!; [done|done|]. intros rest _. unfold resume. simpl. by rewrite Hs. }
  unfold drain_step.
  assert (∀ rest, (finish = true → rest = []) → negb finish && is_managed_prefix a (pending st) = false →
    managed_len a (pending st ++ rest) = managed_len a (pending st)) as Hmanaged.
  { intros rest Hrest Hm. destruct finish; [by rewrite Hrest, app_nil_r by done|].
    by apply managed_len_app. }
  destruct (managed_exact_name a (pending st)) as [name|] eqn:Eexact;
    (destruct (negb finish && is_managed_prefix a (pending st)) eqn:Em;
      [apply Hhold; [by destruct finish|]; unfold held; rewrite Hs; split; [done|];
       right; left; by destruct finish|]).
  { apply Hredact; [destruct (pending st); simpl; [done|lia]|]. intros rest Hrest.
    apply exact_at_managed. rewrite Hmanaged by done. by eapply managed_len_exact. }
  destruct (managed_prefix_match a (pending st)) as [[len name]|] eqn:Eprefix.
  { assert (managed_len a (pending st) = Some len) as El by (unfold managed_len; by rewrite Eprefix).
    apply Hredact; [by eapply managed_len_bounds|]. intros rest Hrest.
    apply exact_at_managed. by rewrite Hmanaged by done. }
  assert (∀ rest, (finish = true → rest = []) → managed_len a (pending st ++ rest) = None) as Hnone.
  { intros rest Hrest. rewrite Hmanaged by done. unfold managed_len. by rewrite Eprefix. }
  destruct (find_format 0 FORMAT_SPECS (pending st)) as [[[i s] n]|] eqn:Eformat.
  - pose proof (find_format_bounds _ _ _ _ Eformat) as Hn.
    destruct (negb finish && is_unbounded s && (n =? length (pending st))%nat) eqn:Esup.
    + apply andb_true_iff in Esup as [Esup ->%Nat.eqb_eq]. apply andb_true_iff in Esup as [Ef Eu].
      by apply drain_suppress.
    + apply Hredact; [done|]. intros rest Hrest. rewrite exact_at_format by by apply Hnone.
      assert (find_format 0 FORMAT_SPECS (pending st ++ rest) = Some (i, s, n)) as ->; [|done].
      rewrite find_format_Some in Eformat |- *. destruct Eformat as [Hi Hc]. split; [done|].
      destruct finish; [by rewrite Hrest, app_nil_r|].
      rewrite (complete_prefix_app _ _ _ _ Hc). cbn [negb andb] in Esup. by rewrite Esup.
  - destruct (negb finish && existsb (λ spec, is_incomplete_prefix spec (pending st)) FORMAT_SPECS) eqn:Ei.
    + apply andb_true_iff in Ei as [Ef (s & Hin & Hs')%existsb_exists].
      apply Hhold; [by destruct finish|]. unfold held. rewrite Hs. split; [done|]. right; right.
      exists s. split; [by apply list_elem_of_In|done].
    + destruct (pending st) as [|c p] eqn:Ep; [done|]. simpl. rewrite drop_0, take_0.
      split_and!; [done|done|lia|]. exists [c]. split_and!; [done|done..|]. intros rest Hrest. unfold resume. simpl. rewrite Hs.
      rewrite Ep. cbn [app]. rewrite exact_scan_literal; [done|].
      rewrite app_comm_cons, exact_at_format by by apply Hnone.
      destruct finish; [by rewrite Hrest, app_nil_r, Eformat|]. by rewrite find_format_app_None.
Qed.

Lemma same_partial_trans st st1 st2 :
  same_partial st st1 → same_partial st1 st2 → same_partial st st2.
Proof. unfold same_partial. intuition congruence. Qed.

Lemma advances_trans finish st output p1 p2 :
  suppressing p1.1.1 = None → advances finish st output p1 →
  advances finish p1.1.1 p1.1.2 p2 → advances finish st output p2.
Proof.
  intros Hs (o1 & Ho1 & Hp1 & H1) (o2 & Ho2 & Hp2 & H2). exists (o1 ++ o2). split_and!.
  - by rewrite Ho2, Ho1, app_assoc.
  - by eapply same_partial_trans.
  - intros rest Hr. rewrite H1, <- app_assoc by done. f_equal. unfold resume at 1. rewrite Hs. auto.
Qed.

(** The loop ends: an iteration takes a byte of what is pending at least. *)
Lemma drain_loop_spec fuel finish p :
  (length (pending p.1.1) <= fuel)%nat → suppressing p.1.1 = None → suppression_prefix p.1.1 = [] →
  ∃ p', drain_loop fuel a finish p = Some p' ∧ held p'.1.1 ∧
    (finish = true → suppressing p'.1.1 = None ∧ pending p'.1.1 = []) ∧
    advances finish p.1.1 p.1.2 p'.
Proof.
  revert p. induction fuel as [|fuel IH]; intros [[st output] events] Hl Hs Hsp; simpl in Hl, Hs, Hsp |- *.
  all: destruct (decide (pending st = [])) as [Ep|Ep];
    [rewrite Ep; eexists; split; [reflexivity|]; simpl; split;
       [unfold held; rewrite Hs; auto|split; [done|exists []; rewrite app_nil_r; split_and!; try done;
         intros rest _; unfold resume; simpl; by rewrite Hs]]|].
  - destruct (pending st); simpl in Hl; [done|lia].
  - pose proof (drain_step_spec finish st output events Ep Hs Hsp) as Hstep.
    destruct (pending st) as [|c p] eqn:Epc; [done|]. rewrite <- Epc in *.
    destruct (drain_step a finish (st, output, events)) as [p1|p1].
    + destruct Hstep as (Hs1 & Hsp1 & Hlt & Hadv).
      destruct (IH p1) as (p' & Hloop & Hheld & Hfin & Hadv'); [lia|done..|].
      exists p'. split_and!; [done..|]. eapply advances_trans; [exact Hs1|exact Hadv|exact Hadv'].
    + destruct Hstep as (-> & Hheld & Hadv). by exists p1.
Qed.

Lemma drain_spec finish st output events :
  suppressing st = None → suppression_prefix st = [] →
  let p' := drain_stream_pending a finish (st, output, events) in
  held p'.1.1 ∧ (finish = true → suppressing p'.1.1 = None ∧ pending p'.1.1 = []) ∧
  advances finish st output p'.
Proof.
  intros Hs Hsp. unfold drain_stream_pending.
  destruct (drain_loop_spec (length (pending st)) finish (st, output, events)) as (p' & Hloop & Hr);
    [done..|]. cbn [fst] in *. rewrite Hloop. exact Hr.
Qed.

(** ** Bytes and chunks *)

(** From one progress to the next, over the bytes [input] *)
Definition consumes (st : StreamingScrubState) (input output : bytes) (p' : progress) : Prop :=
  ∃ o, p'.1.2 = output ++ o ∧ same_partial st p'.1.1 ∧
    ∀ rest, resume st (input ++ rest) = o ++ resume p'.1.1 rest.

Lemma process_byte_spec st output events byte :
  held st → let p' := process_byte a (st, output, events) byte in
  held p'.1.1 ∧ consumes st [byte] output p'.
Proof.
  intros Hheld. unfold process_byte, consumes.
  assert (∀ st0, same_partial st st0 → suppressing st0 = None → suppression_prefix st0 = [] →
    (∀ rest, resume st (byte :: rest) = exact_scan a 0 ((pending st0 ++ [byte]) ++ rest)) →
    let p' := drain_stream_pending a false (set_pending st0 (pending st0 ++ [byte]), output, events) in
    held p'.1.1 ∧ consumes st [byte] output p') as Hpush.
  { intros st0 Hp0 Hs0 Hsp0 Hr0.
    destruct (drain_spec false (set_pending st0 (pending st0 ++ [byte])) output events)
      as (Hh & _ & o & Ho & Hp & Hr); [done..|]. split; [done|]. exists o. split_and!; [done| |].
    - eapply same_partial_trans; [exact Hp0|exact Hp].
    - intros rest. cbn [app]. rewrite Hr0. by apply Hr. }
  pose proof Hheld as Hheld'. unfold held in Hheld'. destruct (suppressing st) as [i|] eqn:Es.
  - destruct Hheld' as (Hpend & s & Hi & Hl). rewrite Hi.
    destruct (continuation_contains s byte) eqn:Ec.
    + split; [done|]. exists []. rewrite app_nil_r. split_and!; [done|done|].
      intros rest. unfold resume. simpl. rewrite Es, Hi. simpl. by rewrite Ec.
    + apply Hpush; [done..|]. intros rest. unfold resume. rewrite Es, Hi. simpl.
      by rewrite Ec, Hpend.
  - apply Hpush; [done|done|tauto|]. intros rest. unfold resume. rewrite Es. by rewrite <- app_assoc.
Qed.

Lemma process_bytes_spec p input :
  held p.1.1 → let p' := foldl (process_byte a) p input in
  held p'.1.1 ∧ consumes p.1.1 input p.1.2 p'.
Proof.
  revert p. induction input as [|byte input IH]; intros [[st output] events] Hheld; simpl in Hheld |- *.
  { split; [done|]. exists []. by rewrite app_nil_r. }
  pose proof (process_byte_spec st output events byte Hheld) as [Hh (o & Ho & Hp & Hr)].
  destruct (IH _ Hh) as [Hh' (o' & Ho' & Hp' & Hr')]. split; [exact Hh'|]. exists (o ++ o').
  split_and!.
  - by rewrite Ho', Ho, app_assoc.
  - by eapply same_partial_trans.
  - intros rest. specialize (Hr (input ++ rest)). cbn [app] in Hr |- *.
    rewrite Hr, <- app_assoc. f_equal. apply Hr'.
Qed.

Lemma exact_stage_spec st input finish :
  held st → let p' := exact_stage a st input finish in
  held p'.1.1 ∧ same_partial st p'.1.1 ∧ (finish = true → resume p'.1.1 [] = []) ∧
  ∀ rest, (finish = true → rest = []) → resume st (input ++ rest) = p'.1.2 ++ resume p'.1.1 rest.
Proof.
  intros Hheld. unfold exact_stage.
  destruct (process_bytes_spec (st, [], []) input Hheld) as [Hh (o & Ho & Hp & Hr)].
  destruct (foldl (process_byte a) (st, [], []) input) as [[st1 output] events].
  cbn [fst snd app] in Hh, Ho, Hp, Hr. subst output.
  destruct finish; [|split_and!; [done|done|done|by intros rest _]].
  destruct (drain_spec true (clear_suppression st1) o events) as (Hd & Hfin & o' & Ho' & Hp' & Hr');
    [done..|]. destruct (Hfin eq_refl) as [Hs Hpend]. split_and!; [done| | |].
  - by eapply same_partial_trans.
  - intros _. unfold resume. by rewrite Hs, Hpend.
  - intros rest Hrest. rewrite Hrest by done. rewrite Hr, Ho', <- app_assoc. f_equal.
    rewrite <- (Hr' []) by done. unfold held in Hh. unfold resume, clear_suppression. simpl.
    destruct (suppressing st1) as [i|]; [|done]. destruct Hh as (-> & s & -> & _). done.
Qed.
End scan.
