(* ===== verification/ScrubberPartial.v ===== *)
(** * The scrubber's partial stage, against marks on the whole output

    The reference marks every byte that lies in a twelve-byte window of a
    secret and replaces each stretch of marked bytes by one marker.  The stage
    finds the windows with a rolling hash and a bit filter, merges them into
    runs, and carries them from chunk to chunk. *)

From S2P Require Import Prelude Bytes Redact Scrubber ScrubberExact.

(** ** The reference *)

(** Replace the stretches of marked bytes; [pos] is the position of the first
    byte, [in_run] whether the one before it was marked. *)
Fixpoint blot (mark : nat → bool) (in_run : bool) (pos : nat) (bs : bytes) : bytes :=
  match bs with
  | [] => []
  | c :: rest =>
      if mark pos
      then (if in_run then [] else marker "vault-secret") ++ blot mark true (S pos) rest
      else c :: blot mark false (S pos) rest
  end.

(** Whether a slice starts with a window of a secret *)
Definition window_here (a : ResponseLeakAnalyzer) (bs : bytes) : bool :=
  match verify_partial_window (vault_values a) (take PARTIAL_MIN_RUN bs) with
  | Some _ => true
  | None => false
  end.

(** Whether the byte at [p] is in a window *)
Definition in_window (a : ResponseLeakAnalyzer) (bs : bytes) (p : nat) : bool :=
  existsb (λ s, window_here a (drop s bs))
    (seq (p - (PARTIAL_MIN_RUN - 1)) (S p - (p - (PARTIAL_MIN_RUN - 1)))).

Definition redact_windows (a : ResponseLeakAnalyzer) (bs : bytes) : bytes :=
  blot (in_window a bs) false 0 bs.

(** ** Blots *)

(** The mark before position [pos + n] *)
Definition last_mark (mark : nat → bool) (in_run : bool) (pos n : nat) : bool :=
  match n with O => in_run | S k => mark (pos + k)%nat end.

Lemma last_mark_S mark in_run pos n :
  last_mark mark in_run pos (S n) = last_mark mark (mark pos) (S pos) n.
Proof. destruct n; simpl; f_equal; lia. Qed.

Lemma blot_app mark in_run pos xs ys :
  blot mark in_run pos (xs ++ ys) =
  blot mark in_run pos xs ++ blot mark (last_mark mark in_run pos (length xs)) (pos + length xs) ys.
Proof.
  revert in_run pos. induction xs as [|x xs IH]; intros in_run pos.
  { cbn. by rewrite Nat.add_0_r. }
  cbn [app blot length]. rewrite last_mark_S.
  destruct (mark pos); rewrite IH, Nat.add_succ_comm; [by rewrite <- app_assoc|done].
Qed.

Lemma blot_ext mark mark' in_run pos bs :
  (∀ p, (pos <= p < pos + length bs)%nat → mark p = mark' p) →
  blot mark in_run pos bs = blot mark' in_run pos bs.
Proof.
  revert in_run pos. induction bs as [|c bs IH]; intros in_run pos Hm; [done|].
  cbn [blot length] in *. rewrite Hm by lia. by destruct (mark' pos); rewrite IH by (intros; apply Hm; lia).
Qed.

Lemma blot_shift mark in_run k pos bs :
  blot mark in_run (k + pos) bs = blot (λ p, mark (k + p)%nat) in_run pos bs.
Proof.
  revert in_run pos. induction bs as [|c bs IH]; intros in_run pos; [done|].
  cbn [blot]. rewrite plus_n_Sm. by destruct (mark (k + pos)%nat); rewrite IH.
Qed.

Lemma blot_clear mark in_run pos bs :
  (∀ p, (pos <= p < pos + length bs)%nat → mark p = false) → blot mark in_run pos bs = bs.
Proof.
  revert in_run pos. induction bs as [|c bs IH]; intros in_run pos Hm; [done|].
  cbn [blot length] in *. rewrite Hm by lia. f_equal. apply IH. intros. apply Hm. lia.
Qed.

Lemma blot_full mark in_run pos bs :
  (∀ p, (pos <= p < pos + length bs)%nat → mark p = true) → bs ≠ [] →
  blot mark in_run pos bs = if in_run then [] else marker "vault-secret".
Proof.
  assert (∀ pos bs, (∀ p, (pos <= p < pos + length bs)%nat → mark p = true) →
    blot mark true pos bs = []) as Hrun.
  { clear. intros pos bs. revert pos. induction bs as [|c bs IH]; intros pos Hm; [done|].
    cbn [blot length] in *. rewrite Hm by lia. apply IH. intros. apply Hm. lia. }
  intros Hm Hne. destruct bs as [|c bs]; [done|]. cbn [blot length] in *. rewrite Hm by lia.
  rewrite Hrun by (intros; apply Hm; lia). by rewrite app_nil_r.
Qed.

(** ** Runs *)

(** The runs of a list start at [b] at the earliest, in order and apart. *)
Fixpoint separated (b : nat) (runs : list run) : Prop :=
  match runs with
  | [] => True
  | r :: rest => (b <= r.1.1 < r.1.2)%nat ∧ separated (S r.1.2) rest
  end.

Definition in_runs (runs : list run) (p : nat) : Prop := ∃ r, r ∈ runs ∧ (r.1.1 <= p < r.1.2)%nat.

(** The runs are the merged intervals [G]. *)
Record covers (runs : list run) (G : nat → nat → Prop) : Prop := {
  covers_separated : separated 0 runs;
  covers_into : ∀ s e, G s e → ∃ r, r ∈ runs ∧ (r.1.1 <= s)%nat ∧ (e <= r.1.2)%nat;
  covers_from : ∀ p, in_runs runs p → ∃ s e, G s e ∧ (s <= p < e)%nat;
}.

Lemma covers_in_runs runs G p :
  covers runs G → in_runs runs p ↔ ∃ s e, G s e ∧ (s <= p < e)%nat.
Proof.
  intros [_ Hi Hf]. split; [apply Hf|]. intros (s & e & HG & Hp).
  destruct (Hi s e HG) as (r & Hr & H1 & H2). exists r. split; [done|lia].
Qed.

Lemma separated_start b runs r : separated b runs → r ∈ runs → (b <= r.1.1 < r.1.2)%nat.
Proof.
  revert b. induction runs as [|r' runs IH]; intros b; [by intros _ ?%elem_of_nil|].
  intros [Hr Hs] [->|Hin]%elem_of_cons; [done|]. specialize (IH _ Hs Hin). lia.
Qed.

Lemma push_run_step r1 r2 runs r : push_run (r1 :: r2 :: runs) r = r1 :: push_run (r2 :: runs) r.
Proof. by destruct r as [[s e] i], r1 as [[s1 e1] i1]. Qed.

Lemma push_run_single s1 e1 i1 s e i :
  push_run [(s1, e1, i1)] (s, e, i) =
  if (s <=? e1)%nat then [(s1, Nat.max e1 e, i1)] else [(s1, e1, i1); (s, e, i)].
Proof. done. Qed.

Section push.
Context (s e i : nat) (Hlt : (s < e)%nat).

Lemma push_separated b runs :
  separated b runs → (b <= s)%nat → (∀ r, r ∈ runs → (r.1.1 <= s)%nat) →
  separated b (push_run runs (s, e, i)).
Proof.
  revert b. induction runs as [|[[s1 e1] i1] runs IH]; intros b Hsep Hb Hr; [simpl; lia|].
  destruct runs as [|r2 runs].
  - rewrite push_run_single. simpl in Hsep. destruct (Nat.leb_spec s e1); simpl; lia.
  - rewrite push_run_step. destruct Hsep as [H1 Hsep]. split; [done|]. cbn [fst snd] in *.
    apply IH; [done| |intros r Hin; apply Hr; by right].
    assert (r2.1.1 <= s)%nat by (apply Hr; right; left). simpl in Hsep. lia.
Qed.

Lemma push_starts runs r :
  r ∈ push_run runs (s, e, i) → (∀ r, r ∈ runs → (r.1.1 <= s)%nat) → (r.1.1 <= s)%nat.
Proof.
  induction runs as [|[[s1 e1] i1] runs IH]; intros Hin Hr; [by apply list_elem_of_singleton in Hin as ->|].
  assert (s1 <= s)%nat by (apply (Hr (s1, e1, i1)); left). destruct runs as [|r2 runs].
  - rewrite push_run_single in Hin. destruct (Nat.leb_spec s e1).
    + apply list_elem_of_singleton in Hin as ->. done.
    + apply elem_of_cons in Hin as [-> | ->%list_elem_of_singleton]; done.
  - rewrite push_run_step in Hin. apply elem_of_cons in Hin as [->|Hin]; [done|].
    apply IH; [done|]. intros. apply Hr. by right.
Qed.

Lemma push_new runs :
  (∀ r, r ∈ runs → (r.1.1 <= s)%nat) →
  ∃ r, r ∈ push_run runs (s, e, i) ∧ (r.1.1 <= s)%nat ∧ (e <= r.1.2)%nat.
Proof.
  induction runs as [|[[s1 e1] i1] runs IH]; intros Hr.
  { exists (s, e, i). split; [by left|done]. }
  assert (s1 <= s)%nat by (apply (Hr (s1, e1, i1)); left). destruct runs as [|r2 runs].
  - rewrite push_run_single. destruct (Nat.leb_spec s e1).
    + exists (s1, Nat.max e1 e, i1). split; [by left|simpl; lia].
    + exists (s, e, i). split; [right; by left|done].
  - destruct IH as (r & Hin & Hb); [intros; apply Hr; by right|]. exists r.
    rewrite push_run_step. split; [by right|done].
Qed.

Lemma push_old runs r :
  r ∈ runs → ∃ r', r' ∈ push_run runs (s, e, i) ∧ (r'.1.1 <= r.1.1)%nat ∧ (r.1.2 <= r'.1.2)%nat.
Proof.
  induction runs as [|[[s1 e1] i1] runs IH]; intros Hin; [by apply elem_of_nil in Hin|].
  destruct runs as [|r2 runs].
  - apply list_elem_of_singleton in Hin as ->. rewrite push_run_single.
    destruct (Nat.leb_spec s e1); eexists; (split; [by left|]); simpl; lia.
  - rewrite push_run_step. apply elem_of_cons in Hin as [->|Hin].
    + eexists. split; [by left|done].
    + destruct (IH Hin) as (r' & Hr' & Hb). exists r'. split; [by right|done].
Qed.

Lemma push_from runs p :
  in_runs (push_run runs (s, e, i)) p → in_runs runs p ∨ (s <= p < e)%nat.
Proof.
  unfold in_runs. induction runs as [|[[s1 e1] i1] runs IH].
  { intros (r & ->%list_elem_of_singleton & Hp). by right. }
  destruct runs as [|r2 runs].
  - rewrite push_run_single. destruct (Nat.leb_spec s e1).
    + intros (r & ->%list_elem_of_singleton & Hp). simpl in Hp.
      destruct (decide (p < e1)%nat); [left; eexists; split; [by left|simpl; lia]|right; lia].
    + intros (r & [-> | ->%list_elem_of_singleton]%elem_of_cons & Hp); [left|by right].
      eexists. split; [by left|done].
  - rewrite push_run_step. intros (r & [->|Hin]%elem_of_cons & Hp).
    + left. eexists. split; [by left|done].
    + destruct IH as [(r' & Hr' & Hp')|]; [by exists r| |by right]. left. exists r'.
      split; [by right|done].
Qed.

Lemma push_covers runs G :
  covers runs G → (∀ r, r ∈ runs → (r.1.1 <= s)%nat) →
  covers (push_run runs (s, e, i)) (λ s' e', G s' e' ∨ (s' = s ∧ e' = e)).
Proof.
  intros [Hsep Hi Hf] Hr. split.
  - apply push_separated; [done|lia|done].
  - intros s' e' [HG|[-> ->]]; [|by apply push_new]. destruct (Hi s' e' HG) as (r & Hin & H1 & H2).
    destruct (push_old _ _ Hin) as (r' & Hin' & H1' & H2'). exists r'. split; [done|lia].
  - intros p [Hp|Hp]%push_from; [destruct (Hf p Hp) as (s' & e' & HG & Hb)|]; eauto 10.
Qed.
End push.

Lemma covers_iff runs G G' : (∀ s e, G s e ↔ G' s e) → covers runs G → covers runs G'.
Proof.
  intros HG [Hsep Hi Hf]. split; [done| |].
  - intros s e Hs. by apply Hi, HG.
  - intros p Hp. destruct (Hf p Hp) as (s & e & Hs & Hb). exists s, e. by rewrite <- HG.
Qed.

(** Merging runs into others that start before them *)
Lemma merge_covers runs rs b G :
  covers runs G → (∀ r, r ∈ runs → (r.1.1 <= b)%nat) → separated b rs →
  covers (foldl push_run runs rs) (λ s e, G s e ∨ ∃ i, (s, e, i) ∈ rs).
Proof.
  revert runs b G. induction rs as [|[[s e] i] rs IH]; intros runs b G Hc Hb Hsep; cbn [foldl].
  { eapply covers_iff; [|done]. intros. split; [by left|]. by intros [?|[i ?%elem_of_nil]]. }
  destruct Hsep as [Hs Hsep]. cbn [fst snd] in *.
  assert (∀ r, r ∈ runs → (r.1.1 <= s)%nat) as Hrs by (intros r Hin; specialize (Hb r Hin); lia).
  eapply covers_iff; [|apply (IH (push_run runs (s, e, i)) (S e)); [apply push_covers; [lia|done|done]| |done]].
  - intros s' e'. cbn beta. setoid_rewrite elem_of_cons. split.
    + intros [[?|[-> ->]]|[j Hj]]; [by left|right; exists i; by left|right; exists j; by right].
    + intros [?|[j [[= -> -> ->]|Hj]]]; [left; by left|left; by right|right; by exists j].
  - intros r Hin. pose proof (push_starts s e i runs r Hin Hrs). lia.
Qed.

(** ** Windows *)

Lemma partial_windows_length v w : w ∈ partial_windows v → length w = PARTIAL_MIN_RUN.
Proof.
  unfold partial_windows. intros (start & -> & Hin)%list_elem_of_fmap.
  unfold partial_window_starts in Hin. apply elem_of_seq in Hin.
  unfold window_at. rewrite length_take, length_drop.
  destruct (is_token_like v && (PARTIAL_MIN_RUN <=? length v)%nat) eqn:E; [|lia].
  apply andb_true_iff in E as [_ E%Nat.leb_le]. lia.
Qed.

Lemma verify_partial_window_spec values w :
  match verify_partial_window values w with
  | Some _ => ∃ v name, (v, name) ∈ values ∧ w ∈ partial_windows v
  | None => ∀ v name, (v, name) ∈ values → w ∉ partial_windows v
  end.
Proof.
  induction values as [|[v name] values IH]; cbn [verify_partial_window fst].
  { intros v name Hin. by apply elem_of_nil in Hin. }
  assert (existsb (bytes_eqb w) (partial_windows v) = true ↔ w ∈ partial_windows v) as Hw.
  { rewrite existsb_exists. setoid_rewrite <- list_elem_of_In. unfold bytes_eqb.
    setoid_rewrite bool_decide_eq_true. naive_solver. }
  destruct (existsb _ _).
  - exists v, name. split; [left|by apply Hw].
  - assert (w ∉ partial_windows v) by (rewrite <- Hw; done).
    destruct (verify_partial_window values w); cbn [option_map].
    + destruct IH as (v' & n' & Hin & Hv). exists v', n'. split; [by right|done].
    + intros v' n' [[= -> ->]|Hin]%elem_of_cons; [done|by eapply IH].
Qed.

Lemma window_here_spec a bs :
  window_here a bs = true ↔
  ∃ v name, (v, name) ∈ vault_values a ∧ take PARTIAL_MIN_RUN bs ∈ partial_windows v.
Proof.
  unfold window_here. pose proof (verify_partial_window_spec (vault_values a) (take PARTIAL_MIN_RUN bs)) as Hs.
  destruct (verify_partial_window _ _); [done|]. split; [done|].
  intros (v & name & Hin & Hw). by destruct (Hs v name Hin).
Qed.

Lemma window_here_length a bs : window_here a bs = true → (PARTIAL_MIN_RUN <= length bs)%nat.
Proof.
  intros (v & name & _ & Hw%partial_windows_length)%window_here_spec.
  rewrite length_take in Hw. lia.
Qed.

Lemma window_here_app a bs rest :
  (PARTIAL_MIN_RUN <= length bs)%nat → window_here a (bs ++ rest) = window_here a bs.
Proof. intros Hl. unfold window_here. by rewrite take_app_le. Qed.

Lemma in_window_spec a bs p :
  in_window a bs p = true ↔
  ∃ s, (s <= p < s + PARTIAL_MIN_RUN)%nat ∧ window_here a (drop s bs) = true.
Proof.
  unfold in_window. rewrite existsb_exists. unfold PARTIAL_MIN_RUN.
  split; intros (s & Hs & Hw); exists s; (split; [|done]); rewrite in_seq in *; lia.
Qed.

Lemma starts_window_spec a suffix :
  starts_window a suffix = true ↔
  ∃ v name w, (v, name) ∈ vault_values a ∧ w ∈ partial_windows v ∧ suffix `prefix_of` w.
Proof.
  unfold starts_window. rewrite existsb_exists. setoid_rewrite <- list_elem_of_In.
  setoid_rewrite existsb_exists. setoid_rewrite <- list_elem_of_In.
  setoid_rewrite bytes_start_with_spec. split.
  - intros ([v name] & Hv & w & Hw & Hp). eauto 10.
  - intros (v & name & w & Hv & Hw & Hp). exists (v, name). eauto.
Qed.

(** A window that starts in [bs] and ends after it makes the stage wait. *)
Lemma window_starts a bs rest :
  window_here a (bs ++ rest) = true → (length bs <= PARTIAL_MIN_RUN)%nat → starts_window a bs = true.
Proof.
  intros (v & name & Hin & Hw)%window_here_spec Hl. apply starts_window_spec.
  exists v, name, (take PARTIAL_MIN_RUN (bs ++ rest)). split_and!; [done..|].
  rewrite take_app, take_ge by done. by eexists.
Qed.

(** ** The rolling hash *)

Section hash.
Open Scope Z_scope.

Definition two64 : Z := 2 ^ 64.

Notation "a ≡64 b" := (eqm two64 a b) (at level 70).

Lemma wrapping_add_eqm a b : Z.of_N (wrapping_add_u64 a b) ≡64 Z.of_N a + Z.of_N b.
Proof.
  unfold wrapping_add_u64, eqm. rewrite N2Z.inj_mod, N2Z.inj_add.
  change (Z.of_N (u64_max + 1)) with two64. apply Zmod_mod.
Qed.

Lemma wrapping_mul_eqm a b : Z.of_N (wrapping_mul_u64 a b) ≡64 Z.of_N a * Z.of_N b.
Proof.
  unfold wrapping_mul_u64, eqm. rewrite N2Z.inj_mod, N2Z.inj_mul.
  change (Z.of_N (u64_max + 1)) with two64. apply Zmod_mod.
Qed.

Lemma wrapping_sub_eqm a b :
  (b <= u64_max)%N → Z.of_N (wrapping_sub_u64 a b) ≡64 Z.of_N a - Z.of_N b.
Proof.
  intros Hb. unfold wrapping_sub_u64, eqm. rewrite N2Z.inj_mod, N2Z.inj_add, N2Z.inj_sub by lia.
  change (Z.of_N (u64_max + 1)) with two64. rewrite Zmod_mod.
  replace (Z.of_N a + (two64 - Z.of_N b)) with ((Z.of_N a - Z.of_N b) + 1 * two64) by lia.
  apply Z_mod_plus_full.
Qed.

Lemma wrapping_lt a : (a mod (u64_max + 1) <= u64_max)%N.
Proof. pose proof (N.mod_lt a (u64_max + 1)). lia. Qed.

Definition base : Z := Z.of_N WINDOW_HASH_BASE.

(** One step of [window_hash] *)
Definition hash_step (h : N) (b : ascii) : N :=
  wrapping_add_u64 (wrapping_mul_u64 h WINDOW_HASH_BASE) (byte_term b).

Lemma hash_step_eqm h b : Z.of_N (hash_step h b) ≡64 Z.of_N h * base + Z.of_N (byte_term b).
Proof.
  unfold hash_step. etrans; [apply wrapping_add_eqm|]. apply Zplus_eqm; [|done].
  apply wrapping_mul_eqm.
Qed.

(** The hash as a polynomial in the base *)
Lemma hash_from_eqm h w :
  Z.of_N (foldl hash_step h w) ≡64 Z.of_N h * base ^ Z.of_nat (length w) + Z.of_N (window_hash w).
Proof.
  unfold window_hash. fold hash_step. change (λ (h : N) (b : ascii), _) with hash_step.
  revert h. induction w as [|b w IH] using rev_ind; intros h.
  { cbn. unfold eqm. f_equal. lia. }
  rewrite !foldl_app, length_app. cbn [foldl length].
  etrans; [apply hash_step_eqm|]. etrans; [apply Zplus_eqm; [apply Zmult_eqm; [apply IH|done]|done]|].
  symmetry. etrans; [apply Zplus_eqm; [done|apply hash_step_eqm]|].
  unfold eqm. f_equal. rewrite Nat2Z.inj_add, Z.pow_add_r by lia. simpl (Z.of_nat 1). lia.
Qed.

Lemma hash_top_eqm : Z.of_N WINDOW_HASH_TOP ≡64 base ^ 11.
Proof. vm_compute. reflexivity. Qed.

Lemma eqm_N_eq a b :
  (a <= u64_max)%N → (b <= u64_max)%N → Z.of_N a ≡64 Z.of_N b → a = b.
Proof.
  intros Ha Hb. unfold eqm. unfold two64, u64_max in *. rewrite !Z.mod_small by lia. lia.
Qed.

(** Rolling the hash by a byte gives the hash of the next window. *)
Lemma roll_hash_window x w y :
  length w = (PARTIAL_MIN_RUN - 1)%nat →
  roll_hash (window_hash (x :: w)) x y = window_hash (w ++ [y]).
Proof.
  intros Hl. apply eqm_N_eq; [apply wrapping_lt| |].
  { unfold window_hash. rewrite foldl_app. apply wrapping_lt. }
  unfold roll_hash. etrans; [apply wrapping_add_eqm|].
  etrans; [apply Zplus_eqm; [etrans; [apply wrapping_mul_eqm|apply Zmult_eqm; [apply wrapping_sub_eqm, wrapping_lt|done]]|done]|].
  assert (Z.of_N (window_hash (x :: w)) ≡64 Z.of_N (byte_term x) * base ^ 11 + Z.of_N (window_hash w)) as Hxw.
  { change (window_hash (x :: w)) with (foldl hash_step (hash_step 0 x) w).
    etrans; [apply hash_from_eqm|]. rewrite Hl. apply Zplus_eqm; [|done]. apply Zmult_eqm; [|done].
    etrans; [apply hash_step_eqm|]. unfold eqm. f_equal. }
  etrans; [apply Zplus_eqm; [apply Zmult_eqm; [apply Zminus_eqm; [exact Hxw|
    etrans; [apply wrapping_mul_eqm|apply Zmult_eqm; [done|apply hash_top_eqm]]]|done]|done]|].
  symmetry. unfold window_hash at 1. rewrite foldl_app. cbn [foldl].
  etrans; [apply hash_step_eqm|]. unfold eqm. f_equal. fold (window_hash w). unfold base. lia.
Qed.
End hash.

(** ** The bit filter *)

Lemma land_bit_spec w k : negb (N.land w (N.shiftl 1 k) =? 0)%N = N.testbit w k.
Proof.
  rewrite N.shiftl_1_l. destruct (N.testbit w k) eqn:E.
  - apply negb_true_iff, N.eqb_neq. intros H0. assert (N.testbit (N.land w (2 ^ k)) k = true) as Ht.
    { by rewrite N.land_spec, E, N.pow2_bits_true. }
    by rewrite H0, N.bits_0 in Ht.
  - apply negb_false_iff, N.eqb_eq. apply N.bits_inj. intros j. rewrite N.land_spec, N.bits_0.
    destruct (decide (j = k)) as [->|Hj]; [by rewrite E|].
    by rewrite N.pow2_bits_false, andb_false_r by done.
Qed.

Lemma test_bit_spec filter b :
  test_bit filter b = true ↔
  ∃ w, filter !! N.to_nat (b / 64) = Some w ∧ N.testbit w (b mod 64) = true.
Proof.
  unfold test_bit. destruct (filter !! _) as [w|]; [rewrite land_bit_spec|]; naive_solver.
Qed.

Lemma test_set_bit filter b b' :
  (N.to_nat (b / 64) < length filter)%nat →
  test_bit filter b' = true ∨ b' = b → test_bit (set_bit filter b) b' = true.
Proof.
  intros Hl Hb. apply test_bit_spec. unfold set_bit.
  destruct (decide (b' / 64 = b / 64)%N) as [Heq|Hne].
  - rewrite Heq, list_lookup_alter_eq. destruct (filter !! N.to_nat (b / 64)) as [w|] eqn:Ew.
    + cbn. eexists. split; [done|]. rewrite N.lor_spec. apply orb_true_iff.
      destruct Hb as [(w' & Hw' & Ht)%test_bit_spec| ->]; [left|right].
      * rewrite Heq, Ew in Hw'. injection Hw' as ->. done.
      * by rewrite N.shiftl_1_l, N.pow2_bits_true.
    + apply lookup_ge_None in Ew. lia.
  - rewrite list_lookup_alter_ne by lia. destruct Hb as [Hb| ->]; [|done]. by apply test_bit_spec.
Qed.

Lemma partial_bit_bound h : (N.to_nat (partial_bit h / 64) < PARTIAL_FILTER_WORDS)%nat.
Proof.
  unfold partial_bit. rewrite N.shiftr_div_pow2.
  assert (wrapping_mul_u64 h 0x9E3779B97F4A7C15 / 2 ^ 48 < 65536)%N as Hb.
  { apply N.Div0.div_lt_upper_bound. unfold wrapping_mul_u64.
    pose proof (N.mod_lt (h * 0x9E3779B97F4A7C15) (u64_max + 1) ltac:(done)). unfold u64_max in *. lia. }
  unfold PARTIAL_FILTER_WORDS.
  assert (wrapping_mul_u64 h 0x9E3779B97F4A7C15 / 2 ^ 48 / 64 < 1024)%N by (apply N.Div0.div_lt_upper_bound; lia).
  lia.
Qed.

Lemma fold_bits filter bits b :
  length filter = PARTIAL_FILTER_WORDS → Forall (λ b, N.to_nat (b / 64) < PARTIAL_FILTER_WORDS)%nat bits →
  test_bit filter b = true ∨ b ∈ bits → test_bit (foldl set_bit filter bits) b = true.
Proof.
  revert filter. induction bits as [|b1 bits IH]; intros filter Hl Hbits Hb; cbn [foldl].
  { destruct Hb as [|?%elem_of_nil]; done. }
  apply Forall_cons in Hbits as [H1 Hbits]. rewrite <- Hl in H1.
  apply IH; [unfold set_bit; by rewrite length_alter|done|].
  destruct Hb as [Hb|[->|Hb]%elem_of_cons]; [left; by apply test_set_bit; [|left]|
    left; by apply test_set_bit; [|right]|by right].
Qed.

Lemma filter_bits_spec values b :
  b ∈ filter_bits values ↔
  ∃ v name w, (v, name) ∈ values ∧ w ∈ partial_windows v ∧ b = partial_bit (window_hash w).
Proof.
  unfold filter_bits. rewrite list_elem_of_fmap. setoid_rewrite list_elem_of_bind.
  split.
  - intros (w & -> & [v name] & Hw & Hv). eauto 10.
  - intros (v & name & w & Hv & Hw & ->). exists w. split; [done|]. by exists (v, name).
Qed.

(** The filter lets every window pass; without one there are no windows. *)
Lemma with_partial_filter_spec values bs :
  let a := with_partial_filter values in
  vault_values a = values ∧
  match partial_filter a with
  | Some filter => window_here a bs = true →
      test_bit filter (partial_bit (window_hash (take PARTIAL_MIN_RUN bs))) = true
  | None => window_here a bs = false
  end.
Proof.
  intros a. split; [done|]. unfold a at 1. cbn [partial_filter with_partial_filter].
  assert (window_here a bs = true →
    partial_bit (window_hash (take PARTIAL_MIN_RUN bs)) ∈ filter_bits values) as Hin.
  { intros (v & name & Hv & Hw)%window_here_spec. apply filter_bits_spec. eauto 10. }
  assert (Forall (λ b, N.to_nat (b / 64) < PARTIAL_FILTER_WORDS)%nat (filter_bits values)) as Hb.
  { apply Forall_forall. intros b (v & name & w & _ & _ & ->)%filter_bits_spec.
    apply partial_bit_bound. }
  unfold with_partial_filter. cbn [partial_filter].
  destruct (filter_bits values) as [|b bits].
  - destruct (window_here a bs); [|done]. by specialize (Hin eq_refl); apply elem_of_nil in Hin.
  - intros Hw. apply fold_bits; [by rewrite length_replicate|done|right; auto].
Qed.

(** ** The runs of a slice *)

(** The windows of a slice that start before [n], as intervals *)
Definition windows_before (a : ResponseLeakAnalyzer) (bs : bytes) (n s e : nat) : Prop :=
  (s < n)%nat ∧ window_here a (drop s bs) = true ∧ e = (s + PARTIAL_MIN_RUN)%nat.

Lemma partial_runs_loop_spec values filter input start rest runs :
  partial_filter (with_partial_filter values) = Some filter →
  rest = drop start input → (PARTIAL_MIN_RUN <= length rest)%nat →
  covers runs (windows_before (with_partial_filter values) input start) →
  (∀ r, r ∈ runs → (r.1.1 <= start)%nat) →
  covers
    (partial_runs_loop values filter start (window_hash (take PARTIAL_MIN_RUN rest)) rest runs)
    (windows_before (with_partial_filter values) input (length input)).
Proof.
  intros Hfilter. revert start runs. induction rest as [|x rest IH]; intros start runs Hrest Hl Hc Hr;
    [by unfold PARTIAL_MIN_RUN in Hl; simpl in Hl; lia|].
  cbn [partial_runs_loop].
  set (a := with_partial_filter values) in *. set (w := take PARTIAL_MIN_RUN (x :: rest)) in *.
  set (runs1 := if test_bit filter (partial_bit (window_hash w))
    then match verify_partial_window values w with
         | Some index => push_run runs (start, start + PARTIAL_MIN_RUN, index)%nat
         | None => runs end else runs).
  assert (covers runs1 (windows_before a input (S start)) ∧ ∀ r, r ∈ runs1 → (r.1.1 <= start)%nat) as [Hc1 Hr1].
  { assert (window_here a (drop start input) = true ↔
      match verify_partial_window values w with Some _ => true | None => false end = true) as Hwin by by rewrite <- Hrest.
    destruct (with_partial_filter_spec values (drop start input)) as [_ Hf]. fold a in Hf.
    rewrite Hfilter, <- Hrest in Hf. fold w in Hf. rewrite <- Hrest in Hwin.
    destruct (window_here a (x :: rest)) eqn:Ew.
    - unfold runs1. rewrite Hf by done. destruct (verify_partial_window values w) as [index|]; [|naive_solver].
      split; [|intros r Hin; by eapply push_starts].
      eapply covers_iff; [|apply push_covers; [unfold PARTIAL_MIN_RUN; lia|exact Hc|done]].
      intros s e. unfold windows_before. cbn beta. split.
      + intros [(H1 & H2 & H3)|[-> ->]]; [split_and!; [lia|done|done]|].
        split_and!; [lia|by rewrite <- Hrest|done].
      + intros (H1 & H2 & ->). destruct (decide (s = start)) as [->|]; [by right|left].
        split_and!; [lia|done|done].
    - assert (runs1 = runs) as ->.
      { unfold runs1. destruct (test_bit _ _); [|done].
        destruct (verify_partial_window values w); [naive_solver|done]. }
      split; [|done]. eapply covers_iff; [|exact Hc]. intros s e. unfold windows_before.
      split; intros (H1 & H2 & H3); (split_and!; [|done|done]); [lia|].
      destruct (decide (s = start)) as [->|]; [|lia]. rewrite <- Hrest in H2. congruence. }
  assert (rest = drop (S start) input) as Hrest'.
  { rewrite <- Nat.add_1_r, <- drop_drop, <- Hrest. done. }
  destruct ((x :: rest) !! PARTIAL_MIN_RUN) as [y|] eqn:Ey.
  - assert (PARTIAL_MIN_RUN <= length rest)%nat as Hl'.
    { apply lookup_lt_Some in Ey. simpl in Ey. lia. }
    assert (roll_hash (window_hash w) x y = window_hash (take PARTIAL_MIN_RUN rest)) as ->.
    { unfold w. change (take PARTIAL_MIN_RUN (x :: rest)) with (x :: take (PARTIAL_MIN_RUN - 1) rest).
      change (rest !! (PARTIAL_MIN_RUN - 1)%nat = Some y) in Ey.
      rewrite roll_hash_window by (rewrite length_take; lia). f_equal.
      rewrite <- take_S_r by done. done. }
    apply IH; [done|done|done|]. intros r Hin. specialize (Hr1 r Hin). lia.
  - eapply covers_iff; [|exact Hc1]. intros s e. unfold windows_before.
    apply lookup_ge_None in Ey. assert (length (drop start input) = length (x :: rest)) as Hlen by by rewrite Hrest.
    rewrite length_drop in Hlen. simpl in Hlen, Ey, Hl.
    split; intros (H1 & H2 & H3); (split_and!; [|done|done]); [lia|].
    apply window_here_length in H2. rewrite length_drop in H2. lia.
Qed.

Lemma partial_runs_spec values bs :
  let a := with_partial_filter values in
  covers (partial_runs a bs) (windows_before a bs (length bs)).
Proof.
  intros a. unfold partial_runs.
  assert ((∀ s, window_here a (drop s bs) = false) → covers [] (windows_before a bs (length bs))) as Hnone.
  { intros Hno. split; [done| |].
    - intros s e (_ & Hw & _). by rewrite Hno in Hw.
    - intros p (r & Hin & _). by apply elem_of_nil in Hin. }
  destruct (partial_filter a) as [filter|] eqn:Ef.
  - destruct (Nat.ltb_spec (length bs) PARTIAL_MIN_RUN) as [Hl|Hl].
    + apply Hnone. intros s. apply not_true_iff_false. intros Hw%window_here_length.
      rewrite length_drop in Hw. lia.
    + apply partial_runs_loop_spec; [done|done|done| |].
      * split; [done| |].
        -- intros s e (Hs & _). lia.
        -- intros p (r & Hin & _). by apply elem_of_nil in Hin.
      * intros r Hin. by apply elem_of_nil in Hin.
  - apply Hnone. intros s. destruct (with_partial_filter_spec values (drop s bs)) as [_ Hs].
    fold a in Hs. by rewrite Ef in Hs.
Qed.

(** ** Writing the runs *)

Lemma in_runs_cons r runs p : in_runs (r :: runs) p ↔ (r.1.1 <= p < r.1.2)%nat ∨ in_runs runs p.
Proof. unfold in_runs. setoid_rewrite elem_of_cons. naive_solver. Qed.

Lemma separated_outside b runs p : separated b runs → (p < b)%nat → ¬ in_runs runs p.
Proof. intros Hs Hp (r & Hr & Hpr). pose proof (separated_start _ _ _ Hs Hr). lia. Qed.

Lemma separated_weaken b b' runs : separated b runs → (b' <= b)%nat → separated b' runs.
Proof. destruct runs as [|r runs]; [done|]. intros [H1 H2] Hb. split; [lia|done]. Qed.

Lemma slice_app (buf : bytes) n m : (n <= m)%nat → take n buf ++ slice buf n m = take m buf.
Proof.
  intros Hn. unfold slice. rewrite <- (take_drop n buf) at 3.
  rewrite (take_app (take n buf)). rewrite take_take, length_take.
  destruct (decide (n <= length buf)%nat).
  - by rewrite Nat.min_r, Nat.min_l by lia.
  - rewrite !(drop_ge buf) by lia. rewrite !take_nil, !app_nil_r. f_equal; lia.
Qed.

Lemma slice_length (buf : bytes) n m : (m <= length buf)%nat → length (slice buf n m) = (m - n)%nat.
Proof. intros Hm. unfold slice. rewrite length_take, length_drop. lia. Qed.

Section emit.
Context (a : ResponseLeakAnalyzer) (buf : bytes) (final_len : nat) (in_run : bool).
Context (all : list run) (mark : nat → bool).
Context (Hfinal : (final_len <= length buf)%nat) (Hmark : ∀ p, mark p = true ↔ in_runs all p).

(** What has been written stands for the bytes before the cursor; [runs] are
    the runs behind it, [written] the others. *)
Record emitting (written runs : list run) (e : emitted) : Prop := {
  emit_split : all = written ++ runs;
  emit_cursor : (em_cursor e <= final_len)%nat;
  emit_output : em_output e = blot mark in_run 0 (take (em_cursor e) buf);
  emit_runs_left : separated match em_cursor e with O => 0 | S n => S (S n) end runs;
  emit_marks : ∀ p, (em_cursor e <= p)%nat → (p < final_len)%nat → mark p = true ↔ in_runs runs p;
  emit_last : em_cursor e = final_len → (0 < final_len)%nat →
    em_last_marked e = true ∧ mark (final_len - 1) = true;
  emit_carried_max : ∀ r, r ∈ written → (r.1.1 < final_len)%nat ∧ (r.1.2 <= final_len + (em_carried e).1)%nat;
  emit_carried : (em_carried e).1 = 0%nat ∨
    em_cursor e = final_len ∧ ∃ r, r ∈ written ∧ r.1.2 = (final_len + (em_carried e).1)%nat;
}.

(** Bytes that no run reaches are copied. *)
Lemma emit_copy written runs e m :
  emitting written runs e → (em_cursor e <= m <= final_len)%nat →
  (∀ r, r ∈ runs → (m <= r.1.1)%nat) →
  em_output e ++ slice buf (em_cursor e) m = blot mark in_run 0 (take m buf) ∧
  ((em_cursor e < m)%nat → mark (m - 1) = false).
Proof.
  intros [_ _ Hout _ Hmarks _ _ _] Hm Hruns.
  assert (∀ p, (em_cursor e <= p < m)%nat → mark p = false) as Hclear.
  { intros p Hp. apply not_true_iff_false. rewrite Hmarks by lia. intros (r & Hr & Hpr).
    specialize (Hruns r Hr). lia. }
  split; [|intros; apply Hclear; lia]. rewrite <- (slice_app buf (em_cursor e) m) by lia.
  rewrite blot_app, <- Hout. f_equal. symmetry. apply blot_clear. intros p Hp.
  rewrite slice_length in Hp by lia. rewrite length_take in Hp. apply Hclear. lia.
Qed.

Lemma emit_step written s stop i runs e :
  emitting written ((s, stop, i) :: runs) e → (s < final_len)%nat →
  let output := em_output e ++ slice buf (em_cursor e) s in
  let joined := (s =? 0)%nat && in_run in
  emitting (written ++ [(s, stop, i)]) runs
    (mk_emitted (Nat.min stop final_len)
       (if joined then output else output ++ marker "vault-secret")
       (if joined then em_events e else record_partial_event (em_events e) (vault_name a i))
       (if (final_len <? stop)%nat then (stop - final_len, i)%nat else em_carried e)
       (final_len <=? stop)%nat).
Proof.
  intros He Hs output joined. pose proof He as [Hall Hcur Hout Hleft Hmarks Hlast Hmax Hcar].
  assert (em_cursor e <= s < stop)%nat as Hss.
  { destruct Hleft as [Hl _]. simpl in Hl. destruct (em_cursor e); lia. }
  assert (separated (S stop) runs) as Hleft' by (destruct Hleft as [_ Hl]; exact Hl).
  assert ((em_carried e).1 = 0%nat) as Hcar0.
  { destruct Hcar as [|[Hc _]]; [done|]. destruct Hleft as [Hl _]. simpl in Hl.
    destruct (em_cursor e); lia. }
  assert (∀ p, (s <= p < stop)%nat → mark p = true) as Hfull.
  { intros p Hp. rewrite Hmark, Hall. exists (s, stop, i). rewrite elem_of_app, elem_of_cons. auto. }
  destruct (emit_copy _ _ _ s He) as [Hcopy Hprev]; [lia| |].
  { intros r [->|Hin]%elem_of_cons; [done|]. pose proof (separated_start _ _ _ Hleft' Hin). lia. }
  split; cbn [em_cursor em_output em_carried em_last_marked].
  - by rewrite Hall, <- app_assoc.
  - lia.
  - rewrite <- (slice_app buf s (Nat.min stop final_len)) by lia. rewrite blot_app.
    unfold output. rewrite Hcopy. rewrite length_take, Nat.min_l by lia.
    rewrite (blot_full _ _ _ (slice buf s _)); [|intros p Hp; rewrite slice_length in Hp by lia; apply Hfull; lia|].
    2: { intros Hnil. apply (f_equal length) in Hnil. rewrite slice_length in Hnil by lia. simpl in Hnil. lia. }
    unfold joined. destruct s as [|s']; cbn [Nat.eqb andb last_mark Nat.add].
    + by destruct in_run; rewrite ?app_nil_r.
    + assert (em_cursor e < S s')%nat as Hlt.
      { destruct Hleft as [Hl _]. simpl in Hl. destruct (em_cursor e); lia. }
      specialize (Hprev Hlt). simpl in Hprev. rewrite Nat.sub_0_r in Hprev. by rewrite Hprev.
  - destruct (Nat.min stop final_len) eqn:E; [lia|]. rewrite <- E.
    apply (separated_weaken (S stop)); [done|lia].
  - intros p Hp1 Hp2. rewrite Hmarks, in_runs_cons by lia. simpl. split; [|by right].
    intros [?|?]; [lia|done].
  - intros Hf H0. split; [apply Nat.leb_le; lia|]. apply Hfull. lia.
  - intros r [Hin| ->%list_elem_of_singleton]%elem_of_app.
    + destruct (Hmax r Hin) as [H1 H2]. split; [done|]. destruct (Nat.ltb_spec final_len stop); simpl; lia.
    + simpl. split; [done|]. destruct (Nat.ltb_spec final_len stop); simpl; lia.
  - destruct (Nat.ltb_spec final_len stop); [right|by left]. split; [lia|].
    exists (s, stop, i). split; [apply elem_of_app; right; by left|simpl; lia].
Qed.

Lemma emit_runs_spec written runs e :
  emitting written runs e →
  ∃ written' rest, emitting written' rest (emit_runs a buf final_len in_run runs e) ∧
    ∀ r, r ∈ rest → (final_len <= r.1.1)%nat.
Proof.
  revert written e. induction runs as [|[[s stop] i] runs IH]; intros written e He; cbn [emit_runs].
  { exists written, []. split; [done|]. intros r Hr. by apply elem_of_nil in Hr. }
  destruct (Nat.leb_spec final_len s) as [Hs|Hs].
  - exists written, ((s, stop, i) :: runs). split; [done|].
    pose proof (emit_runs_left _ _ _ He) as [_ Hl]. cbn [fst snd] in Hl.
    intros r [->|Hin]%elem_of_cons; [done|]. pose proof (separated_start _ _ _ Hl Hin).
    pose proof (emit_runs_left _ _ _ He) as [Hss _]. simpl in Hss. lia.
  - eapply IH. by apply emit_step.
Qed.

(** The output, the flag and the marks that are carried *)
Lemma emit_all events :
  separated 0 all → (0 < final_len)%nat →
  let e := emit_runs a buf final_len in_run all (mk_emitted 0 [] events (0, 0)%nat false) in
  let copied := (em_cursor e <? final_len)%nat in
  (if copied then em_output e ++ slice buf (em_cursor e) final_len else em_output e)
    = blot mark in_run 0 (take final_len buf) ∧
  (if copied then false else em_last_marked e) = mark (final_len - 1) ∧
  (∀ r, r ∈ all → (r.1.1 < final_len)%nat → (r.1.2 <= final_len + (em_carried e).1)%nat) ∧
  ((em_carried e).1 = 0%nat ∨ ∃ r, r ∈ all ∧ (r.1.1 < final_len)%nat ∧ r.1.2 = (final_len + (em_carried e).1)%nat).
Proof.
  intros Hsep H0 e copied.
  assert (emitting [] all (mk_emitted 0 [] events (0, 0)%nat false)) as Hinit.
  { split; simpl; try done; try lia; intros r Hr; by apply elem_of_nil in Hr. }
  destruct (emit_runs_spec _ _ _ Hinit) as (written & rest & He & Hrest). fold e in He.
  pose proof He as [Hall Hcur Hout Hleft Hmarks Hlast Hmax Hcar].
  destruct (emit_copy _ _ _ final_len He ltac:(lia) Hrest) as [Hcopy Hprev].
  split_and!.
  - unfold copied. destruct (Nat.ltb_spec (em_cursor e) final_len); [done|].
    rewrite Hout. by replace (em_cursor e) with final_len by lia.
  - unfold copied. destruct (Nat.ltb_spec (em_cursor e) final_len); [by rewrite Hprev|].
    destruct Hlast as [-> ->]; [lia|done|done].
  - intros r Hin Hr. rewrite Hall in Hin. apply elem_of_app in Hin as [Hin|Hin]; [by apply Hmax|].
    specialize (Hrest r Hin). lia.
  - destruct Hcar as [|[_ (r & Hin & Hr)]]; [by left|right]. exists r. rewrite Hall.
    split; [apply elem_of_app; by left|]. split; [by apply Hmax|done].
Qed.
End emit.

(** ** The stage *)

Lemma covers_trans runs rs G0 G :
  covers runs (λ s e, G0 s e ∨ ∃ i, (s, e, i) ∈ rs) → covers rs G →
  covers runs (λ s e, G0 s e ∨ G s e).
Proof.
  intros [Hsep Hi Hf] [_ Hi' Hf']. split; [done| |].
  - intros s e [H0|HG]; [apply Hi; by left|]. destruct (Hi' s e HG) as ([[s' e'] i] & Hin & H1 & H2).
    simpl in H1, H2. destruct (Hi s' e') as (r & Hr & H3 & H4); [right; by exists i|].
    exists r. split; [done|lia].
  - intros p Hp. destruct (Hf p Hp) as (s & e & [H0|[i Hin]] & Hb); [by eauto|].
    destruct (Hf' p) as (s' & e' & HG & Hb'); [exists (s, e, i); done|]. eauto.
Qed.

Section stage.
Context (values : list (bytes * string)).
Let a := with_partial_filter values.

(** The marks of a stream whose first [marked] bytes are in a run already *)
Definition marks (marked : nat) (bs : bytes) (p : nat) : bool :=
  (p <? marked)%nat || in_window a bs p.

(** What is still to be written, whatever the exact stage writes next *)
Definition resume_partial (st : StreamingScrubState) (rest : bytes) : bytes :=
  let bs := partial_tail st ++ rest in
  blot (marks (partial_tail_marked st) bs) (partial_in_run st) 0 bs.

Definition partial_ok (st : StreamingScrubState) : Prop :=
  (partial_tail_marked st <= length (partial_tail st))%nat ∧
  (length (partial_tail st) <= if has_partial_matching a then PARTIAL_MIN_RUN - 1 else 0)%nat.

Lemma marks_spec marked bs p :
  marks marked bs p = true ↔
  (p < marked)%nat ∨ ∃ s, (s <= p < s + PARTIAL_MIN_RUN)%nat ∧ window_here a (drop s bs) = true.
Proof. unfold marks. by rewrite orb_true_iff, Nat.ltb_lt, in_window_spec. Qed.

(** The runs that [partial_stage] writes are the marks of its buffer. *)
Definition stage_intervals (marked : nat) (buf : bytes) (s e : nat) : Prop :=
  (0 < marked ∧ s = 0 ∧ e = marked)%nat ∨ windows_before a buf (length buf) s e.

Lemma stage_runs marked index buf :
  covers (foldl push_run (if (0 <? marked)%nat then [(0, marked, index)%nat] else []) (partial_runs a buf))
    (stage_intervals marked buf).
Proof.
  apply covers_trans with (partial_runs a buf); [|apply partial_runs_spec].
  apply merge_covers with 0%nat.
  - destruct (Nat.ltb_spec 0 marked); split; simpl; try lia.
    + intros s e (_ & -> & ->). eexists. split; [by left|done].
    + intros p (r & ->%list_elem_of_singleton & Hp). simpl in Hp. by exists 0%nat, marked.
    + intros p (r & Hr & _). by apply elem_of_nil in Hr.
  - intros r. destruct (0 <? marked)%nat; [|by intros ?%elem_of_nil].
    by intros ->%list_elem_of_singleton.
  - by destruct (partial_runs_spec values buf).
Qed.

Lemma stage_intervals_marks marked buf p :
  (∃ s e, stage_intervals marked buf s e ∧ (s <= p < e)%nat) ↔ marks marked buf p = true.
Proof.
  rewrite marks_spec. unfold stage_intervals, windows_before. split.
  - intros (s & e & [(_ & -> & ->)|(_ & Hw & ->)] & Hp); [left; lia|right; by exists s].
  - intros [Hp|(s & Hp & Hw)].
    + exists 0%nat, marked. split; [left|]; lia.
    + exists s, (s + PARTIAL_MIN_RUN)%nat. split; [right|done]. split_and!; [|done|done].
      apply window_here_length in Hw. rewrite length_drop in Hw. unfold PARTIAL_MIN_RUN in *. lia.
Qed.

(** Where the stage may stop, no window that is not there yet starts before. *)
Definition settled (buf : bytes) (final_len : nat) (rest : bytes) : Prop :=
  ∀ s, (s < final_len)%nat → window_here a (drop s (buf ++ rest)) = true →
    window_here a (drop s buf) = true.

Lemma find_seq (f : nat → bool) from n :
  match List.find f (seq from n) with
  | Some j => (from <= j < from + n)%nat ∧ ∀ k, (from <= k < j)%nat → f k = false
  | None => ∀ k, (from <= k < from + n)%nat → f k = false
  end.
Proof.
  revert from. induction n as [|n IH]; intros from; cbn [seq List.find]; [intros; lia|].
  destruct (f from) eqn:E; [split; [lia|intros; lia]|]. specialize (IH (S from)).
  destruct (List.find f (seq (S from) n)) as [j|].
  - destruct IH as [Hj Hf]. split; [lia|]. intros k Hk. destruct (decide (k = from)) as [->|]; [done|].
    apply Hf. lia.
  - intros k Hk. destruct (decide (k = from)) as [->|]; [done|]. apply IH. lia.
Qed.

Lemma no_windows bs : partial_filter a = None → window_here a bs = false.
Proof.
  intros Hf. destruct (with_partial_filter_spec values bs) as [_ Hs]. fold a in Hs.
  by rewrite Hf in Hs.
Qed.

Lemma hold_start_spec buf :
  (partial_hold_start a buf <= length buf)%nat ∧
  (length buf - partial_hold_start a buf <= if has_partial_matching a then PARTIAL_MIN_RUN - 1 else 0)%nat ∧
  ∀ rest, settled buf (partial_hold_start a buf) rest.
Proof.
  unfold partial_hold_start, has_partial_matching, settled. destruct (partial_filter a) eqn:Ef.
  2: { split_and!; [lia|lia|]. intros rest s _ Hw. by rewrite no_windows in Hw. }
  set (from := (length buf - (PARTIAL_MIN_RUN - 1))%nat).
  pose proof (find_seq (λ j, starts_window a (drop j buf)) from (length buf - from)) as Hfind.
  assert (∀ fin, (fin <= length buf)%nat →
    (∀ k, (from <= k < fin)%nat → starts_window a (drop k buf) = false) →
    ∀ rest s, (s < fin)%nat → window_here a (drop s (buf ++ rest)) = true →
      window_here a (drop s buf) = true) as Hsettled.
  { intros fin Hfin Hno rest s Hs Hw. rewrite drop_app_le in Hw by lia.
    destruct (decide (PARTIAL_MIN_RUN <= length (drop s buf))%nat) as [Hl|Hl].
    - by rewrite window_here_app in Hw.
    - rewrite length_drop in Hl. apply window_starts in Hw; [|rewrite length_drop; lia].
      rewrite Hno in Hw; [done|]. unfold from. lia. }
  destruct (List.find _ _) as [j|]; cbn [default from_option]; unfold id.
  - destruct Hfind as [Hj Hno]. split_and!; [lia|unfold from in *; lia|].
    apply Hsettled; [lia|done].
  - split_and!; [cbn; lia|cbn; lia|]. apply Hsettled; [done|]. intros k Hk. apply Hfind. lia.
Qed.

(** The marks before the stop are final. *)
Lemma marks_before marked buf final_len rest p :
  settled buf final_len rest → (p < final_len)%nat → marks marked (buf ++ rest) p = marks marked buf p.
Proof.
  intros Hsettled Hp. apply eq_true_iff_eq. rewrite !marks_spec. split; (intros [?|(s & Hs & Hw)]; [by left|right; exists s; split; [done|]]).
  - apply Hsettled with (s := s); [lia|done].
  - pose proof (window_here_length _ _ Hw) as Hl. rewrite length_drop in Hl.
    rewrite drop_app_le by (unfold PARTIAL_MIN_RUN in *; lia).
    rewrite window_here_app; [done|]. by rewrite length_drop.
Qed.

(** The marks after the stop are those of the tail,
    with what the last written run carries over. *)
Section cut.
Context (marked : nat) (buf : bytes) (final_len carried : nat) (runs : list run).
Context (Hmarked : (marked <= length buf)%nat).
Context (Hcovers : covers runs (stage_intervals marked buf)) (H0 : (0 < final_len)%nat).
Context (Hmax : ∀ r, r ∈ runs → (r.1.1 < final_len)%nat → (r.1.2 <= final_len + carried)%nat).
Context (Hcar : carried = 0%nat ∨
  ∃ r, r ∈ runs ∧ (r.1.1 < final_len)%nat ∧ r.1.2 = (final_len + carried)%nat).

Lemma interval_bound s e : stage_intervals marked buf s e → (e <= length buf)%nat.
Proof.
  intros [(_ & _ & ->)|(Hs & Hw%window_here_length & ->)]; [done|].
  rewrite length_drop in Hw. unfold PARTIAL_MIN_RUN in *. lia.
Qed.

Lemma interval_reach s e : stage_intervals marked buf s e → (s < final_len)%nat → (e <= final_len + carried)%nat.
Proof.
  intros HG Hs. destruct Hcovers as [_ Hi _]. destruct (Hi s e HG) as (r & Hr & H1 & H2).
  specialize (Hmax r Hr). lia.
Qed.

Lemma carried_bound : (final_len <= length buf)%nat → (carried <= length (drop final_len buf))%nat.
Proof.
  intros Hf. rewrite length_drop. destruct Hcar as [|(r & Hr & H1 & H2)]; [lia|].
  destruct (decide (carried = 0%nat)); [lia|].
  destruct (covers_from _ _ Hcovers (r.1.2 - 1)) as (s & e & HG & Hb); [exists r; split; [done|lia]|].
  apply interval_bound in HG. lia.
Qed.

Lemma marks_after rest q :
  settled buf final_len rest → (final_len <= length buf)%nat →
  marks marked (buf ++ rest) (final_len + q) = marks carried (drop final_len buf ++ rest) q.
Proof.
  intros Hsettled Hf. apply eq_true_iff_eq. rewrite !marks_spec.
  assert (∀ k, drop k (drop final_len buf ++ rest) = drop (final_len + k) (buf ++ rest)) as Hdrop.
  { intros k. by rewrite <- drop_drop, (drop_app_le buf) by done. }
  split.
  - intros [Hp|(s & Hs & Hw)].
    + left. assert (stage_intervals marked buf 0 marked) as HG by (left; lia).
      apply interval_reach in HG; lia.
    + destruct (decide (s < final_len)%nat) as [Hlt|Hlt].
      * left. assert (stage_intervals marked buf s (s + PARTIAL_MIN_RUN)) as HG.
        { right. split_and!; [lia|by eapply Hsettled|done]. }
        apply interval_reach in HG; lia.
      * right. exists (s - final_len)%nat. split; [lia|]. rewrite Hdrop.
        by replace (final_len + (s - final_len))%nat with s by lia.
  - intros [Hq|(s & Hs & Hw)].
    + destruct Hcar as [|(r & Hr & H1 & H2)]; [lia|].
      destruct (covers_from _ _ Hcovers (final_len + q)) as (s & e & HG & Hb); [exists r; split; [done|lia]|].
      assert (marks marked buf (final_len + q) = true) as [?|(s' & Hs' & Hw)]%marks_spec
        by (apply stage_intervals_marks; eauto); [by left|right].
      exists s'. split; [done|]. pose proof (window_here_length _ _ Hw) as Hl. rewrite length_drop in Hl.
      rewrite drop_app_le by (unfold PARTIAL_MIN_RUN in *; lia).
      rewrite window_here_app; [done|]. by rewrite length_drop.
    + right. exists (final_len + s)%nat. split; [lia|]. by rewrite <- Hdrop.
Qed.
End cut.

Lemma resume_partial_off st rest : has_partial_matching a = false → partial_ok st → resume_partial st rest = rest.
Proof.
  intros Hoff [Hm Ht]. rewrite Hoff in Ht. unfold resume_partial.
  destruct (partial_tail st); [|simpl in Ht; lia]. simpl in Hm. apply blot_clear. intros p _.
  apply not_true_iff_false. intros [?|(s & _ & Hw)]%marks_spec; [lia|].
  rewrite no_windows in Hw; [done|]. unfold has_partial_matching in Hoff. by destruct (partial_filter a).
Qed.

Lemma partial_stage_spec st input finish events :
  partial_ok st → let p' := partial_stage a st input finish events in
  pending p'.1.1 = pending st ∧ suppressing p'.1.1 = suppressing st ∧
  suppression_prefix p'.1.1 = suppression_prefix st ∧
  partial_ok p'.1.1 ∧ (finish = true → resume_partial p'.1.1 [] = []) ∧
  ∀ rest, (finish = true → rest = []) →
    resume_partial st (input ++ rest) = p'.1.2 ++ resume_partial p'.1.1 rest.
Proof.
  intros Hok. unfold partial_stage. destruct (has_partial_matching a) eqn:Eon; cbn [negb].
  2: { cbn [fst snd]. split_and!; [done..| |]; intros; by rewrite !resume_partial_off. }
  set (buf := partial_tail st ++ input).
  set (runs := foldl push_run _ _).
  set (final_len := if finish then length buf else partial_hold_start a buf).
  pose proof (stage_runs (partial_tail_marked st) (partial_tail_index st) buf) as Hcov. fold runs in Hcov.
  destruct Hok as [Hm Ht]. rewrite Eon in Ht.
  destruct (hold_start_spec buf) as (Hh1 & Hh2 & Hh3). rewrite Eon in Hh2.
  assert (final_len <= length buf)%nat as Hf by (unfold final_len; destruct finish; lia).
  assert (length buf - final_len <= PARTIAL_MIN_RUN - 1)%nat as Htail
    by (unfold final_len; destruct finish; lia).
  assert (∀ rest, (finish = true → rest = []) → settled buf final_len rest) as Hsettled.
  { intros rest Hrest. unfold final_len. destruct finish; [|apply Hh3].
    rewrite Hrest by done. intros s _. by rewrite app_nil_r. }
  assert (partial_tail_marked st <= length buf)%nat as Hmb by (unfold buf; rewrite length_app; lia).
  destruct (Nat.eqb_spec final_len 0) as [H0|H0].
  { cbn [fst snd]. split_and!; [done..| | |].
    - unfold partial_ok. cbn [partial_tail partial_tail_marked set_partial]. rewrite Eon. lia.
    - intros ->. unfold resume_partial. cbn. rewrite app_nil_r.
      destruct buf; [done|]. unfold final_len in H0. simpl in H0. lia.
    - intros rest _. unfold resume_partial. cbn. unfold buf. by rewrite <- !app_assoc. }
  set (e := emit_runs _ _ _ _ _ _). cbn [fst snd].
  destruct (emit_all a buf final_len (partial_in_run st) runs (marks (partial_tail_marked st) buf) Hf)
    with events as (Hout & Hflag & Hmax & Hcar); [|by apply covers_separated in Hcov|lia|].
  { intros p. rewrite <- stage_intervals_marks. symmetry. by apply covers_in_runs. }
  fold e in Hout, Hflag, Hmax, Hcar.
  assert (0 < final_len)%nat as Hpos by lia.
  assert ((em_carried e).1 <= length (drop final_len buf))%nat as Hcb by (by eapply carried_bound).
  split_and!; [done..| | |].
  - unfold partial_ok. cbn [partial_tail partial_tail_marked set_partial].
    rewrite Eon, length_drop in *. lia.
  - intros ->. unfold resume_partial. simpl. rewrite drop_ge by (unfold final_len; lia). done.
  - intros rest Hrest. specialize (Hsettled rest Hrest). rewrite Hout. unfold resume_partial. simpl.
    rewrite Nat.min_l by done. rewrite app_assoc. fold buf. rewrite Hflag.
    rewrite <- (take_drop final_len buf) at 2. rewrite <- (app_assoc (take final_len buf)).
    rewrite blot_app. rewrite length_take, Nat.min_l by done. f_equal.
    + apply blot_ext. intros p Hp. rewrite length_take in Hp. apply (marks_before _ _ final_len); [done|lia].
    + pose proof (λ r, blot_shift (marks (partial_tail_marked st) (buf ++ rest)) r final_len 0
        (drop final_len buf ++ rest)) as Hshift.
      rewrite Nat.add_0_r in Hshift. rewrite Nat.add_0_l, Hshift.
      assert (last_mark (marks (partial_tail_marked st) (buf ++ rest)) (partial_in_run st) 0 final_len
        = marks (partial_tail_marked st) buf (final_len - 1)) as ->.
      { destruct final_len as [|k] eqn:Ek; [done|]. simpl. rewrite Nat.sub_0_r.
        apply (marks_before _ _ (S k)); [done|lia]. }
      apply blot_ext. intros q _. by apply (marks_after _ _ _ _ runs).
Qed.
End stage.
