(* ===== verification/ScrubberSpec.v ===== *)
(** * What the scrubber promises

    The streaming scrubber is the reference of [ScrubberExact] followed by the
    one of [ScrubberPartial], whatever the chunks; from that: what reaches the
    client, what is retained, and why. *)

From S2P Require Import Prelude Bytes Redact Scrubber ScrubberExact ScrubberPartial.

(** The state after some chunks *)
Definition state_after (a : ResponseLeakAnalyzer) (chunks : list bytes) : StreamingScrubState :=
  foldl (λ st chunk, (scrub_stream_chunk a st chunk).1.1) new_scrub_state chunks.

Section spec.
Context (values : list (bytes * string)).
Let a := with_partial_filter values.

Definition scrub_ok (st : StreamingScrubState) : Prop := held a st ∧ partial_ok values st.

Lemma held_same st st' :
  pending st' = pending st → suppressing st' = suppressing st →
  suppression_prefix st' = suppression_prefix st → held a st → held a st'.
Proof. intros H1 H2 H3. unfold held. by rewrite H1, H2, H3. Qed.

Lemma resume_same st st' rest :
  pending st' = pending st → suppressing st' = suppressing st → resume a st' rest = resume a st rest.
Proof. intros H1 H2. unfold resume. by rewrite H1, H2. Qed.

(** What is still to be written by both stages *)
Definition remaining (st : StreamingScrubState) (rest : bytes) : bytes :=
  resume_partial values st (resume a st rest).

Lemma resume_partial_same st st' rest :
  same_partial st st' → resume_partial values st' rest = resume_partial values st rest.
Proof. intros (H1 & H2 & H3 & H4). unfold resume_partial. by rewrite H1, H2, H4. Qed.

Lemma process_spec st input finish :
  scrub_ok st → let p' := process_stream_bytes a st input finish in
  scrub_ok p'.1.1 ∧
  ∀ rest, (finish = true → rest = []) →
    remaining st (input ++ rest) = p'.1.2 ++ if finish then [] else remaining p'.1.1 rest.
Proof.
  intros [Hheld Hok]. unfold process_stream_bytes.
  destruct (exact_stage_spec a st input finish Hheld) as (Hh & Hsame & Hfin & Hr).
  destruct (exact_stage a st input finish) as [[st1 output] events]. cbn [fst snd] in Hh, Hsame, Hfin, Hr.
  assert (partial_ok values st1) as Hok1.
  { destruct Hsame as (H1 & H2 & _). unfold partial_ok. by rewrite H1, H2. }
  destruct (partial_stage_spec values st1 output finish events Hok1)
    as (H1 & H2 & H3 & Hok2 & Hfin2 & Hr2). fold a in H1, H2, H3, Hok2, Hfin2, Hr2.
  split; [split; [by eapply held_same|done]|]. intros rest Hrest. unfold remaining.
  rewrite Hr by done. rewrite <- (resume_partial_same _ _ _ Hsame).
  destruct finish.
  - rewrite (Hrest eq_refl), (Hfin eq_refl). rewrite Hr2 by done. f_equal. by apply Hfin2.
  - rewrite Hr2 by done. f_equal. by rewrite (resume_same _ _ rest H1 H2).
Qed.

Lemma new_scrub_ok : scrub_ok new_scrub_state.
Proof.
  split; [split; [done|by left]|]. unfold partial_ok. simpl.
  destruct (has_partial_matching _); simpl; lia.
Qed.

Lemma state_after_snoc chunks chunk :
  state_after a (chunks ++ [chunk]) = (scrub_stream_chunk a (state_after a chunks) chunk).1.1.
Proof. unfold state_after. by rewrite foldl_app. Qed.

Lemma state_after_ok chunks : scrub_ok (state_after a chunks).
Proof.
  induction chunks as [|chunk chunks IH] using rev_ind; [apply new_scrub_ok|].
  rewrite state_after_snoc. by apply process_spec.
Qed.

Lemma scrub_chunks_remaining st chunks :
  scrub_ok st → scrub_chunks a st chunks = remaining st (concat chunks).
Proof.
  revert st. induction chunks as [|chunk chunks IH]; intros st Hok; cbn [scrub_chunks concat].
  - destruct (process_spec st [] true Hok) as [_ Hr]. specialize (Hr [] (λ _, eq_refl)).
    unfold finish_stream. destruct (process_stream_bytes a st [] true) as [[st' out] ev].
    cbn [fst snd app] in *. by rewrite Hr, app_nil_r.
  - destruct (process_spec st chunk false Hok) as [Hok' Hr]. unfold scrub_stream_chunk.
    destruct (process_stream_bytes a st chunk false) as [[st' out] ev]. cbn [fst snd] in *.
    rewrite IH by done. symmetry. by apply Hr.
Qed.

Lemma scrub_response_reference chunks :
  scrub_response a chunks = redact_windows a (exact_scan a 0 (concat chunks)).
Proof. unfold scrub_response. rewrite scrub_chunks_remaining by apply new_scrub_ok. done. Qed.
End spec.

(** C21: how a response is cut into chunks makes no difference: what the client
    receives is what the two references make of the response in full. *)
Theorem scrub_stream_exact values chunks :
  let a := with_partial_filter values in
  scrub_response a chunks = redact_windows a (exact_scan a 0 (concat chunks)).
Proof. apply scrub_response_reference. Qed.

(** ** What is retained *)

Lemma foldr_max_in {A} (f : A → nat) l x :
  x ∈ l → (f x <= foldr (λ y m, Nat.max (f y) m) 0 l)%nat.
Proof.
  induction l as [|y l IH]; intros [->|Hin]%elem_of_cons || intros ?%elem_of_nil; simpl; [done|lia|].
  specialize (IH Hin). lia.
Qed.

Lemma incomplete_length s c :
  tail_positive (fs_shape s) → is_incomplete_prefix s c = true → (length c < minimum_match_len s)%nat.
Proof.
  intros Hpos. destruct (decide (fs_shape s = SendGrid)) as [Hs|Hs]; [|intros; by apply incomplete_prefix_extends].
  unfold is_incomplete_prefix, minimum_match_len. rewrite Hs.
  destruct (Nat.leb_spec (length c) (length (fs_prefix s))); [lia|].
  destruct (negb _); [done|]. unfold sendgrid_prefix_is_incomplete.
  assert (length (drop (length (fs_prefix s)) c) = length c - length (fs_prefix s))%nat as Hl
    by by rewrite length_drop.
  destruct (Nat.leb_spec (length (drop (length (fs_prefix s)) c)) 22); [lia|].
  destruct (_ !! 22%nat); [|done]. destruct (negb _); [done|].
  intros [Ht _]%andb_true_iff. apply Nat.ltb_lt in Ht. rewrite length_drop in Ht. lia.
Qed.

Section bound.
Context (values : list (bytes * string)).
Let a := with_partial_filter values.

Lemma scrub_ok_bound st : scrub_ok values st → (buffered_len st <= stream_buffer_bound a)%nat.
Proof.
  intros [Hheld [_ Htail]]. unfold buffered_len, stream_buffer_bound.
  set (unmanaged := foldr (λ spec m, Nat.max (minimum_match_len spec) m) 0%nat FORMAT_SPECS).
  assert (∀ s, s ∈ FORMAT_SPECS → (minimum_match_len s <= unmanaged)%nat) as Hspec
    by (intros s; apply (foldr_max_in minimum_match_len)).
  assert (length (pending st) + length (suppression_prefix st)
    <= Nat.max (max_managed_value_len a - 1) unmanaged)%nat as Hexact; [|unfold a in *; lia].
  clearbody unmanaged. unfold held in Hheld. fold a in Hheld. destruct (suppressing st) as [i|].
  - destruct Hheld as (-> & s & Hi & ->). specialize (Hspec s (list_elem_of_lookup_2 _ _ _ Hi)). simpl. lia.
  - destruct Hheld as [-> [->|[Hm|(s & Hin & Hi)]]]; simpl; [lia| |].
    + apply is_managed_prefix_spec in Hm as (_ & v & name & Hin & _ & Hl).
      pose proof (foldr_max_in (λ v : bytes * string, length v.1) _ _ Hin) as Hv.
      unfold max_managed_value_len. cbn [fst] in Hv. lia.
    + apply incomplete_length in Hi; [|by apply catalog_positive]. specialize (Hspec s Hin). lia.
Qed.
End bound.

(** the scrubber's memory is bounded whatever the response: after any
    chunks it retains at most [stream_buffer_bound] bytes. *)
Theorem scrub_buffer_bounded values chunks :
  let a := with_partial_filter values in
  (buffered_len (state_after a chunks) <= stream_buffer_bound a)%nat.
Proof. apply scrub_ok_bound, state_after_ok. Qed.

Lemma hold_start_tail values buf :
  let a := with_partial_filter values in
  drop (partial_hold_start a buf) buf = [] ∨ starts_window a (drop (partial_hold_start a buf) buf) = true.
Proof.
  intros a. unfold partial_hold_start. destruct (partial_filter a); [|left; by apply drop_ge].
  destruct (List.find _ _) as [j|] eqn:E; cbn; [|left; by apply drop_ge].
  apply find_some in E as [_ E]. by right.
Qed.

Lemma partial_stage_tail values st input events :
  let a := with_partial_filter values in
  partial_ok values st →
  let st' := (partial_stage a st input false events).1.1 in
  partial_tail st' = [] ∨ starts_window a (partial_tail st') = true.
Proof.
  intros a [_ Hok]. unfold partial_stage. fold a in Hok. destruct (has_partial_matching a); cbn [negb].
  2: { left. simpl. destruct (partial_tail st); [done|simpl in Hok; lia]. }
  pose proof (hold_start_tail values (partial_tail st ++ input)) as Ht.
  cbv zeta in Ht. fold a in Ht.
  destruct (Nat.eqb_spec (partial_hold_start a (partial_tail st ++ input)) 0) as [H0|H0].
  - cbn. rewrite H0, drop_0 in Ht. exact Ht.
  - cbn [fst snd partial_tail set_partial]. exact Ht.
Qed.

(** Bytes that more bytes make a credential of *)
Definition completable (s : FormatSpec) (c : bytes) : Prop :=
  ∃ ext, ext ≠ [] ∧ credential s (c ++ ext).

(** Bytes that pass for the start of a SendGrid key although the first part
    cannot be one: the test of more than 22 bytes looks at the rest only. *)
Definition sendgrid_unchecked (s : FormatSpec) (c : bytes) : Prop :=
  fs_shape s = SendGrid ∧
  ∃ u t, c = fs_prefix s ++ u ++ "."%char :: t ∧ length u = 22%nat ∧ (length t < 43)%nat ∧
    ¬ in_class AlnumDashUnderscore u ∧ in_class AlnumDashUnderscore t.

Lemma credential_length s c : credential s c → (minimum_match_len s <= length c)%nat.
Proof.
  intros (tail & -> & Ht). unfold minimum_match_len. rewrite length_app.
  destruct (fs_shape s) as [class min|class len|]; simpl in Ht; [lia..|].
  destruct Ht as (u & t & -> & Hu & Hl & _). rewrite !length_app. simpl. lia.
Qed.

Lemma completable_short s c :
  (length c < minimum_match_len s)%nat → (∃ ext, credential s (c ++ ext)) → completable s c.
Proof.
  intros Hl [ext Hc]. exists ext. split; [|done]. intros ->.
  apply credential_length in Hc. rewrite app_nil_r in Hc. lia.
Qed.

Lemma sendgrid_tail u t :
  in_class AlnumDashUnderscore u → in_class AlnumDashUnderscore t →
  (length u <= 22)%nat → (length t <= 43)%nat →
  tail_of_shape SendGrid ((u ++ replicate (22 - length u) "0"%char) ++ ["."%char] ++
    (t ++ replicate (43 - length t) "0"%char)).
Proof.
  intros Hu Ht Hlu Hlt. eexists _, _. split; [done|].
  rewrite !length_app, !length_replicate. split_and!; [lia|lia|by apply in_class_pad..].
Qed.

(** What the code takes for an incomplete credential is one, but for those. *)
Lemma incomplete_completable s c :
  tail_positive (fs_shape s) → is_incomplete_prefix s c = true → completable s c ∨ sendgrid_unchecked s c.
Proof.
  intros Hpos Hi. pose proof (incomplete_length s c Hpos Hi) as Hl.
  destruct (decide (fs_shape s = SendGrid)) as [Hs|Hs].
  2:{ left. apply completable_short; [done|]. by apply incomplete_prefix_extends. }
  assert (tail_of_shape SendGrid (replicate 22 "0"%char ++ ["."%char] ++ replicate 43 "0"%char)) as Hzero.
  { apply (sendgrid_tail [] []); [constructor|constructor|simpl; lia|simpl; lia]. }
  unfold is_incomplete_prefix in Hi. destruct (Nat.leb_spec (length c) (length (fs_prefix s))).
  { left. apply completable_short; [done|]. apply bytes_start_with_spec in Hi as [ext Hext].
    eexists (ext ++ _), _. split; [by rewrite app_assoc, <- Hext|]. rewrite Hs. exact Hzero. }
  destruct (bytes_start_with _ c) eqn:Ep; [|done]. cbn [negb] in Hi.
  apply bytes_start_with_spec in Ep as [suffix ->]. rewrite drop_app_length, Hs in Hi.
  unfold sendgrid_prefix_is_incomplete in Hi. destruct (Nat.leb_spec (length suffix) 22).
  { left. apply all_in_spec in Hi. apply completable_short; [done|].
    eexists (_ ++ _), _. split; [by rewrite <- app_assoc|]. rewrite Hs, app_assoc.
    apply (sendgrid_tail suffix []); [done|constructor|done|simpl; lia]. }
  destruct (suffix !! 22%nat) as [dot|] eqn:Ed; [|done].
  destruct (ascii_eqb dot ".") eqn:E; [|done]. apply ascii_eqb_eq in E as ->. cbn [negb] in Hi.
  apply andb_true_iff in Hi as [Ht Hin%all_in_spec]. apply Nat.ltb_lt in Ht.
  pose proof (take_drop_middle _ _ _ Ed) as Hsplit. set (u := take 22 suffix) in *. set (t := drop 23 suffix) in *.
  assert (length u = 22%nat) as Hu by (unfold u; rewrite length_take; lia).
  destruct (all_in AlnumDashUnderscore u) eqn:Eu.
  - left. apply all_in_spec in Eu. apply completable_short; [done|].
    exists (replicate (43 - length t) "0"%char), (suffix ++ replicate (43 - length t) "0"%char).
    split; [by rewrite app_assoc|]. rewrite Hs, <- Hsplit, <- app_assoc.
    assert (tail_of_shape SendGrid ((u ++ replicate (22 - length u) "0"%char) ++ ["."%char] ++
      (t ++ replicate (43 - length t) "0"%char))) as Htail by (apply sendgrid_tail; [done|done|lia|lia]).
    replace (22 - length u)%nat with 0%nat in Htail by lia. simpl replicate in Htail.
    by rewrite app_nil_r in Htail.
  - right. split; [done|]. exists u, t. split_and!; [by rewrite Hsplit|done|done| |done].
    intros Hc%all_in_spec. congruence.
Qed.

Lemma unchecked_not_completable s c : sendgrid_unchecked s c → ¬ completable s c.
Proof.
  intros (Hs & u & t & -> & Hu & _ & Hno & _) (ext & _ & tail & Heq & Ht).
  rewrite <- app_assoc in Heq. apply app_inv_head in Heq. rewrite <- Heq, Hs in Ht.
  destruct Ht as (id & key & Hid & Hlid & _ & Hcid & _). rewrite <- app_assoc in Hid.
  apply app_inj_1 in Hid as [-> _]; [done|congruence].
Qed.

(** C37: nothing is delayed without a reason: between chunks the exact stage
    retains nothing, or a proper prefix of a secret, or the start of a
    credential, which more bytes complete; and the partial stage nothing, or a
    prefix of a window of a secret. There is one exception: the code also
    retains, as the start of a SendGrid key, the prefix followed by 22 bytes
    that are not all of a key's characters, a dot and fewer than 43 that are,
    although no byte that follows can complete it. *)
Theorem scrub_prompt values chunks chunk :
  let a := with_partial_filter values in
  let st := state_after a (chunks ++ [chunk]) in
  (pending st = [] ∨
   (∃ v name ext, (v, name) ∈ values ∧ v = pending st ++ ext ∧ ext ≠ []) ∨
   (∃ s, s ∈ FORMAT_SPECS ∧ (completable s (pending st) ∨
        sendgrid_unchecked s (pending st) ∧ ¬ completable s (pending st)))) ∧
  (partial_tail st = [] ∨
    ∃ v name w, (v, name) ∈ values ∧ w ∈ partial_windows v ∧ partial_tail st `prefix_of` w).
Proof.
  intros a st. destruct (state_after_ok values (chunks ++ [chunk])) as [Hheld _].
  fold a st in Hheld. split.
  - unfold held in Hheld. destruct (suppressing st); [left; by destruct Hheld|].
    destruct Hheld as [_ [?|[Hm|(s & Hin & Hi)]]]; [by left| |].
    + right; left. apply is_managed_prefix_spec in Hm as (_ & v & name & Hin & [ext ->] & Hl).
      exists (pending st ++ ext), name, ext. split_and!; [done|done|]. intros ->.
      rewrite app_nil_r in Hl. lia.
    + right; right. exists s. split; [done|].
      destruct (incomplete_completable s (pending st)) as [?|Hsg]; [by apply catalog_positive|done|by left|].
      right. split; [done|]. by apply unchecked_not_completable.
  - destruct (state_after_ok values chunks) as [Hh Hok].
    assert (partial_tail st = [] ∨ starts_window a (partial_tail st) = true) as [?|Ht]; [|by left|].
    + unfold st, a. rewrite state_after_snoc. unfold scrub_stream_chunk, process_stream_bytes.
      fold a in Hh, Hok |- *.
      destruct (exact_stage_spec a (state_after a chunks) chunk false Hh) as (_ & (H1 & H2 & _) & _).
      destruct (exact_stage a _ chunk false) as [[st1 output] events]. cbn [fst snd] in H1, H2.
      apply partial_stage_tail. unfold partial_ok. by rewrite H1, H2.
    + right. by apply (starts_window_spec a).
Qed.

(** The exception is reached: a secret that is not completed after all gives
    the exact stage 22 bytes at once. *)
Lemma sendgrid_retained :
  let c := as_bytes "SG.!!!!!!!!!!!!!!!!!!!!!!." in
  let values := [(as_bytes "x" ++ c ++ as_bytes "y", "TOKEN")] in
  pending (state_after (with_partial_filter values) [as_bytes "x" ++ c ++ as_bytes "z"]) =
    c ++ as_bytes "z".
Proof. by vm_compute. Qed.

(** ** What the client receives *)

(** The parts of a response: a byte that is passed on, or what is replaced by
    a marker *)
Inductive segment := Passed (c : ascii) | Redacted (label : string) (raw : bytes).

Definition raw_bytes (s : segment) : bytes :=
  match s with Passed c => [c] | Redacted _ raw => raw end.

Definition shown_bytes (s : segment) : bytes :=
  match s with Passed c => [c] | Redacted label _ => marker label end.

(** Nothing secret starts where a byte is passed on; only secrets and whole
    credentials are redacted. *)
Fixpoint segments_ok (values : list (bytes * string)) (segs : list segment) : Prop :=
  match segs with
  | [] => True
  | Passed c :: rest =>
      let here := c :: (rest ≫= raw_bytes) in
      (∀ v name, (v, name) ∈ values → v ≠ [] → ¬ v `prefix_of` here) ∧
      (∀ s cred, s ∈ FORMAT_SPECS → credential s cred → ¬ cred `prefix_of` here) ∧
      segments_ok values rest
  | Redacted label raw :: rest =>
      (label = "vault-secret" ∧ (∃ name, (raw, name) ∈ values) ∨
       ∃ s, s ∈ FORMAT_SPECS ∧ label = fs_label s ∧ credential s raw) ∧
      segments_ok values rest
  end.

Lemma exact_scan_segments values bs :
  let a := with_partial_filter values in
  ∃ segs, bs = segs ≫= raw_bytes ∧ exact_scan a 0 bs = segs ≫= shown_bytes ∧ segments_ok values segs.
Proof.
  intros a. remember (length bs) as n eqn:Hn. revert bs Hn.
  induction n as [n IH] using lt_wf_ind. intros bs ->.
  destruct (exact_at a bs) as [[label len]|] eqn:Eat.
  - assert ((0 < len <= length bs)%nat ∧
      (label = "vault-secret" ∧ (∃ name, (take len bs, name) ∈ values) ∨
       ∃ s, s ∈ FORMAT_SPECS ∧ label = fs_label s ∧ credential s (take len bs))) as [Hl Hwhat].
    { destruct (managed_len a bs) as [n|] eqn:Em.
      - rewrite (exact_at_managed _ _ _ Em) in Eat. injection Eat as <- <-.
        split; [by eapply managed_len_bounds|]. left. split; [done|].
        apply managed_len_Some in Em as [(v & (_ & [k ->] & name & Hin) & <-) _].
        rewrite take_app_length. by exists name.
      - rewrite exact_at_format in Eat by done.
        destruct (find_format 0 FORMAT_SPECS bs) as [[[i s] n]|] eqn:Ef; [|done].
        injection Eat as <- <-. split; [by eapply find_format_bounds|]. right. exists s.
        apply find_format_Some in Ef as [Hi Hc]. split; [exact (list_elem_of_lookup_2 _ _ _ Hi)|].
        split; [done|]. apply complete_prefix_Some in Hc. tauto. }
    destruct (IH (length (drop len bs))) with (bs := drop len bs) as (segs & H1 & H2 & H3);
      [rewrite length_drop; lia|done|].
    exists (Redacted label (take len bs) :: segs). cbn. rewrite <- H1, <- H2.
    split_and!; [by rewrite take_drop|by apply exact_scan_redact|done|done].
  - destruct bs as [|c bs]; [by exists []|]. simpl in IH.
    destruct (IH (length bs)) with (bs := bs) as (segs & H1 & H2 & H3); [lia|done|].
    exists (Passed c :: segs). cbn [mbind list_bind raw_bytes shown_bytes app].
    fold (mbind raw_bytes segs) (mbind shown_bytes segs). rewrite <- H2.
    split_and!; [by f_equal|by apply exact_scan_literal|]. cbn [segments_ok]. rewrite <- H1.
    assert (managed_len a (c :: bs) = None) as Em.
    { destruct (managed_len a (c :: bs)) as [m|] eqn:Em; [|done].
      by rewrite (exact_at_managed _ _ _ Em) in Eat. }
    split_and!; [| |done].
    + intros v name Hin Hne Hp. apply (proj1 (managed_len_None a _) Em v). split_and!; [done..|].
      by exists name.
    + intros s cred Hs Hc Hp. rewrite exact_at_format in Eat by done.
      destruct (find_format 0 FORMAT_SPECS (c :: bs)) eqn:Ef; [done|].
      eapply complete_prefix_None; [|exact Hp|exact Hc]. by apply (proj1 (find_format_None _) Ef).
Qed.

(** no secret and no recognised credential passes, wherever it starts and
    however it is cut into chunks: the bytes of a response fall into those that
    are passed on, where no secret and no credential of the catalog starts, and
    those that a marker replaces, which are a secret or a whole credential;
    and only the partial stage changes what is shown of them. *)
Theorem response_segments values chunks :
  let a := with_partial_filter values in
  ∃ segs, concat chunks = segs ≫= raw_bytes ∧ segments_ok values segs ∧
    scrub_response a chunks = redact_windows a (segs ≫= shown_bytes).
Proof.
  intros a. destruct (exact_scan_segments values (concat chunks)) as (segs & H1 & H2 & H3).
  exists segs. split_and!; [done..|]. unfold a. by rewrite scrub_response_reference, H2.
Qed.

(** ** Windows *)

(** The bytes that the windows of a secret have *)
Definition token_byte (b : ascii) : bool :=
  is_ascii_alphanumeric b || existsb (ascii_eqb b) (as_bytes "-_.+/=~").

Lemma partial_window_bytes v w : w ∈ partial_windows v → Forall (λ b, token_byte b = true) w.
Proof.
  unfold partial_windows. intros (start & -> & Hin)%list_elem_of_fmap.
  unfold partial_window_starts in Hin. apply elem_of_seq in Hin.
  destruct (is_token_like v && (PARTIAL_MIN_RUN <=? length v)%nat) eqn:E; [|lia].
  apply andb_true_iff in E as [[_ E]%andb_true_iff _]. unfold window_at.
  apply Forall_take, Forall_drop. rewrite Forall_forall. intros b Hb.
  rewrite forallb_forall in E. apply E. by apply list_elem_of_In.
Qed.

(** A window in a marker, or in what follows it, is the marker's own text. *)
Lemma window_in_marker o w rest :
  (o < length (marker "vault-secret"))%nat → w `prefix_of` drop o (marker "vault-secret") ++ rest →
  length w = 12%nat → Forall (λ b, token_byte b = true) w → w = as_bytes "vault-secret".
Proof.
  intros Ho [k Hk] Hl Hw. change (length (marker "vault-secret")) with 23%nat in Ho.
  assert (∀ i b, (drop o (marker "vault-secret") ++ rest) !! i = Some b → (i < 12)%nat → token_byte b = true) as Hat.
  { intros i b Hi Hlt. rewrite Hk, lookup_app_l in Hi by lia. rewrite Forall_lookup in Hw. by eapply Hw. }
  assert (o = 10%nat ∨ (o < 10)%nat ∨ (10 < o)%nat) as [->|[Hlt|Hgt]] by lia.
  - assert (take 12 (drop 10 (marker "vault-secret") ++ rest) = w) as <-; [|done].
    by rewrite Hk, <- Hl, take_app_length.
  - exfalso. assert (token_byte ":" = true); [|done]. apply (Hat (9 - o)%nat); [|lia].
    rewrite lookup_app_l by (rewrite length_drop; change (length (marker "vault-secret")) with 23%nat; lia).
    rewrite lookup_drop. by replace (o + (9 - o))%nat with 9%nat by lia.
  - exfalso. assert (token_byte "]" = true); [|done]. apply (Hat (22 - o)%nat); [|lia].
    rewrite lookup_app_l by (rewrite length_drop; change (length (marker "vault-secret")) with 23%nat; lia).
    rewrite lookup_drop. by replace (o + (22 - o))%nat with 22%nat by lia.
Qed.

(** A window at the start of a blot is a window of unmarked bytes. *)
Lemma blot_prefix mark in_run pos bs w :
  w `prefix_of` blot mark in_run pos bs → Forall (λ b, token_byte b = true) w → w ≠ [] →
  ∃ k, w `prefix_of` drop k bs ∧ ∀ i, (i < length w)%nat → mark (pos + k + i)%nat = false.
Proof.
  assert (∀ bs pos w, w `prefix_of` blot mark false pos bs → Forall (λ b, token_byte b = true) w →
    w `prefix_of` bs ∧ ∀ i, (i < length w)%nat → mark (pos + i)%nat = false) as Hclear.
  { clear. induction bs as [|c bs IH]; intros pos w Hp Hw; cbn [blot] in Hp.
    - apply prefix_nil_inv in Hp as ->. split; [done|simpl; lia].
    - destruct w as [|b w]; [split; [apply prefix_nil|simpl; lia]|].
      apply Forall_cons in Hw as [Hb Hw]. destruct (mark pos) eqn:Em.
      + apply prefix_cons_inv_1 in Hp as ->. done.
      + pose proof (prefix_cons_inv_1 _ _ _ _ Hp) as ->. apply prefix_cons_inv_2 in Hp.
        destruct (IH _ _ Hp Hw) as [Hp' Hm]. split; [by apply prefix_cons|].
        intros [|i] Hi; [by rewrite Nat.add_0_r|]. rewrite <- Nat.add_succ_comm. apply Hm. simpl in Hi. lia. }
  intros Hp Hw Hne. destruct in_run.
  2: { exists 0%nat. rewrite Nat.add_0_r, drop_0. by apply Hclear. }
  revert pos Hp. induction bs as [|c bs IH]; intros pos Hp; cbn [blot] in Hp.
  { by apply prefix_nil_inv in Hp. }
  destruct (mark pos) eqn:Em.
  - destruct (IH _ Hp) as (k & Hk & Hm). exists (S k). split; [done|]. intros i Hi.
    rewrite <- Nat.add_succ_comm. by apply Hm.
  - exists 0%nat. rewrite Nat.add_0_r, drop_0. apply Hclear; [|done]. cbn [blot]. by rewrite Em.
Qed.

Lemma blot_window mark in_run pos bs pre w post :
  blot mark in_run pos bs = pre ++ w ++ post → length w = 12%nat →
  Forall (λ b, token_byte b = true) w →
  w = as_bytes "vault-secret" ∨
  ∃ k, w `prefix_of` drop k bs ∧ ∀ i, (i < length w)%nat → mark (pos + k + i)%nat = false.
Proof.
  intros Hb Hl Hw. revert in_run pos pre Hb.
  induction bs as [|c bs IH]; intros in_run pos pre Hb.
  { destruct pre; [destruct w; done|done]. }
  assert (∀ in_run' pre', blot mark in_run' (S pos) bs = pre' ++ w ++ post →
    w = as_bytes "vault-secret" ∨
    ∃ k, w `prefix_of` drop k (c :: bs) ∧ ∀ i, (i < length w)%nat → mark (pos + k + i)%nat = false) as Hrest.
  { intros in_run' pre' Hb'. destruct (IH _ _ _ Hb') as [?|(k & Hk & Hm)]; [by left|right].
    exists (S k). split; [done|]. intros i Hi. rewrite Nat.add_succ_r, <- Nat.add_succ_l. by apply Hm. }
  destruct pre as [|x pre].
  { right. apply (blot_prefix _ in_run); [rewrite Hb; by eexists|done|by destruct w]. }
  cbn [blot] in Hb. destruct (mark pos) eqn:Em; [|injection Hb as _ Hb; by eapply Hrest].
  destruct in_run; [by eapply (Hrest true (x :: pre))|].
  destruct (decide (length (x :: pre) < length (marker "vault-secret"))%nat) as [Hlt|Hge].
  - left. apply (window_in_marker (length (x :: pre)) w (blot mark true (S pos) bs)); [done| |done|done].
    exists post. apply (f_equal (drop (length (x :: pre)))) in Hb.
    rewrite drop_app_le in Hb by lia. by rewrite drop_app_length in Hb.
  - apply (Hrest true (drop (length (marker "vault-secret")) (x :: pre))).
    apply (f_equal (drop (length (marker "vault-secret")))) in Hb.
    rewrite drop_app_length in Hb. rewrite Hb. by rewrite drop_app_le by lia.
Qed.

(** C15: no run of a secret reaches the client: twelve consecutive bytes of a
    token-like secret, outside its public prefix, are never part of a
    response, however the upstream places or cuts them, but for the words of
    the marker itself. *)
Theorem no_secret_run values chunks v name w :
  (v, name) ∈ values → w ∈ partial_windows v → w ≠ as_bytes "vault-secret" →
  ¬ ∃ pre post, scrub_response (with_partial_filter values) chunks = pre ++ w ++ post.
Proof.
  intros Hv Hw Hne (pre & post & Hb). rewrite scrub_response_reference in Hb.
  unfold redact_windows in Hb.
  apply blot_window in Hb as [?|(k & Hk & Hm)]; [done| |by eapply partial_windows_length|by eapply partial_window_bytes].
  exfalso. pose proof (partial_windows_length _ _ Hw) as Hl.
  specialize (Hm 0%nat ltac:(rewrite Hl; unfold PARTIAL_MIN_RUN; lia)).
  rewrite <- not_true_iff_false in Hm. apply Hm. apply in_window_spec. exists k.
  split; [unfold PARTIAL_MIN_RUN; lia|]. apply window_here_spec. exists v, name. split; [done|].
  destruct Hk as [rest ->]. by rewrite <- Hl, take_app_length.
Qed.

(** ** An example: a secret and a credential cut into pieces *)

Definition sample_secret : string := "sk-proj-ABCDEFGHIJKLMNOPQRSTUVWX0123".

Definition sample_values : list (bytes * string) :=
  vault_values (from_token_secret_pairs [("OPENAI_API_KEY", sample_secret); ("PIN", "shorty")]).

Definition sample_chunks : list bytes :=
  map as_bytes
    ["hello shor"; "tyx sk-proj-ABCDEFGHIJKLM"; "NOPQRSTUVWX0123 sk-pro zz JKLMNOPQ"; "RSTUVWX!"].

Example sample_response :
  scrub_response (with_partial_filter sample_values) sample_chunks =
  as_bytes "hello [REDACTED:vault-secret]x [REDACTED:vault-secret] sk-pro zz [REDACTED:vault-secret]!".
Proof. vm_compute. reflexivity. Qed.

Lemma no_secret_run_witness :
  ¬ ∃ pre post, scrub_response (with_partial_filter sample_values) sample_chunks
    = pre ++ window_at (as_bytes sample_secret) 20 ++ post.
Proof.
  apply (no_secret_run sample_values sample_chunks (as_bytes sample_secret) "OPENAI_API_KEY"
    (window_at (as_bytes sample_secret) 20)); [left| |discriminate].
  apply list_elem_of_fmap. exists 20%nat. split; [done|]. vm_compute. repeat constructor.
Defined.

(** [partial_hold_start] stops at the longest suffix that can become a window,
    not at the shortest: after [xab] both [ab] and [b] can. *)
Lemma hold_start_is_longest :
  let a := from_token_secret_pairs [("TOKEN", "abababababababababab")] in
  partial_hold_start a (as_bytes "xab") = 1%nat ∧
  starts_window a (as_bytes "ab") = true ∧ starts_window a (as_bytes "b") = true.
Proof. vm_compute. auto. Qed.
