(* ===== verification/JsonText.v ===== *)
(** * JSON texts, one line each

    The approval store, the audit log and its checkpoint are files of JSON
    objects.  Here is what they rely on from [serde_json]'s writer and reader
    ([JsonTextLaws]), what serde derives for the fields of a struct, and a
    concrete writer and reader that satisfy the laws, for the witnesses. *)

From S2P Require Import Prelude Text Ids External DemoSerde.

(** ** The laws *)

(** What a reader gives back as it was written. *)
Definition simple_value (v : value) : bool :=
  match v with
  | VNull | VBool _ | VString _ => true
  | VNumber (NPos n) => (n <=? u64_max)%N
  | _ => false
  end.

(** A text is one line of UTF-8, an object's is between braces, and an object
    with distinct keys and simple values is read back, its fields in some
    order, and a newline behind a text makes no difference. *)
Class JsonTextLaws (X : External) : Prop := {
  json_text_utf8 : ∀ v, utf8_valid (json_to_vec v) = true;
  json_text_line : ∀ v, contains_char "010"%char (json_to_vec v) = false;
  json_text_braces : ∀ m, ∃ t, json_to_vec (VObject m) = "{" +:+ t +:+ "}";
  json_text_parses : ∀ m, NoDup m.*1 → Forall (fun kv => simple_value kv.2 = true) m →
    ∃ m', m' ≡ₚ m ∧ parse_json (json_to_vec (VObject m)) = Some (VObject m');
  json_text_newline : ∀ v,
    parse_json (json_to_vec v +:+ String "010"%char EmptyString) = parse_json (json_to_vec v);
}.

(** ** Reading a struct

    What serde derives: an object with the fields, each at most once, unknown
    fields ignored, an absent [Option] [None], a defaulted field its default. *)

(** A field of an object: absent, present once, or an error *)
Definition member (name : string) (m : list (string * value)) : option (option value) :=
  match List.filter (fun kv => String.eqb kv.1 name) m with
  | [] => Some None
  | [kv] => Some (Some kv.2)
  | _ => None
  end.

Definition read_string (v : value) : option string :=
  match v with VString s => Some s | _ => None end.

Definition read_u64 (v : value) : option N :=
  match v with VNumber (NPos n) => if (n <=? u64_max)%N then Some n else None | _ => None end.

Definition read_bool (v : value) : option bool :=
  match v with VBool b => Some b | _ => None end.

Definition read_option {T} (read : value → option T) (v : value) : option (option T) :=
  match v with VNull => Some None | _ => match read v with Some x => Some (Some x) | None => None end end.

(** A field without a default, and one with the value [d] where it is absent *)
Definition required {T} (read : value → option T) (o : option value) : option T :=
  match o with Some v => read v | None => None end.

Definition defaulted {T} (read : value → option T) (d : T) (o : option value) : option T :=
  match o with Some v => read v | None => Some d end.

(** [Value::get(name)]: a field of an object, [None] of anything else *)
Definition get (name : string) (v : value) : option value :=
  match v with
  | VObject m => snd <$> List.find (fun kv => String.eqb kv.1 name) m
  | _ => None
  end.

Definition as_str (o : option value) : option string := o ≫= read_string.
Definition as_u64 (o : option value) : option N := o ≫= read_u64.

Lemma filter_key_unique (name : string) (m : list (string * value)) :
  NoDup m.*1 →
  List.filter (fun kv => String.eqb kv.1 name) m = [] ∨
  ∃ kv, List.filter (fun kv => String.eqb kv.1 name) m = [kv].
Proof.
  induction m as [|kv m IH]; simpl; [by left|]. intros [Hn Hd]%NoDup_cons.
  destruct (String.eqb_spec kv.1 name) as [<-|]; [|by apply IH]. right. exists kv. f_equal.
  destruct (List.filter _ m) as [|kv' l] eqn:E; [done|]. destruct Hn.
  assert (In kv' (List.filter (fun x => String.eqb x.1 kv.1) m)) as Hin by (rewrite E; by left).
  apply filter_In in Hin as [Hin He%String.eqb_eq]. rewrite <- He.
  apply list_elem_of_fmap. exists kv'. split; [done|]. by apply list_elem_of_In.
Qed.

(** Where the keys are distinct, a field does not depend on the order. *)
Lemma filter_key_perm (name : string) (m m' : list (string * value)) :
  m' ≡ₚ m → NoDup m.*1 →
  List.filter (fun kv => String.eqb kv.1 name) m' = List.filter (fun kv => String.eqb kv.1 name) m.
Proof.
  intros Hp Hd.
  assert (Permutation (List.filter (fun kv => String.eqb kv.1 name) m')
            (List.filter (fun kv => String.eqb kv.1 name) m)) as Hf.
  { clear -Hp. induction Hp; simpl; repeat case_match; try constructor; eauto.
    by etransitivity. }
  destruct (filter_key_unique name m Hd) as [E|[kv E]]; rewrite E in Hf |- *.
  - by apply Permutation_sym, Permutation_nil in Hf.
  - by apply Permutation_sym, Permutation_length_1_inv in Hf.
Qed.

Lemma member_read_perm (name : string) (m m' : list (string * value)) :
  m' ≡ₚ m → NoDup m.*1 → member name m' = member name m.
Proof. intros Hp Hd. unfold member. by rewrite (filter_key_perm name m m'). Qed.

Lemma get_filter name m :
  get name (VObject m) = snd <$> head (List.filter (fun kv => String.eqb kv.1 name) m).
Proof. simpl. induction m as [|kv m IH]; simpl; [done|]. by destruct (String.eqb kv.1 name). Qed.

Lemma get_perm name m m' : m' ≡ₚ m → NoDup m.*1 → get name (VObject m') = get name (VObject m).
Proof. intros Hp Hd. by rewrite !get_filter, (filter_key_perm name m m'). Qed.

Lemma read_option_to_value (o : option N) :
  match o with Some n => (n <= u64_max)%N | None => True end →
  read_option read_u64 (to_value o) = Some o.
Proof. destruct o as [n|]; simpl; [|done]. intros H. by rewrite (proj2 (N.leb_le _ _) H). Qed.

(** ** String maps

    A [BTreeMap] of strings, as it is serialized for a MAC. *)

Definition string_map_value (m : gmap string string) : value :=
  VObject (map (fun kv => (kv.1, VString kv.2)) (btree_iter m)).

Section laws.
Context `{X : External} `{JL : !JsonTextLaws X}.

Definition string_map_text (m : gmap string string) : string := json_to_vec (string_map_value m).

(** The text of a string map determines the map. *)
Lemma string_map_text_inj m m' : string_map_text m = string_map_text m' → m = m'.
Proof.
  assert (∀ m : gmap string string, ∃ l, l ≡ₚ map (fun kv => (kv.1, VString kv.2)) (btree_iter m) ∧
    parse_json (string_map_text m) = Some (VObject l)) as Hp.
  { clear m m'. intros m. unfold string_map_text, string_map_value. apply json_text_parses.
    - rewrite <- list_fmap_compose. apply (btree_iter_NoDup m).
    - apply Forall_forall. intros kv (kv0 & -> & _)%list_elem_of_fmap. done. }
  intros He. destruct (Hp m) as (l & Hl & E), (Hp m') as (l' & Hl' & E').
  rewrite He in E. rewrite E in E'. injection E' as <-. apply map_eq. intros k. apply option_eq.
  intros v. rewrite <- !btree_iter_elem.
  assert (∀ m : gmap string string, l ≡ₚ map (fun kv => (kv.1, VString kv.2)) (btree_iter m) →
    (k, v) ∈ btree_iter m ↔ (k, VString v) ∈ l) as Hin.
  { clear. intros m ->. split.
    - intros H. apply list_elem_of_fmap. by exists (k, v).
    - intros ([k' v'] & [= -> ->] & H)%list_elem_of_fmap. done. }
  by rewrite (Hin m Hl), (Hin m' Hl').
Qed.

Lemma json_text_trimmed m : trim (json_to_vec (VObject m)) = json_to_vec (VObject m).
Proof.
  destruct (json_text_braces m) as [t ->]. apply trim_id.
  by apply (graphic_ends_trimmed "{"%char t "}"%char).
Qed.

Lemma json_text_cr m : strip_cr (json_to_vec (VObject m)) = json_to_vec (VObject m).
Proof.
  destruct (json_text_braces m) as [t ->]. unfold strip_cr, strip_suffix, ends_with.
  change ("{" +:+ t +:+ "}") with (("{" +:+ t) +:+ "}"). by rewrite str_rev_concat.
Qed.

Lemma json_text_not_empty m : str_is_empty (json_to_vec (VObject m)) = false.
Proof. by destruct (json_text_braces m) as [t ->]. Qed.
End laws.

(** ** Bytes that hexadecimal texts consist of *)

Lemma lower_hex_graphic s : all_bytes is_lower_hex s = true → all_bytes is_ascii_graphic s = true.
Proof.
  induction s as [|c s IH]; simpl; [done|]. rewrite !andb_true_iff. intros [Hc Hs].
  split; [|by apply IH]. revert Hc. unfold is_lower_hex, is_ascii_digit, is_ascii_graphic, byte_in.
  rewrite orb_true_iff, !andb_true_iff, !N.leb_le. cbn. lia.
Qed.

Lemma graphic_utf8 s : all_bytes is_ascii_graphic s = true → utf8_valid s = true.
Proof.
  induction s as [|c s IH]; [done|]. cbn [all_bytes utf8_valid].
  rewrite andb_true_iff. intros [Hc Hs]. replace (byte_in "000"%char "127"%char c) with true.
  { by apply IH. }
  symmetry. revert Hc. unfold is_ascii_graphic, byte_in. rewrite !andb_true_iff, !N.leb_le. cbn. lia.
Qed.

(** ** A concrete writer and reader

    A text is the hexadecimal form of an encoding, between braces. *)

Definition line_to_vec (v : value) : string := "{" +:+ (demo_hex_encode (serde_to_vec v) +:+ "}").

Definition line_parse (s : string) : option value :=
  let s := match strip_suffix (String "010"%char EmptyString) s with Some t => t | None => s end in
  match strip_prefix "{" s with
  | Some rest =>
      match demo_hex_decode (str_take (String.length rest - 1) rest) with
      | Some text => serde_parse text
      | None => None
      end
  | None => None
  end.

(** A digest of all bytes, that tells the witnesses' texts apart *)
Fixpoint mix (s : string) (acc : N) : N :=
  match s with
  | EmptyString => acc
  | String c s' => mix s' ((acc * 65599 + N_of_ascii c + 1) mod 20000000000000000000000000000000)
  end.

Definition mix_digest (s : string) : string := fit 32 (N_to_string (mix s 0)).

Definition line_external : External := {|
  sha256 := demo_digest; hmac_sha256 k s := mix_digest (k +:+ s);
  hex_encode := demo_hex_encode; hex_decode := demo_hex_decode;
  json_string := demo_quote; parse_json := line_parse; json_to_vec := line_to_vec |}.

Lemma line_external_laws : ExternalLaws line_external.
Proof. destruct demo_external_laws. constructor; try done. intros k s. apply fit_length. Qed.

Lemma line_no_newline v : strip_suffix (String "010"%char EmptyString) (line_to_vec v) = None.
Proof.
  unfold strip_suffix, ends_with, line_to_vec.
  change ("{" +:+ (demo_hex_encode (serde_to_vec v) +:+ "}"))
    with (("{" +:+ demo_hex_encode (serde_to_vec v)) +:+ "}"). by rewrite str_rev_concat.
Qed.

Lemma line_parse_to_vec v : line_parse (line_to_vec v) = Some v.
Proof.
  unfold line_parse. rewrite line_no_newline. unfold line_to_vec.
  replace (strip_prefix "{" _) with (Some (demo_hex_encode (serde_to_vec v) +:+ "}")).
  - change "}"%string with (String "}"%char EmptyString). rewrite str_take_init.
    pose proof (hex_decode_encode (ExternalLaws := line_external_laws) (serde_to_vec v)) as Hh. simpl in Hh.
    rewrite Hh. apply serde_parse_to_vec.
  - symmetry. by apply strip_prefix_Some.
Qed.

Lemma strip_suffix_app p a : strip_suffix p (a +:+ p) = Some a.
Proof.
  unfold strip_suffix. rewrite (proj2 (ends_with_spec p (a +:+ p))) by by exists a.
  rewrite str_length_app. f_equal.
  replace (String.length a + String.length p - String.length p)%nat with (String.length a) by lia.
  apply str_take_app.
Qed.

Lemma line_json_laws : JsonTextLaws line_external.
Proof.
  assert (∀ v, all_bytes is_ascii_graphic (line_to_vec v) = true) as Hg.
  { intros v. unfold line_to_vec. rewrite !all_bytes_app.
    by rewrite (lower_hex_graphic _ (hex_encode_lower (ExternalLaws := line_external_laws) _)). }
  constructor.
  - intros v. apply graphic_utf8, (Hg v).
  - intros v. change (json_to_vec v) with (line_to_vec v). specialize (Hg v). revert Hg.
    generalize (line_to_vec v). clear. unfold contains_char.
    induction s as [|c s IH]; [done|]. cbn [all_bytes any_byte]. rewrite andb_true_iff.
    intros [Hc Hs]. rewrite IH by done. destruct (ascii_eqb "010"%char c) eqn:E; [|done].
    by apply ascii_eqb_eq in E as <-.
  - intros m. by eexists.
  - intros m _ _. exists m. split; [done|apply (line_parse_to_vec (VObject m))].
  - intros v. change (line_parse (line_to_vec v +:+ String "010"%char EmptyString) = line_parse (line_to_vec v)).
    unfold line_parse. by rewrite strip_suffix_app, line_no_newline.
Qed.
