(* ===== verification/Approval.v ===== *)
(** * Human approval of MCP tools: [crates/phantom-core/src/mcp_approval.rs]

    A mutating tool call is allowed after three steps: a pending record with a
    fresh nonce is stored, the user approves the nonce in a terminal, and the
    tool call presents the nonce and its token, which consumes the record.
    The record file, the key file, the argument hash, the value-blind
    parameter summary and every public operation are here.  The directory is
    [StateDir]; a clock reading is an argument, numbered by the point of the
    operation that takes it.  The theorems are in [ApprovalSpec]. *)

From S2P Require Import Prelude Text Ids External StateDir JsonText.

(** ** Constants *)

Definition APPROVAL_TTL_SECS : N := 300.
Definition APPROVED_USE_TTL_SECS : N := 300.
Definition APPROVAL_LOCK_FILE : string := "mcp-approvals.lock".
Definition APPROVAL_RECORDS_FILE : string := "mcp-approvals.jsonl".
Definition APPROVAL_KEY_FILE : string := "mcp-approval-key".
Definition MAX_PARAMETER_SUMMARY_BYTES : N := 4096.
Definition MAX_PARAMETER_STRING_BYTES : N := 512.
Definition MAX_PARAMETER_COLLECTION_ITEMS : nat := 64.
Definition MAX_PARAMETER_DEPTH : nat := 4.
Definition MAX_PROJECT_ID_BYTES : N := 1024.

(** ** Errors

    One constructor per message; [EStorage] is an error of the file system
    passed on.  [EDraws] is not an error of the code: the loop that draws
    nonces is cut off there ([draw_nonce]). *)
Inductive ApprovalError :=
  | EStorage (e : ErrorKind)
  | EKeyText
  | ERecordText (line : nat)
  | ENonceText
  | EToolName
  | EProjectId
  | EProjectCredential
  | EToolDenied (tool : string)
  | EToolUnreviewed (tool : string)
  | EParamsNotJson
  | EParamsNotObject
  | ETooDeep (path : string)
  | EStringTooLong (path : string)
  | ECredentialShaped (path : string)
  | ETooManyItems (path : string)
  | ETooManyFields (path : string)
  | EForbiddenField (field : string)
  | ESummaryTooLong
  | EDraws
  | ENoPending
  | ENonceNotFound
  | EExpired
  | EAlreadyApproved
  | EPredatesConsent
  | EWrongTool (recorded given : string)
  | EWrongProject (recorded given : string)
  | ENotApproved
  | EParamMismatch
  | EInvalidToken
  | EHomeNotDirectory
  | EStatusUnreadable.

#[export] Instance ApprovalError_eq_dec : EqDecision ApprovalError.
Proof. solve_decision. Defined.

(** ** Nonces *)

Record ApprovalNonce := mk_nonce { an_encoded : string; an_bytes : string }.

#[export] Instance ApprovalNonce_eq_dec : EqDecision ApprovalNonce.
Proof. solve_decision. Defined.

(** [u8::is_ascii_hexdigit] *)
Definition is_ascii_hexdigit (c : ascii) : bool :=
  is_ascii_digit c || byte_in "a"%char "f"%char c || byte_in "A"%char "F"%char c.

Section nonces.
Context `{X : External}.

(** [ApprovalNonce::generate], from the 32 bytes the generator filled in *)
Definition nonce_of_bytes (bytes : string) : ApprovalNonce := mk_nonce (hex_encode bytes) bytes.

(** [ApprovalNonce::parse] *)
Definition nonce_parse (encoded : string) : result ApprovalNonce ApprovalError :=
  fail_if (negb (str_len encoded =? 64)%N || negb (all_bytes is_ascii_hexdigit encoded)) ENonceText
  (let? decoded := ok_or (hex_decode encoded) ENonceText in
   fail_if (negb (str_len decoded =? 32)%N) ENonceText (Ok (nonce_of_bytes decoded))).
End nonces.

#[export] Instance Serialize_nonce : Serialize ApprovalNonce := fun n => VString (an_encoded n).

(** ** Records *)

Record StoredApprovalRecord := mk_stored {
  sr_nonce : ApprovalNonce;
  sr_tool_name : string;
  sr_arg_hash : string;
  sr_project_id : string;
  sr_effect_summary : string;
  sr_parameter_summary : string;
  sr_created_at : N;
  sr_expires_at : option N;
  sr_approved : bool;
  sr_approved_at : option N;
}.

#[export] Instance StoredApprovalRecord_eq_dec : EqDecision StoredApprovalRecord.
Proof. solve_decision. Defined.

(** The derived [Serialize], fields in declaration order *)
#[export] Instance Serialize_stored : Serialize StoredApprovalRecord := fun r =>
  VObject ([("nonce", to_value (sr_nonce r)); ("tool_name", to_value (sr_tool_name r));
            ("arg_hash", to_value (sr_arg_hash r)); ("project_id", to_value (sr_project_id r));
            ("effect_summary", to_value (sr_effect_summary r));
            ("parameter_summary", to_value (sr_parameter_summary r));
            ("created_at", to_value (sr_created_at r))]
           ++ skip_none "expires_at" (sr_expires_at r)
           ++ [("approved", to_value (sr_approved r))]
           ++ skip_none "approved_at" (sr_approved_at r)).

(** The public [ApprovalRecord]: the same fields with the nonce as text *)
Record ApprovalRecord := mk_record {
  ar_nonce : string;
  ar_tool_name : string;
  ar_arg_hash : string;
  ar_project_id : string;
  ar_effect_summary : string;
  ar_parameter_summary : string;
  ar_created_at : N;
  ar_expires_at : option N;
  ar_approved : bool;
  ar_approved_at : option N;
}.

(** [impl From<StoredApprovalRecord> for ApprovalRecord] *)
Definition public_record (r : StoredApprovalRecord) : ApprovalRecord :=
  mk_record (an_encoded (sr_nonce r)) (sr_tool_name r) (sr_arg_hash r) (sr_project_id r)
    (sr_effect_summary r) (sr_parameter_summary r) (sr_created_at r) (sr_expires_at r)
    (sr_approved r) (sr_approved_at r).

(** [impl TryFrom<ApprovalRecord> for StoredApprovalRecord] *)
Definition stored_record `{X : External} (r : ApprovalRecord)
    : result StoredApprovalRecord ApprovalError :=
  let? nonce := nonce_parse (ar_nonce r) in
  Ok (mk_stored nonce (ar_tool_name r) (ar_arg_hash r) (ar_project_id r)
        (ar_effect_summary r) (ar_parameter_summary r) (ar_created_at r) (ar_expires_at r)
        (ar_approved r) (ar_approved_at r)).

(** [expires_at.is_none_or(|expires_at| now >= expires_at)], the body of
    [ApprovalRecord::is_expired_at] and of [StoredApprovalRecord::is_expired] *)
Definition expired_at (expires_at : option N) (now : N) : bool :=
  match expires_at with Some t => (t <=? now)%N | None => true end.

(** [ApprovalRecord::is_expired_at] *)
Definition is_expired_at (r : ApprovalRecord) (now : N) : bool := expired_at (ar_expires_at r) now.

(** [ApprovalRecord::remaining_secs] *)
Definition remaining_secs (r : ApprovalRecord) (now : N) : option N :=
  match ar_expires_at r with Some t => Some (t - now)%N | None => None end.

(** [StoredApprovalRecord::is_expired] *)
Definition is_expired (r : StoredApprovalRecord) (now : N) : bool := expired_at (sr_expires_at r) now.

(** [StoredApprovalRecord::has_informed_summary] *)
Definition has_informed_summary (r : StoredApprovalRecord) : bool :=
  negb (str_is_empty (sr_effect_summary r)) && negb (str_is_empty (sr_parameter_summary r)).

(** *** Reading a record

    What serde derives for the struct: an object with its fields, or an array
    of all of them in order. *)

Section reading.
Context `{X : External}.

(** [Deserialize for ApprovalNonce] *)
Definition read_nonce (v : value) : option ApprovalNonce :=
  match read_string v with
  | Some s => match nonce_parse s with Ok n => Some n | Err _ => None end
  | None => None
  end.

Definition read_fields (nonce tool hash project effect params created expires approved approved_at
    : option value) : option StoredApprovalRecord :=
  nonce ← required read_nonce nonce;
  tool ← required read_string tool;
  hash ← required read_string hash;
  project ← required read_string project;
  effect ← defaulted read_string EmptyString effect;
  params ← defaulted read_string EmptyString params;
  created ← required read_u64 created;
  expires ← defaulted (read_option read_u64) None expires;
  approved ← defaulted read_bool false approved;
  approved_at ← defaulted (read_option read_u64) None approved_at;
  Some (mk_stored nonce tool hash project effect params created expires approved approved_at).

#[export] Instance Deserialize_stored : Deserialize StoredApprovalRecord := fun v =>
  match v with
  | VObject m =>
      nonce ← member "nonce" m;
      tool ← member "tool_name" m;
      hash ← member "arg_hash" m;
      project ← member "project_id" m;
      effect ← member "effect_summary" m;
      params ← member "parameter_summary" m;
      created ← member "created_at" m;
      expires ← member "expires_at" m;
      approved ← member "approved" m;
      approved_at ← member "approved_at" m;
      read_fields nonce tool hash project effect params created expires approved approved_at
  | VArray [a; b; c; d; e; f; g; h; i; j] =>
      read_fields (Some a) (Some b) (Some c) (Some d) (Some e) (Some f) (Some g) (Some h)
        (Some i) (Some j)
  | _ => None
  end.
End reading.

(** ** The reviewed tools *)

Definition EFFECT_SUMMARIES : list (string * string) := [
  ("phantom_setup_workspace",
   "Provision the local plan-seal key or persist a bearerless workspace apply request, as selected by phase.");
  ("phantom_init",
   "Store detected dotenv secrets in the vault and rewrite project setup files, committing the managed dotenv file last.");
  ("phantom_add_secret",
   "Reject the deprecated plaintext MCP add path without accepting a value.");
  ("phantom_remove_secret",
   "Delete the named secret and its lifecycle metadata from the local vault.");
  ("phantom_rotate",
   "Remap all managed local phm_ placeholders, invalidating the previous mappings.");
  ("phantom_rotate_with_expiry",
   "Remap managed local phm_ placeholders without changing provider credentials or lifecycle metadata.");
  ("phantom_cloud_push",
   "Encrypt the local vault and overwrite the authenticated Phantom Cloud copy.");
  ("phantom_cloud_pull",
   "Retrieve the authenticated Phantom Cloud vault and write its entries into the local vault.");
  ("phantom_copy_secret",
   "After target collision preflight, retrieve one local credential and transactionally create an absent target vault entry plus managed-dotenv mapping; refuse overwrite and return no value.");
  ("phantom_doctor",
   "Repair diagnosed project configuration or managed files when fix=true.");
  ("phantom_wrap",
   "Rewrite selected package.json scripts to run through phantom exec and add :raw backups.");
  ("phantom_unwrap",
   "Restore package.json scripts from :raw entries and remove those entries.");
  ("phantom_env",
   "Write the selected environment-example file.");
  ("phantom_team_create",
   "Send an authenticated provider request that creates a team and makes the caller its owner.");
  ("phantom_team_list",
   "Use the stored cloud credential to request the caller's team memberships.");
  ("phantom_team_members",
   "Use the stored cloud credential to request membership metadata for the selected team.");
  ("phantom_team_invite",
   "Send an authenticated provider request inviting the selected GitHub account to the selected team and role.");
  ("phantom_team_key_publish",
   "Send an authenticated provider request publishing this device's public team-vault key.");
  ("phantom_team_vault_push",
   "Encrypt the local vault for team members and overwrite the selected hosted team vault.");
  ("phantom_team_vault_pull",
   "Retrieve and decrypt the selected hosted team vault, then overwrite matching local vault entries.");
  ("phantom_validate_all",
   "Retrieve stored credentials, call supported provider validators, and persist value-free validation metadata.");
  ("phantom_validation_schedule",
   "Persist the selected background validation interval.");
  ("phantom_audit_alerts",
   "Backfill leak correlation, persist alert state, and dispatch configured notifications when backfill=true.");
  ("phantom_audit_export_report",
   "Persist the selected value-free audit report when save=true.");
  ("phantom_audit_hotspot_alerts",
   "Persist acknowledgements or snoozes for the selected hotspot alerts when ack=true.");
  ("phantom_apply_expiry_policy",
   "Persist vault-mode changes for credentials affected by the expiry policy.");
  ("phantom_secrets_auto_rotate",
   "Remap the selected local phm_ placeholder without rotating or syncing its provider credential.");
  ("phantom_rotate_provider",
   "Hard-deny automated live provider issuance before credential or network access; no provider or local state changes occur.");
  ("phantom_cloud_status",
   "Use the stored cloud credential to request authenticated cloud status metadata.")].

(** The tools whose approval is denied outright *)
Definition DENIED_TOOLS : list string := ["phantom_rotate_with_candidate"; "phantom_rotate_promote"].

(** [fn effect_summary_for_tool] *)
Definition effect_summary_for_tool (tool_name : string) : result string ApprovalError :=
  match List.find (fun row => String.eqb row.1 tool_name) EFFECT_SUMMARIES with
  | Some row => Ok row.2
  | None =>
      if existsb (String.eqb tool_name) DENIED_TOOLS then Err (EToolDenied tool_name)
      else Err (EToolUnreviewed tool_name)
  end.

(** ** The value-blind parameter summary *)

Definition PLAINTEXT_FIELDS : list string :=
  ["value"; "secret"; "secret_value"; "plaintext"; "credential"; "credentials"; "password";
   "passphrase"; "api_key"; "access_token"; "refresh_token"; "auth_token"; "authorization";
   "private_key"; "client_secret"; "token"].

Definition PLAINTEXT_SUFFIXES : list string :=
  ["_value"; "_password"; "_passphrase"; "_credential"; "_credentials"; "_access_token";
   "_refresh_token"; "_auth_token"; "_private_key"; "_client_secret"].

(** [fn forbidden_plaintext_field] *)
Definition forbidden_plaintext_field (field : string) : bool :=
  let field := to_ascii_lowercase field in
  existsb (String.eqb field) PLAINTEXT_FIELDS
  || existsb (fun suffix => ends_with suffix field) PLAINTEXT_SUFFIXES.

Definition CREDENTIAL_PREFIXES : list string :=
  ["sk-"; "sk_"; "pk_"; "rk_"; "whsec_"; "Bearer "; "ghp_"; "gho_"; "github_pat_"; "glpat-";
   "xoxb-"; "xoxp-"; "AKIA"; "shpat_"; "-----BEGIN "].

Definition CREDENTIAL_QUERY_NAMES : list string :=
  ["api_key"; "apikey"; "api-key"; "access_token"; "auth_token"; "token"; "password"; "secret";
   "sig"; "signature"].

(** A [name=value] pair of a query whose name says that the value is secret *)
Definition credential_pair (pair : string) : bool :=
  match split_once "="%char pair with
  | Some (name, _) => existsb (String.eqb (to_ascii_lowercase name)) CREDENTIAL_QUERY_NAMES
  | None => false
  end.

(** [fn credential_shaped_string] *)
Definition credential_shaped_string (v : string) : bool :=
  existsb (fun prefix => starts_with prefix v) CREDENTIAL_PREFIXES
  || (contains_str "://" v && contains_char "@"%char v)
  || (contains_str "://" v
      && match split_once "?"%char v with
         | Some (_, query) => existsb credential_pair (split_char "&"%char query)
         | None => false
         end).

(** [fn validate_summary_value] *)
Fixpoint validate_summary_value (v : value) (path : string) (depth : nat)
    : result unit ApprovalError :=
  fail_if (MAX_PARAMETER_DEPTH <? depth)%nat (ETooDeep path)
  match v with
  | VString s =>
      fail_if (MAX_PARAMETER_STRING_BYTES <? str_len s)%N (EStringTooLong path)
      (fail_if (credential_shaped_string s) (ECredentialShaped path) (Ok tt))
  | VArray items =>
      fail_if (MAX_PARAMETER_COLLECTION_ITEMS <? length items)%nat (ETooManyItems path)
      ((fix go index items :=
          match items with
          | [] => Ok tt
          | item :: rest =>
              let? _ := validate_summary_value item
                          (path +:+ "[" +:+ N_to_string index +:+ "]") (S depth) in
              go (index + 1)%N rest
          end) 0%N items)
  | VObject fields =>
      fail_if (MAX_PARAMETER_COLLECTION_ITEMS <? length fields)%nat (ETooManyFields path)
      ((fix go fields :=
          match fields with
          | [] => Ok tt
          | (field, nested) :: rest =>
              fail_if (forbidden_plaintext_field field) (EForbiddenField field)
              (let? _ := validate_summary_value nested (path +:+ "." +:+ field) (S depth) in
               go rest)
          end) fields)
  | VNull | VBool _ | VNumber _ => Ok tt
  end.

(** [fields.remove(..)] of the two approval transport fields *)
Definition TRANSPORT_FIELDS : list string := ["approval_token"; "approval_nonce"].

Definition without_transport (fields : list (string * value)) : list (string * value) :=
  List.filter (fun kv => negb (existsb (String.eqb kv.1) TRANSPORT_FIELDS)) fields.

Section approval.
Context `{X : External}.

(** [fn build_parameter_summary] *)
Definition build_parameter_summary (params_json : string) : result string ApprovalError :=
  let? params := ok_or (parse_json params_json) EParamsNotJson in
  match params with
  | VObject fields =>
      let params := VObject (without_transport fields) in
      let? _ := validate_summary_value params "$" 0 in
      let summary := json_to_vec params in
      fail_if (MAX_PARAMETER_SUMMARY_BYTES <? str_len summary)%N ESummaryTooLong (Ok summary)
  | _ => Err EParamsNotObject
  end.

(** ** Hashes and tokens *)

(** [fn hmac_sha256_hex] *)
Definition hmac_sha256_hex (key data : string) : string := hex_encode (hmac_sha256 key data).

(** [serde_json::from_str::<BTreeMap<String, Value>>(..).unwrap_or_default()]:
    a repeated key keeps its last value, anything but an object gives the
    empty map. *)
Definition sorted_params (params_json : string) : gmap string value :=
  match parse_json params_json with
  | Some (VObject fields) => foldl (fun m kv => <[kv.1 := kv.2]> m) ∅ fields
  | _ => ∅
  end.

(** The text that is hashed *)
Definition canonical_params (params_json : string) : string :=
  json_to_vec (VObject (btree_iter
    (delete "approval_nonce" (delete "approval_token" (sorted_params params_json))))).

(** [fn compute_arg_hash] *)
Definition compute_arg_hash (params_json key : string) : string :=
  hmac_sha256_hex key (canonical_params params_json).

(** [fn compute_approval_token] *)
Definition compute_approval_token (nonce arg_hash key : string) : string :=
  hmac_sha256_hex key (nonce +:+ ":" +:+ arg_hash).

(** [fn compute_typed_approval_token] *)
Definition compute_typed_approval_token (nonce : ApprovalNonce) (arg_hash key : string) : string :=
  hex_encode (hmac_sha256 key (hex_encode (an_bytes nonce) +:+ ":" +:+ arg_hash)).

(** The difference that the loop of [constant_time_eq] collects *)
Fixpoint byte_diff (a b : string) (diff : N) : N :=
  match a, b with
  | String x a', String y b' =>
      byte_diff a' b' (N.lor diff (N.lxor (N_of_ascii x) (N_of_ascii y)))
  | _, _ => diff
  end.

(** [fn constant_time_eq] *)
Definition constant_time_eq (a b : string) : bool :=
  if (str_len a =? str_len b)%N then (byte_diff a b 0 =? 0)%N else false.

(** ** Storage

    What an operation works on: the directory [~/.phantom] and the calls of
    [crate::audit::log] so far, newest last.  [ApprovalHost] is the rest of
    the operating system: the home directory and the judgement of the state
    directory, a whole file read through an open handle, and the paths that
    the status queries look at without the lock. *)

End approval.

Inductive FileType := FtSymlink | FtDirectory | FtRegular | FtSpecial.

Class ApprovalHost `{S : StateDir} := {
  (** [home_dir()], [ensure_private_dir(home)], [PrivateStateDir::ensure(home)] *)
  home_dir : result string ErrorKind;
  ensure_private_dir : dir_t → string → result unit ErrorKind;
  ensure_state_dir : dir_t → string → result unit ErrorKind;
  (** [read_to_string] or [lines] of an open file sees the whole file *)
  read_all : dir_t → string → result string ErrorKind;
  (** [symlink_metadata(path)]'s file type, of the state directory or a file in it *)
  path_type : dir_t → string → result FileType ErrorKind;
  (** [crate::fs::read_regular_file(path)] *)
  read_regular_file : dir_t → string → result (option string) ErrorKind;
}.

Class ApprovalHostLaws `{L : StateDirLaws} (H : ApprovalHost) : Prop :=
  read_all_contents : ∀ d n b, read_all d n = Ok b → file_contents d n = Some b.

Record approval_world `{S : StateDir} := mk_world { aw_dir : dir_t; aw_audit : list (string * string) }.

Section storage.
Context `{X : External} `{SD : StateDir} `{H : !ApprovalHost}.

Abbreviation approval_io := (io approval_world ApprovalError).

(** An operation of the directory, as a step of the world *)
Definition on_dir {T} (f : dir_t → dir_t * result T ErrorKind) : io approval_world ErrorKind T :=
  fun w => let '(d, r) := f (aw_dir w) in (mk_world _ d (aw_audit w), r).

Definition storage {T} (m : io approval_world ErrorKind T) : approval_io T :=
  fun w => let '(w', r) := m w in (w', map_err EStorage r).

(** [crate::audit::log(operation, Some(detail))]: best effort, never an error *)
Definition audit_log (operation detail : string) : approval_io unit :=
  fun w => (mk_world _ (aw_dir w) (aw_audit w ++ [(operation, detail)]), Ok tt).

(** [fn ensure_private_approval_home] *)
Definition ensure_private_approval_home (d : dir_t) (path : string) : result unit ErrorKind :=
  map_err (fun e => if bool_decide (e = OtherKind) then InvalidData else e) (ensure_private_dir d path).

(** [fn acquire_storage_lock]; the lock is held until the operation returns *)
Definition acquire_storage_lock : approval_io unit :=
  do? home := storage (on_dir (fun d => (d, map_ok (fun h => path_join h ".phantom") home_dir))) in
  do? _ := storage (on_dir (fun d => (d, ensure_private_approval_home d home))) in
  do? _ := storage (on_dir (fun d => (d, ensure_state_dir d home))) in
  do? _ := storage (on_dir (fun d => open_file d APPROVAL_LOCK_FILE true)) in
  storage (on_dir (fun d => (d, lock_exclusive d APPROVAL_LOCK_FILE))).

(** [fn read_key] *)
Definition read_key (text : string) : result string ApprovalError :=
  fail_if (negb (utf8_valid text)) EKeyText (ok_or (hex_decode (trim text)) EKeyText).

(** [fn load_or_create_approval_key_locked]; [fresh] is what
    [generate_32_bytes] would return *)
Definition load_or_create_approval_key_locked (fresh : string) : approval_io string := fun w =>
  let '(w1, r) := on_dir (fun d => open_file d APPROVAL_KEY_FILE false) w in
  match r with
  | Ok _ =>
      (do? text := storage (on_dir (fun d => (d, read_all d APPROVAL_KEY_FILE))) in
       io_lift (read_key text)) w1
  | Err NotFound =>
      (do? _ := storage (on_dir (fun d => replace_file d APPROVAL_KEY_FILE (hex_encode fresh))) in
       io_ret fresh) w1
  | Err e => (w1, Err (EStorage e))
  end.

(** [fn parse_records], from line number [index] on *)
Fixpoint parse_lines (index : nat) (lines : list string)
    : result (list StoredApprovalRecord) ApprovalError :=
  match lines with
  | [] => Ok []
  | line :: rest =>
      fail_if (negb (utf8_valid line)) (EStorage InvalidData)
      (if str_is_empty (trim line) then parse_lines (S index) rest
       else
         let? record := ok_or (from_slice (trim line)) (ERecordText (S index)) in
         let? records := parse_lines (S index) rest in
         Ok (record :: records))
  end.

Definition parse_records (text : string) : result (list StoredApprovalRecord) ApprovalError :=
  parse_lines 0 (text_lines text).

(** [fn load_records] *)
Definition load_records : approval_io (option (list StoredApprovalRecord)) := fun w =>
  let '(w1, r) := on_dir (fun d => open_file d APPROVAL_RECORDS_FILE false) w in
  match r with
  | Ok _ =>
      (do? text := storage (on_dir (fun d => (d, read_all d APPROVAL_RECORDS_FILE))) in
       do? records := io_lift (parse_records text) in
       io_ret (Some records)) w1
  | Err NotFound => (w1, Ok None)
  | Err e => (w1, Err (EStorage e))
  end.

(** What [write_records] writes: one line per record *)
Definition records_text (records : list StoredApprovalRecord) : string :=
  join_lines "010"%char (map (fun r => json_to_vec (to_value r)) records).

(** [fn write_records] *)
Definition write_records (records : list StoredApprovalRecord) : approval_io unit := fun w =>
  let '(w1, r) := on_dir (fun d => open_file d APPROVAL_RECORDS_FILE false) w in
  match r with
  | Ok _ | Err NotFound =>
      storage (on_dir (fun d => replace_file d APPROVAL_RECORDS_FILE (records_text records))) w1
  | Err e => (w1, Err (EStorage e))
  end.

(** ** Operations

    [clock i] is the reading of [now_unix] taken at the [i]th point of the
    operation: where a list is filtered, point [i] is its [i]th record. *)

(** [load_or_create_approval_key] *)
Definition load_or_create_approval_key (fresh : string) : approval_io string :=
  do? _ := acquire_storage_lock in load_or_create_approval_key_locked fresh.

(** [records.retain(|record| !record.is_expired())] *)
Fixpoint retain_live (clock : nat → N) (i : nat) (records : list StoredApprovalRecord)
    : list StoredApprovalRecord :=
  match records with
  | [] => []
  | r :: rest =>
      if is_expired r (clock i) then retain_live clock (S i) rest
      else r :: retain_live clock (S i) rest
  end.

(** The loop that draws a nonce no record has: [draws i] are the bytes of the
    [i]th draw.  The code's loop has no bound; [fuel] draws are looked at. *)
Fixpoint draw_nonce (fuel i : nat) (draws : nat → string) (records : list StoredApprovalRecord)
    : option ApprovalNonce :=
  match fuel with
  | O => None
  | S fuel' =>
      let candidate := nonce_of_bytes (draws i) in
      if forallb (fun r => negb (bool_decide (sr_nonce r = candidate))) records
      then Some candidate
      else draw_nonce fuel' (S i) draws records
  end.

(** The fresh record *)
Definition pending_record (nonce : ApprovalNonce) (tool arg_hash project effect params : string)
    (now : N) : StoredApprovalRecord :=
  mk_stored nonce tool arg_hash project effect params now
    (Some (wrapping_add_u64 now APPROVAL_TTL_SECS)) false None.

(** The early returns of [generate_pending_approval], before the lock *)
Definition check_request (tool_name params_json project_id : string)
    : result (string * string) ApprovalError :=
  fail_if ((128 <? str_len tool_name)%N
           || negb (all_bytes (fun c => is_ascii_lowercase c || is_ascii_digit c || ascii_eqb c "_"%char)
                      tool_name)) EToolName
  (fail_if (str_is_empty project_id || (MAX_PROJECT_ID_BYTES <? str_len project_id)%N) EProjectId
   (fail_if (credential_shaped_string project_id) EProjectCredential
    (let? effect := effect_summary_for_tool tool_name in
     let? params := build_parameter_summary params_json in
     Ok (effect, params)))).

(** [generate_pending_approval] *)
Definition generate_pending_approval (fresh : string) (clock : nat → N) (fuel : nat)
    (draws : nat → string) (tool_name params_json project_id : string) : approval_io string :=
  do? (effect, params) := io_lift (check_request tool_name params_json project_id) in
  do? _ := acquire_storage_lock in
  do? key := load_or_create_approval_key_locked fresh in
  do? loaded := load_records in
  let loaded := default [] loaded in
  let records := retain_live clock 0 loaded in
  do? nonce := io_lift (ok_or (draw_nonce fuel 0 draws records) EDraws) in
  let record := pending_record nonce tool_name (compute_arg_hash params_json key) project_id
                  effect params (clock (length loaded)) in
  do? _ := write_records (records ++ [record]) in
  io_ret (an_encoded nonce).

(** [records.iter().position(|record| record.nonce == nonce)], with the record *)
Definition find_nonce (nonce : ApprovalNonce) (records : list StoredApprovalRecord)
    : option (nat * StoredApprovalRecord) :=
  list_find (fun r => sr_nonce r = nonce) records.

(** The checks that [approve_nonce] and [inspect_pending_approval] make *)
Definition check_pending (r : StoredApprovalRecord) (now : N) : result unit ApprovalError :=
  fail_if (is_expired r now) EExpired
  (fail_if (sr_approved r) EAlreadyApproved
   (fail_if (negb (has_informed_summary r)) EPredatesConsent (Ok tt))).

(** [records[idx]] marked approved *)
Definition approve_record (now : N) (r : StoredApprovalRecord) : StoredApprovalRecord :=
  mk_stored (sr_nonce r) (sr_tool_name r) (sr_arg_hash r) (sr_project_id r) (sr_effect_summary r)
    (sr_parameter_summary r) (sr_created_at r)
    (Some (N.min (now + APPROVED_USE_TTL_SECS) u64_max)) true (Some now).

Record ApprovalOutcome := mk_outcome {
  ao_approval_token : string;
  ao_tool_name : string;
  ao_arg_hash : string;
}.

(** [approve_nonce] *)
Definition approve_nonce (fresh : string) (clock : nat → N) (nonce_hex : string)
    : approval_io ApprovalOutcome :=
  do? nonce := io_lift (nonce_parse nonce_hex) in
  do? _ := acquire_storage_lock in
  do? key := load_or_create_approval_key_locked fresh in
  do? loaded := load_records in
  do? records := io_lift (ok_or loaded ENoPending) in
  do? (idx, r) := io_lift (ok_or (find_nonce nonce records) ENonceNotFound) in
  do? _ := io_lift (check_pending r (clock 0%nat)) in
  do? _ := write_records (<[idx := approve_record (clock 1%nat) r]> records) in
  do? _ := audit_log "mcp.approval.granted" (sr_tool_name r +:+ ":" +:+ nonce_hex) in
  io_ret (mk_outcome (compute_typed_approval_token nonce (sr_arg_hash r) key)
            (sr_tool_name r) (sr_arg_hash r)).

(** [inspect_pending_approval] *)
Definition inspect_pending_approval (clock : nat → N) (nonce_hex : string)
    : approval_io ApprovalRecord :=
  do? nonce := io_lift (nonce_parse nonce_hex) in
  do? _ := acquire_storage_lock in
  do? loaded := load_records in
  do? records := io_lift (ok_or loaded ENoPending) in
  do? (_, r) := io_lift (ok_or (find_nonce nonce records) ENonceNotFound) in
  do? _ := io_lift (check_pending r (clock 0%nat)) in
  io_ret (public_record r).

(** The checks of [validate_and_consume_approval] before the hashes *)
Definition check_approved (r : StoredApprovalRecord) (tool_name project_id : string) (now : N)
    : result unit ApprovalError :=
  fail_if (negb (String.eqb (sr_tool_name r) tool_name)) (EWrongTool (sr_tool_name r) tool_name)
  (fail_if (negb (String.eqb (sr_project_id r) project_id))
     (EWrongProject (sr_project_id r) project_id)
   (fail_if (negb (sr_approved r)) ENotApproved
    (fail_if (negb (has_informed_summary r)) EPredatesConsent
     (fail_if (is_expired r now) EExpired (Ok tt))))).

(** [validate_and_consume_approval] *)
Definition validate_and_consume_approval (fresh : string) (clock : nat → N)
    (nonce_hex approval_token tool_name params_json project_id : string) : approval_io unit :=
  do? nonce := io_lift (nonce_parse nonce_hex) in
  do? _ := acquire_storage_lock in
  do? key := load_or_create_approval_key_locked fresh in
  do? loaded := load_records in
  do? records := io_lift (ok_or loaded ENoPending) in
  do? (idx, r) := io_lift (ok_or (find_nonce nonce records) ENonceNotFound) in
  do? _ := io_lift (check_approved r tool_name project_id (clock 0%nat)) in
  let event := tool_name +:+ ":" +:+ nonce_hex in
  if negb (String.eqb (compute_arg_hash params_json key) (sr_arg_hash r)) then
    do? _ := audit_log "mcp.approval.param_mismatch" event in io_throw EParamMismatch
  else if negb (constant_time_eq approval_token
                  (compute_typed_approval_token nonce (sr_arg_hash r) key)) then
    do? _ := audit_log "mcp.approval.invalid_token" event in io_throw EInvalidToken
  else
    do? _ := write_records (delete idx records) in
    audit_log "mcp.approval.consumed" event.

(** [list_pending_approvals] *)
Fixpoint pending_of (clock : nat → N) (i : nat) (records : list StoredApprovalRecord)
    : list ApprovalRecord :=
  match records with
  | [] => []
  | r :: rest =>
      if negb (sr_approved r) && negb (is_expired r (clock i))
      then public_record r :: pending_of clock (S i) rest
      else pending_of clock (S i) rest
  end.

Definition list_pending_approvals (clock : nat → N) : approval_io (list ApprovalRecord) :=
  do? _ := acquire_storage_lock in
  do? loaded := load_records in
  io_ret match loaded with Some records => pending_of clock 0 records | None => [] end.

Record ApprovalStatusEntry := mk_status {
  st_tool_name : string;
  st_project_id : string;
  st_created_at : N;
  st_expires_at : option N;
  st_approved : bool;
  st_approved_at : option N;
  st_expired : bool;
}.

Fixpoint status_of (clock : nat → N) (i : nat) (records : list StoredApprovalRecord)
    : list ApprovalStatusEntry :=
  match records with
  | [] => []
  | r :: rest =>
      mk_status (sr_tool_name r) (sr_project_id r) (sr_created_at r) (sr_expires_at r)
        (sr_approved r) (sr_approved_at r) (is_expired r (clock i)) :: status_of clock (S i) rest
  end.

(** [fn approval_home_is_real_dir_if_present] *)
Definition approval_home_is_real_dir_if_present (d : dir_t) : result bool ApprovalError :=
  let? home := map_err EStorage home_dir in
  match path_type d (path_join home ".phantom") with
  | Ok FtDirectory => Ok true
  | Ok _ => Err EHomeNotDirectory
  | Err NotFound => Ok false
  | Err e => Err (EStorage e)
  end.

(** [read_approval_status]: no lock, nothing written *)
Definition read_approval_status (clock : nat → N) (d : dir_t)
    : result (list ApprovalStatusEntry) ApprovalError :=
  let? present := approval_home_is_real_dir_if_present d in
  if negb present then Ok []
  else
    let? home := map_err EStorage home_dir in
    let? records :=
      match read_regular_file d (path_join (path_join home ".phantom") APPROVAL_RECORDS_FILE) with
      | Ok (Some bytes) => parse_records bytes
      | Ok None => Ok []
      | Err _ => Err EStatusUnreadable
      end in
    Ok (status_of clock 0 records).

(** [fn require_regular_file_if_present] *)
Definition require_regular_file_if_present (d : dir_t) (path : string) : result unit ApprovalError :=
  match path_type d path with
  | Ok FtRegular => Ok tt
  | Ok _ => Err (EStorage InvalidData)
  | Err NotFound => Ok tt
  | Err e => Err (EStorage e)
  end.

(** [approval_key_present]: the key is never read *)
Definition approval_key_present (d : dir_t) : result bool ApprovalError :=
  let? present := approval_home_is_real_dir_if_present d in
  if negb present then Ok false
  else
    let? home := map_err EStorage home_dir in
    let path := path_join (path_join home ".phantom") APPROVAL_KEY_FILE in
    let? _ := require_regular_file_if_present d path in
    Ok (is_ok (path_type d path)).

(** [prune_stale_approvals] *)
Definition prune_stale_approvals (clock : nat → N) : approval_io nat :=
  do? _ := acquire_storage_lock in
  do? loaded := load_records in
  match loaded with
  | None => io_ret 0%nat
  | Some records =>
      let kept := retain_live clock 0 records in
      let pruned := (length records - length kept)%nat in
      if (0 <? pruned)%nat then do? _ := write_records kept in io_ret pruned
      else io_ret pruned
  end.
End storage.
