(* ===== verification/ApprovalSpec.v ===== *)
(** * What the approval store guarantees

    First one text at a time; then the operations of [Approval] over a [StateDir], one after the other: what
    each does to the records and the key, and what a granted tool call says
    about the calls before it. *)

From S2P Require Import Prelude Text Ids External StateDir JsonText Approval.

(** ** The approval store's texts

    What the theorems below use about one text at a time: a
    record and the record file are read back as they were written, the key
    file likewise, the parameter summary is value-blind, and the argument
    hash depends on the reviewed parameters only. *)

Section texts.
Context `{X : External} `{XL : !ExternalLaws X} `{JL : !JsonTextLaws X}.

(** ** Nonces and keys *)

Lemma lower_hex_hexdigit s : all_bytes is_lower_hex s = true → all_bytes is_ascii_hexdigit s = true.
Proof.
  induction s as [|c s IH]; simpl; [done|]. rewrite !andb_true_iff. intros [Hc Hs].
  split; [|by apply IH]. unfold is_ascii_hexdigit. unfold is_lower_hex in Hc. by rewrite Hc.
Qed.

(** A nonce as [nonce_parse] returns it and [draw_nonce] draws it *)
Definition nonce_ok (n : ApprovalNonce) : Prop :=
  n = nonce_of_bytes (an_bytes n) ∧ String.length (an_bytes n) = 32%nat.

Lemma nonce_parse_ok s n : nonce_parse s = Ok n → nonce_ok n.
Proof.
  unfold nonce_parse. intros [_ H]%fail_if_Ok. apply rbind_Ok in H as (b & _ & H).
  apply fail_if_Ok in H as [Hl [= <-]]. split; [done|]. simpl.
  apply negb_false_iff, N.eqb_eq in Hl. unfold str_len in Hl. lia.
Qed.

(** The nonce's text gives the nonce back. *)
Lemma nonce_parse_encoded n : nonce_ok n → nonce_parse (an_encoded n) = Ok n.
Proof.
  destruct n as [e b]. intros [[= ->] Hl]. simpl in *. unfold nonce_parse, str_len.
  rewrite hex_encode_length, Hl, (lower_hex_hexdigit _ (hex_encode_lower _)). simpl.
  rewrite hex_decode_encode. simpl. unfold str_len. by rewrite Hl.
Qed.

(** The key file as it is created is read back. *)
Lemma read_key_fresh k : read_key (hex_encode k) = Ok k.
Proof.
  pose proof (lower_hex_graphic _ (hex_encode_lower k)) as Hg. unfold read_key.
  rewrite (graphic_utf8 _ Hg), (trim_id _ (graphic_trimmed _ Hg)), hex_decode_encode. done.
Qed.

(** ** Records *)

Definition u64 (n : N) : Prop := (n <= u64_max)%N.
Definition u64_opt (o : option N) : Prop := match o with Some n => u64 n | None => True end.

(** A record as the program makes it *)
Record record_ok (r : StoredApprovalRecord) : Prop := mk_record_ok {
  ok_nonce : nonce_ok (sr_nonce r);
  ok_created : u64 (sr_created_at r);
  ok_expires : u64_opt (sr_expires_at r);
  ok_approved_at : u64_opt (sr_approved_at r);
}.

(** A record is read back. *)
Lemma record_round_trip r :
  record_ok r → from_slice (json_to_vec (to_value r)) = Some r.
Proof.
  intros [Hn Hc He Ha]. unfold to_value at 1, Serialize_stored.
  match goal with |- context [VObject ?l] => set (m := l) end.
  assert (NoDup m.*1) as Hd.
  { subst m. destruct r as [? ? ? ? ? ? ? [e|] ? [a|]]; simpl; by apply (bool_decide_unpack _). }
  destruct (json_text_parses m Hd) as (m' & Hp & Hj).
  { subst m. destruct r as [? ? ? ? ? ? ? [e|] ? [a|]]; simpl in *; unfold u64 in *;
      rewrite !Forall_cons; split_and!; simpl; try done; by apply N.leb_le. }
  unfold from_slice. rewrite Hj. unfold from_value, Deserialize_stored.
  rewrite !(member_read_perm _ m m' Hp Hd). clear Hj Hp Hd m'. subst m.
  pose proof (nonce_parse_encoded _ Hn) as Hread. unfold u64 in Hc. apply N.leb_le in Hc.
  destruct r as [n tool hash project effect params created [e|] approved [a|]];
    unfold read_fields, read_nonce; simpl in *; rewrite Hread; simpl; rewrite Hc; simpl;
    try (apply N.leb_le in He; rewrite He); simpl; try (apply N.leb_le in Ha; rewrite Ha); done.
Qed.

(** ** The record file *)

(** A record's text is a line of its own. *)
Lemma record_line r :
  contains_char "010"%char (json_to_vec (to_value r)) = false ∧
  strip_cr (json_to_vec (to_value r)) = json_to_vec (to_value r).
Proof. split; [apply json_text_line|apply json_text_cr]. Qed.

Lemma record_trimmed r : trim (json_to_vec (to_value r)) = json_to_vec (to_value r).
Proof. apply json_text_trimmed. Qed.

Lemma record_not_empty r : str_is_empty (json_to_vec (to_value r)) = false.
Proof. apply json_text_not_empty. Qed.

Lemma text_lines_records rs :
  text_lines (records_text rs) = map (fun r => json_to_vec (to_value r)) rs.
Proof.
  apply text_lines_join, Forall_forall. intros l (r & -> & _)%list_elem_of_fmap. apply record_line.
Qed.

(** The record file is read back as it was written. *)
Lemma records_round_trip rs :
  Forall record_ok rs → parse_records (records_text rs) = Ok rs.
Proof.
  intros Hok. unfold parse_records. rewrite text_lines_records. generalize 0%nat as i.
  induction Hok as [|r rs Hr Hrs IH]; intros i; [done|]. cbn [map parse_lines].
  rewrite json_text_utf8, record_trimmed, record_not_empty, record_round_trip by done.
  simpl. by rewrite IH.
Qed.
End texts.

(** ** The parameter summary *)

(** A value and everything nested in it, each with its depth *)
Fixpoint subvalues (depth : nat) (v : value) : list (nat * value) :=
  (depth, v) ::
  match v with
  | VArray items => flat_map (subvalues (S depth)) items
  | VObject fields => flat_map (fun kv => subvalues (S depth) kv.2) fields
  | _ => []
  end.

(** What the summary may show at one place *)
Definition shown_ok (dv : nat * value) : Prop :=
  (dv.1 <= 4)%nat ∧
  match dv.2 with
  | VString s => (str_len s <= 512)%N ∧ credential_shaped_string s = false
  | VArray items => (length items <= 64)%nat
  | VObject fields =>
      (length fields <= 64)%nat ∧ Forall (fun kv => forbidden_plaintext_field kv.1 = false) fields
  | _ => True
  end.

(** The two inner loops of [validate_summary_value] *)
Definition validate_items (path : string) (depth : nat) :=
  fix go (index : N) (items : list value) : result unit ApprovalError :=
    match items with
    | [] => Ok tt
    | item :: rest =>
        let? _ := validate_summary_value item
                    (path +:+ "[" +:+ N_to_string index +:+ "]") (S depth) in
        go (index + 1)%N rest
    end.

Definition validate_fields (path : string) (depth : nat) :=
  fix go (fields : list (string * value)) : result unit ApprovalError :=
    match fields with
    | [] => Ok tt
    | (field, nested) :: rest =>
        fail_if (forbidden_plaintext_field field) (EForbiddenField field)
        (let? _ := validate_summary_value nested (path +:+ "." +:+ field) (S depth) in
         go rest)
    end.

Lemma fail_if_unit {E} b (e : E) k : fail_if b e k = Ok tt ↔ b = false ∧ k = Ok tt.
Proof. apply fail_if_Ok. Qed.

Lemma rbind_unit {E} (r : result unit E) k :
  rbind r (fun _ => k) = Ok tt ↔ r = Ok tt ∧ k = Ok tt.
Proof. rewrite rbind_Ok. split; [intros ([] & ? & ?)|]; naive_solver. Qed.

Lemma validate_summary_exact v path depth :
  validate_summary_value v path depth = Ok tt ↔ Forall shown_ok (subvalues depth v).
Proof.
  revert path depth. induction v as [|b|n|s|l IH|m IH] using value_ind'; intros path depth;
    cbn [validate_summary_value subvalues]; rewrite fail_if_unit, Nat.ltb_ge, Forall_cons;
    unfold shown_ok at 1; cbn [fst snd]; unfold MAX_PARAMETER_DEPTH.
  - rewrite Forall_nil. naive_solver.
  - rewrite Forall_nil. naive_solver.
  - rewrite Forall_nil. naive_solver.
  - rewrite Forall_nil, !fail_if_unit, N.ltb_ge. unfold MAX_PARAMETER_STRING_BYTES. naive_solver.
  - fold (validate_items path depth). rewrite fail_if_unit, Nat.ltb_ge.
    unfold MAX_PARAMETER_COLLECTION_ITEMS.
    assert (∀ i, validate_items path depth i l = Ok tt ↔
      Forall shown_ok (flat_map (subvalues (S depth)) l)) as H; [|rewrite H; naive_solver].
    induction IH as [|x l Hx _ IHl]; intros i; simpl; [by rewrite Forall_nil|].
    fold (validate_items path depth). by rewrite rbind_unit, Hx, IHl, Forall_app.
  - fold (validate_fields path depth). rewrite fail_if_unit, Nat.ltb_ge.
    unfold MAX_PARAMETER_COLLECTION_ITEMS.
    assert (validate_fields path depth m = Ok tt ↔
      Forall (fun kv => forbidden_plaintext_field kv.1 = false) m ∧
      Forall shown_ok (flat_map (fun kv => subvalues (S depth) kv.2) m)) as H;
      [|rewrite H; naive_solver].
    induction IH as [|[k x] m Hx _ IHm]; simpl; [by rewrite !Forall_nil|].
    fold (validate_fields path depth).
    rewrite fail_if_unit, rbind_unit, Hx, IHm, Forall_app, Forall_cons. simpl. naive_solver.
Qed.

Section params.
Context `{X : External}.

(** The summary is the parameters' text without the transport fields, and it
    is given exactly when all of it may be shown. *)
Lemma summary_exact p s :
  build_parameter_summary p = Ok s ↔
  ∃ m, parse_json p = Some (VObject m) ∧
       s = json_to_vec (VObject (without_transport m)) ∧ (str_len s <= 4096)%N ∧
       Forall shown_ok (subvalues 0 (VObject (without_transport m))).
Proof.
  unfold build_parameter_summary. rewrite rbind_Ok. setoid_rewrite ok_or_Ok. split.
  - intros (v & -> & H). destruct v as [| | | | |m]; try done. exists m. split; [done|].
    apply rbind_Ok in H as ([] & Hv & H). apply validate_summary_exact in Hv.
    apply fail_if_Ok in H as [H%N.ltb_ge [= <-]]. done.
  - intros (m & -> & -> & Hs & Hv). exists (VObject m). split; [done|]. apply rbind_Ok. exists tt.
    split; [by apply validate_summary_exact|]. apply fail_if_Ok. split; [by apply N.ltb_ge|done].
Qed.

Lemma sorted_params_lookup p m k :
  parse_json p = Some (VObject m) →
  sorted_params p !! k = snd <$> List.find (fun kv => String.eqb kv.1 k) (rev m).
Proof.
  intros Hp. unfold sorted_params. rewrite Hp. clear Hp.
  induction m as [|[a v] m IH] using rev_ind; [done|]. rewrite foldl_snoc, rev_app_distr. simpl.
  destruct (String.eqb_spec a k) as [->|Hne]; [by rewrite lookup_insert_eq|].
  by rewrite lookup_insert_ne.
Qed.

(** The reviewed parameters: what the argument hash depends on *)
Definition reviewed (p : string) : gmap string value :=
  delete "approval_nonce" (delete "approval_token" (sorted_params p)).

Lemma arg_hash_reviewed p q k : reviewed p = reviewed q → compute_arg_hash p k = compute_arg_hash q k.
Proof. unfold compute_arg_hash, canonical_params, reviewed. by intros ->. Qed.

(** Parameters that are not JSON are hashed as if there were none. *)
Lemma unparsable_params_hash p q k :
  parse_json p = None → parse_json q = Some (VObject []) →
  compute_arg_hash p k = compute_arg_hash q k.
Proof. intros Hp Hq. apply arg_hash_reviewed. unfold reviewed, sorted_params. by rewrite Hp, Hq. Qed.

(** ** Comparing tokens *)

Lemma byte_diff_zero a b diff :
  String.length a = String.length b → byte_diff a b diff = 0%N ↔ diff = 0%N ∧ a = b.
Proof.
  revert b diff. induction a as [|x a IH]; intros [|y b] diff; simpl; try done; [naive_solver|].
  intros [= Hl]. rewrite IH, N.lor_eq_0_iff, N.lxor_eq_0_iff by done. split.
  - intros [[-> Hxy] ->]. split; [done|]. f_equal.
    rewrite <- (Ascii.ascii_N_embedding x), Hxy. apply Ascii.ascii_N_embedding.
  - by intros [-> [= -> ->]].
Qed.

Lemma tokens_equal a b : Approval.constant_time_eq a b = true ↔ a = b.
Proof.
  unfold Approval.constant_time_eq, str_len. destruct (N.eqb_spec (N.of_nat (String.length a)) (N.of_nat (String.length b))).
  - rewrite N.eqb_eq, byte_diff_zero by lia. naive_solver.
  - split; [done|]. intros ->. done.
Qed.
End params.

(** A sublist has no other elements, and repeats nothing the list does not. *)
Lemma sublist_incl {A} (l k : list A) x : sublist l k → x ∈ l → x ∈ k.
Proof. induction 1; rewrite ?elem_of_cons; naive_solver. Qed.

Lemma sublist_Forall {A} (P : A → Prop) (l k : list A) : sublist l k → Forall P k → Forall P l.
Proof. rewrite !Forall_forall. intros Hs Hk x Hx. by eapply Hk, sublist_incl. Qed.

Lemma sublist_map_NoDup {A B} (f : A → B) (l k : list A) :
  sublist l k → NoDup (map f k) → NoDup (map f l).
Proof.
  induction 1 as [|x l k Hs IH|x l k Hs IH]; simpl; rewrite ?NoDup_cons; [done| |naive_solver].
  intros [Hx Hk]. split; [|by apply IH]. contradict Hx. revert Hx.
  rewrite !list_elem_of_In, !in_map_iff. intros (y & He & Hy%list_elem_of_In).
  exists y. split; [done|]. by apply list_elem_of_In, (sublist_incl l k).
Qed.

Section spec.
Context `{X : External} `{XL : !ExternalLaws X} `{JL : !JsonTextLaws X}.
Context `{SD : StateDir} `{SL : !StateDirLaws SD} `{H : !ApprovalHost}.
Context `{HL : !ApprovalHostLaws H}.

(** ** Storage *)

Definition file (w : approval_world) (n : string) : option string := file_contents (aw_dir w) n.

(** The records that are stored; a missing file stores none. *)
Definition stored (w : approval_world) (rs : list StoredApprovalRecord) : Prop :=
  match file w APPROVAL_RECORDS_FILE with
  | None => rs = []
  | Some text => parse_records text = Ok rs
  end.

(** The key that is stored *)
Definition has_key (w : approval_world) (k : string) : Prop :=
  ∃ text, file w APPROVAL_KEY_FILE = Some text ∧ read_key text = Ok k.

(** The worlds that agree on the two files *)
Definition same_files (w w' : approval_world) : Prop :=
  file w' APPROVAL_RECORDS_FILE = file w APPROVAL_RECORDS_FILE ∧
  file w' APPROVAL_KEY_FILE = file w APPROVAL_KEY_FILE.

#[local] Instance same_files_equiv : Equivalence same_files.
Proof. unfold same_files. split; [done|by intros ?? [-> ->]|by intros ??? [? ?] [-> ->]]. Qed.

#[local] Instance stored_proper : Proper (same_files ==> eq ==> iff) stored.
Proof. intros w w' [E _] rs ? <-. unfold stored. by rewrite E. Qed.

#[local] Instance has_key_proper : Proper (same_files ==> eq ==> iff) has_key.
Proof. intros w w' [_ E] k ? <-. unfold has_key. by rewrite E. Qed.

Lemma stored_functional w rs rs' : stored w rs → stored w rs' → rs = rs'.
Proof. unfold stored. destruct (file _ _); [|by intros -> ->]. intros E. rewrite E. by intros [= ->]. Qed.

Lemma has_key_functional w k k' : has_key w k → has_key w k' → k = k'.
Proof. intros (t & E & Hk) (t' & E' & Hk'). rewrite E in E'. injection E' as <-. congruence. Qed.

Lemma storage_inv {T} (m : io approval_world ErrorKind T) w w' r :
  storage m w = (w', r) → ∃ r0, m w = (w', r0) ∧ r = map_err EStorage r0.
Proof. unfold storage. destruct (m w) as [w1 r0]. intros [= <- <-]. eauto. Qed.

Lemma on_dir_inv {T} (f : dir_t → dir_t * result T ErrorKind) w w' r :
  on_dir f w = (w', r) → ∃ d, f (aw_dir w) = (d, r) ∧ w' = mk_world _ d (aw_audit w).
Proof. unfold on_dir. destruct (f (aw_dir w)) as [d r0]. intros [= <- <-]. eauto. Qed.

(** A step that only looks at the directory *)
Lemma look_inv {T} (g : dir_t → result T ErrorKind) w w' r :
  storage (on_dir (fun d => (d, g d))) w = (w', r) → w' = w ∧ r = map_err EStorage (g (aw_dir w)).
Proof.
  intros (r0 & (d & [= <- <-] & ->)%on_dir_inv & ->)%storage_inv. by destruct w.
Qed.

Lemma open_lock_same w w' r :
  storage (on_dir (fun d => open_file d APPROVAL_LOCK_FILE true)) w = (w', r) → same_files w w'.
Proof.
  intros (r0 & (d & Ho & ->)%on_dir_inv & ->)%storage_inv. unfold same_files, file. simpl.
  split; eapply open_file_same; eauto; by left.
Qed.

Lemma acquire_lock_same w w' r : acquire_storage_lock w = (w', r) → same_files w w'.
Proof.
  unfold acquire_storage_lock. intros Hr.
  apply io_bind_inv in Hr as [(w1 & home & [-> _]%look_inv & Hr)|(e & [-> _]%look_inv & _)]; [|done].
  apply io_bind_inv in Hr as [(w2 & [] & [-> _]%look_inv & Hr)|(e & [-> _]%look_inv & _)]; [|done].
  apply io_bind_inv in Hr as [(w3 & [] & [-> _]%look_inv & Hr)|(e & [-> _]%look_inv & _)]; [|done].
  apply io_bind_inv in Hr as [(w4 & [] & Ho & Hr)|(e & Ho & _)]; [|by eapply open_lock_same].
  apply look_inv in Hr as [-> _]. by eapply open_lock_same.
Qed.

(** Opening a file without creating it *)
Lemma open_existing_inv n w w' (r : result unit ErrorKind) :
  on_dir (fun d => open_file d n false) w = (w', r) →
  same_files w w' ∧ (r = Err NotFound → file w n = None).
Proof.
  intros (d & Ho & ->)%on_dir_inv. unfold same_files, file. simpl. split.
  - split; eapply open_file_same; eauto.
  - intros ->. by eapply open_file_missing.
Qed.

(** Reading an open file *)
Lemma read_all_inv n w w' r :
  storage (on_dir (fun d => (d, read_all d n))) w = (w', r) →
  w' = w ∧ (∀ text, r = Ok text → file w n = Some text) ∧ (∀ e, r = Err e → ∃ k, e = EStorage k).
Proof.
  intros [-> ->]%look_inv. split; [done|]. unfold file.
  destruct (read_all (aw_dir w) n) as [t|e] eqn:E; simpl; split; try done.
  - intros ? [= <-]. by apply read_all_contents.
  - intros ? [= <-]. eauto.
Qed.

Lemma replace_inv n text w w' r :
  storage (on_dir (fun d => replace_file d n text)) w = (w', r) →
  (r = Ok tt ∧ file w' n = Some text ∨
   (∃ e, r = Err e) ∧ (file w' n = file w n ∨ file w' n = Some text)) ∧
  ∀ m, m ≠ n → file w' m = file w m.
Proof.
  intros (r0 & (d & Hr & ->)%on_dir_inv & ->)%storage_inv. unfold file. simpl. split.
  - destruct r0 as [[]|e]; simpl.
    + left. split; [done|]. by eapply replace_file_ok.
    + right. split; [by eexists|]. by eapply replace_file_err.
  - intros m Hm. by eapply replace_file_other.
Qed.

(** The key: what is there stays, and what is returned is there. *)
Lemma key_step fresh w w' r :
  load_or_create_approval_key_locked fresh w = (w', r) →
  (∀ rs, stored w rs ↔ stored w' rs) ∧ (∀ k, has_key w k → has_key w' k) ∧
  (∀ k, r = Ok k → has_key w' k).
Proof.
  unfold load_or_create_approval_key_locked.
  destruct (on_dir _ w) as [w1 o] eqn:Ho. apply open_existing_inv in Ho as [Hs Hmiss].
  assert (∀ w2 (r : result string ApprovalError), w2 = w1 → (∀ k, r = Ok k → has_key w1 k) → (w2, r) = (w', r) →
    (∀ rs, stored w rs ↔ stored w' rs) ∧ (∀ k, has_key w k → has_key w' k) ∧
    (∀ k, r = Ok k → has_key w' k)) as Hdone.
  { intros w2 r' -> Hk [= <-]. split_and!; [|intros k; by rewrite Hs|done].
    intros rs. by rewrite Hs. }
  destruct o as [[]|e].
  - intros [(w2 & t & (-> & Ht & _)%read_all_inv & Hr)|(e & (-> & _)%read_all_inv & ->)]%io_bind_inv.
    + apply io_lift_inv in Hr as [-> Hr]. apply (Hdone w1 r); [done| |done].
      intros k ->. exists t. split; [by apply Ht|done].
    + by apply (Hdone w1 (Err e)).
  - destruct e; try (intros [= <- <-]; by apply (Hdone w1 (Err (EStorage _)))).
    intros Hr. specialize (Hmiss eq_refl).
    assert (∀ w2 r2, storage (on_dir (fun d => replace_file d APPROVAL_KEY_FILE (hex_encode fresh)))
      w1 = (w2, r2) → (∀ rs, stored w rs ↔ stored w2 rs) ∧ (∀ k, has_key w k → has_key w2 k) ∧
      (r2 = Ok tt → has_key w2 fresh)) as Hrep.
    { intros w2 r2 [Hk Ho]%replace_inv. split_and!.
      - intros rs. unfold stored. rewrite (Ho APPROVAL_RECORDS_FILE) by done. by destruct Hs as [-> _].
      - intros k (t & Ht & _). congruence.
      - intros ->. destruct Hk as [[_ Hk]|[[? ?] _]]; [|done]. exists (hex_encode fresh).
        split; [done|apply read_key_fresh]. }
    apply io_bind_inv in Hr as [(w2 & [] & Hr2 & Hr)|(e & Hr2 & ->)].
    + apply Hrep in Hr2 as (H1 & H2 & H3). injection Hr as <- <-. split_and!; [done..|].
      intros k [= <-]. by apply H3.
    + apply Hrep in Hr2 as (H1 & H2 & _). by split_and!.
Qed.

Lemma load_step w w' r :
  load_records w = (w', r) →
  same_files w w' ∧ (∀ o, r = Ok o → stored w' (default [] o) ∧ (o = None → stored w' [])).
Proof.
  unfold load_records. destruct (on_dir _ w) as [w1 o] eqn:Ho.
  apply open_existing_inv in Ho as [Hs Hmiss]. destruct o as [[]|e].
  - intros [(w2 & t & (-> & Ht & _)%read_all_inv & Hr)|(e & (-> & _)%read_all_inv & ->)]%io_bind_inv;
      [|done].
    apply io_bind_inv in Hr as [(w3 & rs & [-> Hp]%io_lift_inv & Hr)|(e & [-> _]%io_lift_inv & ->)];
      [|done].
    injection Hr as <- <-. split; [done|]. intros ? [= <-]. split; [|done]. simpl.
    unfold stored. by rewrite (Ht _ eq_refl).
  - destruct e; intros [= <- <-]; split; try done. intros ? [= <-].
    assert (stored w1 []) as Hn; [|done]. rewrite <- Hs. unfold stored. by rewrite Hmiss.
Qed.

Lemma write_step rs w w' r :
  Forall record_ok rs → write_records rs w = (w', r) →
  (r = Ok tt ∧ stored w' rs ∨
   (∃ e, r = Err e) ∧ ((∀ rs0, stored w rs0 ↔ stored w' rs0) ∨ stored w' rs)) ∧
  (∀ k, has_key w k ↔ has_key w' k).
Proof.
  intros Hok. unfold write_records. destruct (on_dir _ w) as [w1 o] eqn:Ho.
  apply open_existing_inv in Ho as [Hs _].
  assert (storage (on_dir (fun d => replace_file d APPROVAL_RECORDS_FILE (records_text rs))) w1 =
    (w', r) → (r = Ok tt ∧ stored w' rs ∨
   (∃ e, r = Err e) ∧ ((∀ rs0, stored w rs0 ↔ stored w' rs0) ∨ stored w' rs)) ∧
  (∀ k, has_key w k ↔ has_key w' k)) as Hrep.
  { intros [Hk Ho]%replace_inv. split.
    - assert (file w' APPROVAL_RECORDS_FILE = Some (records_text rs) → stored w' rs) as Hst.
      { unfold stored. intros ->. by apply records_round_trip. }
      destruct Hk as [[-> Hk]|[He [Hk|Hk]]]; [left; auto|right|right]; (split; [done|]); [left|auto].
      intros rs0. unfold stored. rewrite Hk. by destruct Hs as [-> _].
    - intros k. unfold has_key. rewrite (Ho APPROVAL_KEY_FILE) by done. by destruct Hs as [_ ->]. }
  destruct o as [[]|e]; [done|]. destruct e; [done|..];
    (intros [= <- <-]; split; [right; split; [by eexists|left]|]; intros; by rewrite Hs).
Qed.

(** ** One operation *)

(** Nothing that matters changed; a key may have been created. *)
Definition kept (w w' : approval_world) : Prop :=
  (∀ rs, stored w rs ↔ stored w' rs) ∧ (∀ k, has_key w k → has_key w' k).

#[local] Instance kept_preorder : PreOrder kept.
Proof. unfold kept. split; [done|]. intros w1 w2 w3 [A B] [C D]. split; [|auto]. intros rs. by rewrite A. Qed.

Lemma same_files_kept w w' : same_files w w' → kept w w'.
Proof. intros E. split; intros ?; by rewrite E. Qed.

Lemma audit_kept op detail w w' r : audit_log op detail w = (w', r) → kept w w' ∧ r = Ok tt.
Proof. by intros [= <- <-]. Qed.

Lemma io_lift_bind_inv {T U} (x : result T ApprovalError) (k : T → io approval_world ApprovalError U) w w' r :
  io_bind (io_lift x) k w = (w', r) →
  (∃ t, x = Ok t ∧ k t w = (w', r)) ∨ (w' = w ∧ ∃ e, x = Err e ∧ r = Err e).
Proof.
  unfold io_bind, io_lift. destruct x as [t|e]; [left; eauto|]. intros [= <- <-]. right. eauto.
Qed.

(** The lock, the key and the records, which most operations start with *)
Lemma prologue_inv {T} fresh (k : string → option (list StoredApprovalRecord) → io _ _ T) w w' r rs :
  stored w rs →
  (do? _ := acquire_storage_lock in
   do? key := load_or_create_approval_key_locked fresh in
   do? loaded := load_records in k key loaded) w = (w', r) →
  (kept w w' ∧ ∃ e, r = Err e) ∨
  ∃ w1 key loaded, kept w w1 ∧ has_key w1 key ∧ default [] loaded = rs ∧
    k key loaded w1 = (w', r).
Proof.
  intros Hst Hr.
  apply io_bind_inv in Hr as [(w1 & [] & H1%acquire_lock_same%same_files_kept & Hr)|
    (e & H1%acquire_lock_same%same_files_kept & ->)]; [|left; eauto].
  apply io_bind_inv in Hr as [(w2 & key & (A & B & C)%key_step & Hr)|(e & (A & B & _)%key_step & ->)].
  2:{ left. split; [|eauto]. by transitivity w1. }
  apply io_bind_inv in Hr as [(w3 & loaded & [Hs Hl]%load_step & Hr)|(e & [Hs _]%load_step & ->)].
  all: apply same_files_kept in Hs; assert (kept w1 w2) as H2 by done.
  - right. exists w3, key, loaded. destruct (Hl _ eq_refl) as [Hd _]. split_and!; [|by apply Hs, C| |done].
    + by transitivity w1; [|transitivity w2].
    + apply (stored_functional w3); [done|]. by apply Hs, H2, H1.
  - left. split; [|eauto]. by transitivity w1; [|transitivity w2].
Qed.

(** Without the key *)
Lemma short_prologue_inv {T} (k : option (list StoredApprovalRecord) → io _ _ T) w w' r rs :
  stored w rs →
  (do? _ := acquire_storage_lock in do? loaded := load_records in k loaded) w = (w', r) →
  (kept w w' ∧ ∃ e, r = Err e) ∨
  ∃ w1 loaded, kept w w1 ∧ default [] loaded = rs ∧ k loaded w1 = (w', r).
Proof.
  intros Hst Hr.
  apply io_bind_inv in Hr as [(w1 & [] & H1%acquire_lock_same%same_files_kept & Hr)|
    (e & H1%acquire_lock_same%same_files_kept & ->)]; [|left; eauto].
  apply io_bind_inv in Hr as [(w3 & loaded & [Hs Hl]%load_step & Hr)|(e & [Hs _]%load_step & ->)].
  all: apply same_files_kept in Hs.
  - right. exists w3, loaded. destruct (Hl _ eq_refl) as [Hd _]. split_and!; [by transitivity w1| |done].
    apply (stored_functional w3); [done|]. by apply Hs, H1.
  - left. split; [|eauto]. by transitivity w1.
Qed.

Lemma retain_live_sublist clock i rs : sublist (retain_live clock i rs) rs.
Proof.
  revert i. induction rs as [|r rs IH]; intros i; simpl; [constructor|].
  case_match; constructor; apply IH.
Qed.

Lemma wrapping_u64 a b : u64 (wrapping_add_u64 a b).
Proof. unfold u64, wrapping_add_u64. pose proof (N.mod_lt (a + b) (u64_max + 1)). unfold u64_max in *. lia. Qed.

Lemma draw_nonce_fresh fuel i draws rs n :
  draw_nonce fuel i draws rs = Some n →
  (∃ j, n = nonce_of_bytes (draws j)) ∧ Forall (fun r => sr_nonce r ≠ n) rs.
Proof.
  revert i. induction fuel as [|fuel IH]; intros i; simpl; [done|].
  destruct (forallb _ rs) eqn:E; [|apply IH]. intros [= <-]. split; [eauto|].
  rewrite forallb_forall in E. apply Forall_forall. intros r Hr Heq.
  apply list_elem_of_In in Hr. apply E in Hr. by rewrite bool_decide_true in Hr.
Qed.

(** The inputs an operation is given: clock readings are 64-bit, draws are 32
    bytes. *)
Definition clock_ok (clock : nat → N) : Prop := ∀ i, u64 (clock i).
Definition draws_ok (draws : nat → string) : Prop := ∀ i, String.length (draws i) = 32%nat.

Lemma pending_ok clock j draws n tool hash project effect params i :
  clock_ok clock → draws_ok draws → n = nonce_of_bytes (draws j) →
  record_ok (pending_record n tool hash project effect params (clock i)).
Proof.
  intros Hc Hd ->. split; simpl; [|apply Hc|apply wrapping_u64|done]. split; [done|apply Hd].
Qed.

(** [generate_pending_approval] stores nothing, or what is left of the live
    records and the new one; a failed write may have done either. *)
Lemma generate_step fresh clock fuel draws tool p project w w' r rs :
  stored w rs → Forall record_ok rs → clock_ok clock → draws_ok draws →
  generate_pending_approval fresh clock fuel draws tool p project w = (w', r) →
  kept w w' ∨
  ∃ effect params key n, check_request tool p project = Ok (effect, params) ∧
    (∀ k, has_key w k → has_key w' k) ∧ has_key w' key ∧
    draw_nonce fuel 0 draws (retain_live clock 0 rs) = Some n ∧
    stored w' (retain_live clock 0 rs ++
      [pending_record n tool (compute_arg_hash p key) project effect params (clock (length rs))]).
Proof.
  intros Hst Hok Hc Hd Hr. unfold generate_pending_approval in Hr.
  apply io_lift_bind_inv in Hr as [([effect params] & Hreq & Hr)|[-> _]]; [|by left].
  apply (prologue_inv _ _ _ _ _ rs Hst) in Hr as [[? _]|(w1 & key & loaded & Hk & Hkey & Hl & Hr)];
    [by left|]. cbn zeta in Hr. rewrite Hl in Hr.
  apply io_lift_bind_inv in Hr as [(n & Hn%ok_or_Ok & Hr)|[-> _]]; [|by left].
  assert (Forall record_ok (retain_live clock 0 rs ++
      [pending_record n tool (compute_arg_hash p key) project effect params (clock (length rs))])) as Hok'.
  { apply Forall_app. split; [by eapply sublist_Forall; [apply retain_live_sublist|]|].
    apply Forall_singleton. destruct (draw_nonce_fresh _ _ _ _ _ Hn) as [[j ->] _].
    by eapply pending_ok. }
  assert (∀ rw, write_records (retain_live clock 0 rs ++
      [pending_record n tool (compute_arg_hash p key) project effect params (clock (length rs))]) w1
      = (w', rw) → kept w w' ∨
    ∃ effect params key n, check_request tool p project = Ok (effect, params) ∧
    (∀ k, has_key w k → has_key w' k) ∧ has_key w' key ∧
    draw_nonce fuel 0 draws (retain_live clock 0 rs) = Some n ∧
    stored w' (retain_live clock 0 rs ++
      [pending_record n tool (compute_arg_hash p key) project effect params (clock (length rs))])) as Hw.
  { intros rw Hw. apply write_step in Hw as [Hs Hkk]; [|done].
    assert (stored w' (retain_live clock 0 rs ++ [pending_record n tool (compute_arg_hash p key)
      project effect params (clock (length rs))]) ∨ kept w w') as [Hst'|Hke].
    { destruct Hs as [[_ Hs]|[_ [Hs|Hs]]]; [by left|right|by left]. transitivity w1; [done|].
      split; [done|]. intros k. by apply Hkk. }
    - right. exists effect, params, key, n. split_and!; try done; [|by apply Hkk].
      intros k Hk'. by apply Hkk, Hk.
    - by left. }
  apply io_bind_inv in Hr as [(w2 & [] & Hw1 & Hr)|(e & Hw1 & ->)].
  - injection Hr as -> _. by eapply Hw.
  - by eapply Hw.
Qed.

Lemma find_nonce_Some n rs idx r :
  find_nonce n rs = Some (idx, r) → rs !! idx = Some r ∧ sr_nonce r = n.
Proof. unfold find_nonce. intros (H1 & H2 & _)%list_find_Some. done. Qed.

Lemma approve_ok now r : u64 now → record_ok r → record_ok (approve_record now r).
Proof. intros Hn [Ho Hc He Ha]. split; simpl; try done. unfold u64. lia. Qed.

(** A write that may have failed: the old records or the new ones *)
Lemma write_kept rs w w' r :
  Forall record_ok rs → write_records rs w = (w', r) →
  (r = Ok tt ∧ stored w' rs ∨ (∃ e, r = Err e) ∧ (kept w w' ∨ stored w' rs)) ∧
  (∀ k, has_key w k → has_key w' k).
Proof.
  intros Hok [Hs Hk]%write_step; [|done]. split; [|intros k; by apply Hk].
  destruct Hs as [?|[? [Hs|?]]]; [by left|right|right]; (split; [done|]); [left|by right].
  split; [done|]. intros k. by apply Hk.
Qed.

(** [approve_nonce] marks the nonce's record, which passed the checks, or
    stores nothing. *)
Lemma approve_step fresh clock hex w w' r rs :
  stored w rs → Forall record_ok rs → clock_ok clock →
  approve_nonce fresh clock hex w = (w', r) →
  kept w w' ∨
  ∃ n idx rec, nonce_parse hex = Ok n ∧ find_nonce n rs = Some (idx, rec) ∧
    check_pending rec (clock 0%nat) = Ok tt ∧ (∀ k, has_key w k → has_key w' k) ∧
    stored w' (<[idx := approve_record (clock 1%nat) rec]> rs).
Proof.
  intros Hst Hok Hc Hr. unfold approve_nonce in Hr.
  apply io_lift_bind_inv in Hr as [(n & Hn & Hr)|[-> _]]; [|by left].
  apply (prologue_inv _ _ _ _ _ rs Hst) in Hr as [[? _]|(w1 & key & loaded & Hk & Hkey & Hl & Hr)]; [by left|].
  apply io_lift_bind_inv in Hr as [(l & ->%ok_or_Ok & Hr)|[-> _]]; [|by left]. simpl in Hl. subst l.
  apply io_lift_bind_inv in Hr as [([idx rec] & Hf%ok_or_Ok & Hr)|[-> _]]; [|by left].
  apply io_lift_bind_inv in Hr as [([] & Hp & Hr)|[-> _]]; [|by left].
  assert (Forall record_ok (<[idx := approve_record (clock 1%nat) rec]> rs)) as Hok'.
  { apply Forall_insert; [done|]. apply approve_ok; [apply Hc|].
    apply find_nonce_Some in Hf as [Hf _]. by eapply Forall_lookup_1. }
  assert (∀ w2 rw, write_records (<[idx := approve_record (clock 1%nat) rec]> rs) w1 = (w2, rw) →
    (kept w w2 ∨ stored w2 (<[idx := approve_record (clock 1%nat) rec]> rs)) ∧
    (∀ k, has_key w k → has_key w2 k)) as Hw.
  { intros w2 rw [Hs Hk2]%write_kept; [|done]. split; [|intros k Hk'; by apply Hk2, Hk].
    destruct Hs as [[_ ?]|[_ [?|?]]]; [by right|left; by transitivity w1|by right]. }
  assert (∀ w2, ((kept w w2 ∨ stored w2 (<[idx := approve_record (clock 1%nat) rec]> rs)) ∧
    (∀ k, has_key w k → has_key w2 k)) → kept w2 w' → kept w w' ∨
    ∃ n idx rec, nonce_parse hex = Ok n ∧ find_nonce n rs = Some (idx, rec) ∧
    check_pending rec (clock 0%nat) = Ok tt ∧ (∀ k, has_key w k → has_key w' k) ∧
    stored w' (<[idx := approve_record (clock 1%nat) rec]> rs)) as Hend.
  { intros w2 [[Hs|Hs] Hk2] Hk3; [left; by transitivity w2|right].
    exists n, idx, rec. split_and!; try done; [|by apply Hk3]. intros k Hk'. by apply Hk3, Hk2. }
  apply io_bind_inv in Hr as [(w2 & [] & Hw1%Hw & Hr)|(e & Hw1%Hw & ->)]; [|by eapply Hend].
  apply io_bind_inv in Hr as [(w3 & [] & [Ha _]%audit_kept & Hr)|(e & [Ha _]%audit_kept & _)].
  - injection Hr as -> _. by eapply Hend.
  - by eapply Hend.
Qed.

(** [validate_and_consume_approval] stores nothing and fails, or everything
    agrees with the nonce's record, which is removed: a failure then is one of
    the write. *)
Lemma consume_step fresh clock hex token tool p project w w' r rs :
  stored w rs → Forall record_ok rs →
  validate_and_consume_approval fresh clock hex token tool p project w = (w', r) →
  (kept w w' ∧ ∃ e, r = Err e) ∨
  ∃ n idx rec key, nonce_parse hex = Ok n ∧ find_nonce n rs = Some (idx, rec) ∧
    check_approved rec tool project (clock 0%nat) = Ok tt ∧
    (∀ k, has_key w k → has_key w' k) ∧ has_key w' key ∧
    sr_arg_hash rec = compute_arg_hash p key ∧
    token = compute_typed_approval_token n (sr_arg_hash rec) key ∧
    stored w' (delete idx rs).
Proof.
  intros Hst Hok Hr. unfold validate_and_consume_approval in Hr.
  apply io_lift_bind_inv in Hr as [(n & Hn & Hr)|[-> ?]]; [|left; naive_solver].
  apply (prologue_inv _ _ _ _ _ rs Hst) in Hr as [?|(w1 & key & loaded & Hk & Hkey & Hl & Hr)]; [by left|].
  apply io_lift_bind_inv in Hr as [(l & ->%ok_or_Ok & Hr)|[-> ?]]; [|left; naive_solver].
  simpl in Hl. subst l.
  apply io_lift_bind_inv in Hr as [([idx rec] & Hf%ok_or_Ok & Hr)|[-> ?]]; [|left; naive_solver].
  apply io_lift_bind_inv in Hr as [([] & Hp & Hr)|[-> ?]]; [|left; naive_solver].
  assert (∀ op ev e, (do? _ := audit_log op ev in io_throw e) w1 = (w', r) →
    kept w w' ∧ ∃ e, r = Err e) as Hthrow.
  { intros op ev e [(w2 & [] & [Ha _]%audit_kept & [= <- <-])|(e' & [Ha ?]%audit_kept & ->)]%io_bind_inv;
      (split; [by transitivity w1; [|etransitivity]|by eexists]). }
  destruct (String.eqb_spec (compute_arg_hash p key) (sr_arg_hash rec)) as [Hh|]; simpl in Hr;
    [|left; by eapply Hthrow].
  destruct (Approval.constant_time_eq token _) eqn:Ht; simpl in Hr; [|left; by eapply Hthrow].
  apply tokens_equal in Ht.
  assert (Forall record_ok (delete idx rs)) as Hok' by by apply Forall_delete.
  apply io_bind_inv in Hr as [(w2 & [] & [Hs Hk2]%write_kept & Hr)|(e & [Hs Hk2]%write_kept & ->)];
    try done.
  - destruct Hs as [[_ Hs]|[[? ?] _]]; [|done]. apply audit_kept in Hr as [Ha ->]. right.
    exists n, idx, rec, key. split_and!; try done; [| |by apply Ha].
    + intros k Hk'. by apply Ha, Hk2, Hk.
    + by apply Ha, Hk2.
  - destruct Hs as [[? _]|[_ [Hs|Hs]]]; [done|left|right].
    + split; [|by eexists]. by transitivity w1.
    + exists n, idx, rec, key. split_and!; try done; [|by apply Hk2].
      intros k Hk'. by apply Hk2, Hk.
Qed.

(** Pruning leaves live records only, the other operations change nothing. *)
Lemma prune_step clock w w' r rs :
  stored w rs → Forall record_ok rs → prune_stale_approvals clock w = (w', r) →
  kept w w' ∨ (∀ k, has_key w k → has_key w' k) ∧ stored w' (retain_live clock 0 rs).
Proof.
  intros Hst Hok Hr. unfold prune_stale_approvals in Hr.
  apply (short_prologue_inv _ _ _ _ rs Hst) in Hr as [[? _]|(w1 & loaded & Hk & Hl & Hr)]; [by left|].
  destruct loaded as [l|]; [|injection Hr as <- <-; by left]. simpl in Hl. subst l. cbn zeta in Hr.
  destruct (0 <? _)%nat; [|injection Hr as <- <-; by left].
  assert (∀ w2 rw, write_records (retain_live clock 0 rs) w1 = (w2, rw) → kept w w2 ∨
    (∀ k, has_key w k → has_key w2 k) ∧ stored w2 (retain_live clock 0 rs)) as Hw.
  { intros w2 rw [Hs Hk2]%write_kept; [|by eapply sublist_Forall; [apply retain_live_sublist|]].
    assert (∀ k, has_key w k → has_key w2 k) as Hk3 by (intros k Hk'; by apply Hk2, Hk).
    destruct Hs as [[_ ?]|[_ [?|?]]]; [by right|left; by transitivity w1|by right]. }
  apply io_bind_inv in Hr as [(w2 & n & Hr2 & Hr)|(e & Hr2 & ->)]; [|by eapply Hw].
  injection Hr as -> _. by eapply Hw.
Qed.

Lemma list_step clock w w' r rs : stored w rs → list_pending_approvals clock w = (w', r) → kept w w'.
Proof.
  intros Hst Hr. apply (short_prologue_inv _ _ _ _ rs Hst) in Hr as [[? _]|(w1 & l & Hk & _ & Hr)];
    [done|]. by injection Hr as <- _.
Qed.

Lemma inspect_step clock hex w w' r rs :
  stored w rs → inspect_pending_approval clock hex w = (w', r) → kept w w'.
Proof.
  intros Hst Hr. apply io_lift_bind_inv in Hr as [(n & Hn & Hr)|[-> _]]; [|done].
  apply (short_prologue_inv _ _ _ _ rs Hst) in Hr as [[? _]|(w1 & l & Hk & _ & Hr)]; [done|].
  apply io_lift_bind_inv in Hr as [(rs' & _ & Hr)|[-> _]]; [|done].
  apply io_lift_bind_inv in Hr as [([i rec] & _ & Hr)|[-> _]]; [|done].
  apply io_lift_bind_inv in Hr as [([] & _ & Hr)|[-> _]]; [|done]. by injection Hr as <- _.
Qed.

Lemma make_key_step fresh w w' r : load_or_create_approval_key fresh w = (w', r) → kept w w'.
Proof.
  intros [(w1 & [] & H1%acquire_lock_same%same_files_kept & (A & B & _)%key_step)|
    (e & H1%acquire_lock_same%same_files_kept & _)]%io_bind_inv; [|done]. by transitivity w1.
Qed.

(** ** Sequences of operations

    The lock makes the operations of all processes follow one another. *)

Inductive approval_call :=
  | CGenerate (fresh : string) (clock : nat → N) (fuel : nat) (draws : nat → string)
      (tool params project : string)
  | CApprove (fresh : string) (clock : nat → N) (nonce_hex : string)
  | CConsume (fresh : string) (clock : nat → N) (nonce_hex token tool params project : string)
  | CInspect (clock : nat → N) (nonce_hex : string)
  | CList (clock : nat → N)
  | CPrune (clock : nat → N)
  | CMakeKey (fresh : string).

Definition succeeds {T} (x : approval_world * result T ApprovalError) : approval_world * bool :=
  (x.1, is_ok x.2).

(** What a call leaves behind, and whether it returned [Ok] *)
Definition exec (c : approval_call) (w : approval_world) : approval_world * bool :=
  match c with
  | CGenerate fresh clock fuel draws tool params project =>
      succeeds (generate_pending_approval fresh clock fuel draws tool params project w)
  | CApprove fresh clock hex => succeeds (approve_nonce fresh clock hex w)
  | CConsume fresh clock hex token tool params project =>
      succeeds (validate_and_consume_approval fresh clock hex token tool params project w)
  | CInspect clock hex => succeeds (inspect_pending_approval clock hex w)
  | CList clock => succeeds (list_pending_approvals clock w)
  | CPrune clock => succeeds (prune_stale_approvals clock w)
  | CMakeKey fresh => succeeds (load_or_create_approval_key fresh w)
  end.

Definition call_ok (c : approval_call) : Prop :=
  match c with
  | CGenerate _ clock _ draws _ _ _ => clock_ok clock ∧ draws_ok draws
  | CApprove _ clock _ => clock_ok clock
  | _ => True
  end.

Definition history := list (approval_call * bool).

Inductive trace (w0 : approval_world) : history → approval_world → Prop :=
  | trace_start : trace w0 [] w0
  | trace_call h w c w' b :
      trace w0 h w → call_ok c → exec c w = (w', b) → trace w0 (h ++ [(c, b)]) w'.

(** The event consumed the nonce. *)
Definition consumed (n : ApprovalNonce) (e : approval_call * bool) : Prop :=
  match e with
  | (CConsume _ _ hex _ _ _ _, true) => nonce_parse hex = Ok n
  | _ => False
  end.

(** The event asked for the approval that the record is about. *)
Definition requested (k : string) (r : StoredApprovalRecord) (e : approval_call * bool) : Prop :=
  match e.1 with
  | CGenerate _ clock _ draws tool params project =>
      (∃ i, sr_nonce r = nonce_of_bytes (draws i)) ∧ (∃ i, sr_created_at r = clock i) ∧
      sr_tool_name r = tool ∧ sr_project_id r = project ∧
      sr_arg_hash r = compute_arg_hash params k ∧
      check_request tool params project = Ok (sr_effect_summary r, sr_parameter_summary r)
  | _ => False
  end.

(** The event approved the record, in time. *)
Definition approved_by (r : StoredApprovalRecord) (e : approval_call * bool) : Prop :=
  match e.1 with
  | CApprove _ clock hex =>
      nonce_parse hex = Ok (sr_nonce r) ∧
      (clock 0%nat < wrapping_add_u64 (sr_created_at r) 300)%N ∧
      sr_expires_at r = Some (N.min (clock 1%nat + 300) u64_max)
  | _ => False
  end.

(** How a stored record came about: it was requested, since then nothing
    consumed its nonce, and it is approved only where an event approved it. *)
Definition explained (k : string) (h : history) (r : StoredApprovalRecord) : Prop :=
  ∃ h1 g h2, h = h1 ++ g :: h2 ∧ requested k r g ∧
    Forall (fun e => ¬ consumed (sr_nonce r) e) h2 ∧
    if sr_approved r then Exists (approved_by r) h2
    else sr_expires_at r = Some (wrapping_add_u64 (sr_created_at r) 300).

Record approval_inv (h : history) (w : approval_world) (rs : list StoredApprovalRecord) : Prop := mk_inv {
  inv_stored : stored w rs;
  inv_ok : Forall record_ok rs;
  inv_distinct : NoDup (map sr_nonce rs);
  inv_explained : Forall (fun r => ∃ k, has_key w k ∧ explained k h r) rs;
}.

(** An event that did not consume the nonce keeps the explanation. *)
Lemma explained_snoc k h r e : ¬ consumed (sr_nonce r) e → explained k h r → explained k (h ++ [e]) r.
Proof.
  intros He (h1 & g & h2 & -> & Hg & Hc & Ha). exists h1, g, (h2 ++ [e]). split_and!; try done.
  - by rewrite <- app_assoc.
  - apply Forall_app. split; [done|by apply Forall_singleton].
  - destruct (sr_approved r); [|done]. apply Exists_app. by left.
Qed.

Lemma explained_all e h w w' rs :
  (∀ k, has_key w k → has_key w' k) → Forall (fun r => ¬ consumed (sr_nonce r) e) rs →
  Forall (fun r => ∃ k, has_key w k ∧ explained k h r) rs →
  Forall (fun r => ∃ k, has_key w' k ∧ explained k (h ++ [e]) r) rs.
Proof.
  intros Hk Hc Hex. rewrite Forall_forall in *. intros r Hr. destruct (Hex r Hr) as (k & Hkk & He).
  exists k. split; [by apply Hk|]. apply explained_snoc; [by apply Hc|done].
Qed.

(** What is stored shrinks to a sublist that the event did not consume from. *)
Lemma inv_sublist e h w w' rs rs' :
  approval_inv h w rs → stored w' rs' → sublist rs' rs →
  (∀ k, has_key w k → has_key w' k) → Forall (fun r => ¬ consumed (sr_nonce r) e) rs' →
  approval_inv (h ++ [e]) w' rs'.
Proof.
  intros [Hst Hok Hd Hex] Hst' Hsub Hk Hc. split; [done|by eapply sublist_Forall|by eapply sublist_map_NoDup|].
  apply (explained_all e h w); [done..|]. by eapply sublist_Forall.
Qed.

Lemma inv_kept e h w w' rs :
  approval_inv h w rs → kept w w' → (∀ n, ¬ consumed n e) → approval_inv (h ++ [e]) w' rs.
Proof.
  intros Hi [Hs Hk] He. apply (inv_sublist e h w w' rs rs); [done|by apply Hs, Hi|done|done|].
  apply Forall_forall. intros r _. apply He.
Qed.

Lemma check_pending_Ok r now : check_pending r now = Ok tt →
  ∃ t, sr_expires_at r = Some t ∧ (now < t)%N ∧ sr_approved r = false.
Proof.
  unfold check_pending, is_expired, expired_at. rewrite !fail_if_unit. intros (He & Ha & _).
  destruct (sr_expires_at r) as [t|]; [|done]. exists t. apply N.leb_gt in He. done.
Qed.

(** A request adds an explained record with a nonce of its own. *)
Lemma inv_generate fresh clock fuel draws tool p project b effect params key n h w w' rs :
  approval_inv h w rs → clock_ok clock → draws_ok draws →
  check_request tool p project = Ok (effect, params) →
  (∀ k, has_key w k → has_key w' k) → has_key w' key →
  draw_nonce fuel 0 draws (retain_live clock 0 rs) = Some n →
  stored w' (retain_live clock 0 rs ++
    [pending_record n tool (compute_arg_hash p key) project effect params (clock (length rs))]) →
  ∃ rs', approval_inv (h ++ [(CGenerate fresh clock fuel draws tool p project, b)]) w' rs'.
Proof.
  intros Hi Hc Hd Hreq Hk Hkey Hn Hst. eexists.
  destruct (draw_nonce_fresh _ _ _ _ _ Hn) as [[j Hj] Hfresh].
  pose proof (retain_live_sublist clock 0 rs) as Hsub. destruct Hi as [_ Hok Hdis Hex].
  set (c := (CGenerate fresh clock fuel draws tool p project, b)). split; [exact Hst|..].
  - apply Forall_app. split; [by eapply sublist_Forall|]. apply Forall_singleton. by eapply pending_ok.
  - rewrite map_app. apply NoDup_app. split_and!; [by eapply sublist_map_NoDup| |apply NoDup_singleton].
    intros m Hm. simpl. rewrite list_elem_of_singleton. intros ->.
    apply list_elem_of_In, in_map_iff in Hm as (r & Hr & Hin%list_elem_of_In).
    rewrite Forall_forall in Hfresh. by apply (Hfresh r).
  - apply Forall_app. split.
    + apply (explained_all c h w); [done|by apply Forall_true; intros ? []|]. by eapply sublist_Forall.
    + apply Forall_singleton. exists key. split; [done|]. exists h, c, []. split_and!; try done.
      unfold requested. simpl. split_and!; eauto.
Qed.

(** An approval keeps the record explained. *)
Lemma inv_approve fresh clock hex b n idx rec h w w' rs :
  approval_inv h w rs → clock_ok clock → nonce_parse hex = Ok n → find_nonce n rs = Some (idx, rec) →
  check_pending rec (clock 0%nat) = Ok tt → (∀ k, has_key w k → has_key w' k) →
  stored w' (<[idx := approve_record (clock 1%nat) rec]> rs) →
  ∃ rs', approval_inv (h ++ [(CApprove fresh clock hex, b)]) w' rs'.
Proof.
  intros [_ Hok Hdis Hex] Hc Hn [Hl Hrec]%find_nonce_Some (t & Ht & Hlt & Hna)%check_pending_Ok Hk Hst.
  eexists. set (c := (CApprove fresh clock hex, b)).
  assert (record_ok rec) as Hrok by by eapply (Forall_lookup_1 _ _ _ _ Hok).
  split; [exact Hst|..].
  - apply Forall_insert; [done|]. by apply approve_ok; [apply Hc|].
  - change (map sr_nonce ?l) with (sr_nonce <$> l). rewrite list_fmap_insert. simpl.
    rewrite list_insert_id; [done|]. by rewrite list_lookup_fmap, Hl.
  - apply Forall_insert.
    + apply (explained_all c h w); [done|by apply Forall_true; intros ? []|done].
    + destruct (Forall_lookup_1 _ _ _ _ Hex Hl) as (k & Hkk & h1 & g & h2 & -> & Hg & Hcons & Hexp).
      rewrite Hna in Hexp. exists k. split; [by apply Hk|]. exists h1, g, (h2 ++ [c]). split_and!.
      * by rewrite <- app_assoc.
      * by destruct g as [[] ?].
      * apply Forall_app. split; [done|]. apply Forall_singleton. intros [].
      * simpl. apply Exists_app. right. apply Exists_cons. left. unfold approved_by. simpl.
        rewrite Hrec. rewrite Ht in Hexp. injection Hexp as ->. done.
Qed.

(** The record that is consumed goes, the others keep their explanation. *)
Lemma inv_consume e n idx rec h w w' rs :
  approval_inv h w rs → (∀ m, consumed m e → m = n) → find_nonce n rs = Some (idx, rec) →
  (∀ k, has_key w k → has_key w' k) → stored w' (delete idx rs) →
  ∃ rs', approval_inv (h ++ [e]) w' rs'.
Proof.
  intros Hi He [Hl Hrec]%find_nonce_Some Hk Hst. exists (delete idx rs).
  apply (inv_sublist e h w w' rs); [done..|apply sublist_delete|done|].
  apply Forall_forall. intros r Hr Hcons. apply He in Hcons.
  apply list_elem_of_lookup in Hr as [i Hi'].
  pose proof (inv_distinct _ _ _ Hi) as Hd. rewrite NoDup_alt in Hd.
  destruct (decide (i < idx)%nat).
  - rewrite list_lookup_delete_lt in Hi' by done.
    assert (i = idx); [|lia]. apply (Hd i idx n); change (map sr_nonce rs) with (sr_nonce <$> rs);
      rewrite list_lookup_fmap; [rewrite Hi'|rewrite Hl]; simpl; by rewrite ?Hcons, ?Hrec.
  - rewrite list_lookup_delete_ge in Hi' by lia.
    assert (S i = idx); [|lia]. apply (Hd (S i) idx n); change (map sr_nonce rs) with (sr_nonce <$> rs);
      rewrite list_lookup_fmap; [rewrite Hi'|rewrite Hl]; simpl; by rewrite ?Hcons, ?Hrec.
Qed.

Lemma inv_trace w0 h w : stored w0 [] → trace w0 h w → ∃ rs, approval_inv h w rs.
Proof.
  intros H0 Ht. induction Ht as [|h w c w' b _ [rs Hi] Hc He].
  { exists []. split; try done; constructor. }
  pose proof (inv_stored _ _ _ Hi) as Hst. pose proof (inv_ok _ _ _ Hi) as Hok.
  destruct c as [fresh clock fuel draws tool p project|fresh clock hex
    |fresh clock hex token tool p project|clock hex|clock|clock|fresh]; simpl in He, Hc;
    unfold succeeds in He; injection He as Hw Hb;
    match type of Hw with (?op w).1 = _ => destruct (op w) as [w1 r] eqn:Hr end;
    simpl in Hw, Hb; subst w1.
  - destruct Hc as [Hc Hd].
    apply (generate_step _ _ _ _ _ _ _ _ _ _ rs) in Hr as
      [Hr|(effect & params & key & n & H1 & H2 & H3 & H4 & H5)]; [| |done..].
    + exists rs. eapply inv_kept; [done|done|by intros ? []].
    + by eapply inv_generate.
  - apply (approve_step _ _ _ _ _ _ rs) in Hr as [Hr|(n & idx & rec & H1 & H2 & H3 & H4 & H5)];
      [| |done..].
    + exists rs. eapply inv_kept; [done|done|by intros ? []].
    + by eapply inv_approve.
  - apply (consume_step _ _ _ _ _ _ _ _ _ _ rs) in Hr as
      [[Hr [e ->]]|(n & idx & rec & key & H1 & H2 & H3 & H4 & _ & _ & _ & H5)]; [| |done..].
    + exists rs. subst b. eapply inv_kept; [done|done|by intros ? []].
    + eapply inv_consume; [done| |done..]. intros m. simpl. destruct b; [|done]. congruence.
  - exists rs. eapply inv_kept; [done|by eapply inspect_step|by intros ? []].
  - exists rs. eapply inv_kept; [done|by eapply list_step|by intros ? []].
  - apply (prune_step _ _ _ _ rs) in Hr as [Hr|[H1 H2]]; [| |done..].
    + exists rs. eapply inv_kept; [done|done|by intros ? []].
    + exists (retain_live clock 0 rs). eapply inv_sublist; [done..|apply retain_live_sublist|done|].
      apply Forall_true; intros ? [].
  - exists rs. eapply inv_kept; [done|by eapply make_key_step|by intros ? []].
Qed.

Lemma check_approved_Ok r tool project now : check_approved r tool project now = Ok tt →
  sr_tool_name r = tool ∧ sr_project_id r = project ∧ sr_approved r = true ∧
  ∃ t, sr_expires_at r = Some t ∧ (now < t)%N.
Proof.
  unfold check_approved, is_expired, expired_at. rewrite !fail_if_unit, !negb_false_iff, !String.eqb_eq.
  intros (Ht & Hp & Ha & _ & He & _). destruct (sr_expires_at r) as [t|]; [|done].
  apply N.leb_gt in He. split_and!; eauto.
Qed.

(** The three events that a granted call stands on: the request [g] for the
    tool, the project and parameters with the call's argument hash, the
    approval [a] of its nonce within the request's window, and the call
    within the approval's; nothing consumed the nonce in between. *)
Definition authorized_by (h : history) (n : ApprovalNonce) (k tool p project : string) (now : N) : Prop :=
  ∃ h1 g h2 a h3 r, h = h1 ++ g :: h2 ++ a :: h3 ∧
    sr_nonce r = n ∧ sr_tool_name r = tool ∧ sr_project_id r = project ∧
    sr_arg_hash r = compute_arg_hash p k ∧
    requested k r g ∧ approved_by r a ∧ (∃ t, sr_expires_at r = Some t ∧ (now < t)%N) ∧
    Forall (fun e => ¬ consumed n e) (h2 ++ a :: h3).

(** C12: A mutating tool call is granted only where, before it and with no other
    grant in between, the same tool call of the same project was requested
    with parameters of the same keyed hash, passed the review checks, and its
    nonce was approved in time; the presented token is the keyed hash of that
    nonce and those parameters. *)
Theorem approval_authorized w0 h w fresh clock hex token tool p project w' :
  stored w0 [] → trace w0 h w →
  validate_and_consume_approval fresh clock hex token tool p project w = (w', Ok tt) →
  ∃ n k, nonce_parse hex = Ok n ∧ has_key w' k ∧
    token = compute_approval_token (an_encoded n) (compute_arg_hash p k) k ∧
    authorized_by h n k tool p project (clock 0%nat).
Proof.
  intros H0 [rs Hi]%inv_trace Hr; [|done].
  apply (consume_step _ _ _ _ _ _ _ _ _ _ rs) in Hr as
    [[_ [? ?]]|(n & idx & rec & key & Hn & Hf & Hc & Hk & Hkey & Hh & Ht & _)]; [done| |by apply Hi..].
  exists n, key. split_and!; [done|done| |].
  { destruct (nonce_parse_ok _ _ Hn) as [Hn' _]. rewrite Ht, Hh, Hn'. by destruct n. }
  apply find_nonce_Some in Hf as [Hl Hrec]. apply check_approved_Ok in Hc as (Ht1 & Hp & Ha & He).
  destruct (Forall_lookup_1 _ _ _ _ (inv_explained _ _ _ Hi) Hl) as (k & Hkk & h1 & g & h2 & -> & Hg & Hcons & Hex).
  apply Hk in Hkk. assert (k = key) as -> by by eapply has_key_functional.
  rewrite Ha in Hex. apply Exists_exists in Hex as (a & Hin & Happ).
  apply list_elem_of_split in Hin as (h2a & h3 & ->).
  exists h1, g, h2a, a, h3, rec. rewrite Hrec in Hcons. split_and!; done.
Qed.

(** C27: A nonce grants one call: where a call with the nonce was granted, it
    grants another only after a later request drew the same nonce again. *)
Theorem approval_once w0 h1 h2 w fresh1 clock1 hex1 token1 tool1 p1 project1
    fresh clock hex token tool p project w' n :
  stored w0 [] →
  trace w0 (h1 ++ (CConsume fresh1 clock1 hex1 token1 tool1 p1 project1, true) :: h2) w →
  nonce_parse hex1 = Ok n → nonce_parse hex = Ok n →
  validate_and_consume_approval fresh clock hex token tool p project w = (w', Ok tt) →
  ∃ k r g, g ∈ h2 ∧ requested k r g ∧ sr_nonce r = n.
Proof.
  intros H0 [rs Hi]%inv_trace Hn1 Hn Hr; [|done].
  apply (consume_step _ _ _ _ _ _ _ _ _ _ rs) in Hr as
    [[_ [? ?]]|(n' & idx & rec & key & Hn' & Hf & _)]; [done| |by apply Hi..].
  rewrite Hn in Hn'. injection Hn' as <-. apply find_nonce_Some in Hf as [Hl Hrec].
  destruct (Forall_lookup_1 _ _ _ _ (inv_explained _ _ _ Hi) Hl) as (k & _ & ha & g & hb & He & Hg & Hcons & _).
  exists k, rec, g. split_and!; [|done..]. rewrite Hrec in Hcons.
  apply app_eq_inv in He as [(l & -> & He)|(l & -> & He)].
  - destruct l as [|e l]; simpl in He; injection He as Hg' Hb; subst; [done|].
    apply Forall_app in Hcons as [_ [Hc _]%Forall_cons]. by destruct Hc.
  - destruct l as [|e l]; simpl in He; injection He as Hg' Hb; subst; [done|].
    apply elem_of_app. right. by left.
Qed.

(** What the store shows a reviewer is value-blind: a stored record's
    effect is the fixed sentence of its tool, its project does not look like a
    credential, and its parameters, at most 4096 bytes, have no field that
    names plaintext and no string that looks like a credential at any depth. *)
Theorem stored_summaries_blind w0 h w rs r :
  stored w0 [] → trace w0 h w → stored w rs → r ∈ rs →
  (sr_tool_name r, sr_effect_summary r) ∈ EFFECT_SUMMARIES ∧
  credential_shaped_string (sr_project_id r) = false ∧
  (str_len (sr_parameter_summary r) <= 4096)%N ∧
  ∃ m, sr_parameter_summary r = json_to_vec (VObject (without_transport m)) ∧
       Forall shown_ok (subvalues 0 (VObject (without_transport m))).
Proof.
  intros H0 [rs' Hi]%inv_trace Hst Hr; [|done].
  rewrite (stored_functional _ _ _ Hst (inv_stored _ _ _ Hi)) in Hr.
  pose proof (inv_explained _ _ _ Hi) as Hex. rewrite Forall_forall in Hex.
  destruct (Hex r Hr) as (k & _ & h1 & [c b] & h2 & _ & Hg & _). unfold requested in Hg. simpl in Hg.
  destruct c as [fresh clock fuel draws tool p project| | | | | |]; try done.
  destruct Hg as (_ & _ & Ht & Hp & _ & Hreq). unfold check_request in Hreq.
  apply fail_if_Ok in Hreq as [_ Hreq]. apply fail_if_Ok in Hreq as [_ Hreq].
  apply fail_if_Ok in Hreq as [Hcred Hreq]. apply rbind_Ok in Hreq as (effect & He & Hreq).
  apply rbind_Ok in Hreq as (params & Hsum & [= <- <-]).
  apply summary_exact in Hsum as (m & _ & Htext & Hlen & Hshown). subst tool project.
  split_and!; [|done|done|by exists m].
  unfold effect_summary_for_tool in He.
  destruct (List.find _ EFFECT_SUMMARIES) as [row|] eqn:Hf; [|by destruct (existsb _ _)].
  apply List.find_some in Hf as [Hin%list_elem_of_In Hn%String.eqb_eq]. injection He as He.
  destruct row as [t s]. simpl in Hn, He. by rewrite <- Hn, <- He.
Qed.

(** The loop that draws nonces ends: among one draw more than there are
    live records, all different, one is not a record's nonce. *)
Theorem draws_terminate draws rs :
  (∀ i j, (i <= length rs)%nat → (j <= length rs)%nat → draws i = draws j → i = j) →
  ∃ n, draw_nonce (S (length rs)) 0 draws rs = Some n ∧ Forall (fun r => sr_nonce r ≠ n) rs.
Proof.
  intros Hd. destruct (draw_nonce (S (length rs)) 0 draws rs) as [n|] eqn:E.
  { exists n. split; [done|]. by apply draw_nonce_fresh in E as [_ ?]. }
  exfalso.
  assert (∀ fuel i, draw_nonce fuel i draws rs = None →
    ∀ j, (i <= j < i + fuel)%nat → In (nonce_of_bytes (draws j)) (map sr_nonce rs)) as Hall.
  { induction fuel as [|fuel IH]; intros i; simpl; [lia|]. destruct (forallb _ rs) eqn:Ef; [done|].
    intros Hn j Hj. destruct (decide (j = i)) as [->|]; [|apply (IH (S i)); [done|lia]].
    apply not_true_iff_false in Ef. apply list_elem_of_In, dec_stable. intros Hin. apply Ef, forallb_forall.
    intros r Hr. apply negb_true_iff, bool_decide_eq_false. intros He. apply Hin. rewrite <- He.
    by apply list_elem_of_In, in_map. }
  specialize (Hall _ _ E).
  assert (List.NoDup (map (fun j => nonce_of_bytes (draws j)) (seq 0 (S (length rs))))) as Hnd.
  { apply NoDup_ListNoDup. apply (NoDup_fmap_2_strong (fun j => nonce_of_bytes (draws j))); [|apply NoDup_seq].
    intros i j Hi%elem_of_seq Hj%elem_of_seq [= _ He]. apply Hd; [lia..|done]. }
  apply NoDup_incl_length with (l' := map sr_nonce rs) in Hnd.
  - rewrite !length_map, length_seq in Hnd. lia.
  - intros n (j & <- & Hj%in_seq)%in_map_iff. apply Hall. lia.
Qed.
End spec.

(** ** Witnesses

    An in-memory home. *)

#[local] Existing Instance line_external.
#[local] Existing Instance line_external_laws.
#[local] Existing Instance line_json_laws.

#[local] Instance memory_host : ApprovalHost := {|
  home_dir := Ok "/home/u";
  ensure_private_dir _ _ := Ok tt;
  ensure_state_dir _ _ := Ok tt;
  read_all d n := match md_files d n with Some b => Ok b | None => Err NotFound end;
  path_type _ _ := Ok FtDirectory;
  read_regular_file _ _ := Ok None;
|}.

#[local] Instance memory_host_laws : ApprovalHostLaws memory_host.
Proof. intros d n b. simpl. destruct (md_files d n); naive_solver. Qed.

Definition demo_world : approval_world := mk_world memory_state_dir (mk_dir (fun _ => None) []) [].

(** A draw of [i], and readings of a clock that stands still *)
Definition demo_draws (i : nat) : string := fit 32 (N_to_string (N.of_nat i)).
Definition demo_params : string := line_to_vec (VObject [("name", VString "OPENAI_API_KEY")]).
Definition demo_nonce : ApprovalNonce := nonce_of_bytes (demo_draws 0).
Definition demo_key : string := fit 32 "key".
Definition demo_token : string :=
  compute_approval_token (an_encoded demo_nonce) (compute_arg_hash demo_params demo_key) demo_key.

Definition demo_request : approval_call :=
  CGenerate demo_key (fun _ => 1000%N) 5 demo_draws "phantom_remove_secret" demo_params "/work".
Definition demo_approve : approval_call :=
  CApprove demo_key (fun _ => 1100%N) (an_encoded demo_nonce).
Definition demo_consume : approval_call :=
  CConsume demo_key (fun _ => 1200%N) (an_encoded demo_nonce) demo_token "phantom_remove_secret"
    demo_params "/work".

Definition after (c : approval_call) (w : approval_world) : approval_world := (exec c w).1.

(** A trace of calls that succeed *)
Lemma trace_step w0 h w c :
  trace w0 h w → call_ok c → (exec c w).2 = true → trace w0 (h ++ [(c, true)]) (after c w).
Proof.
  intros Ht Hc He. apply (trace_call w0 h w); [done..|]. unfold after. rewrite <- He.
  by destruct (exec c w).
Qed.

Lemma demo_steady n : (n <= u64_max)%N → clock_ok (fun _ => n).
Proof. by intros Hn i. Qed.

Lemma demo_draws_ok : draws_ok demo_draws.
Proof. intros i. apply fit_length. Qed.

Lemma demo_trace :
  trace demo_world [(demo_request, true); (demo_approve, true)]
    (after demo_approve (after demo_request demo_world)).
Proof.
  apply (trace_step _ [(demo_request, true)]); [|by apply demo_steady|by vm_compute].
  apply (trace_step _ []); [constructor|split; [by apply demo_steady|apply demo_draws_ok]|by vm_compute].
Qed.

Lemma demo_consumes (w : approval_world) (c : approval_call) :
  match c with
  | CConsume fresh clock hex token tool p project =>
      (exec c w).2 = true →
      validate_and_consume_approval fresh clock hex token tool p project w = (after c w, Ok tt)
  | _ => True
  end.
Proof.
  destruct c; try done. unfold after. simpl.
  by destruct (validate_and_consume_approval _ _ _ _ _ _ _ w) as [w' [[]|e]].
Qed.

Lemma approval_authorized_witness :
  ∃ n k, nonce_parse (an_encoded demo_nonce) = Ok n ∧
    has_key (after demo_consume (after demo_approve (after demo_request demo_world))) k ∧
    demo_token = compute_approval_token (an_encoded n) (compute_arg_hash demo_params k) k ∧
    authorized_by [(demo_request, true); (demo_approve, true)] n k "phantom_remove_secret" demo_params
      "/work" 1200%N.
Proof.
  apply (approval_authorized demo_world _ (after demo_approve (after demo_request demo_world))
    demo_key (fun _ => 1200%N) (an_encoded demo_nonce) demo_token "phantom_remove_secret" demo_params
    "/work").
  - reflexivity.
  - exact demo_trace.
  - apply (demo_consumes _ demo_consume). by vm_compute.
Defined.

Lemma demo_trace_twice :
  trace demo_world ([(demo_request, true); (demo_approve, true)] ++
      (demo_consume, true) :: [(demo_request, true); (demo_approve, true)])
    (after demo_approve (after demo_request (after demo_consume
      (after demo_approve (after demo_request demo_world))))).
Proof.
  pose proof (trace_step _ _ _ demo_consume demo_trace I) as H1.
  pose proof (trace_step _ _ _ demo_request (H1 ltac:(by vm_compute))
    (conj (demo_steady 1000 ltac:(done)) demo_draws_ok)) as H2.
  exact (trace_step _ _ _ demo_approve (H2 ltac:(by vm_compute)) (demo_steady 1100 ltac:(done))
    ltac:(by vm_compute)).
Qed.

Lemma approval_once_witness :
  ∃ k r g, g ∈ [(demo_request, true); (demo_approve, true)] ∧ requested k r g ∧ sr_nonce r = demo_nonce.
Proof.
  apply (approval_once demo_world [(demo_request, true); (demo_approve, true)]
    [(demo_request, true); (demo_approve, true)]
    (after demo_approve (after demo_request (after demo_consume
      (after demo_approve (after demo_request demo_world)))))
    demo_key (fun _ => 1200%N) (an_encoded demo_nonce) demo_token "phantom_remove_secret" demo_params "/work"
    demo_key (fun _ => 1200%N) (an_encoded demo_nonce) demo_token "phantom_remove_secret" demo_params "/work"
    (after demo_consume (after demo_approve (after demo_request (after demo_consume
      (after demo_approve (after demo_request demo_world)))))) demo_nonce).
  - reflexivity.
  - exact demo_trace_twice.
  - by vm_compute.
  - by vm_compute.
  - apply (demo_consumes _ demo_consume). by vm_compute.
Defined.

Definition demo_record : StoredApprovalRecord :=
  pending_record demo_nonce "phantom_remove_secret" (compute_arg_hash demo_params demo_key) "/work"
    "Delete the named secret and its lifecycle metadata from the local vault." demo_params 1000.

Lemma stored_summaries_blind_witness :
  ("phantom_remove_secret", sr_effect_summary demo_record) ∈ EFFECT_SUMMARIES ∧
  credential_shaped_string "/work" = false ∧ (str_len demo_params <= 4096)%N ∧
  ∃ m, demo_params = json_to_vec (VObject (without_transport m)) ∧
       Forall shown_ok (subvalues 0 (VObject (without_transport m))).
Proof.
  apply (stored_summaries_blind demo_world [(demo_request, true)] (after demo_request demo_world)
    [demo_record] demo_record).
  - reflexivity.
  - apply (trace_step _ []); [constructor|split; [by apply demo_steady|apply demo_draws_ok]|by vm_compute].
  - by vm_compute.
  - by left.
Defined.

Lemma draws_terminate_witness :
  ∃ n, draw_nonce 2 0 demo_draws [demo_record] = Some n ∧ Forall (fun r => sr_nonce r ≠ n) [demo_record].
Proof.
  apply (draws_terminate demo_draws [demo_record]).
  intros i j Hi Hj He. simpl in Hi, Hj.
  destruct i as [|[|i]], j as [|[|j]]; try lia; try done.
Defined.
