(* ===== verification/AuditLog.v ===== *)
(** * The audit log: [crates/phantom-core/src/audit.rs]

    An append-only log of JSON lines, each with a MAC that covers its fields
    and the MAC of the line before, a sequence number, and a checkpoint file
    that names the last line.  Writing an event ([write_event] and all that it
    does to the log, the key and the checkpoint) and verifying a log are
    here; the directory is [StateDir].  The theorems are in [AuditSpec]. *)

From S2P Require Import Prelude Text Ids External StateDir JsonText.

(** ** Modes *)

Inductive AuditEventEncryption := EncDisabled | EncLocalOnly | EncCloudSigned.

#[export] Instance AuditEventEncryption_eq_dec : EqDecision AuditEventEncryption.
Proof. solve_decision. Defined.

(** [AuditEventEncryption::from_env], of the variable's value *)
Definition encryption_from_env (var : option string) : AuditEventEncryption :=
  match var with
  | Some s =>
      if existsb (String.eqb s) ["local"; "LOCAL"; "local-only"; "LOCAL-ONLY"] then EncLocalOnly
      else if existsb (String.eqb s) ["cloud-signed"; "CLOUD-SIGNED"; "cloud_signed"]
           then EncCloudSigned else EncDisabled
  | None => EncDisabled
  end.

Definition is_active (e : AuditEventEncryption) : bool := negb (bool_decide (e = EncDisabled)).

Definition effective_local_mode (e : AuditEventEncryption) : AuditEventEncryption :=
  match e with EncCloudSigned => EncLocalOnly | _ => e end.

Inductive AuditMode := AmDisabled | AmBestEffort | AmRequired.

#[export] Instance AuditMode_eq_dec : EqDecision AuditMode.
Proof. solve_decision. Defined.

(** [fn mode], of the value of [PHANTOM_AUDIT] *)
Definition audit_mode (var : option string) : AuditMode :=
  match var with
  | Some s =>
      if existsb (String.eqb s) ["1"; "true"; "TRUE"; "True"] then AmBestEffort
      else if existsb (String.eqb s) ["required"; "REQUIRED"; "fail-closed"; "FAIL-CLOSED"]
           then AmRequired else AmDisabled
  | None => AmDisabled
  end.

(** ** Events and the checkpoint *)

Definition LOG_FILE : string := "audit.log".
Definition AUDIT_LOCK_FILE : string := "audit.lock".
Definition HMAC_KEY_FILE : string := "audit-hmac-key".
Definition HEAD_FILE : string := "audit-head.json".
Definition HMAC_KEY_LEN : nat := 32.
Definition GENESIS : string := "GENESIS".

Record AuditEvent := mk_event {
  ev_seq : N;
  ev_ts : N;
  ev_op : string;
  ev_name : option string;
  ev_pid : N;
  ev_prev_hmac : option string;
  ev_process : string;
  ev_encrypted_context : option string;
  ev_hmac : option string;
}.

(** The derived [Serialize], fields in declaration order *)
Definition event_fields (e : AuditEvent) : list (string * value) :=
  [("seq", to_value (ev_seq e)); ("ts", to_value (ev_ts e)); ("op", to_value (ev_op e))]
  ++ skip_none "name" (ev_name e)
  ++ [("pid", to_value (ev_pid e))]
  ++ skip_none "prev_hmac" (ev_prev_hmac e)
  ++ [("process", to_value (ev_process e))]
  ++ skip_none "encrypted_context" (ev_encrypted_context e)
  ++ skip_none "hmac" (ev_hmac e).

#[export] Instance Serialize_event : Serialize AuditEvent := fun e => VObject (event_fields e).

Record AuditHead := mk_head {
  hd_version : N;
  hd_last_seq : N;
  hd_last_hmac : string;
  hd_hmac : string;
}.

Definition head_fields (h : AuditHead) : list (string * value) :=
  [("version", to_value (hd_version h)); ("last_seq", to_value (hd_last_seq h));
   ("last_hmac", to_value (hd_last_hmac h)); ("hmac", to_value (hd_hmac h))].

#[export] Instance Serialize_head : Serialize AuditHead := fun h => VObject (head_fields h).

Definition read_u8 (v : value) : option N :=
  match read_u64 v with Some n => if (n <=? 255)%N then Some n else None | None => None end.

(** The derived [Deserialize]: an object with the four fields, or an array of
    them in order *)
Definition read_head_fields (version last_seq last_hmac hmac : option value) : option AuditHead :=
  version ← required read_u8 version;
  last_seq ← required read_u64 last_seq;
  last_hmac ← required read_string last_hmac;
  hmac ← required read_string hmac;
  Some (mk_head version last_seq last_hmac hmac).

#[export] Instance Deserialize_head : Deserialize AuditHead := fun v =>
  match v with
  | VObject m =>
      version ← member "version" m; last_seq ← member "last_seq" m;
      last_hmac ← member "last_hmac" m; hmac ← member "hmac" m;
      read_head_fields version last_seq last_hmac hmac
  | VArray [a; b; c; d] => read_head_fields (Some a) (Some b) (Some c) (Some d)
  | _ => None
  end.

(** ** MACs *)

Section audit.
Context `{X : External}.

(** [fn hmac_sha256] *)
Definition audit_mac (key data : string) : string := hex_encode (hmac_sha256 key data).

(** What [compute_hmac_for_event] puts under the MAC *)
Definition event_map (e : AuditEvent) : gmap string string :=
  let m := <["ts" := N_to_string (ev_ts e)]> (<["process" := ev_process e]>
    (<["prev_hmac" := default GENESIS (ev_prev_hmac e)]> (<["pid" := N_to_string (ev_pid e)]>
      (<["op" := ev_op e]> (<["seq" := N_to_string (ev_seq e)]> ∅))))) in
  let m := match ev_name e with Some n => <["name" := n]> m | None => m end in
  match ev_encrypted_context e with Some c => <["encrypted_context" := c]> m | None => m end.

(** [fn compute_hmac_for_event] *)
Definition compute_hmac_for_event (e : AuditEvent) (key : string) : string :=
  audit_mac key (string_map_text (event_map e)).

Definition LINE_FIELDS : list string :=
  ["seq"; "op"; "pid"; "prev_hmac"; "process"; "ts"; "name"; "encrypted_context"].

(** The text that stands for a field's value *)
Definition field_text (v : value) : string :=
  match v with
  | VString s => s
  | VNumber n => number_to_string n
  | _ => json_to_vec v
  end.

(** What [compute_hmac_for_line] puts under the MAC *)
Definition line_map (v : value) : gmap string string :=
  let m := foldl (fun m field => match get field v with
                                 | Some x => <[field := field_text x]> m
                                 | None => m
                                 end) ∅ LINE_FIELDS in
  match m !! "prev_hmac" with Some _ => m | None => <["prev_hmac" := GENESIS]> m end.

(** [fn compute_hmac_for_line] *)
Definition compute_hmac_for_line (v : value) (key : string) : string :=
  audit_mac key (string_map_text (line_map v)).

Definition head_map (version last_seq : N) (last_hmac : string) : gmap string string :=
  <["version" := N_to_string version]> (<["last_seq" := N_to_string last_seq]>
    (<["last_hmac" := last_hmac]> ∅)).

(** [fn compute_hmac_for_head] *)
Definition compute_hmac_for_head (version last_seq : N) (last_hmac key : string) : string :=
  audit_mac key (string_map_text (head_map version last_seq last_hmac)).

(** ** Verification *)

Record VerifyReport := mk_report {
  vr_verified : nat;
  vr_tampered : nat;
  vr_legacy : nat;
  vr_malformed : nat;
  vr_sequence_errors : nat;
  vr_head_missing : bool;
  vr_head_mismatch : bool;
  vr_tampered_lines : list nat;
  vr_malformed_lines : list nat;
  vr_sequence_error_lines : list nat;
}.

Definition default_report : VerifyReport := mk_report 0 0 0 0 0 false false [] [] [].

(** [VerifyReport::is_clean] *)
Definition is_clean (r : VerifyReport) : bool :=
  (vr_tampered r =? 0)%nat && (vr_malformed r =? 0)%nat && (vr_sequence_errors r =? 0)%nat
  && negb (vr_head_missing r) && negb (vr_head_mismatch r).

Definition add_tampered (line_no : nat) (r : VerifyReport) : VerifyReport :=
  mk_report (vr_verified r) (S (vr_tampered r)) (vr_legacy r) (vr_malformed r) (vr_sequence_errors r)
    (vr_head_missing r) (vr_head_mismatch r) (vr_tampered_lines r ++ [line_no])
    (vr_malformed_lines r) (vr_sequence_error_lines r).

Definition add_malformed (line_no : nat) (r : VerifyReport) : VerifyReport :=
  mk_report (vr_verified r) (vr_tampered r) (vr_legacy r) (S (vr_malformed r)) (vr_sequence_errors r)
    (vr_head_missing r) (vr_head_mismatch r) (vr_tampered_lines r)
    (vr_malformed_lines r ++ [line_no]) (vr_sequence_error_lines r).

Definition add_legacy (r : VerifyReport) : VerifyReport :=
  mk_report (vr_verified r) (vr_tampered r) (S (vr_legacy r)) (vr_malformed r) (vr_sequence_errors r)
    (vr_head_missing r) (vr_head_mismatch r) (vr_tampered_lines r) (vr_malformed_lines r)
    (vr_sequence_error_lines r).

(** A verified line, and whether its sequence number is out of order *)
Definition add_verified (line_no : nat) (out_of_order : bool) (r : VerifyReport) : VerifyReport :=
  mk_report (S (vr_verified r)) (vr_tampered r) (vr_legacy r) (vr_malformed r)
    (if out_of_order then S (vr_sequence_errors r) else vr_sequence_errors r)
    (vr_head_missing r) (vr_head_mismatch r) (vr_tampered_lines r) (vr_malformed_lines r)
    (if out_of_order then vr_sequence_error_lines r ++ [line_no] else vr_sequence_error_lines r).

(** What the head says of the log that was walked *)
Definition set_head (missing mismatch : bool) (r : VerifyReport) : VerifyReport :=
  mk_report (vr_verified r) (vr_tampered r) (vr_legacy r) (vr_malformed r) (vr_sequence_errors r)
    missing mismatch (vr_tampered_lines r) (vr_malformed_lines r) (vr_sequence_error_lines r).

(** The unsigned lines [lines] were no legacy after all. *)
Definition reclassify (lines : list nat) (r : VerifyReport) : VerifyReport :=
  mk_report (vr_verified r) (vr_tampered r + length lines) (vr_legacy r - length lines)
    (vr_malformed r) (vr_sequence_errors r) (vr_head_missing r) true
    (vr_tampered_lines r ++ lines) (vr_malformed_lines r) (vr_sequence_error_lines r).

(** The variables of the loop in [verify_log_content] *)
Record walk := mk_walk {
  wk_report : VerifyReport;
  wk_prev_hmac : string;
  wk_chain_started : bool;
  wk_marker_seen : bool;
  wk_pre_chain : list nat;
  wk_expected_seq : N;
  wk_final : option (N * string);
}.

Definition start_walk : walk := mk_walk default_report GENESIS false false [] 1 None.

(** A line with an [hmac] field *)
Definition walk_signed (k recorded : string) (line_no : nat) (v : value) (s : walk) : walk :=
  let line_prev := default GENESIS (as_str (get "prev_hmac" v)) in
  let prev := if wk_chain_started s then wk_prev_hmac s else line_prev in
  if String.eqb (compute_hmac_for_line v k) recorded && String.eqb line_prev prev then
    match as_u64 (get "seq" v) with
    | Some seq =>
        mk_walk (add_verified line_no (negb (seq =? wk_expected_seq s)%N) (wk_report s)) recorded true
          (wk_marker_seen s) (wk_pre_chain s) (N.min (seq + 1) u64_max) (Some (seq, recorded))
    | None =>
        mk_walk (add_verified line_no false (wk_report s)) recorded true (wk_marker_seen s)
          (wk_pre_chain s) (wk_expected_seq s) (wk_final s)
    end
  else
    mk_walk (add_tampered line_no (wk_report s)) recorded true (wk_marker_seen s) (wk_pre_chain s)
      (wk_expected_seq s) (wk_final s).

Definition with_report (r : VerifyReport) (s : walk) : walk :=
  mk_walk r (wk_prev_hmac s) (wk_chain_started s) (wk_marker_seen s) (wk_pre_chain s)
    (wk_expected_seq s) (wk_final s).

(** A line that parses *)
Definition walk_value (key : option string) (line_no : nat) (v : value) (s : walk) : walk :=
  match get "hmac_chain_started_at" v with
  | Some _ => mk_walk (wk_report s) (wk_prev_hmac s) true true (wk_pre_chain s) (wk_expected_seq s) (wk_final s)
  | None =>
      match as_str (get "hmac" v) with
      | None =>
          if wk_chain_started s then with_report (add_tampered line_no (wk_report s)) s
          else mk_walk (add_legacy (wk_report s)) (wk_prev_hmac s) false (wk_marker_seen s)
                 (wk_pre_chain s ++ [line_no]) (wk_expected_seq s) (wk_final s)
      | Some recorded =>
          match key with
          | None => with_report (add_tampered line_no (wk_report s)) s
          | Some k => walk_signed k recorded line_no v s
          end
      end
  end.

(** The body of the loop *)
Definition walk_line (key : option string) (line_no : nat) (raw : string) (s : walk) : walk :=
  let trimmed := trim raw in
  if str_is_empty trimmed then s
  else match parse_json trimmed with
       | None => with_report (add_malformed line_no (wk_report s)) s
       | Some v => walk_value key line_no v s
       end.

Fixpoint walk_lines (key : option string) (line_no : nat) (lines : list string) (s : walk) : walk :=
  match lines with
  | [] => s
  | raw :: rest => walk_lines key (S line_no) rest (walk_line key line_no raw s)
  end.
End audit.

(** ** The directory

    Beside [StateDir]: the home directory and its judgement, files read whole
    without following links, and the publication of a new file that replaces
    none. *)
Class AuditHost `{SD : StateDir} := {
  (** [log_path()] finds a home *)
  audit_home : result unit ErrorKind;
  (** [crate::fs::ensure_private_dir] *)
  audit_private_dir : dir_t → result unit ErrorKind;
  (** the file type of [parent_dir(path)]: a directory, nothing, or refused *)
  audit_dir_present : dir_t → result bool ErrorKind;
  (** [crate::fs::read_regular_file(path)] *)
  read_regular : dir_t → string → result (option string) ErrorKind;
  (** [symlink_metadata(path)] finds something *)
  path_present : dir_t → string → result bool ErrorKind;
  (** the last byte of an open file, [None] of an empty one *)
  read_last_byte : dir_t → string → result (option ascii) ErrorKind;
  (** a staged, synced file linked into place with [persist_noclobber], and
      the directory synced *)
  publish_new : dir_t → string → string → dir_t * result unit ErrorKind;
}.

Class AuditHostLaws `{SL : StateDirLaws} (H : AuditHost) : Prop := {
  read_regular_contents : ∀ d n b, read_regular d n = Ok (Some b) → file_contents d n = Some b;
  read_regular_absent : ∀ d n, read_regular d n = Ok None → file_contents d n = None;
  path_absent : ∀ d n, path_present d n = Ok false → file_contents d n = None;
  audit_dir_absent : ∀ d n, audit_dir_present d = Ok false → file_contents d n = None;
  read_last_byte_contents : ∀ d n o, read_last_byte d n = Ok o →
    ∃ c, file_contents d n = Some c ∧ o = last_byte c;
  publish_other : ∀ d n b d' r m, publish_new d n b = (d', r) → m ≠ n →
    file_contents d' m = file_contents d m;
  publish_ok : ∀ d n b d', publish_new d n b = (d', Ok tt) →
    file_contents d n = None ∧ file_contents d' n = Some b;
  publish_exists : ∀ d n b d', publish_new d n b = (d', Err AlreadyExists) →
    file_contents d' n = file_contents d n;
  publish_err : ∀ d n b d' e, publish_new d n b = (d', Err e) →
    file_contents d' n = file_contents d n ∨ (file_contents d n = None ∧ file_contents d' n = Some b);
}.

Section log.
Context `{X : External} `{SD : StateDir} `{H : !AuditHost}.

Abbreviation audit_io := (io dir_t ErrorKind).

(** [fn read_state_text] *)
Definition read_state_text (d : dir_t) (name : string) : result string ErrorKind :=
  let? bytes := read_regular d name in
  let? text := ok_or bytes NotFound in
  fail_if (negb (utf8_valid text)) InvalidData (Ok text).

(** The first line, from the end, that [f] makes something of *)
Definition last_line {T} (f : value → option T) (content : string) : option T :=
  foldr (fun raw later =>
           match later with
           | Some x => Some x
           | None =>
               let trimmed := trim raw in
               if str_is_empty trimmed then None
               else match parse_json trimmed with Some v => f v | None => None end
           end) None (text_lines content).

(** [fn read_last_hmac] *)
Definition read_last_hmac (d : dir_t) : option string :=
  match read_state_text d LOG_FILE with
  | Ok content => last_line (fun v => as_str (get "hmac" v)) content
  | Err _ => None
  end.

(** [fn read_last_seq] *)
Definition read_last_seq (d : dir_t) : N :=
  match read_state_text d LOG_FILE with
  | Ok content =>
      default 0%N (last_line (fun v => match get "hmac" v with
                                       | Some _ => as_u64 (get "seq" v)
                                       | None => None
                                       end) content)
  | Err _ => 0%N
  end.

(** [fn read_hmac_key] *)
Definition parse_hmac_key (raw : string) : result string ErrorKind :=
  fail_if (negb (utf8_valid raw)) InvalidData
  (let? key := ok_or (hex_decode (trim raw)) InvalidData in
   fail_if (negb (String.length key =? HMAC_KEY_LEN)%nat) InvalidData (Ok key)).

Definition read_hmac_key (d : dir_t) : result string ErrorKind :=
  let? raw := read_regular d HMAC_KEY_FILE in
  let? raw := ok_or raw NotFound in
  parse_hmac_key raw.

(** [fn write_hmac_key] *)
Definition write_hmac_key (key : string) : audit_io unit :=
  fun d => publish_new d HMAC_KEY_FILE (hex_encode key).

(** [fn append_line] *)
Definition append_line (line : string) : audit_io unit :=
  do? present := io_query (fun d => path_present d LOG_FILE) in
  do? _ := (fun d => open_file d LOG_FILE true) in
  do? last := io_query (fun d => read_last_byte d LOG_FILE) in
  let torn_tail := match last with Some c => negb (ascii_eqb c "010"%char) | None => false end in
  do? _ := (fun d => append_file d LOG_FILE
                       (if torn_tail then String "010"%char line else line)) in
  if negb present then io_query sync_dir else io_ret tt.

(** A JSON line *)
Definition json_line (v : value) : string := json_to_vec v +:+ String "010"%char EmptyString.

Definition marker_value (key : string) (now : N) : value :=
  VObject [("hmac_chain_started_at", to_value now);
           ("key_id", to_value (hex_encode (str_take 4 key)))].

(** [fn write_chain_marker] *)
Definition write_chain_marker (key : string) (now : N) : audit_io unit :=
  append_line (json_line (marker_value key now)).

(** [fn load_or_create_hmac_key]; [fresh] is what [generate_key] would return *)
Definition load_or_create_hmac_key (fresh : string) (now : N) : audit_io string :=
  do? present := io_query (fun d => path_present d HMAC_KEY_FILE) in
  if present then io_query read_hmac_key
  else fun d =>
    match write_hmac_key fresh d with
    | (d1, Ok _) => (do? _ := write_chain_marker fresh now in io_ret fresh) d1
    | (d1, Err AlreadyExists) => io_query read_hmac_key d1
    | (d1, Err e) => (d1, Err e)
    end.

(** [fn load_or_skip_hmac_key] *)
Definition load_or_skip_hmac_key (d : dir_t) : result (option string) ErrorKind :=
  let? present := path_present d HMAC_KEY_FILE in
  if present then map_ok Some (read_hmac_key d) else Ok None.

(** [fn write_head] *)
Definition write_head (last_seq : N) (last_hmac key : string) : audit_io unit :=
  let head := mk_head 1 last_seq last_hmac (compute_hmac_for_head 1 last_seq last_hmac key) in
  fun d => replace_file d HEAD_FILE (json_line (to_value head)).

(** [fn read_head] *)
Definition read_head (d : dir_t) (key : string) : result (option AuditHead) ErrorKind :=
  let? bytes := read_regular d HEAD_FILE in
  match bytes with
  | None => Ok None
  | Some bytes =>
      let? head := ok_or (from_slice bytes) InvalidData in
      if String.eqb (compute_hmac_for_head (hd_version head) (hd_last_seq head) (hd_last_hmac head) key)
           (hd_hmac head)
      then Ok (Some head)
      else Ok (Some (mk_head (hd_version head) 0 EmptyString EmptyString))
  end.

(** [fn acquire_log_lock] and [fn acquire_log_lock_shared]; held until the
    operation returns *)
Definition acquire_log_lock : audit_io unit :=
  do? _ := (fun d => open_file d AUDIT_LOCK_FILE true) in
  io_query (fun d => lock_exclusive d AUDIT_LOCK_FILE).

Definition acquire_log_lock_shared : audit_io unit :=
  do? _ := (fun d => open_file d AUDIT_LOCK_FILE true) in
  io_query (fun d => lock_shared d AUDIT_LOCK_FILE).

(** [.ok()]: what the computation did stays done *)
Definition io_ok {T} (m : audit_io T) : audit_io (option T) := fun d =>
  let '(d1, r) := m d in (d1, Ok (match r with Ok x => Some x | Err _ => None end)).

(** What an event takes from its process: random bytes for a new key, the
    clock's readings for a marker and for the event, the process, and the
    outcome of [encrypt_context] under a key *)
Record audit_env := mk_env {
  ae_fresh : string;
  ae_marker_now : N;
  ae_now : N;
  ae_pid : N;
  ae_process : string;
  ae_encryption : option string;
  ae_encrypt : string → option string;
}.

(** The event, without its MAC *)
Definition unsigned_event (env : audit_env) (op : string) (name : option string) (key : option string)
    (seq : N) (prev_hmac : string) : AuditEvent :=
  mk_event seq (ae_now env) op name (ae_pid env)
    (match key with Some _ => Some prev_hmac | None => None end) (ae_process env)
    (if is_active (effective_local_mode (encryption_from_env (ae_encryption env)))
     then match key with Some k => ae_encrypt env k | None => None end
     else None)
    None.

Definition with_hmac (hmac : option string) (e : AuditEvent) : AuditEvent :=
  mk_event (ev_seq e) (ev_ts e) (ev_op e) (ev_name e) (ev_pid e) (ev_prev_hmac e) (ev_process e)
    (ev_encrypted_context e) hmac.

(** [fn write_event] *)
Definition write_event (env : audit_env) (op : string) (name : option string) (required : bool)
    : audit_io unit :=
  do? _ := io_lift audit_home in
  do? _ := io_query audit_private_dir in
  do? _ := acquire_log_lock in
  do? key := (if required
              then do? k := load_or_create_hmac_key (ae_fresh env) (ae_marker_now env) in io_ret (Some k)
              else io_ok (load_or_create_hmac_key (ae_fresh env) (ae_marker_now env))) in
  fun d =>
    let prev_hmac := match key with Some _ => default GENESIS (read_last_hmac d) | None => GENESIS end in
    let seq := match key with Some _ => N.min (read_last_seq d + 1) u64_max | None => 1%N end in
    let event := unsigned_event env op name key seq prev_hmac in
    let hmac := match key with Some k => Some (compute_hmac_for_event event k) | None => None end in
    (do? _ := append_line (json_line (to_value (with_hmac hmac event))) in
     match key, hmac with
     | Some k, Some h => write_head seq h k
     | _, _ => io_ret tt
     end) d.

(** [log_result], [log] *)
Definition log_result (env : audit_env) (var : option string) (op : string) (name : option string)
    : audit_io unit :=
  match audit_mode var with
  | AmDisabled => io_ret tt
  | AmBestEffort => do? _ := io_ok (write_event env op name false) in io_ret tt
  | AmRequired => write_event env op name true
  end.

Definition log (env : audit_env) (var : option string) (op : string) (name : option string)
    : audit_io unit :=
  do? _ := io_ok (log_result env var op name) in io_ret tt.

(** [fn verify_log_content]: the walk, the checkpoint, and the boundary of
    the unsigned era *)
Definition verify_log_content (content : string) (key : option string) (d : dir_t)
    : result VerifyReport ErrorKind :=
  let s := walk_lines key 1 (text_lines content) start_walk in
  let? head_exists := path_present d HEAD_FILE in
  let? report :=
    match wk_final s, key with
    | Some (seq, hmac), Some k =>
        let? head := read_head d k in
        Ok match head with
           | Some head =>
               if (hd_last_seq head =? seq)%N && String.eqb (hd_last_hmac head) hmac
               then wk_report s else set_head false true (wk_report s)
           | None => set_head true false (wk_report s)
           end
    | _, _ => Ok (if head_exists then set_head false true (wk_report s) else wk_report s)
    end in
  Ok (if negb (wk_marker_seen s) && (bool_decide (is_Some (wk_final s)) || head_exists)
      then reclassify (wk_pre_chain s) report else report).

(** [log_present] *)
Definition log_present (d : dir_t) : result bool ErrorKind :=
  let? dir := audit_dir_present d in
  if dir then path_present d LOG_FILE else Ok false.

(** [verify_log] *)
Definition verify_log : audit_io VerifyReport :=
  do? _ := io_lift audit_home in
  do? present := io_query log_present in
  if negb present then
    do? key := io_query load_or_skip_hmac_key in
    io_query (verify_log_content EmptyString key)
  else
    do? _ := acquire_log_lock_shared in
    do? key := io_query load_or_skip_hmac_key in
    do? content := io_query (fun d => read_state_text d LOG_FILE) in
    io_query (verify_log_content content key).
End log.
