(* ===== verification/AuditSpec.v ===== *)
(** * What the audit log guarantees

    First single lines, then logs.  A log that verifies clean while its
    checkpoint is there consists of signed events, each naming the MAC of the
    one before, up to the checkpoint's; if the events make one chain, it is an
    initial part of them ([clean_log_genuine]).  And what required writes
    report as written is there, in order, and verifies clean if none of them
    failed to read the log ([required_log_faithful]).  Five findings close the
    file: a number in quotes, a cut that the next write covers up, a read that
    fails within a write, a lost marker, and a stray byte. *)

From S2P Require Import Prelude Text Ids External StateDir JsonText AuditLog.

(** ** The audit log's lines

    One line at a time: what an event, the marker and the checkpoint look
    like when they are read back, what the MAC of a line covers, and what a
    walk over lines collects. *)

(** ** Values *)

(** The ranges of an event's integers *)
Definition event_ok (e : AuditEvent) : Prop :=
  (ev_seq e <= u64_max)%N ∧ (ev_ts e <= u64_max)%N ∧ (ev_pid e <= u64_max)%N.

Lemma event_keys e : NoDup (event_fields e).*1.
Proof.
  destruct e as [? ? ? [?|] ? [?|] ? [?|] [?|]]; cbn; by apply (bool_decide_unpack _).
Qed.

Lemma event_simple e : event_ok e → Forall (fun kv => simple_value kv.2 = true) (event_fields e).
Proof.
  intros (Hs & Ht & Hp). apply N.leb_le in Hs, Ht, Hp.
  destruct e as [? ? ? [?|] ? [?|] ? [?|] [?|]]; cbn in *; repeat constructor; done.
Qed.

(** A record's fields by name *)
Definition event_get (e : AuditEvent) (name : string) : option value :=
  get name (VObject (event_fields e)).

(** What the MAC of a line covers is what the MAC of the event covers. *)
Lemma line_map_event `{X : External} e :
  is_Some (ev_prev_hmac e) → line_map (VObject (event_fields e)) = event_map e.
Proof.
  intros [p Hp]. destruct e as [seq ts op [name|] pid prev process [ctx|] [h|]]; simpl in Hp; subst prev;
    unfold line_map, event_map, LINE_FIELDS, event_fields, get; simpl;
    by simplify_map_eq.
Qed.

Lemma line_map_perm `{X : External} m m' :
  m' ≡ₚ m → NoDup m.*1 → line_map (VObject m') = line_map (VObject m).
Proof. intros Hp Hd. unfold line_map. cbn [foldl LINE_FIELDS]. by rewrite !(get_perm _ m m'). Qed.

Section text.
Context `{X : External} `{XL : !ExternalLaws X} `{JL : !JsonTextLaws X}.

(** What is read of the line of an object with simple fields *)
Lemma object_line m :
  NoDup m.*1 → Forall (fun kv => simple_value kv.2 = true) m →
  ∃ m', parse_json (trim (json_to_vec (VObject m))) = Some (VObject m') ∧ m' ≡ₚ m.
Proof.
  intros Hd Hs. rewrite json_text_trimmed. destruct (json_text_parses m Hd Hs) as (m' & Hp & ->). eauto.
Qed.

(** An event's line is read back as the event. *)
Lemma event_line e :
  event_ok e → is_Some (ev_prev_hmac e) →
  ∃ v, parse_json (trim (json_to_vec (to_value e))) = Some v ∧
       (∀ name, get name v = event_get e name) ∧ line_map v = event_map e.
Proof.
  intros Hok Hp. destruct (object_line _ (event_keys e) (event_simple e Hok)) as (m & Hm & Hperm).
  exists (VObject m). split_and!; [done| |].
  - intros name. apply get_perm; [done|apply event_keys].
  - rewrite (line_map_perm _ _ Hperm (event_keys e)). by apply line_map_event.
Qed.

Lemma marker_line k now :
  (now <= u64_max)%N →
  ∃ v, parse_json (trim (json_to_vec (marker_value k now))) = Some v ∧
       is_Some (get "hmac_chain_started_at" v) ∧ get "hmac" v = None.
Proof.
  intros Hn. unfold marker_value. set (m := [_; _]).
  assert (NoDup m.*1) as Hd by by apply (bool_decide_unpack _).
  destruct (object_line m Hd) as (m' & Hm & Hperm).
  { apply N.leb_le in Hn. by repeat constructor. }
  exists (VObject m'). rewrite !(get_perm _ _ _ Hperm Hd). split_and!; [done|by eexists|done].
Qed.

(** The checkpoint file is read back. *)
Lemma head_round_trip h :
  (hd_version h <= 255)%N → (hd_last_seq h <= u64_max)%N →
  from_slice (json_line (to_value h)) = Some h.
Proof.
  intros Hv Hs.
  assert ((hd_version h <=? u64_max)%N = true) as Hv' by (apply N.leb_le; unfold u64_max; lia).
  apply N.leb_le in Hv, Hs.
  assert (NoDup (head_fields h).*1) as Hd by by apply (bool_decide_unpack _).
  destruct (json_text_parses (head_fields h) Hd) as (m & Hp & Hj).
  { repeat constructor; simpl; done. }
  unfold from_slice, json_line, to_value, Serialize_head. rewrite json_text_newline, Hj. unfold from_value, Deserialize_head.
  rewrite !(member_read_perm _ _ _ Hp Hd). destruct h as [v s l t]; simpl in *.
  unfold read_head_fields, read_u8. simpl. rewrite Hv'. simpl. rewrite Hv. simpl. by rewrite Hs.
Qed.

(** A MAC is 64 characters, so it is neither [GENESIS] nor empty. *)
Lemma audit_mac_length k s : String.length (audit_mac k s) = 64%nat.
Proof. unfold audit_mac. by rewrite hex_encode_length, hmac_length. Qed.

Lemma audit_mac_genesis k s : audit_mac k s ≠ GENESIS.
Proof. intros H. apply (f_equal String.length) in H. by rewrite audit_mac_length in H. Qed.

Lemma read_key_published k : String.length k = 32%nat → parse_hmac_key (hex_encode k) = Ok k.
Proof.
  intros Hl. pose proof (lower_hex_graphic _ (hex_encode_lower k)) as Hg. unfold parse_hmac_key.
  rewrite (graphic_utf8 _ Hg), (trim_id _ (graphic_trimmed _ Hg)), hex_decode_encode. simpl.
  by rewrite Hl.
Qed.
End text.

(** ** What a walk collects *)

Section walks.
Context `{X : External}.

(** The signed record of a line, if it is one: the value and its MAC *)
Definition signed_of (raw : string) : option (value * string) :=
  let trimmed := trim raw in
  if str_is_empty trimmed then None
  else v ← parse_json trimmed;
       match get "hmac_chain_started_at" v with
       | Some _ => None
       | None => h ← as_str (get "hmac" v); Some (v, h)
       end.

Definition signed_records (lines : list string) : list (value * string) := omap signed_of lines.

Definition line_prev (v : value) : string := default GENESIS (as_str (get "prev_hmac" v)).
Definition line_seq (v : value) : option N := as_u64 (get "seq" v).

(** Every record's MAC is right. *)
Definition mac_right (k : string) (r : value * string) : Prop := compute_hmac_for_line r.1 k = r.2.

(** Every record names the MAC of the one before; the first one names [prev],
    if there is one. *)
Fixpoint linked (prev : option string) (rs : list (value * string)) : Prop :=
  match rs with
  | [] => True
  | (v, h) :: rest =>
      match prev with Some p => line_prev v = p | None => True end ∧ linked (Some h) rest
  end.

(** The records with a sequence number count up from [i]. *)
Fixpoint sequenced (i : N) (rs : list (value * string)) : Prop :=
  match rs with
  | [] => True
  | (v, _) :: rest =>
      match line_seq v with
      | Some q => q = i ∧ sequenced (N.min (q + 1) u64_max) rest
      | None => sequenced i rest
      end
  end.

(** The last record with a sequence number, [last] if there is none *)
Fixpoint last_sequenced (last : option (N * string)) (rs : list (value * string))
    : option (N * string) :=
  match rs with
  | [] => last
  | (v, h) :: rest =>
      last_sequenced (match line_seq v with Some q => Some (q, h) | None => last end) rest
  end.

Definition errors (r : VerifyReport) : nat :=
  (vr_tampered r + vr_malformed r + vr_sequence_errors r)%nat.

Definition link_of (s : walk) : option string :=
  if wk_chain_started s then Some (wk_prev_hmac s) else None.

(** One line: an error more, or the line fits. *)
Lemma walk_line_step k n raw s :
  let s' := walk_line (Some k) n raw s in
  (errors (wk_report s) < errors (wk_report s'))%nat ∨
  errors (wk_report s') = errors (wk_report s) ∧
  match signed_of raw with
  | None =>
      (wk_chain_started s = true → link_of s' = link_of s) ∧ wk_expected_seq s' = wk_expected_seq s ∧
      wk_final s' = wk_final s
  | Some (v, h) =>
      mac_right k (v, h) ∧ match link_of s with Some p => line_prev v = p | None => True end ∧
      link_of s' = Some h ∧
      match line_seq v with
      | Some q => q = wk_expected_seq s ∧ wk_expected_seq s' = N.min (q + 1) u64_max ∧
                  wk_final s' = Some (q, h)
      | None => wk_expected_seq s' = wk_expected_seq s ∧ wk_final s' = wk_final s
      end
  end.
Proof.
  unfold walk_line, signed_of. destruct (str_is_empty (trim raw)); [by right|].
  destruct (parse_json (trim raw)) as [v|]; [|left; unfold errors; simpl; lia].
  unfold walk_value. simpl. destruct (get "hmac_chain_started_at" v) as [m|].
  { right. split; [done|]. unfold link_of. simpl. split_and!; try done. by intros ->. }
  destruct (as_str (get "hmac" v)) as [h|] eqn:Eh; simpl.
  2:{ destruct (wk_chain_started s) eqn:Ec; [left; unfold errors; simpl; lia|]. right.
      split; [done|]. by split_and!. }
  unfold walk_signed. destruct (String.eqb_spec (compute_hmac_for_line v k) h) as [Hm|]; simpl.
  2:{ left. unfold errors. simpl. lia. }
  fold (line_prev v). fold (line_seq v).
  destruct (String.eqb_spec (line_prev v) (if wk_chain_started s then wk_prev_hmac s else line_prev v))
    as [Hp|]; simpl; [|left; unfold errors; simpl; lia].
  assert (match link_of s with Some p => line_prev v = p | None => True end) as Hl.
  { unfold link_of. by destruct (wk_chain_started s). }
  destruct (line_seq v) as [q|] eqn:Eq; simpl.
  - destruct (N.eqb_spec q (wk_expected_seq s)); simpl; [right|left; unfold errors; simpl; lia].
    split; [done|]. by split_and!.
  - right. split; [done|]. by split_and!.
Qed.

Lemma walk_lines_errors k n lines s :
  (errors (wk_report s) <= errors (wk_report (walk_lines (Some k) n lines s)))%nat.
Proof.
  revert n s. induction lines as [|raw lines IH]; intros n s; simpl; [lia|].
  specialize (IH (S n) (walk_line (Some k) n raw s)).
  destruct (walk_line_step k n raw s) as [H|[H _]]; lia.
Qed.

Lemma linked_weaken p rs : linked (Some p) rs → linked None rs.
Proof. destruct rs as [|[v h] rs]; simpl; tauto. Qed.

(** A walk without a new error: every signed record fits. *)
Lemma walk_lines_clean k lines : ∀ n s,
  let s' := walk_lines (Some k) n lines s in
  errors (wk_report s') = errors (wk_report s) →
  Forall (mac_right k) (signed_records lines) ∧ linked (link_of s) (signed_records lines) ∧
  sequenced (wk_expected_seq s) (signed_records lines) ∧
  wk_final s' = last_sequenced (wk_final s) (signed_records lines).
Proof.
  induction lines as [|raw lines IH]; intros n s; simpl; [done|]. intros He.
  pose proof (walk_lines_errors k (S n) lines (walk_line (Some k) n raw s)) as Hmono.
  destruct (walk_line_step k n raw s) as [H|[H Hfit]]; [lia|].
  specialize (IH (S n) (walk_line (Some k) n raw s)). simpl in IH.
  destruct IH as (I1 & I2 & I3 & I4); [lia|].
  unfold signed_records in *. simpl. destruct (signed_of raw) as [[v h]|]; simpl in *.
  - destruct Hfit as (Hm & Hp & Hl & Hs). rewrite Hl in I2.
    split_and!; [by constructor|done|done| |].
    + destruct (line_seq v) as [q|]; [destruct Hs as (-> & Hq & Hf)|destruct Hs as [Hq Hf]];
        rewrite Hq in I3; done.
    + rewrite I4. destruct (line_seq v) as [q|]; [destruct Hs as (-> & Hq & ->)|destruct Hs as [Hq ->]]; done.
  - destruct Hfit as (Hl & Hq & Hf). rewrite Hq in I3. rewrite Hf in I4. split_and!; try done.
    unfold link_of at 1. destruct (wk_chain_started s) eqn:Ec.
    + rewrite Hl in I2 by done. unfold link_of in I2. by rewrite Ec in I2.
    + destruct (link_of _); [by eapply linked_weaken|done].
Qed.
End walks.

(** ** Genuine events *)

Section genuine.
Context `{X : External} `{XL : !ExternalLaws X} `{JL : !JsonTextLaws X}.

(** What is signed for an event: itself, and the checkpoint that names it *)
Definition event_text (e : AuditEvent) : string := string_map_text (event_map e).
Definition event_mac (k : string) (e : AuditEvent) : string := audit_mac k (event_text e).
Definition checkpoint_text (k : string) (e : AuditEvent) : string :=
  string_map_text (head_map 1 (ev_seq e) (event_mac k e)).

(** Events as the writer chains them: numbered from [i], each naming the MAC
    of the one before *)
Fixpoint chained (k : string) (i : N) (prev : string) (evs : list AuditEvent) : Prop :=
  match evs with
  | [] => True
  | e :: rest =>
      ev_seq e = i ∧ ev_prev_hmac e = Some prev ∧ chained k (i + 1) (event_mac k e) rest
  end.

Definition signed_texts (k : string) (evs : list AuditEvent) : list string :=
  map event_text evs ++ map (checkpoint_text k) evs.

(** Events that follow one another: each names the MAC of the one before, the
    first one [prev], if there is one. *)
Fixpoint follows (k : string) (prev : option string) (path : list AuditEvent) : Prop :=
  match path with
  | [] => True
  | e :: rest =>
      match prev with Some p => ev_prev_hmac e = Some p | None => True end ∧
      follows k (Some (event_mac k e)) rest
  end.

(** Nobody else makes a MAC: a record whose MAC is right was signed. *)
Definition unforgeable (k : string) (evs : list AuditEvent) (rs : list (value * string)) : Prop :=
  ∀ r, r ∈ rs → mac_right k r → string_map_text (line_map r.1) ∈ signed_texts k evs.

(** No two texts that were signed have the same MAC. *)
Definition collision_free (k : string) (evs : list AuditEvent) : Prop :=
  ∀ s t, s ∈ signed_texts k evs → t ∈ signed_texts k evs → audit_mac k s = audit_mac k t → s = t.

(** ** Fields under the MAC *)

Lemma fold_fields_lookup v fields (m : gmap string string) f :
  NoDup fields →
  foldl (fun m field => match get field v with
                        | Some x => <[field := field_text x]> m
                        | None => m
                        end) m fields !! f =
  if bool_decide (f ∈ fields) then
    match get f v with Some x => Some (field_text x) | None => m !! f end
  else m !! f.
Proof.
  revert m. induction fields as [|g fields IH]; intros m; [done|].
  intros [Hg Hd]%NoDup_cons. cbn [foldl]. rewrite IH by done. clear IH.
  destruct (decide (f = g)) as [->|Hne].
  - rewrite (bool_decide_false (g ∈ fields)), bool_decide_true by (done || by left).
    destruct (get g v); [by rewrite lookup_insert_eq|done].
  - assert (f ∈ g :: fields ↔ f ∈ fields) as Hin by (rewrite elem_of_cons; naive_solver).
    rewrite (bool_decide_ext _ _ Hin).
    replace ((match get g v with Some x => <[g:=field_text x]> m | None => m end) !! f) with (m !! f).
    { done. }
    destruct (get g v); [by rewrite lookup_insert_ne|done].
Qed.

Lemma line_map_field v f x :
  f ∈ LINE_FIELDS → get f v = Some x → line_map v !! f = Some (field_text x).
Proof.
  intros Hf Hx. unfold line_map. cbv zeta. set (m := foldl _ _ _).
  assert (m !! f = Some (field_text x)) as Hm.
  { subst m. rewrite fold_fields_lookup by by apply (bool_decide_unpack _).
    by rewrite bool_decide_true, Hx. }
  destruct (m !! "prev_hmac") eqn:E; [done|].
  destruct (decide (f = "prev_hmac")) as [->|]; [congruence|]. by rewrite lookup_insert_ne.
Qed.

Lemma line_map_prev v : is_Some (line_map v !! "prev_hmac").
Proof.
  unfold line_map. cbv zeta. destruct (foldl _ _ _ !! "prev_hmac") eqn:E; [by eexists|].
  rewrite lookup_insert_eq. by eexists.
Qed.

Lemma event_map_seq e : event_map e !! "seq" = Some (N_to_string (ev_seq e)).
Proof. unfold event_map. destruct (ev_name e), (ev_encrypted_context e); by simplify_map_eq. Qed.

Lemma event_map_prev e : event_map e !! "prev_hmac" = Some (default GENESIS (ev_prev_hmac e)).
Proof. unfold event_map. destruct (ev_name e), (ev_encrypted_context e); by simplify_map_eq. Qed.

Lemma head_map_prev v s h : head_map v s h !! "prev_hmac" = None.
Proof. unfold head_map. by simplify_map_eq. Qed.

(** The MACs of lines and of checkpoints do not mix. *)
Lemma signed_line k evs v :
  string_map_text (line_map v) ∈ signed_texts k evs → ∃ i e, evs !! i = Some e ∧ line_map v = event_map e.
Proof.
  unfold signed_texts. rewrite elem_of_app, !list_elem_of_In, !in_map_iff.
  intros [(e & He & Hin)|(e & He & Hin)]; apply string_map_text_inj in He.
  - apply list_elem_of_In, list_elem_of_lookup in Hin as [i Hi]. eauto.
  - destruct (line_map_prev v) as [p Hp]. by rewrite <- He, head_map_prev in Hp.
Qed.

(** ** The chain *)

Lemma chained_lookup k i prev evs j e :
  chained k i prev evs → evs !! j = Some e →
  ev_seq e = (i + N.of_nat j)%N ∧
  ev_prev_hmac e = Some (match j with
                         | O => prev
                         | S j' => match evs !! j' with Some e' => event_mac k e' | None => prev end
                         end).
Proof.
  revert i prev j. induction evs as [|e0 evs IH]; intros i prev j; [done|].
  simpl. intros (Hs & Hp & Hc). destruct j as [|j]; simpl.
  - intros [= <-]. split; [lia|done].
  - intros Hj. destruct (IH _ _ _ Hc Hj) as [H1 H2]. split; [lia|]. rewrite H2.
    destruct j as [|j]; [done|]. simpl.
    destruct (evs !! j) as [e'|] eqn:E; [done|].
    apply lookup_lt_Some in Hj. apply lookup_ge_None in E. lia.
Qed.

Lemma line_seq_field v q : line_seq v = Some q → line_map v !! "seq" = Some (N_to_string q).
Proof.
  unfold line_seq, as_u64. destruct (get "seq" v) as [x|] eqn:E; [|done]. simpl.
  destruct x as [| |[n| |]| | |]; try done. simpl. destruct (n <=? u64_max)%N; [|done]. intros [= <-].
  apply (line_map_field v "seq" (VNumber (NPos n))); [by left|done].
Qed.

(** A line that names no MAC names [GENESIS]. *)
Lemma line_prev_named v :
  line_prev v = GENESIS ∨ line_map v !! "prev_hmac" = Some (line_prev v).
Proof.
  unfold line_prev, as_str. destruct (get "prev_hmac" v) as [x|] eqn:E; [|by left].
  destruct x as [| | |s| |]; try by left. right. simpl.
  apply (line_map_field v "prev_hmac" (VString s)); [|done]. by apply (bool_decide_unpack _).
Qed.

Lemma line_prev_genesis v : line_map v !! "prev_hmac" = Some GENESIS → line_prev v = GENESIS.
Proof. intros H. destruct (line_prev_named v) as [?|H']; [done|]. congruence. Qed.

(** The line of an event that names a MAC: the event names it. *)
Lemma line_names_mac v e p :
  p ≠ GENESIS → line_map v = event_map e → line_prev v = p → ev_prev_hmac e = Some p.
Proof.
  intros Hp Hm Hl. destruct (line_prev_named v) as [Hg|Hg]; [congruence|].
  rewrite Hm, event_map_prev, Hl in Hg. injection Hg as Hg. destruct (ev_prev_hmac e); simpl in Hg; congruence.
Qed.

(** A clean log's records are signed events that follow one another, whatever
    events were signed. *)
Lemma records_path k evs rs : ∀ prev,
  match prev with Some p => p ≠ GENESIS | None => True end →
  unforgeable k evs rs → Forall (mac_right k) rs → linked prev rs →
  ∃ path, Forall (fun e => e ∈ evs) path ∧ follows k prev path ∧
    map (fun r => line_map r.1) rs = map event_map path.
Proof.
  induction rs as [|[v h] rs IH]; intros prev Hp Hu Hr Hl; [by exists []|].
  apply Forall_cons in Hr as [Hr Hrs]. destruct Hl as [Hpv Hl].
  destruct (signed_line k evs v (Hu (v, h) ltac:(by left) Hr)) as (i & e & Hi & Hm).
  assert (h = event_mac k e) as ->.
  { unfold mac_right in Hr. simpl in Hr. rewrite <- Hr. unfold compute_hmac_for_line. by rewrite Hm. }
  destruct (IH (Some (event_mac k e))) as (path & Hin & Hf & Heq);
    [apply audit_mac_genesis|intros r Hin; apply Hu; by right|done|done|].
  exists (e :: path). split_and!.
  - constructor; [by eapply list_elem_of_lookup_2|done].
  - destruct prev as [p|]; [|done]. split; [by apply (line_names_mac v)|done].
  - simpl. by f_equal.
Qed.

Section records.
Context (k : string) (evs : list AuditEvent) (rs : list (value * string)).
Hypothesis Hchain : chained k 1 GENESIS evs.
Hypothesis Hunforge : unforgeable k evs rs.
Hypothesis Hcoll : collision_free k evs.
Hypothesis Hright : Forall (mac_right k) rs.

(** A signed record is an event of the history, its MAC that event's. *)
Lemma record_event v h :
  (v, h) ∈ rs → ∃ i e, evs !! i = Some e ∧ line_map v = event_map e ∧ h = event_mac k e.
Proof.
  intros Hin. pose proof (proj1 (Forall_forall _ _) Hright _ Hin) as Hr.
  destruct (signed_line k evs v (Hunforge _ Hin Hr)) as (i & e & Hi & He).
  exists i, e. split_and!; [done..|]. unfold mac_right in Hr. simpl in Hr.
  rewrite <- Hr. unfold compute_hmac_for_line, event_mac, event_text. by rewrite He.
Qed.

(** Two events with one sequence number are one event. *)
Lemma same_event i j e e' :
  evs !! i = Some e → evs !! j = Some e' → event_map e = event_map e' → i = j.
Proof.
  intros Hi Hj He. destruct (chained_lookup _ _ _ _ _ _ Hchain Hi) as [Hs _].
  destruct (chained_lookup _ _ _ _ _ _ Hchain Hj) as [Hs' _].
  apply (f_equal (lookup "seq")) in He. rewrite !event_map_seq in He.
  injection He as He%N_to_string_inj. lia.
Qed.

Lemma same_mac i j e e' :
  evs !! i = Some e → evs !! j = Some e' → event_mac k e = event_mac k e' → i = j.
Proof.
  intros Hi Hj He. apply (same_event i j e e'); [done..|]. apply string_map_text_inj.
  apply Hcoll; [..|done]; unfold signed_texts; apply elem_of_app; left; apply (list_elem_of_fmap_2 event_text);
    by eapply list_elem_of_lookup_2.
Qed.

(** The event behind a record that names the MAC of event [j] is the next one. *)
Lemma next_event v h j e :
  (v, h) ∈ rs → evs !! j = Some e → line_prev v = event_mac k e →
  ∃ e', evs !! S j = Some e' ∧ line_map v = event_map e' ∧ h = event_mac k e'.
Proof.
  intros Hin Hj Hp. destruct (record_event v h Hin) as (i & e' & Hi & Hm & Hh).
  destruct (line_prev_named v) as [Hg|Hg].
  { rewrite Hp in Hg. by apply audit_mac_genesis in Hg. }
  rewrite Hm, event_map_prev, Hp in Hg. injection Hg as Hg.
  destruct (chained_lookup _ _ _ _ _ _ Hchain Hi) as [_ Hprev]. rewrite Hprev in Hg. simpl in Hg.
  destruct i as [|i]; [symmetry in Hg; by apply audit_mac_genesis in Hg|].
  destruct (evs !! i) as [e0|] eqn:E0.
  2:{ apply lookup_lt_Some in Hi. apply lookup_ge_None in E0. lia. }
  assert (i = j) as -> by by eapply same_mac. by exists e'.
Qed.

(** From event [j] on, linked records are the events that follow. *)
Lemma linked_events j e tail :
  (∀ r, r ∈ tail → r ∈ rs) → evs !! j = Some e → linked (Some (event_mac k e)) tail →
  map (fun r => line_map r.1) tail = map event_map (take (length tail) (drop (S j) evs)).
Proof.
  revert j e. induction tail as [|[v h] tail IH]; intros j e Hin Hj; simpl; [done|].
  intros [Hp Hl]. destruct (next_event v h j e) as (e' & Hj' & Hm & ->); [apply Hin; by left|done..|].
  rewrite (drop_S _ _ _ Hj'). simpl. f_equal; [done|].
  apply (IH (S j) e'); [intros r Hr; apply Hin; by right|done..].
Qed.
End records.

(** Where a numbered record is, the first one is number one, and it comes
    first of all. *)
Lemma first_sequenced i rs q :
  sequenced i rs → last_sequenced None rs = Some q →
  ∃ a v h b, rs = a ++ (v, h) :: b ∧ line_seq v = Some i.
Proof.
  induction rs as [|[v h] rs IH]; simpl; [done|]. destruct (line_seq v) as [p|] eqn:E.
  - intros [-> _] _. by exists [], v, h, rs.
  - intros Hs Hl. destruct (IH Hs Hl) as (a & w & g & b & -> & Hw). by exists ((v, h) :: a), w, g, b.
Qed.

Lemma last_sequenced_in o rs q h :
  last_sequenced o rs = Some (q, h) → o = Some (q, h) ∨ ∃ v, (v, h) ∈ rs ∧ line_seq v = Some q.
Proof.
  revert o. induction rs as [|[v g] rs IH]; simpl; intros o; [by left|].
  intros [Hl|(w & Hw & Hq)]%IH; [|right; exists w; split; [by right|done]].
  destruct (line_seq v) as [p|] eqn:E; [|by left]. injection Hl as -> ->. right.
  exists v. split; [by left|done].
Qed.

Lemma linked_behind p a v h w g b :
  linked p (a ++ (v, h) :: (w, g) :: b) → line_prev w = h.
Proof.
  revert p. induction a as [|[x y] a IH]; simpl; intros p; [tauto|]. intros [_ H]. by eapply IH.
Qed.

(** The records of a clean walk are an initial part of the history that goes
    at least to the last number. *)
Lemma clean_records k evs rs q h :
  chained k 1 GENESIS evs → unforgeable k evs rs → collision_free k evs → Forall (mac_right k) rs →
  linked None rs → sequenced 1 rs → last_sequenced None rs = Some (q, h) →
  ∃ m, (N.to_nat q <= m <= length evs)%nat ∧
       map (fun r => line_map r.1) rs = map event_map (take m evs).
Proof.
  intros Hc Hu Hcoll Hr Hl Hs Hlast.
  destruct (first_sequenced _ _ _ Hs Hlast) as (a & v & g & b & Hrs & Hv).
  assert ((v, g) ∈ rs) as Hin by (rewrite Hrs; apply elem_of_app; right; by left).
  destruct (record_event k evs rs Hu Hr v g Hin) as (i & e & Hi & Hm & Hg).
  destruct (chained_lookup _ _ _ _ _ _ Hc Hi) as [Hseq Hprev].
  assert (i = 0%nat) as ->.
  { pose proof (line_seq_field v 1 Hv) as H1. rewrite Hm, event_map_seq in H1.
    injection H1 as H1%N_to_string_inj. lia. }
  simpl in Hprev. assert (line_prev v = GENESIS) as Hgen.
  { apply line_prev_genesis. by rewrite Hm, event_map_prev, Hprev. }
  assert (a = []) as ->.
  { destruct a as [|[w f] a _] using rev_ind; [done|]. exfalso.
    rewrite <- app_assoc in Hrs. simpl in Hrs. rewrite Hrs in Hl. apply linked_behind in Hl.
    rewrite Hgen in Hl. assert ((w, f) ∈ rs) as Hw by (rewrite Hrs; apply elem_of_app; right; by left).
    destruct (record_event k evs rs Hu Hr w f Hw) as (? & ? & _ & _ & ->).
    symmetry in Hl. by apply audit_mac_genesis in Hl. }
  simpl in Hrs. subst rs. exists (length ((v, g) :: b)).
  assert (map (fun r => line_map r.1) ((v, g) :: b) = map event_map (take (length ((v, g) :: b)) evs)) as Heq.
  { destruct evs as [|e0 evs]; [done|]. injection Hi as ->. simpl in Hl. destruct Hl as [_ Hl].
    simpl. f_equal; [done|]. rewrite Hg in Hl.
    apply (linked_events k (e :: evs) ((v, g) :: b) Hc Hu Hcoll Hr 0 e b); [by right|done..]. }
  split; [|done]. split.
  - destruct (last_sequenced_in _ _ _ _ Hlast) as [?|(w & Hw & Hq)]; [done|].
    apply list_elem_of_lookup in Hw as [j Hj]. pose proof (lookup_lt_Some _ _ _ Hj) as Hlt.
    pose proof (f_equal (lookup j) Heq) as Hj'.
    change (map ?f ?l !! j) with ((f <$> l) !! j) in Hj'. rewrite !list_lookup_fmap, Hj in Hj'.
    rewrite lookup_take_lt in Hj' by done. simpl in Hj'.
    destruct (evs !! j) as [e'|] eqn:Ej; [|done]. injection Hj' as Hj'.
    apply line_seq_field in Hq. rewrite Hj', event_map_seq in Hq. injection Hq as Hq%N_to_string_inj.
    destruct (chained_lookup _ _ _ _ _ _ Hc Ej) as [Hs' _]. lia.
  - apply (f_equal length) in Heq. rewrite !length_map, length_take in Heq. lia.
Qed.
End genuine.

(** ** Verification *)

Section spec.
Context `{X : External} `{XL : !ExternalLaws X} `{JL : !JsonTextLaws X}.
Context `{SD : StateDir} `{SL : !StateDirLaws SD} `{H : !AuditHost} `{HL : !AuditHostLaws H}.

Lemma is_clean_errors r : is_clean r = true →
  errors r = 0%nat ∧ vr_head_missing r = false ∧ vr_head_mismatch r = false.
Proof.
  unfold is_clean, errors. rewrite !andb_true_iff, !Nat.eqb_eq, !negb_true_iff.
  intros [[[[-> ->] ->] ->] ->]. done.
Qed.

(** A clean report, with the checkpoint there: the walk was clean and ended at
    the checkpoint. *)
Lemma clean_report content k d r text :
  verify_log_content content (Some k) d = Ok r → is_clean r = true →
  file_contents d HEAD_FILE = Some text →
  let s := walk_lines (Some k) 1 (text_lines content) start_walk in
  errors (wk_report s) = 0%nat ∧
  ∃ hd q h, from_slice text = Some hd ∧ wk_final s = Some (q, h) ∧
    (q = hd_last_seq hd ∧ h = hd_last_hmac hd ∧
     compute_hmac_for_head (hd_version hd) (hd_last_seq hd) (hd_last_hmac hd) k = hd_hmac hd
     ∨ h = EmptyString).
Proof.
  intros Hv (He & Hmiss & Hmism)%is_clean_errors Hhead s. unfold verify_log_content in Hv. fold s in Hv.
  apply rbind_Ok in Hv as (he & Hpres & Hv). apply rbind_Ok in Hv as (r1 & Hr1 & [= <-]).
  assert (he = true) as ->.
  { destruct he; [done|]. apply path_absent in Hpres. congruence. }
  rewrite orb_true_r, andb_true_r in He, Hmiss, Hmism. destruct (wk_marker_seen s); simpl in *; [|done].
  destruct (wk_final s) as [[q h]|] eqn:Ef; [|by injection Hr1 as <-].
  apply rbind_Ok in Hr1 as (o & Ho & [= <-]). unfold read_head in Ho.
  apply rbind_Ok in Ho as ([bytes|] & Hb & Ho); [|apply read_regular_absent in Hb; congruence].
  apply read_regular_contents in Hb. rewrite Hhead in Hb. injection Hb as <-.
  apply rbind_Ok in Ho as (hd & Hp%ok_or_Ok & Ho).
  destruct (String.eqb_spec (compute_hmac_for_head (hd_version hd) (hd_last_seq hd) (hd_last_hmac hd) k)
    (hd_hmac hd)) as [Hm|]; injection Ho as <-; cbn [hd_last_seq hd_last_hmac] in He, Hmiss, Hmism;
    (destruct (_ && _) eqn:E in He, Hmism; [|done]);
    apply andb_true_iff in E as [E1 E2%String.eqb_eq]; (split; [done|]).
  - apply N.eqb_eq in E1. exists hd, q, h. split_and!; [done..|]. by left.
  - exists hd, q, h. split_and!; [done..|]. by right.
Qed.

(** C14: A log that verifies clean next to its checkpoint consists of signed
    events. Whatever was done to the files without the key, and at whatever
    time, each signed line has the MACed fields of an event that was signed
    under the key; each such event names the MAC of the one before it in the
    log; the signed lines with a number count up from 1; and the last of those
    is the one that the checkpoint, whose own MAC is right, names by number
    and MAC. Where moreover no two signed texts have the same MAC and the
    events were numbered and linked in one chain, as the writes on a log that
    nobody changes between them do (a cut between two writes is outside this
    clause: the next write goes on from what it finds, and the log is clean
    again without the lines that were cut), the signed lines are an initial
    part of all the events, at least up to the checkpoint: none of them was
    changed, reordered, left out or put in, and none cut off before it.
    (Unsigned lines in front, which count as legacy, and fields that no MAC
    covers are outside both clauses.) *)
Theorem clean_log_genuine k evs content d r text hd :
  let rs := signed_records (text_lines content) in
  unforgeable k evs rs →
  file_contents d HEAD_FILE = Some text → from_slice text = Some hd →
  verify_log_content content (Some k) d = Ok r → is_clean r = true →
  sequenced 1 rs ∧ last_sequenced None rs = Some (hd_last_seq hd, hd_last_hmac hd) ∧
  compute_hmac_for_head (hd_version hd) (hd_last_seq hd) (hd_last_hmac hd) k = hd_hmac hd ∧
  (∃ path, Forall (fun e => e ∈ evs) path ∧ follows k None path ∧
     map (fun r => line_map r.1) rs = map event_map path) ∧
  (chained k 1 GENESIS evs → collision_free k evs →
   ∃ m, (N.to_nat (hd_last_seq hd) <= m <= length evs)%nat ∧
        map (fun r => line_map r.1) rs = map event_map (take m evs)).
Proof.
  intros rs Hu Hhead Hhd Hv Hclean.
  destruct (clean_report content k d r text Hv Hclean Hhead) as (He & hd' & q & h & Hhd' & Hfin & Hcase).
  rewrite Hhd in Hhd'. injection Hhd' as <-.
  destruct (walk_lines_clean k (text_lines content) 1 start_walk He) as (Hr & Hl & Hs & Hf).
  rewrite Hf in Hfin. destruct Hcase as [(-> & -> & Hmac)| ->].
  - split_and!; [done..| |]; [by eapply records_path|].
    intros Hc Hcoll. by apply (clean_records k evs rs _ _ Hc Hu Hcoll Hr Hl Hs Hfin).
  - destruct (last_sequenced_in _ _ _ _ Hfin) as [?|(v & Hin & _)]; [done|].
    rewrite Forall_forall in Hr. specialize (Hr _ Hin). unfold mac_right in Hr. simpl in Hr.
    apply (f_equal String.length) in Hr. unfold compute_hmac_for_line in Hr.
    by rewrite audit_mac_length in Hr.
Qed.

(** ** An honest log *)

(** A signed event, as [write_event] finishes it *)
Definition signed_event (k : string) (e : AuditEvent) : Prop :=
  event_ok e ∧ ev_hmac e = Some (event_mac k e).

Lemma event_get_marker e : event_get e "hmac_chain_started_at" = None.
Proof. destruct e as [? ? ? [?|] ? [?|] ? [?|] [?|]]; reflexivity. Qed.

Lemma event_get_hmac e : as_str (event_get e "hmac") = ev_hmac e.
Proof. destruct e as [? ? ? [?|] ? [?|] ? [?|] [?|]]; reflexivity. Qed.

Lemma event_get_prev e : as_str (event_get e "prev_hmac") = ev_prev_hmac e.
Proof. destruct e as [? ? ? [?|] ? [?|] ? [?|] [?|]]; reflexivity. Qed.

Lemma event_get_seq e : (ev_seq e <= u64_max)%N → as_u64 (event_get e "seq") = Some (ev_seq e).
Proof.
  intros Hs%N.leb_le. destruct e as [seq ? ? [?|] ? [?|] ? [?|] [?|]];
    unfold event_get, get, as_u64; simpl in *; by rewrite Hs.
Qed.

Definition event_text_line (e : AuditEvent) : string := json_to_vec (to_value e).

Lemma event_line_not_empty e : str_is_empty (trim (event_text_line e)) = false.
Proof.
  unfold event_text_line, to_value, Serialize_event. rewrite json_text_trimmed.
  apply json_text_not_empty.
Qed.

(** One event more, and nothing else *)
Lemma walk_event k n e s :
  signed_event k e → wk_chain_started s = true → ev_prev_hmac e = Some (wk_prev_hmac s) →
  ev_seq e = wk_expected_seq s →
  walk_line (Some k) n (event_text_line e) s =
  mk_walk (add_verified n false (wk_report s)) (event_mac k e) true (wk_marker_seen s) (wk_pre_chain s)
    (N.min (ev_seq e + 1) u64_max) (Some (ev_seq e, event_mac k e)).
Proof.
  intros [Hok Hh] Hst Hp Hseq.
  destruct (event_line e Hok) as (v & Hv & Hget & Hmap); [by eexists|].
  fold (event_text_line e) in Hv. unfold walk_line. rewrite event_line_not_empty, Hv. unfold walk_value.
  rewrite !Hget, event_get_marker, event_get_hmac, Hh. unfold walk_signed.
  rewrite !Hget, event_get_prev, Hp, Hst. unfold compute_hmac_for_line. rewrite Hmap.
  change (audit_mac k (string_map_text (event_map e))) with (event_mac k e).
  change (default GENESIS (Some (wk_prev_hmac s))) with (wk_prev_hmac s).
  rewrite !String.eqb_refl. cbn [andb]. rewrite event_get_seq by apply Hok.
  by rewrite Hseq, N.eqb_refl.
Qed.

Lemma signed_of_event k e :
  signed_event k e → is_Some (ev_prev_hmac e) →
  ∃ v, signed_of (event_text_line e) = Some (v, event_mac k e) ∧ line_map v = event_map e.
Proof.
  intros [Hok Hh] Hp. destruct (event_line e Hok Hp) as (v & Hv & Hget & Hmap). exists v.
  fold (event_text_line e) in Hv. unfold signed_of. rewrite event_line_not_empty, Hv. simpl.
  by rewrite Hget, event_get_marker, Hget, event_get_hmac, Hh.
Qed.

Lemma walk_events k evs : ∀ n i prev s,
  chained k i prev evs → Forall (signed_event k) evs → (i + N.of_nat (length evs) <= u64_max)%N →
  wk_chain_started s = true → wk_prev_hmac s = prev → wk_expected_seq s = i →
  let s' := walk_lines (Some k) n (map event_text_line evs) s in
  errors (wk_report s') = errors (wk_report s) ∧
  vr_head_missing (wk_report s') = vr_head_missing (wk_report s) ∧
  vr_head_mismatch (wk_report s') = vr_head_mismatch (wk_report s) ∧
  vr_verified (wk_report s') = (vr_verified (wk_report s) + length evs)%nat ∧
  vr_legacy (wk_report s') = vr_legacy (wk_report s) ∧ wk_marker_seen s' = wk_marker_seen s ∧
  wk_final s' = match last evs with Some e => Some (ev_seq e, event_mac k e) | None => wk_final s end.
Proof.
  induction evs as [|e evs IH]; intros n i prev s Hc Hall Hb Hst Hp Hi; simpl.
  { split_and!; [done|done|done|lia|done|done|done]. }
  simpl in Hc, Hb. destruct Hc as (Hseq & Hprev & Hc). apply Forall_cons in Hall as [He Hall].
  rewrite (walk_event k n e s) by (done || congruence).
  match goal with |- context [walk_lines _ _ _ ?w] => set (s1 := w) end.
  destruct (IH (S n) (i + 1)%N (event_mac k e) s1) as (I1 & I2 & I3 & I4 & I5 & I6 & I7);
    [done|done|lia|done|done|subst s1; simpl; lia|].
  rewrite I1, I2, I3, I4, I5, I6, I7. subst s1. split_and!; try done; [simpl; lia|].
  rewrite last_cons. by destruct (last evs).
Qed.

(** The log of the events: the marker, and a line for each *)
Definition log_lines (k : string) (now : N) (evs : list AuditEvent) : list string :=
  json_to_vec (marker_value k now) :: map event_text_line evs.

Definition log_text (k : string) (now : N) (evs : list AuditEvent) : string :=
  join_lines "010"%char (log_lines k now evs).

Lemma log_text_lines k now evs : text_lines (log_text k now evs) = log_lines k now evs.
Proof.
  apply text_lines_join, Forall_cons. split.
  - split; [apply json_text_line|apply json_text_cr].
  - apply Forall_forall. intros l (e & -> & _)%list_elem_of_fmap. unfold event_text_line.
    split; [apply json_text_line|apply json_text_cr].
Qed.

Lemma walk_marker key n k now s :
  (now <= u64_max)%N →
  walk_line key n (json_to_vec (marker_value k now)) s =
  mk_walk (wk_report s) (wk_prev_hmac s) true true (wk_pre_chain s) (wk_expected_seq s) (wk_final s).
Proof.
  intros Hn. destruct (marker_line k now Hn) as (v & Hv & [x Hx] & _). unfold walk_line.
  replace (str_is_empty (trim (json_to_vec (marker_value k now)))) with false.
  - rewrite Hv. unfold walk_value. by rewrite Hx.
  - unfold marker_value. by rewrite json_text_trimmed, json_text_not_empty.
Qed.

Lemma signed_of_marker k now : (now <= u64_max)%N → signed_of (json_to_vec (marker_value k now)) = None.
Proof.
  intros Hn. destruct (marker_line k now Hn) as (v & Hv & [x Hx] & _). unfold signed_of.
  destruct (str_is_empty _); [done|]. by rewrite Hv; simpl; rewrite Hx.
Qed.

(** The signed records of such a log are the events. *)
Lemma signed_records_log k now evs :
  (now <= u64_max)%N → Forall (fun e => signed_event k e ∧ is_Some (ev_prev_hmac e)) evs →
  Forall (mac_right k) (signed_records (log_lines k now evs)) ∧
  map (fun r => line_map r.1) (signed_records (log_lines k now evs)) = map event_map evs.
Proof.
  intros Hn Hs. unfold signed_records, log_lines. simpl. rewrite signed_of_marker by done. simpl.
  induction Hs as [|e evs [He Hp] _ [IH1 IH2]]; [done|]. simpl.
  destruct (signed_of_event k e He Hp) as (v & -> & Hm). simpl. split; [|by f_equal].
  constructor; [|done]. unfold mac_right, compute_hmac_for_line. simpl. by rewrite Hm.
Qed.

(** The checkpoint of an event *)
Definition checkpoint (k : string) (e : AuditEvent) : AuditHead :=
  mk_head 1 (ev_seq e) (event_mac k e) (compute_hmac_for_head 1 (ev_seq e) (event_mac k e) k).

(** What is stored after the events: their lines, each signed and naming a
    MAC *)
Record log_kept (d : dir_t) (k : string) (now : N) (evs : list AuditEvent) : Prop := mk_log_kept {
  lk_key_length : String.length k = 32%nat;
  lk_now : (now <= u64_max)%N;
  lk_key : file_contents d HMAC_KEY_FILE = Some (hex_encode k);
  lk_log : file_contents d LOG_FILE = Some (log_text k now evs);
  lk_signed : Forall (fun e => signed_event k e ∧ is_Some (ev_prev_hmac e)) evs;
}.

(** One chain, and the checkpoint at its end *)
Record log_chain (d : dir_t) (k : string) (evs : list AuditEvent) : Prop := mk_log_chain {
  lc_head : file_contents d HEAD_FILE =
    match last evs with Some e => Some (json_line (to_value (checkpoint k e))) | None => None end;
  lc_chained : chained k 1 GENESIS evs;
}.

(** ** Writing *)

Lemma append_line_Ok line d d' :
  append_line line d = (d', Ok tt) →
  (∀ m, m ≠ LOG_FILE → file_contents d' m = file_contents d m) ∧
  ∃ c, default EmptyString (file_contents d LOG_FILE) = c ∧
    file_contents d' LOG_FILE =
      Some (c +:+ if match last_byte c with Some b => negb (ascii_eqb b "010"%char) | None => false end
                  then String "010"%char line else line).
Proof.
  unfold append_line. intros Ha. apply io_bind_Ok in Ha as (d1 & pr & [= <- _] & Ha).
  apply io_bind_Ok in Ha as (d2 & [] & Ho & Ha). apply io_bind_Ok in Ha as (d3 & lb & [= <- Hlb] & Ha).
  apply io_bind_Ok in Ha as (d4 & [] & Happ & Ha).
  assert (d' = d4) as -> by (destruct pr; by injection Ha).
  apply read_last_byte_contents in Hlb as (c & Hc & ->). split.
  - intros m Hm. rewrite (append_file_other _ _ _ _ _ _ Happ Hm).
    eapply open_file_same; [done|by left].
  - exists c. apply append_file_ok in Happ as (c' & Hc' & ->). rewrite Hc in Hc'. injection Hc' as <-.
    split; [|done]. destruct (file_contents d LOG_FILE) as [c0|] eqn:E; simpl.
    + rewrite (open_file_keeps _ _ _ _ _ _ Ho E) in Hc. by injection Hc.
    + destruct (open_file_new _ _ _ _ Ho E) as [Hn|Hn]; rewrite Hc in Hn; [done|by injection Hn].
Qed.

Lemma lock_Ok d d' : acquire_log_lock d = (d', Ok tt) →
  ∀ m, m ≠ AUDIT_LOCK_FILE → file_contents d' m = file_contents d m.
Proof.
  unfold acquire_log_lock. intros (d1 & [] & Ho & [= <- _])%io_bind_Ok m Hm. eapply open_file_same; [done|by left].
Qed.

(** A file of lines ends in a newline. *)
Lemma join_lines_last c l ls : last_byte (join_lines c (l :: ls)) = Some c.
Proof.
  revert l. induction ls as [|l' ls IH]; intros l; [apply last_byte_app|].
  change (join_lines c (l :: l' :: ls)) with (l +:+ String c (join_lines c (l' :: ls))).
  specialize (IH l'). revert IH. generalize (join_lines c (l' :: ls)). clear. intros s.
  unfold last_byte. rewrite str_length_app. simpl. destruct s as [|a s]; [done|]. intros <-.
  replace (String.length l + S (String.length (String a s)) - 1)%nat
    with (String.length l + S (String.length (String a s) - 1))%nat by (simpl; lia).
  rewrite byte_at_app_r. done.
Qed.

Lemma append_whole_line line d d' ls :
  file_contents d LOG_FILE = Some (join_lines "010"%char ls) →
  append_line (line +:+ String "010"%char EmptyString) d = (d', Ok tt) →
  (∀ m, m ≠ LOG_FILE → file_contents d' m = file_contents d m) ∧
  file_contents d' LOG_FILE = Some (join_lines "010"%char (ls ++ [line])).
Proof.
  intros Hl (Ho & c & Hc & Hlog)%append_line_Ok. rewrite Hl in Hc. simpl in Hc. subst c. split; [done|].
  rewrite Hlog, join_lines_app. destruct ls as [|l ls]; [done|]. by rewrite join_lines_last.
Qed.

(** A read of the log does not fail. *)
Definition log_read (d : dir_t) : Prop := ∃ o, read_regular d LOG_FILE = Ok o.

Lemma log_read_contents d text :
  log_read d → file_contents d LOG_FILE = Some text → read_regular d LOG_FILE = Ok (Some text).
Proof.
  intros [[b|] Hr] Ht.
  - pose proof (read_regular_contents _ _ _ Hr) as Hb. congruence.
  - apply read_regular_absent in Hr. congruence.
Qed.

Lemma utf8_valid_app a b : utf8_valid a = true → utf8_valid (a +:+ b) = utf8_valid b.
Proof.
  remember (String.length a) as n eqn:Hn. revert a Hn.
  induction (lt_wf n) as [n _ IH]. intros a -> Ha.
  destruct a as [|c1 a]; [done|]. cbn [utf8_valid String.append] in *.
  destruct (byte_in _ _ c1); [by apply (IH (String.length a)); [simpl; lia| |]|].
  destruct a as [|c2 a]; [done|]. cbn [String.append]. destruct (byte_in _ _ c1).
  { apply andb_true_iff in Ha as [-> Ha]. apply (IH (String.length a)); simpl; [lia|done|done]. }
  destruct a as [|c3 a]; [done|]. cbn [String.append]. destruct (byte_in _ _ c1).
  { apply andb_true_iff in Ha as [-> Ha]. apply (IH (String.length a)); simpl; [lia|done|done]. }
  destruct a as [|c4 a]; [done|]. cbn [String.append].
  apply andb_true_iff in Ha as [-> Ha]. apply (IH (String.length a)); simpl; [lia|done|done].
Qed.

Lemma log_text_utf8 k now evs : utf8_valid (log_text k now evs) = true.
Proof.
  unfold log_text, log_lines. rewrite <- (app_nil_r (map event_text_line evs)).
  assert (∀ ls, Forall (fun l => utf8_valid l = true) ls → utf8_valid (join_lines "010"%char ls) = true) as Hj.
  { induction 1 as [|l ls Hl _ IH]; [done|]. simpl. rewrite utf8_valid_app by done. apply IH. }
  apply Hj. constructor; [apply json_text_utf8|]. rewrite app_nil_r.
  apply Forall_forall. intros l (e & -> & _)%list_elem_of_fmap. apply json_text_utf8.
Qed.

(** What one line adds to a search from the end *)
Definition line_find {T} (f : value → option T) (raw : string) : option T :=
  if str_is_empty (trim raw) then None
  else match parse_json (trim raw) with Some v => f v | None => None end.

Lemma last_line_snoc {T} (f : value → option T) text ls l :
  text_lines text = ls ++ [l] → is_Some (line_find f l) → last_line f text = line_find f l.
Proof.
  intros Ht [x Hx]. unfold last_line. rewrite Ht, foldr_app. simpl. fold (line_find f l). rewrite Hx.
  clear Ht. induction ls as [|r ls IH]; [done|]. simpl. by rewrite IH.
Qed.

Lemma last_line_one {T} (f : value → option T) text l :
  text_lines text = [l] → last_line f text = line_find f l.
Proof. intros Ht. unfold last_line. by rewrite Ht. Qed.

Lemma line_find_event {T} (f : value → option T) e v :
  parse_json (trim (event_text_line e)) = Some v → line_find f (event_text_line e) = f v.
Proof. intros Hv. unfold line_find. by rewrite event_line_not_empty, Hv. Qed.

(** The end of the chain is found again. *)
Lemma chain_end d k now evs :
  log_read d → log_kept d k now evs → chained k 1 GENESIS evs →
  default GENESIS (read_last_hmac d) = (match last evs with Some e => event_mac k e | None => GENESIS end) ∧
  read_last_seq d = N.of_nat (length evs).
Proof.
  intros Hread [Hkl Hnow Hkey Hlog Hs] Hc.
  unfold read_last_hmac, read_last_seq, read_state_text. rewrite (log_read_contents _ _ Hread Hlog). simpl.
  rewrite log_text_utf8. simpl. pose proof (log_text_lines k now evs) as Ht.
  destruct evs as [|e evs _] using rev_ind; simpl.
  - destruct (marker_line k now Hnow) as (v & Hv & _ & Hh).
    rewrite !(last_line_one _ _ _ Ht). unfold line_find. destruct (str_is_empty _); [done|].
    by rewrite Hv, Hh.
  - rewrite last_snoc. apply Forall_app in Hs as [_ [[[Hok Hh] _] _]%Forall_cons].
    destruct (chained_lookup k 1 GENESIS (evs ++ [e]) (length evs) e Hc) as [Hseq Hprev].
    { by rewrite lookup_app_r, Nat.sub_diag by lia. }
    destruct (event_line e Hok) as (v & Hv & Hget & _); [by eexists|]. fold (event_text_line e) in Hv.
    unfold log_lines in Ht. rewrite map_app in Ht. cbn [map] in Ht.
    change (?m :: ?l ++ [?x]) with ((m :: l) ++ [x]) in Ht.
    rewrite !(last_line_snoc _ _ _ _ Ht); rewrite (line_find_event _ _ _ Hv), !Hget.
    + rewrite event_get_hmac, Hh. simpl. split; [done|].
      rewrite (line_find_event _ _ _ Hv), !Hget.
      destruct (event_get e "hmac") eqn:E; [|pose proof (event_get_hmac e) as E'; rewrite E, Hh in E'; done].
      rewrite event_get_seq by apply Hok. simpl. rewrite Hseq, length_app. simpl. lia.
    + destruct (event_get e "hmac") eqn:E; [|pose proof (event_get_hmac e) as E'; rewrite E, Hh in E'; done].
      rewrite event_get_seq by apply Hok. by eexists.
    + rewrite event_get_hmac, Hh. by eexists.
Qed.

Lemma read_key_Ok d k k' :
  String.length k = 32%nat → file_contents d HMAC_KEY_FILE = Some (hex_encode k) →
  read_hmac_key d = Ok k' → k' = k.
Proof.
  intros Hl Hk ([raw|] & Hraw & Hr)%rbind_Ok; [|done]. apply read_regular_contents in Hraw.
  assert (raw = hex_encode k) as -> by congruence. simpl in Hr. rewrite read_key_published in Hr by done.
  by injection Hr.
Qed.

Lemma load_key_present d d' fresh now k k' :
  String.length k = 32%nat → file_contents d HMAC_KEY_FILE = Some (hex_encode k) →
  load_or_create_hmac_key fresh now d = (d', Ok k') → d' = d ∧ k' = k.
Proof.
  intros Hl Hk (d1 & pr & [= <- Hp] & Hr)%io_bind_Ok. destruct pr.
  - injection Hr as <- Hr. split; [done|]. by apply (read_key_Ok d).
  - apply path_absent in Hp. congruence.
Qed.

(** The first key comes with the marker. *)
Lemma load_key_absent d d' fresh now k :
  file_contents d HMAC_KEY_FILE = None → file_contents d LOG_FILE = None →
  load_or_create_hmac_key fresh now d = (d', Ok k) →
  k = fresh ∧ file_contents d' HMAC_KEY_FILE = Some (hex_encode fresh) ∧
  file_contents d' LOG_FILE = Some (log_text fresh now []) ∧
  file_contents d' HEAD_FILE = file_contents d HEAD_FILE.
Proof.
  intros Hk Hlog (d1 & pr & [= <- Hp] & Hr)%io_bind_Ok. destruct pr.
  { injection Hr as <- Hr. unfold read_hmac_key in Hr.
    apply rbind_Ok in Hr as ([raw|] & Hraw & Hr); [|done].
    apply read_regular_contents in Hraw. congruence. }
  unfold write_hmac_key in Hr.
  destruct (publish_new d HMAC_KEY_FILE (hex_encode fresh)) as [d1 [[]|e]] eqn:Hpub.
  - destruct (publish_ok _ _ _ _ Hpub) as [_ Hk1].
    apply io_bind_Ok in Hr as (d2 & [] & Hm & [= <- <-]). unfold write_chain_marker, json_line in Hm.
    apply append_line_Ok in Hm as (Ho & c & Hc & Hl).
    rewrite (publish_other _ _ _ _ _ _ Hpub), Hlog in Hc by done. simpl in Hc. subst c.
    split_and!; [done|by rewrite Ho by done|by rewrite Hl|].
    rewrite Ho by done. by eapply publish_other.
  - assert (Err e = Ok k ∨ e = AlreadyExists) as [?|He] by (destruct e; naive_solver); [done|]. subst e.
    apply publish_exists in Hpub. unfold io_query in Hr. injection Hr as <- Hr.
    unfold read_hmac_key in Hr. apply rbind_Ok in Hr as ([raw|] & Hraw & Hr); [|done].
    apply read_regular_contents in Hraw. congruence.
Qed.

(** A required write that succeeded, by its steps *)
Lemma required_write_Ok env op name d d' :
  write_event env op name true d = (d', Ok tt) →
  ∃ d1 d2 d3 k, acquire_log_lock d = (d1, Ok tt) ∧
    load_or_create_hmac_key (ae_fresh env) (ae_marker_now env) d1 = (d2, Ok k) ∧
    let seq := N.min (read_last_seq d2 + 1) u64_max in
    let e := unsigned_event env op name (Some k) seq (default GENESIS (read_last_hmac d2)) in
    append_line (json_line (to_value (with_hmac (Some (compute_hmac_for_event e k)) e))) d2 = (d3, Ok tt) ∧
    write_head seq (compute_hmac_for_event e k) k d3 = (d', Ok tt).
Proof.
  unfold write_event. intros Hw. apply io_bind_Ok in Hw as (d0 & [] & [= <- _] & Hw).
  apply io_bind_Ok in Hw as (d0 & [] & [= <- _] & Hw). apply io_bind_Ok in Hw as (d1 & [] & Hlock & Hw).
  apply io_bind_Ok in Hw as (d2 & key & Hkey & Hw). apply io_bind_Ok in Hkey as (d2' & k & Hkey & [= -> <-]).
  apply io_bind_Ok in Hw as (d3 & [] & Happ & Hhead). by exists d1, d2, d3, k.
Qed.

(** What an event takes from its process fits its types. *)
Definition env_ok (env : audit_env) : Prop :=
  String.length (ae_fresh env) = 32%nat ∧ (ae_marker_now env <= u64_max)%N ∧
  (ae_now env <= u64_max)%N ∧ (ae_pid env <= u64_max)%N.

(** The event that the log gets for a call *)
Definition event_of (env : audit_env) (op : string) (name : option string) (e : AuditEvent) : Prop :=
  ev_op e = op ∧ ev_name e = name ∧ ev_ts e = ae_now env ∧ ev_pid e = ae_pid env ∧
  ev_process e = ae_process env.

Lemma chained_snoc k e evs : ∀ i prev,
  chained k i prev evs → ev_seq e = (i + N.of_nat (length evs))%N →
  ev_prev_hmac e = Some (match last evs with Some e' => event_mac k e' | None => prev end) →
  chained k i prev (evs ++ [e]).
Proof.
  induction evs as [|x evs IH]; intros i prev; simpl.
  - intros _ -> ->. split_and!; [lia|done|done].
  - intros (H1 & H2 & H3) H4 H5. split_and!; [done..|]. apply IH; [done|lia|].
    rewrite H5. destruct evs; [done|]. rewrite !last_cons. by destruct (last evs).
Qed.

(** From the key on, a required write adds its event to the log; where it can
    read the log, to the chain as well. *)
Lemma finish_write d d3 d' k now evs env op name :
  env_ok env → log_kept d k now evs →
  let seq := N.min (read_last_seq d + 1) u64_max in
  let e := unsigned_event env op name (Some k) seq (default GENESIS (read_last_hmac d)) in
  append_line (json_line (to_value (with_hmac (Some (compute_hmac_for_event e k)) e))) d = (d3, Ok tt) →
  write_head seq (compute_hmac_for_event e k) k d3 = (d', Ok tt) →
  ∃ e, event_of env op name e ∧ log_kept d' k now (evs ++ [e]) ∧
    (log_read d → (N.of_nat (length evs) < u64_max)%N → log_chain d k evs → log_chain d' k (evs ++ [e])).
Proof.
  intros (_ & _ & Hn & Hpid) Hok seq e0 Happ Hhead.
  set (e := with_hmac (Some (compute_hmac_for_event e0 k)) e0) in *. exists e. split; [done|].
  assert (event_mac k e = compute_hmac_for_event e0 k) as Hmac by done.
  pose proof Hok as [Hkl Hnow Hkf Hlog Hs].
  apply append_whole_line with (ls := log_lines k now evs) in Happ as [Ho Hl]; [|done].
  unfold write_head in Hhead. split.
  - split; [done|done| | |].
    + rewrite (replace_file_other _ _ _ _ _ _ Hhead), Ho by done. done.
    + rewrite (replace_file_other _ _ _ _ _ _ Hhead) by done. rewrite Hl. unfold log_text, log_lines.
      by rewrite map_app.
    + apply Forall_app. split; [done|]. apply Forall_singleton. split; [|by eexists].
      split; [|by rewrite Hmac]. unfold event_ok, e, e0, seq. simpl. split_and!; [lia|done|done].
  - intros Hread Hlen [_ Hc]. destruct (chain_end _ _ _ _ Hread Hok Hc) as [Hprev Hseq].
    split; [by rewrite (replace_file_ok _ _ _ _ Hhead), last_snoc|].
    apply chained_snoc; [done|unfold e, e0, seq; simpl; rewrite Hseq; lia|].
    unfold e, e0. simpl. rewrite Hprev. by destruct (last evs).
Qed.

Lemma log_kept_same d d' k now evs :
  (∀ m, m ≠ AUDIT_LOCK_FILE → file_contents d' m = file_contents d m) →
  log_kept d k now evs → log_kept d' k now evs.
Proof. intros Hsame [? ? ? ? ?]. by split; rewrite ?Hsame by done. Qed.

Lemma log_chain_same d d' k evs :
  (∀ m, m ≠ AUDIT_LOCK_FILE → file_contents d' m = file_contents d m) →
  log_chain d k evs → log_chain d' k evs.
Proof. intros Hsame [? ?]. by split; rewrite ?Hsame by done. Qed.

(** The write's own look at the log, once it holds the key, does not fail. *)
Definition read_in_write (env : audit_env) (d : dir_t) : Prop :=
  ∀ d1 d2 k, acquire_log_lock d = (d1, Ok tt) →
    load_or_create_hmac_key (ae_fresh env) (ae_marker_now env) d1 = (d2, Ok k) → log_read d2.

Lemma audit_write_step d k now evs env op name d' :
  env_ok env → log_kept d k now evs → write_event env op name true d = (d', Ok tt) →
  ∃ e, event_of env op name e ∧ log_kept d' k now (evs ++ [e]) ∧
    (read_in_write env d → (N.of_nat (length evs) < u64_max)%N →
     log_chain d k evs → log_chain d' k (evs ++ [e])).
Proof.
  intros Henv Hok (d1 & d2 & d3 & k' & Hlock & Hkey & Happ & Hhead)%required_write_Ok.
  pose proof (lock_Ok _ _ Hlock) as Hsame. apply (log_kept_same _ _ _ _ _ Hsame) in Hok.
  pose proof Hkey as Hkey'.
  destruct (load_key_present _ _ _ _ _ _ (lk_key_length _ _ _ _ Hok) (lk_key _ _ _ _ Hok) Hkey) as [-> ->].
  destruct (finish_write d1 d3 d' k now evs env op name Henv Hok Happ Hhead) as (e & He & Hk & Hc).
  exists e. split_and!; [done..|]. intros Hread Hlen Hch.
  apply Hc; [by eapply Hread|done|by eapply log_chain_same].
Qed.

(** The first required write starts the log. *)
Lemma write_first env op name d d' :
  env_ok env → file_contents d LOG_FILE = None →
  file_contents d HMAC_KEY_FILE = None → file_contents d HEAD_FILE = None →
  write_event env op name true d = (d', Ok tt) →
  ∃ e, event_of env op name e ∧ log_kept d' (ae_fresh env) (ae_marker_now env) [e] ∧
    (read_in_write env d → log_chain d' (ae_fresh env) [e]).
Proof.
  intros Henv Hlog Hk Hh (d1 & d2 & d3 & k & Hlock & Hkey & Happ & Hhead)%required_write_Ok.
  pose proof (lock_Ok _ _ Hlock) as Hsame. pose proof Hkey as Hkey'.
  apply load_key_absent in Hkey as (-> & Hk2 & Hl2 & Hh2); [|by rewrite Hsame..].
  rewrite Hsame, Hh in Hh2 by done. pose proof Henv as (Hf & Hm & _).
  assert (log_kept d2 (ae_fresh env) (ae_marker_now env) []) as Hok by by split.
  destruct (finish_write d2 d3 d' (ae_fresh env) (ae_marker_now env) [] env op name Henv Hok Happ Hhead)
    as (e & He & Hkept & Hc).
  exists e. split_and!; [done..|]. intros Hread. apply Hc; [by eapply Hread|done|by split].
Qed.

(** A good log verifies clean. *)
Lemma log_ok_verifies d k now evs r :
  (N.of_nat (length evs) < u64_max)%N → log_kept d k now evs → log_chain d k evs → evs ≠ [] →
  verify_log_content (log_text k now evs) (Some k) d = Ok r →
  is_clean r = true ∧ vr_verified r = length evs ∧ vr_legacy r = 0%nat.
Proof.
  intros Hlen [Hkl Hnow Hkf Hlog Hsp] [Hhd Hc] Hne Hv. unfold verify_log_content in Hv.
  assert (Forall (signed_event k) evs) as Hs by (eapply Forall_impl; [exact Hsp|by intros ? []]).
  rewrite log_text_lines in Hv. unfold log_lines in Hv. cbn [walk_lines] in Hv.
  rewrite walk_marker in Hv by done.
  match type of Hv with context [walk_lines _ _ _ ?w] => set (s1 := w) in Hv end.
  destruct (walk_events k evs 2 1 GENESIS s1 Hc Hs) as (I1 & I2 & I3 & I4 & I5 & I6 & I7); try done; [lia|].
  set (s2 := walk_lines (Some k) 2 (map event_text_line evs) s1) in *.
  assert (∃ e, last evs = Some e) as [e Hlast].
  { destruct (last evs) as [e|] eqn:E; [by exists e|]. by apply last_None in E. }
  rewrite Hlast in I7, Hhd. assert (signed_event k e) as [He _].
  { rewrite last_lookup in Hlast. by eapply Forall_lookup_1. }
  rewrite I7, I6 in Hv. simpl in Hv.
  apply rbind_Ok in Hv as (he & _ & Hv). apply rbind_Ok in Hv as (r1 & Hr1 & [= <-]).
  apply rbind_Ok in Hr1 as (o & Ho & [= <-]). unfold read_head in Ho.
  apply rbind_Ok in Ho as ([bytes|] & Hb & Ho); [|apply read_regular_absent in Hb; congruence].
  apply read_regular_contents in Hb. rewrite Hhd in Hb. injection Hb as <-.
  rewrite head_round_trip in Ho; [|done|apply He]. simpl in Ho.
  rewrite String.eqb_refl in Ho. injection Ho as <-. simpl. rewrite N.eqb_refl, String.eqb_refl. simpl.
  unfold is_clean. rewrite I2, I3, I4, I5. subst s1. simpl in *. unfold errors in I1. simpl in I1.
  assert (vr_tampered (wk_report s2) = 0 ∧ vr_malformed (wk_report s2) = 0 ∧
          vr_sequence_errors (wk_report s2) = 0)%nat as (-> & -> & ->) by lia. done.
Qed.

(** ** Required writes *)

(** Calls of [write_event] with the result required, all successful *)
Fixpoint writes (d : dir_t) (calls : list (audit_env * string * option string)) (d' : dir_t) : Prop :=
  match calls with
  | [] => d' = d
  | (env, op, name) :: rest =>
      ∃ d1, write_event env op name true d = (d1, Ok tt) ∧ writes d1 rest d'
  end.

Definition call_event (c : audit_env * string * option string) (e : AuditEvent) : Prop :=
  event_of c.1.1 c.1.2 c.2 e.

(** None of the calls fails to read the log. *)
Fixpoint writes_read (d : dir_t) (calls : list (audit_env * string * option string)) : Prop :=
  match calls with
  | [] => True
  | (env, op, name) :: rest =>
      read_in_write env d ∧
      ∀ d1, write_event env op name true d = (d1, Ok tt) → writes_read d1 rest
  end.

Lemma writes_ok k now calls : ∀ d evs d',
  Forall (fun c => env_ok c.1.1) calls → log_kept d k now evs → writes d calls d' →
  ∃ evs', Forall2 call_event calls evs' ∧ log_kept d' k now (evs ++ evs') ∧
    (writes_read d calls → (N.of_nat (length evs + length calls) < u64_max)%N →
     log_chain d k evs → log_chain d' k (evs ++ evs')).
Proof.
  induction calls as [|[[env op] name] calls IH]; intros d evs d' Henv Hok; simpl.
  { intros ->. exists []. by rewrite app_nil_r. }
  apply Forall_cons in Henv as [He Henv]. intros (d1 & Hw & Hrest).
  destruct (audit_write_step _ _ _ _ _ _ _ _ He Hok Hw) as (e & Hev & Hok1 & Hch).
  destruct (IH d1 (evs ++ [e]) d' Henv Hok1 Hrest) as (evs' & Hall & Hok' & Hch').
  exists (e :: evs'). rewrite <- app_assoc in Hok', Hch'. split_and!; [by constructor|done|].
  intros [Hr Hrs] Hlen Hc. apply Hch'; [by apply Hrs| |].
  - rewrite length_app. simpl. lia.
  - apply Hch; [done|lia|done].
Qed.

(** Required writes on a fresh directory leave their events; where they could
    read the log, as one chain. *)
Lemma fresh_writes d0 calls d :
  file_contents d0 LOG_FILE = None → file_contents d0 HMAC_KEY_FILE = None →
  file_contents d0 HEAD_FILE = None → calls ≠ [] → Forall (fun c => env_ok c.1.1) calls →
  writes d0 calls d →
  ∃ k now evs, Forall2 call_event calls evs ∧ log_kept d k now evs ∧
    (writes_read d0 calls → (N.of_nat (length calls) < u64_max)%N → log_chain d k evs).
Proof.
  intros Hl Hk Hh Hne Henv Hw. destruct calls as [|[[env op] name] calls]; [done|].
  apply Forall_cons in Henv as [He Henv]. simpl in Hw, He. destruct Hw as (d1 & Hw & Hrest).
  destruct (write_first _ _ _ _ _ He Hl Hk Hh Hw) as (e & Hev & Hok & Hc1).
  destruct (writes_ok _ _ calls d1 [e] d Henv Hok Hrest) as (evs & Hall & Hok' & Hc').
  exists (ae_fresh env), (ae_marker_now env), (e :: evs). split_and!; [by constructor|done|].
  intros [Hr Hrs] Hlen. simpl in Hlen. apply Hc'; [by apply Hrs|simpl; lia|by apply Hc1].
Qed.

Lemma verify_log_Ok d k now evs d' r :
  log_kept d k now evs → log_chain d k evs → verify_log d = (d', Ok r) →
  ∃ d1, log_kept d1 k now evs ∧ log_chain d1 k evs ∧
    verify_log_content (log_text k now evs) (Some k) d1 = Ok r.
Proof.
  intros Hok Hc. unfold verify_log. intros Hv. apply io_bind_Ok in Hv as (d1 & [] & [= <- _] & Hv).
  apply io_bind_Ok in Hv as (d1 & present & [= <- Hp] & Hv).
  assert (present = true) as ->.
  { unfold log_present in Hp. apply rbind_Ok in Hp as (dir & Hdir & Hp). destruct present; [done|].
    pose proof (lk_log _ _ _ _ Hok) as Hl. destruct dir.
    - apply path_absent in Hp. congruence.
    - apply (audit_dir_absent _ LOG_FILE) in Hdir. congruence. }
  apply io_bind_Ok in Hv as (d1 & [] & Hlock & Hv).
  assert (∀ m, m ≠ AUDIT_LOCK_FILE → file_contents d1 m = file_contents d m) as Hsame.
  { unfold acquire_log_lock_shared in Hlock. apply io_bind_Ok in Hlock as (d2 & [] & Ho & [= <- _]).
    intros m Hm. eapply open_file_same; [done|by left]. }
  apply (log_kept_same _ _ _ _ _ Hsame) in Hok. apply (log_chain_same _ _ _ _ Hsame) in Hc.
  exists d1. split_and!; [done..|].
  apply io_bind_Ok in Hv as (d2 & key & [= <- Hkey] & Hv).
  apply io_bind_Ok in Hv as (d2 & text & [= <- Htext] & Hv). injection Hv as _ Hv.
  unfold load_or_skip_hmac_key in Hkey. apply rbind_Ok in Hkey as (pr & Hpr & Hkey).
  pose proof (lk_key _ _ _ _ Hok) as Hkf. destruct pr; [|apply path_absent in Hpr; congruence].
  destruct (read_hmac_key d1) as [k'|] eqn:Ek; [|done]. injection Hkey as <-.
  apply (read_key_Ok d1 k) in Ek; [subst k'|apply Hok|done].
  unfold read_state_text in Htext. apply rbind_Ok in Htext as (bytes & Hb & Htext).
  assert (log_read d1) as Hr by by exists bytes.
  rewrite (log_read_contents _ _ Hr (lk_log _ _ _ _ Hok)) in Hb. injection Hb as <-. simpl in Htext.
  rewrite log_text_utf8 in Htext. by injection Htext as <-.
Qed.

(** C17: What required writes report is there. When every call of a sequence of
    required writes on a fresh directory succeeded, whatever reads failed
    meanwhile, the log holds exactly one signed line for each of them, in their
    order, each with its event's fields under a right MAC. And when moreover
    no call failed to read the log before it signed its event, every
    verification that returns a report finds the log clean, with as many
    verified lines as there were calls and no legacy line. (A write that
    cannot read the log signs its event as a first one and reports success:
    [failed_read_restarts_chain].) *)
Theorem required_log_faithful d0 calls d :
  file_contents d0 LOG_FILE = None → file_contents d0 HMAC_KEY_FILE = None →
  file_contents d0 HEAD_FILE = None → calls ≠ [] → Forall (fun c => env_ok c.1.1) calls →
  writes d0 calls d →
  (∃ k evs text, file_contents d HMAC_KEY_FILE = Some (hex_encode k) ∧
     file_contents d LOG_FILE = Some text ∧ Forall2 call_event calls evs ∧
     Forall (mac_right k) (signed_records (text_lines text)) ∧
     map (fun r => line_map r.1) (signed_records (text_lines text)) = map event_map evs) ∧
  (writes_read d0 calls → (N.of_nat (length calls) < u64_max)%N →
   ∀ d' r, verify_log d = (d', Ok r) →
     is_clean r = true ∧ vr_verified r = length calls ∧ vr_legacy r = 0%nat).
Proof.
  intros Hl Hk Hh Hne Henv Hw.
  destruct (fresh_writes d0 calls d Hl Hk Hh Hne Henv Hw) as (k & now & evs & Hall & Hok & Hc).
  pose proof (Forall2_length _ _ _ Hall) as Hn. split.
  - exists k, evs, (log_text k now evs). rewrite log_text_lines.
    destruct (signed_records_log k now evs (lk_now _ _ _ _ Hok) (lk_signed _ _ _ _ Hok)).
    split_and!; [apply Hok|apply Hok|done..].
  - intros Hr Hlen d' r Hv. specialize (Hc Hr Hlen).
    destruct (verify_log_Ok _ _ _ _ _ _ Hok Hc Hv) as (d2 & Hok2 & Hc2 & Hv2). rewrite Hn.
    apply (log_ok_verifies d2 k now evs r); [by rewrite <- Hn|done..| |done].
    intros ->. by destruct calls.
Qed.
End spec.

(** ** Witnesses *)

#[local] Existing Instance line_external.
#[local] Existing Instance line_external_laws.
#[local] Existing Instance line_json_laws.

#[local] Instance audit_memory_host : AuditHost := {|
  audit_home := Ok tt;
  audit_private_dir _ := Ok tt;
  audit_dir_present _ := Ok true;
  read_regular d n := Ok (md_files d n);
  path_present d n := Ok (match md_files d n with Some _ => true | None => false end);
  read_last_byte d n := match md_files d n with Some c => Ok (last_byte c) | None => Err NotFound end;
  publish_new d n b :=
    match md_files d n with
    | Some _ => (d, Err AlreadyExists)
    | None => (set_file d n b, Ok tt)
    end;
|}.

#[local] Instance audit_memory_laws : AuditHostLaws audit_memory_host.
Proof.
  constructor; simpl.
  - by intros d n b [= ->].
  - by intros d n [= ->].
  - intros d n. by destruct (md_files d n).
  - done.
  - intros d n o. destruct (md_files d n) as [c|]; [|done]. intros [= <-]. by exists c.
  - intros d n b d' r m. destruct (md_files d n); intros [= <- <-] Hm; [done|]. by apply set_file_other.
  - intros d n b d'. destruct (md_files d n); intros [= <-]. split; [done|]. apply set_file_same.
  - intros d n b d'. destruct (md_files d n) eqn:E; [|done]. by intros [= <-].
  - intros d n b d' e. destruct (md_files d n) eqn:E; [|done]. intros [= <- <-]. by left.
Qed.

Lemma audit_memory_reads calls : ∀ d, writes_read d calls.
Proof.
  induction calls as [|[[env op] name] calls IH]; intros d; simpl; [done|]. split; [|by intros d1 _; apply IH].
  intros d1 d2 k _ _. by eexists.
Qed.

Definition audit_demo_key : string := fit 32 "audit key".
Definition empty_dir : @dir_t memory_state_dir := mk_dir (fun _ => None) [].

Definition demo_env (now : N) : audit_env :=
  mk_env audit_demo_key 1000 now 42 "phantom" None (fun _ => None).

Definition demo_calls : list (audit_env * string * option string) :=
  [(demo_env 1001, "vault.store", Some "OPENAI_API_KEY"); (demo_env 1002, "cloud.push", None)].

(** The directory behind a required write *)
Definition after_write (c : audit_env * string * option string) (d : @dir_t memory_state_dir)
    : @dir_t memory_state_dir := (write_event c.1.1 c.1.2 c.2 true d).1.

Definition demo_audit_dir : @dir_t memory_state_dir :=
  fold_left (fun d c => after_write c d) demo_calls empty_dir.

Definition demo_log : string := default EmptyString (md_files demo_audit_dir LOG_FILE).
Definition demo_report : VerifyReport := mk_report 2 0 0 0 0 false false [] [] [].

Lemma write_after env op name d :
  (write_event env op name true d).2 = Ok tt →
  write_event env op name true d = (after_write (env, op, name) d, Ok tt).
Proof. intros <-. unfold after_write. simpl. by destruct (write_event env op name true d). Qed.

Lemma demo_writes : writes empty_dir demo_calls demo_audit_dir.
Proof.
  exists (after_write (demo_env 1001, "vault.store", Some "OPENAI_API_KEY") empty_dir).
  split; [apply write_after; by vm_compute|]. exists demo_audit_dir.
  split; [apply (write_after (demo_env 1002) "cloud.push" None); by vm_compute|done].
Qed.

Lemma demo_verifies : ∃ d', verify_log demo_audit_dir = (d', Ok demo_report).
Proof.
  exists (verify_log demo_audit_dir).1.
  assert ((verify_log demo_audit_dir).2 = Ok demo_report) as <- by by vm_compute.
  by destruct (verify_log demo_audit_dir).
Qed.

Lemma required_log_faithful_witness :
  (∃ k evs text, file_contents demo_audit_dir HMAC_KEY_FILE = Some (hex_encode k) ∧
     file_contents demo_audit_dir LOG_FILE = Some text ∧ Forall2 call_event demo_calls evs ∧
     Forall (mac_right k) (signed_records (text_lines text)) ∧
     map (fun r => line_map r.1) (signed_records (text_lines text)) = map event_map evs) ∧
  is_clean demo_report = true ∧ vr_verified demo_report = length demo_calls ∧ vr_legacy demo_report = 0%nat.
Proof.
  destruct (required_log_faithful empty_dir demo_calls demo_audit_dir) as [Hlog Hclean].
  - reflexivity.
  - reflexivity.
  - reflexivity.
  - done.
  - by repeat constructor.
  - exact demo_writes.
  - split; [exact Hlog|]. destruct demo_verifies as [d' Hv].
    apply (Hclean (audit_memory_reads demo_calls empty_dir) eq_refl d' demo_report Hv).
Defined.

(** The two events, as a history *)
Definition demo_event (seq : N) (now : N) (op : string) (name : option string) (prev : string) : AuditEvent :=
  let e := unsigned_event (demo_env now) op name (Some audit_demo_key) seq prev in
  with_hmac (Some (compute_hmac_for_event e audit_demo_key)) e.

Definition demo_events : list AuditEvent :=
  let e1 := demo_event 1 1001 "vault.store" (Some "OPENAI_API_KEY") GENESIS in
  [e1; demo_event 2 1002 "cloud.push" None (event_mac audit_demo_key e1)].

Lemma macs_distinct k l :
  NoDup (map (audit_mac k) l) → ∀ s t, s ∈ l → t ∈ l → audit_mac k s = audit_mac k t → s = t.
Proof.
  intros Hd s t [i Hi]%list_elem_of_lookup [j Hj]%list_elem_of_lookup He.
  assert (i = j) as ->; [|congruence]. rewrite NoDup_alt in Hd. apply (Hd i j (audit_mac k s)).
  - change (map ?f l !! i) with ((f <$> l) !! i). by rewrite list_lookup_fmap, Hi.
  - change (map ?f l !! j) with ((f <$> l) !! j). rewrite list_lookup_fmap, Hj. exact (f_equal Some (eq_sym He)).
Qed.

Lemma demo_chained : chained audit_demo_key 1 GENESIS demo_events.
Proof. by vm_compute. Qed.

Lemma demo_collision_free : collision_free audit_demo_key demo_events.
Proof.
  unfold collision_free. apply (macs_distinct _ (signed_texts audit_demo_key demo_events)).
  apply (bool_decide_unpack _). by vm_compute.
Qed.

Lemma demo_unforgeable : unforgeable audit_demo_key demo_events (signed_records (text_lines demo_log)).
Proof.
  intros r Hr _. revert r Hr. apply Forall_forall. apply (bool_decide_unpack _). by vm_compute.
Qed.

Definition demo_head : AuditHead :=
  checkpoint audit_demo_key (demo_event 2 1002 "cloud.push" None
    (event_mac audit_demo_key (demo_event 1 1001 "vault.store" (Some "OPENAI_API_KEY") GENESIS))).

Lemma clean_log_genuine_witness :
  let rs := signed_records (text_lines demo_log) in
  sequenced 1 rs ∧ last_sequenced None rs = Some (hd_last_seq demo_head, hd_last_hmac demo_head) ∧
  compute_hmac_for_head (hd_version demo_head) (hd_last_seq demo_head) (hd_last_hmac demo_head)
    audit_demo_key = hd_hmac demo_head ∧
  (∃ path, Forall (fun e => e ∈ demo_events) path ∧ follows audit_demo_key None path ∧
     map (fun r => line_map r.1) rs = map event_map path) ∧
  ∃ m, (N.to_nat (hd_last_seq demo_head) <= m <= length demo_events)%nat ∧
    map (fun r => line_map r.1) rs = map event_map (take m demo_events).
Proof.
  destruct (clean_log_genuine audit_demo_key demo_events demo_log demo_audit_dir demo_report
           (json_line (to_value demo_head)) demo_head) as (H1 & H2 & H3 & H4 & H5).
  - exact demo_unforgeable.
  - by vm_compute.
  - by vm_compute.
  - by vm_compute.
  - reflexivity.
  - split_and!; [exact H1|exact H2|exact H3|exact H4|]. exact (H5 demo_chained demo_collision_free).
Defined.

(** ** Findings *)

(** The first event's line as it was signed, and with its number quoted:
    the MAC reads numbers and strings alike, the sequence check does not. *)
Definition quoted_line (k : string) (e : AuditEvent) : value :=
  VObject [("seq", to_value (N_to_string (ev_seq e))); ("ts", to_value (ev_ts e)); ("op", to_value (ev_op e));
           ("name", to_value (default EmptyString (ev_name e))); ("pid", to_value (ev_pid e));
           ("prev_hmac", to_value (default EmptyString (ev_prev_hmac e))); ("process", to_value (ev_process e));
           ("hmac", to_value (event_mac k e))].

(** Of a log of two events, the marker and the first event's line with its
    number quoted *)
Definition quoted_log : string :=
  (json_line (marker_value audit_demo_key 1000) +:+
   json_line (quoted_line audit_demo_key
     (demo_event 1 1001 "vault.store" (Some "OPENAI_API_KEY") GENESIS)))%string.

(** Cut a log's tail, delete its checkpoint, and quote the numbers of the
    lines that stay: the checkpoint's absence is not reported, as a signed
    line without a number asks for none.  With the number unquoted it is. *)
Lemma quoted_seq_escapes :
  verify_log_content quoted_log (Some audit_demo_key) empty_dir =
    Ok (mk_report 1 0 0 0 0 false false [] [] []) ∧
  verify_log_content
    (json_line (marker_value audit_demo_key 1000) +:+
     json_line (to_value (demo_event 1 1001 "vault.store" (Some "OPENAI_API_KEY") GENESIS)))
    (Some audit_demo_key) empty_dir =
    Ok (mk_report 1 0 0 0 0 true false [] [] []).
Proof. split; by vm_compute. Qed.

(** The demo's log without its last line, beside its checkpoint *)
Definition cut_log : string := log_text audit_demo_key 1000 (take 1 demo_events).

(** The cut alone is noticed: the last line is not the checkpoint's.  A write
    that follows it never looks at the checkpoint but replaces it, and from
    then on the log verifies clean without the event that was cut. *)
Lemma cut_before_write_unnoticed :
  let d := set_file demo_audit_dir LOG_FILE cut_log in
  (verify_log d).2 = Ok (mk_report 1 0 0 0 0 false true [] [] []) ∧
  (write_event (demo_env 1003) "vault.delete" (Some "OPENAI_API_KEY") true d).2 = Ok tt ∧
  (verify_log (after_write (demo_env 1003, "vault.delete", Some "OPENAI_API_KEY") d)).2 =
    Ok (mk_report 2 0 0 0 0 false false [] [] []).
Proof. split_and!; by vm_compute. Qed.

(** A directory whose log cannot be read while another file is there *)
Definition busy_host : AuditHost := {|
  audit_home := Ok tt;
  audit_private_dir _ := Ok tt;
  audit_dir_present _ := Ok true;
  read_regular d n :=
    if String.eqb n LOG_FILE && bool_decide (is_Some (md_files d "busy")) then Err OtherKind
    else Ok (md_files d n);
  path_present := path_present;
  read_last_byte := read_last_byte;
  publish_new := publish_new;
|}.

Lemma busy_host_laws : AuditHostLaws busy_host.
Proof.
  destruct audit_memory_laws. constructor; simpl; try done.
  - intros d n b. by destruct (_ && _); intros [= ->].
  - intros d n. by destruct (_ && _); intros [= ->].
Qed.

(** A required write that cannot read the log for a moment succeeds all the
    same: its event is numbered 1 and names [GENESIS], in the middle of the
    chain, and no later verification finds the log clean. *)
Lemma failed_read_restarts_chain :
  let d := set_file (after_write (demo_env 1001, "vault.store", Some "OPENAI_API_KEY") empty_dir)
             "busy" EmptyString in
  let w := write_event (H := busy_host) (demo_env 1002) "cloud.push" None true d in
  w.2 = Ok tt ∧ (verify_log w.1).2 = Ok (mk_report 1 1 0 0 0 false true [3%nat] [] []) ∧
  md_files w.1 LOG_FILE = Some (log_text audit_demo_key 1000
    [demo_event 1 1001 "vault.store" (Some "OPENAI_API_KEY") GENESIS;
     demo_event 1 1002 "cloud.push" None GENESIS]).
Proof. cbv zeta. split_and!; by vm_compute. Qed.

(** A process that stops after it published the key and before it appended
    the marker leaves a log no later write repairs: the required writes that
    follow succeed, and the log they write never verifies clean. *)
Lemma marker_lost :
  let d := (write_hmac_key audit_demo_key empty_dir).1 in
  let d1 := after_write (demo_env 1001, "vault.store", Some "OPENAI_API_KEY") d in
  (write_event (demo_env 1001) "vault.store" (Some "OPENAI_API_KEY") true d).2 = Ok tt ∧
  (verify_log d1).2 = Ok (mk_report 1 0 0 0 0 false true [] [] []).
Proof. split; by vm_compute. Qed.

(** One byte that is no UTF-8, at the end of the log, hides all of it from
    the next required write: that one starts over at [GENESIS] and 1. *)
Lemma stray_bytes_reset_chain :
  let d := set_file demo_audit_dir LOG_FILE (demo_log +:+ String "255"%char EmptyString) in
  read_last_hmac d = None ∧ read_last_seq d = 0%N ∧
  (write_event (demo_env 1003) "vault.delete" (Some "OPENAI_API_KEY") true d).2 = Ok tt ∧
  ∃ text, md_files (after_write (demo_env 1003, "vault.delete", Some "OPENAI_API_KEY") d) LOG_FILE =
      Some (demo_log +:+ String "255"%char text) ∧
    text = (String "010"%char (json_line (to_value
              (demo_event 1 1003 "vault.delete" (Some "OPENAI_API_KEY") GENESIS)))).
Proof. split_and!; [by vm_compute..|]. eexists. split; [|reflexivity]. by vm_compute. Qed.
