(* ===== verification/Rotation.v ===== *)
(** * Rotation schedules: [crates/phantom-core/src/rotation_strategy.rs]

    When a secret falls due (daily, weekly, monthly or interval slots over the
    civil calendar), when its use is refused, and when it expires; and the
    part of [config.rs] that says which schedule a secret has.  Times are
    seconds since the epoch in a [u64]; the release build has no overflow
    checks, so sums and products of [u64]s wrap where the code does not
    saturate.  The theorems are in [RotationSpec]. *)

From S2P Require Import Prelude Text.

Definition DAY_SECS : N := 86400.

(** ** Strategies *)

Inductive RotationStrategy :=
  | Never
  | Daily
  | Weekly
  | Monthly
  (** [Interval(NonZeroU64)] *)
  | Interval (days : positive).

#[export] Instance RotationStrategy_eq_dec : EqDecision RotationStrategy.
Proof. solve_decision. Defined.

(** [RotationStrategy::from_str] *)
Definition strategy_from_str (s : string) : option RotationStrategy :=
  let s := to_ascii_lowercase s in
  if String.eqb s "never" then Some Never
  else if String.eqb s "daily" then Some Daily
  else if String.eqb s "weekly" then Some Weekly
  else if String.eqb s "monthly" then Some Monthly
  else None.

(** [RotationStrategy::as_str] *)
Definition strategy_as_str (s : RotationStrategy) : string :=
  match s with
  | Never => "never" | Daily => "daily" | Weekly => "weekly" | Monthly => "monthly"
  | Interval _ => "interval"
  end.

(** [RotationStrategy::to_label] *)
Definition to_label (s : RotationStrategy) : string :=
  match s with
  | Interval days =>
      if (Npos days =? 1)%N then "every 1 day"
      else ("every " +:+ N_to_string (Npos days) +:+ " days")%string
  | other => strategy_as_str other
  end.

(** [RotationStrategy::interval_days] *)
Definition interval_days (s : RotationStrategy) : option N :=
  match s with Interval days => Some (Npos days) | _ => None end.

Inductive Weekday := Monday | Tuesday | Wednesday | Thursday | Friday | Saturday | Sunday.

#[export] Instance Weekday_eq_dec : EqDecision Weekday.
Proof. solve_decision. Defined.

(** [Weekday::iso_index] *)
Definition iso_index (d : Weekday) : N :=
  match d with
  | Monday => 0 | Tuesday => 1 | Wednesday => 2 | Thursday => 3 | Friday => 4 | Saturday => 5
  | Sunday => 6
  end.

(** [Weekday::from_str] *)
Definition weekday_from_str (s : string) : option Weekday :=
  let s := to_ascii_lowercase s in
  if existsb (String.eqb s) ["monday"; "mon"] then Some Monday
  else if existsb (String.eqb s) ["tuesday"; "tue"] then Some Tuesday
  else if existsb (String.eqb s) ["wednesday"; "wed"] then Some Wednesday
  else if existsb (String.eqb s) ["thursday"; "thu"] then Some Thursday
  else if existsb (String.eqb s) ["friday"; "fri"] then Some Friday
  else if existsb (String.eqb s) ["saturday"; "sat"] then Some Saturday
  else if existsb (String.eqb s) ["sunday"; "sun"] then Some Sunday
  else None.

(** The derived [Debug] *)
Definition weekday_debug (d : Weekday) : string :=
  match d with
  | Monday => "Monday" | Tuesday => "Tuesday" | Wednesday => "Wednesday" | Thursday => "Thursday"
  | Friday => "Friday" | Saturday => "Saturday" | Sunday => "Sunday"
  end.

Record RotationSchedule := mk_schedule {
  rs_strategy : RotationStrategy;
  (** [u8]s, as the configuration has them: nothing checks their range *)
  rs_hour : N;
  rs_minute : N;
  rs_weekday : Weekday;
  rs_day_of_month : N;
  rs_last_rotated : option N;
}.

Definition default_hour : N := 2.
Definition default_weekday : Weekday := Monday.
Definition default_day_of_month : N := 1.

(** [RotationSchedule::from_strategy] *)
Definition from_strategy (s : RotationStrategy) : RotationSchedule :=
  match s with
  | Never => mk_schedule Never 0 0 Monday 1 None
  | Daily => mk_schedule Daily 2 0 Monday 1 None
  | Weekly => mk_schedule Weekly 3 0 Monday 1 None
  | Monthly => mk_schedule Monthly 0 0 Monday 1 None
  | Interval days => mk_schedule (Interval days) 0 0 Monday 1 None
  end.

(** ** The calendar (UTC, proleptic Gregorian) *)

(** [days_from_civil]; the [i64]s do not wrap for any year a [u64] of seconds
    reaches. *)
Definition days_from_civil (year : Z) (month day : Z) : Z :=
  let year := (if month <=? 2 then year - 1 else year)%Z in
  let era := (year / 400)%Z in
  let year_of_era := (year - era * 400)%Z in
  let day_of_year := ((153 * (month + (if 2 <? month then -3 else 9)) + 2) / 5 + day - 1)%Z in
  let day_of_era := (year_of_era * 365 + year_of_era / 4 - year_of_era / 100 + day_of_year)%Z in
  (era * 146097 + day_of_era - 719468)%Z.

(** [year_month_of] *)
Definition year_month_of (secs : N) : Z * Z :=
  let days := (Z.of_N (secs / 86400) + 719468)%Z in
  let era := (days / 146097)%Z in
  let day_of_era := (days - era * 146097)%Z in
  let year_of_era :=
    ((day_of_era - day_of_era / 1460 + day_of_era / 36524 - day_of_era / 146096) / 365)%Z in
  let day_of_year := (day_of_era - (365 * year_of_era + year_of_era / 4 - year_of_era / 100))%Z in
  let shifted_month := ((5 * day_of_year + 2) / 153)%Z in
  let month := (if shifted_month <? 10 then shifted_month + 3 else shifted_month - 9)%Z in
  let year := (year_of_era + era * 400 + (if month <=? 2 then 1 else 0))%Z in
  (year, month).

Definition next_month (year month : Z) : Z * Z :=
  if (month =? 12)%Z then (year + 1, 1)%Z else (year, month + 1)%Z.

Definition previous_month (year month : Z) : Z * Z :=
  if (month =? 1)%Z then (year - 1, 12)%Z else (year, month - 1)%Z.

Definition days_in_month (year month : Z) : Z :=
  let '(next_year, next) := next_month year month in
  (days_from_civil next_year next 1 - days_from_civil year month 1)%Z.

(** [ordinal_suffix] *)
Definition ordinal_suffix (day : N) : string :=
  if ((11 <=? day mod 100) && (day mod 100 <=? 13))%N then "th"
  else if (day mod 10 =? 1)%N then "st"
  else if (day mod 10 =? 2)%N then "nd"
  else if (day mod 10 =? 3)%N then "rd"
  else "th".

(** ** Slots *)

(** [u64::saturating_sub] and a saturating
    [i64] *)
Definition saturating_sub_u64 (a b : N) : N := (a - b)%N.
Definition saturate_i64 (z : Z) : Z := Z.max (- 2 ^ 63) (Z.min z (2 ^ 63 - 1)).

Definition slot_secs (s : RotationSchedule) : N := (rs_hour s * 3600 + rs_minute s * 60)%N.

(** [fn interval_due_at] *)
Definition interval_due_at (s : RotationSchedule) (days : positive) : N :=
  saturating_add_u64 (default 0%N (rs_last_rotated s)) (saturating_mul_u64 (Npos days) DAY_SECS).

(** [fn monthly_slot] *)
Definition monthly_slot (s : RotationSchedule) (year month : Z) : N :=
  let day := Z.max 1 (Z.min (Z.of_N (rs_day_of_month s)) (days_in_month year month)) in
  let secs := saturate_i64 (saturate_i64 (days_from_civil year month day * 86400)
                            + Z.of_N (slot_secs s)) in
  if (secs <? 0)%Z then 0%N else Z.to_N secs.

(** [RotationSchedule::last_boundary_before] *)
Definition last_boundary_before (s : RotationSchedule) (now : N) : option N :=
  match rs_strategy s with
  | Never => None
  | Interval days =>
      let due := interval_due_at s days in
      if (due <=? now)%N then Some due else Some (default 0%N (rs_last_rotated s))
  | Daily =>
      let today_midnight := (now / 86400 * 86400)%N in
      let today_slot := wrapping_add_u64 today_midnight (slot_secs s) in
      if (today_slot <=? now)%N then Some today_slot else Some (saturating_sub_u64 today_slot 86400)
  | Weekly =>
      let days_since_epoch := (now / 86400)%N in
      let current_weekday := ((days_since_epoch + 3) mod 7)%N in
      let target_weekday := iso_index (rs_weekday s) in
      let days_ago := ((current_weekday + 7 - target_weekday) mod 7)%N in
      let target_midnight := wrapping_mul_u64 (wrapping_sub_u64 days_since_epoch days_ago) 86400 in
      let target_slot := wrapping_add_u64 target_midnight (slot_secs s) in
      if (target_slot <=? now)%N then Some target_slot
      else Some (saturating_sub_u64 target_slot (7 * 86400))
  | Monthly =>
      let '(year, month) := year_month_of now in
      let this_month := monthly_slot s year month in
      if (this_month <=? now)%N then Some this_month
      else let '(year, month) := previous_month year month in Some (monthly_slot s year month)
  end.

(** [RotationSchedule::should_rotate_now] *)
Definition should_rotate_now (s : RotationSchedule) (now : N) : bool :=
  if bool_decide (rs_strategy s = Never) then false
  else
    let last := default 0%N (rs_last_rotated s) in
    match last_boundary_before s now with Some b => (last <? b)%N | None => false end.

(** [next_rotation_after] *)
Definition next_rotation_after (s : RotationSchedule) (now : N) : option N :=
  match rs_strategy s with
  | Never => None
  | Interval days => Some (N.max (interval_due_at s days) now)
  | Daily =>
      let today_midnight := (now / 86400 * 86400)%N in
      let today_slot := wrapping_add_u64 today_midnight (slot_secs s) in
      if (now <? today_slot)%N then Some today_slot else Some (wrapping_add_u64 today_slot 86400)
  | Weekly =>
      let days_since_epoch := (now / 86400)%N in
      let current_weekday := ((days_since_epoch + 3) mod 7)%N in
      let target_weekday := iso_index (rs_weekday s) in
      let days_until := ((target_weekday + 7 - current_weekday) mod 7)%N in
      let candidate_day := (days_since_epoch + days_until)%N in
      let candidate_slot := wrapping_add_u64 (wrapping_mul_u64 candidate_day 86400) (slot_secs s) in
      if (now <? candidate_slot)%N then Some candidate_slot
      else Some (wrapping_add_u64 candidate_slot (7 * 86400))
  | Monthly =>
      let '(year, month) := year_month_of now in
      let this_month := monthly_slot s year month in
      if (now <? this_month)%N then Some this_month
      else
        let '(year, month) := next_month year month in
        let slot := monthly_slot s year month in
        if (now <? slot)%N then Some slot else None
  end.

(** [u64 as i64] *)
Definition as_i64 (n : N) : Z := if (n <? 2 ^ 63)%N then Z.of_N n else (Z.of_N n - 2 ^ 64)%Z.

(** [seconds_overdue]; the difference of [i64]s wraps. *)
Definition seconds_overdue (s : RotationSchedule) (now : N) : option Z :=
  boundary ← last_boundary_before s now;
  last ← rs_last_rotated s;
  if (last <? boundary)%N
  then Some ((as_i64 now - as_i64 boundary + 2 ^ 63) mod 2 ^ 64 - 2 ^ 63)%Z
  else None.

(** [overdue_description] *)
Definition overdue_description (s : RotationSchedule) (now : N) : option string :=
  secs ← seconds_overdue s now;
  if (secs <=? 0)%Z then None
  else
    let days := (secs / 86400)%Z in
    if (days =? 0)%Z then Some "less than 1 day past schedule"
    else if (days =? 1)%Z then Some "1 day past schedule"
    else Some (N_to_string (Z.to_N days) +:+ " days past schedule")%string.

(** [{:02}] *)
Definition two_digits (n : N) : string :=
  if (n <? 10)%N then ("0" +:+ N_to_string n)%string else N_to_string n.

(** [RotationSchedule::describe] *)
Definition describe (s : RotationSchedule) : string :=
  let at_time := (two_digits (rs_hour s) +:+ ":" +:+ two_digits (rs_minute s) +:+ " UTC")%string in
  match rs_strategy s with
  | Never => "never"
  | Daily => ("daily@" +:+ at_time)%string
  | Weekly => ("weekly@" +:+ weekday_debug (rs_weekday s) +:+ ":" +:+ at_time)%string
  | Monthly =>
      ("monthly@" +:+ N_to_string (rs_day_of_month s) +:+ ordinal_suffix (rs_day_of_month s)
       +:+ ":" +:+ at_time)%string
  | Interval _ => to_label (rs_strategy s)
  end.

(** ** The gate *)

(** [strategy_period_secs] *)
Definition strategy_period_secs (s : RotationStrategy) : option N :=
  match s with
  | Never => None
  | Daily => Some 86400%N
  | Weekly => Some (7 * 86400)%N
  | Monthly => Some (30 * 86400)%N
  | Interval days => Some (saturating_mul_u64 (Npos days) DAY_SECS)
  end.

Inductive RotationEnforcementStatus :=
  | Disabled
  | NoSchedule
  | NoAnchor
  | AnchorInFuture
  | GateOk
  | Overdue (last_rotated_secs_ago : N) (schedule_label : string).

#[export] Instance RotationEnforcementStatus_eq_dec : EqDecision RotationEnforcementStatus.
Proof. solve_decision. Defined.

(** [RotationEnforcementStatus::is_blocked] *)
Definition is_blocked (s : RotationEnforcementStatus) : bool :=
  match s with Disabled | GateOk => false | _ => true end.

(** [RotationEnforcementStatus::error_message] *)
Definition error_message (s : RotationEnforcementStatus) (name : string) : option string :=
  let fix_ := ("Rotate the credential at its provider, then replace it from a trusted terminal with `phantom remove "
    +:+ name +:+ "` followed by `phantom add " +:+ name
    +:+ "`, or set `enforce_rotation_on_access = false` under [phantom.secrets." +:+ name
    +:+ "] in .phantom.toml.")%string in
  let reason :=
    match s with
    | Disabled | GateOk => None
    | NoSchedule => Some
        ("Secret '" +:+ name +:+ "' has enforce_rotation_on_access = true but no rotation schedule to enforce; set `rotate_every` (such as "
         +:+ String "034"%char EmptyString +:+ "90d" +:+ String "034"%char EmptyString
         +:+ ") under [phantom.secrets." +:+ name +:+ "] or a [phantom.rotation_policy].")%string
    | NoAnchor => Some
        ("Secret '" +:+ name +:+ "' has rotation enforcement on, but its vault entry records no time it was stored or rotated, so its age is unknown.")%string
    | AnchorInFuture => Some
        ("Secret '" +:+ name +:+ "' has rotation enforcement on, but its vault entry records a store or rotation time in the future, so its age is unknown.")%string
    | Overdue ago label =>
        let days := (ago / 86400)%N in
        Some ("Secret '" +:+ name +:+ "' was stored or last rotated " +:+ N_to_string days +:+ " "
              +:+ (if (days =? 1)%N then "day" else "days") +:+ " ago (schedule: " +:+ label
              +:+ ") and is overdue for rotation.")%string
    end in
  reason ← reason;
  match s with
  | NoSchedule =>
      Some (reason +:+ " Or set `enforce_rotation_on_access = false` under [phantom.secrets." +:+ name
            +:+ "] in .phantom.toml.")%string
  | _ => Some (reason +:+ " " +:+ fix_)%string
  end.

(** [check_rotation_enforcement] *)
Definition check_rotation_enforcement (enforce : bool) (schedule : option RotationSchedule)
    (anchor : option N) (now : N) : RotationEnforcementStatus :=
  if negb enforce then Disabled
  else match schedule with
  | None => NoSchedule
  | Some sched =>
      match strategy_period_secs (rs_strategy sched) with
      | None => NoSchedule
      | Some period =>
          match anchor with
          | None => NoAnchor
          | Some anchor =>
              if (now <? anchor)%N then AnchorInFuture
              else
                let age := (now - anchor)%N in
                if (period <=? age)%N then Overdue age (to_label (rs_strategy sched)) else GateOk
          end
      end
  end.

(** ** Expiry *)

Inductive ExpiryStatus :=
  | NoExpiry
  | Valid (days_remaining : N)
  | GracePeriod (days_remaining : N)
  | Expired (secs_overdue : N).

(** [ExpiryStatus::is_expired] and [is_valid] *)
Definition status_is_expired (s : ExpiryStatus) : bool :=
  match s with Expired _ => true | _ => false end.
Definition status_is_valid (s : ExpiryStatus) : bool :=
  match s with Valid _ => true | _ => false end.

(** [ExpiryStatus::label] *)
Definition expiry_label (s : ExpiryStatus) : string :=
  match s with
  | NoExpiry => "no expiry set"
  | Valid days => (N_to_string days +:+ " day(s) remaining")%string
  | GracePeriod days => ("WARNING: expires in " +:+ N_to_string days +:+ " day(s)")%string
  | Expired secs =>
      let days := (secs / 86400)%N in
      if (days =? 0)%N then "EXPIRED (today)"
      else ("EXPIRED (" +:+ N_to_string days +:+ " day(s) overdue)")%string
  end.

(** [check_expiry] *)
Definition check_expiry (expires_at grace_days now : N) : ExpiryStatus :=
  if (expires_at <=? now)%N then Expired (now - expires_at)
  else
    let days_remaining := ((expires_at - now) / 86400)%N in
    if (days_remaining <=? grace_days)%N then GracePeriod days_remaining else Valid days_remaining.

(** [compute_new_expires_at] *)
Definition compute_new_expires_at (rotation_window_days now : N) : N :=
  wrapping_add_u64 now (wrapping_mul_u64 rotation_window_days 86400).

Inductive GracePeriodSeverity :=
  | SevOk
  | SevWarning (days_remaining : N)
  | SevExpired (secs_overdue : N)
  | SevNoExpiry.

(** [GracePeriodSeverity::is_doctor_warning] *)
Definition is_doctor_warning (s : GracePeriodSeverity) : bool :=
  match s with SevWarning _ | SevExpired _ => true | _ => false end.

(** [check_grace_period] *)
Definition check_grace_period (expires_at : option N) (grace_period_secs now : N) : GracePeriodSeverity :=
  match expires_at with
  | None => SevNoExpiry
  | Some exp =>
      if (exp <=? now)%N then SevExpired (now - exp)
      else
        let secs_remaining := (exp - now)%N in
        if (secs_remaining <=? grace_period_secs)%N then SevWarning (secs_remaining / 86400) else SevOk
  end.

(** ** The schedule of a secret: [crates/phantom-core/src/config.rs] *)

(** [PhantomError::ConfigParseError], the message without its section *)
Inductive ScheduleError := InvalidRotateEvery.

(** The digits of a [u64], [None] when they do not fit *)
Definition parse_u64_digits (s : string) : option N :=
  if str_is_empty s || negb (all_bytes is_ascii_digit s) then None
  else let n := dec_value 0 s in if (n <=? u64_max)%N then Some n else None.

(** [parse_rotate_every] *)
Definition parse_rotate_every (s : string) : result RotationSchedule ScheduleError :=
  let s := to_ascii_lowercase (trim s) in
  let unit :=
    match strip_suffix "d" s with
    | Some number => Some (number, 1%N)
    | None => match strip_suffix "w" s with Some number => Some (number, 7%N) | None => None end
    end in
  match unit with
  | None => Err InvalidRotateEvery
  | Some (number, days_per_unit) =>
      fail_if (str_is_empty number || negb (all_bytes is_ascii_digit number)) InvalidRotateEvery
      (let days :=
         n ← parse_u64_digits number;
         days ← (if (n * days_per_unit <=? u64_max)%N then Some (n * days_per_unit)%N else None);
         days ← (if (days * 86400 <=? u64_max)%N then Some days else None);
         match days with N0 => None | Npos p => Some p end in
       let? days := ok_or days InvalidRotateEvery in
       let strategy :=
         if (Npos days =? 1)%N then Daily else if (Npos days =? 7)%N then Weekly else Interval days in
       Ok (from_strategy strategy))
  end.

(** [SecretOverride], the fields a schedule is made of, and
    [PhantomConfig], the parts the gate reads *)
Record SecretOverride := mk_override {
  so_rotate_every : option string;
  so_rotation_schedule : option RotationSchedule;
  so_enforce_rotation_on_access : bool;
}.

Record PhantomConfig := mk_config {
  pc_secrets : gmap string SecretOverride;
  pc_rotation_policy : option RotationSchedule;
}.

(** [SecretOverride::resolve_schedule] *)
Definition resolve_schedule (o : SecretOverride) : result (option RotationSchedule) ScheduleError :=
  match so_rotation_schedule o with
  | Some sched => Ok (Some sched)
  | None =>
      match so_rotate_every o with
      | Some s => map_ok Some (parse_rotate_every s)
      | None => Ok None
      end
  end.

(** [PhantomConfig::get_rotation_schedule] *)
Definition get_rotation_schedule (c : PhantomConfig) (secret_name : string)
    : result (option RotationSchedule) ScheduleError :=
  let? resolved := match pc_secrets c !! secret_name with
                   | Some o => resolve_schedule o
                   | None => Ok None
                   end in
  match resolved with
  | Some sched => Ok (Some sched)
  | None => Ok (pc_rotation_policy c)
  end.
