(* ===== verification/RotationSpec.v ===== *)
(** * What the rotation schedules mean

    The slot of a schedule is a set of instants; the code's boundary is the
    last slot at or before an instant and its next rotation the first slot
    after it, so a secret is due exactly when a slot has passed since its last
    rotation ([should_rotate_exact], [next_rotation_least]). *)

From S2P Require Import Prelude Text Rotation.

(** ** The calendar *)

Definition month_ok (m : Z) : Prop := (1 <= m <= 12)%Z.

(** Months counted on from one to the next *)
Definition month_index (y m : Z) : Z := (12 * y + (m - 1))%Z.
Definition month_start (y m : Z) : Z := days_from_civil y m 1.

(** The first of March of a year *)
Definition march (y : Z) : Z := (y * 365 + y / 4 - y / 100 + y / 400 - 719468)%Z.

Lemma civil_day y m d : days_from_civil y m d = (month_start y m + d - 1)%Z.
Proof. unfold month_start, days_from_civil. lia. Qed.

Lemma month_start_march y m :
  month_start y m =
  (if m <=? 2 then march (y - 1) + (153 * (m + 9) + 2) / 5 else march y + (153 * (m - 3) + 2) / 5)%Z.
Proof.
  unfold month_start, days_from_civil, march.
  destruct (Z.leb_spec m 2), (Z.ltb_spec 2 m); try lia;
    [replace (m + 9)%Z with (9 + m)%Z by lia|replace (m + -3)%Z with (m - 3)%Z by lia];
    Z.to_euclidean_division_equations; lia.
Qed.

Lemma march_next y : (march y + 365 <= march (y + 1) <= march y + 366)%Z.
Proof. unfold march. Z.to_euclidean_division_equations; lia. Qed.

Lemma month_cases m :
  month_ok m →
  (m = 1 ∨ m = 2 ∨ m = 3 ∨ m = 4 ∨ m = 5 ∨ m = 6 ∨ m = 7 ∨ m = 8 ∨ m = 9 ∨ m = 10 ∨ m = 11 ∨ m = 12)%Z.
Proof. unfold month_ok. lia. Qed.

Lemma next_month_start y m :
  month_ok m →
  let '(y', m') := next_month y m in
  month_ok m' ∧ month_index y' m' = (month_index y m + 1)%Z ∧
  (month_start y m + 28 <= month_start y' m' <= month_start y m + 31)%Z.
Proof.
  intros Hm. unfold next_month, month_index. pose proof (march_next (y - 1)) as Hy.
  replace (y - 1 + 1)%Z with y in Hy by lia.
  destruct (Z.eqb_spec m 12) as [->|Hne].
  - split_and!; [by split|lia|..]; rewrite !month_start_march;
      replace (y + 1 - 1)%Z with y by lia; change (1 <=? 2)%Z with true; change (12 <=? 2)%Z with false;
      cbv iota; generalize (march y); intros; Z.to_euclidean_division_equations; lia.
  - unfold month_ok in *. split_and!; [lia..| |]; rewrite !month_start_march;
      destruct (Z.leb_spec m 2), (Z.leb_spec (m + 1) 2); try lia;
      Z.to_euclidean_division_equations; lia.
Qed.

Lemma days_in_month_bounds y m : month_ok m → (28 <= days_in_month y m <= 31)%Z.
Proof.
  intros Hm. pose proof (next_month_start y m Hm) as H. unfold days_in_month.
  destruct (next_month y m). unfold month_start in H. lia.
Qed.

Lemma next_previous y m :
  month_ok m → let '(y', m') := previous_month y m in month_ok m' ∧ next_month y' m' = (y, m).
Proof.
  unfold month_ok, previous_month, next_month. intros Hm.
  destruct (Z.eqb_spec m 1) as [->|]; [simpl; split; [lia|f_equal; lia]|].
  split; [lia|]. destruct (Z.eqb_spec (m - 1) 12); [lia|]. f_equal; lia.
Qed.

(** Months are ordered by their index. *)
Lemma month_start_mono k : ∀ y m y' m',
  month_ok m → month_ok m' → month_index y' m' = (month_index y m + Z.of_nat k)%Z →
  (month_start y m + 28 * Z.of_nat k <= month_start y' m')%Z.
Proof.
  induction k as [|k IH]; intros y m y' m' Hm Hm' Hi.
  - assert (y' = y ∧ m' = m) as [-> ->]; [unfold month_index, month_ok in *; lia|lia].
  - pose proof (next_month_start y m Hm) as Hn. destruct (next_month y m) as [y1 m1].
    destruct Hn as (Hm1 & Hi1 & Hs). specialize (IH y1 m1 y' m' Hm1 Hm'). lia.
Qed.

Lemma month_before y m y' m' :
  month_ok m → month_ok m' → (month_index y m < month_index y' m')%Z →
  (month_start y m + 28 <= month_start y' m')%Z.
Proof.
  intros Hm Hm' Hi.
  pose proof (month_start_mono (Z.to_nat (month_index y' m' - month_index y m)) y m y' m' Hm Hm'). lia.
Qed.

Lemma year_of_era_bounds doe :
  (0 <= doe < 146097)%Z →
  let y := ((doe - doe / 1460 + doe / 36524 - doe / 146096) / 365)%Z in
  let doy := (doe - (365 * y + y / 4 - y / 100))%Z in
  (0 <= y < 400 ∧ 0 <= doy <= 365 ∧
   (doe < (y + 1) * 365 + (y + 1) / 4 - (y + 1) / 100 + (y + 1) / 400)%Z)%Z.
Proof. intros H y doy. subst doy y. Z.to_euclidean_division_equations; lia. Qed.

(** [year_month_of] finds the month of a day. *)
Lemma year_month_of_spec secs y m :
  year_month_of secs = (y, m) →
  month_ok m ∧
  (month_start y m <= Z.of_N (secs / 86400))%Z ∧
  (let '(y', m') := next_month y m in Z.of_N (secs / 86400) < month_start y' m')%Z.
Proof.
  unfold year_month_of. set (day := Z.of_N (secs / 86400)).
  set (era := ((day + 719468) / 146097)%Z). set (doe := (day + 719468 - era * 146097)%Z).
  assert (0 <= doe < 146097)%Z as Hd by (subst doe era; Z.to_euclidean_division_equations; lia).
  pose proof (year_of_era_bounds doe Hd) as Hb. cbv zeta in Hb.
  set (yoe := ((doe - doe / 1460 + doe / 36524 - doe / 146096) / 365)%Z) in *.
  set (doy := (doe - (365 * yoe + yoe / 4 - yoe / 100))%Z) in *.
  destruct Hb as (Hy & Hdoy & Hlast).
  set (sm := ((5 * doy + 2) / 153)%Z).
  assert (march (yoe + era * 400) + doy = day)%Z as Hday.
  { unfold march. subst doy doe. clearbody yoe era. Z.to_euclidean_division_equations; lia. }
  assert (day < march (yoe + era * 400 + 1))%Z as Hnext.
  { unfold march. subst doy doe. clearbody yoe era. Z.to_euclidean_division_equations; lia. }
  assert (0 <= sm <= 11)%Z as Hsm by (subst sm; clearbody doy; Z.to_euclidean_division_equations; lia).
  assert ((153 * sm + 2) / 5 <= doy ∧ doy < (153 * (sm + 1) + 2) / 5)%Z as Hin
    by (subst sm; clearbody doy; Z.to_euclidean_division_equations; lia).
  intros [= <- <-]. clearbody sm doy yoe era doe day. unfold month_ok, next_month.
  destruct (Z.ltb_spec sm 10) as [Hlt|Hge].
  - destruct (Z.leb_spec (sm + 3) 2); [lia|]. split; [lia|]. rewrite Z.add_0_r. split.
    + rewrite month_start_march. destruct (Z.leb_spec (sm + 3) 2); [lia|].
      replace (sm + 3 - 3)%Z with sm by lia. lia.
    + destruct (Z.eqb_spec (sm + 3) 12) as [He|He]; rewrite month_start_march.
      * change (1 <=? 2)%Z with true. cbv iota. change ((153 * (1 + 9) + 2) / 5)%Z with 306%Z.
        replace (yoe + era * 400 + 1 - 1)%Z with (yoe + era * 400)%Z by lia.
        assert (sm = 9)%Z as -> by lia. change ((153 * (9 + 1) + 2) / 5)%Z with 306%Z in Hin. lia.
      * destruct (Z.leb_spec (sm + 3 + 1) 2); [lia|].
        replace (sm + 3 + 1 - 3)%Z with (sm + 1)%Z by lia. lia.
  - destruct (Z.leb_spec (sm - 9) 2); [|lia]. split; [lia|]. split.
    + rewrite month_start_march. destruct (Z.leb_spec (sm - 9) 2); [|lia].
      replace (yoe + era * 400 + 1 - 1)%Z with (yoe + era * 400)%Z by lia.
      replace (sm - 9 + 9)%Z with sm by lia. lia.
    + destruct (Z.eqb_spec (sm - 9) 12); [lia|]. rewrite month_start_march.
      destruct (Z.leb_spec (sm - 9 + 1) 2).
      * replace (yoe + era * 400 + 1 - 1)%Z with (yoe + era * 400)%Z by lia.
        replace (sm - 9 + 1 + 9)%Z with (sm + 1)%Z by lia. lia.
      * assert (sm = 11)%Z as -> by lia. change ((153 * (11 - 9 + 1 - 3) + 2) / 5)%Z with 0%Z. lia.
Qed.

(** ** Slots *)

(** A time of day *)
Definition in_range (s : RotationSchedule) : Prop := (rs_hour s <= 23 ∧ rs_minute s <= 59)%N.

(** The day of a month on which a monthly schedule fires *)
Definition day_in_month (s : RotationSchedule) (y m : Z) : Z :=
  Z.max 1 (Z.min (Z.of_N (rs_day_of_month s)) (days_in_month y m)).

(** The instants of a calendar schedule *)
Definition slot (s : RotationSchedule) (t : N) : Prop :=
  match rs_strategy s with
  | Daily => (t mod 86400 = slot_secs s)%N
  | Weekly => (t mod 86400 = slot_secs s ∧ (t / 86400 + 3) mod 7 = iso_index (rs_weekday s))%N
  | Monthly =>
      ∃ y m, month_ok m ∧
        Z.of_N t = (days_from_civil y m (day_in_month s y m) * 86400 + Z.of_N (slot_secs s))%Z
  | Never | Interval _ => False
  end.

Definition calendar (s : RotationSchedule) : Prop :=
  rs_strategy s = Daily ∨ rs_strategy s = Weekly ∨ rs_strategy s = Monthly.

(** Instants far enough from both ends of a [u64] *)
Definition sane (now : N) : Prop := (6 * 86400 <= now < 2 ^ 62)%N.

Lemma slot_secs_bound s : in_range s → (slot_secs s < 86400)%N.
Proof. unfold in_range, slot_secs. lia. Qed.

Lemma wrapping_add_small a b : (a + b <= u64_max)%N → wrapping_add_u64 a b = (a + b)%N.
Proof. intros H. unfold wrapping_add_u64. apply N.mod_small. lia. Qed.

Lemma wrapping_sub_small a b : (b <= a <= u64_max)%N → wrapping_sub_u64 a b = (a - b)%N.
Proof.
  intros H. unfold wrapping_sub_u64.
  replace (a + (u64_max + 1 - b))%N with (a - b + 1 * (u64_max + 1))%N by lia.
  rewrite N.Div0.mod_add. apply N.mod_small. lia.
Qed.

(** The slot of a month, within it *)
Lemma month_slot_in s y m :
  in_range s → month_ok m →
  let d := (days_from_civil y m (day_in_month s y m) * 86400 + Z.of_N (slot_secs s))%Z in
  (month_start y m * 86400 <= d)%Z ∧
  (let '(y', m') := next_month y m in d < month_start y' m' * 86400)%Z.
Proof.
  intros Hr Hm d. subst d. rewrite civil_day.
  pose proof (slot_secs_bound s Hr) as Hs. pose proof (days_in_month_bounds y m Hm) as Hd.
  unfold day_in_month. assert (month_start y m + days_in_month y m =
    let '(y', m') := next_month y m in month_start y' m')%Z as He.
  { unfold days_in_month. destruct (next_month y m). unfold month_start. lia. }
  destruct (next_month y m). lia.
Qed.

(** The code's [monthly_slot], clamped to the epoch *)
Lemma monthly_slot_spec s y m :
  in_range s → month_ok m → (month_start y m <= 2 ^ 62 / 86400 + 31)%Z →
  Z.of_N (monthly_slot s y m) =
  Z.max 0 (days_from_civil y m (day_in_month s y m) * 86400 + Z.of_N (slot_secs s)).
Proof.
  intros Hr Hm Hy. pose proof (slot_secs_bound s Hr) as Hs. pose proof (days_in_month_bounds y m Hm) as Hd.
  unfold monthly_slot. fold (day_in_month s y m). rewrite !civil_day.
  assert (1 <= day_in_month s y m <= 31)%Z as Hdm by (unfold day_in_month; lia).
  unfold saturate_i64. change (2 ^ 62 / 86400)%Z with 53375995583650%Z in Hy.
  set (v := ((month_start y m + day_in_month s y m - 1) * 86400)%Z). 
  assert (v <= 2 ^ 63 - 1 - 86400)%Z as Hv by (subst v; change (2 ^ 63)%Z with 9223372036854775808%Z; lia).
  clearbody v. change (2 ^ 63)%Z with 9223372036854775808%Z in *.
  assert (0 <= Z.of_N (slot_secs s) < 86400)%Z as Hz by lia.
  generalize dependent (Z.of_N (slot_secs s)). intros z Hz. clear Hs.
  match goal with |- Z.of_N (if (?x <? 0)%Z then _ else _) = _ => destruct (Z.ltb_spec x 0) end;
    [change (Z.of_N 0) with 0%Z|rewrite Z2N.id by lia]; lia.
Qed.

Lemma month_soon d : (d <= 53375995583650)%Z → (d <= 2 ^ 62 / 86400 + 31)%Z.
Proof. change (2 ^ 62 / 86400)%Z with 53375995583650%Z. lia. Qed.

(** The last boundary is the latest slot at or before [now]; where there is
    none it is the epoch. *)
Definition latest (s : RotationSchedule) (now b : N) : Prop :=
  (b <= now)%N ∧ (slot s b ∨ b = 0%N) ∧ ∀ t, slot s t → (t <= now)%N → (t <= b)%N.

Lemma daily_latest s now :
  in_range s → rs_strategy s = Daily → sane now →
  ∃ b, last_boundary_before s now = Some b ∧ latest s now b.
Proof.
  intros Hr Hs [Hlo Hhi]. pose proof (slot_secs_bound s Hr) as Hb.
  unfold last_boundary_before, latest, slot. rewrite Hs.
  change (2 ^ 62)%N with 4611686018427387904%N in Hhi.
  assert (now / 86400 * 86400 <= now)%N as Hd by (zify; Z.to_euclidean_division_equations; lia).
  rewrite wrapping_add_small by (unfold u64_max; lia).
  destruct (N.leb_spec (now / 86400 * 86400 + slot_secs s) now) as [Hle|Hgt].
  - eexists. split; [done|]. split_and!; [done|left|].
    + rewrite N.add_comm, N.Div0.mod_add. by apply N.mod_small.
    + intros t Ht Hn. zify. Z.to_euclidean_division_equations; nia.
  - eexists. split; [done|]. unfold saturating_sub_u64. split_and!; [lia|left|].
    + zify; Z.to_euclidean_division_equations; nia.
    + intros t Ht Hn. zify; Z.to_euclidean_division_equations; nia.
Qed.

Lemma weekly_latest s now :
  in_range s → rs_strategy s = Weekly → sane now →
  ∃ b, last_boundary_before s now = Some b ∧ latest s now b.
Proof.
  intros Hr Hs [Hlo Hhi]. pose proof (slot_secs_bound s Hr) as Hb.
  unfold last_boundary_before, latest, slot. rewrite Hs.
  change (2 ^ 62)%N with 4611686018427387904%N in Hhi.
  assert (iso_index (rs_weekday s) <= 6)%N as Hw by (destruct (rs_weekday s); simpl; lia).
  generalize dependent (slot_secs s). intros ss Hb.
  generalize dependent (iso_index (rs_weekday s)). intros w Hw.
  set (d := (now / 86400)%N). set (ago := (((d + 3) mod 7 + 7 - w) mod 7)%N).
  assert (d * 86400 <= now < d * 86400 + 86400)%N as Hd
    by (subst d; zify; Z.to_euclidean_division_equations; lia).
  assert (ago <= 6 ∧ (d - ago + 3) mod 7 = w ∧ ago <= d)%N as (Ha & Hm & Hda).
  { assert (6 <= d)%N by lia. subst ago. clearbody d. zify; Z.to_euclidean_division_equations; lia. }
  clearbody ago d.
  assert (wrapping_sub_u64 d ago = d - ago)%N as -> by (apply wrapping_sub_small; unfold u64_max; lia).
  rewrite wrapping_mul_u64_small by (unfold u64_max; lia).
  rewrite wrapping_add_small by (unfold u64_max; lia).
  destruct (N.leb_spec ((d - ago) * 86400 + ss) now) as [Hle|Hgt]; (eexists; split; [done|]);
    unfold saturating_sub_u64; (split_and!; [lia| |]).
  - left. rewrite N.add_comm, N.Div0.mod_add, N.mod_small, N.div_add, N.div_small by lia.
    by rewrite N.add_0_l.
  - intros t [Ht1 Ht2] Hn. zify; Z.to_euclidean_division_equations; lia.
  - destruct (decide (7 <= d - ago)%N).
    + left. replace ((d - ago) * 86400 + ss - 7 * 86400)%N with (ss + (d - ago - 7) * 86400)%N by lia.
      rewrite N.Div0.mod_add, N.mod_small, N.div_add, N.div_small by lia. rewrite N.add_0_l.
      split; [done|]. rewrite <- Hm. zify; Z.to_euclidean_division_equations; lia.
    + right. zify; Z.to_euclidean_division_equations; lia.
  - intros t [Ht1 Ht2] Hn. zify; Z.to_euclidean_division_equations; lia.
Qed.

(** A slot lies in its month, so slots are ordered as months are. *)
Lemma monthly_slots s y m :
  in_range s → month_ok m →
  let this := (days_from_civil y m (day_in_month s y m) * 86400 + Z.of_N (slot_secs s))%Z in
  ∀ y' m', month_ok m' →
  let other := (days_from_civil y' m' (day_in_month s y' m') * 86400 + Z.of_N (slot_secs s))%Z in
  ((month_index y' m' < month_index y m → other < month_start y m * 86400) ∧
   (month_index y m < month_index y' m' →
    (let '(y1, m1) := next_month y m in month_start y1 m1 * 86400 <= other) ∧ this < other) ∧
   (month_index y' m' = month_index y m → other = this))%Z.
Proof.
  intros Hr Hm this y' m' Hm' other.
  pose proof (month_slot_in s y m Hr Hm) as [H1 H2]. pose proof (month_slot_in s y' m' Hr Hm') as [H1' H2'].
  fold this in H1, H2. fold other in H1', H2'.
  pose proof (next_month_start y m Hm) as Hn. pose proof (next_month_start y' m' Hm') as Hn'.
  split_and!; [|intros Hi; split|].
  - intros Hi. destruct (next_month y' m') as [y1 m1]. destruct Hn' as (Hm1 & Hi1 & _).
    pose proof (month_start_mono (Z.to_nat (month_index y m - month_index y1 m1)) y1 m1 y m Hm1 Hm). lia.
  - destruct (next_month y m) as [y1 m1]. destruct Hn as (Hm1 & Hi1 & _).
    pose proof (month_start_mono (Z.to_nat (month_index y' m' - month_index y1 m1)) y1 m1 y' m' Hm1 Hm'). lia.
  - destruct (next_month y m) as [y1 m1]. destruct Hn as (Hm1 & Hi1 & _).
    pose proof (month_start_mono (Z.to_nat (month_index y' m' - month_index y1 m1)) y1 m1 y' m' Hm1 Hm'). lia.
  - intros Hi. assert (y' = y ∧ m' = m) as [-> ->]; [unfold month_index, month_ok in *; lia|done].
Qed.

Lemma monthly_latest s now :
  in_range s → rs_strategy s = Monthly → sane now →
  ∃ b, last_boundary_before s now = Some b ∧ latest s now b.
Proof.
  intros Hr Hs [Hlo Hhi]. unfold last_boundary_before, latest, slot. rewrite Hs.
  change (2 ^ 62)%N with 4611686018427387904%N in Hhi.
  destruct (year_month_of now) as [y m] eqn:Hym. apply year_month_of_spec in Hym as (Hm & Hlow & Hup).
  assert (Z.of_N (now / 86400) * 86400 <= Z.of_N now < Z.of_N (now / 86400) * 86400 + 86400)%Z as Hn
    by (zify; Z.to_euclidean_division_equations; lia).
  assert (Z.of_N (now / 86400) <= 53375995583650)%Z as Hb by (zify; Z.to_euclidean_division_equations; lia).
  pose proof (monthly_slots s y m Hr Hm) as Hord.
  pose proof (month_slot_in s y m Hr Hm) as [Hin1 Hin2].
  pose proof (monthly_slot_spec s y m Hr Hm (month_soon (month_start y m) ltac:(lia))) as Hms.
  assert (∀ t, (∃ y' m', month_ok m' ∧
      Z.of_N t = (days_from_civil y' m' (day_in_month s y' m') * 86400 + Z.of_N (slot_secs s))%Z) →
      (t <= now)%N → (t <= monthly_slot s y m)%N) as Hthis.
  { intros t (y' & m' & Hm' & Ht) Hle. destruct (Hord y' m' Hm') as (H1 & H2 & H3).
    destruct (Z.lt_trichotomy (month_index y' m') (month_index y m)) as [Hc|[Hc|Hc]].
    - specialize (H1 Hc). lia.
    - specialize (H3 Hc). lia.
    - apply H2 in Hc as [Hc _]. destruct (next_month y m). lia. }
  destruct (N.leb_spec (monthly_slot s y m) now) as [Hle|Hgt].
  { eexists. split; [done|]. split_and!; [done| |done].
    destruct (decide (monthly_slot s y m = 0)%N) as [H0|H0]; [by right|left]. exists y, m. split; [done|]. lia. }
  pose proof (next_previous y m Hm) as Hp. destruct (previous_month y m) as [yp mp].
  destruct Hp as [Hmp Hnp]. pose proof (next_month_start yp mp Hmp) as Hnext. rewrite Hnp in Hnext.
  destruct Hnext as (_ & Hi & Hstart).
  pose proof (month_slot_in s yp mp Hr Hmp) as [Hp1 Hp2]. rewrite Hnp in Hp2.
  pose proof (monthly_slot_spec s yp mp Hr Hmp (month_soon (month_start yp mp) ltac:(lia))) as Hmsp.
  eexists. split; [done|]. split_and!; [lia| |].
  - destruct (decide (monthly_slot s yp mp = 0)%N) as [H0|H0]; [by right|left]. exists yp, mp. split; [done|]. lia.
  - intros t Ht Hle. pose proof (Hthis t Ht Hle) as Hle'. destruct Ht as (y' & m' & Hm' & Ht).
    destruct (monthly_slots s yp mp Hr Hmp y' m' Hm') as (H1 & H2 & H3).
    destruct (Z.lt_trichotomy (month_index y' m') (month_index yp mp)) as [Hc|[Hc|Hc]].
    + specialize (H1 Hc). lia.
    + specialize (H3 Hc). lia.
    + destruct (Hord y' m' Hm') as (_ & H2' & H3').
      destruct (Z.eq_dec (month_index y' m') (month_index y m)) as [He|He]; [specialize (H3' He); lia|].
      assert (month_index y m < month_index y' m')%Z as Hc' by lia. apply H2' in Hc' as [Hc' _].
      destruct (next_month y m). lia.
Qed.

Lemma boundary_latest s now :
  in_range s → calendar s → sane now → ∃ b, last_boundary_before s now = Some b ∧ latest s now b.
Proof.
  intros Hr [Hs|[Hs|Hs]] Hn; [by apply daily_latest|by apply weekly_latest|by apply monthly_latest].
Qed.

(** A calendar schedule is due exactly when one of its slots has come since
    the last rotation. *)
Theorem should_rotate_exact s now :
  in_range s → calendar s → sane now →
  should_rotate_now s now = true ↔
  ∃ t, slot s t ∧ (default 0 (rs_last_rotated s) < t <= now)%N.
Proof.
  intros Hr Hc Hn. destruct (boundary_latest s now Hr Hc Hn) as (b & Hb & Hle & Hslot & Hmax).
  unfold should_rotate_now. rewrite Hb.
  rewrite bool_decide_false by (destruct Hc as [-> | [-> | ->]]; done). rewrite N.ltb_lt. split.
  - intros Hlt. exists b. destruct Hslot as [Hs| ->]; [|lia]. split; [done|]. lia.
  - intros (t & Ht & Hlt & Htn). specialize (Hmax t Ht Htn). lia.
Qed.

(** ** The next rotation *)

Definition earliest (s : RotationSchedule) (now t : N) : Prop :=
  slot s t ∧ (now < t)%N ∧ ∀ t', slot s t' → (now < t')%N → (t <= t')%N.

Lemma daily_earliest s now :
  in_range s → rs_strategy s = Daily → sane now →
  ∃ t, next_rotation_after s now = Some t ∧ earliest s now t.
Proof.
  intros Hr Hs [Hlo Hhi]. pose proof (slot_secs_bound s Hr) as Hb.
  unfold next_rotation_after, earliest, slot. rewrite Hs.
  change (2 ^ 62)%N with 4611686018427387904%N in Hhi.
  assert (now / 86400 * 86400 <= now)%N as Hd by (zify; Z.to_euclidean_division_equations; lia).
  rewrite !wrapping_add_small by (unfold u64_max; lia).
  destruct (N.ltb_spec now (now / 86400 * 86400 + slot_secs s)) as [Hlt|Hge];
    (eexists; split; [done|]); (split_and!; [|zify; Z.to_euclidean_division_equations; lia|]).
  - rewrite N.add_comm, N.Div0.mod_add. by apply N.mod_small.
  - intros t Ht Hn. zify; Z.to_euclidean_division_equations; lia.
  - replace (now / 86400 * 86400 + slot_secs s + 86400)%N with (slot_secs s + (now / 86400 + 1) * 86400)%N by lia.
    rewrite N.Div0.mod_add. by apply N.mod_small.
  - intros t Ht Hn. zify; Z.to_euclidean_division_equations; lia.
Qed.

Lemma weekly_earliest s now :
  in_range s → rs_strategy s = Weekly → sane now →
  ∃ t, next_rotation_after s now = Some t ∧ earliest s now t.
Proof.
  intros Hr Hs [Hlo Hhi]. pose proof (slot_secs_bound s Hr) as Hb.
  unfold next_rotation_after, earliest, slot. rewrite Hs.
  change (2 ^ 62)%N with 4611686018427387904%N in Hhi.
  assert (iso_index (rs_weekday s) <= 6)%N as Hw by (destruct (rs_weekday s); simpl; lia).
  generalize dependent (slot_secs s). intros ss Hb.
  generalize dependent (iso_index (rs_weekday s)). intros w Hw.
  set (d := (now / 86400)%N). set (ahead := ((w + 7 - (d + 3) mod 7) mod 7)%N).
  assert (d * 86400 <= now < d * 86400 + 86400)%N as Hd
    by (subst d; zify; Z.to_euclidean_division_equations; lia).
  assert (ahead <= 6 ∧ (d + ahead + 3) mod 7 = w)%N as (Ha & Hm).
  { subst ahead. clearbody d. zify; Z.to_euclidean_division_equations; lia. }
  clearbody ahead d.
  rewrite wrapping_mul_u64_small by (unfold u64_max; lia).
  rewrite !wrapping_add_small by (unfold u64_max; lia).
  destruct (N.ltb_spec now ((d + ahead) * 86400 + ss)) as [Hlt|Hge];
    (eexists; split; [done|]); (split_and!; [| |lia|]).
  - rewrite N.add_comm, N.Div0.mod_add. by apply N.mod_small.
  - rewrite (N.add_comm _ ss), N.div_add, N.div_small by lia. by rewrite N.add_0_l.
  - intros t [Ht1 Ht2] Hn. zify; Z.to_euclidean_division_equations; lia.
  - replace ((d + ahead) * 86400 + ss + 7 * 86400)%N with (ss + (d + ahead + 7) * 86400)%N by lia.
    rewrite N.Div0.mod_add. by apply N.mod_small.
  - replace ((d + ahead) * 86400 + ss + 7 * 86400)%N with (ss + (d + ahead + 7) * 86400)%N by lia.
    rewrite N.div_add, N.div_small by lia. rewrite N.add_0_l, <- Hm.
    zify; Z.to_euclidean_division_equations; lia.
  - intros t [Ht1 Ht2] Hn. zify; Z.to_euclidean_division_equations; lia.
Qed.

Lemma monthly_earliest s now :
  in_range s → rs_strategy s = Monthly → sane now →
  ∃ t, next_rotation_after s now = Some t ∧ earliest s now t.
Proof.
  intros Hr Hs [Hlo Hhi]. unfold next_rotation_after, earliest, slot. rewrite Hs.
  change (2 ^ 62)%N with 4611686018427387904%N in Hhi.
  destruct (year_month_of now) as [y m] eqn:Hym. apply year_month_of_spec in Hym as (Hm & Hlow & Hup).
  assert (Z.of_N (now / 86400) * 86400 <= Z.of_N now < Z.of_N (now / 86400) * 86400 + 86400)%Z as Hn
    by (zify; Z.to_euclidean_division_equations; lia).
  assert (Z.of_N (now / 86400) <= 53375995583650)%Z as Hb by (zify; Z.to_euclidean_division_equations; lia).
  pose proof (monthly_slots s y m Hr Hm) as Hord.
  pose proof (month_slot_in s y m Hr Hm) as [Hin1 Hin2].
  pose proof (monthly_slot_spec s y m Hr Hm (month_soon (month_start y m) ltac:(lia))) as Hms.
  destruct (N.ltb_spec now (monthly_slot s y m)) as [Hlt|Hge].
  { eexists. split; [done|]. split_and!; [exists y, m; split; [done|lia]|done|].
    intros t (y' & m' & Hm' & Ht) Hnt. destruct (Hord y' m' Hm') as (H1 & H2 & H3).
    destruct (Z.lt_trichotomy (month_index y' m') (month_index y m)) as [Hc|[Hc|Hc]].
    - specialize (H1 Hc). lia.
    - specialize (H3 Hc). lia.
    - apply H2 in Hc as [_ Hc]. lia. }
  pose proof (next_month_start y m Hm) as Hnext. destruct (next_month y m) as [yn mn].
  destruct Hnext as (Hmn & Hi & Hstart).
  assert (month_start yn mn <= 2 ^ 62 / 86400 + 31)%Z as Hbn
    by (change (2 ^ 62 / 86400)%Z with 53375995583650%Z; lia).
  pose proof (month_slot_in s yn mn Hr Hmn) as [Hn1 Hn2].
  assert (Z.of_N (monthly_slot s yn mn) =
    Z.max 0 (days_from_civil yn mn (day_in_month s yn mn) * 86400 + Z.of_N (slot_secs s)))%Z as Hmsn
    by (by apply monthly_slot_spec).
  destruct (N.ltb_spec now (monthly_slot s yn mn)); [|lia].
  eexists. split; [done|]. split_and!; [exists yn, mn; split; [done|lia]|done|].
  intros t (y' & m' & Hm' & Ht) Hnt. destruct (Hord y' m' Hm') as (H1 & H2 & H3).
  destruct (monthly_slots s yn mn Hr Hmn y' m' Hm') as (H1' & H2' & H3').
  destruct (Z.lt_trichotomy (month_index y' m') (month_index y m)) as [Hc|[Hc|Hc]].
  - specialize (H1 Hc). lia.
  - specialize (H3 Hc). lia.
  - destruct (Z.eq_dec (month_index y' m') (month_index yn mn)) as [He|He]; [specialize (H3' He); lia|].
    assert (month_index yn mn < month_index y' m')%Z as Hc' by lia. apply H2' in Hc' as [_ Hc']. lia.
Qed.

(** The next rotation of a calendar schedule is its first slot after now. *)
Theorem next_rotation_least s now :
  in_range s → calendar s → sane now →
  ∃ t, next_rotation_after s now = Some t ∧ earliest s now t.
Proof.
  intros Hr [Hs|[Hs|Hs]] Hn; [by apply daily_earliest|by apply weekly_earliest|by apply monthly_earliest].
Qed.

(** ** [rotate_every] *)

(** [90d] and [12w]: the days a text asks for *)
Definition days_of_text (s : string) : option N :=
  let s := to_ascii_lowercase (trim s) in
  match strip_suffix "d" s, strip_suffix "w" s with
  | Some number, _ => Some (dec_value 0 number)
  | None, Some number => Some (7 * dec_value 0 number)%N
  | None, None => None
  end.

(** A [rotate_every] that parses enforces the days it says, exactly. *)
Lemma rotate_every_period s sched :
  parse_rotate_every s = Ok sched →
  ∃ days, days_of_text s = Some days ∧ (0 < days)%N ∧
    strategy_period_secs (rs_strategy sched) = Some (days * 86400)%N ∧ rs_last_rotated sched = None.
Proof.
  unfold parse_rotate_every, days_of_text.
  destruct (strip_suffix "d" _) as [number|];
    [|destruct (strip_suffix "w" _) as [number|]; [|done]];
    intros (Hf & Hd)%fail_if_Ok; unfold parse_u64_digits in Hd; apply orb_false_elim in Hf as [He Ha];
    rewrite He, Ha in Hd; cbn [negb orb] in Hd;
    (destruct (N.leb_spec (dec_value 0 number) u64_max) as [H1|H1]; [|done]); cbn [mbind option_bind] in Hd;
    match type of Hd with context [(?a * ?b <=? u64_max)%N] =>
      destruct (N.leb_spec (a * b) u64_max) as [H2|H2]; [|done] end; cbn [mbind option_bind] in Hd;
    match type of Hd with context [(?a * 86400 <=? u64_max)%N] =>
      destruct (N.leb_spec (a * 86400) u64_max) as [H3|H3]; [|done] end; cbn [mbind option_bind] in Hd.
  1: rewrite N.mul_1_r in *.
  2: rewrite (N.mul_comm _ 7) in *.
  all: eexists; split; [done|]; revert Hd H3;
    match goal with |- context [match ?n with N0 => None | Npos p => Some p end] => destruct n as [|p] end;
    [done|]; intros Hd H3; cbn [ok_or rbind] in Hd; apply Ok_inj in Hd as <-; split; [lia|];
    destruct (N.eqb_spec (Npos p) 1) as [[= ->]|]; [done|];
    destruct (N.eqb_spec (Npos p) 7) as [[= ->]|]; [done|]; (split; [|done]); cbn;
    unfold saturating_mul_u64, DAY_SECS; f_equal; lia.
Qed.

(** ** Witnesses and findings *)

Definition monthly_demo : RotationSchedule := mk_schedule Monthly 4 30 Monday 31 (Some 1704100000%N).

Lemma should_rotate_exact_witness :
  (* 29 February 2024, 05:00: the slot of a month without a 31st has come. *)
  ∃ t, slot monthly_demo t ∧ (1704100000 < t <= 1709182800)%N.
Proof.
  apply (should_rotate_exact monthly_demo 1709182800).
  - by vm_compute.
  - by right; right.
  - by vm_compute.
  - reflexivity.
Defined.

Lemma next_rotation_least_witness :
  ∃ t, next_rotation_after monthly_demo 1709182800 = Some t ∧ earliest monthly_demo 1709182800 t.
Proof.
  apply (next_rotation_least monthly_demo 1709182800); [by vm_compute|by right; right|by vm_compute].
Defined.

(** A slot that comes this very second is the boundary "strictly before"
    it. *)
Lemma boundary_at_now :
  last_boundary_before (from_strategy Daily) 7200 = Some 7200%N.
Proof. by vm_compute. Qed.

(** An hour above 23 is taken as it is: the boundary lies in the future, and
    a secret that was rotated this very second is due again. *)
Lemma unchecked_hour_always_due :
  let s := mk_schedule Daily 48 0 Monday 1 (Some 1700000000%N) in
  last_boundary_before s 1700000000 = Some 1700006400%N ∧ should_rotate_now s 1700000000 = true.
Proof. by vm_compute. Qed.

(** In the first days of the epoch, which is what a clock that cannot be read
    gives, the day of a weekly slot before now does not exist and its number
    wraps: a far boundary, and the secret is due. *)
Lemma weekly_wraps_at_epoch :
  let s := mk_schedule Weekly 3 0 Friday 1 None in
  last_boundary_before s 0 = Some 18446744073708439216%N ∧ should_rotate_now s 0 = true.
Proof. by vm_compute. Qed.
