(* ===== verification/VaultMeta.v ===== *)
(** * Secret metadata and the backend interface

    [crates/phantom-vault/src/metadata.rs] and [traits.rs]: what a vault
    keeps beside a value, the interface every backend implements and the
    operations it gets from it; [rotation_gate.rs]: the refusals in front of
    every path that hands a value out; and the key scheme of
    [crates/phantom-core/src/env_scope.rs].  A pure function that reads the
    clock has the reading as its argument [now]; a method reads it from the
    state ([Clock]).  Sums and products of [u64]s wrap.  The theorems are in
    [VaultGate]. *)

From S2P Require Import Prelude Text Ids External StateDir Rotation.

(** ** Errors *)

(** [PhantomError], the constructors the vault meets *)
Inductive PhantomError :=
  | ConfigParseError (message : string)
  | SecretNotFound (name : string)
  | VaultError (message : string)
  | Io (kind : ErrorKind)
  | Other (message : string).

(** Its [Display] *)
Definition phantom_error_text (io_text : ErrorKind → string) (e : PhantomError) : string :=
  match e with
  | ConfigParseError m => ("Failed to parse config: " +:+ m)%string
  | SecretNotFound n => ("Secret not found: " +:+ n)%string
  | VaultError m => ("Vault error: " +:+ m)%string
  | Io k => ("IO error: " +:+ io_text k)%string
  | Other m => m
  end.

(** ** Orders *)

Fixpoint list_cmp `{Ord A} (x y : list A) : comparison :=
  match x, y with
  | [], [] => Eq
  | [], _ :: _ => Lt
  | _ :: _, [] => Gt
  | a :: x', b :: y' => match ord_cmp a b with Eq => list_cmp x' y' | c => c end
  end.

#[export] Instance Ord_list `{Ord A} : Ord (list A).
Proof.
  refine {| ord_cmp := list_cmp |}.
  - intros x. induction x as [|a x IH]; intros [|b y]; simpl; [done..|].
    destruct (ord_cmp a b) eqn:E.
    + apply ord_cmp_eq in E as ->. rewrite IH. split; [by intros ->|by intros [= ->]].
    + split; [done|]. intros [= -> ->]. by rewrite ord_cmp_refl in E.
    + split; [done|]. intros [= -> ->]. by rewrite ord_cmp_refl in E.
  - intros x. induction x as [|a x IH]; intros [|b y]; simpl; [done..|].
    rewrite (ord_cmp_antisym a b). destruct (ord_cmp a b); simpl; [apply IH|done..].
  - intros x. induction x as [|a x IH]; intros [|b y] [|c z]; simpl; [done..|].
    destruct (ord_cmp a b) eqn:E1; [|intros _|done].
    + apply ord_cmp_eq in E1 as ->. destruct (ord_cmp b c); [apply IH|done..].
    + destruct (ord_cmp b c) eqn:E2; [intros _|intros _|done].
      * apply ord_cmp_eq in E2 as <-. by rewrite E1.
      * by rewrite (ord_cmp_trans a b c).
Defined.

(** A derived [Ord] of a struct compares its fields in order. *)
Definition ord_fields {A} (fields : A → list string) (fields_inj : ∀ x y, fields x = fields y → x = y) : Ord A.
Proof.
  refine {| ord_cmp x y := ord_cmp (fields x) (fields y) |}.
  - intros x y. rewrite ord_cmp_eq. naive_solver.
  - intros x y. apply ord_cmp_antisym.
  - intros x y z. apply ord_cmp_trans.
Defined.

(** ** Metadata *)

Record RotationPolicy := mk_policy { rp_days_ttl : N; rp_auto_rotate : bool }.

#[export] Instance RotationPolicy_eq_dec : EqDecision RotationPolicy.
Proof. solve_decision. Defined.

Inductive VaultMode := ReadWrite | ReadOnly.

#[export] Instance VaultMode_eq_dec : EqDecision VaultMode.
Proof. solve_decision. Defined.

(** [VaultMode::is_read_only] *)
Definition is_read_only (m : VaultMode) : bool := match m with ReadOnly => true | ReadWrite => false end.

Record SecretMetadata := mk_meta {
  sm_created_at : option N;
  sm_rotated_at : option N;
  sm_expires_at : option N;
  sm_rotation_policy : option RotationPolicy;
  sm_vault_mode : VaultMode;
}.

#[export] Instance SecretMetadata_eq_dec : EqDecision SecretMetadata.
Proof. solve_decision. Defined.

(** [SecretMetadata::default] *)
Definition default_metadata : SecretMetadata := mk_meta None None None None ReadWrite.

(** [SecretMetadata::new_now] *)
Definition new_now (now : N) : SecretMetadata := mk_meta (Some now) None None None ReadWrite.

(** [now + days * 86_400] *)
Definition days_from (now days : N) : N := wrapping_add_u64 now (wrapping_mul_u64 days 86400).

(** [SecretMetadata::with_expiry] *)
Definition with_expiry (now days : N) : SecretMetadata :=
  mk_meta (Some now) (Some now) (Some (days_from now days)) (Some (mk_policy days false)) ReadWrite.

(** [SecretMetadata::record_rotation] *)
Definition record_rotation (now : N) (m : SecretMetadata) : SecretMetadata :=
  mk_meta (sm_created_at m) (Some now)
    (match sm_rotation_policy m with
     | Some policy => Some (days_from now (rp_days_ttl policy))
     | None => sm_expires_at m
     end)
    (sm_rotation_policy m) ReadWrite.

Definition with_expires_at (e : option N) (m : SecretMetadata) : SecretMetadata :=
  mk_meta (sm_created_at m) (sm_rotated_at m) e (sm_rotation_policy m) (sm_vault_mode m).

(** [SecretMetadata::is_expired] *)
Definition is_expired (now : N) (m : SecretMetadata) : bool :=
  match sm_expires_at m with Some exp => (exp <=? now)%N | None => false end.

(** [SecretMetadata::days_remaining_at] *)
Definition days_remaining_at (now : N) (m : SecretMetadata) : option Z :=
  option_map (fun exp =>
    let secs_left := (Z.of_N exp - Z.of_N now)%Z in
    if (secs_left <=? 0)%Z then Z.min (secs_left / 86400) (-1) else (secs_left / 86400)%Z)
    (sm_expires_at m).

(** The digits of an [i64] *)
Definition Z_to_string (z : Z) : string :=
  if (z <? 0)%Z then ("-" +:+ N_to_string (Z.to_N (- z)))%string else N_to_string (Z.to_N z).

(** [SecretMetadata::ttl_status] *)
Definition ttl_status (now : N) (m : SecretMetadata) : string :=
  match sm_expires_at m with
  | None => "no expiry"
  | Some _ =>
      if is_expired now m then "EXPIRED"
      else
        let days := default 0%Z (days_remaining_at now m) in
        if (days =? 0)%Z then "expires today"
        else if (days =? 1)%Z then "1 day remaining"
        else (Z_to_string days +:+ " days remaining")%string
  end.

(** [SecretMetadata::is_expiring_soon] *)
Definition is_expiring_soon (now warn_days : N) (m : SecretMetadata) : bool :=
  match days_remaining_at now m with
  | Some days => (0 <=? days)%Z && (days <=? as_i64 warn_days)%Z
  | None => false
  end.

(** [in_expiry_report] *)
Definition in_expiry_report (days_remaining : Z) (warn_days : N) : bool :=
  (days_remaining <? 0)%Z || ((0 <? warn_days)%N && (days_remaining <=? as_i64 warn_days)%Z).

Record ExpiredEntry := mk_expired {
  ee_name : string;
  ee_expires_at : N;
  ee_secs_overdue : N;
  ee_status : string;
}.

(** [NoExpiryPolicyEntry]: a name, its status is always the same *)
Record NoExpiryPolicyEntry := mk_no_policy { np_name : string; np_status : string }.

Record ExpiryEnforceReport := mk_enforce_report {
  er_expired : list ExpiredEntry;
  er_no_expiry_policy : list NoExpiryPolicyEntry;
  er_ok_count : nat;
  er_no_expiry_count : nat;
  er_fail_closed : bool;
  er_pass : bool;
}.

(** The variables of the loop in [expiry_enforce_report] *)
Definition enforce_step (fail_closed : bool) (now : N)
    (r : list ExpiredEntry * list NoExpiryPolicyEntry * nat * nat)
    (entry : string * option SecretMetadata) : list ExpiredEntry * list NoExpiryPolicyEntry * nat * nat :=
  let '(expired, no_policy, ok_count, no_expiry_count) := r in
  let '(name, metadata) := entry in
  match metadata ≫= sm_expires_at with
  | None =>
      (expired,
       if fail_closed then no_policy ++ [mk_no_policy name "no_expiry_policy"] else no_policy,
       ok_count, S no_expiry_count)
  | Some expires_at =>
      match check_expiry expires_at 0 now with
      | Expired secs_overdue =>
          (expired ++ [mk_expired name expires_at secs_overdue (expiry_label (Expired secs_overdue))],
           no_policy, ok_count, no_expiry_count)
      | _ => (expired, no_policy, S ok_count, no_expiry_count)
      end
  end.

(** [expiry_enforce_report] *)
Definition expiry_enforce_report (entries : list (string * option SecretMetadata)) (fail_closed : bool)
    (now : N) : ExpiryEnforceReport :=
  let '(expired, no_policy, ok_count, no_expiry_count) :=
    fold_left (enforce_step fail_closed now) entries ([], [], 0%nat, 0%nat) in
  mk_enforce_report expired no_policy ok_count no_expiry_count fail_closed
    (match expired, no_policy with [], [] => true | _, _ => false end).

(** ** Validation metadata: [crates/phantom-core/src/validator.rs] *)

Record ValidationMetadata := mk_validation {
  vm_last_check_ts : N;
  vm_is_valid : bool;
  vm_failure_reason : option string;
  vm_validator_name : option string;
}.

#[export] Instance ValidationMetadata_eq_dec : EqDecision ValidationMetadata.
Proof. solve_decision. Defined.

(** [ValidationMetadata::default] *)
Definition default_validation : ValidationMetadata := mk_validation 0 false None None.

(** [never_checked], [is_stale], [mark_valid], [mark_invalid] and
    [mark_unreachable] *)
Definition never_checked (m : ValidationMetadata) : bool := (vm_last_check_ts m =? 0)%N.
Definition is_stale (now stale_secs : N) (m : ValidationMetadata) : bool :=
  never_checked m || (stale_secs <? now - vm_last_check_ts m)%N.
Definition mark_valid (now : N) (validator_name : string) : ValidationMetadata :=
  mk_validation now true None (Some validator_name).
Definition mark_invalid (now : N) (validator_name reason : string) : ValidationMetadata :=
  mk_validation now false (Some reason) (Some validator_name).
Definition mark_unreachable (now : N) (validator_name reason : string) : ValidationMetadata :=
  mk_validation now false (Some ("unreachable: " +:+ reason)%string) (Some validator_name).

(** ** The interface: [trait VaultBackend] *)

Record MetadataCas := mk_metadata_cas {
  mc_name : string;
  mc_expected : option SecretMetadata;
  mc_replacement : option SecretMetadata;
}.

Record ValidationMetadataCas := mk_validation_cas {
  vc_name : string;
  vc_expected : option ValidationMetadata;
  vc_replacement : option ValidationMetadata;
}.

Abbreviation vault_io W := (io W PhantomError).

(** [now_secs], over the states [W] of the machine *)
Class Clock (W : Type) := now_secs : W → W * N.

(** A backend over the states of the machine.  Every method may read and
    change the state. *)
Class VaultBackend (W : Type) := {
  store : string → string → vault_io W unit;
  retrieve : string → vault_io W string;
  retrieve_for_injection : string → vault_io W string;
  delete_secret : string → vault_io W unit;
  compare_and_swap : string → option string → option string → vault_io W bool;
  list_names : vault_io W (list string);
  exists_name : string → vault_io W bool;
  get_metadata : string → vault_io W (option SecretMetadata);
  set_metadata : string → SecretMetadata → vault_io W unit;
  compare_and_swap_metadata_batch : list MetadataCas → vault_io W bool;
  list_with_metadata : vault_io W (list (string * option SecretMetadata));
  store_with_expiry : string → string → N → vault_io W unit;
  get_validation_metadata : string → vault_io W ValidationMetadata;
  set_validation_metadata : string → ValidationMetadata → vault_io W unit;
  get_validation_metadata_exact : string → vault_io W (option ValidationMetadata);
  compare_and_swap_validation_metadata_batch : list ValidationMetadataCas → vault_io W bool;
}.

(** [ensure_secret_injectable] *)
Definition ensure_secret_injectable (name : string) (metadata : option SecretMetadata)
    : result unit PhantomError :=
  fail_if (match metadata with Some m => is_read_only (sm_vault_mode m) | None => false end)
    (VaultError ("secret '" +:+ name +:+ "' is read-only under its lifecycle policy; rotate or promote it before runtime injection"))
    (Ok tt).

Section default_methods.
Context {W : Type} `{B : !VaultBackend W}.

(** The methods with a default body that the backends keep *)

(** [retrieve_for_injection], the default *)
Definition default_retrieve_for_injection (name : string) : vault_io W string :=
  do? metadata := get_metadata name in
  do? _ := io_lift (ensure_secret_injectable name metadata) in
  retrieve name.

(** [exists], the default *)
Definition default_exists (name : string) : vault_io W bool :=
  do? names := list_names in io_ret (bool_decide (name ∈ names)).

Definition compare_and_swap_metadata (name : string) (expected replacement : option SecretMetadata)
    : vault_io W bool :=
  compare_and_swap_metadata_batch [mk_metadata_cas name expected replacement].

Definition compare_and_swap_validation_metadata (name : string)
    (expected replacement : option ValidationMetadata) : vault_io W bool :=
  compare_and_swap_validation_metadata_batch [mk_validation_cas name expected replacement].

(** [list_with_metadata], the default *)
Fixpoint metadata_of (names : list string) : vault_io W (list (string * option SecretMetadata)) :=
  match names with
  | [] => io_ret []
  | name :: rest =>
      do? meta := get_metadata name in
      do? out := metadata_of rest in
      io_ret ((name, meta) :: out)
  end.

Definition default_list_with_metadata : vault_io W (list (string * option SecretMetadata)) :=
  do? names := list_names in metadata_of names.

Context `{C : !Clock W}.

(** A reading of the clock *)
Definition read_clock : vault_io W N := fun w => let '(w1, now) := now_secs w in (w1, Ok now).

(** [set_rotation_policy] *)
Definition set_rotation_policy (name : string) (days_ttl : N) : vault_io W unit :=
  do? before := get_metadata name in
  let meta := default default_metadata before in
  do? now := read_clock in
  let meta := mk_meta (sm_created_at meta) (sm_rotated_at meta) (Some (days_from now days_ttl))
                (Some (mk_policy days_ttl false)) (sm_vault_mode meta) in
  do? done := compare_and_swap_metadata name before (Some meta) in
  if done then io_ret tt
  else io_throw (VaultError "secret metadata changed concurrently; rotation policy was not applied").

Definition DEFAULT_ROTATION_TTL_DAYS : N := 30.

(** [record_provider_rotation] *)
Definition record_provider_rotation (name : string) (expires_override : option N)
    : vault_io W (option N) :=
  do? before := get_metadata name in
  let meta := default default_metadata before in
  let had_expiry := bool_decide (is_Some (sm_expires_at meta)) in
  do? now := read_clock in
  let meta := record_rotation now meta in
  do? meta :=
    match expires_override with
    | Some exp => io_ret (with_expires_at (Some exp) meta)
    | None =>
        if negb (bool_decide (is_Some (sm_rotation_policy meta))) && had_expiry
        then do? now := read_clock in
             io_ret (with_expires_at (Some (days_from now DEFAULT_ROTATION_TTL_DAYS)) meta)
        else io_ret meta
    end in
  do? done := compare_and_swap_metadata name before (Some meta) in
  if done then io_ret (sm_expires_at meta)
  else io_throw (VaultError "secret metadata changed concurrently; provider rotation metadata was not applied").
End default_methods.

(** ** Environments: [env_scope.rs] *)

Definition DEFAULT_ENV : string := "default".

(** [namespaced_key] *)
Definition namespaced_key (env name : string) : string := (env +:+ "/" +:+ name)%string.

(** [split_key] *)
Definition split_key (key : string) : option (string * string) := split_once "/"%char key.

(** [validate_env_name] *)
Definition validate_env_name (name : string) : result unit PhantomError :=
  fail_if (str_is_empty name || (64 <? str_len name)%N)
    (Other "Environment name must be 1–64 characters.")
  (fail_if (negb (all_bytes (fun c => is_ascii_alphanumeric c || ascii_eqb c "-"%char || ascii_eqb c "_"%char) name))
    (Other ("Invalid environment name '" +:+ name +:+ "': use only letters, digits, '-', '_'."))
    (Ok tt)).

(** [known_envs_from_keys] *)
Definition known_envs_from_keys (keys : list string) (current_env : string) : list string :=
  btree_collect (DEFAULT_ENV :: current_env :: omap (fun key => option_map fst (split_key key)) keys).

(** ** The rotation gate: [rotation_gate.rs] *)

Record GateTarget := mk_target { gt_key : string; gt_entry : option string }.

Definition target_fields (t : GateTarget) : list string :=
  match gt_entry t with None => [gt_key t] | Some e => [gt_key t; e] end.

Lemma target_fields_inj x y : target_fields x = target_fields y → x = y.
Proof. destruct x as [k [e|]], y as [k' [e'|]]; unfold target_fields; simpl; congruence. Qed.

(** The derived [Ord]; [None] comes before every entry. *)
#[export] Instance Ord_target : Ord GateTarget := ord_fields target_fields target_fields_inj.

(** [RotationGateError] *)
Inductive RotationGateError :=
  | GateSchedule (secret : string) (e : ScheduleError)
  | GateMetadata (key : string) (e : PhantomError).

(** [rotation_anchor] *)
Definition rotation_anchor (metadata : option SecretMetadata) : option N :=
  metadata ← metadata;
  match sm_created_at metadata, sm_rotated_at metadata with
  | Some created, Some rotated => Some (N.max created rotated)
  | Some created, None => Some created
  | None, rotated => rotated
  end.

(** [injected_entry] *)
Definition injected_entry (vault_names : list string) (key active_env : string) : option string :=
  let namespaced := namespaced_key active_env key in
  match List.find (String.eqb namespaced) vault_names with
  | Some name => Some name
  | None =>
      if String.eqb active_env DEFAULT_ENV then List.find (fun name => String.eqb name key) vault_names
      else None
  end.

(** [session_targets] *)
Definition session_targets (vault_names : list string) (active_env : string) (keys : list string)
    : list GateTarget :=
  map (fun key => mk_target key (injected_entry vault_names key active_env)) keys.

(** The logical name of an entry *)
Definition entry_key (entry : string) : string :=
  match split_key entry with Some (_, name) => name | None => entry end.

(** [entry_targets] and [restore_targets] *)
Definition entry_targets (entries : list string) : list GateTarget :=
  map (fun entry => mk_target (entry_key entry) (Some entry)) entries.
Definition restore_targets (entries : list string) : list GateTarget :=
  map (fun entry => mk_target (entry_key entry) None) entries.

Section gate.
Context {W : Type} `{B : !VaultBackend W}.

(** What the loop of [rotation_refusals] finds for one target *)
Definition target_status (config : PhantomConfig) (target : GateTarget) (now : N)
    : io W RotationGateError (option RotationEnforcementStatus) :=
  let key := gt_key target in
  let enforce := match pc_secrets config !! key with
                 | Some secret => so_enforce_rotation_on_access secret
                 | None => false
                 end in
  if negb enforce then io_ret None
  else
    do? schedule := io_lift (map_err (GateSchedule key) (get_rotation_schedule config key)) in
    do? anchor :=
      match gt_entry target with
      | Some entry => fun w =>
          let '(w1, r) := get_metadata entry w in
          (w1, map_err (GateMetadata key) (map_ok rotation_anchor r))
      | None => io_ret None
      end in
    io_ret (Some (check_rotation_enforcement true schedule anchor now)).

(** The loop *)
Fixpoint refusals_loop (config : PhantomConfig) (targets : list GateTarget) (now : N)
    (refusals : list string) : io W RotationGateError (list string) :=
  match targets with
  | [] => io_ret refusals
  | target :: rest =>
      do? status := target_status config target now in
      refusals_loop config rest now
        (match status ≫= (fun s => error_message s (gt_key target)) with
         | Some message =>
             if bool_decide (message ∈ refusals) then refusals else refusals ++ [message]
         | None => refusals
         end)
  end.

(** [rotation_refusals]; sorting and [dedup] leave the ordered set *)
Definition rotation_refusals (config : PhantomConfig) (targets : list GateTarget) (now : N)
    : io W RotationGateError (list string) :=
  refusals_loop config (btree_collect targets) now [].

(** The text of a [String] list with a separator *)
Definition join_with (sep : string) (l : list string) : string :=
  match l with [] => EmptyString | x :: rest => foldl (fun acc y => acc +:+ sep +:+ y) x rest end.

(** [refusal_summary] *)
Definition refusal_summary (action : string) (refusals : list string) : option string :=
  match refusals with
  | [] => None
  | _ => Some ("Refusing to " +:+ action +:+ ": rotation enforcement blocked "
               +:+ N_to_string (N.of_nat (length refusals)) +:+ " secret(s)."
               +:+ String "010"%char (join_with (String "010"%char EmptyString) refusals))%string
  end.

(** The loop of [read_only_refusal]: the read-only names, or the entry whose
    metadata cannot be read *)
Fixpoint read_only_names (entries : list string) (read_only : list string)
    : io W string (list string) :=
  match entries with
  | [] => io_ret read_only
  | name :: rest => fun w =>
      match get_metadata name w with
      | (w1, Ok metadata) =>
          read_only_names rest
            (if match metadata with Some m => is_read_only (sm_vault_mode m) | None => false end
             then read_only ++ [("'" +:+ name +:+ "'")%string] else read_only) w1
      | (w1, Err _) => (w1, Err name)
      end
  end.

(** [read_only_refusal] *)
Definition read_only_refusal (entries : list string) (action remedy : string) (w : W)
    : W * option string :=
  match read_only_names (btree_collect entries) [] w with
  | (w1, Err name) =>
      (w1, Some ("Refusing to " +:+ action +:+ ": could not read lifecycle metadata for '" +:+ name +:+ "'.")%string)
  | (w1, Ok []) => (w1, None)
  | (w1, Ok read_only) =>
      (w1, Some ("Refusing to " +:+ action +:+ ": " +:+ N_to_string (N.of_nat (length read_only))
                 +:+ " secret(s) are read-only under their lifecycle policy: "
                 +:+ join_with ", " read_only +:+ ". " +:+ remedy)%string)
  end.
End gate.
