(* ===== verification/VaultGate.v ===== *)
(** * What the gates in front of the vault let through

    A value is handed out only inside its rotation window
    ([gate_open_exact]) and only while its entry is read-write
    ([read_only_refusal_exact]); expiry reports and day counts agree with the
    expiry instant. *)

From S2P Require Import Prelude Text Ids External StateDir Rotation RotationSpec VaultMeta.

(** A read of the metadata gives what [view] holds, or fails; it changes
    nothing that [view] shows. *)
Definition metadata_reads {W} `{B : !VaultBackend W} (view : W → string → option SecretMetadata) : Prop :=
  ∀ n w w' r, get_metadata n w = (w', r) → view w' = view w ∧ ∀ m, r = Ok m → m = view w n.

(** Reads do not fail. *)
Definition metadata_readable {W} `{B : !VaultBackend W} : Prop :=
  ∀ n (w : W), ∃ w' m, get_metadata n w = (w', Ok m).

Definition enforced (config : PhantomConfig) (key : string) : Prop :=
  ∃ o, pc_secrets config !! key = Some o ∧ so_enforce_rotation_on_access o = true.

#[export] Instance enforced_dec config key : Decision (enforced config key).
Proof.
  destruct (pc_secrets config !! key) as [o|] eqn:E; [|right; intros (o & Ho & _); congruence].
  destruct (so_enforce_rotation_on_access o) eqn:Ho; [left; by exists o|].
  right. intros (o' & Ho' & He). congruence.
Defined.

(** The entry's value is provably younger than its schedule's period. *)
Definition in_window (config : PhantomConfig) (meta : string → option SecretMetadata) (now : N)
    (t : GateTarget) : Prop :=
  ∃ entry sched period anchor,
    gt_entry t = Some entry ∧ rotation_anchor (meta entry) = Some anchor ∧
    get_rotation_schedule config (gt_key t) = Ok (Some sched) ∧
    strategy_period_secs (rs_strategy sched) = Some period ∧
    (anchor <= now < anchor + period)%N.

Lemma enforcement_exact sched anchor now :
  is_blocked (check_rotation_enforcement true sched anchor now) = false ↔
  ∃ s period a, sched = Some s ∧ strategy_period_secs (rs_strategy s) = Some period ∧ anchor = Some a ∧
    (a <= now < a + period)%N.
Proof.
  unfold check_rotation_enforcement. cbn [negb].
  destruct sched as [s|]; [|naive_solver]. destruct (strategy_period_secs (rs_strategy s)) as [p|] eqn:Hp;
    [|naive_solver]. destruct anchor as [a|]; [|naive_solver].
  destruct (N.ltb_spec now a); [split; [done|]; intros (?&?&?&[= <-]&Hp'&[= <-]&?); lia|].
  destruct (N.leb_spec p (now - a)).
  - split; [done|]. intros (?&?&?&[= <-]&Hp'&[= <-]&?). rewrite Hp in Hp'. injection Hp' as <-. lia.
  - split; [|done]. intros _. exists s, p, a. split_and!; (done || lia).
Qed.

Lemma blocked_message s name : is_blocked s = true ↔ is_Some (error_message s name).
Proof. destruct s; simpl; split; (done || (by intros [? ?]) || (intros _; by eexists)). Qed.

Section gate.
Context {W : Type} `{B : !VaultBackend W} (view : W → string → option SecretMetadata).
Context (Hreads : metadata_reads view).

(** The status of one target *)
Lemma target_status_inv config t now w w' r :
  target_status config t now w = (w', r) →
  view w' = view w ∧
  ∀ st, r = Ok st →
    (enforced config (gt_key t) → ∃ s, st = Some s ∧ (is_blocked s = false ↔ in_window config (view w) now t)) ∧
    (¬ enforced config (gt_key t) → st = None).
Proof.
  unfold target_status. set (enf := match pc_secrets config !! gt_key t with
    | Some s => so_enforce_rotation_on_access s | None => false end).
  assert (enforced config (gt_key t) ↔ enf = true) as He.
  { subst enf. unfold enforced. destruct (pc_secrets config !! gt_key t); naive_solver. }
  destruct enf; cbn [negb].
  2:{ intros [= <- <-]. split; [done|]. intros st [= <-]. split; [by intros H%He|done]. }
  unfold io_bind, io_lift. destruct (get_rotation_schedule config (gt_key t)) as [sched|e] eqn:Hs;
    cbn [map_err]; [|by intros [= <- <-]].
  assert (∀ anchor st, st = Some (check_rotation_enforcement true sched anchor now) →
    anchor = (match gt_entry t with Some e => rotation_anchor (view w e) | None => None end) →
    (enforced config (gt_key t) → ∃ s, st = Some s ∧ (is_blocked s = false ↔ in_window config (view w) now t)) ∧
    (¬ enforced config (gt_key t) → st = None)) as Hgoal.
  { intros anchor st -> ->. split; [|intros H; by destruct H; apply He]. intros _. eexists. split; [done|].
    rewrite enforcement_exact. unfold in_window. rewrite Hs. destruct (gt_entry t); naive_solver. }
  destruct (gt_entry t) as [entry|]; [|intros [= <- <-]; split; [done|]; intros st [= <-]; by eapply Hgoal].
  destruct (get_metadata entry w) as [w1 r1] eqn:Hg. destruct (Hreads entry w w1 r1 Hg) as [Hv Hm].
  destruct r1 as [m|e]; cbn [map_ok map_err]; [|by intros [= <- <-]].
  intros [= <- <-]. split; [done|]. intros st [= <-]. eapply Hgoal; [done|]. by rewrite (Hm m).
Qed.

Lemma refusals_loop_inv config targets now : ∀ refusals w w' r,
  refusals_loop config targets now refusals w = (w', r) →
  view w' = view w ∧
  ∀ out, r = Ok out →
    refusals ⊆ out ∧
    (out = [] ↔ refusals = [] ∧ ∀ t, t ∈ targets → enforced config (gt_key t) → in_window config (view w) now t).
Proof.
  induction targets as [|t targets IH]; intros refusals w w' r; cbn [refusals_loop].
  { intros [= <- <-]. split; [done|]. intros out [= <-]. split; [done|]. set_solver. }
  intros [(w1 & st & Hst & Hrest)|(e & He & ->)]%io_bind_inv.
  2:{ apply target_status_inv in He as [-> _]. done. }
  apply target_status_inv in Hst as [Hv Hst]. destruct (Hst st eq_refl) as [Henf Hnot]. clear Hst.
  apply IH in Hrest as [Hv' Hout]. rewrite Hv in Hv', Hout. split; [done|].
  intros out ->. destruct (Hout out eq_refl) as [Hsub Hex]. clear Hout.
  destruct (st ≫= (fun s => error_message s (gt_key t))) as [message|] eqn:Hmsg.
  - assert (message ∈ out) as Hin.
    { apply Hsub. case_bool_decide; [done|]. apply elem_of_app. right. by apply list_elem_of_singleton. }
    split; [intros x Hx; apply Hsub; case_bool_decide; [done|]; apply elem_of_app; by left|].
    split; [intros ->; by apply elem_of_nil in Hin|]. intros [-> Hall]. exfalso.
    destruct st as [s|]; [|done]. cbn in Hmsg.
    destruct (decide (enforced config (gt_key t))) as [He|He]; [|by specialize (Hnot He)].
    destruct (Henf He) as (s' & [= <-] & Hs).
    assert (is_blocked s = true) as Hbl by (apply (blocked_message s (gt_key t)); by rewrite Hmsg).
    rewrite (proj2 Hs) in Hbl; [done|]. apply Hall; [by left|done].
  - split; [done|]. rewrite Hex. split; intros [-> Hall]; (split; [done|]).
    + intros t' [->|Ht']%elem_of_cons Ht; [|by apply Hall].
      destruct (Henf Ht) as (s & -> & Hs). apply Hs. cbn in Hmsg.
      destruct (is_blocked s) eqn:Hb; [|done].
      apply (blocked_message s (gt_key t)) in Hb as [? Hb]. by rewrite Hb in Hmsg.
    + intros t' Ht'. apply Hall. by right.
Qed.

(** With readable metadata and schedules that parse, the loop decides. *)
Lemma refusals_loop_total config targets now : ∀ refusals w,
  metadata_readable → (∀ t, t ∈ targets → enforced config (gt_key t) →
    ∃ sched, get_rotation_schedule config (gt_key t) = Ok sched) →
  ∃ w' out, refusals_loop config targets now refusals w = (w', Ok out).
Proof.
  induction targets as [|t targets IH]; intros refusals w Hread Hs; cbn [refusals_loop]; [by eexists _, _|].
  assert (∃ w1 st, target_status config t now w = (w1, Ok st)) as (w1 & st & Hst).
  { unfold target_status. destruct (decide (enforced config (gt_key t))) as [He|He].
    - destruct (Hs t ltac:(by left) He) as [sched Hsched]. destruct He as (o & -> & ->). cbn [negb].
      unfold io_bind, io_lift. rewrite Hsched. cbn [map_err]. destruct (gt_entry t) as [entry|]; [|by eexists _, _].
      destruct (Hread entry w) as (w1 & m & ->). by eexists _, _.
    - destruct (pc_secrets config !! gt_key t) as [o|] eqn:Ho; [|by eexists _, _].
      destruct (so_enforce_rotation_on_access o) eqn:Hen; [|by eexists _, _]. destruct He. by exists o. }
  unfold io_bind. rewrite Hst. apply IH; [done|]. intros t' Ht'. apply Hs. by right.
Qed.

(** C20: The gate in front of every path that hands a value out lets a list of
    targets through exactly when each of them whose secret enforces rotation
    has an entry whose stored or rotated time is known, not in the future, and
    younger than the period of the secret's schedule; a missing entry, age or
    schedule, and metadata that cannot be read, refuse. *)
Theorem gate_open_exact config targets now w :
  let open_ := ∃ w', rotation_refusals config targets now w = (w', Ok []) in
  let inside := ∀ t, t ∈ targets → enforced config (gt_key t) → in_window config (view w) now t in
  (open_ → inside) ∧ (metadata_readable → inside → open_).
Proof.
  cbv zeta. unfold rotation_refusals. split.
  - intros [w' H]. apply refusals_loop_inv in H as [_ H]. destruct (H [] eq_refl) as [_ [Hin _]].
    destruct (Hin eq_refl) as [_ Hall]. intros t Ht. apply Hall. by apply btree_collect_elem.
  - intros Hread Hall.
    destruct (refusals_loop_total config (btree_collect targets) now [] w Hread) as (w' & out & Hr).
    { intros t Ht He. rewrite btree_collect_elem in Ht. destruct (Hall t Ht He) as (? & sched & ? & ? & _ & _ & Hs & _).
      by eexists. }
    exists w'. rewrite Hr. apply refusals_loop_inv in Hr as [_ H]. destruct (H out eq_refl) as [_ [_ Hout]].
    rewrite Hout; [done|]. split; [done|]. intros t Ht. apply Hall. by apply btree_collect_elem.
Qed.

(** A restored value has no age: it is refused wherever rotation is
    enforced. *)
Lemma restore_refused config entries now w w' e :
  e ∈ entries → enforced config (entry_key e) →
  rotation_refusals config (restore_targets entries) now w ≠ (w', Ok []).
Proof.
  intros He Hen H. unfold rotation_refusals in H. apply refusals_loop_inv in H as [_ H].
  destruct (H [] eq_refl) as [_ [Hin _]]. destruct (Hin eq_refl) as [_ Hall].
  destruct (Hall (mk_target (entry_key e) None)) as (? & ? & ? & ? & ? & _); [|done|done].
  apply btree_collect_elem. unfold restore_targets. change (map ?f ?l) with (f <$> l).
  by apply (list_elem_of_fmap_2 (fun entry => mk_target (entry_key entry) None)).
Qed.

Lemma read_only_names_inv entries : ∀ acc w w' r,
  read_only_names entries acc w = (w', r) →
  view w' = view w ∧
  ∀ out, r = Ok out →
    (out = [] ↔ acc = [] ∧ ∀ e m, e ∈ entries → view w e = Some m → sm_vault_mode m = ReadWrite).
Proof.
  induction entries as [|e entries IH]; intros acc w w' r; cbn [read_only_names].
  { intros [= <- <-]. split; [done|]. intros out [= <-]. split; [|by intros [? _]].
    intros ->. split; [done|]. intros e m He. by apply elem_of_nil in He. }
  destruct (get_metadata e w) as [w1 r1] eqn:Hg. destruct (Hreads e w w1 r1 Hg) as [Hv Hm].
  destruct r1 as [m|]; [|by intros [= <- <-]]. specialize (Hm m eq_refl). intros H.
  apply IH in H as [Hv' Hout]. rewrite Hv in Hv', Hout. split; [done|]. intros out ->.
  rewrite (Hout out eq_refl). clear Hout. subst m. destruct (view w e) as [m|] eqn:Hve.
  - unfold is_read_only. destruct (sm_vault_mode m) eqn:Hmode.
    + split; intros [-> Hall]; (split; [done|]); intros e' m' He'; [|apply Hall; by right].
      apply elem_of_cons in He' as [->|He']; [|by apply Hall]. rewrite Hve. by intros [= <-].
    + split; [intros [H _]; by destruct acc|]. intros [-> Hall].
      specialize (Hall e m ltac:(by left) Hve). congruence.
  - split; intros [-> Hall]; (split; [done|]); intros e' m' He'; [|apply Hall; by right].
    apply elem_of_cons in He' as [->|He']; [|by apply Hall]. by rewrite Hve.
Qed.

(** No refusal means no entry is read-only. *)
Lemma read_only_refusal_sound entries action remedy w w' :
  read_only_refusal entries action remedy w = (w', None) →
  ∀ e m, e ∈ entries → view w e = Some m → sm_vault_mode m = ReadWrite.
Proof.
  unfold read_only_refusal. destruct (read_only_names (btree_collect entries) [] w) as [w1 [out|name]] eqn:E;
    [|done]. apply read_only_names_inv in E as [_ H]. destruct out; [|done]. intros _.
  destruct (H [] eq_refl) as [Hin _]. destruct (Hin eq_refl) as [_ Hall].
  intros e m He. apply Hall. by apply btree_collect_elem.
Qed.
End gate.

(** ** Expiry *)

(** The sign of the day count tells an expired entry from a live one. *)
Lemma days_remaining_sign now m d :
  days_remaining_at now m = Some d → is_expired now m = (d <? 0)%Z.
Proof.
  unfold days_remaining_at, is_expired. destruct (sm_expires_at m) as [exp|]; [|done]. cbn [option_map].
  intros [= <-]. destruct (Z.leb_spec (Z.of_N exp - Z.of_N now) 0) as [H|H].
  - transitivity true; [apply N.leb_le; lia|]. symmetry. apply Z.ltb_lt. lia.
  - transitivity false; [apply N.leb_gt; lia|]. symmetry. apply Z.ltb_ge.
    apply Z.div_pos; lia.
Qed.

Lemma count_split {A C} (f : A → option C) (g h : A → bool) l :
  (∀ x, match f x with Some _ => g x = false ∧ h x = false | None => xorb (g x) (h x) = true end) →
  (length (omap f l) + length (List.filter g l) + length (List.filter h l))%nat = length l.
Proof.
  intros H. induction l as [|x l IH]; [done|]. specialize (H x). csimpl.
  destruct (f x); [destruct H as [-> ->]|destruct (g x), (h x); try done]; simpl; lia.
Qed.

Lemma enforce_fold fail_closed now entries : ∀ acc,
  fold_left (enforce_step fail_closed now) entries acc =
  (acc.1.1.1 ++ omap (fun e => match e.2 ≫= sm_expires_at with
                               | Some exp => if (exp <=? now)%N
                                   then Some (mk_expired e.1 exp (now - exp) (expiry_label (Expired (now - exp))))
                                   else None
                               | None => None
                               end) entries,
   acc.1.1.2 ++ (if fail_closed then omap (fun e => match e.2 ≫= sm_expires_at with
                               | None => Some (mk_no_policy e.1 "no_expiry_policy")
                               | Some _ => None
                               end) entries else []),
   (acc.1.2 + length (List.filter (fun e => match e.2 ≫= sm_expires_at with
                               | Some exp => (now <? exp)%N | None => false end) entries))%nat,
   (acc.2 + length (List.filter (fun e => match e.2 ≫= sm_expires_at with
                               | Some _ => false | None => true end) entries))%nat).
Proof.
  induction entries as [|[n m] entries IH]; intros [[[a b] c] d]; simpl.
  { destruct fail_closed; by rewrite !app_nil_r, !Nat.add_0_r. }
  rewrite IH. clear IH. simpl. destruct (m ≫= sm_expires_at) as [exp|]; simpl.
  - unfold check_expiry. destruct (N.leb_spec exp now), (N.ltb_spec now exp); try lia; simpl.
    + by rewrite <- app_assoc.
    + destruct ((exp - now) / 86400 <=? 0)%N; simpl; by rewrite Nat.add_succ_r.
  - destruct fail_closed; simpl; rewrite ?Nat.add_succ_r, <- ?app_assoc; done.
Qed.

(** The report names exactly the entries whose instant has passed, and passes
    exactly when there is none and, under [fail_closed], every entry has an
    expiry. *)
Lemma enforce_report_exact entries fail_closed now :
  let r := expiry_enforce_report entries fail_closed now in
  (∀ n, (∃ x, x ∈ er_expired r ∧ ee_name x = n) ↔
     ∃ m exp, (n, Some m) ∈ entries ∧ sm_expires_at m = Some exp ∧ (exp <= now)%N) ∧
  (er_pass r = true ↔ ∀ n m, (n, m) ∈ entries →
     match m ≫= sm_expires_at with Some exp => (now < exp)%N | None => fail_closed = false end) ∧
  (length (er_expired r) + er_ok_count r + er_no_expiry_count r)%nat = length entries.
Proof.
  cbv zeta. unfold expiry_enforce_report. rewrite enforce_fold. cbn [fst snd app er_expired er_pass
    er_ok_count er_no_expiry_count Nat.add]. split_and!.
  - intros n. split.
    + intros (x & Hx & <-). apply list_elem_of_omap in Hx as ([n' m] & Hin & Hx). cbn in Hx.
      destruct m as [m|]; [|done]. cbn in Hx. destruct (sm_expires_at m) as [exp|] eqn:He; [|done].
      destruct (N.leb_spec exp now); [|done]. injection Hx as <-. by exists m, exp.
    + intros (m & exp & Hin & He & Hle). eexists. split; [apply list_elem_of_omap; exists (n, Some m); split; [done|]|].
      * cbn. rewrite He. destruct (N.leb_spec exp now); [done|lia].
      * done.
  - set (l1 := omap _ entries). set (l2 := if fail_closed then _ else _).
    transitivity (l1 = [] ∧ l2 = []); [destruct l1, l2; naive_solver|]. split.
    + intros [H1 H2] n m Hin. destruct (m ≫= sm_expires_at) as [exp|] eqn:He.
      * destruct (N.ltb_spec now exp) as [|Hle]; [done|]. exfalso.
        apply (elem_of_nil (mk_expired n exp (now - exp) (expiry_label (Expired (now - exp))))). rewrite <- H1.
        subst l1. apply list_elem_of_omap. exists (n, m). split; [done|]. cbn. rewrite He.
        destruct (N.leb_spec exp now); [done|lia].
      * destruct fail_closed; [|done]. exfalso.
        apply (elem_of_nil (mk_no_policy n "no_expiry_policy")). rewrite <- H2.
        subst l2. apply list_elem_of_omap. exists (n, m). split; [done|]. cbn. by rewrite He.
    + intros Hall. split; subst l1 l2.
      * apply elem_of_nil_inv. intros x ([n m] & Hin & Hx)%list_elem_of_omap. specialize (Hall n m Hin). cbn in Hx.
        destruct (m ≫= sm_expires_at); [|done]. destruct (N.leb_spec n0 now); [lia|done].
      * destruct fail_closed; [|done].
        apply elem_of_nil_inv. intros x ([n m] & Hin & Hx)%list_elem_of_omap. specialize (Hall n m Hin). cbn in Hx.
        by destruct (m ≫= sm_expires_at).
  - apply count_split. intros [n m]. cbn [fst snd]. destruct (m ≫= sm_expires_at) as [exp|]; [|done].
    destruct (N.leb_spec exp now), (N.ltb_spec now exp); (done || lia).
Qed.

(** ** Witnesses *)

(** A backend with a fixed metadata table *)
#[local] Program Instance table_backend : VaultBackend (string → option SecretMetadata) := {|
  store _ _ w := (w, Err (Io OtherKind));
  retrieve _ w := (w, Err (Io OtherKind));
  retrieve_for_injection _ w := (w, Err (Io OtherKind));
  delete_secret _ w := (w, Err (Io OtherKind));
  compare_and_swap _ _ _ w := (w, Err (Io OtherKind));
  list_names w := (w, Ok []);
  exists_name _ w := (w, Ok false);
  get_metadata n w := (w, Ok (w n));
  set_metadata _ _ w := (w, Err (Io OtherKind));
  compare_and_swap_metadata_batch _ w := (w, Err (Io OtherKind));
  list_with_metadata w := (w, Ok []);
  store_with_expiry _ _ _ w := (w, Err (Io OtherKind));
  get_validation_metadata _ w := (w, Ok default_validation);
  set_validation_metadata _ _ w := (w, Err (Io OtherKind));
  get_validation_metadata_exact _ w := (w, Ok None);
  compare_and_swap_validation_metadata_batch _ w := (w, Err (Io OtherKind));
|}.

Definition gate_config : PhantomConfig :=
  mk_config {["API_KEY" := mk_override (Some "90d") None true]} None.
Definition gate_table : string → option SecretMetadata := fun n =>
  if String.eqb n "prod/API_KEY" then Some (new_now 1700000000) else None.

Lemma table_reads : metadata_reads (W := string → option SecretMetadata) (fun w => w).
Proof. intros n w w' r H. simpl in H. inversion H; subst. split; [done|]. intros m Hm. by injection Hm. Qed.

Lemma gate_open_exact_witness :
  in_window gate_config gate_table 1707775999 (mk_target "API_KEY" (Some "prod/API_KEY")).
Proof.
  apply (gate_open_exact (W := string → option SecretMetadata) (fun w => w) table_reads gate_config
           (entry_targets ["prod/API_KEY"]) 1707775999 gate_table).
  - exists gate_table. reflexivity.
  - by left.
  - eexists. split; reflexivity.
Defined.
