(* ===== verification/VaultData.v ===== *)
(** * The contents of a vault: [VaultData] of [crates/phantom-vault/src/file.rs]

    Three maps by entry name, what each backend method does to them, and the
    laws of a backend over a view of its state as such contents
    ([VaultLaws]), which is all that transactions are proved against.
    [VaultContract] says of every method of the trait what it answers and what
    it changes; it has the laws ([contract_laws]), and the file vault is shown
    to keep it. *)

From S2P Require Import Prelude Text Ids External StateDir Rotation VaultMeta.

Record VaultData := mk_vault_data {
  vd_secrets : gmap string string;
  vd_metadata : gmap string SecretMetadata;
  vd_validation : gmap string ValidationMetadata;
}.

(** The derived [PartialEq] *)
#[export] Instance VaultData_eq_dec : EqDecision VaultData.
Proof. solve_decision. Defined.

(** [VaultData::default] *)
Definition empty_vault : VaultData := mk_vault_data ∅ ∅ ∅.

(** Metadata only of entries there are *)
Definition vault_wf (v : VaultData) : Prop :=
  ∀ n, vd_secrets v !! n = None → vd_metadata v !! n = None ∧ vd_validation v !! n = None.

(** [VaultData::replace_value] *)
Definition replace_value (name value : string) (v : VaultData) : VaultData :=
  mk_vault_data (<[name := value]> (vd_secrets v)) (vd_metadata v)
    (if bool_decide (vd_secrets v !! name = Some value) then vd_validation v
     else delete name (vd_validation v)).

(** [entry(name).or_insert_with(SecretMetadata::new_now)] *)
Definition stamp_new (now : N) (name : string) (v : VaultData) : VaultData :=
  mk_vault_data (vd_secrets v)
    (match vd_metadata v !! name with
     | Some _ => vd_metadata v
     | None => <[name := new_now now]> (vd_metadata v)
     end) (vd_validation v).

(** What [store], [delete], a matching [compare_and_swap], [set_metadata] and
    [store_with_expiry] do *)
Definition data_store (now : N) (name value : string) (v : VaultData) : VaultData :=
  replace_value name value
    (if bool_decide (is_Some (vd_secrets v !! name)) then v else stamp_new now name v).

Definition data_delete (name : string) (v : VaultData) : VaultData :=
  mk_vault_data (delete name (vd_secrets v)) (delete name (vd_metadata v)) (delete name (vd_validation v)).

Definition data_swap (now : N) (name : string) (replacement : option string) (v : VaultData) : VaultData :=
  match replacement with
  | Some value => data_store now name value v
  | None => data_delete name v
  end.

Definition with_metadata (name : string) (m : option SecretMetadata) (v : VaultData) : VaultData :=
  mk_vault_data (vd_secrets v) (partial_alter (fun _ => m) name (vd_metadata v)) (vd_validation v).

Definition with_validation (name : string) (m : option ValidationMetadata) (v : VaultData) : VaultData :=
  mk_vault_data (vd_secrets v) (vd_metadata v) (partial_alter (fun _ => m) name (vd_validation v)).

Definition data_store_with_expiry (now : N) (name value : string) (days_ttl : N) (v : VaultData) : VaultData :=
  with_metadata name (Some (with_expiry now days_ttl)) (replace_value name value v).

(** The checks of a batch: [Ok true] when every before-image matches *)
Fixpoint check_batch {C M} `{EqDecision M} (name_of : C → string) (expected : C → option M)
    (current : VaultData → gmap string M) (duplicate : string) (seen : list string) (changes : list C)
    (v : VaultData) : result bool PhantomError :=
  match changes with
  | [] => Ok true
  | c :: rest =>
      fail_if (bool_decide (name_of c ∈ seen)) (VaultError duplicate)
      (fail_if (negb (bool_decide (is_Some (vd_secrets v !! name_of c)))) (SecretNotFound (name_of c))
        (if bool_decide (current v !! name_of c = expected c)
         then check_batch name_of expected current duplicate (seen ++ [name_of c]) rest v
         else Ok false))
  end.

Definition check_metadata_batch : list MetadataCas → VaultData → result bool PhantomError :=
  check_batch mc_name mc_expected vd_metadata "metadata CAS batch contains a duplicate secret name" [].

Definition check_validation_batch : list ValidationMetadataCas → VaultData → result bool PhantomError :=
  check_batch vc_name vc_expected vd_validation
    "validation metadata CAS batch contains a duplicate secret name" [].

Definition apply_metadata_batch (changes : list MetadataCas) (v : VaultData) : VaultData :=
  fold_left (fun v c => with_metadata (mc_name c) (mc_replacement c) v) changes v.

Definition apply_validation_batch (changes : list ValidationMetadataCas) (v : VaultData) : VaultData :=
  fold_left (fun v c => with_validation (vc_name c) (vc_replacement c) v) changes v.

(** ** The laws of a backend

    [view] shows the contents in a state, [others] what the backend leaves
    alone.  A method that reports success did what it says; one that fails
    did that or nothing. *)
Class VaultLaws {W} (B : VaultBackend W) (view : W → VaultData) {V} (others : W → V) : Prop := {
  retrieve_law : ∀ n w w' r, retrieve n w = (w', r) →
    view w' = view w ∧ others w' = others w ∧
    (∀ x, r = Ok x → vd_secrets (view w) !! n = Some x) ∧
    (∀ m, r = Err (SecretNotFound m) → vd_secrets (view w) !! n = None);
  exists_law : ∀ n w w' r, exists_name n w = (w', r) →
    view w' = view w ∧ others w' = others w ∧
    (∀ b, r = Ok b → b = bool_decide (is_Some (vd_secrets (view w) !! n)));
  get_metadata_law : ∀ n w w' r, get_metadata n w = (w', r) →
    view w' = view w ∧ others w' = others w ∧ (∀ m, r = Ok m → m = vd_metadata (view w) !! n);
  get_validation_law : ∀ n w w' r, get_validation_metadata_exact n w = (w', r) →
    view w' = view w ∧ others w' = others w ∧ (∀ m, r = Ok m → m = vd_validation (view w) !! n);
  compare_and_swap_law : ∀ n expected replacement w w' r,
    compare_and_swap n expected replacement w = (w', r) →
    others w' = others w ∧
    let done := vd_secrets (view w) !! n = expected ∧
                ∃ now, view w' = data_swap now n replacement (view w) in
    match r with
    | Ok true => done
    | Ok false => view w' = view w
    | Err _ => view w' = view w ∨ done
    end;
  metadata_batch_law : ∀ changes w w' r, compare_and_swap_metadata_batch changes w = (w', r) →
    others w' = others w ∧
    let done := check_metadata_batch changes (view w) = Ok true ∧
                view w' = apply_metadata_batch changes (view w) in
    match r with
    | Ok true => done
    | Ok false => view w' = view w
    | Err _ => view w' = view w ∨ done
    end;
  validation_batch_law : ∀ changes w w' r, compare_and_swap_validation_metadata_batch changes w = (w', r) →
    others w' = others w ∧
    let done := check_validation_batch changes (view w) = Ok true ∧
                view w' = apply_validation_batch changes (view w) in
    match r with
    | Ok true => done
    | Ok false => view w' = view w
    | Err _ => view w' = view w ∨ done
    end;
}.

(** ** The contract of a backend: every method of the trait

    [answer] is what the contents say to a call, a missing entry being an
    answer; a call may fail for other reasons too. *)
Section contract.
Context {W : Type} (view : W → VaultData) {V : Type} (others : W → V).

(** A method that only looks at the contents *)
Definition vault_looks {T} (answer : VaultData → result T PhantomError) (w w' : W)
    (r : result T PhantomError) : Prop :=
  view w' = view w ∧ others w' = others w ∧
  match r with
  | Ok x => answer (view w) = Ok x
  | Err e => ∀ n, e = SecretNotFound n → answer (view w) = Err e
  end.

(** A method that changes them: one that fails made its change or none, and
    none when it says that an entry is missing. *)
Definition vault_changes {T} (answer : VaultData → result T PhantomError) (new : T → VaultData → VaultData → Prop)
    (w w' : W) (r : result T PhantomError) : Prop :=
  others w' = others w ∧
  match r with
  | Ok x => answer (view w) = Ok x ∧ new x (view w) (view w')
  | Err e =>
      (view w' = view w ∨ ∃ x, answer (view w) = Ok x ∧ new x (view w) (view w')) ∧
      ∀ n, e = SecretNotFound n → answer (view w) = Err e ∧ view w' = view w
  end.

Definition entry_there {T} (name : string) (x : T) (d : VaultData) : result T PhantomError :=
  if bool_decide (is_Some (vd_secrets d !! name)) then Ok x else Err (SecretNotFound name).

Definition value_of (name : string) (d : VaultData) : result string PhantomError :=
  ok_or (vd_secrets d !! name) (SecretNotFound name).

Definition names_of (d : VaultData) : list string := btree_collect (elements (dom (vd_secrets d))).

Lemma names_of_elem n d : n ∈ names_of d ↔ is_Some (vd_secrets d !! n).
Proof. unfold names_of. by rewrite btree_collect_elem, elem_of_elements, elem_of_dom. Qed.

Class VaultContract (B : VaultBackend W) : Prop := {
  store_contract : ∀ n x w w' r, store n x w = (w', r) →
    vault_changes (fun _ => Ok tt) (fun _ d d' => ∃ now, d' = data_store now n x d) w w' r;
  store_with_expiry_contract : ∀ n x days w w' r, store_with_expiry n x days w = (w', r) →
    vault_changes (fun _ => Ok tt) (fun _ d d' => ∃ now, d' = data_store_with_expiry now n x days d) w w' r;
  delete_contract : ∀ n w w' r, delete_secret n w = (w', r) →
    vault_changes (entry_there n tt) (fun _ d d' => d' = data_delete n d) w w' r;
  set_metadata_contract : ∀ n m w w' r, set_metadata n m w = (w', r) →
    vault_changes (entry_there n tt) (fun _ d d' => d' = with_metadata n (Some m) d) w w' r;
  set_validation_contract : ∀ n m w w' r, set_validation_metadata n m w = (w', r) →
    vault_changes (entry_there n tt) (fun _ d d' => d' = with_validation n (Some m) d) w w' r;
  compare_and_swap_contract : ∀ n expected replacement w w' r,
    compare_and_swap n expected replacement w = (w', r) →
    vault_changes (fun d => Ok (bool_decide (vd_secrets d !! n = expected)))
      (fun b d d' => if b : bool then ∃ now, d' = data_swap now n replacement d else d' = d) w w' r;
  metadata_batch_contract : ∀ changes w w' r, compare_and_swap_metadata_batch changes w = (w', r) →
    vault_changes (check_metadata_batch changes)
      (fun b d d' => d' = if b : bool then apply_metadata_batch changes d else d) w w' r;
  validation_batch_contract : ∀ changes w w' r, compare_and_swap_validation_metadata_batch changes w = (w', r) →
    vault_changes (check_validation_batch changes)
      (fun b d d' => d' = if b : bool then apply_validation_batch changes d else d) w w' r;
  retrieve_contract : ∀ n w w' r, retrieve n w = (w', r) → vault_looks (value_of n) w w' r;
  injection_contract : ∀ n w w' r, retrieve_for_injection n w = (w', r) →
    vault_looks (fun d => rbind (ensure_secret_injectable n (vd_metadata d !! n)) (fun _ => value_of n d)) w w' r;
  list_contract : ∀ w w' r, list_names w = (w', r) →
    vault_looks (fun d => Ok (names_of d)) w w' r ∧ (∀ names, r = Ok names → ord_sorted names);
  exists_contract : ∀ n w w' r, exists_name n w = (w', r) →
    vault_looks (fun d => Ok (bool_decide (is_Some (vd_secrets d !! n)))) w w' r;
  get_metadata_contract : ∀ n w w' r, get_metadata n w = (w', r) →
    vault_looks (fun d => Ok (vd_metadata d !! n)) w w' r;
  list_with_metadata_contract : ∀ w w' r, list_with_metadata w = (w', r) →
    vault_looks (fun d => Ok (map (fun n => (n, vd_metadata d !! n)) (names_of d))) w w' r;
  get_validation_contract : ∀ n w w' r, get_validation_metadata n w = (w', r) →
    vault_looks (fun d => Ok (default default_validation (vd_validation d !! n))) w w' r;
  get_validation_exact_contract : ∀ n w w' r, get_validation_metadata_exact n w = (w', r) →
    vault_looks (fun d => Ok (vd_validation d !! n)) w w' r;
}.

(** What a swap or a batch did, as the laws of a transaction say it *)
Lemma changes_swap (answer : VaultData → result bool PhantomError) (new : bool → VaultData → VaultData → Prop)
    (done : VaultData → VaultData → Prop) w w' r :
  (∀ d d', answer d = Ok true → new true d d' → done d d') → (∀ d d', new false d d' → d' = d) →
  vault_changes answer new w w' r →
  others w' = others w ∧
  match r with
  | Ok true => done (view w) (view w')
  | Ok false => view w' = view w
  | Err _ => view w' = view w ∨ done (view w) (view w')
  end.
Proof.
  intros Ht Hf [Ho H]. split; [done|]. destruct r as [[]|e].
  - destruct H. by apply Ht.
  - destruct H. by apply Hf.
  - destruct H as [[?|([] & ? & ?)] _]; [by left|right; by apply Ht|left; by eapply Hf].
Qed.

Lemma looks_ok {T} (f : VaultData → T) w w' r :
  vault_looks (fun d => Ok (f d)) w w' r → view w' = view w ∧ others w' = others w ∧ (∀ x, r = Ok x → x = f (view w)).
Proof. intros (? & ? & H). split_and!; [done..|]. intros x ->. by injection H. Qed.

(** A backend that keeps the contract has the laws. *)
Lemma contract_laws (B : VaultBackend W) : VaultContract B → VaultLaws B view others.
Proof.
  intros HC. constructor.
  - intros n w w' r (? & ? & H)%retrieve_contract. unfold value_of in H. split_and!; [done..| |].
    + intros x ->. destruct (vd_secrets (view w) !! n); [|done]. by injection H as ->.
    + intros m ->. specialize (H m eq_refl). by destruct (vd_secrets (view w) !! n).
  - intros n w w' r (? & ? & ?)%exists_contract%looks_ok. done.
  - intros n w w' r (? & ? & ?)%get_metadata_contract%looks_ok. done.
  - intros n w w' r (? & ? & ?)%get_validation_exact_contract%looks_ok. done.
  - intros n e x w w' r H%compare_and_swap_contract.
    apply (changes_swap _ _ (fun d d' => vd_secrets d !! n = e ∧ ∃ now, d' = data_swap now n x d)) in H; [done| |done].
    intros d d' [= E%bool_decide_eq_true]. done.
  - intros l w w' r H%metadata_batch_contract.
    by apply (changes_swap _ _ (fun d d' => check_metadata_batch l d = Ok true ∧ d' = apply_metadata_batch l d)) in H.
  - intros l w w' r H%validation_batch_contract.
    by apply (changes_swap _ _ (fun d d' => check_validation_batch l d = Ok true ∧ d' = apply_validation_batch l d)) in H.
Qed.
End contract.

(** ** Entries *)

(** Two vaults have the same entry [n]: value, metadata and validation. *)
Definition same_entry (n : string) (v v' : VaultData) : Prop :=
  vd_secrets v' !! n = vd_secrets v !! n ∧ vd_metadata v' !! n = vd_metadata v !! n ∧
  vd_validation v' !! n = vd_validation v !! n.

Lemma same_entry_refl n v : same_entry n v v.
Proof. by split_and!. Qed.

Lemma same_entry_trans n u v w : same_entry n u v → same_entry n v w → same_entry n u w.
Proof. unfold same_entry. intros (? & ? & ?) (? & ? & ?). split_and!; congruence. Qed.

Lemma same_entries_eq v v' : (∀ n, same_entry n v v') → v' = v.
Proof.
  intros H. destruct v as [s m x], v' as [s' m' x'].
  f_equal; apply map_eq; intros n; destruct (H n) as (? & ? & ?); done.
Qed.

Lemma swap_value now n r v : vd_secrets (data_swap now n r v) !! n = r.
Proof.
  destruct r as [x|]; cbn; [|by rewrite lookup_delete_eq]. unfold data_store. by rewrite lookup_insert_eq.
Qed.

Lemma swap_other now n r v m : m ≠ n → same_entry m v (data_swap now n r v).
Proof.
  intros Hne. unfold same_entry. destruct r as [x|]; cbn.
  - unfold data_store, replace_value, stamp_new. split_and!.
    + case_bool_decide; cbn; by rewrite lookup_insert_ne.
    + case_bool_decide; cbn; [done|]. destruct (vd_metadata v !! n); [done|]. by rewrite lookup_insert_ne.
    + repeat case_bool_decide; cbn; try done; by rewrite lookup_delete_ne.
  - by rewrite !lookup_delete_ne.
Qed.

(** A swap for the value that is there changes nothing. *)
Lemma swap_same now n x v : vd_secrets v !! n = Some x → same_entry n v (data_swap now n (Some x) v).
Proof.
  intros H. unfold same_entry, data_swap, data_store, replace_value.
  rewrite (bool_decide_true (is_Some (vd_secrets v !! n))) by by eexists. cbn.
  rewrite bool_decide_true by done. by rewrite lookup_insert_eq.
Qed.

(** Creating an entry and deleting it again leaves none. *)
Lemma delete_entry n v : vd_secrets (data_delete n v) !! n = None ∧ vd_metadata (data_delete n v) !! n = None ∧
  vd_validation (data_delete n v) !! n = None.
Proof. cbn. by rewrite !lookup_delete_eq. Qed.

Lemma batch_true {C M} `{EqDecision M} (name_of : C → string) (expected : C → option M) current dup changes v :
  ∀ seen, check_batch name_of expected current dup seen changes v = Ok true →
  NoDup (map name_of changes) ∧ (∀ c, c ∈ changes → name_of c ∉ seen) ∧
  ∀ c, c ∈ changes → is_Some (vd_secrets v !! name_of c) ∧ current v !! name_of c = expected c.
Proof.
  induction changes as [|c changes IH]; intros seen; cbn [check_batch map].
  { intros _. split; [constructor|]. split; intros c Hc; by apply elem_of_nil in Hc. }
  intros (Hs & (He & Hrest)%fail_if_Ok)%fail_if_Ok. apply bool_decide_eq_false in Hs.
  apply negb_false_iff, bool_decide_eq_true in He.
  case_bool_decide as Hm; [|done]. apply IH in Hrest as (Hd & Hnot & Hall). split_and!.
  - constructor; [|done]. intros Hin. change (map name_of changes) with (name_of <$> changes) in Hin.
    apply list_elem_of_fmap in Hin as (c' & Hn & Hc').
    apply (Hnot c' Hc'). rewrite <- Hn. apply elem_of_app. right. by apply list_elem_of_singleton.
  - intros c' [->|Hc']%elem_of_cons; [done|]. intros Hin. apply (Hnot c' Hc'). apply elem_of_app. by left.
  - intros c' [->|Hc']%elem_of_cons; [done|]. by apply Hall.
Qed.

Lemma with_metadata_other n m v k : k ≠ n → same_entry k v (with_metadata n m v).
Proof. intros H. unfold same_entry; cbn. by rewrite lookup_partial_alter_ne. Qed.

Lemma metadata_batch_other changes : ∀ v k,
  k ∉ map mc_name changes → same_entry k v (apply_metadata_batch changes v).
Proof.
  induction changes as [|c changes IH]; intros v k Hk; [apply same_entry_refl|]. cbn in *.
  apply not_elem_of_cons in Hk as [Hne Hk]. eapply same_entry_trans; [by apply with_metadata_other|]. by apply IH.
Qed.

Lemma metadata_batch_rest changes : ∀ v,
  vd_secrets (apply_metadata_batch changes v) = vd_secrets v ∧
  vd_validation (apply_metadata_batch changes v) = vd_validation v.
Proof. induction changes as [|c changes IH]; intros v; [done|]. exact (IH (with_metadata (mc_name c) (mc_replacement c) v)). Qed.

Lemma metadata_batch_in changes : ∀ v c,
  NoDup (map mc_name changes) → c ∈ changes →
  vd_metadata (apply_metadata_batch changes v) !! mc_name c = mc_replacement c.
Proof.
  induction changes as [|c' changes IH]; intros v c Hd Hc; [by apply elem_of_nil in Hc|].
  cbn in Hd. apply NoDup_cons in Hd as [Hn Hd].
  change (apply_metadata_batch (c' :: changes) v) with
    (apply_metadata_batch changes (with_metadata (mc_name c') (mc_replacement c') v)).
  apply elem_of_cons in Hc as [->|Hc]; [|by apply IH].
  destruct (metadata_batch_other changes (with_metadata (mc_name c') (mc_replacement c') v) (mc_name c') Hn)
    as (_ & -> & _). cbn. by rewrite lookup_partial_alter_eq.
Qed.

Lemma validation_batch_one n e r v :
  vd_secrets (apply_validation_batch [mk_validation_cas n e r] v) = vd_secrets v ∧
  vd_metadata (apply_validation_batch [mk_validation_cas n e r] v) = vd_metadata v ∧
  ∀ k, k ≠ n → vd_validation (apply_validation_batch [mk_validation_cas n e r] v) !! k = vd_validation v !! k.
Proof. cbn. split_and!; [done..|]. intros k Hk. by rewrite lookup_partial_alter_ne. Qed.

(** ** Well-formed contents *)

Lemma replace_value_wf n x v :
  (∀ k, k ≠ n → vd_secrets v !! k = None → vd_metadata v !! k = None ∧ vd_validation v !! k = None) →
  vault_wf (replace_value n x v).
Proof.
  intros H k. cbn. destruct (decide (k = n)) as [->|Hne]; [by rewrite lookup_insert_eq|].
  rewrite lookup_insert_ne by done. intros Hk. destruct (H k Hne Hk) as [? ?]. split; [done|].
  case_bool_decide; [done|]. by rewrite lookup_delete_ne.
Qed.

Lemma swap_wf now n r v : vault_wf v → vault_wf (data_swap now n r v).
Proof.
  intros H. destruct r as [x|].
  - apply replace_value_wf. intros k Hne Hk. case_bool_decide; [by apply H|]. cbn in *.
    destruct (H k Hk) as [Hm ?]. split; [|done]. destruct (vd_metadata v !! n); [done|].
    by rewrite lookup_insert_ne.
  - intros k. cbn. destruct (decide (k = n)) as [->|Hne]; [by rewrite !lookup_delete_eq|].
    rewrite !lookup_delete_ne by done. apply H.
Qed.

Lemma metadata_batch_wf changes v :
  check_metadata_batch changes v = Ok true → vault_wf v → vault_wf (apply_metadata_batch changes v).
Proof.
  intros (Hd & _ & Hc)%batch_true H k. destruct (metadata_batch_rest changes v) as [-> ->]. intros Hk.
  destruct (decide (k ∈ map mc_name changes)) as [Hin|Hnin].
  - change (map mc_name changes) with (mc_name <$> changes) in Hin.
    apply list_elem_of_fmap in Hin as (c & -> & Hin). destruct (Hc c Hin) as [[? Hs] _]. congruence.
  - destruct (metadata_batch_other changes v k Hnin) as (_ & -> & _). by apply H.
Qed.
