(* ===== verification/AnchoredFs.v ===== *)
(** * Anchored files: [crates/phantom-core/src/fs/anchored.rs]

    The types of the capability-relative file operations and their interface:
    retained directories ([TrustedAnchor]), files beneath them
    ([AnchoredTarget]), exact replacement and removal, and private
    directories that are removed again only while they are the ones that were
    created.  [AnchoredFsLaws] states what the module documents, over a view
    of the project tree as paths; errors are those that come before any
    effect, and an effect that cannot be proved durable says so. *)

From S2P Require Import Prelude Text Ids External StateDir.

(** ** Paths

    A [Path] is its text; its [components] on Unix. *)

Inductive Component := RootDir | CurDir | ParentDir | Normal (name : string).

#[export] Instance Component_eq_dec : EqDecision Component.
Proof. solve_decision. Defined.

Definition piece_component (leading : bool) (s : string) : option Component :=
  if str_is_empty s then None
  else if String.eqb s "." then (if leading then Some CurDir else None)
  else if String.eqb s ".." then Some ParentDir
  else Some (Normal s).

(** [path.components()]: repeated separators and inner [.] vanish. *)
Definition components (path : string) : list Component :=
  if starts_with "/" path then RootDir :: omap (piece_component false) (split_char "/"%char path)
  else match split_char "/"%char path with
       | [] => []
       | p :: rest => omap (piece_component true) [p] ++ omap (piece_component false) rest
       end.

(** [path.is_absolute()] *)
Definition is_absolute (path : list Component) : bool :=
  match path with RootDir :: _ => true | _ => false end.

(** [path.strip_prefix(base)] *)
Definition strip_path_prefix (base path : list Component) : option (list Component) :=
  if bool_decide (take (length base) path = base) then Some (drop (length base) path) else None.

(** ** Reads and effects *)

Record FileIdentity := mk_identity { fi_volume : N; fi_object : N }.

#[export] Instance FileIdentity_eq_dec : EqDecision FileIdentity.
Proof. solve_decision. Defined.

(** On Unix *)
Record AnchoredFilePermissions := mk_permissions { fp_unix_mode : option N; fp_readonly : bool }.

#[export] Instance AnchoredFilePermissions_eq_dec : EqDecision AnchoredFilePermissions.
Proof. solve_decision. Defined.

(** [AnchoredFilePermissions::private] (0o600) and [executable] (0o755) *)
Definition private_permissions : AnchoredFilePermissions := mk_permissions (Some 384%N) false.
Definition executable_permissions : AnchoredFilePermissions := mk_permissions (Some 493%N) false.

(** [AnchoredFilePermissions::is_executable] *)
Definition is_executable (p : AnchoredFilePermissions) : bool :=
  match fp_unix_mode p with Some mode => negb (N.land mode 73 =? 0)%N | None => false end.

Record AnchoredRead := mk_read {
  ar_bytes : string;
  ar_identity : FileIdentity;
  ar_permissions : AnchoredFilePermissions;
}.

(** [impl PartialEq for AnchoredRead]: bytes, identity and permissions *)
#[export] Instance AnchoredRead_eq_dec : EqDecision AnchoredRead.
Proof. solve_decision. Defined.

Inductive AnchoredEffect (T : Type) :=
  | Durable (value : T)
  | CommittedVerifiedButDurabilityUncertain (value : T)
  | CommittedButUncertain (value : T) (error : ErrorKind).
Arguments Durable {T} _.
Arguments CommittedVerifiedButDurabilityUncertain {T} _.
Arguments CommittedButUncertain {T} _ _.

Definition effect_value {T} (e : AnchoredEffect T) : T :=
  match e with
  | Durable v | CommittedVerifiedButDurabilityUncertain v | CommittedButUncertain v _ => v
  end.

Inductive AnchoredDirectoryCreation (D : Type) :=
  | DirDurable (receipt : D)
  | DirCommittedVerifiedButDurabilityUncertain (receipt : D)
  | DirCommittedButUncertain (receipt : option D) (error : ErrorKind).
Arguments DirDurable {D} _.
Arguments DirCommittedVerifiedButDurabilityUncertain {D} _.
Arguments DirCommittedButUncertain {D} _ _.

(** ** The operations *)

Class AnchoredFs (W : Type) := {
  trusted_anchor : Type;
  anchored_target : Type;
  created_directory : Type;
  (** [open_subdirectory] of one component *)
  open_subdirectory : trusted_anchor → string → io W ErrorKind trusted_anchor;
  create_private_child : trusted_anchor → string →
    io W ErrorKind (AnchoredDirectoryCreation created_directory);
  created_anchor : created_directory → trusted_anchor;
  remove_if_empty_exact : created_directory → io W ErrorKind (AnchoredEffect unit);
  (** [anchor.target] of one component *)
  target_of : trusted_anchor → string → io W ErrorKind anchored_target;
  read_target : anchored_target → io W ErrorKind (option AnchoredRead);
  replace_if_exact_with_permissions : anchored_target → option AnchoredRead → string →
    AnchoredFilePermissions → io W ErrorKind (AnchoredEffect AnchoredRead);
  unlink_if_exact : anchored_target → AnchoredRead → io W ErrorKind (AnchoredEffect unit);
  (** the text of an [io::Error] *)
  io_error_text : ErrorKind → string;
}.

(** What the operations see of the tree below the project: the files, and
    which directories there are.  [V] is what else of the machine a client
    watches; no file operation changes it. *)
Record tree := mk_tree {
  file_at : list string → option AnchoredRead;
  dir_at : list string → bool;
}.

Definition same_tree (t t' : tree) : Prop :=
  (∀ p, file_at t' p = file_at t p) ∧ (∀ p, dir_at t' p = dir_at t p).

(** [t'] is [t] but for the file at [p]. *)
Definition but_file (p : list string) (x : option AnchoredRead) (t t' : tree) : Prop :=
  file_at t' p = x ∧ (∀ q, q ≠ p → file_at t' q = file_at t q) ∧ (∀ q, dir_at t' q = dir_at t q).

(** [t'] is [t] but for the directory [p]. *)
Definition but_dir (p : list string) (x : bool) (t t' : tree) : Prop :=
  dir_at t' p = x ∧ (∀ q, q ≠ p → dir_at t' q = dir_at t q) ∧ (∀ q, file_at t' q = file_at t q).

Class AnchoredFsLaws {W} (F : AnchoredFs W) (view : W → tree) {V} (others : W → V) := {
  anchor_path : trusted_anchor → list string;
  target_path : anchored_target → list string;
  created_path : created_directory → list string;
  created_anchor_path : ∀ c, anchor_path (created_anchor c) = created_path c;
  open_subdirectory_law : ∀ a c w w' r, open_subdirectory a c w = (w', r) →
    same_tree (view w) (view w') ∧ others w' = others w ∧
    (∀ a', r = Ok a' → anchor_path a' = anchor_path a ++ [c]) ∧
    (r = Err NotFound → ∀ p, file_at (view w) (anchor_path a ++ c :: p) = None);
  create_private_child_law : ∀ a c w w' r, create_private_child a c w = (w', r) →
    others w' = others w ∧
    match r with
    | Ok (DirDurable d) | Ok (DirCommittedVerifiedButDurabilityUncertain d)
    | Ok (DirCommittedButUncertain (Some d) _) =>
        created_path d = anchor_path a ++ [c] ∧ dir_at (view w) (created_path d) = false ∧
        but_dir (created_path d) true (view w) (view w')
    | Ok (DirCommittedButUncertain None _) =>
        ∃ x, but_dir (anchor_path a ++ [c]) x (view w) (view w')
    | Err _ => same_tree (view w) (view w')
    end;
  remove_if_empty_exact_law : ∀ d w w' r, remove_if_empty_exact d w = (w', r) →
    others w' = others w ∧
    match r with
    | Ok _ => but_dir (created_path d) false (view w) (view w')
    | Err _ => same_tree (view w) (view w')
    end;
  target_of_law : ∀ a c w w' r, target_of a c w = (w', r) →
    same_tree (view w) (view w') ∧ others w' = others w ∧
    (∀ t, r = Ok t → target_path t = anchor_path a ++ [c]);
  read_target_law : ∀ t w w' r, read_target t w = (w', r) →
    same_tree (view w) (view w') ∧ others w' = others w ∧
    (∀ o, r = Ok o → o = file_at (view w) (target_path t));
  replace_law : ∀ t expected bytes perms w w' r,
    replace_if_exact_with_permissions t expected bytes perms w = (w', r) →
    others w' = others w ∧
    match r with
    | Ok e =>
        file_at (view w) (target_path t) = expected ∧
        ar_bytes (effect_value e) = bytes ∧ ar_permissions (effect_value e) = perms ∧
        but_file (target_path t) (Some (effect_value e)) (view w) (view w')
    | Err _ => same_tree (view w) (view w')
    end;
  unlink_law : ∀ t expected w w' r, unlink_if_exact t expected w = (w', r) →
    others w' = others w ∧
    match r with
    | Ok _ => file_at (view w) (target_path t) = Some expected ∧
              but_file (target_path t) None (view w) (view w')
    | Err _ => same_tree (view w) (view w')
    end;
}.
