(* ===== verification/InitTxn.v ===== *)
(** * Recoverable transactions: [crates/phantom-vault/src/init_transaction.rs]

    [commit_init] changes vault entries and project files together: it
    snapshots every target, writes the files that are not marked
    [commit_last], swaps every entry, checks that copied sources did not move,
    and writes the last files; on any failure it rolls back what it touched.
    The vault is a [VaultBackend], the files an [AnchoredFs], the project
    locks a [ProjectLocks].  The theorems are in [InitTxnSpec]. *)

From S2P Require Import Prelude Text Ids External StateDir Rotation VaultMeta AnchoredFs.

(** ** Plans *)

Record InheritedProtection := mk_protection {
  ip_source_name : string;
  ip_source_metadata : option SecretMetadata;
  ip_inherited : SecretMetadata;
}.

(** [InheritedProtection::from_source] *)
Definition from_source (source_name : string) (source : option SecretMetadata) : InheritedProtection :=
  mk_protection source_name source (default default_metadata source).

Record InitSecret := mk_secret {
  is_name : string;
  is_replacement : option string;
  is_expected_before : option (option string);
  is_inherited_protection : option InheritedProtection;
}.

(** [InitSecret::new], [replace_if_unchanged], [delete_if_unchanged] and
    [inheriting_source_protection] *)
Definition secret_new (name value : string) : InitSecret := mk_secret name (Some value) None None.
Definition secret_replace_if_unchanged (name : string) (expected_before : option string) (value : string)
    : InitSecret := mk_secret name (Some value) (Some expected_before) None.
Definition secret_delete_if_unchanged (name expected_before : string) : InitSecret :=
  mk_secret name None (Some (Some expected_before)) None.
Definition inheriting_source_protection (source_name : string) (source : option SecretMetadata)
    (s : InitSecret) : InitSecret :=
  mk_secret (is_name s) (is_replacement s) (is_expected_before s) (Some (from_source source_name source)).

Record InitFile := mk_file {
  if_path : string;
  if_content : string;
  if_expected_before : option (option string);
  if_expected_identity : option FileIdentity;
  if_expected_permissions : option AnchoredFilePermissions;
  if_executable : bool;
  if_commit_last : bool;
}.

(** [InitFile::replace], [replace_if_unchanged], [replace_if_exact_snapshot],
    [executable] and [commit_last] *)
Definition file_replace (path content : string) : InitFile := mk_file path content None None None false false.
Definition file_replace_if_unchanged (path : string) (expected_before : option string) (content : string)
    : InitFile := mk_file path content (Some expected_before) None None false false.
Definition file_replace_if_exact_snapshot (path : string) (expected_before : option AnchoredRead)
    (content : string) : InitFile :=
  mk_file path content (Some (option_map ar_bytes expected_before)) (option_map ar_identity expected_before)
    (option_map ar_permissions expected_before) false false.
Definition file_executable (executable : bool) (f : InitFile) : InitFile :=
  mk_file (if_path f) (if_content f) (if_expected_before f) (if_expected_identity f)
    (if_expected_permissions f) executable (if_commit_last f).
Definition file_commit_last (f : InitFile) : InitFile :=
  mk_file (if_path f) (if_content f) (if_expected_before f) (if_expected_identity f)
    (if_expected_permissions f) (if_executable f) true.

Record InitReceipt := mk_receipt {
  ir_secret_names : list string;
  ir_file_paths : list string;
  ir_namespace_durability_verified : bool;
}.

Inductive InitTransactionError :=
  | Preflight (target reason : string)
  | ConcurrentChange (target : string)
  | SourceChanged (source_name : string)
  | Commit (target reason : string)
  | SourceChangedDuringCommit (target source_name : string)
  | RollbackIncomplete (target : string).

(** The [Display] of an error *)
Definition init_error_text (e : InitTransactionError) : string :=
  match e with
  | Preflight target reason => ("init preflight failed at " +:+ target +:+ ": " +:+ reason)%string
  | ConcurrentChange target =>
      ("init state changed concurrently at " +:+ target +:+ "; no changes were committed")%string
  | SourceChanged source_name =>
      ("copy source " +:+ source_name +:+ " changed after its value and protection were read (rotated, removed, demoted, or given a new expiry); no copy was committed, retry the copy")%string
  | Commit target reason =>
      ("init commit failed at " +:+ target +:+ ": " +:+ reason +:+ "; all changes were restored")%string
  | SourceChangedDuringCommit target source_name =>
      ("init commit failed at " +:+ target +:+ ": copy source " +:+ source_name +:+ " changed after its value and protection were read (rotated, removed, demoted, or given a new expiry); no copy was committed, retry the copy; all changes were restored")%string
  | RollbackIncomplete target =>
      ("init commit failed at " +:+ target +:+ ", and rollback could not safely restore every target")%string
  end.

(** An [io::Error]: one the system raised, or [io::Error::other] *)
Inductive IoFailure := IoRaised (kind : ErrorKind) | IoOther (message : string).

(** ** Project locks: [transaction_lock.rs], the parts a transaction uses *)

Record ProjectTransactionLock {W} (F : AnchoredFs W) := mk_lock {
  tl_requested_root : string;
  tl_canonical_root : string;
  tl_project_anchor : trusted_anchor;
  tl_project_identity : FileIdentity;
}.
Arguments mk_lock {W F}.
Arguments tl_requested_root {W F}.
Arguments tl_canonical_root {W F}.
Arguments tl_project_anchor {W F}.
Arguments tl_project_identity {W F}.

(** The locks are held until the transaction returns; of a pair the primary
    is given. *)
Class ProjectLocks {W} (F : AnchoredFs W) := {
  acquire_project_transaction_lock : string → io W PhantomError (ProjectTransactionLock F);
  acquire_project_transaction_locks : string → string → io W PhantomError (ProjectTransactionLock F);
}.

Section transaction.
Context {W : Type} `{F : !AnchoredFs W} `{L : !ProjectLocks F}.

(** [relative_project_path] *)
Definition relative_project_path (lock : ProjectTransactionLock F) (path : string)
    : result (list Component) PhantomError :=
  let c := components path in
  if negb (is_absolute c) then Ok c
  else match strip_path_prefix (components (tl_requested_root lock)) c with
  | Some rest => Ok rest
  | None =>
      match strip_path_prefix (components (tl_canonical_root lock)) c with
      | Some rest => Ok rest
      | None => Err (VaultError ("Project payload target " +:+ path
                       +:+ " is outside canonical project root " +:+ tl_canonical_root lock))
      end
  end.

(** ** Snapshots *)

Record SecretSnapshot := mk_secret_snapshot {
  ss_name : string;
  ss_before : option string;
  ss_metadata : option SecretMetadata;
  ss_validation : option ValidationMetadata;
  ss_after : option string;
  ss_inherited_protection : option InheritedProtection;
  ss_touched : bool;
}.

Definition set_secret_touched (b : bool) (s : SecretSnapshot) : SecretSnapshot :=
  mk_secret_snapshot (ss_name s) (ss_before s) (ss_metadata s) (ss_validation s) (ss_after s)
    (ss_inherited_protection s) b.

Record FileSnapshot := mk_file_snapshot {
  fs_path : string;
  fs_target : option anchored_target;
  fs_parent_anchor : option trusted_anchor;
  fs_existing_parent_path : list string;
  fs_missing_parent_paths : list (list string);
  fs_leaf : string;
  fs_before : option AnchoredRead;
  fs_after : string;
  fs_executable : bool;
  fs_commit_last : bool;
  fs_touched : bool;
  fs_committed : option AnchoredRead;
}.

Definition set_target (t : option anchored_target) (s : FileSnapshot) : FileSnapshot :=
  mk_file_snapshot (fs_path s) t (fs_parent_anchor s) (fs_existing_parent_path s)
    (fs_missing_parent_paths s) (fs_leaf s) (fs_before s) (fs_after s) (fs_executable s)
    (fs_commit_last s) (fs_touched s) (fs_committed s).

Definition set_touched (touched : bool) (committed : option AnchoredRead) (s : FileSnapshot) : FileSnapshot :=
  mk_file_snapshot (fs_path s) (fs_target s) (fs_parent_anchor s) (fs_existing_parent_path s)
    (fs_missing_parent_paths s) (fs_leaf s) (fs_before s) (fs_after s) (fs_executable s)
    (fs_commit_last s) touched committed.

(** The created directories by path in [BTreeMap] order, and what was learnt
    of them *)
Record DirState := mk_dir_state {
  ds_created : list (list string * created_directory);
  ds_unresolved : bool;
  ds_durability_verified : bool;
}.

(** [BTreeMap::get] and [insert] *)
Definition created_at (path : list string) (m : list (list string * created_directory))
    : option created_directory :=
  option_map snd (List.find (fun e => bool_decide (e.1 = path)) m).

Fixpoint created_insert (path : list string) (d : created_directory)
    (m : list (list string * created_directory)) : list (list string * created_directory) :=
  match m with
  | [] => [(path, d)]
  | (q, e) :: rest =>
      match ord_cmp path q with
      | Lt => (path, d) :: m
      | Eq => (path, d) :: rest
      | Gt => (q, e) :: created_insert path d rest
      end
  end.

(** The names of a path of normal components *)
Fixpoint normal_names (c : list Component) : option (list string) :=
  match c with
  | [] => Some []
  | Normal n :: rest => names ← normal_names rest; Some (n :: names)
  | _ => None
  end.

(** The paths of [missing] beneath [existing] *)
Fixpoint missing_paths (existing : list string) (missing : list string) : list (list string) :=
  match missing with
  | [] => []
  | c :: rest => (existing ++ [c]) :: missing_paths (existing ++ [c]) rest
  end.

(** The loop over the parents of a target *)
Fixpoint open_parents (root : trusted_anchor) (anchor : option trusted_anchor) (existing : list string)
    (parents : list string) : io W ErrorKind (option trusted_anchor * list string * list (list string)) :=
  match parents with
  | [] => io_ret (anchor, existing, [])
  | c :: rest => fun w =>
      match open_subdirectory (default root anchor) c w with
      | (w1, Ok next) => open_parents root (Some next) (existing ++ [c]) rest w1
      | (w1, Err NotFound) => (w1, Ok (anchor, existing, missing_paths existing (c :: rest)))
      | (w1, Err e) => (w1, Err e)
      end
  end.

(** A computation whose error is reported as another *)
Definition io_map_err {E E' T} (f : E → E') (m : io W E T) : io W E' T := fun w =>
  let '(w1, r) := m w in (w1, map_err f r).

(** [fn snapshot_file] *)
Definition snapshot_file (lock : ProjectTransactionLock F) (file : InitFile)
    : io W InitTransactionError FileSnapshot :=
  let preflight {E} (text : E → string) (e : E) := Preflight (if_path file) (text e) in
  do? relative := io_lift (map_err (preflight (phantom_error_text io_error_text))
                             (relative_project_path lock (if_path file))) in
  do? names := io_lift (ok_or (normal_names relative)
                 (Preflight (if_path file) "project file target must contain only normal relative components")) in
  do? leaf := io_lift (ok_or (last names)
                (Preflight (if_path file) "project file target cannot name the project root")) in
  do? parents := io_map_err (preflight io_error_text)
                   (open_parents (tl_project_anchor lock) None [] (removelast names)) in
  let '(parent_anchor, existing, missing) := parents in
  do? target :=
    match missing with
    | [] => do? t := io_map_err (preflight io_error_text)
                       (target_of (default (tl_project_anchor lock) parent_anchor) leaf) in
            io_ret (Some t)
    | _ => io_ret None
    end in
  do? before :=
    match target with
    | Some t => io_map_err (preflight io_error_text) (read_target t)
    | None => io_ret None
    end in
  io_fail_if
    (match if_expected_before file with
     | Some expected => negb (bool_decide (option_map ar_bytes before = expected))
     | None => false
     end) (ConcurrentChange (if_path file))
  (io_fail_if
    (match if_expected_identity file with
     | Some expected => negb (bool_decide (option_map ar_identity before = Some expected))
     | None => false
     end
     || match if_expected_permissions file with
        | Some expected => negb (bool_decide (option_map ar_permissions before = Some expected))
        | None => false
        end) (ConcurrentChange (if_path file))
  (io_ret (mk_file_snapshot (if_path file) target parent_anchor existing missing leaf before
             (if_content file) (if_executable file) (if_commit_last file) false None))).

(** ** Files *)

(** [fn record_directory_creation] *)
Definition record_directory_creation (path : list string)
    (creation : AnchoredDirectoryCreation created_directory) (d : DirState) : DirState * result unit IoFailure :=
  match creation with
  | DirDurable created =>
      (mk_dir_state (created_insert path created (ds_created d)) (ds_unresolved d) (ds_durability_verified d), Ok tt)
  | DirCommittedVerifiedButDurabilityUncertain created =>
      (mk_dir_state (created_insert path created (ds_created d)) (ds_unresolved d) false, Ok tt)
  | DirCommittedButUncertain (Some created) error =>
      (mk_dir_state (created_insert path created (ds_created d)) (ds_unresolved d) (ds_durability_verified d),
       Err (IoRaised error))
  | DirCommittedButUncertain None error =>
      (mk_dir_state (ds_created d) true (ds_durability_verified d), Err (IoRaised error))
  end.

(** The loop of [create_missing_parents] *)
Fixpoint create_parents (root : trusted_anchor) (s : FileSnapshot) (paths : list (list string))
    (w : W) (d : DirState) : W * DirState * result unit IoFailure :=
  match paths with
  | [] => (w, d, Ok tt)
  | path :: rest =>
      match created_at path (ds_created d) with
      | Some _ => create_parents root s rest w d
      | None =>
          let parent_path := removelast path in
          match last path with
          | None => (w, d, Err (IoOther "planned parent has no directory name"))
          | Some leaf =>
              let anchor :=
                if bool_decide (parent_path = []) then Some root
                else match created_at parent_path (ds_created d) with
                     | Some created => Some (created_anchor created)
                     | None =>
                         if bool_decide (parent_path = fs_existing_parent_path s)
                         then Some (default root (fs_parent_anchor s))
                         else None
                     end in
              match anchor with
              | None => (w, d, Err (IoOther "planned parent capability is unavailable"))
              | Some anchor =>
                  match create_private_child anchor leaf w with
                  | (w1, Err e) => (w1, d, Err (IoRaised e))
                  | (w1, Ok creation) =>
                      match record_directory_creation path creation d with
                      | (d1, Err e) => (w1, d1, Err e)
                      | (d1, Ok _) => create_parents root s rest w1 d1
                      end
                  end
              end
          end
      end
  end.

(** [fn create_missing_parents] *)
Definition create_missing_parents (root : trusted_anchor) (s : FileSnapshot) (w : W) (d : DirState)
    : W * DirState * FileSnapshot * result unit IoFailure :=
  match create_parents root s (fs_missing_parent_paths s) w d with
  | (w1, d1, Err e) => (w1, d1, s, Err e)
  | (w1, d1, Ok _) =>
      match fs_target s with
      | Some _ => (w1, d1, s, Ok tt)
      | None =>
          let anchor :=
            match last (fs_missing_parent_paths s) ≫= (fun p => created_at p (ds_created d1)) with
            | Some created => created_anchor created
            | None => default root (fs_parent_anchor s)
            end in
          match target_of anchor (fs_leaf s) w1 with
          | (w2, Ok t) => (w2, d1, set_target (Some t) s, Ok tt)
          | (w2, Err e) => (w2, d1, s, Err (IoRaised e))
          end
      end
  end.

Definition io_failure_text (e : IoFailure) : string :=
  match e with IoRaised k => io_error_text k | IoOther m => m end.

(** [fn ensure_file_state]; without a target the code would panic. *)
Definition ensure_file_state (s : FileSnapshot) (after : bool) : io W InitTransactionError unit := fun w =>
  let expected := if after then fs_committed s else fs_before s in
  match fs_target s with
  | None => (w, Err (ConcurrentChange (fs_path s)))
  | Some t =>
      match read_target t w with
      | (w1, Ok current) =>
          (w1, if bool_decide (current = expected) then Ok tt else Err (ConcurrentChange (fs_path s)))
      | (w1, Err _) => (w1, Err (ConcurrentChange (fs_path s)))
      end
  end.

(** [fn classify_failed_file_write] *)
Definition classify_failed_file_write (s : FileSnapshot) (w : W) : W * FileSnapshot :=
  match fs_target s with
  | None => (w, s)
  | Some t =>
      match read_target t w with
      | (w1, Ok current) =>
          (w1, if bool_decide (current = fs_before s) then s else set_touched true (fs_committed s) s)
      | (w1, Err _) => (w1, set_touched true (fs_committed s) s)
      end
  end.

(** [trait FileWriter], and [AtomicFileWriter] *)
Definition FileWriter : Type :=
  anchored_target → option AnchoredRead → string → AnchoredFilePermissions →
  io W ErrorKind (AnchoredEffect AnchoredRead).
Definition AtomicFileWriter : FileWriter := replace_if_exact_with_permissions.

(** The permissions of the file that is written *)
Definition write_permissions (s : FileSnapshot) : AnchoredFilePermissions :=
  if fs_executable s then executable_permissions
  else match fs_before s with Some before => ar_permissions before | None => private_permissions end.

(** [fn commit_file] *)
Definition commit_file (root : trusted_anchor) (writer : FileWriter) (s : FileSnapshot) (w : W) (d : DirState)
    : W * DirState * FileSnapshot * result unit (string * string) :=
  match create_missing_parents root s w d with
  | (w1, d1, s1, Err e) => (w1, d1, s1, Err (fs_path s, io_failure_text e))
  | (w1, d1, s1, Ok _) =>
      match ensure_file_state s1 false w1 with
      | (w2, Err e) => (w2, d1, s1, Err (fs_path s, init_error_text e))
      | (w2, Ok _) =>
          match fs_target s1 with
          | None => (w2, d1, s1, Err (fs_path s, init_error_text (ConcurrentChange (fs_path s))))
          | Some target =>
              let finish w3 d2 s2 :=
                match ensure_file_state s2 true w3 with
                | (w4, Ok _) => (w4, d2, s2, Ok tt)
                | (w4, Err e) => (w4, d2, s2, Err (fs_path s, init_error_text e))
                end in
              match writer target (fs_before s1) (fs_after s1) (write_permissions s1) w2 with
              | (w3, Ok (Durable committed)) => finish w3 d1 (set_touched true (Some committed) s1)
              | (w3, Ok (CommittedVerifiedButDurabilityUncertain value)) =>
                  finish w3 (mk_dir_state (ds_created d1) (ds_unresolved d1) false)
                    (set_touched true (Some value) s1)
              | (w3, Ok (CommittedButUncertain value error)) =>
                  (w3, d1, set_touched true (Some value) s1, Err (fs_path s, io_error_text error))
              | (w3, Err error) =>
                  let '(w4, s2) := classify_failed_file_write s1 w3 in
                  (w4, d1, s2, Err (fs_path s, io_error_text error))
              end
          end
      end
  end.

(** One of the two passes over the files: those that are [commit_last], or
    those that are not *)
Fixpoint commit_files (root : trusted_anchor) (writer : FileWriter) (last_pass : bool)
    (files : list FileSnapshot) (w : W) (d : DirState)
    : W * DirState * list FileSnapshot * result unit (string * string) :=
  match files with
  | [] => (w, d, [], Ok tt)
  | s :: rest =>
      if Bool.eqb (fs_commit_last s) last_pass then
        match commit_file root writer s w d with
        | (w1, d1, s1, Err e) => (w1, d1, s1 :: rest, Err e)
        | (w1, d1, s1, Ok _) =>
            let '(w2, d2, rest1, r) := commit_files root writer last_pass rest w1 d1 in
            (w2, d2, s1 :: rest1, r)
        end
      else
        let '(w1, d1, rest1, r) := commit_files root writer last_pass rest w d in
        (w1, d1, s :: rest1, r)
  end.

(** [fn rollback_files], the body of the loop *)
Definition rollback_file (s : FileSnapshot) (w : W) : W * FileSnapshot * bool :=
  match fs_committed s with
  | None => (w, s, false)
  | Some committed =>
      let s1 := set_touched (fs_touched s) None s in
      match fs_target s with
      | None => (w, s1, false)
      | Some target =>
          let '(w1, restored) :=
            match fs_before s with
            | Some before =>
                match replace_if_exact_with_permissions target (Some committed) (ar_bytes before)
                        (ar_permissions before) w with
                | (w1, Ok (Durable _)) | (w1, Ok (CommittedVerifiedButDurabilityUncertain _)) => (w1, true)
                | (w1, _) => (w1, false)
                end
            | None =>
                match unlink_if_exact target committed w with
                | (w1, Ok (Durable _)) | (w1, Ok (CommittedVerifiedButDurabilityUncertain _)) => (w1, true)
                | (w1, _) => (w1, false)
                end
            end in
          if restored then (w1, set_touched false None s, true) else (w1, s1, false)
      end
  end.

(** [fn rollback_files]: the touched files, the last one first *)
Fixpoint rollback_files (files : list FileSnapshot) (w : W) : W * list FileSnapshot * bool :=
  match files with
  | [] => (w, [], true)
  | s :: rest =>
      let '(w1, rest1, ok1) := rollback_files rest w in
      if fs_touched s then
        let '(w2, s1, ok2) := rollback_file s w1 in (w2, s1 :: rest1, ok1 && ok2)
      else (w1, s :: rest1, ok1)
  end.

(** [fn release_file_capabilities] *)
Definition release_file_capabilities (files : list FileSnapshot) : list FileSnapshot :=
  map (fun s => mk_file_snapshot (fs_path s) None None (fs_existing_parent_path s)
                  (fs_missing_parent_paths s) (fs_leaf s) (fs_before s) (fs_after s) (fs_executable s)
                  (fs_commit_last s) (fs_touched s) (fs_committed s)) files.

(** [sort_by_key] with the number of components, which keeps the order of
    equal ones *)
Fixpoint insert_by_depth (e : list string * created_directory)
    (l : list (list string * created_directory)) : list (list string * created_directory) :=
  match l with
  | [] => [e]
  | e' :: rest =>
      if (length e.1 <=? length e'.1)%nat then e :: l else e' :: insert_by_depth e rest
  end.

Definition sort_by_depth (l : list (list string * created_directory))
    : list (list string * created_directory) := foldr insert_by_depth [] l.

(** The loop of [rollback_directories], the deepest first *)
Fixpoint remove_directories (dirs : list (list string * created_directory)) (w : W) : W * bool :=
  match dirs with
  | [] => (w, true)
  | (_, directory) :: rest =>
      let '(w1, ok) :=
        match remove_if_empty_exact directory w with
        | (w1, Ok (Durable _)) | (w1, Ok (CommittedVerifiedButDurabilityUncertain _)) => (w1, true)
        | (w1, _) => (w1, false)
        end in
      let '(w2, ok2) := remove_directories rest w1 in (w2, ok && ok2)
  end.

(** [fn rollback_directories] *)
Definition rollback_directories (d : DirState) (w : W) : W * bool :=
  let '(w1, ok) := remove_directories (rev (sort_by_depth (ds_created d))) w in
  (w1, negb (ds_unresolved d) && ok).

(** ** Vault entries *)

Section vault.
Context `{B : !VaultBackend W}.

(** [enum SourceVault], with [backend] *)
Inductive SourceVault := Destination | Separate (source : VaultBackend W).

Definition source_backend (v : SourceVault) : VaultBackend W :=
  match v with Destination => B | Separate source => source end.

(** [fn preflight_vault] *)
Definition preflight_vault (name : string) (_ : PhantomError) : InitTransactionError :=
  Preflight name "vault snapshot failed".

(** [fn ensure_secret_state] *)
Definition ensure_secret_state (s : SecretSnapshot) (after : bool) : io W InitTransactionError unit := fun w =>
  let expected := if after then ss_after s else ss_before s in
  let compare current w1 :=
    (w1, if bool_decide (current = expected) then Ok tt else Err (ConcurrentChange (ss_name s))) in
  match retrieve (ss_name s) w with
  | (w1, Ok value) => compare (Some value) w1
  | (w1, Err (SecretNotFound _)) => compare None w1
  | (w1, Err _) => (w1, Err (Preflight (ss_name s) "vault state verification failed"))
  end.

(** [fn verify_copy_source] *)
Definition verify_copy_source (sources : VaultBackend W) (protection : InheritedProtection)
    (copied_value : string) : io W InitTransactionError unit :=
  let source_changed := SourceChanged (ip_source_name protection) in
  let read_failed := Preflight (ip_source_name protection) "copy source verification failed" in
  do? value := (fun w =>
    match retrieve (VaultBackend := sources) (ip_source_name protection) w with
    | (w1, Ok value) => (w1, Ok value)
    | (w1, Err (SecretNotFound _)) => (w1, Err source_changed)
    | (w1, Err _) => (w1, Err read_failed)
    end) in
  io_fail_if (negb (String.eqb value copied_value)) source_changed
  (do? metadata := io_map_err (fun _ => read_failed)
                     (get_metadata (VaultBackend := sources) (ip_source_name protection)) in
   io_fail_if (negb (bool_decide (metadata = ip_source_metadata protection))) source_changed
   (io_ret tt)).

(** [fn source_metadata_unchanged] *)
Definition source_metadata_unchanged (sources : VaultBackend W) (protection : InheritedProtection)
    : io W InitTransactionError bool :=
  do? metadata := io_map_err (fun _ => Preflight (ip_source_name protection) "copy source verification failed")
                    (get_metadata (VaultBackend := sources) (ip_source_name protection)) in
  io_ret (bool_decide (metadata = ip_source_metadata protection)).

(** [fn apply_inherited_protection] *)
Definition apply_inherited_protection (source_vault : SourceVault) (name : string)
    (protection : InheritedProtection) : io W InitTransactionError unit :=
  let source_changed := SourceChanged (ip_source_name protection) in
  do? current := io_map_err (fun _ => Preflight name "vault metadata read failed") (get_metadata name) in
  let destination := mk_metadata_cas name current (Some (ip_inherited protection)) in
  let changes :=
    match source_vault with
    | Destination =>
        [destination; mk_metadata_cas (ip_source_name protection) (ip_source_metadata protection)
                        (ip_source_metadata protection)]
    | Separate _ => [destination]
    end in
  do? _ := (fun w =>
    match compare_and_swap_metadata_batch changes w with
    | (w1, Ok true) => (w1, Ok tt)
    | (w1, Ok false) =>
        match source_metadata_unchanged (source_backend source_vault) protection w1 with
        | (w2, Ok true) => (w2, Err (ConcurrentChange name))
        | (w2, _) => (w2, Err source_changed)
        end
    | (w1, Err (SecretNotFound missing)) =>
        (w1, Err (if String.eqb missing (ip_source_name protection) then source_changed
                  else Preflight name "inherited source metadata could not be written"))
    | (w1, Err _) => (w1, Err (Preflight name "inherited source metadata could not be written"))
    end) in
  match source_vault with
  | Separate _ =>
      do? unchanged := source_metadata_unchanged (source_backend source_vault) protection in
      io_fail_if (negb unchanged) source_changed (io_ret tt)
  | Destination => io_ret tt
  end.

(** [fn value_changed] *)
Definition value_changed (s : SecretSnapshot) : bool := negb (bool_decide (ss_before s = ss_after s)).

(** [fn ensure_secret_metadata] *)
Definition ensure_secret_metadata (s : SecretSnapshot) (after : bool) : io W InitTransactionError unit :=
  let name := ss_name s in
  let read_metadata := io_map_err (fun _ => Preflight name "vault metadata verification failed")
                         (get_metadata name) in
  let read_validation := io_map_err (fun _ => Preflight name "vault validation metadata verification failed")
                           (get_validation_metadata_exact name) in
  if after && negb (bool_decide (is_Some (ss_after s))) then
    do? metadata := read_metadata in
    do? validation := read_validation in
    io_fail_if (negb (bool_decide (metadata = None) && bool_decide (validation = None)))
      (ConcurrentChange name) (io_ret tt)
  else if negb (bool_decide (is_Some (ss_before s))) then io_ret tt
  else
    let expected_validation := if after && value_changed s then None else ss_validation s in
    do? metadata := read_metadata in
    do? validation := read_validation in
    io_fail_if (negb (bool_decide (metadata = ss_metadata s) && bool_decide (validation = expected_validation)))
      (ConcurrentChange name) (io_ret tt).

(** [fn commit_failure], with the source it remembers *)
Definition commit_failure (target : string) (error : InitTransactionError) (changed : option string)
    : option string * (string * string) :=
  (match error with SourceChanged source_name => Some source_name | _ => changed end,
   (target, init_error_text error)).

(** One round of the loop over the entries *)
Definition commit_secret (source_vault : SourceVault) (s : SecretSnapshot) (changed : option string)
    (w : W) : W * SecretSnapshot * option string * result unit (string * string) :=
  let name := ss_name s in
  match compare_and_swap name (ss_before s) (ss_after s) w with
  | (w1, Ok false) => (w1, s, changed, Err (name, init_error_text (ConcurrentChange name)))
  | (w1, Err _) =>
      let '(w2, r_after) := ensure_secret_state s true w1 in
      let '(w3, r_before) := ensure_secret_state s false w2 in
      let current_is_after := match r_after with Ok _ => true | Err _ => false end in
      let current_is_before := match r_before with Ok _ => true | Err _ => false end in
      (w3, set_secret_touched (current_is_after || negb current_is_before) s, changed,
       Err (name, "atomic vault compare-and-swap failed"))
  | (w1, Ok true) =>
      let s := set_secret_touched true s in
      match ensure_secret_state s true w1 with
      | (w2, Err e) => (w2, s, changed, Err (name, init_error_text e))
      | (w2, Ok _) =>
          match (match ss_inherited_protection s with
                 | Some protection => apply_inherited_protection source_vault name protection w2
                 | None => (w2, Ok tt)
                 end) with
          | (w3, Err e) =>
              let '(changed, failure) := commit_failure name e changed in (w3, s, changed, Err failure)
          | (w3, Ok _) =>
              match ensure_secret_metadata s true w3 with
              | (w4, Err e) => (w4, s, changed, Err (name, init_error_text e))
              | (w4, Ok _) => (w4, s, changed, Ok tt)
              end
          end
      end
  end.

Fixpoint commit_secrets (source_vault : SourceVault) (secrets : list SecretSnapshot)
    (changed : option string) (w : W)
    : W * list SecretSnapshot * option string * result unit (string * string) :=
  match secrets with
  | [] => (w, [], changed, Ok tt)
  | s :: rest =>
      match commit_secret source_vault s changed w with
      | (w1, s1, c1, Err e) => (w1, s1 :: rest, c1, Err e)
      | (w1, s1, c1, Ok _) =>
          let '(w2, rest1, c2, r) := commit_secrets source_vault rest c1 w1 in
          (w2, s1 :: rest1, c2, r)
      end
  end.

(** The loop that checks the copied sources once more *)
Fixpoint verify_sources (source_vault : SourceVault) (secrets : list SecretSnapshot) (changed : option string)
    (w : W) : W * option string * result unit (string * string) :=
  match secrets with
  | [] => (w, changed, Ok tt)
  | s :: rest =>
      match ss_inherited_protection s, ss_after s with
      | Some protection, Some value =>
          match verify_copy_source (source_backend source_vault) protection value w with
          | (w1, Ok _) => verify_sources source_vault rest changed w1
          | (w1, Err e) =>
              let '(changed, failure) := commit_failure (ss_name s) e changed in (w1, changed, Err failure)
          end
      | _, _ => verify_sources source_vault rest changed w
      end
  end.

(** What the commit closure leaves *)
Record forward := mk_forward {
  fw_world : W;
  fw_dirs : DirState;
  fw_files : list FileSnapshot;
  fw_secrets : list SecretSnapshot;
  fw_changed : option string;
  fw_result : result unit (string * string);
}.

(** The closure [commit_result] *)
Definition commit_forward (root : trusted_anchor) (writer : FileWriter) (source_vault : SourceVault)
    (files : list FileSnapshot) (secrets : list SecretSnapshot) (d : DirState) (w : W) : forward :=
  match commit_files root writer false files w d with
  | (w1, d1, files1, Err e) => mk_forward w1 d1 files1 secrets None (Err e)
  | (w1, d1, files1, Ok _) =>
      match commit_secrets source_vault secrets None w1 with
      | (w2, secrets1, c1, Err e) => mk_forward w2 d1 files1 secrets1 c1 (Err e)
      | (w2, secrets1, c1, Ok _) =>
          match verify_sources source_vault secrets1 c1 w2 with
          | (w3, c2, Err e) => mk_forward w3 d1 files1 secrets1 c2 (Err e)
          | (w3, c2, Ok _) =>
              let '(w4, d2, files2, r) := commit_files root writer true files1 w3 d1 in
              mk_forward w4 d2 files2 secrets1 c2 r
          end
      end
  end.

(** [fn restore_validation]; an error of a read means not restored *)
Definition restore_validation (s : SecretSnapshot) (w : W) : W * bool :=
  match get_validation_metadata_exact (ss_name s) w with
  | (w1, Err _) => (w1, false)
  | (w1, Ok current) =>
      if bool_decide (current = ss_validation s) then (w1, true)
      else match compare_and_swap_validation_metadata (ss_name s) current (ss_validation s) w1 with
           | (w2, Ok true) => (w2, true)
           | (w2, _) => (w2, false)
           end
  end.

(** [fn restore_deleted_metadata] *)
Definition restore_deleted_metadata (s : SecretSnapshot) (w : W) : W * bool :=
  match get_metadata (ss_name s) w with
  | (w1, Err _) => (w1, false)
  | (w1, Ok current) =>
      match compare_and_swap_metadata (ss_name s) current (ss_metadata s) w1 with
      | (w2, Ok true) => restore_validation s w2
      | (w2, _) => (w2, false)
      end
  end.

(** [fn rollback_secrets], the body of the loop *)
Definition rollback_secret (s : SecretSnapshot) (w : W) : W * SecretSnapshot * bool :=
  let '(w1, metadata_restored) :=
    match compare_and_swap (ss_name s) (ss_after s) (ss_before s) w with
    | (w1, Ok true) =>
        if negb (bool_decide (is_Some (ss_after s))) then restore_deleted_metadata s w1
        else if bool_decide (is_Some (ss_before s)) && value_changed s then restore_validation s w1
        else (w1, true)
    | (w1, _) => (w1, false)
    end in
  if negb metadata_restored then (w1, s, false)
  else if bool_decide (is_Some (ss_before s)) then
    match ensure_secret_metadata s false w1 with
    | (w2, Ok _) => (w2, set_secret_touched false s, true)
    | (w2, Err _) => (w2, s, false)
    end
  else (w1, set_secret_touched false s, true).

(** [fn rollback_secrets]: the touched entries, the last one first *)
Fixpoint rollback_secrets (secrets : list SecretSnapshot) (w : W)
    : W * list SecretSnapshot * bool :=
  match secrets with
  | [] => (w, [], true)
  | s :: rest =>
      let '(w1, rest1, ok1) := rollback_secrets rest w in
      if ss_touched s then
        let '(w2, s1, ok2) := rollback_secret s w1 in (w2, s1 :: rest1, ok1 && ok2)
      else (w1, s :: rest1, ok1)
  end.

(** ** The transaction *)

(** The checks of the plan before anything is read *)
Fixpoint check_names (names : list string) (secrets : list InitSecret)
    : result (list string) InitTransactionError :=
  match secrets with
  | [] => Ok names
  | s :: rest =>
      fail_if (str_is_empty (is_name s) || bool_decide (is_name s ∈ names))
        (Preflight (is_name s) "secret names must be non-empty and unique")
        (check_names (names ++ [is_name s]) rest)
  end.

Fixpoint check_sources (names : list string) (secrets : list InitSecret) : result unit InitTransactionError :=
  match secrets with
  | [] => Ok tt
  | s :: rest =>
      fail_if (match is_inherited_protection s with
               | Some p => str_is_empty (ip_source_name p) || bool_decide (ip_source_name p ∈ names)
               | None => false
               end)
        (Preflight (is_name s) "a copy source must be a distinct entry this transaction does not write")
        (check_sources names rest)
  end.

Fixpoint check_paths (lock : ProjectTransactionLock F) (paths : list (list Component)) (files : list InitFile)
    : result unit InitTransactionError :=
  match files with
  | [] => Ok tt
  | f :: rest =>
      let? relative := map_err (fun e => Preflight (if_path f) (phantom_error_text io_error_text e))
                         (relative_project_path lock (if_path f)) in
      fail_if (bool_decide (relative ∈ paths)) (Preflight (if_path f) "file targets must be unique")
        (check_paths lock (paths ++ [relative]) rest)
  end.

Fixpoint snapshot_files (lock : ProjectTransactionLock F) (files : list InitFile)
    : io W InitTransactionError (list FileSnapshot) :=
  match files with
  | [] => io_ret []
  | f :: rest =>
      do? s := snapshot_file lock f in
      do? ss := snapshot_files lock rest in
      io_ret (s :: ss)
  end.

(** One round of the loop that snapshots the entries *)
Definition snapshot_secret (source_vault : SourceVault) (secret : InitSecret)
    : io W InitTransactionError SecretSnapshot :=
  let name := is_name secret in
  do? existed := io_map_err (preflight_vault name) (exists_name name) in
  do? before := (if existed
                 then do? v := io_map_err (preflight_vault name) (retrieve name) in io_ret (Some v)
                 else io_ret None) in
  io_fail_if
    (match is_expected_before secret with
     | Some expected => negb (bool_decide (before = expected))
     | None => false
     end) (ConcurrentChange name)
  (io_fail_if
    (bool_decide (is_Some (is_inherited_protection secret))
     && (bool_decide (is_Some before) || negb (bool_decide (is_Some (is_replacement secret)))))
    (Preflight name "inherited source metadata applies only to a newly created entry")
  (do? _ := match is_inherited_protection secret, is_replacement secret with
            | Some protection, Some value => verify_copy_source (source_backend source_vault) protection value
            | _, _ => io_ret tt
            end in
   do? metadata := io_map_err (preflight_vault name) (get_metadata name) in
   do? validation := io_map_err (preflight_vault name) (get_validation_metadata_exact name) in
   io_ret (mk_secret_snapshot name before metadata validation (is_replacement secret)
             (is_inherited_protection secret) false))).

Fixpoint snapshot_secrets (source_vault : SourceVault) (secrets : list InitSecret)
    : io W InitTransactionError (list SecretSnapshot) :=
  match secrets with
  | [] => io_ret []
  | s :: rest =>
      do? snap := snapshot_secret source_vault s in
      do? snaps := snapshot_secrets source_vault rest in
      io_ret (snap :: snaps)
  end.

(** The commit, and the rollback when it fails *)
Definition commit_or_roll_back (root : trusted_anchor) (writer : FileWriter)
    (source_vault : SourceVault) (files : list FileSnapshot) (secrets : list SecretSnapshot)
    : io W InitTransactionError InitReceipt := fun w =>
  let f := commit_forward root writer source_vault files secrets (mk_dir_state [] false true) w in
  match fw_result f with
  | Ok _ =>
      (fw_world f, Ok (mk_receipt (map ss_name (fw_secrets f)) (map fs_path (fw_files f))
                         (ds_durability_verified (fw_dirs f))))
  | Err (target, reason) =>
      let '(w1, _, files_ok) := rollback_files (fw_files f) (fw_world f) in
      let '(w2, directories_ok) := rollback_directories (fw_dirs f) w1 in
      let '(w3, _, vault_ok) := rollback_secrets (fw_secrets f) w2 in
      (w3, Err (if files_ok && directories_ok && vault_ok then
                  match fw_changed f with
                  | Some source_name => SourceChangedDuringCommit target source_name
                  | None => Commit target reason
                  end
                else RollbackIncomplete target))
  end.

(** [struct CopySource] *)
Record CopySource := mk_copy_source { cs_project_dir : string; cs_vault : VaultBackend W }.

(** [fn commit_init_with_identity] *)
Definition commit_init_with_identity (project_dir : string)
    (reviewed_project_identity : option FileIdentity) (copy_source : option CopySource)
    (secrets : list InitSecret) (files : list InitFile) (writer : FileWriter)
    : io W InitTransactionError InitReceipt :=
  do? lock := io_map_err
    (fun e => Preflight project_dir
       ("could not acquire project transaction lock: " +:+ phantom_error_text io_error_text e))
    (match copy_source with
     | Some source => acquire_project_transaction_locks project_dir (cs_project_dir source)
     | None => acquire_project_transaction_lock project_dir
     end) in
  io_fail_if
    (match reviewed_project_identity with
     | Some identity => negb (bool_decide (tl_project_identity lock = identity))
     | None => false
     end)
    (Preflight project_dir "project root identity changed after initialization review")
  (let source_vault := match copy_source with Some source => Separate (cs_vault source) | None => Destination end in
   do? names := io_lift (check_names [] secrets) in
   do? _ := (match source_vault with
             | Destination => io_lift (check_sources names secrets)
             | Separate _ => io_ret tt
             end) in
   do? _ := io_lift (check_paths lock [] files) in
   do? file_snapshots := snapshot_files lock files in
   do? secret_snapshots := snapshot_secrets source_vault secrets in
   commit_or_roll_back (tl_project_anchor lock) writer source_vault file_snapshots secret_snapshots).

(** [commit_init_with], [commit_init], [commit_init_with_source_vault] and
    [commit_init_if_project_identity] *)
Definition commit_init_with (project_dir : string) (secrets : list InitSecret)
    (files : list InitFile) (writer : FileWriter) : io W InitTransactionError InitReceipt :=
  commit_init_with_identity project_dir None None secrets files writer.

Definition commit_init (project_dir : string) (secrets : list InitSecret) (files : list InitFile)
    : io W InitTransactionError InitReceipt :=
  commit_init_with project_dir secrets files AtomicFileWriter.

Definition commit_init_with_source_vault (project_dir source_project_dir : string)
    (source_vault : VaultBackend W) (secrets : list InitSecret) (files : list InitFile)
    : io W InitTransactionError InitReceipt :=
  commit_init_with_identity project_dir None (Some (mk_copy_source source_project_dir source_vault))
    secrets files AtomicFileWriter.

Definition commit_init_if_project_identity (project_dir : string)
    (reviewed_project_identity : FileIdentity) (secrets : list InitSecret) (files : list InitFile)
    : io W InitTransactionError InitReceipt :=
  commit_init_with_identity project_dir (Some reviewed_project_identity) None secrets files AtomicFileWriter.
End vault.
End transaction.
