(* ===== verification/InitTxnFiles.v ===== *)
(** * Transactions: the files and directories

    What writing the files of a plan and rolling them back do to the project
    tree: every path that is no longer what it was belongs to a touched
    snapshot or a created directory, and a rollback that reports success has
    put all of them back. *)

From S2P Require Import Prelude Text Ids External StateDir Rotation VaultMeta VaultData AnchoredFs InitTxn.

(** Bytes and permissions: what a rollback restores of a file (the file
    itself is a new one) *)
Definition file_content (x : option AnchoredRead) : option (string * AnchoredFilePermissions) :=
  option_map (fun r => (ar_bytes r, ar_permissions r)) x.

Section files.
Context {W : Type} `{F : !AnchoredFs W} (tview : W → tree) {V : Type} (others : W → V).
Context `{FL : !AnchoredFsLaws F tview others}.
Context (root : trusted_anchor) (Hroot : anchor_path root = []) (t0 : tree).

(** ** Snapshots of files *)

(** [s] is a snapshot, taken of the tree [t0], of the file at [p]. *)
Record file_ok (p : list string) (s : FileSnapshot) : Prop := {
  fo_leaf : last p = Some (fs_leaf s);
  fo_target : ∀ t, fs_target s = Some t → target_path t = p;
  fo_anchor : ∀ a, fs_parent_anchor s = Some a → anchor_path a = fs_existing_parent_path s;
  fo_no_anchor : fs_parent_anchor s = None → fs_existing_parent_path s = [];
  fo_missing : ∃ rest, removelast p = fs_existing_parent_path s ++ rest ∧
    fs_missing_parent_paths s = missing_paths (fs_existing_parent_path s) rest;
  fo_before : fs_before s = file_at t0 p;
}.

Lemma file_ok_path p s : file_ok p s → p = removelast p ++ [fs_leaf s].
Proof.
  intros H. pose proof (fo_leaf _ _ H) as Hl. destruct p as [|c p] using rev_ind; [done|].
  rewrite last_snoc in Hl. injection Hl as ->. by rewrite removelast_last.
Qed.

(** Targets and touched marks do not matter. *)
Lemma file_ok_set_target p s t : file_ok p s → target_path t = p → file_ok p (set_target (Some t) s).
Proof. intros [] Ht. constructor; cbn; try done. by intros ? [= <-]. Qed.

Lemma file_ok_set_touched p s b c : file_ok p s → file_ok p (set_touched b c s).
Proof. intros []. by constructor. Qed.

(** ** Created directories *)

Definition keys (m : list (list string * created_directory)) : list (list string) := map fst m.

Lemma created_insert_elem p c m e :
  e ∈ created_insert p c m → e = (p, c) ∨ e ∈ m.
Proof.
  induction m as [|[q d] m IH]; cbn [created_insert].
  - intros [->|H]%elem_of_cons; [by left|by apply elem_of_nil in H].
  - destruct (ord_cmp p q); intros [->|H]%elem_of_cons; rewrite ?elem_of_cons in *; naive_solver.
Qed.

Lemma created_insert_keys p c m q : q ∈ keys (created_insert p c m) ↔ q = p ∨ q ∈ keys m.
Proof.
  unfold keys. induction m as [|[q' d] m IH]; cbn [created_insert map fst].
  - rewrite elem_of_cons. set_solver.
  - destruct (ord_cmp p q') eqn:E; cbn [map fst]; rewrite !elem_of_cons.
    + apply ord_cmp_eq in E as ->. naive_solver.
    + naive_solver.
    + rewrite IH. naive_solver.
Qed.

Lemma created_at_elem p m c : created_at p m = Some c → (p, c) ∈ m.
Proof.
  unfold created_at. destruct (List.find _ m) as [[q d]|] eqn:E; [|done]. cbn. intros [= ->].
  apply find_some in E as [Hin Hb]. apply bool_decide_eq_true in Hb. cbn in Hb. subst q.
  by apply list_elem_of_In.
Qed.

Lemma created_at_None p m : created_at p m = None → p ∉ keys m.
Proof.
  unfold created_at, keys. induction m as [|[q d] m IH]; cbn; [by intros _ ?%elem_of_nil|].
  case_bool_decide as E; [done|]. intros H. apply not_elem_of_cons. split; [congruence|by apply IH].
Qed.

Lemma created_at_keys p m : p ∈ keys m → is_Some (created_at p m).
Proof. intros H. destruct (created_at p m) eqn:E; [by eexists|]. by apply created_at_None in E. Qed.

(** A directory that is not as it was was created and is remembered, unless
    one could not be accounted for. *)
Definition dirs_ok (d : DirState) (t : tree) : Prop :=
  (∀ p c, (p, c) ∈ ds_created d → created_path c = p ∧ dir_at t0 p = false) ∧
  (∀ q, q ∉ keys (ds_created d) → dir_at t q = dir_at t0 q).

Definition dirs_good (d : DirState) (t : tree) : Prop := ds_unresolved d = true ∨ dirs_ok d t.

Lemma dirs_ok_same d t t' : (∀ q, dir_at t' q = dir_at t q) → dirs_ok d t → dirs_ok d t'.
Proof. intros Hq [H1 H2]. split; [done|]. intros q Hn. rewrite Hq. by apply H2. Qed.

Lemma dirs_good_same d t t' : (∀ q, dir_at t' q = dir_at t q) → dirs_good d t → dirs_good d t'.
Proof. intros Hq [Hu|H]; [by left|right]. by eapply dirs_ok_same. Qed.

Lemma dirs_ok_insert d t t' c u b :
  dirs_ok d t → created_at (created_path c) (ds_created d) = None → dir_at t (created_path c) = false →
  but_dir (created_path c) true t t' →
  dirs_ok (mk_dir_state (created_insert (created_path c) c (ds_created d)) u b) t'.
Proof.
  intros [H1 H2] Hn%created_at_None Hf (_ & Ho & _). split; cbn.
  - intros p e [[= -> ->]|Hin]%created_insert_elem; [|by apply H1]. split; [done|].
    by rewrite <- H2.
  - intros q Hq. rewrite created_insert_keys in Hq. rewrite Ho by naive_solver. apply H2; naive_solver.
Qed.

(** Creating the planned parents *)
Lemma create_parents_spec p s paths : ∀ w d w' d' r,
  create_parents root s paths w d = (w', d', r) →
  file_ok p s → ds_unresolved d = false → dirs_ok d (tview w) →
  (∀ q, file_at (tview w') q = file_at (tview w) q) ∧ others w' = others w ∧ dirs_good d' (tview w') ∧
  (r = Ok tt → ds_unresolved d' = false ∧ (∀ q, q ∈ paths → q ∈ keys (ds_created d'))) ∧
  (∀ q, q ∈ keys (ds_created d) → q ∈ keys (ds_created d')).
Proof.
  induction paths as [|path paths IH]; intros w d w' d' r H Hs Hu Hd; cbn [create_parents] in H.
  { injection H as <- <- <-. split_and!; [done..|by right| |done]. intros _. split; [done|].
    by intros q ?%elem_of_nil. }
  destruct (created_at path (ds_created d)) as [c|] eqn:Hc.
  { apply IH in H as (Hf & Ho & Hg & Hr & Hk); [|done..]. split_and!; [done..| |done].
    intros E. destruct (Hr E) as [Hu' Hin]. split; [done|]. intros q [->|Hq]%elem_of_cons; [|by apply Hin].
    apply Hk. apply created_at_elem in Hc. unfold keys. change (map fst ?m) with (fst <$> m).
    by apply (list_elem_of_fmap_2 fst _ (path, c)). }
  destruct (last path) as [leaf|] eqn:Hleaf.
  2:{ injection H as <- <- <-. by split_and!; [..|right| |]. }
  assert (path = removelast path ++ [leaf]) as Hpath.
  { destruct path as [|x path] using rev_ind; [done|]. rewrite last_snoc in Hleaf. injection Hleaf as ->.
    by rewrite removelast_last. }
  match type of H with context [match ?a with Some _ => _ | None => (w, d, Err _) end] =>
    destruct a as [anchor|] eqn:Ha end.
  2:{ injection H as <- <- <-. by split_and!; [..|right| |]. }
  assert (anchor_path anchor = removelast path) as Hanchor.
  { case_bool_decide as E; [injection Ha as <-; by rewrite E|].
    destruct (created_at (removelast path) (ds_created d)) as [c|] eqn:Hc'.
    - injection Ha as <-. rewrite created_anchor_path. apply created_at_elem in Hc'. by apply Hd in Hc' as [-> _].
    - case_bool_decide as E'; [|done]. injection Ha as <-. destruct (fs_parent_anchor s) as [a|] eqn:Hpa; cbn.
      + rewrite E'. by apply (fo_anchor _ _ Hs).
      + rewrite Hroot, E'. symmetry. by apply (fo_no_anchor _ _ Hs). }
  destruct (create_private_child anchor leaf w) as [w1 [creation|e]] eqn:Hcr;
    apply create_private_child_law in Hcr as [Ho1 Hcr];
    rewrite ?Hanchor, <- ?Hpath in Hcr.
  2:{ injection H as <- <- <-. destruct Hcr as [Hf1 Hd1]. split_and!; [done..| |done|done]. right.
      by eapply dirs_ok_same. }
  destruct creation as [c|c|[c|] error]; cbn [record_directory_creation] in H.
  1-2: destruct Hcr as (Hp & Hfree & Hbut); rewrite <- Hp in H, Hc;
    apply IH in H as (Hf & Ho & Hg & Hr & Hk); [|done|done|by eapply dirs_ok_insert];
    destruct Hbut as (_ & _ & Hf1); (split_and!;
      [intros q; by rewrite Hf, Hf1|by rewrite Ho|done| |intros q Hq; apply Hk; cbn; rewrite created_insert_keys; by right]);
    intros E; destruct (Hr E) as [Hu' Hin]; (split; [done|]); intros q [->|Hq]%elem_of_cons; [|by apply Hin];
    apply Hk; cbn; rewrite created_insert_keys; by left.
  - destruct Hcr as (Hp & Hfree & Hbut). injection H as <- <- <-. rewrite <- Hp in *.
    split_and!; [by apply Hbut|done| |done|intros q Hq; cbn; rewrite created_insert_keys; by right].
    right. by eapply dirs_ok_insert.
  - destruct Hcr as (x & Hbut). injection H as <- <- <-. split_and!; [by apply Hbut|done|by left|done|done].
Qed.

(** ** Writing a file *)

Lemma last_missing existing rest :
  rest ≠ [] → last (missing_paths existing rest) = Some (existing ++ rest).
Proof.
  revert existing. induction rest as [|c rest IH]; intros existing H; [done|]. cbn [missing_paths].
  destruct rest as [|c' rest]; [done|]. rewrite last_cons. rewrite IH by done. by rewrite <- app_assoc.
Qed.

Lemma create_missing_spec p s w d w' d' s' r :
  create_missing_parents root s w d = (w', d', s', r) →
  file_ok p s → ds_unresolved d = false → dirs_ok d (tview w) →
  (∀ q, file_at (tview w') q = file_at (tview w) q) ∧ others w' = others w ∧ dirs_good d' (tview w') ∧
  file_ok p s' ∧ (s' = s ∨ ∃ t, s' = set_target (Some t) s) ∧
  (r = Ok tt → ds_unresolved d' = false ∧ ∃ t, fs_target s' = Some t ∧ target_path t = p).
Proof.
  unfold create_missing_parents. intros H Hs Hu Hd.
  destruct (create_parents root s (fs_missing_parent_paths s) w d) as [[w1 d1] r1] eqn:Hc.
  destruct (create_parents_spec _ _ _ _ _ _ _ _ Hc Hs Hu Hd) as (Hf & Ho & Hg & Hr & Hk).
  destruct r1 as [[]|e]; [|injection H as <- <- <- <-; split_and!; [done..|by left|done]].
  destruct (Hr eq_refl) as [Hu1 Hin]. clear Hr.
  destruct (fs_target s) as [t|] eqn:Ht.
  { injection H as <- <- <- <-. split_and!; [done..|by left|]. intros _. split; [done|]. exists t. split; [done|].
    by apply (fo_target _ _ Hs). }
  assert (dirs_ok d1 (tview w1)) as Hd1 by (destruct Hg; [congruence|done]).
  match type of H with context [target_of ?a _ _] => set (anchor := a) in H end.
  assert (anchor_path anchor = removelast p) as Ha.
  { subst anchor. destruct (fo_missing _ _ Hs) as (rest & Hrest & Hm). rewrite Hm in *. rewrite Hrest.
    destruct rest as [|c rest].
    - cbn. rewrite app_nil_r. destruct (fs_parent_anchor s) as [a|] eqn:Hpa; cbn.
      + by apply (fo_anchor _ _ Hs).
      + rewrite Hroot. symmetry. by apply (fo_no_anchor _ _ Hs).
    - rewrite last_missing by done. cbn [mbind option_bind].
      destruct (created_at_keys (fs_existing_parent_path s ++ c :: rest) (ds_created d1)) as [x Hx].
      { apply Hin. apply last_Some_elem_of. by apply last_missing. }
      rewrite Hx. rewrite created_anchor_path. apply created_at_elem in Hx. by apply Hd1 in Hx as [-> _]. }
  destruct (target_of anchor (fs_leaf s) w1) as [w2 [t|e]] eqn:Hto;
    apply target_of_law in Hto as ([Hf2 Hd2] & Ho2 & Ht2); injection H as <- <- <- <-.
  - specialize (Ht2 t eq_refl). rewrite Ha, <- (file_ok_path _ _ Hs) in Ht2.
    split_and!; [intros q; by rewrite Hf2|by rewrite Ho2|by eapply dirs_good_same|by apply file_ok_set_target|
      right; by eexists|]. intros _. split; [done|]. by exists t.
  - split_and!; [intros q; by rewrite Hf2|by rewrite Ho2|by eapply dirs_good_same|done|by left|done].
Qed.

Lemma ensure_file_spec s after p w w' r :
  ensure_file_state s after w = (w', r) → file_ok p s →
  same_tree (tview w) (tview w') ∧ others w' = others w ∧
  (r = Ok tt → file_at (tview w) p = if after then fs_committed s else fs_before s).
Proof.
  unfold ensure_file_state. intros H Hs. destruct (fs_target s) as [t|] eqn:Ht; [|by injection H as <- <-].
  destruct (read_target t w) as [w1 r1] eqn:Hr. apply read_target_law in Hr as (Hsame & Ho & Hr).
  destruct r1 as [current|e]; injection H as <- <-; [|done]. split_and!; [done..|].
  case_bool_decide as E; [|done]. intros _. rewrite <- E, <- (fo_target _ _ Hs t Ht). symmetry. by apply Hr.
Qed.

Lemma classify_spec s p w w' s' :
  classify_failed_file_write s w = (w', s') → file_ok p s →
  same_tree (tview w) (tview w') ∧ others w' = others w ∧ file_ok p s' ∧
  (s' = s ∨ ∃ c, s' = set_touched true c s).
Proof.
  unfold classify_failed_file_write. intros H Hs.
  destruct (fs_target s) as [t|] eqn:Ht; [|injection H as <- <-; split_and!; [done..|by left]].
  destruct (read_target t w) as [w1 r1] eqn:Hr. apply read_target_law in Hr as (Hsame & Ho & _).
  destruct r1 as [current|e]; injection H as <- <-.
  - case_bool_decide; (split_and!; [done..| |]); [done|by left|by apply file_ok_set_touched|right; by eexists].
  - split_and!; [done..| |right; by eexists]. by apply file_ok_set_touched.
Qed.

(** What a write keeps of its snapshot *)
Definition same_plan (s s' : FileSnapshot) : Prop :=
  fs_path s' = fs_path s ∧ fs_after s' = fs_after s ∧ fs_commit_last s' = fs_commit_last s ∧
  fs_executable s' = fs_executable s ∧ fs_before s' = fs_before s ∧ (fs_touched s = true → fs_touched s' = true).

Lemma same_plan_refl s : same_plan s s.
Proof. by split_and!. Qed.

(** The file is written as planned. *)
Definition written (p : list string) (s : FileSnapshot) (t : tree) : Prop :=
  ∃ c, file_at t p = Some c ∧ ar_bytes c = fs_after s ∧ ar_permissions c = write_permissions s.

Lemma commit_file_spec p s w d w' d' s' r :
  commit_file root AtomicFileWriter s w d = (w', d', s', r) →
  file_ok p s → ds_unresolved d = false → dirs_ok d (tview w) →
  others w' = others w ∧ dirs_good d' (tview w') ∧ file_ok p s' ∧ same_plan s s' ∧
  (∀ q, q ≠ p → file_at (tview w') q = file_at (tview w) q) ∧
  (file_at (tview w') p = file_at (tview w) p ∨ fs_touched s' = true) ∧
  (r = Ok tt → ds_unresolved d' = false ∧ written p s' (tview w') ∧ fs_touched s' = true).
Proof.
  unfold commit_file. intros H Hs Hu Hd.
  destruct (create_missing_parents root s w d) as [[[w1 d1] s1] r1] eqn:Hc.
  destruct (create_missing_spec _ _ _ _ _ _ _ _ Hc Hs Hu Hd) as (Hf1 & Ho1 & Hg1 & Hs1 & Hset & Hr1).
  assert (same_plan s s1) as Hp1 by (destruct Hset as [-> | [t ->]]; by split_and!).
  assert (fs_before s1 = fs_before s ∧ fs_after s1 = fs_after s) as [Hb1 Ha1] by (split; apply Hp1).
  destruct r1 as [[]|e]; [|injection H as <- <- <- <-; split_and!; first [done|by left|by intros q _]].
  destruct (Hr1 eq_refl) as (Hu1 & t & Ht & Htp). clear Hr1.
  destruct (ensure_file_state s1 false w1) as [w2 r2] eqn:He.
  destruct (ensure_file_spec _ _ _ _ _ _ He Hs1) as ([Hf2 Hd2] & Ho2 & Hr2).
  assert (∀ q, file_at (tview w2) q = file_at (tview w) q) as Hf by (intros q; by rewrite Hf2).
  assert (dirs_good d1 (tview w2)) as Hg2 by by eapply dirs_good_same.
  destruct r2 as [[]|e]; [|injection H as <- <- <- <-; split_and!; first [done|by rewrite Ho2|by left|by intros q _]].
  rewrite Ht in H. unfold AtomicFileWriter in H.
  destruct (replace_if_exact_with_permissions t (fs_before s1) (fs_after s1) (write_permissions s1) w2)
    as [w3 r3] eqn:Hw. apply replace_law in Hw as [Ho3 Hw].
  assert (others w3 = others w) as Ho by by rewrite Ho3, Ho2.
  destruct r3 as [effect|error].
  2:{ destruct Hw as [Hf3 Hd3]. destruct (classify_failed_file_write s1 w3) as [w4 s2] eqn:Hcl.
      apply (classify_spec s1 p) in Hcl as ([Hf4 Hd4] & Ho4 & Hs2 & Hs2'); [|done]. injection H as <- <- <- <-.
      assert (same_plan s s2) as Hp2.
      { destruct Hs2' as [-> | [c ->]]; [done|]. destruct Hp1 as (?&?&?&?&?&?). by split_and!. }
      assert (dirs_good d1 (tview w4)) as Hg4.
      { eapply dirs_good_same; [|exact Hg2]. intros q. by rewrite Hd4, Hd3. }
      split_and!; first [by rewrite Ho4|done|intros q _; by rewrite Hf4, Hf3|left; by rewrite Hf4, Hf3]. }
  destruct Hw as (_ & Hbytes & Hperm & Hat & Hother & Hdirs). rewrite Htp in Hat, Hother.
  assert (∀ q, q ≠ p → file_at (tview w3) q = file_at (tview w) q) as Hfo by (intros q Hq; by rewrite Hother, Hf).
  assert (∀ b, dirs_good (mk_dir_state (ds_created d1) (ds_unresolved d1) b) (tview w3)) as Hg3.
  { intros b. destruct Hg2 as [Hg2|Hg2]; [by left|right]. by eapply dirs_ok_same in Hg2. }
  assert (dirs_good d1 (tview w3)) as Hg3' by by eapply dirs_good_same.
  set (s2 := set_touched true (Some (effect_value effect)) s1) in *.
  assert (file_ok p s2) as Hs2 by by apply file_ok_set_touched.
  assert (same_plan s s2) as Hp2 by (destruct Hp1 as (?&?&?&?&?&?); by split_and!).
  assert (written p s2 (tview w3)) as Hwr by (eexists; split_and!; [exact Hat|done..]).
  assert (∀ w4 r4 dd, ensure_file_state s2 true w3 = (w4, r4) →
      dirs_good dd (tview w3) → ds_unresolved dd = false →
      others w4 = others w ∧ dirs_good dd (tview w4) ∧ file_ok p s2 ∧ same_plan s s2 ∧
      (∀ q, q ≠ p → file_at (tview w4) q = file_at (tview w) q) ∧
      (file_at (tview w4) p = file_at (tview w) p ∨ fs_touched s2 = true) ∧
      ds_unresolved dd = false ∧ written p s2 (tview w4)) as Hfin.
  { intros w4 r4 dd Hen Hgd Hud. apply (ensure_file_spec s2 true p) in Hen as ([Hf4 Hd4] & Ho4 & _); [|done].
    split_and!; [by rewrite Ho4|by eapply dirs_good_same|done|done|intros q Hq; by rewrite Hf4, Hfo|by right|done|].
    destruct Hwr as (c & Hc' & ?). exists c. by rewrite Hf4. }
  assert (fs_touched s2 = true) as Ht2 by done.
  assert (s2 = set_touched true (Some (effect_value effect)) s1) as E2 by done. clearbody s2.
  destruct effect as [c|c|c error]; cbn [effect_value] in E2; rewrite <- E2 in H.
  - destruct (ensure_file_state s2 true w3) as [w4 [[]|e]] eqn:Hen; injection H as <- <- <- <-;
      destruct (Hfin _ _ d1 eq_refl Hg3' Hu1) as (?&?&?&?&?&?&?&?); by split_and!.
  - destruct (ensure_file_state s2 true w3) as [w4 [[]|e]] eqn:Hen; injection H as <- <- <- <-;
      destruct (Hfin _ _ (mk_dir_state (ds_created d1) (ds_unresolved d1) false) eq_refl (Hg3 false) Hu1)
        as (?&?&?&?&?&?&?&?); by split_and!.
  - injection H as <- <- <- <-. split_and!; try done. by right.
Qed.

(** ** Writing the files of a pass *)

Lemma zip_elem {A B C} (R : B → C → Prop) (l : list A) (k : list B) (k' : list C) a c :
  Forall2 R k k' → (a, c) ∈ zip l k' → ∃ b, (a, b) ∈ zip l k ∧ R b c.
Proof.
  intros H. revert l. induction H as [|b c' k k' Hb _ IH]; intros [|x l]; cbn; try by intros ?%elem_of_nil.
  rewrite elem_of_cons. intros [E|Hin].
  - injection E as -> ->. exists b. split; [by apply elem_of_cons; left|done].
  - apply IH in Hin as (b' & ? & ?). exists b'. split; [by apply elem_of_cons; right|done].
Qed.

Lemma zip_unique {A B} (l : list A) (k : list B) a b b' :
  NoDup l → (a, b) ∈ zip l k → (a, b') ∈ zip l k → b = b'.
Proof.
  revert k. induction l as [|x l IH]; intros [|y k] Hd; cbn; try by intros ?%elem_of_nil.
  apply NoDup_cons in Hd as [Hx Hd]. rewrite !elem_of_cons.
  assert (∀ z, (x, z) ∈ zip l k → False) as Hno.
  { intros z Hz. apply Hx. by apply elem_of_zip_l in Hz. }
  intros [E1|H1] [E2|H2]; [congruence| | |by eapply IH].
  - injection E1 as -> ->. by apply Hno in H2.
  - injection E2 as -> ->. by apply Hno in H1.
Qed.

Lemma commit_files_spec lp files : ∀ ps w d w' d' files' r,
  commit_files root AtomicFileWriter lp files w d = (w', d', files', r) →
  Forall2 file_ok ps files → ds_unresolved d = false → dirs_ok d (tview w) →
  others w' = others w ∧ dirs_good d' (tview w') ∧ Forall2 file_ok ps files' ∧ Forall2 same_plan files files' ∧
  (∀ q, file_at (tview w') q = file_at (tview w) q ∨
        ∃ s, (q, s) ∈ zip ps files' ∧ fs_touched s = true ∧ fs_commit_last s = lp) ∧
  (r = Ok tt → ds_unresolved d' = false ∧
     (NoDup ps → ∀ p s, (p, s) ∈ zip ps files' → fs_commit_last s = lp → written p s (tview w'))).
Proof.
  assert (∀ l, Forall2 same_plan l l) as Hrefl.
  { intros l. induction l; constructor; [apply same_plan_refl|done]. }
  induction files as [|s files IH]; intros ps w d w' d' files' r H Hps Hu Hd; cbn [commit_files] in H.
  { injection H as <- <- <- <-. split_and!; first [done|by right|by left|idtac].
    intros _. split; [done|]. intros _ p s Hin. inversion Hps; subst. by apply elem_of_nil in Hin. }
  inversion Hps as [|p ? ps' ? Hs Hps' E1 E2]; subst.
  destruct (Bool.eqb (fs_commit_last s) lp) eqn:El.
  2:{ apply Bool.eqb_false_iff in El.
      destruct (commit_files root AtomicFileWriter lp files w d) as [[[w1 d1] rest] r1] eqn:Hc.
      injection H as <- <- <- <-. eapply IH in Hc as (Ho & Hg & Hok & Hsp & Hdirty & Hr); [|done..].
      split_and!; [done|done|by constructor|constructor; [apply same_plan_refl|done]| |].
      - intros q. destruct (Hdirty q) as [?|(s' & ? & ?)]; [by left|right]. exists s'. cbn. by rewrite elem_of_cons; auto.
      - intros E. destruct (Hr E) as [? Hw]. split; [done|]. intros [_ Hnd]%NoDup_cons q s' Hin Hlp.
        cbn in Hin. apply elem_of_cons in Hin as [[= -> ->]|Hin]; [done|by apply Hw]. }
  apply Bool.eqb_prop in El.
  destruct (commit_file root AtomicFileWriter s w d) as [[[w1 d1] s1] r1] eqn:Hc.
  apply (commit_file_spec p) in Hc as (Ho & Hg & Hs1 & Hsp & Hother & Hat & Hr1); [|done..].
  assert (fs_commit_last s1 = lp) as Hl1 by by destruct Hsp as (_ & _ & -> & _).
  assert (∀ q, file_at (tview w1) q = file_at (tview w) q ∨ (q = p ∧ fs_touched s1 = true)) as Hdirty1.
  { intros q. destruct (decide (q = p)) as [->|Hne]; [|left; by apply Hother].
    destruct Hat; [by left|by right]. }
  destruct r1 as [[]|e].
  2:{ injection H as <- <- <- <-. split_and!; [done|done|by constructor|by constructor| |done].
      intros q. destruct (Hdirty1 q) as [?|[-> ?]]; [by left|right]. exists s1. cbn. by rewrite elem_of_cons; auto. }
  destruct (Hr1 eq_refl) as (Hu1 & Hw1 & Ht1).
  assert (dirs_ok d1 (tview w1)) as Hd1 by (destruct Hg; [congruence|done]).
  destruct (commit_files root AtomicFileWriter lp files w1 d1) as [[[w2 d2] rest] r2] eqn:Hc2.
  injection H as <- <- <- <-. eapply IH in Hc2 as (Ho2 & Hg2 & Hok2 & Hsp2 & Hdirty2 & Hr2); [|done..].
  split_and!; [by rewrite Ho2|done|by constructor|by constructor| |].
  - intros q. destruct (Hdirty2 q) as [Heq|(s' & ? & ?)].
    + rewrite Heq. destruct (Hdirty1 q) as [?|[-> ?]]; [by left|right]. exists s1. cbn. by rewrite elem_of_cons; auto.
    + right. exists s'. cbn. by rewrite elem_of_cons; auto.
  - intros E. destruct (Hr2 E) as [? Hw2]. split; [done|]. intros [Hp Hnd]%NoDup_cons q s' Hin Hlp.
    cbn in Hin. apply elem_of_cons in Hin as [[= -> ->]|Hin]; [|by apply Hw2].
    destruct Hw1 as (c & Hc1 & ?). exists c. split; [|done]. rewrite <- Hc1.
    destruct (Hdirty2 p) as [?|(s' & Hin & _)]; [done|]. by apply elem_of_zip_l in Hin.
Qed.

(** ** Putting the files back *)

Lemma rollback_file_spec p s w w' s' ok :
  rollback_file s w = (w', s', ok) → file_ok p s →
  others w' = others w ∧ (∀ q, dir_at (tview w') q = dir_at (tview w) q) ∧
  (∀ q, q ≠ p → file_at (tview w') q = file_at (tview w) q) ∧
  (ok = true → file_content (file_at (tview w') p) = file_content (file_at t0 p)).
Proof.
  unfold rollback_file. intros H Hs. rewrite <- (fo_before _ _ Hs).
  destruct (fs_committed s) as [c|]; [|by injection H as <- <- <-].
  destruct (fs_target s) as [t|] eqn:Ht; [|by injection H as <- <- <-].
  pose proof (fo_target _ _ Hs t Ht) as Htp.
  destruct (fs_before s) as [b|].
  - destruct (replace_if_exact_with_permissions t (Some c) (ar_bytes b) (ar_permissions b) w) as [w1 r1] eqn:Hr.
    apply replace_law in Hr as [Ho Hr]. rewrite Htp in Hr.
    destruct r1 as [[v|v|v e]|e]; injection H as <- <- <-; cbn [effect_value] in Hr; split_and!; try done;
      try (by apply Hr); try (intros q _; by apply Hr);
      intros _; destruct Hr as (_ & Hb & Hpm & -> & _); cbn; by rewrite Hb, Hpm.
  - destruct (unlink_if_exact t c w) as [w1 r1] eqn:Hr. apply unlink_law in Hr as [Ho Hr]. rewrite Htp in Hr.
    destruct r1 as [[v|v|v e]|e]; injection H as <- <- <-; split_and!; try done; try (by apply Hr);
      try (intros q _; by apply Hr); intros _; by destruct Hr as (_ & -> & _).
Qed.

Lemma rollback_files_spec files : ∀ ps w w' files' ok,
  rollback_files files w = (w', files', ok) → Forall2 file_ok ps files →
  others w' = others w ∧ (∀ q, dir_at (tview w') q = dir_at (tview w) q) ∧
  (∀ q, q ∉ ps → file_at (tview w') q = file_at (tview w) q) ∧
  (ok = true → ∀ q,
     (file_at (tview w') q = file_at (tview w) q ∨
      file_content (file_at (tview w') q) = file_content (file_at t0 q)) ∧
     (∀ s, (q, s) ∈ zip ps files → fs_touched s = true →
      file_content (file_at (tview w') q) = file_content (file_at t0 q))).
Proof.
  induction files as [|s files IH]; intros ps w w' files' ok H Hps; cbn [rollback_files] in H;
    inversion Hps as [|p ? ps' ? Hs Hps' E1 E2]; subst.
  { injection H as <- <- <-. split_and!; [done..|]. intros _ q. split; [by left|]. by intros s ?%elem_of_nil. }
  destruct (rollback_files files w) as [[w1 rest] ok1] eqn:Hrest.
  eapply IH in Hrest as (Ho & Hd & Hout & Hok); [|done].
  destruct (fs_touched s) eqn:Et.
  2:{ injection H as <- <- <-. split_and!; [done..|intros q [_ Hq]%not_elem_of_cons; by apply Hout|].
      intros E q. destruct (Hok E q) as [H1 H2]. split; [done|]. cbn.
      intros s' [[= -> ->]|Hin]%elem_of_cons; [congruence|by apply H2]. }
  destruct (rollback_file s w1) as [[w2 s1] ok2] eqn:Hf.
  apply (rollback_file_spec p) in Hf as (Ho2 & Hd2 & Hf2 & Hok2); [|done]. injection H as <- <- <-.
  split_and!; [by rewrite Ho2|intros q; by rewrite Hd2|
    intros q [Hne Hq]%not_elem_of_cons; rewrite Hf2 by done; by apply Hout|].
  intros [E1 E2]%andb_true_iff q. specialize (Hok2 E2). destruct (Hok E1 q) as [H1 H2].
  destruct (decide (q = p)) as [->|Hne]; [by split; [right|]|]. rewrite (Hf2 q Hne). split; [done|]. cbn.
  intros s' [[= -> ->]|Hin]%elem_of_cons; [done|by apply H2].
Qed.

(** ** Removing the created directories *)

Lemma insert_by_depth_elem e l x : x ∈ insert_by_depth e l ↔ x = e ∨ x ∈ l.
Proof using Type.
  induction l as [|e' l IH]; cbn [insert_by_depth].
  - rewrite list_elem_of_singleton. split; [by left|by intros [?|?%elem_of_nil]].
  - destruct (_ <=? _)%nat; rewrite !elem_of_cons; [done|]. rewrite IH. tauto.
Qed.

Lemma sort_by_depth_elem l x : x ∈ sort_by_depth l ↔ x ∈ l.
Proof using Type.
  induction l as [|e l IH]; [done|]. cbn. rewrite insert_by_depth_elem, elem_of_cons, IH. done.
Qed.

Lemma remove_directories_rest dirs : ∀ w w' ok,
  remove_directories dirs w = (w', ok) →
  others w' = others w ∧ (∀ q, file_at (tview w') q = file_at (tview w) q).
Proof using FL.
  induction dirs as [|[p c] dirs IH]; intros w w' ok H; cbn [remove_directories] in H; [by injection H as <- <-|].
  destruct (remove_if_empty_exact c w) as [w1 r1] eqn:Hr. apply remove_if_empty_exact_law in Hr as [Ho Hr].
  assert (∀ q, file_at (tview w1) q = file_at (tview w) q) as Hf1 by (destruct r1; apply Hr).
  assert (∃ ok1, (let '(w2, ok2) := remove_directories dirs w1 in (w2, ok1 && ok2)) = (w', ok)) as [ok1 H1].
  { destruct r1 as [[]|]; eauto. }
  destruct (remove_directories dirs w1) as [w2 ok2] eqn:Hrest. injection H1 as <- <-.
  apply IH in Hrest as [Ho2 Hf2]. split; [by rewrite Ho2|]. intros q. by rewrite Hf2.
Qed.

Lemma remove_directories_spec dirs : ∀ w w' ok,
  remove_directories dirs w = (w', ok) → (∀ p c, (p, c) ∈ dirs → created_path c = p) →
  (∀ q, dir_at (tview w') q = dir_at (tview w) q ∨ dir_at (tview w') q = false) ∧
  (∀ q, q ∉ keys dirs → dir_at (tview w') q = dir_at (tview w) q) ∧
  (ok = true → ∀ q, q ∈ keys dirs → dir_at (tview w') q = false).
Proof using FL.
  induction dirs as [|[p c] dirs IH]; intros w w' ok H Hc; cbn [remove_directories] in H.
  { injection H as <- <-. split_and!; [by left|done|]. intros _ q Hq. by apply elem_of_nil in Hq. }
  destruct (remove_if_empty_exact c w) as [w1 r1] eqn:Hr. apply remove_if_empty_exact_law in Hr as [_ Hr].
  rewrite (Hc p c) in Hr by (apply elem_of_cons; by left).
  assert (∃ ok1, (let '(w2, ok2) := remove_directories dirs w1 in (w2, ok1 && ok2)) = (w', ok) ∧
     (ok1 = true → dir_at (tview w1) p = false)) as (ok1 & H1 & Hok1).
  { destruct r1 as [[]|]; eexists; (split; [exact H|]); intros ?; first [done|apply Hr]. }
  destruct (remove_directories dirs w1) as [w2 ok2] eqn:Hrest. injection H1 as <- <-.
  apply IH in Hrest as (Hor2 & Hout2 & Hok2); [|intros q e Hin; apply Hc; apply elem_of_cons; by right].
  assert (∀ q, dir_at (tview w1) q = dir_at (tview w) q ∨ dir_at (tview w1) q = false ∧ q = p) as Hd1.
  { intros q. destruct r1 as [e|e]; [|left; apply Hr]. destruct Hr as (Hp & Hq & _).
    destruct (decide (q = p)) as [->|Hne]; [by right|left; by apply Hq]. }
  split_and!.
  - intros q. destruct (Hor2 q) as [->|?]; [|by right]. destruct (Hd1 q) as [?|[? _]]; auto.
  - intros q. cbn. intros [Hne Hq]%not_elem_of_cons. rewrite Hout2 by done. by destruct (Hd1 q) as [?|[_ ?]].
  - intros [E1 E2]%andb_true_iff q Hq. cbn in Hq. apply elem_of_cons in Hq as [->|Hq]; [|by apply Hok2].
    destruct (Hor2 p) as [->|?]; [|done]. by apply Hok1.
Qed.

Lemma rollback_directories_spec d w w' ok :
  rollback_directories d w = (w', ok) → dirs_good d (tview w) →
  others w' = others w ∧ (∀ q, file_at (tview w') q = file_at (tview w) q) ∧
  (ok = true → ∀ q, dir_at (tview w') q = dir_at t0 q).
Proof using t0 FL.
  unfold rollback_directories. intros H Hg.
  destruct (remove_directories (rev (sort_by_depth (ds_created d))) w) as [w1 ok1] eqn:Hr.
  injection H as <- <-. destruct (remove_directories_rest _ _ _ _ Hr) as [Ho Hf]. split_and!; [done..|].
  intros [E1 E2]%andb_true_iff q. apply negb_true_iff in E1. destruct Hg as [?|[H1 H2]]; [congruence|].
  assert (∀ x, x ∈ rev (sort_by_depth (ds_created d)) ↔ x ∈ ds_created d) as Hin.
  { intros x. rewrite list_elem_of_In, <- in_rev, <- list_elem_of_In. apply sort_by_depth_elem. }
  assert (∀ q, q ∈ keys (rev (sort_by_depth (ds_created d))) ↔ q ∈ keys (ds_created d)) as Hk.
  { intros q'. unfold keys. change (map fst ?m) with (fst <$> m). rewrite !list_elem_of_fmap.
    split; intros (x & ? & ?); exists x; (split; [done|]); by apply Hin. }
  apply remove_directories_spec in Hr as (_ & Hout & Hok); [|intros p c Hp; by apply H1, Hin].
  destruct (decide (q ∈ keys (ds_created d))) as [Hq|Hq].
  - rewrite Hok by (done || by apply Hk). unfold keys in Hq. change (map fst ?m) with (fst <$> m) in Hq.
    apply list_elem_of_fmap in Hq as ([p c] & -> & Hp). symmetry. by apply (H1 p c).
  - rewrite Hout by by rewrite Hk. by apply H2.
Qed.
End files.
