(* ===== verification/InitTxnSecrets.v ===== *)
(** * Transactions: the vault entries

    What swapping the entries of a plan and rolling them back do to the
    vault: every entry that is no longer what it was belongs to a touched
    snapshot, an entry that was committed has its replacement and its
    protection, and a rollback that reports success has put every entry
    back. *)

From S2P Require Import Prelude Text Ids External StateDir Rotation VaultMeta VaultData AnchoredFs InitTxn.

Section secrets.
Context {W : Type} `{B : !VaultBackend W} (vview : W → VaultData) (tview : W → tree).
Context `{VL : !VaultLaws B vview tview}.

(** Nothing that is watched changed. *)
Definition kept (w w' : W) : Prop := vview w' = vview w ∧ tview w' = tview w.

Lemma kept_trans w1 w2 w3 : kept w1 w2 → kept w2 w3 → kept w1 w3.
Proof. intros [] []. split; congruence. Qed.

(** Reading the vault that sources are copied from changes nothing that is
    watched. *)
Definition quiet (b : VaultBackend W) : Prop :=
  (∀ n w w' r, retrieve (VaultBackend := b) n w = (w', r) → kept w w') ∧
  (∀ n w w' r, get_metadata (VaultBackend := b) n w = (w', r) → kept w w').

Definition source_quiet (v : SourceVault) : Prop :=
  match v with Destination => True | Separate b => quiet b end.

Lemma destination_quiet : quiet B.
Proof.
  split; intros n w w' r H.
  - by apply retrieve_law in H as (? & ? & _).
  - by apply get_metadata_law in H as (? & ? & _).
Qed.

Lemma source_backend_quiet v : source_quiet v → quiet (source_backend v).
Proof. destruct v; [intros _; apply destination_quiet|done]. Qed.

(** ** Reads *)

Lemma ensure_secret_spec s after w w' r :
  ensure_secret_state s after w = (w', r) →
  kept w w' ∧ (r = Ok tt → vd_secrets (vview w) !! ss_name s = if after then ss_after s else ss_before s).
Proof.
  unfold ensure_secret_state. intros H. destruct (retrieve (ss_name s) w) as [w1 r1] eqn:Hr.
  apply retrieve_law in Hr as (Hv & Ht & Hok & Hnf).
  destruct r1 as [x|[]]; injection H as <- <-; (split; [done|]); try done; case_bool_decide as E; try done;
    intros _; rewrite <- E; [by apply Hok|by eapply Hnf].
Qed.

Lemma ensure_metadata_spec s after w w' r :
  ensure_secret_metadata s after w = (w', r) →
  kept w w' ∧ (r = Ok tt →
    (after = true → ss_after s = None →
       vd_metadata (vview w) !! ss_name s = None ∧ vd_validation (vview w) !! ss_name s = None) ∧
    (is_Some (ss_before s) → (after = true → is_Some (ss_after s)) →
       vd_metadata (vview w) !! ss_name s = ss_metadata s ∧
       vd_validation (vview w) !! ss_name s =
         if after && value_changed s then None else ss_validation s)).
Proof.
  assert (∀ (p : option SecretMetadata → option ValidationMetadata → bool) w w' r e1 e2 (e3 : InitTransactionError),
    (do? metadata := io_map_err e1 (get_metadata (ss_name s)) in
     do? validation := io_map_err e2 (get_validation_metadata_exact (ss_name s)) in
     io_fail_if (negb (p metadata validation)) e3 (io_ret tt)) w = (w', r) →
    kept w w' ∧ (r = Ok tt → p (vd_metadata (vview w) !! ss_name s) (vd_validation (vview w) !! ss_name s) = true))
    as Hread.
  { clear w w' r. intros p w w' r e1 e2 e3. unfold io_bind, io_map_err, io_fail_if, io_ret.
    destruct (get_metadata (ss_name s) w) as [w1 r1] eqn:H1. apply get_metadata_law in H1 as (Hv1 & Ht1 & Hm).
    destruct r1 as [m|e]; cbn; [|by intros [= <- <-]].
    destruct (get_validation_metadata_exact (ss_name s) w1) as [w2 r2] eqn:H2.
    apply get_validation_law in H2 as (Hv2 & Ht2 & Hx). destruct r2 as [x|e]; cbn.
    2:{ intros [= <- <-]. split; [split; congruence|done]. }
    rewrite <- (Hm m), <- Hv1, <- (Hx x) by done.
    destruct (p m x) eqn:Ep; cbn; intros [= <- <-]; (split; [split; congruence|done]). }
  unfold ensure_secret_metadata. intros H.
  destruct (after && negb (bool_decide (is_Some (ss_after s)))) eqn:Ea.
  { apply andb_true_iff in Ea as [-> Ea]. apply negb_true_iff, bool_decide_eq_false in Ea.
    apply (Hread (fun m x => bool_decide (m = None) && bool_decide (x = None))) in H as [Hk Hr].
    split; [done|]. intros E. apply Hr, andb_true_iff in E as [E1%bool_decide_eq_true E2%bool_decide_eq_true].
    split; [done|]. intros _ Hs. by destruct Ea, Hs. }
  assert (after = true → ss_after s = None → False) as Hno.
  { intros -> Hn. rewrite Hn in Ea. done. }
  destruct (bool_decide (is_Some (ss_before s))) eqn:Eb; cbn [negb] in H.
  2:{ injection H as <- <-. apply bool_decide_eq_false in Eb. split; [done|]. intros _.
      split; [intros; by destruct Hno|done]. }
  apply (Hread (fun m x => bool_decide (m = ss_metadata s) &&
                           bool_decide (x = if after && value_changed s then None else ss_validation s)))
    in H as [Hk Hr].
  split; [done|]. intros E. apply Hr, andb_true_iff in E as [E1%bool_decide_eq_true E2%bool_decide_eq_true].
  split; [intros; by destruct Hno|done].
Qed.

Lemma source_unchanged_spec b p w w' r :
  quiet b → source_metadata_unchanged b p w = (w', r) → kept w w'.
Proof.
  intros [_ Hq]. unfold source_metadata_unchanged, io_bind, io_map_err, io_ret.
  destruct (get_metadata (ip_source_name p) w) as [w1 r1] eqn:H1. apply Hq in H1.
  destruct r1; cbn; by intros [= <- <-].
Qed.

Lemma verify_copy_source_spec b p x w w' r :
  quiet b → verify_copy_source b p x w = (w', r) → kept w w'.
Proof.
  intros [Hq1 Hq2]. unfold verify_copy_source, io_bind, io_map_err, io_fail_if, io_ret, io_throw.
  destruct (retrieve (ip_source_name p) w) as [w1 r1] eqn:H1. apply Hq1 in H1.
  destruct r1 as [y|[]]; try by intros [= <- <-].
  destruct (negb _); [by intros [= <- <-]|].
  destruct (get_metadata (ip_source_name p) w1) as [w2 r2] eqn:H2. apply Hq2 in H2.
  pose proof (kept_trans _ _ _ H1 H2).
  destruct r2; cbn; [|by intros [= <- <-]]. destruct (negb _); by intros [= <- <-].
Qed.

(** What the check of a copied source establishes *)
Lemma verify_copy_source_Ok p x w w' :
  verify_copy_source B p x w = (w', Ok tt) →
  vd_secrets (vview w) !! ip_source_name p = Some x ∧
  vd_metadata (vview w) !! ip_source_name p = ip_source_metadata p.
Proof.
  unfold verify_copy_source, io_bind, io_map_err, io_fail_if, io_ret, io_throw.
  destruct (retrieve (ip_source_name p) w) as [w1 r1] eqn:H1. apply retrieve_law in H1 as (Hv1 & _ & Hok & _).
  destruct r1 as [y|[]]; try done. destruct (negb _) eqn:Ey; [done|].
  apply negb_false_iff, String.eqb_eq in Ey as ->.
  destruct (get_metadata (ip_source_name p) w1) as [w2 r2] eqn:H2. apply get_metadata_law in H2 as (_ & _ & Hm).
  destruct r2 as [m|]; cbn; [|done]. destruct (negb _) eqn:Em; [done|]. intros _.
  apply negb_false_iff, bool_decide_eq_true in Em. split; [by apply Hok|].
  rewrite <- Hv1, <- Em. symmetry. by apply Hm.
Qed.

(** ** Inherited protection *)

(** A batch whose other changes write back what they expect changes one entry. *)
Lemma batch_one_entry changes name v :
  check_metadata_batch changes v = Ok true →
  (∀ c, c ∈ changes → mc_name c = name ∨ mc_expected c = mc_replacement c) →
  ∀ n, n ≠ name → same_entry n v (apply_metadata_batch changes v).
Proof.
  intros (Hd & _ & Hc)%batch_true Hall n Hn. destruct (decide (n ∈ map mc_name changes)) as [Hin|Hin].
  2:{ by apply metadata_batch_other. }
  change (map mc_name changes) with (mc_name <$> changes) in Hin. apply list_elem_of_fmap in Hin as (c & -> & Hin).
  destruct (metadata_batch_rest changes v) as [Hs Hx]. unfold same_entry. rewrite Hs, Hx.
  rewrite (metadata_batch_in changes v c Hd Hin). split_and!; [done| |done].
  destruct (Hall c Hin) as [?|Heq]; [done|]. rewrite <- Heq. symmetry. by apply Hc.
Qed.

Lemma apply_inherited_spec sv name p w w' r :
  source_quiet sv → apply_inherited_protection sv name p w = (w', r) →
  tview w' = tview w ∧ (∀ n, n ≠ name → same_entry n (vview w) (vview w')) ∧
  vd_secrets (vview w') !! name = vd_secrets (vview w) !! name ∧
  vd_validation (vview w') !! name = vd_validation (vview w) !! name ∧
  (vault_wf (vview w) → vault_wf (vview w')) ∧
  (r = Ok tt → vd_metadata (vview w') !! name = Some (ip_inherited p)).
Proof.
  intros Hq. unfold apply_inherited_protection. unfold io_bind at 1. unfold io_map_err at 1.
  destruct (get_metadata name w) as [w1 r1] eqn:H1. apply get_metadata_law in H1 as (Hv1 & Ht1 & Hm).
  rewrite <- Hv1, <- Ht1. destruct r1 as [current|e]; cbn [map_err].
  2:{ intros [= <- <-]. split_and!; try done. }
  match goal with |- context [compare_and_swap_metadata_batch ?l] => set (changes := l) end.
  unfold io_bind at 1. destruct (compare_and_swap_metadata_batch changes w1) as [w2 r2] eqn:H2.
  apply metadata_batch_law in H2 as [Ht2 H2].
  assert (∀ w3, kept w2 w3 →
    tview w3 = tview w1 ∧ (∀ n, n ≠ name → same_entry n (vview w1) (vview w3)) ∧
    vd_secrets (vview w3) !! name = vd_secrets (vview w1) !! name ∧
    vd_validation (vview w3) !! name = vd_validation (vview w1) !! name ∧
    (vault_wf (vview w1) → vault_wf (vview w3))) as Hkeep.
  { intros w3 [Hv3 Ht3]. rewrite Hv3, Ht3, Ht2. split; [done|].
    assert (vview w2 = vview w1 ∨ (check_metadata_batch changes (vview w1) = Ok true ∧
      vview w2 = apply_metadata_batch changes (vview w1))) as [-> | [Hc ->]].
    { destruct r2 as [[]|]; auto. }
    - split_and!; try done.
    - destruct (metadata_batch_rest changes (vview w1)) as [Hs Hx]. rewrite Hs, Hx. split_and!; [|done|done|].
      + apply batch_one_entry; [done|]. intros c Hin. subst changes. destruct sv.
        * apply elem_of_cons in Hin as [->|Hin]; [by left|]. apply list_elem_of_singleton in Hin as ->. by right.
        * apply list_elem_of_singleton in Hin as ->. by left.
      + by apply metadata_batch_wf. }
  assert (r2 = Ok true → vd_metadata (vview w2) !! name = Some (ip_inherited p)) as Hset.
  { intros ->. destruct H2 as [Hc ->]. apply batch_true in Hc as (Hd & _ & _).
    apply (metadata_batch_in changes (vview w1) (mk_metadata_cas name current (Some (ip_inherited p))) Hd).
    subst changes. destruct sv; apply elem_of_cons; by left. }
  assert (∀ w3 r3, source_metadata_unchanged (source_backend sv) p w2 = (w3, r3) → kept w2 w3) as Hsrc.
  { intros w3 r3 H3. apply (source_unchanged_spec (source_backend sv) p _ _ r3); [by apply source_backend_quiet|done]. }
  assert (∀ w3 (r3 : result unit InitTransactionError), kept w2 w3 → (r3 = Ok tt → r2 = Ok true) →
    tview w3 = tview w1 ∧ (∀ n, n ≠ name → same_entry n (vview w1) (vview w3)) ∧
    vd_secrets (vview w3) !! name = vd_secrets (vview w1) !! name ∧
    vd_validation (vview w3) !! name = vd_validation (vview w1) !! name ∧
    (vault_wf (vview w1) → vault_wf (vview w3)) ∧
    (r3 = Ok tt → vd_metadata (vview w3) !! name = Some (ip_inherited p))) as Hfin.
  { intros w3 r3 Hk Hr. destruct (Hkeep _ Hk) as (?&?&?&?&?). split_and!; try done.
    intros E. destruct Hk as [-> _]. by apply Hset, Hr. }
  clear Hkeep Hset H2. assert (kept w2 w2) as Hself by done.
  destruct r2 as [[]|e].
  - destruct sv as [|b]; cbn [source_backend] in *; [intros [= <- <-]; by apply Hfin|].
    unfold io_bind. destruct (source_metadata_unchanged b p w2) as [w3 r3] eqn:H3.
    unfold io_fail_if. destruct r3 as [[]|]; intros [= <- <-]; (apply Hfin; [by eapply Hsrc|done]).
  - destruct (source_metadata_unchanged (source_backend sv) p w2) as [w3 r3] eqn:H3.
    destruct r3 as [[]|]; intros [= <- <-]; (apply Hfin; [by eapply Hsrc|done]).
  - destruct e; intros [= <- <-]; by apply Hfin.
Qed.

(** ** Committing an entry *)

(** The entry holds what the plan says: its replacement; nothing else if it
    is deleted; the protection and validation that were there, except that a
    new value has no validation; the protection it inherits. *)
Definition entry_after (s : SecretSnapshot) (v : VaultData) : Prop :=
  vd_secrets v !! ss_name s = ss_after s ∧
  (ss_after s = None → vd_metadata v !! ss_name s = None ∧ vd_validation v !! ss_name s = None) ∧
  (is_Some (ss_before s) → is_Some (ss_after s) →
     vd_metadata v !! ss_name s = ss_metadata s ∧
     vd_validation v !! ss_name s = if value_changed s then None else ss_validation s) ∧
  (∀ p, ss_inherited_protection s = Some p → ss_after s ≠ None → ss_before s = None →
     vd_metadata v !! ss_name s = Some (ip_inherited p)).

(** The plan of a snapshot *)
Definition same_secret (s s' : SecretSnapshot) : Prop := ∃ b, s' = set_secret_touched b s.

Lemma same_secret_refl s : same_secret s s.
Proof. exists (ss_touched s). by destruct s. Qed.

Lemma entry_after_same s s' v : same_secret s s' → entry_after s v → entry_after s' v.
Proof. by intros [b ->]. Qed.

Lemma entry_after_other s v v' : same_entry (ss_name s) v v' → entry_after s v → entry_after s v'.
Proof. intros (Hs & Hm & Hx). unfold entry_after. by rewrite Hs, Hm, Hx. Qed.

Lemma commit_secret_spec sv s c w w' s' c' r :
  commit_secret sv s c w = (w', s', c', r) → source_quiet sv → vault_wf (vview w) →
  tview w' = tview w ∧ vault_wf (vview w') ∧ same_secret s s' ∧
  (∀ n, n ≠ ss_name s → same_entry n (vview w) (vview w')) ∧
  (same_entry (ss_name s) (vview w) (vview w') ∨ ss_touched s' = true) ∧
  (r = Ok tt → ss_touched s' = true ∧ entry_after s' (vview w') ∧ vd_secrets (vview w) !! ss_name s = ss_before s).
Proof.
  unfold commit_secret. intros H Hq Hwf.
  destruct (compare_and_swap (ss_name s) (ss_before s) (ss_after s) w) as [w1 r1] eqn:H1.
  apply compare_and_swap_law in H1 as [Ht1 H1]. cbn in H1.
  assert (∀ n, n ≠ ss_name s → same_entry n (vview w) (vview w1)) as Hother.
  { intros n Hn. assert (vview w1 = vview w ∨ ∃ now, vview w1 = data_swap now (ss_name s) (ss_after s) (vview w))
      as [-> | [now ->]] by (destruct r1 as [[]|]; naive_solver).
    - apply same_entry_refl.
    - by apply swap_other. }
  assert (vault_wf (vview w1)) as Hwf1.
  { assert (vview w1 = vview w ∨ ∃ now, vview w1 = data_swap now (ss_name s) (ss_after s) (vview w))
      as [-> | [now ->]] by (destruct r1 as [[]|]; naive_solver); [done|by apply swap_wf]. }
  destruct r1 as [[]|e].
  - destruct H1 as [Hbefore [now Hnow]]. set (s1 := set_secret_touched true s) in *.
    assert (same_secret s s1) as Hsame by by exists true.
    assert (∀ w3, tview w3 = tview w1 → (∀ n, n ≠ ss_name s → same_entry n (vview w1) (vview w3)) →
      tview w3 = tview w ∧ ∀ n, n ≠ ss_name s → same_entry n (vview w) (vview w3)) as Hkeep.
    { intros w3 Ht3 H3. split; [by rewrite Ht3|]. intros n Hn. eapply same_entry_trans; [by apply Hother|by apply H3]. }
    assert (∀ w3, kept w1 w3 →
      tview w3 = tview w ∧ vault_wf (vview w3) ∧ ∀ n, n ≠ ss_name s → same_entry n (vview w) (vview w3)) as Hkeep'.
    { intros w3 [Hv3 Ht3]. destruct (Hkeep w3 Ht3) as [? ?].
      { intros n _. rewrite Hv3. apply same_entry_refl. }
      rewrite Hv3. by rewrite Hv3 in *. }
    destruct (ensure_secret_state s1 true w1) as [w2 r2] eqn:H2.
    apply ensure_secret_spec in H2 as [Hk2 Hr2]. pose proof Hk2 as [Hv2 Ht2].
    destruct r2 as [[]|e].
    2:{ injection H as <- <- <- <-. destruct (Hkeep' _ Hk2) as (? & ? & ?). split_and!; first [done|by right]. }
    specialize (Hr2 eq_refl). cbn in Hr2.
    match type of H with context [match ?m with pair _ _ => _ end] => destruct m as [w3 r3] eqn:H3 end.
    assert (tview w3 = tview w1 ∧ (∀ n, n ≠ ss_name s → same_entry n (vview w1) (vview w3)) ∧
      vault_wf (vview w3) ∧ (r3 = Ok tt → vd_secrets (vview w3) !! ss_name s = ss_after s ∧
        ∀ p, ss_inherited_protection s = Some p → vd_metadata (vview w3) !! ss_name s = Some (ip_inherited p)))
      as (Ht3 & Ho3 & Hwf3 & Hr3).
    { cbn in H3. destruct (ss_inherited_protection s) as [p|].
      - apply apply_inherited_spec in H3 as (Ht3 & Ho3 & Hs3 & _ & Hwf3 & Hm3); [|done].
        rewrite <- Hv2, <- Ht2. split_and!; [done..|apply Hwf3; by rewrite Hv2|]. intros E.
        rewrite Hs3, Hv2. split; [done|]. intros ? [= <-]. by apply Hm3.
      - injection H3 as <- <-. rewrite Hv2, Ht2. split_and!; [done|intros n _; apply same_entry_refl|done|].
        by intros _. }
    destruct (Hkeep w3 Ht3 Ho3) as [Ht3' Ho3'].
    destruct r3 as [[]|e].
    2:{ destruct (commit_failure (ss_name s) e c) as [c1 failure]. injection H as <- <- <- <-.
        split_and!; first [done|by right]. }
    destruct (Hr3 eq_refl) as [Hv3 Hm3].
    destruct (ensure_secret_metadata s1 true w3) as [w4 r4] eqn:H4.
    apply ensure_metadata_spec in H4 as [[Hv4 Ht4] Hr4]. cbn [ss_name ss_after ss_before s1 set_secret_touched] in Hr4.
    destruct r4 as [[]|e]; injection H as <- <- <- <-; rewrite Hv4, Ht4; (split_and!; first [done|by right|idtac]).
    intros _. split; [done|]. split; [|done]. destruct (Hr4 eq_refl) as [Hd He]. unfold entry_after. cbn.
    split_and!; [done|by apply Hd|intros Hb Ha; by apply He|]. intros p Hp _ _. by apply Hm3.
  - injection H as <- <- <- <-. rewrite H1, Ht1. split_and!; try done; [apply same_secret_refl|left; apply same_entry_refl].
  - destruct (ensure_secret_state s true w1) as [w2 r2] eqn:H2.
    apply ensure_secret_spec in H2 as [[Hv2 Ht2] Hr2].
    destruct (ensure_secret_state s false w2) as [w3 r3] eqn:H3.
    apply ensure_secret_spec in H3 as [[Hv3 Ht3] Hr3].
    rewrite Hv2 in *. cbn in H. injection H as <- <- <- <-. rewrite Hv3, Ht3, Ht2, Ht1.
    split_and!; [done..|by eexists|done| |done]. cbn.
    destruct H1 as [-> | [Hb [now Hnow]]]; [left; apply same_entry_refl|].
    destruct r2 as [u|]; [by right|]. destruct r3 as [[]|]; [|by right]. left. specialize (Hr3 eq_refl). cbn in Hr3.
    rewrite Hnow, swap_value in Hr3. rewrite Hnow, Hr3. destruct (ss_before s) as [x|]; [by apply swap_same|].
    destruct (Hwf _ Hb) as [Hm Hx]. destruct (delete_entry (ss_name s) (vview w)) as (E1 & E2 & E3).
    unfold same_entry. cbn [data_swap]. by rewrite E1, E2, E3.
Qed.

Lemma same_secret_name s s' : same_secret s s' → ss_name s' = ss_name s.
Proof. by intros [b ->]. Qed.

Lemma same_secrets_names l l' : Forall2 same_secret l l' → map ss_name l' = map ss_name l.
Proof. induction 1 as [|s s' l l' [b ->] _ IH]; cbn; [done|by rewrite IH]. Qed.

Lemma in_names s l : s ∈ l → ss_name s ∈ map ss_name l.
Proof. intros H. change (map ss_name l) with (ss_name <$> l). by apply list_elem_of_fmap_2. Qed.

Lemma commit_secrets_spec sv l : ∀ c w w' l' c' r,
  commit_secrets sv l c w = (w', l', c', r) → source_quiet sv → vault_wf (vview w) →
  tview w' = tview w ∧ vault_wf (vview w') ∧ Forall2 same_secret l l' ∧
  (∀ n, same_entry n (vview w) (vview w') ∨ ∃ s, s ∈ l' ∧ ss_name s = n ∧ ss_touched s = true) ∧
  (r = Ok tt → NoDup (map ss_name l) → ∀ s, s ∈ l' → entry_after s (vview w')).
Proof.
  assert (∀ k, Forall2 same_secret k k) as Hrefl.
  { intros k. induction k; constructor; [apply same_secret_refl|done]. }
  induction l as [|s l IH]; intros c w w' l' c' r H Hq Hwf; cbn [commit_secrets] in H.
  { injection H as <- <- <- <-. split_and!; [done..|intros n; left; apply same_entry_refl|].
    by intros _ _ s ?%elem_of_nil. }
  destruct (commit_secret sv s c w) as [[[w1 s1] c1] r1] eqn:H1.
  apply commit_secret_spec in H1 as (Ht1 & Hwf1 & Hs1 & Ho1 & Hat1 & Hr1); [|done..].
  pose proof (same_secret_name _ _ Hs1) as Hn1.
  assert (∀ n, same_entry n (vview w) (vview w1) ∨ n = ss_name s ∧ ss_touched s1 = true) as Hd1.
  { intros n. destruct (decide (n = ss_name s)) as [->|Hne]; [|left; by apply Ho1]. destruct Hat1; auto. }
  destruct r1 as [[]|e].
  2:{ injection H as <- <- <- <-. split_and!; [done|done|by constructor| |done].
      intros n. destruct (Hd1 n) as [?|[-> ?]]; [by left|right]. exists s1. rewrite elem_of_cons. auto. }
  destruct (Hr1 eq_refl) as (Htouched & Hafter & _).
  destruct (commit_secrets sv l c1 w1) as [[[w2 l1] c2] r2] eqn:H2.
  injection H as <- <- <- <-. apply IH in H2 as (Ht2 & Hwf2 & Hs2 & Hd2 & Hr2); [|done..].
  split_and!; [by rewrite Ht2|done|by constructor| |].
  - intros n. destruct (Hd2 n) as [Heq|(s' & ? & ? & ?)]; [|right; exists s'; rewrite elem_of_cons; auto].
    destruct (Hd1 n) as [?|[-> ?]]; [left; by eapply same_entry_trans|right]. exists s1. rewrite elem_of_cons. auto.
  - intros E. cbn. intros [Hn Hd]%NoDup_cons s' [->|Hin]%elem_of_cons; [|by apply Hr2].
    eapply entry_after_other; [|exact Hafter]. rewrite Hn1.
    destruct (Hd2 (ss_name s)) as [?|(s' & Hin & Hname & _)]; [done|]. destruct Hn.
    rewrite <- (same_secrets_names _ _ Hs2), <- Hname. by apply in_names.
Qed.

Lemma verify_sources_spec sv l : ∀ c w w' c' r,
  verify_sources sv l c w = (w', c', r) → source_quiet sv →
  kept w w' ∧
  (r = Ok tt → sv = Destination → ∀ s p x, s ∈ l → ss_inherited_protection s = Some p → ss_after s = Some x →
     vd_secrets (vview w) !! ip_source_name p = Some x ∧
     vd_metadata (vview w) !! ip_source_name p = ip_source_metadata p).
Proof.
  induction l as [|s l IH]; intros c w w' c' r H Hq; cbn [verify_sources] in H.
  { injection H as <- <- <-. split; [done|]. by intros _ _ s p x ?%elem_of_nil. }
  destruct (ss_inherited_protection s) as [p|] eqn:Hp.
  2:{ apply IH in H as [Hk Hr]; [|done]. split; [done|]. intros E Ed s' q y [->|Hin]%elem_of_cons; [congruence|by apply Hr]. }
  destruct (ss_after s) as [x|] eqn:Hx.
  2:{ apply IH in H as [Hk Hr]; [|done]. split; [done|]. intros E Ed s' q y [->|Hin]%elem_of_cons; [congruence|by apply Hr]. }
  destruct (verify_copy_source (source_backend sv) p x w) as [w1 r1] eqn:H1.
  pose proof (verify_copy_source_spec (source_backend sv) p x w w1 r1 (source_backend_quiet sv Hq) H1) as Hk1.
  destruct r1 as [[]|e].
  2:{ destruct (commit_failure (ss_name s) e c) as [c1 failure]. by injection H as <- <- <-. }
  apply IH in H as [Hk Hr]; [|done]. split; [by eapply kept_trans|]. intros E Ed s' q y.
  destruct Hk1 as [Hv1 _]. rewrite <- Hv1. intros [->|Hin]%elem_of_cons; [|by apply Hr].
  intros Hp' Hx'. rewrite Hp in Hp'. rewrite Hx in Hx'. injection Hp' as <-. injection Hx' as <-.
  subst sv. rewrite Hv1. by apply verify_copy_source_Ok in H1.
Qed.

(** ** Putting an entry back *)

(** [s] is a snapshot of an entry of [v]. *)
Definition secret_ok (v : VaultData) (s : SecretSnapshot) : Prop :=
  ss_before s = vd_secrets v !! ss_name s ∧ ss_metadata s = vd_metadata v !! ss_name s ∧
  ss_validation s = vd_validation v !! ss_name s.

Lemma secret_ok_same v s s' : same_secret s s' → secret_ok v s → secret_ok v s'.
Proof. by intros [b ->]. Qed.

Lemma secret_oks_same v l l' : Forall2 same_secret l l' → Forall (secret_ok v) l → Forall (secret_ok v) l'.
Proof.
  induction 1 as [|s s' l l' Hs _ IH]; [done|]. intros [Hok Hall]%Forall_cons.
  constructor; [by eapply secret_ok_same|by apply IH].
Qed.

Lemma validation_cas_spec n e x w w' r :
  compare_and_swap_validation_metadata n e x w = (w', r) →
  tview w' = tview w ∧ vd_secrets (vview w') = vd_secrets (vview w) ∧
  (∀ k, k ≠ n → same_entry k (vview w) (vview w')).
Proof.
  intros [Ht H]%validation_batch_law. split; [done|].
  assert (vview w' = vview w ∨ vview w' = apply_validation_batch [mk_validation_cas n e x] (vview w)) as [-> | ->].
  { destruct r as [[]|]; naive_solver. }
  - split; [done|]. intros k _. apply same_entry_refl.
  - destruct (validation_batch_one n e x (vview w)) as (Hs & Hm & Hk). split; [done|]. intros k Hne.
    unfold same_entry. rewrite Hs, Hm. split_and!; [done..|by apply Hk].
Qed.

Lemma metadata_cas_spec n e x w w' r :
  compare_and_swap_metadata n e x w = (w', r) →
  tview w' = tview w ∧ vd_secrets (vview w') = vd_secrets (vview w) ∧
  (∀ k, k ≠ n → same_entry k (vview w) (vview w')) ∧
  (r = Ok true → is_Some (vd_secrets (vview w) !! n)).
Proof.
  intros [Ht H]%metadata_batch_law. split; [done|].
  assert (vview w' = vview w ∨ vview w' = apply_metadata_batch [mk_metadata_cas n e x] (vview w)) as Hor.
  { destruct r as [[]|]; naive_solver. }
  split; [destruct Hor as [-> | ->]; done|]. split.
  - intros k Hne. destruct Hor as [-> | ->]; [apply same_entry_refl|]. apply metadata_batch_other. cbn.
    by intros ->%list_elem_of_singleton.
  - intros ->. destruct H as [H _]. apply batch_true in H as (_ & _ & H).
    by destruct (H (mk_metadata_cas n e x)) as [? _]; [by apply elem_of_cons; left|].
Qed.

Lemma restore_validation_spec s w w' ok :
  restore_validation s w = (w', ok) →
  tview w' = tview w ∧ vd_secrets (vview w') = vd_secrets (vview w) ∧
  (∀ k, k ≠ ss_name s → same_entry k (vview w) (vview w')).
Proof.
  unfold restore_validation. destruct (get_validation_metadata_exact (ss_name s) w) as [w1 r1] eqn:H1.
  apply get_validation_law in H1 as (Hv1 & Ht1 & _). rewrite <- Hv1, <- Ht1.
  assert (∀ k, k ≠ ss_name s → same_entry k (vview w1) (vview w1)) by (intros; apply same_entry_refl).
  destruct r1 as [current|]; [|by intros [= <- <-]]. case_bool_decide; [by intros [= <- <-]|].
  destruct (compare_and_swap_validation_metadata (ss_name s) current (ss_validation s) w1) as [w2 r2] eqn:H2.
  apply validation_cas_spec in H2. destruct r2 as [[]|]; by intros [= <- <-].
Qed.

Lemma restore_deleted_spec s w w' ok :
  restore_deleted_metadata s w = (w', ok) →
  tview w' = tview w ∧ vd_secrets (vview w') = vd_secrets (vview w) ∧
  (∀ k, k ≠ ss_name s → same_entry k (vview w) (vview w')) ∧
  (ok = true → is_Some (vd_secrets (vview w) !! ss_name s)).
Proof.
  unfold restore_deleted_metadata. destruct (get_metadata (ss_name s) w) as [w1 r1] eqn:H1.
  apply get_metadata_law in H1 as (Hv1 & Ht1 & _). rewrite <- Hv1, <- Ht1.
  destruct r1 as [current|]; [|intros [= <- <-]; split_and!; [done..|intros; apply same_entry_refl|done]].
  destruct (compare_and_swap_metadata (ss_name s) current (ss_metadata s) w1) as [w2 r2] eqn:H2.
  apply metadata_cas_spec in H2 as (Ht2 & Hs2 & Hk2 & Hr2).
  destruct r2 as [[]|]; [|by intros [= <- <-]..].
  intros (Ht3 & Hs3 & Hk3)%restore_validation_spec. rewrite Ht3, Hs3, Ht2, Hs2. split_and!; [done..| |by intros _; apply Hr2].
  intros k Hk. eapply same_entry_trans; [by apply Hk2|by apply Hk3].
Qed.

Lemma rollback_secret_spec v s w w' s' ok :
  rollback_secret s w = (w', s', ok) → vault_wf v → secret_ok v s →
  tview w' = tview w ∧ (∀ n, n ≠ ss_name s → same_entry n (vview w) (vview w')) ∧
  (ok = true → same_entry (ss_name s) v (vview w')).
Proof.
  unfold rollback_secret. intros H Hwf (Hb & Hm & Hx).
  match type of H with (let '(w1, metadata_restored) := ?m in _) = _ => destruct m as [w1 restored] eqn:H1 end.
  assert (tview w1 = tview w ∧ (∀ n, n ≠ ss_name s → same_entry n (vview w) (vview w1)) ∧
    (restored = true → vd_secrets (vview w1) !! ss_name s = ss_before s ∧
       (ss_before s = None → vd_metadata (vview w1) !! ss_name s = None ∧
                             vd_validation (vview w1) !! ss_name s = None))) as (Ht1 & Ho1 & Hr1).
  { destruct (compare_and_swap (ss_name s) (ss_after s) (ss_before s) w) as [w2 r2] eqn:H2.
    apply compare_and_swap_law in H2 as [Ht2 H2]. cbn in H2.
    assert (∀ n, n ≠ ss_name s → same_entry n (vview w) (vview w2)) as Ho2.
    { intros n Hn. assert (vview w2 = vview w ∨ ∃ now, vview w2 = data_swap now (ss_name s) (ss_before s) (vview w))
        as [-> | [now ->]] by (destruct r2 as [[]|]; naive_solver); [apply same_entry_refl|by apply swap_other]. }
    destruct r2 as [[]|]; [|by injection H1 as <- <-..].
    destruct H2 as [Ha [now Hnow]].
    assert (vd_secrets (vview w2) !! ss_name s = ss_before s) as Hs2 by by rewrite Hnow, swap_value.
    destruct (ss_after s) as [y|] eqn:Ea.
    - rewrite (bool_decide_true (is_Some (Some y))) in H1 by by eexists. cbn in H1.
      destruct (bool_decide (is_Some (ss_before s)) && value_changed s) eqn:Ec.
      + apply restore_validation_spec in H1 as (Ht3 & Hs3 & Ho3). rewrite Ht3, Hs3.
        apply andb_true_iff in Ec as [[z Hz]%bool_decide_eq_true _]. split_and!; [done| |].
        * intros n Hn. eapply same_entry_trans; [by apply Ho2|by apply Ho3].
        * intros _. split; [done|]. congruence.
      + injection H1 as <- <-. split_and!; [done..|]. intros _. split; [done|]. intros E. rewrite E in Hnow.
        rewrite Hnow. apply (delete_entry (ss_name s) (vview w)).
    - rewrite (bool_decide_false (is_Some None)) in H1 by by intros [? ?]. cbn in H1.
      apply restore_deleted_spec in H1 as (Ht3 & Hs3 & Ho3 & Hr3). rewrite Ht3, Hs3. split_and!; [done| |].
      + intros n Hn. eapply same_entry_trans; [by apply Ho2|by apply Ho3].
      + intros E. split; [done|]. intros En. destruct (Hr3 E) as [? ?]. congruence. }
  destruct restored; cbn [negb] in H; [|by injection H as <- <- <-].
  destruct (Hr1 eq_refl) as [Hs1 Hn1]. destruct (bool_decide (is_Some (ss_before s))) eqn:Eb.
  - apply bool_decide_eq_true in Eb. destruct (ensure_secret_metadata s false w1) as [w2 r2] eqn:H2.
    apply ensure_metadata_spec in H2 as [[Hv2 Ht2] Hr2].
    destruct r2 as [[]|]; injection H as <- <- <-; rewrite Hv2, Ht2; (split_and!; [done..|]); [|done].
    intros _. destruct (Hr2 eq_refl) as [_ He]. destruct (He Eb) as [Hm2 Hx2]; [done|]. cbn in Hx2.
    unfold same_entry. split_and!; congruence.
  - injection H as <- <- <-. split_and!; [done..|]. intros _. apply bool_decide_eq_false in Eb.
    assert (ss_before s = None) as En by (destruct (ss_before s); [by destruct Eb|done]).
    destruct (Hn1 En) as [Hm1 Hx1]. destruct (Hwf (ss_name s)) as [Hm0 Hx0]; [congruence|].
    unfold same_entry. split_and!; congruence.
Qed.

Lemma rollback_secrets_spec v l : ∀ w w' l' ok,
  rollback_secrets l w = (w', l', ok) → vault_wf v → Forall (secret_ok v) l →
  tview w' = tview w ∧ (∀ n, n ∉ map ss_name l → same_entry n (vview w) (vview w')) ∧
  (ok = true → ∀ n,
     (same_entry n (vview w) (vview w') ∨ same_entry n v (vview w')) ∧
     (∀ s, s ∈ l → ss_name s = n → ss_touched s = true → same_entry n v (vview w'))).
Proof.
  induction l as [|s l IH]; intros w w' l' ok H Hwf Hall; cbn [rollback_secrets] in H.
  { injection H as <- <- <-. split_and!; [done|intros; apply same_entry_refl|]. intros _ n.
    split; [left; apply same_entry_refl|]. by intros s ?%elem_of_nil. }
  apply Forall_cons in Hall as [Hs Hall].
  destruct (rollback_secrets l w) as [[w1 l1] ok1] eqn:H1.
  apply IH in H1 as (Ht1 & Ho1 & Hr1); [|done..]. cbn [map].
  destruct (ss_touched s) eqn:Et.
  2:{ injection H as <- <- <-. split_and!; [done|intros n [_ Hn]%not_elem_of_cons; by apply Ho1|].
      intros E n. destruct (Hr1 E n) as [Ha Hb]. split; [done|].
      intros s' [->|Hin]%elem_of_cons; [congruence|by apply Hb]. }
  destruct (rollback_secret s w1) as [[w2 s1] ok2] eqn:H2.
  apply (rollback_secret_spec v) in H2 as (Ht2 & Ho2 & Hr2); [|done..]. injection H as <- <- <-.
  split_and!; [by rewrite Ht2| |].
  - intros n [Hne Hn]%not_elem_of_cons. eapply same_entry_trans; [by apply Ho1|by apply Ho2].
  - intros [E1 E2]%andb_true_iff n. specialize (Hr2 E2). destruct (Hr1 E1 n) as [Ha Hb].
    destruct (decide (n = ss_name s)) as [->|Hne]; [by split; [right|]|]. specialize (Ho2 n Hne). split.
    + destruct Ha; [left|right]; by eapply same_entry_trans.
    + intros s' [->|Hin]%elem_of_cons Hn' Ht; [done|]. eapply same_entry_trans; [by eapply Hb|done].
Qed.
End secrets.
