(* ===== verification/InitTxnCommit.v ===== *)
(** * Transactions: snapshots, the commit and the rollback

    Taking the snapshots only reads; what the commit leaves however far it
    got ([forward_ok]); and what is left after the rollback of a failed one
    ([commit_or_roll_back_spec]). *)

From S2P Require Import Prelude Text Ids External StateDir Rotation VaultMeta VaultData AnchoredFs InitTxn InitTxnFiles InitTxnSecrets.

(** ** Plans *)

Lemma normal_names_inv c : ∀ names, normal_names c = Some names → c = map Normal names.
Proof.
  induction c as [|x c IH]; intros names; cbn; [by intros [= <-]|].
  destruct x as [| | |n]; try done. destruct (normal_names c) as [rest|]; cbn; [|done]. intros [= <-].
  cbn. by rewrite (IH rest).
Qed.

Lemma check_names_spec secrets : ∀ names names',
  check_names names secrets = Ok names' → NoDup names → names' = names ++ map is_name secrets ∧ NoDup names'.
Proof.
  induction secrets as [|s secrets IH]; intros names names'; cbn [check_names map].
  { intros [= <-] Hd. by rewrite app_nil_r. }
  intros [Hg Hrest]%fail_if_Ok Hd. apply orb_false_iff in Hg as [_ Hg%bool_decide_eq_false].
  apply IH in Hrest as [-> Hnd]; [split; [by rewrite <- app_assoc|done]|]. apply NoDup_app. split_and!; [done| |apply NoDup_singleton].
  intros x Hx ->%list_elem_of_singleton. done.
Qed.

Section plans.
Context {W : Type} {F : AnchoredFs W}.

(** The names of a file of the plan below the project *)
Definition file_names (lock : ProjectTransactionLock F) (f : InitFile) : option (list string) :=
  match relative_project_path lock (if_path f) with Ok c => normal_names c | Err _ => None end.

Lemma check_paths_spec (lock : ProjectTransactionLock F) files : ∀ paths,
  check_paths lock paths files = Ok tt →
  ∀ ps, Forall2 (fun p f => file_names lock f = Some p) ps files →
  NoDup ps ∧ (∀ p, p ∈ ps → map Normal p ∉ paths).
Proof.
  induction files as [|f files IH]; intros paths H ps Hps; inversion Hps as [|p ? ps' ? Hp Hps' E1 E2]; subst.
  { split; [constructor|]. by intros p ?%elem_of_nil. }
  cbn [check_paths] in H. unfold file_names in Hp.
  destruct (relative_project_path lock (if_path f)) as [c|e]; [|done]. cbn in H.
  apply fail_if_Ok in H as [Hg%bool_decide_eq_false H]. apply normal_names_inv in Hp as ->.
  destruct (IH _ H _ Hps') as [Hd Hn]. split.
  - constructor; [|done]. intros Hin. apply (Hn p Hin). apply elem_of_app. right. by apply list_elem_of_singleton.
  - intros q [->|Hin]%elem_of_cons; [done|]. intros Hq. apply (Hn q Hin). apply elem_of_app. by left.
Qed.
End plans.

(** A lock is on the project, and taking it changes nothing that is watched. *)
Class ProjectLockLaws {W} {F : AnchoredFs W} (L : ProjectLocks F) (tview : W → tree) (vview : W → VaultData)
    (FL : AnchoredFsLaws F tview vview) : Prop := {
  acquire_law : ∀ dir w w' r, acquire_project_transaction_lock dir w = (w', r) →
    same_tree (tview w) (tview w') ∧ vview w' = vview w ∧
    (∀ lock, r = Ok lock → anchor_path (tl_project_anchor lock) = []);
  acquire_pair_law : ∀ dir source w w' r, acquire_project_transaction_locks dir source w = (w', r) →
    same_tree (tview w) (tview w') ∧ vview w' = vview w ∧
    (∀ lock, r = Ok lock → anchor_path (tl_project_anchor lock) = []);
}.

Section spec.
Context {W : Type} `{F : !AnchoredFs W} `{L : !ProjectLocks F} `{B : !VaultBackend W}.
Context (vview : W → VaultData) (tview : W → tree).
Context `{FL : !AnchoredFsLaws F tview vview} `{VL : !VaultLaws B vview tview} `{LL : !ProjectLockLaws L tview vview FL}.

Lemma same_tree_refl t : same_tree t t.
Proof. done. Qed.

Lemma same_tree_trans t1 t2 t3 : same_tree t1 t2 → same_tree t2 t3 → same_tree t1 t3.
Proof. intros [H1 H1'] [H2 H2']. split; intros p; by rewrite ?H2, ?H2', ?H1, ?H1'. Qed.

Lemma file_ok_tree t t' p s : same_tree t t' → file_ok tview vview t p s → file_ok tview vview t' p s.
Proof. intros [Ht _] []. constructor; try done. by rewrite Ht. Qed.

(** ** Snapshots *)

Lemma missing_paths_nil existing rest : missing_paths existing rest = [] → rest = [].
Proof. by destruct rest. Qed.

Lemma open_parents_spec root parents : ∀ anchor existing w w' a e m,
  open_parents root anchor existing parents w = (w', Ok (a, e, m)) →
  anchor_path (default root anchor) = existing → (anchor = None → existing = []) →
  same_tree (tview w) (tview w') ∧ vview w' = vview w ∧
  anchor_path (default root a) = e ∧ (a = None → e = []) ∧
  ∃ rest, existing ++ parents = e ++ rest ∧ m = missing_paths e rest ∧
    (rest ≠ [] → ∀ p, file_at (tview w) (existing ++ parents ++ p) = None).
Proof.
  induction parents as [|c parents IH]; intros anchor existing w w' a e m H Ha Hn; cbn [open_parents] in H.
  { injection H as <- <- <- <-. split_and!; [done..|]. exists []. by rewrite !app_nil_r. }
  destruct (open_subdirectory (default root anchor) c w) as [w1 r1] eqn:H1.
  apply open_subdirectory_law in H1 as (Ht1 & Hv1 & Hok & Hnf). rewrite Ha in *. destruct r1 as [next|err].
  - apply IH in H as (Ht & Hv & Hp & He & rest & Hrest & Hm & Hno); [|by apply Hok|done].
    split_and!; [by eapply same_tree_trans|by rewrite Hv|done|done|]. exists rest. rewrite <- Hrest.
    split_and!; [by rewrite <- app_assoc|done|]. intros Hne p. rewrite <- (proj1 Ht1), <- (Hno Hne p).
    by rewrite <- app_assoc.
  - destruct err; try done. injection H as <- <- <- <-. split_and!; [done..|].
    exists (c :: parents). split_and!; [done..|]. intros _ p. by apply Hnf.
Qed.

(** The file is what the plan was reviewed against. *)
Definition reviewed (f : InitFile) (x : option AnchoredRead) : Prop :=
  (∀ e, if_expected_before f = Some e → option_map ar_bytes x = e) ∧
  (∀ i, if_expected_identity f = Some i → option_map ar_identity x = Some i) ∧
  (∀ m, if_expected_permissions f = Some m → option_map ar_permissions x = Some m).

(** A snapshot is of its file, and carries the plan. *)
Definition planned_file (f : InitFile) (s : FileSnapshot) : Prop :=
  fs_path s = if_path f ∧ fs_after s = if_content f ∧ fs_executable s = if_executable f ∧
  fs_commit_last s = if_commit_last f ∧ fs_touched s = false ∧ reviewed f (fs_before s).

Lemma io_map_err_inv {E E' T} (g : E → E') (m : io W E T) w w' r :
  io_map_err g m w = (w', r) → ∃ r', m w = (w', r') ∧ r = map_err g r'.
Proof. unfold io_map_err. destruct (m w) as [w1 r1]. intros [= <- <-]. by exists r1. Qed.

(** Nothing that is watched changed. *)
Definition still (w w' : W) : Prop := same_tree (tview w) (tview w') ∧ vview w' = vview w.

Lemma still_refl w : still w w.
Proof. done. Qed.

Lemma still_trans w1 w2 w3 : still w1 w2 → still w2 w3 → still w1 w3.
Proof. intros [] []. split; [by eapply same_tree_trans|congruence]. Qed.

(** A computation that only reads, with what its value says of the world it
    ran in *)
Definition reads {E T} (w : W) (m : io W E T) (Q : T → Prop) : Prop :=
  ∀ w0 w' r, still w w0 → m w0 = (w', r) → still w w' ∧ ∀ x, r = Ok x → Q x.

Lemma reads_bind {E T U} w (m : io W E T) (k : T → io W E U) P Q :
  reads w m P → (∀ x, P x → reads w (k x) Q) → reads w (io_bind m k) Q.
Proof.
  intros Hm Hk w0 w' r Hs [(w1 & x & H1 & H2)|(e & H1 & ->)]%io_bind_inv.
  - apply Hm in H1 as [Hs1 HP]; [|done]. eapply Hk; [by apply HP|exact Hs1|done].
  - by apply Hm in H1 as [Hs1 _].
Qed.

Lemma reads_ret {E T} w (x : T) (Q : T → Prop) : Q x → reads w (io_ret (E := E) x) Q.
Proof. intros HQ w0 w' r Hs [= <- <-]. split; [done|]. by intros ? [= <-]. Qed.

Lemma reads_lift {E T} w (x : result T E) (Q : T → Prop) : (∀ y, x = Ok y → Q y) → reads w (io_lift x) Q.
Proof. intros HQ w0 w' r Hs [= <- <-]. by split. Qed.

Lemma reads_guard {E T} w b (e : E) (k : io W E T) Q : (b = false → reads w k Q) → reads w (io_fail_if b e k) Q.
Proof.
  unfold io_fail_if. destruct b; [|by auto]. intros _ w0 w' r Hs [= <- <-]. by split.
Qed.

Lemma reads_map_err {E E' T} w (g : E → E') (m : io W E T) Q : reads w m Q → reads w (io_map_err g m) Q.
Proof.
  intros Hm w0 w' r Hs (r' & H & ->)%io_map_err_inv. apply Hm in H as [Hs' HQ]; [|done]. split; [done|].
  intros x Hx. apply HQ. destruct r'; [by injection Hx as <-|done].
Qed.

Lemma reads_weaken {E T} w (m : io W E T) (P Q : T → Prop) : reads w m P → (∀ x, P x → Q x) → reads w m Q.
Proof. intros Hm Hi w0 w' r Hs H. apply Hm in H as [? HP]; [|done]. split; [done|]. intros x ->. by apply Hi, HP. Qed.

Lemma reads_target_of {w} a c :
  reads w (target_of a c) (fun t => target_path t = anchor_path a ++ [c]).
Proof. intros w0 w' r Hs (Ht & Hv & Hr)%target_of_law. split; [by eapply still_trans|done]. Qed.

Lemma reads_read_target {w} t : reads w (read_target t) (fun o => o = file_at (tview w) (target_path t)).
Proof.
  intros w0 w' r Hs (Ht & Hv & Hr)%read_target_law. split; [by eapply still_trans|]. intros o E.
  rewrite (Hr o E). apply Hs.
Qed.

Lemma reads_open_parents w root parents : anchor_path root = [] →
  reads w (open_parents root None [] parents) (fun '(a, e, m) =>
    anchor_path (default root a) = e ∧ (a = None → e = []) ∧
    ∃ rest, parents = e ++ rest ∧ m = missing_paths e rest ∧
      (rest ≠ [] → ∀ p, file_at (tview w) (parents ++ p) = None)).
Proof.
  intros Hroot w0 w' r Hs H. destruct r as [[[a e] m]|err].
  - apply open_parents_spec in H as (Ht & Hv & Hp & He & rest & Hrest & Hm & Hno); [|done..].
    split; [by eapply still_trans|]. intros ? [= <-]. split_and!; [done..|]. exists rest.
    split_and!; [done..|]. intros Hne p. rewrite <- (proj1 (proj1 Hs)). by apply Hno.
  - split; [|done]. enough (still w0 w') by by eapply still_trans. clear Hs. revert H.
    generalize (None : option trusted_anchor). generalize ([] : list string). revert w0.
    induction parents as [|c parents IH]; intros w0 ex an H; cbn [open_parents] in H; [done|].
    destruct (open_subdirectory (default root an) c w0) as [w1 [next|e]] eqn:H1;
      apply open_subdirectory_law in H1 as (Ht1 & Hv1 & _).
    + apply IH in H. by eapply still_trans.
    + destruct e; try done; injection H as <- <-; done.
Qed.

Lemma reads_snapshot_file w (lock : ProjectTransactionLock F) f :
  anchor_path (tl_project_anchor lock) = [] →
  reads w (snapshot_file lock f) (fun s =>
    ∃ p, file_names lock f = Some p ∧ file_ok tview vview (tview w) p s ∧ planned_file f s).
Proof.
  intros Hroot. unfold snapshot_file.
  eapply reads_bind; [apply (reads_lift _ _ (fun c => relative_project_path lock (if_path f) = Ok c))|].
  { intros y. by destruct (relative_project_path lock (if_path f)); intros [= <-]. }
  intros c Hc. eapply reads_bind; [apply (reads_lift _ _ (fun names => normal_names c = Some names))|].
  { intros y. by destruct (normal_names c); intros [= <-]. }
  intros names Hn. eapply reads_bind; [apply (reads_lift _ _ (fun leaf => last names = Some leaf))|].
  { intros y. by destruct (last names); intros [= <-]. }
  intros leaf Hl. eapply reads_bind; [apply reads_map_err, reads_open_parents; done|].
  intros [[a e] m] (Ha & He & rest & Hrest & Hm & Hno).
  assert (names = removelast names ++ [leaf]) as Hnames.
  { destruct names as [|x names] using rev_ind; [done|]. rewrite last_snoc in Hl. injection Hl as ->.
    by rewrite removelast_last. }
  eapply (reads_bind _ _ _ (fun t : option anchored_target =>
     match t with Some t => target_path t = names | None => rest ≠ [] end)).
  { destruct m as [|x m].
    - symmetry in Hm. apply missing_paths_nil in Hm as ->. eapply reads_bind; [apply reads_map_err, reads_target_of|].
      intros t Ht. apply reads_ret. by rewrite Ht, Ha, Hnames at 1; rewrite Hrest, app_nil_r.
    - apply reads_ret. intros ->. done. }
  intros t Ht. eapply (reads_bind _ _ _ (fun o => o = file_at (tview w) names)).
  { destruct t as [t|].
    - eapply reads_weaken; [apply reads_map_err, reads_read_target|]. cbn. intros o ->. by rewrite Ht.
    - apply reads_ret. symmetry. rewrite Hnames. by apply Hno. }
  intros o ->. apply reads_guard. intros Hb. apply reads_guard. intros [Hi Hm']%orb_false_iff.
  apply reads_ret. exists names.
  assert (reviewed f (file_at (tview w) names)) as Hrev.
  { split_and!; [intros x E; rewrite E in Hb|intros x E; rewrite E in Hi|intros x E; rewrite E in Hm'];
      by eapply bool_decide_eq_true, negb_false_iff. }
  unfold file_names. rewrite Hc. split_and!; [done| |by split_and!].
  constructor; cbn; try done.
  - intros t' ->. done.
  - by intros a' ->.
  - by exists rest.
Qed.

Lemma still_kept w w1 w2 : still w w1 → kept vview tview w1 w2 → still w w2.
Proof. intros [Ht Hv] [Hv2 Ht2]. split; [by rewrite Ht2|by rewrite Hv2]. Qed.

Lemma reads_exists w n : reads w (exists_name n) (fun b => b = bool_decide (is_Some (vd_secrets (vview w) !! n))).
Proof.
  intros w0 w' r Hs (Hv & Ht & Hr)%exists_law. split; [by eapply still_kept|]. intros b Hb.
  destruct Hs as [_ <-]. by apply Hr.
Qed.

Lemma reads_retrieve w n : reads w (retrieve n) (fun x => vd_secrets (vview w) !! n = Some x).
Proof.
  intros w0 w' r Hs (Hv & Ht & Hr & _)%retrieve_law. split; [by eapply still_kept|]. intros b Hb.
  destruct Hs as [_ <-]. by apply Hr.
Qed.

Lemma reads_metadata w n : reads w (get_metadata n) (fun m => m = vd_metadata (vview w) !! n).
Proof.
  intros w0 w' r Hs (Hv & Ht & Hr)%get_metadata_law. split; [by eapply still_kept|]. intros b Hb.
  destruct Hs as [_ <-]. by apply Hr.
Qed.

Lemma reads_validation w n :
  reads w (get_validation_metadata_exact n) (fun m => m = vd_validation (vview w) !! n).
Proof.
  intros w0 w' r Hs (Hv & Ht & Hr)%get_validation_law. split; [by eapply still_kept|]. intros b Hb.
  destruct Hs as [_ <-]. by apply Hr.
Qed.

Definition planned_secret (secret : InitSecret) (s : SecretSnapshot) : Prop :=
  ss_name s = is_name secret ∧ ss_after s = is_replacement secret ∧
  ss_inherited_protection s = is_inherited_protection secret ∧ ss_touched s = false ∧
  (∀ e, is_expected_before secret = Some e → ss_before s = e) ∧
  (is_Some (is_inherited_protection secret) → ss_before s = None ∧ is_Some (is_replacement secret)).

Lemma reads_snapshot_secret w sv secret :
  source_quiet vview tview sv →
  reads w (snapshot_secret sv secret) (fun s => secret_ok (vview w) s ∧ planned_secret secret s).
Proof.
  intros Hq. unfold snapshot_secret. eapply reads_bind; [apply reads_map_err, reads_exists|]. intros existed ->.
  eapply (reads_bind _ _ _ (fun b => b = vd_secrets (vview w) !! is_name secret)).
  { case_bool_decide as E.
    - eapply reads_bind; [apply reads_map_err, reads_retrieve|]. intros x Hx. by apply reads_ret.
    - apply reads_ret. destruct (vd_secrets (vview w) !! is_name secret); [by destruct E|done]. }
  intros before ->. apply reads_guard. intros Hexp. apply reads_guard. intros Hinh.
  eapply (reads_bind _ _ _ (fun _ => True)).
  { destruct (is_inherited_protection secret) as [p|]; [|by apply reads_ret].
    destruct (is_replacement secret) as [x|]; [|by apply reads_ret].
    intros w0 w' r Hs H. split; [|done]. eapply still_kept; [exact Hs|].
    apply (verify_copy_source_spec vview tview (source_backend sv) p x w0 w' r); [|done].
    by apply source_backend_quiet. }
  intros _ _. eapply reads_bind; [apply reads_map_err, reads_metadata|]. intros m ->.
  eapply reads_bind; [apply reads_map_err, reads_validation|]. intros x ->. apply reads_ret.
  split; [done|]. split_and!; cbn; try done.
  - intros e He. rewrite He in Hexp. by apply negb_false_iff, bool_decide_eq_true in Hexp.
  - intros Hi. rewrite bool_decide_true in Hinh by done. cbn in Hinh. apply orb_false_iff in Hinh as [H1 H2].
    apply bool_decide_eq_false in H1. apply negb_false_iff, bool_decide_eq_true in H2. split; [|done].
    destruct (vd_secrets (vview w) !! is_name secret); [by destruct H1|done].
Qed.

Lemma reads_snapshot_files w (lock : ProjectTransactionLock F) files :
  anchor_path (tl_project_anchor lock) = [] →
  reads w (snapshot_files lock files) (fun ss => ∃ ps,
    Forall2 (fun p f => file_names lock f = Some p) ps files ∧
    Forall2 (file_ok tview vview (tview w)) ps ss ∧ Forall2 planned_file files ss).
Proof.
  intros Hroot. induction files as [|f files IH]; cbn [snapshot_files].
  { apply reads_ret. by exists []. }
  eapply reads_bind; [by apply reads_snapshot_file|]. intros s (p & Hp & Hok & Hpl).
  eapply reads_bind; [exact IH|]. intros ss (ps & Hps & Hoks & Hpls). apply reads_ret. exists (p :: ps).
  split_and!; by constructor.
Qed.

Lemma reads_snapshot_secrets w sv secrets :
  source_quiet vview tview sv →
  reads w (snapshot_secrets sv secrets) (fun ss =>
    Forall (secret_ok (vview w)) ss ∧ Forall2 planned_secret secrets ss).
Proof.
  intros Hq. induction secrets as [|s secrets IH]; cbn [snapshot_secrets].
  { apply reads_ret. done. }
  eapply reads_bind; [by apply reads_snapshot_secret|]. intros x [Hok Hpl].
  eapply reads_bind; [exact IH|]. intros ss [Hoks Hpls]. apply reads_ret. split; by constructor.
Qed.

(** ** The commit *)

Section commit.
Context (root : trusted_anchor) (Hroot : anchor_path root = []).
Context (sv : SourceVault) (Hquiet : source_quiet vview tview sv).
Context (w : W) (Hwf : vault_wf (vview w)).
Context (ps : list (list string)) (files : list FileSnapshot) (secrets : list SecretSnapshot).
Context (Hfiles : Forall2 (file_ok tview vview (tview w)) ps files) (Hps : NoDup ps).
Context (Hsecrets : Forall (secret_ok (vview w)) secrets) (Hnames : NoDup (map ss_name secrets)).

(** What the commit leaves, however far it got *)
Record forward_ok (f : forward) : Prop := {
  fo_dirs : dirs_good tview vview (tview w) (fw_dirs f) (tview (fw_world f));
  fo_files : Forall2 (file_ok tview vview (tview w)) ps (fw_files f);
  fo_plan : Forall2 same_plan files (fw_files f);
  fo_file_dirty : ∀ q, file_at (tview (fw_world f)) q = file_at (tview w) q ∨
    ∃ s, (q, s) ∈ zip ps (fw_files f) ∧ fs_touched s = true;
  fo_secret_plan : Forall2 same_secret secrets (fw_secrets f);
  fo_secret_dirty : ∀ n, same_entry n (vview w) (vview (fw_world f)) ∨
    ∃ s, s ∈ fw_secrets f ∧ ss_name s = n ∧ ss_touched s = true;
  fo_done : fw_result f = Ok tt →
    ds_unresolved (fw_dirs f) = false ∧
    (∀ p s, (p, s) ∈ zip ps (fw_files f) → written p s (tview (fw_world f))) ∧
    (∀ s, s ∈ fw_secrets f → entry_after s (vview (fw_world f))) ∧
    (sv = Destination → ∀ s p x, s ∈ fw_secrets f → ss_inherited_protection s = Some p → ss_after s = Some x →
       vd_secrets (vview (fw_world f)) !! ip_source_name p = Some x ∧
       vd_metadata (vview (fw_world f)) !! ip_source_name p = ip_source_metadata p);
  fo_point : ∀ p s, (p, s) ∈ zip ps (fw_files f) → fs_commit_last s = true →
    file_at (tview (fw_world f)) p ≠ file_at (tview w) p →
    ∀ s', s' ∈ fw_secrets f → entry_after s' (vview (fw_world f));
}.

Lemma same_plans_refl l : Forall2 same_plan l l.
Proof. induction l; constructor; [apply same_plan_refl|done]. Qed.

Lemma same_secrets_refl l : Forall2 same_secret l l.
Proof. induction l; constructor; [apply same_secret_refl|done]. Qed.

Lemma same_plan_trans s1 s2 s3 : same_plan s1 s2 → same_plan s2 s3 → same_plan s1 s3.
Proof. intros (?&?&?&?&?&?) (?&?&?&?&?&?). split_and!; (congruence || auto). Qed.

Lemma same_plans_trans l1 : ∀ l2 l3, Forall2 same_plan l1 l2 → Forall2 same_plan l2 l3 → Forall2 same_plan l1 l3.
Proof.
  induction l1 as [|s l1 IH]; intros l2 l3 H12 H23; inversion H12; subst; inversion H23; subst; constructor.
  - by eapply same_plan_trans.
  - by eapply IH.
Qed.

Lemma written_same_plan p s s' t : same_plan s s' → written p s t → written p s' t.
Proof.
  intros (_ & Ha & _ & Hx & Hb & _) (c & Hc & Hbytes & Hperm). exists c. rewrite Ha. split_and!; [done..|].
  rewrite Hperm. unfold write_permissions. by rewrite Hx, Hb.
Qed.

Lemma forward_spec :
  forward_ok (commit_forward root AtomicFileWriter sv files secrets (mk_dir_state [] false true) w).
Proof.
  unfold commit_forward.
  assert (dirs_ok tview vview (tview w) (mk_dir_state [] false true) (tview w)) as Hd0.
  { split; [by intros p c ?%elem_of_nil|done]. }
  destruct (commit_files root AtomicFileWriter false files w (mk_dir_state [] false true)) as [[[w1 d1] files1] r1] eqn:H1.
  apply (commit_files_spec tview vview root Hroot (tview w)) with (ps := ps) in H1
    as (Hv1 & Hg1 & Hf1 & Hp1 & Hdirty1 & Hr1); [|done..].
  assert (∀ p s, (p, s) ∈ zip ps files1 → fs_commit_last s = true →
    file_at (tview w1) p = file_at (tview w) p) as Hlast1.
  { intros p s Hin Hl. destruct (Hdirty1 p) as [?|(s' & Hin' & _ & Hl')]; [done|].
    rewrite (zip_unique _ _ _ _ _ Hps Hin' Hin) in Hl'. congruence. }
  destruct r1 as [[]|e]; cbn.
  2:{ constructor; cbn; try done.
      - intros q. destruct (Hdirty1 q) as [?|(s & ? & ? & _)]; eauto.
      - apply same_secrets_refl.
      - intros n. left. rewrite Hv1. apply same_entry_refl.
      - intros p s Hin Hl Hne. by apply Hlast1 in Hin. }
  destruct (Hr1 eq_refl) as [Hu1 Hw1]. specialize (Hw1 Hps). rewrite <- Hv1 in Hwf.
  destruct (commit_secrets sv secrets None w1) as [[[w2 secrets1] c1] r2] eqn:H2.
  apply (commit_secrets_spec vview tview) in H2 as (Ht2 & Hwf2 & Hs2 & Hdirty2 & Hr2); [|done..].
  rewrite Hv1 in Hdirty2.
  destruct r2 as [[]|e]; cbn.
  2:{ constructor; cbn; try done; rewrite ?Ht2; try done.
      - intros q. destruct (Hdirty1 q) as [?|(s & ? & ? & _)]; eauto.
      - intros p s Hin Hl Hne. by apply Hlast1 in Hin. }
  specialize (Hr2 eq_refl Hnames).
  destruct (verify_sources sv secrets1 c1 w2) as [[w3 c2] r3] eqn:H3.
  apply (verify_sources_spec vview tview) in H3 as [[Hv3 Ht3] Hr3]; [|done].
  destruct r3 as [[]|e]; cbn.
  2:{ constructor; cbn; try done; rewrite ?Ht3, ?Hv3, ?Ht2; try done.
      - intros q. destruct (Hdirty1 q) as [?|(s & ? & ? & _)]; eauto. }
  assert (dirs_ok tview vview (tview w) d1 (tview w3)) as Hd3.
  { rewrite Ht3, Ht2. destruct Hg1; [congruence|done]. }
  destruct (commit_files root AtomicFileWriter true files1 w3 d1) as [[[w4 d2] files2] r4] eqn:H4.
  apply (commit_files_spec tview vview root Hroot (tview w)) with (ps := ps) in H4
    as (Hv4 & Hg4 & Hf4 & Hp4 & Hdirty4 & Hr4); [|done..].
  constructor; cbn; try done; rewrite ?Hv4, ?Hv3; try done.
  - by eapply same_plans_trans.
  - intros q. destruct (Hdirty4 q) as [->|(s & ? & ? & _)]; [|eauto]. rewrite Ht3, Ht2.
    destruct (Hdirty1 q) as [?|(s & Hin & Ht & _)]; [by left|right].
    apply (zip_elem (flip same_plan) ps files2 files1) in Hin as (s' & Hin' & Hs'); [|by apply Forall2_flip].
    exists s'. split; [done|]. by apply Hs'.
  - intros E. destruct (Hr4 E) as [Hu4 Hw4]. split_and!; [done| |done|].
    + intros p s Hin. destruct (fs_commit_last s) eqn:El; [by apply Hw4|].
      apply (zip_elem same_plan ps files1 files2) in Hin as Hin1; [|done]. destruct Hin1 as (s1 & Hin1 & Hs1).
      assert (fs_commit_last s1 = false) as El1 by (destruct Hs1 as (_ & _ & Hl & _); congruence).
      eapply written_same_plan; [exact Hs1|]. destruct (Hw1 _ _ Hin1 El1) as (c & Hc & ?). exists c. split; [|done].
      destruct (Hdirty4 p) as [->|(s' & Hin' & _ & Hl')]; [by rewrite Ht3, Ht2|].
      rewrite (zip_unique _ _ _ _ _ Hps Hin' Hin) in Hl'. congruence.
    + intros Hsv. by apply Hr3.
Qed.
End commit.

(** What a failed commit leaves once it is rolled back *)
Definition undone (w w' : W) : Prop :=
  vview w' = vview w ∧
  (∀ q, file_content (file_at (tview w') q) = file_content (file_at (tview w) q)) ∧
  (∀ q, dir_at (tview w') q = dir_at (tview w) q).

Lemma still_undone w w' : still w w' → undone w w'.
Proof. intros [[Hf Hd] Hv]. split_and!; [done|intros q; by rewrite Hf|done]. Qed.

Lemma undone_still w1 w2 w3 : still w1 w2 → undone w2 w3 → undone w1 w3.
Proof. intros [[Hf Hd] Hv] (Hv' & Hf' & Hd'). split_and!; [congruence|intros q; by rewrite Hf', Hf|intros q; by rewrite Hd', Hd]. Qed.

(** Nothing but the entries [names] and the files [ps] changed. *)
Definition within (names : list string) (ps : list (list string)) (w w' : W) : Prop :=
  (∀ n, n ∉ names → same_entry n (vview w) (vview w')) ∧
  (∀ q, q ∉ ps → file_at (tview w') q = file_at (tview w) q).

Lemma within_still names ps w1 w2 w3 : still w1 w2 → within names ps w2 w3 → within names ps w1 w3.
Proof. intros [[Hf Hd] Hv] [Hs Hq]. split; [by rewrite <- Hv|]. intros q Hn. by rewrite Hq, Hf. Qed.

Section roll_back.
Context (root : trusted_anchor) (Hroot : anchor_path root = []).
Context (sv : SourceVault) (Hquiet : source_quiet vview tview sv).
Context (w : W) (Hwf : vault_wf (vview w)).
Context (ps : list (list string)) (files : list FileSnapshot) (secrets : list SecretSnapshot).
Context (Hfiles : Forall2 (file_ok tview vview (tview w)) ps files) (Hps : NoDup ps).
Context (Hsecrets : Forall (secret_ok (vview w)) secrets) (Hnames : NoDup (map ss_name secrets)).

Lemma forward_within f : forward_ok sv w ps files secrets f →
  within (map ss_name secrets) ps w (fw_world f).
Proof.
  intros H. split.
  - intros n Hn. destruct (fo_secret_dirty _ _ _ _ _ _ H n) as [?|(s & Hin & <- & _)]; [done|].
    destruct Hn. rewrite <- (same_secrets_names _ _ (fo_secret_plan _ _ _ _ _ _ H)). by apply in_names.
  - intros q Hq. destruct (fo_file_dirty _ _ _ _ _ _ H q) as [?|(s & Hin & _)]; [done|].
    by apply elem_of_zip_l in Hin.
Qed.

Lemma forward_secrets f : forward_ok sv w ps files secrets f → Forall (secret_ok (vview w)) (fw_secrets f).
Proof. intros H. eapply secret_oks_same; [exact (fo_secret_plan _ _ _ _ _ _ H)|done]. Qed.

Lemma commit_or_roll_back_spec w' r :
  commit_or_roll_back root AtomicFileWriter sv files secrets w = (w', r) →
  within (map ss_name secrets) ps w w' ∧
  match r with
  | Ok receipt => ∃ f, forward_ok sv w ps files secrets f ∧ fw_result f = Ok tt ∧ fw_world f = w' ∧
      receipt = mk_receipt (map ss_name (fw_secrets f)) (map fs_path (fw_files f)) (ds_durability_verified (fw_dirs f))
  | Err (RollbackIncomplete _) => True
  | Err _ => undone w w'
  end.
Proof.
  unfold commit_or_roll_back.
  pose proof (forward_spec root Hroot sv Hquiet w Hwf ps files secrets Hfiles Hps Hnames) as H.
  set (f := commit_forward _ _ _ _ _ _ _) in *. clearbody f. pose proof (forward_within f H) as [Hws Hwq].
  destruct (fw_result f) as [[]|[target reason]] eqn:Hres.
  { intros [= <- <-]. split; [done|]. by exists f. }
  destruct (rollback_files (fw_files f) (fw_world f)) as [[w1 files1] ok1] eqn:H1.
  destruct (rollback_directories (fw_dirs f) w1) as [w2 ok2] eqn:H2.
  destruct (rollback_secrets (fw_secrets f) w2) as [[w3 secrets1] ok3] eqn:H3.
  apply (rollback_files_spec tview vview (tview w)) with (ps := ps) in H1 as (Hv1 & Hd1 & Hout1 & Hok1);
    [|exact (fo_files _ _ _ _ _ _ H)].
  apply (rollback_directories_spec tview vview (tview w)) in H2 as (Hv2 & Hf2 & Hok2);
    [|eapply dirs_good_same; [exact Hd1|exact (fo_dirs _ _ _ _ _ _ H)]].
  apply (rollback_secrets_spec vview tview (vview w)) in H3 as (Ht3 & Hout3 & Hok3); [|done|by apply forward_secrets].
  rewrite (same_secrets_names _ _ (fo_secret_plan _ _ _ _ _ _ H)) in Hout3.
  intros [= <- <-]. split.
  { split.
    - intros n Hn. eapply same_entry_trans; [by apply Hws|]. rewrite <- Hv1, <- Hv2. by apply Hout3.
    - intros q Hq. rewrite Ht3, Hf2, Hout1 by done. by apply Hwq. }
  destruct (ok1 && ok2 && ok3) eqn:Eok; [|done].
  apply andb_true_iff in Eok as [[E1 E2]%andb_true_iff E3].
  assert (undone w w3) as Hu.
  { split_and!.
    - apply same_entries_eq. intros n. destruct (Hok3 E3 n) as [Ha Hb]. destruct Ha as [Ha|Ha]; [|done].
      destruct (fo_secret_dirty _ _ _ _ _ _ H n) as [Hs|(s & Hin & Hn & Ht)]; [|by eapply Hb].
      rewrite Hv2, Hv1 in Ha. by eapply same_entry_trans.
    - intros q. rewrite Ht3, Hf2. destruct (Hok1 E1 q) as [[Ha|Ha] Hb]; [|done].
      destruct (fo_file_dirty _ _ _ _ _ _ H q) as [Hs|(s & Hin & Ht)]; [by rewrite Ha, Hs|by eapply Hb].
    - intros q. rewrite Ht3. by apply Hok2. }
  by destruct (fw_changed f).
Qed.
End roll_back.
End spec.
