(* ===== verification/InitTxnSpec.v ===== *)
(** * What a transaction guarantees

    A transaction changes everything it plans or nothing
    ([commit_init_atomic]); the files that carry tokens are written only when
    every vault entry is ([tokens_after_entries]); a copied entry has the
    protection of its source ([copies_keep_protection]).  When putting back a
    committed file fails as well, the entries are removed all the same
    ([double_failure_loses_entries]).  The file starts with the machine that
    the concrete runs use. *)

From S2P Require Import Prelude Text Ids External StateDir Rotation VaultMeta VaultData AnchoredFs InitTxn InitTxnFiles InitTxnSecrets InitTxnCommit.

(** ** An in-memory machine for transactions

    A vault as its contents, a project as its files and directories, a
    counter of file identities, and the numbers of the changing calls that
    fail without an effect: the interfaces a transaction uses have instances
    over it that obey their laws, so that a theorem about transactions can be
    applied to a concrete run. *)

Record demo := mk_demo {
  dm_vault : VaultData;
  dm_files : gmap (list string) AnchoredRead;
  dm_dirs : gset (list string);
  dm_next : N;
  dm_fails : list N;
}.

Definition with_files (f : gmap (list string) AnchoredRead) (w : demo) : demo :=
  mk_demo (dm_vault w) f (dm_dirs w) (dm_next w) (dm_fails w).
Definition with_dirs (d : gset (list string)) (w : demo) : demo :=
  mk_demo (dm_vault w) (dm_files w) d (dm_next w) (dm_fails w).
Definition with_vault (v : VaultData) (w : demo) : demo :=
  mk_demo v (dm_files w) (dm_dirs w) (dm_next w) (dm_fails w).

(** A changing call: it is numbered, and may be one that fails. *)
Definition tick {E T} (e : E) (m : io demo E T) : io demo E T := fun w =>
  let w1 := mk_demo (dm_vault w) (dm_files w) (dm_dirs w) (dm_next w + 1) (dm_fails w) in
  if bool_decide (dm_next w ∈ dm_fails w) then (w1, Err e) else m w1.

Definition demo_tree (w : demo) : tree :=
  mk_tree (fun p => dm_files w !! p) (fun p => bool_decide (p ∈ dm_dirs w)).

(** ** Files *)

Definition is_path_prefix (p q : list string) : bool := bool_decide (take (length p) q = p).

Definition occupied (p : list string) (w : demo) : bool :=
  existsb (fun e => is_path_prefix p e.1) (map_to_list (dm_files w)).

Definition demo_open (a : list string) (c : string) : io demo ErrorKind (list string) := fun w =>
  if bool_decide (a ++ [c] ∈ dm_dirs w) then (w, Ok (a ++ [c]))
  else if occupied (a ++ [c]) w then (w, Err OtherKind)
  else (w, Err NotFound).

Definition demo_create (a : list string) (c : string)
    : io demo ErrorKind (AnchoredDirectoryCreation (list string)) :=
  tick OtherKind (fun w =>
    if bool_decide (a ++ [c] ∈ dm_dirs w) then (w, Err AlreadyExists)
    else (with_dirs ({[a ++ [c]]} ∪ dm_dirs w) w, Ok (DirDurable (a ++ [c])))).

Definition demo_remove (d : list string) : io demo ErrorKind (AnchoredEffect unit) :=
  tick OtherKind (fun w =>
    if bool_decide (d ∈ dm_dirs w) && negb (occupied d w) then
      (with_dirs (dm_dirs w ∖ {[d]}) w, Ok (Durable tt))
    else (w, Err OtherKind)).

Definition demo_replace (t : list string) (expected : option AnchoredRead) (bytes : string)
    (perms : AnchoredFilePermissions) : io demo ErrorKind (AnchoredEffect AnchoredRead) :=
  tick OtherKind (fun w =>
    if bool_decide (dm_files w !! t = expected) then
      let new := mk_read bytes (mk_identity 1 (dm_next w)) perms in
      (with_files (<[t := new]> (dm_files w)) w, Ok (Durable new))
    else (w, Err OtherKind)).

Definition demo_unlink (t : list string) (expected : AnchoredRead) : io demo ErrorKind (AnchoredEffect unit) :=
  tick OtherKind (fun w =>
    if bool_decide (dm_files w !! t = Some expected) then
      (with_files (delete t (dm_files w)) w, Ok (Durable tt))
    else (w, Err OtherKind)).

#[export] Instance demo_fs : AnchoredFs demo := {
  trusted_anchor := list string;
  anchored_target := list string;
  created_directory := list string;
  open_subdirectory := demo_open;
  create_private_child := demo_create;
  created_anchor := fun d => d;
  remove_if_empty_exact := demo_remove;
  target_of := fun a c w => (w, Ok (a ++ [c]));
  read_target := fun t w => (w, Ok (dm_files w !! t));
  replace_if_exact_with_permissions := demo_replace;
  unlink_if_exact := demo_unlink;
  io_error_text := fun _ => "I/O error"%string;
}.

#[export] Instance demo_locks : ProjectLocks demo_fs := {
  acquire_project_transaction_lock := fun dir w => (w, Ok (mk_lock dir dir [] (mk_identity 1 0)));
  acquire_project_transaction_locks := fun dir _ w => (w, Ok (mk_lock dir dir [] (mk_identity 1 0)));
}.

(** ** The vault *)

Definition demo_now : N := 1000000.

Definition change (f : VaultData → result VaultData PhantomError) : io demo PhantomError unit :=
  tick (VaultError "write failed") (fun w =>
    match f (dm_vault w) with Ok v => (with_vault v w, Ok tt) | Err e => (w, Err e) end).

Definition change_if (f : VaultData → result bool PhantomError) (g : VaultData → VaultData)
    : io demo PhantomError bool :=
  tick (VaultError "write failed") (fun w =>
    match f (dm_vault w) with
    | Ok true => (with_vault (g (dm_vault w)) w, Ok true)
    | Ok false => (w, Ok false)
    | Err e => (w, Err e)
    end).

Definition ask {T} (f : VaultData → result T PhantomError) : io demo PhantomError T := fun w =>
  (w, f (dm_vault w)).

Definition data_retrieve (n : string) (v : VaultData) : result string PhantomError :=
  ok_or (vd_secrets v !! n) (SecretNotFound n).

Definition data_exists (n : string) (v : VaultData) : bool := bool_decide (is_Some (vd_secrets v !! n)).

#[export] Instance demo_backend : VaultBackend demo := {
  store := fun n x => change (fun v => Ok (data_store demo_now n x v));
  retrieve := fun n => ask (data_retrieve n);
  retrieve_for_injection := fun n => ask (data_retrieve n);
  delete_secret := fun n => change (fun v =>
    if data_exists n v then Ok (data_delete n v) else Err (SecretNotFound n));
  compare_and_swap := fun n e r =>
    change_if (fun v => Ok (bool_decide (vd_secrets v !! n = e))) (data_swap demo_now n r);
  list_names := ask (fun v => Ok (map fst (map_to_list (vd_secrets v))));
  exists_name := fun n => ask (fun v => Ok (data_exists n v));
  get_metadata := fun n => ask (fun v => Ok (vd_metadata v !! n));
  set_metadata := fun n m => change (fun v =>
    if data_exists n v then Ok (with_metadata n (Some m) v) else Err (SecretNotFound n));
  compare_and_swap_metadata_batch := fun l => change_if (check_metadata_batch l) (apply_metadata_batch l);
  list_with_metadata := ask (fun v => Ok (map (fun e => (e.1, vd_metadata v !! e.1)) (map_to_list (vd_secrets v))));
  store_with_expiry := fun n x d => change (fun v => Ok (data_store_with_expiry demo_now n x d v));
  get_validation_metadata := fun n => ask (fun v => Ok (default default_validation (vd_validation v !! n)));
  set_validation_metadata := fun n m => change (fun v =>
    if data_exists n v then Ok (with_validation n (Some m) v) else Err (SecretNotFound n));
  get_validation_metadata_exact := fun n => ask (fun v => Ok (vd_validation v !! n));
  compare_and_swap_validation_metadata_batch := fun l =>
    change_if (check_validation_batch l) (apply_validation_batch l);
}.

(** ** The laws *)

(** A call that fails changes nothing; one that runs starts from what is
    seen. *)
Lemma tick_inv {E T} (e : E) (m : io demo E T) w w' r :
  tick e m w = (w', r) →
  (dm_vault w' = dm_vault w ∧ demo_tree w' = demo_tree w ∧ r = Err e) ∨
  ∃ w1, m w1 = (w', r) ∧ dm_vault w1 = dm_vault w ∧ demo_tree w1 = demo_tree w.
Proof.
  unfold tick. case_bool_decide; [intros [= <- <-]; by left|]. intros Hm. right. eexists. split; [exact Hm|done].
Qed.

Lemma occupied_false p w k x : occupied p w = false → dm_files w !! k = Some x → is_path_prefix p k = false.
Proof.
  unfold occupied. intros H Hk. apply Bool.not_true_iff_false. intros Hp.
  apply Bool.not_true_iff_false in H. apply H, existsb_exists. exists (k, x). split; [|done].
  by apply list_elem_of_In, elem_of_map_to_list.
Qed.

#[export] Instance demo_fs_laws : AnchoredFsLaws demo_fs demo_tree dm_vault.
Proof.
  refine {| anchor_path := fun a : trusted_anchor (AnchoredFs := demo_fs) => a : list string;
            target_path := fun t : anchored_target (AnchoredFs := demo_fs) => t : list string;
            created_path := fun d : created_directory (AnchoredFs := demo_fs) => d : list string |};
    cbn -[demo_tree].
  - done.
  - intros a c w w' r. unfold demo_open. case_bool_decide as E; [intros [= <- <-]; split_and!; try done; by intros ? [= <-]|].
    destruct (occupied (a ++ [c]) w) eqn:Eo; intros [= <- <-]; (split_and!; try done).
    intros _ p. cbn. destruct (dm_files w !! (a ++ c :: p)) as [x|] eqn:Ex; [|done].
    apply (occupied_false _ _ _ _ Eo) in Ex. unfold is_path_prefix in Ex.
    rewrite bool_decide_true in Ex; [done|]. change (c :: p) with ([c] ++ p). rewrite app_assoc. apply take_app_length.
  - intros a c w w' r [(Hv & Ht & ->)|(w1 & H & Hv & Ht)]%tick_inv; [by rewrite Hv, Ht|].
    rewrite <- Hv, <- Ht. revert H. case_bool_decide as E; intros [= <- <-]; [done|]. unfold but_dir; split_and!; try done; cbn.
    + by apply bool_decide_eq_false.
    + apply bool_decide_eq_true. set_solver.
    + intros q Hq. apply bool_decide_ext. set_solver.
  - intros d w w' r [(Hv & Ht & ->)|(w1 & H & Hv & Ht)]%tick_inv; [by rewrite Hv, Ht|].
    rewrite <- Hv, <- Ht. revert H. case_bool_decide as E; cbn; [|by intros [= <- <-]].
    destruct (occupied d w1); intros [= <- <-]; [done|]. unfold but_dir; split_and!; try done; cbn.
    + apply bool_decide_eq_false. set_solver.
    + intros q Hq. apply bool_decide_ext. set_solver.
  - intros a c w w' r [= <- <-]. split_and!; try done. by intros t [= <-].
  - intros t w w' r [= <- <-]. split_and!; try done. by intros o [= <-].
  - intros t e b p w w' r [(Hv & Ht & ->)|(w1 & H & Hv & Ht)]%tick_inv; [by rewrite Hv, Ht|].
    rewrite <- Hv, <- Ht. revert H. case_bool_decide as E; intros [= <- <-]; [|done].
    unfold but_file; split_and!; try done; cbn; [by rewrite lookup_insert_eq|]. intros q Hq. by rewrite lookup_insert_ne.
  - intros t e w w' r [(Hv & Ht & ->)|(w1 & H & Hv & Ht)]%tick_inv; [by rewrite Hv, Ht|].
    rewrite <- Hv, <- Ht. revert H. case_bool_decide as E; intros [= <- <-]; [|done].
    unfold but_file; split_and!; try done; cbn; [by rewrite lookup_delete_eq|]. intros q Hq. by rewrite lookup_delete_ne.
Defined.

Lemma change_if_inv f g w w' r :
  change_if f g w = (w', r) →
  demo_tree w' = demo_tree w ∧
  let done := f (dm_vault w) = Ok true ∧ dm_vault w' = g (dm_vault w) in
  match r with
  | Ok true => done
  | Ok false => dm_vault w' = dm_vault w
  | Err _ => dm_vault w' = dm_vault w ∨ done
  end.
Proof.
  intros [(Hv & Ht & ->)|(w1 & H & Hv & Ht)]%tick_inv; [by auto|]. rewrite <- Hv, <- Ht.
  destruct (f (dm_vault w1)) as [[]|e] eqn:Ef; injection H as <- <-; (split; [done|]); cbn; auto.
Qed.

#[export] Instance demo_vault_laws : VaultLaws demo_backend dm_vault demo_tree.
Proof.
  constructor; cbn -[demo_tree].
  - intros n w w' r [= <- <-]. unfold data_retrieve. split_and!; try done; intros x;
      (destruct (vd_secrets (dm_vault w) !! n); cbn; [by intros [= <-]|done]).
  - intros n w w' r [= <- <-]. split_and!; try done. by intros b [= <-].
  - intros n w w' r [= <- <-]. split_and!; try done. by intros b [= <-].
  - intros n w w' r [= <- <-]. split_and!; try done. by intros b [= <-].
  - intros n e x w w' r [Ht H]%change_if_inv. split; [done|]. cbn in H.
    assert (∀ P : Prop, (Ok (bool_decide (vd_secrets (dm_vault w) !! n = e)) = Ok true (E := PhantomError) ∧ P) →
      vd_secrets (dm_vault w) !! n = e ∧ P) as Hd by (intros P [[= E%bool_decide_eq_true] ?]; done).
    destruct r as [[]|]; [apply Hd in H as [? ?]; eauto|done|].
    destruct H as [?|[? ?]%Hd]; [by left|right; eauto].
  - intros l w w' r H. by apply change_if_inv in H.
  - intros l w w' r H. by apply change_if_inv in H.
Qed.

(** The lock a transaction takes *)
Definition acquire {W} {F : AnchoredFs W} {L : ProjectLocks F} (project_dir : string)
    (copy_source : option (CopySource (W := W))) : io W PhantomError (ProjectTransactionLock F) :=
  match copy_source with
  | Some source => acquire_project_transaction_locks project_dir (cs_project_dir source)
  | None => acquire_project_transaction_lock project_dir
  end.

Definition source_vault_of {W} (copy_source : option (CopySource (W := W))) : SourceVault :=
  match copy_source with Some source => Separate (cs_vault source) | None => Destination end.

Section spec.
Context {W : Type} `{F : !AnchoredFs W} `{L : !ProjectLocks F} `{B : !VaultBackend W}.
Context (vview : W → VaultData) (tview : W → tree).
Context `{FL : !AnchoredFsLaws F tview vview} `{VL : !VaultLaws B vview tview} `{LL : !ProjectLockLaws L tview vview FL}.

(** The commit of a plan, and the world and snapshots it starts from *)
Record started (project_dir : string) (copy_source : option (CopySource (W := W))) (secrets : list InitSecret)
    (files : list InitFile) (w : W) (lock : ProjectTransactionLock F) (w1 : W) (ps : list (list string))
    (fs : list FileSnapshot) (ss : list SecretSnapshot) : Prop := {
  st_lock : ∃ w0, acquire project_dir copy_source w = (w0, Ok lock);
  st_root : anchor_path (tl_project_anchor lock) = [];
  st_still : still vview tview w w1;
  st_names : check_names [] secrets = Ok (map is_name secrets);
  st_distinct : NoDup (map is_name secrets);
  st_sources : copy_source = None → check_sources (map is_name secrets) secrets = Ok tt;
  st_paths : Forall2 (fun p f => file_names lock f = Some p) ps files;
  st_nodup : NoDup ps;
  st_files : Forall2 (file_ok tview vview (tview w1)) ps fs;
  st_planned : Forall2 (planned_file) files fs;
  st_secrets : Forall (secret_ok (vview w1)) ss;
  st_planned_secrets : Forall2 planned_secret secrets ss;
}.

Lemma acquire_still project_dir copy_source w w' r :
  acquire project_dir copy_source w = (w', r) →
  still vview tview w w' ∧ ∀ lock, r = Ok lock → anchor_path (tl_project_anchor lock) = [].
Proof.
  destruct copy_source as [s|]; cbn.
  - by intros (? & ? & ?)%(acquire_pair_law (tview := tview) (vview := vview)).
  - by intros (? & ? & ?)%(acquire_law (tview := tview) (vview := vview)).
Qed.

Lemma file_ok_trees ps fs w w1 :
  still vview tview w w1 → Forall2 (file_ok tview vview (tview w)) ps fs →
  Forall2 (file_ok tview vview (tview w1)) ps fs.
Proof. intros [Ht _] H. eapply Forall2_impl; [exact H|]. intros p s. by apply file_ok_tree. Qed.

(** Snapshots of a plan that passed the checks *)
Lemma started_intro project_dir copy_source secrets files w lock w0 w1 w2 names fs ss :
  acquire project_dir copy_source w = (w0, Ok lock) → check_names [] secrets = Ok names →
  (copy_source = None → check_sources names secrets = Ok tt) → check_paths lock [] files = Ok tt →
  snapshot_files lock files w0 = (w1, Ok fs) →
  snapshot_secrets (source_vault_of copy_source) secrets w1 = (w2, Ok ss) →
  source_quiet vview tview (source_vault_of copy_source) →
  ∃ ps, started project_dir copy_source secrets files w lock w2 ps fs ss.
Proof.
  intros Hlock Hnames Hsrc Hpaths Hfs Hss Hq. destruct (acquire_still _ _ _ _ _ Hlock) as [Hs1 Hroot].
  specialize (Hroot lock eq_refl). destruct (check_names_spec _ _ _ Hnames) as [-> Hd]; [constructor|].
  apply (reads_snapshot_files vview tview w0) in Hfs as [Hs2 Hfs]; [|done..].
  destruct (Hfs fs eq_refl) as (ps & Hps & Hok & Hplan).
  apply (reads_snapshot_secrets vview tview w1) in Hss as [Hs3 Hss]; [|done..].
  destruct (Hss ss eq_refl) as [Hoks Hplans]. exists ps.
  assert (still vview tview w w2) as Hs by (eapply still_trans; [exact Hs1|by eapply still_trans]).
  constructor; try done.
  - by exists w0.
  - by eapply check_paths_spec.
  - eapply file_ok_trees; [exact Hs3|]. by eapply file_ok_trees.
  - destruct Hs3 as [_ ->]. done.
Qed.

(** A transaction either stops before it changed anything, or commits or
    rolls back the snapshots it took. *)
Lemma transaction_inv project_dir identity copy_source secrets files w w' r :
  commit_init_with_identity project_dir identity copy_source secrets files AtomicFileWriter w = (w', r) →
  source_quiet vview tview (source_vault_of copy_source) →
  (∃ e, r = Err e ∧ still vview tview w w') ∨
  ∃ lock w1 ps fs ss, started project_dir copy_source secrets files w lock w1 ps fs ss ∧
    commit_or_roll_back (tl_project_anchor lock) AtomicFileWriter (source_vault_of copy_source) fs ss w1 = (w', r).
Proof.
  intros H Hq. unfold commit_init_with_identity in H.
  apply io_bind_inv in H as [(w1 & lock & Hlock & H)|(e & Hlock & ->)];
    apply io_map_err_inv in Hlock as (r' & Hlock & Hr');
    change (match copy_source with Some _ => _ | None => _ end) with (acquire project_dir copy_source) in Hlock;
    destruct (acquire_still _ _ _ _ _ Hlock) as [Hs1 Hroot].
  2:{ left. by exists e. }
  destruct r' as [lock'|]; [|done]. injection Hr' as <-. specialize (Hroot lock eq_refl).
  unfold io_fail_if in H. destruct (match identity with Some i => _ | None => false end).
  { injection H as <- <-. left. by eexists. }
  fold (source_vault_of copy_source) in H.
  apply io_bind_inv in H as [(w2 & names & [-> Hnames]%io_lift_inv & H)|(e & [-> Hnames]%io_lift_inv & ->)].
  2:{ left. by exists e. }
  apply io_bind_inv in H as [(w2 & [] & Hsrc & H)|(e & Hsrc & ->)].
  2:{ left. exists e. split; [done|]. by destruct copy_source; [|apply io_lift_inv in Hsrc as [-> _]]. }
  assert (w2 = w1 ∧ (copy_source = None → check_sources names secrets = Ok tt)) as [-> Hsources].
  { destruct copy_source; [by injection Hsrc as <-|]. apply io_lift_inv in Hsrc as [-> ->]. done. }
  clear Hsrc. apply io_bind_inv in H as [(w2 & [] & [-> Hpaths]%io_lift_inv & H)|(e & [-> _]%io_lift_inv & ->)].
  2:{ left. by exists e. }
  apply io_bind_inv in H as [(w2 & fs & Hfs & H)|(e & Hfs & ->)];
    pose proof (reads_snapshot_files vview tview w1 lock files Hroot _ _ _ (still_refl vview tview w1) Hfs) as [Hs2 _].
  2:{ left. exists e. split; [done|]. by eapply still_trans. }
  apply io_bind_inv in H as [(w3 & ss & Hss & H)|(e & Hss & ->)];
    pose proof (reads_snapshot_secrets vview tview w2 _ secrets Hq _ _ _ (still_refl vview tview w2) Hss) as [Hs3 _].
  2:{ left. exists e. split; [done|]. eapply still_trans; [exact Hs1|by eapply still_trans]. }
  right. destruct (started_intro _ _ _ _ _ _ _ _ _ _ _ _ Hlock Hnames Hsources Hpaths Hfs Hss Hq) as [ps S].
  by exists lock, w3, ps, fs, ss.
Qed.

(** ** Members of the plan and of the snapshots *)

Lemma check_sources_spec names secrets s p :
  check_sources names secrets = Ok tt → s ∈ secrets → is_inherited_protection s = Some p →
  ip_source_name p ∉ names.
Proof.
  induction secrets as [|x secrets IH]; [by intros _ ?%elem_of_nil|]. cbn [check_sources].
  intros [Hg Hrest]%fail_if_Ok [->|Hin]%elem_of_cons Hp; [|by apply IH]. rewrite Hp in Hg.
  by apply orb_false_iff in Hg as [_ Hg%bool_decide_eq_false].
Qed.

Lemma forall2_elem {A C} (R : A → C → Prop) l k x : Forall2 R l k → x ∈ l → ∃ y, y ∈ k ∧ R x y.
Proof.
  induction 1 as [|a b l k Hab _ IH]; [by intros ?%elem_of_nil|].
  intros [->|Hx]%elem_of_cons; [exists b; split; [by apply elem_of_cons; left|done]|].
  destruct (IH Hx) as (y & ? & ?). exists y. split; [by apply elem_of_cons; right|done].
Qed.

Lemma planned_names secrets ss : Forall2 planned_secret secrets ss → map ss_name ss = map is_name secrets.
Proof. induction 1 as [|s s' l l' (Hn & _) _ IH]; cbn; [done|by rewrite Hn, IH]. Qed.

Lemma planned_paths files fs : Forall2 planned_file files fs → map fs_path fs = map if_path files.
Proof. induction 1 as [|s s' l l' (Hn & _) _ IH]; cbn; [done|by rewrite Hn, IH]. Qed.

Lemma same_plan_paths fs fs' : Forall2 same_plan fs fs' → map fs_path fs' = map fs_path fs.
Proof. induction 1 as [|s s' l l' (Hn & _) _ IH]; cbn; [done|by rewrite Hn, IH]. Qed.

Lemma file_member (lock : ProjectTransactionLock F) t files ps fs fs' f :
  Forall2 (fun p f => file_names lock f = Some p) ps files → Forall2 (file_ok tview vview t) ps fs →
  Forall2 planned_file files fs → Forall2 same_plan fs fs' → f ∈ files →
  ∃ p s s', file_names lock f = Some p ∧ p ∈ ps ∧ (p, s') ∈ zip ps fs' ∧ file_ok tview vview t p s ∧ planned_file f s ∧ same_plan s s'.
Proof.
  intros H1 H2 H3 H4 [i Hi]%list_elem_of_lookup.
  destruct (Forall2_lookup_r _ _ _ _ _ H1 Hi) as (p & Hp & ?).
  destruct (Forall2_lookup_l _ _ _ _ _ H3 Hi) as (s & Hs & ?).
  pose proof (Forall2_lookup_lr _ _ _ _ _ _ H2 Hp Hs).
  destruct (Forall2_lookup_l _ _ _ _ _ H4 Hs) as (s' & Hs' & ?).
  assert (p ∈ ps) by (apply list_elem_of_lookup; by exists i).
  assert ((p, s') ∈ zip ps fs') by (apply list_elem_of_lookup; exists i; apply lookup_zip_with_Some; eauto).
  exists p, s, s'. repeat (split; [assumption|]). assumption.
Qed.

Lemma secret_member secrets ss ss' s :
  Forall2 planned_secret secrets ss → Forall2 same_secret ss ss' → s ∈ secrets →
  ∃ x x', x ∈ ss ∧ x' ∈ ss' ∧ planned_secret s x ∧ same_secret x x'.
Proof.
  intros H1 H2 Hs. destruct (forall2_elem _ _ _ _ H1 Hs) as (x & Hx & ?).
  destruct (forall2_elem _ _ _ _ H2 Hx) as (x' & ? & ?). by exists x, x'.
Qed.

(** ** Atomicity *)

(** The permissions a file of the plan is written with *)
Definition new_permissions (f : InitFile) (before : option AnchoredRead) : AnchoredFilePermissions :=
  if if_executable f then executable_permissions
  else match before with Some b => ar_permissions b | None => private_permissions end.

(** Every change of the plan was made, on the state the plan was reviewed
    against. *)
Definition applied (lock : ProjectTransactionLock F) (secrets : list InitSecret) (files : list InitFile)
    (w w' : W) : Prop :=
  (∀ s, s ∈ secrets → vd_secrets (vview w') !! is_name s = is_replacement s ∧
     ∀ e, is_expected_before s = Some e → vd_secrets (vview w) !! is_name s = e) ∧
  (∀ f, f ∈ files → ∃ p c, file_names lock f = Some p ∧ file_at (tview w') p = Some c ∧
     ar_bytes c = if_content f ∧ ar_permissions c = new_permissions f (file_at (tview w) p) ∧
     reviewed f (file_at (tview w) p)).

(** Nothing but the entries and the files of the plan changed. *)
Definition plan_only (project_dir : string) (copy_source : option (CopySource (W := W)))
    (secrets : list InitSecret) (files : list InitFile) (w w' : W) : Prop :=
  (∀ n, n ∉ map is_name secrets → same_entry n (vview w) (vview w')) ∧
  (∀ lock w0, acquire project_dir copy_source w = (w0, Ok lock) →
   ∀ q, (∀ f, f ∈ files → file_names lock f ≠ Some q) → file_at (tview w') q = file_at (tview w) q).

Lemma still_plan_only project_dir copy_source secrets files w w' :
  still vview tview w w' → plan_only project_dir copy_source secrets files w w'.
Proof. intros [[Hf _] Hv]. split; [intros n _; rewrite Hv; apply same_entry_refl|by intros lock w0 _ q _]. Qed.

Lemma started_plan_only project_dir copy_source secrets files w lock w1 ps fs ss w' :
  started project_dir copy_source secrets files w lock w1 ps fs ss →
  within vview tview (map ss_name ss) ps w1 w' → plan_only project_dir copy_source secrets files w w'.
Proof.
  intros S Hin. apply (within_still vview tview _ _ w) in Hin as [Hn Hq]; [|exact (st_still _ _ _ _ _ _ _ _ _ _ S)].
  rewrite (planned_names _ _ (st_planned_secrets _ _ _ _ _ _ _ _ _ _ S)) in Hn. split; [done|].
  intros lock' w0 Hlock q Hno. destruct (st_lock _ _ _ _ _ _ _ _ _ _ S) as (w0' & Hlock').
  rewrite Hlock in Hlock'. injection Hlock' as _ <-. apply Hq. intros Hp.
  destruct (forall2_elem _ _ _ _ (st_paths _ _ _ _ _ _ _ _ _ _ S) Hp) as (f & Hf & Hname). by eapply Hno.
Qed.

Lemma started_applied project_dir copy_source secrets files w lock w1 ps fs ss f :
  started project_dir copy_source secrets files w lock w1 ps fs ss →
  forward_ok vview tview (source_vault_of copy_source) w1 ps fs ss f → fw_result f = Ok tt →
  applied lock secrets files w (fw_world f).
Proof.
  intros S H Hok. destruct (fo_done _ _ _ _ _ _ _ _ H Hok) as (_ & Hw & He & _).
  destruct (st_still _ _ _ _ _ _ _ _ _ _ S) as [[Hf1 _] Hv1]. split.
  - intros s Hs. destruct (secret_member _ _ _ _ (st_planned_secrets _ _ _ _ _ _ _ _ _ _ S)
      (fo_secret_plan _ _ _ _ _ _ _ _ H) Hs) as (x & x' & Hx & Hx' & (Hn & Ha & _ & _ & Hb & _) & [b ->]).
    destruct (He _ Hx') as [Hval _]. cbn in Hval. rewrite <- Hn, Hval, Ha. split; [done|].
    intros e Hexp. rewrite <- (Hb _ Hexp), <- Hv1. symmetry.
    by apply (proj1 (Forall_forall _ _) (st_secrets _ _ _ _ _ _ _ _ _ _ S) x Hx).
  - intros g Hg. destruct (file_member lock _ _ _ _ _ _ (st_paths _ _ _ _ _ _ _ _ _ _ S)
      (st_files _ _ _ _ _ _ _ _ _ _ S) (st_planned _ _ _ _ _ _ _ _ _ _ S) (fo_plan _ _ _ _ _ _ _ _ H) Hg)
      as (p & s & s' & Hname & _ & Hin & Hfok & (_ & Ha & Hx & _ & _ & Hrev) & Hsp).
    destruct (Hw _ _ Hin) as (c & Hc & Hbytes & Hperm). destruct Hsp as (_ & Ha' & _ & Hx' & Hb' & _).
    exists p, c. rewrite (fo_before _ _ _ _ _ Hfok) in Hrev, Hb'. rewrite Hf1 in Hrev, Hb'.
    split_and!; [done|done|congruence| |done].
    rewrite Hperm. unfold write_permissions, new_permissions. by rewrite Hx', Hx, Hb'.
Qed.

(** C3: A transaction changes everything it plans or nothing: on success
    every entry has its replacement and every file its content, with the
    permissions it is to have, and both were what the plan was reviewed
    against; on an error other than an incomplete rollback the vault is what
    it was, and so are the contents and permissions of all files and the
    directories.  In every case only entries and files of the plan can have
    changed. *)
Theorem commit_init_atomic project_dir identity copy_source secrets files w w' r :
  commit_init_with_identity project_dir identity copy_source secrets files AtomicFileWriter w = (w', r) →
  source_quiet vview tview (source_vault_of copy_source) → vault_wf (vview w) →
  plan_only project_dir copy_source secrets files w w' ∧
  match r with
  | Ok receipt =>
      (∃ lock w0, acquire project_dir copy_source w = (w0, Ok lock) ∧ applied lock secrets files w w') ∧
      ir_secret_names receipt = map is_name secrets ∧ ir_file_paths receipt = map if_path files
  | Err (RollbackIncomplete _) => True
  | Err _ => undone vview tview w w'
  end.
Proof.
  intros H Hq Hwf. apply transaction_inv in H as [(e & -> & Hs)|(lock & w1 & ps & fs & ss & S & H)]; [| |done].
  { split; [by apply still_plan_only|]. destruct e; try done; by apply still_undone. }
  pose proof (st_still _ _ _ _ _ _ _ _ _ _ S) as Hs.
  apply (commit_or_roll_back_spec vview tview) with (ps := ps) in H as [Hin Hr];
    [|apply S|done|by destruct Hs as [_ ->]|apply S..|].
  2:{ rewrite (planned_names _ _ (st_planned_secrets _ _ _ _ _ _ _ _ _ _ S)). apply S. }
  split; [by eapply started_plan_only|]. destruct r as [receipt|e].
  - destruct Hr as (f & Hf & Hok & <- & ->). cbn. split_and!.
    + destruct (st_lock _ _ _ _ _ _ _ _ _ _ S) as [w0 ?]. exists lock, w0. split; [done|]. by eapply started_applied.
    + rewrite (same_secrets_names _ _ (fo_secret_plan _ _ _ _ _ _ _ _ Hf)). by apply planned_names; apply S.
    + rewrite (same_plan_paths _ _ (fo_plan _ _ _ _ _ _ _ _ Hf)). by apply planned_paths; apply S.
  - destruct e; try done; by eapply undone_still.
Qed.

(** The entries of the plan after the commit, wherever it reached the files
    that are written last *)
Lemma entry_after_planned v s x x' :
  planned_secret s x → same_secret x x' → entry_after x' v →
  vd_secrets v !! is_name s = is_replacement s ∧
  ∀ p, is_inherited_protection s = Some p → vd_metadata v !! is_name s = Some (ip_inherited p).
Proof.
  intros (Hn & Ha & Hi & _ & _ & Hp) [b ->] (Hs & _ & _ & Hinh). cbn in *. rewrite <- Hn, Hs, Ha. split; [done|].
  intros p E. rewrite E in Hi, Hp. destruct (Hp (mk_is_Some _ _ eq_refl)) as [Hb [y Hy]].
  apply Hinh; congruence.
Qed.

(** C16: The files of a plan that are committed last (the environment file with
    the tokens) change only when every entry of the plan is in the vault with
    its value and its inherited protection, at whichever call the commit
    failed. *)
Theorem tokens_after_entries project_dir copy_source secrets files w lock w0 w1 w2 names fs ss f p g :
  acquire project_dir copy_source w = (w0, Ok lock) → check_names [] secrets = Ok names →
  (copy_source = None → check_sources names secrets = Ok tt) → check_paths lock [] files = Ok tt →
  snapshot_files lock files w0 = (w1, Ok fs) →
  snapshot_secrets (source_vault_of copy_source) secrets w1 = (w2, Ok ss) →
  source_quiet vview tview (source_vault_of copy_source) → vault_wf (vview w) →
  commit_forward (tl_project_anchor lock) AtomicFileWriter (source_vault_of copy_source) fs ss
    (mk_dir_state [] false true) w2 = f →
  g ∈ files → if_commit_last g = true → file_names lock g = Some p →
  file_at (tview (fw_world f)) p ≠ file_at (tview w) p →
  ∀ s, s ∈ secrets →
    vd_secrets (vview (fw_world f)) !! is_name s = is_replacement s ∧
    ∀ prot, is_inherited_protection s = Some prot →
      vd_metadata (vview (fw_world f)) !! is_name s = Some (ip_inherited prot).
Proof.
  intros Hlock Hnames Hsrc Hpaths Hfs Hss Hq Hwf <- Hg Hlast Hp Hchanged s Hs.
  destruct (started_intro _ _ _ _ _ _ _ _ _ _ _ _ Hlock Hnames Hsrc Hpaths Hfs Hss Hq) as [ps S].
  pose proof (st_still _ _ _ _ _ _ _ _ _ _ S) as [[Hf _] Hv].
  assert (NoDup (map ss_name ss)) as Hd.
  { rewrite (planned_names _ _ (st_planned_secrets _ _ _ _ _ _ _ _ _ _ S)). apply S. }
  pose proof (forward_spec vview tview (tl_project_anchor lock) (st_root _ _ _ _ _ _ _ _ _ _ S) _ Hq w2
    (eq_rect_r vault_wf Hwf Hv) ps fs ss (st_files _ _ _ _ _ _ _ _ _ _ S) (st_nodup _ _ _ _ _ _ _ _ _ _ S) Hd) as H.
  destruct (secret_member _ _ _ _ (st_planned_secrets _ _ _ _ _ _ _ _ _ _ S)
      (fo_secret_plan _ _ _ _ _ _ _ _ H) Hs) as (x & x' & Hx & Hx' & Hpl & Hsame).
  destruct (file_member lock _ _ _ _ _ _ (st_paths _ _ _ _ _ _ _ _ _ _ S)
      (st_files _ _ _ _ _ _ _ _ _ _ S) (st_planned _ _ _ _ _ _ _ _ _ _ S) (fo_plan _ _ _ _ _ _ _ _ H) Hg)
      as (q & t & t' & Hname & _ & Hin & _ & (_ & _ & _ & Hl & _) & (_ & _ & Hl' & _)).
  rewrite Hp in Hname. injection Hname as <-.
  eapply entry_after_planned; [exact Hpl|exact Hsame|].
  eapply (fo_point _ _ _ _ _ _ _ _ H p t'); [done|congruence|by rewrite Hf|done].
Qed.

(** A copied entry has the protection of its source: when the transaction
    succeeds, the entry is a new one, and has the value and the metadata that
    were read from the source; a source in the same vault still has that
    value and that metadata, and is not written by the transaction. *)
Theorem copies_keep_protection project_dir identity copy_source secrets files w w' receipt s p :
  commit_init_with_identity project_dir identity copy_source secrets files AtomicFileWriter w = (w', Ok receipt) →
  source_quiet vview tview (source_vault_of copy_source) → vault_wf (vview w) →
  s ∈ secrets → is_inherited_protection s = Some p →
  vd_secrets (vview w) !! is_name s = None ∧
  ∃ x, is_replacement s = Some x ∧ vd_secrets (vview w') !! is_name s = Some x ∧
    vd_metadata (vview w') !! is_name s = Some (ip_inherited p) ∧
    (copy_source = None →
       (ip_source_name p ∉ map is_name secrets) ∧
       vd_secrets (vview w') !! ip_source_name p = Some x ∧
       vd_metadata (vview w') !! ip_source_name p = ip_source_metadata p).
Proof.
  intros H Hq Hwf Hs Hp. apply transaction_inv in H as [(e & ? & _)|(lock & w1 & ps & fs & ss & S & H)]; [done| |done].
  pose proof (st_still _ _ _ _ _ _ _ _ _ _ S) as [[Hf _] Hv].
  apply (commit_or_roll_back_spec vview tview) with (ps := ps) in H as [_ Hr];
    [|apply S|done|by rewrite Hv|apply S..|].
  2:{ rewrite (planned_names _ _ (st_planned_secrets _ _ _ _ _ _ _ _ _ _ S)). apply S. }
  destruct Hr as (f & Hfo & Hok & <- & _). destruct (fo_done _ _ _ _ _ _ _ _ Hfo Hok) as (_ & _ & He & Hsrc).
  destruct (secret_member _ _ _ _ (st_planned_secrets _ _ _ _ _ _ _ _ _ _ S)
      (fo_secret_plan _ _ _ _ _ _ _ _ Hfo) Hs) as (x & x' & Hx & Hx' & Hpl & Hsame).
  destruct (entry_after_planned _ _ _ _ Hpl Hsame (He _ Hx')) as [Hval Hmeta].
  destruct Hpl as (Hn & Ha & Hi & _ & _ & Hb). rewrite Hp in Hi, Hb.
  destruct (Hb (mk_is_Some _ _ eq_refl)) as [Hbefore [y Hy]]. rewrite Hy in Hval, Ha. split.
  { pose proof (proj1 (Forall_forall _ _) (st_secrets _ _ _ _ _ _ _ _ _ _ S) x Hx) as (Hsb & _ & _).
    by rewrite <- Hv, <- Hn, <- Hsb. }
  exists y. split_and!; [done..|by apply Hmeta|]. intros Hnone. split.
  - pose proof (st_sources _ _ _ _ _ _ _ _ _ _ S Hnone) as Hcheck. by eapply check_sources_spec.
  - destruct Hsame as [b ->]. eapply Hsrc; [by rewrite Hnone|exact Hx'|done|done].
Qed.
End spec.

(** ** Concrete runs *)

#[export] Instance demo_lock_laws : ProjectLockLaws demo_locks demo_tree dm_vault demo_fs_laws.
Proof. constructor; [intros dir w w' r [= <- <-]|intros dir s w w' r [= <- <-]]; (split_and!; [done..|]); by intros lock [= <-]. Qed.

(** A project whose [.env] holds a value, and the numbers of the changing
    calls that fail; the vault has the entries [v]. *)
Definition demo_start (v : VaultData) (fails : list N) : demo :=
  mk_demo v {[ [".env"%string] := mk_read "API_KEY=sk-1" (mk_identity 1 0) private_permissions ]} ∅ 1 fails.

Definition demo_plan : list InitSecret := [secret_new "API_KEY" "sk-1"].

(** A configuration in a directory that is to be created, and two files that
    are written last *)
Definition demo_files : list InitFile :=
  [file_commit_last (file_replace ".env" "API_KEY=phm_0");
   file_replace ".phantom/config.toml" "[phantom]";
   file_commit_last (file_replace ".env.local" "B=phm_1")].

Definition demo_run (fails : list N) : demo * result InitReceipt InitTransactionError :=
  commit_init_with_identity "/p" None None demo_plan demo_files AtomicFileWriter (demo_start empty_vault fails).

Lemma empty_vault_wf : vault_wf empty_vault.
Proof. done. Qed.

(** All calls succeed; or the write of [.env.local], the last one, fails. *)
Lemma commit_init_atomic_witness :
  (∃ receipt, (demo_run []).2 = Ok receipt) ∧
  (∃ lock, applied dm_vault demo_tree lock demo_plan demo_files (demo_start empty_vault []) (demo_run []).1) ∧
  (∃ target reason, (demo_run [5%N]).2 = Err (Commit target reason)) ∧
  undone dm_vault demo_tree (demo_start empty_vault [5%N]) (demo_run [5%N]).1.
Proof.
  pose proof (commit_init_atomic dm_vault demo_tree "/p" None None demo_plan demo_files
    (demo_start empty_vault []) _ _ (surjective_pairing (demo_run [])) I empty_vault_wf) as [_ H1].
  pose proof (commit_init_atomic dm_vault demo_tree "/p" None None demo_plan demo_files
    (demo_start empty_vault [5%N]) _ _ (surjective_pairing (demo_run [5%N])) I empty_vault_wf) as [_ H2].
  assert (∃ receipt, (demo_run []).2 = Ok receipt) as [receipt E1] by (eexists; vm_compute; reflexivity).
  assert (∃ target reason, (demo_run [5%N]).2 = Err (Commit target reason)) as (target & reason & E2)
    by (eexists _, _; vm_compute; reflexivity).
  rewrite E1 in H1. rewrite E2 in H2. destruct H1 as [(lock & w0 & _ & Ha) _].
  split; [by exists receipt|]. split; [by exists lock|]. split; [by exists target, reason|exact H2].
Defined.

(** The commit of the second run, up to its failure *)
Definition demo_lock : ProjectTransactionLock demo_fs := mk_lock "/p" "/p" [] (mk_identity 1 0).

Definition demo_snapshots : list FileSnapshot * list SecretSnapshot :=
  match snapshot_files demo_lock demo_files (demo_start empty_vault [5%N]),
        snapshot_secrets Destination demo_plan (demo_start empty_vault [5%N]) with
  | (_, Ok fs), (_, Ok ss) => (fs, ss)
  | _, _ => ([], [])
  end.

Definition demo_forward : forward :=
  commit_forward [] AtomicFileWriter Destination demo_snapshots.1 demo_snapshots.2 (mk_dir_state [] false true)
    (demo_start empty_vault [5%N]).

Lemma tokens_after_entries_witness :
  option_map ar_bytes (file_at (demo_tree (fw_world demo_forward)) [".env"%string]) = Some "API_KEY=phm_0"%string ∧
  vd_secrets (dm_vault (fw_world demo_forward)) !! "API_KEY"%string = Some "sk-1"%string.
Proof.
  split; [vm_compute; reflexivity|].
  set (w := demo_start empty_vault [5%N]).
  assert (acquire "/p" None w = (w, Ok demo_lock)) as Hlock by reflexivity.
  assert (snapshot_files demo_lock demo_files w = (w, Ok demo_snapshots.1)) as Hfs
    by (vm_cast_no_check (eq_refl (w, Ok demo_snapshots.1 (E := InitTransactionError)))).
  assert (snapshot_secrets Destination demo_plan w = (w, Ok demo_snapshots.2)) as Hss
    by (vm_cast_no_check (eq_refl (w, Ok demo_snapshots.2 (E := InitTransactionError)))).
  assert (check_paths demo_lock [] demo_files = Ok tt) as Hpaths by (vm_compute; reflexivity).
  assert (file_at (demo_tree (fw_world demo_forward)) [".env"%string] ≠ file_at (demo_tree w) [".env"%string]) as Hne.
  { intros H. apply (f_equal (option_map ar_bytes)) in H. vm_compute in H. discriminate. }
  pose proof (tokens_after_entries dm_vault demo_tree "/p" None demo_plan demo_files w demo_lock w w w
    ["API_KEY"%string] demo_snapshots.1 demo_snapshots.2 demo_forward [".env"%string]
    (file_commit_last (file_replace ".env" "API_KEY=phm_0"))) as H.
  specialize (H Hlock eq_refl (fun _ => eq_refl) Hpaths Hfs Hss I empty_vault_wf eq_refl).
  assert (file_names demo_lock (file_commit_last (file_replace ".env" "API_KEY=phm_0")) = Some [".env"%string])
    as Hname by (vm_compute; reflexivity).
  apply (H ltac:(apply elem_of_cons; by left) eq_refl Hname Hne (secret_new "API_KEY" "sk-1")).
  by apply list_elem_of_singleton.
Defined.

(** A read-only entry, and a plan that copies it *)
Definition read_only_meta : SecretMetadata := mk_meta (Some 5%N) None None None ReadOnly.

Definition demo_vault : VaultData :=
  mk_vault_data {["A" := "sk-2"]} {["A" := read_only_meta]} ∅.

Definition copy_plan : list InitSecret :=
  [inheriting_source_protection "A" (Some read_only_meta) (secret_new "B" "sk-2")].

Definition copy_run : demo * result InitReceipt InitTransactionError :=
  commit_init_with_identity "/p" None None copy_plan [] AtomicFileWriter (demo_start demo_vault []).

Lemma demo_vault_wf : vault_wf demo_vault.
Proof.
  intros n. cbn. rewrite lookup_singleton_None. intros Hn. split; [|done]. by apply lookup_singleton_None.
Qed.

Lemma copies_keep_protection_witness :
  vd_metadata (dm_vault copy_run.1) !! "B"%string = Some read_only_meta.
Proof.
  assert (∃ receipt, copy_run.2 = Ok receipt) as [receipt E] by (eexists; vm_compute; reflexivity).
  destruct (copies_keep_protection dm_vault demo_tree "/p" None None copy_plan [] (demo_start demo_vault []) copy_run.1
    receipt (inheriting_source_protection "A" (Some read_only_meta) (secret_new "B" "sk-2"))
    (from_source "A" (Some read_only_meta)) ltac:(rewrite <- E; apply surjective_pairing) I demo_vault_wf
    ltac:(by apply list_elem_of_singleton) eq_refl) as (_ & x & _ & _ & H & _).
  exact H.
Defined.

(** When the write of [.env.local] fails and then putting [.env] back fails
    too, the entry is deleted all the same: [.env] has the token, and the
    value is nowhere. *)
Lemma double_failure_loses_entries :
  let '(w', r) := demo_run [5%N; 7%N] in
  r = Err (RollbackIncomplete ".env.local") ∧
  option_map ar_bytes (file_at (demo_tree w') [".env"%string]) = Some "API_KEY=phm_0"%string ∧
  vd_secrets (dm_vault w') !! "API_KEY"%string = None.
Proof. vm_compute. done. Qed.
