(* ===== verification/VaultCrypto.v ===== *)
(** * Encrypted blobs: [crates/phantom-core/src/blob_format.rs] and
    [crates/phantom-vault/src/crypto.rs]

    The layouts of an encrypted blob (untagged, version 2 and version 3), how
    a reader tells them apart and falls back, and the unlock cache that keeps
    one derived key.  Argon2id and ChaCha20-Poly1305 are the class [Crypto];
    bytes are strings.  Zeroing memory changes no value and is not in the
    model. *)

From S2P Require Import Prelude Text Ids External StateDir Rotation VaultMeta.

Definition MAGIC : string := "PHMB".
Definition VERSION_2 : ascii := ascii_of_N 2.
Definition ALG_CHACHA20_POLY1305 : ascii := ascii_of_N 1.
Definition HEADER_LEN : nat := 6.
Definition VERSION_3 : ascii := ascii_of_N 3.
Definition KDF_ARGON2ID_V13 : ascii := ascii_of_N 1.
Definition V3_HEADER_LEN : nat := 13.

Inductive WriteFormat := FormatLegacy | FormatTagged.

#[export] Instance WriteFormat_eq_dec : EqDecision WriteFormat.
Proof. solve_decision. Defined.

(** [WriteFormat::from_env], of the value of [PHANTOM_BLOB_FORMAT] *)
Definition format_from_env (value : option string) : WriteFormat :=
  match value with
  | Some v => if String.eqb v "v2" then FormatTagged else FormatLegacy
  | None => FormatLegacy
  end.

(** [header] *)
Definition header : string :=
  MAGIC +:+ String VERSION_2 (String ALG_CHACHA20_POLY1305 EmptyString).

Record KdfParamsV3 := mk_kdf { kp_m_kib : N; kp_t : N; kp_p : N }.

(** [u32::from_le_bytes] *)
Definition u32_le (a b c d : ascii) : N :=
  N_of_ascii a + 256 * (N_of_ascii b + 256 * (N_of_ascii c + 256 * N_of_ascii d)).

(** [parse_v3_header] *)
Definition parse_v3_header (bytes : string) : option (KdfParamsV3 * string * string) :=
  if (String.length bytes <? V3_HEADER_LEN)%nat || negb (String.eqb (str_take 4 bytes) MAGIC) then None
  else
    version ← byte_at bytes 4; alg ← byte_at bytes 5; kdf ← byte_at bytes 6;
    if negb (ascii_eqb version VERSION_3) || negb (ascii_eqb alg ALG_CHACHA20_POLY1305)
       || negb (ascii_eqb kdf KDF_ARGON2ID_V13) then None
    else
      b7 ← byte_at bytes 7; b8 ← byte_at bytes 8; b9 ← byte_at bytes 9; b10 ← byte_at bytes 10;
      bt ← byte_at bytes 11; bp ← byte_at bytes 12;
      let m_kib := u32_le b7 b8 b9 b10 in
      let t := N_of_ascii bt in
      let p := N_of_ascii bp in
      if negb ((19 * 1024 <=? m_kib)%N && (m_kib <=? 256 * 1024)%N)
         || negb ((1 <=? t)%N && (t <=? 10)%N) || negb ((1 <=? p)%N && (p <=? 4)%N) then None
      else Some (mk_kdf m_kib t p, str_take V3_HEADER_LEN bytes, str_drop V3_HEADER_LEN bytes).

Inductive Tag := Untagged | TagV2 (body : string) | TagUnsupported (version alg : ascii).

(** [classify] *)
Definition classify (bytes : string) : Tag :=
  if (String.length bytes <? HEADER_LEN)%nat || negb (String.eqb (str_take 4 bytes) MAGIC) then Untagged
  else match byte_at bytes 4, byte_at bytes 5 with
  | Some version, Some alg =>
      if ascii_eqb version VERSION_2 && ascii_eqb alg ALG_CHACHA20_POLY1305
      then TagV2 (str_drop HEADER_LEN bytes)
      else TagUnsupported version alg
  | _, _ => Untagged
  end.

(** ** The primitives

    [argon2id] with an output of 32 bytes, of the passphrase and the salt; it
    may fail with a text.  [argon2_params] are the checks of [Params::new].
    A message sealed without associated data is one whose associated data is
    empty. *)
Class Crypto := {
  argon2_params : KdfParamsV3 → result unit string;
  argon2_default : KdfParamsV3;
  argon2id : KdfParamsV3 → string → string → result string string;
  aead_seal : string → string → string → string → option string;
  aead_open : string → string → string → string → option string;
}.

Definition SALT_LEN : nat := 32.
Definition NONCE_LEN : nat := 12.
Definition KEY_LEN : nat := 32.
Definition MIN_ENCRYPTED_LEN : nat := 45.

Section crypto.
Context `{K : !Crypto}.

Definition derived : Type := result string PhantomError.

(** [argon2_derive] *)
Definition argon2_derive (params : KdfParamsV3) (passphrase salt what : string) : derived :=
  map_err (fun e => VaultError (what +:+ " failed: " +:+ e)) (argon2id params passphrase salt).

(** [hardened_argon2] *)
Definition hardened_argon2 : KdfParamsV3 := mk_kdf (64 * 1024) 3 1.

Definition new_params (params : KdfParamsV3) : result unit PhantomError :=
  map_err (fun e => VaultError ("Argon2 params: " +:+ e)) (argon2_params params).

(** [derive_key] and [derive_key_legacy] *)
Definition derive_key (passphrase salt : string) : derived :=
  let? _ := new_params hardened_argon2 in
  argon2_derive hardened_argon2 passphrase salt "Key derivation".
Definition derive_key_legacy (passphrase salt : string) : derived :=
  argon2_derive argon2_default passphrase salt "Legacy key derivation".

(** [encrypt_with_format], with the random salt and nonce *)
Definition encrypt_with_format (salt nonce plaintext passphrase : string) (format : WriteFormat)
    : result string PhantomError :=
  let? key := derive_key passphrase salt in
  let? ciphertext := ok_or (match format with
                            | FormatLegacy => aead_seal key nonce "" plaintext
                            | FormatTagged => aead_seal key nonce header plaintext
                            end) (VaultError "Encryption failed: aead::Error") in
  Ok ((match format with FormatTagged => header | FormatLegacy => "" end)
        +:+ salt +:+ nonce +:+ ciphertext).

(** ** Decryption *)

Record CachedKey := mk_cached { ck_prefix : string; ck_aad_len : nat; ck_key : string }.

(** [struct DecryptionCache] *)
Definition DecryptionCache : Type := option CachedKey.

(** [remember] *)
Definition remember (body : string) (aad : option string) (key : string) : DecryptionCache :=
  Some (mk_cached (default "" aad +:+ str_take (SALT_LEN + NONCE_LEN) body)
          (match aad with Some a => String.length a | None => 0%nat end) key).

(** [decrypt_with_key]; a key of 32 bytes always makes a cipher. *)
Definition decrypt_with_key (body key : string) (aad : option string) : option string :=
  if (String.length body <? MIN_ENCRYPTED_LEN)%nat then None
  else aead_open key (str_take NONCE_LEN (str_drop SALT_LEN body)) (default "" aad)
         (str_drop (SALT_LEN + NONCE_LEN) body).

Definition unlocked : Type := DecryptionCache * result (option string) PhantomError.

(** The end of [try_decrypt_with] and [decrypt_body_v3] *)
Definition open_and_remember (key body : string) (aad : option string) (cache : DecryptionCache) : unlocked :=
  match decrypt_with_key body key aad with
  | Some plaintext => (remember body aad key, Ok (Some plaintext))
  | None => (cache, Ok None)
  end.

(** [try_decrypt_with] *)
Definition try_decrypt_with (derive : string → string → derived) (passphrase body : string)
    (aad : option string) (cache : DecryptionCache) : unlocked :=
  match derive passphrase (str_take SALT_LEN body) with
  | Ok key => open_and_remember key body aad cache
  | Err e => (cache, Err e)
  end.

(** [decrypt_body] *)
Definition decrypt_body (body passphrase : string) (aad : option string) (cache : DecryptionCache) : unlocked :=
  if (String.length body <? MIN_ENCRYPTED_LEN)%nat then (cache, Ok None)
  else match try_decrypt_with derive_key passphrase body aad cache with
  | (c, Ok None) =>
      match aad with
      | None => try_decrypt_with derive_key_legacy passphrase body None c
      | Some _ => (c, Ok None)
      end
  | done => done
  end.

(** [decrypt_body_v3] *)
Definition decrypt_body_v3 (body passphrase : string) (params : KdfParamsV3) (hdr : string)
    (cache : DecryptionCache) : unlocked :=
  if (String.length body <? MIN_ENCRYPTED_LEN)%nat then (cache, Ok None)
  else match (let? _ := new_params params in
              argon2_derive params passphrase (str_take SALT_LEN body) "Key derivation") with
  | Ok key => open_and_remember key body (Some hdr) cache
  | Err e => (cache, Err e)
  end.

(** A step that may have found the plaintext, and what follows when it did
    not *)
Definition or_else (step : unlocked) (next : DecryptionCache → DecryptionCache * result string PhantomError)
    : DecryptionCache * result string PhantomError :=
  match step with
  | (c, Ok (Some plaintext)) => (c, Ok plaintext)
  | (c, Ok None) => next c
  | (c, Err e) => (c, Err e)
  end.

(** The number of a byte, in decimal *)
Definition show_byte (a : ascii) : string := N_to_string (N_of_ascii a).

(** [decrypt_uncached] *)
Definition decrypt_uncached (encrypted passphrase : string) (cache : DecryptionCache)
    : DecryptionCache * result string PhantomError :=
  if (String.length encrypted <? MIN_ENCRYPTED_LEN)%nat then
    (cache, Err (VaultError "Encrypted data too small — may be corrupt"))
  else
    let tag := classify encrypted in
    or_else
      (match tag with
       | TagV2 body =>
           if (MIN_ENCRYPTED_LEN <=? String.length body)%nat
           then decrypt_body body passphrase (Some (str_take HEADER_LEN encrypted)) cache
           else (cache, Ok None)
       | _ => (cache, Ok None)
       end) (fun cache =>
    or_else
      (match tag with
       | TagUnsupported version _ =>
           if ascii_eqb version VERSION_3 then
             match parse_v3_header encrypted with
             | Some (params, hdr, body) => decrypt_body_v3 body passphrase params hdr cache
             | None => (cache, Ok None)
             end
           else (cache, Ok None)
       | _ => (cache, Ok None)
       end) (fun cache =>
    or_else (decrypt_body encrypted passphrase None cache) (fun cache =>
    (cache, Err (VaultError
       (match tag with
        | TagUnsupported version alg =>
            "Unsupported vault format (version " +:+ show_byte version +:+ ", algorithm "
              +:+ show_byte alg +:+ "); upgrade phantom"
        | _ => "Decryption failed — wrong passphrase or corrupt data"
        end)))))).

(** [DecryptionCache::decrypt] *)
Definition cache_decrypt (cache : DecryptionCache) (encrypted passphrase : string)
    : DecryptionCache * result string PhantomError :=
  match
    (entry ← cache;
     if starts_with (ck_prefix entry) encrypted then
       decrypt_with_key (str_drop (ck_aad_len entry) encrypted) (ck_key entry)
         (if (ck_aad_len entry =? 0)%nat then None else Some (str_take (ck_aad_len entry) encrypted))
     else None)
  with
  | Some plaintext => (cache, Ok plaintext)
  | None => decrypt_uncached encrypted passphrase cache
  end.

(** [decrypt] *)
Definition decrypt (encrypted passphrase : string) : result string PhantomError :=
  (cache_decrypt None encrypted passphrase).2.

(** ** Team blobs *)

(** [seal_team_blob], with the random nonce *)
Definition seal_team_blob (nonce plaintext key : string) (format : WriteFormat) : result string PhantomError :=
  let? ct := ok_or (match format with
                    | FormatLegacy => aead_seal key nonce "" plaintext
                    | FormatTagged => aead_seal key nonce header plaintext
                    end) (Other "Encrypt failed: aead::Error") in
  Ok ((match format with FormatTagged => header | FormatLegacy => "" end) +:+ nonce +:+ ct).

(** [open_legacy] *)
Definition open_legacy (body key : string) : option string :=
  if (String.length body <? NONCE_LEN + 16)%nat then None
  else aead_open key (str_take NONCE_LEN body) "" (str_drop NONCE_LEN body).

(** [open_team_blob] *)
Definition open_team_blob (framed key : string) : result string PhantomError :=
  let tag := classify framed in
  match
    (match tag with
     | TagV2 body =>
         if (NONCE_LEN + 16 <=? String.length body)%nat then
           aead_open key (str_take NONCE_LEN body) (str_take HEADER_LEN framed) (str_drop NONCE_LEN body)
         else None
     | _ => None
     end)
  with
  | Some pt => Ok pt
  | None =>
      match open_legacy framed key with
      | Some pt => Ok pt
      | None =>
          Err (Other
            (match tag with
             | TagUnsupported version alg =>
                 "Unsupported blob format (version " +:+ show_byte version +:+ ", algorithm "
                   +:+ show_byte alg +:+ "); upgrade phantom"
             | _ => "Decrypt failed: wrong key or corrupt data"
             end))
      end
  end.
End crypto.
