(* ===== verification/VaultCryptoSpec.v ===== *)
(** * What decryption accepts

    A blob has up to four readings, tried in order ([decrypt_exact]); what was
    encrypted decrypts to the same plaintext ([decrypt_encrypt]); the unlock
    cache changes no result ([cache_transparent]); team blobs round-trip
    ([team_blob_roundtrip]). *)

From S2P Require Import Prelude Text Ids External StateDir Rotation VaultMeta VaultCrypto.

(** ** Prefixes of blobs *)

Lemma prefix_take p s k : starts_with p s = true → (k <= String.length p)%nat → str_take k s = str_take k p.
Proof.
  revert s k. induction p as [|c p IH]; intros s k H Hk; cbn in *.
  - by destruct k; [destruct s|lia].
  - destruct s as [|d s]; [done|]. apply andb_true_iff in H as [->%ascii_eqb_eq H].
    destruct k as [|k]; [done|]. cbn. rewrite (IH s k H) by lia. done.
Qed.

Lemma prefix_byte_at p s k : starts_with p s = true → (k < String.length p)%nat → byte_at s k = byte_at p k.
Proof. intros (t & ->)%starts_with_spec Hk. by apply byte_at_app_l. Qed.

Lemma str_drop_length n s : String.length (str_drop n s) = (String.length s - n)%nat.
Proof. revert s. induction n as [|n IH]; intros s; [by rewrite Nat.sub_0_r|]. destruct s as [|c s]; cbn; [done|by rewrite IH]. Qed.

Lemma str_take_drop_take a b s : str_take a (str_drop b s) = str_drop b (str_take (b + a) s).
Proof. revert s. induction b as [|b IH]; intros s; [done|]. destruct s as [|c s]; cbn; [by destruct a|by rewrite IH]. Qed.

Lemma str_take_take a b s : (a <= b)%nat → str_take a (str_take b s) = str_take a s.
Proof.
  revert b s. induction a as [|a IH]; intros [|b] [|c s] H; cbn; try done; try lia. by rewrite IH by lia.
Qed.

Lemma str_take_app_take a b s : str_take a s +:+ str_take b (str_drop a s) = str_take (a + b) s.
Proof. revert s. induction a as [|a IH]; intros s; [by destruct s|]. destruct s as [|c s]; cbn; [by destruct b|by rewrite IH]. Qed.

Lemma starts_with_take n s : starts_with (str_take n s) s = true.
Proof. apply starts_with_spec. exists (str_drop n s). by rewrite str_take_drop. Qed.

Section crypto.
Context `{K : !Crypto}.

(** ** Readings

    Under a reading a blob has a key, and associated data of the given
    length at its start. *)

Inductive reading := ReadV2 | ReadV3 | ReadHardened | ReadDefault.

Definition key_of (r : reading) (blob passphrase : string) : derived * nat :=
  match r with
  | ReadV2 =>
      (match classify blob with
       | TagV2 body => derive_key passphrase (str_take SALT_LEN body)
       | _ => Err (Other "")
       end, HEADER_LEN)
  | ReadV3 =>
      (match parse_v3_header blob with
       | Some (params, _, body) =>
           let? _ := new_params params in
           argon2_derive params passphrase (str_take SALT_LEN body) "Key derivation"
       | None => Err (Other "")
       end, V3_HEADER_LEN)
  | ReadHardened => (derive_key passphrase (str_take SALT_LEN blob), 0%nat)
  | ReadDefault => (derive_key_legacy passphrase (str_take SALT_LEN blob), 0%nat)
  end.

Definition aad_of (n : nat) (blob : string) : option string :=
  if (n =? 0)%nat then None else Some (str_take n blob).

(** The plaintext of a blob under a reading, when it authenticates *)
Definition open_as (r : reading) (blob passphrase : string) : option string :=
  let '(key, n) := key_of r blob passphrase in
  match key with
  | Ok key => decrypt_with_key (str_drop n blob) key (aad_of n blob)
  | Err _ => None
  end.

Definition readings : list reading := [ReadV2; ReadV3; ReadHardened; ReadDefault].

(** The plaintext of the first reading that authenticates *)
Definition first_opening (blob passphrase : string) : option string :=
  head (omap (fun r => open_as r blob passphrase) readings).

(** The blob authenticates to this plaintext under some reading. *)
Definition authentic (blob passphrase plaintext : string) : Prop :=
  ∃ r, open_as r blob passphrase = Some plaintext.

(** No two readings of the blob authenticate to different plaintexts. *)
Definition unambiguous (blob passphrase : string) : Prop :=
  ∀ p q, authentic blob passphrase p → authentic blob passphrase q → p = q.

(** No derivation the code asks for fails: the parameters are in the ranges
    Argon2 takes, and salts have 32 bytes. *)
Definition keys_derive : Prop :=
  argon2_params hardened_argon2 = Ok tt ∧
  (∀ m t p, (19 * 1024 <= m <= 256 * 1024)%N → (1 <= t <= 10)%N → (1 <= p <= 4)%N →
     argon2_params (mk_kdf m t p) = Ok tt) ∧
  (∀ params passphrase salt, argon2_params params = Ok tt ∨ params = argon2_default →
     String.length salt = SALT_LEN → ∃ key, argon2id params passphrase salt = Ok key).

(** The entry of a cache is the key of some reading of every blob that begins
    like it. *)
Definition cache_ok (passphrase : string) (cache : DecryptionCache) : Prop :=
  ∀ e, cache = Some e → ∃ r, ∀ blob, starts_with (ck_prefix e) blob = true →
    key_of r blob passphrase = (Ok (ck_key e), ck_aad_len e).

(** ** The layouts *)

Lemma classify_V2 blob body :
  classify blob = TagV2 body ↔
  (HEADER_LEN <= String.length blob)%nat ∧ str_take HEADER_LEN blob = header ∧ body = str_drop HEADER_LEN blob.
Proof.
  unfold classify. destruct (Nat.ltb_spec (String.length blob) HEADER_LEN) as [Hl|Hl]; cbn [orb]; [naive_solver lia|].
  unfold HEADER_LEN, header, MAGIC in *.
  destruct blob as [|a [|b [|c [|d [|e [|f blob]]]]]]; cbn -[String.eqb ascii_eqb VERSION_2 ALG_CHACHA20_POLY1305] in *; try lia.
  destruct (String.eqb_spec (String a (String b (String c (String d "")))) "PHMB") as [E|E]; cbn -[String.eqb ascii_eqb VERSION_2 ALG_CHACHA20_POLY1305].
  2:{ split; [done|]. intros (_ & H & _). injection H as -> -> -> -> -> ->. done. }
  injection E as -> -> -> ->.
  destruct (ascii_eqb e VERSION_2) eqn:E1; cbn -[VERSION_2 ALG_CHACHA20_POLY1305 ascii_eqb].
  - destruct (ascii_eqb f ALG_CHACHA20_POLY1305) eqn:E2.
    + apply ascii_eqb_eq in E1 as ->. apply ascii_eqb_eq in E2 as ->. split; [intros [= <-]; split_and!; (done || lia)|].
      intros (_ & _ & ->). done.
    + split; [done|]. intros (_ & H & _). injection H as _ ->. by rewrite ascii_eqb_refl in E2.
  - split; [done|]. intros (_ & H & _). injection H as -> _. by rewrite ascii_eqb_refl in E1.
Qed.

(** A version 3 header is the first 13 bytes. *)
Lemma parse_v3_prefix p s :
  starts_with p s = true → (V3_HEADER_LEN <= String.length p)%nat →
  parse_v3_header s =
    match parse_v3_header p with
    | Some (k, h, _) => Some (k, h, str_drop V3_HEADER_LEN s)
    | None => None
    end.
Proof.
  intros H Hl. unfold parse_v3_header.
  assert (String.length p <= String.length s)%nat by by apply starts_with_length.
  rewrite (prefix_take p s 4), (prefix_take p s V3_HEADER_LEN) by (done || (unfold V3_HEADER_LEN in *; lia)).
  rewrite !(prefix_byte_at p s) by (done || (unfold V3_HEADER_LEN in *; lia)).
  rewrite !(proj2 (Nat.ltb_ge _ _)) by lia. cbn [orb].
  destruct (negb (String.eqb (str_take 4 p) MAGIC)); [done|].
  repeat (match goal with |- context [byte_at p ?i] => destruct (byte_at p i); cbn [mbind option_bind]; [|done] end;
          try match goal with |- context [if ?b then None else _] => destruct b; [done|] end).
  done.
Qed.

Lemma parse_v3_split blob params hdr body :
  parse_v3_header blob = Some (params, hdr, body) →
  (V3_HEADER_LEN <= String.length blob)%nat ∧ hdr = str_take V3_HEADER_LEN blob ∧ body = str_drop V3_HEADER_LEN blob ∧
  (∃ v a, classify blob = TagUnsupported v a ∧ ascii_eqb v VERSION_3 = true) ∧
  (19 * 1024 <= kp_m_kib params <= 256 * 1024)%N ∧ (1 <= kp_t params <= 10)%N ∧ (1 <= kp_p params <= 4)%N.
Proof.
  unfold parse_v3_header, classify. destruct (Nat.ltb_spec (String.length blob) V3_HEADER_LEN) as [Hl|Hl]; [done|].
  cbn [orb]. destruct (negb (String.eqb (str_take 4 blob) MAGIC)); [done|].
  rewrite (proj2 (Nat.ltb_ge _ _)) by (unfold V3_HEADER_LEN, HEADER_LEN in *; lia). cbn [orb].
  destruct (byte_at blob 4) as [v|], (byte_at blob 5) as [a|]; cbn [mbind option_bind]; try done.
  destruct (byte_at blob 6) as [k|]; cbn [mbind option_bind]; [|done].
  destruct (ascii_eqb v VERSION_3) eqn:Ev; cbn [negb orb]; [|done].
  destruct (ascii_eqb a ALG_CHACHA20_POLY1305) eqn:Ea; cbn [negb orb]; [|done].
  destruct (ascii_eqb k KDF_ARGON2ID_V13) eqn:Ek; cbn [negb orb]; [|done].
  repeat (match goal with |- context [byte_at blob ?i] => destruct (byte_at blob i); cbn [mbind option_bind]; [|done] end).
  match goal with |- (if ?b then None else _) = _ → _ => destruct b eqn:Eb; [done|] end.
  apply orb_false_iff in Eb as [[Em Et]%orb_false_iff Ep].
  apply negb_false_iff, andb_true_iff in Em as [?%N.leb_le ?%N.leb_le].
  apply negb_false_iff, andb_true_iff in Et as [?%N.leb_le ?%N.leb_le].
  apply negb_false_iff, andb_true_iff in Ep as [?%N.leb_le ?%N.leb_le].
  intros [= <- <- <-]. cbn. split_and!; try done.
  exists v, a. split; [|done]. apply ascii_eqb_eq in Ev as ->. done.
Qed.

Lemma classify_unsupported_or blob v a : classify blob = TagUnsupported v a → ∀ body, classify blob ≠ TagV2 body.
Proof. congruence. Qed.

(** The key of a reading is determined by the bytes before the ciphertext. *)
Lemma key_of_stable r blob blob' passphrase key n :
  key_of r blob passphrase = (Ok key, n) → (n + (SALT_LEN + NONCE_LEN) <= String.length blob)%nat →
  starts_with (str_take (n + (SALT_LEN + NONCE_LEN)) blob) blob' = true →
  key_of r blob' passphrase = (Ok key, n).
Proof.
  intros Hk Hl Hp.
  assert (String.length (str_take (n + (SALT_LEN + NONCE_LEN)) blob) = n + (SALT_LEN + NONCE_LEN))%nat as Hpl
    by by apply str_take_length.
  assert (∀ k, (k <= n + (SALT_LEN + NONCE_LEN))%nat → str_take k blob' = str_take k blob) as Htake.
  { intros k Hle. rewrite (prefix_take _ _ k Hp) by lia. by apply str_take_take. }
  assert (String.length (str_take (n + (SALT_LEN + NONCE_LEN)) blob) <= String.length blob')%nat as Hl'
    by by apply starts_with_length.
  destruct r; unfold key_of in *; pose proof (f_equal snd Hk) as Hn; apply (f_equal fst) in Hk; cbn [fst snd] in Hk, Hn; subst n; unfold SALT_LEN, NONCE_LEN, HEADER_LEN, V3_HEADER_LEN in *.
  - destruct (classify blob) as [|body|] eqn:Ec; try done.
    apply classify_V2 in Ec as (H1 & H2 & ->). unfold HEADER_LEN in *.
    assert (classify blob' = TagV2 (str_drop 6 blob')) as ->.
    { apply classify_V2. unfold HEADER_LEN. split_and!; [lia| |done]. by rewrite Htake by lia. }
    rewrite str_take_drop_take, Htake by lia. by rewrite <- str_take_drop_take, Hk.
  - rewrite (parse_v3_prefix _ _ Hp) by (unfold V3_HEADER_LEN; lia).
    pose proof (parse_v3_prefix _ _ (starts_with_take (13 + (32 + 12)) blob)) as Hb.
    rewrite Hb in Hk by (unfold V3_HEADER_LEN; lia).
    destruct (parse_v3_header (str_take (13 + (32 + 12)) blob)) as [[[k h] b]|]; [|done].
    unfold V3_HEADER_LEN in *. f_equal. rewrite str_take_drop_take, Htake, <- str_take_drop_take by lia. exact Hk.
  - rewrite Htake by lia; by rewrite Hk.
  - rewrite Htake by lia; by rewrite Hk.
Qed.

(** ** The steps of decryption *)

Definition step_ok (r : reading) (blob passphrase : string) (cache : DecryptionCache) (u : unlocked) : Prop :=
  match u with
  | (c, Ok (Some pt)) =>
      open_as r blob passphrase = Some pt ∧ (cache_ok passphrase cache → cache_ok passphrase c)
  | (c, Ok None) => c = cache ∧ open_as r blob passphrase = None
  | (c, Err _) => c = cache ∧ open_as r blob passphrase = None ∧ ¬ keys_derive
  end.

Lemma open_and_remember_spec r blob passphrase key n cache :
  key_of r blob passphrase = (Ok key, n) →
  step_ok r blob passphrase cache (open_and_remember key (str_drop n blob) (aad_of n blob) cache).
Proof.
  intros Hk. unfold open_and_remember, step_ok, open_as. rewrite Hk.
  destruct (decrypt_with_key (str_drop n blob) key (aad_of n blob)) as [pt|] eqn:Ed; [|done].
  split; [done|]. intros _ e E. unfold remember in E. apply (inj Some) in E as <-. exists r. cbn [ck_prefix ck_key ck_aad_len].
  assert (n + (SALT_LEN + NONCE_LEN) <= String.length blob)%nat as Hl.
  { unfold decrypt_with_key in Ed.
    destruct (Nat.ltb_spec (String.length (str_drop n blob)) MIN_ENCRYPTED_LEN) as [|Hl]; [done|].
    rewrite str_drop_length in Hl. unfold MIN_ENCRYPTED_LEN, SALT_LEN, NONCE_LEN in *. lia. }
  intros blob' Hp. assert (default "" (aad_of n blob) +:+ str_take (SALT_LEN + NONCE_LEN) (str_drop n blob) =
    str_take (n + (SALT_LEN + NONCE_LEN)) blob) as Epre.
  { unfold aad_of. destruct (Nat.eqb_spec n 0) as [->|Hn]; [done|]. cbn [default]. apply str_take_app_take. }
  rewrite Epre in Hp. rewrite (key_of_stable _ _ _ _ _ _ Hk Hl Hp). f_equal.
  unfold aad_of. destruct (Nat.eqb_spec n 0) as [->|Hn]; [done|]. rewrite str_take_length; lia.
Qed.

Lemma salt_length n blob : (n + SALT_LEN <= String.length blob)%nat →
  String.length (str_take SALT_LEN (str_drop n blob)) = SALT_LEN.
Proof. intros H. apply str_take_length. rewrite str_drop_length. lia. Qed.

Lemma derive_total passphrase salt :
  keys_derive → String.length salt = SALT_LEN →
  (∃ k, derive_key passphrase salt = Ok k) ∧ (∃ k, derive_key_legacy passphrase salt = Ok k).
Proof.
  intros (Hh & _ & Hd) Hs. split.
  - destruct (Hd hardened_argon2 passphrase salt (or_introl Hh) Hs) as [k Hk]. exists k.
    unfold derive_key, new_params, argon2_derive. rewrite Hh. cbn. by rewrite Hk.
  - destruct (Hd argon2_default passphrase salt (or_intror eq_refl) Hs) as [k Hk]. exists k.
    unfold derive_key_legacy, argon2_derive. by rewrite Hk.
Qed.

Lemma step_too_short r blob passphrase cache n :
  (key_of r blob passphrase).2 = n → (String.length (str_drop n blob) < MIN_ENCRYPTED_LEN)%nat →
  step_ok r blob passphrase cache (cache, Ok None).
Proof.
  intros Hn Hl. cbn. split; [done|]. unfold open_as. destruct (key_of r blob passphrase) as [[key|] n']; [|done].
  cbn in Hn. subst n'. unfold decrypt_with_key. by rewrite (proj2 (Nat.ltb_lt _ _)).
Qed.

(** One derivation and the attempt to open *)
Lemma try_step r blob passphrase cache n (key : derived) :
  key_of r blob passphrase = (key, n) → (MIN_ENCRYPTED_LEN <= String.length (str_drop n blob))%nat →
  (keys_derive → ∃ k, key = Ok k) →
  step_ok r blob passphrase cache
    (match key with
     | Ok key => open_and_remember key (str_drop n blob) (aad_of n blob) cache
     | Err e => (cache, Err e)
     end).
Proof.
  intros Hk Hl Hd. destruct key as [key|e].
  - by apply open_and_remember_spec.
  - cbn. unfold open_as. rewrite Hk. split_and!; [done..|]. intros H. by destruct (Hd H).
Qed.

(** ** The result does not depend on the cache that is passed along *)

Definition indep {T} (f : DecryptionCache → DecryptionCache * T) : Prop := ∀ c c', (f c).2 = (f c').2.

Lemma indep_open key body aad : indep (open_and_remember key body aad).
Proof. intros c c'. unfold open_and_remember. by destruct (decrypt_with_key body key aad). Qed.

Lemma indep_try derive passphrase body aad : indep (try_decrypt_with derive passphrase body aad).
Proof.
  intros c c'. unfold try_decrypt_with. destruct (derive passphrase (str_take SALT_LEN body)); [|done].
  apply indep_open.
Qed.

Lemma indep_body body passphrase aad : indep (decrypt_body body passphrase aad).
Proof.
  intros c c'. unfold decrypt_body. destruct (_ <? _)%nat; [done|].
  pose proof (indep_try derive_key passphrase body aad c c') as H.
  destruct (try_decrypt_with derive_key passphrase body aad c) as [c1 r1],
    (try_decrypt_with derive_key passphrase body aad c') as [c2 r2]. cbn in H. subst r2.
  destruct r1 as [[pt|]|e]; [done| |done]. destruct aad; [done|]. apply indep_try.
Qed.

Lemma indep_body_v3 body passphrase params hdr : indep (decrypt_body_v3 body passphrase params hdr).
Proof.
  intros c c'. unfold decrypt_body_v3. destruct (_ <? _)%nat; [done|].
  destruct (let? _ := new_params params in _) as [key|e]; [apply indep_open|done].
Qed.

Lemma indep_or_else step next : indep step → indep next → indep (fun c => or_else (step c) next).
Proof.
  intros Hs Hn c c'. unfold or_else. pose proof (Hs c c') as H.
  destruct (step c) as [c1 r1], (step c') as [c2 r2]. cbn in H. subst r2.
  destruct r1 as [[pt|]|e]; [done| |done]. apply Hn.
Qed.

Lemma indep_uncached blob passphrase : indep (decrypt_uncached blob passphrase).
Proof.
  intros c c'. unfold decrypt_uncached. destruct (_ <? _)%nat; [done|].
  apply (indep_or_else (fun c => match classify blob with
    | TagV2 body => if (MIN_ENCRYPTED_LEN <=? String.length body)%nat
                    then decrypt_body body passphrase (Some (str_take HEADER_LEN blob)) c else (c, Ok None)
    | _ => (c, Ok None) end)).
  { intros d d'. destruct (classify blob); [done| |done]. destruct (_ <=? _)%nat; [apply indep_body|done]. }
  apply (indep_or_else (fun c => match classify blob with
    | TagUnsupported version _ =>
        if ascii_eqb version VERSION_3 then
          match parse_v3_header blob with
          | Some (params, hdr, body) => decrypt_body_v3 body passphrase params hdr c
          | None => (c, Ok None)
          end
        else (c, Ok None)
    | _ => (c, Ok None) end)).
  { intros d d'. destruct (classify blob); [done..|]. destruct (ascii_eqb _ _); [|done].
    destruct (parse_v3_header blob) as [[[? ?] ?]|]; [apply indep_body_v3|done]. }
  apply (indep_or_else (decrypt_body blob passphrase None)); [apply indep_body|]. by intros d d'.
Qed.

(** ** The order of the readings *)

Lemma step_V2 blob passphrase cache :
  step_ok ReadV2 blob passphrase cache
    (match classify blob with
     | TagV2 body =>
         if (MIN_ENCRYPTED_LEN <=? String.length body)%nat
         then decrypt_body body passphrase (Some (str_take HEADER_LEN blob)) cache
         else (cache, Ok None)
     | _ => (cache, Ok None)
     end).
Proof.
  destruct (classify blob) as [|body|v a] eqn:Ec.
  1,3: cbn; split; [done|]; unfold open_as, key_of; by rewrite Ec.
  assert (body = str_drop HEADER_LEN blob) as -> by by apply classify_V2 in Ec as (_ & _ & ->).
  destruct (Nat.leb_spec MIN_ENCRYPTED_LEN (String.length (str_drop HEADER_LEN blob))) as [Hl|Hl].
  2:{ by apply (step_too_short _ _ _ _ HEADER_LEN). }
  pose proof Hl as Hlb. rewrite str_drop_length in Hlb.
  assert (key_of ReadV2 blob passphrase =
    (derive_key passphrase (str_take SALT_LEN (str_drop HEADER_LEN blob)), HEADER_LEN)) as Hk
    by by unfold key_of; rewrite Ec.
  unfold decrypt_body. rewrite (proj2 (Nat.ltb_ge _ _)) by done. unfold try_decrypt_with.
  pose proof (try_step ReadV2 blob passphrase cache HEADER_LEN _ Hk Hl) as H.
  assert (keys_derive → ∃ k, derive_key passphrase (str_take SALT_LEN (str_drop HEADER_LEN blob)) = Ok k) as Hd.
  { intros Hkd. apply derive_total; [done|]. apply salt_length. unfold MIN_ENCRYPTED_LEN, SALT_LEN, HEADER_LEN in *. lia. }
  specialize (H Hd). change (Some (str_take HEADER_LEN blob)) with (aad_of HEADER_LEN blob).
  destruct (derive_key passphrase (str_take SALT_LEN (str_drop HEADER_LEN blob))) as [key|e]; [|done].
  destruct (open_and_remember key (str_drop HEADER_LEN blob) (aad_of HEADER_LEN blob) cache) as [c [[pt|]|e]]; done.
Qed.

Lemma step_V3 blob passphrase cache :
  step_ok ReadV3 blob passphrase cache
    (match classify blob with
     | TagUnsupported version _ =>
         if ascii_eqb version VERSION_3 then
           match parse_v3_header blob with
           | Some (params, hdr, body) => decrypt_body_v3 body passphrase params hdr cache
           | None => (cache, Ok None)
           end
         else (cache, Ok None)
     | _ => (cache, Ok None)
     end).
Proof.
  destruct (parse_v3_header blob) as [[[params hdr] body]|] eqn:Ep.
  2:{ assert (step_ok ReadV3 blob passphrase cache (cache, Ok None)) as H.
      { cbn. split; [done|]. unfold open_as, key_of. by rewrite Ep. }
      destruct (classify blob) as [| |v a]; [done..|]. by destruct (ascii_eqb v VERSION_3). }
  assert (key_of ReadV3 blob passphrase =
    (let? _ := new_params params in argon2_derive params passphrase (str_take SALT_LEN body) "Key derivation",
     V3_HEADER_LEN)) as Hk by by unfold key_of; rewrite Ep.
  apply parse_v3_split in Ep as (Hl & -> & -> & (v & a & -> & ->) & Hm & Ht & Hp).
  unfold decrypt_body_v3. destruct (Nat.ltb_spec (String.length (str_drop V3_HEADER_LEN blob)) MIN_ENCRYPTED_LEN) as [Hs|Hs].
  { apply (step_too_short _ _ _ _ V3_HEADER_LEN); [by rewrite Hk|done]. }
  apply (try_step ReadV3 blob passphrase cache V3_HEADER_LEN _ Hk Hs).
  intros (_ & Hpar & Hd). rewrite str_drop_length in Hs.
  assert (argon2_params params = Ok tt) as Hok by (destruct params; by apply Hpar).
  destruct (Hd params passphrase (str_take SALT_LEN (str_drop V3_HEADER_LEN blob)) (or_introl Hok)) as [k Hkk].
  { apply salt_length. unfold MIN_ENCRYPTED_LEN, SALT_LEN, V3_HEADER_LEN in *. lia. }
  exists k. unfold new_params, argon2_derive. by rewrite Hok, Hkk.
Qed.

Lemma decrypt_body_None blob passphrase cache c r :
  decrypt_body blob passphrase None cache = (c, r) →
  match r with
  | Ok (Some pt) =>
      (open_as ReadHardened blob passphrase = Some pt ∨
       open_as ReadHardened blob passphrase = None ∧ open_as ReadDefault blob passphrase = Some pt) ∧
      (cache_ok passphrase cache → cache_ok passphrase c)
  | Ok None => c = cache ∧ open_as ReadHardened blob passphrase = None ∧ open_as ReadDefault blob passphrase = None
  | Err _ => c = cache ∧ ¬ keys_derive
  end.
Proof.
  unfold decrypt_body. destruct (Nat.ltb_spec (String.length blob) MIN_ENCRYPTED_LEN) as [Hs|Hs].
  { intros [= <- <-]. split_and!; [done| |].
    - by apply (step_too_short ReadHardened blob passphrase cache 0).
    - by apply (step_too_short ReadDefault blob passphrase cache 0). }
  assert (String.length (str_take SALT_LEN blob) = SALT_LEN) as Hsalt.
  { apply str_take_length. unfold MIN_ENCRYPTED_LEN, SALT_LEN in *. lia. }
  assert (∀ c, step_ok ReadHardened blob passphrase c (try_decrypt_with derive_key passphrase blob None c)) as H1.
  { intros c0. apply (try_step ReadHardened blob passphrase c0 0 (derive_key passphrase (str_take SALT_LEN blob)) eq_refl Hs).
    intros Hkd. by apply derive_total. }
  assert (∀ c, step_ok ReadDefault blob passphrase c (try_decrypt_with derive_key_legacy passphrase blob None c)) as H2.
  { intros c0. apply (try_step ReadDefault blob passphrase c0 0 (derive_key_legacy passphrase (str_take SALT_LEN blob)) eq_refl Hs).
    intros Hkd. by apply derive_total. }
  specialize (H1 cache). destruct (try_decrypt_with derive_key passphrase blob None cache) as [c1 [[pt|]|e]].
  - destruct H1 as [H1 Hc1]. intros [= <- <-]. split; [by left|done].
  - destruct H1 as [-> H1]. specialize (H2 cache).
    destruct (try_decrypt_with derive_key_legacy passphrase blob None cache) as [c2 [[pt|]|e]]; intros [= <- <-].
    + destruct H2 as [H2 Hc2]. split; [by right|done].
    + by destruct H2 as [-> H2].
    + by destruct H2 as (-> & _ & ?).
  - destruct H1 as (-> & _ & ?). by intros [= <- <-].
Qed.

Lemma uncached_spec blob passphrase cache c r :
  decrypt_uncached blob passphrase cache = (c, r) →
  match r with
  | Ok pt => first_opening blob passphrase = Some pt ∧ (cache_ok passphrase cache → cache_ok passphrase c)
  | Err _ => c = cache ∧ (keys_derive → first_opening blob passphrase = None)
  end.
Proof.
  unfold decrypt_uncached, first_opening, readings. cbn [omap list_omap].
  destruct (Nat.ltb_spec (String.length blob) MIN_ENCRYPTED_LEN) as [Hs|Hs].
  { intros [= <- <-]. split; [done|]. intros _.
    assert (∀ rd, open_as rd blob passphrase = None) as Hall; [|by rewrite !Hall].
    intros rd. apply (step_too_short rd blob passphrase cache (key_of rd blob passphrase).2 eq_refl).
    rewrite str_drop_length. lia. }
  unfold or_else at 1. pose proof (step_V2 blob passphrase cache) as H2.
  match type of H2 with step_ok _ _ _ _ ?u => destruct u as [c2 [[pt|]|e]] end.
  { destruct H2 as [-> Hc]. by intros [= <- <-]. }
  2:{ destruct H2 as (-> & -> & Hn). intros [= <- <-]. done. }
  destruct H2 as [-> ->]. unfold or_else at 1. pose proof (step_V3 blob passphrase cache) as H3.
  match type of H3 with step_ok _ _ _ _ ?u => destruct u as [c3 [[pt|]|e]] end.
  { destruct H3 as [-> Hc]. by intros [= <- <-]. }
  2:{ destruct H3 as (-> & -> & Hn). intros [= <- <-]. done. }
  destruct H3 as [-> ->]. unfold or_else.
  destruct (decrypt_body blob passphrase None cache) as [c4 r4] eqn:H4. apply decrypt_body_None in H4.
  destruct r4 as [[pt|]|e]; intros [= <- <-].
  - destruct H4 as [[-> | [-> ->]] Hc]; done.
  - by destruct H4 as (-> & -> & ->).
  - by destruct H4 as (-> & Hn).
Qed.

Lemma first_opening_authentic blob passphrase pt :
  first_opening blob passphrase = Some pt → authentic blob passphrase pt.
Proof.
  intros H%head_Some_elem_of. apply list_elem_of_omap in H as (r & _ & H). by exists r.
Qed.

Lemma authentic_opening blob passphrase pt :
  authentic blob passphrase pt → unambiguous blob passphrase → first_opening blob passphrase = Some pt.
Proof.
  intros Ha Hu. destruct (first_opening blob passphrase) as [q|] eqn:Eq.
  - apply first_opening_authentic in Eq. by rewrite (Hu pt q Ha Eq).
  - exfalso. destruct Ha as [r Hr].
    assert (pt ∈ omap (fun r => open_as r blob passphrase) readings) as Hin.
    { apply list_elem_of_omap. exists r. split; [|done]. unfold readings. destruct r; set_solver. }
    unfold first_opening in Eq. destruct (omap _ readings); [by apply elem_of_nil in Hin|done].
Qed.

Lemma decrypt_iff blob passphrase plaintext :
  keys_derive →
  decrypt blob passphrase = Ok plaintext ↔ first_opening blob passphrase = Some plaintext.
Proof.
  intros Hkd. unfold decrypt, cache_decrypt. cbn [mbind option_bind].
  destruct (decrypt_uncached blob passphrase None) as [c r] eqn:H. apply uncached_spec in H. cbn [snd].
  destruct r as [pt|e].
  - destruct H as [-> _]. split; by intros [= ->].
  - destruct H as [_ H]. rewrite (H Hkd). by split.
Qed.

(** C19: Decryption succeeds exactly when a reading of the blob authenticates,
    and gives the plaintext of the first one that does, in the order: version
    2, version 3 with the parameters of its header, untagged under the current
    parameters, untagged under the old ones. *)
Theorem decrypt_exact blob passphrase plaintext :
  keys_derive →
  decrypt blob passphrase = Ok plaintext ↔ first_opening blob passphrase = Some plaintext.
Proof. apply decrypt_iff. Qed.

(** Decryption fails with vault errors. *)
Definition vault_errors {T} (r : result T PhantomError) : Prop := ∀ e, r = Err e → ∃ m, e = VaultError m.

Lemma derive_errors passphrase salt : vault_errors (derive_key passphrase salt) ∧ vault_errors (derive_key_legacy passphrase salt).
Proof.
  unfold derive_key, derive_key_legacy, new_params, argon2_derive. split; intros e.
  - destruct (argon2_params hardened_argon2); cbn; [|intros [= <-]; by eexists].
    destruct (argon2id hardened_argon2 passphrase salt); cbn; [done|intros [= <-]; by eexists].
  - destruct (argon2id argon2_default passphrase salt); cbn; [done|intros [= <-]; by eexists].
Qed.

Lemma try_errors derive passphrase body aad cache :
  (∀ salt, vault_errors (derive passphrase salt)) → vault_errors (try_decrypt_with derive passphrase body aad cache).2.
Proof.
  intros Hd e. unfold try_decrypt_with, open_and_remember.
  destruct (derive passphrase (str_take SALT_LEN body)) as [key|err] eqn:E.
  - by destruct (decrypt_with_key body _ aad).
  - intros [= <-]. by eapply Hd.
Qed.

Lemma body_errors body passphrase aad cache : vault_errors (decrypt_body body passphrase aad cache).2.
Proof.
  unfold decrypt_body. destruct (_ <? _)%nat; [done|].
  pose proof (try_errors derive_key passphrase body aad cache (fun s => proj1 (derive_errors passphrase s))) as H.
  destruct (try_decrypt_with derive_key passphrase body aad cache) as [c [[pt|]|err]]; [done| |done].
  destruct aad; [done|]. apply try_errors. intros s. apply derive_errors.
Qed.

Lemma body_v3_errors body passphrase params hdr cache :
  vault_errors (decrypt_body_v3 body passphrase params hdr cache).2.
Proof.
  unfold decrypt_body_v3. destruct (_ <? _)%nat; [done|]. unfold new_params, argon2_derive, open_and_remember.
  destruct (argon2_params params) as [|m]; cbn -[str_take]; [|intros e [= <-]; by eexists].
  destruct (argon2id params passphrase (str_take SALT_LEN body)) as [key|m]; cbn -[str_take]; [|intros e [= <-]; by eexists].
  by destruct (decrypt_with_key body _ _).
Qed.

Lemma or_else_errors step next :
  vault_errors step.2 → (∀ c, vault_errors (next c).2) → vault_errors (or_else step next).2.
Proof. intros Hs Hn. destruct step as [c [[pt|]|e]]; cbn; [done|apply Hn|]. intros e' [= <-]. by apply Hs. Qed.

Lemma decrypt_errors blob passphrase : vault_errors (decrypt blob passphrase).
Proof.
  unfold decrypt, cache_decrypt. cbn [mbind option_bind]. unfold decrypt_uncached.
  destruct (_ <? _)%nat; [intros e [= <-]; by eexists|]. apply or_else_errors; [|intros c; apply or_else_errors; [|intros c'; apply or_else_errors]].
  - destruct (classify blob); [done| |done]. destruct (_ <=? _)%nat; [apply body_errors|done].
  - destruct (classify blob); [done..|]. destruct (ascii_eqb _ _); [|done].
    destruct (parse_v3_header blob) as [[[? ?] ?]|]; [apply body_v3_errors|done].
  - apply body_errors.
  - intros c'' e [= <-]. by eexists.
Qed.

(** Sealing is undone by opening with the same key, nonce and associated
    data, and adds a tag of 16 bytes. *)
Definition seals_open : Prop :=
  ∀ key nonce aad m c, aead_seal key nonce aad m = Some c →
    aead_open key nonce aad c = Some m ∧ String.length c = (String.length m + 16)%nat.

Lemma opened_body salt nonce key aad m c :
  seals_open → aead_seal key nonce (default "" aad) m = Some c →
  String.length salt = SALT_LEN → String.length nonce = NONCE_LEN →
  decrypt_with_key (salt +:+ nonce +:+ c) key aad = Some m.
Proof.
  intros Hlaw Hc Hs Hn. destruct (Hlaw _ _ _ _ _ Hc) as [Ho Hl]. unfold decrypt_with_key.
  rewrite !str_length_app. rewrite (proj2 (Nat.ltb_ge _ _)) by (unfold MIN_ENCRYPTED_LEN, SALT_LEN, NONCE_LEN in *; lia).
  replace (SALT_LEN + NONCE_LEN)%nat with (String.length (salt +:+ nonce)) by (rewrite str_length_app; lia).
  rewrite <- Hs, <- Hn, str_drop_app, str_take_app, <- str_app_assoc, str_drop_app. exact Ho.
Qed.

Lemma encrypted_opens salt nonce plaintext passphrase format blob :
  seals_open → keys_derive → String.length salt = SALT_LEN → String.length nonce = NONCE_LEN →
  encrypt_with_format salt nonce plaintext passphrase format = Ok blob →
  format = FormatTagged ∨ starts_with MAGIC salt = false ∨ unambiguous blob passphrase →
  decrypt blob passphrase = Ok plaintext.
Proof.
  intros Hlaw Hkd Hs Hn Henc Hwhen. apply decrypt_iff; [done|]. unfold encrypt_with_format in Henc.
  destruct (derive_key passphrase salt) as [key|] eqn:Hkey; cbn [rbind] in Henc; [|done].
  destruct format.
  - destruct (aead_seal key nonce "" plaintext) as [c|] eqn:Hc; cbn [ok_or rbind] in Henc; [|done].
    apply Ok_inj in Henc as <-. change ("" +:+ ?s) with s in *.
    assert (open_as ReadHardened (salt +:+ nonce +:+ c) passphrase = Some plaintext) as Ho.
    { unfold open_as, key_of. rewrite <- Hs, str_take_app, Hkey. cbn [str_drop].
      by apply (opened_body salt nonce key None plaintext c). }
    destruct Hwhen as [?|[Hm|Hu]]; [done| |by apply authentic_opening; [exists ReadHardened|]].
    unfold first_opening, readings. cbn [omap list_omap].
    assert (classify (salt +:+ nonce +:+ c) = Untagged) as Hcl.
    { unfold classify. destruct (_ <? _)%nat; [done|].
      destruct (String.eqb_spec (str_take 4 (salt +:+ nonce +:+ c)) MAGIC) as [E|]; [|done].
      exfalso. apply Bool.not_true_iff_false in Hm. apply Hm, starts_with_spec. exists (str_drop 4 salt).
      rewrite <- (str_take_drop 4 salt) at 1. f_equal. rewrite <- E.
      symmetry. apply (prefix_take salt); [apply starts_with_app|]. rewrite Hs. unfold SALT_LEN. lia. }
    assert (open_as ReadV2 (salt +:+ nonce +:+ c) passphrase = None) as ->.
    { unfold open_as, key_of. by rewrite Hcl. }
    assert (open_as ReadV3 (salt +:+ nonce +:+ c) passphrase = None) as ->.
    { unfold open_as, key_of. destruct (parse_v3_header _) as [[[params hdr] body]|] eqn:Ep; [|done].
      apply parse_v3_split in Ep as (_ & _ & _ & (v & a & E & _) & _). congruence. }
    by rewrite Ho.
  - destruct (aead_seal key nonce header plaintext) as [c|] eqn:Hc; cbn [ok_or rbind] in Henc; [|done].
    apply Ok_inj in Henc as <-. unfold first_opening, readings. cbn [omap list_omap].
    assert (classify (header +:+ salt +:+ nonce +:+ c) = TagV2 (salt +:+ nonce +:+ c)) as Hcl.
    { apply classify_V2. rewrite str_length_app. change HEADER_LEN with (String.length header).
      rewrite str_take_app, str_drop_app. split_and!; [lia|done..]. }
    assert (open_as ReadV2 (header +:+ salt +:+ nonce +:+ c) passphrase = Some plaintext) as ->; [|done].
    unfold open_as, key_of, aad_of. rewrite Hcl, <- Hs, str_take_app, Hkey.
    change (HEADER_LEN =? 0)%nat with false. change HEADER_LEN with (String.length header).
    rewrite str_drop_app, str_take_app. by apply (opened_body salt nonce key (Some header) plaintext c).
Qed.

(** What was encrypted decrypts to the same plaintext under the same
    passphrase; in the untagged layout, unless the random salt happens to
    start with the magic bytes and the blob also authenticates as something
    else. *)
Theorem decrypt_encrypt salt nonce plaintext passphrase format blob :
  seals_open → keys_derive → String.length salt = SALT_LEN → String.length nonce = NONCE_LEN →
  encrypt_with_format salt nonce plaintext passphrase format = Ok blob →
  format = FormatTagged ∨ starts_with MAGIC salt = false ∨ unambiguous blob passphrase →
  decrypt blob passphrase = Ok plaintext.
Proof. apply encrypted_opens. Qed.

Lemma cached_result cache blob passphrase c r :
  keys_derive → cache_ok passphrase cache → cache_decrypt cache blob passphrase = (c, r) →
  cache_ok passphrase c ∧
  (∀ plaintext, r = Ok plaintext → authentic blob passphrase plaintext) ∧
  (unambiguous blob passphrase → r = decrypt blob passphrase).
Proof.
  intros Hkd Hok H. unfold cache_decrypt in H.
  assert (∀ c' r', decrypt_uncached blob passphrase cache = (c', r') →
    cache_ok passphrase c' ∧ (∀ pt, r' = Ok pt → authentic blob passphrase pt) ∧ r' = decrypt blob passphrase) as Hmiss.
  { intros c' r' Hu. pose proof (indep_uncached blob passphrase cache None) as Hi. rewrite Hu in Hi. cbn [snd] in Hi.
    apply uncached_spec in Hu. split_and!; [| |exact Hi].
    - destruct r'; [by apply Hu|by destruct Hu as [-> _]].
    - intros pt ->. destruct Hu as [Hu _]. by apply first_opening_authentic. }
  destruct cache as [e|]; cbn [mbind option_bind] in H; [|apply Hmiss in H; naive_solver].
  destruct (starts_with (ck_prefix e) blob) eqn:Hp; [|apply Hmiss in H; naive_solver].
  fold (aad_of (ck_aad_len e) blob) in H.
  destruct (decrypt_with_key (str_drop (ck_aad_len e) blob) (ck_key e) (aad_of (ck_aad_len e) blob)) as [pt|] eqn:Ho;
    [|apply Hmiss in H; naive_solver].
  injection H as <- <-. destruct (Hok e eq_refl) as [rd Hrd].
  assert (authentic blob passphrase pt) as Ha.
  { exists rd. unfold open_as. by rewrite (Hrd _ Hp). }
  split_and!; [done|by intros ? [= <-]|]. intros Hu. symmetry. apply decrypt_iff; [done|].
  by apply authentic_opening.
Qed.

(** The unlock cache changes no result: a decryption that goes through it
    only returns plaintexts that authenticate under the passphrase, and where
    the blob has one plaintext it returns what a fresh decryption returns;
    it keeps the cache's entry a key of the passphrase. *)
Theorem cache_transparent cache blob passphrase c r :
  keys_derive → cache_ok passphrase cache → cache_decrypt cache blob passphrase = (c, r) →
  cache_ok passphrase c ∧
  (∀ plaintext, r = Ok plaintext → authentic blob passphrase plaintext) ∧
  (unambiguous blob passphrase → r = decrypt blob passphrase).
Proof. apply cached_result. Qed.

(** A team blob opens to what was sealed, under the same key; in the
    untagged layout, unless the random nonce starts with the magic bytes. *)
Theorem team_blob_roundtrip nonce plaintext key format blob :
  seals_open → String.length nonce = NONCE_LEN →
  seal_team_blob nonce plaintext key format = Ok blob →
  format = FormatTagged ∨ starts_with MAGIC nonce = false →
  open_team_blob blob key = Ok plaintext.
Proof.
  intros Hlaw Hn Hs Hwhen. unfold seal_team_blob in Hs. unfold open_team_blob. destruct format.
  - destruct (aead_seal key nonce "" plaintext) as [c|] eqn:Hc; cbn [ok_or rbind] in Hs; [|done].
    apply Ok_inj in Hs as <-. change ("" +:+ ?s) with s. destruct (Hlaw _ _ _ _ _ Hc) as [Ho Hl].
    destruct Hwhen as [?|Hm]; [done|].
    assert (classify (nonce +:+ c) = Untagged) as ->.
    { unfold classify. destruct (_ <? _)%nat; [done|].
      destruct (String.eqb_spec (str_take 4 (nonce +:+ c)) MAGIC) as [E|]; [|done].
      exfalso. apply Bool.not_true_iff_false in Hm. apply Hm, starts_with_spec. exists (str_drop 4 nonce).
      rewrite <- (str_take_drop 4 nonce) at 1. f_equal. rewrite <- E.
      symmetry. apply (prefix_take nonce); [apply starts_with_app|]. rewrite Hn. unfold NONCE_LEN. lia. }
    unfold open_legacy. rewrite str_length_app, (proj2 (Nat.ltb_ge _ _)) by lia.
    by rewrite <- Hn, str_take_app, str_drop_app, Ho.
  - destruct (aead_seal key nonce header plaintext) as [c|] eqn:Hc; cbn [ok_or rbind] in Hs; [|done].
    apply Ok_inj in Hs as <-. destruct (Hlaw _ _ _ _ _ Hc) as [Ho Hl].
    assert (classify (header +:+ nonce +:+ c) = TagV2 (nonce +:+ c)) as ->.
    { apply classify_V2. rewrite str_length_app. change HEADER_LEN with (String.length header).
      rewrite str_take_app, str_drop_app. split_and!; [lia|done..]. }
    rewrite str_length_app, (proj2 (Nat.leb_le _ _)) by lia. change HEADER_LEN with (String.length header).
    by rewrite <- Hn, str_take_app, str_drop_app, str_take_app, Ho.
Qed.
End crypto.

(** ** Concrete primitives

    A key is the iteration count and the passphrase; a tag is 16 bytes of the
    key and of the associated data. *)

Definition demo_tag (key aad : string) : string :=
  str_take 16 (str_take 1 key +:+ aad +:+ "................").

Fixpoint strip_tag (t m : string) : option string :=
  if String.eqb m t then Some ""%string
  else match m with
  | EmptyString => None
  | String c m => rest ← strip_tag t m; Some (String c rest)
  end.

#[export] Instance demo_crypto : Crypto := {
  argon2_params := fun _ => Ok tt;
  argon2_default := mk_kdf (19 * 1024) 2 1;
  argon2id := fun params passphrase _ => Ok (N_to_string (kp_t params) +:+ passphrase);
  aead_seal := fun key _ aad m => Some (m +:+ demo_tag key aad);
  aead_open := fun key _ aad c => strip_tag (demo_tag key aad) c;
}.

Lemma demo_keys_derive : keys_derive.
Proof. split; [done|]. split; [done|]. intros params passphrase salt _ _. by eexists. Qed.

Lemma demo_tag_length key aad : String.length (demo_tag key aad) = 16%nat.
Proof. unfold demo_tag. apply str_take_length. rewrite !str_length_app. cbn. lia. Qed.

Lemma strip_tag_app t m : strip_tag t (m +:+ t) = Some m.
Proof.
  induction m as [|c m IH]; cbn -[String.eqb].
  - by destruct t as [|c t]; cbn -[String.eqb]; rewrite String.eqb_refl.
  - destruct (String.eqb_spec (String c (m +:+ t)) t) as [E|_]; [|by rewrite IH].
    exfalso. apply (f_equal String.length) in E. cbn in E. rewrite str_length_app in E. lia.
Qed.

Lemma demo_seals_open : seals_open.
Proof.
  intros key nonce aad m c E. change (Some (m +:+ demo_tag key aad) = Some c) in E. apply (inj Some) in E as <-.
  split; [apply strip_tag_app|by rewrite str_length_app, demo_tag_length].
Qed.

Definition demo_salt : string := "0123456789abcdef0123456789abcdef".
Definition demo_nonce : string := "nonce-nonce-".

Definition demo_blob : string :=
  match encrypt_with_format demo_salt demo_nonce "secret" "pw" FormatTagged with Ok b => b | Err _ => "" end.

Lemma decrypt_exact_witness : decrypt demo_blob "pw" = Ok "secret"%string.
Proof. apply (decrypt_exact demo_blob "pw" "secret"); [apply demo_keys_derive|vm_compute; reflexivity]. Defined.

Lemma decrypt_encrypt_witness : decrypt demo_blob "pw" = Ok "secret"%string.
Proof.
  apply (decrypt_encrypt demo_salt demo_nonce "secret" "pw" FormatTagged); [apply demo_seals_open|apply demo_keys_derive|
    reflexivity|reflexivity|vm_compute; reflexivity|by left].
Defined.

Lemma demo_unambiguous : unambiguous demo_blob "pw".
Proof. intros p q [[] Hp] [[] Hq]; vm_compute in Hp, Hq; congruence. Qed.

(** A cache filled by one decryption, and the same blob again *)
Lemma cache_transparent_witness :
  let '(c, _) := cache_decrypt None demo_blob "pw" in
  is_Some c ∧ (cache_decrypt c demo_blob "pw").2 = decrypt demo_blob "pw".
Proof.
  destruct (cache_decrypt None demo_blob "pw") as [c r] eqn:E.
  assert (is_Some c) as Hc by (vm_compute in E; injection E as <- _; by eexists).
  split; [exact Hc|].
  destruct (cache_transparent None demo_blob "pw" c r demo_keys_derive (fun e (H : None = Some e) =>
    match H with eq_refl => I end) E) as (Hok & _ & _).
  destruct (cache_decrypt c demo_blob "pw") as [c' r'] eqn:E'.
  exact (proj2 (proj2 (cache_transparent c demo_blob "pw" c' r' demo_keys_derive Hok E')) demo_unambiguous).
Defined.

Lemma team_blob_roundtrip_witness :
  ∃ blob, seal_team_blob demo_nonce "secret" "k" FormatLegacy = Ok blob ∧ open_team_blob blob "k" = Ok "secret"%string.
Proof.
  eexists. split; [reflexivity|].
  apply (team_blob_roundtrip demo_nonce "secret" "k" FormatLegacy); [apply demo_seals_open|reflexivity..|by right].
Defined.
