(* ===== verification/FileVault.v ===== *)
(** * The encrypted file vault: [crates/phantom-vault/src/file.rs]

    [FileVault] keeps the contents of a vault ([VaultData]) in one encrypted
    file: every method takes the locks, reads and decrypts the file, and a
    changing one publishes a new file in its place.  The file operations are
    [AnchoredFs] with the operations of [VaultFs]; JSON, randomness, the
    clock and the audit log are parameters.  [FileVaultSpec] shows that the
    methods do to the decrypted contents what [VaultData] says. *)

From S2P Require Import Prelude Text Ids External StateDir Rotation VaultMeta VaultData VaultCrypto AnchoredFs.

(** ** The environment *)

(** Of a lock only that it was taken; it is released when the method
    returns. *)
Class VaultFs {W} (F : AnchoredFs W) := {
  acquire_lock : trusted_anchor → string → io W ErrorKind unit;
  private_subdirectory : trusted_anchor → string → io W ErrorKind trusted_anchor;
  repair_private_regular : anchored_target → io W ErrorKind bool;
}.

(** [serde_json] on [VaultData]: pretty text, and reading with errors that
    show no value *)
Class VaultJson := {
  vault_to_json : VaultData → result string string;
  vault_from_json : string → result VaultData string;
}.

(** [phantom_core::audit::log], which reports nothing *)
Class AuditSink (W : Type) := audit_log : string → string → W → W.

(** [rand::random] of so many bytes *)
Class Rng (W : Type) := random_bytes : nat → W → W * string.

(** The mutex with the unlock cache of one vault *)
Class UnlockCell (W : Type) := {
  cell_get : W → DecryptionCache;
  cell_set : DecryptionCache → W → W;
}.

(** ** Names *)

Record VaultNames := mk_names {
  vn_stable_lock : string;
  vn_legacy_lock : string;
  vn_encrypted : string;
  vn_legacy_json : string;
}.

(** [VaultNames::new] *)
Definition vault_names (project_id : string) : VaultNames :=
  mk_names ("vault-" +:+ project_id +:+ ".lock") (project_id +:+ ".lock") (project_id +:+ ".vault")
    (project_id +:+ ".json").

(** [to_ascii_uppercase] *)
Definition ascii_upper (c : ascii) : ascii :=
  if is_ascii_lowercase c then ascii_of_N (N_of_ascii c - 32) else c.
Fixpoint to_ascii_uppercase (s : string) : string :=
  match s with EmptyString => EmptyString | String c s => String (ascii_upper c) (to_ascii_uppercase s) end.

(** [upper.strip_prefix(p)] followed by a digit from 1 to 9 *)
Definition numbered_device (p upper : string) : bool :=
  starts_with p upper &&
  match str_drop (String.length p) upper with
  | String d EmptyString => byte_in "1"%char "9"%char d
  | _ => false
  end.

(** [is_windows_reserved_basename] *)
Definition is_windows_reserved_basename (project_id : string) : bool :=
  let upper := to_ascii_uppercase project_id in
  existsb (String.eqb upper) ["CON"; "PRN"; "AUX"; "NUL"]%string
  || numbered_device "COM" upper || numbered_device "LPT" upper.

(** [validate_project_id] *)
Definition validate_project_id (project_id : string) : result unit PhantomError :=
  if negb (str_is_empty project_id) && (str_len project_id <=? 128)%N
     && all_bytes (fun c => is_ascii_alphanumeric c || ascii_eqb c "-"%char || ascii_eqb c "_"%char) project_id
     && negb (is_windows_reserved_basename project_id)
  then Ok tt
  else Err (VaultError "Invalid project ID for encrypted file vault").

Section file_vault.
Context {W : Type} `{F : !AnchoredFs W} `{VF : !VaultFs F} `{K : !Crypto} `{J : !VaultJson}.
Context `{AS : !AuditSink W} `{R : !Rng W} `{C : !Clock W} `{U : !UnlockCell W}.
(** The value of [PHANTOM_BLOB_FORMAT] *)
Context (blob_format_env : option string).

Record FileVault := mk_file_vault {
  fv_base_anchor : trusted_anchor;
  fv_names : VaultNames;
  fv_passphrase : string;
}.

Record LockedVault := mk_locked { lv_encrypted : anchored_target; lv_legacy_json : anchored_target }.

Record LoadedVault := mk_loaded { ld_data : VaultData; ld_before : option AnchoredRead }.

(** An [io::Error] through [?] *)
Definition io_try {T} (m : io W ErrorKind T) : vault_io W T := fun w =>
  let '(w1, r) := m w in (w1, map_err Io r).

Definition io_try_as {T} (text : string) (m : io W ErrorKind T) : vault_io W T := fun w =>
  let '(w1, r) := m w in (w1, map_err (fun e => VaultError (text +:+ io_error_text e)) r).

(** [require_durable_effect] *)
Definition require_durable_effect {T} (outcome : AnchoredEffect T) (operation : string) : result T PhantomError :=
  match outcome with
  | Durable value | CommittedVerifiedButDurabilityUncertain value => Ok value
  | CommittedButUncertain _ error =>
      Err (VaultError (operation
        +:+ " committed, but durability or post-effect verification is uncertain: " +:+ io_error_text error
        +:+ ". Do not assume the operation had no effect; reopen and verify the vault before retrying"))
  end.

(** [replace_if_exact] *)
Definition replace_if_exact (t : anchored_target) (expected : option AnchoredRead) (contents : string) :=
  replace_if_exact_with_permissions t expected contents private_permissions.

(** [lock_view] *)
Definition lock_view (v : FileVault) : vault_io W LockedVault :=
  do? _ := io_try_as "Cannot acquire stable vault lock: " (acquire_lock (fv_base_anchor v) (vn_stable_lock (fv_names v))) in
  do? vaults := io_try (private_subdirectory (fv_base_anchor v) "vaults") in
  do? _ := io_try_as "Cannot acquire legacy vault lock: " (acquire_lock vaults (vn_legacy_lock (fv_names v))) in
  do? encrypted := io_try (target_of vaults (vn_encrypted (fv_names v))) in
  do? legacy_json := io_try (target_of vaults (vn_legacy_json (fv_names v))) in
  io_ret (mk_locked encrypted legacy_json).

(** [FileVault::decrypt] *)
Definition fv_decrypt (v : FileVault) (encrypted : string) : vault_io W string := fun w =>
  let '(c, r) := cache_decrypt (cell_get w) encrypted (fv_passphrase v) in (cell_set c w, r).

(** [FileVault::encrypt] *)
Definition fv_encrypt (v : FileVault) (data : VaultData) : vault_io W string := fun w =>
  match vault_to_json data with
  | Err e => (w, Err (VaultError ("Serialization failed: " +:+ e)))
  | Ok plaintext =>
      let '(w1, salt) := random_bytes SALT_LEN w in
      let '(w2, nonce) := random_bytes NONCE_LEN w1 in
      (w2, encrypt_with_format salt nonce plaintext (fv_passphrase v) (format_from_env blob_format_env))
  end.

(** [load] *)
Definition load_vault (v : FileVault) (locked : LockedVault) : vault_io W LoadedVault :=
  do? before := io_try (read_target (lv_encrypted locked)) in
  match before with
  | None => io_ret (mk_loaded empty_vault None)
  | Some before =>
      do? _ := io_try (repair_private_regular (lv_encrypted locked)) in
      do? plaintext := fv_decrypt v (ar_bytes before) in
      do? data := io_lift (map_err (fun e => VaultError ("Corrupt vault data: " +:+ e)) (vault_from_json plaintext)) in
      io_ret (mk_loaded data (Some before))
  end.

(** [save] *)
Definition save_vault (v : FileVault) (locked : LockedVault) (data : VaultData) (expected : option AnchoredRead)
    : vault_io W unit :=
  do? encrypted := fv_encrypt v data in
  do? outcome := io_try (replace_if_exact (lv_encrypted locked) expected encrypted) in
  do? _ := io_lift (require_durable_effect outcome "encrypted vault update") in
  io_ret tt.

(** [audit::log] *)
Definition audit (event name : string) : vault_io W unit := fun w => (audit_log event name w, Ok tt).

(** ** [impl VaultBackend for FileVault] *)

(** [store] *)
Definition fv_store (v : FileVault) (name value : string) : vault_io W unit :=
  do? locked := lock_view v in
  do? l := load_vault v locked in
  do? data := (if bool_decide (is_Some (vd_secrets (ld_data l) !! name)) then io_ret (ld_data l)
               else do? now := read_clock in io_ret (stamp_new now name (ld_data l))) in
  do? _ := save_vault v locked (replace_value name value data) (ld_before l) in
  audit "vault.store" name.

(** [retrieve] *)
Definition fv_retrieve (v : FileVault) (name : string) : vault_io W string :=
  do? locked := lock_view v in
  do? l := load_vault v locked in
  do? value := io_lift (ok_or (vd_secrets (ld_data l) !! name) (SecretNotFound name)) in
  do? _ := audit "vault.retrieve" name in
  io_ret value.

(** [retrieve_for_injection] *)
Definition fv_retrieve_for_injection (v : FileVault) (name : string) : vault_io W string :=
  do? locked := lock_view v in
  do? l := load_vault v locked in
  do? _ := io_lift (ensure_secret_injectable name (vd_metadata (ld_data l) !! name)) in
  do? value := io_lift (ok_or (vd_secrets (ld_data l) !! name) (SecretNotFound name)) in
  do? _ := audit "vault.retrieve_for_injection" name in
  io_ret value.

(** [delete] *)
Definition fv_delete (v : FileVault) (name : string) : vault_io W unit :=
  do? locked := lock_view v in
  do? l := load_vault v locked in
  io_fail_if (negb (bool_decide (is_Some (vd_secrets (ld_data l) !! name)))) (SecretNotFound name)
  (do? _ := save_vault v locked (data_delete name (ld_data l)) (ld_before l) in
   audit "vault.delete" name).

(** [compare_and_swap] *)
Definition fv_compare_and_swap (v : FileVault) (name : string) (expected replacement : option string)
    : vault_io W bool :=
  do? locked := lock_view v in
  do? l := load_vault v locked in
  let current := vd_secrets (ld_data l) !! name in
  if negb (bool_decide (current = expected)) then io_ret false
  else
    do? data :=
      match replacement with
      | Some value =>
          do? data := (if bool_decide (is_Some current) then io_ret (ld_data l)
                       else do? now := read_clock in io_ret (stamp_new now name (ld_data l))) in
          io_ret (replace_value name value data)
      | None => io_ret (data_delete name (ld_data l))
      end in
    do? _ := save_vault v locked data (ld_before l) in
    do? _ := audit "vault.compare_and_swap" name in
    io_ret true.

(** [list]: the names in their order *)
Definition fv_list (v : FileVault) : vault_io W (list string) :=
  do? locked := lock_view v in
  do? l := load_vault v locked in
  io_ret (btree_collect (map fst (map_to_list (vd_secrets (ld_data l))))).

(** [get_metadata] *)
Definition fv_get_metadata (v : FileVault) (name : string) : vault_io W (option SecretMetadata) :=
  do? locked := lock_view v in
  do? l := load_vault v locked in
  io_ret (vd_metadata (ld_data l) !! name).

(** [set_metadata] *)
Definition fv_set_metadata (v : FileVault) (name : string) (meta : SecretMetadata) : vault_io W unit :=
  do? locked := lock_view v in
  do? l := load_vault v locked in
  io_fail_if (negb (bool_decide (is_Some (vd_secrets (ld_data l) !! name)))) (SecretNotFound name)
    (save_vault v locked (with_metadata name (Some meta) (ld_data l)) (ld_before l)).

(** The end of both batch methods *)
Definition save_batch (v : FileVault) (locked : LockedVault) (l : LoadedVault) (checked : result bool PhantomError)
    (is_empty : bool) (data : VaultData) : vault_io W bool :=
  do? matched := io_lift checked in
  if negb matched then io_ret false
  else do? _ := (if is_empty then io_ret tt else save_vault v locked data (ld_before l)) in io_ret true.

Definition is_nil {A} (l : list A) : bool := match l with [] => true | _ => false end.

(** [compare_and_swap_metadata_batch] *)
Definition fv_metadata_batch (v : FileVault) (changes : list MetadataCas) : vault_io W bool :=
  do? locked := lock_view v in
  do? l := load_vault v locked in
  save_batch v locked l (check_metadata_batch changes (ld_data l)) (is_nil changes)
    (apply_metadata_batch changes (ld_data l)).

(** [get_validation_metadata] *)
Definition fv_get_validation (v : FileVault) (name : string) : vault_io W ValidationMetadata :=
  do? locked := lock_view v in
  do? l := load_vault v locked in
  io_ret (default default_validation (vd_validation (ld_data l) !! name)).

(** [get_validation_metadata_exact] *)
Definition fv_get_validation_exact (v : FileVault) (name : string) : vault_io W (option ValidationMetadata) :=
  do? locked := lock_view v in
  do? l := load_vault v locked in
  io_ret (vd_validation (ld_data l) !! name).

(** [set_validation_metadata] *)
Definition fv_set_validation (v : FileVault) (name : string) (meta : ValidationMetadata) : vault_io W unit :=
  do? locked := lock_view v in
  do? l := load_vault v locked in
  io_fail_if (negb (bool_decide (is_Some (vd_secrets (ld_data l) !! name)))) (SecretNotFound name)
    (save_vault v locked (with_validation name (Some meta) (ld_data l)) (ld_before l)).

(** [compare_and_swap_validation_metadata_batch] *)
Definition fv_validation_batch (v : FileVault) (changes : list ValidationMetadataCas) : vault_io W bool :=
  do? locked := lock_view v in
  do? l := load_vault v locked in
  save_batch v locked l (check_validation_batch changes (ld_data l)) (is_nil changes)
    (apply_validation_batch changes (ld_data l)).

(** [store_with_expiry] *)
Definition fv_store_with_expiry (v : FileVault) (name value : string) (days_ttl : N) : vault_io W unit :=
  do? locked := lock_view v in
  do? l := load_vault v locked in
  do? now := read_clock in
  do? _ := save_vault v locked (data_store_with_expiry now name value days_ttl (ld_data l)) (ld_before l) in
  audit "vault.store" name.

(** The methods with the bodies of the trait *)
Definition fv_exists (v : FileVault) (name : string) : vault_io W bool :=
  do? names := fv_list v in io_ret (bool_decide (name ∈ names)).

Fixpoint fv_metadata_of (v : FileVault) (names : list string)
    : vault_io W (list (string * option SecretMetadata)) :=
  match names with
  | [] => io_ret []
  | name :: rest =>
      do? meta := fv_get_metadata v name in
      do? out := fv_metadata_of v rest in
      io_ret ((name, meta) :: out)
  end.

Definition fv_list_with_metadata (v : FileVault) : vault_io W (list (string * option SecretMetadata)) :=
  do? names := fv_list v in fv_metadata_of v names.

Definition file_vault (v : FileVault) : VaultBackend W := {|
  store := fv_store v;
  retrieve := fv_retrieve v;
  retrieve_for_injection := fv_retrieve_for_injection v;
  delete_secret := fv_delete v;
  compare_and_swap := fv_compare_and_swap v;
  list_names := fv_list v;
  exists_name := fv_exists v;
  get_metadata := fv_get_metadata v;
  set_metadata := fv_set_metadata v;
  compare_and_swap_metadata_batch := fv_metadata_batch v;
  list_with_metadata := fv_list_with_metadata v;
  store_with_expiry := fv_store_with_expiry v;
  get_validation_metadata := fv_get_validation v;
  set_validation_metadata := fv_set_validation v;
  get_validation_metadata_exact := fv_get_validation_exact v;
  compare_and_swap_validation_metadata_batch := fv_validation_batch v;
|}.

(** ** Opening a vault *)

Definition coexists (what e : string) : PhantomError :=
  VaultError ("Encrypted vault coexists with a legacy plaintext vault but " +:+ what
    +:+ "; refusing to remove or replace either file: " +:+ e).

(** [migrate_from_json] *)
Definition migrate_from_json (v : FileVault) (locked : LockedVault) : vault_io W unit :=
  do? encrypted_before := io_try (read_target (lv_encrypted locked)) in
  do? legacy_before := io_try (read_target (lv_legacy_json locked)) in
  match legacy_before with
  | None => io_ret tt
  | Some legacy =>
      do? legacy_data := io_lift (map_err (fun e => VaultError
        ("Legacy plaintext vault coexists with migration state but is corrupt; refusing to remove or replace either file: " +:+ e))
        (vault_from_json (ar_bytes legacy))) in
      match encrypted_before with
      | Some encrypted =>
          do? plaintext := (fun w =>
            let '(w1, r) := fv_decrypt v (ar_bytes encrypted) w in
            (w1, map_err (fun e => coexists "cannot be verified" (phantom_error_text io_error_text e)) r)) in
          do? encrypted_data := io_lift (map_err (coexists "is corrupt") (vault_from_json plaintext)) in
          io_fail_if (negb (bool_decide (encrypted_data = legacy_data)))
            (VaultError "Encrypted and legacy plaintext vaults contain divergent state; refusing to remove or replace either file. Reconcile them manually before retrying")
          (do? removal := io_try (unlink_if_exact (lv_legacy_json locked) legacy) in
           io_lift (require_durable_effect removal "verified duplicate legacy plaintext vault removal"))
      | None =>
          do? encrypted := fv_encrypt v legacy_data in
          do? outcome := io_try (replace_if_exact (lv_encrypted locked) None encrypted) in
          do? published := io_lift (require_durable_effect outcome
            "encrypted legacy-vault replacement publication; the legacy plaintext copy was preserved") in
          fun w =>
            match unlink_if_exact (lv_legacy_json locked) legacy w with
            | (w1, Err unlink_error) =>
                let '(w2, rollback) :=
                  (do? outcome := io_try (unlink_if_exact (lv_encrypted locked) published) in
                   io_lift (require_durable_effect outcome
                     "encrypted legacy-vault migration rollback; the legacy plaintext copy remains authoritative")) w1 in
                (w2, Err (VaultError
                   (match rollback with
                    | Ok _ => "Legacy vault changed before exact removal; encrypted migration was rolled back: "
                                +:+ io_error_text unlink_error
                    | Err rollback_error =>
                        "Legacy vault changed before exact removal and encrypted migration rollback failed: "
                          +:+ io_error_text unlink_error +:+ "; rollback: " +:+ phantom_error_text io_error_text rollback_error
                    end)))
            | (w1, Ok outcome) => (w1, require_durable_effect outcome "legacy plaintext vault removal")
            end
      end
  end.

(** [FileVault::new] *)
Definition new_file_vault (open_trusted_base : io W PhantomError trusted_anchor) (project_id passphrase : string)
    : vault_io W FileVault :=
  do? _ := io_lift (validate_project_id project_id) in
  do? base_anchor := open_trusted_base in
  let v := mk_file_vault base_anchor (vault_names project_id) passphrase in
  do? locked := (fun w => lock_view v (cell_set None w)) in
  do? _ := migrate_from_json v locked in
  io_ret v.

(** [encrypted_vault_exists] *)
Definition encrypted_vault_exists (open_trusted_base : io W PhantomError trusted_anchor) (project_id : string)
    : vault_io W bool :=
  do? _ := io_lift (validate_project_id project_id) in
  do? base_anchor := open_trusted_base in
  let names := vault_names project_id in
  do? _ := io_try (acquire_lock base_anchor (vn_stable_lock names)) in
  do? vaults := io_try (private_subdirectory base_anchor "vaults") in
  do? _ := io_try (acquire_lock vaults (vn_legacy_lock names)) in
  do? target := io_try (target_of vaults (vn_encrypted names)) in
  do? read := io_try (read_target target) in
  io_ret (bool_decide (is_Some read)).
End file_vault.
