(* ===== verification/FileVaultSpec.v ===== *)
(** * The file vault refines its contents

    [vault_view] shows the decrypted contents of the vault file.  Every
    method of the file vault answers from it and does to it what [VaultData]
    says, one that fails did that or nothing, and no other file changes but the
    two lock files: the backend keeps [VaultContract] ([file_vault_refines]), and
    so obeys the laws that transactions are proved against.
    Migration from the plaintext vault loses nothing ([migration_lossless]). *)

From S2P Require Import Prelude Text Ids External StateDir Rotation VaultMeta VaultData VaultCrypto VaultCryptoSpec AnchoredFs FileVault.

(** ** What is relied on *)

(** A lock is a file of its own; a subdirectory may be created; a repair
    changes only the permissions of the file. *)
Class VaultFsLaws {W} {F : AnchoredFs W} (VF : VaultFs F) (tview : W → tree) {V} (others : W → V)
    (FL : AnchoredFsLaws F tview others) : Prop := {
  acquire_lock_law : ∀ a n w w' r, acquire_lock a n w = (w', r) →
    others w' = others w ∧ ∃ x, but_file (anchor_path a ++ [n]) x (tview w) (tview w');
  private_subdirectory_law : ∀ a c w w' r, private_subdirectory a c w = (w', r) →
    others w' = others w ∧ (∀ q, file_at (tview w') q = file_at (tview w) q) ∧
    (∀ a', r = Ok a' → anchor_path a' = anchor_path a ++ [c]);
  repair_law : ∀ t w w' r, repair_private_regular t w = (w', r) →
    others w' = others w ∧
    (∀ q, q ≠ target_path t → file_at (tview w') q = file_at (tview w) q) ∧
    option_map ar_bytes (file_at (tview w') (target_path t)) =
      option_map ar_bytes (file_at (tview w) (target_path t));
}.

(** The clock, randomness, the audit log and the unlock cache are no files. *)
Class VaultEnvLaws {W} `{AS : AuditSink W} `{R : Rng W} `{C : Clock W} `{U : UnlockCell W}
    (tview : W → tree) {V} (others : W → V) : Prop := {
  audit_law : ∀ e n w, tview (audit_log e n w) = tview w ∧ others (audit_log e n w) = others w;
  rng_law : ∀ n w w' s, random_bytes n w = (w', s) →
    tview w' = tview w ∧ others w' = others w ∧ String.length s = n;
  clock_law : ∀ w w' n, now_secs w = (w', n) → tview w' = tview w ∧ others w' = others w;
  cell_law : ∀ c w, tview (cell_set c w) = tview w ∧ others (cell_set c w) = others w;
}.

Section laws.
Context {W : Type} `{F : !AnchoredFs W} `{VF : !VaultFs F} `{K : !Crypto} `{J : !VaultJson}.
Context `{AS : !AuditSink W} `{R : !Rng W} `{C : !Clock W} `{U : !UnlockCell W}.
Context (tview : W → tree) {V : Type} (others : W → V).
Context `{FL : !AnchoredFsLaws F tview others} `{VFL : !VaultFsLaws VF tview others FL} `{EL : !VaultEnvLaws tview others}.
Context (env : option string) (v : FileVault).
Context (Hseal : seals_open) (Hderive : keys_derive).
Context (Hplain : ∀ blob, unambiguous blob (fv_passphrase v)).
Context (Hcell : ∀ w, cache_ok (fv_passphrase v) (cell_get w)).
Context (Hjson : ∀ d s, vault_to_json d = Ok s → vault_from_json s = Ok d).
Context (Hnames : vn_legacy_lock (fv_names v) ≠ vn_encrypted (fv_names v)).

(** Where the vault file is *)
Definition vaults_path : list string := anchor_path (fv_base_anchor v) ++ ["vaults"%string].
Definition vault_path : list string := vaults_path ++ [vn_encrypted (fv_names v)].

(** The contents of a vault file; an unreadable one has none. *)
Definition contents_of (bytes : option string) : VaultData :=
  match bytes with
  | None => empty_vault
  | Some b =>
      match decrypt b (fv_passphrase v) with
      | Ok plaintext => match vault_from_json plaintext with Ok d => d | Err _ => empty_vault end
      | Err _ => empty_vault
      end
  end.

Definition vault_bytes (w : W) : option string := option_map ar_bytes (file_at (tview w) vault_path).
Definition vault_view (w : W) : VaultData := contents_of (vault_bytes w).

(** The files a method may touch: the vault file and the two locks *)
Definition own_files : list (list string) :=
  [vault_path; anchor_path (fv_base_anchor v) ++ [vn_stable_lock (fv_names v)];
   vaults_path ++ [vn_legacy_lock (fv_names v)]].

(** What is seen of the rest: another file, and all that is no file *)
Definition untouched (q : list string) (w : W) : V * option AnchoredRead := (others w, file_at (tview w) q).

Context (elsewhere : list string) (Helse : elsewhere ∉ own_files).

Lemma else_ne p : p ∈ own_files → elsewhere ≠ p.
Proof. by intros Hp ->. Qed.

(** Nothing but the vault's own files can differ, and not the bytes of the vault. *)
Definition kept_vault (w w' : W) : Prop := untouched elsewhere w' = untouched elsewhere w ∧ vault_bytes w' = vault_bytes w.

Lemma kept_vault_refl w : kept_vault w w.
Proof. done. Qed.

Lemma kept_vault_trans w1 w2 w3 : kept_vault w1 w2 → kept_vault w2 w3 → kept_vault w1 w3.
Proof. intros [] []. split; congruence. Qed.

Lemma kept_vault_tree w w' : tview w' = tview w → others w' = others w → kept_vault w w'.
Proof. intros Ht Ho. unfold kept_vault, untouched, vault_bytes. by rewrite Ht, Ho. Qed.

Lemma kept_vault_file w w' :
  others w' = others w → (∀ p, file_at (tview w') p = file_at (tview w) p) → kept_vault w w'.
Proof. intros Ho Hf. unfold kept_vault, untouched, vault_bytes. by rewrite Ho, !Hf. Qed.

(** One of the own files may differ but for the bytes of the vault. *)
Lemma kept_vault_own w w' p :
  others w' = others w → p ∈ own_files → (∀ p', p' ≠ p → file_at (tview w') p' = file_at (tview w) p') →
  option_map ar_bytes (file_at (tview w') vault_path) = option_map ar_bytes (file_at (tview w) vault_path) →
  kept_vault w w'.
Proof.
  intros Ho Hp Hf Hb. unfold kept_vault, untouched, vault_bytes. rewrite Ho, Hf by by apply else_ne. done.
Qed.

Lemma kept_view w w' : kept_vault w w' → vault_view w' = vault_view w.
Proof. intros [_ H]. unfold vault_view. by rewrite H. Qed.

(** An error that does not say an entry is missing *)
Definition other_error (e : PhantomError) : Prop := ∀ n, e ≠ SecretNotFound n.

(** A computation that keeps the vault: what its value says, and that its
    error is of another kind *)
Definition keeps {T} (w : W) (m : vault_io W T) (Q : T → Prop) : Prop :=
  ∀ w0 w' r, kept_vault w w0 → m w0 = (w', r) →
    kept_vault w w' ∧ (∀ x, r = Ok x → Q x) ∧ (∀ e, r = Err e → other_error e).

Lemma keeps_bind {T U'} w (m : vault_io W T) (k : T → vault_io W U') P Q :
  keeps w m P → (∀ x, P x → keeps w (k x) Q) → keeps w (io_bind m k) Q.
Proof.
  intros Hm Hk w0 w' r Hs [(w1 & x & H1 & H2)|(e & H1 & ->)]%io_bind_inv.
  - apply Hm in H1 as (Hs1 & HP & _); [|done]. eapply Hk; [by apply HP|exact Hs1|done].
  - apply Hm in H1 as (Hs1 & _ & He); [|done]. split_and!; [done..|]. intros e' [= <-]. by apply He.
Qed.

Lemma keeps_ret {T} w (x : T) (Q : T → Prop) : Q x → keeps w (io_ret x) Q.
Proof. intros HQ w0 w' r Hs [= <- <-]. split_and!; [done|by intros ? [= <-]|done]. Qed.

Lemma keeps_lift {T} w (x : result T PhantomError) (Q : T → Prop) :
  (∀ y, x = Ok y → Q y) → (∀ e, x = Err e → other_error e) → keeps w (io_lift x) Q.
Proof. intros HQ HX w0 w' r Hs [= <- <-]. by split_and!. Qed.

Lemma keeps_try {T} w (m : io W ErrorKind T) Q :
  (∀ w0 w' r, m w0 = (w', r) → kept_vault w0 w' ∧ ∀ x, r = Ok x → Q x) → keeps w (io_try m) Q.
Proof.
  intros Hm w0 w' r Hs H. unfold io_try in H. destruct (m w0) as [w1 r1] eqn:E. injection H as <- <-.
  apply Hm in E as [Hk HQ]. split_and!; [by eapply kept_vault_trans| |].
  - intros x Hx. apply HQ. by destruct r1; [injection Hx as <-|].
  - intros e He n. destruct r1; [done|]. by injection He as <-.
Qed.

Lemma keeps_try_as {T} w text (m : io W ErrorKind T) Q :
  (∀ w0 w' r, m w0 = (w', r) → kept_vault w0 w' ∧ ∀ x, r = Ok x → Q x) → keeps w (io_try_as text m) Q.
Proof.
  intros Hm w0 w' r Hs H. unfold io_try_as in H. destruct (m w0) as [w1 r1] eqn:E. injection H as <- <-.
  apply Hm in E as [Hk HQ]. split_and!; [by eapply kept_vault_trans| |].
  - intros x Hx. apply HQ. by destruct r1; [injection Hx as <-|].
  - intros e He n. destruct r1; [done|]. by injection He as <-.
Qed.

(** ** Taking the locks and loading *)

Lemma lock_elsewhere a n : anchor_path a ++ [n] ∈ own_files → anchor_path a ++ [n] ≠ vault_path →
  ∀ w0 w' r, acquire_lock a n w0 = (w', r) → kept_vault w0 w' ∧ ∀ x, r = Ok x → True.
Proof.
  intros Hin Hne w0 w' r (Ho & x & Hf & Hother & _)%acquire_lock_law. split; [|done].
  eapply kept_vault_own; [done|exact Hin|done|]. by rewrite Hother.
Qed.

Lemma keeps_lock_view w :
  keeps w (lock_view v) (fun l => target_path (lv_encrypted l) = vault_path).
Proof.
  unfold lock_view. eapply keeps_bind; [apply keeps_try_as, lock_elsewhere|].
  { right. by left. }
  { intros E. apply (f_equal length) in E. unfold vault_path, vaults_path in E. rewrite !length_app in E. cbn in E. lia. }
  intros _ _. eapply keeps_bind; [apply (keeps_try _ _ (fun a => anchor_path a = vaults_path))|].
  { intros w0 w' r (Ho & Hf & Hr)%private_subdirectory_law. split; [by apply kept_vault_file|done]. }
  intros vaults Hv. eapply keeps_bind; [apply keeps_try_as, lock_elsewhere|].
  { rewrite Hv. right. right. by left. }
  { rewrite Hv. intros E. apply app_inj_2 in E as [_ E]; [|done]. by injection E. }
  intros _ _. eapply keeps_bind; [apply (keeps_try _ _ (fun t => target_path t = vault_path))|].
  { intros w0 w' r ([Hf _] & Ho & Hr)%target_of_law. split; [by apply kept_vault_file|]. intros t Ht.
    by rewrite (Hr t Ht), Hv. }
  intros t Ht. eapply keeps_bind; [apply (keeps_try _ _ (fun _ => True))|].
  { intros w0 w' r ([Hf _] & Ho & Hr)%target_of_law. split; [by apply kept_vault_file|done]. }
  intros t' _. by apply keeps_ret.
Qed.

Lemma keeps_decrypt w b : keeps w (fv_decrypt v b) (fun p => decrypt b (fv_passphrase v) = Ok p).
Proof.
  intros w0 w' r Hs H. unfold fv_decrypt in H.
  destruct (cache_decrypt (cell_get w0) b (fv_passphrase v)) as [c r1] eqn:E. injection H as <- <-.
  destruct (cell_law (tview := tview) (others := others) c w0) as [Ht Ho].
  pose proof (cached_result _ _ _ _ _ Hderive (Hcell w0) E) as (_ & _ & Heq). specialize (Heq (Hplain b)).
  split_and!; [by eapply kept_vault_trans, kept_vault_tree|by intros x ->|]. intros e ->.
  symmetry in Heq. apply decrypt_errors in Heq as [m ->]. by intros n.
Qed.

Lemma keeps_read w t :
  target_path t = vault_path →
  keeps w (io_try (read_target t)) (fun x => option_map ar_bytes x = vault_bytes w).
Proof.
  intros Hl w0 w' r Hs H. unfold io_try in H. destruct (read_target t w0) as [w1 r1] eqn:E.
  injection H as <- <-. apply read_target_law in E as ([Hf _] & Ho & Hr).
  split_and!; [by eapply kept_vault_trans, kept_vault_file| |].
  - intros x Hx. destruct r1 as [o|]; [|done]. injection Hx as ->. rewrite (Hr x eq_refl), Hl. apply Hs.
  - intros e He n. destruct r1; [done|]. by injection He as <-.
Qed.

Lemma keeps_load w l :
  target_path (lv_encrypted l) = vault_path →
  keeps w (load_vault v l) (fun ld => ld_data ld = vault_view w).
Proof.
  intros Hl. unfold load_vault. eapply keeps_bind; [by apply keeps_read|].
  intros [before|] Hb; [|apply keeps_ret; unfold vault_view; by rewrite <- Hb].
  eapply keeps_bind; [apply (keeps_try _ _ (fun _ => True))|].
  { intros w0 w' r (Ho & Hf & Hat)%repair_law. rewrite Hl in Hf, Hat. split; [|done].
    eapply kept_vault_own; [done|by left|done|done]. }
  intros _ _. eapply keeps_bind; [apply keeps_decrypt|]. intros plaintext Hp.
  eapply keeps_bind; [apply (keeps_lift _ _ (fun d => vault_from_json plaintext = Ok d))|].
  { intros y. destruct (vault_from_json plaintext); [by intros [= <-]|done]. }
  { intros e. destruct (vault_from_json plaintext); [done|]. intros [= <-]. by intros n. }
  intros d Hd. apply keeps_ret. cbn. unfold vault_view. rewrite <- Hb. cbn in Hp |- *. by rewrite Hp, Hd.
Qed.

(** ** Saving *)

Lemma encrypt_spec data w w' r :
  fv_encrypt env v data w = (w', r) →
  tview w' = tview w ∧ others w' = others w ∧
  (∀ b, r = Ok b → contents_of (Some b) = data) ∧ (∀ e, r = Err e → other_error e).
Proof.
  unfold fv_encrypt. destruct (vault_to_json data) as [plaintext|e] eqn:Ej.
  2:{ intros [= <- <-]. split_and!; [done..|]. by intros e' [= <-] n. }
  destruct (random_bytes SALT_LEN w) as [w1 salt] eqn:E1. destruct (random_bytes NONCE_LEN w1) as [w2 nonce] eqn:E2.
  apply (rng_law (tview := tview) (others := others)) in E1 as (Ht1 & Ho1 & Hs).
  apply (rng_law (tview := tview) (others := others)) in E2 as (Ht2 & Ho2 & Hn).
  intros [= <- <-]. split_and!; [congruence..| |].
  - intros b Hb. cbn. rewrite (encrypted_opens salt nonce plaintext (fv_passphrase v) (format_from_env env) b); [|done..|by right; right; apply Hplain].
    by rewrite (Hjson _ _ Ej).
  - intros e He n ->. unfold encrypt_with_format in He. destruct (derive_key (fv_passphrase v) salt) as [key|e] eqn:Ed.
    + cbn [rbind] in He. by destruct (match format_from_env env with FormatLegacy => _ | FormatTagged => _ end).
    + cbn [rbind] in He. injection He as ->. apply derive_errors in Ed as [? ?]. done.
Qed.

(** What an attempt to save leaves *)
Lemma save_spec l data before w w' r :
  target_path (lv_encrypted l) = vault_path → save_vault env v l data before w = (w', r) →
  untouched elsewhere w' = untouched elsewhere w ∧
  match r with
  | Ok _ => vault_view w' = data
  | Err e => (vault_view w' = vault_view w ∨ vault_view w' = data) ∧ other_error e
  end.
Proof.
  intros Hl H. unfold save_vault in H.
  apply io_bind_inv in H as [(w1 & b & H1 & H)|(e & H1 & ->)]; apply encrypt_spec in H1 as (Ht1 & Ho1 & Hb & He1).
  2:{ pose proof (kept_vault_tree _ _ Ht1 Ho1) as Hk1. split; [apply Hk1|]. split; [|by apply He1].
      left. by apply kept_view. }
  pose proof (kept_vault_tree _ _ Ht1 Ho1) as Hk1. specialize (Hb b eq_refl). pose proof (kept_view _ _ Hk1) as Hv1. destruct Hk1 as [Ho1' _].
  apply io_bind_inv in H as [(w2 & outcome & H2 & H)|(e & H2 & ->)]; unfold io_try, replace_if_exact in H2;
    match type of H2 with (let '(_, _) := ?m in _) = _ => destruct m as [w3 r3] eqn:E3 end;
    apply replace_law in E3 as [Ho3 H3].
  2:{ destruct r3 as [|k]; [done|]. injection H2 as <- <-.
      assert (kept_vault w1 w3) as Hk3 by (apply kept_vault_file; [done|apply H3]).
      split; [rewrite <- Ho1'; apply Hk3|]. split; [|by intros n]. left. rewrite <- Hv1. by apply kept_view. }
  destruct r3 as [eff|]; [|done]. injection H2 as <- ->. destruct H3 as (_ & Hbytes & _ & Hat & Hother & _).
  rewrite Hl in Hat, Hother.
  assert (untouched elsewhere w3 = untouched elsewhere w) as Ho3'.
  { rewrite <- Ho1'. unfold untouched. rewrite Ho3, Hother; [done|]. apply else_ne. by left. }
  assert (vault_view w3 = data) as Hv3.
  { unfold vault_view, vault_bytes. rewrite Hat. cbn [option_map]. by rewrite Hbytes. }
  destruct outcome as [x|x|x k]; cbn in H; injection H as <- <-; (split; [done|]); [done..|].
  split; [by right|]. by intros n.
Qed.

(** ** The methods *)

(** A method takes the locks and loads; what follows runs on the contents. *)
Lemma with_vault {T} (P : W → result T PhantomError → Prop) w
    (k : LockedVault → LoadedVault → vault_io W T) w' r :
  (do? locked := lock_view v in do? l := load_vault v locked in k locked l) w = (w', r) →
  (∀ w1 e, kept_vault w w1 → other_error e → P w1 (Err e)) →
  (∀ l ld w1 w' r, kept_vault w w1 → target_path (lv_encrypted l) = vault_path → ld_data ld = vault_view w →
     k l ld w1 = (w', r) → P w' r) →
  P w' r.
Proof.
  intros H He Hk. apply io_bind_inv in H as [(w1 & l & H1 & H)|(e & H1 & ->)];
    apply (keeps_lock_view w) in H1 as (Hs1 & Hl & Hx); try apply kept_vault_refl; [|by apply He; [|apply Hx]].
  apply io_bind_inv in H as [(w2 & ld & H2 & H)|(e & H2 & ->)];
    apply (keeps_load w) in H2 as (Hs2 & Hd & Hx2); try done; try (by apply Hl); [|by apply He; [|apply Hx2]].
  eapply Hk; [exact Hs2|by apply Hl|by apply Hd|exact H].
Qed.

(** Steps that keep all that is looked at *)
Definition idle {T} (k : vault_io W T) (x : T → Prop) : Prop :=
  ∀ w0 w1 r, k w0 = (w1, r) → (∃ y, r = Ok y ∧ x y) ∧ kept_vault w0 w1.

Lemma idle_ret {T} (x : T) : idle (io_ret x) (eq x).
Proof. intros w0 w1 r [= <- <-]. split; [by exists x|done]. Qed.

Lemma idle_audit e n : idle (audit e n) (fun _ => True).
Proof.
  intros w0 w1 r [= <- <-]. split; [by exists tt|].
  destruct (audit_law (tview := tview) (others := others) e n w0) as [Ht Ho]. by apply kept_vault_tree.
Qed.

Lemma idle_clock : idle read_clock (fun _ => True).
Proof.
  intros w0 w1 r. unfold read_clock. destruct (now_secs w0) as [w2 now] eqn:E. intros [= <- <-].
  apply (clock_law (tview := tview) (others := others)) in E as [Ht Ho].
  split; [by exists now|]. by apply kept_vault_tree.
Qed.

Lemma idle_bind {T T'} (m : vault_io W T) (k : T → vault_io W T') P Q :
  idle m P → (∀ x, P x → idle (k x) Q) → idle (io_bind m k) Q.
Proof.
  intros Hm Hk w0 w2 r [(w1 & x & H1 & H2)|(e & H1 & ->)]%io_bind_inv; apply Hm in H1 as [(y & E & Hy) Hk1]; [|done].
  injection E as <-. apply (Hk x Hy) in H2 as [Hr Hk2]. split; [done|]. by eapply kept_vault_trans.
Qed.

(** [or_insert_with(SecretMetadata::new_now)] of an absent entry *)
Lemma idle_stamp name value (d : VaultData) :
  idle (if bool_decide (is_Some (vd_secrets d !! name)) then io_ret d
        else do? now := read_clock in io_ret (stamp_new now name d))
    (fun d' => ∃ now, replace_value name value d' = data_store now name value d).
Proof.
  unfold data_store. case_bool_decide.
  - intros w0 w1 r [= <- <-]. split; [|done]. exists d. split; [done|]. by exists 0%N.
  - eapply idle_bind; [apply idle_clock|]. intros now _ w0 w1 r [= <- <-]. split; [|done].
    eexists. split; [done|]. by exists now.
Qed.

Abbreviation looks := (vault_looks vault_view (untouched elsewhere)).
Abbreviation changes := (vault_changes vault_view (untouched elsewhere)).

(** A method that looks: what follows the load answers for the contents, and
    an error of its own is the answer. *)
Lemma looks_intro {T} (answer : VaultData → result T PhantomError) (k : VaultData → vault_io W T) w w' r :
  (do? locked := lock_view v in do? l := load_vault v locked in k (ld_data l)) w = (w', r) →
  (∀ w1 w2 r2, k (vault_view w) w1 = (w2, r2) → kept_vault w1 w2 ∧ r2 = answer (vault_view w)) →
  looks answer w w' r.
Proof.
  intros H Hk. pattern w', r. eapply with_vault; [exact H| |]; cbn beta.
  - intros w1 e Hk1 He. split_and!; [by apply kept_view|apply Hk1|]. intros n ->. by destruct (He n).
  - intros l ld w1 w2 r2 Hk1 _ Hd H2. rewrite Hd in H2. apply Hk in H2 as [Hk2 ->].
    pose proof (kept_vault_trans _ _ _ Hk1 Hk2) as Hk3. split_and!; [by apply kept_view|apply Hk3|].
    by destruct (answer (vault_view w)).
Qed.

(** A method that changes: what follows the load does. *)
Lemma changes_intro {T} (answer : VaultData → result T PhantomError) (new : T → VaultData → VaultData → Prop)
    (k : LockedVault → LoadedVault → vault_io W T) w w' r :
  (do? locked := lock_view v in do? l := load_vault v locked in k locked l) w = (w', r) →
  (∀ l ld w1 w2 r2, kept_vault w w1 → target_path (lv_encrypted l) = vault_path → ld_data ld = vault_view w →
     k l ld w1 = (w2, r2) → changes answer new w w2 r2) →
  changes answer new w w' r.
Proof.
  intros H Hk. pattern w', r. eapply with_vault; [exact H| |exact Hk]. cbn beta.
  intros w1 e Hk1 He. split; [apply Hk1|]. split; [left; by apply kept_view|]. intros n ->. by destruct (He n).
Qed.

(** Returning what the contents answer, when nothing is to be saved *)
Lemma changes_none {T} answer (new : T → VaultData → VaultData → Prop) w w1 r :
  kept_vault w w1 → answer (vault_view w) = r → (∀ x, r = Ok x → new x (vault_view w) (vault_view w)) →
  changes answer new w w1 r.
Proof.
  intros Hk <- Hnew. pose proof (kept_view _ _ Hk) as Hv. split; [apply Hk|]. rewrite Hv.
  destruct (answer (vault_view w)); auto.
Qed.

(** Saving new contents and what follows it *)
Lemma changes_save {T} answer (new : T → VaultData → VaultData → Prop) (x : T) w w1 l before data
    (k : vault_io W T) w' r :
  kept_vault w w1 → target_path (lv_encrypted l) = vault_path → answer (vault_view w) = Ok x →
  new x (vault_view w) data → idle k (eq x) →
  (do? _ := save_vault env v l data before in k) w1 = (w', r) → changes answer new w w' r.
Proof.
  intros Hw Hl Ha Hnew Hk H. pose proof (kept_view _ _ Hw) as Hv. destruct Hw as [Ho _].
  apply io_bind_inv in H as [(w2 & [] & H2 & H)|(e & H2 & ->)]; apply save_spec in H2 as [Ho2 H2]; try done.
  - apply Hk in H as [(? & -> & <-) Hk3]. pose proof (kept_view _ _ Hk3) as Hv3. destruct Hk3 as [Ho3 _].
    split; [congruence|]. split; [done|]. by rewrite Hv3, H2.
  - split; [congruence|]. destruct H2 as [H2 He]. split; [|intros n ->; by destruct (He n)].
    destruct H2 as [-> | ->]; [left; congruence|right; by exists x].
Qed.

Lemma idle_audit_unit e n : idle (audit e n) (eq tt).
Proof. intros w0 w1 r [([] & -> & _) Hk]%idle_audit. split; [by exists tt|done]. Qed.

Lemma idle_audit_then {T} e n (x : T) : idle (do? _ := audit e n in io_ret x) (eq x).
Proof. eapply idle_bind; [apply idle_audit|]. intros _ _. apply idle_ret. Qed.

(** A change of an entry that must be there *)
Lemma changes_existing name (f : VaultData → VaultData) (k : vault_io W unit) w w' r :
  (do? locked := lock_view v in do? l := load_vault v locked in
   io_fail_if (negb (bool_decide (is_Some (vd_secrets (ld_data l) !! name)))) (SecretNotFound name)
     (do? _ := save_vault env v locked (f (ld_data l)) (ld_before l) in k)) w = (w', r) →
  idle k (eq tt) → changes (entry_there name tt) (fun _ d d' => d' = f d) w w' r.
Proof.
  intros H Hk. eapply changes_intro; [exact H|]. intros l ld w1 w2 r2 Hk1 Hl Hd H2. cbn beta in H2. rewrite Hd in H2.
  unfold io_fail_if in H2. unfold entry_there. case_bool_decide as E; cbn [negb] in H2.
  - eapply changes_save; [exact Hk1|exact Hl|..|exact H2]; [by rewrite bool_decide_true|done|done].
  - injection H2 as <- <-. apply changes_none; [done|by rewrite bool_decide_false|done].
Qed.

(** A method that ends with its save *)
Lemma changes_existing_last name (f : VaultData → VaultData) w w' r :
  (do? locked := lock_view v in do? l := load_vault v locked in
   io_fail_if (negb (bool_decide (is_Some (vd_secrets (ld_data l) !! name)))) (SecretNotFound name)
     (save_vault env v locked (f (ld_data l)) (ld_before l))) w = (w', r) →
  changes (entry_there name tt) (fun _ d d' => d' = f d) w w' r.
Proof.
  intros H. eapply (changes_existing name f (io_ret tt)); [|apply idle_ret].
  rewrite <- H. unfold io_bind, io_fail_if. destruct (lock_view v w) as [w1 [l|]]; [|done].
  destruct (load_vault v l w1) as [w2 [ld|]]; [|done]. destruct (negb _); [done|].
  by destruct (save_vault env v l _ (ld_before ld) w2) as [w3 [[]|]].
Qed.

Lemma store_keeps name value w w' r : fv_store env v name value w = (w', r) →
  changes (fun _ => Ok tt) (fun _ d d' => ∃ now, d' = data_store now name value d) w w' r.
Proof.
  intros H. eapply changes_intro; [exact H|]. intros l ld w1 w2 r2 Hk1 Hl Hd H2. cbn beta in H2. rewrite Hd in H2.
  apply io_bind_inv in H2 as [(w3 & data & H2 & H3)|(e & H2 & ->)];
    apply (idle_stamp name value) in H2 as [(d' & E & Hnow) Hk3]; [|done]. injection E as <-.
  eapply changes_save; [by eapply kept_vault_trans|exact Hl|done|done|apply idle_audit_unit|exact H3].
Qed.

Lemma store_with_expiry_keeps name value days w w' r : fv_store_with_expiry env v name value days w = (w', r) →
  changes (fun _ => Ok tt) (fun _ d d' => ∃ now, d' = data_store_with_expiry now name value days d) w w' r.
Proof.
  intros H. eapply changes_intro; [exact H|]. intros l ld w1 w2 r2 Hk1 Hl Hd H2. cbn beta in H2. rewrite Hd in H2.
  apply io_bind_inv in H2 as [(w3 & now & H2 & H3)|(e & H2 & ->)]; apply idle_clock in H2 as [(now' & E & _) Hk3]; [|done].
  eapply changes_save; [by eapply kept_vault_trans|exact Hl|done|by exists now|apply idle_audit_unit|exact H3].
Qed.

Lemma swap_keeps n expected replacement w w' r :
  fv_compare_and_swap env v n expected replacement w = (w', r) →
  changes (fun d => Ok (bool_decide (vd_secrets d !! n = expected)))
    (fun b d d' => if b : bool then ∃ now, d' = data_swap now n replacement d else d' = d) w w' r.
Proof.
  intros H. eapply changes_intro; [exact H|]. intros l ld w1 w2 r2 Hk1 Hl Hd H2. cbn beta in H2. rewrite Hd in H2. cbv zeta in H2.
  case_bool_decide as E; cbn [negb] in H2.
  2:{ injection H2 as <- <-. apply changes_none; [done|by rewrite bool_decide_false|]. by intros [] [=]. }
  assert (idle (match replacement with
      | Some value =>
          do? data := (if bool_decide (is_Some (vd_secrets (vault_view w) !! n)) then io_ret (vault_view w)
                       else do? now := read_clock in io_ret (stamp_new now n (vault_view w))) in
          io_ret (replace_value n value data)
      | None => io_ret (data_delete n (vault_view w))
      end) (fun d' => ∃ now, d' = data_swap now n replacement (vault_view w))) as Hidle.
  { destruct replacement as [value|].
    - eapply idle_bind; [apply (idle_stamp n value)|]. intros d' [now Hnow] w3 w4 r4 [= <- <-]. split; [|done].
      eexists. split; [done|]. by exists now.
    - intros w3 w4 r4 [= <- <-]. split; [|done]. eexists. split; [done|]. by exists 0%N. }
  apply io_bind_inv in H2 as [(w3 & data & H2 & H3)|(e & H2 & ->)]; apply Hidle in H2 as [(d' & Ed & Hnow) Hk3]; [|done].
  injection Ed as <-.
  eapply (changes_save _ _ true); [by eapply kept_vault_trans|exact Hl|by rewrite bool_decide_true|exact Hnow|
    apply idle_audit_then|exact H3].
Qed.

Lemma batch_keeps (check : VaultData → result bool PhantomError) is_empty (apply_it : VaultData → VaultData) w w' r :
  (is_empty = true → ∀ d, apply_it d = d) →
  (do? locked := lock_view v in do? l := load_vault v locked in
   save_batch env v locked l (check (ld_data l)) is_empty (apply_it (ld_data l))) w = (w', r) →
  changes check (fun b d d' => d' = if b : bool then apply_it d else d) w w' r.
Proof.
  intros Hempty H. eapply changes_intro; [exact H|]. intros l ld w1 w2 r2 Hk1 Hl Hd H2. cbn beta in H2. rewrite Hd in H2.
  unfold save_batch in H2. apply io_bind_inv in H2 as [(w3 & b & [-> Hc]%io_lift_inv & H2)|(e & [-> Hc]%io_lift_inv & ->)].
  2:{ by apply changes_none. }
  destruct b; cbn [negb] in H2.
  2:{ injection H2 as <- <-. apply changes_none; [done..|]. by intros x [= <-]. }
  destruct is_empty.
  - injection H2 as <- <-. apply changes_none; [done..|]. intros x [= <-]. symmetry. by apply Hempty.
  - eapply (changes_save _ _ true); [done|exact Hl|done|done|apply idle_ret|exact H2].
Qed.

Lemma list_keeps w w' r : fv_list v w = (w', r) → looks (fun d => Ok (names_of d)) w w' r.
Proof.
  intros H. apply (looks_intro _ (fun d => io_ret (btree_collect (map fst (map_to_list (vd_secrets d))))) _ _ _ H). intros w1 w2 r2 [= <- <-]. split; [done|]. f_equal. unfold names_of.
  apply ord_sorted_ext; [apply btree_collect_sorted..|]. intros n. rewrite !btree_collect_elem, elem_of_elements, elem_of_dom.
  change (map fst ?l) with (fst <$> l). rewrite list_elem_of_fmap. split.
  - intros ([m x] & -> & Hin%elem_of_map_to_list). by exists x.
  - intros [x Hx]. exists (n, x). split; [done|]. by apply elem_of_map_to_list.
Qed.

Lemma get_metadata_keeps n w w' r : fv_get_metadata v n w = (w', r) → looks (fun d => Ok (vd_metadata d !! n)) w w' r.
Proof. intros H. apply (looks_intro _ (fun d => io_ret (vd_metadata d !! n)) _ _ _ H). by intros w1 w2 r2 [= <- <-]. Qed.

(** The metadata of the listed entries, one after the other *)
Lemma metadata_of_keeps names w w' r : fv_metadata_of v names w = (w', r) →
  looks (fun d => Ok (map (fun n => (n, vd_metadata d !! n)) names)) w w' r.
Proof.
  revert w w' r. induction names as [|n names IH]; intros w w' r; cbn [fv_metadata_of map].
  { by intros [= <- <-]. }
  intros [(w1 & m & H1 & H)|(e & H1 & ->)]%io_bind_inv; apply get_metadata_keeps in H1 as (Hv1 & Ho1 & Hr1).
  2:{ split_and!; [done..|]. intros n' ->. by specialize (Hr1 n' eq_refl). }
  apply io_bind_inv in H as [(w2 & out & H2 & [= <- <-])|(e & H2 & ->)]; apply IH in H2 as (Hv2 & Ho2 & Hr2).
  - split_and!; [congruence..|]. injection Hr1 as <-. injection Hr2 as <-. by rewrite Hv1.
  - split_and!; [congruence..|]. intros n' ->. by specialize (Hr2 n' eq_refl).
Qed.

Lemma list_with_metadata_keeps w w' r : fv_list_with_metadata v w = (w', r) →
  looks (fun d => Ok (map (fun n => (n, vd_metadata d !! n)) (names_of d))) w w' r.
Proof.
  intros [(w1 & names & H1 & H)|(e & H1 & ->)]%io_bind_inv; apply list_keeps in H1 as (Hv1 & Ho1 & Hr1).
  2:{ split_and!; [done..|]. intros n' ->. by specialize (Hr1 n' eq_refl). }
  injection Hr1 as <-. apply metadata_of_keeps in H as (Hv2 & Ho2 & Hr2). split_and!; [congruence..|].
  rewrite Hv1 in Hr2. done.
Qed.

Lemma retrieve_keeps n w w' r : fv_retrieve v n w = (w', r) → looks (value_of n) w w' r.
Proof.
  intros H. apply (looks_intro _ (fun d =>
    do? value := io_lift (ok_or (vd_secrets d !! n) (SecretNotFound n)) in
    do? _ := audit "vault.retrieve" n in io_ret value) _ _ _ H). intros w1 w2 r2 H2. unfold value_of.
  destruct (vd_secrets (vault_view w) !! n) as [x|]; [|by injection H2 as <- <-].
  apply (idle_audit_then "vault.retrieve" n x) in H2 as [(y & -> & <-) Hk]. done.
Qed.

Lemma injection_keeps n w w' r : fv_retrieve_for_injection v n w = (w', r) →
  looks (fun d => rbind (ensure_secret_injectable n (vd_metadata d !! n)) (fun _ => value_of n d)) w w' r.
Proof.
  intros H. apply (looks_intro _ (fun d =>
    do? _ := io_lift (ensure_secret_injectable n (vd_metadata d !! n)) in
    do? value := io_lift (ok_or (vd_secrets d !! n) (SecretNotFound n)) in
    do? _ := audit "vault.retrieve_for_injection" n in io_ret value) _ _ _ H). intros w1 w2 r2 H2. unfold value_of.
  destruct (ensure_secret_injectable n (vd_metadata (vault_view w) !! n)); [|by injection H2 as <- <-].
  destruct (vd_secrets (vault_view w) !! n) as [x|]; [|by injection H2 as <- <-].
  apply (idle_audit_then "vault.retrieve_for_injection" n x) in H2 as [(y & -> & <-) Hk]. done.
Qed.


(** ** Migration *)

Definition legacy_path : list string := vaults_path ++ [vn_legacy_json (fv_names v)].
Definition legacy_bytes (w : W) : option string := option_map ar_bytes (file_at (tview w) legacy_path).

Definition same_files (w w' : W) : Prop :=
  others w' = others w ∧ ∀ q, file_at (tview w') q = file_at (tview w) q.

Lemma same_files_trans w1 w2 w3 : same_files w1 w2 → same_files w2 w3 → same_files w1 w3.
Proof. intros [H1 H1'] [H2 H2']. split; [congruence|]. intros q. by rewrite H2', H1'. Qed.

Lemma same_files_bytes w w' : same_files w w' → vault_bytes w' = vault_bytes w ∧ legacy_bytes w' = legacy_bytes w.
Proof. intros [_ H]. unfold vault_bytes, legacy_bytes. by rewrite !H. Qed.

Lemma read_step t w w' r :
  io_try (read_target t) w = (w', r) → same_files w w' ∧ ∀ x, r = Ok x → x = file_at (tview w) (target_path t).
Proof.
  unfold io_try. destruct (read_target t w) as [w1 r1] eqn:E. intros [= <- <-].
  apply read_target_law in E as ([Hf _] & Ho & Hr). split; [by split|]. intros x Hx. apply Hr.
  destruct r1; [by injection Hx as ->|done].
Qed.

Lemma decrypt_step b w w' r :
  fv_decrypt v b w = (w', r) → same_files w w' ∧ r = decrypt b (fv_passphrase v).
Proof.
  unfold fv_decrypt. destruct (cache_decrypt (cell_get w) b (fv_passphrase v)) as [c r1] eqn:E. intros [= <- <-].
  destruct (cell_law (tview := tview) (others := others) c w) as [Ht Ho].
  split; [split; [done|by rewrite Ht]|].
  destruct (cached_result _ _ _ _ _ Hderive (Hcell w) E) as (_ & _ & Heq). by apply Heq, Hplain.
Qed.

(** What a migration leaves of the contents that were there *)
Definition lossless (w w' : W) : Prop :=
  others w' = others w ∧
  (vault_bytes w ≠ None → vault_bytes w' = vault_bytes w) ∧
  (∀ b, legacy_bytes w = Some b →
     legacy_bytes w' = Some b ∨
     legacy_bytes w' = None ∧ vault_bytes w' ≠ None ∧ vault_from_json b = Ok (vault_view w')).

Lemma same_files_lossless w w' : same_files w w' → lossless w w'.
Proof.
  intros H. destruct (same_files_bytes _ _ H) as [Hv Hl]. destruct H as [Ho _]. split_and!; [done..|].
  intros b Hb. left. congruence.
Qed.

(** Removing the plaintext when the encrypted file holds it *)
Lemma unlink_legacy w w1 t legacy w2 r b :
  target_path t = legacy_path → legacy_path ≠ vault_path → others w1 = others w →
  legacy_bytes w1 = legacy_bytes w → (vault_bytes w ≠ None → vault_bytes w1 = vault_bytes w) →
  legacy_bytes w = Some b → vault_bytes w1 ≠ None → vault_from_json b = Ok (vault_view w1) →
  unlink_if_exact t legacy w1 = (w2, r) →
  lossless w w2 ∧ match r with
                  | Ok _ => legacy_bytes w2 = None ∧ vault_from_json b = Ok (vault_view w2)
                  | Err _ => vault_bytes w2 = vault_bytes w1 ∧ legacy_bytes w2 = legacy_bytes w ∧ others w2 = others w
                  end.
Proof.
  intros Ht Hne Ho Hl1 Hv1 Hb Hsome Hview [Ho2 H]%unlink_law. destruct r as [e|e].
  - destruct H as (_ & Hat & Hother & _). rewrite Ht in Hat, Hother.
    assert (vault_bytes w2 = vault_bytes w1) as Hv2 by (unfold vault_bytes; by rewrite Hother).
    assert (legacy_bytes w2 = None) as Hl2 by (unfold legacy_bytes; by rewrite Hat).
    assert (vault_view w2 = vault_view w1) as Hview2 by (unfold vault_view; by rewrite Hv2).
    rewrite Hview2. split; [|done]. split_and!; [congruence|intros Hs; rewrite Hv2; by apply Hv1|].
    intros b' Hb'. assert (b' = b) as -> by congruence. right. rewrite Hv2, Hview2. done.
  - assert (same_files w1 w2) as Hs by (split; [done|apply H]).
    destruct (same_files_bytes _ _ Hs) as [Hv2 Hl2]. split; [|split_and!; congruence].
    split_and!; [congruence|intros Hx; rewrite Hv2; by apply Hv1|]. intros b' Hb'. left. congruence.
Qed.

(** Taking back a published file leaves the plaintext one. *)
Lemma unpublish_legacy l pub w w' r :
  target_path (lv_encrypted l) = vault_path → legacy_path ≠ vault_path →
  (do? outcome := io_try (unlink_if_exact (lv_encrypted l) pub) in
   io_lift (require_durable_effect outcome
     "encrypted legacy-vault migration rollback; the legacy plaintext copy remains authoritative")) w = (w', r) →
  others w' = others w ∧ legacy_bytes w' = legacy_bytes w.
Proof.
  intros Hle Hne H. unfold io_try in H.
  apply io_bind_inv in H as [(w1 & eff & H1 & H)|(e & H1 & ->)];
    destruct (unlink_if_exact (lv_encrypted l) pub w) as [w2 r2] eqn:E2; injection H1 as -> H1;
    apply unlink_law in E2 as [Ho H2]; rewrite ?Hle in H2.
  - apply io_lift_inv in H as [-> _]. split; [done|]. destruct r2 as [x|]; [|done].
    destruct H2 as (_ & _ & Hq & _). unfold legacy_bytes. by rewrite Hq.
  - split; [done|]. destruct r2 as [x|]; [done|]. unfold legacy_bytes. by rewrite (proj1 H2).
Qed.

(** What a migration does once it has read both files *)
Definition migrated (w w' : W) (r : result unit PhantomError) : Prop :=
  lossless w w' ∧
  (r = Ok tt → legacy_bytes w' = None ∧
     ∀ b, legacy_bytes w = Some b → vault_from_json b = Ok (vault_view w')).

Lemma migrated_early w w' e : same_files w w' → migrated w w' (Err e).
Proof. intros H. split; [by apply same_files_lossless|done]. Qed.

(** The plaintext file is removed when the encrypted one holds the same. *)
Lemma migrate_duplicate l legacy encrypted d w w1 w' r :
  target_path (lv_legacy_json l) = legacy_path → legacy_path ≠ vault_path → same_files w w1 →
  legacy_bytes w = Some (ar_bytes legacy) → vault_bytes w = Some (ar_bytes encrypted) →
  vault_from_json (ar_bytes legacy) = Ok d →
  (do? plaintext := (fun w =>
     let '(w1, r) := fv_decrypt v (ar_bytes encrypted) w in
     (w1, map_err (fun e => coexists "cannot be verified" (phantom_error_text io_error_text e)) r)) in
   do? encrypted_data := io_lift (map_err (coexists "is corrupt") (vault_from_json plaintext)) in
   io_fail_if (negb (bool_decide (encrypted_data = d)))
     (VaultError "Encrypted and legacy plaintext vaults contain divergent state; refusing to remove or replace either file. Reconcile them manually before retrying")
   (do? removal := io_try (unlink_if_exact (lv_legacy_json l) legacy) in
    io_lift (require_durable_effect removal "verified duplicate legacy plaintext vault removal"))) w1 = (w', r) →
  migrated w w' r.
Proof.
  intros Hll Hne Hs Hb Hvb Hd H.
  apply io_bind_inv in H as [(w4 & p & H4 & H)|(e & H4 & ->)];
    destruct (fv_decrypt v (ar_bytes encrypted) w1) as [w5 r5] eqn:E5; apply decrypt_step in E5 as [Hs5 Hr5];
    injection H4 as -> H4; pose proof (same_files_trans _ _ _ Hs Hs5) as Hs6; [|by apply migrated_early].
  assert (decrypt (ar_bytes encrypted) (fv_passphrase v) = Ok p) as Hp.
  { rewrite <- Hr5. destruct r5; [by injection H4 as ->|done]. }
  apply io_bind_inv in H as [(w6 & d' & [-> Hd']%io_lift_inv & H)|(e & [-> _]%io_lift_inv & ->)];
    [|by apply migrated_early].
  apply map_err_Ok in Hd'. unfold io_fail_if in H. case_bool_decide as Edd; cbn [negb] in H;
    [|injection H as <- <-; by apply migrated_early].
  subst d'. destruct (same_files_bytes _ _ Hs6) as [Hvb6 Hlb6].
  assert (vault_from_json (ar_bytes legacy) = Ok (vault_view w4)) as Hview4.
  { rewrite Hd. unfold vault_view, contents_of. by rewrite Hvb6, Hvb, Hp, Hd'. }
  unfold io_try in H. apply io_bind_inv in H as [(w7 & eff & H7 & H)|(e & H7 & ->)];
    destruct (unlink_if_exact (lv_legacy_json l) legacy w4) as [w8 r8] eqn:E8; injection H7 as -> H7;
    eapply (unlink_legacy w) in E8 as [Hloss Hr8]; try done; try (by apply Hs6); try congruence.
  apply io_lift_inv in H as [-> <-]. destruct r8 as [eff'|]; [|done]. injection H7 as ->. destruct Hr8 as [Hl8 Hv8].
  split; [done|]. intros _. split; [done|]. intros b' Hb'. assert (b' = ar_bytes legacy) as -> by congruence. done.
Qed.

(** The removal of the plaintext file after the encrypted one was published *)
Lemma migrate_finish l legacy d pub w w5 w' r :
  target_path (lv_encrypted l) = vault_path → target_path (lv_legacy_json l) = legacy_path →
  legacy_path ≠ vault_path → others w5 = others w → legacy_bytes w5 = legacy_bytes w → vault_bytes w = None →
  vault_bytes w5 ≠ None → vault_view w5 = d →
  legacy_bytes w = Some (ar_bytes legacy) → vault_from_json (ar_bytes legacy) = Ok d →
  (match unlink_if_exact (lv_legacy_json l) legacy w5 with
   | (w1, Err unlink_error) =>
       let '(w2, rollback) :=
         (do? outcome := io_try (unlink_if_exact (lv_encrypted l) pub) in
          io_lift (require_durable_effect outcome
            "encrypted legacy-vault migration rollback; the legacy plaintext copy remains authoritative")) w1 in
       (w2, Err (VaultError
          (match rollback with
           | Ok _ => "Legacy vault changed before exact removal; encrypted migration was rolled back: "
                       +:+ io_error_text unlink_error
           | Err rollback_error =>
               "Legacy vault changed before exact removal and encrypted migration rollback failed: "
                 +:+ io_error_text unlink_error +:+ "; rollback: " +:+ phantom_error_text io_error_text rollback_error
           end)))
   | (w1, Ok outcome) => (w1, require_durable_effect outcome "legacy plaintext vault removal")
   end) = (w', r) →
  migrated w w' r.
Proof.
  intros Hle Hll Hne Ho5 Hlb5 Hnone Hsome Hview5 Hb Hd H.
  destruct (unlink_if_exact (lv_legacy_json l) legacy w5) as [w8 r8] eqn:E8.
  assert (vault_from_json (ar_bytes legacy) = Ok (vault_view w5)) as Hview by by rewrite Hview5.
  destruct (unlink_legacy w w5 _ legacy w8 r8 (ar_bytes legacy) Hll Hne Ho5 Hlb5 (fun Hx => False_ind _ (Hx Hnone))
    Hb Hsome Hview E8) as [Hloss Hr8].
  destruct r8 as [eff8|k].
  - injection H as <- <-. split; [done|]. intros _. destruct Hr8 as [Hl8 Hv8]. split; [done|].
    intros b' Hb'. assert (b' = ar_bytes legacy) as -> by congruence. done.
  - destruct Hr8 as (Hv8 & Hl8 & Ho8).
    match type of H with (let '(_, _) := ?m in _) = _ => destruct m as [w9 r9] eqn:E9 end.
    injection H as <- <-. apply unpublish_legacy in E9 as [Ho9 Hl9]; [|done..]. split; [|done].
    split_and!; [congruence|by rewrite Hnone|]. intros b' Hb'. left. congruence.
Qed.

(** Migration from the plaintext vault loses nothing: whatever fails, the
    plaintext file is still there with its bytes, or it is gone and the
    encrypted file decrypts to what it held; an encrypted file that was there
    is not changed.  On success no plaintext file is left, and its contents
    are those of the vault. *)
Theorem migration_lossless l w w' r :
  target_path (lv_encrypted l) = vault_path → target_path (lv_legacy_json l) = legacy_path →
  legacy_path ≠ vault_path → migrate_from_json env v l w = (w', r) → migrated w w' r.
Proof.
  intros Hle Hll Hne H. unfold migrate_from_json in H.
  apply io_bind_inv in H as [(w1 & enc & H1 & H)|(e & H1 & ->)]; apply read_step in H1 as [Hs1 Henc];
    [|by apply migrated_early].
  specialize (Henc enc eq_refl). rewrite Hle in Henc.
  apply io_bind_inv in H as [(w2 & leg & H2 & H)|(e & H2 & ->)]; apply read_step in H2 as [Hs2 Hleg];
    pose proof (same_files_trans _ _ _ Hs1 Hs2) as Hs; [|by apply migrated_early].
  specialize (Hleg leg eq_refl). rewrite Hll, (proj2 Hs1) in Hleg. destruct leg as [legacy|].
  2:{ injection H as <- <-. split; [by apply same_files_lossless|]. intros _.
      destruct (same_files_bytes _ _ Hs) as [_ ->]. unfold legacy_bytes. rewrite <- Hleg. split; [done|by intros b]. }
  assert (legacy_bytes w = Some (ar_bytes legacy)) as Hb by (unfold legacy_bytes; by rewrite <- Hleg).
  apply io_bind_inv in H as [(w3 & d & [-> Hd]%io_lift_inv & H)|(e & [-> _]%io_lift_inv & ->)];
    [|by apply migrated_early].
  apply map_err_Ok in Hd. destruct enc as [encrypted|].
  { eapply migrate_duplicate; [exact Hll|exact Hne|exact Hs|exact Hb| |exact Hd|exact H].
    unfold vault_bytes. by rewrite <- Henc. }
  apply io_bind_inv in H as [(w4 & blob & H4 & H)|(e & H4 & ->)]; apply encrypt_spec in H4 as (Ht4 & Ho4 & Hblob & _);
    [|apply migrated_early; eapply same_files_trans; [exact Hs|split; [done|by rewrite Ht4]]].
  specialize (Hblob blob eq_refl).
  assert (same_files w w4) as Hs4 by (eapply same_files_trans; [exact Hs|split; [done|by rewrite Ht4]]).
  apply io_bind_inv in H as [(w5 & eff & H5 & H)|(e & H5 & ->)]; unfold io_try, replace_if_exact in H5;
    match type of H5 with (let '(_, _) := ?m in _) = _ => destruct m as [w6 r6] eqn:E6 end;
    apply replace_law in E6 as [Ho6 H6]; injection H5 as -> H5.
  2:{ destruct r6 as [|k]; [done|]. apply migrated_early. eapply same_files_trans; [exact Hs4|split; [done|apply H6]]. }
  destruct r6 as [eff'|]; [|done]. injection H5 as ->. destruct H6 as (_ & Hbytes & _ & Hat & Hother & _).
  rewrite Hle in Hat, Hother.
  assert (vault_bytes w5 = Some blob) as Hvb5 by (unfold vault_bytes; rewrite Hat; cbn; by rewrite Hbytes).
  assert (legacy_bytes w5 = legacy_bytes w) as Hlb5.
  { unfold legacy_bytes. rewrite Hother by done. by rewrite (proj2 Hs4). }
  assert (vault_bytes w = None) as Hnone by (unfold vault_bytes; by rewrite <- Henc).
  assert (others w5 = others w) as Ho5 by (rewrite Ho6; apply Hs4).
  apply io_bind_inv in H as [(w7 & pub & [-> Hpub]%io_lift_inv & H)|(e & [-> _]%io_lift_inv & ->)].
  2:{ split; [|done]. split_and!; [done|by rewrite Hnone|]. intros b Hb'. left. congruence. }
  assert (vault_bytes w5 ≠ None) as Hsome by by rewrite Hvb5.
  assert (vault_view w5 = d) as Hview by (unfold vault_view; rewrite Hvb5; exact Hblob).
  exact (migrate_finish l legacy d pub w w5 w' r Hle Hll Hne Ho5 Hlb5 Hnone Hsome Hview Hb Hd H).
Qed.
End laws.
