(* ===== verification/DemoVault.v ===== *)
(** * An in-memory machine for the file vault

    The machine of [InitTxnSpec] with locks, permission repairs, fixed random
    bytes and a fixed clock, the primitives of [VaultCryptoSpec], and JSON for
    two vaults: the interfaces of the file vault have instances that obey
    their laws, for the concrete runs at the end. *)

From S2P Require Import Prelude Text Ids External StateDir Rotation VaultMeta VaultData AnchoredFs InitTxn InitTxnSpec VaultCrypto VaultCryptoSpec FileVault FileVaultSpec.

(** ** Files *)

Definition demo_lock_file (a : list string) (n : string) : io demo ErrorKind unit :=
  tick OtherKind (fun w =>
    (with_files (<[a ++ [n] := mk_read "" (mk_identity 1 (dm_next w)) private_permissions]> (dm_files w)) w, Ok tt)).

Definition demo_private_subdirectory (a : list string) (c : string) : io demo ErrorKind (list string) :=
  fun w => (with_dirs ({[a ++ [c]]} ∪ dm_dirs w) w, Ok (a ++ [c])).

Definition demo_repair (t : list string) : io demo ErrorKind bool := fun w =>
  match dm_files w !! t with
  | None => (w, Err NotFound)
  | Some r =>
      if bool_decide (ar_permissions r = private_permissions) then (w, Ok false)
      else (with_files (<[t := mk_read (ar_bytes r) (ar_identity r) private_permissions]> (dm_files w)) w, Ok true)
  end.

#[export] Instance demo_vault_fs : VaultFs demo_fs := {
  acquire_lock := demo_lock_file;
  private_subdirectory := demo_private_subdirectory;
  repair_private_regular := demo_repair;
}.

#[export] Instance demo_vault_fs_laws : VaultFsLaws demo_vault_fs demo_tree dm_vault demo_fs_laws.
Proof.
  constructor; cbn -[demo_tree].
  - intros a n w w' r [(Hv & Ht & ->)|(w1 & H & Hv & Ht)]%tick_inv.
    + split; [done|]. rewrite Ht. exists (file_at (demo_tree w) (a ++ [n])). by split_and!.
    + rewrite <- Hv, <- Ht. injection H as <- <-. split; [done|]. eexists. unfold but_file; split_and!; try done.
      intros q Hq. cbn. by rewrite lookup_insert_ne.
  - intros a c w w' r [= <- <-]. split_and!; [done..|]. by intros a' [= <-].
  - intros t w w' r. unfold demo_repair. cbn. destruct (dm_files w !! t) as [x|] eqn:E; [|intros [= <- <-]; by rewrite E].
    case_bool_decide; intros [= <- <-]; [by rewrite E|]. cbn. split_and!; [done| |].
    + intros q Hq. by rewrite lookup_insert_ne.
    + by rewrite lookup_insert_eq.
Qed.

(** ** The environment *)

Fixpoint zeros (n : nat) : string := match n with O => EmptyString | S n => String "0" (zeros n) end.

#[export] Instance demo_rng : Rng demo := fun n w => (w, zeros n).
#[export] Instance demo_clock : Clock demo := fun w => (w, demo_now).
#[export] Instance demo_audit : AuditSink demo := fun _ _ w => w.
(** A cache that keeps nothing *)
#[export] Instance demo_cell : UnlockCell demo := { cell_get := fun _ => None; cell_set := fun _ w => w }.

#[export] Instance demo_env_laws : VaultEnvLaws demo_tree dm_vault.
Proof.
  constructor; try done.
  - intros n w w' s [= <- <-]. split_and!; [done..|]. induction n as [|n IH]; cbn; [done|by rewrite IH].
  - by intros w w' n [= <- <-].
Qed.

(** The vault with one entry that a store into an empty vault makes *)
Definition demo_stored : VaultData := data_store demo_now "A" "sk-2" empty_vault.

#[export] Instance demo_json : VaultJson := {
  vault_to_json := fun d =>
    if bool_decide (d = empty_vault) then Ok "E"%string
    else if bool_decide (d = demo_stored) then Ok "D"%string else Err "unknown"%string;
  vault_from_json := fun s =>
    if String.eqb s "E" then Ok empty_vault
    else if String.eqb s "D" then Ok demo_stored else Err "unknown"%string;
}.

Lemma demo_json_roundtrip d s : vault_to_json d = Ok s → vault_from_json s = Ok d.
Proof. cbn. case_bool_decide as E1; [by intros [= <-]; subst|]. case_bool_decide as E2; [by intros [= <-]; subst|done]. Qed.

(** ** No blob has two readings *)

Lemma strip_tag_inv t m p : strip_tag t m = Some p → m = p +:+ t.
Proof.
  revert p. induction m as [|c m IH]; intros p; cbn -[String.eqb].
  - destruct (String.eqb_spec "" t) as [<-|_]; [by intros [= <-]|done].
  - destruct (String.eqb_spec (String c m) t) as [<-|_]; [by intros [= <-]|].
    destruct (strip_tag t m) as [q|]; cbn; [|done]. intros [= <-]. by rewrite (IH q eq_refl).
Qed.

(** The end of a blob that opens is the tag of its key and header. *)
Lemma opened_tag r blob p :
  open_as r blob "pw" = Some p →
  ∃ key n m, key_of r blob "pw" = (Ok key, n) ∧ blob = m +:+ demo_tag key (default ""%string (aad_of n blob)).
Proof.
  unfold open_as. destruct (key_of r blob "pw") as [[key|] n] eqn:Ek; [|done]. unfold decrypt_with_key.
  destruct (_ <? _)%nat; [done|]. intros H. cbn [aead_open demo_crypto] in H. apply strip_tag_inv in H.
  exists key, n, (str_take n blob +:+ str_take (SALT_LEN + NONCE_LEN) (str_drop n blob) +:+ p).
  split; [done|]. rewrite !str_app_assoc, <- H, str_take_drop. by rewrite str_take_drop.
Qed.

Lemma parse_v3_magic blob x : parse_v3_header blob = Some x → str_take 4 blob = MAGIC.
Proof.
  unfold parse_v3_header. destruct (_ <? _)%nat; [done|]. destruct (String.eqb_spec (str_take 4 blob) MAGIC); done.
Qed.

(** The second byte of a tag is the first of the associated data. *)
Lemma tag_second key a aad : key ≠ EmptyString → byte_at (demo_tag key (String a aad)) 1 = Some a.
Proof. by destruct key. Qed.

(** The tag shows the reading: its second byte is of the magic or a dot, its
    first the number of iterations. *)
Lemma tag_of_reading r blob p :
  open_as r blob "pw" = Some p →
  ∃ m t, blob = m +:+ t ∧ String.length t = 16%nat ∧
    match r with
    | ReadV2 => byte_at t 1 = Some "P"%char ∧ ∃ body, classify blob = TagV2 body
    | ReadV3 => byte_at t 1 = Some "P"%char ∧ ∃ v a, classify blob = TagUnsupported v a
    | ReadHardened => byte_at t 1 = Some "."%char ∧ byte_at t 0 = Some "3"%char
    | ReadDefault => byte_at t 1 = Some "."%char ∧ byte_at t 0 = Some "2"%char
    end.
Proof.
  intros (key & n & m & Hk & Hb)%opened_tag. exists m, (demo_tag key (default ""%string (aad_of n blob))).
  split; [exact Hb|]. split; [apply demo_tag_length|]. destruct r; unfold key_of in Hk;
    pose proof (f_equal snd Hk) as Hn; apply (f_equal fst) in Hk; cbn [fst snd] in Hk, Hn; subst n.
  - destruct (classify blob) as [|body|] eqn:Ec; [done| |done]. split; [|by exists body].
    apply classify_V2 in Ec as (_ & Hh & _). unfold aad_of. change (HEADER_LEN =? 0)%nat with false. cbn [default].
    rewrite Hh. apply tag_second. intros ->. vm_compute in Hk. done.
  - destruct (parse_v3_header blob) as [[[params hdr] body]|] eqn:Ep; [|done].
    pose proof (parse_v3_magic _ _ Ep) as Hm. apply parse_v3_split in Ep as (_ & _ & _ & (v & a & Hc & _) & _).
    split; [|by exists v, a]. destruct blob as [|c blob]; [done|]. cbn in Hm. injection Hm as -> _.
    apply tag_second. intros ->.
    change (Ok (N_to_string (kp_t params) +:+ "pw"%string) = Ok ""%string (E := PhantomError)) in Hk.
    apply (Ok_inj (E := PhantomError)) in Hk. by destruct (N_to_string (kp_t params)).
  - change (Ok "3pw"%string = Ok key (E := PhantomError)) in Hk. apply Ok_inj in Hk as <-. split; reflexivity.
  - change (Ok "2pw"%string = Ok key (E := PhantomError)) in Hk. apply Ok_inj in Hk as <-. split; reflexivity.
Qed.

Lemma demo_plain blob : unambiguous blob "pw".
Proof.
  intros p q [r Hp] [r' Hq].
  destruct (tag_of_reading _ _ _ Hp) as (m & t & Hb & Hl & H). destruct (tag_of_reading _ _ _ Hq) as (m' & t' & Hb' & Hl' & H').
  assert (t' = t) as ->.
  { rewrite Hb in Hb'. assert (String.length m = String.length m').
    { apply (f_equal String.length) in Hb'. rewrite !str_length_app in Hb'. lia. }
    by apply str_app_split_eq in Hb' as [_ ?]. }
  assert (r = r') as ->; [|congruence].
  destruct r, r'; try done; destruct H as [H1 H2], H' as [H1' H2']; try congruence;
    repeat match goal with H : ∃ _, _ |- _ => destruct H as [? H] end; congruence.
Qed.

(** ** A vault *)

Definition demo_vault_at : FileVault (F := demo_fs) :=
  mk_file_vault (F := demo_fs) ([] : list string) (vault_names "p") "pw".

(** An empty machine *)
Definition demo_empty : demo := mk_demo empty_vault ∅ ∅ 1 [].

(** ** Concrete runs of the file vault

    The theorems of [FileVaultSpec] applied to the machine of [DemoVault];
    and a run where the first write to a vault file with wide permissions is
    refused, because loading repaired the permissions of the file that the
    write is checked against ([first_write_after_repair_fails]). *)

Lemma demo_cell_ok w : cache_ok (fv_passphrase demo_vault_at) (cell_get (W := demo) w).
Proof. by intros e. Qed.

Lemma demo_names : vn_legacy_lock (fv_names demo_vault_at) ≠ vn_encrypted (fv_names demo_vault_at).
Proof. done. Qed.

(** A store into an empty machine, and a refused swap after it *)
Definition demo_store_run : demo * result unit PhantomError := fv_store None demo_vault_at "A" "sk-2" demo_empty.

Definition demo_swap_run : demo * result bool PhantomError :=
  fv_compare_and_swap None demo_vault_at "A" (Some "sk-1"%string) None demo_store_run.1.

Definition other_vault_file : list string := ["vaults"; "q.vault"]%string.


(** A plaintext vault that is migrated *)
Definition plaintext_machine : demo :=
  mk_demo empty_vault {[ ["vaults"; "p.json"]%string := mk_read "D" (mk_identity 1 0) private_permissions ]} ∅ 1 [].

Definition demo_locked : LockedVault (F := demo_fs) :=
  mk_locked (F := demo_fs) (["vaults"; "p.vault"]%string : list string) (["vaults"; "p.json"]%string : list string).

Definition migrate_run : demo * result unit PhantomError :=
  migrate_from_json None demo_vault_at demo_locked plaintext_machine.

Lemma migration_lossless_witness :
  migrate_run.2 = Ok tt ∧
  legacy_bytes demo_tree dm_vault demo_vault_at migrate_run.1 = None ∧
  vault_from_json "D" = Ok (vault_view demo_tree dm_vault demo_vault_at migrate_run.1).
Proof.
  assert (migrate_run.2 = Ok tt) as E by (vm_compute; reflexivity). split; [exact E|].
  assert (legacy_path demo_tree dm_vault demo_vault_at ≠ vault_path demo_tree dm_vault demo_vault_at) as Hne by done.
  destruct (migration_lossless (FL := demo_fs_laws) demo_tree dm_vault None demo_vault_at demo_seals_open demo_keys_derive demo_plain demo_cell_ok
    demo_json_roundtrip demo_locked plaintext_machine migrate_run.1 migrate_run.2 ltac:(reflexivity) ltac:(reflexivity) Hne
    (surjective_pairing migrate_run)) as [_ H].
  destruct (H E) as [Hl Hd]. split; [exact Hl|]. apply Hd. vm_compute. reflexivity.
Defined.

(** A vault file that others may read: the mode of the file is changed by the
    load, so the image the write expects is stale. *)
Definition wide_machine : demo :=
  let w := demo_store_run.1 in
  mk_demo (dm_vault w)
    (alter (fun r => mk_read (ar_bytes r) (ar_identity r) (mk_permissions (Some 420%N) false))
       ["vaults"; "p.vault"]%string (dm_files w)) (dm_dirs w) (dm_next w) [].

Lemma first_write_after_repair_fails :
  let '(w1, r1) := fv_store None demo_vault_at "A" "sk-2" wide_machine in
  let '(_, r2) := fv_store None demo_vault_at "A" "sk-2" w1 in
  r1 = Err (Io OtherKind) ∧ r2 = Ok tt.
Proof. vm_compute. done. Qed.
