(* ===== verification/Keychain.v ===== *)
(** * The keychain vault: [crates/phantom-vault/src/keychain.rs]

    [KeychainVault] keeps the values in the credential store of the operating
    system, the names in an index entry of that store, and the metadata in two
    JSON sidecar files.  A write touches up to four of them and compensates
    when a later one fails.  This is the Linux build: the store is the kernel's
    keyutils until a migration has published its markers, and Secret Service
    from then on.  The credential store is the class [Keyring], JSON the class
    [KeychainJson]; the files are [AnchoredFs] and [VaultFs].  The theorems
    are in [KeychainSpec] and [KeychainMigration]. *)

From S2P Require Import Prelude Text Ids External Canonical StateDir Rotation VaultMeta VaultData AnchoredFs FileVault.

(** ** The credential store: the [keyring] crate *)

Inductive CredentialStore := LinuxKeyutils | LinuxSecretService.

#[export] Instance CredentialStore_eq_dec : EqDecision CredentialStore.
Proof. solve_decision. Defined.

(** What a [keyring::Entry] names *)
Record Entry := mk_entry { en_store : CredentialStore; en_service : string; en_account : string }.

#[export] Instance Entry_eq_dec : EqDecision Entry.
Proof. solve_decision. Defined.

(** [keyring::Error]: no entry, or any other failure *)
Inductive KeyringError := NoEntry | KeyringFailure (text : string).

Class Keyring (W : Type) := {
  (** making the credential of an entry, which reads nothing *)
  new_credential : Entry → io W KeyringError unit;
  get_password : Entry → io W KeyringError string;
  set_password : Entry → string → io W KeyringError unit;
  delete_credential : Entry → io W KeyringError unit;
  (** the text of an error *)
  keyring_error_text : KeyringError → string;
}.

Record LinuxBackendMarker := mk_marker {
  lm_version : N;
  lm_backend : string;
  lm_project_digest : string;
}.

#[export] Instance LinuxBackendMarker_eq_dec : EqDecision LinuxBackendMarker.
Proof. solve_decision. Defined.

(** [serde_json] at the types that are stored; an error is the value-blind
    text. *)
Class JsonOf (T : Type) := {
  json_write : T → result string string;
  json_read : string → result T string;
}.

(** What the keychain needs of the files beyond [VaultFs] *)
Class KeychainFs {W} (F : AnchoredFs W) := {
  target_with_private_parents : trusted_anchor → string → io W ErrorKind anchored_target;
  acquire_exclusive_lock : anchored_target → io W ErrorKind unit;
  relative_path_text : anchored_target → string;
}.

(** [char::is_alphanumeric] beyond ASCII, on the UTF-8 of one character *)
Class UnicodeTables := unicode_alphanumeric : string → bool.

Definition SERVICE_PREFIX : string := "phantom-secrets".
Definition LINUX_BACKEND_MARKER_VERSION : N := 1.
Definition LINUX_SECRET_SERVICE_BACKEND : string := "linux-secret-service".
Definition LINUX_MIGRATION_SENTINEL_SUFFIX : string := "__linux_backend_migration__".

(** ** Names *)

(** The first character of a UTF-8 text, and the rest *)
Definition char_len (c : ascii) : nat :=
  let b := N_of_ascii c in
  if (b <? 128)%N then 1 else if (b <? 224)%N then 2 else if (b <? 240)%N then 3 else 4.

(** [safe_project_component]; the fuel is the length of the text. *)
Fixpoint safe_chars `{UnicodeTables} (fuel : nat) (s : string) : string :=
  match fuel, s with
  | S fuel, String c rest =>
      let len := char_len c in
      let character := str_take len s in
      let keep :=
        if (len =? 1)%nat
        then is_ascii_alphanumeric c || ascii_eqb c "-"%char || ascii_eqb c "_"%char
        else unicode_alphanumeric character in
      (if keep then character else "_") +:+ safe_chars fuel (str_drop len s)
  | _, _ => EmptyString
  end.
Definition safe_project_component `{UnicodeTables} (project_id : string) : string :=
  safe_chars (String.length project_id) project_id.

(** [legacy_project_name_is_unambiguous] *)
Definition legacy_project_name_is_unambiguous (project_id : string) : bool :=
  negb (str_is_empty project_id)
  && all_bytes (fun c => is_ascii_lowercase c || is_ascii_digit c || ascii_eqb c "-"%char || ascii_eqb c "_"%char)
       project_id.

Section names.
Context `{X : External} `{UT : UnicodeTables}.

Definition project_digest (project_id : string) : string := sha256_hex project_id.

Definition stable_lock_name (project_id : string) : string :=
  "project-" +:+ project_digest project_id +:+ ".lock".

(** [legacy_lock_path] *)
Definition legacy_lock_path (project_id : string) : string :=
  "metadata/locks/" +:+ safe_project_component project_id +:+ ".lock".

(** [hash_secret_name]: eight of the 32 bytes *)
Definition hash_secret_name (project_id name : string) : string :=
  hex_encode (str_take 8 (sha256 (project_id +:+ ":" +:+ name))).
End names.

Section keychain.
Context {W : Type} `{F : !AnchoredFs W} `{VF : !VaultFs F} `{KF : !KeychainFs F} `{X : External} `{UT : UnicodeTables}.
Context `{KR : !Keyring W} `{C : !Clock W} `{AS : !AuditSink W}.
Context `{JI : !JsonOf (list string)} `{JM : !JsonOf (gmap string SecretMetadata)}.
Context `{JV : !JsonOf (gmap string ValidationMetadata)} `{JL : !JsonOf LinuxBackendMarker}.

(** [credential_entry] *)
Definition credential_entry (store : CredentialStore) (service account : string) : io W KeyringError Entry :=
  let entry := mk_entry store service account in
  do? _ := new_credential entry in io_ret entry.

(** A keyring error as a vault error *)
Definition keyring_try {T} (text : string) (m : io W KeyringError T) : vault_io W T := fun w =>
  let '(w1, r) := m w in (w1, map_err (fun e => VaultError (text +:+ keyring_error_text e)) r).

(** ** Credentials *)

(** [read_credential] *)
Definition read_credential (entry : Entry) (label : string) : vault_io W (option string) := fun w =>
  match get_password entry w with
  | (w1, Ok value) => (w1, Ok (Some value))
  | (w1, Err NoEntry) => (w1, Ok None)
  | (w1, Err error) => (w1, Err (VaultError ("Failed to read " +:+ label +:+ ": " +:+ keyring_error_text error)))
  end.

(** [remove_credential] *)
Definition remove_credential (entry : Entry) (label : string) : vault_io W unit := fun w =>
  match delete_credential entry w with
  | (w1, Ok _) | (w1, Err NoEntry) => (w1, Ok tt)
  | (w1, Err error) => (w1, Err (VaultError ("Failed to delete " +:+ label +:+ ": " +:+ keyring_error_text error)))
  end.

(** [restore_credential] *)
Definition restore_credential (entry : Entry) (value : option string) (label : string) : vault_io W unit :=
  match value with
  | Some value => keyring_try ("Failed to restore " +:+ label +:+ ": ") (set_password entry value)
  | None => remove_credential entry label
  end.

(** [compensated_error] *)
Definition compensated_error (operation : string) (primary : PhantomError)
    (compensation_results : list (result unit PhantomError)) : PhantomError :=
  let text := phantom_error_text io_error_text in
  let failures := omap (fun r => match r with Ok _ => None | Err e => Some (text e) end) compensation_results in
  match failures with
  | [] => VaultError (operation +:+ " failed and prior keychain state was restored: " +:+ text primary)
  | _ => VaultError (operation +:+ " failed (" +:+ text primary +:+ "); rollback was incomplete: "
                     +:+ join "; " failures)
  end.

(** The compensations, all of them, in their order *)
Fixpoint run_compensations (l : list (vault_io W unit)) (w : W) : W * list (result unit PhantomError) :=
  match l with
  | [] => (w, [])
  | m :: rest => let '(w1, r) := m w in let '(w2, rs) := run_compensations rest w1 in (w2, r :: rs)
  end.

(** [return Err(compensated_error(operation, primary, [...]))] *)
Definition compensate {T} (operation : string) (primary : PhantomError) (l : list (vault_io W unit))
    : vault_io W T := fun w =>
  let '(w1, rs) := run_compensations l w in (w1, Err (compensated_error operation primary rs)).

(** ** Sidecar files *)

(** [require_durable_sidecar_effect] *)
Definition require_durable_sidecar_effect {T} (outcome : AnchoredEffect T) (operation : string)
    : result T PhantomError :=
  match outcome with
  | Durable value | CommittedVerifiedButDurabilityUncertain value => Ok value
  | CommittedButUncertain _ error =>
      Err (VaultError (operation
        +:+ " committed, but durability or post-effect verification is uncertain: " +:+ io_error_text error
        +:+ ". Do not assume the operation had no effect; reopen and verify the sidecar state before retrying"))
  end.

Definition corrupt_sidecar (target : anchored_target) (label error : string) : PhantomError :=
  VaultError ("Corrupt keychain " +:+ label +:+ " sidecar " +:+ relative_path_text target +:+ ": " +:+ error).

(** [load_sidecar_snapshot] *)
Definition load_sidecar_snapshot {T} `{!JsonOf (gmap string T)} (target : anchored_target) (label : string)
    : vault_io W (gmap string T * option AnchoredRead) :=
  do? before := io_try (read_target target) in
  do? map := (match before with
              | Some contents => io_lift (map_err (corrupt_sidecar target label) (json_read (ar_bytes contents)))
              | None => io_ret ∅
              end) in
  io_ret (map, before).

(** [load_sidecar_map] *)
Definition load_sidecar_map {T} `{!JsonOf (gmap string T)} (target : anchored_target) (label : string)
    : vault_io W (gmap string T) :=
  do? contents := io_try (read_target target) in
  match contents with
  | None => io_ret ∅
  | Some contents => io_lift (map_err (corrupt_sidecar target label) (json_read (ar_bytes contents)))
  end.

(** [save_sidecar_map_if_unchanged] *)
Definition save_sidecar_map_if_unchanged {T} `{!JsonOf (gmap string T)} (target : anchored_target)
    (label : string) (expected_before : option AnchoredRead) (map : gmap string T) : vault_io W unit :=
  do? json := io_lift (map_err (fun e => VaultError ("Keychain " +:+ label +:+ " serialize error: " +:+ e))
                         (json_write map)) in
  do? outcome := io_try (replace_if_exact target expected_before json) in
  do? _ := io_lift (require_durable_sidecar_effect outcome ("keychain " +:+ label +:+ " sidecar update")) in
  io_ret tt.

(** [save_sidecar_map] *)
Definition save_sidecar_map {T} `{!JsonOf (gmap string T)} (target : anchored_target) (label : string)
    (map : gmap string T) : vault_io W unit :=
  do? before := io_try (read_target target) in
  save_sidecar_map_if_unchanged target label before map.

Record KeychainSidecars := mk_sidecars {
  sc_stable_lock : anchored_target;
  sc_legacy_lock : anchored_target;
  sc_metadata : anchored_target;
  sc_validation : anchored_target;
  sc_linux_backend : anchored_target;
  sc_linux_backend_corroboration : anchored_target;
  sc_legacy_metadata : anchored_target;
  sc_legacy_validation : anchored_target;
  sc_legacy_name_is_ambiguous : bool;
}.

(** [KeychainSidecars::from_anchor] *)
Definition sidecars_from_anchor (app_data : trusted_anchor) (project_id : string) : vault_io W KeychainSidecars :=
  do? metadata := io_try (private_subdirectory app_data "metadata") in
  do? backend_config := io_try (private_subdirectory app_data "linux-backends-test") in
  let digest := project_digest project_id in
  let legacy := safe_project_component project_id in
  do? stable_lock := io_try (target_of app_data (stable_lock_name project_id)) in
  do? legacy_lock := io_try (target_with_private_parents app_data (legacy_lock_path project_id)) in
  do? metadata_target := io_try (target_of metadata (digest +:+ ".meta.json")) in
  do? validation := io_try (target_of metadata (digest +:+ ".validation.json")) in
  do? linux_backend := io_try (target_of metadata (digest +:+ ".linux-backend.json")) in
  do? corroboration := io_try (target_of backend_config (digest +:+ ".json")) in
  do? legacy_metadata := io_try (target_of metadata (legacy +:+ ".meta.json")) in
  do? legacy_validation := io_try (target_of metadata (legacy +:+ ".validation.json")) in
  io_ret (mk_sidecars stable_lock legacy_lock metadata_target validation linux_backend corroboration
            legacy_metadata legacy_validation (negb (legacy_project_name_is_unambiguous project_id))).

(** [KeychainSidecars::open], with the two configured directories *)
Definition open_sidecars (open_app_data_anchor open_backend_config_anchor : vault_io W trusted_anchor)
    (project_id : string) : vault_io W KeychainSidecars :=
  do? app_data := open_app_data_anchor in
  do? sidecars := sidecars_from_anchor app_data project_id in
  do? backend_config := open_backend_config_anchor in
  do? corroboration := io_try (target_of backend_config (project_digest project_id +:+ ".json")) in
  io_ret (mk_sidecars (sc_stable_lock sidecars) (sc_legacy_lock sidecars) (sc_metadata sidecars)
            (sc_validation sidecars) (sc_linux_backend sidecars) corroboration
            (sc_legacy_metadata sidecars) (sc_legacy_validation sidecars)
            (sc_legacy_name_is_ambiguous sidecars)).

(** [KeychainSidecars::acquire_project_lock]; the locks are released with the
    value that holds them, the process shards are not in the model. *)
Definition acquire_project_lock (s : KeychainSidecars) : vault_io W unit :=
  do? _ := io_try_as "Cannot acquire stable per-project keychain lock: " (acquire_exclusive_lock (sc_stable_lock s)) in
  do? _ := io_try_as "Cannot acquire legacy compatibility keychain lock: " (acquire_exclusive_lock (sc_legacy_lock s)) in
  io_ret tt.

(** *** The sidecars of older versions *)

Record SidecarPair := mk_pair { sp_stable : option AnchoredRead; sp_legacy : option AnchoredRead }.

(** [read_sidecar_pair] *)
Definition read_sidecar_pair (stable legacy : anchored_target) : vault_io W SidecarPair :=
  do? s := io_try (read_target stable) in
  do? l := io_try (read_target legacy) in
  io_ret (mk_pair s l).

(** [repair_sidecar_pair] *)
Definition repair_sidecar_pair (stable_target legacy_target : anchored_target) (pair : SidecarPair) : vault_io W unit :=
  do? _ := (if bool_decide (is_Some (sp_stable pair))
            then do? _ := io_try (repair_private_regular stable_target) in io_ret tt else io_ret tt) in
  if bool_decide (is_Some (sp_legacy pair))
  then do? _ := io_try (repair_private_regular legacy_target) in io_ret tt else io_ret tt.

(** [ensure_sidecar_pair_compatible] *)
Definition ensure_sidecar_pair_compatible (label : string) (pair : SidecarPair) : result unit PhantomError :=
  match sp_stable pair, sp_legacy pair with
  | Some stable, Some legacy =>
      fail_if (negb (String.eqb (ar_bytes stable) (ar_bytes legacy)))
        (VaultError ("Stable and legacy keychain " +:+ label +:+ " sidecars diverged; close older Phantom processes, upgrade them to the current release, and retry after reconciling the two value-free sidecar files"))
        (Ok tt)
  | _, _ => Ok tt
  end.

(** [reconcile_sidecar_pair] *)
Definition reconcile_sidecar_pair (label : string) (stable_target legacy_target : anchored_target)
    (pair : SidecarPair) : vault_io W unit :=
  match sp_stable pair, sp_legacy pair with
  | None, Some legacy =>
      do? outcome := io_try (replace_if_exact stable_target None (ar_bytes legacy)) in
      do? published := io_lift (require_durable_sidecar_effect outcome
        ("keychain " +:+ label +:+ " stable sidecar publication; the legacy sidecar was preserved")) in
      fun w =>
        match unlink_if_exact legacy_target legacy w with
        | (w1, Err error) =>
            compensate ("keychain " +:+ label +:+ " sidecar migration") (Io error)
              [do? outcome := io_try (unlink_if_exact stable_target published) in
               io_lift (require_durable_sidecar_effect outcome
                 ("keychain " +:+ label +:+ " stable sidecar rollback; the legacy sidecar remains authoritative"))] w1
        | (w1, Ok outcome) =>
            (w1, require_durable_sidecar_effect outcome ("keychain " +:+ label +:+ " legacy sidecar removal"))
        end
  | Some _, Some legacy =>
      do? outcome := io_try (unlink_if_exact legacy_target legacy) in
      io_lift (require_durable_sidecar_effect outcome
        ("duplicate keychain " +:+ label +:+ " legacy sidecar removal"))
  | _, None => io_ret tt
  end.

(** [KeychainSidecars::reconcile_legacy] *)
Definition reconcile_legacy (s : KeychainSidecars) : vault_io W unit :=
  do? metadata := read_sidecar_pair (sc_metadata s) (sc_legacy_metadata s) in
  do? validation := read_sidecar_pair (sc_validation s) (sc_legacy_validation s) in
  io_fail_if (sc_legacy_name_is_ambiguous s
              && (bool_decide (is_Some (sp_legacy metadata)) || bool_decide (is_Some (sp_legacy validation))))
    (VaultError "Legacy keychain sidecar uses an ambiguous sanitized project identifier; close older Phantom processes, upgrade them to the current release, and manually attribute the value-free sidecar before retrying")
  (do? _ := io_lift (ensure_sidecar_pair_compatible "metadata" metadata) in
   do? _ := io_lift (ensure_sidecar_pair_compatible "validation metadata" validation) in
   do? _ := repair_sidecar_pair (sc_metadata s) (sc_legacy_metadata s) metadata in
   do? _ := repair_sidecar_pair (sc_validation s) (sc_legacy_validation s) validation in
   do? _ := reconcile_sidecar_pair "metadata" (sc_metadata s) (sc_legacy_metadata s) metadata in
   reconcile_sidecar_pair "validation metadata" (sc_validation s) (sc_legacy_validation s) validation).
End keychain.

(** ** The migration of an entry of an older version *)

(** [trait LegacyMigrationBackend] *)
Class LegacyMigrationBackend (W : Type) := {
  read_hashed : vault_io W (option string);
  write_hashed : string → vault_io W unit;
  remove_hashed : vault_io W unit;
  lmb_load_index : vault_io W (list string);
  lmb_save_index : list string → vault_io W unit;
  read_legacy : vault_io W (option string);
  write_legacy : string → vault_io W unit;
  remove_legacy : vault_io W unit;
}.

(** A name added to an index: [push] and [sort] *)
Definition add_to_index (name : string) (index : list string) : list string :=
  if bool_decide (name ∈ index) then index else sort_keys (index ++ [name]).

(** A computation with its error as a value *)
Definition io_attempt {W E T} (m : io W E T) {E'} : io W E' (result T E) := fun w =>
  let '(w1, r) := m w in (w1, Ok r).

Section migrate_legacy.
Context {W : Type} `{F : !AnchoredFs W} `{B : !LegacyMigrationBackend W}.

(** [migrate_legacy_transaction] *)
Definition migrate_legacy_transaction (name : string) : vault_io W string :=
  let failed error results := io_throw (compensated_error "legacy keychain migration" error results) in
  do? hashed := read_hashed in
  match hashed with
  | Some value => io_ret value
  | None =>
      do? legacy := read_legacy in
      do? legacy_value := io_lift (ok_or legacy (SecretNotFound name)) in
      do? before_index := lmb_load_index in
      let after_index := add_to_index name before_index in
      let index_changed := negb (bool_decide (after_index = before_index)) in
      do? wrote := io_attempt (write_hashed legacy_value) in
      match wrote with
      | Err error => do? undone := io_attempt remove_hashed in failed error [undone]
      | Ok _ =>
          do? saved := (if index_changed then io_attempt (lmb_save_index after_index) else io_ret (Ok tt)) in
          match saved with
          | Err error =>
              do? restored := io_attempt (lmb_save_index before_index) in
              match restored with
              | Ok _ => do? undone := io_attempt remove_hashed in failed error [Ok tt; undone]
              | Err restore_error => failed error [Err restore_error]
              end
          | Ok _ =>
              do? removed := io_attempt remove_legacy in
              match removed with
              | Ok _ => io_ret legacy_value
              | Err error =>
                  do? rewritten := io_attempt (write_legacy legacy_value) in
                  match rewritten with
                  | Err restore_error => failed error [Err restore_error]
                  | Ok _ =>
                      do? restored := (if index_changed then
                                         do? r := io_attempt (lmb_save_index before_index) in
                                         io_ret (match r with Ok _ => Ok [Ok tt] | Err e => Err e end)
                                       else io_ret (Ok [])) in
                      match restored with
                      | Err restore_error => failed error [Ok tt; Err restore_error]
                      | Ok results =>
                          do? undone := io_attempt remove_hashed in
                          failed error ([Ok tt] ++ results ++ [undone])
                      end
                  end
              end
          end
      end
  end.
End migrate_legacy.

(** ** The vault *)

Section keychain_vault.
Context {W : Type} `{F : !AnchoredFs W} `{VF : !VaultFs F} `{KF : !KeychainFs F} `{X : External} `{UT : UnicodeTables}.
Context `{KR : !Keyring W} `{C : !Clock W} `{AS : !AuditSink W}.
Context `{JI : !JsonOf (list string)} `{JM : !JsonOf (gmap string SecretMetadata)}.
Context `{JV : !JsonOf (gmap string ValidationMetadata)} `{JL : !JsonOf LinuxBackendMarker}.

Record KeychainVault := mk_keychain {
  kv_project_id : string;
  kv_index_key : string;
  kv_sidecars : KeychainSidecars;
  kv_store : CredentialStore;
}.

Definition load_meta_map (v : KeychainVault) : vault_io W (gmap string SecretMetadata) :=
  load_sidecar_map (sc_metadata (kv_sidecars v)) "metadata".
Definition save_meta_map (v : KeychainVault) (map : gmap string SecretMetadata) : vault_io W unit :=
  save_sidecar_map (sc_metadata (kv_sidecars v)) "metadata" map.
Definition load_validation_meta_map (v : KeychainVault) : vault_io W (gmap string ValidationMetadata) :=
  load_sidecar_map (sc_validation (kv_sidecars v)) "validation".
Definition save_validation_meta_map (v : KeychainVault) (map : gmap string ValidationMetadata) : vault_io W unit :=
  save_sidecar_map (sc_validation (kv_sidecars v)) "validation" map.

Definition hash_name (v : KeychainVault) (name : string) : string := hash_secret_name (kv_project_id v) name.

(** [entry_key] and [legacy_entry_key] *)
Definition hashed_entry_key (v : KeychainVault) (name : string) : string :=
  SERVICE_PREFIX +:+ ":" +:+ kv_project_id v +:+ ":h-" +:+ hash_name v name.
Definition legacy_entry_key (v : KeychainVault) (name : string) : string :=
  SERVICE_PREFIX +:+ ":" +:+ kv_project_id v +:+ ":" +:+ name.

(** [entry_for] *)
Definition entry_for (v : KeychainVault) (name : string) : vault_io W Entry :=
  keyring_try "Keychain error: " (credential_entry (kv_store v) (hashed_entry_key v name) (hash_name v name)).

(** [legacy_entry_for] *)
Definition legacy_entry_for (v : KeychainVault) (name : string) : vault_io W (option Entry) := fun w =>
  match credential_entry (kv_store v) (legacy_entry_key v name) name w with
  | (w1, Ok e) => (w1, Ok (Some e))
  | (w1, Err _) => (w1, Ok None)
  end.

(** [delete_legacy] *)
Definition delete_legacy (v : KeychainVault) (name : string) : vault_io W unit :=
  do? legacy := legacy_entry_for v name in
  match legacy with
  | Some legacy => fun w => let '(w1, _) := delete_credential legacy w in (w1, Ok tt)
  | None => io_ret tt
  end.

(** The entry of the index *)
Definition index_entry (v : KeychainVault) : vault_io W Entry :=
  keyring_try "Keychain error: "
    (credential_entry (kv_store v) (SERVICE_PREFIX +:+ ":" +:+ kv_project_id v) (kv_index_key v)).

(** [load_index] *)
Definition load_index (v : KeychainVault) : vault_io W (list string) :=
  do? entry := index_entry v in fun w =>
    match get_password entry w with
    | (w1, Ok data) =>
        (w1, map_err (fun e => VaultError ("Corrupt keychain index (try `phantom init` to rebuild): " +:+ e))
               (json_read data))
    | (w1, Err NoEntry) => (w1, Ok [])
    | (w1, Err e) => (w1, Err (VaultError ("Failed to read index: " +:+ keyring_error_text e)))
    end.

(** [save_index] *)
Definition save_index (v : KeychainVault) (names : list string) : vault_io W unit :=
  do? entry := index_entry v in
  do? data := io_lift (map_err (fun e => VaultError ("Serialize error: " +:+ e)) (json_write names)) in
  keyring_try "Failed to save index: " (set_password entry data).

(** [KeychainLegacyMigration] *)
Definition keychain_legacy_migration (v : KeychainVault) (hashed legacy : Entry) : LegacyMigrationBackend W := {|
  read_hashed := read_credential hashed "hashed secret";
  write_hashed := fun value => keyring_try "Failed to migrate legacy secret: " (set_password hashed value);
  remove_hashed := remove_credential hashed "migrated hashed secret";
  lmb_load_index := load_index v;
  lmb_save_index := save_index v;
  read_legacy := read_credential legacy "legacy secret";
  write_legacy := fun value => keyring_try "Failed to restore legacy secret: " (set_password legacy value);
  remove_legacy := remove_credential legacy "legacy secret";
|}.

(** The metadata a store leaves: the override, or what is there, or a new
    record *)
Definition stored_metadata (name : string) (metadata_override : option SecretMetadata)
    (before : gmap string SecretMetadata) : vault_io W (gmap string SecretMetadata) :=
  match metadata_override with
  | Some metadata => io_ret (<[name := metadata]> before)
  | None =>
      match before !! name with
      | Some _ => io_ret before
      | None => do? now := read_clock in io_ret (<[name := new_now now]> before)
      end
  end.

(** [store_locked] *)
Definition store_locked (v : KeychainVault) (name value : string) (metadata_override : option SecretMetadata)
    : vault_io W unit :=
  do? entry := entry_for v name in
  do? before_credential := read_credential entry "secret before-image" in
  do? before_index := load_index v in
  do? before_metadata := load_meta_map v in
  do? before_validation := load_validation_meta_map v in
  let after_validation :=
    if bool_decide (before_credential = Some value) then before_validation else delete name before_validation in
  let after_index := add_to_index name before_index in
  do? after_metadata := stored_metadata name metadata_override before_metadata in
  do? _ := keyring_try "Failed to store secret: " (set_password entry value) in
  do? commit := io_attempt
    (do? _ := (if bool_decide (after_index = before_index) then io_ret tt else save_index v after_index) in
     do? _ := (if bool_decide (after_metadata = before_metadata) then io_ret tt else save_meta_map v after_metadata) in
     if bool_decide (after_validation = before_validation) then io_ret tt
     else save_validation_meta_map v after_validation) in
  match commit with
  | Err error =>
      compensate "keychain store" error
        [restore_credential entry before_credential "secret before-image";
         save_index v before_index;
         save_meta_map v before_metadata;
         save_validation_meta_map v before_validation]
  | Ok _ => delete_legacy v name
  end.

(** [current_value_locked] *)
Definition current_value_locked (v : KeychainVault) (name : string) : vault_io W (option string) :=
  do? entry := entry_for v name in
  do? hashed := read_credential entry "secret" in
  match hashed with
  | Some value => io_ret (Some value)
  | None =>
      do? legacy := legacy_entry_for v name in
      match legacy with
      | Some legacy => read_credential legacy "legacy secret"
      | None => io_ret None
      end
  end.

(** [delete_locked] *)
Definition delete_locked (v : KeychainVault) (name : string) : vault_io W unit :=
  do? entry := entry_for v name in
  do? legacy := legacy_entry_for v name in
  do? before_credential := read_credential entry "secret before-image" in
  do? before_legacy := (match legacy with
                        | Some legacy => read_credential legacy "legacy secret before-image"
                        | None => io_ret None
                        end) in
  do? before_index := load_index v in
  do? before_metadata := load_meta_map v in
  do? before_validation := load_validation_meta_map v in
  io_fail_if (bool_decide (before_credential = None) && bool_decide (before_legacy = None)
              && negb (bool_decide (name ∈ before_index)))
    (SecretNotFound name)
  (let after_index := filter (fun indexed => indexed ≠ name) before_index in
   let after_metadata := delete name before_metadata in
   let after_validation := delete name before_validation in
   do? commit := io_attempt
     (do? _ := (if bool_decide (after_metadata = before_metadata) then io_ret tt else save_meta_map v after_metadata) in
      do? _ := (if bool_decide (after_validation = before_validation) then io_ret tt
                else save_validation_meta_map v after_validation) in
      do? _ := (if bool_decide (after_index = before_index) then io_ret tt else save_index v after_index) in
      do? _ := remove_credential entry "secret" in
      match legacy with
      | Some legacy => remove_credential legacy "legacy secret"
      | None => io_ret tt
      end) in
   match commit with
   | Err error =>
       compensate "keychain delete" error
         ([restore_credential entry before_credential "secret before-image";
           save_index v before_index;
           save_meta_map v before_metadata;
           save_validation_meta_map v before_validation]
          ++ (match legacy with
              | Some legacy => [restore_credential legacy before_legacy "legacy secret before-image"]
              | None => []
              end))
   | Ok _ => io_ret tt
   end).
End keychain_vault.

(** ** Which store is authoritative on Linux *)

Inductive LinuxMigrationState := Unmigrated | Incomplete | Persistent.

#[export] Instance LinuxMigrationState_eq_dec : EqDecision LinuxMigrationState.
Proof. solve_decision. Defined.

Inductive KeychainOpenError := Unavailable (e : PhantomError) | Authoritative (e : PhantomError).

(** [KeychainOpenError::into_inner] *)
Definition into_inner (e : KeychainOpenError) : PhantomError :=
  match e with Unavailable e | Authoritative e => e end.

Section markers.
Context `{X : External} `{JL : !JsonOf LinuxBackendMarker}.

(** [linux_marker_for] *)
Definition linux_marker_for (project_id : string) : LinuxBackendMarker :=
  mk_marker LINUX_BACKEND_MARKER_VERSION LINUX_SECRET_SERVICE_BACKEND (project_digest project_id).

(** [validate_linux_backend_marker] *)
Definition validate_linux_backend_marker (bytes project_id : string) : result unit PhantomError :=
  let? marker := map_err (fun error => VaultError
    ("Corrupt Linux vault backend marker; refusing to guess which credential store is authoritative: " +:+ error))
    (json_read bytes) in
  fail_if (negb (bool_decide (marker = linux_marker_for project_id)))
    (VaultError "Linux vault backend marker is unsupported or belongs to another project; refusing to redirect credential access")
    (Ok tt).

(** [classify_local_linux_markers] *)
Definition classify_local_linux_markers (primary corroboration : option string) (project_id : string)
    : result LinuxMigrationState PhantomError :=
  match primary, corroboration with
  | None, None => Ok Unmigrated
  | Some primary, Some corroboration =>
      let? _ := validate_linux_backend_marker primary project_id in
      let? _ := validate_linux_backend_marker corroboration project_id in
      fail_if (negb (String.eqb primary corroboration))
        (VaultError "Linux backend marker records diverge; refusing to guess which local record is authoritative")
        (Ok Persistent)
  | Some marker, None | None, Some marker =>
      let? _ := validate_linux_backend_marker marker project_id in
      Ok Incomplete
  end.

(** [linux_backend_decision] *)
Definition linux_backend_decision (state : LinuxMigrationState) : result bool PhantomError :=
  match state with
  | Unmigrated => Ok false
  | Persistent => Ok true
  | Incomplete => Err (VaultError
      "Linux backend migration records are incomplete. Normal vault access is denied; rerun `phantom vault migrate-linux` from a trusted terminal to resume and verify the migration")
  end.

(** [classify_keychain_probe_error] *)
Definition classify_keychain_probe_error (store : CredentialStore) (error : PhantomError) : KeychainOpenError :=
  match store with LinuxSecretService => Authoritative error | LinuxKeyutils => Unavailable error end.
End markers.

Section selection.
Context {W : Type} `{F : !AnchoredFs W} `{VF : !VaultFs F} `{KF : !KeychainFs F} `{X : External} `{UT : UnicodeTables}.
Context `{KR : !Keyring W} `{C : !Clock W} `{AS : !AuditSink W}.
Context `{JI : !JsonOf (list string)} `{JM : !JsonOf (gmap string SecretMetadata)}.
Context `{JV : !JsonOf (gmap string ValidationMetadata)} `{JL : !JsonOf LinuxBackendMarker}.

(** [linux_migration_sentinel_entry] *)
Definition linux_migration_sentinel_entry (project_id : string) (store : CredentialStore) : vault_io W Entry :=
  keyring_try "Linux migration sentinel error: "
    (credential_entry store (SERVICE_PREFIX +:+ ":" +:+ project_id)
       (SERVICE_PREFIX +:+ ":" +:+ project_id +:+ ":" +:+ LINUX_MIGRATION_SENTINEL_SUFFIX)).

(** [linux_migration_state] *)
Definition linux_migration_state (s : KeychainSidecars) (project_id : string) : vault_io W LinuxMigrationState :=
  do? primary := io_try (read_target (sc_linux_backend s)) in
  do? corroboration := io_try (read_target (sc_linux_backend_corroboration s)) in
  do? local_state := io_lift (classify_local_linux_markers (option_map ar_bytes primary)
                                (option_map ar_bytes corroboration) project_id) in
  match local_state with
  | Persistent =>
      do? _ := io_try (repair_private_regular (sc_linux_backend s)) in
      do? _ := io_try (repair_private_regular (sc_linux_backend_corroboration s)) in
      do? durable_sentinel := linux_migration_sentinel_entry project_id LinuxSecretService in
      do? durable := read_credential durable_sentinel "durable Linux migration sentinel" in
      do? durable := io_lift (ok_or durable (VaultError
        "Linux backend markers exist without their durable Secret Service corroboration sentinel; refusing credential access")) in
      do? _ := io_lift (validate_linux_backend_marker durable project_id) in
      io_ret Persistent
  | Incomplete => io_ret Incomplete
  | Unmigrated =>
      do? sentinel := linux_migration_sentinel_entry project_id LinuxKeyutils in
      do? bytes := read_credential sentinel "Linux migration sentinel" in
      match bytes with
      | None => io_ret Unmigrated
      | Some bytes =>
          do? _ := io_lift (validate_linux_backend_marker bytes project_id) in
          io_ret Incomplete
      end
  end.

(** [durable_linux_migration_sentinel_exists] *)
Definition durable_linux_migration_sentinel_exists (project_id : string) : vault_io W bool :=
  do? sentinel := linux_migration_sentinel_entry project_id LinuxSecretService in
  do? bytes := read_credential sentinel "durable Linux migration sentinel" in
  match bytes with
  | None => io_ret false
  | Some bytes => do? _ := io_lift (validate_linux_backend_marker bytes project_id) in io_ret true
  end.

(** [linux_store_from_marker] *)
Definition linux_store_from_marker (s : KeychainSidecars) (project_id : string) : vault_io W CredentialStore :=
  do? state := linux_migration_state s project_id in
  do? migrated := io_lift (linux_backend_decision state) in
  io_ret (if migrated then LinuxSecretService else LinuxKeyutils).

(** [KeychainVault::lock_sidecars] *)
Definition lock_sidecars (v : KeychainVault) : vault_io W unit :=
  do? _ := acquire_project_lock (kv_sidecars v) in
  do? _ := reconcile_legacy (kv_sidecars v) in
  do? store := linux_store_from_marker (kv_sidecars v) (kv_project_id v) in
  io_fail_if (negb (bool_decide (store = kv_store v)))
    (VaultError "Linux vault backend changed while this process was running; restart the Phantom command before accessing credentials")
    (io_ret tt).

(** [explicit_linux_vault] *)
Definition explicit_linux_vault (project_id : string) (s : KeychainSidecars) (store : CredentialStore)
    : KeychainVault :=
  mk_keychain project_id (SERVICE_PREFIX +:+ ":" +:+ project_id +:+ ":__index__") s store.

Definition io_open_error {T} (f : PhantomError → KeychainOpenError) (m : vault_io W T) : io W KeychainOpenError T :=
  fun w => let '(w1, r) := m w in (w1, map_err f r).

(** [KeychainVault::new_with_project_lock] *)
Definition new_with_project_lock (open_sidecars : vault_io W KeychainSidecars) (project_id : string)
    : io W KeychainOpenError KeychainVault :=
  do? sidecars := io_open_error Authoritative open_sidecars in
  do? _ := io_open_error Authoritative (reconcile_legacy sidecars) in
  do? store := io_open_error Authoritative (linux_store_from_marker sidecars project_id) in
  do? test_entry := io_open_error (classify_keychain_probe_error store)
    (keyring_try "Keychain not available: " (credential_entry store SERVICE_PREFIX "__phantom_test__")) in
  do? _ := (fun w =>
    match get_password test_entry w with
    | (w1, Ok _) | (w1, Err NoEntry) => (w1, Ok tt)
    | (w1, Err e) => (w1, Err (classify_keychain_probe_error store
                                 (VaultError ("Keychain not accessible: " +:+ keyring_error_text e))))
    end) in
  io_ret (explicit_linux_vault project_id sidecars store).

(** [KeychainVault::new] *)
Definition new_keychain_vault (open_sidecars : vault_io W KeychainSidecars) (project_id : string)
    : vault_io W KeychainVault :=
  do? locked := open_sidecars in
  do? _ := acquire_project_lock locked in
  fun w => let '(w1, r) := new_with_project_lock open_sidecars project_id w in (w1, map_err into_inner r).

(** ** The migration to Secret Service *)

Record LinuxMigrationPreview := mk_preview {
  lp_source_secret_count : nat;
  lp_source_state_id : string;
  lp_already_persistent : bool;
  lp_indexed_names : list string;
}.

Record LinuxMigrationReceipt := mk_migration_receipt {
  lr_migrated_secret_count : nat;
  lr_source_state_id : string;
  lr_already_persistent : bool;
}.

(** [migration_state_id] *)
Definition migration_state_id (names : list string) : result string PhantomError :=
  let? bytes := map_err (fun e => VaultError ("Serialize index error: " +:+ e)) (json_write names) in
  Ok (sha256_hex bytes).

(** [preview_linux_persistent_migration] *)
Definition preview_linux_persistent_migration (open_sidecars : vault_io W KeychainSidecars) (project_id : string)
    : vault_io W LinuxMigrationPreview :=
  do? sidecars := open_sidecars in
  do? _ := acquire_project_lock sidecars in
  do? _ := reconcile_legacy sidecars in
  do? state := linux_migration_state sidecars project_id in
  let already_persistent := bool_decide (state = Persistent) in
  do? destination_prepared := (if already_persistent then io_ret false
                               else durable_linux_migration_sentinel_exists project_id) in
  let source := explicit_linux_vault project_id sidecars
    (if already_persistent || destination_prepared then LinuxSecretService else LinuxKeyutils) in
  do? names := load_index source in
  do? id := io_lift (migration_state_id names) in
  io_ret (mk_preview (length names) id already_persistent names).

(** [reconcile_destination] *)
Definition reconcile_destination (source label : string) (read : vault_io W (option string))
    (write : string → vault_io W unit) : vault_io W unit :=
  do? existing := read in
  match existing with
  | Some existing =>
      io_fail_if (negb (String.eqb existing source))
        (VaultError ("Persistent " +:+ label +:+ " conflicts with the keyutils source; refusing to overwrite either copy"))
        (io_ret tt)
  | None =>
      do? _ := write source in
      do? verified := read in
      io_fail_if (negb (bool_decide (verified = Some source)))
        (VaultError ("Persistent " +:+ label +:+ " did not return the exact source bytes after writing; backend marker was not committed"))
        (io_ret tt)
  end.

(** [reconcile_destination_entry] *)
Definition reconcile_destination_entry (destination : Entry) (source label : string) : vault_io W unit :=
  reconcile_destination source label (read_credential destination label)
    (fun value => keyring_try ("Failed to write persistent " +:+ label +:+ ": ") (set_password destination value)).

(** [publish_linux_marker] *)
Definition publish_linux_marker (target : anchored_target) (marker label : string) : vault_io W unit :=
  do? existing := io_try (read_target target) in
  match existing with
  | Some existing =>
      if String.eqb (ar_bytes existing) marker then
        do? _ := io_try (repair_private_regular target) in io_ret tt
      else io_throw (VaultError ("Existing " +:+ label +:+ " conflicts with the reviewed migration marker; refusing to overwrite it"))
  | None =>
      do? outcome := io_try (replace_if_exact target None marker) in
      do? _ := io_lift (require_durable_sidecar_effect outcome (label +:+ " publication")) in
      io_ret tt
  end.

Definition secret_service_unavailable : string :=
  "Secret Service is unavailable; migration stopped before backend selection changed: ".

(** The loop over the names of the source *)
Fixpoint copy_secrets (source : KeychainVault) (names : list string) : vault_io W unit :=
  match names with
  | [] => io_ret tt
  | name :: rest =>
      do? value := current_value_locked source name in
      do? source_value := io_lift (ok_or value (VaultError
        ("Linux keyutils index references a missing secret (" +:+ name +:+ "); no backend marker was committed"))) in
      do? destination := keyring_try secret_service_unavailable
        (credential_entry LinuxSecretService (hashed_entry_key source name) (hash_name source name)) in
      do? _ := reconcile_destination_entry destination source_value "secret" in
      copy_secrets source rest
  end.

(** The loop over the names that were prepared *)
Fixpoint check_prepared (persistent : KeychainVault) (names : list string) : vault_io W unit :=
  match names with
  | [] => io_ret tt
  | name :: rest =>
      do? value := current_value_locked persistent name in
      do? _ := io_lift (ok_or value (VaultError
        ("Prepared Secret Service index references a missing secret (" +:+ name +:+ "); no backend marker was committed"))) in
      check_prepared persistent rest
  end.

Definition marker_bytes (project_id : string) : result string PhantomError :=
  map_err (fun e => VaultError ("Serialize Linux backend marker error: " +:+ e)) (json_write (linux_marker_for project_id)).

(** [migrate_linux_to_secret_service]; the marker is JSON text, so reading it
    as UTF-8 succeeds. *)
Definition migrate_linux_to_secret_service (open_sidecars : vault_io W KeychainSidecars)
    (project_id expected_source_state_id : string) : vault_io W LinuxMigrationReceipt :=
  do? sidecars := open_sidecars in
  do? _ := acquire_project_lock sidecars in
  do? _ := reconcile_legacy sidecars in
  do? state := linux_migration_state sidecars project_id in
  let persistent := explicit_linux_vault project_id sidecars LinuxSecretService in
  if bool_decide (state = Persistent) then
    do? names := load_index persistent in
    do? id := io_lift (migration_state_id names) in
    io_ret (mk_migration_receipt (length names) id true)
  else
    do? prepared := durable_linux_migration_sentinel_exists project_id in
    if (prepared : bool) then
      do? names := load_index persistent in
      do? id := io_lift (migration_state_id names) in
      io_fail_if (negb (String.eqb id expected_source_state_id))
        (VaultError "Prepared Secret Service index changed after review; no backend marker was committed")
      (do? _ := check_prepared persistent names in
       do? marker := io_lift (marker_bytes project_id) in
       do? _ := publish_linux_marker (sc_linux_backend_corroboration sidecars) marker
                  "Linux Secret Service config corroboration marker" in
       do? _ := publish_linux_marker (sc_linux_backend sidecars) marker
                  "Linux Secret Service backend marker recovery" in
       io_ret (mk_migration_receipt (length names) id false))
    else
      let source := explicit_linux_vault project_id sidecars LinuxKeyutils in
      do? names := load_index source in
      do? id := io_lift (migration_state_id names) in
      io_fail_if (negb (String.eqb id expected_source_state_id))
        (VaultError "Linux keyutils index changed after review; no backend marker was committed. Review and confirm a fresh migration plan")
      (io_fail_if (negb (length (btree_collect names) =? length names)%nat)
         (VaultError "Linux keyutils index contains duplicate names; refusing ambiguous migration")
       (do? _ := copy_secrets source names in
        do? index_json := io_lift (map_err (fun e => VaultError ("Serialize index error: " +:+ e)) (json_write names)) in
        do? destination_index := keyring_try secret_service_unavailable
          (credential_entry LinuxSecretService (SERVICE_PREFIX +:+ ":" +:+ project_id) (kv_index_key source)) in
        do? _ := reconcile_destination_entry destination_index index_json "secret index" in
        do? marker := io_lift (marker_bytes project_id) in
        do? _ := publish_linux_marker (sc_linux_backend_corroboration sidecars) marker
                   "Linux Secret Service config corroboration marker" in
        do? durable_sentinel := linux_migration_sentinel_entry project_id LinuxSecretService in
        do? _ := reconcile_destination_entry durable_sentinel marker "durable Linux migration sentinel" in
        do? sentinel := linux_migration_sentinel_entry project_id LinuxKeyutils in
        do? _ := reconcile_destination_entry sentinel marker "Linux migration sentinel" in
        do? _ := publish_linux_marker (sc_linux_backend sidecars) marker "Linux Secret Service backend marker" in
        io_ret (mk_migration_receipt (length names) id false))).
End selection.

(** ** [impl VaultBackend for KeychainVault] *)

Section backend.
Context {W : Type} `{F : !AnchoredFs W} `{VF : !VaultFs F} `{KF : !KeychainFs F} `{X : External} `{UT : UnicodeTables}.
Context `{KR : !Keyring W} `{C : !Clock W} `{AS : !AuditSink W}.
Context `{JI : !JsonOf (list string)} `{JM : !JsonOf (gmap string SecretMetadata)}.
Context `{JV : !JsonOf (gmap string ValidationMetadata)} `{JL : !JsonOf LinuxBackendMarker}.
Context (v : KeychainVault).

(** [store] *)
Definition kc_store (name value : string) : vault_io W unit :=
  do? _ := lock_sidecars v in
  do? _ := store_locked v name value None in
  audit "vault.store" name.

(** [retrieve] *)
Definition kc_retrieve (name : string) : vault_io W string :=
  do? _ := lock_sidecars v in
  do? entry := entry_for v name in fun w =>
    match get_password entry w with
    | (w1, Ok value) => (do? _ := audit "vault.retrieve" name in io_ret value) w1
    | (w1, Err NoEntry) =>
        (do? legacy := legacy_entry_for v name in
         do? legacy := io_lift (ok_or legacy (SecretNotFound name)) in
         do? value := migrate_legacy_transaction (B := keychain_legacy_migration v entry legacy) name in
         do? _ := audit "vault.retrieve" name in
         io_ret value) w1
    | (w1, Err e) => (w1, Err (VaultError ("Failed to retrieve secret: " +:+ keyring_error_text e)))
    end.

(** [retrieve_for_injection] *)
Definition kc_retrieve_for_injection (name : string) : vault_io W string :=
  do? _ := lock_sidecars v in
  do? metadata := load_meta_map v in
  do? _ := io_lift (ensure_secret_injectable name (metadata !! name)) in
  do? value := current_value_locked v name in
  do? value := io_lift (ok_or value (SecretNotFound name)) in
  do? _ := audit "vault.retrieve_for_injection" name in
  io_ret value.

(** [delete] *)
Definition kc_delete (name : string) : vault_io W unit :=
  do? _ := lock_sidecars v in
  do? _ := delete_locked v name in
  audit "vault.delete" name.

(** [compare_and_swap] *)
Definition kc_compare_and_swap (name : string) (expected replacement : option string) : vault_io W bool :=
  do? _ := lock_sidecars v in
  do? current := current_value_locked v name in
  if negb (bool_decide (current = expected)) then io_ret false
  else if bool_decide (replacement = expected) then io_ret true
  else
    do? _ := (match replacement with
              | Some value => store_locked v name value None
              | None => delete_locked v name
              end) in
    do? _ := audit "vault.compare_and_swap" name in
    io_ret true.

(** [list] *)
Definition kc_list : vault_io W (list string) := do? _ := lock_sidecars v in load_index v.

(** [exists] has the body of the trait. *)
Definition kc_exists (name : string) : vault_io W bool :=
  do? names := kc_list in io_ret (bool_decide (name ∈ names)).

(** [get_metadata] *)
Definition kc_get_metadata (name : string) : vault_io W (option SecretMetadata) :=
  do? _ := lock_sidecars v in
  do? map := load_meta_map v in
  io_ret (map !! name).

(** [set_metadata] *)
Definition kc_set_metadata (name : string) (meta : SecretMetadata) : vault_io W unit :=
  do? _ := lock_sidecars v in
  do? index := load_index v in
  io_fail_if (negb (bool_decide (name ∈ index))) (SecretNotFound name)
  (do? map := load_meta_map v in
   save_meta_map v (<[name := meta]> map)).

(** The checks and changes of both batches *)
Fixpoint check_changes {A M} `{EqDecision M} (name_of : A → string) (expected : A → option M)
    (what : string) (index seen : list string) (changes : list A) (map : gmap string M) : result bool PhantomError :=
  match changes with
  | [] => Ok true
  | change :: rest =>
      fail_if (bool_decide (name_of change ∈ seen))
        (VaultError (what +:+ " CAS batch contains a duplicate secret name"))
      (fail_if (negb (bool_decide (name_of change ∈ index))) (SecretNotFound (name_of change))
       (if bool_decide (map !! name_of change = expected change)
        then check_changes name_of expected what index (name_of change :: seen) rest map
        else Ok false))
  end.

Definition apply_changes {A M} (name_of : A → string) (replacement : A → option M)
    (changes : list A) (map : gmap string M) : gmap string M :=
  fold_left (fun map change =>
    match replacement change with
    | Some m => <[name_of change := m]> map
    | None => delete (name_of change) map
    end) changes map.

(** What both batch methods do: [compare_and_swap_metadata_batch] and
    [compare_and_swap_validation_metadata_batch] *)
Definition cas_batch {A M} `{EqDecision M} `{!JsonOf (gmap string M)} (target : anchored_target) (what : string)
    (name_of : A → string) (expected replacement : A → option M) (changes : list A) : vault_io W bool :=
  do? _ := lock_sidecars v in
  do? index := load_index v in
  do? loaded := load_sidecar_snapshot target what in
  let '(map, before) := loaded in
  do? matches := io_lift (check_changes name_of expected what index [] changes map) in
  if negb (matches : bool) then io_ret false
  else
    do? _ := (if is_nil changes then io_ret tt
              else save_sidecar_map_if_unchanged target what before
                     (apply_changes name_of replacement changes map)) in
    io_ret true.

Definition kc_metadata_batch (changes : list MetadataCas) : vault_io W bool :=
  cas_batch (sc_metadata (kv_sidecars v)) "metadata" mc_name mc_expected mc_replacement changes.

Definition kc_validation_batch (changes : list ValidationMetadataCas) : vault_io W bool :=
  cas_batch (sc_validation (kv_sidecars v)) "validation metadata" vc_name vc_expected vc_replacement changes.

(** [list_with_metadata] *)
Definition kc_list_with_metadata : vault_io W (list (string * option SecretMetadata)) :=
  do? _ := lock_sidecars v in
  do? names := load_index v in
  do? metadata := load_meta_map v in
  io_ret (map (fun name => (name, metadata !! name)) names).

(** [store_with_expiry] *)
Definition kc_store_with_expiry (name value : string) (days_ttl : N) : vault_io W unit :=
  do? _ := lock_sidecars v in
  do? now := read_clock in
  do? _ := store_locked v name value (Some (with_expiry now days_ttl)) in
  audit "vault.store" name.

(** [get_validation_metadata], [get_validation_metadata_exact] and
    [set_validation_metadata] *)
Definition kc_get_validation_exact (name : string) : vault_io W (option ValidationMetadata) :=
  do? _ := lock_sidecars v in
  do? map := load_validation_meta_map v in
  io_ret (map !! name).
Definition kc_get_validation (name : string) : vault_io W ValidationMetadata :=
  do? _ := lock_sidecars v in
  do? map := load_validation_meta_map v in
  io_ret (default default_validation (map !! name)).
Definition kc_set_validation (name : string) (meta : ValidationMetadata) : vault_io W unit :=
  do? _ := lock_sidecars v in
  do? index := load_index v in
  io_fail_if (negb (bool_decide (name ∈ index))) (SecretNotFound name)
  (do? map := load_validation_meta_map v in
   save_validation_meta_map v (<[name := meta]> map)).

Definition keychain_vault : VaultBackend W := {|
  store := kc_store;
  retrieve := kc_retrieve;
  retrieve_for_injection := kc_retrieve_for_injection;
  delete_secret := kc_delete;
  compare_and_swap := kc_compare_and_swap;
  list_names := kc_list;
  exists_name := kc_exists;
  get_metadata := kc_get_metadata;
  set_metadata := kc_set_metadata;
  compare_and_swap_metadata_batch := kc_metadata_batch;
  list_with_metadata := kc_list_with_metadata;
  store_with_expiry := kc_store_with_expiry;
  get_validation_metadata := kc_get_validation;
  set_validation_metadata := kc_set_validation;
  get_validation_metadata_exact := kc_get_validation_exact;
  compare_and_swap_validation_metadata_batch := kc_validation_batch;
|}.

(** [backend_name] *)
Definition backend_name_for_store (store : CredentialStore) : string :=
  match store with
  | LinuxKeyutils => "linux-keyutils (volatile across reboot)"
  | LinuxSecretService => "linux-secret-service (persistent)"
  end.
End backend.
