(* ===== verification/KeychainSpec.v ===== *)
(** * What the keychain vault promises

    Every write of the keychain vault either did all it says, or left the
    vault as it was, or says that the rollback was incomplete, but for a store
    whose credential write reports a failure after it took effect
    ([keychain_writes_atomic]); whatever fails, migrating an entry
    of an older version never loses its value ([legacy_migration_lossless]),
    and reads change nothing. *)

From S2P Require Import Prelude Text Ids External Canonical StateDir Rotation VaultMeta VaultData AnchoredFs FileVault FileVaultSpec Keychain.

(** Computations that change nothing *)
Create HintDb quiet.

(** ** What is relied on *)

(** [ring'] is [ring] but for one entry. *)
Definition but_entry (e : Entry) (x : option string) (ring ring' : Entry → option string) : Prop :=
  ring' e = x ∧ ∀ e', e' ≠ e → ring' e' = ring e'.

(** A credential store is a map of entries.  An operation that fails may
    still have taken effect. *)
Class KeyringLaws {W} (KR : Keyring W) (ring : W → Entry → option string) (tview : W → tree) : Prop := {
  (** an entry whose credential cannot be made holds nothing *)
  new_credential_law : ∀ e w w' r, new_credential e w = (w', r) →
    ring w' = ring w ∧ tview w' = tview w ∧ (∀ x, r = Err x → ring w e = None);
  get_password_law : ∀ e w w' r, get_password e w = (w', r) →
    ring w' = ring w ∧ tview w' = tview w ∧
    match r with
    | Ok x => ring w e = Some x
    | Err NoEntry => ring w e = None
    | Err _ => True
    end;
  set_password_law : ∀ e x w w' r, set_password e x w = (w', r) →
    tview w' = tview w ∧
    ∃ y, but_entry e y (ring w) (ring w') ∧ (y = ring w e ∨ y = Some x) ∧ (∀ u, r = Ok u → y = Some x);
  delete_credential_law : ∀ e w w' r, delete_credential e w = (w', r) →
    tview w' = tview w ∧
    ∃ y, but_entry e y (ring w) (ring w') ∧ (y = ring w e ∨ y = None) ∧
      (∀ u, r = Ok u → y = None) ∧ (r = Err NoEntry → ring w e = None);
}.

(** Of the further file operations: a lock is a file of its own; missing
    parents of a target are created as directories. *)
Class KeychainFsLaws {W} {F : AnchoredFs W} (KF : KeychainFs F) (tview : W → tree) {V} (others : W → V)
    (FL : AnchoredFsLaws F tview others) : Prop := {
  acquire_exclusive_lock_law : ∀ t w w' r, acquire_exclusive_lock t w = (w', r) →
    others w' = others w ∧ ∃ x, but_file (target_path t) x (tview w) (tview w');
  target_with_private_parents_law : ∀ a p w w' r, target_with_private_parents a p w = (w', r) →
    others w' = others w ∧ (∀ q, file_at (tview w') q = file_at (tview w) q);
}.

(** What is written is read back. *)
Class JsonLaws (T : Type) `{JsonOf T} : Prop :=
  json_round_trip : ∀ (x : T) s, json_write x = Ok s → json_read s = Ok x.

(** The clock and the audit log are neither credentials nor files. *)
Class KeychainEnvLaws {W} `{AS : AuditSink W} `{C : Clock W} (ring : W → Entry → option string)
    (tview : W → tree) : Prop := {
  kc_audit_law : ∀ e n w, ring (audit_log e n w) = ring w ∧ tview (audit_log e n w) = tview w;
  kc_clock_law : ∀ w w' t, now_secs w = (w', t) → ring w' = ring w ∧ tview w' = tview w;
}.

(** ** The parts of a vault that an entry consists of *)

(** The two credentials of a name, the index, and the sidecar files, as they
    are stored *)
Record kstate := mk_kstate {
  ks_hashed : option string;
  ks_legacy : option string;
  ks_index : option string;
  ks_metadata : option string;
  ks_validation : option string;
  ks_legacy_metadata : option string;
  ks_legacy_validation : option string;
}.

Definition set_hashed x s := mk_kstate x (ks_legacy s) (ks_index s) (ks_metadata s) (ks_validation s)
  (ks_legacy_metadata s) (ks_legacy_validation s).
Definition set_legacy x s := mk_kstate (ks_hashed s) x (ks_index s) (ks_metadata s) (ks_validation s)
  (ks_legacy_metadata s) (ks_legacy_validation s).
Definition set_index x s := mk_kstate (ks_hashed s) (ks_legacy s) x (ks_metadata s) (ks_validation s)
  (ks_legacy_metadata s) (ks_legacy_validation s).
Definition set_metadata_file x s := mk_kstate (ks_hashed s) (ks_legacy s) (ks_index s) x (ks_validation s)
  (ks_legacy_metadata s) (ks_legacy_validation s).
Definition set_validation_file x s := mk_kstate (ks_hashed s) (ks_legacy s) (ks_index s) (ks_metadata s) x
  (ks_legacy_metadata s) (ks_legacy_validation s).

Definition set_legacy_metadata_file x s := mk_kstate (ks_hashed s) (ks_legacy s) (ks_index s) (ks_metadata s)
  (ks_validation s) x (ks_legacy_validation s).
Definition set_legacy_validation_file x s := mk_kstate (ks_hashed s) (ks_legacy s) (ks_index s) (ks_metadata s)
  (ks_validation s) (ks_legacy_metadata s) x.

(** What a stored text means: nothing stored is [empty], an unreadable text
    has no meaning. *)
Definition meaning {T} `{JsonOf T} (empty : T) (o : option string) : option T :=
  match o with
  | None => Some empty
  | Some s => match json_read s with Ok x => Some x | Err _ => None end
  end.

Section view.
Context `{JI : !JsonOf (list string)} `{JM : !JsonOf (gmap string SecretMetadata)}.
Context `{JV : !JsonOf (gmap string ValidationMetadata)}.

(** The value of the name, as it is retrieved *)
Definition ks_value (s : kstate) : option string :=
  match ks_hashed s with Some x => Some x | None => ks_legacy s end.
Definition ks_names (s : kstate) : option (list string) := meaning [] (ks_index s).
(** A sidecar of an older version counts until it is moved. *)
Definition ks_metas (s : kstate) : option (gmap string SecretMetadata) :=
  meaning ∅ (match ks_metadata s with Some b => Some b | None => ks_legacy_metadata s end).
Definition ks_verdicts (s : kstate) : option (gmap string ValidationMetadata) :=
  meaning ∅ (match ks_validation s with Some b => Some b | None => ks_legacy_validation s end).

(** The vault, seen through one name *)
Definition entry_view (s : kstate) :=
  (ks_value s, ks_names s, ks_metas s, ks_verdicts s).
End view.

Section spec.
Context {W : Type} `{F : !AnchoredFs W} `{VF : !VaultFs F} `{KF : !KeychainFs F} `{X : External} `{UT : UnicodeTables}.
Context `{KR : !Keyring W} `{C : !Clock W} `{AS : !AuditSink W}.
Context `{JI : !JsonOf (list string)} `{JM : !JsonOf (gmap string SecretMetadata)}.
Context `{JV : !JsonOf (gmap string ValidationMetadata)} `{JL : !JsonOf LinuxBackendMarker}.
Context (ring : W → Entry → option string) (tview : W → tree).
Context `{FL : !AnchoredFsLaws F tview ring} `{VFL : !VaultFsLaws VF tview ring FL}.
Context `{KFL : !KeychainFsLaws KF tview ring FL} `{KRL : !KeyringLaws KR ring tview}.
Context `{EL : !KeychainEnvLaws ring tview} `{XL : !ExternalLaws X}.
Context `{JIL : !JsonLaws (list string)} `{JML : !JsonLaws (gmap string SecretMetadata)}.
Context `{JVL : !JsonLaws (gmap string ValidationMetadata)}.
Context (v : KeychainVault).

(** The files of the vault are different files. *)
Definition sidecar_paths : list (list string) :=
  map target_path
    [sc_metadata (kv_sidecars v); sc_validation (kv_sidecars v); sc_legacy_metadata (kv_sidecars v);
     sc_legacy_validation (kv_sidecars v); sc_stable_lock (kv_sidecars v); sc_legacy_lock (kv_sidecars v);
     sc_linux_backend (kv_sidecars v); sc_linux_backend_corroboration (kv_sidecars v)].
Context (Hpaths : NoDup sidecar_paths).

Definition hashed_entry (n : string) : Entry := mk_entry (kv_store v) (hashed_entry_key v n) (hash_name v n).
Definition legacy_entry (n : string) : Entry := mk_entry (kv_store v) (legacy_entry_key v n) n.
Definition names_entry : Entry :=
  mk_entry (kv_store v) (SERVICE_PREFIX +:+ ":" +:+ kv_project_id v) (kv_index_key v).

Definition bytes_at (w : W) (t : anchored_target) : option string :=
  option_map ar_bytes (file_at (tview w) (target_path t)).

Definition kstate_of (n : string) (w : W) : kstate :=
  mk_kstate (ring w (hashed_entry n)) (ring w (legacy_entry n)) (ring w names_entry)
    (bytes_at w (sc_metadata (kv_sidecars v))) (bytes_at w (sc_validation (kv_sidecars v)))
    (bytes_at w (sc_legacy_metadata (kv_sidecars v))) (bytes_at w (sc_legacy_validation (kv_sidecars v))).

(** Everything but the parts of one name: the other credentials, and the
    files that are none of the vault's *)
Definition elsewhere (n : string) (w w' : W) : Prop :=
  (∀ e, e ≠ hashed_entry n → e ≠ legacy_entry n → e ≠ names_entry → ring w' e = ring w e) ∧
  (∀ p, p ∉ sidecar_paths → file_at (tview w') p = file_at (tview w) p).

Lemma elsewhere_refl n w : elsewhere n w w.
Proof. done. Qed.

Lemma elsewhere_trans n w1 w2 w3 : elsewhere n w1 w2 → elsewhere n w2 w3 → elsewhere n w1 w3.
Proof.
  intros [A1 B1] [A2 B2]. split.
  - intros e E1 E2 E3. by rewrite A2, A1.
  - intros p Hp. by rewrite B2, B1.
Qed.

(** ** The three entries differ *)

Lemma hash_name_length n : String.length (hash_name v n) = 16%nat.
Proof.
  unfold hash_name, hash_secret_name. rewrite hex_encode_length, str_take_length; [done|]. rewrite sha256_length. lia.
Qed.

Lemma app_length_ne (a b c : string) : String.length b ≠ String.length c → a +:+ b ≠ a +:+ c.
Proof. intros H E. apply str_app_inj_l in E. congruence. Qed.

Lemma hashed_ne_legacy n m : hashed_entry n ≠ legacy_entry m.
Proof.
  unfold hashed_entry, legacy_entry, hashed_entry_key, legacy_entry_key. intros E.
  apply (f_equal (fun e => (en_service e, en_account e))) in E. cbn [en_service en_account] in E.
  apply pair_equal_spec in E as [E1 E2]. do 3 apply str_app_inj_l in E1.
  change (":h-" +:+ hash_name v n = ":" +:+ m) in E1. apply (f_equal String.length) in E1, E2.
  rewrite !str_length_app in E1. cbn [String.length] in E1. lia.
Qed.

Lemma names_ne_hashed n : names_entry ≠ hashed_entry n.
Proof.
  intros E. apply (f_equal en_service) in E. unfold names_entry, hashed_entry, hashed_entry_key in E. cbn [en_service] in E.
  apply (f_equal String.length) in E. rewrite !str_length_app in E. cbn [String.length] in E. lia.
Qed.

Lemma names_ne_legacy n : names_entry ≠ legacy_entry n.
Proof.
  intros E. apply (f_equal en_service) in E. unfold names_entry, legacy_entry, legacy_entry_key in E. cbn [en_service] in E.
  apply (f_equal String.length) in E. rewrite !str_length_app in E. cbn [String.length] in E. lia.
Qed.

(** ** A calculus for computations on the parts of a name *)

Definition spec {E T} (n : string) (m : io W E T) (s : kstate) (Q : kstate → result T E → Prop) : Prop :=
  ∀ w w' r, kstate_of n w = s → m w = (w', r) → elsewhere n w w' ∧ Q (kstate_of n w') r.

Lemma spec_conseq {E T} n (m : io W E T) s (P Q : kstate → result T E → Prop) :
  spec n m s P → (∀ s' r, P s' r → Q s' r) → spec n m s Q.
Proof. intros H HPQ w w' r Hs Hm. destruct (H w w' r Hs Hm). auto. Qed.

Lemma spec_bind {E T U} n (m : io W E T) (k : T → io W E U) s Q :
  spec n m s (fun s' r => match r with Ok x => spec n (k x) s' Q | Err e => Q s' (Err e) end) →
  spec n (io_bind m k) s Q.
Proof.
  intros H w w' r Hs Hm. unfold io_bind in Hm. destruct (m w) as [w1 [x|e]] eqn:E1; destruct (H _ _ _ Hs E1) as [He HQ].
  - destruct (HQ _ _ _ eq_refl Hm) as [He' HQ']. split; [by eapply elsewhere_trans|done].
  - injection Hm as <- <-. done.
Qed.

Lemma spec_ret {E T} n (x : T) s (Q : kstate → result T E → Prop) : Q s (Ok x) → spec n (io_ret x) s Q.
Proof. intros HQ w w' r <- [= <- <-]. done. Qed.

Lemma spec_throw {E T} n (e : E) s (Q : kstate → result T E → Prop) : Q s (Err e) → spec n (io_throw e) s Q.
Proof. intros HQ w w' r <- [= <- <-]. done. Qed.

Lemma spec_lift {E T} n (x : result T E) s (Q : kstate → result T E → Prop) : Q s x → spec n (io_lift x) s Q.
Proof. intros HQ w w' r <- [= <- <-]. done. Qed.

Lemma spec_fail_if {E T} n b (e : E) (k : io W E T) s Q :
  (b = true → Q s (Err e)) → (b = false → spec n k s Q) → spec n (io_fail_if b e k) s Q.
Proof. destruct b; intros H1 H2; [by apply spec_throw, H1|by apply H2]. Qed.

Lemma spec_attempt {E E' T} n (m : io W E T) s (Q : kstate → result (result T E) E' → Prop) :
  spec n m s (fun s' r => Q s' (Ok r)) → spec n (io_attempt m) s Q.
Proof.
  intros H w w' r Hs Hm. unfold io_attempt in Hm. destruct (m w) as [w1 r1] eqn:E1. injection Hm as <- <-.
  by apply (H _ _ _ Hs).
Qed.

Lemma spec_keyring_try {T} n text (m : io W KeyringError T) s (Q : kstate → result T PhantomError → Prop) :
  spec n m s (fun s' r => Q s' (map_err (fun e => VaultError (text +:+ keyring_error_text e)) r)) →
  spec n (keyring_try text m) s Q.
Proof.
  intros H w w' r Hs Hm. unfold keyring_try in Hm. destruct (m w) as [w1 r1] eqn:E1. injection Hm as <- <-.
  by apply (H _ _ _ Hs).
Qed.

Lemma spec_io_try {T} n (m : io W ErrorKind T) s (Q : kstate → result T PhantomError → Prop) :
  spec n m s (fun s' r => Q s' (map_err Io r)) → spec n (io_try m) s Q.
Proof.
  intros H w w' r Hs Hm. unfold io_try in Hm. destruct (m w) as [w1 r1] eqn:E1. injection Hm as <- <-.
  by apply (H _ _ _ Hs).
Qed.

Lemma spec_io_try_as {T} n text (m : io W ErrorKind T) s (Q : kstate → result T PhantomError → Prop) :
  spec n m s (fun s' r => Q s' (map_err (fun e => VaultError (text +:+ io_error_text e)) r)) →
  spec n (io_try_as text m) s Q.
Proof.
  intros H w w' r Hs Hm. unfold io_try_as in Hm. destruct (m w) as [w1 r1] eqn:E1. injection Hm as <- <-.
  by apply (H _ _ _ Hs).
Qed.

(** A computation that touches neither credentials nor files *)
Lemma spec_same {E T} n (m : io W E T) s (Q : kstate → result T E → Prop) :
  (∀ w w' r, kstate_of n w = s → m w = (w', r) → ring w' = ring w ∧ tview w' = tview w ∧ Q s r) → spec n m s Q.
Proof.
  intros H w w' r Hs Hm. destruct (H _ _ _ Hs Hm) as (Hr & Ht & HQ). split.
  - split; [intros; by rewrite Hr|intros; by rewrite Ht].
  - unfold kstate_of, bytes_at in *. by rewrite Hr, Ht, Hs.
Qed.

(** *** Credentials *)

Inductive part := Hashed | Legacy | Names.

Definition part_entry (n : string) (p : part) : Entry :=
  match p with Hashed => hashed_entry n | Legacy => legacy_entry n | Names => names_entry end.
Definition part_value (p : part) (s : kstate) : option string :=
  match p with Hashed => ks_hashed s | Legacy => ks_legacy s | Names => ks_index s end.
Definition set_part (p : part) (x : option string) (s : kstate) : kstate :=
  match p with Hashed => set_hashed x s | Legacy => set_legacy x s | Names => set_index x s end.

Lemma part_value_of n p w : part_value p (kstate_of n w) = ring w (part_entry n p).
Proof. by destruct p. Qed.

Lemma but_part n p x w w' :
  tview w' = tview w → but_entry (part_entry n p) x (ring w) (ring w') →
  elsewhere n w w' ∧ kstate_of n w' = set_part p x (kstate_of n w).
Proof.
  intros Ht [Hx He]. split.
  - split; [|intros; by rewrite Ht]. intros e E1 E2 E3. apply He. by destruct p.
  - unfold kstate_of, bytes_at. rewrite Ht.
    pose proof (hashed_ne_legacy n n). pose proof (names_ne_hashed n). pose proof (names_ne_legacy n).
    destruct p; cbn in *; rewrite Hx, ?He by congruence; done.
Qed.

Lemma spec_new_credential n p s (Q : kstate → result unit KeyringError → Prop) :
  Q s (Ok tt) → (∀ e, part_value p s = None → Q s (Err e)) → spec n (new_credential (part_entry n p)) s Q.
Proof.
  intros H1 H2. apply spec_same. intros w w' r Hs (Hr & Ht & He)%new_credential_law. split_and!; [done..|].
  destruct r as [[]|e]; [done|]. apply H2. rewrite <- Hs, part_value_of. by apply (He e).
Qed.

Lemma spec_get n p s (Q : kstate → result string KeyringError → Prop) :
  (∀ x, part_value p s = Some x → Q s (Ok x)) → (part_value p s = None → Q s (Err NoEntry)) →
  (∀ t, Q s (Err (KeyringFailure t))) → spec n (get_password (part_entry n p)) s Q.
Proof.
  intros H1 H2 H3. apply spec_same. intros w w' r Hs (Hr & Ht & He)%get_password_law. split_and!; [done..|].
  rewrite <- part_value_of, Hs in He. destruct r as [x|[|t]]; auto.
Qed.

Lemma spec_set n p x s (Q : kstate → result unit KeyringError → Prop) :
  Q (set_part p (Some x) s) (Ok tt) → (∀ y e, y = part_value p s ∨ y = Some x → Q (set_part p y s) (Err e)) →
  spec n (set_password (part_entry n p) x) s Q.
Proof.
  intros H1 H2 w w' r <- (Ht & y & Hb & Hy & Hok)%set_password_law. apply but_part in Hb as [He ->]; [|done].
  split; [done|]. rewrite <- part_value_of in Hy. destruct r as [[]|e]; [rewrite (Hok tt eq_refl); apply H1|by apply H2].
Qed.

Lemma spec_delete n p s (Q : kstate → result unit KeyringError → Prop) :
  Q (set_part p None s) (Ok tt) → (part_value p s = None → Q (set_part p None s) (Err NoEntry)) →
  (∀ y t, y = part_value p s ∨ y = None → Q (set_part p y s) (Err (KeyringFailure t))) →
  spec n (delete_credential (part_entry n p)) s Q.
Proof.
  intros H1 H2 H3 w w' r <- (Ht & y & Hb & Hy & Hok & Hno)%delete_credential_law. apply but_part in Hb as [He ->]; [|done].
  split; [done|]. rewrite <- part_value_of in Hy, Hno. destruct r as [[]|[|t]].
  - rewrite (Hok tt eq_refl). apply H1.
  - specialize (Hno eq_refl). replace y with (None (A := string)) by (destruct Hy; congruence). by apply H2.
  - by apply H3.
Qed.

(** *** Sidecar files *)

Inductive sidecar := SMeta | SVerdict | SLegacyMeta | SLegacyVerdict | SStableLock | SLegacyLock | SBackend | SCorroboration.

Definition sidecar_target (f : sidecar) : anchored_target :=
  let s := kv_sidecars v in
  match f with
  | SMeta => sc_metadata s | SVerdict => sc_validation s
  | SLegacyMeta => sc_legacy_metadata s | SLegacyVerdict => sc_legacy_validation s
  | SStableLock => sc_stable_lock s | SLegacyLock => sc_legacy_lock s
  | SBackend => sc_linux_backend s | SCorroboration => sc_linux_backend_corroboration s
  end.

(** The file's text; locks and markers are no part of the view. *)
Definition sidecar_value (f : sidecar) (s : kstate) : option string :=
  match f with
  | SMeta => ks_metadata s | SVerdict => ks_validation s
  | SLegacyMeta => ks_legacy_metadata s | SLegacyVerdict => ks_legacy_validation s
  | _ => None
  end.
Definition set_sidecar (f : sidecar) (x : option string) (s : kstate) : kstate :=
  match f with
  | SMeta => set_metadata_file x s | SVerdict => set_validation_file x s
  | SLegacyMeta => set_legacy_metadata_file x s | SLegacyVerdict => set_legacy_validation_file x s
  | _ => s
  end.
Definition viewed (f : sidecar) : bool :=
  match f with SMeta | SVerdict | SLegacyMeta | SLegacyVerdict => true | _ => false end.

Definition sidecar_index (f : sidecar) : nat :=
  match f with
  | SMeta => 0 | SVerdict => 1 | SLegacyMeta => 2 | SLegacyVerdict => 3
  | SStableLock => 4 | SLegacyLock => 5 | SBackend => 6 | SCorroboration => 7
  end.

Lemma sidecar_path f : sidecar_paths !! sidecar_index f = Some (target_path (sidecar_target f)).
Proof. by destruct f. Qed.

Lemma sidecar_path_ne f g : f ≠ g → target_path (sidecar_target f) ≠ target_path (sidecar_target g).
Proof.
  intros Hne E. pose proof (sidecar_path f) as Hf. rewrite E in Hf.
  pose proof (NoDup_lookup _ _ _ _ Hpaths Hf (sidecar_path g)) as Hi. destruct f, g; done.
Qed.

Lemma sidecar_value_of n f w :
  viewed f = true → sidecar_value f (kstate_of n w) = bytes_at w (sidecar_target f).
Proof. by destruct f. Qed.

(** One file of the vault may have changed. *)
Lemma but_sidecar n f w w' :
  ring w' = ring w →
  (∀ q, q ≠ target_path (sidecar_target f) → file_at (tview w') q = file_at (tview w) q) →
  elsewhere n w w' ∧ kstate_of n w' = set_sidecar f (bytes_at w' (sidecar_target f)) (kstate_of n w).
Proof.
  intros Hr Hf. split.
  - split; [intros; by rewrite Hr|]. intros p Hp. apply Hf. intros ->. apply Hp, list_elem_of_lookup.
    eexists. apply sidecar_path.
  - assert (∀ g, g ≠ f → bytes_at w' (sidecar_target g) = bytes_at w (sidecar_target g)) as Hg.
    { intros g Hne. unfold bytes_at. by rewrite Hf by by apply sidecar_path_ne. }
    pose proof (Hg SMeta) as H1. pose proof (Hg SVerdict) as H2. pose proof (Hg SLegacyMeta) as H3.
    pose proof (Hg SLegacyVerdict) as H4. unfold kstate_of. rewrite Hr.
    destruct f; cbn in *; rewrite ?H1, ?H2, ?H3, ?H4 by done; done.
Qed.

Lemma set_sidecar_id f s : set_sidecar f (sidecar_value f s) s = s.
Proof. by destruct f, s. Qed.

Lemma spec_read_target n f s (Q : kstate → result (option AnchoredRead) ErrorKind → Prop) :
  viewed f = true →
  (∀ o, sidecar_value f s = option_map ar_bytes o → Q s (Ok o)) → (∀ e, Q s (Err e)) →
  spec n (read_target (sidecar_target f)) s Q.
Proof.
  intros Hv H1 H2 w w' r <- ([Hf Hd] & Hr & Ho)%read_target_law. rewrite sidecar_value_of in H1 by done.
  destruct (but_sidecar n f w w') as [He Hk]; [done|intros; apply Hf|]. split; [done|]. rewrite Hk.
  assert (bytes_at w' (sidecar_target f) = bytes_at w (sidecar_target f)) as -> by (unfold bytes_at; by rewrite Hf).
  rewrite <- (sidecar_value_of n) by done. rewrite set_sidecar_id.
  destruct r as [o|e]; [|apply H2]. apply H1. unfold bytes_at. by rewrite (Ho o eq_refl).
Qed.

Lemma spec_replace n f before bytes s (Q : kstate → result (AnchoredEffect AnchoredRead) ErrorKind → Prop) :
  viewed f = true →
  (∀ e, sidecar_value f s = option_map ar_bytes before → ar_bytes (effect_value e) = bytes →
     Q (set_sidecar f (Some bytes) s) (Ok e)) → (∀ e, Q s (Err e)) →
  spec n (replace_if_exact (sidecar_target f) before bytes) s Q.
Proof.
  intros Hv H1 H2 w w' r <- (Hr & H)%replace_law. rewrite sidecar_value_of in H1 by done.
  destruct r as [e|e].
  - destruct H as (Hb & Hby & _ & Hx & Hq & _). destruct (but_sidecar n f w w') as [He Hk]; [done..|]. split; [done|].
    rewrite Hk. unfold bytes_at in *. rewrite Hx. cbn. rewrite Hby. apply H1; [by rewrite Hb|done].
  - destruct H as [Hf Hd]. destruct (but_sidecar n f w w') as [He Hk]; [done|intros; apply Hf|]. split; [done|]. rewrite Hk.
    assert (bytes_at w' (sidecar_target f) = bytes_at w (sidecar_target f)) as -> by (unfold bytes_at; by rewrite Hf).
    rewrite <- (sidecar_value_of n) by done. rewrite set_sidecar_id. apply H2.
Qed.

Lemma spec_unlink n f before s (Q : kstate → result (AnchoredEffect unit) ErrorKind → Prop) :
  viewed f = true →
  (∀ e, sidecar_value f s = Some (ar_bytes before) → Q (set_sidecar f None s) (Ok e)) → (∀ e, Q s (Err e)) →
  spec n (unlink_if_exact (sidecar_target f) before) s Q.
Proof.
  intros Hv H1 H2 w w' r <- (Hr & H)%unlink_law. rewrite sidecar_value_of in H1 by done.
  destruct r as [e|e].
  - destruct H as (Hb & Hx & Hq & _). destruct (but_sidecar n f w w') as [He Hk]; [done..|]. split; [done|].
    rewrite Hk. unfold bytes_at in *. rewrite Hx. apply H1. by rewrite Hb.
  - destruct H as [Hf Hd]. destruct (but_sidecar n f w w') as [He Hk]; [done|intros; apply Hf|]. split; [done|]. rewrite Hk.
    assert (bytes_at w' (sidecar_target f) = bytes_at w (sidecar_target f)) as -> by (unfold bytes_at; by rewrite Hf).
    rewrite <- (sidecar_value_of n) by done. rewrite set_sidecar_id. apply H2.
Qed.

Lemma spec_repair n f s (Q : kstate → result bool ErrorKind → Prop) :
  (∀ r, Q s r) → spec n (repair_private_regular (sidecar_target f)) s Q.
Proof.
  intros H w w' r <- (Hr & Hf & Hb)%repair_law. destruct (but_sidecar n f w w') as [He Hk]; [done..|]. split; [done|].
  rewrite Hk. assert (bytes_at w' (sidecar_target f) = bytes_at w (sidecar_target f)) as -> by exact Hb.
  destruct (viewed f) eqn:Hv.
  - rewrite <- (sidecar_value_of n) by done. rewrite set_sidecar_id. apply H.
  - destruct f; try done; apply H.
Qed.

(** *** Loading and saving *)

Lemma spec_load_map {T} `{!JsonOf (gmap string T)} n f label s (Q : kstate → result (gmap string T) PhantomError → Prop) :
  viewed f = true →
  (∀ m, meaning ∅ (sidecar_value f s) = Some m → Q s (Ok m)) → (∀ e, Q s (Err e)) →
  spec n (load_sidecar_map (sidecar_target f) label) s Q.
Proof.
  intros Hv H1 H2. unfold load_sidecar_map. apply spec_bind, spec_io_try, spec_read_target; [done| |by intros e; apply H2].
  intros [o|] Ho; cbn.
  - apply spec_lift. destruct (json_read (ar_bytes o)) as [m|e] eqn:E; [|apply H2]. cbn. apply H1. rewrite Ho. cbn. by rewrite E.
  - apply spec_ret, H1. by rewrite Ho.
Qed.

Lemma spec_save_if_unchanged {T} `{!JsonOf (gmap string T)} n f label before (m : gmap string T) s
    (Q : kstate → result unit PhantomError → Prop) :
  viewed f = true →
  (∀ b, json_write m = Ok b → Q (set_sidecar f (Some b) s) (Ok tt)) →
  (∀ y e, y = sidecar_value f s ∨ (∃ b, json_write m = Ok b ∧ y = Some b) → Q (set_sidecar f y s) (Err e)) →
  spec n (save_sidecar_map_if_unchanged (sidecar_target f) label before m) s Q.
Proof.
  intros Hv H1 H2. unfold save_sidecar_map_if_unchanged.
  assert (∀ e, Q s (Err e)) as H3. { intros e. rewrite <- (set_sidecar_id f s). apply H2. by left. }
  apply spec_bind, spec_lift. destruct (json_write m) as [b|e] eqn:E; [cbn|apply H3].
  apply spec_bind, spec_io_try, spec_replace; [done| |by intros e; apply H3].
  intros [u|u|u e] Ho Hb; cbn; apply spec_bind, spec_lift; cbn.
  - apply spec_ret. by apply H1.
  - apply spec_ret. by apply H1.
  - apply H2. right. by exists b.
Qed.

Lemma spec_save_map {T} `{!JsonOf (gmap string T)} n f label (m : gmap string T) s
    (Q : kstate → result unit PhantomError → Prop) :
  viewed f = true →
  (∀ b, json_write m = Ok b → Q (set_sidecar f (Some b) s) (Ok tt)) →
  (∀ y e, y = sidecar_value f s ∨ (∃ b, json_write m = Ok b ∧ y = Some b) → Q (set_sidecar f y s) (Err e)) →
  spec n (save_sidecar_map (sidecar_target f) label m) s Q.
Proof.
  intros Hv H1 H2. unfold save_sidecar_map. apply spec_bind, spec_io_try, spec_read_target; [done| |].
  - intros o _. cbn. by apply spec_save_if_unchanged.
  - intros e. cbn. rewrite <- (set_sidecar_id f s). apply H2. by left.
Qed.

(** *** Entries and the index *)

Lemma spec_credential_entry n p s (Q : kstate → result Entry KeyringError → Prop) :
  let e := part_entry n p in
  Q s (Ok e) → (∀ x, part_value p s = None → Q s (Err x)) →
  spec n (credential_entry (en_store e) (en_service e) (en_account e)) s Q.
Proof.
  intros e H1 H2. unfold credential_entry. replace (mk_entry _ _ _) with e by (by destruct e).
  apply spec_bind, spec_new_credential; [by apply spec_ret|exact H2].
Qed.

Lemma spec_entry_for n s (Q : kstate → result Entry PhantomError → Prop) :
  Q s (Ok (hashed_entry n)) → (∀ e, Q s (Err e)) → spec n (entry_for v n) s Q.
Proof.
  intros H1 H2. apply spec_keyring_try, (spec_credential_entry n Hashed); [exact H1|]. intros x _. apply H2.
Qed.

Lemma spec_legacy_entry_for n s (Q : kstate → result (option Entry) PhantomError → Prop) :
  Q s (Ok (Some (legacy_entry n))) → (ks_legacy s = None → Q s (Ok None)) → spec n (legacy_entry_for v n) s Q.
Proof.
  intros H1 H2 w w' r Hs Hm. unfold legacy_entry_for in Hm.
  destruct (credential_entry (kv_store v) (legacy_entry_key v n) n w) as [w1 r1] eqn:E.
  destruct (spec_credential_entry n Legacy s (fun s' r => Q s' (Ok (match r with Ok e => Some e | Err _ => None end)))
              H1 (fun x Hx => H2 Hx) w w1 r1 Hs E) as [He HQ].
  destruct r1; injection Hm as <- <-; done.
Qed.

Lemma spec_index_entry n s (Q : kstate → result Entry PhantomError → Prop) :
  Q s (Ok names_entry) → (∀ e, Q s (Err e)) → spec n (index_entry v) s Q.
Proof.
  intros H1 H2. apply spec_keyring_try, (spec_credential_entry n Names); [exact H1|]. intros x _. apply H2.
Qed.

Lemma spec_read_credential n p label s (Q : kstate → result (option string) PhantomError → Prop) :
  Q s (Ok (part_value p s)) → (∀ e, Q s (Err e)) → spec n (read_credential (part_entry n p) label) s Q.
Proof.
  intros H1 H2 w w' r Hs Hm. unfold read_credential in Hm. destruct (get_password (part_entry n p) w) as [w1 r1] eqn:E.
  assert (w1 = w') as <- by (destruct r1 as [|[]]; congruence).
  apply (spec_get n p s (fun s' r1 => match r1 with Ok x => Q s' (Ok (Some x)) | Err NoEntry => Q s' (Ok None)
           | Err (KeyringFailure _) => ∀ e, Q s' (Err e) end)) in E as [He HQ]; [|intros x Hx; by rewrite <- Hx|intros Hx; by rewrite <- Hx|done|done].
  split; [done|]. destruct r1 as [x|[|t]]; injection Hm as <-; [done..|apply HQ].
Qed.

Lemma spec_remove_credential n p label s (Q : kstate → result unit PhantomError → Prop) :
  Q (set_part p None s) (Ok tt) → (∀ y e, y = part_value p s ∨ y = None → Q (set_part p y s) (Err e)) →
  spec n (remove_credential (part_entry n p) label) s Q.
Proof.
  intros H1 H2 w w' r Hs Hm. unfold remove_credential in Hm. destruct (delete_credential (part_entry n p) w) as [w1 r1] eqn:E.
  assert (w1 = w') as <- by (destruct r1 as [|[]]; congruence).
  apply (spec_delete n p s (fun s' r1 => match r1 with Ok _ | Err NoEntry => Q s' (Ok tt)
           | Err (KeyringFailure _) => ∀ e, Q s' (Err e) end)) in E as [He HQ]; [|done|done|intros y t Hy e; by apply H2|done].
  split; [done|]. destruct r1 as [[]|[|t]]; injection Hm as <-; [done..|apply HQ].
Qed.

Lemma spec_restore_credential n p x label s (Q : kstate → result unit PhantomError → Prop) :
  Q (set_part p x s) (Ok tt) → (∀ y e, y = part_value p s ∨ y = x → Q (set_part p y s) (Err e)) →
  spec n (restore_credential (part_entry n p) x label) s Q.
Proof.
  intros H1 H2. destruct x as [x|]; [|by apply spec_remove_credential].
  apply spec_keyring_try, spec_set; [exact H1|]. intros y e Hy. by apply H2.
Qed.

Lemma spec_load_index n s (Q : kstate → result (list string) PhantomError → Prop) :
  (∀ l, ks_names s = Some l → Q s (Ok l)) → (∀ e, Q s (Err e)) → spec n (load_index v) s Q.
Proof.
  intros H1 H2. unfold load_index. apply spec_bind, spec_index_entry; [|exact H2].
  intros w w' r Hs Hm. destruct (get_password names_entry w) as [w1 r1] eqn:E.
  apply (spec_get n Names s (fun s' r1 => match r1 with
           | Ok d => ∀ x, map_err (fun e => VaultError ("Corrupt keychain index (try `phantom init` to rebuild): " +:+ e)) (json_read d) = x → Q s' x
           | Err NoEntry => Q s' (Ok []) | Err (KeyringFailure _) => ∀ e, Q s' (Err e) end)) in E as [He HQ]; [| | |done|done].
  - destruct r1 as [x|[|t]]; injection Hm as <- <-; (split; [done|]); [by apply HQ|done|apply HQ].
  - intros d Hd x <-. cbn in Hd. destruct (json_read d) as [l|e] eqn:El; [|apply H2]. apply H1.
    unfold ks_names. rewrite Hd. cbn. by rewrite El.
  - intros Hd. apply H1. unfold ks_names. cbn in Hd. by rewrite Hd.
Qed.

Lemma spec_save_index n l s (Q : kstate → result unit PhantomError → Prop) :
  (∀ d, json_write l = Ok d → Q (set_index (Some d) s) (Ok tt)) →
  (∀ y e, y = ks_index s ∨ (∃ d, json_write l = Ok d ∧ y = Some d) → Q (set_index y s) (Err e)) →
  spec n (save_index v l) s Q.
Proof.
  intros H1 H2. unfold save_index. assert (∀ e, Q s (Err e)) as H3.
  { intros e. replace s with (set_index (ks_index s) s) by (by destruct s). apply H2. by left. }
  apply spec_bind, spec_index_entry; [|exact H3]. apply spec_bind, spec_lift.
  destruct (json_write l) as [d|e] eqn:E; [cbn|apply H3].
  apply spec_keyring_try, (spec_set n Names); [by apply H1|]. intros y e [->| ->]; apply H2; [by left|right; by exists d].
Qed.

(** *** Compensations *)

Definition comp_spec (n : string) (l : list (vault_io W unit)) (s : kstate)
    (Q : kstate → list (result unit PhantomError) → Prop) : Prop :=
  ∀ w w' rs, kstate_of n w = s → run_compensations l w = (w', rs) → elsewhere n w w' ∧ Q (kstate_of n w') rs.

Lemma comp_nil n s (Q : kstate → list (result unit PhantomError) → Prop) : Q s [] → comp_spec n [] s Q.
Proof. intros HQ w w' rs <- [= <- <-]. done. Qed.

Lemma comp_cons n (m : vault_io W unit) l s (Q : kstate → list (result unit PhantomError) → Prop) :
  spec n m s (fun s' r => comp_spec n l s' (fun s'' rs => Q s'' (r :: rs))) → comp_spec n (m :: l) s Q.
Proof.
  intros H w w' rs Hs Hm. cbn in Hm. destruct (m w) as [w1 r] eqn:E1. destruct (run_compensations l w1) as [w2 rs1] eqn:E2.
  injection Hm as <- <-. destruct (H _ _ _ Hs E1) as [He H1]. destruct (H1 _ _ _ eq_refl E2) as [He' HQ].
  split; [by eapply elsewhere_trans|done].
Qed.

Lemma spec_compensate {T} n operation primary l s (Q : kstate → result T PhantomError → Prop) :
  comp_spec n l s (fun s' rs => Q s' (Err (compensated_error operation primary rs))) →
  spec n (compensate operation primary l) s Q.
Proof.
  intros H w w' r Hs Hm. unfold compensate in Hm. destruct (run_compensations l w) as [w1 rs] eqn:E. injection Hm as <- <-.
  by apply (H _ _ _ Hs).
Qed.

(** The error says that the prior state was restored. *)
Definition restored (operation : string) (e : PhantomError) : Prop :=
  ∃ t, e = VaultError (operation +:+ " failed and prior keychain state was restored: " +:+ t).

Lemma restored_all operation primary rs :
  restored operation (compensated_error operation primary rs) → Forall (fun r => r = Ok tt) rs.
Proof.
  intros [t H]. unfold compensated_error in H.
  assert (omap (fun r : result unit PhantomError => match r with Ok _ => None | Err e => Some (phantom_error_text io_error_text e) end) rs = []) as E.
  { destruct (omap _ rs) as [|x l]; [done|]. exfalso. injection H as H. apply str_app_inj_l in H. discriminate H. }
  clear H. induction rs as [|[[]|e] rs IH]; [done| |discriminate E]. constructor; [done|by apply IH].
Qed.

(** The error says that a compensation failed. *)
Definition incomplete (operation : string) (e : PhantomError) : Prop :=
  ∃ t t', e = VaultError (operation +:+ " failed (" +:+ t +:+ "); rollback was incomplete: " +:+ t').

Lemma compensated_says operation primary rs :
  restored operation (compensated_error operation primary rs) ∨
  incomplete operation (compensated_error operation primary rs).
Proof.
  unfold compensated_error. destruct (omap _ rs) as [|x l]; [left; by eexists|right; by do 2 eexists].
Qed.

(** The error of a credential write that is not compensated *)
Definition unsure_store (e : PhantomError) : Prop := ∃ t, e = VaultError ("Failed to store secret: " +:+ t).
Definition never (e : PhantomError) : Prop := False.

(** ** Storing *)

(** A stored text that means one of two things *)
Definition near {T} `{JsonOf T} (empty before after : T) (y : option string) : Prop :=
  meaning empty y = Some before ∨ meaning empty y = Some after.

Lemma near_write {T} `{!JsonOf T, !JsonLaws T} (empty before after : T) old y :
  meaning empty old = Some before → y = old ∨ (∃ b, json_write after = Ok b ∧ y = Some b) → near empty before after y.
Proof. intros Ho [->|(b & Hb & ->)]; [by left|]. right. cbn. by rewrite (json_round_trip after b Hb). Qed.

Lemma written_means {T} `{!JsonOf T, !JsonLaws T} (empty x : T) b : json_write x = Ok b → meaning empty (Some b) = Some x.
Proof. intros Hb. cbn. by rewrite (json_round_trip x b Hb). Qed.

Lemma spec_save_index_near n before after s (Q : kstate → result unit PhantomError → Prop) :
  ks_names s = Some before →
  (∀ y, meaning [] y = Some after → Q (set_index y s) (Ok tt)) →
  (∀ y e, near [] before after y → Q (set_index y s) (Err e)) →
  spec n (save_index v after) s Q.
Proof.
  intros Hs H1 H2. apply spec_save_index.
  - intros d Hd. apply H1. by apply written_means.
  - intros y e Hy. apply H2. by eapply near_write.
Qed.

Lemma spec_commit_index n before after s (Q : kstate → result unit PhantomError → Prop) :
  ks_names s = Some before →
  (∀ y, meaning [] y = Some after → Q (set_index y s) (Ok tt)) →
  (∀ y e, near [] before after y → Q (set_index y s) (Err e)) →
  spec n (if bool_decide (after = before) then io_ret tt else save_index v after) s Q.
Proof.
  intros Hs H1 H2. case_bool_decide as E; [|by eapply spec_save_index_near].
  apply spec_ret. replace s with (set_index (ks_index s) s) by (by destruct s). apply H1. by rewrite E.
Qed.

Section maps.
Context {T : Type} `{EqDecision T} `{JT : !JsonOf (gmap string T)} `{JTL : !JsonLaws (gmap string T)}.

Lemma spec_save_map_near n f label (before after : gmap string T) s (Q : kstate → result unit PhantomError → Prop) :
  viewed f = true → meaning ∅ (sidecar_value f s) = Some before →
  (∀ y, meaning ∅ y = Some after → Q (set_sidecar f y s) (Ok tt)) →
  (∀ y e, near ∅ before after y → Q (set_sidecar f y s) (Err e)) →
  spec n (save_sidecar_map (sidecar_target f) label after) s Q.
Proof.
  intros Hv Hs H1 H2. apply spec_save_map; [done| |].
  - intros d Hd. apply H1. by apply written_means.
  - intros y e Hy. apply H2. by eapply near_write.
Qed.

Lemma spec_commit_map n f label (before after : gmap string T) s (Q : kstate → result unit PhantomError → Prop) :
  viewed f = true → meaning ∅ (sidecar_value f s) = Some before →
  (∀ y, meaning ∅ y = Some after → Q (set_sidecar f y s) (Ok tt)) →
  (∀ y e, near ∅ before after y → Q (set_sidecar f y s) (Err e)) →
  spec n (if bool_decide (after = before) then io_ret tt else save_sidecar_map (sidecar_target f) label after) s Q.
Proof.
  intros Hv Hs H1 H2. case_bool_decide as E; [|by eapply spec_save_map_near].
  apply spec_ret. rewrite <- (set_sidecar_id f s). apply H1. by rewrite E.
Qed.
End maps.

(** No sidecar of an older version is left. *)
Definition settled (s : kstate) : Prop := ks_legacy_metadata s = None ∧ ks_legacy_validation s = None.

(** What a name consists of before and after a change: every part is the one
    or the other. *)
Record parts := mk_parts {
  pt_hashed : option string;
  pt_names : list string;
  pt_metas : gmap string SecretMetadata;
  pt_verdicts : gmap string ValidationMetadata;
}.

Definition has_parts (s : kstate) (p : parts) : Prop :=
  ks_hashed s = pt_hashed p ∧ ks_names s = Some (pt_names p) ∧ ks_metas s = Some (pt_metas p) ∧
  ks_verdicts s = Some (pt_verdicts p).

Definition between (s : kstate) (p q : parts) : Prop :=
  (ks_hashed s = pt_hashed p ∨ ks_hashed s = pt_hashed q) ∧
  near [] (pt_names p) (pt_names q) (ks_index s) ∧
  near ∅ (pt_metas p) (pt_metas q) (ks_metadata s) ∧
  near ∅ (pt_verdicts p) (pt_verdicts q) (ks_validation s).

(** The parts after a value is stored *)
Definition stored_parts (n value : string) (metas : gmap string SecretMetadata) (p : parts) : parts :=
  mk_parts (Some value) (add_to_index n (pt_names p)) metas
    (if bool_decide (pt_hashed p = Some value) then pt_verdicts p else delete n (pt_verdicts p)).

(** The metadata after a store *)
Definition metas_after (n : string) (o : option SecretMetadata) (p : parts) (m : gmap string SecretMetadata) : Prop :=
  match o with
  | Some meta => m = <[n := meta]> (pt_metas p)
  | None => match pt_metas p !! n with
            | Some _ => m = pt_metas p
            | None => ∃ now, m = <[n := new_now now]> (pt_metas p)
            end
  end.

Lemma spec_stored_metadata n o p s (Q : kstate → result (gmap string SecretMetadata) PhantomError → Prop) :
  (∀ m, metas_after n o p m → Q s (Ok m)) → spec n (stored_metadata n o (pt_metas p)) s Q.
Proof.
  intros H. unfold stored_metadata, metas_after in *. destruct o as [meta|]; [by apply spec_ret, H|].
  destruct (pt_metas p !! n); [by apply spec_ret, H|].
  apply spec_bind, spec_same. intros w w' r Hs Hm. unfold read_clock in Hm. destruct (now_secs w) as [w1 now] eqn:E.
  injection Hm as <- <-. apply kc_clock_law in E as [Hr Ht]. split_and!; [done..|]. apply spec_ret, H. by exists now.
Qed.

(** The four compensations of a write *)
Definition undo_parts (v : KeychainVault) (entry : Entry) (p : parts) : list (vault_io W unit) :=
  [restore_credential entry (pt_hashed p) "secret before-image"; save_index v (pt_names p);
   save_meta_map v (pt_metas p); save_validation_meta_map v (pt_verdicts p)].

Lemma run_compensations_app (l1 l2 : list (vault_io W unit)) w :
  run_compensations (l1 ++ l2) w =
    let '(w1, rs1) := run_compensations l1 w in
    let '(w2, rs2) := run_compensations l2 w1 in (w2, rs1 ++ rs2).
Proof.
  revert w. induction l1 as [|m l1 IH]; intros w; cbn; [by destruct (run_compensations l2 w)|].
  destruct (m w) as [w1 r]. rewrite IH. destruct (run_compensations l1 w1) as [w2 rs1].
  by destruct (run_compensations l2 w2).
Qed.

Lemma comp_app n l1 l2 s (Q : kstate → list (result unit PhantomError) → Prop) :
  comp_spec n l1 s (fun s' rs1 => comp_spec n l2 s' (fun s'' rs2 => Q s'' (rs1 ++ rs2))) → comp_spec n (l1 ++ l2) s Q.
Proof.
  intros H w w' rs Hs Hm. rewrite run_compensations_app in Hm.
  destruct (run_compensations l1 w) as [w1 rs1] eqn:E1. destruct (run_compensations l2 w1) as [w2 rs2] eqn:E2.
  injection Hm as <- <-. destruct (H _ _ _ Hs E1) as [He H2]. destruct (H2 _ _ _ eq_refl E2) as [He' HQ].
  split; [by eapply elsewhere_trans|done].
Qed.

(** The same rules, with both outcomes together *)
Lemma restore_joined n p x label s (Q : kstate → result unit PhantomError → Prop) :
  (∀ y r, y = part_value p s ∨ y = x → (r = Ok tt → y = x) → Q (set_part p y s) r) →
  spec n (restore_credential (part_entry n p) x label) s Q.
Proof. intros H. apply spec_restore_credential; [apply H; auto|]. intros y e Hy. by apply H. Qed.

Lemma save_index_joined n before after s (Q : kstate → result unit PhantomError → Prop) :
  near [] before after (ks_index s) →
  (∀ y r, near [] before after y → (r = Ok tt → meaning [] y = Some before) → Q (set_index y s) r) →
  spec n (save_index v before) s Q.
Proof.
  intros Hs H. apply spec_save_index.
  - intros d Hd. apply (written_means []) in Hd. apply H; [by left|done].
  - intros y e [->|(d & Hd%(written_means []) & ->)]; apply H; try done. by left.
Qed.

Lemma save_map_joined {T} `{JT : !JsonOf (gmap string T)} `{!JsonLaws (gmap string T)} n f label
    (before after : gmap string T) s (Q : kstate → result unit PhantomError → Prop) :
  viewed f = true → near ∅ before after (sidecar_value f s) →
  (∀ y r, near ∅ before after y → (r = Ok tt → meaning ∅ y = Some before) → Q (set_sidecar f y s) r) →
  spec n (save_sidecar_map (sidecar_target f) label before) s Q.
Proof.
  intros Hv Hs H. apply spec_save_map; [done| |].
  - intros d Hd. apply (written_means ∅) in Hd. apply H; [by left|done].
  - intros y e [->|(d & Hd%(written_means ∅) & ->)]; apply H; try done. by left.
Qed.

(** From any state between two, the compensations end in one between them,
    and in the first one when all of them report success. *)
Lemma undo_spec n s p q :
  between s p q → settled s →
  comp_spec n (undo_parts v (hashed_entry n) p) s
    (fun s' rs => between s' p q ∧ settled s' ∧ ks_legacy s' = ks_legacy s ∧
                  (Forall (fun r => r = Ok tt) rs → has_parts s' p)).
Proof.
  intros (Bh & Bi & Bm & Bv) [L1 L2]. destruct s as [h leg i m x lm lv]. cbn in *. subst lm lv.
  apply comp_cons, (restore_joined n Hashed). intros h' r1 Hh Xh.
  apply comp_cons, (save_index_joined _ _ (pt_names q)); [done|]. intros i' r2 Hi Xi.
  apply comp_cons, (save_map_joined _ SMeta _ _ (pt_metas q)); [done..|]. intros m' r3 Hm Xm.
  apply comp_cons, (save_map_joined _ SVerdict _ _ (pt_verdicts q)); [done..|]. intros x' r4 Hx Xx.
  apply comp_nil. cbn in *. split_and!; try done.
  - split_and!; try done. destruct Hh as [->| ->]; auto.
  - intros HF. rewrite !Forall_cons in HF. destruct HF as (-> & -> & -> & -> & _).
    split_and!; cbn; unfold ks_names, ks_metas, ks_verdicts; cbn; [by apply Xh|by apply Xi| |].
    + specialize (Xm eq_refl). by destruct m'.
    + specialize (Xx eq_refl). by destruct x'.
Qed.

Lemma between_refl s p q : settled s → has_parts s p → between s p q.
Proof.
  destruct s as [h leg i m x lm lv]. intros [L1 L2] (H1 & H2 & H3 & H4). cbn in *. subst.
  unfold ks_names, ks_metas, ks_verdicts in *. cbn in *.
  split_and!; [by left|by left| |]; left; [by destruct m|by destruct x].
Qed.

(** What a failed write leaves: its error is [bare], with nothing but the
    credential changed, or it tells how the compensations went. *)
Definition write_failed (operation : string) (bare : PhantomError → Prop) (s s' : kstate) (e : PhantomError)
    (P : parts → parts → Prop) : Prop :=
  s' = s ∨ ∃ p q, has_parts s p ∧ P p q ∧ between s' p q ∧ (restored operation e → has_parts s' p) ∧
    (restored operation e ∨ incomplete operation e ∨ bare e ∧ ∃ y, s' = set_hashed y s).

Lemma spec_delete_legacy n s (Q : kstate → result unit PhantomError → Prop) :
  (∀ y, y = ks_legacy s ∨ y = None → Q (set_legacy y s) (Ok tt)) → spec n (delete_legacy v n) s Q.
Proof.
  intros H. unfold delete_legacy. apply spec_bind, spec_legacy_entry_for.
  - intros w w' r Hs Hm. destruct (delete_credential (legacy_entry n) w) as [w1 r1] eqn:E.
    apply (spec_delete n Legacy s (fun s' _ => Q s' (Ok tt))) in E as [He HQ]; [| | | |done].
    + injection Hm as <- <-. done.
    + apply H. by right.
    + intros _. apply H. by right.
    + intros y t Hy. by apply H.
  - intros Hn. apply spec_ret. replace s with (set_legacy (ks_legacy s) s) by (by destruct s). apply H. by left.
Qed.

(** The part of a store that is compensated: the index and both sidecars *)
Lemma store_commit_spec n s p q (Q : kstate → result unit PhantomError → Prop) :
  settled s → ks_hashed s = pt_hashed q → ks_names s = Some (pt_names p) →
  meaning ∅ (ks_metadata s) = Some (pt_metas p) → meaning ∅ (ks_validation s) = Some (pt_verdicts p) →
  (∀ s', has_parts s' q → settled s' → ks_legacy s' = ks_legacy s → Q s' (Ok tt)) →
  (∀ s' e, between s' p q → settled s' → ks_legacy s' = ks_legacy s → Q s' (Err e)) →
  spec n
    (do? _ := (if bool_decide (pt_names q = pt_names p) then io_ret tt else save_index v (pt_names q)) in
     do? _ := (if bool_decide (pt_metas q = pt_metas p) then io_ret tt else save_meta_map v (pt_metas q)) in
     if bool_decide (pt_verdicts q = pt_verdicts p) then io_ret tt
     else save_validation_meta_map v (pt_verdicts q)) s Q.
Proof.
  intros [L1 L2] Hh Hi Hm Hx HQ1 HQ2. destruct s as [h leg i m x lm lv]. cbn in *. subst lm lv h.
  assert (near [] (pt_names p) (pt_names q) i) as Ni by (left; exact Hi).
  assert (near ∅ (pt_metas p) (pt_metas q) m) as Nm by (left; exact Hm).
  assert (near ∅ (pt_verdicts p) (pt_verdicts q) x) as Nx by (left; exact Hx).
  apply spec_bind, (spec_commit_index _ (pt_names p)); [done| |].
  2: { intros y e Hy. apply HQ2; [|done..]. split_and!; cbn; auto. }
  intros i' Hi'. assert (near [] (pt_names p) (pt_names q) i') as Ni' by (right; exact Hi').
  apply spec_bind, (spec_commit_map _ SMeta _ (pt_metas p)); [done|done| |].
  2: { intros y e Hy. apply HQ2; [|done..]. split_and!; cbn; auto. }
  intros m' Hm'. assert (near ∅ (pt_metas p) (pt_metas q) m') as Nm' by (right; exact Hm').
  apply (spec_commit_map _ SVerdict _ (pt_verdicts p)); [done|done| |].
  - intros x' Hx'. apply HQ1; [|done..]. split_and!; cbn; unfold ks_names, ks_metas, ks_verdicts; cbn; try done.
    + by destruct m'.
    + by destruct x'.
  - intros y e Hy. apply HQ2; [|done..]. split_and!; cbn; auto.
Qed.

Lemma store_locked_spec n value o s :
  settled s →
  spec n (store_locked v n value o) s (fun s' r =>
    let stores p q := ∃ m, metas_after n o p m ∧ q = stored_parts n value m p in
    settled s' ∧
    match r with
    | Ok _ => (∃ p q, has_parts s p ∧ stores p q ∧ has_parts s' q) ∧
              (ks_legacy s' = ks_legacy s ∨ ks_legacy s' = None)
    | Err e => ks_legacy s' = ks_legacy s ∧ write_failed "keychain store" unsure_store s s' e stores
    end).
Proof.
  intros Hset. unfold store_locked.
  assert (∀ e : PhantomError, settled s ∧ ks_legacy s = ks_legacy s ∧
    write_failed "keychain store" unsure_store s s e (fun p q => ∃ m, metas_after n o p m ∧ q = stored_parts n value m p)) as Hno.
  { intros e. split_and!; [apply Hset..|done|by left]. }
  apply spec_bind, spec_entry_for; [|apply Hno].
  apply spec_bind, (spec_read_credential n Hashed); [|apply Hno].
  apply spec_bind, spec_load_index; [|apply Hno]. intros l Hl.
  apply spec_bind, (spec_load_map n SMeta); [done| |apply Hno]. intros metas Hm.
  apply spec_bind, (spec_load_map n SVerdict); [done| |apply Hno]. intros verdicts Hv.
  set (p := mk_parts (ks_hashed s) l metas verdicts).
  assert (has_parts s p) as Hp.
  { destruct Hset as [L1 L2]. split_and!; cbn; [done|done| |]; unfold ks_metas, ks_verdicts; rewrite ?L1, ?L2.
    - cbn in Hm. by destruct (ks_metadata s).
    - cbn in Hv. by destruct (ks_validation s). }
  apply spec_bind, (spec_stored_metadata n o p). intros m Hma. set (q := stored_parts n value m p).
  destruct s as [h leg i mf x lm lv]. destruct Hset as [L1 L2]. cbn in L1, L2, Hl, Hm, Hv. subst lm lv.
  cbn [part_value ks_hashed] in *.
  apply spec_bind, spec_keyring_try, (spec_set n Hashed).
  2: { intros y e Hy. cbn in *. split_and!; [done..|]. right. exists p, q. split_and!; [done|by exists m| | |].
       - unfold between. cbn. split_and!; [destruct Hy; auto|by left..].
       - intros [t Ht]. discriminate Ht.
       - right; right. split; [by eexists|by eexists]. }
  apply spec_bind, spec_attempt, (store_commit_spec n _ p q); try done.
  - intros s' Hq Hs' Hleg. apply (spec_delete_legacy n). intros y Hy. destruct s'. cbn in *.
    destruct Hq as (Q1 & Q2 & Q3 & Q4). split_and!; [apply Hs'..| |].
    + exists p, q. split_and!; [done|by exists m|done..].
    + destruct Hy as [->| ->]; [left; exact Hleg|by right].
  - intros s' e Hb Hs' Hleg. apply spec_compensate. 
    intros w w' rs Hw Hrun. destruct (undo_spec n s' p q Hb Hs' w w' rs Hw Hrun) as (He & Hb' & Hs'' & Hl' & Hall).
    split; [done|]. split_and!; [apply Hs''..|by rewrite Hl'|]. right. exists p, q.
    split_and!; [done|by exists m|done| |].
    + intros Hr. by apply Hall, (restored_all _ _ _ Hr).
    + destruct (compensated_says "keychain store" e rs); auto.
Qed.

(** ** Deleting *)

Definition deleted_parts (n : string) (p : parts) : parts :=
  mk_parts None (filter (fun indexed => indexed ≠ n) (pt_names p)) (delete n (pt_metas p)) (delete n (pt_verdicts p)).

(** Removing the credential of an older version, when it can be named *)
Definition named_legacy (n : string) (s : kstate) (o : option Entry) : Prop :=
  o = Some (legacy_entry n) ∨ o = None ∧ ks_legacy s = None.

Lemma delete_commit_spec n s p q legacy (Q : kstate → result unit PhantomError → Prop) :
  settled s → has_parts s p → q = deleted_parts n p → named_legacy n s legacy →
  (∀ s', has_parts s' q → settled s' → ks_legacy s' = None → Q s' (Ok tt)) →
  (∀ s' e, between s' p q → settled s' → ks_legacy s' = ks_legacy s ∨ ks_legacy s' = None → Q s' (Err e)) →
  spec n
    (do? _ := (if bool_decide (pt_metas q = pt_metas p) then io_ret tt else save_meta_map v (pt_metas q)) in
     do? _ := (if bool_decide (pt_verdicts q = pt_verdicts p) then io_ret tt
               else save_validation_meta_map v (pt_verdicts q)) in
     do? _ := (if bool_decide (pt_names q = pt_names p) then io_ret tt else save_index v (pt_names q)) in
     do? _ := remove_credential (hashed_entry n) "secret" in
     match legacy with
     | Some legacy => remove_credential legacy "legacy secret"
     | None => io_ret tt
     end) s Q.
Proof.
  intros Hset Hp -> Hleg HQ1 HQ2. pose proof (between_refl s p (deleted_parts n p) Hset Hp) as (Nh & Ni & Nm & Nx).
  set (q := deleted_parts n p) in *. destruct Hset as [L1 L2]. destruct s as [h leg i m x lm lv].
  destruct Hp as (Hh & Hi & Hm & Hx). unfold ks_names, ks_metas, ks_verdicts in *. cbn in *. subst lm lv.
  assert (meaning ∅ m = Some (pt_metas p)) as Hm1 by (by destruct m).
  assert (meaning ∅ x = Some (pt_verdicts p)) as Hx1 by (by destruct x).
  apply spec_bind, (spec_commit_map _ SMeta _ (pt_metas p)); [done|done| |].
  2: { intros y e Hy. apply HQ2; [|done|by left]. by split_and!. }
  intros m' Hm'. assert (near ∅ (pt_metas p) (pt_metas q) m') as Nm' by (right; exact Hm').
  apply spec_bind, (spec_commit_map _ SVerdict _ (pt_verdicts p)); [done|done| |].
  2: { intros y e Hy. apply HQ2; [|done|by left]. by split_and!. }
  intros x' Hx'. assert (near ∅ (pt_verdicts p) (pt_verdicts q) x') as Nx' by (right; exact Hx').
  apply spec_bind, (spec_commit_index _ (pt_names p)); [done| |].
  2: { intros y e Hy. apply HQ2; [|done|by left]. by split_and!. }
  intros i' Hi'. assert (near [] (pt_names p) (pt_names q) i') as Ni' by (right; exact Hi').
  apply spec_bind, (spec_remove_credential n Hashed).
  2: { intros y e Hy. apply HQ2; [|done|by left]. split_and!; try done. cbn in *. destruct Hy as [->| ->]; auto. }
  assert (∀ g, has_parts (mk_kstate None g i' m' x' None None) q) as Hq.
  { intros g. split_and!; unfold ks_names, ks_metas, ks_verdicts; cbn; try done; [by destruct m'|by destruct x']. }
  cbn [set_part set_hashed set_index set_sidecar set_metadata_file set_validation_file ks_legacy ks_index ks_metadata
    ks_validation ks_legacy_metadata ks_legacy_validation ks_hashed].
  destruct Hleg as [->|[-> Hl]].
  - apply (spec_remove_credential n Legacy).
    + apply HQ1; [apply Hq|done..].
    + intros y e Hy. apply HQ2; [|done|exact Hy]. split_and!; try done. by right.
  - cbn in Hl. subst leg. apply spec_ret, HQ1; [apply Hq|done..].
Qed.

(** What deleting leaves *)
Definition delete_post (n : string) (s s' : kstate) (r : result unit PhantomError) : Prop :=
  settled s' ∧
  match r with
  | Ok _ => ∃ p, has_parts s p ∧ has_parts s' (deleted_parts n p) ∧ ks_legacy s' = None ∧
              (ks_value s ≠ None ∨ n ∈ pt_names p)
  | Err e => (ks_legacy s' = ks_legacy s ∨ ks_legacy s' = None) ∧
             write_failed "keychain delete" never s s' e (fun p q => q = deleted_parts n p) ∧
             (restored "keychain delete" e → ks_legacy s' = ks_legacy s)
  end.

Lemma delete_undo_spec n s0 s p legacy e :
  settled s → has_parts s0 p → between s p (deleted_parts n p) → named_legacy n s0 legacy →
  ks_legacy s = ks_legacy s0 ∨ ks_legacy s = None →
  spec n
    (compensate "keychain delete" e
       (undo_parts v (hashed_entry n) p
        ++ match legacy with
           | Some legacy => [restore_credential legacy (ks_legacy s0) "legacy secret before-image"]
           | None => []
           end)) s (fun s' r => delete_post n s0 s' (map_ok (fun _ : unit => tt) r)).
Proof.
  intros Hset Hp Hb Hleg Hl. apply spec_compensate, comp_app.
  intros w w' rs Hw Hrun. destruct (undo_spec n s p _ Hb Hset w w' rs Hw Hrun) as (He & Hb' & Hs' & Hl' & Hall).
  split; [done|]. destruct (kstate_of n w') as [h leg i m x lm lv]. cbn in Hl'. subst leg.
  assert (∀ y rs2 s', s' = mk_kstate h y i m x lm lv → y = ks_legacy s0 ∨ y = None →
    (Forall (fun r => r = Ok tt) rs2 → y = ks_legacy s0) →
    delete_post n s0 s' (Err (compensated_error "keychain delete" e (rs ++ rs2)))) as Hdone.
  { intros y rs2 s' -> Hy Hy2. split; [exact Hs'|]. split_and!; [exact Hy| |].
    - right. exists p, (deleted_parts n p). split_and!; [done..| |].
      + intros [Hr _]%restored_all%Forall_app. exact (Hall Hr).
      + destruct (compensated_says "keychain delete" e (rs ++ rs2)); auto.
    - intros [_ Hr]%restored_all%Forall_app. by apply Hy2. }
  destruct Hleg as [->|[-> Hl0]].
  - apply comp_cons, (restore_joined n Legacy). intros y r Hy Hok. apply comp_nil. cbn in Hy.
    apply (Hdone y); [done| |].
    + destruct Hy as [->| ->]; [exact Hl|by left].
    + intros [Hr _]%Forall_cons. by apply Hok.
  - apply comp_nil. apply (Hdone (ks_legacy s)); [done|exact Hl|]. intros _. destruct Hl as [->|Hl]; [done|congruence].
Qed.

Lemma delete_locked_spec n s : settled s → spec n (delete_locked v n) s (delete_post n s).
Proof.
  intros Hset. unfold delete_locked.
  assert (∀ e : PhantomError, delete_post n s s (Err e)) as Hno.
  { intros e. split; [done|]. split_and!; [by left|by left|done]. }
  apply spec_bind, spec_entry_for; [|apply Hno]. apply spec_bind.
  apply (spec_conseq _ _ _ (fun s' r => s' = s ∧ ∃ o, r = Ok o ∧ named_legacy n s o)).
  { apply spec_legacy_entry_for; [split; [done|]; eexists; split; [done|by left]|].
    intros Hl. split; [done|]. eexists; split; [done|by right]. }
  intros ? ? (-> & o & -> & Ho).
  apply spec_bind, (spec_read_credential n Hashed); [|apply Hno].
  apply spec_bind, (spec_conseq _ _ _ (fun s' r => s' = s ∧ ∀ x, r = Ok x → x = ks_legacy s)).
  { destruct Ho as [->|[-> Hl]].
    - apply (spec_read_credential n Legacy); [split; [done|]; by intros x [= <-]|by split].
    - apply spec_ret. split; [done|]. by intros x [= <-]. }
  intros ? [bl|e] [-> Hbl]; [|apply Hno]. rewrite (Hbl bl eq_refl). clear Hbl bl.
  apply spec_bind, spec_load_index; [|apply Hno]. intros l Hl.
  apply spec_bind, (spec_load_map n SMeta); [done| |apply Hno]. intros metas Hm.
  apply spec_bind, (spec_load_map n SVerdict); [done| |apply Hno]. intros verdicts Hv.
  set (p := mk_parts (ks_hashed s) l metas verdicts).
  assert (has_parts s p) as Hp.
  { destruct Hset as [L1 L2]. split_and!; cbn; [done|done| |]; unfold ks_metas, ks_verdicts; rewrite ?L1, ?L2.
    - cbn in Hm. by destruct (ks_metadata s).
    - cbn in Hv. by destruct (ks_validation s). }
  apply spec_fail_if; [intros _; apply Hno|]. intros Hthere.
  apply spec_bind, spec_attempt, (delete_commit_spec n s p (deleted_parts n p) o); try done.
  - intros s' Hq Hs' Hleg. apply spec_ret. split; [done|]. exists p. split_and!; [done..|].
    unfold ks_value. cbn in Hthere. cbn [pt_names p].
    destruct (ks_hashed s); [by left|]. destruct (ks_legacy s); [by left|]. right.
    destruct (decide (n ∈ l)) as [|Hn]; [done|]. by rewrite (bool_decide_false _ Hn) in Hthere.
  - intros s' e Hb Hs' Hleg. apply (spec_conseq _ _ _ _ _ (delete_undo_spec n s s' p o e Hs' Hp Hb Ho Hleg)).
    intros s'' [[]|e'] H; exact H.
Qed.

(** ** Opening: locks, older sidecars, the authoritative store *)

(** A computation that changes nothing of the vault *)
Definition quiet {E T} (n : string) (m : io W E T) : Prop := ∀ s, spec n m s (fun s' _ => s' = s).

Lemma spec_quiet {E T} n (m : io W E T) s (Q : kstate → result T E → Prop) :
  quiet n m → (∀ r, Q s r) → spec n m s Q.
Proof. intros H HQ. eapply spec_conseq; [apply H|]. by intros s' r ->. Qed.

Lemma quiet_bind {E T U} n (m : io W E T) (k : T → io W E U) : quiet n m → (∀ x, quiet n (k x)) → quiet n (io_bind m k).
Proof. intros Hm Hk s. apply spec_bind, spec_quiet; [exact Hm|]. intros [x|e]; [apply Hk|done]. Qed.

Lemma quiet_ret {E T} n (x : T) : quiet (E := E) n (io_ret x).
Proof. intros s. by apply spec_ret. Qed.

Lemma quiet_lift {E T} n (x : result T E) : quiet n (io_lift x).
Proof. intros s. by apply spec_lift. Qed.

Lemma quiet_io_try {T} n (m : io W ErrorKind T) : quiet n m → quiet n (io_try m).
Proof. intros H s. apply spec_io_try, H. Qed.

Lemma quiet_io_try_as {T} n text (m : io W ErrorKind T) : quiet n m → quiet n (io_try_as text m).
Proof. intros H s. apply spec_io_try_as, H. Qed.

Lemma quiet_keyring_try {T} n text (m : io W KeyringError T) : quiet n m → quiet n (keyring_try text m).
Proof. intros H s. apply spec_keyring_try, H. Qed.

Lemma quiet_credential_entry n st service account : quiet n (credential_entry st service account).
Proof.
  apply quiet_bind; [|intros; apply quiet_ret]. intros s. apply spec_same.
  intros w w' r _ (Hr & Ht & _)%new_credential_law. done.
Qed.

Lemma quiet_read_credential n e label : quiet n (read_credential e label).
Proof.
  intros s. apply spec_same. intros w w' r _ H. unfold read_credential in H.
  destruct (get_password e w) as [w1 r1] eqn:E. apply get_password_law in E as (Hr & Ht & _).
  destruct r1 as [|[]]; injection H as <- <-; done.
Qed.

Lemma quiet_read n f : quiet n (read_target (sidecar_target f)).
Proof.
  intros s w w' r <- ([Hf Hd] & Hr & _)%read_target_law.
  destruct (but_sidecar n f w w') as [He Hk]; [done|intros; apply Hf|]. split; [done|]. rewrite Hk.
  assert (bytes_at w' (sidecar_target f) = bytes_at w (sidecar_target f)) as -> by (unfold bytes_at; by rewrite Hf).
  destruct (viewed f) eqn:Hv; [|by destruct f]. rewrite <- (sidecar_value_of n) by done. apply set_sidecar_id.
Qed.

Lemma quiet_repair n f : quiet n (repair_private_regular (sidecar_target f)).
Proof. intros s. by apply spec_repair. Qed.

Lemma quiet_lock n f : viewed f = false → quiet n (acquire_exclusive_lock (sidecar_target f)).
Proof.
  intros Hv s w w' r <- (Hr & x & Hf)%acquire_exclusive_lock_law. destruct Hf as (_ & Hq & _).
  destruct (but_sidecar n f w w') as [He Hk]; [done..|]. split; [done|]. rewrite Hk. by destruct f.
Qed.

#[local] Hint Resolve quiet_bind quiet_ret quiet_lift quiet_io_try quiet_io_try_as quiet_keyring_try quiet_credential_entry
  quiet_read_credential quiet_repair : quiet.

Lemma quiet_sentinel n pid st : quiet n (linux_migration_sentinel_entry pid st).
Proof. unfold linux_migration_sentinel_entry. auto with quiet. Qed.

Lemma quiet_migration_state n : quiet n (linux_migration_state (kv_sidecars v) (kv_project_id v)).
Proof.
  unfold linux_migration_state. pose proof (quiet_sentinel n).
  apply quiet_bind; [apply quiet_io_try, (quiet_read n SBackend)|intros primary].
  apply quiet_bind; [apply quiet_io_try, (quiet_read n SCorroboration)|intros corroboration].
  apply quiet_bind; [apply quiet_lift|intros [| |]].
  - apply quiet_bind; [auto with quiet|intros sentinel]. apply quiet_bind; [auto with quiet|intros [bytes|]]; auto with quiet.
  - auto with quiet.
  - apply quiet_bind; [apply quiet_io_try, (quiet_repair n SBackend)|intros _].
    apply quiet_bind; [apply quiet_io_try, (quiet_repair n SCorroboration)|intros _].
    apply quiet_bind; [auto with quiet|intros sentinel]. auto 10 with quiet.
Qed.

Lemma quiet_store_from_marker n : quiet n (linux_store_from_marker (kv_sidecars v) (kv_project_id v)).
Proof. unfold linux_store_from_marker. apply quiet_bind; [apply quiet_migration_state|auto with quiet]. Qed.

Lemma quiet_acquire n : quiet n (acquire_project_lock (kv_sidecars v)).
Proof.
  unfold acquire_project_lock. apply quiet_bind; [by apply quiet_io_try_as, (quiet_lock n SStableLock)|intros _].
  apply quiet_bind; [by apply quiet_io_try_as, (quiet_lock n SLegacyLock)|auto with quiet].
Qed.

(** The stable file of a pair and the one of an older version *)
Definition stable_of (b : bool) : sidecar := if b then SMeta else SVerdict.
Definition legacy_of (b : bool) : sidecar := if b then SLegacyMeta else SLegacyVerdict.
Definition effective (b : bool) (s : kstate) : option string :=
  match sidecar_value (stable_of b) s with Some x => Some x | None => sidecar_value (legacy_of b) s end.

(** [s'] is [s] but for where one pair keeps its text. *)
Definition moved (b : bool) (s s' : kstate) : Prop :=
  ∃ x y, s' = set_sidecar (stable_of b) x (set_sidecar (legacy_of b) y s) ∧ effective b s' = effective b s.

Lemma moved_refl b s : moved b s s.
Proof.
  exists (sidecar_value (stable_of b) s), (sidecar_value (legacy_of b) s). split; [|done]. by destruct b, s.
Qed.

Lemma moved_pair b s x y :
  (match x with Some t => Some t | None => y end) = effective b s →
  moved b s (set_sidecar (stable_of b) x (set_sidecar (legacy_of b) y s)).
Proof. intros H. exists x, y. split; [done|]. rewrite <- H. by destruct b. Qed.

Lemma moved_stable b s x :
  (match x with Some t => Some t | None => sidecar_value (legacy_of b) s end) = effective b s →
  moved b s (set_sidecar (stable_of b) x s).
Proof.
  intros H. replace (set_sidecar (stable_of b) x s)
    with (set_sidecar (stable_of b) x (set_sidecar (legacy_of b) (sidecar_value (legacy_of b) s) s))
    by (by rewrite set_sidecar_id). by apply moved_pair.
Qed.

Lemma stable_viewed b : viewed (stable_of b) = true.
Proof. by destruct b. Qed.
Lemma legacy_viewed b : viewed (legacy_of b) = true.
Proof. by destruct b. Qed.
Lemma legacy_after_stable b x t : sidecar_value (legacy_of b) (set_sidecar (stable_of b) x t) = sidecar_value (legacy_of b) t.
Proof. by destruct b. Qed.
Lemma legacy_after_legacy b x t : sidecar_value (legacy_of b) (set_sidecar (legacy_of b) x t) = x.
Proof. by destruct b. Qed.
Lemma stable_after_stable b x t : sidecar_value (stable_of b) (set_sidecar (stable_of b) x t) = x.
Proof. by destruct b. Qed.
Lemma set_legacy_stable b x y t :
  set_sidecar (legacy_of b) y (set_sidecar (stable_of b) x t) = set_sidecar (stable_of b) x (set_sidecar (legacy_of b) y t).
Proof. by destruct b. Qed.
Lemma set_stable_twice b x y t :
  set_sidecar (stable_of b) y (set_sidecar (stable_of b) x t) = set_sidecar (stable_of b) y t.
Proof. by destruct b. Qed.

(** A computation on the way from its two outcomes *)
Lemma spec_cases {E E' T U} n (m : io W E T) (k : T → io W E' U) (h : E → io W E' U) s Q :
  spec n m s (fun s' r => match r with Ok x => spec n (k x) s' Q | Err e => spec n (h e) s' Q end) →
  spec n (fun w => match m w with (w1, Ok x) => k x w1 | (w1, Err e) => h e w1 end) s Q.
Proof.
  intros H w w' r Hs Hm. destruct (m w) as [w1 [x|e]] eqn:E1; destruct (H _ _ _ Hs E1) as [He HQ];
    destruct (HQ _ _ _ eq_refl Hm) as [He' HQ']; (split; [by eapply elsewhere_trans|done]).
Qed.

(** Publishing the older text under the stable name *)
Lemma move_legacy_spec n b label legacy s (Q : kstate → result unit PhantomError → Prop) :
  sidecar_value (stable_of b) s = None → sidecar_value (legacy_of b) s = Some (ar_bytes legacy) →
  (∀ s', moved b s s' → sidecar_value (legacy_of b) s' = None → Q s' (Ok tt)) →
  (∀ s' e, moved b s s' → Q s' (Err e)) →
  spec n (reconcile_sidecar_pair label (sidecar_target (stable_of b)) (sidecar_target (legacy_of b))
            (mk_pair None (Some legacy))) s Q.
Proof.
  intros Hst Hlg HQ1 HQ2. pose proof (moved_refl b s) as Hm.
  assert (effective b s = Some (ar_bytes legacy)) as Heff by (unfold effective; by rewrite Hst).
  set (s1 := set_sidecar (stable_of b) (Some (ar_bytes legacy)) s).
  assert (moved b s s1) as Hm1 by (apply moved_stable; by rewrite Heff).
  assert (moved b s (set_sidecar (legacy_of b) None s1)) as Hm2.
  { unfold s1. rewrite set_legacy_stable. apply moved_pair. by rewrite Heff. }
  apply spec_bind, spec_io_try, spec_replace; [apply stable_viewed| |by intros e; apply HQ2].
  intros e0 _ He0. apply spec_bind, spec_lift. fold s1.
  destruct (require_durable_sidecar_effect e0 _) as [published|e]; [|by apply HQ2].
  apply (spec_cases n (unlink_if_exact (sidecar_target (legacy_of b)) legacy) (fun outcome => io_lift _)).
  apply spec_unlink; [apply legacy_viewed| |].
  - intros outcome _. apply spec_lift.
    destruct outcome as [[]|[]|u e]; cbn; [apply HQ1|apply HQ1|apply HQ2]; try exact Hm2; apply legacy_after_legacy.
  - intros e1. apply spec_compensate, comp_cons, spec_bind, spec_io_try, spec_unlink; [apply stable_viewed| |].
    + intros e _. cbn. unfold s1. rewrite set_stable_twice. apply spec_lift, comp_nil, HQ2, moved_stable. by rewrite Heff.
    + intros e. cbn. apply comp_nil. by apply HQ2.
Qed.

Lemma reconcile_pair_spec n b label pair s (Q : kstate → result unit PhantomError → Prop) :
  sidecar_value (stable_of b) s = option_map ar_bytes (sp_stable pair) →
  sidecar_value (legacy_of b) s = option_map ar_bytes (sp_legacy pair) →
  ensure_sidecar_pair_compatible label pair = Ok tt →
  (∀ s', moved b s s' → sidecar_value (legacy_of b) s' = None → Q s' (Ok tt)) →
  (∀ s' e, moved b s s' → Q s' (Err e)) →
  spec n (reconcile_sidecar_pair label (sidecar_target (stable_of b)) (sidecar_target (legacy_of b)) pair) s Q.
Proof.
  destruct pair as [[stable|] [legacy|]]; cbn; intros Hst Hlg Hok HQ1 HQ2; pose proof (moved_refl b s) as Hm.
  - assert (ar_bytes stable = ar_bytes legacy) as Heq.
    { unfold ensure_sidecar_pair_compatible in Hok. cbn in Hok.
      destruct (String.eqb_spec (ar_bytes stable) (ar_bytes legacy)); [done|discriminate Hok]. }
    assert (moved b s (set_sidecar (legacy_of b) None s)) as Hm'.
    { replace (set_sidecar (legacy_of b) None s) with (set_sidecar (stable_of b) (sidecar_value (stable_of b) s) (set_sidecar (legacy_of b) None s))
        by (by destruct b, s). apply moved_pair. unfold effective. by rewrite Hst. }
    apply spec_bind, spec_io_try, spec_unlink; [apply legacy_viewed| |by intros e; apply HQ2].
    intros u _. apply spec_lift. destruct u as [[]|[]|u e]; cbn; [apply HQ1|apply HQ1|apply HQ2]; try exact Hm';
      apply legacy_after_legacy.
  - apply spec_ret. by apply HQ1.
  - by apply move_legacy_spec.
  - apply spec_ret. by apply HQ1.
Qed.

(** The vault is the same, wherever its sidecars are kept. *)
Definition same_vault (s s' : kstate) : Prop :=
  ks_hashed s' = ks_hashed s ∧ ks_legacy s' = ks_legacy s ∧ ks_index s' = ks_index s ∧
  ∀ b, effective b s' = effective b s.

Lemma same_vault_refl s : same_vault s s.
Proof. done. Qed.

Lemma same_vault_trans a b c : same_vault a b → same_vault b c → same_vault a c.
Proof. intros (?&?&?&Hx) (?&?&?&Hy). split_and!; congruence. Qed.

Lemma moved_same b s s' : moved b s s' → same_vault s s'.
Proof.
  intros (x & y & -> & H). unfold same_vault. repeat split; try by destruct b. intros p. destruct b, p; try done; exact H.
Qed.

Lemma same_view s s' : same_vault s s' → entry_view s' = entry_view s.
Proof.
  intros (H1 & H2 & H3 & H4). pose proof (H4 true) as H5. pose proof (H4 false) as H6. unfold effective in H5, H6. cbn in H5, H6.
  unfold entry_view, ks_value, ks_names, ks_metas, ks_verdicts. by rewrite H1, H2, H3, H5, H6.
Qed.

Lemma read_pair_spec n b s (Q : kstate → result SidecarPair PhantomError → Prop) :
  (∀ pair, sidecar_value (stable_of b) s = option_map ar_bytes (sp_stable pair) →
     sidecar_value (legacy_of b) s = option_map ar_bytes (sp_legacy pair) → Q s (Ok pair)) →
  (∀ e, Q s (Err e)) →
  spec n (read_sidecar_pair (sidecar_target (stable_of b)) (sidecar_target (legacy_of b))) s Q.
Proof.
  intros H1 H2. apply spec_bind, spec_io_try, spec_read_target; [apply stable_viewed| |intros; apply H2].
  intros o Ho. apply spec_bind, spec_io_try, spec_read_target; [apply legacy_viewed| |intros; apply H2].
  intros o' Ho'. by apply spec_ret, H1.
Qed.

Lemma quiet_repair_pair n b pair :
  quiet n (repair_sidecar_pair (sidecar_target (stable_of b)) (sidecar_target (legacy_of b)) pair).
Proof.
  unfold repair_sidecar_pair. apply quiet_bind; [case_bool_decide|intros _; case_bool_decide]; auto with quiet.
Qed.

Lemma moved_other b s s' : moved b s s' →
  sidecar_value (stable_of (negb b)) s' = sidecar_value (stable_of (negb b)) s ∧
  sidecar_value (legacy_of (negb b)) s' = sidecar_value (legacy_of (negb b)) s.
Proof. intros (x & y & -> & _). by destruct b. Qed.

Lemma reconcile_legacy_spec n s :
  spec n (reconcile_legacy (kv_sidecars v)) s (fun s' r => same_vault s s' ∧ (r = Ok tt → settled s')).
Proof.
  unfold reconcile_legacy.
  assert (∀ e : PhantomError, same_vault s s ∧ (Err e = Ok tt → settled s)) as Hno by done.
  apply spec_bind, (read_pair_spec n true); [intros mp M1 M2|apply Hno].
  apply spec_bind, (read_pair_spec n false); [intros vp V1 V2|apply Hno].
  apply spec_fail_if; [intros _; apply Hno|intros _].
  apply spec_bind, spec_lift. destruct (ensure_sidecar_pair_compatible "metadata" mp) as [[]|e] eqn:E1; [|apply Hno].
  apply spec_bind, spec_lift. destruct (ensure_sidecar_pair_compatible "validation metadata" vp) as [[]|e] eqn:E2; [|apply Hno].
  apply spec_bind, spec_quiet; [apply (quiet_repair_pair n true)|]. intros [[]|e]; [|apply Hno].
  apply spec_bind, spec_quiet; [apply (quiet_repair_pair n false)|]. intros [[]|e]; [|apply Hno].
  apply spec_bind, (reconcile_pair_spec n true); [done..| |intros s' e Hm; split; [by eapply moved_same|done]].
  intros s1 Hm1 Hl1. destruct (moved_other _ _ _ Hm1) as [O1 O2]. cbn [negb] in O1, O2.
  apply (reconcile_pair_spec n false); [by rewrite O1|by rewrite O2|done| |].
  - intros s2 Hm2 Hl2. destruct (moved_other _ _ _ Hm2) as [O3 O4]. split.
    + eapply same_vault_trans; by eapply moved_same.
    + intros _. split; [|exact Hl2]. change (sidecar_value (legacy_of true) s2 = None). cbn [negb] in O4. by rewrite O4.
  - intros s2 e Hm2. split; [|done]. eapply same_vault_trans; by eapply moved_same.
Qed.

(** Taking the lock keeps the vault, and leaves its sidecars at their stable
    names. *)
Lemma lock_spec {T} n (k : vault_io W T) s (Q : kstate → result T PhantomError → Prop) :
  (∀ s1, same_vault s s1 → settled s1 → spec n k s1 Q) →
  (∀ s1 e, same_vault s s1 → Q s1 (Err e)) →
  spec n (do? _ := lock_sidecars v in k) s Q.
Proof.
  intros HQ1 HQ2. apply spec_bind. unfold lock_sidecars.
  apply spec_bind, spec_quiet; [apply quiet_acquire|]. intros [[]|e]; [|by apply HQ2].
  apply spec_bind. eapply spec_conseq; [apply reconcile_legacy_spec|]. intros s1 [[]|e] [Hs Hok]; [|by apply HQ2].
  apply spec_bind, spec_quiet; [apply quiet_store_from_marker|]. intros [st|e]; [|by apply HQ2].
  apply spec_fail_if; [intros _; by apply HQ2|intros _]. apply spec_ret, HQ1; [done|by apply Hok].
Qed.

(** ** The operations *)

Lemma current_value_spec n s (Q : kstate → result (option string) PhantomError → Prop) :
  Q s (Ok (ks_value s)) → (∀ e, Q s (Err e)) → spec n (current_value_locked v n) s Q.
Proof.
  intros H1 H2. unfold current_value_locked, ks_value in *.
  apply spec_bind, spec_entry_for; [|apply H2].
  apply spec_bind, (spec_read_credential n Hashed); [|apply H2]. cbn [part_value].
  destruct (ks_hashed s) as [x|]; [by apply spec_ret|].
  apply spec_bind, spec_legacy_entry_for.
  - by apply (spec_read_credential n Legacy).
  - intros Hl. apply spec_ret. by rewrite <- Hl.
Qed.

Lemma quiet_audit n event name : quiet n (audit event name).
Proof. intros s. apply spec_same. intros w w' r _ [= <- <-]. destruct (kc_audit_law event name w). done. Qed.

(** Every part is the one before or the one after. *)
Definition mixed (s : kstate) (p q : parts) : Prop :=
  (ks_hashed s = pt_hashed p ∨ ks_hashed s = pt_hashed q) ∧
  (ks_names s = Some (pt_names p) ∨ ks_names s = Some (pt_names q)) ∧
  (ks_metas s = Some (pt_metas p) ∨ ks_metas s = Some (pt_metas q)) ∧
  (ks_verdicts s = Some (pt_verdicts p) ∨ ks_verdicts s = Some (pt_verdicts q)).

Lemma between_mixed s p q : settled s → between s p q → mixed s p q.
Proof.
  destruct s as [h leg i m x lm lv]. intros [L1 L2] (H1 & H2 & H3 & H4). cbn in *. subst.
  unfold mixed, near, ks_names, ks_metas, ks_verdicts in *. cbn in *.
  split_and!; [done|done| |]; [by destruct m|by destruct x].
Qed.

(** A write that changes [p] to [q], reported as [r]: on success the vault is
    [q]; on an error it is what it was, or the error says that the rollback was
    incomplete and each part is the one of [p] or the one of [q], or it is a
    [bare] one and nothing but the credential is that of [q]. *)
Definition wrote {T} (P : parts → parts → Prop) (operation : string) (bare : PhantomError → Prop) (s s' : kstate)
    (r : result T PhantomError) : Prop :=
  match r with
  | Ok _ => ∃ p q, has_parts s p ∧ P p q ∧ has_parts s' q
  | Err e =>
      (entry_view s' = entry_view s ∨
       ∃ p q, has_parts s p ∧ P p q ∧
         (incomplete operation e ∧ mixed s' p q ∧ (ks_legacy s' = ks_legacy s ∨ ks_legacy s' = None) ∨
          bare e ∧ has_parts s' (mk_parts (pt_hashed q) (pt_names p) (pt_metas p) (pt_verdicts p)) ∧
          ks_legacy s' = ks_legacy s)) ∧
      (restored operation e → entry_view s' = entry_view s)
  end.

Definition stores (n value : string) (o : option SecretMetadata) (p q : parts) : Prop :=
  ∃ m, metas_after n o p m ∧ q = stored_parts n value m p.

Lemma has_parts_same s s1 p : same_vault s s1 → has_parts s1 p → has_parts s p.
Proof.
  intros Hs. pose proof (same_view _ _ Hs) as Hv. unfold entry_view in Hv. injection Hv as _ H1 H2 H3.
  destruct Hs as (Hh & _). unfold has_parts. by rewrite Hh, H1, H2, H3.
Qed.

Lemma has_parts_view s s' p : has_parts s p → has_parts s' p → ks_legacy s' = ks_legacy s → entry_view s' = entry_view s.
Proof.
  intros (A1 & A2 & A3 & A4) (B1 & B2 & B3 & B4) Hl. unfold entry_view, ks_value. by rewrite A1, A2, A3, A4, B1, B2, B3, B4, Hl.
Qed.

(** From a failed write on the locked vault to one on the vault *)
Lemma wrote_failed {T} P operation bare s s1 s' e :
  same_vault s s1 → settled s' → write_failed operation bare s1 s' e P →
  ks_legacy s' = ks_legacy s1 ∨ ks_legacy s' = None →
  (restored operation e → ks_legacy s' = ks_legacy s1) → wrote (T := T) P operation bare s s' (Err e).
Proof.
  intros Hs Hset [->|(p & q & Hp & HP & Hb & Hr & Hsays)] Hleg Hl; [split; [left|intros _]; by apply same_view|].
  assert (ks_legacy s1 = ks_legacy s) as Hls by apply Hs.
  assert (restored operation e → entry_view s' = entry_view s) as Hre.
  { intros Hre. rewrite (has_parts_view s1 s' p); [by apply same_view|done|by apply Hr|by apply Hl]. }
  split; [|done]. destruct Hsays as [Hsays|[Hsays|[Hsays [y ->]]]]; [left; by apply Hre|right|].
  { exists p, q. split; [by eapply has_parts_same|]. split; [done|]. left. split; [done|].
    split; [by apply between_mixed|]. by rewrite <- Hls. }
  assert (has_parts (set_hashed y s1) (mk_parts y (pt_names p) (pt_metas p) (pt_verdicts p))) as Hy.
  { split; [done|]. apply Hp. }
  destruct Hb as [[E|E] _]; cbn in E; rewrite E in *.
  - left. rewrite (has_parts_view s1 (set_hashed (pt_hashed p) s1) p); [by apply same_view|done|by destruct p|done].
  - right. exists p, q. split; [by eapply has_parts_same|]. split; [done|]. right. by rewrite <- Hls.
Qed.

Lemma store_spec n value o s s1 :
  same_vault s s1 → settled s1 →
  spec n (store_locked v n value o) s1 (fun s' r =>
    wrote (stores n value o) "keychain store" unsure_store s s' r ∧
    match r with Ok _ => ks_value s' = Some value | Err _ => ks_legacy s' = ks_legacy s end).
Proof.
  intros Hs Hset. eapply spec_conseq; [by apply store_locked_spec|]. intros s' [[]|e] (Hset' & H).
  - destruct H as ((p & q & Hp & (m & Hm & ->) & Hq) & _). split.
    + exists p, (stored_parts n value m p). split_and!; [by eapply has_parts_same|by exists m|apply Hq..].
    + destruct Hq as (Hh & _). unfold ks_value. by rewrite Hh.
  - destruct H as (Hl & H). split; [eapply wrote_failed; eauto|]. rewrite Hl. apply Hs.
Qed.

Lemma delete_spec n s s1 :
  same_vault s s1 → settled s1 →
  spec n (delete_locked v n) s1 (fun s' r =>
    wrote (fun p q => q = deleted_parts n p) "keychain delete" never s s' r ∧
    match r with Ok _ => ks_value s' = None | Err _ => True end).
Proof.
  intros Hs Hset. eapply spec_conseq; [by apply delete_locked_spec|]. intros s' [[]|e] (Hset' & H).
  - destruct H as (p & Hp & Hq & Hl & _). split.
    + exists p, (deleted_parts n p). split_and!; [by eapply has_parts_same|done|apply Hq..].
    + destruct Hq as (Hh & _). unfold ks_value. by rewrite Hh.
  - destruct H as (Hl & H & Hr). split; [eapply wrote_failed; eauto|done].
Qed.

(** The audit call behind an operation changes nothing. *)
Lemma audited {U} n event name (x : U) s (Q : kstate → result U PhantomError → Prop) :
  Q s (Ok x) → spec n (do? _ := audit event name in io_ret x) s Q.
Proof.
  intros H w w' r <- [= <- <-]. destruct (kc_audit_law event name w) as [Hr Ht]. split.
  - split; intros; by rewrite ?Hr, ?Ht.
  - unfold kstate_of, bytes_at in *. by rewrite Hr, Ht.
Qed.

Lemma audited_last n event name s (Q : kstate → result unit PhantomError → Prop) :
  Q s (Ok tt) → spec n (audit event name) s Q.
Proof.
  intros H w w' r <- [= <- <-]. destruct (kc_audit_law event name w) as [Hr Ht]. split.
  - split; intros; by rewrite ?Hr, ?Ht.
  - unfold kstate_of, bytes_at in *. by rewrite Hr, Ht.
Qed.

Lemma wrote_weaken {T} (P P' : parts → parts → Prop) operation bare s s' (r : result T PhantomError) :
  (∀ p q, P p q → P' p q) → wrote P operation bare s s' r → wrote P' operation bare s s' r.
Proof.
  intros HP. destruct r as [x|e]; cbn.
  - intros (p & q & ? & ? & ?). exists p, q. auto.
  - intros [[H|(p & q & ? & ? & ?)] Hr]; split; auto. right. exists p, q. auto.
Qed.

Lemma wrote_unchanged {T} P operation bare s s1 e : same_vault s s1 → wrote (T := T) P operation bare s s1 (Err e).
Proof. intros Hs. split; [left|intros _]; by apply same_view. Qed.

Definition swaps (n : string) (replacement : option string) (p q : parts) : Prop :=
  match replacement with
  | Some value => stores n value None p q
  | None => q = deleted_parts n p
  end.
Definition swap_operation (replacement : option string) : string :=
  match replacement with Some _ => "keychain store" | None => "keychain delete" end.
Definition swap_bare (replacement : option string) : PhantomError → Prop :=
  match replacement with Some _ => unsure_store | None => never end.

Lemma kc_store_spec n value s :
  spec n (kc_store v n value) s (wrote (stores n value None) "keychain store" unsure_store s).
Proof.
  apply lock_spec; [|intros s1 e Hs; by apply wrote_unchanged]. intros s1 Hs Hset.
  apply spec_bind. eapply spec_conseq; [by apply store_spec|]. intros s' [[]|e] [H _]; [|exact H].
  by apply audited_last.
Qed.

Lemma kc_store_with_expiry_spec n value days s :
  spec n (kc_store_with_expiry v n value days) s
    (wrote (fun p q => ∃ now, stores n value (Some (with_expiry now days)) p q) "keychain store" unsure_store s).
Proof.
  apply lock_spec; [|intros s1 e Hs; by apply wrote_unchanged]. intros s1 Hs Hset.
  apply spec_bind, (spec_quiet _ read_clock).
  { intros s2. apply spec_same. intros w w' r _ Hm. unfold read_clock in Hm. destruct (now_secs w) as [w1 t] eqn:E.
    injection Hm as <- <-. by apply kc_clock_law in E as [Hr Ht]. }
  intros [now|e]; [|by apply wrote_unchanged].
  apply spec_bind. eapply spec_conseq; [by apply store_spec|]. intros s' r [H _].
  assert (wrote (fun p q => ∃ now, stores n value (Some (with_expiry now days)) p q) "keychain store" unsure_store s s' r) as H'.
  { revert H. by apply wrote_weaken; eauto. }
  destruct r as [[]|e]; [|exact H']. by apply audited_last.
Qed.

Lemma kc_delete_spec n s :
  spec n (kc_delete v n) s (wrote (fun p q => q = deleted_parts n p) "keychain delete" never s).
Proof.
  apply lock_spec; [|intros s1 e Hs; by apply wrote_unchanged]. intros s1 Hs Hset.
  apply spec_bind. eapply spec_conseq; [by apply delete_spec|]. intros s' [[]|e] [H _]; [|exact H].
  by apply audited_last.
Qed.

Lemma kc_compare_and_swap_spec n expected replacement s :
  spec n (kc_compare_and_swap v n expected replacement) s (fun s' r =>
    match r with
    | Ok false => ks_value s ≠ expected ∧ entry_view s' = entry_view s
    | Ok true => ks_value s = expected ∧ ks_value s' = replacement ∧
        (entry_view s' = entry_view s ∨ ∃ p q, has_parts s p ∧ swaps n replacement p q ∧ has_parts s' q)
    | Err _ => wrote (swaps n replacement) (swap_operation replacement) (swap_bare replacement) s s' r
    end).
Proof.
  apply lock_spec; [|intros s1 e Hs; by apply wrote_unchanged]. intros s1 Hs Hset.
  assert (ks_value s1 = ks_value s) as Hval by (pose proof (same_view _ _ Hs) as Hv; unfold entry_view in Hv; congruence).
  apply spec_bind, current_value_spec; [|intros e; by apply wrote_unchanged]. rewrite Hval.
  case_bool_decide as E1; cbn [negb]; [|apply spec_ret; split; [done|by apply same_view]].
  case_bool_decide as E2; [apply spec_ret; split_and!; [done|congruence|left; by apply same_view]|].
  apply spec_bind. apply (spec_conseq _ _ _ (fun s' r => wrote (swaps n replacement) (swap_operation replacement) (swap_bare replacement) s s' r ∧
      match r with Ok _ => ks_value s' = replacement | Err _ => True end)).
  - destruct replacement as [value|]; cbn [swaps swap_operation].
    + eapply spec_conseq; [by apply store_spec|]. intros s' [[]|e] [H Hv]; by split.
    + by apply delete_spec.
  - intros s' [[]|e] [H Hv]; [|exact H]. apply audited. split_and!; [done..|]. by right.
Qed.

(** ** The migration of an older entry *)

(** What [migrate_legacy_transaction] leaves of a value that is kept under
    the plain name only *)
Definition migrated_entry (n x : string) (l : list string) (s s' : kstate) (r : result string PhantomError) : Prop :=
  ks_value s' = Some x ∧ ks_metadata s' = ks_metadata s ∧ ks_validation s' = ks_validation s ∧ settled s' ∧
  near [] l (add_to_index n l) (ks_index s') ∧
  (ks_legacy s' = Some x ∨ ks_hashed s' = Some x ∧ ks_names s' = Some (add_to_index n l)) ∧
  match r with
  | Ok y => y = x ∧ ks_hashed s' = Some x ∧ ks_legacy s' = None ∧ ks_names s' = Some (add_to_index n l)
  | Err e => restored "legacy keychain migration" e → entry_view s' = entry_view s
  end.

Lemma elem_of_add n l : n ∈ add_to_index n l.
Proof.
  unfold add_to_index. case_bool_decide; [done|]. unfold sort_keys. rewrite merge_sort_Permutation. set_solver.
Qed.

Section migrate.
Context (n x : string) (l : list string) (i m vd : option string).
Context (Hi : meaning [] i = Some l).
Let B := keychain_legacy_migration v (hashed_entry n) (legacy_entry n).
Let s0 := mk_kstate None (Some x) i m vd None None.

Let at_ h g j := mk_kstate h g j m vd None None.

(** A failure whose compensations are [rs] *)
Lemma migrate_failed h g j error rs :
  h = None ∨ h = Some x → near [] l (add_to_index n l) j →
  g = Some x ∨ h = Some x ∧ meaning [] j = Some (add_to_index n l) ∧ (g = None ∨ g = Some x) →
  (Forall (fun r => r = Ok tt) rs → h = None ∧ g = Some x ∧ meaning [] j = Some l) →
  spec n (io_throw (compensated_error "legacy keychain migration" error rs)) (at_ h g j) (migrated_entry n x l s0).
Proof.
  intros Hh Hj Hg Hr. apply spec_throw. unfold migrated_entry.
  assert (ks_value (at_ h g j) = Some x) as Hv.
  { unfold ks_value, at_; cbn. destruct Hh as [->| ->]; [|done]. destruct Hg as [->|[[=] _]]; done. }
  split; [exact Hv|]. split; [done|]. split; [done|]. split; [done|]. split; [exact Hj|]. split; [naive_solver|].
  intros Hre. destruct (Hr (restored_all _ _ _ Hre)) as (-> & -> & Hj').
  unfold entry_view, ks_value, ks_names, ks_metas, ks_verdicts; cbn. by rewrite Hj', Hi.
Qed.

Lemma migrate_unchanged e : migrated_entry n x l s0 s0 (Err e).
Proof. unfold migrated_entry, near. cbn. repeat split; auto. Qed.

Lemma remove_hashed_last h j error before :
  h = None ∨ h = Some x → near [] l (add_to_index n l) j →
  (Forall (fun r => r = Ok tt) before → meaning [] j = Some l) →
  spec n (do? undone := io_attempt (remove_credential (hashed_entry n) "migrated hashed secret") in
          io_throw (compensated_error "legacy keychain migration" error (before ++ [undone])))
    (at_ h (Some x) j) (migrated_entry n x l s0).
Proof.
  intros Hh Hj Hb. apply spec_bind, spec_attempt, (spec_remove_credential n Hashed).
  - apply migrate_failed; [by left|done|by left|]. intros [H _]%Forall_app. split_and!; [done..|by apply Hb].
  - intros y e Hy. cbn in Hy. apply (migrate_failed y); [destruct Hy as [->| ->]; auto|done|by left|].
    intros [_ H]%Forall_app. by apply Forall_cons in H as [? _].
Qed.

(** Putting the older entry back after its removal was not confirmed *)
Lemma restore_legacy_spec g j error index_changed :
  index_changed = negb (bool_decide (add_to_index n l = l)) →
  g = None ∨ g = Some x → meaning [] j = Some (add_to_index n l) →
  let failed error results := io_throw (compensated_error "legacy keychain migration" error results) in
  spec n
    (do? rewritten := io_attempt (keyring_try "Failed to restore legacy secret: " (set_password (legacy_entry n) x)) in
     match rewritten with
     | Err restore_error => failed error [Err restore_error]
     | Ok _ =>
         do? restored := (if index_changed then
                            do? r := io_attempt (save_index v l) in
                            io_ret (match r with Ok _ => Ok [Ok tt] | Err e => Err e end)
                          else io_ret (Ok [])) in
         match restored with
         | Err restore_error => failed error [Ok tt; Err restore_error]
         | Ok results =>
             do? undone := io_attempt (remove_credential (hashed_entry n) "migrated hashed secret") in
             failed error ([Ok tt] ++ results ++ [undone])
         end
     end) (at_ (Some x) g j) (migrated_entry n x l s0).
Proof.
  intros Hch Hg Hj failed. assert (near [] l (add_to_index n l) j) as Nj by (by right).
  apply spec_bind, spec_attempt, spec_keyring_try, (spec_set n Legacy).
  2: { intros y e Hy. cbn in Hy. apply (migrate_failed (Some x) y); [by right|done| |].
       - right. split_and!; [done..|]. destruct Hy as [->| ->]; [exact Hg|by right].
       - intros H. by apply Forall_cons in H as [? _]. }
  apply spec_bind. destruct index_changed.
  - apply spec_bind, spec_attempt, (save_index_joined _ _ (add_to_index n l)); [exact Nj|]. intros y [[]|e] Hy Hok.
    + apply spec_ret. apply (remove_hashed_last (Some x) y error [Ok tt; Ok tt]); [by right|exact Hy|].
      intros _. by apply Hok.
    + apply spec_ret. apply (migrate_failed (Some x) (Some x) y); [by right|exact Hy|by left|].
      intros H. apply Forall_cons in H as [_ H]. by apply Forall_cons in H as [? _].
  - apply spec_ret. apply (remove_hashed_last (Some x) j error [Ok tt]); [by right|exact Nj|].
    intros _. symmetry in Hch. apply Bool.negb_false_iff, bool_decide_eq_true in Hch. by rewrite Hj, Hch.
Qed.

Lemma migrate_spec :
  spec n (migrate_legacy_transaction (B := B) n) s0 (migrated_entry n x l s0).
Proof.
  unfold migrate_legacy_transaction, B. cbn [read_hashed read_legacy lmb_load_index write_hashed lmb_save_index remove_hashed
    remove_legacy write_legacy keychain_legacy_migration].
  set (changed := negb (bool_decide (add_to_index n l = l))).
  apply spec_bind, (spec_read_credential n Hashed); [|apply migrate_unchanged]. cbn [part_value ks_hashed s0].
  apply spec_bind, (spec_read_credential n Legacy); [|apply migrate_unchanged]. cbn [part_value ks_legacy s0].
  apply spec_bind, spec_lift. cbn [ok_or].
  apply spec_bind, spec_load_index; [|apply migrate_unchanged]. intros l' Hl'.
  assert (l' = l) as -> by (unfold ks_names in Hl'; cbn [ks_index s0] in Hl'; congruence). fold changed.
  assert (near [] l (add_to_index n l) i) as Ni by (by left).
  apply spec_bind, spec_attempt, spec_keyring_try, (spec_set n Hashed).
  2: { intros y e Hy. apply (remove_hashed_last y i _ []); [|done|done]. cbn in Hy. destruct Hy as [->| ->]; auto. }
  apply spec_bind, (spec_conseq _ _ _ (fun s' r => ∃ j sv, r = Ok sv ∧ s' = at_ (Some x) (Some x) j ∧
      near [] l (add_to_index n l) j ∧ (sv = Ok tt → meaning [] j = Some (add_to_index n l)))).
  { destruct changed eqn:Ec.
    - apply spec_attempt, (spec_save_index_near _ l); [done| |].
      + intros y Hy. exists y, (Ok tt). split_and!; [done..|by right|done].
      + intros y e Hy. exists y, (Err e). split_and!; done.
    - apply spec_ret. exists i, (Ok tt). split_and!; [done..|]. intros _.
      apply Bool.negb_false_iff, bool_decide_eq_true in Ec. by rewrite Hi, Ec. }
  intros s1 r (j & sv & -> & -> & Nj & Hsv). destruct sv as [[]|e].
  - specialize (Hsv eq_refl). apply spec_bind, spec_attempt, (spec_remove_credential n Legacy).
    + apply spec_ret. unfold migrated_entry. cbn. split_and!; try done. by right.
    + intros y e Hy. apply (restore_legacy_spec y j); [done|cbn in Hy; destruct Hy as [->| ->]; auto|done].
  - apply spec_bind, spec_attempt, (save_index_joined _ _ (add_to_index n l)); [exact Nj|]. intros y [[]|e'] Hy Hok.
    + apply (remove_hashed_last (Some x) y e [Ok tt]); [by right|done|]. intros _. by apply Hok.
    + apply (migrate_failed (Some x) (Some x) y); [by right|done|by left|]. intros H. by apply Forall_cons in H as [? _].
Qed.
End migrate.

(** What retrieving leaves *)
Definition retrieved (n : string) (s s' : kstate) (r : result string PhantomError) : Prop :=
  ks_value s' = ks_value s ∧ ks_metas s' = ks_metas s ∧ ks_verdicts s' = ks_verdicts s ∧
  (ks_hashed s = None → ks_legacy s' = None → ks_hashed s' ≠ None → ∃ l, ks_names s' = Some l ∧ n ∈ l) ∧
  match r with
  | Ok x => ks_value s = Some x ∧ ks_hashed s' = Some x
  | Err e => restored "legacy keychain migration" e → entry_view s' = entry_view s
  end.

Lemma retrieved_unchanged n s s' r :
  same_vault s s' → (∀ x, r = Ok x → ks_hashed s = Some x) → retrieved n s s' r.
Proof.
  intros Hs Hok. pose proof (same_view _ _ Hs) as Hv. pose proof Hv as Hv'. unfold entry_view in Hv'.
  injection Hv' as H1 H2 H3 H4. destruct Hs as (Hh & Hl & _). unfold retrieved. split; [done|]. split; [done|]. split; [done|].
  split; [intros E1 E2 E3; congruence|]. destruct r as [x|e]; [|done].
  specialize (Hok x eq_refl). rewrite Hh. unfold ks_value. by rewrite Hok.
Qed.

Lemma migrate_any n s s1 :
  same_vault s s1 → settled s1 → ks_hashed s1 = None →
  spec n (migrate_legacy_transaction (B := keychain_legacy_migration v (hashed_entry n) (legacy_entry n)) n) s1
    (retrieved n s).
Proof.
  intros Hs Hset Hh. assert (∀ e, retrieved n s s1 (Err e)) as Hno by (intros e; by apply retrieved_unchanged).
  destruct s1 as [h leg i m vd lm lv]. destruct Hset as [L1 L2]. cbn in Hh, L1, L2. subst h lm lv.
  destruct leg as [x|].
  2: { apply spec_bind, (spec_read_credential n Hashed); [|exact Hno].
       apply spec_bind, (spec_read_credential n Legacy); [|exact Hno]. apply spec_bind, spec_lift. apply Hno. }
  destruct (meaning [] i) as [l|] eqn:Ei.
  2: { apply spec_bind, (spec_read_credential n Hashed); [|exact Hno].
       apply spec_bind, (spec_read_credential n Legacy); [|exact Hno]. apply spec_bind, spec_lift. cbn [ok_or part_value ks_legacy].
       apply spec_bind, spec_load_index; [|exact Hno]. intros l Hl. unfold ks_names in Hl. cbn in Hl. congruence. }
  eapply spec_conseq; [by apply migrate_spec|].
  intros s' r (V & M & D & [L1' L2'] & N & G & R). pose proof (same_view _ _ Hs) as Hv. pose proof Hv as Hv'.
  unfold entry_view in Hv'. injection Hv' as H1 H2 H3 H4. cbn in H1.
  split; [congruence|]. split; [rewrite <- H3; unfold ks_metas; by rewrite M, L1'|].
  split; [rewrite <- H4; unfold ks_verdicts; by rewrite D, L2'|]. split.
  - intros _ E2 E3. destruct G as [G|[_ G]]; [congruence|]. exists (add_to_index n l). split; [done|apply elem_of_add].
  - destruct r as [y|e]; [destruct R as (-> & R & _); split; [by rewrite <- H1|done]|].
    intros Hre. rewrite (R Hre). exact Hv.
Qed.

Lemma retrieve_spec n s : spec n (kc_retrieve v n) s (retrieved n s).
Proof.
  apply lock_spec; [|intros s1 e Hs; by apply retrieved_unchanged]. intros s1 Hs Hset.
  assert (∀ e, retrieved n s s1 (Err e)) as Hno by (intros e; by apply retrieved_unchanged).
  assert (ks_hashed s1 = ks_hashed s) as Hh by apply Hs.
  apply spec_bind, spec_entry_for; [|exact Hno]. intros w w' r Hw Hm.
  destruct (get_password (hashed_entry n) w) as [w1 r1] eqn:E.
  pose proof (spec_get n Hashed s1 (fun s2 r1 => s2 = s1 ∧ match r1 with
     Ok x => ks_hashed s1 = Some x | Err NoEntry => ks_hashed s1 = None | Err _ => True end)
     ltac:(by split) ltac:(by split) ltac:(by split) w w1 r1 Hw E) as (He & Hw1 & Hr1).
  destruct r1 as [x|[|t]].
  - revert Hm. match goal with |- ?m w1 = _ → _ => cut (spec n m s1 (retrieved n s)) end.
    { intros H Hm. destruct (H w1 w' r Hw1 Hm). split; [by eapply elsewhere_trans|done]. }
    apply audited, retrieved_unchanged; [done|]. intros y [= <-]. congruence.
  - revert Hm. match goal with |- ?m w1 = _ → _ => cut (spec n m s1 (retrieved n s)) end.
    { intros H Hm. destruct (H w1 w' r Hw1 Hm). split; [by eapply elsewhere_trans|done]. }
    apply spec_bind, spec_legacy_entry_for; [|intros _; apply spec_bind, spec_lift; apply Hno].
    apply spec_bind, spec_lift. cbn [ok_or]. apply spec_bind. eapply spec_conseq; [by apply (migrate_any n s)|].
    intros s' [y|e] HR; [by apply audited|exact HR].
  - injection Hm as <- <-. split; [done|]. rewrite Hw1. apply Hno.
Qed.
(** ** Reads and metadata *)

(** An operation that answers from the vault and leaves it as it was *)
Definition answers {T} (s : kstate) (A : T → Prop) (s' : kstate) (r : result T PhantomError) : Prop :=
  entry_view s' = entry_view s ∧ ∀ x, r = Ok x → A x.

Lemma answers_locked {T} s s1 (A : T → Prop) e : same_vault s s1 → answers s A s1 (Err e).
Proof. intros Hs. split; [by apply same_view|done]. Qed.

Lemma metas_settled s s1 : same_vault s s1 → settled s1 → meaning ∅ (ks_metadata s1) = ks_metas s.
Proof.
  intros Hs [L1 L2]. pose proof (same_view _ _ Hs) as Hv. unfold entry_view in Hv. injection Hv as _ _ <- _.
  unfold ks_metas. rewrite L1. by destruct (ks_metadata s1).
Qed.

Lemma verdicts_settled s s1 : same_vault s s1 → settled s1 → meaning ∅ (ks_validation s1) = ks_verdicts s.
Proof.
  intros Hs [L1 L2]. pose proof (same_view _ _ Hs) as Hv. unfold entry_view in Hv. injection Hv as _ _ _ <-.
  unfold ks_verdicts. rewrite L2. by destruct (ks_validation s1).
Qed.

Lemma names_settled s s1 : same_vault s s1 → ks_names s1 = ks_names s.
Proof. intros (_ & _ & Hi & _). unfold ks_names. by rewrite Hi. Qed.

Lemma kc_list_spec n s : spec n (kc_list v) s (answers s (fun l => ks_names s = Some l)).
Proof.
  apply lock_spec; [|intros; by apply answers_locked]. intros s1 Hs Hset.
  apply spec_load_index; [|intros; by apply answers_locked]. intros l Hl. split; [by apply same_view|].
  intros ? [= <-]. by rewrite <- (names_settled s s1).
Qed.

Lemma kc_get_metadata_spec n s :
  spec n (kc_get_metadata v n) s (answers s (fun m => ∃ metas, ks_metas s = Some metas ∧ m = metas !! n)).
Proof.
  apply lock_spec; [|intros; by apply answers_locked]. intros s1 Hs Hset.
  apply spec_bind, (spec_load_map n SMeta); [done| |intros; by apply answers_locked]. intros metas Hm.
  apply spec_ret. split; [by apply same_view|]. intros ? [= <-]. exists metas. by rewrite <- (metas_settled s s1).
Qed.

Lemma kc_get_validation_exact_spec n s :
  spec n (kc_get_validation_exact v n) s (answers s (fun m => ∃ d, ks_verdicts s = Some d ∧ m = d !! n)).
Proof.
  apply lock_spec; [|intros; by apply answers_locked]. intros s1 Hs Hset.
  apply spec_bind, (spec_load_map n SVerdict); [done| |intros; by apply answers_locked]. intros d Hd.
  apply spec_ret. split; [by apply same_view|]. intros ? [= <-]. exists d. by rewrite <- (verdicts_settled s s1).
Qed.

Lemma kc_retrieve_for_injection_spec n s :
  spec n (kc_retrieve_for_injection v n) s (answers s (fun x => ks_value s = Some x ∧
    ∃ metas, ks_metas s = Some metas ∧ ∀ m, metas !! n = Some m → is_read_only (sm_vault_mode m) = false)).
Proof.
  apply lock_spec; [|intros; by apply answers_locked]. intros s1 Hs Hset.
  apply spec_bind, (spec_load_map n SMeta); [done| |intros; by apply answers_locked]. intros metas Hm.
  apply spec_bind, spec_lift. destruct (ensure_secret_injectable n (metas !! n)) as [[]|e] eqn:Ei; [|by apply answers_locked].
  apply spec_bind, current_value_spec; [|intros; by apply answers_locked].
  apply spec_bind, spec_lift. destruct (ks_value s1) as [x|] eqn:Ev; [|by apply answers_locked]. cbn [ok_or].
  apply audited. pose proof (same_view _ _ Hs) as Hv. split; [done|]. intros ? [= <-].
  unfold entry_view in Hv. injection Hv as Hval _ _ _. split; [congruence|]. exists metas.
  split; [by rewrite <- (metas_settled s s1)|]. intros m Hn. unfold ensure_secret_injectable in Ei. rewrite Hn in Ei.
  by destruct (is_read_only (sm_vault_mode m)).
Qed.

(** *** The metadata sidecars *)

(** A change of the metadata map, and of nothing else, as it is reported *)
Definition changed_metas {T} (s : kstate) (P : list string → gmap string SecretMetadata → gmap string SecretMetadata → Prop)
    (done_ : T → bool) (s' : kstate) (r : result T PhantomError) : Prop :=
  let changed := ∃ l before after, ks_names s = Some l ∧ ks_metas s = Some before ∧ P l before after ∧
                 entry_view s' = (ks_value s, ks_names s, Some after, ks_verdicts s) in
  match r with
  | Ok x => if done_ x then changed else entry_view s' = entry_view s
  | Err _ => entry_view s' = entry_view s ∨ changed
  end.

Lemma saved_metas s s1 y m :
  same_vault s s1 → settled s1 → meaning ∅ y = Some m →
  entry_view (set_sidecar SMeta y s1) = (ks_value s, ks_names s, Some m, ks_verdicts s).
Proof.
  intros Hs Hset Hy. pose proof (same_view _ _ Hs) as Hv. unfold entry_view in Hv. injection Hv as H1 H2 H3 H4.
  destruct Hset as [L1 L2]. unfold entry_view. rewrite <- H1, <- H2, <- H4. unfold ks_metas. cbn. rewrite L1.
  rewrite <- Hy. by destruct y.
Qed.

Lemma kc_set_metadata_spec n meta s :
  spec n (kc_set_metadata v n meta) s
    (changed_metas s (fun l before after => n ∈ l ∧ after = <[n := meta]> before) (fun _ : unit => true)).
Proof.
  apply lock_spec; [|intros s1 e Hs; left; by apply same_view]. intros s1 Hs Hset.
  assert (∀ e : PhantomError, changed_metas s (fun l before after => n ∈ l ∧ after = <[n := meta]> before)
            (fun _ : unit => true) s1 (Err e)) as Hno by (intros e; left; by apply same_view).
  apply spec_bind, spec_load_index; [|exact Hno]. intros l Hl. rewrite (names_settled s s1) in Hl by done.
  apply spec_fail_if; [intros _; apply Hno|]. intros Hin%Bool.negb_false_iff%bool_decide_eq_true.
  apply spec_bind, (spec_load_map n SMeta); [done| |exact Hno]. intros before Hb. cbn in Hb.
  rewrite (metas_settled s s1) in Hb by done.
  assert (∀ y, meaning ∅ y = Some (<[n := meta]> before) → ∃ l before0 after, ks_names s = Some l ∧ ks_metas s = Some before0 ∧
    (n ∈ l ∧ after = <[n := meta]> before0) ∧
    entry_view (set_sidecar SMeta y s1) = (ks_value s, ks_names s, Some after, ks_verdicts s)) as Hdone.
  { intros y Hy. exists l, before, (<[n := meta]> before). split_and!; [done..|by apply saved_metas]. }
  apply (spec_save_map n SMeta); [done| |].
  - intros b Hw. by apply Hdone, written_means.
  - intros y e [->|(b & Hw & ->)].
    + left. rewrite set_sidecar_id. by apply same_view.
    + right. by apply Hdone, written_means.
Qed.

Lemma kc_metadata_batch_spec n changes s :
  spec n (kc_metadata_batch v changes) s
    (changed_metas s (fun l before after =>
       check_changes mc_name mc_expected "metadata" l [] changes before = Ok true ∧
       after = apply_changes mc_name mc_replacement changes before) (fun b : bool => b)).
Proof.
  unfold kc_metadata_batch, cas_batch. set (P := fun l before after => _ ∧ _).
  apply lock_spec; [|intros s1 e Hs; left; by apply same_view]. intros s1 Hs Hset.
  assert (∀ e : PhantomError, changed_metas s P (fun b : bool => b) s1 (Err e)) as Hno by (intros e; left; by apply same_view).
  apply spec_bind, spec_load_index; [|exact Hno]. intros l Hl. rewrite (names_settled s s1) in Hl by done.
  apply spec_bind, spec_bind, spec_io_try, (spec_read_target n SMeta); [done| |by intros; apply Hno].
  intros o Ho. cbn in Ho. apply spec_bind, (spec_conseq _ _ _ (fun s' r => s' = s1 ∧
    match r with Ok m => ks_metas s = Some m | Err _ => True end)).
  { destruct o as [contents|]; cbn in Ho.
    - apply spec_lift. split; [done|]. destruct (json_read (ar_bytes contents)) as [m|e] eqn:Em; [|done]. cbn.
      rewrite <- (metas_settled s s1), Ho by done. cbn. by rewrite Em.
    - apply spec_ret. split; [done|]. by rewrite <- (metas_settled s s1), Ho. }
  intros ? [before|e] [-> Hb]; [|apply Hno]. apply spec_ret.
  apply spec_bind, spec_lift. destruct (check_changes _ _ _ _ _ _ _) as [[]|e] eqn:Ec; cbn [negb]; [|by apply spec_ret, same_view|apply Hno].
  assert (∀ y, meaning ∅ y = Some (apply_changes mc_name mc_replacement changes before) →
    ∃ l before0 after, ks_names s = Some l ∧ ks_metas s = Some before0 ∧ P l before0 after ∧
    entry_view (set_sidecar SMeta y s1) = (ks_value s, ks_names s, Some after, ks_verdicts s)) as Hdone.
  { intros y Hy. exists l, before, (apply_changes mc_name mc_replacement changes before).
    split_and!; [done..|]. by apply saved_metas. }
  apply spec_bind. destruct changes as [|c changes]; cbn [is_nil].
  - apply spec_ret, spec_ret. cbn. rewrite <- (set_sidecar_id SMeta s1). apply Hdone. cbn. rewrite (metas_settled s s1) by done.
    exact Hb.
  - apply (spec_save_if_unchanged n SMeta); [done| |].
    + intros b Hw. apply spec_ret. by apply Hdone, written_means.
    + intros y e [->|(b & Hw & ->)].
      * left. rewrite set_sidecar_id. by apply same_view.
      * right. by apply Hdone, written_means.
Qed.
(** ** What the vault guarantees *)

(** C8: Every write is all or nothing, or says that it may not be, with one
    exception.  On success the credential, the index, the metadata and the
    verdict are those of the write; on an error the vault is what it was, and
    always when the error says that the prior state was restored; or the error
    says that the rollback was incomplete, and each part is the one before or
    the one after.  The exception is a store whose first step, writing the
    credential, reports a failure after it took effect: the error is that
    failure, nothing is compensated, and the credential alone is the new one.
    Nothing else is touched.  A swap compares the value that is retrieved, and
    one that reports a mismatch changed nothing. *)
Theorem keychain_writes_atomic n w :
  let s := kstate_of n w in
  (∀ value w' r, kc_store v n value w = (w', r) →
     elsewhere n w w' ∧ wrote (stores n value None) "keychain store" unsure_store s (kstate_of n w') r) ∧
  (∀ value days w' r, kc_store_with_expiry v n value days w = (w', r) →
     elsewhere n w w' ∧
     wrote (fun p q => ∃ now, stores n value (Some (with_expiry now days)) p q) "keychain store" unsure_store s (kstate_of n w') r) ∧
  (∀ w' r, kc_delete v n w = (w', r) →
     elsewhere n w w' ∧ wrote (fun p q => q = deleted_parts n p) "keychain delete" never s (kstate_of n w') r) ∧
  (∀ expected replacement w' r, kc_compare_and_swap v n expected replacement w = (w', r) →
     elsewhere n w w' ∧
     match r with
     | Ok false => ks_value s ≠ expected ∧ entry_view (kstate_of n w') = entry_view s
     | Ok true => ks_value s = expected ∧ ks_value (kstate_of n w') = replacement ∧
         (entry_view (kstate_of n w') = entry_view s ∨
          ∃ p q, has_parts s p ∧ swaps n replacement p q ∧ has_parts (kstate_of n w') q)
     | Err _ => wrote (swaps n replacement) (swap_operation replacement) (swap_bare replacement) s (kstate_of n w') r
     end).
Proof.
  intros s. split_and!; intros.
  - by eapply kc_store_spec.
  - by eapply kc_store_with_expiry_spec.
  - by eapply kc_delete_spec.
  - by eapply kc_compare_and_swap_spec.
Qed.

(** Reads answer from the vault and leave it as it was; a value is handed out
    for injection only while its entry is not read-only. *)
Theorem keychain_reads_exact n w :
  let s := kstate_of n w in
  (∀ w' r, kc_list v w = (w', r) →
     elsewhere n w w' ∧ answers s (fun l => ks_names s = Some l) (kstate_of n w') r) ∧
  (∀ w' r, kc_get_metadata v n w = (w', r) →
     elsewhere n w w' ∧ answers s (fun m => ∃ metas, ks_metas s = Some metas ∧ m = metas !! n) (kstate_of n w') r) ∧
  (∀ w' r, kc_get_validation_exact v n w = (w', r) →
     elsewhere n w w' ∧ answers s (fun m => ∃ d, ks_verdicts s = Some d ∧ m = d !! n) (kstate_of n w') r) ∧
  (∀ w' r, kc_retrieve_for_injection v n w = (w', r) →
     elsewhere n w w' ∧
     answers s (fun x => ks_value s = Some x ∧
       ∃ metas, ks_metas s = Some metas ∧ ∀ m, metas !! n = Some m → is_read_only (sm_vault_mode m) = false)
       (kstate_of n w') r).
Proof.
  intros s. split_and!; intros.
  - by eapply kc_list_spec.
  - by eapply kc_get_metadata_spec.
  - by eapply kc_get_validation_exact_spec.
  - by eapply kc_retrieve_for_injection_spec.
Qed.

(** C10: Retrieving moves a value from the plain name of older versions to its
    hashed name, and never loses it: whatever fails, the value is retrieved
    again, and a value that is left under its hashed name only is listed in
    the index; an error that says the prior state was restored means that the
    vault is what it was. *)
Theorem legacy_value_never_lost n w w' r :
  kc_retrieve v n w = (w', r) →
  elsewhere n w w' ∧ retrieved n (kstate_of n w) (kstate_of n w') r.
Proof. by apply retrieve_spec. Qed.

(** Metadata changes are exact: of an indexed name, or of a batch that
    matches, all of it or none. *)
Theorem keychain_metadata_exact n w :
  let s := kstate_of n w in
  (∀ meta w' r, kc_set_metadata v n meta w = (w', r) →
     elsewhere n w w' ∧
     changed_metas s (fun l before after => n ∈ l ∧ after = <[n := meta]> before) (fun _ => true) (kstate_of n w') r) ∧
  (∀ changes w' r, kc_metadata_batch v changes w = (w', r) →
     elsewhere n w w' ∧
     changed_metas s (fun l before after =>
       check_changes mc_name mc_expected "metadata" l [] changes before = Ok true ∧
       after = apply_changes mc_name mc_replacement changes before) (fun b => b) (kstate_of n w') r).
Proof.
  intros s. split; intros.
  - by eapply kc_set_metadata_spec.
  - by eapply kc_metadata_batch_spec.
Qed.
End spec.
