(* ===== verification/KeychainMigration.v ===== *)
(** * The migration from keyutils to Secret Service

    [migrate_linux_to_secret_service] publishes its two markers only when
    Secret Service holds every value and the index, never overwrites a
    credential there, and keeps the source ([migration_publishes_complete]):
    whatever step fails, the project is left on keyutils, or refuses access,
    or is complete on Secret Service. *)

From S2P Require Import Prelude Text Ids External Canonical StateDir Rotation VaultMeta VaultData AnchoredFs FileVault FileVaultSpec Keychain KeychainSpec.

Section migration.
Context {W : Type} `{F : !AnchoredFs W} `{VF : !VaultFs F} `{KF : !KeychainFs F} `{X : External} `{UT : UnicodeTables}.
Context `{KR : !Keyring W} `{JI : !JsonOf (list string)} `{JL : !JsonOf LinuxBackendMarker}.
Context (ring : W → Entry → option string) (tview : W → tree).
Context `{FL : !AnchoredFsLaws F tview ring} `{VFL : !VaultFsLaws VF tview ring FL}.
Context `{KFL : !KeychainFsLaws KF tview ring FL} `{KRL : !KeyringLaws KR ring tview}.
Context `{XL : !ExternalLaws X} `{JIL : !JsonLaws (list string)} `{JLL : !JsonLaws LinuxBackendMarker}.
Context (project_id : string) (sidecars : KeychainSidecars).
Context (Hpaths : NoDup (sidecar_paths ring tview (explicit_linux_vault project_id sidecars LinuxKeyutils))).

(** Opening the sidecars again and again gives the same targets, and creates
    at most directories. *)
Context (open_sidecars : vault_io W KeychainSidecars).
Context (Hopen : ∀ w w' r, open_sidecars w = (w', r) →
  ring w' = ring w ∧ (∀ p, file_at (tview w') p = file_at (tview w) p) ∧ ∀ s, r = Ok s → s = sidecars).

Abbreviation source := (explicit_linux_vault project_id sidecars LinuxKeyutils).
Abbreviation persistent := (explicit_linux_vault project_id sidecars LinuxSecretService).

Definition sentinel_entry (st : CredentialStore) : Entry :=
  mk_entry st (SERVICE_PREFIX +:+ ":" +:+ project_id)
    (SERVICE_PREFIX +:+ ":" +:+ project_id +:+ ":" +:+ LINUX_MIGRATION_SENTINEL_SUFFIX).

(** The value of a name in one of the stores *)
Definition value_in (v : KeychainVault) (w : W) (n : string) : option string :=
  match ring w (hashed_entry v n) with Some x => Some x | None => ring w (legacy_entry v n) end.

(** The bytes of the two marker files *)
Definition marker_files (w : W) : option string * option string :=
  (bytes_at ring tview w (sc_linux_backend sidecars), bytes_at ring tview w (sc_linux_backend_corroboration sidecars)).

(** The markers select Secret Service. *)
Definition selected (w : W) : Prop :=
  classify_local_linux_markers (marker_files w).1 (marker_files w).2 project_id = Ok Persistent.

(** Secret Service has the index, and every name in it a value. *)
Definition complete_copy (w : W) : Prop :=
  ∃ names, meaning [] (ring w (names_entry persistent)) = Some names ∧
    ∀ n, n ∈ names → value_in persistent w n ≠ None.

(** It also has the names and the values of the source. *)
Definition copied (w : W) : Prop :=
  meaning [] (ring w (names_entry persistent)) = meaning [] (ring w (names_entry source)) ∧
  ∀ names n, meaning [] (ring w (names_entry source)) = Some names → n ∈ names →
    ring w (hashed_entry persistent n) = value_in source w n ∧ value_in source w n ≠ None.

(** ** Steps *)

(** The source keeps its credentials (but for the sentinel), and Secret
    Service never loses or changes one. *)
Definition kept (w w' : W) : Prop :=
  (∀ e, en_store e = LinuxKeyutils → e ≠ sentinel_entry LinuxKeyutils → ring w' e = ring w e) ∧
  (∀ e x, en_store e = LinuxSecretService → ring w e = Some x → ring w' e = Some x).

Lemma kept_refl w : kept w w.
Proof. done. Qed.

Lemma kept_compose w1 w2 w3 : kept w1 w2 → kept w2 w3 → kept w1 w3.
Proof. intros [A1 B1] [A2 B2]. split; [intros; by rewrite A2, A1|auto]. Qed.

Lemma kept_ring w w' : ring w' = ring w → kept w w'.
Proof. intros H. split; intros; by rewrite H. Qed.

(** A computation that keeps credentials, and the markers when [quiet] *)
Definition runs {T} (quiet : bool) (m : vault_io W T) (w : W) (Q : W → result T PhantomError → Prop) : Prop :=
  ∀ w' r, m w = (w', r) → kept w w' ∧ (quiet = true → marker_files w' = marker_files w) ∧ Q w' r.

Lemma runs_bind {T U} q (m : vault_io W T) (k : T → vault_io W U) w Q :
  runs q m w (fun w1 r => match r with Ok x => runs q (k x) w1 Q | Err e => Q w1 (Err e) end) →
  runs q (io_bind m k) w Q.
Proof.
  intros H w' r Hm. unfold io_bind in Hm. destruct (m w) as [w1 [x|e]] eqn:E; destruct (H _ _ E) as (Hk & Hf & HQ).
  - destruct (HQ _ _ Hm) as (Hk' & Hf' & HQ'). split_and!; [by eapply kept_compose| |done].
    intros Hq. by rewrite Hf', Hf.
  - injection Hm as <- <-. done.
Qed.

Lemma runs_conseq {T} q (m : vault_io W T) w (P Q : W → result T PhantomError → Prop) :
  runs q m w P → (∀ w' r, kept w w' → P w' r → Q w' r) → runs q m w Q.
Proof. intros H HPQ w' r Hm. destruct (H _ _ Hm) as (?&?&?). split_and!; [done..|by apply HPQ]. Qed.

Lemma runs_loose {T} (m : vault_io W T) w Q : runs true m w Q → runs false m w Q.
Proof. intros H w' r Hm. destruct (H _ _ Hm) as (?&?&?). by split_and!. Qed.

Lemma runs_ret {T} q (x : T) w (Q : W → result T PhantomError → Prop) : Q w (Ok x) → runs q (io_ret x) w Q.
Proof. intros HQ w' r [= <- <-]. by split_and!. Qed.

Lemma runs_throw {T} q e w (Q : W → result T PhantomError → Prop) : Q w (Err e) → runs q (io_throw e) w Q.
Proof. intros HQ w' r [= <- <-]. by split_and!. Qed.

Lemma runs_lift {T} q (x : result T PhantomError) w (Q : W → result T PhantomError → Prop) : Q w x → runs q (io_lift x) w Q.
Proof. intros HQ w' r [= <- <-]. by split_and!. Qed.

Lemma runs_fail_if {T} q b e (k : vault_io W T) w Q :
  (b = true → Q w (Err e)) → (b = false → runs q k w Q) → runs q (io_fail_if b e k) w Q.
Proof. destruct b; intros H1 H2; [by apply runs_throw, H1|by apply H2]. Qed.

(** ** Reading *)

(** A computation that leaves credentials and markers as they are *)
Definition silent {E T} (m : io W E T) : Prop :=
  ∀ w w' r, m w = (w', r) → ring w' = ring w ∧ marker_files w' = marker_files w.

Lemma runs_silent {T} q (m : vault_io W T) w (Q : W → result T PhantomError → Prop) :
  silent m → (∀ w' r, ring w' = ring w → marker_files w' = marker_files w → m w = (w', r) → Q w' r) → runs q m w Q.
Proof. intros H HQ w' r Hm. destruct (H _ _ _ Hm) as [Hr Hf]. split_and!; [by apply kept_ring|done|by apply HQ]. Qed.

Lemma silent_bind {E T U} (m : io W E T) (k : T → io W E U) : silent m → (∀ x, silent (k x)) → silent (io_bind m k).
Proof.
  intros Hm Hk w w' r [(w1 & x & H1 & H2)|(e & H1 & ->)]%io_bind_inv.
  - apply Hm in H1 as [R1 M1]. apply Hk in H2 as [R2 M2]. split; congruence.
  - by apply Hm in H1.
Qed.

Lemma silent_ret {E T} (x : T) : silent (E := E) (io_ret x).
Proof. by intros w w' r [= <- <-]. Qed.

Lemma silent_lift {E T} (x : result T E) : silent (io_lift x).
Proof. by intros w w' r [= <- <-]. Qed.

Lemma silent_fail_if {E T} b (e : E) (k : io W E T) : silent k → silent (io_fail_if b e k).
Proof. destruct b; [|done]. intros _ w w' r [= <- <-]. done. Qed.

Lemma silent_io_try {T} (m : io W ErrorKind T) : silent m → silent (io_try m).
Proof.
  intros H w w' r Hm. unfold io_try in Hm. destruct (m w) as [w1 r1] eqn:E. injection Hm as <- <-. by apply H in E.
Qed.

Lemma silent_io_try_as {T} text (m : io W ErrorKind T) : silent m → silent (io_try_as text m).
Proof.
  intros H w w' r Hm. unfold io_try_as in Hm. destruct (m w) as [w1 r1] eqn:E. injection Hm as <- <-. by apply H in E.
Qed.

Lemma silent_keyring_try {T} text (m : io W KeyringError T) : silent m → silent (keyring_try text m).
Proof.
  intros H w w' r Hm. unfold keyring_try in Hm. destruct (m w) as [w1 r1] eqn:E. injection Hm as <- <-. by apply H in E.
Qed.

Lemma silent_views {E T} (m : io W E T) :
  (∀ w w' r, m w = (w', r) → ring w' = ring w ∧ tview w' = tview w) → silent m.
Proof. intros H w w' r [Hr Ht]%H. split; [done|]. unfold marker_files, bytes_at. by rewrite Ht. Qed.

Lemma silent_credential_entry st service account : silent (credential_entry st service account).
Proof. apply silent_bind; [|intros; apply silent_ret]. apply silent_views. intros w w' r (Hr & Ht & _)%new_credential_law. done. Qed.

Lemma silent_read_credential e label : silent (read_credential e label).
Proof.
  apply silent_views. intros w w' r H. unfold read_credential in H. destruct (get_password e w) as [w1 r1] eqn:E.
  apply get_password_law in E as (Hr & Ht & _). destruct r1 as [|[]]; injection H as <- <-; done.
Qed.

(** Files whose bytes stay *)
Lemma silent_files {E T} (m : io W E T) :
  (∀ w w' r, m w = (w', r) → ring w' = ring w ∧
     ∀ f, f = SBackend ∨ f = SCorroboration → bytes_at ring tview w' (sidecar_target source f) = bytes_at ring tview w (sidecar_target source f)) →
  silent m.
Proof.
  intros H w w' r [Hr Hf]%H. split; [done|]. pose proof (Hf SBackend ltac:(by left)) as H1. pose proof (Hf SCorroboration ltac:(by right)) as H2.
  unfold marker_files. cbn in H1, H2. by rewrite H1, H2.
Qed.

Lemma silent_read t : silent (read_target t).
Proof. apply silent_files. intros w w' r ([Hf _] & Hr & _)%read_target_law. split; [done|]. intros f _. unfold bytes_at. by rewrite Hf. Qed.

Lemma silent_repair t : silent (repair_private_regular t).
Proof.
  apply silent_files. intros w w' r (Hr & Hf & Hb)%repair_law. split; [done|]. intros f _. unfold bytes_at.
  destruct (decide (target_path (sidecar_target source f) = target_path t)) as [E|E]; [by rewrite E, Hb|by rewrite Hf].
Qed.

(** One other file of the vault changes. *)
Lemma silent_other {E T} f (m : io W E T) :
  f ≠ SBackend → f ≠ SCorroboration →
  (∀ w w' r, m w = (w', r) → ring w' = ring w ∧
     ∀ q, q ≠ target_path (sidecar_target source f) → file_at (tview w') q = file_at (tview w) q) → silent m.
Proof.
  intros Hb Hc H. apply silent_files. intros w w' r [Hr Hf]%H. split; [done|]. intros g Hg. unfold bytes_at.
  rewrite Hf; [done|]. apply (sidecar_path_ne ring tview _ Hpaths). by destruct Hg as [->| ->].
Qed.

Lemma silent_replace f b bytes :
  f ≠ SBackend → f ≠ SCorroboration → silent (replace_if_exact (sidecar_target source f) b bytes).
Proof.
  intros Hb Hc. apply (silent_other f); [done..|]. intros w w' r (Hr & H)%replace_law. split; [done|].
  destruct r as [e|e]; [by destruct H as (_ & _ & _ & _ & Hq & _)|]. intros; by apply H.
Qed.

Lemma silent_unlink f b : f ≠ SBackend → f ≠ SCorroboration → silent (unlink_if_exact (sidecar_target source f) b).
Proof.
  intros Hb Hc. apply (silent_other f); [done..|]. intros w w' r (Hr & H)%unlink_law. split; [done|].
  destruct r as [e|e]; [by destruct H as (_ & _ & Hq & _)|]. intros; by apply H.
Qed.

Lemma silent_lock f : f ≠ SBackend → f ≠ SCorroboration → silent (acquire_exclusive_lock (sidecar_target source f)).
Proof.
  intros Hb Hc. apply (silent_other f); [done..|]. intros w w' r (Hr & x & _ & Hq & _)%acquire_exclusive_lock_law. done.
Qed.

Lemma silent_compensate {T} operation primary (l : list (vault_io W unit)) :
  Forall silent l → silent (compensate (T := T) operation primary l).
Proof.
  intros Hl w w' r H. unfold compensate in H. destruct (run_compensations l w) as [w1 rs] eqn:E. injection H as <- <-.
  revert w w1 rs E. induction Hl as [|m l Hm Hl IH]; intros w w1 rs E; cbn in E; [by injection E as <- <-|].
  destruct (m w) as [w2 r2] eqn:E2. destruct (run_compensations l w2) as [w3 rs3] eqn:E3. injection E as <- <-.
  apply Hm in E2 as [R2 M2]. apply IH in E3 as [R3 M3]. split; congruence.
Qed.

(** One step of a computation that only reads, locks and moves sidecars *)
Ltac silence :=
  repeat match goal with
  | |- silent (io_bind _ _) => apply silent_bind; [|intros ?]
  | |- silent (io_ret _) => apply silent_ret
  | |- silent (io_lift _) => apply silent_lift
  | |- silent (io_throw _) => apply (silent_lift (Err _))
  | |- silent (io_try _) => apply silent_io_try
  | |- silent (io_try_as _ _) => apply silent_io_try_as
  | |- silent (io_fail_if _ _ _) => apply silent_fail_if
  | |- silent (keyring_try _ _) => apply silent_keyring_try
  | |- silent (credential_entry _ _ _) => apply silent_credential_entry
  | |- silent (read_credential _ _) => apply silent_read_credential
  | |- silent (read_target _) => apply silent_read
  | |- silent (repair_private_regular _) => apply silent_repair
  | |- silent (if ?b then _ else _) => destruct b
  end.

Lemma silent_acquire : silent (acquire_project_lock sidecars).
Proof. unfold acquire_project_lock. silence; [by apply (silent_lock SStableLock)|by apply (silent_lock SLegacyLock)]. Qed.

Lemma silent_reconcile_pair label f g pair :
  f = SMeta ∧ g = SLegacyMeta ∨ f = SVerdict ∧ g = SLegacyVerdict →
  silent (reconcile_sidecar_pair label (sidecar_target source f) (sidecar_target source g) pair).
Proof.
  intros Hfg. assert ((f ≠ SBackend ∧ f ≠ SCorroboration) ∧ g ≠ SBackend ∧ g ≠ SCorroboration) as [[F1 F2] [G1 G2]]
    by (destruct Hfg as [[-> ->]|[-> ->]]; done).
  unfold reconcile_sidecar_pair. destruct (sp_stable pair) as [st|], (sp_legacy pair) as [lg|]; silence.
  - by apply silent_unlink.
  - by apply silent_replace.
  - intros w w' r H. destruct (unlink_if_exact (sidecar_target source g) lg w) as [w1 [o|e]] eqn:E;
      apply (silent_unlink g) in E as [R1 M1]; try done.
    + by injection H as <- <-.
    + apply (silent_compensate _ _ _) in H as [R2 M2]; [split; congruence|]. constructor; [|constructor].
      silence. by apply silent_unlink.
Qed.

Lemma silent_repair_pair s l pair : silent (repair_sidecar_pair s l pair).
Proof. unfold repair_sidecar_pair. silence. Qed.

Lemma silent_reconcile : silent (reconcile_legacy sidecars).
Proof.
  unfold reconcile_legacy, read_sidecar_pair. silence; [apply silent_repair_pair..| |].
  - apply (silent_reconcile_pair _ SMeta SLegacyMeta). by left.
  - apply (silent_reconcile_pair _ SVerdict SLegacyVerdict). by right.
Qed.

Lemma silent_open : silent open_sidecars.
Proof. intros w w' r (Hr & Hf & _)%Hopen. split; [done|]. unfold marker_files, bytes_at. by rewrite !Hf. Qed.

Lemma silent_sentinel st : silent (linux_migration_sentinel_entry project_id st).
Proof. unfold linux_migration_sentinel_entry. silence. Qed.

Lemma silent_durable : silent (durable_linux_migration_sentinel_exists project_id).
Proof.
  unfold durable_linux_migration_sentinel_exists. silence; [apply silent_sentinel|]. case_match; silence.
Qed.

Lemma silent_state : silent (linux_migration_state sidecars project_id).
Proof.
  unfold linux_migration_state. silence. case_match; silence; try apply silent_sentinel. case_match; silence.
Qed.

(** ** What is read *)

Lemma runs_entry q st service account w (Q : W → result Entry KeyringError → Prop) w' r :
  credential_entry st service account w = (w', r) →
  (∀ u, ring u = ring w → r = Ok (mk_entry st service account) → Q u r) →
  (∀ u x, ring u = ring w → ring w (mk_entry st service account) = None → r = Err x → Q u r) →
  kept w w' ∧ (q = true → marker_files w' = marker_files w) ∧ Q w' r.
Proof.
  intros H H1 H2. pose proof H as [Hr Hm]%silent_credential_entry. split_and!; [by apply kept_ring|done|].
  apply io_bind_inv in H as [(w1 & u & E & H)|(e & E & ->)].
  - injection H as <- <-. by apply H1.
  - apply new_credential_law in E as (E1 & _ & E2). by eapply H2; [done| |done]; eapply E2.
Qed.

Lemma entry_is st service account w w' e :
  credential_entry st service account w = (w', Ok e) → e = mk_entry st service account.
Proof. intros [(w1 & u & _ & [= _ ->])|(x & _ & [=])]%io_bind_inv. done. Qed.

Lemma runs_credential q text st service account w (Q : W → result Entry PhantomError → Prop) :
  (∀ u, ring u = ring w → marker_files u = marker_files w → Q u (Ok (mk_entry st service account))) →
  (∀ u x, ring u = ring w → marker_files u = marker_files w → Q u (Err x)) →
  runs q (keyring_try text (credential_entry st service account)) w Q.
Proof.
  intros H1 H2. apply runs_silent; [silence|]. intros w' r R M H. unfold keyring_try in H.
  destruct (credential_entry st service account w) as [w1 [e|x]] eqn:E; injection H as <- <-; cbn [map_err]; [|by apply H2].
  apply entry_is in E as ->. by apply H1.
Qed.

Lemma runs_get q e label w (Q : W → result (option string) PhantomError → Prop) :
  (∀ u, ring u = ring w → marker_files u = marker_files w → Q u (Ok (ring w e))) →
  (∀ u x, ring u = ring w → marker_files u = marker_files w → Q u (Err x)) →
  runs q (read_credential e label) w Q.
Proof.
  intros H1 H2. apply runs_silent; [apply silent_read_credential|]. intros w' r Hr Hm H.
  unfold read_credential in H. destruct (get_password e w) as [w1 r1] eqn:E. apply get_password_law in E as (_ & _ & He).
  destruct r1 as [x|[|t]]; injection H as <- <-; rewrite <- ?He; auto.
Qed.

Lemma runs_index q v w (Q : W → result (list string) PhantomError → Prop) :
  (∀ u l, ring u = ring w → marker_files u = marker_files w →
     meaning [] (ring w (names_entry v)) = Some l → Q u (Ok l)) →
  (∀ u x, ring u = ring w → marker_files u = marker_files w → Q u (Err x)) →
  runs q (load_index v) w Q.
Proof.
  intros H1 H2. unfold load_index, index_entry. apply runs_bind, runs_credential; [|exact H2]. intros w2 R1 M1.
  replace (mk_entry _ _ _) with (names_entry v) by done.
  intros w' r H. destruct (get_password (names_entry v) w2) as [w4 r4] eqn:E4.
  apply get_password_law in E4 as (R4 & T4 & He). assert (w' = w4) as -> by (destruct r4 as [|[]]; congruence).
  assert (marker_files w4 = marker_files w2) as M4 by (unfold marker_files, bytes_at; by rewrite T4).
  split_and!; [by apply kept_ring|done|]. rewrite R1 in He.
  destruct r4 as [d|[|t]]; injection H as <-; [|apply H1; [congruence..|by rewrite He]|apply H2; congruence].
  destruct (json_read d) as [l|e] eqn:El; cbn [map_err]; [|apply H2; congruence].
  apply H1; [congruence..|]. rewrite He. cbn. by rewrite El.
Qed.

Lemma runs_value q v n w (Q : W → result (option string) PhantomError → Prop) :
  (∀ u, ring u = ring w → marker_files u = marker_files w → Q u (Ok (value_in v w n))) →
  (∀ u x, ring u = ring w → marker_files u = marker_files w → Q u (Err x)) →
  runs q (current_value_locked v n) w Q.
Proof.
  intros H1 H2. unfold current_value_locked, entry_for, value_in in *. apply runs_bind, runs_credential; [|exact H2].
  intros w2 R1 M1. replace (mk_entry _ _ _) with (hashed_entry v n) by done.
  apply runs_bind, runs_get; [|intros u1 x R M; apply H2; congruence].
  intros u1 R M. rewrite R1. destruct (ring w (hashed_entry v n)) as [x|] eqn:Eh; [apply runs_ret, H1; congruence|].
  apply runs_bind, runs_silent.
  { intros a b r H. unfold legacy_entry_for in H.
    destruct (credential_entry (kv_store v) (legacy_entry_key v n) n a) as [c rc] eqn:Ec.
    apply silent_credential_entry in Ec. destruct rc; by injection H as <- <-. }
  intros w4 r4 R4 M4 E4. unfold legacy_entry_for in E4.
  destruct (credential_entry (kv_store v) (legacy_entry_key v n) n u1) as [w5 r5] eqn:E5.
  apply (runs_entry true _ _ _ _ (fun _ r => match r with Ok e => e = legacy_entry v n
            | Err _ => ring u1 (legacy_entry v n) = None end)) in E5 as (_ & _ & E5); [|by intros ? ? ->|by intros ? ? ? ? ->].
  destruct r5 as [e|e]; injection E4 as <- <-.
  - subst e. apply runs_get; [|intros; apply H2; congruence].
    intros u2 R2 M2. replace (ring w5 (legacy_entry v n)) with (ring w (legacy_entry v n)) by congruence. apply H1; congruence.
  - apply runs_ret. replace None with (ring w (legacy_entry v n)) by congruence. apply H1; congruence.
Qed.

(** ** What is written *)

(** The entries the migration writes *)
Definition destination (e : Entry) : Prop := en_store e = LinuxSecretService ∨ e = sentinel_entry LinuxKeyutils.

Lemma runs_set q e x text w (Q : W → result unit PhantomError → Prop) :
  destination e → ring w e = None →
  (∀ u, kept w u → marker_files u = marker_files w → Q u (Ok tt)) →
  (∀ u y, kept w u → marker_files u = marker_files w → Q u (Err y)) →
  runs q (keyring_try text (set_password e x)) w Q.
Proof.
  intros Hd Hn H1 H2 w' r H. unfold keyring_try in H. destruct (set_password e x w) as [w1 r1] eqn:E. injection H as <- <-.
  apply set_password_law in E as (Ht & y & [_ Hb] & _ & _).
  assert (kept w w1) as Hk.
  { split; intros e' ; [intros Hst Hse|intros z Hst Hz]; rewrite Hb; [done| |done|]; intros ->; [|congruence].
    destruct Hd; congruence. }
  assert (marker_files w1 = marker_files w) as Hm by (unfold marker_files, bytes_at; by rewrite Ht).
  split_and!; [done..|]. destruct r1 as [[]|]; cbn; auto.
Qed.

Lemma runs_reconcile q e x label w (Q : W → result unit PhantomError → Prop) :
  destination e →
  (∀ u, kept w u → marker_files u = marker_files w → ring u e = Some x → Q u (Ok tt)) →
  (∀ u y, kept w u → marker_files u = marker_files w → Q u (Err y)) →
  runs q (reconcile_destination_entry e x label) w Q.
Proof.
  intros Hd H1 H2. unfold reconcile_destination_entry, reconcile_destination.
  apply runs_bind, runs_get; [|intros; apply H2; [by apply kept_ring|done]].
  intros u R M. destruct (ring w e) as [z|] eqn:E.
  - apply runs_fail_if; [intros _; apply H2; [by apply kept_ring|done]|].
    intros ->%negb_false_iff%String.eqb_eq. apply runs_ret, H1; [by apply kept_ring|done|by rewrite R].
  - apply runs_bind, runs_set; [done|by rewrite R| |].
    + intros u1 K1 M1. assert (kept w u1) by (eapply kept_compose; [by apply kept_ring|done]).
      apply runs_bind, runs_get.
      * intros u2 R2 M2. assert (kept w u2) by (eapply kept_compose; [done|by apply kept_ring]).
        apply runs_fail_if; [intros _; apply H2; congruence|].
        intros Hv%negb_false_iff%bool_decide_eq_true. apply runs_ret, H1; congruence.
      * intros u2 y R2 M2. apply H2; [eapply kept_compose; [done|by apply kept_ring]|congruence].
    + intros u1 y K1 M1. apply H2; [eapply kept_compose; [by apply kept_ring|done]|congruence].
Qed.

Lemma hashed_not_sentinel st n : hashed_entry (explicit_linux_vault project_id sidecars st) n ≠ sentinel_entry LinuxKeyutils.
Proof.
  intros E. apply (f_equal en_service), (f_equal String.length) in E. unfold hashed_entry, hashed_entry_key, sentinel_entry in E.
  cbn [en_service kv_project_id explicit_linux_vault] in E. rewrite !str_length_app in E. cbn [String.length] in E. lia.
Qed.

Lemma legacy_not_sentinel st n : legacy_entry (explicit_linux_vault project_id sidecars st) n ≠ sentinel_entry LinuxKeyutils.
Proof.
  intros E. apply (f_equal en_service), (f_equal String.length) in E. unfold legacy_entry, legacy_entry_key, sentinel_entry in E.
  cbn [en_service kv_project_id explicit_linux_vault] in E. rewrite !str_length_app in E. cbn [String.length] in E. lia.
Qed.

Lemma names_not_sentinel st : names_entry (explicit_linux_vault project_id sidecars st) ≠ sentinel_entry LinuxKeyutils.
Proof.
  intros E. apply (f_equal en_account), (f_equal String.length) in E. unfold names_entry, sentinel_entry in E.
  cbn [en_account kv_index_key explicit_linux_vault] in E. rewrite !str_length_app in E. cbn [String.length] in E.
  change (String.length LINUX_MIGRATION_SENTINEL_SUFFIX) with 27%nat in E. lia.
Qed.

Lemma kept_source w w' n : kept w w' → value_in source w' n = value_in source w n.
Proof.
  intros [K _]. unfold value_in. rewrite !K; [done|done|apply legacy_not_sentinel|done|apply hashed_not_sentinel].
Qed.

Lemma kept_source_index w w' : kept w w' → ring w' (names_entry source) = ring w (names_entry source).
Proof. intros [K _]. apply K; [done|apply names_not_sentinel]. Qed.

(** The values of some names are in Secret Service. *)
Definition holds (names : list string) (w : W) : Prop :=
  ∀ n, n ∈ names → ring w (hashed_entry persistent n) = value_in source w n ∧ value_in source w n ≠ None.

Lemma kept_holds names w w' : kept w w' → holds names w → holds names w'.
Proof.
  intros K H n Hn. destruct (H n Hn) as [H1 H2]. rewrite (kept_source w w' n K). split; [|done].
  destruct (value_in source w n) as [x|] eqn:E; [|done]. by apply K.
Qed.

Lemma runs_copy q names w (Q : W → result unit PhantomError → Prop) :
  (∀ u, kept w u → marker_files u = marker_files w → holds names u → Q u (Ok tt)) →
  (∀ u y, kept w u → marker_files u = marker_files w → Q u (Err y)) →
  runs q (copy_secrets source names) w Q.
Proof.
  revert w. induction names as [|n names IH]; intros w H1 H2; cbn [copy_secrets].
  - apply runs_ret, H1; [done..|]. by intros n Hn%elem_of_nil.
  - assert (∀ u y, ring u = ring w → marker_files u = marker_files w → Q u (Err y)) as Hno
      by (intros; apply H2; [by apply kept_ring|done]).
    apply runs_bind, runs_value; [|exact Hno]. intros u R M. apply runs_bind, runs_lift.
    destruct (value_in source w n) as [x|] eqn:Ex; cbn [ok_or]; [|by apply Hno].
    apply runs_bind, runs_credential; [|intros; apply Hno; congruence]. intros u2 R2 M2.
    replace (mk_entry _ _ _) with (hashed_entry persistent n) by done.
    assert (kept w u2) as K2 by (apply kept_ring; congruence).
    apply runs_bind, runs_reconcile; [by left| |].
    + intros u3 K3 M3 V3. apply IH.
      * intros u4 K4 M4 H4. apply H1; [by eapply kept_compose; [|eapply kept_compose]|congruence|].
        assert (kept w u3) as K by by eapply kept_compose.
        intros m [->|Hm]%elem_of_cons; [|by apply H4]. apply (kept_holds [n] u3 u4 K4); [|by apply list_elem_of_singleton].
        intros k ->%list_elem_of_singleton. by rewrite (kept_source w u3 n K), Ex, V3.
      * intros u4 y K4 M4. apply H2; [by eapply kept_compose; [|eapply kept_compose]|congruence].
    + intros u3 y K3 M3. apply H2; [by eapply kept_compose|congruence].
Qed.

Lemma runs_prepared q names w (Q : W → result unit PhantomError → Prop) :
  (∀ u, ring u = ring w → marker_files u = marker_files w → (∀ n, n ∈ names → value_in persistent w n ≠ None) → Q u (Ok tt)) →
  (∀ u y, ring u = ring w → marker_files u = marker_files w → Q u (Err y)) →
  runs q (check_prepared persistent names) w Q.
Proof.
  revert w. induction names as [|n names IH]; intros w H1 H2; cbn [check_prepared].
  - apply runs_ret, H1; [done..|]. by intros n Hn%elem_of_nil.
  - apply runs_bind, runs_value; [|exact H2]. intros u R M. apply runs_bind, runs_lift.
    destruct (value_in persistent w n) as [x|] eqn:Ex; cbn [ok_or]; [|by apply H2].
    apply IH; [|intros; apply H2; congruence]. intros u1 R1 M1 H. apply H1; [congruence..|].
    intros m [->|Hm]%elem_of_cons; [congruence|]. intros E. apply (H m Hm). unfold value_in in *. by rewrite R.
Qed.

(** ** The markers *)

Definition with_marker (f : sidecar) (x : option string) (p : option string * option string) :=
  match f with SBackend => (x, p.2) | SCorroboration => (p.1, x) | _ => p end.

Definition marker_of (f : sidecar) (p : option string * option string) : option string :=
  match f with SBackend => p.1 | _ => p.2 end.

Definition is_marker (f : sidecar) : Prop := f = SBackend ∨ f = SCorroboration.

Lemma marker_of_files f w : is_marker f → marker_of f (marker_files w) = bytes_at ring tview w (sidecar_target source f).
Proof. by intros [->| ->]. Qed.

Lemma but_marker f w w' :
  is_marker f → (∀ q, q ≠ target_path (sidecar_target source f) → file_at (tview w') q = file_at (tview w) q) →
  marker_files w' = with_marker f (bytes_at ring tview w' (sidecar_target source f)) (marker_files w).
Proof.
  intros Hf Hq. unfold marker_files. destruct Hf as [->| ->]; cbn; f_equal; unfold bytes_at; rewrite Hq; try done.
  - by apply (sidecar_path_ne ring tview _ Hpaths SCorroboration SBackend).
  - by apply (sidecar_path_ne ring tview _ Hpaths SBackend SCorroboration).
Qed.

Lemma runs_read q f w (Q : W → result (option AnchoredRead) PhantomError → Prop) :
  is_marker f →
  (∀ u o, ring u = ring w → marker_files u = marker_files w → option_map ar_bytes o = marker_of f (marker_files w) → Q u (Ok o)) →
  (∀ u y, ring u = ring w → marker_files u = marker_files w → Q u (Err y)) →
  runs q (io_try (read_target (sidecar_target source f))) w Q.
Proof.
  intros Hf H1 H2. apply runs_silent; [silence|]. intros w' r R M H. unfold io_try in H.
  destruct (read_target (sidecar_target source f) w) as [w1 r1] eqn:E. injection H as <- <-.
  apply read_target_law in E as (_ & _ & Ho). destruct r1 as [o|e]; cbn; [|by apply H2].
  apply H1; [done..|]. rewrite marker_of_files by done. unfold bytes_at. by rewrite (Ho o eq_refl).
Qed.

Lemma runs_publish f m label w (Q : W → result unit PhantomError → Prop) :
  is_marker f →
  (∀ u, ring u = ring w → marker_files u = with_marker f (Some m) (marker_files w) → Q u (Ok tt)) →
  (∀ u y, ring u = ring w → marker_files u = marker_files w ∨ marker_files u = with_marker f (Some m) (marker_files w) →
     Q u (Err y)) →
  runs false (publish_linux_marker (sidecar_target source f) m label) w Q.
Proof.
  intros Hf H1 H2. unfold publish_linux_marker. apply runs_bind, runs_read; [done| |intros; apply H2; [done|by left]].
  intros u [x|] R M Hx; cbn in Hx.
  - destruct (String.eqb_spec (ar_bytes x) m) as [<-|_]; [|apply runs_throw, H2; [done|by left]].
    assert (with_marker f (Some (ar_bytes x)) (marker_files w) = marker_files w) as Hs.
    { rewrite Hx. destruct Hf as [->| ->]; reflexivity. }
    apply runs_bind, runs_loose, runs_silent; [silence|]. intros u1 [b|e] R1 M1 _.
    + apply runs_ret, H1; [congruence|by rewrite Hs, M1].
    + apply H2; [congruence|left; congruence].
  - apply runs_bind. intros w' r H. unfold io_try in H.
    destruct (replace_if_exact (sidecar_target source f) None m u) as [w1 r1] eqn:E. injection H as <- <-.
    apply replace_law in E as [Hr H]. split_and!; [by apply kept_ring|done|].
    destruct r1 as [e|e]; cbn [map_err].
    + destruct H as (_ & Hb & _ & Hx' & Hq & _).
      assert (marker_files w1 = with_marker f (Some m) (marker_files w)) as Hm.
      { rewrite (but_marker f u w1) by done. rewrite M. f_equal. unfold bytes_at. rewrite Hx'. cbn. by rewrite Hb. }
      apply runs_bind, runs_lift. destruct e as [y|y|y e]; cbn [require_durable_sidecar_effect].
      1,2: apply runs_ret, H1; [congruence|done]. apply H2; [congruence|by right].
    + apply H2; [congruence|left]. rewrite <- M. unfold marker_files, bytes_at. destruct H as [Hfiles _]. by rewrite !Hfiles.
Qed.

(** The state is the one the markers say, but a sentinel makes an unmarked
    project an incomplete one. *)
Definition classified (w : W) (st : LinuxMigrationState) : Prop :=
  let c := classify_local_linux_markers (marker_files w).1 (marker_files w).2 project_id in
  c = Ok st ∨ c = Ok Unmigrated ∧ st = Incomplete.

Lemma runs_state q w (Q : W → result LinuxMigrationState PhantomError → Prop) :
  (∀ u st, ring u = ring w → marker_files u = marker_files w → classified w st → Q u (Ok st)) →
  (∀ u y, ring u = ring w → marker_files u = marker_files w → Q u (Err y)) →
  runs q (linux_migration_state sidecars project_id) w Q.
Proof.
  intros H1 H2. unfold linux_migration_state.
  apply runs_bind, (runs_read q SBackend); [by left| |exact H2]. intros u p R M Hp.
  apply runs_bind, (runs_read q SCorroboration); [by right| |intros; apply H2; congruence]. intros u1 c R1 M1 Hc.
  rewrite M in Hc. apply runs_bind, runs_lift. cbn in Hp, Hc. rewrite Hp, Hc.
  destruct (classify_local_linux_markers _ _ _) as [st|e] eqn:E; [|apply H2; congruence].
  assert (∀ u, ring u = ring u1 → marker_files u = marker_files u1 → Q u (Ok st)) as Hst.
  { intros. apply H1; [congruence..|by left]. }
  assert (∀ u y, ring u = ring u1 → marker_files u = marker_files u1 → Q u (Err y)) as Hno by (intros; apply H2; congruence).
  destruct st; [| |].
  - apply runs_silent; [silence; [apply silent_sentinel|case_match; silence]|]. intros u2 r2 R2 M2 E2.
    apply io_bind_inv in E2 as [(u3 & e & _ & E2)|(x & _ & ->)]; [|by apply Hno].
    apply io_bind_inv in E2 as [(u4 & [b|] & _ & E2)|(x & _ & ->)]; [| |by apply Hno].
    + apply io_bind_inv in E2 as [(u5 & [] & _ & E2)|(x & _ & ->)]; [|by apply Hno].
      injection E2 as _ <-. apply H1; [congruence..|by right].
    + injection E2 as _ <-. by apply Hst.
  - by apply runs_ret, Hst.
  - apply runs_silent; [silence; apply silent_sentinel|]. intros u2 [st|y] R2 M2 E2; [|by apply Hno].
    repeat (apply io_bind_inv in E2 as [(? & ? & _ & E2)|(? & _ & [=])]). injection E2 as _ <-. by apply Hst.
Qed.

Lemma keyutils_unmarked w w' st :
  linux_store_from_marker sidecars project_id w = (w', Ok st) → marker_files w ≠ (None, None) → st = LinuxSecretService.
Proof.
  intros H Hm. revert H. enough (runs true (linux_store_from_marker sidecars project_id) w
    (fun _ r => ∀ st, r = Ok st → st = LinuxSecretService)) as Hq by (intros H; by apply (Hq _ _ H)).
  unfold linux_store_from_marker. apply runs_bind, runs_state; [|done]. intros u st' _ _ Hc.
  apply runs_bind, runs_lift. destruct st'; cbn; [|done|by apply runs_ret; intros ? [= <-]].
  exfalso. apply Hm. destruct Hc as [Hc|[_ [=]]]. destruct (marker_files w) as [[a|] [b|]]; cbn in Hc; [..|done].
  all: destruct (validate_linux_backend_marker _ _); [|done]; cbn in Hc; try done.
  destruct (validate_linux_backend_marker b _); [|done]; cbn in Hc. by destruct (negb (String.eqb a b)).
Qed.

(** ** The migration *)

(** The markers may be there: Secret Service is complete, and unless an
    earlier run had prepared it, a copy of the source. *)
Definition published (w w' : W) : Prop :=
  complete_copy w' ∧ marker_files w' ≠ (None, None) ∧
  (ring w (sentinel_entry LinuxSecretService) = None → copied w').

Definition migrated (expected : string) (w w' : W) (r : result LinuxMigrationReceipt PhantomError) : Prop :=
  (marker_files w' = marker_files w ∨ published w w') ∧
  match r with
  | Err _ => True
  | Ok receipt =>
      selected w' ∧
      (∃ names, meaning [] (ring w' (names_entry persistent)) = Some names ∧
         lr_migrated_secret_count receipt = length names ∧ migration_state_id names = Ok (lr_source_state_id receipt)) ∧
      if lr_already_persistent receipt then ring w' = ring w ∧ marker_files w' = marker_files w
      else lr_source_state_id receipt = expected ∧ published w w'
  end.

Lemma marker_valid m : marker_bytes project_id = Ok m → validate_linux_backend_marker m project_id = Ok tt.
Proof.
  unfold marker_bytes. intros H. destruct (json_write (linux_marker_for project_id)) as [b|] eqn:E; [|done]. injection H as <-.
  unfold validate_linux_backend_marker. rewrite (json_round_trip _ _ E). cbn. by rewrite bool_decide_eq_true_2.
Qed.

Lemma markers_select m w : marker_bytes project_id = Ok m → marker_files w = (Some m, Some m) → selected w.
Proof.
  intros Hm E. unfold selected. rewrite E. cbn [fst snd classify_local_linux_markers].
  rewrite (marker_valid _ Hm). cbn. by rewrite String.eqb_refl.
Qed.

Lemma published_kept w u u' names :
  meaning [] (ring u (names_entry source)) = Some names → holds names u →
  meaning [] (ring u (names_entry persistent)) = Some names → ring u (names_entry persistent) ≠ None →
  kept u u' → marker_files u' ≠ (None, None) →
  published w u' ∧ meaning [] (ring u' (names_entry persistent)) = Some names.
Proof.
  intros Hs Hh Hp Hi K Hm. pose proof (kept_holds names _ _ K Hh) as Hh'.
  assert (ring u' (names_entry persistent) = ring u (names_entry persistent)) as R.
  { destruct (ring u (names_entry persistent)) as [x|] eqn:E; [|done]. by apply K. }
  split; [|by rewrite R]. split_and!; [|done|].
  - exists names. split; [by rewrite R|]. intros n Hn. destruct (Hh' n Hn) as [H1 H2]. unfold value_in at 1. rewrite H1.
    by destruct (value_in source u' n).
  - intros _. split; [by rewrite R, (kept_source_index u u' K), Hp, Hs|].
    intros l n Hl Hn. rewrite (kept_source_index u u' K), Hs in Hl. injection Hl as <-. by apply Hh'.
Qed.

(** The rest of a migration that was prepared before *)
Lemma prepared_spec expected w0 w :
  ring w = ring w0 → marker_files w = marker_files w0 → ring w0 (sentinel_entry LinuxSecretService) ≠ None →
  runs false
    (do? names := load_index persistent in
     do? id := io_lift (migration_state_id names) in
     io_fail_if (negb (String.eqb id expected))
       (VaultError "Prepared Secret Service index changed after review; no backend marker was committed")
     (do? _ := check_prepared persistent names in
      do? marker := io_lift (marker_bytes project_id) in
      do? _ := publish_linux_marker (sc_linux_backend_corroboration sidecars) marker
                 "Linux Secret Service config corroboration marker" in
      do? _ := publish_linux_marker (sc_linux_backend sidecars) marker
                 "Linux Secret Service backend marker recovery" in
      io_ret (mk_migration_receipt (length names) id false)))
    w (migrated expected w0).
Proof.
  intros R0 M0 Hsent.
  assert (∀ u y, marker_files u = marker_files w0 → migrated expected w0 u (Err y)) as Hno by (intros; split; [by left|done]).
  apply runs_bind, runs_index; [|intros; apply Hno; congruence]. intros u1 names R1 M1 Hn.
  apply runs_bind, runs_lift. destruct (migration_state_id names) as [id|e] eqn:Eid; [|apply Hno; congruence].
  apply runs_fail_if; [intros _; apply Hno; congruence|]. intros ->%negb_false_iff%String.eqb_eq.
  apply runs_bind, runs_prepared; [|intros; apply Hno; congruence]. intros u2 R2 M2 Hv.
  assert (∀ u, ring u = ring w0 → marker_files u ≠ (None, None) → published w0 u) as Hpub.
  { intros u R M. split_and!; [|done|done]. exists names. split; [by rewrite R, <- R0|]. intros n Hin.
    pose proof (Hv n Hin) as Hx. unfold value_in in *. rewrite R. by rewrite <- R0, <- R1. }
  apply runs_bind, runs_lift. destruct (marker_bytes project_id) as [m|e] eqn:Em; [|apply Hno; congruence].
  assert (marker_files u2 = marker_files w0) as M02 by congruence. assert (ring u2 = ring w0) as R02 by congruence.
  apply runs_bind, (runs_publish SCorroboration); [by right| |].
  2: { intros u y R [M|M]; [apply Hno; congruence|]. split; [|done]. right. apply Hpub; [congruence|by rewrite M]. }
  intros u3 R3 M3. apply runs_bind, (runs_publish SBackend); [by left| |].
  2: { intros u y R M. split; [|done]. right. apply Hpub; [congruence|]. destruct M as [M|M]; rewrite M, ?M3; done. }
  intros u4 R4 M4. assert (marker_files u4 = (Some m, Some m)) as Hm by by rewrite M4, M3.
  assert (published w0 u4) as Hp by (apply Hpub; [congruence|by rewrite Hm]).
  apply runs_ret. split; [by right|]. split; [by apply (markers_select m)|]. split; [|done].
  exists names. split; [|done]. by rewrite R4, R3, R02, <- R0.
Qed.

(** The migration from keyutils *)
Lemma copy_spec expected w0 w :
  ring w = ring w0 → marker_files w = marker_files w0 →
  runs false
    (do? names := load_index source in
     do? id := io_lift (migration_state_id names) in
     io_fail_if (negb (String.eqb id expected))
       (VaultError "Linux keyutils index changed after review; no backend marker was committed. Review and confirm a fresh migration plan")
     (io_fail_if (negb (length (btree_collect names) =? length names)%nat)
        (VaultError "Linux keyutils index contains duplicate names; refusing ambiguous migration")
      (do? _ := copy_secrets source names in
       do? index_json := io_lift (map_err (fun e => VaultError ("Serialize index error: " +:+ e)) (json_write names)) in
       do? destination_index := keyring_try secret_service_unavailable
         (credential_entry LinuxSecretService (SERVICE_PREFIX +:+ ":" +:+ project_id) (kv_index_key source)) in
       do? _ := reconcile_destination_entry destination_index index_json "secret index" in
       do? marker := io_lift (marker_bytes project_id) in
       do? _ := publish_linux_marker (sc_linux_backend_corroboration sidecars) marker
                  "Linux Secret Service config corroboration marker" in
       do? durable_sentinel := linux_migration_sentinel_entry project_id LinuxSecretService in
       do? _ := reconcile_destination_entry durable_sentinel marker "durable Linux migration sentinel" in
       do? sentinel := linux_migration_sentinel_entry project_id LinuxKeyutils in
       do? _ := reconcile_destination_entry sentinel marker "Linux migration sentinel" in
       do? _ := publish_linux_marker (sc_linux_backend sidecars) marker "Linux Secret Service backend marker" in
       io_ret (mk_migration_receipt (length names) id false))))
    w (migrated expected w0).
Proof.
  intros R0 M0.
  assert (∀ u y, marker_files u = marker_files w0 → migrated expected w0 u (Err y)) as Hno by (intros; split; [by left|done]).
  apply runs_bind, runs_index; [|intros; apply Hno; congruence]. intros u1 names R1 M1 Hn.
  apply runs_bind, runs_lift. destruct (migration_state_id names) as [id|e] eqn:Eid; [|apply Hno; congruence].
  apply runs_fail_if; [intros _; apply Hno; congruence|]. intros ->%negb_false_iff%String.eqb_eq.
  apply runs_fail_if; [intros _; apply Hno; congruence|]. intros _.
  apply runs_bind, runs_copy; [|intros; apply Hno; congruence]. intros u2 K2 M2 Hh.
  apply runs_bind, runs_lift. destruct (json_write names) as [j|e] eqn:Ej; [cbn [map_err]|apply Hno; congruence].
  apply runs_bind, runs_credential; [|intros; apply Hno; congruence]. intros u R3 M3.
  replace (mk_entry _ _ _) with (names_entry persistent) by done.
  apply runs_bind, runs_reconcile; [by left| |intros; apply Hno; congruence]. intros u4 K4 M4 V4.
  assert (kept u2 u4) as K24 by (eapply kept_compose; [by apply kept_ring|done]).
  assert (meaning [] (ring u4 (names_entry source)) = Some names) as Hs4.
  { rewrite (kept_source_index u2 u4 K24), (kept_source_index u1 u2 K2), R1. done. }
  assert (meaning [] (ring u4 (names_entry persistent)) = Some names) as Hp4.
  { rewrite V4. cbn. by rewrite (json_round_trip _ _ Ej). }
  assert (∀ u, kept u4 u → marker_files u ≠ (None, None) →
            published w0 u ∧ meaning [] (ring u (names_entry persistent)) = Some names) as Hpub.
  { intros u' K M. apply (published_kept w0 u4 u' names); [done|by apply (kept_holds names u2)|done|congruence|done..]. }
  assert (marker_files u4 = marker_files w0) as M04 by congruence. clear u1 u2 u R1 M1 Hn K2 M2 Hh R3 M3 K4 M4 K24 Hs4 Hp4.
  apply runs_bind, runs_lift. destruct (marker_bytes project_id) as [m|e] eqn:Em; [|by apply Hno].
  assert (∀ u y, kept u4 u → marker_files u ≠ (None, None) → migrated expected w0 u (Err y)) as Hlate.
  { intros u' y K M. split; [|done]. right. by apply Hpub. }
  apply runs_bind, (runs_publish SCorroboration); [by right| |].
  2: { intros u y R [M|M]; [apply Hno; congruence|]. apply Hlate; [by apply kept_ring|by rewrite M]. }
  intros u5 R5 M5. assert (kept u4 u5) as K5 by by apply kept_ring.
  assert (∀ u, marker_files u = marker_files u5 → marker_files u ≠ (None, None)) as Hsome by (intros u' M; by rewrite M, M5).
  assert (∀ u, kept u4 u → marker_files u = marker_files u5 → ∀ y, migrated expected w0 u (Err y)) as Hend
    by (intros u' K M y; by apply Hlate, Hsome).
  apply runs_bind, runs_credential; [|intros u' y R M; apply Hend; [eapply kept_compose; [done|by apply kept_ring]|done]].
  intros u6 R6 M6. assert (kept u4 u6) as K6 by (eapply kept_compose; [done|by apply kept_ring]).
  apply runs_bind, runs_reconcile; [by left| |intros u' y K M; apply Hend; [by eapply kept_compose|congruence]].
  intros u7 K7' M7 _. assert (kept u4 u7) as K7 by by eapply kept_compose.
  apply runs_bind, runs_credential; [|intros u' y R M; apply Hend; [eapply kept_compose; [done|by apply kept_ring]|congruence]].
  intros u8 R8 M8. assert (kept u4 u8) as K8 by (eapply kept_compose; [done|by apply kept_ring]).
  apply runs_bind, runs_reconcile; [by right| |intros u' y K M; apply Hend; [by eapply kept_compose|congruence]].
  intros u9 K9' M9 _. assert (kept u4 u9) as K9 by by eapply kept_compose.
  apply runs_bind, (runs_publish SBackend); [by left| |].
  2: { intros u' y R M. apply Hlate; [eapply kept_compose; [done|by apply kept_ring]|].
       destruct M as [M|M]; rewrite M; [apply Hsome; congruence|done]. }
  intros u10 R10 M10. assert (kept u4 u10) as K10 by (eapply kept_compose; [done|by apply kept_ring]).
  assert (marker_files u10 = (Some m, Some m)) as Hm.
  { rewrite M10. replace (marker_files u9) with (marker_files u5) by congruence. by rewrite M5. }
  destruct (Hpub u10 K10) as [Hp Hi]; [by rewrite Hm|].
  apply runs_ret. split; [by right|]. split; [by apply (markers_select m)|]. split; [by exists names|done].
Qed.

(** C9: The migration adds to Secret Service and takes nothing away: the source
    keeps its credentials, a credential that Secret Service has is never
    overwritten.  Markers are published only when Secret Service has the index
    and every value of it, copied from the source unless an earlier run had
    prepared them.  When it reports success the markers select Secret Service,
    and the receipt identifies the index that Secret Service has: the one that
    was reviewed, unless the receipt says that the project was persistent
    already; then nothing was changed, and nothing was compared with what was
    reviewed.  In every state in which a marker file is there, whatever
    happened since, keyutils is not selected. *)
Theorem migration_publishes_complete expected w w' r :
  migrate_linux_to_secret_service open_sidecars project_id expected w = (w', r) →
  kept w w' ∧ migrated expected w w' r ∧
  (∀ u u' st, marker_files u ≠ (None, None) →
   linux_store_from_marker sidecars project_id u = (u', Ok st) → st = LinuxSecretService).
Proof.
  intros H. enough (runs false (migrate_linux_to_secret_service open_sidecars project_id expected) w (migrated expected w)) as Hr.
  { destruct (Hr _ _ H) as (K & _ & Hm). split_and!; [done..|]. intros u u' st Hn Hs. by eapply keyutils_unmarked. }
  clear H w' r. unfold migrate_linux_to_secret_service.
  assert (∀ u y, ring u = ring w → marker_files u = marker_files w → migrated expected w u (Err y)) as Hno
    by (intros; split; [by left|done]).
  apply runs_bind. intros w1 r1 E1. pose proof E1 as [R1 M1]%silent_open.
  split_and!; [by apply kept_ring|done|]. apply Hopen in E1 as (_ & _ & Ho). destruct r1 as [sc|y]; [|by apply Hno].
  rewrite (Ho sc eq_refl). clear Ho.
  apply runs_bind, runs_loose, runs_silent; [apply silent_acquire|]. intros w2 [[]|y] R2 M2 _; [|apply Hno; congruence].
  apply runs_bind, runs_loose, runs_silent; [apply silent_reconcile|]. intros w3 [[]|y] R3 M3 _; [|apply Hno; congruence].
  apply runs_bind, runs_state; [|intros; apply Hno; congruence]. intros w4 st R4 M4 Hc.
  case_bool_decide as Est; [subst st|].
  - apply runs_bind, runs_index; [|intros; apply Hno; congruence]. intros w5 names R5 M5 Hn.
    apply runs_bind, runs_lift. destruct (migration_state_id names) as [id|e] eqn:Eid; [|apply Hno; congruence].
    assert (marker_files w5 = marker_files w3) as M53 by congruence. assert (ring w5 = ring w4) as R54 by congruence.
    apply runs_ret. split; [left; congruence|]. split_and!; [|exists names; by rewrite R54|cbn; split; congruence].
    unfold selected. rewrite M53. by destruct Hc as [Hc|[_ [=]]].
  - apply runs_bind, runs_loose, runs_silent; [apply silent_durable|]. intros w5 [prepared|y] R5 M5 E5; [|apply Hno; congruence].
    destruct prepared; [|apply copy_spec; congruence]. apply prepared_spec; [congruence..|].
    assert (ring w4 (sentinel_entry LinuxSecretService) ≠ None) as Hs; [|congruence].
    revert E5. enough (runs true (durable_linux_migration_sentinel_exists project_id) w4 (fun _ r =>
      r = Ok true → ring w4 (sentinel_entry LinuxSecretService) ≠ None)) as Hq by (intros E5; by apply (Hq _ _ E5)).
    apply runs_bind, runs_credential; [|done]. intros u R M. apply runs_bind, runs_get; [|done].
    intros u1 Ru Mu. replace (mk_entry _ _ _) with (sentinel_entry LinuxSecretService) by done. rewrite <- R.
    destruct (ring u (sentinel_entry LinuxSecretService)); [|by apply runs_ret].
    apply runs_bind, runs_lift. destruct (validate_linux_backend_marker _ _); [by apply runs_ret|done].
Qed.
End migration.
