(* ===== verification/DemoKeychain.v ===== *)
(** * An in-memory machine for the keychain vault

    The machine of [InitTxnSpec]: the secrets of its vault are the credentials,
    its files the sidecars.  A credential call may fail with or without having
    taken effect.  The interfaces of the keychain have instances that obey
    their laws; the theorems of [KeychainSpec] and [KeychainMigration] are
    applied to concrete runs. *)

From stdpp Require Import pretty.
From S2P Require Import Prelude Text Ids External Canonical StateDir Rotation VaultMeta VaultData AnchoredFs InitTxn InitTxnSpec FileVault FileVaultSpec DemoVault Keychain KeychainSpec KeychainMigration.

(** ** Credentials *)

(** The secret an entry is kept as *)
Definition entry_text (e : Entry) : string :=
  pretty (N.pos (encode (bool_decide (en_store e = LinuxKeyutils), en_service e, en_account e))).

Lemma entry_text_inj e e' : entry_text e = entry_text e' → e = e'.
Proof.
  unfold entry_text. intros E%(inj pretty). injection E as E%(inj encode). injection E as E1 E2 E3.
  destruct e as [[] s a], e' as [[] s' a']; vm_compute in E1; cbn in E2, E3; congruence.
Qed.

Definition demo_ring (w : demo) (e : Entry) : option string := vd_secrets (dm_vault w) !! entry_text e.

Definition with_ring (f : gmap string string → gmap string string) (w : demo) : demo :=
  InitTxnSpec.with_vault (mk_vault_data (f (vd_secrets (dm_vault w))) (vd_metadata (dm_vault w)) (vd_validation (dm_vault w))) w.

(** The call [k] fails after it took effect when [1000 + k] is a failure. *)
Definition late : N := 999.
Definition credential_call {T} (f : gmap string string → gmap string string) (x : result T KeyringError)
    : io demo KeyringError T :=
  tick (KeyringFailure "locked") (fun w =>
    (with_ring f w, if bool_decide ((dm_next w + late)%N ∈ dm_fails w) then Err (KeyringFailure "timeout") else x)).

#[export] Instance demo_keyring : Keyring demo := {
  new_credential := fun _ w => (w, Ok tt);
  get_password := fun e w => (w, ok_or (demo_ring w e) NoEntry);
  set_password := fun e x => credential_call (insert (entry_text e) x) (Ok tt);
  delete_credential := fun e w =>
    match demo_ring w e with
    | None => (w, Err NoEntry)
    | Some _ => credential_call (delete (entry_text e)) (Ok tt) w
    end;
  keyring_error_text := fun e => match e with NoEntry => "no entry"%string | KeyringFailure t => t end;
}.

(** ** The laws *)

(** What is seen besides files may be seen less closely. *)
Lemma fs_laws_coarser {W V V'} (F : AnchoredFs W) (view : W → tree) (others : W → V) (f : V → V') :
  AnchoredFsLaws F view others → AnchoredFsLaws F view (fun w => f (others w)).
Proof.
  intros L. refine {| anchor_path := @anchor_path _ _ _ _ _ L; target_path := @target_path _ _ _ _ _ L;
    created_path := @created_path _ _ _ _ _ L; created_anchor_path := @created_anchor_path _ _ _ _ _ L |}.
  - intros a c w w' r (H1 & -> & H2)%open_subdirectory_law. done.
  - intros a c w w' r (-> & H)%create_private_child_law. done.
  - intros d w w' r (-> & H)%remove_if_empty_exact_law. done.
  - intros a c w w' r (H1 & -> & H2)%target_of_law. done.
  - intros t w w' r (H1 & -> & H2)%read_target_law. done.
  - intros t e b p w w' r (-> & H)%replace_law. done.
  - intros t e w w' r (-> & H)%unlink_law. done.
Defined.

#[export] Instance demo_ring_laws : AnchoredFsLaws demo_fs demo_tree demo_ring :=
  fs_laws_coarser demo_fs demo_tree dm_vault (fun v e => vd_secrets v !! entry_text e) demo_fs_laws.

#[export] Instance demo_ring_vault_fs : VaultFsLaws demo_vault_fs demo_tree demo_ring demo_ring_laws.
Proof.
  constructor.
  - intros a n w w' r (Ho & H)%acquire_lock_law. split; [unfold demo_ring; by rewrite Ho|exact H].
  - intros a c w w' r (Ho & H)%private_subdirectory_law. split; [unfold demo_ring; by rewrite Ho|exact H].
  - intros t w w' r (Ho & H)%repair_law. split; [unfold demo_ring; by rewrite Ho|exact H].
Qed.

#[export] Instance demo_keychain_fs : KeychainFs demo_fs := {
  target_with_private_parents := fun (a : list string) p w => (w, Ok (a ++ [p]));
  acquire_exclusive_lock := fun t : list string =>
    tick OtherKind (fun w =>
      (with_files (<[t := mk_read "" (mk_identity 1 (dm_next w)) private_permissions]> (dm_files w)) w, Ok tt));
  relative_path_text := fun t : list string => join "/" t;
}.

#[export] Instance demo_keychain_fs_laws : KeychainFsLaws demo_keychain_fs demo_tree demo_ring demo_ring_laws.
Proof.
  constructor.
  - intros t w w' r [(Hv & Ht & ->)|(w1 & H & Hv & Ht)]%tick_inv; unfold demo_ring.
    + rewrite Hv, Ht. split; [done|]. exists (file_at (demo_tree w) t). by split_and!.
    + rewrite <- Hv, <- Ht. injection H as <- <-. split; [done|]. eexists. unfold but_file; split_and!; try done; cbn.
      intros q Hq. by apply lookup_insert_ne.
  - by intros a p w w' r [= <- <-].
Qed.

Lemma credential_call_law e y f w w' r :
  (∀ m, f m !! entry_text e = y) → (∀ m k, k ≠ entry_text e → f m !! k = m !! k) →
  credential_call f (Ok tt) w = (w', r) →
  demo_tree w' = demo_tree w ∧
  ∃ x, but_entry e x (demo_ring w) (demo_ring w') ∧ (x = demo_ring w e ∨ x = y) ∧ (∀ u : unit, r = Ok u → x = y) ∧
    r ≠ Err NoEntry.
Proof.
  intros Hy Hk [(Hv & Ht & ->)|(w1 & H & Hv & Ht)]%tick_inv; unfold demo_ring.
  - split; [done|]. exists (demo_ring w e). unfold demo_ring, but_entry. rewrite Hv. split_and!; try done. by left.
  - rewrite <- Hv, <- Ht. injection H as <- <-. split; [done|]. exists y. unfold but_entry; split_and!; cbn; try done.
    + intros e' He. apply Hk. by intros ->%entry_text_inj.
    + by right.
    + by case_bool_decide.
Qed.

#[export] Instance demo_keyring_laws : KeyringLaws demo_keyring demo_ring demo_tree.
Proof.
  constructor.
  - by intros e w w' r [= <- <-].
  - intros e w w' r [= <- <-]. split_and!; [done..|]. by destruct (demo_ring w e).
  - intros e x w w' r (Ht & y & H1 & H2 & H3 & _)%(credential_call_law e (Some x)).
    + split; [done|]. by exists y.
    + intros m. apply lookup_insert_eq.
    + intros m k Hk. by rewrite lookup_insert_ne.
  - intros e w w' r H. cbn in H. destruct (demo_ring w e) eqn:E.
    + apply (credential_call_law e None) in H as (Ht & y & H1 & H2 & H3 & H4).
      * split; [done|]. exists y. by rewrite <- E.
      * intros m. apply lookup_delete_eq.
      * intros m k Hk. by rewrite lookup_delete_ne.
    + injection H as <- <-. split; [done|]. exists None. unfold but_entry. split_and!; try done. by left.
Qed.

#[export] Instance demo_keychain_env : KeychainEnvLaws demo_ring demo_tree.
Proof. constructor; [done|]. by intros w w' t [= <- <-]. Qed.

#[export] Instance demo_unicode : UnicodeTables := fun _ => false.

(** ** JSON *)

(** A format of a few known values *)
Definition known_json {T} `{EqDecision T} (l : list (T * string)) : JsonOf T := {|
  json_write := fun x => ok_or (snd <$> find (fun e => bool_decide (e.1 = x)) l) "unknown value"%string;
  json_read := fun s => ok_or (fst <$> find (fun e => String.eqb e.2 s) l) "unknown text"%string;
|}.

Lemma known_json_laws {T} `{EqDecision T} (l : list (T * string)) : NoDup (map snd l) → JsonLaws T (H := known_json l).
Proof.
  intros Hl x s. cbn. destruct (find _ l) as [[y t]|] eqn:E1; [|done]. intros [= <-].
  apply find_some in E1 as [Hy Hx%bool_decide_eq_true]. cbn in Hx. subst y.
  destruct (find (fun e => String.eqb e.2 t) l) as [[z u]|] eqn:E2.
  - apply find_some in E2 as [Hz Hu%String.eqb_eq]. cbn in Hu. subst u. cbn. do 2 f_equal.
    apply list_elem_of_In, list_elem_of_lookup in Hy as [i Hi]. apply list_elem_of_In, list_elem_of_lookup in Hz as [j Hj].
    assert (i = j) as <-.
    { apply (NoDup_lookup _ _ _ t Hl); rewrite list_lookup_fmap; [by rewrite Hi|by rewrite Hj]. }
    congruence.
  - exfalso. apply (find_none _ _ E2) in Hy. cbn in Hy. by rewrite String.eqb_refl in Hy.
Qed.

Definition fresh_meta : gmap string SecretMetadata := {[ "A"%string := new_now demo_now ]}.

#[export] Instance demo_index_json : JsonOf (list string) := known_json [([], "[]"); (["A"], "[A]")]%string.
#[export] Instance demo_meta_json : JsonOf (gmap string SecretMetadata) := known_json [(∅, "{}"); (fresh_meta, "{A}")]%string.
#[export] Instance demo_verdict_json : JsonOf (gmap string ValidationMetadata) :=
  known_json [(∅, "{}"); ({[ "A"%string := default_validation ]}, "{A}")]%string.
#[export] Instance demo_marker_json : JsonOf LinuxBackendMarker := known_json [(linux_marker_for "p", "M")]%string.

#[export] Instance demo_index_json_laws : JsonLaws (list string).
Proof. apply known_json_laws. by apply (bool_decide_unpack _). Qed.
#[export] Instance demo_meta_json_laws : JsonLaws (gmap string SecretMetadata).
Proof. apply known_json_laws. by apply (bool_decide_unpack _). Qed.
#[export] Instance demo_verdict_json_laws : JsonLaws (gmap string ValidationMetadata).
Proof. apply known_json_laws. by apply (bool_decide_unpack _). Qed.
#[export] Instance demo_marker_json_laws : JsonLaws LinuxBackendMarker.
Proof. apply known_json_laws. by apply (bool_decide_unpack _). Qed.

(** ** A keychain vault *)

Definition demo_digest_p : string := project_digest "p".

(** The sidecars of the project [p] *)
Definition demo_sidecars : KeychainSidecars (F := demo_fs) :=
  mk_sidecars (F := demo_fs)
    [stable_lock_name "p"] [legacy_lock_path "p"] ["metadata"; demo_digest_p +:+ ".meta.json"]
    ["metadata"; demo_digest_p +:+ ".validation.json"] ["metadata"; demo_digest_p +:+ ".linux-backend.json"]
    ["config"; demo_digest_p +:+ ".json"] ["metadata"; "p.meta.json"] ["metadata"; "p.validation.json"] false.

Definition demo_open_sidecars : vault_io demo KeychainSidecars :=
  open_sidecars (F := demo_fs) (io_ret ([] : list string)) (io_ret ["config"]%string) "p".

Definition demo_keychain : KeychainVault (F := demo_fs) := explicit_linux_vault "p" demo_sidecars LinuxKeyutils.

Lemma demo_paths : NoDup (sidecar_paths demo_ring demo_tree demo_keychain).
Proof. apply (bool_decide_unpack _). vm_compute. exact I. Qed.

Lemma demo_opened w w' r :
  demo_open_sidecars w = (w', r) →
  demo_ring w' = demo_ring w ∧ (∀ p, file_at (demo_tree w') p = file_at (demo_tree w) p) ∧
  ∀ s, r = Ok s → s = demo_sidecars.
Proof.
  intros H. change (demo_open_sidecars w) with
    (with_dirs ({[["linux-backends-test"]%string]} ∪ ({[["metadata"]%string]} ∪ dm_dirs w)) w, Ok (E := PhantomError) demo_sidecars) in H.
  injection H as <- <-. split_and!; [done..|]. by intros s [= <-].
Qed.

Abbreviation demo_state := (kstate_of demo_ring demo_tree demo_keychain "A").

(** *** A store whose metadata cannot be saved *)

Definition demo_store (fails : list N) : demo * result unit PhantomError :=
  kc_store demo_keychain "A" "sk-2" (mk_demo empty_vault ∅ ∅ 1 fails).

Lemma keychain_writes_atomic_witness :
  (demo_store []).2 = Ok tt ∧
  (∃ p q, has_parts (demo_state (mk_demo empty_vault ∅ ∅ 1 [])) p ∧ stores "A" "sk-2" None p q ∧
     has_parts (demo_state (demo_store []).1) q) ∧
  (demo_store [5]%N).2 = Err (VaultError "keychain store failed and prior keychain state was restored: IO error: I/O error") ∧
  entry_view (demo_state (demo_store [5]%N).1) = entry_view (demo_state (mk_demo empty_vault ∅ ∅ 1 [5]%N)).
Proof.
  assert ((demo_store []).2 = Ok tt) as E by (vm_compute; reflexivity).
  split; [exact E|]. split.
  - destruct (keychain_writes_atomic demo_ring demo_tree demo_keychain demo_paths "A" (mk_demo empty_vault ∅ ∅ 1 [])) as [H _].
    destruct (H "sk-2"%string _ _ (surjective_pairing (demo_store []))) as [_ Hw]. rewrite E in Hw. exact Hw.
  - assert ((demo_store [5]%N).2 = Err (VaultError "keychain store failed and prior keychain state was restored: IO error: I/O error")) as E'
      by (vm_compute; reflexivity).
    split; [exact E'|].
    destruct (keychain_writes_atomic demo_ring demo_tree demo_keychain demo_paths "A" (mk_demo empty_vault ∅ ∅ 1 [5]%N)) as [H _].
    destruct (H "sk-2"%string _ _ (surjective_pairing (demo_store [5]%N))) as [_ Hw]. rewrite E' in Hw.
    destruct Hw as [_ Hw]. apply Hw. eexists. reflexivity.
Defined.

Lemma keychain_reads_exact_witness :
  (kc_list demo_keychain (demo_store []).1).2 = Ok ["A"]%string ∧
  ks_names (demo_state (demo_store []).1) = Some ["A"]%string.
Proof.
  assert ((kc_list demo_keychain (demo_store []).1).2 = Ok ["A"]%string) as E by (vm_compute; reflexivity). split; [exact E|].
  destruct (keychain_reads_exact demo_ring demo_tree demo_keychain demo_paths "A" (demo_store []).1) as [H _].
  destruct (H _ _ (surjective_pairing (kc_list demo_keychain (demo_store []).1))) as [_ [_ Ha]]. apply Ha. exact E.
Defined.

(** *** An entry of an older version *)

(** [A] is kept under its plain name, and nothing else. *)
Definition legacy_machine (fails : list N) : demo :=
  with_ring (fun _ => {[ entry_text (legacy_entry (F := demo_fs) demo_keychain "A") := "sk-1"%string ]})
    (mk_demo empty_vault ∅ ∅ 1 fails).

Definition demo_retrieve (fails : list N) : demo * result string PhantomError :=
  kc_retrieve demo_keychain "A" (legacy_machine fails).

(** The migration to the hashed name, and one of which removing the plain
    name times out after it took effect: the value is still there. *)
Lemma legacy_value_never_lost_witness :
  (demo_retrieve []).2 = Ok "sk-1"%string ∧
  ks_hashed (demo_state (demo_retrieve []).1) = Some "sk-1"%string ∧
  (demo_retrieve [1005]%N).2 = Err (VaultError "legacy keychain migration failed and prior keychain state was restored: Vault error: Failed to delete legacy secret: timeout") ∧
  ks_value (demo_state (demo_retrieve [1005]%N).1) = ks_value (demo_state (legacy_machine [1005]%N)).
Proof.
  assert ((demo_retrieve []).2 = Ok "sk-1"%string) as E by (vm_compute; reflexivity). split; [exact E|]. split.
  - destruct (legacy_value_never_lost demo_ring demo_tree demo_keychain demo_paths "A" _ _ _
      (surjective_pairing (demo_retrieve []))) as (_ & _ & _ & _ & _ & H). rewrite E in H. exact (proj2 H).
  - split; [vm_compute; reflexivity|].
    exact (proj1 (proj2 (legacy_value_never_lost demo_ring demo_tree demo_keychain demo_paths "A" _ _ _
      (surjective_pairing (demo_retrieve [1005]%N))))).
Defined.

(** *** Metadata *)

Definition demo_set_metadata : demo * result unit PhantomError :=
  kc_set_metadata demo_keychain "A" (new_now demo_now) (demo_store []).1.

Lemma keychain_metadata_exact_witness :
  demo_set_metadata.2 = Ok tt ∧
  ∃ before, ks_metas (demo_state (demo_store []).1) = Some before ∧
    ks_metas (demo_state demo_set_metadata.1) = Some (<["A"%string := new_now demo_now]> before).
Proof.
  assert (demo_set_metadata.2 = Ok tt) as E by (vm_compute; reflexivity). split; [exact E|].
  destruct (keychain_metadata_exact demo_ring demo_tree demo_keychain demo_paths "A" (demo_store []).1) as [H _].
  destruct (H (new_now demo_now) _ _ (surjective_pairing demo_set_metadata)) as [_ Hc]. rewrite E in Hc.
  destruct Hc as (l & before & after & _ & Hb & [_ ->] & Hv). exists before. split; [exact Hb|].
  exact (f_equal (fun x => x.1.2) Hv).
Defined.

(** *** The migration to Secret Service *)

Lemma demo_linux_paths : NoDup (sidecar_paths demo_ring demo_tree (explicit_linux_vault "p" demo_sidecars LinuxKeyutils)).
Proof. exact demo_paths. Qed.

(** The id of the index that is reviewed *)
Definition demo_state_id : string := match migration_state_id ["A"%string] with Ok id => id | Err _ => EmptyString end.

(** A machine with one stored value, on keyutils *)
Definition demo_keyutils : demo := (demo_store []).1.

Abbreviation demo_migrate := (migrate_linux_to_secret_service demo_open_sidecars "p" demo_state_id demo_keyutils).

Lemma migration_publishes_complete_witness :
  (∃ id, demo_migrate.2 = Ok (mk_migration_receipt 1 id false)) ∧
  selected demo_ring demo_tree "p" demo_sidecars (demo_migrate.1) ∧
  complete_copy demo_ring "p" demo_sidecars (demo_migrate.1).
Proof.
  assert (demo_migrate.2 = Ok (mk_migration_receipt 1 demo_state_id false)) as E by (vm_compute; reflexivity).
  destruct (migration_publishes_complete demo_ring demo_tree "p" demo_sidecars demo_linux_paths demo_open_sidecars demo_opened
    demo_state_id demo_keyutils _ _ (surjective_pairing demo_migrate)) as (_ & [_ H] & _).
  rewrite E in H. destruct H as (Hs & _ & _ & Hc & _). split; [|split]; [by exists demo_state_id|exact Hs|exact Hc].
Defined.

(** ** What the runs show *)

(** A first [set_password] that times out after it took effect is reported as
    a failed store and not compensated: the value is the new one, the index
    and the metadata do not know the name. *)
Lemma failed_store_uncompensated :
  (demo_store [1003]%N).2 = Err (VaultError "Failed to store secret: timeout") ∧
  ks_value (demo_state (demo_store [1003]%N).1) = Some "sk-2"%string ∧
  ks_names (demo_state (demo_store [1003]%N).1) = Some [] ∧
  ks_metas (demo_state (demo_store [1003]%N).1) = Some ∅.
Proof. vm_compute. done. Qed.

(** Opening the sidecars makes the directory of the tests. *)
Lemma open_makes_test_directory :
  bool_decide (["linux-backends-test"]%string ∈ dm_dirs (demo_open_sidecars demo_empty).1) = true.
Proof. vm_compute. reflexivity. Qed.
