(* ===== verification/HookText.v ===== *)
(** * The text of the pre-commit hook: [crates/phantom-core/src/precommit_hook.rs]

    What [ensure] makes of an existing hook: the canonical block behind the
    shebang, then the lines of the hook that are not Phantom's.  Asking Git for
    the path of the hook and installing it are not modelled.  A text is made
    ready by [ensure] unless its own shebang runs a package runner, and the
    lines of a hook without Phantom are kept ([ensure_ready]); those between
    an unterminated block and a later end marker are lost
    ([lines_before_end_marker_lost]). *)

From S2P Require Import Prelude Text.

(** A quotation mark *)
Definition quote : string := String "034" EmptyString.

Definition HOOK_MARKER : string := "# Phantom Secrets pre-commit hook".
Definition HOOK_END_MARKER : string := "# End Phantom Secrets pre-commit hook".
Definition LEGACY_NPX_COMMAND : string := "npx phantom-secrets check --staged".

(** The lines of [HOOK_BLOCK] *)
Definition HOOK_BLOCK_LINES : list string :=
  [HOOK_MARKER;
   "# Uses an installed local Phantom binary; never downloads packages.";
   "if ! command -v phantom >/dev/null 2>&1; then";
   "  echo " +:+ quote +:+ "Phantom pre-commit hook: 'phantom' is required but was not found on PATH." +:+ quote +:+ " >&2";
   "  echo " +:+ quote +:+ "Install a verified Phantom release, then retry the commit." +:+ quote +:+ " >&2";
   "  exit 1";
   "fi";
   "phantom check --staged || exit $?";
   HOOK_END_MARKER]%string.

Definition line_feed : string := String "010" EmptyString.
Definition HOOK_BLOCK : string := join line_feed HOOK_BLOCK_LINES.

Inductive HookChange := HookUnchanged | HookInstalled | HookRepaired.

Record HookUpdate := mk_hook_update { hu_content : string; hu_change : HookChange }.

(** [s.split_whitespace()]; the fuel is the length of the text. *)
Fixpoint split_whitespace_from (fuel : nat) (word s : string) : list string :=
  let flush rest := if str_is_empty word then rest else word :: rest in
  match fuel, s with
  | S fuel, String c s' =>
      match List.find (fun w => starts_with w s) white_space with
      | Some w => flush (split_whitespace_from fuel EmptyString (str_drop (String.length w) s))
      | None => split_whitespace_from fuel (word +:+ String c EmptyString) s'
      end
  | _, _ => flush []
  end.
Definition split_whitespace (s : string) : list string := split_whitespace_from (String.length s) EmptyString s.

(** [trim_matches(|c| !c.is_ascii_alphanumeric())] *)
Fixpoint trim_start_other (s : string) : string :=
  match s with
  | String c s' => if is_ascii_alphanumeric c then s else trim_start_other s'
  | EmptyString => s
  end.
Definition trim_other (s : string) : string :=
  str_rev (trim_start_other (str_rev (trim_start_other s) EmptyString)) EmptyString.

(** [is_network_capable_phantom_line] *)
Definition is_network_capable_phantom_line (line : string) : bool :=
  let normalized := to_ascii_lowercase (trim line) in
  contains_str "phantom" normalized
  && existsb (fun token => existsb (String.eqb (trim_other token)) ["npx"; "npm"; "curl"]%string)
       (split_whitespace normalized).

Definition is_shebang (line : string) : bool := starts_with "#!" line.

(** [lines.first().is_some_and(|line| line.starts_with("#!"))] *)
Definition first_is_shebang (lines : list string) : bool :=
  match lines with line :: _ => is_shebang line | [] => false end.

(** [is_current] *)
Definition is_current (content : string) : bool :=
  let lines := text_lines content in
  first_is_shebang lines
  && bool_decide (take (length HOOK_BLOCK_LINES) (drop 1 lines) = HOOK_BLOCK_LINES)
  && (length (filter (fun line => trim line = HOOK_MARKER) lines) =? 1)%nat
  && negb (existsb is_network_capable_phantom_line lines).

(** [is_ready] *)
Definition is_ready (content : string) (executable : bool) : bool := executable && is_current content.

(** [has_phantom_block] *)
Definition has_phantom_block (content : string) : bool :=
  contains_str HOOK_MARKER content
  || existsb (fun line => String.eqb (trim line) LEGACY_NPX_COMMAND || is_network_capable_phantom_line line)
       (text_lines content).

(** [is_owned_legacy_line] *)
Definition is_owned_legacy_line (line : string) : bool :=
  let trimmed := trim line in
  str_is_empty trimmed
  || starts_with "# Scans staged files for unprotected secrets" trimmed
  || String.eqb trimmed LEGACY_NPX_COMMAND
  || existsb (String.eqb trimmed)
       ["phantom check --staged"; "phantom check --staged || exit $?"; "exit $?";
        "if ! command -v phantom >/dev/null 2>&1; then"; "else"; "fi"; "exit 1"]%string
  || starts_with ("echo " +:+ quote +:+ "Phantom pre-commit hook:") trimmed
  || starts_with ("echo " +:+ quote +:+ "Install a verified Phantom release,") trimmed
  || starts_with "# Uses an installed local Phantom binary" trimmed.

(** [lines.iter().position(f)] *)
Fixpoint position {A} (f : A → bool) (l : list A) : option nat :=
  match l with
  | [] => None
  | x :: l' => if f x then Some 0%nat else S <$> position f l'
  end.

(** [while end < lines.len() && is_owned_legacy_line(lines[end])] *)
Fixpoint owned_run (lines : list string) : nat :=
  match lines with
  | line :: rest => if is_owned_legacy_line line then S (owned_run rest) else 0%nat
  | [] => 0%nat
  end.

(** [stale_block_end], as the number of lines from [start] on; [lines] are the
    lines from [start] on. *)
Definition stale_block_length (lines : list string) (has_marker : bool) : nat :=
  match (if has_marker then position (fun line => String.eqb (trim line) HOOK_END_MARKER) lines else None) with
  | Some relative_end => S relative_end
  | None =>
      S (if has_marker then owned_run (drop 1 lines)
         else match drop 1 lines with
              | line :: _ => if String.eqb (trim line) "exit $?" then 1%nat else 0%nat
              | [] => 0%nat
              end)
  end.

(** The loop of [ensure]; every round drops a line. *)
Fixpoint preserved_lines (fuel : nat) (lines : list string) : list string :=
  match fuel, lines with
  | S fuel, line :: rest =>
      if String.eqb (trim line) HOOK_MARKER then preserved_lines fuel (drop (stale_block_length lines true) lines)
      else if String.eqb (trim line) LEGACY_NPX_COMMAND || is_network_capable_phantom_line line
      then preserved_lines fuel (drop (stale_block_length lines false) lines)
      else line :: preserved_lines fuel rest
  | _, _ => []
  end.

(** [append_lines] *)
Definition append_lines (output : string) (lines : list string) : string :=
  foldl (fun output line => output +:+ line +:+ line_feed) output lines.

(** [ensure] *)
Definition ensure (content : string) : HookUpdate :=
  if is_current content then mk_hook_update content HookUnchanged
  else
    let lines := text_lines content in
    let had_phantom := has_phantom_block content || contains_str HOOK_BLOCK content in
    let body := drop (if first_is_shebang lines then 1 else 0) lines in
    let preserved := preserved_lines (length body) body in
    let shebang := match lines with
                   | line :: _ => if is_shebang line then line else "#!/bin/sh"%string
                   | [] => "#!/bin/sh"%string
                   end in
    let output := shebang +:+ line_feed +:+ HOOK_BLOCK +:+ line_feed in
    let output := match preserved with [] => output | _ => append_lines (output +:+ line_feed) preserved end in
    mk_hook_update output (if had_phantom then HookRepaired else HookInstalled).

(** ** Carriage returns and trimming *)

Definition cr : string := String "013" EmptyString.

Lemma white_space_cr w s : w ∈ white_space → s ≠ EmptyString → w ≠ s +:+ cr.
Proof.
  assert (forallb (fun w => negb (ends_with cr w) || String.eqb w cr) white_space = true) as H by reflexivity.
  rewrite forallb_forall in H. intros Hw%list_elem_of_In Hs ->. specialize (H _ Hw).
  assert (ends_with cr (s +:+ cr) = true) as E by (apply ends_with_spec; by exists s). rewrite E in H. cbn [negb orb] in H.
  apply String.eqb_eq in H. apply Hs. destruct s as [|c s]; [done|]. apply (f_equal String.length) in H.
  rewrite str_length_app in H. cbn in H. lia.
Qed.

Lemma starts_white_cr w s :
  w ∈ white_space → s ≠ EmptyString → starts_with w (s +:+ cr) = starts_with w s.
Proof.
  intros Hw Hs. apply eq_true_iff_eq. rewrite !starts_with_spec. split; [|intros [t ->]; exists (t +:+ cr); by rewrite str_app_assoc].
  intros [t Ht]. destruct (str_rev t EmptyString) as [|c r] eqn:E.
  - apply (f_equal (fun x => str_rev x EmptyString)) in E. rewrite str_rev_rev in E. subst t. rewrite str_app_nil_r in Ht.
    by destruct (white_space_cr w s Hw Hs).
  - exists (str_rev r EmptyString). apply (f_equal (fun x => str_rev x EmptyString)) in E.
    rewrite str_rev_rev, str_rev_snoc in E. rewrite E, <- str_app_assoc in Ht.
    apply (f_equal (fun x => str_rev x EmptyString)) in Ht. rewrite !str_rev_concat in Ht. cbn in Ht. injection Ht as _ Ht.
    rewrite <- (str_rev_rev s), Ht, str_rev_concat, !str_rev_rev. done.
Qed.

Lemma trim_start_cr fuel s :
  (String.length s <= fuel)%nat →
  trim_start white_space (S fuel) (s +:+ cr) =
    let t := trim_start white_space fuel s in if str_is_empty t then EmptyString else t +:+ cr.
Proof.
  revert s. induction fuel as [|fuel IH]; intros s Hl.
  - by destruct s; [|cbn in Hl; lia].
  - destruct s as [|c s0] eqn:Es; [by destruct fuel|]. rewrite <- Es in *.
    change (trim_start white_space (S (S fuel)) (s +:+ cr)) with
      (match List.find (fun w => starts_with w (s +:+ cr)) white_space with
       | Some w => trim_start white_space (S fuel) (str_drop (String.length w) (s +:+ cr)) | None => s +:+ cr end).
    change (trim_start white_space (S fuel) s) with
      (match List.find (fun w => starts_with w s) white_space with
       | Some w => trim_start white_space fuel (str_drop (String.length w) s) | None => s end).
    assert (∀ l, (∀ w, w ∈ l → w ∈ white_space) →
      List.find (fun w => starts_with w (s +:+ cr)) l = List.find (fun w => starts_with w s) l) as Hfind.
    { induction l as [|w l IHl]; intros Hin; [done|]. cbn. rewrite (starts_white_cr w s), IHl; [done|set_solver..|by subst]. }
    rewrite Hfind by done. destruct (List.find _ white_space) as [w|] eqn:Ef; [|by subst].
    apply List.find_some in Ef as [Hw [t ->]%starts_with_spec]. rewrite str_app_assoc, !str_drop_app.
    apply IH. rewrite str_length_app in Hl. apply list_elem_of_In, white_space_not_empty in Hw. destruct w; [done|]. cbn in Hl. lia.
Qed.

Lemma trim_cr s : trim (s +:+ cr) = trim s.
Proof.
  unfold trim. rewrite str_length_app. change (String.length cr) with 1%nat. rewrite Nat.add_1_r, trim_start_cr by done.
  cbn zeta. set (t := trim_start white_space (String.length s) s). destruct (str_is_empty t) eqn:E.
  - by destruct t.
  - rewrite str_rev_concat. rewrite str_length_app, Nat.add_comm. reflexivity.
Qed.

Lemma strip_cr_cases l : strip_cr l = l ∨ l = strip_cr l +:+ cr.
Proof.
  unfold strip_cr, strip_suffix. fold cr. destruct (ends_with cr l) eqn:E; [|by left]. right.
  apply ends_with_spec in E as [t ->]. rewrite str_length_app, Nat.add_sub, str_take_app. done.
Qed.

Lemma trim_strip_cr l : trim (strip_cr l) = trim l.
Proof. destruct (strip_cr_cases l) as [->| E]; [done|]. rewrite E at 2. by rewrite trim_cr. Qed.

Lemma network_strip_cr l : is_network_capable_phantom_line (strip_cr l) = is_network_capable_phantom_line l.
Proof. unfold is_network_capable_phantom_line. by rewrite trim_strip_cr. Qed.

(** ** What [ensure] makes *)

(** The lines that are kept are no part of a Phantom block. *)
Definition foreign (line : string) : Prop := trim line ≠ HOOK_MARKER ∧ is_network_capable_phantom_line line = false.

Lemma preserved_foreign fuel lines : Forall foreign (preserved_lines fuel lines).
Proof.
  revert lines. induction fuel as [|fuel IH]; intros lines; [constructor|]. destruct lines as [|line rest]; [constructor|].
  cbn [preserved_lines]. destruct (String.eqb_spec (trim line) HOOK_MARKER); [apply IH|].
  destruct (_ || _) eqn:E; [apply IH|]. apply orb_false_iff in E as [_ E]. constructor; [done|apply IH].
Qed.

Lemma preserved_sub fuel lines l : l ∈ preserved_lines fuel lines → l ∈ lines.
Proof.
  revert lines. induction fuel as [|fuel IH]; intros lines; [by intros ?%elem_of_nil|]. destruct lines as [|line rest]; [by intros ?%elem_of_nil|].
  cbn [preserved_lines]. destruct (String.eqb (trim line) HOOK_MARKER); [intros H%IH|destruct (_ || _); [intros H%IH|]].
  1,2: match type of H with _ ∈ drop ?k ?ls => rewrite <- (take_drop k ls) end; set_solver.
  intros [->|H%IH]%elem_of_cons; set_solver.
Qed.

Lemma append_lines_join output lines : append_lines output lines = output +:+ join_lines "010" lines.
Proof.
  revert output. induction lines as [|l lines IH]; intros output; [symmetry; apply str_app_nil_r|].
  unfold append_lines in *. cbn [foldl join_lines]. rewrite IH. unfold line_feed. by rewrite !str_app_assoc.
Qed.

(** The shebang of the result *)
Definition shebang_of (content : string) : string :=
  match text_lines content with
  | line :: _ => if is_shebang line then line else "#!/bin/sh"%string
  | [] => "#!/bin/sh"%string
  end.

Definition preserved_of (content : string) : list string :=
  let lines := text_lines content in
  let body := drop (if first_is_shebang lines then 1 else 0) lines in
  preserved_lines (length body) body.

Lemma ensure_text content :
  is_current content = false →
  hu_content (ensure content) =
    join_lines "010" (shebang_of content :: HOOK_BLOCK_LINES ++
      match preserved_of content with [] => [] | l => EmptyString :: l end).
Proof.
  intros H. unfold ensure. rewrite H. cbn [hu_content]. fold (preserved_of content). fold (shebang_of content).
  assert (∀ x, HOOK_BLOCK +:+ line_feed +:+ x = join_lines "010" HOOK_BLOCK_LINES +:+ x) as Hb.
  { intros x. unfold HOOK_BLOCK, line_feed. unfold HOOK_BLOCK_LINES. cbn [join join_lines]. by rewrite !str_app_assoc. }
  assert (∀ a b, join_lines "010" (a ++ b) = join_lines "010" a +:+ join_lines "010" b) as Happ.
  { induction a as [|x a IH]; intros b; [done|]. cbn [app join_lines]. by rewrite IH, !str_app_assoc. }
  cbn [join_lines]. rewrite Happ. destruct (preserved_of content) as [|p ps].
  - cbn [join_lines]. unfold line_feed at 1. rewrite str_app_nil_r.
    pose proof (Hb EmptyString) as E. rewrite !str_app_nil_r in E. by rewrite E.
  - rewrite append_lines_join. rewrite !str_app_assoc. unfold line_feed at 1. cbn [String.append]. by do 2 f_equal.
Qed.

Lemma text_lines_strip ls :
  Forall (fun l => contains_char "010" l = false) ls → text_lines (join_lines "010" ls) = map strip_cr ls.
Proof.
  induction 1 as [|l ls Hl _ IH]; [done|]. cbn [join_lines]. by rewrite text_lines_split, split_char_one, IH.
Qed.

Lemma contains_strip_cr c l : contains_char c l = false → contains_char c (strip_cr l) = false.
Proof.
  destruct (strip_cr_cases l) as [->|E]; [done|]. unfold contains_char in *. rewrite E at 1. rewrite any_byte_app.
  by intros [? _]%orb_false_iff.
Qed.

Lemma text_lines_free s : Forall (fun l => contains_char "010" l = false) (text_lines s).
Proof.
  unfold text_lines. assert (Forall (fun l => contains_char "010" l = false) (split_char "010" s)) as H
    by (apply Forall_forall; apply split_char_pieces).
  induction H as [|l ls Hl _ IH]; [done|]. destruct ls as [|m ls]; cbn [line_pieces].
  - destruct (str_is_empty l); [done|by constructor].
  - constructor; [by apply contains_strip_cr|exact IH].
Qed.

Lemma shebang_strip_cr l : is_shebang (strip_cr l) = is_shebang l.
Proof.
  destruct (strip_cr_cases l) as [->|E]; [done|]. rewrite E at 2. unfold is_shebang.
  destruct (strip_cr l) as [|a [|b s]]; cbn; rewrite ?andb_false_r; try done.
Qed.

Lemma shebang_of_shebang content : is_shebang (shebang_of content) = true.
Proof. unfold shebang_of. destruct (text_lines content) as [|l ls]; [done|]. by destruct (is_shebang l) eqn:E. Qed.

Lemma shebang_not_marker l : is_shebang l = true → trim l ≠ HOOK_MARKER.
Proof.
  intros [t ->]%starts_with_spec. intros H.
  assert (trim_start white_space (String.length ("#!" +:+ t)) ("#!" +:+ t) = "#!" +:+ t) as E.
  { apply trim_start_id. intros w Hw. by apply (white_space_graphic w "#" (String "!" t) Hw). }
  unfold trim in H. rewrite E in H.
  set (u := trim_start _ _ _) in H. destruct (trim_start_suffix (map (fun w => str_rev w EmptyString) white_space)
    (String.length ("#!" +:+ t)) (str_rev ("#!" +:+ t) EmptyString)) as [a Ha]. fold u in Ha.
  assert ("#!" +:+ t = HOOK_MARKER +:+ str_rev a EmptyString) as Hc.
  { rewrite <- H, <- str_rev_concat, <- Ha, str_rev_rev. done. }
  done.
Qed.

Lemma block_lines_quiet :
  map strip_cr HOOK_BLOCK_LINES = HOOK_BLOCK_LINES ∧
  Forall (fun l => contains_char "010" l = false) HOOK_BLOCK_LINES ∧
  existsb is_network_capable_phantom_line HOOK_BLOCK_LINES = false ∧
  length (filter (fun line => trim line = HOOK_MARKER) HOOK_BLOCK_LINES) = 1%nat.
Proof.
  split; [vm_compute; reflexivity|]. split; [|split; vm_compute; reflexivity].
  apply (bool_decide_unpack _). vm_compute. exact I.
Qed.

Lemma filter_strip_cr ls :
  length (filter (fun line => trim line = HOOK_MARKER) (map strip_cr ls)) =
  length (filter (fun line => trim line = HOOK_MARKER) ls).
Proof.
  induction ls as [|l ls IH]; [done|]. cbn [map]. rewrite !filter_cons, trim_strip_cr.
  destruct (decide _); cbn [length]; by rewrite IH.
Qed.

Lemma ensure_current content :
  is_current (hu_content (ensure content)) = negb (is_network_capable_phantom_line (shebang_of content)).
Proof.
  destruct (is_current content) eqn:Hc.
  - unfold ensure. rewrite Hc. cbn [hu_content]. rewrite Hc. unfold is_current in Hc. unfold shebang_of.
    destruct (text_lines content) as [|l ls]; [done|]. cbn [first_is_shebang existsb] in Hc.
    destruct (is_shebang l); [|done]. symmetry. apply negb_true_iff.
    apply andb_true_iff in Hc as [_ Hc%negb_true_iff]. by apply orb_false_iff in Hc as [? _].
  - rewrite ensure_text by done. destruct block_lines_quiet as (B1 & B2 & B3 & B4).
    set (tail := match preserved_of content with [] => [] | l => EmptyString :: l end).
    assert (Forall foreign tail ∧ Forall (fun l => contains_char "010" l = false) tail) as [Ht1 Ht2].
    { assert (Forall foreign (preserved_of content) ∧ Forall (fun l => contains_char "010" l = false) (preserved_of content)) as [P1 P2].
      { split; [apply preserved_foreign|]. apply Forall_forall. intros l Hl%preserved_sub.
        pose proof (text_lines_free content) as Hf. rewrite Forall_forall in Hf. apply Hf.
        rewrite <- (take_drop (if first_is_shebang (text_lines content) then 1 else 0) (text_lines content)). apply elem_of_app. by right. }
      unfold tail. destruct (preserved_of content); [by split|].
      split; (constructor; [|assumption]); [split; [vm_compute; discriminate|vm_compute; reflexivity]|reflexivity]. }
    assert (contains_char "010" (shebang_of content) = false) as Hsf.
    { unfold shebang_of. pose proof (text_lines_free content) as Hf. destruct (text_lines content) as [|l ls]; [done|].
      destruct (is_shebang l); [|done]. by inversion Hf. }
    unfold is_current. rewrite text_lines_strip by (constructor; [exact Hsf|apply Forall_app; split; [exact B2|exact Ht2]]).
    cbn [map first_is_shebang drop]. rewrite map_app, B1, shebang_strip_cr, shebang_of_shebang.
    rewrite drop_0, take_app_length, bool_decide_eq_true_2 by done.
    assert (length (filter (fun line => trim line = HOOK_MARKER) tail) = 0%nat) as F0.
    { clear -Ht1. induction Ht1 as [|l ls [Hl _] _ IH]; [done|]. rewrite filter_cons, decide_False by done. exact IH. }
    assert (existsb is_network_capable_phantom_line (map strip_cr tail) = false) as N0.
    { clear -Ht1. induction Ht1 as [|l ls [_ Hl] _ IH]; [done|]. cbn. by rewrite network_strip_cr, Hl, IH. }
    rewrite filter_cons, decide_False by (rewrite trim_strip_cr; apply shebang_not_marker, shebang_of_shebang).
    rewrite filter_app, length_app, B4, filter_strip_cr, F0. cbn [existsb]. rewrite existsb_app, B3, N0, network_strip_cr.
    by rewrite orb_false_r.
Qed.

(** A line without any part of Phantom in it *)
Definition unrelated (line : string) : Prop := foreign line ∧ trim line ≠ LEGACY_NPX_COMMAND.

#[export] Instance unrelated_dec line : Decision (unrelated line).
Proof. unfold unrelated, foreign. apply _. Defined.

(** The lines behind the shebang *)
Definition body_of (content : string) : list string :=
  drop (if first_is_shebang (text_lines content) then 1 else 0) (text_lines content).

Lemma unrelated_preserved content : Forall unrelated (text_lines content) → preserved_of content = body_of content.
Proof.
  intros H. unfold preserved_of, body_of. set (k := if first_is_shebang _ then _ else _).
  apply (Forall_drop _ k) in H. cbn zeta. set (body := drop k _) in *. clearbody body. clear k.
  induction H as [|l ls [[H1 H2] H3] _ IH]; [done|]. cbn [length preserved_lines].
  destruct (String.eqb_spec (trim l) HOOK_MARKER); [done|]. destruct (String.eqb_spec (trim l) LEGACY_NPX_COMMAND); [done|].
  cbn [orb]. by rewrite H2, IH.
Qed.

Lemma unrelated_not_current content : Forall unrelated (text_lines content) → is_current content = false.
Proof.
  intros H. assert (length (filter (fun line => trim line = HOOK_MARKER) (text_lines content)) = 0%nat) as E.
  { induction H as [|l ls [[Hl _] _] _ IH]; [done|]. by rewrite filter_cons, decide_False. }
  unfold is_current. by rewrite E, !andb_false_r.
Qed.

(** C29: [ensure] makes a current hook, one that is ready once it is
    executable, of whatever it is given, except when the hook's own shebang
    runs a package runner; exactly a current hook is reported unchanged, and
    its text is not touched; and a hook without any line of Phantom keeps all
    its lines in their order, behind its shebang and the block. *)
Theorem ensure_ready content :
  is_current (hu_content (ensure content)) = negb (is_network_capable_phantom_line (shebang_of content)) ∧
  (is_current content = true → ensure content = mk_hook_update content HookUnchanged) ∧
  (hu_change (ensure content) = HookUnchanged → is_current content = true) ∧
  (Forall unrelated (text_lines content) →
   hu_content (ensure content) =
     join_lines "010" (shebang_of content :: HOOK_BLOCK_LINES ++
       match body_of content with [] => [] | lines => EmptyString :: lines end)).
Proof.
  split_and!.
  - apply ensure_current.
  - intros H. unfold ensure. by rewrite H.
  - unfold ensure. destruct (is_current content); [done|]. cbn. by destruct (_ || _).
  - intros H. by rewrite ensure_text, unrelated_preserved by auto using unrelated_not_current.
Qed.

(** A hook of a user, whose lint run is kept *)
Definition user_hook : string := join_lines "010" ["#!/bin/bash"; "make lint || exit 1"]%string.

Lemma ensure_ready_witness :
  is_current (hu_content (ensure user_hook)) = true ∧
  ensure (hu_content (ensure user_hook)) = mk_hook_update (hu_content (ensure user_hook)) HookUnchanged ∧
  hu_content (ensure user_hook) =
    join_lines "010" ("#!/bin/bash"%string :: HOOK_BLOCK_LINES ++ [EmptyString; "make lint || exit 1"%string]).
Proof.
  split_and!.
  - rewrite (proj1 (ensure_ready user_hook)). vm_compute. reflexivity.
  - apply (proj1 (proj2 (ensure_ready (hu_content (ensure user_hook))))). vm_compute. reflexivity.
  - rewrite (proj2 (proj2 (proj2 (ensure_ready user_hook)))); [vm_compute; reflexivity|].
    apply (bool_decide_unpack _). vm_compute. exact I.
Defined.

(** A hook of a version without end markers, to which the user added a check
    and a second, complete block: everything up to the end marker goes. *)
Definition two_blocks : string :=
  join_lines "010" (["#!/bin/sh"; HOOK_MARKER; "phantom check --staged"; "make lint || exit 1"]%string ++ HOOK_BLOCK_LINES).

Lemma lines_before_end_marker_lost :
  contains_str "make lint" two_blocks = true ∧ contains_str "make lint" (hu_content (ensure two_blocks)) = false.
Proof. vm_compute. done. Qed.
