(* ===== verification/Workspace.v ===== *)
(** * Inspecting a workspace and planning its setup: [crates/phantom-workspace]

    [discovery.rs]: the dotenv files below a root, with the names of their
    entries and how they are classified, and the remotes of the Git
    configuration; [plan.rs]: the plan of setup actions made from an
    inspection, with its identifier; [capability.rs]: the capability card.
    Values of dotenv entries are read and dropped; what is kept are names.
    The calls of [std::fs] are the class [WorkspaceFs].  The theorems are in
    [WorkspaceSpec]; applying a plan is [WorkspaceTxn]. *)

From S2P Require Import Prelude Text Ids External Canonical StateDir AnchoredFs Bytes Dotenv Classify HookText.

(** ** Errors *)

Inductive WorkspaceError :=
  | RootNotDirectory (path : string)
  | WIo (path : string) (source : ErrorKind)
  | Serialization (text : string)
  | InvalidPlan
  | PlanDrift (approved_plan_id current_plan_id : string)
  | UnsafeTarget (path : string)
  | Participant (stage code : string)
  | RollbackIncomplete
  | RollbackDrift (path : string)
  | InvalidJournal
  | JournalMismatch.

#[export] Instance WorkspaceError_eq_dec : EqDecision WorkspaceError.
Proof. solve_decision. Defined.

(** ** The file system by path *)

Inductive FileType := RegularFile | Directory | Symlink | OtherFile.

#[export] Instance FileType_eq_dec : EqDecision FileType.
Proof. solve_decision. Defined.

(** [std::fs::Metadata] *)
Record FileMeta := mk_meta { fm_type : FileType; fm_len : N; fm_nlink : N; fm_mode : N }.

(** What walking a directory meets: entries in the order they are served,
    each with its type; a link resolves or not; a call may fail. *)
Inductive dir_tree :=
  | DirTree (entries : list (string * dir_entry))
  | DirFails (error : ErrorKind)
with dir_entry :=
  | EFile
  | EDirectory (tree : dir_tree)
  | ELink (resolves : bool)
  | EOther
  | EEntryFails (error : ErrorKind)
  | ETypeFails (error : ErrorKind).

(** A file opened without following a final link, and read *)
Inductive NofollowRead := NfMissing | NfRefused | NfContent (text : string).

Class WorkspaceFs (W : Type) := {
  (** [symlink_metadata], which does not follow a link *)
  lstat : string → io W ErrorKind FileMeta;
  (** [is_dir] and [exists], which do *)
  is_dir : string → io W ErrorKind bool;
  path_exists : string → io W ErrorKind bool;
  canonicalize_path : string → io W ErrorKind string;
  read_text : string → io W ErrorKind string;
  read_file_bytes : string → io W ErrorKind string;
  read_tree : string → io W ErrorKind dir_tree;
  (** [open_regular_nofollow] and reading to the end *)
  read_nofollow : string → io W ErrorKind NofollowRead;
  (** [precommit_hook::resolve_path], which asks Git; an error is its text *)
  resolve_hook_path : string → io W string (option string);
  (** TOML of the default configuration of a project *)
  default_config_toml : string → result string string;
}.

(** An error of the operating system, with the path *)
Definition at_path {W T} (path : string) (m : io W ErrorKind T) : io W WorkspaceError T := fun w =>
  let '(w1, r) := m w in (w1, map_err (WIo path) r).

(** [path.join(name)] *)
Definition join_path (base name : string) : string :=
  if starts_with "/" name then name
  else if ends_with "/" base then base +:+ name else base +:+ "/" +:+ name.

Definition component_text (c : Component) : string :=
  match c with RootDir => "/" | CurDir => "." | ParentDir => ".." | Normal n => n end.

(** [relative_path] *)
Definition relative_path (root path : string) : string :=
  let below := match strip_path_prefix (components root) (components path) with
               | Some below => below
               | None => components path
               end in
  join "/" (map component_text below).

(** [path.file_name()] *)
Definition file_name (path : string) : option string :=
  match last (components path) with Some (Normal n) => Some n | _ => None end.

(** [path.parent()] *)
Definition parent_path (path : string) : string := 
  match rsplit_once "/" path with
  | Some (EmptyString, _) => "/"
  | Some (p, _) => p
  | None => EmptyString
  end.

(** ** Data *)

Record EnvFileObservation := mk_observation {
  eo_path : string;
  eo_entry_names : list string;
  eo_unprotected_secret_names : list string;
  eo_protected_secret_names : list string;
  eo_public_key_names : list string;
  eo_config_names : list string;
}.

Record GitRemoteIdentity := mk_remote {
  gr_name : string;
  gr_host : string;
  gr_owner : string;
  gr_repository : string;
}.

Record GitIdentity := mk_git { gi_remotes : list GitRemoteIdentity }.

Inductive PlaceHintConfidence := Medium | High.

Record PlaceHint := mk_hint {
  ph_label : string;
  ph_source : string;
  ph_confidence : PlaceHintConfidence;
  ph_reason : string;
}.

#[export] Instance PlaceHintConfidence_eq_dec : EqDecision PlaceHintConfidence.
Proof. solve_decision. Defined.
#[export] Instance PlaceHint_eq_dec : EqDecision PlaceHint.
Proof. solve_decision. Defined.

Record WorkspaceInspection := mk_inspection {
  wi_workspace_root : string;
  wi_workspace_fingerprint : string;
  wi_phantom_initialized : bool;
  wi_env_example_exists : bool;
  wi_env_files : list EnvFileObservation;
  wi_git : option GitIdentity;
  wi_place_hints : list PlaceHint;
  wi_warnings : list string;
}.

(** *** Derived orders *)

(** The order of a tuple is lexicographic. *)
Definition pair_cmp {A B} `{Ord A, Ord B} (x y : A * B) : comparison :=
  match ord_cmp x.1 y.1 with Eq => ord_cmp x.2 y.2 | c => c end.

#[export] Program Instance Ord_pair {A B} `{Ord A, Ord B} : Ord (A * B) := {| ord_cmp := pair_cmp |}.
Next Obligation.
  intros A B HA HB [a b] [c d]. unfold pair_cmp. cbn. destruct (ord_cmp a c) eqn:E.
  - apply ord_cmp_eq in E as ->. rewrite ord_cmp_eq. split; [by intros ->|by intros [= ->]].
  - split; [done|]. intros [= -> ->]. by rewrite ord_cmp_refl in E.
  - split; [done|]. intros [= -> ->]. by rewrite ord_cmp_refl in E.
Qed.
Next Obligation.
  intros A B HA HB [a b] [c d]. unfold pair_cmp. cbn. rewrite (ord_cmp_antisym a c).
  destruct (ord_cmp a c); cbn; [apply ord_cmp_antisym|done..].
Qed.
Next Obligation.
  intros A B HA HB [a b] [c d] [e f]. unfold pair_cmp. cbn. destruct (ord_cmp a c) eqn:E1; [| |done].
  - apply ord_cmp_eq in E1 as ->. destruct (ord_cmp c e); [apply ord_cmp_trans|done..].
  - intros _. destruct (ord_cmp c e) eqn:E2; [| |done].
    + apply ord_cmp_eq in E2 as ->. by rewrite E1.
    + intros _. by rewrite (ord_cmp_trans a c e).
Qed.

(** A struct is ordered by its fields in their order. *)
Program Definition Ord_via {A B} `{Ord B} (f : A → B) (f_inj : ∀ x y, f x = f y → x = y) : Ord A :=
  {| ord_cmp x y := ord_cmp (f x) (f y) |}.
Next Obligation. intros A B HB f Hf x y. cbn. rewrite ord_cmp_eq. naive_solver. Qed.
Next Obligation. intros A B HB f Hf x y. cbn. apply ord_cmp_antisym. Qed.
Next Obligation. intros A B HB f Hf x y z. cbn. apply ord_cmp_trans. Qed.

#[export] Instance Ord_GitRemoteIdentity : Ord GitRemoteIdentity.
Proof.
  refine (Ord_via (fun r => (gr_name r, (gr_host r, (gr_owner r, gr_repository r)))) _).
  abstract (intros [] []; cbn; congruence).
Defined.

Definition confidence_index (c : PlaceHintConfidence) : N := match c with Medium => 0 | High => 1 end.

#[export] Instance Ord_PlaceHint : Ord PlaceHint.
Proof.
  refine (Ord_via (fun h => (ph_label h, (ph_source h, (confidence_index (ph_confidence h), ph_reason h)))) _).
  abstract (intros [a b [] d] [a' b' [] d']; cbn; congruence).
Defined.

(** ** Dotenv files *)

Definition SKIPPED_DIRECTORIES : list string :=
  [".git"; ".next"; ".turbo"; "build"; "dist"; "node_modules"; "target"; "vendor"]%string.

(** [is_env_file_name] *)
Definition is_env_file_name (name : string) : bool :=
  if String.eqb name ".env" then true
  else if negb (starts_with ".env." name) then false
  else negb (existsb (String.eqb name) [".env.example"; ".env.sample"; ".env.template"; ".env.backup"]%string)
       && negb (ends_with ".example" name) && negb (ends_with ".sample" name)
       && negb (ends_with ".template" name) && negb (ends_with ".backup" name).

(** [path.join(".git").exists()] of a directory of the tree *)
Definition has_git (t : dir_tree) : bool :=
  match t with
  | DirTree entries =>
      existsb (fun '(n, e) => String.eqb n ".git"
                 && match e with ELink resolves => resolves | EEntryFails _ => false | _ => true end) entries
  | DirFails _ => false
  end.

(** [collect_env_files] *)
Fixpoint collect_env_files (directory : string) (t : dir_tree) (out : list string)
    : result (list string) WorkspaceError :=
  match t with
  | DirFails error => Err (WIo directory error)
  | DirTree entries =>
      (fix go (entries : list (string * dir_entry)) (out : list string) : result (list string) WorkspaceError :=
         match entries with
         | [] => Ok out
         | (name, e) :: rest =>
             let path := join_path directory name in
             match e with
             | EEntryFails error => Err (WIo directory error)
             | ETypeFails error => Err (WIo path error)
             | ELink _ | EOther => go rest out
             | EFile => go rest (if is_env_file_name name then out ++ [path] else out)
             | EDirectory sub =>
                 if existsb (String.eqb name) SKIPPED_DIRECTORIES || starts_with "." name || has_git sub
                 then go rest out
                 else let? out := collect_env_files path sub out in go rest out
             end
         end) entries out
  end.

Definition path_key_le (root a b : string) : Prop := ord_cmp (relative_path root a) (relative_path root b) ≠ Gt.

#[export] Instance path_key_le_dec root : RelDecision (path_key_le root).
Proof. unfold RelDecision, path_key_le. intros a b. apply _. Defined.

(** The sets of names of a dotenv file, as [inspect_env_file] fills them *)
Definition observe_dotenv (path : string) (dotenv : DotenvFile) : EnvFileObservation :=
  let es := entries dotenv in
  let of_class c := btree_collect (map key
    (List.filter (fun e => negb (is_phantom e) && bool_decide (classify e = c)) es)) in
  mk_observation path (btree_collect (map key es)) (of_class Secret)
    (btree_collect (map key (List.filter is_phantom es))) (of_class PublicKey) (of_class NotSecret).

Section inspect.
Context {W : Type} `{F : !WorkspaceFs W} `{X : External}.

(** [inspect_env_file] *)
Definition inspect_env_file (root path : string) : io W WorkspaceError EnvFileObservation :=
  do? read := at_path path (read_nofollow path) in
  match read with
  | NfMissing => io_throw (WIo path NotFound)
  | NfRefused => io_throw (WIo path OtherKind)
  | NfContent text =>
      let dotenv := parse_str (as_bytes text) in
      do? _ := io_lift (map_err (fun _ => WIo path OtherKind) (validate_for_mutation dotenv)) in
      io_ret (observe_dotenv (relative_path root path) dotenv)
  end.

Fixpoint inspect_env_files (root : string) (paths : list string) : io W WorkspaceError (list EnvFileObservation) :=
  match paths with
  | [] => io_ret []
  | path :: rest =>
      do? observation := inspect_env_file root path in
      do? others := inspect_env_files root rest in
      io_ret (observation :: others)
  end.

(** ** The Git identity *)

(** [valid_identity_component] *)
Definition valid_identity_component (component : string) (max_len : N) : bool :=
  negb (str_is_empty component) && (str_len component <=? max_len)%N
  && negb (String.eqb component ".") && negb (String.eqb component "..")
  && all_bytes (fun c => is_ascii_alphanumeric c || ascii_eqb c "." || ascii_eqb c "_" || ascii_eqb c "-") component.

(** [valid_git_host] *)
Definition valid_git_label (label : string) : bool :=
  negb (str_is_empty label) && (str_len label <=? 63)%N
  && all_bytes (fun c => is_ascii_alphanumeric c || ascii_eqb c "-") label
  && option_byte_is is_ascii_alphanumeric (first_byte label)
  && option_byte_is is_ascii_alphanumeric (last_byte label).
Definition valid_git_host (host : string) : bool :=
  negb (str_is_empty host) && (str_len host <=? 253)%N && forallb valid_git_label (split_char "." host).

(** [parse_remote_section] *)
Definition parse_remote_section (line : string) : option string :=
  inner ← strip_prefix "[" line;
  inner ← strip_suffix "]" inner;
  name ← strip_prefix ("remote " +:+ quote) (trim inner);
  name ← strip_suffix quote name;
  if negb (valid_identity_component name 100) then None else Some name.

(** The host and the path of a remote *)
Definition remote_parts (raw : string) : option (string * string) :=
  match split_once_str "://" raw with
  | Some (scheme, rest) =>
      if negb (existsb (String.eqb scheme) ["http"; "https"; "ssh"; "git"]%string) then None
      else
        '(authority, path) ← split_once "/" rest;
        if contains_char "@" authority || contains_char ":" authority then None else Some (authority, path)
  | None =>
      '(authority, path) ← split_once ":" raw;
      host ← strip_prefix "git@" authority;
      if contains_char "@" host || contains_char ":" host then None else Some (host, path)
  end.

(** [u8::is_ascii_whitespace] *)
Definition is_ascii_whitespace (c : ascii) : bool :=
  ascii_eqb c " " || ascii_eqb c "009" || ascii_eqb c "010" || ascii_eqb c "012" || ascii_eqb c "013".

(** [normalize_remote] *)
Definition normalize_remote (raw : string) : option (string * string * string) :=
  if str_is_empty raw || any_byte (fun c => is_ascii_whitespace c || ascii_eqb c zero_byte) raw
     || contains_char "?" raw || contains_char "#" raw then None
  else
    '(host, path) ← remote_parts raw;
    if negb (valid_git_host host) || starts_with "/" path || ends_with "/" path then None
    else
      match split_char "/" path with
      | [owner; raw_repository] =>
          let repository := default raw_repository (strip_suffix ".git" raw_repository) in
          if negb (valid_identity_component owner 100) || negb (valid_identity_component repository 255) then None
          else Some (to_ascii_lowercase host, owner, repository)
      | _ => None
      end.

(** The loop over the lines of the configuration *)
Fixpoint parse_remotes (current_remote : option string) (lines : list string) : list GitRemoteIdentity :=
  match lines with
  | [] => []
  | raw_line :: rest =>
      let line := trim raw_line in
      if starts_with "[" line && ends_with "]" line then parse_remotes (parse_remote_section line) rest
      else
        match current_remote, split_once "=" line with
        | Some remote_name, Some (k, v) =>
            match (if String.eqb (trim k) "url" then normalize_remote (trim v) else None) with
            | Some (host, owner, repository) =>
                mk_remote remote_name host owner repository :: parse_remotes current_remote rest
            | None => parse_remotes current_remote rest
            end
        | _, _ => parse_remotes current_remote rest
        end
  end.

(** [resolve_git_path] *)
Definition resolve_git_path (base path : string) : string := join_path base path.

(** [read_git_path_file] *)
Definition read_git_path_file (path : string) : io W WorkspaceError (option string) := fun w =>
  match lstat path w with
  | (w1, Err NotFound) => (w1, Ok None)
  | (w1, Err e) => (w1, Err (WIo path e))
  | (w1, Ok m) =>
      if negb (bool_decide (fm_type m = RegularFile)) || (4096 <? fm_len m)%N then (w1, Ok None)
      else
        (do? content := at_path path (read_text path) in
         let value := trim content in
         io_ret (if str_is_empty value || contains_str nul value || negb (length (text_lines value) =? 1)%nat
                 then None else Some value)) w1
  end.

(** [validated_git_config] *)
Definition validated_git_config (base git_dir : string) : io W WorkspaceError (option string) := fun w =>
  let config := join_path git_dir "config" in
  match lstat config w with
  | (w1, Err _) => (w1, Ok None)
  | (w1, Ok m) =>
      if negb (bool_decide (fm_type m = RegularFile)) then (w1, Ok None)
      else
        let '(w2, r) := canonicalize_path config w1 in
        (w2, Ok (match r with
                 | Ok canonical => if path_starts_with base canonical then Some canonical else None
                 | Err _ => None
                 end))
  end.

(** [match path.canonicalize() { Ok(path) if path.is_dir() => path, .. }] *)
Definition canonical_dir (path : string) : io W WorkspaceError (option string) := fun w =>
  match canonicalize_path path w with
  | (w1, Err _) => (w1, Ok None)
  | (w1, Ok path) =>
      let '(w2, r) := is_dir path w1 in
      (w2, Ok (match r with Ok true => Some path | _ => None end))
  end.

(** The value of the one line [gitdir: ...] *)
Definition gitdir_line (content : string) : option string :=
  match text_lines content with
  | [] => None
  | line :: lines =>
      if existsb (fun line => negb (str_is_empty (trim line))) lines then None
      else
        raw ← strip_prefix "gitdir:" (trim line);
        let raw := trim raw in
        if str_is_empty raw || contains_str nul raw then None else Some raw
  end.

(** A query whose failure counts as a no *)
Definition ask_bool (m : io W ErrorKind bool) : io W WorkspaceError bool := fun w =>
  let '(w1, r) := m w in (w1, Ok (match r with Ok b => b | Err _ => false end)).

(** [path.canonicalize().ok()] *)
Definition canonical_ok (path : string) : io W WorkspaceError (option string) := fun w =>
  let '(w1, r) := canonicalize_path path w in (w1, Ok (match r with Ok p => Some p | Err _ => None end)).

(** [git_config_path] *)
Definition git_config_path (root : string) : io W WorkspaceError (option string) :=
  let dot_git := join_path root ".git" in fun w =>
  match lstat dot_git w with
  | (w1, Err NotFound) => (w1, Ok None)
  | (w1, Err e) => (w1, Err (WIo dot_git e))
  | (w1, Ok m) =>
    (match fm_type m with
     | Symlink | OtherFile => io_ret None
     | Directory => validated_git_config dot_git dot_git
     | RegularFile =>
        if (4096 <? fm_len m)%N then io_ret None else
        do? content := at_path dot_git (read_text dot_git) in
        match gitdir_line content with
        | None => io_ret None
        | Some raw_git_dir =>
            do? git_dir := canonical_dir (resolve_git_path root raw_git_dir) in
            match git_dir with
            | None => io_ret None
            | Some canonical_git_dir =>
                if path_starts_with root canonical_git_dir then validated_git_config canonical_git_dir canonical_git_dir
                else
                  do? backlink := read_git_path_file (join_path canonical_git_dir "gitdir") in
                  match backlink with
                  | None => io_ret None
                  | Some backlink_target =>
                      do? canonical_dot_git := canonical_ok dot_git in
                      match canonical_dot_git with
                      | None => io_ret None
                      | Some canonical_dot_git =>
                          do? target := canonical_ok (resolve_git_path canonical_git_dir backlink_target) in
                          if negb (bool_decide (target = Some canonical_dot_git)) then io_ret None
                          else
                            let common_dir_file := join_path canonical_git_dir "commondir" in
                            do? has_common := ask_bool (path_exists common_dir_file) in
                            do? common := (if (has_common : bool) then
                                             do? common := read_git_path_file common_dir_file in
                                             match common with
                                             | None => io_ret None
                                             | Some common => canonical_dir (resolve_git_path canonical_git_dir common)
                                             end
                                           else io_ret (Some canonical_git_dir)) in
                            match common with
                            | None => io_ret None
                            | Some common_dir => validated_git_config common_dir common_dir
                            end
                      end
                  end
            end
        end
     end) w1
  end.

(** [inspect_git_identity] *)
Definition inspect_git_identity (root : string) : io W WorkspaceError (option GitIdentity) :=
  do? config_path := git_config_path root in
  match config_path with
  | None => io_ret None
  | Some config_path =>
      do? content := at_path config_path (read_text config_path) in
      let remotes := btree_collect (parse_remotes None (text_lines content)) in
      io_ret (match remotes with [] => None | _ => Some (mk_git remotes) end)
  end.

(** [build_place_hints] *)
Definition remote_hint (r : GitRemoteIdentity) : PlaceHint :=
  mk_hint (gr_owner r) ("git.remote." +:+ gr_name r)
    (if String.eqb (gr_name r) "origin" then High else Medium)
    (gr_host r +:+ " owns " +:+ gr_owner r +:+ "/" +:+ gr_repository r).
Definition build_place_hints (git : option GitIdentity) : list PlaceHint :=
  btree_collect (match git with Some git => map remote_hint (gi_remotes git) | None => [] end).

(** [digest_hex] *)
Definition digest_hex (bytes : string) : string := sha256_hex bytes.

(** [inspect_workspace] *)
Definition inspect_workspace (requested_root : string) : io W WorkspaceError WorkspaceInspection :=
  do? directory := ask_bool (is_dir requested_root) in
  io_fail_if (negb directory) (RootNotDirectory requested_root)
  (do? root := at_path requested_root (canonicalize_path requested_root) in
   do? tree := at_path root (read_tree root) in
   do? env_paths := io_lift (collect_env_files root tree []) in
   do? env_files := inspect_env_files root (merge_sort (path_key_le root) env_paths) in
   do? git := inspect_git_identity root in
   fun w =>
     let '(w1, config) := lstat (join_path root ".phantom.toml") w in
     let '(w2, example) := lstat (join_path root ".env.example") w1 in
     (w2, Ok (mk_inspection root (digest_hex root)
                (match config with Ok m => bool_decide (fm_type m = RegularFile) | Err _ => false end)
                (match example with Ok _ => true | Err _ => false end)
                env_files git (build_place_hints git) []))).
End inspect.

(** ** The setup plan *)

Inductive SetupActionKind :=
  | InitializeWorkspace | ProtectEnvFile | EnsureEnvIgnoreRules | GenerateEnvExample | InstallPreCommitCheck
  | ReviewPlaceBinding.

#[export] Instance SetupActionKind_eq_dec : EqDecision SetupActionKind.
Proof. solve_decision. Defined.

Definition action_kind_index (k : SetupActionKind) : N :=
  match k with
  | InitializeWorkspace => 0 | ProtectEnvFile => 1 | EnsureEnvIgnoreRules => 2 | GenerateEnvExample => 3
  | InstallPreCommitCheck => 4 | ReviewPlaceBinding => 5
  end.

Record SetupAction := mk_action {
  sa_id : string;
  sa_kind : SetupActionKind;
  sa_target : string;
  sa_key_names : list string;
  sa_requires_approval : bool;
  sa_reason : string;
}.

#[export] Instance SetupAction_eq_dec : EqDecision SetupAction.
Proof. solve_decision. Defined.

Record SetupPlan := mk_plan {
  sp_schema_version : N;
  sp_plan_id : string;
  sp_workspace_fingerprint : string;
  sp_workspace_root : string;
  sp_candidate_places : list PlaceHint;
  sp_actions : list SetupAction;
  sp_blockers : list string;
}.

#[export] Instance SetupPlan_eq_dec : EqDecision SetupPlan.
Proof. solve_decision. Defined.

Definition PLAN_SCHEMA_VERSION : N := 1.

#[export] Instance Serialize_action_kind : Serialize SetupActionKind := fun k => VString
  (match k with
   | InitializeWorkspace => "initialize_workspace" | ProtectEnvFile => "protect_env_file"
   | EnsureEnvIgnoreRules => "ensure_env_ignore_rules" | GenerateEnvExample => "generate_env_example"
   | InstallPreCommitCheck => "install_pre_commit_check" | ReviewPlaceBinding => "review_place_binding"
   end)%string.

#[export] Instance Serialize_hint : Serialize PlaceHint := fun h => VObject
  [("label", to_value (ph_label h)); ("source", to_value (ph_source h));
   ("confidence", VString (match ph_confidence h with Medium => "medium" | High => "high" end));
   ("reason", to_value (ph_reason h))]%string.

#[export] Instance Serialize_setup_action : Serialize SetupAction := fun a => VObject
  ([("id"%string, to_value (sa_id a)); ("kind"%string, to_value (sa_kind a)); ("target"%string, to_value (sa_target a))]
   ++ match sa_key_names a with [] => [] | l => [("key_names"%string, to_value l)] end
   ++ [("requires_out_of_band_approval"%string, to_value (sa_requires_approval a)); ("reason"%string, to_value (sa_reason a))]).

#[export] Instance Serialize_plan : Serialize SetupPlan := fun p => VObject
  [("schema_version", to_value (sp_schema_version p)); ("plan_id", to_value (sp_plan_id p));
   ("workspace_fingerprint", to_value (sp_workspace_fingerprint p)); ("workspace_root", to_value (sp_workspace_root p));
   ("candidate_places", to_value (sp_candidate_places p)); ("actions", to_value (sp_actions p));
   ("blockers", to_value (sp_blockers p))]%string.

Section plan.
Context `{X : External}.

(** [calculate_plan_id], with [PlanBasis] *)
Definition calculate_plan_id (workspace_fingerprint workspace_root : string) (candidate_places : list PlaceHint)
    (actions : list SetupAction) (blockers : list string) : string :=
  digest_hex (json_to_vec (VObject
    [("schema_version", to_value PLAN_SCHEMA_VERSION); ("workspace_fingerprint", to_value workspace_fingerprint);
     ("workspace_root", to_value workspace_root); ("candidate_places", to_value candidate_places);
     ("actions", to_value actions); ("blockers", to_value blockers)]%string)).

(** [plan_has_valid_id] *)
Definition plan_has_valid_id (plan : SetupPlan) : bool :=
  (sp_schema_version plan =? PLAN_SCHEMA_VERSION)%N
  && String.eqb (sp_plan_id plan)
       (calculate_plan_id (sp_workspace_fingerprint plan) (sp_workspace_root plan) (sp_candidate_places plan)
          (sp_actions plan) (sp_blockers plan)).

(** [action] *)
Definition action (kind : SetupActionKind) (target : string) (key_names : list string) (reason : string) : SetupAction :=
  let key_names := btree_collect key_names in
  let id_basis := VObject [("key_names", to_value key_names); ("kind", to_value kind); ("target", to_value target)]%string in
  mk_action ("action_" +:+ str_take 16 (digest_hex (json_to_vec id_basis))) kind target key_names true reason.

Definition protect_actions (env_files : list EnvFileObservation) : list SetupAction :=
  omap (fun env =>
    match eo_unprotected_secret_names env with
    | [] => None
    | names => Some (action ProtectEnvFile (eo_path env) names
        "Move detected secret values into the vault and replace them with phantom tokens.")
    end) env_files.

(** [Ord] of vectors *)
Fixpoint list_cmp {A} `{Ord A} (l m : list A) : comparison :=
  match l, m with
  | [], [] => Eq
  | [], _ :: _ => Lt
  | _ :: _, [] => Gt
  | x :: l, y :: m => match ord_cmp x y with Eq => list_cmp l m | c => c end
  end.

Definition action_cmp (a b : SetupAction) : comparison :=
  match ord_cmp (action_kind_index (sa_kind a)) (action_kind_index (sa_kind b)) with
  | Eq => match ord_cmp (sa_target a) (sa_target b) with
          | Eq => list_cmp (sa_key_names a) (sa_key_names b)
          | c => c
          end
  | c => c
  end.

(** A stable sort: an element goes in front of the ones that are greater. *)
Fixpoint insert_by {A} (cmp : A → A → comparison) (x : A) (l : list A) : list A :=
  match l with
  | [] => [x]
  | y :: l' => match cmp x y with Gt => y :: insert_by cmp x l' | _ => x :: l end
  end.
Definition sort_by {A} (cmp : A → A → comparison) (l : list A) : list A := foldr (insert_by cmp) [] l.

Context {W : Type} `{F : !WorkspaceFs W}.

(** [replace('\\', "/")] *)
Fixpoint forward_slashes (s : string) : string :=
  match s with
  | EmptyString => EmptyString
  | String c s => String (if Ascii.eqb c "092" then "/"%char else c) (forward_slashes s)
  end.

(** The action or the blocker of the pre-commit hook *)
Definition hook_action (root : string) : io W WorkspaceError (list SetupAction * list string) := fun w =>
  let '(w1, r) := resolve_hook_path root w in
  (w1, Ok (match r with
   | Ok (Some hook_path) =>
       match strip_path_prefix (components root) (components hook_path) with
       | Some relative =>
           match last relative with
           | Some (Normal _) =>
               ([action InstallPreCommitCheck
                   (forward_slashes (join "/" (map component_text relative)))
                   [] "Reject newly staged plaintext credentials before they enter Git history."], [])
           | _ => ([], ["Git's effective pre-commit hook path is outside the workspace transaction boundary ("
                        +:+ hook_path +:+ "); run `phantom doctor --fix` in a trusted terminal."])
           end
       | None => ([], ["Git's effective pre-commit hook path is outside the workspace transaction boundary ("
                       +:+ hook_path +:+ "); run `phantom doctor --fix` in a trusted terminal."])
       end
   | Ok None => ([], ["Git metadata was discovered, but Git no longer recognizes this workspace as a repository."])
   | Err error => ([], ["Git's effective pre-commit hook path could not be resolved: " +:+ error])
   end%string)).

(** [build_setup_plan] *)
Definition build_setup_plan (inspection : WorkspaceInspection) : io W WorkspaceError SetupPlan :=
  let initialize :=
    if wi_phantom_initialized inspection then []
    else [action InitializeWorkspace ".phantom.toml" []
            "Create the project-scoped Phantom configuration and vault namespace."] in
  let protect := protect_actions (wi_env_files inspection) in
  let dotenv :=
    if bool_decide (wi_env_files inspection = []) then []
    else [action EnsureEnvIgnoreRules ".gitignore" [] "Keep local dotenv material out of version control."]
         ++ (if wi_env_example_exists inspection then []
             else [action GenerateEnvExample ".env.example" []
                     "Generate a value-free environment contract for collaborators."]) in
  do? hook := (match wi_git inspection with
               | Some _ => hook_action (wi_workspace_root inspection)
               | None => io_ret ([], [])
               end) in
  let hints := wi_place_hints inspection in
  let place_target := match hints with h :: _ => ph_label h | [] => "unresolved"%string end in
  let review := action ReviewPlaceBinding place_target []
    "A human-attested Locus place is required before external or privileged actions." in
  let place_blockers :=
    match hints with
    | [] => ["No place binding could be inferred from repository metadata."%string]
    | _ => if (1 <? length (btree_collect (map ph_label hints)))%nat
           then ["Repository metadata suggests multiple places; a human must choose one."%string] else []
    end in
  let actions := sort_by action_cmp (initialize ++ protect ++ dotenv ++ fst hook ++ [review]) in
  let blockers := btree_collect (wi_warnings inspection ++ snd hook ++ place_blockers) in
  io_ret (mk_plan PLAN_SCHEMA_VERSION
            (calculate_plan_id (wi_workspace_fingerprint inspection) (wi_workspace_root inspection) hints actions blockers)
            (wi_workspace_fingerprint inspection) (wi_workspace_root inspection) hints actions blockers).
End plan.

(** ** The capability card *)

Record CapabilityCard := mk_card {
  cc_workspace_fingerprint : string;
  cc_place : option string;
  cc_seal_id : option string;
  cc_expires_at : option N;
  cc_allowed_verbs : list string;
  cc_requestable_verbs : list string;
  cc_hard_nos : list (string * string);
}.

(** [unsealed_hard_nos] *)
Definition unsealed_hard_nos : list (string * string) := btree_collect
  [("assume_place", "Place assumption is unavailable until a verified Locus seal and exact place binding exist.");
   ("cross_workspace", "No authority exists for a different workspace or account.");
   ("delete", "Destructive actions require a scoped human-attested grant.");
   ("execute_engineering_action", "Engineering execution requires a verified permit, trusted handles, OS confinement, and correlated evidence.");
   ("external_mutation", "External systems are unavailable without an active Locus seal.");
   ("fix_auth", "Governed authentication repair requests are not implemented.");
   ("need_secret", "The high-level secret request workflow is inactive; secret entry remains trusted-terminal only.");
   ("production", "Production effects require an explicit elevated grant.");
   ("secret_reveal", "Real secret values are never an agent capability.");
   ("share", "Membership and secret sharing require a scoped human-attested grant.");
   ("spend", "Financial effects require an explicit capped grant.")]%string.

(** [build_capability_card]; its constant notices are left out. *)
Definition build_capability_card (inspection : WorkspaceInspection) : CapabilityCard :=
  mk_card (wi_workspace_fingerprint inspection) None None None
    ["capability"; "inspect_workspace"; "propose_engineering_action"]%string ["setup_workspace"%string] unsealed_hard_nos.
