(* ===== verification/WorkspaceTxn.v ===== *)
(** * Applying a setup plan: [crates/phantom-workspace/src/transaction.rs]

    A plan is sealed with a keyed digest of the exact bytes of every file it
    is about ([calculate_pre_state_id]), applied under a lock together with a
    participant ([apply_setup_plan_inner]), optionally with an encrypted
    journal that is written before the first change ([create_journal]), and
    recovered from that journal ([recover_setup_plan_journal]).  The file
    starts with what is done relative to a descriptor.  The participant, the locks and the journal's path are
    classes.  The process-wide mutex, which is taken before the lock file, is
    a blocking step without a result and is not written; zeroing memory and
    the redacted [Debug] texts change no value. *)

From S2P Require Import Prelude Text Ids External Canonical StateDir Bytes Dotenv Classify AnchoredFs VaultCrypto HookText Workspace.

(** ** The files of a setup transaction: [crates/phantom-workspace/src/transaction.rs]

    The part of the transaction that reads and changes files, on Unix:
    directories are opened one component at a time below the root descriptor
    ([secure_parent]), a file is replaced through a temporary file that is
    renamed over it ([write_at]), the before-images are taken ([capture_snapshot]),
    the mutations applied and verified ([apply_mutations], [finalize_snapshot])
    and undone ([restore_snapshot_checked]).  System calls are the class
    [TxnFs].  A mutable argument that keeps its changes when an error is
    returned is part of the state of the computation. *)

(** ** System calls relative to a descriptor *)

Class TxnFs (W Fd : Type) := {
  (** [open] of a directory, which is not followed when it is a link *)
  open_root_dir : string → io W ErrorKind Fd;
  dup_fd : Fd → io W ErrorKind Fd;
  (** device and inode, of a descriptor and of a path *)
  fd_identity : Fd → io W ErrorKind FileIdentity;
  path_identity : string → io W ErrorKind FileIdentity;
  (** [openat] with [O_DIRECTORY | O_NOFOLLOW], with [O_NOFOLLOW] for
      reading, and with [O_CREAT | O_EXCL | O_NOFOLLOW] *)
  openat_directory : Fd → string → io W ErrorKind Fd;
  openat_read : Fd → string → io W ErrorKind Fd;
  openat_create : Fd → string → io W ErrorKind Fd;
  mkdirat : Fd → string → io W ErrorKind unit;
  (** [fstatat] with [AT_SYMLINK_NOFOLLOW] *)
  fstatat : Fd → string → io W ErrorKind FileMeta;
  fd_metadata : Fd → io W ErrorKind FileMeta;
  read_fd : Fd → io W ErrorKind string;
  write_fd : Fd → string → io W ErrorKind unit;
  fchmod : Fd → N → io W ErrorKind unit;
  sync_fd : Fd → io W ErrorKind unit;
  renameat : Fd → string → string → io W ErrorKind unit;
  (** with [AT_REMOVEDIR] or without *)
  unlinkat : Fd → string → bool → io W ErrorKind unit;
  (** [fetch_add] on the counter, and the process identifier: two numerals *)
  next_temp : W → W * (string * string);
}.

(** ** Data *)

Record FileMutation := mk_mutation {
  mu_target : string;
  mu_content : string;
  mu_executable : bool;
  mu_action_id : string;
}.

(** With the permission bits *)
Inductive FileState := Missing | Present (content : string) (permissions : N).

Record SecureParent (Fd : Type) := mk_parent { sp_directory : Fd; sp_name : string }.
Arguments mk_parent {Fd} _ _.
Arguments sp_directory {Fd} _.
Arguments sp_name {Fd} _.

Record FileSnapshot (Fd : Type) := mk_snapshot {
  fs_target : string;
  fs_path : string;
  fs_before : FileState;
  fs_after : option string;
  fs_parent : option (SecureParent Fd);
}.
Arguments mk_snapshot {Fd} _ _ _ _ _.
Arguments fs_target {Fd} _.
Arguments fs_path {Fd} _.
Arguments fs_before {Fd} _.
Arguments fs_after {Fd} _.
Arguments fs_parent {Fd} _.

Record WorkspaceSnapshot (Fd : Type) := mk_workspace_snapshot {
  ws_workspace_root : string;
  ws_root_directory : Fd;
  ws_files : list (FileSnapshot Fd);
  ws_created_directories : list string;
  ws_finalized : bool;
}.
Arguments mk_workspace_snapshot {Fd} _ _ _ _ _.
Arguments ws_workspace_root {Fd} _.
Arguments ws_root_directory {Fd} _.
Arguments ws_files {Fd} _.
Arguments ws_created_directories {Fd} _.
Arguments ws_finalized {Fd} _.

(** [validate_target_metadata], and [validate_regular_stat] of the same facts *)
Definition validate_target_metadata (path : string) (metadata : FileMeta) : result unit WorkspaceError :=
  if negb (bool_decide (fm_type metadata = RegularFile)) || (1 <? fm_nlink metadata)%N
  then Err (UnsafeTarget path) else Ok tt.

(** [file_before_matches] *)
Definition file_before_matches {Fd} (file : FileSnapshot Fd) (current : option string) : bool :=
  match fs_before file with
  | Missing => bool_decide (current = None)
  | Present content _ => bool_decide (current = Some content)
  end.

(** The first file with the target changes. *)
Fixpoint update_file {Fd} (target : string) (f : FileSnapshot Fd → FileSnapshot Fd) (files : list (FileSnapshot Fd))
    : list (FileSnapshot Fd) :=
  match files with
  | [] => []
  | x :: rest => if String.eqb (fs_target x) target then f x :: rest else x :: update_file target f rest
  end.

Definition set_parent {Fd} (p : option (SecureParent Fd)) (x : FileSnapshot Fd) : FileSnapshot Fd :=
  mk_snapshot (fs_target x) (fs_path x) (fs_before x) (fs_after x) p.
Definition set_after {Fd} (content : string) (x : FileSnapshot Fd) : FileSnapshot Fd :=
  mk_snapshot (fs_target x) (fs_path x) (fs_before x) (Some content) (fs_parent x).
Definition set_files {Fd} (files : list (FileSnapshot Fd)) (s : WorkspaceSnapshot Fd) : WorkspaceSnapshot Fd :=
  mk_workspace_snapshot (ws_workspace_root s) (ws_root_directory s) files (ws_created_directories s) (ws_finalized s).
Definition set_created {Fd} (created : list string) (s : WorkspaceSnapshot Fd) : WorkspaceSnapshot Fd :=
  mk_workspace_snapshot (ws_workspace_root s) (ws_root_directory s) (ws_files s) created (ws_finalized s).
Definition set_finalized {Fd} (s : WorkspaceSnapshot Fd) : WorkspaceSnapshot Fd :=
  mk_workspace_snapshot (ws_workspace_root s) (ws_root_directory s) (ws_files s) (ws_created_directories s) true.

(** A computation on the machine, next to what else is mutable *)
Definition with_local {W S E T} (m : io W E T) : io (W * S) E T := fun '(w, s) =>
  let '(w1, r) := m w in ((w1, s), r).

Definition is_normal_component (c : Component) : bool := match c with Normal _ => true | _ => false end.

Section files.
Context {W Fd : Type} `{T : !TxnFs W Fd}.

(** [open_root_directory], [open_directory_at] *)
Definition open_root_directory (root : string) : io W WorkspaceError Fd := at_path root (open_root_dir root).
Definition open_directory_at (parent : Fd) (name path : string) : io W WorkspaceError Fd :=
  at_path path (openat_directory parent name).

(** [verify_root_identity] *)
Definition verify_root_identity (root : string) (directory : Fd) : io W WorkspaceError unit :=
  do? by_path := at_path root (path_identity root) in
  do? by_descriptor := at_path root (fd_identity directory) in
  io_fail_if (negb (bool_decide (by_path = by_descriptor))) (UnsafeTarget root) (io_ret tt).

(** The loop of [secure_parent]; the state holds the directories created so far. *)
Fixpoint secure_walk (root relative : string) (parts : list Component) (directory : Fd) (display : string)
    (create : bool) : io (W * list string) WorkspaceError (option (SecureParent Fd)) :=
  match parts with
  | [] => io_throw (UnsafeTarget relative)
  | Normal name :: rest =>
      io_fail_if (contains_str nul name) (UnsafeTarget relative)
      (match rest with
       | [] => io_ret (Some (mk_parent directory name))
       | _ => fun s =>
          let display := join_path display name in
          match with_local (open_directory_at directory name display) s with
          | (s1, Ok next) => secure_walk root relative rest next display create s1
          | (s1, Err (WIo p NotFound)) =>
              if create
              then (do? _ := with_local (at_path display (mkdirat directory name)) in
                    do? _ := with_local (at_path (parent_path display) (sync_fd directory)) in
                    do? _ := (fun '(w, created) => ((w, created ++ [display]), Ok tt)) in
                    do? next := with_local (open_directory_at directory name display) in
                    secure_walk root relative rest next display create) s1
              else (s1, Ok None)
          | (s1, Err e) => (s1, Err e)
          end
       end)
  | _ :: _ => io_throw (UnsafeTarget relative)
  end.

(** [secure_parent] *)
Definition secure_parent (root : string) (root_directory : Fd) (target : string) (create : bool)
    : io (W * list string) WorkspaceError (option (SecureParent Fd)) :=
  let parts := components target in
  io_fail_if (is_absolute parts || negb (forallb is_normal_component parts)) (UnsafeTarget target)
  (do? directory := with_local (at_path root (dup_fd root_directory)) in
   secure_walk root target parts directory root create).

(** [secure_parent] with [create] false and a fresh vector *)
Definition find_parent (root : string) (root_directory : Fd) (target : string)
    : io W WorkspaceError (option (SecureParent Fd)) := fun w =>
  let '((w1, _), r) := secure_parent root root_directory target false (w, []) in (w1, r).

(** [stat_at] *)
Definition stat_at (parent : SecureParent Fd) : io W ErrorKind (option FileMeta) := fun w =>
  match fstatat (sp_directory parent) (sp_name parent) w with
  | (w1, Ok stat) => (w1, Ok (Some stat))
  | (w1, Err NotFound) => (w1, Ok None)
  | (w1, Err e) => (w1, Err e)
  end.

(** [read_at] *)
Definition read_at (parent : SecureParent Fd) (path : string) : io W WorkspaceError (option (string * N)) :=
  do? stat := at_path path (stat_at parent) in
  match stat with
  | None => io_ret None
  | Some stat =>
      do? _ := io_lift (validate_target_metadata path stat) in
      do? file := at_path path (openat_read (sp_directory parent) (sp_name parent)) in
      do? metadata := at_path path (fd_metadata file) in
      do? _ := io_lift (validate_target_metadata path metadata) in
      do? content := at_path path (read_fd file) in
      io_ret (Some (content, fm_mode metadata))
  end.

(** The content alone *)
Definition read_content (parent : SecureParent Fd) (path : string) : io W WorkspaceError (option string) :=
  do? read := read_at parent path in io_ret (option_map fst read).

(** The mode of the new file: 0o755 or 0o644 when there was none, with 0o111
    when it is to be executable *)
Definition new_mode (previous_permissions : option N) (executable : bool) : N :=
  let mode := default (if executable then 493%N else 420%N) previous_permissions in
  if executable then N.lor mode 73 else mode.

(** The closure of [write_at] *)
Definition write_temp (parent : SecureParent Fd) (path : string) (temp : Fd) (temp_name content : string)
    (previous_permissions : option N) (executable : bool) : io W WorkspaceError unit :=
  do? _ := at_path path (write_fd temp content) in
  do? _ := at_path path (sync_fd temp) in
  do? _ := at_path path (fchmod temp (new_mode previous_permissions executable)) in
  do? stat := at_path path (stat_at parent) in
  do? _ := io_lift (match stat with Some stat => validate_target_metadata path stat | None => Ok tt end) in
  do? _ := at_path path (renameat (sp_directory parent) temp_name (sp_name parent)) in
  at_path (parent_path path) (sync_fd (sp_directory parent)).

Definition TEMP_PREFIX : string := ".phantom-tmp-".

(** [write_at] *)
Definition write_at (parent : SecureParent Fd) (path content : string) (previous_permissions : option N)
    (executable : bool) : io W WorkspaceError unit := fun w =>
  let '(w1, (process, sequence)) := next_temp w in
  let temp_name := TEMP_PREFIX +:+ process +:+ "-" +:+ sequence in
  match at_path path (openat_create (sp_directory parent) temp_name) w1 with
  | (w2, Err e) => (w2, Err e)
  | (w2, Ok temp) =>
      match write_temp parent path temp temp_name content previous_permissions executable w2 with
      | (w3, Ok u) => (w3, Ok u)
      | (w3, Err e) => let '(w4, _) := unlinkat (sp_directory parent) temp_name false w3 in (w4, Err e)
      end
  end.

(** [unlink_at]; [directory] is [AT_REMOVEDIR]. *)
Definition unlink_at (parent : SecureParent Fd) (path : string) (directory : bool) : io W WorkspaceError unit := fun w =>
  match unlinkat (sp_directory parent) (sp_name parent) directory w with
  | (w1, Ok _) => at_path (parent_path path) (sync_fd (sp_directory parent)) w1
  | (w1, Err NotFound) => (w1, Ok tt)
  | (w1, Err e) => (w1, Err (WIo path e))
  end.

(** [secure_read_target] *)
Definition secure_read_target (root : string) (root_directory : Fd) (target : string)
    : io W WorkspaceError (option string) :=
  do? parent := find_parent root root_directory target in
  match parent with
  | None => io_ret None
  | Some parent => read_content parent (join_path root target)
  end.

(** ** Before-images *)

Definition state_of_read (read : option (string * N)) : FileState :=
  match read with Some (content, permissions) => Present content permissions | None => Missing end.

(** The loop of [capture_snapshot] *)
Fixpoint capture_files (root : string) (root_directory : Fd) (mutations : list FileMutation)
    : io W WorkspaceError (list (FileSnapshot Fd)) :=
  match mutations with
  | [] => io_ret []
  | mutation :: rest =>
      let path := join_path root (mu_target mutation) in
      do? parent := find_parent root root_directory (mu_target mutation) in
      do? before := (match parent with
                     | Some parent => do? read := read_at parent path in io_ret (state_of_read read)
                     | None => io_ret Missing
                     end) in
      do? files := capture_files root root_directory rest in
      io_ret (mk_snapshot (mu_target mutation) path before None parent :: files)
  end.

(** [capture_snapshot] *)
Definition capture_snapshot (root : string) (root_directory : Fd) (mutations : list FileMutation)
    : io W WorkspaceError (WorkspaceSnapshot Fd) :=
  do? files := capture_files root root_directory mutations in
  do? root_directory := at_path root (dup_fd root_directory) in
  io_ret (mk_workspace_snapshot root root_directory files [] false).

(** ** Applying the mutations

    The state is the machine and the snapshot. *)

Definition change_file (target : string) (f : FileSnapshot Fd → FileSnapshot Fd)
    : io (W * WorkspaceSnapshot Fd) WorkspaceError unit := fun '(w, s) =>
  ((w, set_files (update_file target f (ws_files s)) s), Ok tt).

(** The parents of a target, created where they are missing; what was created
    is recorded also when an error is returned. *)
Definition create_target_parents (root target : string)
    : io (W * WorkspaceSnapshot Fd) WorkspaceError (option (SecureParent Fd)) := fun '(w, s) =>
  let '((w1, created), r) := secure_parent root (ws_root_directory s) target true (w, ws_created_directories s) in
  ((w1, set_created created s), r).

(** One round of [apply_mutations] *)
Definition apply_mutation (root : string) (mutation : FileMutation)
    : io (W * WorkspaceSnapshot Fd) WorkspaceError unit :=
  let target := mu_target mutation in
  do? file := io_query (fun '(_, s) =>
    ok_or (List.find (fun x => String.eqb (fs_target x) target) (ws_files s)) InvalidPlan) in
  do? parent := (match fs_parent file with
                 | Some parent => io_ret (Some parent)
                 | None =>
                     do? parent := create_target_parents root target in
                     do? _ := change_file target (set_parent parent) in
                     io_ret parent
                 end) in
  do? parent := io_lift (ok_or parent (UnsafeTarget target)) in
  let previous_permissions := match fs_before file with Present _ p => Some p | Missing => None end in
  do? current := with_local (read_content parent (fs_path file)) in
  io_fail_if (negb (file_before_matches file current)) (RollbackDrift (fs_path file))
  (do? _ := change_file target (set_after (mu_content mutation)) in
   do? _ := with_local (write_at parent (fs_path file) (mu_content mutation) previous_permissions
                          (mu_executable mutation)) in
   do? current := with_local (read_content parent (fs_path file)) in
   io_fail_if (negb (bool_decide (current = Some (mu_content mutation)))) (RollbackDrift (fs_path file)) (io_ret tt)).

(** [apply_mutations] *)
Fixpoint apply_mutations (root : string) (mutations : list FileMutation)
    : io (W * WorkspaceSnapshot Fd) WorkspaceError unit :=
  match mutations with
  | [] => io_ret tt
  | mutation :: rest => do? _ := apply_mutation root mutation in apply_mutations root rest
  end.

(** The loop of [finalize_snapshot] *)
Fixpoint verify_files (files : list (FileSnapshot Fd)) : io W WorkspaceError unit :=
  match files with
  | [] => io_ret tt
  | file :: rest =>
      do? parent := io_lift (ok_or (fs_parent file) InvalidPlan) in
      do? content := read_content parent (fs_path file) in
      do? content := io_lift (ok_or content InvalidPlan) in
      io_fail_if (negb (bool_decide (fs_after file = Some content))) (RollbackDrift (fs_path file)) (verify_files rest)
  end.

(** [finalize_snapshot] *)
Definition finalize_snapshot : io (W * WorkspaceSnapshot Fd) WorkspaceError unit := fun '(w, s) =>
  match verify_files (ws_files s) w with
  | (w1, Ok _) => ((w1, set_finalized s), Ok tt)
  | (w1, Err e) => ((w1, s), Err e)
  end.

(** ** Restoring *)

Definition or_first (first_error : option WorkspaceError) (e : WorkspaceError) : option WorkspaceError :=
  match first_error with Some e' => Some e' | None => Some e end.

(** The match on the before-image in [restore_snapshot_checked] *)
Definition restore_before (file : FileSnapshot Fd) (parent : SecureParent Fd) : io W WorkspaceError unit :=
  match fs_before file with
  | Missing => unlink_at parent (fs_path file) false
  | Present content permissions => write_at parent (fs_path file) content (Some permissions) false
  end.

(** One round of the loop over the files: an error is thrown or is the first
    that is kept. *)
Definition restore_file (file : FileSnapshot Fd) (first_error : option WorkspaceError)
    : io W WorkspaceError (option WorkspaceError) :=
  do? parent := io_lift (ok_or (fs_parent file) InvalidPlan) in
  do? current := read_content parent (fs_path file) in
  if file_before_matches file current then io_ret first_error
  else if negb (bool_decide (fs_after file ≠ None ∧ current = fs_after file)) then
    io_ret (or_first first_error (RollbackDrift (fs_path file)))
  else fun w =>
    let '(w1, restored) := restore_before file parent w in
    match restored, first_error with
    | Err e, None => (w1, Ok (Some e))
    | _, _ =>
        (do? verified := read_content parent (fs_path file) in
         io_ret (if file_before_matches file verified then first_error
                 else or_first first_error (RollbackDrift (fs_path file)))) w1
    end.

Fixpoint restore_files (files : list (FileSnapshot Fd)) (first_error : option WorkspaceError)
    : io W WorkspaceError (option WorkspaceError) :=
  match files with
  | [] => io_ret first_error
  | file :: rest => do? first_error := restore_file file first_error in restore_files rest first_error
  end.

(** One created directory: nothing of it can fail. *)
Definition remove_created (s : WorkspaceSnapshot Fd) (directory : string) (w : W) : W :=
  match strip_path_prefix (components (ws_workspace_root s)) (components directory) with
  | None => w
  | Some relative =>
      match find_parent (ws_workspace_root s) (ws_root_directory s) (join "/" (map component_text relative)) w with
      | (w1, Ok (Some parent)) => fst (unlink_at parent directory true w1)
      | (w1, _) => w1
      end
  end.

(** [restore_snapshot_checked] *)
Definition restore_snapshot_checked (s : WorkspaceSnapshot Fd) : io W WorkspaceError unit :=
  do? first_error := restore_files (rev (ws_files s)) None in
  fun w =>
    (fold_left (fun w directory => remove_created s directory w) (rev (ws_created_directories s)) w,
     match first_error with Some e => Err e | None => Ok tt end).
End files.

Definition TRANSACTION_SCHEMA_VERSION : N := 1.
Definition JOURNAL_SCHEMA_VERSION : N := 1.
Definition JOURNAL_AAD_DOMAIN : string := "phantom.workspace-transaction-journal.v1" +:+ nul.
Definition ENV_IGNORE_PATTERNS : list string := [".env"; ".env.local"; ".env.*.local"; ".env.backup"]%string.

(** ** Data *)

Record SealedSetupPlan := mk_sealed { ss_plan : SetupPlan; ss_pre_state_id : string }.

Record ParticipantFileMutation := mk_participant_mutation {
  pm_target : string;
  pm_content : string;
  pm_executable : bool;
}.

(** The set of identifiers is its sorted list. *)
Record ParticipantPreparation := mk_preparation {
  pp_completed_action_ids : list string;
  pp_file_mutations : list ParticipantFileMutation;
}.

Record DurableJournalConfig := mk_journal_config { jc_request_id : string; jc_path : string; jc_key : string }.

Inductive ActionOutcomeState := OutcomeApplied | AlreadySatisfied | Deferred.

#[export] Instance ActionOutcomeState_eq_dec : EqDecision ActionOutcomeState.
Proof. solve_decision. Defined.

Record ActionOutcome := mk_outcome {
  ao_action_id : string;
  ao_kind : SetupActionKind;
  ao_target : string;
  ao_state : ActionOutcomeState;
}.

Record FileChangeReceipt := mk_change {
  fc_target : string;
  fc_before_state_id : option string;
  fc_after_state_id : string;
}.

Record SetupTransactionReceipt := mk_receipt {
  tr_schema_version : N;
  tr_plan_id : string;
  tr_workspace_fingerprint : string;
  tr_replayed_plan : bool;
  tr_actions : list ActionOutcome;
  tr_file_changes : list FileChangeReceipt;
  tr_fully_applied : bool;
}.

Inductive JournalRecovery := JAbsent | JRolledBack | JApplied (receipt : SetupTransactionReceipt).

Inductive JournalPhase := Prepared | FilesApplied | ParticipantCommitStarted | PhaseApplied | PhaseRolledBack.

#[export] Instance JournalPhase_eq_dec : EqDecision JournalPhase.
Proof. solve_decision. Defined.

Record JournalFile := mk_journal_file {
  jf_target : string;
  jf_before : option string;
  jf_before_mode : option N;
  jf_after : string;
}.

Record JournalRecord := mk_record {
  jr_schema_version : N;
  jr_request_id : string;
  jr_plan_id : string;
  jr_pre_state_id : string;
  jr_phase : JournalPhase;
  jr_files : list JournalFile;
  jr_participant_payload : string;
  jr_receipt : option SetupTransactionReceipt;
}.

Record DurableJournal := mk_journal {
  dj_request_id : string;
  dj_path : string;
  dj_key : string;
  dj_record : JournalRecord;
}.

#[export] Instance Serialize_outcome_state : Serialize ActionOutcomeState := fun s => VString
  (match s with
   | OutcomeApplied => "applied" | AlreadySatisfied => "already_satisfied" | Deferred => "deferred"
   end)%string.

#[export] Instance Serialize_action_outcome : Serialize ActionOutcome := fun o => VObject
  [("action_id", to_value (ao_action_id o)); ("kind", to_value (ao_kind o)); ("target", to_value (ao_target o));
   ("state", to_value (ao_state o))]%string.

#[export] Instance Serialize_change : Serialize FileChangeReceipt := fun c => VObject
  ([("target"%string, to_value (fc_target c))]
   ++ match fc_before_state_id c with Some id => [("before_state_id"%string, to_value id)] | None => [] end
   ++ [("after_state_id"%string, to_value (fc_after_state_id c))]).

#[export] Instance Serialize_setup_receipt : Serialize SetupTransactionReceipt := fun r => VObject
  [("schema_version", to_value (tr_schema_version r)); ("plan_id", to_value (tr_plan_id r));
   ("workspace_fingerprint", to_value (tr_workspace_fingerprint r)); ("replayed_plan", to_value (tr_replayed_plan r));
   ("actions", to_value (tr_actions r)); ("file_changes", to_value (tr_file_changes r));
   ("fully_applied", to_value (tr_fully_applied r))]%string.

(** ** The participant, and the machine beyond the files *)

(** [SetupTransactionParticipant]; an error is its code. *)
Class SetupTransactionParticipant (W : Type) := {
  retained_root_identity : W → option FileIdentity;
  prepare : SetupPlan → list SetupAction → io W string ParticipantPreparation;
  commit : io W string unit;
  rollback : io W string unit;
  recovery_payload : io W string string;
  restore_recovery_payload : string → io W string unit;
}.

(** [NoopSetupParticipant], with the methods the trait provides *)
Definition NoopSetupParticipant (W : Type) : SetupTransactionParticipant W := {|
  retained_root_identity _ := None;
  prepare _ _ := io_ret (mk_preparation [] []);
  commit := io_ret tt;
  rollback := io_ret tt;
  recovery_payload := io_ret EmptyString;
  restore_recovery_payload payload :=
    if str_is_empty payload then io_ret tt else io_throw "unsupported_recovery_payload"%string;
|}.

Class TxnHost (W Fd : Type) := {
  temp_dir : string;
  ensure_private_leaf_dir : string → io W ErrorKind unit;
  open_owned_directory : string → bool → io W ErrorKind Fd;
  open_owned_file_at : Fd → string → bool → io W ErrorKind Fd;
  lock_file_exclusive : Fd → io W ErrorKind unit;
  (** dropping the lock file *)
  release_lock : Fd → W → W;
  (** [phantom_core::fs::atomic_write], [remove_file], [sync_parent_dir] *)
  fs_atomic_write : string → string → io W ErrorKind unit;
  remove_path : string → io W ErrorKind unit;
  sync_parent_dir : string → io W ErrorKind unit;
  (** twelve random bytes *)
  random_nonce : W → W * string;
}.

(** [serde_json] on a record; what it says of an error is dropped. *)
Class JournalSerde := {
  record_to_vec : JournalRecord → result string string;
  record_from_slice : string → option JournalRecord;
}.

(** ** The keyed digest *)

(** [u64::to_be_bytes] *)
Fixpoint be_bytes (k : nat) (n : N) : string :=
  match k with
  | O => EmptyString
  | S k => String (ascii_of_N (N.land (N.shiftr n (8 * N.of_nat k)) 255)) (be_bytes k n)
  end.

(** A pad of [n] bytes, xored with the key *)
Fixpoint xor_pad (byte : ascii) (n : nat) (key : string) : string :=
  match n with
  | O => EmptyString
  | S n =>
      match key with
      | EmptyString => String byte (xor_pad byte n EmptyString)
      | String k key => String (ascii_of_N (N.lxor (N_of_ascii byte) (N_of_ascii k))) (xor_pad byte n key)
      end
  end.

(** [hmac_field]: what the hasher was given so far, and more of it *)
Definition hmac_field (hasher label field_value : string) : string :=
  hasher +:+ be_bytes 8 (str_len label) +:+ label +:+ be_bytes 8 (str_len field_value) +:+ field_value.

(** [constant_time_eq] *)
Fixpoint xor_difference (difference : N) (l r : string) : N :=
  match l, r with
  | String a l, String b r => xor_difference (N.lor difference (N.lxor (N_of_ascii a) (N_of_ascii b))) l r
  | _, _ => difference
  end.
Definition bytes_equal (l r : string) : bool := (str_len l =? str_len r)%N && (xor_difference 0 l r =? 0)%N.

(** ** The contents that are written *)

(** One pattern of [ensure_ignore_rules] *)
Definition ensure_pattern (content pattern : string) : string :=
  if existsb (fun line => String.eqb (trim line) pattern) (text_lines content) then content
  else
    (if negb (str_is_empty content) && negb (ends_with line_feed content) then content +:+ line_feed else content)
    +:+ pattern +:+ line_feed.

(** [ensure_ignore_rules]; bytes that are no text are refused. *)
Definition ensure_ignore_rules (existing path : string) : result string WorkspaceError :=
  if negb (utf8_valid existing) then Err (WIo path InvalidData)
  else Ok (fold_left ensure_pattern ENV_IGNORE_PATTERNS existing).

(** [value_free_example] *)
Definition example_header : string :=
  "# Environment variable names discovered by Phantom." +:+ line_feed +:+ "# Values are intentionally omitted." +:+ line_feed.
Definition value_free_example (inspection : WorkspaceInspection) : string :=
  fold_left (fun content name => content +:+ name +:+ "=" +:+ line_feed)
    (btree_collect (flat_map eo_entry_names (wi_env_files inspection))) example_header.

(** [ensure_pre_commit_hook] *)
Definition ensure_pre_commit_hook (existing target : string) : result string WorkspaceError :=
  if negb (utf8_valid existing) then Err (WIo target InvalidData) else Ok (hu_content (ensure existing)).

(** [ensure_unique_targets]: the mutations sorted by target *)
Definition target_cmp (a b : FileMutation) : comparison := ord_cmp (mu_target a) (mu_target b).
Fixpoint no_equal_neighbours (mutations : list FileMutation) : result unit WorkspaceError :=
  match mutations with
  | a :: ((b :: _) as rest) =>
      if String.eqb (mu_target a) (mu_target b) then Err (UnsafeTarget (mu_target a)) else no_equal_neighbours rest
  | _ => Ok tt
  end.
Definition ensure_unique_targets (mutations : list FileMutation) : result (list FileMutation) WorkspaceError :=
  let mutations := sort_by target_cmp mutations in
  let? _ := no_equal_neighbours mutations in Ok mutations.

(** The actions that are left to the participant *)
Definition is_external (a : SetupAction) : bool :=
  match sa_kind a with ProtectEnvFile | ReviewPlaceBinding => true | _ => false end.

Definition protects (target : string) (a : SetupAction) : bool :=
  bool_decide (sa_kind a = ProtectEnvFile) && String.eqb (sa_target a) target.

(** [mutation_action_id] *)
Definition mutation_action_id (mutation : ParticipantFileMutation) (actions : list SetupAction) : string :=
  match List.find (protects (pm_target mutation)) actions with Some a => sa_id a | None => EmptyString end.

(** [validate_preparation] *)
Fixpoint validate_file_mutations (completed : list string) (external_actions : list SetupAction)
    (mutations : list ParticipantFileMutation) : result unit WorkspaceError :=
  match mutations with
  | [] => Ok tt
  | mutation :: rest =>
      match List.find (protects (pm_target mutation)) external_actions with
      | None => Err (UnsafeTarget (pm_target mutation))
      | Some a =>
          if negb (existsb (String.eqb (sa_id a)) completed) then Err InvalidPlan
          else validate_file_mutations completed external_actions rest
      end
  end.
Definition validate_preparation (preparation : ParticipantPreparation) (external_actions : list SetupAction)
    : result unit WorkspaceError :=
  if existsb (fun id => negb (existsb (String.eqb id) (map sa_id external_actions))) (pp_completed_action_ids preparation)
  then Err InvalidPlan
  else validate_file_mutations (pp_completed_action_ids preparation) external_actions (pp_file_mutations preparation).

(** The loop over the participant's mutations in [apply_setup_plan_inner] *)
Fixpoint adopt_mutations (external_actions : list SetupAction) (mutations : list ParticipantFileMutation)
    : result (list FileMutation) WorkspaceError :=
  match mutations with
  | [] => Ok []
  | mutation :: rest =>
      let? a := ok_or (List.find (fun a => String.eqb (sa_id a) (mutation_action_id mutation external_actions))
                        external_actions) InvalidPlan in
      let? rest := adopt_mutations external_actions rest in
      Ok (mk_mutation (pm_target mutation) (pm_content mutation) (pm_executable mutation) (sa_id a) :: rest)
  end.

Section txn.
Context {W Fd : Type} `{F : !WorkspaceFs W} `{T : !TxnFs W Fd} `{H : !TxnHost W Fd} `{X : External}.
Context `{K : !Crypto} `{J : !JournalSerde} `{P : !SetupTransactionParticipant W}.

(** [SetupTransactionReceipt::digest_hex] *)
Definition receipt_digest_hex (r : SetupTransactionReceipt) : string := sha256_hex (json_to_vec (to_value r)).

(** [hmac_inner], [hmac_finish], [keyed_file_state_id] *)
Definition hmac_inner (seal_key domain : string) : string :=
  hmac_field (xor_pad (ascii_of_N 54) 64 seal_key) "domain" domain.
Definition hmac_finish (seal_key inner : string) : string :=
  sha256 (xor_pad (ascii_of_N 92) 64 seal_key +:+ sha256 inner).
Definition keyed_file_state_id (seal_key target content : string) : string :=
  hex_encode (hmac_finish seal_key
    (hmac_field (hmac_field (hmac_inner seal_key "phantom.workspace.file-state.v1") "path" target) "content" content)).

(** The loop of [resolve_target] over the components *)
Fixpoint resolve_walk (path current : string) (parts : list Component) : io W WorkspaceError unit :=
  match parts with
  | [] => io_ret tt
  | Normal part :: rest => fun w =>
      let current := join_path current part in
      match lstat current w with
      | (w1, Ok metadata) =>
          if bool_decide (fm_type metadata = Symlink) then (w1, Err (UnsafeTarget path))
          else
            (do? has_git := (if bool_decide (fm_type metadata = Directory)
                             then (fun w => let '(w1, r) := lstat (join_path current ".git") w in
                                            (w1, Ok (match r with Ok _ => true | Err _ => false end)))
                             else io_ret false) in
             io_fail_if has_git (UnsafeTarget path)
             (do? _ := io_lift (if bool_decide (components current = components path)
                                   && bool_decide (fm_type metadata = RegularFile)
                                then validate_target_metadata current metadata else Ok tt) in
              resolve_walk path current rest)) w1
      | (w1, Err NotFound) => (w1, Ok tt)
      | (w1, Err e) => (w1, Err (WIo current e))
      end
  | _ :: rest => resolve_walk path current rest
  end.

(** [resolve_target] *)
Definition resolve_target (root target : string) : io W WorkspaceError string :=
  let parts := components target in
  io_fail_if (is_absolute parts || negb (forallb (fun c => is_normal_component c || bool_decide (c = CurDir)) parts))
    (UnsafeTarget target)
  (let path := join_path root target in
   do? _ := resolve_walk path root parts in io_ret path).

(** The targets whose bytes a seal binds, in order *)
Definition sealed_targets (plan : SetupPlan) (inspection : WorkspaceInspection) : list string :=
  btree_collect (map sa_target (List.filter (fun a => negb (bool_decide (sa_kind a = ReviewPlaceBinding))) (sp_actions plan))
                 ++ [".phantom.toml"%string] ++ map eo_path (wi_env_files inspection)).

(** The loop of [calculate_pre_state_id] *)
Fixpoint seal_targets (root : string) (targets : list string) (inner : string) : io W WorkspaceError string :=
  match targets with
  | [] => io_ret inner
  | target :: rest =>
      do? path := resolve_target root target in
      let inner := hmac_field inner "path" target in fun w =>
      match lstat path w with
      | (w1, Ok metadata) =>
          (do? _ := io_lift (validate_target_metadata path metadata) in
           do? content := at_path path (read_file_bytes path) in
           seal_targets root rest (hmac_field inner "present" content)) w1
      | (w1, Err NotFound) => seal_targets root rest (hmac_field inner "absent" EmptyString) w1
      | (w1, Err e) => (w1, Err (WIo path e))
      end
  end.

(** [calculate_pre_state_id] *)
Definition calculate_pre_state_id (plan : SetupPlan) (inspection : WorkspaceInspection) (root seal_key : string)
    : io W WorkspaceError string :=
  io_fail_if (negb (plan_has_valid_id plan)) InvalidPlan
  (let inner := hmac_inner seal_key "phantom.workspace.pre-state.v1" in
   let inner := hmac_field inner "plan" (json_to_vec (to_value plan)) in
   do? inner := seal_targets root (sealed_targets plan inspection) inner in
   io_ret (hex_encode (hmac_finish seal_key inner))).

(** [validate_sealed_state] *)
Definition validate_sealed_state (sealed_plan : SealedSetupPlan) (current_plan : SetupPlan)
    (inspection : WorkspaceInspection) (root seal_key : string) : io W WorkspaceError unit :=
  do? current_pre_state := calculate_pre_state_id current_plan inspection root seal_key in
  if bool_decide (current_plan = ss_plan sealed_plan) && bytes_equal current_pre_state (ss_pre_state_id sealed_plan)
  then io_ret tt
  else io_throw (PlanDrift (sp_plan_id (ss_plan sealed_plan)) (sp_plan_id current_plan)).

(** ** The lock *)

Definition unsafe_or_io {A} (path : string) (m : io W ErrorKind A) : io W WorkspaceError A := fun w =>
  let '(w1, r) := m w in
  (w1, map_err (fun e => match e with InvalidData => UnsafeTarget path | e => WIo path e end) r).

(** [open_workspace_lock_file] *)
Definition open_workspace_lock_file (lock_directory name : string) : io W WorkspaceError Fd :=
  do? _ := at_path lock_directory (ensure_private_leaf_dir lock_directory) in
  do? directory := unsafe_or_io lock_directory (open_owned_directory lock_directory true) in
  unsafe_or_io (join_path lock_directory name) (open_owned_file_at directory name true).

(** [acquire_workspace_lock] *)
Definition acquire_workspace_lock (root : string) : io W WorkspaceError Fd :=
  let lock_directory := join_path temp_dir "phantom-workspace-locks" in
  let name := digest_hex root +:+ ".lock" in
  do? lock := open_workspace_lock_file lock_directory name in
  do? _ := at_path (join_path lock_directory name) (lock_file_exclusive lock) in
  io_ret lock.

(** The lock is held to the end of the scope. *)
Definition with_workspace_lock {A} (root : string) (body : io W WorkspaceError A) : io W WorkspaceError A :=
  do? lock := acquire_workspace_lock root in
  fun w => let '(w1, r) := body w in (release_lock lock w1, r).

(** [build_sealed_setup_plan] *)
Definition build_sealed_setup_plan (requested_root seal_key : string) : io W WorkspaceError SealedSetupPlan :=
  do? canonical_root := at_path requested_root (canonicalize_path requested_root) in
  with_workspace_lock canonical_root
  (do? inspection := inspect_workspace canonical_root in
   do? plan := build_setup_plan inspection in
   do? pre_state_id := calculate_pre_state_id plan inspection canonical_root seal_key in
   io_ret (mk_sealed plan pre_state_id)).

(** ** The mutations of the plan *)

(** [PhantomConfig::project_id_from_path] and [initial_config] *)
Definition project_id_from_path (path : string) (w : W) : W * string :=
  let '(w1, r) := canonicalize_path path w in
  let canonical := match r with Ok p => p | Err _ => path end in
  (w1, sha256_hex ("phantom-local-project-v2" +:+ nul +:+ "unix" +:+ nul +:+ canonical)).
Definition initial_config (root : string) : io W WorkspaceError string := fun w =>
  let '(w1, project_id) := project_id_from_path root w in
  (w1, map_err Serialization (default_config_toml project_id)).

(** What an action wants its target to hold *)
Definition desired_content (inspection : WorkspaceInspection) (root : string) (root_directory : Fd) (a : SetupAction)
    : io W WorkspaceError (option string) :=
  match sa_kind a with
  | InitializeWorkspace => do? content := initial_config root in io_ret (Some content)
  | EnsureEnvIgnoreRules =>
      do? existing := secure_read_target root root_directory (sa_target a) in
      do? content := io_lift (ensure_ignore_rules (default EmptyString existing) (join_path root (sa_target a))) in
      io_ret (Some content)
  | GenerateEnvExample => io_ret (Some (value_free_example inspection))
  | InstallPreCommitCheck =>
      do? existing := secure_read_target root root_directory (sa_target a) in
      do? content := io_lift (ensure_pre_commit_hook (default EmptyString existing) (sa_target a)) in
      io_ret (Some content)
  | _ => io_ret None
  end.

(** [build_filesystem_mutations] *)
Fixpoint filesystem_mutations (inspection : WorkspaceInspection) (root : string) (root_directory : Fd)
    (actions : list SetupAction) : io W WorkspaceError (list FileMutation) :=
  match actions with
  | [] => io_ret []
  | a :: rest =>
      do? desired := desired_content inspection root root_directory a in
      match desired with
      | None => filesystem_mutations inspection root root_directory rest
      | Some content =>
          do? current := secure_read_target root root_directory (sa_target a) in
          if bool_decide (current = Some content) then filesystem_mutations inspection root root_directory rest
          else
            do? mutations := filesystem_mutations inspection root root_directory rest in
            io_ret (mk_mutation (sa_target a) content (bool_decide (sa_kind a = InstallPreCommitCheck)) (sa_id a)
                    :: mutations)
      end
  end.
Definition build_filesystem_mutations (plan : SetupPlan) (inspection : WorkspaceInspection) (root : string)
    (root_directory : Fd) : io W WorkspaceError (list FileMutation) :=
  filesystem_mutations inspection root root_directory (sp_actions plan).

(** ** The receipt *)

(** [build_receipt]; an after-image that is missing stops the program. *)
Definition outcome_state (changed_ids participant_completed : list string) (a : SetupAction) : ActionOutcomeState :=
  if existsb (String.eqb (sa_id a)) participant_completed || existsb (String.eqb (sa_id a)) changed_ids
  then OutcomeApplied
  else if is_external a then Deferred else AlreadySatisfied.
Definition file_change (seal_key : string) (file : FileSnapshot Fd) : FileChangeReceipt :=
  mk_change (fs_target file)
    (match fs_before file with
     | Missing => None
     | Present content _ => Some (keyed_file_state_id seal_key (fs_target file) content)
     end)
    (match fs_after file with
     | Some after => keyed_file_state_id seal_key (fs_target file) after
     | None => EmptyString
     end).
Definition build_receipt (plan : SetupPlan) (replayed_plan : bool) (mutations : list FileMutation)
    (s : WorkspaceSnapshot Fd) (participant_completed : list string) (seal_key : string) : SetupTransactionReceipt :=
  let changed_ids := map mu_action_id mutations in
  let actions := map (fun a => mk_outcome (sa_id a) (sa_kind a) (sa_target a)
                                 (outcome_state changed_ids participant_completed a)) (sp_actions plan) in
  mk_receipt TRANSACTION_SCHEMA_VERSION (sp_plan_id plan) (sp_workspace_fingerprint plan) replayed_plan actions
    (map (file_change seal_key) (ws_files s))
    (forallb (fun o => negb (bool_decide (ao_state o = Deferred))) actions).

(** ** The journal *)

(** [journal_aad] *)
Definition journal_aad (request_id : string) : string := JOURNAL_AAD_DOMAIN +:+ request_id.

(** [DurableJournal::persist] *)
Definition persist (j : DurableJournal) : io W WorkspaceError unit :=
  do? plaintext := io_lift (map_err Serialization (record_to_vec (dj_record j))) in fun w =>
  let '(w1, nonce) := random_nonce w in
  match aead_seal (dj_key j) nonce (journal_aad (dj_request_id j)) plaintext with
  | None => (w1, Err InvalidJournal)
  | Some ciphertext =>
      at_path (dj_path j) (fs_atomic_write (dj_path j) ("PHJ1" +:+ nonce +:+ ciphertext)) w1
  end.

(** [DurableJournal::set_phase]: the journal as it is afterwards *)
Definition with_phase (phase : JournalPhase) (receipt : option SetupTransactionReceipt) (j : DurableJournal)
    : DurableJournal :=
  let r := dj_record j in
  mk_journal (dj_request_id j) (dj_path j) (dj_key j)
    (mk_record (jr_schema_version r) (jr_request_id r) (jr_plan_id r) (jr_pre_state_id r) phase (jr_files r)
       (jr_participant_payload r) (match receipt with Some _ => receipt | None => jr_receipt r end)).
Definition set_phase (phase : JournalPhase) (receipt : option SetupTransactionReceipt) (j : DurableJournal)
    : io W WorkspaceError DurableJournal :=
  let j := with_phase phase receipt j in
  do? _ := persist j in io_ret j.

(** The files of [DurableJournal::create] *)
Definition journal_file (mutations : list FileMutation) (file : FileSnapshot Fd) : result JournalFile WorkspaceError :=
  let? mutation := ok_or (List.find (fun m => String.eqb (mu_target m) (fs_target file)) mutations) InvalidPlan in
  Ok (mk_journal_file (fs_target file)
        (match fs_before file with Missing => None | Present content _ => Some content end)
        (match fs_before file with Missing => None | Present _ permissions => Some permissions end)
        (mu_content mutation)).
Fixpoint journal_files (mutations : list FileMutation) (files : list (FileSnapshot Fd))
    : result (list JournalFile) WorkspaceError :=
  match files with
  | [] => Ok []
  | file :: rest =>
      let? f := journal_file mutations file in
      let? rest := journal_files mutations rest in Ok (f :: rest)
  end.

(** [DurableJournal::create] *)
Definition create_journal (config : DurableJournalConfig) (sealed : SealedSetupPlan) (s : WorkspaceSnapshot Fd)
    (mutations : list FileMutation) (participant_payload : string) : io W WorkspaceError DurableJournal :=
  do? files := io_lift (journal_files mutations (ws_files s)) in
  let j := mk_journal (jc_request_id config) (jc_path config) (jc_key config)
             (mk_record JOURNAL_SCHEMA_VERSION (jc_request_id config) (sp_plan_id (ss_plan sealed))
                (ss_pre_state_id sealed) Prepared files participant_payload None) in
  do? _ := persist j in io_ret j.

(** What [DurableJournal::load] makes of the bytes *)
Definition decode_journal (config : DurableJournalConfig) (bytes : string) : option JournalRecord :=
  if (String.length bytes <? 16)%nat || negb (String.eqb (str_take 4 bytes) "PHJ1") then None
  else
    plaintext ← aead_open (jc_key config) (str_take 12 (str_drop 4 bytes)) (journal_aad (jc_request_id config))
                  (str_drop 16 bytes);
    record ← record_from_slice plaintext;
    if negb (jr_schema_version record =? JOURNAL_SCHEMA_VERSION)%N
       || negb (String.eqb (jr_request_id record) (jc_request_id config)) then None else Some record.

(** [DurableJournal::load] *)
Definition load_journal (config : DurableJournalConfig) : io W WorkspaceError (option DurableJournal) := fun w =>
  match lstat (jc_path config) w with
  | (w1, Err NotFound) => (w1, Ok None)
  | (w1, Err e) => (w1, Err (WIo (jc_path config) e))
  | (w1, Ok metadata) =>
      (do? _ := io_lift (validate_target_metadata (jc_path config) metadata) in
       do? bytes := at_path (jc_path config) (read_file_bytes (jc_path config)) in
       do? record := io_lift (ok_or (decode_journal config bytes) InvalidJournal) in
       io_ret (Some (mk_journal (jc_request_id config) (jc_path config) (jc_key config) record))) w1
  end.

(** [clear_setup_plan_journal] *)
Definition clear_setup_plan_journal (config : DurableJournalConfig) : io W WorkspaceError unit := fun w =>
  match remove_path (jc_path config) w with
  | (w1, Ok _) =>
      if str_is_empty (jc_path config) || String.eqb (jc_path config) "/" then (w1, Ok tt)
      else at_path (parent_path (jc_path config)) (sync_parent_dir (parent_path (jc_path config))) w1
  | (w1, Err NotFound) => (w1, Ok tt)
  | (w1, Err e) => (w1, Err (WIo (jc_path config) e))
  end.

(** ** Applying *)

(** [abort_participant]: the error that is returned in the end *)
Definition abort_participant {A} (error : WorkspaceError) : io W WorkspaceError A := fun w =>
  match rollback w with
  | (w1, Ok _) => (w1, Err error)
  | (w1, Err _) => (w1, Err RollbackIncomplete)
  end.
Definition or_abort {A} (m : io W WorkspaceError A) : io W WorkspaceError A := fun w =>
  match m w with
  | (w1, Err e) => abort_participant e w1
  | (w1, Ok x) => (w1, Ok x)
  end.

Definition at_stage {A} (stage : string) (m : io W string A) : io W WorkspaceError A := fun w =>
  let '(w1, r) := m w in (w1, map_err (Participant stage) r).

(** Files and participant are both undone, in this order; both tell. *)
Definition undo (s : WorkspaceSnapshot Fd) (w : W) : W * bool :=
  let '(w1, filesystem) := restore_snapshot_checked s w in
  let '(w2, participant) := rollback w1 in
  (w2, match filesystem, participant with Ok _, Ok _ => true | _, _ => false end).
Definition undo_with {A} (s : WorkspaceSnapshot Fd) (error : WorkspaceError) : io W WorkspaceError A := fun w =>
  let '(w1, rolled_back) := undo s w in (w1, Err (if rolled_back then error else RollbackIncomplete)).

Record SetupTransaction := mk_transaction { st_receipt : SetupTransactionReceipt; st_snapshot : WorkspaceSnapshot Fd }.

(** [apply_mutations] and [finalize_snapshot], undone when they fail *)
Definition write_files (root : string) (mutations : list FileMutation) (s : WorkspaceSnapshot Fd)
    (journal : option DurableJournal) : io W WorkspaceError (WorkspaceSnapshot Fd) := fun w =>
  match apply_mutations root mutations (w, s) with
  | ((w1, s1), Err error) =>
      let '(w2, rolled_back) := undo s1 w1 in
      let w3 := match journal with
                | Some j => if rolled_back then fst (set_phase PhaseRolledBack None j w2) else w2
                | None => w2
                end in
      (w3, Err (if rolled_back then error else RollbackIncomplete))
  | ((w1, s1), Ok _) =>
      match finalize_snapshot (w1, s1) with
      | ((w2, s2), Err error) => undo_with s2 error w2
      | ((w2, s2), Ok _) => (w2, Ok s2)
      end
  end.

(** From the snapshot on: the journal, the files, the participant *)
Definition change_workspace (sealed_plan : SealedSetupPlan) (seal_key root : string) (completed : list string)
    (mutations : list FileMutation) (s : WorkspaceSnapshot Fd) (journal_config : option DurableJournalConfig)
    : io W WorkspaceError SetupTransaction :=
  do? journal := (match journal_config with
                  | Some config =>
                      do? payload := or_abort (at_stage "recovery_payload" recovery_payload) in
                      do? j := create_journal config sealed_plan s mutations payload in io_ret (Some j)
                  | None => io_ret None
                  end) in
  do? s := write_files root mutations s journal in
  do? journal := (match journal with
                  | Some j =>
                      do? j := set_phase FilesApplied None j in
                      do? j := set_phase ParticipantCommitStarted None j in io_ret (Some j)
                  | None => io_ret None
                  end) in fun w =>
  match commit w with
  | (w1, Err code) => undo_with s (Participant "commit" code) w1
  | (w1, Ok _) =>
      let receipt := build_receipt (ss_plan sealed_plan) false mutations s completed seal_key in
      (do? _ := (match journal with
                 | Some j => do? _ := set_phase PhaseApplied (Some receipt) j in io_ret tt
                 | None => io_ret tt
                 end) in
       io_ret (mk_transaction receipt s)) w1
  end.

(** The workspace is what was sealed. *)
Definition check_sealed (sealed_plan : SealedSetupPlan) (root seal_key : string)
    : io W WorkspaceError WorkspaceInspection :=
  do? inspection := inspect_workspace root in
  do? current_plan := build_setup_plan inspection in
  do? _ := validate_sealed_state sealed_plan current_plan inspection root seal_key in
  io_ret inspection.

(** What [apply_setup_plan_inner] does under the lock *)
Definition apply_locked (sealed_plan : SealedSetupPlan) (seal_key root : string)
    (journal_config : option DurableJournalConfig) : io W WorkspaceError SetupTransaction :=
  let plan := ss_plan sealed_plan in
  do? root_directory := open_root_directory root in
  do? engine_root_identity := at_path root (fd_identity root_directory) in
  do? retained := io_query (fun w => Ok (retained_root_identity w)) in
  if negb (bool_decide (retained = None ∨ retained = Some engine_root_identity))
  then abort_participant (UnsafeTarget root)
  else
    do? inspection := check_sealed sealed_plan root seal_key in
    let external_actions := List.filter is_external (sp_actions plan) in
    do? preparation := or_abort (at_stage "prepare" (prepare plan external_actions)) in
    do? _ := or_abort (io_lift (validate_preparation preparation external_actions)) in
    do? mutations := or_abort
      (do? own := build_filesystem_mutations plan inspection root root_directory in
       do? theirs := io_lift (adopt_mutations external_actions (pp_file_mutations preparation)) in
       io_lift (ensure_unique_targets (own ++ theirs))) in
    do? _ := or_abort (check_sealed sealed_plan root seal_key) in
    do? _ := verify_root_identity root root_directory in
    do? s := or_abort (capture_snapshot root root_directory mutations) in
    change_workspace sealed_plan seal_key root (pp_completed_action_ids preparation) mutations s journal_config.

(** [apply_setup_plan_inner] *)
Definition apply_setup_plan_inner (sealed_plan : SealedSetupPlan) (seal_key : string)
    (journal_config : option DurableJournalConfig) : io W WorkspaceError SetupTransaction :=
  let requested_root := sp_workspace_root (ss_plan sealed_plan) in
  io_fail_if (negb (plan_has_valid_id (ss_plan sealed_plan))) InvalidPlan
  (do? canonical_root := at_path requested_root (canonicalize_path requested_root) in
   io_fail_if (negb (String.eqb canonical_root requested_root)) InvalidPlan
   (with_workspace_lock canonical_root (apply_locked sealed_plan seal_key canonical_root journal_config))).

Definition apply_setup_plan (sealed_plan : SealedSetupPlan) (seal_key : string) : io W WorkspaceError SetupTransaction :=
  apply_setup_plan_inner sealed_plan seal_key None.
Definition apply_setup_plan_durable (sealed_plan : SealedSetupPlan) (seal_key : string) (journal : DurableJournalConfig)
    : io W WorkspaceError SetupTransaction :=
  apply_setup_plan_inner sealed_plan seal_key (Some journal).

(** ** Recovering *)

(** The first loop of [recover_setup_plan_journal]: every file is its
    before-image or its after-image. *)
Fixpoint recoverable_parents (root : string) (root_directory : Fd) (files : list JournalFile)
    : io W WorkspaceError (list (SecureParent Fd)) :=
  match files with
  | [] => io_ret []
  | file :: rest =>
      let path := join_path root (jf_target file) in
      do? parent := find_parent root root_directory (jf_target file) in
      do? parent := io_lift (ok_or parent (RollbackDrift path)) in
      do? current := read_content parent path in
      io_fail_if (negb (bool_decide (current = jf_before file)) && negb (bool_decide (current = Some (jf_after file))))
        (RollbackDrift path)
      (do? parents := recoverable_parents root root_directory rest in io_ret (parent :: parents))
  end.

(** [restore_journal_file_checked] *)
Definition restore_journal_file_checked (file : JournalFile) (parent : SecureParent Fd) (path : string)
    : io W WorkspaceError unit :=
  do? current := read_content parent path in
  if bool_decide (current = jf_before file) then io_ret tt
  else
    io_fail_if (negb (bool_decide (current = Some (jf_after file)))) (RollbackDrift path)
    (do? _ := (match jf_before file with
               | Some content => write_at parent path content (jf_before_mode file) false
               | None => unlink_at parent path false
               end) in
     do? verified := read_content parent path in
     io_fail_if (negb (bool_decide (verified = jf_before file))) (RollbackDrift path) (io_ret tt)).

(** The second loop, which goes on past an error *)
Fixpoint restore_journal_files (root : string) (files : list (JournalFile * SecureParent Fd)) (w : W) : W * bool :=
  match files with
  | [] => (w, true)
  | (file, parent) :: rest =>
      let '(w1, restored) := restore_journal_file_checked file parent (join_path root (jf_target file)) w in
      let '(w2, ok) := restore_journal_files root rest w1 in
      (w2, match restored with Ok _ => ok | Err _ => false end)
  end.

(** The part of [recover_setup_plan_journal] under the lock *)
Definition recover_locked (root : string) (journal : DurableJournal) : io W WorkspaceError JournalRecovery :=
  do? root_directory := open_root_directory root in
  do? parents := recoverable_parents root root_directory (jr_files (dj_record journal)) in
  do? _ := at_stage "restore_recovery_payload" (restore_recovery_payload (jr_participant_payload (dj_record journal))) in
  fun w =>
    let '(w1, participant) := rollback w in
    let '(w2, filesystem_ok) := restore_journal_files root (rev (zip (jr_files (dj_record journal)) parents)) w1 in
    if negb (match participant with Ok _ => true | Err _ => false end) || negb filesystem_ok
    then (w2, Err RollbackIncomplete)
    else (do? _ := set_phase PhaseRolledBack None journal in io_ret JRolledBack) w2.

(** [recover_setup_plan_journal] *)
Definition recover_setup_plan_journal (workspace_root plan_id pre_state_id : string) (config : DurableJournalConfig)
    : io W WorkspaceError JournalRecovery :=
  do? journal := load_journal config in
  match journal with
  | None => io_ret JAbsent
  | Some journal =>
      let record := dj_record journal in
      io_fail_if (negb (String.eqb (jr_plan_id record) plan_id) || negb (String.eqb (jr_pre_state_id record) pre_state_id))
        JournalMismatch
      match jr_phase record with
      | PhaseApplied => do? receipt := io_lift (ok_or (jr_receipt record) InvalidJournal) in io_ret (JApplied receipt)
      | PhaseRolledBack => io_ret JRolledBack
      | Prepared | FilesApplied | ParticipantCommitStarted =>
          do? root := at_path workspace_root (canonicalize_path workspace_root) in
          with_workspace_lock root (recover_locked root journal)
      end
  end.

(** [rollback_workspace] *)
Definition rollback_workspace (s : WorkspaceSnapshot Fd) : io W WorkspaceError unit :=
  io_fail_if (negb (ws_finalized s)) InvalidPlan
  (with_workspace_lock (ws_workspace_root s) (restore_snapshot_checked s)).
End txn.
