(* ===== verification/WorkspaceFilesSpec.v ===== *)
(** * What the file operations of a setup transaction do

    The workspace is seen as the contents and permission bits of its files by
    path, temporary files left out.  A specification [does] relates a computation to what is
    seen before and after it, whatever its calls return: replacing a file
    leaves the old or the new content ([does_write_at]), taking before-images
    changes nothing ([does_capture]), applying mutations changes no other file
    ([does_apply]), and a restore that reports success has put every
    before-image back ([does_restore]).  At the end: what only reads
    ([quiet]). *)

From S2P Require Import Prelude Text Ids External Canonical StateDir Bytes Dotenv Classify AnchoredFs VaultCrypto HookText Workspace WorkspaceTxn.

(** ** Specifications

    [R] says what is seen of a world; the postcondition is of what is seen
    afterwards and of the result, also when that is an error. *)

Section does.
Context {W A : Type} (R : W → A → Prop).

Definition does {E T} (m : io W E T) (a : A) (Q : A → result T E → Prop) : Prop :=
  ∀ w w' r, R w a → m w = (w', r) → ∃ a', R w' a' ∧ Q a' r.

Lemma does_weaken {E T} (m : io W E T) a (Q Q' : A → result T E → Prop) :
  does m a Q → (∀ a' r, Q a' r → Q' a' r) → does m a Q'.
Proof. intros H HQ w w' r Hw Hm. destruct (H w w' r Hw Hm) as (a' & ? & ?). exists a'. auto. Qed.

Lemma does_bind {E T U} (m : io W E T) (k : T → io W E U) a Q :
  does m a (fun a' r => match r with Ok x => does (k x) a' Q | Err e => Q a' (Err e) end) →
  does (io_bind m k) a Q.
Proof.
  intros H w w' r Hw Hm. unfold io_bind in Hm. destruct (m w) as [w1 [x|e]] eqn:E1; destruct (H _ _ _ Hw E1) as (a1 & Hw1 & HQ).
  - exact (HQ _ _ _ Hw1 Hm).
  - injection Hm as <- <-. by exists a1.
Qed.

Lemma does_ret {E T} (x : T) a (Q : A → result T E → Prop) : Q a (Ok x) → does (io_ret x) a Q.
Proof. intros HQ w w' r Hw [= <- <-]. by exists a. Qed.

Lemma does_throw {E T} (e : E) a (Q : A → result T E → Prop) : Q a (Err e) → does (io_throw e) a Q.
Proof. intros HQ w w' r Hw [= <- <-]. by exists a. Qed.

Lemma does_lift {E T} (x : result T E) a (Q : A → result T E → Prop) : Q a x → does (io_lift x) a Q.
Proof. intros HQ w w' r Hw [= <- <-]. by exists a. Qed.

Lemma does_fail_if {E T} (b : bool) (e : E) (k : io W E T) a Q :
  (b = true → Q a (Err e)) → (b = false → does k a Q) → does (io_fail_if b e k) a Q.
Proof. intros H1 H2. destruct b; [by apply does_throw, H1|by apply H2]. Qed.

Lemma does_query {E T} (f : W → result T E) a (Q : A → result T E → Prop) :
  (∀ w, R w a → Q a (f w)) → does (io_query f) a Q.
Proof. intros HQ w w' r Hw [= <- <-]. exists a. auto. Qed.

(** A result that is looked at, errors too *)
Lemma does_then {E T E' U} (m : io W E T) (k : result T E → io W E' U) a Q :
  does m a (fun a' r => does (k r) a' Q) → does (fun w => let '(w1, r) := m w in k r w1) a Q.
Proof.
  intros H w w' r Hw Hm. destruct (m w) as [w1 r1] eqn:E1. destruct (H _ _ _ Hw E1) as (a1 & Hw1 & HQ).
  exact (HQ _ _ _ Hw1 Hm).
Qed.

Lemma does_map {E T E' U} (m : io W E T) (g : result T E → result U E') a Q :
  does m a (fun a' r => Q a' (g r)) → does (fun w => let '(w1, r) := m w in (w1, g r)) a Q.
Proof.
  intros H w w' r Hw Hm. destruct (m w) as [w1 r1] eqn:E1. injection Hm as <- <-. exact (H _ _ _ Hw E1).
Qed.

(** Computations that change nothing that is seen *)
Definition quiet {E T} (m : io W E T) : Prop := ∀ a Q, (∀ r, Q a r) → does m a Q.
End does.

Lemma does_at_path {W A} (R : W → A → Prop) {T} path (m : io W ErrorKind T) a (Q : A → result T WorkspaceError → Prop) :
  does R m a (fun a' r => Q a' (map_err (WIo path) r)) → does R (at_path path m) a Q.
Proof. apply does_map. Qed.

(** Next to what else is mutable *)
Definition local {W A} (R : W → A → Prop) (S : Type) : W * S → A * S → Prop := fun ws p => R ws.1 p.1 ∧ ws.2 = p.2.

Lemma does_with_local {W A} (R : W → A → Prop) {S E T} (m : io W E T) a (s : S) (Q : A * S → result T E → Prop) :
  does R m a (fun a' r => Q (a', s) r) → does (local R S) (with_local m) (a, s) Q.
Proof.
  intros H [w s0] w' r [Hw E0] Hm. cbn in Hw, E0, Hm. subst s0. destruct (m w) as [w1 r1] eqn:E1. injection Hm as <- <-.
  destruct (H _ _ _ Hw E1) as (a' & H1 & H2). by exists (a', s).
Qed.

(** Run with a fresh local state, of which only the changes to the world stay *)
Lemma does_run {W A} (R : W → A → Prop) {S E T} (m : io (W * S) E T) a (s : S) (Q : A → result T E → Prop) :
  does (local R S) m (a, s) (fun p r => Q p.1 r) →
  does R (fun w => let '((w1, _), r) := m (w, s) in (w1, r)) a Q.
Proof.
  intros H w w' r Hw Hm. destruct (m (w, s)) as [[w1 s1] r1] eqn:E1. injection Hm as <- <-.
  destruct (H (w, s) _ _ (conj Hw eq_refl) E1) as ([a' s'] & [H1 H2] & H3). by exists a'.
Qed.

(** ** The workspace as it is seen *)

(** A file: its content and its permission bits *)
Abbreviation file_image := (string * N)%type.
Definition permission_bits (mode : N) : N := N.land mode 511.

(** The files by path, and the bytes of the journal's file *)
Record astate := mk_astate { a_files : list string → option file_image; a_journal : option string }.

(** [f] but for the file at [p] *)
Definition upd (p : list string) (x : option file_image) (a : astate) : astate :=
  mk_astate (fun q => if bool_decide (q = p) then x else a_files a q) (a_journal a).

Lemma upd_eq p x a : a_files (upd p x a) p = x.
Proof. cbn. by rewrite bool_decide_true. Qed.
Lemma upd_ne p q x a : q ≠ p → a_files (upd p x a) q = a_files a q.
Proof. intros H. cbn. by rewrite bool_decide_false. Qed.

(** A file of the user: not a temporary file of a transaction *)
Definition visible (p : list string) : Prop :=
  match last p with Some n => starts_with TEMP_PREFIX n = false | None => True end.

(** The path that a target names below the root *)
Definition component_name (c : Component) : option string := match c with Normal n => Some n | _ => None end.
Definition path_of (target : string) : list string := omap component_name (components target).

(** ** What is relied on of the system calls

    [files] is every regular file by its path below the root, [journal] the bytes at the journal's path, which is outside.  A descriptor
    is of the path it was opened with: during a transaction no directory is
    moved, and a temporary file is written before it is renamed. *)
Class TxnFsLaws {W Fd} (T : TxnFs W Fd) (root : string) (files : W → list string → option file_image)
    (journal : W → option string) (fd_place : Fd → list string) : Prop := {
  open_root_law : ∀ w w' r, open_root_dir root w = (w', r) →
    files w' = files w ∧ journal w' = journal w ∧ (∀ d, r = Ok d → fd_place d = []);
  dup_law : ∀ d w w' r, dup_fd d w = (w', r) →
    files w' = files w ∧ journal w' = journal w ∧ (∀ d', r = Ok d' → fd_place d' = fd_place d);
  fd_identity_law : ∀ d w w' r, fd_identity d w = (w', r) → files w' = files w ∧ journal w' = journal w;
  path_identity_law : ∀ p w w' r, path_identity p w = (w', r) → files w' = files w ∧ journal w' = journal w;
  openat_directory_law : ∀ d n w w' r, openat_directory d n w = (w', r) →
    files w' = files w ∧ journal w' = journal w ∧ (∀ d', r = Ok d' → fd_place d' = fd_place d ++ [n]) ∧
    (r = Err NotFound → ∀ q, files w (fd_place d ++ n :: q) = None);
  openat_read_law : ∀ d n w w' r, openat_read d n w = (w', r) →
    files w' = files w ∧ journal w' = journal w ∧ (∀ h, r = Ok h → fd_place h = fd_place d ++ [n]);
  openat_create_law : ∀ d n w w' r, openat_create d n w = (w', r) →
    journal w' = journal w ∧
    match r with
    | Ok h => fd_place h = fd_place d ++ [n] ∧ (∃ m, files w' (fd_place h) = Some (EmptyString, m)) ∧
              ∀ q, q ≠ fd_place h → files w' q = files w q
    | Err _ => files w' = files w
    end;
  mkdirat_law : ∀ d n w w' r, mkdirat d n w = (w', r) → files w' = files w ∧ journal w' = journal w;
  fstatat_law : ∀ d n w w' r, fstatat d n w = (w', r) →
    files w' = files w ∧ journal w' = journal w ∧ (r = Err NotFound → files w (fd_place d ++ [n]) = None);
  fd_metadata_law : ∀ d w w' r, fd_metadata d w = (w', r) → files w' = files w ∧ journal w' = journal w ∧
    (∀ m f, r = Ok m → files w (fd_place d) = Some f → f.2 = permission_bits (fm_mode m));
  read_fd_law : ∀ h w w' r, read_fd h w = (w', r) →
    files w' = files w ∧ journal w' = journal w ∧ (∀ c, r = Ok c → option_map fst (files w (fd_place h)) = Some c);
  write_fd_law : ∀ h c w w' r, write_fd h c w = (w', r) →
    journal w' = journal w ∧ (∀ q, q ≠ fd_place h → files w' q = files w q) ∧
    (∀ u m, r = Ok u → files w (fd_place h) = Some (EmptyString, m) → files w' (fd_place h) = Some (c, m));
  fchmod_law : ∀ h m w w' r, fchmod h m w = (w', r) →
    journal w' = journal w ∧
    match r with
    | Ok _ => (∀ q, q ≠ fd_place h → files w' q = files w q) ∧
              ∀ c m0, files w (fd_place h) = Some (c, m0) → files w' (fd_place h) = Some (c, permission_bits m)
    | Err _ => files w' = files w
    end;
  sync_fd_law : ∀ d w w' r, sync_fd d w = (w', r) → files w' = files w ∧ journal w' = journal w;
  renameat_law : ∀ d x y w w' r, renameat d x y w = (w', r) →
    journal w' = journal w ∧
    match r with
    | Ok _ => ∀ c, files w (fd_place d ++ [x]) = Some c → x ≠ y →
        files w' (fd_place d ++ [y]) = Some c ∧
        ∀ q, q ≠ fd_place d ++ [x] → q ≠ fd_place d ++ [y] → files w' q = files w q
    | Err _ => files w' = files w
    end;
  unlinkat_law : ∀ d n dir w w' r, unlinkat d n dir w = (w', r) →
    journal w' = journal w ∧
    match r with
    | Ok _ => if (dir : bool) then files w' = files w
              else files w' (fd_place d ++ [n]) = None ∧ ∀ q, q ≠ fd_place d ++ [n] → files w' q = files w q
    | Err e => files w' = files w ∧ (e = NotFound → dir = false → files w (fd_place d ++ [n]) = None)
    end;
  next_temp_law : ∀ w w' x, next_temp w = (w', x) → files w' = files w ∧ journal w' = journal w;
}.

Section files_spec.
Context {W Fd : Type} `{T : !TxnFs W Fd}.
Context (root : string) (files : W → list string → option file_image) (journal : W → option string) (fd_place : Fd → list string).
Context `{L : !TxnFsLaws T root files journal fd_place}.

Definition seen_at (vis : list string → Prop) (w : W) (a : astate) : Prop :=
  journal w = a_journal a ∧ ∀ q, vis q → files w q = a_files a q.
Abbreviation seen := (seen_at visible).
Abbreviation seen_all := (seen_at (fun _ => True)).

(** A parent with a name, as a path *)
Definition denotes (p : SecureParent Fd) (q : list string) : Prop := fd_place (sp_directory p) ++ [sp_name p] = q.

Lemma quiet_of {vis E U} (m : io W E U) :
  (∀ w w' r, m w = (w', r) → files w' = files w ∧ journal w' = journal w) → quiet (seen_at vis) m.
Proof.
  intros H a Q HQ w w' r [H1 H2] Hm. destruct (H _ _ _ Hm) as [Hf Hj]. exists a. split; [|apply HQ].
  split; [by rewrite Hj|]. intros q Hq. rewrite Hf. by apply H2.
Qed.

Lemma seen_files {vis} w w' a : seen_at vis w a → files w' = files w → journal w' = journal w → seen_at vis w' a.
Proof. intros [H1 H2] Hf Hj. split; [by rewrite Hj|]. intros q Hq. rewrite Hf. by apply H2. Qed.

Lemma does_dup d a (Q : astate → result Fd ErrorKind → Prop) :
  (∀ d', fd_place d' = fd_place d → Q a (Ok d')) → (∀ e, Q a (Err e)) → does seen (dup_fd d) a Q.
Proof.
  intros H1 H2 w w' r Hw Hm. destruct (dup_law _ _ _ _ Hm) as (Hf & Hj & Hd). exists a. split; [by eapply seen_files|].
  destruct r as [d'|e]; [by apply H1, Hd|apply H2].
Qed.

Lemma does_open_root a (Q : astate → result Fd ErrorKind → Prop) :
  (∀ d, fd_place d = [] → Q a (Ok d)) → (∀ e, Q a (Err e)) → does seen (open_root_dir root) a Q.
Proof.
  intros H1 H2 w w' r Hw Hm. destruct (open_root_law _ _ _ Hm) as (Hf & Hj & Hd). exists a. split; [by eapply seen_files|].
  destruct r as [d'|e]; [by apply H1, Hd|apply H2].
Qed.

Lemma does_openat_directory d n a (Q : astate → result Fd ErrorKind → Prop) :
  (∀ d', fd_place d' = fd_place d ++ [n] → Q a (Ok d')) →
  ((∀ q, visible (fd_place d ++ n :: q) → a_files a (fd_place d ++ n :: q) = None) → Q a (Err NotFound)) →
  (∀ e, e ≠ NotFound → Q a (Err e)) → does seen (openat_directory d n) a Q.
Proof.
  intros H1 H2 H3 w w' r Hw Hm. destruct (openat_directory_law _ _ _ _ _ Hm) as (Hf & Hj & Hd & Hn).
  exists a. split; [by eapply seen_files|]. destruct r as [d'|e]; [by apply H1, Hd|].
  destruct (decide (e = NotFound)) as [->|He]; [|by apply H3]. apply H2. intros q Hq.
  rewrite <- (proj2 Hw) by done. by apply Hn.
Qed.

(** *** Parents *)

Lemma strip_not_visible d n (q : list string) : visible (d ++ n :: q) → visible (n :: q).
Proof. unfold visible. destruct q as [|x q]; [by rewrite last_snoc|]. by rewrite last_app_cons. Qed.

(** The loop of [secure_parent] ends at the parent that the components name,
    or at a directory that is missing. *)
Lemma does_secure_walk rel parts : ∀ d display create a created (Q : astate * list string → _ → Prop),
  forallb is_normal_component parts = true →
  (∀ p created', denotes p (fd_place d ++ omap component_name parts) → Q (a, created') (Ok (Some p))) →
  (∀ created', (visible (fd_place d ++ omap component_name parts) →
                a_files a (fd_place d ++ omap component_name parts) = None) → Q (a, created') (Ok None)) →
  (∀ created' e, Q (a, created') (Err e)) →
  does (local seen (list string)) (secure_walk root rel parts d display create) (a, created) Q.
Proof.
  induction parts as [|[| | |n] rest IH]; intros d display create a created Q Hn H1 H2 H3; try done; cbn [secure_walk].
  { by apply does_throw. }
  apply does_fail_if; [by intros _|intros _]. destruct rest as [|c rest]; [by apply does_ret, H1|].
  assert (∀ d', fd_place d' = fd_place d ++ [n] → ∀ created',
    does (local seen (list string)) (secure_walk root rel (c :: rest) d' (join_path display n) create) (a, created') Q) as Hnext.
  { intros d' Hd' created'. assert (fd_place d' ++ omap component_name (c :: rest)
      = fd_place d ++ omap component_name (Normal n :: c :: rest)) as E by (rewrite Hd', <- app_assoc; done).
    apply IH; [done|rewrite E; done|rewrite E; done|done]. }
  set (next := secure_walk root rel (c :: rest)) in *.
  intros s s' r Hs Hm. set (m := with_local _) in Hm. revert s s' r Hs Hm.
  cut (does (local seen (list string)) (fun s => let '(s1, r) := m s in
         match r with
         | Ok d' => next d' (join_path display n) create
         | Err (WIo _ NotFound) =>
             if create then
               do? _ := with_local (at_path (join_path display n) (mkdirat d n)) in
               do? _ := with_local (at_path (parent_path (join_path display n)) (sync_fd d)) in
               do? _ := (fun '(w, created) => ((w, created ++ [join_path display n]), Ok tt)) in
               do? d' := with_local (open_directory_at d n (join_path display n)) in
               next d' (join_path display n) create
             else io_ret None
         | Err e => io_throw e
         end s1) (a, created) Q).
  { intros H s s' r Hs Hm. apply (H s s' r Hs). rewrite <- Hm. destruct (m s) as [s1 [d'|[]]]; try done.
    destruct source; by try destruct create. }
  apply does_then. unfold m, open_directory_at. apply does_with_local, does_at_path, does_openat_directory.
  - intros d' Hd'. by apply Hnext.
  - intros Hnone. cbn. destruct create.
    + apply does_bind, does_with_local, does_at_path, (quiet_of (mkdirat d n)); [by apply mkdirat_law|].
      intros [u|e]; cbn; [|apply H3].
      apply does_bind, does_with_local, does_at_path, (quiet_of (sync_fd d)); [by apply sync_fd_law|].
      intros [u'|e]; cbn; [|apply H3]. apply does_bind.
      intros [w0 c0] w' r [Hw E] [= <- <-]. cbn in Hw, E. subst c0. exists (a, created ++ [join_path display n]).
      split; [done|]. apply does_bind, does_with_local, does_at_path, does_openat_directory; cbn.
      * intros d' Hd'. by apply Hnext.
      * intros _. apply H3.
      * intros e _. apply H3.
    + apply does_ret, H2. change (omap component_name (Normal n :: c :: rest)) with (n :: omap component_name (c :: rest)).
      apply Hnone.
  - intros e He. destruct e; [done|by apply does_throw, H3..].
Qed.

Lemma does_secure_parent d target create a created (Q : astate * list string → _ → Prop) : fd_place d = [] →
  (∀ p created', denotes p (path_of target) → Q (a, created') (Ok (Some p))) →
  (∀ created', (visible (path_of target) → a_files a (path_of target) = None) → Q (a, created') (Ok None)) →
  (∀ created' e, Q (a, created') (Err e)) →
  does (local seen (list string)) (secure_parent root d target create) (a, created) Q.
Proof.
  intros Hd H1 H2 H3. unfold secure_parent. apply does_fail_if; [intros _; apply H3|].
  intros [_ Hn%negb_false_iff]%orb_false_iff.
  apply does_bind, does_with_local, does_at_path, does_dup; [|by intros e; apply H3].
  intros d' Hd'. cbn. rewrite Hd in Hd'. apply does_secure_walk; [done|rewrite Hd'; done|rewrite Hd'; done|done].
Qed.

Lemma does_find_parent d target a (Q : astate → _ → Prop) : fd_place d = [] →
  (∀ p, denotes p (path_of target) → Q a (Ok (Some p))) →
  ((visible (path_of target) → a_files a (path_of target) = None) → Q a (Ok None)) →
  (∀ e, Q a (Err e)) →
  does seen (find_parent root d target) a Q.
Proof.
  intros Hd H1 H2 H3. unfold find_parent. apply does_run, does_secure_parent; [done|..]; intros; cbn; auto.
Qed.

(** *** Reading *)

Lemma does_stat_at p q a (Q : astate → result (option FileMeta) ErrorKind → Prop) : denotes p q →
  (∀ m, Q a (Ok (Some m))) → ((visible q → a_files a q = None) → Q a (Ok None)) → (∀ e, Q a (Err e)) →
  does seen (stat_at p) a Q.
Proof.
  intros Hp H1 H2 H3 w w' r Hw Hm. unfold stat_at in Hm.
  destruct (fstatat (sp_directory p) (sp_name p) w) as [w1 r1] eqn:E1.
  destruct (fstatat_law _ _ _ _ _ E1) as (Hf & Hj & Hn). rewrite Hp in Hn.
  assert (seen w1 a) as Hw1 by (by eapply seen_files).
  destruct r1 as [m|[]]; injection Hm as <- <-; exists a; (split; [done|auto]).
  apply H2. intros Hv. rewrite <- (proj2 Hw) by done. by apply Hn.
Qed.

(** What a read is of, and what a write leaves *)
Definition image_of (read : string * N) : file_image := (read.1, permission_bits read.2).
Definition written (content : string) (permissions : option N) (executable : bool) : file_image :=
  (content, permission_bits (new_mode permissions executable)).

Lemma does_read_at p q path a (Q : astate → _ → Prop) : denotes p q → visible q →
  (∀ x, option_map image_of x = a_files a q → Q a (Ok x)) → (∀ e, Q a (Err e)) → does seen (read_at p path) a Q.
Proof.
  intros Hp Hv H1 H2. unfold read_at. apply does_bind, does_at_path, (does_stat_at _ q); [done|..].
  - intros m. cbn. apply does_bind, does_lift. destruct (validate_target_metadata path m); [|apply H2].
    apply does_bind, does_at_path. intros w w' r Hw Hm.
    destruct (openat_read_law _ _ _ _ _ Hm) as (Hf & Hj & Hd). exists a. split; [by eapply seen_files|].
    destruct r as [h|e]; [|apply H2]. cbn. specialize (Hd _ eq_refl). rewrite Hp in Hd.
    apply does_bind, does_at_path. intros w0 w0' r0 Hw0 Hm0.
    destruct (fd_metadata_law _ _ _ _ Hm0) as (Hf0 & Hj0 & Hbits). exists a. split; [by eapply seen_files|].
    rewrite Hd in Hbits. destruct r0 as [m'|e]; [|apply H2]. cbn. specialize (Hbits m').
    apply does_bind, does_lift. destruct (validate_target_metadata path m'); [|apply H2].
    apply does_bind, does_at_path. intros w1 w1' r1 Hw1 Hm1.
    destruct (read_fd_law _ _ _ _ Hm1) as (Hf1 & Hj1 & Hc). exists a. split; [by eapply seen_files|].
    destruct r1 as [c|e]; [|apply H2]. cbn. specialize (Hc _ eq_refl). rewrite Hd, (proj2 Hw1) in Hc by done.
    rewrite (proj2 Hw0) in Hbits by done.
    apply does_ret, H1. cbn. destruct (a_files a q) as [[c' b]|]; [|done]. injection Hc as ->.
    specialize (Hbits (c, b) eq_refl eq_refl). cbn in Hbits. by rewrite Hbits.
  - intros Hn. cbn. apply does_ret, H1. symmetry. by apply Hn.
  - intros e. apply H2.
Qed.

Lemma does_read_content p q path a (Q : astate → _ → Prop) : denotes p q → visible q →
  Q a (Ok (option_map fst (a_files a q))) → (∀ e, Q a (Err e)) → does seen (read_content p path) a Q.
Proof.
  intros Hp Hv H1 H2. unfold read_content. apply does_bind, (does_read_at _ q); [done|done|..].
  - intros x Hx. apply does_ret. rewrite <- Hx in H1. by destruct x as [[]|].
  - done.
Qed.

(** *** Replacing and removing *)

Lemma temp_not_visible d n : starts_with TEMP_PREFIX n = true → ¬ visible (d ++ [n]).
Proof. unfold visible. rewrite last_snoc. congruence. Qed.

(** The calls that change files, with the temporary ones in view *)
Lemma does_write_fd h c m a (Q : astate → result unit ErrorKind → Prop) :
  a_files a (fd_place h) = Some (EmptyString, m) →
  Q (upd (fd_place h) (Some (c, m)) a) (Ok tt) → (∀ x e, Q (upd (fd_place h) x a) (Err e)) → does seen_all (write_fd h c) a Q.
Proof.
  intros Hz H1 H2 w w' r Hw Hm. destruct (write_fd_law _ _ _ _ _ Hm) as (Hj & Ho & Hc).
  exists (upd (fd_place h) (files w' (fd_place h)) a). split.
  - split; [rewrite Hj; apply Hw|]. intros q _. cbn. case_bool_decide as E; [by subst q|]. rewrite Ho by done. by apply Hw.
  - destruct r as [[]|e]; [|apply H2]. rewrite (Hc _ m eq_refl); [done|]. rewrite (proj2 Hw) by done. done.
Qed.

Lemma does_fchmod h mode c m a (Q : astate → result unit ErrorKind → Prop) :
  a_files a (fd_place h) = Some (c, m) →
  Q (upd (fd_place h) (Some (c, permission_bits mode)) a) (Ok tt) → (∀ e, Q a (Err e)) → does seen_all (fchmod h mode) a Q.
Proof.
  intros Hz H1 H2 w w' r Hw Hm. destruct (fchmod_law _ _ _ _ _ Hm) as (Hj & Hf). destruct r as [[]|e].
  - destruct Hf as [Ho Hc]. eexists. split; [|exact H1]. split; [rewrite Hj; apply Hw|]. intros q _. cbn.
    case_bool_decide as E; [|rewrite Ho by done; by apply Hw]. subst q. apply (Hc c m). by rewrite (proj2 Hw).
  - exists a. split; [by eapply seen_files|apply H2].
Qed.

Lemma does_renameat d x y c a (Q : astate → result unit ErrorKind → Prop) :
  a_files a (fd_place d ++ [x]) = Some c → x ≠ y →
  (∀ z, Q (upd (fd_place d ++ [y]) (Some c) (upd (fd_place d ++ [x]) z a)) (Ok tt)) → (∀ e, Q a (Err e)) →
  does seen_all (renameat d x y) a Q.
Proof.
  intros Hc Hxy H1 H2 w w' r Hw Hm. destruct (renameat_law _ _ _ _ _ _ Hm) as (Hj & Hf). destruct r as [[]|e].
  - destruct (Hf c) as [Hy Ho]; [by rewrite (proj2 Hw)|done|].
    eexists. split; [|apply (H1 (files w' (fd_place d ++ [x])))]. split; [rewrite Hj; apply Hw|]. intros q _. cbn.
    case_bool_decide as E1; [by subst q|]. case_bool_decide as E2; [by subst q|]. rewrite Ho by done. by apply Hw.
  - exists a. split; [by eapply seen_files|apply H2].
Qed.

(** The temporary file [t] aside, [q] is replaced or nothing is. *)
Definition replaced (t q : list string) (content : file_image) (a a' : astate) (done : bool) : Prop :=
  a_journal a' = a_journal a ∧
  ∀ x, x ≠ t → a_files a' x = if done && bool_decide (x = q) then Some content else a_files a x.

Lemma does_write_temp p q path temp temp_name content permissions executable a :
  let t := fd_place (sp_directory p) ++ [temp_name] in
  let new := written content permissions executable in
  denotes p q → temp_name ≠ sp_name p → fd_place temp = t → (∃ m, a_files a t = Some (EmptyString, m)) →
  does seen_all (write_temp p path temp temp_name content permissions executable) a
    (fun a' r => replaced t q new a a' true ∨ (∃ e, r = Err e) ∧ replaced t q new a a' false).
Proof.
  intros t new Hp Hname Ht [m0 Hz]. assert (t ≠ q) as Htq by (intros E; apply (f_equal last) in E; unfold t in E; rewrite <- Hp, !last_snoc in E; congruence).
  assert (∀ b e, (∀ y, y ≠ t → a_files b y = a_files a y) → a_journal b = a_journal a →
    (∃ e', Err (T := unit) e = Err (E := WorkspaceError) e') ∧ replaced t q new a b false) as Hkept.
  { intros b e Hb Hj. split; [eauto|]. by split. }
  assert (∀ x, ∀ y, y ≠ t → a_files (upd t x a) y = a_files a y) as Hu1 by (intros; by rewrite upd_ne).
  assert (∀ x z, ∀ y, y ≠ t → a_files (upd t x (upd t z a)) y = a_files a y) as Hu2 by (intros; by rewrite !upd_ne).
  unfold write_temp. rewrite <- Ht in Hz, Hkept, Hu1, Hu2 |- *.
  apply does_bind, does_at_path, (does_write_fd _ _ m0); [done| |intros; right; apply Hkept; auto]. cbn.
  apply does_bind, does_at_path, quiet_of; [by apply sync_fd_law|]. intros [u|e]; [cbn|right; apply Hkept; auto].
  apply does_bind, does_at_path, (does_fchmod _ _ content m0); [by rewrite upd_eq| |intros; right; apply Hkept; auto]. cbn.
  apply does_bind, does_at_path, quiet_of.
  { intros w w' r. unfold stat_at. destruct (fstatat _ _ w) as [w1 r1] eqn:E1. apply fstatat_law in E1 as (Hf & Hj & _).
    by destruct r1 as [m|[]]; intros [= <- <-]. }
  intros [m|e]; [cbn|right; apply Hkept; auto]. apply does_bind, does_lift.
  destruct (match m with Some _ => _ | None => _ end); [|right; apply Hkept; auto].
  apply does_bind, does_at_path, (does_renameat _ _ _ new); [by fold t; rewrite <- Ht, upd_eq|done| |intros; right; apply Hkept; auto].
  intros z. cbn. apply does_at_path, quiet_of; [by apply sync_fd_law|]. intros r. left. split; [done|].
  intros x Hx. cbn. rewrite Hp. fold t. rewrite <- Ht. case_bool_decide; [done|]. by rewrite !bool_decide_false.
Qed.

(** A file is replaced, or it is left as it was; an error may come after the
    file was replaced. *)
Lemma does_write_at p q path content permissions executable a (Q : astate → _ → Prop) : denotes p q → visible q →
  let new := written content permissions executable in
  Q (upd q (Some new) a) (Ok tt) → (∀ e, Q a (Err e)) → (∀ e, Q (upd q (Some new) a) (Err e)) →
  does seen (write_at p path content permissions executable) a Q.
Proof.
  intros Hp Hv new H1 H2 H3 w w' r Hw Hm. unfold write_at in Hm.
  destruct (next_temp w) as [w0 [process sequence]] eqn:E0. apply next_temp_law in E0 as [Hf0 Hj0].
  remember (TEMP_PREFIX +:+ process +:+ "-" +:+ sequence) as temp_name eqn:Etemp.
  assert (¬ visible (fd_place (sp_directory p) ++ [temp_name])) as Hnv.
  { apply temp_not_visible, starts_with_spec. rewrite Etemp. by exists (process +:+ "-" +:+ sequence). }
  assert (temp_name ≠ sp_name p) as Hname by (intros E; apply Hnv; by rewrite E, Hp).
  assert (Hw0 : seen w0 a) by (by eapply seen_files).
  destruct (openat_create (sp_directory p) temp_name w0) as [w1 r1] eqn:E1. unfold at_path in Hm. rewrite E1 in Hm.
  apply openat_create_law in E1 as [Hj1 Hc1]. destruct r1 as [temp|e]; cbn in Hm.
  2:{ injection Hm as <- <-. exists a. split; [by eapply seen_files|apply H2]. }
  destruct Hc1 as (Hp1 & Hz1 & Ho1).
  destruct (write_temp p path temp temp_name content permissions executable w1) as [w2 r2] eqn:E2.
  destruct (does_write_temp p q path temp temp_name content permissions executable (mk_astate (files w1) (journal w1))
    Hp Hname Hp1 ltac:(by rewrite <- Hp1) w1 w2 r2 ltac:(done) E2) as (a2 & Hw2 & Hr2). rewrite <- Hp1 in Hr2, Hnv.
  (* what is seen in a world that differs from the last one in the temporary file alone *)
  assert (∀ w3 d, journal w3 = journal w2 → (∀ x, x ≠ fd_place temp → files w3 x = files w2 x) →
    replaced (fd_place temp) q new (mk_astate (files w1) (journal w1)) a2 d →
    seen w3 (if d then upd q (Some new) a else a)) as Hseen.
  { intros w3 d Hj3 Hf3 [Hj Hx]. destruct Hw2 as [Hja Hfa], Hw0 as [Hjb Hfb]. cbn in Hj, Hx. split.
    - by destruct d; cbn; rewrite Hj3, Hja, Hj, Hj1.
    - intros x Hv'. assert (x ≠ fd_place temp) by (by intros ->). rewrite Hf3, Hfa, Hx, Ho1 by done.
      destruct d; cbn; [|by apply Hfb]. case_bool_decide; [done|]. by apply Hfb. }
  destruct r2 as [[]|e].
  { injection Hm as <- <-. destruct Hr2 as [Hr2|[[e ?] _]]; [|done]. exists (upd q (Some new) a). split; [|done].
    by apply (Hseen w2 true). }
  destruct (unlinkat (sp_directory p) temp_name false w2) as [w3 r3] eqn:E3. injection Hm as <- <-. apply unlinkat_law in E3 as [Hj3 Hf3]. rewrite <- Hp1 in Hf3.
  assert (∀ x, x ≠ fd_place temp → files w3 x = files w2 x) as Hu.
  { destruct r3 as [u|e3]; [apply Hf3|]. destruct Hf3 as [-> _]. done. }
  destruct Hr2 as [Hr2|[_ Hr2]]; eexists; (split; [exact (Hseen w3 _ Hj3 Hu Hr2)|]); [apply H3|apply H2].
Qed.

Lemma does_unlink_at p q path a (Q : astate → _ → Prop) : denotes p q → visible q →
  Q (upd q None a) (Ok tt) → (∀ e, Q a (Err e)) → (∀ e, Q (upd q None a) (Err e)) →
  does seen (unlink_at p path false) a Q.
Proof.
  intros Hp Hv H1 H2 H3 w w' r Hw Hm. unfold unlink_at in Hm.
  destruct (unlinkat _ _ false w) as [w1 r1] eqn:E1. apply unlinkat_law in E1 as [Hj1 Hf1]. rewrite Hp in Hf1.
  assert (∀ w2, journal w2 = journal w → files w2 q = None → (∀ x, x ≠ q → files w2 x = files w x) →
    seen w2 (upd q None a)) as Hgone.
  { intros w2 Hj2 Hn Ho. split; [rewrite Hj2; apply Hw|]. intros x Hx. cbn. case_bool_decide as E; [by subst x|].
    rewrite Ho by done. by apply Hw. }
  destruct r1 as [u|e].
  - unfold at_path in Hm. destruct (sync_fd _ w1) as [w2 r2] eqn:E2. apply sync_fd_law in E2 as [Hf2 Hj2].
    injection Hm as <- <-. exists (upd q None a).
    split; [apply Hgone; [congruence|by rewrite Hf2; apply Hf1|rewrite Hf2; apply Hf1]|]. by destruct r2 as [[]|e]; cbn.
  - destruct Hf1 as [Hf1 Hn]. destruct e; injection Hm as <- <-;
      try (exists a; split; [by eapply seen_files|apply H2]).
    exists (upd q None a). split; [|done]. apply Hgone; [done|rewrite Hf1; by apply Hn|by intros x _; rewrite Hf1].
Qed.

(** Removing a directory changes no file. *)
Lemma quiet_remove_directory p path : quiet seen (unlink_at p path true).
Proof.
  intros a Q HQ w w' r Hw Hm. exists a. split; [|apply HQ]. unfold unlink_at in Hm.
  destruct (unlinkat _ _ true w) as [w1 r1] eqn:E1. apply unlinkat_law in E1 as [Hj1 Hf1].
  assert (files w1 = files w) as Hf by (by destruct r1; [|destruct Hf1]).
  assert (seen w1 a) as Hw1 by (by eapply seen_files).
  destruct r1 as [u|e].
  - unfold at_path in Hm. destruct (sync_fd _ w1) as [w2 r2] eqn:E2. apply sync_fd_law in E2 as [Hf2 Hj2].
    injection Hm as <- <-. by eapply seen_files.
  - destruct e; injection Hm as <- <-; done.
Qed.

(** ** Before-images *)

Definition state_image (s : FileState) : option file_image :=
  match s with Missing => None | Present content permissions => Some (content, permission_bits permissions) end.
Definition paths_of (files : list (FileSnapshot Fd)) : list (list string) := map (fun x => path_of (fs_target x)) files.

(** What a file's snapshot says of the workspace [a0] *)
Definition good (a0 : astate) (x : FileSnapshot Fd) : Prop :=
  visible (path_of (fs_target x)) ∧ state_image (fs_before x) = a_files a0 (path_of (fs_target x)) ∧
  ∀ p, fs_parent x = Some p → denotes p (path_of (fs_target x)).

Lemma before_matches_spec (x : FileSnapshot Fd) current :
  file_before_matches x current = bool_decide (current = option_map fst (state_image (fs_before x))).
Proof. unfold file_before_matches, state_image. destruct (fs_before x); by apply bool_decide_ext. Qed.

Lemma state_of_read_image r : state_image (state_of_read r) = option_map image_of r.
Proof. by destruct r as [[]|]. Qed.

Lemma does_capture d mutations : ∀ a (Q : astate → _ → Prop), fd_place d = [] →
  Forall (fun m => visible (path_of (mu_target m))) mutations →
  (∀ l, Forall (good a) l → map fs_target l = map mu_target mutations → Q a (Ok l)) → (∀ e, Q a (Err e)) →
  does seen (capture_files root d mutations) a Q.
Proof.
  induction mutations as [|m rest IH]; intros a Q Hd Hv H1 H2; cbn [capture_files]; [by apply does_ret, H1|].
  apply Forall_cons in Hv as [Hv Hvs].
  assert (∀ p s, (∀ p', p = Some p' → denotes p' (path_of (mu_target m))) →
    state_image s = a_files a (path_of (mu_target m)) →
    does seen (do? l := capture_files root d rest in
               io_ret (mk_snapshot (mu_target m) (join_path root (mu_target m)) s None p :: l)) a Q) as Hrest.
  { intros p s Hp Hs. apply does_bind, IH; [done|done|..].
    - intros l Hl Hm. apply does_ret, H1; [by apply Forall_cons|]. cbn. by rewrite Hm.
    - intros e. apply H2. }
  apply does_bind, does_find_parent; [done|..].
  - intros p Hp. apply does_bind, does_bind, (does_read_at _ (path_of (mu_target m))); [done|done|..].
    + intros x Hx. apply does_ret, Hrest; [by intros p' [= <-]|]. by rewrite state_of_read_image.
    + intros e. apply H2.
  - intros Hn. apply does_bind, does_ret, Hrest; [done|]. symmetry. by apply Hn.
  - intros e. apply H2.
Qed.

Lemma does_capture_snapshot d mutations a (Q : astate → _ → Prop) : fd_place d = [] →
  Forall (fun m => visible (path_of (mu_target m))) mutations →
  (∀ s, Forall (good a) (ws_files s) → map fs_target (ws_files s) = map mu_target mutations →
        ws_workspace_root s = root → fd_place (ws_root_directory s) = [] → Q a (Ok s)) →
  (∀ e, Q a (Err e)) → does seen (capture_snapshot root d mutations) a Q.
Proof.
  intros Hd Hv H1 H2. unfold capture_snapshot. apply does_bind, does_capture; [done|done| |apply H2].
  intros l Hl Hm. apply does_bind, does_at_path, does_dup; [|intros e; apply H2].
  intros d' Hd'. cbn. apply does_ret, H1; cbn; [done..|]. by rewrite Hd'.
Qed.

(** ** Applying *)

(** The permission bits of a new content follow those of the file it
    replaces: they are kept, or made executable. *)
Definition mode_follows (before : option file_image) (mode : N) : Prop :=
  match before with
  | Some (_, m) => mode = m ∨ mode = N.lor m 73
  | None => mode = 420%N ∨ mode = 493%N
  end.

(** Each file is as it was, or another one has followed it. *)
Definition followed (a0 a : astate) : Prop :=
  ∀ q, a_files a q = a_files a0 q ∨ ∃ c m, a_files a q = Some (c, m) ∧ mode_follows (a_files a0 q) m.

(** A file as it was, but that it may have been made executable *)
Definition near (before now : option file_image) : Prop :=
  now = before ∨ ∃ c m, before = Some (c, m) ∧ now = Some (c, N.lor m 73).

Lemma near_refl x : near x x.
Proof. by left. Qed.

(** Content that is back, on a file that followed it *)
Lemma followed_near a0 a q : followed a0 a → option_map fst (a_files a q) = option_map fst (a_files a0 q) →
  near (a_files a0 q) (a_files a q).
Proof.
  intros H E. destruct (H q) as [->|(c & m & Ha & Hm)]; [apply near_refl|]. rewrite Ha in E |- *.
  destruct (a_files a0 q) as [[c0 m0]|] eqn:E0; [|done]. injection E as ->.
  destruct Hm as [->| ->]; [apply near_refl|right; by exists c0, m0].
Qed.

Lemma followed_mode a0 a q c m : followed a0 a → a_files a q = Some (c, m) → mode_follows (a_files a0 q) m.
Proof.
  intros H Ha. destruct (H q) as [E|(c' & m' & E & Hm)]; [|by simplify_eq]. rewrite <- E, Ha. by left.
Qed.

Lemma followed_refl a : followed a a.
Proof. intros q. by left. Qed.

Lemma followed_upd a0 a q x : followed a0 a →
  x = a_files a0 q ∨ (∃ c m, x = Some (c, m) ∧ mode_follows (a_files a0 q) m) → followed a0 (upd q x a).
Proof.
  intros H Hx q'. destruct (decide (q' = q)) as [->|Hne]; [by rewrite upd_eq|by rewrite upd_ne].
Qed.

Lemma written_follows (s : FileState) content executable :
  mode_follows (state_image s)
    (written content (match s with Present _ p => Some p | Missing => None end) executable).2.
Proof.
  destruct s as [|c p]; cbn.
  - destruct executable; [by right|by left].
  - unfold new_mode. cbn. destruct executable; [right|by left]. unfold permission_bits. by rewrite N.land_lor_distr_l.
Qed.

(** The snapshot is of [a0], and nothing but its targets has changed since. *)
Record intact (a0 a : astate) (s : WorkspaceSnapshot Fd) : Prop := {
  in_good : Forall (good a0) (ws_files s);
  in_journal : a_journal a = a_journal a0;
  in_others : ∀ q, q ∉ paths_of (ws_files s) → a_files a q = a_files a0 q;
  in_followed : followed a0 a;
  in_root : ws_workspace_root s = root;
  in_directory : fd_place (ws_root_directory s) = [];
}.

Lemma paths_update t f (l : list (FileSnapshot Fd)) : (∀ x, fs_target (f x) = fs_target x) → paths_of (update_file t f l) = paths_of l.
Proof. intros H. induction l as [|x l IH]; [done|]. cbn. destruct (String.eqb _ _); cbn; [by rewrite H|by f_equal]. Qed.

Lemma targets_update t f (l : list (FileSnapshot Fd)) : (∀ x, fs_target (f x) = fs_target x) →
  map fs_target (update_file t f l) = map fs_target l.
Proof. intros H. induction l as [|x l IH]; [done|]. cbn. destruct (String.eqb _ _); cbn; [by rewrite H|by f_equal]. Qed.

Lemma good_update a0 t f (l : list (FileSnapshot Fd)) :
  (∀ x, fs_target x = t → good a0 x → good a0 (f x)) → Forall (good a0) l → Forall (good a0) (update_file t f l).
Proof.
  intros H. induction 1 as [|x l Hx Hl IH]; cbn; [done|]. destruct (String.eqb_spec (fs_target x) t); apply Forall_cons; auto.
Qed.

Lemma intact_change a0 a s t f : (∀ x, fs_target (f x) = fs_target x) →
  (∀ x, fs_target x = t → good a0 x → good a0 (f x)) → intact a0 a s → intact a0 a (set_files (update_file t f (ws_files s)) s).
Proof.
  intros Ht Hf [H1 H2 H3 H4 H5 H6]. split; cbn; [by apply good_update|done| |done..]. by rewrite paths_update.
Qed.

Lemma intact_upd a0 a s q c m : q ∈ paths_of (ws_files s) → mode_follows (a_files a0 q) m → intact a0 a s →
  intact a0 (upd q (Some (c, m)) a) s.
Proof.
  intros Hq Hm [H1 H2 H3 H4 H5 H6]. split; [done..| | |done|done].
  - intros q' Hq'. rewrite upd_ne by (by intros ->). by apply H3.
  - apply followed_upd; [done|]. right. by exists c, m.
Qed.

Abbreviation local_snapshot := (local seen (WorkspaceSnapshot Fd)).

Lemma does_change_file t f a s (Q : astate * WorkspaceSnapshot Fd → result unit WorkspaceError → Prop) :
  Q (a, set_files (update_file t f (ws_files s)) s) (Ok tt) → does local_snapshot (change_file t f) (a, s) Q.
Proof. intros HQ [w s0] w' r [Hw E] [= <- <-]. cbn in Hw, E. subst s0. eexists. split; [|exact HQ]. done. Qed.

Lemma does_create_parents target a s (Q : astate * WorkspaceSnapshot Fd → _ → Prop) : fd_place (ws_root_directory s) = [] →
  (∀ created r, (∀ p, r = Ok (Some p) → denotes p (path_of target)) → Q (a, set_created created s) r) →
  does local_snapshot (create_target_parents root target) (a, s) Q.
Proof.
  intros Hd HQ [w s0] [w' s'] r [Hw E] Hm. cbn in Hw, E. subst s0. unfold create_target_parents in Hm.
  destruct (secure_parent _ _ _ _ _) as [[w1 created] r1] eqn:E1. injection Hm as <- <- <-.
  destruct (does_secure_parent _ target true a (ws_created_directories s)
    (fun p r => p.1 = a ∧ ∀ p', r = Ok (Some p') → denotes p' (path_of target)) Hd
    ltac:(intros p c Hp; split; [done|by intros p' [= <-]]) ltac:(done) ltac:(done) (w, _) _ _ (conj Hw eq_refl) E1)
    as ([a1 c1] & [H1 H2] & H3 & H4). cbn in H1, H2, H3. subst.
  exists (a, set_created c1 s). split; [done|]. by apply HQ.
Qed.

Lemma find_in (t : string) (l : list (FileSnapshot Fd)) x :
  List.find (fun x => String.eqb (fs_target x) t) l = Some x → x ∈ l ∧ fs_target x = t.
Proof. intros [Hin E%String.eqb_eq]%find_some. by rewrite list_elem_of_In. Qed.

Lemma does_apply_mutation m a0 a s : intact a0 a s →
  does local_snapshot (apply_mutation root m) (a, s)
    (fun p _ => intact a0 p.1 p.2 ∧ map fs_target (ws_files p.2) = map fs_target (ws_files s)).
Proof.
  intros HI. unfold apply_mutation. apply does_bind, does_query. intros [w s0] [_ E]. cbn in E. subst s0.
  destruct (List.find _ (ws_files s)) as [file|] eqn:Efind; cbn [ok_or]; [|done].
  apply find_in in Efind as [Hin Htarget].
  assert (good a0 file) as [Hv [Hb Hp]] by exact (proj1 (Forall_forall _ _) (in_good _ _ _ HI) file Hin).
  assert (path_of (fs_target file) ∈ paths_of (ws_files s)) as Hpath.
  { unfold paths_of. apply (list_elem_of_fmap_2 (fun x => path_of (fs_target x))). done. }
  set (t := mu_target m) in *. set (q := path_of (fs_target file)) in *.
  assert (∀ p a1 s1, (∀ p', p = Some p' → denotes p' q) → a1 = a → intact a0 a s1 → map fs_target (ws_files s1) = map fs_target (ws_files s) →
    does local_snapshot (do? parent := io_lift (ok_or p (UnsafeTarget t)) in
      do? current := with_local (read_content parent (fs_path file)) in
      io_fail_if (negb (file_before_matches file current)) (RollbackDrift (fs_path file))
      (do? _ := change_file t (set_after (mu_content m)) in
       do? _ := with_local (write_at parent (fs_path file) (mu_content m)
                 match fs_before file with Present _ p => Some p | Missing => None end (mu_executable m)) in
       do? current := with_local (read_content parent (fs_path file)) in
       io_fail_if (negb (bool_decide (current = Some (mu_content m)))) (RollbackDrift (fs_path file)) (io_ret tt)))
      (a1, s1) (fun p _ => intact a0 p.1 p.2 ∧ map fs_target (ws_files p.2) = map fs_target (ws_files s))) as Hrest.
  { intros [p|] a1 s1 Hp1 -> HI1 Ht1; apply does_bind, does_lift; cbn; [|done]. specialize (Hp1 _ eq_refl).
    apply does_bind, does_with_local, (does_read_content p q); [done|done| |done]. cbn.
    apply does_fail_if; [done|intros _]. apply does_bind, does_change_file.
    set (s2 := set_files _ s1).
    assert (intact a0 a s2 ∧ map fs_target (ws_files s2) = map fs_target (ws_files s)) as [HI2 Ht2].
    { split; [by apply intact_change|]. unfold s2. cbn. by rewrite targets_update. }
    assert (intact a0 (upd q (Some (written (mu_content m) match fs_before file with Present _ p => Some p | Missing => None end
      (mu_executable m))) a) s2) as HI3.
    { apply intact_upd; [|rewrite <- Hb; exact (written_follows (fs_before file) (mu_content m) (mu_executable m))|done]. unfold q, paths_of. rewrite <- (map_map fs_target path_of), Ht2, map_map. done. }
    apply does_bind, does_with_local, (does_write_at p q); [done|done| |done|done].
    apply does_bind, does_with_local, (does_read_content p q); [done|done| |done]. cbn.
    by apply does_fail_if; [|intros _; apply does_ret]. }
  apply does_bind. destruct (fs_parent file) as [p|] eqn:Ep.
  - apply does_ret, Hrest; [intros p' [= <-]; by apply Hp|done..].
  - apply does_bind, does_create_parents; [apply HI|]. intros created r Hr.
    assert (intact a0 a (set_created created s)) as HI1 by (destruct HI; by split).
    destruct r as [p|e]; [|done]. apply does_bind, does_change_file, does_ret, Hrest.
    + intros p' ->. unfold q. rewrite Htarget. by apply Hr.
    + done.
    + apply intact_change; [done| |done]. intros x Hx (Hv' & Hb' & _). split; [done|split; [done|]]. cbn.
      intros p' ->. rewrite Hx. by apply Hr.
    + cbn. by rewrite targets_update.
Qed.

Lemma does_apply_mutations mutations a0 a s : intact a0 a s →
  does local_snapshot (apply_mutations root mutations) (a, s)
    (fun p _ => intact a0 p.1 p.2 ∧ map fs_target (ws_files p.2) = map fs_target (ws_files s)).
Proof.
  revert a s. induction mutations as [|m rest IH]; intros a s HI; cbn [apply_mutations]; [by apply does_ret|].
  apply does_bind. eapply does_weaken; [by apply (does_apply_mutation m a0)|]. cbn. intros [a1 s1] [[]|e] [HI1 Ht1]; [|done].
  eapply does_weaken; [by apply IH|]. cbn. intros [a2 s2] _ [HI2 Ht2]. by rewrite Ht2.
Qed.

(** After the check every file holds what was to be written. *)
Definition holds_after (a : astate) (x : FileSnapshot Fd) : Prop :=
  ∃ content, fs_after x = Some content ∧ option_map fst (a_files a (path_of (fs_target x))) = Some content.

Lemma does_verify_files a0 a (l : list (FileSnapshot Fd)) (Q : astate → result unit WorkspaceError → Prop) :
  Forall (good a0) l → (Forall (holds_after a) l → Q a (Ok tt)) → (∀ e, Q a (Err e)) → does seen (verify_files l) a Q.
Proof.
  intros Hl. revert Q. induction Hl as [|x l (Hv & _ & Hp) Hl IH]; intros Q H1 H2; cbn [verify_files]; [by apply does_ret, H1|].
  apply does_bind, does_lift. destruct (fs_parent x) as [p|] eqn:Ep; cbn; [|apply H2].
  apply does_bind, (does_read_content p (path_of (fs_target x))); [by apply Hp|done| |intros; apply H2].
  apply does_bind, does_lift. destruct (option_map fst (a_files a (path_of (fs_target x)))) as [c|] eqn:Ec; cbn; [|apply H2].
  apply does_fail_if; [intros _; apply H2|]. intros E%negb_false_iff%bool_decide_eq_true.
  apply IH; [|done]. intros Hall. apply H1, Forall_cons. split; [by exists c|done].
Qed.

Lemma does_finalize a0 a s (Q : astate * WorkspaceSnapshot Fd → result unit WorkspaceError → Prop) :
  Forall (good a0) (ws_files s) → (Forall (holds_after a) (ws_files s) → Q (a, set_finalized s) (Ok tt)) →
  (∀ e, Q (a, s) (Err e)) → does local_snapshot finalize_snapshot (a, s) Q.
Proof.
  intros Hg H1 H2 [w s0] w' r [Hw E] Hm. cbn in Hw, E. subst s0. unfold finalize_snapshot in Hm.
  destruct (verify_files (ws_files s) w) as [w1 r1] eqn:E1.
  destruct (does_verify_files a0 a (ws_files s) (fun a' r => a' = a ∧ (r = Ok tt → Forall (holds_after a) (ws_files s)))
    Hg ltac:(done) ltac:(done) _ _ _ Hw E1) as (a' & Hw1 & -> & Hr).
  destruct r1 as [[]|e]; injection Hm as <- <-; eexists (a, _); (split; [done|]); auto.
Qed.

(** ** Restoring *)

(** What a round may do: put a before-image back. *)
Definition only_restores (a0 a a' : astate) (qs : list (list string)) : Prop :=
  a_journal a' = a_journal a ∧
  ∀ q, a_files a' q = a_files a q ∨ q ∈ qs ∧ a_files a' q = a_files a0 q.

Lemma only_restores_refl a0 a qs : only_restores a0 a a qs.
Proof. split; auto. Qed.

Lemma only_restores_one a0 a q qs : q ∈ qs → only_restores a0 a (upd q (a_files a0 q) a) qs.
Proof.
  intros Hq. split; [done|]. intros q'. destruct (decide (q' = q)) as [->|Hne]; [right; by rewrite upd_eq|left; by rewrite upd_ne].
Qed.

Lemma only_restores_trans a0 a1 a2 a3 qs qs' : only_restores a0 a1 a2 qs → only_restores a0 a2 a3 qs' →
  only_restores a0 a1 a3 (qs ++ qs').
Proof.
  intros [J1 H1] [J2 H2]. split; [congruence|]. intros q. setoid_rewrite elem_of_app.
  destruct (H2 q) as [->|[? ->]]; [|auto]. destruct (H1 q) as [->|[? ->]]; auto.
Qed.

Lemma only_restores_keep a0 a a' qs q : only_restores a0 a a' qs → near (a_files a0 q) (a_files a q) →
  near (a_files a0 q) (a_files a' q).
Proof. intros [_ H] E. destruct (H q) as [->|[_ ->]]; [done|apply near_refl]. Qed.

Lemma only_restores_followed a0 a a' qs : only_restores a0 a a' qs → followed a0 a → followed a0 a'.
Proof. intros [_ H] Hf q. destruct (H q) as [->|[_ ->]]; [apply Hf|by left]. Qed.

(** A before-image is written back with its content and its permissions. *)
Lemma does_restore_before a0 a (x : FileSnapshot Fd) p : good a0 x → denotes p (path_of (fs_target x)) →
  does seen (restore_before x p) a (fun a' r =>
    a' = upd (path_of (fs_target x)) (a_files a0 (path_of (fs_target x))) a ∨ a' = a ∧ ∃ e, r = Err e).
Proof.
  intros (Hv & Hb & _) Hp. unfold restore_before. destruct (fs_before x) as [|content permissions]; cbn in Hb; rewrite <- Hb.
  - apply (does_unlink_at p (path_of (fs_target x))); eauto.
  - apply (does_write_at p (path_of (fs_target x)) _ content (Some permissions) false); cbv zeta; eauto.
Qed.

(** An effect that succeeded is verified by a read. *)
Lemma does_restore_file a0 a (x : FileSnapshot Fd) first_error : good a0 x → followed a0 a →
  does seen (restore_file x first_error) a (fun a' r =>
    only_restores a0 a a' [path_of (fs_target x)] ∧
    (r = Ok None → first_error = None ∧ near (a_files a0 (path_of (fs_target x))) (a_files a' (path_of (fs_target x))))).
Proof.
  intros Hgood Hfol. pose proof Hgood as (Hv & Hb & Hp). unfold restore_file. set (q := path_of (fs_target x)) in *.
  assert (q ∈ [q]) as Hq by (by apply list_elem_of_singleton).
  apply does_bind, does_lift. destruct (fs_parent x) as [p|] eqn:Ep; cbn; [|split; [apply only_restores_refl|done]].
  apply does_bind, (does_read_content p q); [by apply Hp|done| |intros e; split; [apply only_restores_refl|done]].
  rewrite before_matches_spec, Hb. case_bool_decide as E1.
  { apply does_ret. split; [apply only_restores_refl|]. intros [= ->]. split; [done|]. by apply followed_near. }
  case_bool_decide as E2; cbn.
  2:{ apply does_ret. split; [apply only_restores_refl|]. by destruct first_error. }
  intros w w' r' Hw Hm. destruct (restore_before x p w) as [w1 r] eqn:E3.
  destruct (does_restore_before a0 a x p Hgood (Hp _ eq_refl) _ _ _ Hw E3) as (a' & Hw1 & Ha'). fold q in Ha'.
  assert (only_restores a0 a a' [q]) as Hor.
  { destruct Ha' as [->|[-> _]]; [by apply only_restores_one|apply only_restores_refl]. }
  assert (does seen (do? verified := read_content p (fs_path x) in
     io_ret (if file_before_matches x verified then first_error else or_first first_error (RollbackDrift (fs_path x)))) a'
    (fun a'' r' => only_restores a0 a a'' [q] ∧ (r' = Ok None → first_error = None ∧ near (a_files a0 q) (a_files a'' q)))) as Hcheck.
  { apply does_bind, (does_read_content p q); [by apply Hp|done| |done]. apply does_ret. split; [done|].
    rewrite before_matches_spec, Hb. case_bool_decide; [|by destruct first_error]. intros [= ->]. split; [done|].
    apply followed_near; [|done]. by eapply only_restores_followed. }
  destruct r as [u|e]; [by apply (Hcheck w1)|]. destruct first_error; [by apply (Hcheck w1)|].
  injection Hm as <- <-. by exists a'.
Qed.

Lemma does_restore_files a0 (l : list (FileSnapshot Fd)) : ∀ a first_error, Forall (good a0) l → followed a0 a →
  does seen (restore_files l first_error) a (fun a' r =>
    only_restores a0 a a' (paths_of l) ∧
    (r = Ok None → first_error = None ∧ ∀ q, q ∈ paths_of l → near (a_files a0 q) (a_files a' q))).
Proof.
  induction l as [|x l IH]; intros a first_error Hl Hfol; cbn [restore_files].
  { apply does_ret. split; [apply only_restores_refl|]. intros [= ->]. split; [done|]. by intros q ?%not_elem_of_nil. }
  apply Forall_cons in Hl as [Hx Hl]. apply does_bind. eapply does_weaken; [by apply (does_restore_file a0)|]. cbn.
  intros a1 r [H1 H2]. destruct r as [first'|e].
  2:{ split; [|done]. apply (only_restores_trans _ _ _ _ [_] (paths_of l) H1), only_restores_refl. }
  eapply does_weaken; [apply IH; [done|by eapply only_restores_followed]|]. cbn. intros a2 r [H3 H4].
  split; [by eapply (only_restores_trans _ _ _ _ [_])|].
  intros Hr. destruct (H4 Hr) as [-> H5]. destruct (H2 eq_refl) as [-> H6]. split; [done|].
  intros q [->|Hq]%elem_of_cons; [by eapply only_restores_keep|by apply H5].
Qed.

Lemma does_remove_created s a : fd_place (ws_root_directory s) = [] → ws_workspace_root s = root →
  ∀ directories w, seen w a → seen (fold_left (fun w directory => remove_created s directory w) directories w) a.
Proof.
  intros Hd Hr. induction directories as [|d l IH]; intros w Hw; [done|]. cbn. apply IH. unfold remove_created. rewrite Hr.
  destruct (strip_path_prefix _ _); [|done].
  destruct (find_parent _ _ _ w) as [w1 r1] eqn:E1.
  destruct (does_find_parent _ _ a (fun a' _ => a' = a) Hd ltac:(done) ltac:(done) ltac:(done) _ _ _ Hw E1) as (? & Hw1 & ->).
  destruct r1 as [[p|]|]; [|done..].
  destruct (unlink_at p d true w1) as [w2 r2] eqn:E2.
  by destruct (quiet_remove_directory p d a (fun a' _ => a' = a) ltac:(done) _ _ _ Hw1 E2) as (? & Hw2 & ->).
Qed.

(** A restore changes only what it puts back; when it reports success, the
    workspace is as it was when the snapshot was taken, but that a file whose
    content had not changed may have become executable. *)
Lemma does_restore_snapshot a0 a s (Q : astate → result unit WorkspaceError → Prop) : intact a0 a s →
  (∀ a' r, only_restores a0 a a' (paths_of (ws_files s)) → (∀ q, q ∉ paths_of (ws_files s) → a_files a' q = a_files a0 q) →
           (r = Ok tt → ∀ q, near (a_files a0 q) (a_files a' q)) → Q a' r) →
  does seen (restore_snapshot_checked s) a Q.
Proof.
  intros [H1 H2 H3 Hfol H4 H5] HQ. unfold restore_snapshot_checked. apply does_bind.
  assert (paths_of (rev (ws_files s)) ≡ₚ paths_of (ws_files s)) as Hperm.
  { unfold paths_of. rewrite map_rev. symmetry. apply Permutation_rev. }
  eapply does_weaken; [apply (does_restore_files a0); [apply Forall_rev; exact H1|done]|]. cbn. intros a' r [[J Hor] Hr].
  assert (only_restores a0 a a' (paths_of (ws_files s))) as Hor'.
  { split; [done|]. intros q. destruct (Hor q) as [?|[Hq ?]]; [auto|right]. by rewrite Hperm in Hq. }
  assert (∀ q, q ∉ paths_of (ws_files s) → a_files a' q = a_files a0 q) as Hout.
  { intros q Hq. destruct (Hor q) as [->|[? ->]]; auto. }
  destruct r as [first_error|e]; [|by apply HQ].
  intros w w' r' Hw [= <- <-]. exists a'. split; [by apply does_remove_created|]. apply HQ; [done|done|].
  destruct first_error; [done|]. intros _. destruct (Hr eq_refl) as [_ Hall]. intros q.
  destruct (decide (q ∈ paths_of (ws_files s))) as [Hq|Hq]; [apply Hall; by rewrite Hperm|left; by apply Hout].
Qed.
End files_spec.

(** ** What a setup transaction only reads

    Inspecting a workspace, making its plan, sealing it and taking the lock
    change nothing that is seen, for any way [R] of seeing the machine under
    which the single calls change nothing. *)

(** Computations that change nothing *)
Create HintDb calm.

(** ** The single calls *)

Class FsQuiet {W A} (R : W → A → Prop) (F : WorkspaceFs W) : Prop := {
  lstat_quiet : ∀ p, quiet R (lstat p);
  is_dir_quiet : ∀ p, quiet R (is_dir p);
  path_exists_quiet : ∀ p, quiet R (path_exists p);
  canonicalize_quiet : ∀ p, quiet R (canonicalize_path p);
  read_text_quiet : ∀ p, quiet R (read_text p);
  read_bytes_quiet : ∀ p, quiet R (read_file_bytes p);
  read_tree_quiet : ∀ p, quiet R (read_tree p);
  read_nofollow_quiet : ∀ p, quiet R (read_nofollow p);
  resolve_hook_quiet : ∀ p, quiet R (resolve_hook_path p);
}.

Class LockQuiet {W Fd A} (R : W → A → Prop) (H : TxnHost W Fd) : Prop := {
  private_dir_quiet : ∀ p, quiet R (ensure_private_leaf_dir p);
  owned_directory_quiet : ∀ p b, quiet R (open_owned_directory p b);
  owned_file_quiet : ∀ d p b, quiet R (open_owned_file_at d p b);
  lock_quiet : ∀ d, quiet R (lock_file_exclusive d);
  release_quiet : ∀ d w a, R w a → R (release_lock d w) a;
}.

Class ParticipantQuiet {W A} (R : W → A → Prop) (P : SetupTransactionParticipant W) : Prop := {
  prepare_quiet : ∀ p l, quiet R (prepare p l);
  commit_quiet : quiet R commit;
  rollback_quiet : quiet R rollback;
  recovery_payload_quiet : quiet R recovery_payload;
  restore_payload_quiet : ∀ s, quiet R (restore_recovery_payload s);
}.

#[export] Hint Resolve lstat_quiet is_dir_quiet path_exists_quiet canonicalize_quiet read_text_quiet read_bytes_quiet
  read_tree_quiet read_nofollow_quiet resolve_hook_quiet private_dir_quiet owned_directory_quiet owned_file_quiet
  lock_quiet prepare_quiet commit_quiet rollback_quiet recovery_payload_quiet restore_payload_quiet : calm.

(** ** Combinations *)

Section combinations.
Context {W A : Type} (R : W → A → Prop).

Lemma quiet_run {E T} (m : io W E T) w w' r a : quiet R m → m w = (w', r) → R w a → R w' a.
Proof. intros H Hm Hw. by destruct (H a (fun a' _ => a' = a) ltac:(done) _ _ _ Hw Hm) as (? & ? & ->). Qed.

Lemma quiet_intro {E T} (m : io W E T) : (∀ w w' r a, m w = (w', r) → R w a → R w' a) → quiet R m.
Proof. intros H a Q HQ w w' r Hw Hm. exists a. eauto. Qed.

Lemma calm_bind {E T U} (m : io W E T) (k : T → io W E U) : quiet R m → (∀ x, quiet R (k x)) → quiet R (io_bind m k).
Proof. intros H1 H2 a Q HQ. apply does_bind, H1. intros [x|e]; [by apply H2|done]. Qed.

Lemma calm_ret {E T} (x : T) : quiet (E := E) R (io_ret x).
Proof. intros a Q HQ. by apply does_ret. Qed.
Lemma quiet_throw {E T} (e : E) : quiet (T := T) R (io_throw e).
Proof. intros a Q HQ. by apply does_throw. Qed.
Lemma calm_lift {E T} (x : result T E) : quiet R (io_lift x).
Proof. intros a Q HQ. by apply does_lift. Qed.
Lemma quiet_query {E T} (f : W → result T E) : quiet R (io_query f).
Proof. intros a Q HQ. by apply does_query. Qed.
Lemma quiet_fail_if {E T} (b : bool) (e : E) (k : io W E T) : quiet R k → quiet R (io_fail_if b e k).
Proof. intros H. destruct b; [apply quiet_throw|done]. Qed.
Lemma quiet_at_path {T} p (m : io W ErrorKind T) : quiet R m → quiet R (at_path p m).
Proof. intros H a Q HQ. apply does_at_path, H. intros r. apply HQ. Qed.
Lemma quiet_map {E T E' U} (m : io W E T) (g : result T E → result U E') : quiet R m →
  quiet R (fun w => let '(w1, r) := m w in (w1, g r)).
Proof. intros H a Q HQ. apply does_map, H. intros r. apply HQ. Qed.

End combinations.

#[export] Hint Resolve calm_bind calm_ret quiet_throw calm_lift quiet_query quiet_fail_if quiet_at_path quiet_map : calm.

(** Follow a computation into its binds and cases. *)
Ltac calm :=
  repeat (intros; cbv zeta; lazymatch goal with
    | |- quiet _ (io_bind _ _) => apply calm_bind
    | |- quiet _ (io_fail_if _ _ _) => apply quiet_fail_if
    | |- quiet _ (at_path _ _) => apply quiet_at_path
    | |- quiet _ (match ?x with _ => _ end) => destruct x
    | |- quiet _ (fun w => let '(w1, r) := ?m w in (w1, _)) => apply quiet_map
    | |- quiet _ _ => first [solve [eauto 2 with calm] | fail]
    end).

Section workspace.
Context {W A : Type} (R : W → A → Prop) `{F : !WorkspaceFs W} `{X : External} `{Q : !FsQuiet R F}.

Lemma quiet_ask_bool p : quiet R (ask_bool (is_dir p)).
Proof. apply quiet_map. auto with calm. Qed.
Lemma quiet_ask_exists p : quiet R (ask_bool (path_exists p)).
Proof. apply quiet_map. auto with calm. Qed.
Lemma quiet_canonical_ok p : quiet R (canonical_ok p).
Proof. apply quiet_map. auto with calm. Qed.

Lemma quiet_canonical_dir p : quiet R (canonical_dir p).
Proof.
  apply quiet_intro. intros w w' r a Hm Hw. unfold canonical_dir in Hm.
  destruct (canonicalize_path p w) as [w1 [q|e]] eqn:E1; apply (quiet_run R _ _ _ _ _ (canonicalize_quiet p) E1) in Hw.
  - destruct (is_dir q w1) as [w2 r2] eqn:E2. injection Hm as <- <-. exact (quiet_run R _ _ _ _ _ (is_dir_quiet q) E2 Hw).
  - by injection Hm as <- <-.
Qed.

Lemma quiet_read_git_path_file p : quiet R (read_git_path_file p).
Proof.
  apply quiet_intro. intros w w' r a Hm Hw. unfold read_git_path_file in Hm.
  destruct (lstat p w) as [w1 r1] eqn:E1. apply (quiet_run R _ _ _ _ _ (lstat_quiet p) E1) in Hw.
  destruct r1 as [m|[]]; [|by injection Hm as <- <-..]. destruct (_ || _); [by injection Hm as <- <-|].
  refine (quiet_run R _ _ _ _ _ _ Hm Hw). calm.
Qed.

Lemma quiet_validated_git_config b d : quiet R (validated_git_config b d).
Proof.
  apply quiet_intro. intros w w' r a Hm Hw. unfold validated_git_config in Hm.
  destruct (lstat _ w) as [w1 r1] eqn:E1. apply (quiet_run R _ _ _ _ _ (lstat_quiet _) E1) in Hw.
  destruct r1 as [m|e]; [|by injection Hm as <- <-]. destruct (negb _); [by injection Hm as <- <-|].
  destruct (canonicalize_path _ w1) as [w2 r2] eqn:E2. injection Hm as <- <-.
  exact (quiet_run R _ _ _ _ _ (canonicalize_quiet _) E2 Hw).
Qed.

#[local] Hint Resolve quiet_ask_bool quiet_ask_exists quiet_canonical_ok quiet_canonical_dir quiet_read_git_path_file
  quiet_validated_git_config : calm.

Lemma quiet_git_config_path root : quiet R (git_config_path root).
Proof.
  apply quiet_intro. intros w w' r a Hm Hw. unfold git_config_path in Hm.
  destruct (lstat _ w) as [w1 r1] eqn:E1. apply (quiet_run R _ _ _ _ _ (lstat_quiet _) E1) in Hw.
  destruct r1 as [m|[]]; [|by injection Hm as <- <-..].
  refine (quiet_run R _ _ _ _ _ _ Hm Hw). calm.
Qed.

Lemma quiet_inspect_env_files root paths : quiet R (inspect_env_files root paths).
Proof.
  induction paths as [|p l IH]; cbn [inspect_env_files]; [calm|]. unfold inspect_env_file. calm.
Qed.

#[local] Hint Resolve quiet_git_config_path quiet_inspect_env_files : calm.

Lemma quiet_inspect_workspace root : quiet R (inspect_workspace root).
Proof.
  unfold inspect_workspace, inspect_git_identity. calm.
  intros git. apply quiet_intro. intros w w' r a Hm Hw.
  destruct (lstat _ w) as [w1 r1] eqn:E1. apply (quiet_run R _ _ _ _ _ (lstat_quiet _) E1) in Hw.
  destruct (lstat _ w1) as [w2 r2] eqn:E2. apply (quiet_run R _ _ _ _ _ (lstat_quiet _) E2) in Hw.
  by injection Hm as <- <-.
Qed.

Lemma quiet_build_setup_plan inspection : quiet R (build_setup_plan inspection).
Proof.
  unfold build_setup_plan. calm. apply quiet_map. auto with calm.
Qed.
End workspace.

#[export] Hint Resolve quiet_inspect_workspace quiet_build_setup_plan : calm.

(** ** Sealing and the lock *)

Section sealing.
Context {W Fd A : Type} (R : W → A → Prop) `{F : !WorkspaceFs W} `{H : !TxnHost W Fd} `{X : External}.
Context `{Q : !FsQuiet R F} `{LQ : !LockQuiet R H}.

Lemma quiet_resolve_walk path parts : ∀ current, quiet R (resolve_walk path current parts).
Proof.
  induction parts as [|c parts IH]; intros current; cbn [resolve_walk]; [calm|]. destruct c; [apply IH..|].
  apply quiet_intro. intros w w' r a Hm Hw.
  destruct (lstat _ w) as [w1 r1] eqn:E1. apply (quiet_run R _ _ _ _ _ (lstat_quiet _) E1) in Hw.
  destruct r1 as [m|[]]; [|by injection Hm as <- <-..]. destruct (bool_decide _); [by injection Hm as <- <-|].
  refine (quiet_run R _ _ _ _ _ _ Hm Hw). calm.
Qed.

Lemma quiet_resolve_target root target : quiet R (resolve_target root target).
Proof. unfold resolve_target. calm. apply quiet_resolve_walk. Qed.

Lemma quiet_seal_targets root targets : ∀ inner, quiet R (seal_targets root targets inner).
Proof.
  induction targets as [|t l IH]; intros inner; cbn [seal_targets]; [calm|].
  apply calm_bind; [apply quiet_resolve_target|intros path]. apply quiet_intro. intros w w' r a Hm Hw.
  destruct (lstat _ w) as [w1 r1] eqn:E1. apply (quiet_run R _ _ _ _ _ (lstat_quiet _) E1) in Hw.
  destruct r1 as [m|[]]; try by injection Hm as <- <-.
  - refine (quiet_run R _ _ _ _ _ _ Hm Hw). calm.
  - exact (quiet_run R _ _ _ _ _ (IH _) Hm Hw).
Qed.

Lemma quiet_pre_state_id plan inspection root key : quiet R (calculate_pre_state_id plan inspection root key).
Proof. unfold calculate_pre_state_id. calm. apply quiet_seal_targets. Qed.

#[local] Hint Resolve quiet_pre_state_id : calm.

Lemma quiet_check_sealed sealed root key : quiet R (check_sealed sealed root key).
Proof. unfold check_sealed, validate_sealed_state. calm. Qed.

Lemma quiet_unsafe_or_io {B} p (m : io W ErrorKind B) : quiet R m → quiet R (unsafe_or_io p m).
Proof. intros Hm. by apply quiet_map. Qed.

#[local] Hint Resolve quiet_unsafe_or_io : calm.

Lemma quiet_acquire_lock root : quiet R (acquire_workspace_lock root).
Proof.
  unfold acquire_workspace_lock, open_workspace_lock_file. calm; intros; apply quiet_unsafe_or_io; auto with calm.
Qed.

(** The lock is released at the end, and seen by nobody. *)
Lemma does_with_lock {B} root (body : io W WorkspaceError B) a (Q' : A → result B WorkspaceError → Prop) :
  (∀ e, Q' a (Err e)) → does R body a Q' → does R (with_workspace_lock root body) a Q'.
Proof.
  intros H1 H2. unfold with_workspace_lock. apply does_bind, quiet_acquire_lock. intros [lock|e]; [|apply H1].
  intros w w' r Hw Hm. destruct (body w) as [w1 r1] eqn:E1. injection Hm as <- <-.
  destruct (H2 _ _ _ Hw E1) as (a' & Hw1 & HQ). exists a'. split; [by apply release_quiet|done].
Qed.
End sealing.

#[export] Hint Resolve quiet_resolve_target quiet_pre_state_id quiet_check_sealed quiet_acquire_lock : calm.
