(* ===== verification/WorkspaceTxnSpec.v ===== *)
(** * What a setup transaction promises

    An apply that returns changed exactly what its receipt describes, and an
    error other than an incomplete rollback has put every file back, content and
    permission bits ([setup_all_or_nothing]).  With a journal, however an apply ended, and
    after any number of recoveries that failed, a recovery that returns has
    either put every file back or found the receipt of what is there
    ([setup_recovered]).  Any call may fail at any time: a run in which every
    call fails from some point on leaves what a crash at that point leaves. *)

From S2P Require Import Prelude Text Ids External Canonical VaultCrypto VaultCryptoSpec StateDir AnchoredFs Bytes Dotenv Classify HookText Workspace WorkspaceTxn WorkspaceFilesSpec.

(** ** What is relied on of the journal's file

    The journal is no file of the workspace; writing it is atomic, and may
    have happened when an error is returned. *)
Class JournalFileLaws {W Fd} (F : WorkspaceFs W) (H : TxnHost W Fd) (jpath : string)
    (files : W → list string → option file_image) (journal : W → option string) : Prop := {
  journal_lstat_law : ∀ w w', lstat jpath w = (w', Err NotFound) → journal w = None;
  journal_read_law : ∀ w w' b, read_file_bytes jpath w = (w', Ok b) → journal w = Some b;
  journal_write_law : ∀ b w w' r, fs_atomic_write jpath b w = (w', r) →
    files w' = files w ∧ (journal w' = journal w ∨ journal w' = Some b) ∧ (∀ u, r = Ok u → journal w' = Some b);
  nonce_law : ∀ w w' n, random_nonce w = (w', n) →
    files w' = files w ∧ journal w' = journal w ∧ String.length n = NONCE_LEN;
}.

(** What is written of a record is read as the record. *)
Definition records_read_back `{JournalSerde} : Prop :=
  ∀ r b, record_to_vec r = Ok b → record_from_slice b = Some r.

Section txn_spec.
Context {W Fd : Type} `{F : !WorkspaceFs W} `{T : !TxnFs W Fd} `{H : !TxnHost W Fd} `{X : External}.
Context `{K : !Crypto} `{J : !JournalSerde} `{P : !SetupTransactionParticipant W}.
Context (root : string) (files : W → list string → option file_image) (journal : W → option string) (fd_place : Fd → list string).
Abbreviation seen := (seen_at files journal visible).
Context `{L : !TxnFsLaws T root files journal fd_place} `{FQ : !FsQuiet seen F} `{LQ : !LockQuiet seen H}.
Context `{PQ : !ParticipantQuiet seen P}.

(** ** Reading through descriptors changes nothing *)

Lemma quiet_read_at p path : quiet seen (read_at p path).
Proof.
  unfold read_at. calm; intros.
  - apply quiet_intro. intros w w' r a Hm Hw. unfold stat_at in Hm. destruct (fstatat _ _ w) as [w1 r1] eqn:E1.
    destruct (fstatat_law _ _ _ _ _ E1) as (Hf & Hj & _). assert (seen w1 a) by (by eapply seen_files).
    by destruct r1 as [m|[]]; injection Hm as <- <-.
  - apply quiet_of. intros w w' r E. by destruct (openat_read_law _ _ _ _ _ E) as (? & ? & _).
  - apply quiet_of. intros w w' r E. by destruct (fd_metadata_law _ _ _ _ E) as (? & ? & _).
  - apply quiet_of. intros w w' r E. by destruct (read_fd_law _ _ _ _ E) as (? & ? & _).
Qed.

Lemma quiet_read_target d t : fd_place d = [] → quiet seen (secure_read_target root d t).
Proof.
  intros Hd. unfold secure_read_target, read_content. apply calm_bind.
  - intros a Q HQ. by apply (does_find_parent root files journal fd_place); auto.
  - intros [p|]; [|calm]. apply calm_bind; [apply quiet_read_at|]. calm.
Qed.

Lemma quiet_mutations plan inspection d : fd_place d = [] → quiet seen (build_filesystem_mutations plan inspection root d).
Proof.
  intros Hd. unfold build_filesystem_mutations. pose proof (fun t => quiet_read_target d t Hd) as Hread.
  induction (sp_actions plan) as [|x l IH]; cbn [filesystem_mutations]; [calm|].
  apply calm_bind.
  - unfold desired_content. destruct (sa_kind x); calm.
    apply quiet_intro. intros w w' r a Hm Hw. unfold initial_config, project_id_from_path in Hm.
    destruct (canonicalize_path root w) as [w1 r1] eqn:E1. injection Hm as <- <-.
    exact (quiet_run seen _ _ _ _ _ (canonicalize_quiet root) E1 Hw).
  - calm.
Qed.

(** ** What a receipt describes *)

Definition changed_paths (changes : list FileChangeReceipt) : list (list string) :=
  map (fun c => path_of (fc_target c)) changes.

(** From [f0] to [f1] the files of the receipt changed, from what it names to
    what it names, with permissions that follow, and no other. *)
Definition describes (key : string) (f0 f1 : list string → option file_image) (changes : list FileChangeReceipt) : Prop :=
  Forall (fun c =>
    visible (path_of (fc_target c)) ∧
    fc_before_state_id c = option_map (keyed_file_state_id key (fc_target c)) (option_map fst (f0 (path_of (fc_target c)))) ∧
    ∃ content mode, f1 (path_of (fc_target c)) = Some (content, mode) ∧
               mode_follows (f0 (path_of (fc_target c))) mode ∧
               fc_after_state_id c = keyed_file_state_id key (fc_target c) content) changes ∧
  ∀ q, visible q → q ∉ changed_paths changes → f1 q = f0 q.

Definition same_files (f0 f1 : list string → option file_image) : Prop := ∀ q, visible q → f1 q = f0 q.

(** Every file is as it was, content and permissions, but that one whose
    content had not changed may have been made executable. *)
Definition put_back (f0 f1 : list string → option file_image) : Prop := ∀ q, visible q → near (f0 q) (f1 q).

(** The receipt of a snapshot that was finalized *)
Lemma receipt_describes key a0 a plan mutations (s : WorkspaceSnapshot Fd) completed :
  intact root fd_place a0 a s → Forall (holds_after a) (ws_files s) →
  describes key (a_files a0) (a_files a) (tr_file_changes (build_receipt plan false mutations s completed key)).
Proof.
  intros [H1 _ H3 Hfol _ _] H6. cbn [build_receipt tr_file_changes]. split.
  - apply Forall_map. rewrite !Forall_forall in *. intros x Hx. destruct (H1 x Hx) as (Hv & Hb & _). destruct (H6 x Hx) as (c & Ha & Hc).
    cbn. split; [done|]. rewrite <- Hb, Ha. split; [by destruct (fs_before x)|].
    destruct (a_files a (path_of (fs_target x))) as [[c' m]|] eqn:Ec; [|done]. injection Hc as ->. exists c, m.
    split; [done|]. split; [|done]. rewrite Hb. by apply (followed_mode a0 a _ c).
  - intros q _ Hq. apply H3. intros Hin. apply Hq. unfold changed_paths. rewrite map_map. exact Hin.
Qed.

(** ** Undoing *)

(** What an apply may leave behind when it could not undo everything *)
Definition moved (a0 a : astate) (s : WorkspaceSnapshot Fd) : Prop :=
  (∀ q, q ∉ paths_of (ws_files s) → a_files a q = a_files a0 q) ∧ followed a0 a.

Lemma undo_run a0 a s w w' rolled_back : intact root fd_place a0 a s → seen w a → undo s w = (w', rolled_back) →
  ∃ a', seen w' a' ∧ a_journal a' = a_journal a0 ∧ moved a0 a' s ∧
        (rolled_back = true → ∀ q, near (a_files a0 q) (a_files a' q)).
Proof.
  intros HI Hw Hm. unfold undo in Hm.
  destruct (restore_snapshot_checked s w) as [w1 r1] eqn:E1. destruct (rollback w1) as [w2 r2] eqn:E2. injection Hm as <- <-.
  destruct (does_restore_snapshot root files journal fd_place a0 a s (fun a' r => a_journal a' = a_journal a0 ∧
    moved a0 a' s ∧ (r = Ok tt → ∀ q, near (a_files a0 q) (a_files a' q)))
    HI ltac:(intros ?? Hor ? ?; split_and!; [destruct Hor as [-> _]; apply HI|
      split; [done|eapply only_restores_followed; [exact Hor|apply HI]]|done]) _ _ _ Hw E1) as (a' & Hw1 & Hj & Ho & Hr).
  exists a'. split; [exact (quiet_run seen _ _ _ _ _ rollback_quiet E2 Hw1)|]. split_and!; [done|done|].
  destruct r1 as [[]|]; [|done]. destruct r2; [|done]. intros _. by apply Hr.
Qed.

Lemma does_undo_with {B} a0 a s e (Q : astate → result B WorkspaceError → Prop) : intact root fd_place a0 a s →
  (∀ a', a_journal a' = a_journal a0 → moved a0 a' s →
     Q a' (Err RollbackIncomplete) ∧ ((∀ q, near (a_files a0 q) (a_files a' q)) → Q a' (Err e))) →
  does seen (undo_with s e) a Q.
Proof.
  intros HI HQ w w' r Hw Hm. unfold undo_with in Hm. destruct (undo s w) as [w1 rolled_back] eqn:E1. injection Hm as <- <-.
  destruct (undo_run _ _ _ _ _ _ HI Hw E1) as (a' & Hw1 & Hj & Ho & Hr). exists a'. split; [done|].
  destruct (HQ a' Hj Ho) as [HQ1 HQ2]. destruct rolled_back; [by apply HQ2, Hr|done].
Qed.

(** [abort_participant] *)
Lemma does_abort {B} a e (Q : astate → result B WorkspaceError → Prop) :
  Q a (Err e) → Q a (Err RollbackIncomplete) → does seen (abort_participant e) a Q.
Proof.
  intros H1 H2 w w' r Hw Hm. unfold abort_participant in Hm. destruct (rollback w) as [w1 r1] eqn:E1.
  exists a. destruct r1; injection Hm as <- <-; (split; [exact (quiet_run seen _ _ _ _ _ rollback_quiet E1 Hw)|done]).
Qed.

Lemma does_or_abort {B} (m : io W WorkspaceError B) a (Q : astate → result B WorkspaceError → Prop) :
  does seen m a (fun a' r => match r with Ok x => Q a' (Ok x) | Err e => Q a' (Err e) ∧ Q a' (Err RollbackIncomplete) end) →
  does seen (or_abort m) a Q.
Proof.
  intros Hm w w' r Hw Hr. unfold or_abort in Hr. destruct (m w) as [w1 [x|e]] eqn:E1; destruct (Hm _ _ _ Hw E1) as (a1 & Hw1 & HQ).
  - injection Hr as <- <-. by exists a1.
  - destruct HQ as [HQ1 HQ2]. exact (does_abort _ _ _ HQ1 HQ2 _ _ _ Hw1 Hr).
Qed.

Lemma quiet_at_stage {B} stage (m : io W string B) : quiet seen m → quiet seen (at_stage stage m).
Proof. apply quiet_map. Qed.

(** ** Writing the files

    [G] is what may be left behind on an error. *)

Lemma intact_start a s : Forall (good fd_place a) (ws_files s) → ws_workspace_root s = root →
  fd_place (ws_root_directory s) = [] → intact root fd_place a a s.
Proof. split; [done..| |done|done]. apply followed_refl. Qed.

Lemma does_write_files (G : astate → Prop) mutations a0 s j : intact root fd_place a0 a0 s →
  (∀ a', a_journal a' = a_journal a0 → moved a0 a' s → G a') →
  (∀ j' a', j = Some j' → a_journal a' = a_journal a0 → moved a0 a' s → (∀ q, near (a_files a0 q) (a_files a' q)) →
     does seen (set_phase PhaseRolledBack None j') a' (fun a'' _ => G a'' ∧ ∀ q, near (a_files a0 q) (a_files a'' q))) →
  does seen (write_files root mutations s j) a0 (fun a' r =>
    match r with
    | Ok s' => intact root fd_place a0 a' s' ∧ Forall (holds_after a') (ws_files s') ∧
               paths_of (ws_files s') = paths_of (ws_files s) ∧ ws_finalized s' = true
    | Err e => G a' ∧ (e ≠ RollbackIncomplete → ∀ q, near (a_files a0 q) (a_files a' q))
    end).
Proof.
  intros HI HG1 HG2 w w' r Hw Hm. unfold write_files in Hm.
  assert (∀ s' : WorkspaceSnapshot Fd, map fs_target (ws_files s') = map fs_target (ws_files s) → paths_of (ws_files s') = paths_of (ws_files s)) as Hpaths.
  { intros s' E. unfold paths_of. by rewrite <- !(map_map fs_target path_of), E. }
  destruct (apply_mutations root mutations (w, s)) as [[w1 s1] r1] eqn:E1.
  destruct (does_apply_mutations root files journal fd_place mutations a0 a0 s HI (w, s) _ _ (conj Hw eq_refl) E1)
    as ([a1 s1'] & [Hw1 Es] & HI1 & Ht1). cbn in Hw1, Es, HI1, Ht1. subst s1'. apply Hpaths in Ht1.
  destruct r1 as [u|e].
  - destruct (finalize_snapshot (w1, s1)) as [[w2 s2] r2] eqn:E2.
    destruct (does_finalize root files journal fd_place a0 a1 s1
      (fun p r => p.1 = a1 ∧ match r with Ok _ => p.2 = set_finalized s1 ∧ Forall (holds_after a1) (ws_files s1) | Err _ => p.2 = s1 end)
      (in_good _ _ _ _ _ HI1) ltac:(done) ltac:(done) (w1, s1) _ _ (conj Hw1 eq_refl) E2) as ([a2 s2'] & [Hw2 Es2] & E & Hr2).
    cbn in Hw2, Es2, E, Hr2. subst a2 s2'. destruct r2 as [[]|e].
    + injection Hm as <- <-. destruct Hr2 as [-> Hall]. exists a1. split; [done|]. split_and!; [by destruct HI1; split|done..].
    + subst s2. unfold undo_with in Hm. destruct (undo s1 w2) as [w3 rolled_back] eqn:E3. injection Hm as <- <-.
      destruct (undo_run _ _ _ _ _ _ HI1 Hw2 E3) as (a3 & Hw3 & Hj3 & Ho3 & Hs3). unfold moved in Ho3. rewrite Ht1 in Ho3.
      exists a3. split; [done|]. split; [by apply HG1|]. destruct rolled_back; [by intros _; apply Hs3|done].
  - destruct (undo s1 w1) as [w2 rolled_back] eqn:E2.
    destruct (undo_run _ _ _ _ _ _ HI1 Hw1 E2) as (a2 & Hw2 & Hj2 & Ho2 & Hs2). unfold moved in Ho2. rewrite Ht1 in Ho2.
    specialize (HG1 a2 Hj2 Ho2).
    destruct rolled_back; [specialize (Hs2 eq_refl)|].
    2:{ assert ((w2, Err RollbackIncomplete) = (w', r)) as [= <- <-] by (by destruct j). by exists a2. }
    destruct j as [j|]; [|injection Hm as <- <-; by exists a2].
    destruct (set_phase PhaseRolledBack None j w2) as [w3 r3] eqn:E3. injection Hm as <- <-. cbn.
    destruct (HG2 j a2 eq_refl Hj2 Ho2 Hs2 _ _ _ Hw2 E3) as (a3 & Hw3 & HG3 & Hs3). by exists a3.
Qed.

(** ** Up to the snapshot *)

Lemma does_quiet {B E} (m : io W E B) a (Q : astate → result B E → Prop) : quiet seen m →
  (∀ w w' r, m w = (w', r) → Q a r) → does seen m a Q.
Proof. intros Hm HQ w w' r Hw E1. exists a. split; [exact (quiet_run seen _ _ _ _ _ Hm E1 Hw)|]. by eapply HQ. Qed.

(** What is written is a target of the plan. *)
Lemma filesystem_targets inspection d actions : ∀ w w' l,
  filesystem_mutations inspection root d actions w = (w', Ok l) → ∀ m, m ∈ l → mu_target m ∈ map sa_target actions.
Proof.
  induction actions as [|x rest IH]; intros w w' l Hm m Hl; cbn [filesystem_mutations] in Hm.
  { injection Hm as <- <-. by apply not_elem_of_nil in Hl. }
  cbn. apply elem_of_cons. apply io_bind_Ok in Hm as (w1 & [content|] & _ & Hm); [|right; by eapply IH].
  apply io_bind_Ok in Hm as (w2 & current & _ & Hm). case_bool_decide; [right; by eapply IH|].
  apply io_bind_Ok in Hm as (w3 & l' & Hm & [= <- <-]). apply elem_of_cons in Hl as [->|Hl]; [by left|right; by eapply IH].
Qed.

Lemma adopted_targets externals completed muts : validate_file_mutations completed externals muts = Ok tt → ∀ l,
  adopt_mutations externals muts = Ok l → ∀ m, m ∈ l → mu_target m ∈ map sa_target externals.
Proof.
  induction muts as [|x rest IH]; intros Hv l Hl m Hm; cbn in Hv, Hl; [injection Hl as <-; by apply not_elem_of_nil in Hm|].
  destruct (List.find (protects (pm_target x)) externals) as [b|] eqn:Eb; [|done].
  destruct (negb _); [done|]. destruct (ok_or _ _) as [c|]; [|done]. cbn in Hl.
  destruct (adopt_mutations externals rest) as [l'|]; [|done]. injection Hl as <-.
  apply elem_of_cons in Hm as [->|Hm]; [|by eapply IH].
  apply find_some in Eb as [Hin [_ E%String.eqb_eq]%andb_true_iff]. cbn. rewrite <- E.
  apply (list_elem_of_fmap_2 sa_target). by apply list_elem_of_In.
Qed.

Lemma insert_by_elem {B} (cmp : B → B → comparison) x y l : x ∈ insert_by cmp y l → x = y ∨ x ∈ l.
Proof.
  induction l as [|z l IH]; cbn; [by intros ->%list_elem_of_singleton; left|].
  destruct (cmp y z); [intros [->|Hx]%elem_of_cons; auto..|].
  intros [->|Hx]%elem_of_cons; [right; by left|]. destruct (IH Hx); [by left|right; by right].
Qed.

Lemma sort_by_elem {B} (cmp : B → B → comparison) x l : x ∈ sort_by cmp l → x ∈ l.
Proof.
  induction l as [|y l IH]; [done|]. cbn. intros [->|Hx]%insert_by_elem; [by left|right; by apply IH].
Qed.

Lemma unique_targets_elem muts l m : ensure_unique_targets muts = Ok l → m ∈ l → m ∈ muts.
Proof.
  unfold ensure_unique_targets. destruct (no_equal_neighbours _) as [u|]; [|done]. intros [= <-]. apply sort_by_elem.
Qed.

(** Before the snapshot nothing changes; what follows works on a snapshot of
    what there is. *)
Lemma does_apply_locked sealed key jc a (Q : astate → result SetupTransaction WorkspaceError → Prop) :
  Forall (fun x => visible (path_of (sa_target x))) (sp_actions (ss_plan sealed)) →
  (∀ e, Q a (Err e)) →
  (∀ completed mutations s, Forall (good fd_place a) (ws_files s) → map fs_target (ws_files s) = map mu_target mutations →
     ws_workspace_root s = root → fd_place (ws_root_directory s) = [] →
     does seen (change_workspace sealed key root completed mutations s jc) a Q) →
  does seen (apply_locked sealed key root jc) a Q.
Proof.
  intros Hvis HE HC. unfold apply_locked.
  assert (∀ {B} (m : io W WorkspaceError B) (k : B → io W WorkspaceError SetupTransaction), quiet seen m →
    (∀ x, does seen (k x) a Q) → does seen (io_bind m k) a Q) as Hstep.
  { intros B m k Hm Hk. apply does_bind, Hm. intros [x|e]; [apply Hk|apply HE]. }
  assert (∀ {B} (m : io W WorkspaceError B), quiet seen m → quiet seen (or_abort m)) as Habort.
  { intros B m Hm a' Q' HQ'. apply does_or_abort, Hm. intros [x|e]; auto. }
  apply does_bind, does_at_path, (does_open_root root files journal fd_place); [intros d Hd; cbn|intros; apply HE].
  apply Hstep; [apply quiet_at_path, quiet_of, fd_identity_law|intros identity].
  apply Hstep; [calm|intros retained]. destruct (negb _); [apply does_abort; apply HE|].
  apply Hstep; [auto with calm|intros inspection]. cbv zeta. set (externals := List.filter is_external _).
  apply Hstep; [apply Habort, quiet_at_stage; auto with calm|intros preparation].
  apply does_bind, does_or_abort, does_lift. destruct (validate_preparation preparation externals) as [[]|e] eqn:Ev; [|split; apply HE].
  apply does_bind, does_or_abort, does_quiet.
  { apply calm_bind; [by apply quiet_mutations|]. calm. }
  intros w0 w0' r0 E0. destruct r0 as [mutations|e]; [|split; apply HE].
  assert (Forall (fun m => visible (path_of (mu_target m))) mutations) as Hmv.
  { apply Forall_forall. intros m Hm. rewrite Forall_forall in Hvis.
    apply io_bind_Ok in E0 as (w1 & own & E1 & E0). apply io_bind_Ok in E0 as (w2 & theirs & E2 & E3).
    apply io_lift_inv in E2 as [_ E2], E3 as [_ E3]. apply (unique_targets_elem _ _ _ E3), elem_of_app in Hm.
    assert (mu_target m ∈ map sa_target (sp_actions (ss_plan sealed))) as Hin.
    { destruct Hm as [Hm|Hm]; [by eapply filesystem_targets|].
      assert (validate_file_mutations (pp_completed_action_ids preparation) externals (pp_file_mutations preparation) = Ok tt) as Hv.
      { unfold validate_preparation in Ev. by destruct (existsb _ _). }
      pose proof (adopted_targets _ _ _ Hv _ E2 _ Hm) as Hin. apply list_elem_of_fmap in Hin as (x & -> & Hx).
      apply list_elem_of_fmap_2. apply list_elem_of_In in Hx. apply list_elem_of_In. by apply filter_In in Hx as [? _]. }
    apply list_elem_of_fmap in Hin as (x & -> & Hx). by apply Hvis. }
  apply Hstep; [apply Habort; auto with calm|intros _].
  apply Hstep; [unfold verify_root_identity; calm; apply quiet_of; [apply path_identity_law|apply fd_identity_law]|intros _].
  apply does_bind, does_or_abort, (does_capture_snapshot root files journal fd_place); [done|done| |by intros; split; apply HE].
  intros s H1 H2 H3 H4. by apply HC.
Qed.

Lemma does_apply_inner sealed key jc a (Q : astate → result SetupTransaction WorkspaceError → Prop) :
  sp_workspace_root (ss_plan sealed) = root →
  (∀ e, Q a (Err e)) → does seen (apply_locked sealed key root jc) a Q →
  does seen (apply_setup_plan_inner sealed key jc) a Q.
Proof.
  intros Hroot HE HC. unfold apply_setup_plan_inner. rewrite Hroot. apply does_fail_if; [by intros _|intros _].
  apply does_bind, does_at_path, canonicalize_quiet. intros [r|e]; cbn; [|apply HE].
  apply does_fail_if; [by intros _|]. intros ->%negb_false_iff%String.eqb_eq. by apply does_with_lock.
Qed.

(** ** Without a journal *)

Lemma does_change_plain sealed key completed mutations a s : Forall (good fd_place a) (ws_files s) →
  ws_workspace_root s = root → fd_place (ws_root_directory s) = [] →
  does seen (change_workspace sealed key root completed mutations s None) a (fun a' r =>
    match r with
    | Ok tx => describes key (a_files a) (a_files a') (tr_file_changes (st_receipt tx)) ∧
               intact root fd_place a a' (st_snapshot tx)
    | Err e => e ≠ RollbackIncomplete → ∀ q, near (a_files a q) (a_files a' q)
    end).
Proof.
  intros Hg Hr Hd. unfold change_workspace. apply does_bind, does_ret, does_bind.
  eapply does_weaken; [by apply (does_write_files (fun _ => True)); [apply intact_start|..]|]. cbn. intros a1 r Hr1.
  destruct r as [s1|e]; [|apply Hr1]. destruct Hr1 as (HI & Hall & _). apply does_bind, does_ret.
  intros w w' r Hw Hm. destruct (commit w) as [w1 r1] eqn:E1. pose proof (quiet_run seen _ _ _ _ _ commit_quiet E1 Hw) as Hw1.
  destruct r1 as [u|e].
  - injection Hm as <- <-. exists a1. split; [done|]. split; [by apply receipt_describes|done].
  - revert Hm. apply (fun D => D w1 w' r Hw1). by apply (does_undo_with a).
Qed.

(** From what is seen to the files *)
Lemma describes_seen key a0 w w' a' changes : a_files a0 = files w → seen w' a' →
  describes key (a_files a0) (a_files a') changes → describes key (files w) (files w') changes.
Proof.
  intros E [_ Hs] [H1 H2]. rewrite E in H1, H2. split.
  - eapply Forall_impl; [exact H1|]. intros c (Hv & Hb & x & m & Hx & Hf & Ha).
    split; [done|]. split; [done|]. exists x, m. by rewrite Hs.
  - intros q Hq Hn. rewrite Hs by done. by apply H2.
Qed.

Lemma same_seen w w' a' : seen w' a' → (∀ q, a_files a' q = files w q) → same_files (files w) (files w').
Proof. intros [_ Hs] He q Hq. by rewrite Hs. Qed.

Lemma put_back_seen w w' a' : seen w' a' → (∀ q, near (files w q) (a_files a' q)) → put_back (files w) (files w').
Proof. intros [_ Hs] He q Hq. by rewrite Hs. Qed.

Definition start (w : W) : astate := mk_astate (files w) (journal w).
Lemma seen_start w : seen w (start w).
Proof. done. Qed.

(** C5: applying a sealed plan either changed exactly the files its receipt
    describes, from the contents it names to those it names, each with the
    permission bits of the file it replaces or these made executable (0644 or
    0755 where there was none), and rolling it back later puts every file back
    when that reports success; or it puts every file back; or it reports an
    incomplete rollback: whatever the system calls and the participant return.
    Put back is content and permission bits; of a file whose content did not
    change the bits may have become executable ([near]).  Temporary files
    (names that begin with [.phantom-tmp-]) are not looked at: removing one may
    fail too.  The participant changes no file of the workspace itself. *)
Theorem setup_all_or_nothing sealed key w w' r :
  sp_workspace_root (ss_plan sealed) = root →
  Forall (fun x => visible (path_of (sa_target x))) (sp_actions (ss_plan sealed)) →
  apply_setup_plan sealed key w = (w', r) →
  match r with
  | Ok tx => describes key (files w) (files w') (tr_file_changes (st_receipt tx)) ∧
             ∀ w2, rollback_workspace (st_snapshot tx) w' = (w2, Ok tt) → put_back (files w) (files w2)
  | Err RollbackIncomplete => True
  | Err _ => put_back (files w) (files w')
  end.
Proof.
  intros Hroot Hvis Hm.
  destruct (does_apply_inner sealed key None (start w) (fun a' r =>
    match r with
    | Ok tx => describes key (files w) (a_files a') (tr_file_changes (st_receipt tx)) ∧
               intact root fd_place (start w) a' (st_snapshot tx)
    | Err e => e ≠ RollbackIncomplete → ∀ q, near (files w q) (a_files a' q)
    end) Hroot ltac:(intros e _ q; apply near_refl)
    ltac:(apply does_apply_locked; [done|intros e _ q; apply near_refl|]; intros; by apply (does_change_plain sealed key _ _ (start w)))
    w w' r (seen_start w) Hm) as (a' & Hw' & Hr).
  destruct r as [tx|e].
  - destruct Hr as [Hd HI]. split; [by eapply (describes_seen key (start w))|]. intros w2 Hb.
    assert (does seen (rollback_workspace (st_snapshot tx)) a' (fun a2 r => r = Ok tt → ∀ q, near (files w q) (a_files a2 q))) as Hback.
    { unfold rollback_workspace. apply does_fail_if; [done|intros _]. apply does_with_lock; [done..|].
      by apply (does_restore_snapshot root files journal fd_place (start w)). }
    destruct (Hback _ _ _ Hw' Hb) as (a2 & Hw2 & H2). apply (put_back_seen _ _ a2 Hw2), H2. done.
  - destruct e; try done; by apply (put_back_seen _ _ a' Hw'), Hr.
Qed.

(** ** The journal *)

Section with_journal.
Context (config : DurableJournalConfig).
Context `{JL : !JournalFileLaws F H (jc_path config) files journal}.
Context (Hserde : records_read_back) (Hseal : seals_open).

Definition set_journal (b : option string) (a : astate) : astate := mk_astate (a_files a) b.

(** A journal of this request, as the code builds it *)
Definition belongs (j : DurableJournal) : Prop :=
  dj_request_id j = jc_request_id config ∧ dj_path j = jc_path config ∧ dj_key j = jc_key config ∧
  jr_schema_version (dj_record j) = JOURNAL_SCHEMA_VERSION ∧ jr_request_id (dj_record j) = jc_request_id config.

Lemma decode_written nonce plaintext ciphertext record :
  String.length nonce = NONCE_LEN → record_to_vec record = Ok plaintext →
  aead_seal (jc_key config) nonce (journal_aad (jc_request_id config)) plaintext = Some ciphertext →
  jr_schema_version record = JOURNAL_SCHEMA_VERSION → jr_request_id record = jc_request_id config →
  decode_journal config ("PHJ1" +:+ nonce +:+ ciphertext) = Some record.
Proof.
  intros Hn Hp Hc Hv Hr. destruct (Hseal _ _ _ _ _ Hc) as [Ho _]. unfold decode_journal.
  change (str_take 4 ("PHJ1" +:+ nonce +:+ ciphertext)) with "PHJ1"%string.
  change (str_drop 4 ("PHJ1" +:+ nonce +:+ ciphertext)) with (nonce +:+ ciphertext).
  change (str_drop 16 ("PHJ1" +:+ nonce +:+ ciphertext)) with (str_drop 12 (nonce +:+ ciphertext)).
  assert ((String.length ("PHJ1" +:+ nonce +:+ ciphertext) <? 16)%nat = false) as ->.
  { apply Nat.ltb_ge. rewrite !str_length_app, Hn. cbn. unfold NONCE_LEN. lia. }
  unfold NONCE_LEN in Hn. rewrite <- Hn, str_take_app, str_drop_app, String.eqb_refl. cbn [orb negb].
  rewrite Ho. cbn [mbind option_bind]. rewrite (Hserde _ _ Hp). cbn [mbind option_bind]. by rewrite Hv, Hr, String.eqb_refl.
Qed.

(** Writing the journal: afterwards it is the old one or the new one. *)
Lemma does_persist j a (Q : astate → result unit WorkspaceError → Prop) : belongs j →
  (∀ b, decode_journal config b = Some (dj_record j) → Q (set_journal (Some b) a) (Ok tt)) →
  (∀ e, Q a (Err e)) →
  (∀ b e, decode_journal config b = Some (dj_record j) → Q (set_journal (Some b) a) (Err e)) →
  does seen (persist j) a Q.
Proof.
  intros (Hr & Hp & Hk & Hv & Hr') H1 H2 H3. unfold persist. rewrite Hr, Hp, Hk. apply does_bind, does_lift.
  destruct (record_to_vec (dj_record j)) as [plaintext|e] eqn:Ev; cbn; [|apply H2].
  intros w w' r Hw Hm. destruct (random_nonce w) as [w1 nonce] eqn:E1. apply nonce_law in E1 as (Hf1 & Hj1 & Hn).
  assert (seen w1 a) as Hw1 by (by eapply seen_files).
  destruct (aead_seal _ _ _ _) as [ciphertext|] eqn:Ec; [|injection Hm as <- <-; exists a; split; [done|apply H2]].
  assert (decode_journal config ("PHJ1" +:+ nonce +:+ ciphertext) = Some (dj_record j)) as Hdec by (by eapply decode_written).
  unfold at_path in Hm. destruct (fs_atomic_write _ _ w1) as [w2 r2] eqn:E2. injection Hm as <- <-.
  apply journal_write_law in E2 as (Hf2 & Hj2 & Hok).
  assert (∀ b, journal w2 = Some b → seen w2 (set_journal (Some b) a)) as Hset.
  { intros b Hb. split; [done|]. intros q Hq. rewrite Hf2. by apply Hw1. }
  destruct r2 as [[]|e]; [eexists; split; [by apply Hset, (Hok tt)|by apply H1]|].
  destruct Hj2 as [Hj2|Hj2]; [exists a; split; [by eapply seen_files|apply H2]|].
  eexists. split; [by apply Hset|by apply H3].
Qed.

Lemma belongs_phase phase receipt j : belongs j → belongs (with_phase phase receipt j).
Proof. done. Qed.

Lemma does_set_phase phase receipt j a (Q : astate → result DurableJournal WorkspaceError → Prop) : belongs j →
  (∀ b, decode_journal config b = Some (dj_record (with_phase phase receipt j)) →
        Q (set_journal (Some b) a) (Ok (with_phase phase receipt j))) →
  (∀ e, Q a (Err e)) →
  (∀ b e, decode_journal config b = Some (dj_record (with_phase phase receipt j)) → Q (set_journal (Some b) a) (Err e)) →
  does seen (set_phase phase receipt j) a Q.
Proof.
  intros Hj H1 H2 H3. unfold set_phase. apply does_bind, does_persist; [by apply belongs_phase|..].
  - intros b Hb. by apply does_ret, H1.
  - done.
  - done.
Qed.

Lemma does_load a (Q : astate → result (option DurableJournal) WorkspaceError → Prop) :
  (a_journal a = None → Q a (Ok None)) → (∀ e, Q a (Err e)) →
  (∀ b r, a_journal a = Some b → decode_journal config b = Some r →
          Q a (Ok (Some (mk_journal (jc_request_id config) (jc_path config) (jc_key config) r)))) →
  does seen (load_journal config) a Q.
Proof.
  intros H1 H2 H3 w w' r Hw Hm. unfold load_journal in Hm. destruct (lstat _ w) as [w1 r1] eqn:E1.
  pose proof (quiet_run seen _ _ _ _ _ (lstat_quiet _) E1 Hw) as Hw1.
  destruct r1 as [m|[]]; try (injection Hm as <- <-; exists a; (split; [done|]);
    first [apply H2|apply H1; rewrite <- (proj1 Hw); by eapply journal_lstat_law]).
  revert Hm. apply (fun D => D w1 w' r Hw1).
  apply does_bind, does_lift. destruct (validate_target_metadata _ m); [|apply H2].
  apply does_bind, does_at_path. intros w2 w3 r3 Hw2 E3. pose proof (quiet_run seen _ _ _ _ _ (read_bytes_quiet _) E3 Hw2) as Hw3.
  exists a. split; [done|]. destruct r3 as [b|e]; [|apply H2]. cbn. apply does_bind, does_lift.
  apply journal_read_law in E3. rewrite (proj1 Hw2) in E3.
  destruct (decode_journal config b) as [record|] eqn:Ed; cbn; [|apply H2]. apply does_ret. by eapply H3.
Qed.

(** *** What the journal says *)

Context (key : string) (sealed : SealedSetupPlan) (f0 : list string → option file_image).

Definition initial : astate := mk_astate f0 None.

(** What a record says of a file *)
Definition journal_image (x : JournalFile) : option file_image :=
  match jf_before x with
  | Some content => mode ← jf_before_mode x; Some (content, permission_bits mode)
  | None => None
  end.
Definition of_before (x : JournalFile) : Prop :=
  visible (path_of (jf_target x)) ∧ journal_image x = f0 (path_of (jf_target x)) ∧
  jf_before x = option_map fst (f0 (path_of (jf_target x))).

(** The files of a record are what there was before the transaction, no
    other file changes, and what changed has followed. *)
Definition covers (record : JournalRecord) (a : astate) : Prop :=
  Forall of_before (jr_files record) ∧
  (∀ q, q ∉ map (fun x => path_of (jf_target x)) (jr_files record) → a_files a q = f0 q) ∧ followed initial a.

Definition tells (record : JournalRecord) (a : astate) : Prop :=
  match jr_phase record with
  | PhaseApplied => ∃ receipt, jr_receipt record = Some receipt ∧ describes key f0 (a_files a) (tr_file_changes receipt)
  | PhaseRolledBack => ∀ q, near (f0 q) (a_files a q)
  | Prepared | FilesApplied | ParticipantCommitStarted => covers record a
  end.

Definition of_plan (record : JournalRecord) : Prop :=
  jr_plan_id record = sp_plan_id (ss_plan sealed) ∧ jr_pre_state_id record = ss_pre_state_id sealed.

Definition journaled (a : astate) : Prop :=
  match a_journal a with
  | None => ∀ q, a_files a q = f0 q
  | Some b => ∃ record, decode_journal config b = Some record ∧ of_plan record ∧ tells record a
  end.

(** The receipt is in the journal. *)
Definition recorded (receipt : SetupTransactionReceipt) (a : astate) : Prop :=
  ∃ b record, a_journal a = Some b ∧ decode_journal config b = Some record ∧ of_plan record ∧
    jr_phase record = PhaseApplied ∧ jr_receipt record = Some receipt.

Lemma followed_from a1 a : a_files a1 = f0 → followed a1 a → followed initial a.
Proof. intros E Hfol q. specialize (Hfol q). by rewrite E in Hfol. Qed.

Lemma covers_outside record a a' : covers record a →
  (∀ q, q ∉ map (fun x => path_of (jf_target x)) (jr_files record) → a_files a' q = f0 q) → followed initial a' →
  covers record a'.
Proof. intros [Hb _] Ho Hf. by split. Qed.

Lemma covers_same record a a' : covers record a → a_files a' = a_files a → covers record a'.
Proof. intros (Hb & Ho & Hf) E. unfold covers, followed. by rewrite E. Qed.

(** *** Applying with a journal *)

Lemma journal_files_spec mutations (l : list (FileSnapshot Fd)) : ∀ fl, journal_files mutations l = Ok fl →
  map jf_target fl = map fs_target l ∧
  ∀ x, x ∈ fl → ∃ y, y ∈ l ∧ jf_target x = fs_target y ∧ journal_image x = state_image (fs_before y) ∧
    jf_before x = option_map fst (state_image (fs_before y)).
Proof.
  induction l as [|x l IH]; intros fl Hfl; cbn in Hfl.
  { injection Hfl as <-. split; [done|]. by intros x ?%not_elem_of_nil. }
  unfold journal_file in Hfl.
  destruct (ok_or _ _) as [m|]; [|done]. cbn in Hfl. destruct (journal_files mutations l) as [fl'|]; [|done].
  injection Hfl as <-. destruct (IH _ eq_refl) as [E1 E2]. cbn. rewrite E1. split; [done|].
  intros z [->|Hz]%elem_of_cons.
  - exists x. split; [by left|]. by destruct (fs_before x).
  - destruct (E2 z Hz) as (y & Hy & ?). exists y. split; [by right|done].
Qed.

Definition unfinished (phase : JournalPhase) : bool :=
  match phase with Prepared | FilesApplied | ParticipantCommitStarted => true | PhaseApplied | PhaseRolledBack => false end.

(** What is left behind while the record is that of an unfinished transaction *)
Definition pending (record : JournalRecord) (a : astate) : Prop :=
  (∃ b, a_journal a = Some b ∧ decode_journal config b = Some record) ∧ of_plan record ∧ covers record a ∧
  unfinished (jr_phase record) = true.

Lemma pending_journaled record a : pending record a → journaled a.
Proof.
  intros ((b & Hb & Hd) & Ho & Hc & Hp). unfold journaled. rewrite Hb. exists record. split; [done|split; [done|]].
  unfold tells. by destruct (jr_phase record).
Qed.

Lemma pending_files record a a' : pending record a → a_journal a' = a_journal a →
  (∀ q, q ∉ map (fun x => path_of (jf_target x)) (jr_files record) → a_files a' q = f0 q) → followed initial a' →
  pending record a'.
Proof. intros (Hb & Ho & Hc & Hp) Hj Hf Hfol. split; [by rewrite Hj|split; [done|split; [by eapply covers_outside|done]]]. Qed.

(** A phase is recorded, or the journal is as it was. *)
Lemma does_record_phase phase j a (Q : astate → result DurableJournal WorkspaceError → Prop) :
  belongs j → pending (dj_record j) a → unfinished phase = true →
  (∀ a', a_files a' = a_files a → pending (dj_record (with_phase phase None j)) a' → Q a' (Ok (with_phase phase None j))) →
  (∀ a' e, journaled a' → Q a' (Err e)) →
  does seen (set_phase phase None j) a Q.
Proof.
  intros Hj Hp Hphase H1 H2.
  assert (∀ b, decode_journal config b = Some (dj_record (with_phase phase None j)) →
    pending (dj_record (with_phase phase None j)) (set_journal (Some b) a)) as Hnew.
  { intros b Hb. destruct Hp as (_ & Ho & Hc & _). split; [by exists b|done]. }
  apply does_set_phase; [done|..].
  - intros b Hb. apply H1; [done|by apply Hnew].
  - intros e. apply H2. by eapply pending_journaled.
  - intros b e Hb. apply H2. by eapply pending_journaled, Hnew.
Qed.

(** A phase that ends the transaction *)
Lemma does_end_phase phase receipt j a (Q : astate → result DurableJournal WorkspaceError → Prop) :
  belongs j → pending (dj_record j) a →
  tells (dj_record (with_phase phase receipt j)) a →
  (∀ b, decode_journal config b = Some (dj_record (with_phase phase receipt j)) → journaled (set_journal (Some b) a) →
        Q (set_journal (Some b) a) (Ok (with_phase phase receipt j))) →
  (∀ a' e, a_files a' = a_files a → journaled a' → Q a' (Err e)) →
  does seen (set_phase phase receipt j) a Q.
Proof.
  intros Hj Hp Ht H1 H2.
  assert (∀ b, decode_journal config b = Some (dj_record (with_phase phase receipt j)) → journaled (set_journal (Some b) a)) as Hnew.
  { intros b Hb. exists (dj_record (with_phase phase receipt j)). split; [done|split; [apply Hp|done]]. }
  apply does_set_phase; [done|..]; auto.
  intros e. apply H2; [done|]. by eapply pending_journaled.
Qed.

Lemma does_create_journal mutations payload a s (Q : astate → result DurableJournal WorkspaceError → Prop) :
  Forall (good fd_place a) (ws_files s) → a_journal a = None → (∀ q, a_files a q = f0 q) →
  (∀ a' j, belongs j → pending (dj_record j) a' → a_files a' = a_files a →
           map (fun x => path_of (jf_target x)) (jr_files (dj_record j)) = paths_of (ws_files s) → Q a' (Ok j)) →
  (∀ a' e, a_files a' = a_files a → journaled a' → Q a' (Err e)) →
  does seen (create_journal config sealed s mutations payload) a Q.
Proof.
  intros Hg Hn Hf H1 H2. unfold create_journal. assert (journaled a) as H0 by (unfold journaled; by rewrite Hn).
  apply does_bind, does_lift. destruct (journal_files mutations (ws_files s)) as [fl|e] eqn:Efl; [|by apply H2].
  apply journal_files_spec in Efl as [Et Efl]. cbv zeta. set (j := mk_journal _ _ _ _).
  assert (belongs j) as Hj by done.
  assert (map (fun x => path_of (jf_target x)) fl = paths_of (ws_files s)) as Hpaths.
  { unfold paths_of. by rewrite <- (map_map jf_target path_of), Et, map_map. }
  assert (∀ b, decode_journal config b = Some (dj_record j) → pending (dj_record j) (set_journal (Some b) a)) as Hp.
  { intros b Hb. split; [by exists b|split; [done|split; [|done]]]. split; [|split; [by intros q _; apply Hf|by intros q; left; apply Hf]].
    cbn. apply Forall_forall. intros x Hx. apply Efl in Hx as (y & Hy & E1 & E2 & E3).
    rewrite Forall_forall in Hg. destruct (Hg y Hy) as (Hv & Hb' & _). unfold of_before. by rewrite E1, E2, E3, Hb', Hf. }
  apply does_bind, does_persist; [done|..].
  - intros b Hb. apply does_ret, H1; [done|by apply Hp|done|done].
  - intros e. by apply H2.
  - intros b e Hb. apply H2; [done|]. by eapply pending_journaled, Hp.
Qed.

(** The participant's commit, and the journal after it *)
Lemma does_commit_durable completed mutations j a1 a (s : WorkspaceSnapshot Fd) :
  belongs j → pending (dj_record j) a →
  map (fun x => path_of (jf_target x)) (jr_files (dj_record j)) = paths_of (ws_files s) →
  a_files a1 = f0 → a_journal a1 = a_journal a →
  intact root fd_place a1 a s → Forall (holds_after a) (ws_files s) →
  does seen (fun w =>
    match commit w with
    | (w1, Err code) => undo_with s (Participant "commit" code) w1
    | (w1, Ok _) =>
        let receipt := build_receipt (ss_plan sealed) false mutations s completed key in
        (do? _ := (do? _ := set_phase PhaseApplied (Some receipt) j in io_ret tt) in
         io_ret (mk_transaction receipt s)) w1
    end) a (fun a' r =>
    journaled a' ∧ match r with Ok tx => recorded (st_receipt tx) a' | Err _ => True end).
Proof.
  intros Hj Hp Hpaths Hf1 Hj1 HI Hall w w' r Hw Hm. destruct (commit w) as [w1 r1] eqn:E1.
  pose proof (quiet_run seen _ _ _ _ _ commit_quiet E1 Hw) as Hw1. revert Hm. destruct r1 as [u|e].
  - set (receipt := build_receipt _ _ _ _ _ _). apply (fun D => D w1 w' r Hw1).
    assert (tells (dj_record (with_phase PhaseApplied (Some receipt) j)) a) as Ht.
    { exists receipt. split; [done|]. rewrite <- Hf1. by apply (receipt_describes key a1). }
    apply does_bind, does_bind, does_end_phase; [done|done|done| |done].
    intros b Hb Hj5. apply does_ret, does_ret. split; [done|].
    exists b, (dj_record (with_phase PhaseApplied (Some receipt) j)). split; [done|split; [done|split; [apply Hp|done]]].
  - apply (fun D => D w1 w' r Hw1). apply (does_undo_with a1); [done|].
    intros a5 Hj5 Ho5. assert (journaled a5) as H5; [|done].
    destruct Ho5 as [Ho5 Hfol5].
    eapply pending_journaled, pending_files; [exact Hp|by rewrite Hj5| |by apply (followed_from a1)].
    rewrite Hpaths. intros q Hq. by rewrite Ho5, Hf1.
Qed.

Lemma does_change_durable completed mutations a s : Forall (good fd_place a) (ws_files s) →
  ws_workspace_root s = root → fd_place (ws_root_directory s) = [] → a_journal a = None → a_files a = f0 →
  does seen (change_workspace sealed key root completed mutations s (Some config)) a (fun a' r =>
    journaled a' ∧ match r with Ok tx => recorded (st_receipt tx) a' | Err _ => True end).
Proof.
  intros Hg Hr Hd Hn Hfe. assert (∀ q, a_files a q = f0 q) as Hf by (by rewrite Hfe).
  assert (journaled a) as H0 by (unfold journaled; by rewrite Hn).
  unfold change_workspace. apply does_bind, does_bind, does_or_abort, quiet_at_stage; [auto with calm|].
  intros [payload|e]; [|done]. apply does_bind, does_create_journal; [done..| |done].
  intros a1 j Hj Hp Hf1 Hpaths. apply does_ret, does_bind.
  assert (intact root fd_place a1 a1 s) as HI.
  { apply intact_start; [|done|done]. eapply Forall_impl; [exact Hg|]. unfold good. by rewrite Hf1. }
  assert (∀ a2, a_journal a2 = a_journal a1 → moved a1 a2 s → pending (dj_record j) a2) as Hmoved.
  { intros a2 Hj2 [Ho Hfol]. eapply pending_files; [exact Hp|done| |by apply (followed_from a1); [rewrite Hf1|]].
    rewrite Hpaths. intros q Hq. by rewrite Ho, Hf1, Hf. }
  eapply does_weaken; [apply (does_write_files journaled); [exact HI|..]|].
  - intros a2 Hj2 Ho. by eapply pending_journaled, Hmoved.
  - intros j' a2 [= <-] Hj2 Ho Hs. pose proof (Hmoved a2 Hj2 Ho) as Hp2.
    apply does_end_phase; [done|done|intros q; by rewrite <- Hf, <- Hf1|done|].
    intros a3 e Hf3 Hb. split; [done|]. intros q. by rewrite Hf3.
  - cbn. intros a2 r Hr2. destruct r as [s2|e]; [|split; [apply Hr2|done]]. destruct Hr2 as (HI2 & Hall & Hpaths2 & _).
    assert (pending (dj_record j) a2) as Hp2.
    { apply Hmoved; [apply HI2|]. split; [rewrite <- Hpaths2; apply HI2|apply HI2]. }
    apply does_bind, does_bind, does_record_phase; [done|done|done| |done]. intros a3 Hf3 Hp3.
    apply does_bind, does_record_phase; [done|done|done| |done]. intros a4 Hf4 Hp4. apply does_ret.
    apply (does_commit_durable _ _ _ (mk_astate (a_files a1) (a_journal a4))); [done|done|by rewrite Hpaths2|by rewrite Hf1|done| |].
    + destruct HI2 as [G1 G2 G3 G4 G5 G6]. split; [done|done| | |done|done]; intros q; rewrite Hf4, Hf3; [apply G3|apply G4].
    + eapply Forall_impl; [exact Hall|]. unfold holds_after. by rewrite Hf4, Hf3.
Qed.

(** *** Recovering *)

(** The parents are those of the files. *)
Definition parents_denote (files : list JournalFile) (parents : list (SecureParent Fd)) : Prop :=
  Forall2 (fun x p => denotes fd_place p (path_of (jf_target x))) files parents.

Lemma does_recoverable_parents d (l : list JournalFile) a : ∀ (Q : astate → result (list (SecureParent Fd)) WorkspaceError → Prop),
  fd_place d = [] → Forall of_before l →
  (∀ parents, parents_denote l parents → Q a (Ok parents)) → (∀ e, Q a (Err e)) →
  does seen (recoverable_parents root d l) a Q.
Proof.
  induction l as [|x l IH]; intros Q Hd Hl H1 H2; cbn [recoverable_parents]; [by apply does_ret, H1; constructor|].
  apply Forall_cons in Hl as [[Hv _] Hl].
  apply does_bind, (does_find_parent root files journal fd_place); [done| |intros _; apply does_bind, does_lift, H2|apply H2].
  intros p Hp. apply does_bind, does_lift. cbn.
  apply does_bind, (does_read_content root files journal fd_place p (path_of (jf_target x))); [done|done| |done].
  apply does_fail_if; [by intros _|intros _]. apply does_bind, IH; [done|done| |done].
  intros parents Hps. apply does_ret, H1. by constructor.
Qed.

Lemma does_restore_journal_file x p path a (Q : astate → result unit WorkspaceError → Prop) :
  of_before x → followed initial a → denotes fd_place p (path_of (jf_target x)) →
  (∀ a' r, only_restores initial a a' [path_of (jf_target x)] →
           (r = Ok tt → near (f0 (path_of (jf_target x))) (a_files a' (path_of (jf_target x)))) → Q a' r) →
  does seen (restore_journal_file_checked x p path) a Q.
Proof.
  intros (Hv & Hi & Hb) Hfol Hp HQ. unfold restore_journal_file_checked. set (q := path_of (jf_target x)) in *.
  assert (∀ e, Q a (Err e)) as HE by (intros e; apply HQ; [apply only_restores_refl|done]).
  assert (only_restores initial a (upd q (f0 q) a) [q]) as Hone by (apply (only_restores_one initial); by apply list_elem_of_singleton).
  apply does_bind, (does_read_content root files journal fd_place p q); [done|done| |apply HE]. rewrite Hb.
  case_bool_decide as E1; [apply does_ret, HQ; [apply only_restores_refl|intros _; by apply (followed_near initial)]|].
  apply does_fail_if; [intros _; apply HE|intros _]. apply does_bind.
  assert (does seen (do? verified := read_content p path in
    io_fail_if (negb (bool_decide (verified = option_map fst (f0 q)))) (RollbackDrift path) (io_ret tt)) (upd q (f0 q) a) Q) as Hcheck.
  { apply does_bind, (does_read_content root files journal fd_place p q); [done|done| |].
    - apply does_fail_if; intros _; [apply HQ; done|]. apply does_ret, HQ; [done|]. intros _. rewrite upd_eq. by left.
    - intros e. apply HQ; done. }
  assert (∀ e, Q (upd q (f0 q) a) (Err e)) as HE' by (intros e; apply HQ; done).
  unfold journal_image in Hi. rewrite Hb in Hi. destruct (f0 q) as [[content bits]|] eqn:E0; cbn [option_map fst] in Hi |- *.
  - destruct (jf_before_mode x) as [mode|]; [|done]. injection Hi as <-.
    apply (does_write_at root files journal fd_place p q _ content (Some mode) false); [done|done|exact Hcheck|exact HE|exact HE'].
  - apply (does_unlink_at root files journal fd_place p q); [done|done|exact Hcheck|exact HE|exact HE'].
Qed.

Lemma restore_journal_files_run l : ∀ w w' a ok,
  Forall (fun xp => of_before xp.1 ∧ denotes fd_place xp.2 (path_of (jf_target xp.1))) l → followed initial a →
  seen w a → restore_journal_files root l w = (w', ok) →
  ∃ a', seen w' a' ∧ only_restores initial a a' (map (fun xp => path_of (jf_target xp.1)) l) ∧
        (ok = true → ∀ q, q ∈ map (fun xp => path_of (jf_target xp.1)) l → near (f0 q) (a_files a' q)).
Proof.
  induction l as [|[x p] l IH]; intros w w' a ok Hl Hfol Hw Hm; cbn [restore_journal_files] in Hm.
  { injection Hm as <- <-. exists a. split; [done|]. split; [apply only_restores_refl|]. by intros _ q ?%not_elem_of_nil. }
  apply Forall_cons in Hl as [[Hb Hp] Hl]. cbn in Hb, Hp.
  destruct (restore_journal_file_checked x p _ w) as [w1 r1] eqn:E1.
  destruct (does_restore_journal_file x p _ a (fun a' r => only_restores initial a a' [path_of (jf_target x)] ∧
    (r = Ok tt → near (f0 (path_of (jf_target x))) (a_files a' (path_of (jf_target x))))) Hb Hfol Hp ltac:(done) _ _ _ Hw E1)
    as (a1 & Hw1 & Ho1 & Hr1).
  destruct (restore_journal_files root l w1) as [w2 ok2] eqn:E2. injection Hm as <- <-.
  destruct (IH _ _ _ _ Hl (only_restores_followed _ _ _ _ Ho1 Hfol) Hw1 E2) as (a2 & Hw2 & Ho2 & Hr2). exists a2. split; [done|].
  split; [by eapply (only_restores_trans _ _ _ _ [_])|]. destruct r1 as [[]|]; [|done]. intros Hok q Hq.
  cbn in Hq. apply elem_of_cons in Hq as [->|Hq]; [|by apply Hr2]. apply (only_restores_keep initial _ _ _ _ Ho2). by apply Hr1.
Qed.

(** A recovery either puts everything back and says so, or leaves a state
    from which it can be repeated. *)
Lemma does_recover_locked j a : belongs j → pending (dj_record j) a →
  does seen (recover_locked root j) a (fun a' r =>
    journaled a' ∧ match r with Ok JRolledBack => ∀ q, near (f0 q) (a_files a' q) | Ok _ => False | Err _ => True end).
Proof.
  intros Hj Hp. pose proof (pending_journaled _ _ Hp) as H0. pose proof Hp as (_ & _ & (Hb & Ho & Hfol) & _).
  unfold recover_locked. apply does_bind, does_at_path, (does_open_root root files journal fd_place); [|done]. intros d Hd. cbn.
  apply does_bind, does_recoverable_parents; [done|done| |done]. intros parents Hps.
  apply does_bind, quiet_at_stage; [auto with calm|]. intros [u|e]; [|done].
  intros w w' r Hw Hm. destruct (rollback w) as [w1 r1] eqn:E1. pose proof (quiet_run seen _ _ _ _ _ rollback_quiet E1 Hw) as Hw1.
  destruct (restore_journal_files root _ w1) as [w2 ok] eqn:E2. set (l := rev (zip _ _)) in *.
  assert (Forall (fun xp => of_before xp.1 ∧ denotes fd_place xp.2 (path_of (jf_target xp.1))) l) as Hl.
  { apply Forall_rev. clear - Hps Hb. induction Hps as [|x p xs ps Hxp Hps IH]; [done|]. apply Forall_cons in Hb as [Hx Hb].
    apply Forall_cons. split; [done|by apply IH]. }
  assert (∀ q, q ∈ map (fun xp => path_of (jf_target xp.1)) l ↔ q ∈ map (fun x => path_of (jf_target x)) (jr_files (dj_record j))) as Hpaths.
  { intros q. unfold l. rewrite map_rev, <- Permutation_rev, <- (map_map fst (fun x => path_of (jf_target x))).
    rewrite fst_zip; [done|]. by rewrite (Forall2_length _ _ _ Hps). }
  destruct (restore_journal_files_run l _ _ _ _ Hl Hfol Hw1 E2) as (a2 & Hw2 & Hor2 & Hr2).
  pose proof (only_restores_followed _ _ _ _ Hor2 Hfol) as Hfol2. destruct Hor2 as [Hj2 Ho2].
  assert (pending (dj_record j) a2) as Hp2.
  { eapply pending_files; [done|done| |done]. intros q Hq. destruct (Ho2 q) as [->|[_ ->]]; [by apply Ho|done]. }
  destruct (negb _ || negb ok) eqn:Eok.
  { injection Hm as <- <-. exists a2. split; [done|]. split; [by eapply pending_journaled|done]. }
  apply orb_false_iff in Eok as [_ ->%negb_false_iff].
  assert (∀ q, near (f0 q) (a_files a2 q)) as Hall.
  { intros q. destruct (decide (q ∈ map (fun x => path_of (jf_target x)) (jr_files (dj_record j)))) as [Hq|Hq].
    - apply Hr2; [done|]. by apply Hpaths.
    - left. destruct (Ho2 q) as [->|[_ ->]]; [by apply Ho|done]. }
  revert Hm. apply (fun D => D w2 w' r Hw2). apply does_bind, does_end_phase; [done|done|done| |done].
  intros b _ Hb2. by apply does_ret.
Qed.

(** What a recovery says holds, and a receipt that is recorded stays. *)
Definition recovers (a a' : astate) (r : result JournalRecovery WorkspaceError) : Prop :=
  journaled a' ∧
  (∀ receipt, recorded receipt a → recorded receipt a' ∧ ∀ o, r = Ok o → o = JApplied receipt) ∧
  match r with
  | Ok (JApplied receipt) => describes key f0 (a_files a') (tr_file_changes receipt)
  | Ok JAbsent => ∀ q, a_files a' q = f0 q
  | Ok JRolledBack => ∀ q, near (f0 q) (a_files a' q)
  | Err _ => True
  end.

Lemma recovers_error a e : journaled a → recovers a a (Err e).
Proof. intros Hj. split; [done|]. split; [|done]. intros receipt Hr. split; [done|]. by intros o [=]. Qed.

Lemma recorded_record b record receipt a : a_journal a = Some b → decode_journal config b = Some record →
  recorded receipt a → jr_phase record = PhaseApplied ∧ jr_receipt record = Some receipt.
Proof.
  intros Hb Hdec (b' & record' & Hb' & Hd' & _ & H1 & H2). rewrite Hb in Hb'. injection Hb' as <-. rewrite Hdec in Hd'.
  by injection Hd' as <-.
Qed.

Lemma decoded_belongs b record : decode_journal config b = Some record →
  belongs (mk_journal (jc_request_id config) (jc_path config) (jc_key config) record).
Proof.
  unfold decode_journal. destruct (_ || _); [done|]. destruct (aead_open _ _ _ _); [|done]. cbn [mbind option_bind].
  destruct (record_from_slice _) as [rc|]; [|done]. cbn [mbind option_bind]. destruct (_ || _) eqn:E; [done|]. intros [= ->].
  by apply orb_false_iff in E as [E1%negb_false_iff%N.eqb_eq E2%negb_false_iff%String.eqb_eq].
Qed.

Lemma does_recover_unfinished workspace_root j a :
  (∀ w w' r, canonicalize_path workspace_root w = (w', Ok r) → r = root) →
  belongs j → pending (dj_record j) a → (∀ receipt, ¬ recorded receipt a) →
  does seen (do? root0 := at_path workspace_root (canonicalize_path workspace_root) in
             with_workspace_lock root0 (recover_locked root0 j)) a (recovers a).
Proof.
  intros Hroot Hj Hp Hnot. pose proof (pending_journaled _ _ Hp) as H0.
  apply does_bind, does_at_path, does_quiet; [auto with calm|]. intros w w' [r|e] E; cbn; [|by apply recovers_error].
  apply Hroot in E as ->. apply does_with_lock; [done|by intros e; apply recovers_error|].
  eapply does_weaken; [by apply does_recover_locked|]. intros a' r [Hj' Hr]. split; [done|]. split; [by intros ? ?%Hnot|].
  by destruct r as [[]|].
Qed.

Lemma does_recover workspace_root a :
  (∀ w w' r, canonicalize_path workspace_root w = (w', Ok r) → r = root) → journaled a →
  does seen (recover_setup_plan_journal workspace_root (sp_plan_id (ss_plan sealed)) (ss_pre_state_id sealed) config) a
    (recovers a).
Proof.
  intros Hroot H0. unfold recover_setup_plan_journal. apply does_bind, does_load.
  - intros Hn. apply does_ret. split; [done|]. split; [|by unfold journaled in H0; rewrite Hn in H0].
    intros receipt (b & record & Hb & _). congruence.
  - intros e. by apply recovers_error.
  - intros b record Hb Hdec. cbn [dj_record]. apply does_fail_if; [by intros _; apply recovers_error|intros _].
    pose proof (fun x => recorded_record b record x a Hb Hdec) as Hrec. pose proof H0 as H1.
    unfold journaled in H1. rewrite Hb in H1. destruct H1 as (record' & Hd' & Ho & Ht). rewrite Hdec in Hd'.
    injection Hd' as <-.
    assert (unfinished (jr_phase record) = true → does seen
      (do? root0 := at_path workspace_root (canonicalize_path workspace_root) in
       with_workspace_lock root0 (recover_locked root0 (mk_journal (jc_request_id config) (jc_path config) (jc_key config) record))) a
      (recovers a)) as Hunfinished.
    { intros Hu. apply does_recover_unfinished; [done|by eapply decoded_belongs| |].
      - split; [by exists b|]. split; [done|]. split; [|done]. unfold tells in Ht. by destruct (jr_phase record).
      - intros receipt [E _]%Hrec. by rewrite E in Hu. }
    unfold tells in Ht. destruct (jr_phase record) eqn:Ep; [by apply Hunfinished..| |].
    + apply does_bind, does_lift. destruct Ht as (receipt & Er & Hd). rewrite Er. cbn.
      apply does_ret. split; [done|]. split; [|done]. intros receipt' Hr. split; [done|]. intros o [= <-].
      apply Hrec in Hr as [_ Hr]. congruence.
    + apply does_ret. split; [done|]. split; [|done]. intros receipt Hr. apply Hrec in Hr as [Hr _]. congruence.
Qed.

(** *** Applying, then recovering *)

Lemma does_apply_durable w : sp_workspace_root (ss_plan sealed) = root →
  Forall (fun x => visible (path_of (sa_target x))) (sp_actions (ss_plan sealed)) →
  journal w = None → files w = f0 →
  does seen (apply_setup_plan_durable sealed key config) (start w) (fun a' r =>
    journaled a' ∧ match r with Ok tx => recorded (st_receipt tx) a' | Err _ => True end).
Proof.
  intros Hroot Hvis Hn Hf. assert (journaled (start w)) as H0 by (unfold journaled; cbn; by rewrite Hn, Hf).
  apply does_apply_inner; [done|done|]. apply does_apply_locked; [done|done|]. intros. by apply does_change_durable.
Qed.

(** One recovery that reports an error *)
Definition failed_recovery (workspace_root : string) (w w' : W) : Prop :=
  ∃ e, recover_setup_plan_journal workspace_root (sp_plan_id (ss_plan sealed)) (ss_pre_state_id sealed) config w = (w', Err e).

Lemma failed_recoveries workspace_root (known : option SetupTransactionReceipt) w w' a :
  (∀ w w' r, canonicalize_path workspace_root w = (w', Ok r) → r = root) →
  rtc (failed_recovery workspace_root) w w' → seen w a → journaled a → (∀ x, known = Some x → recorded x a) →
  ∃ a', seen w' a' ∧ journaled a' ∧ ∀ x, known = Some x → recorded x a'.
Proof.
  intros Hroot Hr. revert a. induction Hr as [w|w w1 w' [e E] _ IH]; intros a Hw Hj Hk; [by exists a|].
  destruct (does_recover workspace_root a Hroot Hj _ _ _ Hw E) as (a1 & Hw1 & Hj1 & Hk1 & _).
  apply (IH a1); [done..|]. intros x Hx. by apply Hk1, Hk.
Qed.
End with_journal.

(** C6: a journaled apply that ended in whatever way (a crash included),
    followed by any number of recoveries that failed or crashed, and one that
    returns: when that reports a rollback, every file of the workspace is put
    back, content and permission bits (of a file whose content did not change
    the bits may have become executable); when it reports no journal, every
    file is exactly as it was; when it reports a receipt, the receipt describes
    exactly what changed.  If the apply returned, it is its receipt that is
    reported.  Temporary files (names that begin with [.phantom-tmp-]) are not
    looked at: a crash may leave one. *)
Theorem setup_recovered config (JL : JournalFileLaws F H (jc_path config) files journal) sealed key workspace_root w w1 r w2 w3 o :
  records_read_back → seals_open →
  sp_workspace_root (ss_plan sealed) = root →
  Forall (fun x => visible (path_of (sa_target x))) (sp_actions (ss_plan sealed)) →
  (∀ w w' r, canonicalize_path workspace_root w = (w', Ok r) → r = root) →
  journal w = None →
  apply_setup_plan_durable sealed key config w = (w1, r) →
  rtc (failed_recovery config sealed workspace_root) w1 w2 →
  recover_setup_plan_journal workspace_root (sp_plan_id (ss_plan sealed)) (ss_pre_state_id sealed) config w2 = (w3, Ok o) →
  match o with
  | JAbsent => same_files (files w) (files w3)
  | JRolledBack => put_back (files w) (files w3)
  | JApplied receipt => describes key (files w) (files w3) (tr_file_changes receipt)
  end ∧
  ∀ tx, r = Ok tx → o = JApplied (st_receipt tx).
Proof.
  intros Hserde Hseal Hroot Hvis Hcanon Hn Hm Hfailed Hrec.
  destruct (does_apply_durable config Hserde Hseal key sealed (files w) w Hroot Hvis Hn eq_refl _ _ _ (seen_start w) Hm)
    as (a1 & Hw1 & Hj1 & Hr1).
  destruct (failed_recoveries config Hserde Hseal key sealed (files w) workspace_root
    (match r with Ok tx => Some (st_receipt tx) | Err _ => None end) w1 w2 a1 Hcanon Hfailed Hw1 Hj1
    ltac:(destruct r; by intros ? [= <-])) as (a2 & Hw2 & Hj2 & Hk2).
  destruct (does_recover config Hserde Hseal key sealed (files w) workspace_root a2 Hcanon Hj2 _ _ _ Hw2 Hrec)
    as (a3 & Hw3 & _ & Hk3 & Ho). split.
  - destruct o; [by apply (same_seen _ _ a3 Hw3), Ho|by apply (put_back_seen _ _ a3 Hw3), Ho|]. by apply (describes_seen key (start w) _ _ a3).
  - intros tx ->. by apply (Hk3 (st_receipt tx) (Hk2 _ eq_refl)).
Qed.
End txn_spec.
