(* ===== verification/DemoWorkspace.v ===== *)
(** * An in-memory machine for setup transactions

    The workspace is a list of files by path, with their modes, and a list of directories; a
    participant keeps the value it protects in a vault.  Every call that may
    change something is counted, and the calls of a window fail without an
    effect, which makes a single failure as well as a crash.  The interfaces
    of the setup transaction have instances that obey their laws, and the
    theorems are applied to concrete runs; some runs show where the code does
    not do what it says. *)

From S2P Require Import Prelude Text Ids External Canonical DemoSerde VaultCrypto VaultCryptoSpec StateDir AnchoredFs Bytes Dotenv Classify HookText Workspace WorkspaceTxn WorkspaceFilesSpec WorkspaceTxnSpec WorkspaceSpec.

Record machine := mk_machine {
  mc_files : list (list string * (string * N));
  mc_directories : list (list string);
  mc_journal : option string;
  (** what the participant has staged, and what is in its vault *)
  mc_staged : option string;
  mc_vault : option string;
  mc_calls : N;
  (** the calls that fail: from the first number on, up to the second *)
  mc_window : N * N;
}.

Definition demo_workspace_root : string := "/w".
Definition journal_path : string := "/state/journal".
Definition hook_directory : string := ".hooks".

Fixpoint lookup_file (p : list string) (l : list (list string * (string * N))) : option (string * N) :=
  match l with
  | [] => None
  | (q, c) :: rest => if bool_decide (q = p) then Some c else lookup_file p rest
  end.
Definition put_file (p : list string) (x : option (string * N)) (l : list (list string * (string * N))) : list (list string * (string * N)) :=
  let rest := List.filter (fun e => negb (bool_decide (e.1 = p))) l in
  match x with Some c => (p, c) :: rest | None => rest end.

Definition raw_file (w : machine) (p : list string) : option (string * N) := lookup_file p (mc_files w).
Definition file_of (w : machine) (p : list string) : option file_image := option_map image_of (raw_file w p).
Definition content_of (w : machine) (p : list string) : option string := option_map fst (raw_file w p).

Definition with_file (p : list string) (x : option (string * N)) (w : machine) : machine :=
  mk_machine (put_file p x (mc_files w)) (mc_directories w) (mc_journal w) (mc_staged w) (mc_vault w) (mc_calls w) (mc_window w).
Definition with_directories (l : list (list string)) (w : machine) : machine :=
  mk_machine (mc_files w) l (mc_journal w) (mc_staged w) (mc_vault w) (mc_calls w) (mc_window w).
Definition with_journal (x : option string) (w : machine) : machine :=
  mk_machine (mc_files w) (mc_directories w) x (mc_staged w) (mc_vault w) (mc_calls w) (mc_window w).
Definition with_values (staged vault : option string) (w : machine) : machine :=
  mk_machine (mc_files w) (mc_directories w) (mc_journal w) staged vault (mc_calls w) (mc_window w).
Definition counted (w : machine) : machine :=
  mk_machine (mc_files w) (mc_directories w) (mc_journal w) (mc_staged w) (mc_vault w) (mc_calls w + 1)%N (mc_window w).

(** A counted call *)
Definition call {E T} (e : E) (m : io machine E T) : io machine E T := fun w =>
  if (fst (mc_window w) <=? mc_calls w)%N && (mc_calls w <? snd (mc_window w))%N then (counted w, Err e) else m (counted w).

(** ** The file system *)

(** The path below the root that a text names *)
Definition below (p : string) : option (list string) :=
  match components p with RootDir :: Normal "w" :: rest => Some (omap component_name rest) | _ => None end.
Definition is_directory (w : machine) (p : list string) : bool := bool_decide (p = []) || bool_decide (p ∈ mc_directories w).

Definition plain_file : FileMeta := mk_meta RegularFile 0 1 420.
Definition plain_directory : FileMeta := mk_meta Directory 0 2 493.

Definition stat_path (w : machine) (p : list string) : result FileMeta ErrorKind :=
  match raw_file w p with
  | Some (_, mode) => Ok (mk_meta RegularFile 0 1 mode)
  | None => if is_directory w p then Ok plain_directory else Err NotFound
  end.

(** What a path leads to: the journal, or a file below the root *)
Definition leads_to (w : machine) (p : string) : option string :=
  if String.eqb p journal_path then mc_journal w else q ← below p; content_of w q.

(** The files at the root *)
Definition root_tree (w : machine) : dir_tree :=
  DirTree (omap (fun e => match e.1 with [n] => Some (n, EFile) | _ => None end) (mc_files w)).

#[export] Instance demo_workspace_fs : WorkspaceFs machine := {|
  lstat p w := (w,
    if String.eqb p journal_path then match mc_journal w with Some _ => Ok plain_file | None => Err NotFound end
    else match below p with Some q => stat_path w q | None => Err OtherKind end);
  is_dir p w := (w, Ok (match below p with Some q => is_directory w q | None => false end));
  path_exists p w := (w, Ok (match below p with Some q => is_directory w q | None => false end));
  canonicalize_path p w := (w, if bool_decide (below p = None) then Err OtherKind else Ok p);
  read_text p w := (w, ok_or (leads_to w p) NotFound);
  read_file_bytes p w := (w, match leads_to w p with
                             | Some c => if (str_len c <? 2 ^ 64)%N then Ok c else Err OtherKind
                             | None => Err NotFound
                             end);
  read_tree p w := (w, Ok (root_tree w));
  read_nofollow p w := (w, Ok (match leads_to w p with Some c => NfContent c | None => NfMissing end));
  resolve_hook_path p w := (w, Ok (Some (join_path (join_path p hook_directory) "pre-commit")));
  default_config_toml id := Ok ("project_id = " +:+ id)%string;
|}.

(** A descriptor is the path it was opened with. *)
#[export] Instance demo_txn_fs : TxnFs machine (list string) := {|
  open_root_dir p := call OtherKind (fun w => (w, Ok []));
  dup_fd d := call OtherKind (fun w => (w, Ok d));
  fd_identity d := call OtherKind (fun w => (w, Ok (mk_identity 1 1)));
  path_identity p := call OtherKind (fun w => (w, Ok (mk_identity 1 1)));
  openat_directory d n := call OtherKind (fun w =>
    (w, if bool_decide (d ++ [n] ∈ mc_directories w) then Ok (d ++ [n])
        else if existsb (fun e => bool_decide (take (S (length d)) e.1 = d ++ [n])) (mc_files w) then Err OtherKind
        else Err NotFound));
  openat_read d n := call OtherKind (fun w =>
    (w, match raw_file w (d ++ [n]) with Some _ => Ok (d ++ [n]) | None => Err NotFound end));
  openat_create d n := call OtherKind (fun w =>
    match raw_file w (d ++ [n]) with
    | Some _ => (w, Err AlreadyExists)
    | None => (with_file (d ++ [n]) (Some (EmptyString, 384%N)) w, Ok (d ++ [n]))
    end);
  mkdirat d n := call OtherKind (fun w => (with_directories ((d ++ [n]) :: mc_directories w) w, Ok tt));
  fstatat d n := call OtherKind (fun w => (w, stat_path w (d ++ [n])));
  fd_metadata d := call OtherKind (fun w => (w, stat_path w d));
  read_fd h := call OtherKind (fun w => (w, ok_or (content_of w h) OtherKind));
  write_fd h c := call OtherKind (fun w =>
    (with_file h (Some (c, match raw_file w h with Some f => f.2 | None => 384%N end)) w, Ok tt));
  fchmod h m := call OtherKind (fun w =>
    match raw_file w h with
    | None => (w, Err OtherKind)
    | Some f => (with_file h (Some (f.1, m)) w, Ok tt)
    end);
  sync_fd d := call OtherKind (fun w => (w, Ok tt));
  renameat d x y := call OtherKind (fun w =>
    match raw_file w (d ++ [x]) with
    | None => (w, Err NotFound)
    | Some c => (with_file (d ++ [y]) (Some c) (with_file (d ++ [x]) None w), Ok tt)
    end);
  unlinkat d n directory := call OtherKind (fun w =>
    if (directory : bool)
    then (with_directories (List.filter (fun p => negb (bool_decide (p = d ++ [n]))) (mc_directories w)) w, Ok tt)
    else match raw_file w (d ++ [n]) with
         | None => (w, Err NotFound)
         | Some _ => (with_file (d ++ [n]) None w, Ok tt)
         end);
  next_temp w := (w, ("1", N_to_string (mc_calls w))%string);
|}.

#[export] Instance demo_txn_host : TxnHost machine (list string) := {|
  temp_dir := "/tmp"%string;
  ensure_private_leaf_dir p w := (w, Ok tt);
  open_owned_directory p c w := (w, Ok []);
  open_owned_file_at d n c w := (w, Ok []);
  lock_file_exclusive d w := (w, Ok tt);
  release_lock d w := w;
  fs_atomic_write p b := call OtherKind (fun w => ((if String.eqb p journal_path then with_journal (Some b) w else w), Ok tt));
  remove_path p := call OtherKind (fun w => (with_journal None w, Ok tt));
  sync_parent_dir p := call OtherKind (fun w => (w, Ok tt));
  random_nonce w := (w, demo_nonce);
|}.

(** The participant takes over the entries of one dotenv file: the content is
    staged, and committed to the vault. *)
#[export] Instance demo_participant : SetupTransactionParticipant machine := {|
  retained_root_identity w := None;
  prepare plan actions := call "offline"%string (fun w =>
    match List.find (fun a => bool_decide (sa_kind a = ProtectEnvFile)) actions with
    | Some a => (with_values (content_of w (path_of (sa_target a))) (mc_vault w) w,
                 Ok (mk_preparation [sa_id a] [mk_participant_mutation (sa_target a) "API_KEY=phm_token" false]))
    | None => (w, Ok (mk_preparation [] []))
    end);
  commit := call "offline"%string (fun w => (with_values (mc_staged w) (mc_staged w) w, Ok tt));
  rollback := call "offline"%string (fun w => (with_values None None w, Ok tt));
  recovery_payload := call "offline"%string (fun w => (w, Ok EmptyString));
  restore_recovery_payload _ := call "offline"%string (fun w => (w, Ok tt));
|}.

(** ** The laws *)

Lemma lookup_put p q x l : lookup_file q (put_file p x l) = if bool_decide (q = p) then x else lookup_file q l.
Proof.
  assert (lookup_file q (List.filter (fun e => negb (bool_decide (e.1 = p))) l) = if bool_decide (q = p) then None else lookup_file q l) as Hf.
  { induction l as [|[r c] l IH]; cbn; [by case_bool_decide|].
    repeat case_bool_decide; cbn; repeat case_bool_decide; subst; congruence. }
  unfold put_file. destruct x as [c|]; [|done]. cbn. rewrite Hf. repeat case_bool_decide; congruence.
Qed.

Lemma file_of_put p q x w : file_of (with_file p x w) q = if bool_decide (q = p) then option_map image_of x else file_of w q.
Proof. unfold file_of, raw_file. cbn. rewrite lookup_put. by case_bool_decide. Qed.

Lemma raw_file_of w p f : file_of w p = Some f → ∃ r, raw_file w p = Some r ∧ f = image_of r.
Proof. unfold file_of. destruct (raw_file w p) as [r|]; [|done]. intros [= <-]. by exists r. Qed.

Lemma call_inv {E T} (e : E) (m : io machine E T) w w' r : call e m w = (w', r) →
  w' = counted w ∧ r = Err e ∨ m (counted w) = (w', r).
Proof. unfold call. destruct (_ && _); [intros [= <- <-]; auto|auto]. Qed.

Lemma quiet_call {E T A} (R : machine → A → Prop) (e : E) (m : io machine E T) :
  (∀ w a, R w a → R (counted w) a) → quiet R m → quiet R (call e m).
Proof.
  intros Hc Hm. apply quiet_intro. intros w w' r a [(-> & _)|H]%call_inv Hw; [by apply Hc|].
  exact (quiet_run R _ _ _ _ _ Hm H (Hc _ _ Hw)).
Qed.

Definition demo_seen := seen_at file_of mc_journal visible.

#[export] Instance demo_fs_quiet {A} (R : machine → A → Prop) : FsQuiet R demo_workspace_fs.
Proof. constructor; intros p; apply quiet_intro; intros w w' r a [= <- <-]; done. Qed.

#[export] Instance demo_lock_quiet {A} (R : machine → A → Prop) : LockQuiet R demo_txn_host.
Proof. constructor; intros; try done; apply quiet_intro; by intros w w' r a [= <- <-]. Qed.

#[export] Instance demo_participant_quiet : ParticipantQuiet demo_seen demo_participant.
Proof.
  constructor; intros; (apply quiet_call; [done|]); apply quiet_intro; intros w w' r a Hm Hw; try (by injection Hm as <- <-).
  destruct (List.find _ _); by injection Hm as <- <-.
Qed.

(** A counted call, as a case of two *)
Ltac called Hm := apply call_inv in Hm as [(-> & ->)|Hm]; [split_and!; (done || (by intros; discriminate))|].

Lemma missing_below d n w q :
  existsb (fun e => bool_decide (take (S (length d)) e.1 = d ++ [n])) (mc_files w) = false → file_of w (d ++ n :: q) = None.
Proof.
  intros H0. assert (raw_file w (d ++ n :: q) = None) as E; [|unfold file_of; by rewrite E]. revert H0.
  unfold raw_file. generalize (mc_files w). intros l. induction l as [|[r c] l IH]; cbn; [done|].
  intros [H1%bool_decide_eq_false H2]%orb_false_iff. case_bool_decide as E; [|by apply IH]. subst r. exfalso. apply H1.
  change (n :: q) with ([n] ++ q). rewrite app_assoc. rewrite take_app_length'; [done|]. rewrite length_app. cbn. lia.
Qed.

#[export] Instance demo_txn_fs_laws : TxnFsLaws demo_txn_fs demo_workspace_root file_of mc_journal (fun d => d).
Proof.
  constructor.
  - intros w w' r Hm. called Hm. injection Hm as <- <-. split_and!; [done..|]. by intros d [= <-].
  - intros d w w' r Hm. called Hm. injection Hm as <- <-. split_and!; [done..|]. by intros d' [= <-].
  - intros d w w' r Hm. called Hm. by injection Hm as <- <-.
  - intros p w w' r Hm. called Hm. by injection Hm as <- <-.
  - intros d n w w' r Hm. called Hm. injection Hm as <- <-. split_and!; [done..| |].
    + intros d'. case_bool_decide; [by intros [= <-]|]. by destruct (existsb _ _).
    + case_bool_decide; [done|]. destruct (existsb _ _) eqn:E; [done|]. intros _ q. by apply (missing_below _ _ (counted w)).
  - intros d n w w' r Hm. called Hm. injection Hm as <- <-. split_and!; [done..|].
    intros h. by destruct (raw_file _ _); [intros [= <-]|].
  - intros d n w w' r Hm. called Hm. destruct (raw_file (counted w) (d ++ [n])); injection Hm as <- <-; [done|].
    split; [done|]. split_and!; [done| |].
    + eexists. by rewrite file_of_put, bool_decide_true.
    + intros q Hq. by rewrite file_of_put, bool_decide_false.
  - intros d n w w' r Hm. called Hm. by injection Hm as <- <-.
  - intros d n w w' r Hm. called Hm. injection Hm as <- <-. split_and!; [done..|]. unfold stat_path, file_of.
    change (raw_file w (d ++ [n])) with (raw_file (counted w) (d ++ [n])).
    destruct (raw_file (counted w) (d ++ [n])) as [[]|] eqn:E; [done|]. by destruct (is_directory _ _).
  - intros d w w' r Hm. called Hm. injection Hm as <- <-. split_and!; [done..|].
    intros m f Hm (r & Hr & ->)%raw_file_of. change (raw_file w d) with (raw_file (counted w) d) in Hr.
    unfold stat_path in Hm. rewrite Hr in Hm. destruct r as [c mode]. by injection Hm as <-.
  - intros h w w' r Hm. called Hm. injection Hm as <- <-. split_and!; [done..|]. intros c.
    unfold content_of, file_of. change (raw_file w h) with (raw_file (counted w) h).
    by destruct (raw_file (counted w) h) as [[]|]; [intros [= <-]|].
  - intros h c w w' r Hm. called Hm. injection Hm as <- <-. split; [done|]. split.
    + intros q Hq. by rewrite file_of_put, bool_decide_false.
    + intros _ m _ (f & Hr & E)%raw_file_of. change (raw_file w h) with (raw_file (counted w) h) in Hr.
      rewrite Hr, file_of_put, bool_decide_true by done. cbn. injection E as _ ->. done.
  - intros h m w w' r Hm. called Hm. destruct (raw_file (counted w) h) as [f|] eqn:E; injection Hm as <- <-; [|done].
    split; [done|]. split.
    + intros q Hq. by rewrite file_of_put, bool_decide_false.
    + intros c m0 (f' & Hr & E')%raw_file_of. change (raw_file w h) with (raw_file (counted w) h) in Hr.
      rewrite file_of_put, bool_decide_true by done. rewrite E in Hr. injection Hr as <-. cbn. injection E' as -> _. done.
  - intros d w w' r Hm. called Hm. by injection Hm as <- <-.
  - intros d x y w w' r Hm. called Hm. destruct (raw_file (counted w) (d ++ [x])) as [c|] eqn:E; injection Hm as <- <-; [|done].
    split; [done|]. intros c' (f & Hr & ->)%raw_file_of Hxy. change (raw_file w (d ++ [x])) with (raw_file (counted w) (d ++ [x])) in Hr.
    rewrite E in Hr. injection Hr as <-. split; [by rewrite file_of_put, bool_decide_true|].
    intros q H1 H2. by rewrite !file_of_put, !bool_decide_false.
  - intros d n [] w w' r Hm; called Hm; [by injection Hm as <- <-|].
    destruct (raw_file (counted w) (d ++ [n])) as [c|] eqn:E; injection Hm as <- <-; (split; [done|]).
    + split; [by rewrite file_of_put, bool_decide_true|]. intros q Hq. by rewrite file_of_put, bool_decide_false.
    + split; [done|]. intros _ _. unfold file_of. change (raw_file w (d ++ [n])) with (raw_file (counted w) (d ++ [n])). by rewrite E.
  - intros w w' x [= <- _]. done.
Qed.

Lemma demo_journal_laws : JournalFileLaws demo_workspace_fs demo_txn_host journal_path file_of mc_journal.
Proof.
  constructor.
  - intros w w'. cbn. destruct (mc_journal w); [by intros [=]|done].
  - intros w w' b. unfold read_file_bytes, demo_workspace_fs, leads_to. cbn [String.eqb]. rewrite String.eqb_refl.
    destruct (mc_journal w) as [c|]; [|by intros [=]]. destruct (_ <? _)%N; [|by intros [=]]. by intros [= _ <-].
  - intros b w w' r Hm. apply call_inv in Hm as [(-> & ->)|Hm]; [split_and!; [done|by left|by intros]|].
    cbv beta in Hm. rewrite String.eqb_refl in Hm. injection Hm as <- <-. split_and!; [done|by right|done].
  - intros w w' n [= <- <-]. done.
Qed.

(** ** Records as text *)

#[local] Instance option_to_value {T} `{Serialize T} : Serialize (option T) :=
  fun o => VArray (match o with Some x => [to_value x] | None => [] end).
#[local] Instance option_from_value {T} `{Deserialize T} : Deserialize (option T) := fun v =>
  match v with VArray [] => Some None | VArray [v] => field x := v in Some (Some x) | _ => None end.
#[local] Instance option_decodes {T} `{Decodes T} : Decodes (option T).
Proof.
  intros [x|]; [|done]. unfold from_value at 1; unfold to_value at 1. unfold option_to_value, option_from_value.
  by rewrite from_to_value.
Qed.

#[local] Instance phase_to_value : Serialize JournalPhase := fun p => VString
  (match p with
   | Prepared => "prepared" | FilesApplied => "files_applied" | ParticipantCommitStarted => "participant_commit_started"
   | PhaseApplied => "applied" | PhaseRolledBack => "rolled_back"
   end)%string.
#[local] Instance phase_from_value : Deserialize JournalPhase :=
  decode_enum [Prepared; FilesApplied; ParticipantCommitStarted; PhaseApplied; PhaseRolledBack].
#[local] Instance phase_decodes : Decodes JournalPhase.
Proof. by intros []. Qed.
#[local] Instance state_from_value : Deserialize ActionOutcomeState := decode_enum [OutcomeApplied; AlreadySatisfied; Deferred].
#[local] Instance state_decodes : Decodes ActionOutcomeState.
Proof. by intros []. Qed.
#[local] Instance kind_from_value : Deserialize SetupActionKind := decode_enum
  [InitializeWorkspace; ProtectEnvFile; EnsureEnvIgnoreRules; GenerateEnvExample; InstallPreCommitCheck; ReviewPlaceBinding].
#[local] Instance kind_decodes : Decodes SetupActionKind.
Proof. by intros []. Qed.

#[local] Instance outcome_from_value : Deserialize ActionOutcome := fun v =>
  match v with
  | VObject [(_, a); (_, b); (_, c); (_, d)] =>
      field x := a in field y := b in field z := c in field t := d in Some (mk_outcome x y z t)
  | _ => None
  end.
#[local] Instance outcome_decodes : Decodes ActionOutcome.
Proof. decode_fields Serialize_action_outcome outcome_from_value. Qed.

#[local] Instance change_from_value : Deserialize FileChangeReceipt := fun v =>
  match v with
  | VObject [(_, a); (_, b)] => field x := a in field z := b in Some (mk_change x None z)
  | VObject [(_, a); (_, b); (_, c)] => field x := a in field y := b in field z := c in Some (mk_change x (Some y) z)
  | _ => None
  end.
#[local] Instance change_decodes : Decodes FileChangeReceipt.
Proof.
  intros [t [b|] a]; unfold from_value at 1; unfold to_value at 1; unfold Serialize_change, change_from_value;
    cbn [app]; by rewrite !from_to_value.
Qed.

#[local] Instance receipt_from_value : Deserialize SetupTransactionReceipt := fun v =>
  match v with
  | VObject [(_, a); (_, b); (_, c); (_, d); (_, e); (_, f); (_, g)] =>
      field x1 := a in field x2 := b in field x3 := c in field x4 := d in field x5 := e in field x6 := f in
      field x7 := g in Some (mk_receipt x1 x2 x3 x4 x5 x6 x7)
  | _ => None
  end.
#[local] Instance receipt_decodes : Decodes SetupTransactionReceipt.
Proof. decode_fields Serialize_setup_receipt receipt_from_value. Qed.

#[local] Instance journal_file_to_value : Serialize JournalFile := fun f => VObject
  [("target", to_value (jf_target f)); ("before", to_value (jf_before f)); ("before_mode", to_value (jf_before_mode f));
   ("after", to_value (jf_after f))]%string.
#[local] Instance journal_file_from_value : Deserialize JournalFile := fun v =>
  match v with
  | VObject [(_, a); (_, b); (_, c); (_, d)] =>
      field x := a in field y := b in field z := c in field t := d in Some (mk_journal_file x y z t)
  | _ => None
  end.
#[local] Instance journal_file_decodes : Decodes JournalFile.
Proof. decode_fields journal_file_to_value journal_file_from_value. Qed.

#[local] Instance record_to_value : Serialize JournalRecord := fun r => VObject
  [("schema_version", to_value (jr_schema_version r)); ("request_id", to_value (jr_request_id r));
   ("plan_id", to_value (jr_plan_id r)); ("pre_state_id", to_value (jr_pre_state_id r)); ("phase", to_value (jr_phase r));
   ("files", to_value (jr_files r)); ("participant_payload", to_value (jr_participant_payload r));
   ("receipt", to_value (jr_receipt r))]%string.
#[local] Instance record_from_value : Deserialize JournalRecord := fun v =>
  match v with
  | VObject [(_, a); (_, b); (_, c); (_, d); (_, e); (_, f); (_, g); (_, h)] =>
      field x1 := a in field x2 := b in field x3 := c in field x4 := d in field x5 := e in field x6 := f in
      field x7 := g in field x8 := h in Some (mk_record x1 x2 x3 x4 x5 x6 x7 x8)
  | _ => None
  end.
#[local] Instance record_decodes : Decodes JournalRecord.
Proof. decode_fields record_to_value record_from_value. Qed.

#[export] Instance demo_journal_serde : JournalSerde := {|
  record_to_vec r := Ok (serde_to_vec (to_value r));
  record_from_slice b := v ← serde_parse b; from_value v;
|}.

Lemma demo_records : records_read_back.
Proof.
  intros r b [= <-]. unfold record_from_slice, demo_journal_serde. rewrite serde_parse_to_vec. cbn [mbind option_bind].
  apply from_to_value.
Qed.

(** ** Runs *)

(** A workspace with one secret, a Git remote and a hook directory that may be
    missing *)
Definition quoted (s : string) : string := quote +:+ s +:+ quote.
Definition demo_config : string := "[remote " +:+ quoted "origin" +:+ "]" +:+ line_feed +:+ "url = https://github.com/acme/app.git".
Definition workspace (directories : list (list string)) (window : N * N) : machine :=
  mk_machine [([".env"], ("API_KEY=sk-live-4242424242424242", 384%N)); ([".git"; "config"], (demo_config, 420%N))]%string
    ([".git"%string] :: directories) None None None 0 window.
Definition with_hooks : list (list string) := [[hook_directory]].

Definition demo_key : string := "0123456789abcdef0123456789abcdef".
Definition demo_sealed : SealedSetupPlan :=
  match (build_sealed_setup_plan (H := demo_txn_host) demo_workspace_root demo_key (workspace with_hooks (0, 0)%N)).2 with
  | Ok sealed => sealed
  | Err _ => mk_sealed (mk_plan 0 "" "" "" [] [] []) ""
  end.
Definition demo_journal_config : DurableJournalConfig := mk_journal_config "request-1" journal_path demo_key.

Abbreviation demo_apply directories window := (apply_setup_plan demo_sealed demo_key (workspace directories window)).
Abbreviation demo_apply_durable directories window :=
  (apply_setup_plan_durable demo_sealed demo_key demo_journal_config (workspace directories window)).
Abbreviation demo_recover w := (recover_setup_plan_journal (Fd := list string) demo_workspace_root (sp_plan_id (ss_plan demo_sealed))
  (ss_pre_state_id demo_sealed) demo_journal_config w).

Lemma pair_with_second {A B} (p : A * B) (b : B) : p.2 = b → p = (p.1, b).
Proof. destruct p. by intros <-. Qed.

Definition dotenv_of (w : machine) : option string := content_of w [".env"%string].
Definition secret_line : string := "API_KEY=sk-live-4242424242424242".

Lemma demo_root : sp_workspace_root (ss_plan demo_sealed) = demo_workspace_root.
Proof. vm_compute. reflexivity. Qed.

Definition visible_dec (p : list string) : bool :=
  match last p with Some n => negb (starts_with TEMP_PREFIX n) | None => true end.
Lemma demo_visible : Forall (fun x => visible (path_of (sa_target x))) (sp_actions (ss_plan demo_sealed)).
Proof.
  assert (forallb (fun x => visible_dec (path_of (sa_target x))) (sp_actions (ss_plan demo_sealed)) = true) as E by (vm_compute; reflexivity).
  rewrite forallb_forall in E. apply Forall_forall. intros x Hx%list_elem_of_In%E. unfold visible_dec in Hx. unfold visible.
  destruct (last _); [by apply negb_true_iff|done].
Qed.

Lemma demo_canonical : ∀ w w' r, canonicalize_path demo_workspace_root w = (w', Ok r) → r = demo_workspace_root.
Proof. by intros w w' r [= _ <-]. Qed.

(** The whole plan, and a run in which one call fails after the dotenv file
    was replaced: it is put back. *)
Lemma setup_all_or_nothing_witness :
  (∃ tx, (demo_apply with_hooks (0, 0)%N).2 = Ok tx ∧
     map fc_target (tr_file_changes (st_receipt tx)) = [".env"; ".env.example"; ".gitignore"; ".hooks/pre-commit"; ".phantom.toml"]%string ∧
     describes demo_key (file_of (workspace with_hooks (0, 0)%N)) (file_of (demo_apply with_hooks (0, 0)%N).1)
       (tr_file_changes (st_receipt tx))) ∧
  (demo_apply with_hooks (70, 71)%N).2 = Err (WIo "/w/.gitignore" OtherKind) ∧
  put_back (file_of (workspace with_hooks (70, 71)%N)) (file_of (demo_apply with_hooks (70, 71)%N).1).
Proof.
  assert (match (demo_apply with_hooks (0, 0)%N).2 with
          | Ok tx => map fc_target (tr_file_changes (st_receipt tx)) = [".env"; ".env.example"; ".gitignore"; ".hooks/pre-commit"; ".phantom.toml"]%string
          | Err _ => False
          end) as E1 by (vm_compute; reflexivity).
  assert ((demo_apply with_hooks (70, 71)%N).2 = Err (WIo "/w/.gitignore" OtherKind)) as E2 by (vm_compute; reflexivity).
  split; [|split; [exact E2|]].
  - pose proof (setup_all_or_nothing demo_workspace_root file_of mc_journal (fun d => d) demo_sealed demo_key
      (workspace with_hooks (0, 0)%N) _ _ demo_root demo_visible (surjective_pairing (demo_apply with_hooks (0, 0)%N))) as Ht.
    destruct (demo_apply with_hooks (0, 0)%N).2 as [tx|]; [|contradiction]. exists tx. split; [reflexivity|].
    split; [exact E1|exact (proj1 Ht)].
  - pose proof (setup_all_or_nothing demo_workspace_root file_of mc_journal (fun d => d) demo_sealed demo_key
      (workspace with_hooks (70, 71)%N) _ _ demo_root demo_visible (surjective_pairing (demo_apply with_hooks (70, 71)%N))) as Ht.
    rewrite E2 in Ht. exact Ht.
Defined.

(** A crash after the dotenv file was replaced, a recovery that crashes too,
    and one that does not. *)
Lemma setup_recovered_witness :
  dotenv_of (demo_apply_durable with_hooks (60, 64)%N).1 = Some "API_KEY=phm_token"%string ∧
  (demo_recover (demo_apply_durable with_hooks (60, 64)%N).1).2 = Err (WIo "/w" OtherKind) ∧
  (demo_recover (demo_recover (demo_apply_durable with_hooks (60, 64)%N).1).1).2 = Ok JRolledBack ∧
  put_back (file_of (workspace with_hooks (60, 64)%N))
    (file_of (demo_recover (demo_recover (demo_apply_durable with_hooks (60, 64)%N).1).1).1).
Proof.
  assert ((demo_recover (demo_apply_durable with_hooks (60, 64)%N).1).2 = Err (WIo "/w" OtherKind)) as E1 by (vm_compute; reflexivity).
  assert ((demo_recover (demo_recover (demo_apply_durable with_hooks (60, 64)%N).1).1).2 = Ok JRolledBack) as E2 by (vm_compute; reflexivity).
  split; [vm_compute; reflexivity|]. split; [exact E1|]. split; [exact E2|].
  refine (proj1 (setup_recovered demo_workspace_root file_of mc_journal (fun d => d) demo_journal_config demo_journal_laws
    demo_sealed demo_key demo_workspace_root (workspace with_hooks (60, 64)%N) _ _
    (demo_recover (demo_apply_durable with_hooks (60, 64)%N).1).1 _ JRolledBack
    demo_records demo_seals_open demo_root demo_visible demo_canonical eq_refl
    (surjective_pairing (demo_apply_durable with_hooks (60, 64)%N)) _ _)).
  - eapply rtc_once. exists (WIo "/w" OtherKind). exact (pair_with_second _ _ E1).
  - exact (pair_with_second _ _ E2).
Defined.

(** ** The seal *)

Definition demo_contents (w : machine) (p : string) : option string := leads_to w p.

Lemma demo_absent p w w' : lstat p w = (w', Err NotFound) → demo_contents w p = None.
Proof.
  cbn. unfold demo_contents, leads_to. destruct (String.eqb p journal_path).
  - destruct (mc_journal w); [by intros [=]|done].
  - destruct (below p) as [q|]; [|by intros [=]]. cbn. unfold stat_path. unfold content_of. destruct (raw_file w q) as [[]|]; [by intros [=]|done].
Qed.

Lemma demo_read p w w' c : read_file_bytes p w = (w', Ok c) → demo_contents w p = Some c ∧ fits c.
Proof.
  cbn. unfold demo_contents. destruct (leads_to w p) as [x|]; [|by intros [=]].
  destruct (str_len x <? 2 ^ 64)%N eqn:E; [|by intros [=]]. intros [= _ <-]. split; [done|]. by apply N.ltb_lt.
Qed.

Definition demo_inspection : WorkspaceInspection :=
  match (inspect_workspace demo_workspace_root (workspace with_hooks (0, 0)%N)).2 with
  | Ok i => i
  | Err _ => mk_inspection "" "" false false [] None [] []
  end.

Definition all_fit (l : list string) : bool := forallb (fun s => (str_len s <? 2 ^ 64)%N) l.
Lemma all_fit_spec l : all_fit l = true → Forall fits l.
Proof. unfold all_fit. rewrite forallb_forall. intros H. apply Forall_forall. intros x Hx%list_elem_of_In%H. by apply N.ltb_lt. Qed.

Abbreviation demo_targets := (sealed_targets (ss_plan demo_sealed) demo_inspection).
Abbreviation demo_text w := (sealed_text demo_key (ss_plan demo_sealed) (bound_of demo_contents w demo_workspace_root demo_targets)).

(** What was sealed passes the check, also after another file was added. *)
Lemma seal_binds_contents_witness :
  demo_targets = [".env"; ".env.example"; ".gitignore"; ".hooks/pre-commit"; ".phantom.toml"]%string ∧
  ((demo_targets = demo_targets ∧
    ∀ t, t ∈ demo_targets → demo_contents (with_file ["src"; "main.rs"]%string (Some ("fn main"%string, 420%N)) (workspace with_hooks (0, 0)%N)) (join_path demo_workspace_root t)
                            = demo_contents (workspace with_hooks (0, 0)%N) (join_path demo_workspace_root t)) ∨
   collide (demo_text (workspace with_hooks (0, 0)%N)) (demo_text (with_file ["src"; "main.rs"]%string (Some ("fn main"%string, 420%N)) (workspace with_hooks (0, 0)%N))) ∨
   collide (outer_text demo_key (demo_text (workspace with_hooks (0, 0)%N)))
     (outer_text demo_key (demo_text (with_file ["src"; "main.rs"]%string (Some ("fn main"%string, 420%N)) (workspace with_hooks (0, 0)%N))))).
Proof.
  split; [vm_compute; reflexivity|].
  apply (seal_binds_contents demo_contents demo_absent demo_read (ss_plan demo_sealed) demo_inspection demo_inspection
    demo_workspace_root demo_key (workspace with_hooks (0, 0)%N) (workspace with_hooks (0, 0)%N) (ss_pre_state_id demo_sealed)
    (with_file ["src"; "main.rs"]%string (Some ("fn main"%string, 420%N)) (workspace with_hooks (0, 0)%N))
    (with_file ["src"; "main.rs"]%string (Some ("fn main"%string, 420%N)) (workspace with_hooks (0, 0)%N))).
  - apply N.ltb_lt. vm_compute. reflexivity.
  - apply all_fit_spec. vm_compute. reflexivity.
  - apply all_fit_spec. vm_compute. reflexivity.
  - vm_compute. reflexivity.
  - vm_compute. reflexivity.
Defined.

(** ** Where the code does not do what it says *)

(** One call fails while the second of two files is about to be written in a
    directory that is missing: the restore stops at that file, and the dotenv
    file keeps the token although the participant has given the secret up. *)
Lemma restore_stops_at_unmade_parent :
  (demo_apply [] (70, 71)%N).2 = Err RollbackIncomplete ∧
  dotenv_of (demo_apply [] (70, 71)%N).1 = Some "API_KEY=phm_token"%string ∧
  mc_staged (demo_apply [] (70, 71)%N).1 = None ∧ mc_vault (demo_apply [] (70, 71)%N).1 = None.
Proof. split_and!; vm_compute; reflexivity. Qed.

(** A crash before the directory of a later file was made: every recovery
    reports a drift and changes nothing, although each file has its recorded
    before-image or after-image. *)
Lemma recovery_stops_at_unmade_parent :
  (demo_recover (demo_apply_durable [] (60, 63)%N).1).2 = Err (RollbackDrift "/w/.hooks/pre-commit") ∧
  (demo_recover (demo_recover (demo_apply_durable [] (60, 63)%N).1).1).2 = Err (RollbackDrift "/w/.hooks/pre-commit") ∧
  dotenv_of (demo_recover (demo_recover (demo_apply_durable [] (60, 63)%N).1).1).1 = Some "API_KEY=phm_token"%string.
Proof. split_and!; vm_compute; reflexivity. Qed.

(** The root cannot be checked after [prepare]: the participant, prepared, is
    not told to roll back. *)
Lemma root_check_keeps_participant_prepared :
  (demo_apply [] (15, 16)%N).2 = Err (WIo "/w" OtherKind) ∧
  mc_staged (demo_apply [] (15, 16)%N).1 = Some secret_line.
Proof. split_and!; vm_compute; reflexivity. Qed.

(** A participant that writes the content that is there, executable, and whose
    commit fails *)
Definition chmod_participant : SetupTransactionParticipant machine := {|
  retained_root_identity w := None;
  prepare plan actions w :=
    match List.find (fun a => bool_decide (sa_kind a = ProtectEnvFile)) actions with
    | Some a => (w, Ok (mk_preparation [sa_id a]
                  [mk_participant_mutation (sa_target a) (default EmptyString (content_of w (path_of (sa_target a)))) true]))
    | None => (w, Ok (mk_preparation [] []))
    end;
  commit w := (w, Err "offline"%string);
  rollback w := (w, Ok tt);
  recovery_payload w := (w, Ok EmptyString);
  restore_recovery_payload _ w := (w, Ok tt);
|}.

(** The restore compares contents only: the file keeps the changed mode (0711
    for 0600) under an error that says nothing of it. *)
Lemma unchanged_file_stays_executable :
  let run := apply_setup_plan (P := chmod_participant) demo_sealed demo_key (workspace with_hooks (0, 0)%N) in
  run.2 = Err (Participant "commit" "offline") ∧
  file_of (workspace with_hooks (0, 0)%N) [".env"%string] = Some (secret_line, 384%N) ∧
  file_of run.1 [".env"%string] = Some (secret_line, 457%N).
Proof. split_and!; vm_compute; reflexivity. Qed.
