(* ===== verification/WorkspaceRequest.v ===== *)
(** * Setup requests: [crates/phantom-core/src/workspace_request.rs]

    The MCP server creates a request for a sealed setup plan and gets its
    random identifier; the command line claims the request by presenting the
    workspace, the plan and the pre-state again, applies the plan and records
    the outcome.  A request is a record in a file of its own, authenticated
    under a key of the machine; every operation runs under one lock.  Here are
    the records, the two directories, the keys and every public operation; the
    directories are [StateDir], a reading of the clock and the bytes of the
    random generator are arguments.  The theorems are in
    [WorkspaceRequestSpec]. *)

From S2P Require Import Prelude Text Ids External StateDir.

(** ** Constants *)

Definition REQUEST_TTL_SECS : N := 600.
Definition CLAIM_EXECUTION_TTL_SECS : N := 1800.
Definition MAX_PENDING_PER_WORKSPACE : nat := 16.
Definition RECORD_DOMAIN : string := "phantom.workspace-request.record.v1" +:+ nul.
Definition REQUEST_KEY_FILE : string := "workspace-request-hmac-key".
Definition REQUEST_LOCK_FILE : string := "workspace-requests.lock".
Definition PLAN_KEY_FILE : string := "workspace-plan-seal-key".
Definition PLAN_KEY_DOMAIN : string := "phantom.workspace-plan-seal-key.v1" +:+ nul.
Definition JOURNAL_KEY_FILE : string := "workspace-journal-root-key".
Definition JOURNAL_KEY_DOMAIN : string := "phantom.workspace-journal-key.v1" +:+ nul.

(** ** Data *)

Inductive WorkspaceActionKind :=
  | RequestInitializeWorkspace | ProtectEnvironment | UpdateIgnoreRules | GenerateEnvironmentExample
  | RequestInstallPreCommitCheck | ConfigureClient | RequestReviewPlaceBinding.

#[export] Instance WorkspaceActionKind_eq_dec : EqDecision WorkspaceActionKind.
Proof. solve_decision. Defined.

(** The derived order: the order of the constructors *)
Definition request_kind_index (k : WorkspaceActionKind) : N :=
  match k with
  | RequestInitializeWorkspace => 0 | ProtectEnvironment => 1 | UpdateIgnoreRules => 2 | GenerateEnvironmentExample => 3
  | RequestInstallPreCommitCheck => 4 | ConfigureClient => 5 | RequestReviewPlaceBinding => 6
  end.

Record SanitizedActionSummary := mk_summary { as_action_count : N; as_kinds : list WorkspaceActionKind }.

#[export] Instance SanitizedActionSummary_eq_dec : EqDecision SanitizedActionSummary.
Proof. solve_decision. Defined.

Inductive WorkspaceRequestState := Pending | Claimed | Applied | RolledBack | Failed | Expired.

#[export] Instance WorkspaceRequestState_eq_dec : EqDecision WorkspaceRequestState.
Proof. solve_decision. Defined.

Inductive WorkspaceExecutionOutcome := InProgress | RecoveryRequired.

#[export] Instance WorkspaceExecutionOutcome_eq_dec : EqDecision WorkspaceExecutionOutcome.
Proof. solve_decision. Defined.

Record WorkspaceApplyReceipt := mk_apply_receipt {
  ar_receipt_digest : string;
  ar_file_change_count : N;
  ar_fully_applied : bool;
  ar_recorded_at : N;
}.

#[export] Instance WorkspaceApplyReceipt_eq_dec : EqDecision WorkspaceApplyReceipt.
Proof. solve_decision. Defined.

(** [WorkspaceRequestStatus], which is also [RecordBasis]: everything of a
    record but its authentication *)
Record WorkspaceRequestStatus := mk_status {
  ws_request_id : string;
  ws_workspace_scope_hash : string;
  ws_plan_id : string;
  ws_pre_state_id : string;
  ws_action_summary : SanitizedActionSummary;
  ws_state : WorkspaceRequestState;
  ws_created_at : N;
  ws_expires_at : N;
  ws_execution_deadline : option N;
  ws_execution_outcome : option WorkspaceExecutionOutcome;
  ws_updated_at : N;
  ws_receipt : option WorkspaceApplyReceipt;
}.

#[export] Instance WorkspaceRequestStatus_eq_dec : EqDecision WorkspaceRequestStatus.
Proof. solve_decision. Defined.

Record AuthenticatedRecord := mk_authenticated { ar_basis : WorkspaceRequestStatus; ar_authentication : string }.

#[export] Instance AuthenticatedRecord_eq_dec : EqDecision AuthenticatedRecord.
Proof. solve_decision. Defined.

Inductive WorkspaceRequestError :=
  | ReqIo (e : ErrorKind)
  | ReqNotFound
  | ReqTampered
  | ReqExpired
  | ReqStateConflict (expected actual : WorkspaceRequestState)
  | ReqWorkspaceMismatch
  | ReqPlanMismatch
  | ReqPreStateMismatch
  | ReqInvalidDigest (field : string)
  | ReqInvalidRequestId
  | ReqInvalidWorkspace
  | ReqPendingLimit.

#[export] Instance WorkspaceRequestError_eq_dec : EqDecision WorkspaceRequestError.
Proof. solve_decision. Defined.

(** [SanitizedActionSummary::new] *)
Definition kinds_cmp (a b : WorkspaceActionKind) : comparison := (request_kind_index a ?= request_kind_index b)%N.
Fixpoint insert_kind (k : WorkspaceActionKind) (l : list WorkspaceActionKind) : list WorkspaceActionKind :=
  match l with
  | [] => [k]
  | x :: l' => match kinds_cmp k x with Lt => k :: l | Eq => l | Gt => x :: insert_kind k l' end
  end.
Definition summary_new (actions : list WorkspaceActionKind) : SanitizedActionSummary :=
  mk_summary (N.min (N.of_nat (length actions)) u32_max) (foldr insert_kind [] actions).

(** ** What is written *)

#[export] Instance Serialize_request_kind : Serialize WorkspaceActionKind := fun k => VString
  (match k with
   | RequestInitializeWorkspace => "initialize_workspace" | ProtectEnvironment => "protect_environment"
   | UpdateIgnoreRules => "update_ignore_rules" | GenerateEnvironmentExample => "generate_environment_example"
   | RequestInstallPreCommitCheck => "install_pre_commit_check" | ConfigureClient => "configure_client"
   | RequestReviewPlaceBinding => "review_place_binding"
   end)%string.
#[export] Instance Serialize_workspace_request_state : Serialize WorkspaceRequestState := fun s => VString
  (match s with
   | Pending => "pending" | Claimed => "claimed" | Applied => "applied" | RolledBack => "rolled_back"
   | Failed => "failed" | Expired => "expired"
   end)%string.
#[export] Instance Serialize_execution_outcome : Serialize WorkspaceExecutionOutcome := fun o => VString
  (match o with InProgress => "in_progress" | RecoveryRequired => "recovery_required" end)%string.
#[export] Instance Serialize_action_summary : Serialize SanitizedActionSummary := fun s => VObject
  [("action_count", to_value (as_action_count s)); ("kinds", to_value (as_kinds s))]%string.
#[export] Instance Serialize_apply_receipt : Serialize WorkspaceApplyReceipt := fun r => VObject
  [("receipt_digest", to_value (ar_receipt_digest r)); ("file_change_count", to_value (ar_file_change_count r));
   ("fully_applied", to_value (ar_fully_applied r)); ("recorded_at", to_value (ar_recorded_at r))]%string.

(** The fields of [RecordBasis], with which [AuthenticatedRecord] begins *)
Definition basis_fields (b : WorkspaceRequestStatus) : list (string * value) :=
  [("request_id", to_value (ws_request_id b)); ("workspace_scope_hash", to_value (ws_workspace_scope_hash b));
   ("plan_id", to_value (ws_plan_id b)); ("pre_state_id", to_value (ws_pre_state_id b));
   ("action_summary", to_value (ws_action_summary b)); ("state", to_value (ws_state b));
   ("created_at", to_value (ws_created_at b)); ("expires_at", to_value (ws_expires_at b));
   ("execution_deadline", to_value (ws_execution_deadline b)); ("execution_outcome", to_value (ws_execution_outcome b));
   ("updated_at", to_value (ws_updated_at b)); ("receipt", to_value (ws_receipt b))]%string.
#[export] Instance Serialize_basis : Serialize WorkspaceRequestStatus := fun b => VObject (basis_fields b).
#[export] Instance Serialize_authenticated : Serialize AuthenticatedRecord := fun r => VObject
  (basis_fields (ar_basis r) ++ [("authentication"%string, to_value (ar_authentication r))]).

(** ** Checks *)

(** [validate_digest], [validate_request_id] *)
Definition hex64 (value : string) : bool := (str_len value =? 64)%N && all_bytes is_lower_hex value.
Definition validate_digest (value field : string) : result unit WorkspaceRequestError :=
  fail_if (negb (hex64 value)) (ReqInvalidDigest field) (Ok tt).
Definition validate_request_id (request_id : string) : result unit WorkspaceRequestError :=
  fail_if (negb (hex64 request_id)) ReqInvalidRequestId (Ok tt).

(** [request_file_name] *)
Definition request_file_name (request_id : string) : string := request_id +:+ ".json".

(** [AuthenticatedRecord::is_expired_at] *)
Definition is_expired_at (b : WorkspaceRequestStatus) (now : N) : bool :=
  bool_decide (ws_state b = Pending) && (ws_expires_at b <=? now)%N.

(** ** The directories

    [~/.phantom], the directory of the requests in it, and what the operations
    ask of the system beside [StateDir]: files read whole, the names of the
    files, removal, the home directory and the workspace's path. *)
Class RequestHost `{SD : StateDir} := {
  phantom_home_dir : result string ErrorKind;
  (** [crate::fs::ensure_private_dir], [PrivateStateDir::ensure] and [open_existing] *)
  request_private_dir : dir_t → string → result unit ErrorKind;
  request_state_dir : dir_t → string → result unit ErrorKind;
  request_dir_existing : dir_t → string → result unit ErrorKind;
  (** [ensure_child] of the home: the path of the child *)
  request_child : dir_t → string → result string ErrorKind;
  read_to_end : dir_t → string → result string ErrorKind;
  file_names : dir_t → result (list string) ErrorKind;
  remove_file : dir_t → string → dir_t * result unit ErrorKind;
  (** [Path::canonicalize] and [is_dir] of the workspace *)
  canonicalize_workspace : dir_t → string → result string ErrorKind;
  workspace_is_dir : dir_t → string → bool;
}.

Record request_world `{SD : StateDir} := mk_request_world { rw_home : dir_t; rw_requests : dir_t }.
Arguments mk_request_world {SD} _ _.
Arguments rw_home {SD} _.
Arguments rw_requests {SD} _.

Section requests.
Context `{X : External} `{SD : StateDir} `{H : !RequestHost} `{DR : !Deserialize AuthenticatedRecord}.

Abbreviation request_io := (io request_world WorkspaceRequestError).

(** An operation of a directory, and the [From] of its error *)
Definition in_home {T} (f : dir_t → dir_t * result T ErrorKind) : io request_world ErrorKind T := fun w =>
  let '(d, r) := f (rw_home w) in (mk_request_world d (rw_requests w), r).
Definition in_requests {T} (f : dir_t → dir_t * result T ErrorKind) : io request_world ErrorKind T := fun w =>
  let '(d, r) := f (rw_requests w) in (mk_request_world (rw_home w) d, r).
Definition ask {T} (f : dir_t → result T ErrorKind) (d : dir_t) : dir_t * result T ErrorKind := (d, f d).
Definition from_io {T} (m : io request_world ErrorKind T) : request_io T := fun w =>
  let '(w1, r) := m w in (w1, map_err ReqIo r).

(** [workspace_scope_hash] *)
Definition workspace_scope_hash (workspace : string) : request_io string := fun w =>
  match canonicalize_workspace (rw_home w) workspace with
  | Err _ => (w, Err ReqInvalidWorkspace)
  | Ok canonical =>
      if negb (workspace_is_dir (rw_home w) canonical) then (w, Err ReqInvalidWorkspace)
      else (w, Ok (sha256_hex ("phantom.workspace-scope.v1" +:+ nul +:+ canonical)))
  end.

(** ** Records and their authentication *)

(** [record_authentication_bytes] *)
Definition record_mac (key : string) (b : WorkspaceRequestStatus) : string :=
  hmac_sha256 key (RECORD_DOMAIN +:+ json_to_vec (to_value b)).

(** [AuthenticatedRecord::authenticate] *)
Definition authenticate (key : string) (b : WorkspaceRequestStatus) : AuthenticatedRecord :=
  mk_authenticated b (hex_encode (record_mac key b)).

(** [AuthenticatedRecord::verify] *)
Definition verify_record (key : string) (r : AuthenticatedRecord) : result unit WorkspaceRequestError :=
  let? provided := ok_or (hex_decode (ar_authentication r)) ReqTampered in
  fail_if (negb (String.eqb provided (record_mac key (ar_basis r)))) ReqTampered (Ok tt).

(** [load_record] *)
Definition parse_record (request_id key bytes : string) : result WorkspaceRequestStatus WorkspaceRequestError :=
  let? record := ok_or (from_slice bytes) ReqTampered in
  fail_if (negb (String.eqb (ws_request_id (ar_basis record)) request_id)) ReqTampered
  (let? _ := verify_record key record in Ok (ar_basis record)).
Definition load_record (request_id key : string) : request_io WorkspaceRequestStatus := fun w =>
  let name := request_file_name request_id in
  match in_requests (fun d => open_file d name false) w with
  | (w1, Err NotFound) => (w1, Err ReqNotFound)
  | (w1, Err _) => (w1, Err ReqTampered)
  | (w1, Ok _) =>
      (do? bytes := (fun w => (w, map_err (fun _ => ReqTampered) (read_to_end (rw_requests w) name))) in
       io_lift (parse_record request_id key bytes)) w1
  end.

(** [write_record], of a record that was just authenticated *)
Definition write_record (key : string) (b : WorkspaceRequestStatus) : request_io unit :=
  do? _ := io_lift (validate_request_id (ws_request_id b)) in
  from_io (in_requests (fun d =>
    replace_file d (request_file_name (ws_request_id b)) (json_to_vec (to_value (authenticate key b))))).

(** ** The lock and the keys *)

(** [ensure_private_dir] *)
Definition ensure_private_request_home (d : dir_t) (path : string) : result unit ErrorKind :=
  map_err (fun e => if bool_decide (e = OtherKind) then InvalidData else e) (request_private_dir d path).

(** [phantom_home] *)
Definition phantom_home : result string ErrorKind := map_ok (fun h => path_join h ".phantom") phantom_home_dir.

(** [acquire_lock]; the lock is held until the operation returns *)
Definition acquire_lock : request_io unit := from_io
  (do? home := io_lift phantom_home in
   do? _ := in_home (ask (fun d => ensure_private_request_home d home)) in
   do? _ := in_home (ask (fun d => request_state_dir d home)) in
   do? _ := in_home (fun d => open_file d REQUEST_LOCK_FILE true) in
   in_home (ask (fun d => lock_exclusive d REQUEST_LOCK_FILE))).

(** [RequestLock::requests] *)
Definition open_requests : request_io unit :=
  from_io (do? _ := in_home (ask (fun d => request_child d "workspace-requests")) in io_ret tt).

(** [parse_request_key] and [parse_fixed_key] *)
Definition parse_request_key (bytes : string) : result string WorkspaceRequestError :=
  fail_if (negb (utf8_valid bytes)) ReqTampered
  (let? key := ok_or (hex_decode (trim bytes)) ReqTampered in
   fail_if (negb (str_len key =? 32)%N) ReqTampered (Ok key)).

(** [read_if_present] in the home *)
Definition read_if_present (name : string) : io request_world ErrorKind (option string) := fun w =>
  match in_home (fun d => open_file d name false) w with
  | (w1, Ok _) => (w1, map_ok Some (read_to_end (rw_home w1) name))
  | (w1, Err NotFound) => (w1, Ok None)
  | (w1, Err e) => (w1, Err e)
  end.

(** [load_or_create_fixed_key]; [fresh] are 32 random bytes *)
Definition load_or_create_fixed_key (name fresh : string) : request_io (string * bool) :=
  do? bytes := from_io (read_if_present name) in
  match bytes with
  | Some bytes => do? key := io_lift (parse_request_key bytes) in io_ret (key, false)
  | None =>
      do? _ := from_io (in_home (fun d => replace_file d name (hex_encode fresh))) in
      io_ret (fresh, true)
  end.

(** [load_or_create_request_key_locked] and [load_existing_request_key_locked] *)
Definition load_or_create_request_key_locked (fresh : string) : request_io string :=
  do? loaded := load_or_create_fixed_key REQUEST_KEY_FILE fresh in io_ret (loaded.1).
Definition load_existing_request_key_locked : request_io string :=
  do? bytes := from_io (read_if_present REQUEST_KEY_FILE) in
  match bytes with
  | Some bytes => io_lift (parse_request_key bytes)
  | None => io_throw ReqNotFound
  end.

(** [load_or_create_workspace_plan_key_with_status], [load_existing_workspace_plan_key] *)
Definition load_or_create_workspace_plan_key_with_status (fresh : string) : request_io (string * bool) :=
  do? _ := acquire_lock in
  do? loaded := load_or_create_fixed_key PLAN_KEY_FILE fresh in
  io_ret (hmac_sha256 (loaded.1) PLAN_KEY_DOMAIN, loaded.2).
Definition load_existing_workspace_plan_key : request_io string :=
  do? home := io_lift (map_err ReqIo phantom_home) in
  do? _ := from_io (in_home (ask (fun d => request_dir_existing d home))) in
  do? _ := from_io (in_home (ask (fun d => open_file_readonly d PLAN_KEY_FILE))) in
  do? bytes := from_io (in_home (ask (fun d => read_to_end d PLAN_KEY_FILE))) in
  do? root := io_lift (parse_request_key bytes) in
  io_ret (hmac_sha256 root PLAN_KEY_DOMAIN).

(** [load_or_create_workspace_journal]: the path of the journal and its key *)
Definition load_or_create_workspace_journal (request_id fresh : string) : request_io (string * string) :=
  do? _ := io_lift (validate_request_id request_id) in
  do? _ := acquire_lock in
  do? directory := from_io (in_home (ask (fun d => request_child d "workspace-journals"))) in
  do? loaded := load_or_create_fixed_key JOURNAL_KEY_FILE fresh in
  io_ret (path_join directory (request_id +:+ ".journal"), hmac_sha256 (loaded.1) (JOURNAL_KEY_DOMAIN +:+ request_id)).

(** ** Creating a request *)

(** [cleanup_and_collect_pending_locked], over the names of the files: the
    live pending records, and whether anything was removed *)
Fixpoint cleanup_names (key : string) (now : N) (names : list string)
    : request_io (list WorkspaceRequestStatus * bool) :=
  match names with
  | [] => io_ret ([], false)
  | name :: rest =>
      match strip_suffix ".json" name with
      | None => cleanup_names key now rest
      | Some request_id =>
          if negb (hex64 request_id) then cleanup_names key now rest
          else
            do? record := load_record request_id key in
            if bool_decide (ws_state record = Pending) && is_expired_at record now then
              do? _ := from_io (in_requests (fun d => remove_file d name)) in
              do? later := cleanup_names key now rest in io_ret (later.1, true)
            else
              do? later := cleanup_names key now rest in
              io_ret (if bool_decide (ws_state record = Pending) then record :: later.1 else later.1, later.2)
      end
  end.
Definition cleanup_and_collect_pending_locked (key : string) (now : N) : request_io (list WorkspaceRequestStatus) :=
  do? names := from_io (in_requests (ask file_names)) in
  do? collected := cleanup_names key now names in
  do? _ := (if (collected.2 : bool) then from_io (in_requests (ask sync_dir)) else io_ret tt) in
  io_ret (collected.1).

(** What a record is compared with *)
Definition same_request (scope plan_id pre_state_id : string) (summary : SanitizedActionSummary)
    (b : WorkspaceRequestStatus) : bool :=
  bool_decide (ws_workspace_scope_hash b = scope) && bool_decide (ws_plan_id b = plan_id)
  && bool_decide (ws_pre_state_id b = pre_state_id) && bool_decide (ws_action_summary b = summary).

(** The record of a new request *)
Definition new_request (request_id scope plan_id pre_state_id : string) (summary : SanitizedActionSummary)
    (created_at : N) : WorkspaceRequestStatus :=
  mk_status request_id scope plan_id pre_state_id summary Pending created_at
    (saturating_add_u64 created_at REQUEST_TTL_SECS) None None created_at None.

(** [create_request_at] from the lock on; [fresh_key] and [fresh] are 32
    random bytes each *)
Definition create_locked (scope plan_id pre_state_id : string) (summary : SanitizedActionSummary)
    (created_at : N) (fresh_key fresh : string) : request_io string :=
  do? _ := acquire_lock in
  do? key := load_or_create_request_key_locked fresh_key in
  do? _ := open_requests in
  do? pending := cleanup_and_collect_pending_locked key created_at in
  match List.find (same_request scope plan_id pre_state_id summary) pending with
  | Some existing => io_ret (ws_request_id existing)
  | None =>
      io_fail_if (MAX_PENDING_PER_WORKSPACE <=? length (filter (fun b => ws_workspace_scope_hash b = scope) pending))%nat
        ReqPendingLimit
      (let request_id := hex_encode fresh in
       do? _ := write_record key (new_request request_id scope plan_id pre_state_id summary created_at) in
       io_ret request_id)
  end.
Definition create_request_at (workspace plan_id pre_state_id : string) (summary : SanitizedActionSummary)
    (created_at : N) (fresh_key fresh : string) : request_io string :=
  do? _ := io_lift (validate_digest plan_id "plan_id") in
  do? _ := io_lift (validate_digest pre_state_id "pre_state_id") in
  do? scope := workspace_scope_hash workspace in
  create_locked scope plan_id pre_state_id summary created_at fresh_key fresh.

(** ** Expiry, status and transitions *)

(** [record.updated_at = now] with another state or outcome *)
Definition set_state (s : WorkspaceRequestState) (now : N) (b : WorkspaceRequestStatus) : WorkspaceRequestStatus :=
  mk_status (ws_request_id b) (ws_workspace_scope_hash b) (ws_plan_id b) (ws_pre_state_id b) (ws_action_summary b) s
    (ws_created_at b) (ws_expires_at b) (ws_execution_deadline b) (ws_execution_outcome b) now (ws_receipt b).
Definition set_execution (deadline : option N) (outcome : option WorkspaceExecutionOutcome)
    (b : WorkspaceRequestStatus) : WorkspaceRequestStatus :=
  mk_status (ws_request_id b) (ws_workspace_scope_hash b) (ws_plan_id b) (ws_pre_state_id b) (ws_action_summary b)
    (ws_state b) (ws_created_at b) (ws_expires_at b) deadline outcome (ws_updated_at b) (ws_receipt b).
Definition set_receipt (receipt : option WorkspaceApplyReceipt) (b : WorkspaceRequestStatus) : WorkspaceRequestStatus :=
  mk_status (ws_request_id b) (ws_workspace_scope_hash b) (ws_plan_id b) (ws_pre_state_id b) (ws_action_summary b)
    (ws_state b) (ws_created_at b) (ws_expires_at b) (ws_execution_deadline b) (ws_execution_outcome b)
    (ws_updated_at b) receipt.

(** The claim is overdue and not yet marked. *)
Definition is_overdue (b : WorkspaceRequestStatus) (now : N) : bool :=
  bool_decide (ws_state b = Claimed)
  && match ws_execution_deadline b with Some deadline => (deadline <=? now)%N | None => false end
  && negb (bool_decide (ws_execution_outcome b = Some RecoveryRequired)).

(** [expire_if_needed]: the record as it is then, and whether it expired *)
Definition expire_if_needed (key : string) (b : WorkspaceRequestStatus) (now : N)
    : request_io (WorkspaceRequestStatus * bool) :=
  if is_overdue b now then
    let b' := set_execution (ws_execution_deadline b) (Some RecoveryRequired) (set_state (ws_state b) now b) in
    do? _ := write_record key b' in io_ret (b', false)
  else if negb (is_expired_at b now) then io_ret (b, false)
  else
    let b' := set_state Expired now b in
    do? _ := write_record key b' in io_ret (b', true).

(** The record after a transition *)
Definition transitioned (next_state : WorkspaceRequestState) (receipt : option WorkspaceApplyReceipt) (now : N)
    (b : WorkspaceRequestStatus) : WorkspaceRequestStatus :=
  let claimed := bool_decide (next_state = Claimed) in
  set_receipt receipt
    (set_execution (if claimed then Some (saturating_add_u64 now CLAIM_EXECUTION_TTL_SECS) else None)
       (if claimed then Some InProgress else None) (set_state next_state now b)).

(** The record under the lock: [load_record], then [expire_if_needed] *)
Definition load_current (request_id : string) (now : N) : request_io (string * (WorkspaceRequestStatus * bool)) :=
  do? _ := acquire_lock in
  do? key := load_existing_request_key_locked in
  do? _ := open_requests in
  do? record := load_record request_id key in
  do? expiry := expire_if_needed key record now in
  io_ret (key, expiry).

(** [get_status] *)
Definition get_status (request_id : string) (now : N) : request_io WorkspaceRequestStatus :=
  do? _ := io_lift (validate_request_id request_id) in
  do? current := load_current request_id now in
  io_ret (current.2.1).

(** [transition_with_receipt], from the lock on *)
Definition transition_locked (request_id scope plan_id pre_state_id : string)
    (expected_state next_state : WorkspaceRequestState) (receipt : option WorkspaceApplyReceipt) (now : N)
    : request_io WorkspaceRequestStatus :=
  do? current := load_current request_id now in
  let '(key, (record, expired)) := current in
  io_fail_if expired ReqExpired
  (io_fail_if (negb (String.eqb (ws_workspace_scope_hash record) scope)) ReqWorkspaceMismatch
  (io_fail_if (negb (String.eqb (ws_plan_id record) plan_id)) ReqPlanMismatch
  (io_fail_if (negb (String.eqb (ws_pre_state_id record) pre_state_id)) ReqPreStateMismatch
  (io_fail_if (negb (bool_decide (ws_state record = expected_state))) (ReqStateConflict expected_state (ws_state record))
   (let record := transitioned next_state receipt now record in
    do? _ := write_record key record in
    io_ret record))))).
Definition transition_with_receipt (request_id workspace plan_id pre_state_id : string)
    (expected_state next_state : WorkspaceRequestState) (receipt : option WorkspaceApplyReceipt) (now : N)
    : request_io WorkspaceRequestStatus :=
  do? _ := io_lift (validate_request_id request_id) in
  do? _ := io_lift (validate_digest plan_id "plan_id") in
  do? _ := io_lift (validate_digest pre_state_id "pre_state_id") in
  do? scope := workspace_scope_hash workspace in
  transition_locked request_id scope plan_id pre_state_id expected_state next_state receipt now.

(** [claim_exact], [complete_request], [complete_request_with_receipt],
    [fail_request], [rollback_request] *)
Definition claim_exact (request_id workspace plan_id pre_state_id : string) (now : N) : request_io WorkspaceRequestStatus :=
  transition_with_receipt request_id workspace plan_id pre_state_id Pending Claimed None now.
Definition complete_request (request_id workspace plan_id pre_state_id : string) (now : N)
    : request_io WorkspaceRequestStatus :=
  transition_with_receipt request_id workspace plan_id pre_state_id Claimed Applied None now.
Definition complete_request_with_receipt (request_id workspace plan_id pre_state_id : string)
    (receipt : WorkspaceApplyReceipt) (now : N) : request_io WorkspaceRequestStatus :=
  do? _ := io_lift (validate_digest (ar_receipt_digest receipt) "receipt_digest") in
  transition_with_receipt request_id workspace plan_id pre_state_id Claimed Applied (Some receipt) now.
Definition fail_request (request_id workspace plan_id pre_state_id : string) (now : N) : request_io WorkspaceRequestStatus :=
  transition_with_receipt request_id workspace plan_id pre_state_id Claimed Failed None now.
Definition rollback_request (request_id workspace plan_id pre_state_id : string) (now : N)
    : request_io WorkspaceRequestStatus :=
  transition_with_receipt request_id workspace plan_id pre_state_id Claimed RolledBack None now.
End requests.
