(* ===== verification/WorkspaceRequestSpec.v ===== *)
(** * What the request store guarantees

    The store is seen as a ledger: the key and a map of records.  Every public
    operation, whatever its calls return, takes the steps of the ledger
    ([ledger_step]) and answers what the ledger says ([requests_refine]).  So
    a request is claimed at most once, for the workspace, the plan and the
    pre-state it was created for, before it expires ([request_claimed_once]),
    and a workspace never has more than sixteen pending requests.  A machine in
    memory is at the end. *)

From stdpp Require Import relations.
From S2P Require Import Prelude Text Ids External DemoSerde StateDir JsonText WorkspaceFilesSpec WorkspaceRequest.

(** ** What is relied on of the directories *)

Class RequestHostLaws `{SL : StateDirLaws} (H : RequestHost) : Prop := {
  read_to_end_contents : ∀ d n b, read_to_end d n = Ok b → file_contents d n = Some b;
  file_names_complete : ∀ d l n, file_names d = Ok l → is_Some (file_contents d n) → n ∈ l;
  file_names_once : ∀ d l, file_names d = Ok l → NoDup l;
  remove_file_other : ∀ d n d' r m, remove_file d n = (d', r) → m ≠ n → file_contents d' m = file_contents d m;
  remove_file_ok : ∀ d n d', remove_file d n = (d', Ok tt) → file_contents d' n = None;
  remove_file_err : ∀ d n d' e, remove_file d n = (d', Err e) →
    file_contents d' n = file_contents d n ∨ file_contents d' n = None;
}.

(** ** The ledger *)

Record ledger := mk_ledger { lg_key : option string; lg_requests : gmap string WorkspaceRequestStatus }.

Definition put (b : WorkspaceRequestStatus) (l : ledger) : ledger :=
  mk_ledger (lg_key l) (<[ws_request_id b := b]> (lg_requests l)).
Definition drop_request (id : string) (l : ledger) : ledger := mk_ledger (lg_key l) (delete id (lg_requests l)).

(** A live pending request of a workspace *)
Definition pending_for (scope : string) (b : WorkspaceRequestStatus) : Prop :=
  ws_state b = Pending ∧ ws_workspace_scope_hash b = scope.
#[export] Instance pending_for_dec scope b : Decision (pending_for scope b).
Proof. unfold pending_for. apply _. Defined.
Definition pending_count (scope : string) (l : ledger) : nat :=
  size (filter (fun '(_, b) => pending_for scope b) (lg_requests l)).

(** An overdue claim, marked *)
Definition overdue (now : N) (b : WorkspaceRequestStatus) : WorkspaceRequestStatus :=
  set_execution (ws_execution_deadline b) (Some RecoveryRequired) (set_state (ws_state b) now b).

(** What an operation at [now] sees of a record *)
Definition observed (now : N) (b : WorkspaceRequestStatus) : WorkspaceRequestStatus :=
  if is_overdue b now then overdue now b else if is_expired_at b now then set_state Expired now b else b.

(** How a claimed request ends, and with what receipt *)
Definition ends_with_receipt (s : WorkspaceRequestState) (receipt : option WorkspaceApplyReceipt) : Prop :=
  match s with Applied => True | RolledBack | Failed => receipt = None | _ => False end.

(** The steps of the ledger at a time, of an operation that may create the
    records of [new]: a key is drawn; a request is created;
    a pending one is claimed, expires or is removed when it has expired; a
    claimed one is marked when it is overdue, and ends. *)
Inductive ledger_step (now : N) (new : WorkspaceRequestStatus → Prop) : ledger → ledger → Prop :=
  | step_key k l : lg_key l = None → ledger_step now new l (mk_ledger (Some k) (lg_requests l))
  | step_create b l : new b →
      lg_requests l !! ws_request_id b = None → (pending_count (ws_workspace_scope_hash b) l < MAX_PENDING_PER_WORKSPACE)%nat →
      ledger_step now new l (put b l)
  | step_claim b l : lg_requests l !! ws_request_id b = Some b → ws_state b = Pending → is_expired_at b now = false →
      ledger_step now new l (put (transitioned Claimed None now b) l)
  | step_end s receipt b l : lg_requests l !! ws_request_id b = Some b → ws_state b = Claimed → ends_with_receipt s receipt →
      ledger_step now new l (put (transitioned s receipt now b) l)
  | step_overdue b l : lg_requests l !! ws_request_id b = Some b → is_overdue b now = true →
      ledger_step now new l (put (overdue now b) l)
  | step_expire b l : lg_requests l !! ws_request_id b = Some b → is_expired_at b now = true →
      ledger_step now new l (put (set_state Expired now b) l)
  | step_remove b l : lg_requests l !! ws_request_id b = Some b → is_expired_at b now = true →
      ledger_step now new l (drop_request (ws_request_id b) l).

(** ** Sizes *)

Definition u64 (n : N) : Prop := (n <= u64_max)%N.
Definition receipt_in_range (r : WorkspaceApplyReceipt) : Prop := (ar_file_change_count r <= u32_max)%N ∧ u64 (ar_recorded_at r).
Definition opt_holds {A} (P : A → Prop) (o : option A) : Prop := match o with Some x => P x | None => True end.

(** The integers of a record have their widths. *)
Definition in_range (b : WorkspaceRequestStatus) : Prop :=
  (as_action_count (ws_action_summary b) <= u32_max)%N ∧ u64 (ws_created_at b) ∧ u64 (ws_expires_at b) ∧
  opt_holds u64 (ws_execution_deadline b) ∧ u64 (ws_updated_at b) ∧ opt_holds receipt_in_range (ws_receipt b).

Lemma saturating_in_range a b : u64 (saturating_add_u64 a b).
Proof. unfold u64, saturating_add_u64. lia. Qed.

Section spec.
Context `{X : External} `{XL : !ExternalLaws X} `{DR : !Deserialize AuthenticatedRecord}.
Context `{SL : StateDirLaws} `{H : !RequestHost} `{HL : !RequestHostLaws H}.
Hypothesis read_back : ∀ r, in_range (ar_basis r) → from_slice (json_to_vec (to_value r)) = Some r.

(** The text of a record's file *)
Definition record_text (k : string) (b : WorkspaceRequestStatus) : string := json_to_vec (to_value (authenticate k b)).

Record holds (w : request_world) (l : ledger) : Prop := mk_holds {
  holds_key : file_contents (rw_home w) REQUEST_KEY_FILE = hex_encode <$> lg_key l;
  holds_key_length : ∀ k, lg_key l = Some k → String.length k = 32%nat;
  holds_files : ∀ id, hex64 id = true →
    file_contents (rw_requests w) (request_file_name id) =
      (k ← lg_key l; b ← lg_requests l !! id; Some (record_text k b));
  holds_requests : ∀ id b, lg_requests l !! id = Some b →
    ws_request_id b = id ∧ hex64 id = true ∧ in_range b ∧ is_Some (lg_key l);
}.

Lemma holds_no_key w l : holds w l → lg_key l = None → lg_requests l = ∅.
Proof.
  intros Hw Hk. apply map_empty. intros id. destruct (_ !! id) as [b|] eqn:E; [|done].
  destruct (holds_requests _ _ Hw _ _ E) as (_ & _ & _ & [k Hk']). congruence.
Qed.

(** ** The calls *)

Lemma file_name_inj a b : request_file_name a = request_file_name b → a = b.
Proof. unfold request_file_name. intros E%(f_equal (strip_suffix ".json")). rewrite !strip_suffix_app in E. by injection E. Qed.

Lemma parse_fresh k : String.length k = 32%nat → parse_request_key (hex_encode k) = Ok k.
Proof.
  intros Hl. pose proof (lower_hex_graphic _ (hex_encode_lower k)) as Hg. unfold parse_request_key.
  rewrite (graphic_utf8 _ Hg), (trim_id _ (graphic_trimmed _ Hg)), hex_decode_encode. cbn. unfold str_len. by rewrite Hl.
Qed.

Lemma hex_encode_hex64 s : String.length s = 32%nat → hex64 (hex_encode s) = true.
Proof. intros Hl. unfold hex64, str_len. by rewrite hex_encode_length, hex_encode_lower, Hl. Qed.

Lemma parse_own k b : in_range b → parse_record (ws_request_id b) k (record_text k b) = Ok b.
Proof.
  intros Hb. unfold parse_record, record_text. rewrite read_back by done. cbn. rewrite String.eqb_refl. cbn.
  unfold verify_record. cbn. by rewrite hex_decode_encode; cbn; rewrite String.eqb_refl.
Qed.

(** An operation of the home that leaves the key file alone *)
Lemma does_home {T} (f : dir_t → dir_t * result T ErrorKind) l (Q : ledger → result T ErrorKind → Prop) :
  (∀ d d' r, f d = (d', r) → file_contents d' REQUEST_KEY_FILE = file_contents d REQUEST_KEY_FILE) →
  (∀ r, Q l r) → does holds (in_home f) l Q.
Proof.
  intros Hf HQ w w' r [H1 H2 H3 H4] Hm. unfold in_home in Hm. destruct (f (rw_home w)) as [d r0] eqn:E. injection Hm as <- <-.
  exists l. split; [|apply HQ]. constructor; [|done..]. cbn. by rewrite (Hf _ _ _ E).
Qed.

Lemma does_ask {T} (f : dir_t → result T ErrorKind) l (Q : ledger → result T ErrorKind → Prop) :
  (∀ r, Q l r) → does holds (in_home (ask f)) l Q.
Proof. apply does_home. by intros d d' r [= <- _]. Qed.

Lemma does_from_io {T} (m : io request_world ErrorKind T) l Q :
  does holds m l (fun l' r => Q l' (map_err ReqIo r)) → does holds (from_io m) l Q.
Proof. apply does_map. Qed.

Lemma does_acquire l Q : Q l (Ok tt) → (∀ e, Q l (Err (ReqIo e))) → does holds acquire_lock l Q.
Proof.
  intros H1 H2. assert (∀ r : result unit ErrorKind, Q l (map_err ReqIo r)) as HQ by (intros [[]|e]; [apply H1|apply H2]).
  unfold acquire_lock. apply does_from_io, does_bind, does_lift. destruct phantom_home as [home|e]; [|apply (HQ (Err e))].
  apply does_bind, does_ask. intros [[]|e]; [|apply (HQ (Err e))].
  apply does_bind, does_ask. intros [[]|e]; [|apply (HQ (Err e))].
  apply does_bind, does_home; [intros d d' r E; by eapply open_file_same; [exact E|left]|].
  intros [[]|e]; [|apply (HQ (Err e))]. apply does_ask, HQ.
Qed.

Lemma does_open_requests l Q : Q l (Ok tt) → (∀ e, Q l (Err (ReqIo e))) → does holds open_requests l Q.
Proof.
  intros H1 H2. unfold open_requests. apply does_from_io, does_bind, does_ask. intros [x|e]; [by apply does_ret|apply H2].
Qed.

(** The key file, when it is there or not *)
Lemma does_read_key l (Q : ledger → result (option string) ErrorKind → Prop) :
  Q l (Ok (hex_encode <$> lg_key l)) → (∀ e, Q l (Err e)) → does holds (read_if_present REQUEST_KEY_FILE) l Q.
Proof.
  intros H1 H2 w w' r Hw Hm. unfold read_if_present, in_home in Hm.
  destruct (open_file (rw_home w) REQUEST_KEY_FILE false) as [d r0] eqn:E.
  assert (file_contents d REQUEST_KEY_FILE = hex_encode <$> lg_key l) as Hd.
  { rewrite (open_file_same _ _ _ _ _ REQUEST_KEY_FILE E) by by right. apply Hw. }
  assert (holds (mk_request_world d (rw_requests w)) l) as Hw1 by (destruct Hw; by constructor).
  destruct r0 as [[]|[]]; injection Hm as <- <-; (eexists; split; [exact Hw1|]); try apply H2.
  - cbn. destruct (read_to_end d REQUEST_KEY_FILE) as [b|e] eqn:Er; [|apply H2]. cbn.
    apply read_to_end_contents in Er. rewrite Hd in Er. by rewrite <- Er.
  - apply open_file_missing in E. rewrite (holds_key _ _ Hw) in E. destruct (lg_key l); [done|]. exact H1.
Qed.

Lemma does_load_existing_key l Q :
  (∀ k, lg_key l = Some k → String.length k = 32%nat → Q l (Ok k)) → (lg_key l = None → Q l (Err ReqNotFound)) →
  (∀ e, Q l (Err (ReqIo e))) → does holds load_existing_request_key_locked l Q.
Proof.
  intros H1 H2 H3 w w' r Hw. revert Hw. apply does_bind, does_from_io, does_read_key; [|intros; apply H3].
  cbn. destruct (lg_key l) as [k|] eqn:Hk; [|by apply does_throw, H2]. cbn. intros w1 w2 r1 Hw1.
  pose proof (holds_key_length _ _ Hw1 _ Hk) as Hl. revert Hw1. apply does_lift. rewrite parse_fresh by done. by apply H1.
Qed.

Lemma does_load_or_create_key {new} fresh now l Q :
  String.length fresh = 32%nat →
  (∀ k l', lg_key l' = Some k → rtc (ledger_step now new) l l' → lg_requests l' = lg_requests l → Q l' (Ok k)) →
  (∀ e l', rtc (ledger_step now new) l l' → lg_requests l' = lg_requests l → Q l' (Err (ReqIo e))) →
  does holds (load_or_create_request_key_locked fresh) l Q.
Proof.
  intros Hf H1 H2 w w' r Hw. pose proof (holds_key_length _ _ Hw) as Hlen. pose proof (holds_no_key _ _ Hw) as Hno. revert w w' r Hw.
  apply does_bind, does_bind, does_from_io, does_read_key; [|intros e; by apply H2].
  cbn. destruct (lg_key l) as [k|] eqn:Hk; cbn.
  { apply does_bind, does_lift. rewrite parse_fresh by auto. by apply does_ret, does_ret, H1. }
  set (l1 := mk_ledger (Some fresh) (lg_requests l)).
  assert (rtc (ledger_step now new) l l1) as Hstep by by apply rtc_once, step_key.
  apply does_bind, does_from_io. intros w w' r Hw Hm. unfold in_home in Hm.
  destruct (replace_file (rw_home w) _ _) as [d r0] eqn:E. injection Hm as <- <-.
  pose proof (holds_files _ _ Hw) as Hfiles. rewrite Hk in Hfiles.
  assert (file_contents d REQUEST_KEY_FILE = Some (hex_encode fresh) → holds (mk_request_world d (rw_requests w)) l1) as Hnew.
  { intros Hd. constructor; cbn; [done|by intros k [= <-]| |].
    - intros id Hi. rewrite Hfiles, Hno by done. by rewrite lookup_empty.
    - intros id b. rewrite Hno by done. by rewrite lookup_empty. }
  destruct r0 as [[]|e].
  - exists l1. split; [by eapply Hnew, replace_file_ok|]. by apply does_ret, does_ret, H1.
  - destruct (replace_file_err _ _ _ _ _ E) as [Hd|Hd]; [exists l|exists l1; split; [by apply Hnew|by apply H2]].
    split; [|by apply H2]. destruct Hw as [A B C D]. constructor; [|done..]. cbn. by rewrite Hd.
Qed.

(** A record's file *)
Lemma does_load_record k id l Q :
  lg_key l = Some k → hex64 id = true →
  (∀ b, lg_requests l !! id = Some b → Q l (Ok b)) → (lg_requests l !! id = None → Q l (Err ReqNotFound)) →
  Q l (Err ReqTampered) → does holds (load_record id k) l Q.
Proof.
  intros Hk Hid H1 H2 H3 w w' r Hw Hm. pose proof (holds_files _ _ Hw _ Hid) as Hf. rewrite Hk in Hf. cbn in Hf.
  unfold load_record, in_requests in Hm. destruct (open_file (rw_requests w) (request_file_name id) false) as [d r0] eqn:E.
  assert (∀ n, file_contents d n = file_contents (rw_requests w) n) as Hd
    by (intros n; eapply open_file_same; [exact E|by right]).
  assert (holds (mk_request_world (rw_home w) d) l) as Hw1 by (destruct Hw as [A B C D]; constructor; [done..| |done]; intros i Hi; cbn; rewrite Hd; by apply C).
  destruct r0 as [[]|[]]; [|injection Hm as <- <-; exists l; split; [done|]..].
  - unfold io_bind in Hm. cbn in Hm. destruct (read_to_end d (request_file_name id)) as [bytes|e] eqn:Er; injection Hm as <- <-; exists l;
      (split; [done|]); [|exact H3].
    apply read_to_end_contents in Er. rewrite Hd, Hf in Er. destruct (lg_requests l !! id) as [b|] eqn:Hb; cbn in Er; [|done].
    injection Er as <-. destruct (holds_requests _ _ Hw _ _ Hb) as (<- & _ & Hr & _). rewrite parse_own by done. by apply H1.
  - apply open_file_missing in E. rewrite Hf in E. apply H2. by destruct (lg_requests l !! id).
  - exact H3.
  - exact H3.
  - exact H3.
Qed.

Lemma does_write_record k b l Q :
  lg_key l = Some k → hex64 (ws_request_id b) = true → in_range b →
  Q (put b l) (Ok tt) → (∀ e, Q l (Err (ReqIo e))) → (∀ e, Q (put b l) (Err (ReqIo e))) →
  does holds (write_record k b) l Q.
Proof.
  intros Hk Hid Hr H1 H2 H3. unfold write_record. apply does_bind, does_lift. unfold validate_request_id. rewrite Hid.
  cbn [negb fail_if]. apply does_from_io. intros w w' r Hw Hm. unfold in_requests in Hm.
  destruct (replace_file (rw_requests w) _ _) as [d r0] eqn:E. injection Hm as <- <-.
  set (w1 := mk_request_world (rw_home w) d).
  assert (file_contents d (request_file_name (ws_request_id b)) = Some (record_text k b) → holds w1 (put b l)) as Hnew.
  { intros Hb. destruct Hw as [A B C D]. constructor; [done..| |].
    - intros id Hi. cbn. rewrite Hk. cbn. destruct (decide (id = ws_request_id b)) as [->|Hne].
      + by rewrite lookup_insert_eq.
      + rewrite lookup_insert_ne by done. rewrite (replace_file_other _ _ _ _ _ _ E) by (intros ?%file_name_inj; congruence).
        rewrite C, Hk by done. done.
    - intros id b'. cbn. intros [[<- <-]|[Hne Hb']]%lookup_insert_Some; [by rewrite Hk|by apply D]. }
  assert (file_contents d (request_file_name (ws_request_id b)) = file_contents (rw_requests w) (request_file_name (ws_request_id b)) →
          holds w1 l) as Hold.
  { intros Hb. destruct Hw as [A B C D]. constructor; [done..| |done]. intros id Hi. cbn.
    destruct (decide (id = ws_request_id b)) as [->|Hne]; [by rewrite Hb, C|].
    rewrite (replace_file_other _ _ _ _ _ _ E) by (intros ?%file_name_inj; congruence). by apply C. }
  destruct r0 as [[]|e].
  - exists (put b l). split; [|exact H1]. apply Hnew. by eapply replace_file_ok.
  - destruct (replace_file_err _ _ _ _ _ E) as [Hb|Hb]; [exists l|exists (put b l)]; (split; [auto|]); [apply H2|apply H3].
Qed.

(** ** What is observed *)

Lemma overdue_not_expired b now : is_overdue b now = true → is_expired_at b now = false.
Proof. unfold is_overdue, is_expired_at. intros [[Hs _]%andb_true_iff _]%andb_true_iff. apply bool_decide_eq_true in Hs. by rewrite Hs. Qed.

Lemma observed_id now b : ws_request_id (observed now b) = ws_request_id b.
Proof. unfold observed. by destruct (is_overdue b now), (is_expired_at b now). Qed.

Lemma observed_in_range now b : u64 now → in_range b → in_range (observed now b).
Proof.
  intros Hn (A & B & C & D & E & F). unfold observed. destruct (is_overdue b now); [|destruct (is_expired_at b now)]; by split_and!.
Qed.

Lemma transitioned_in_range s receipt now b :
  u64 now → opt_holds receipt_in_range receipt → in_range b → in_range (transitioned s receipt now b).
Proof.
  intros Hn Hr (A & B & C & D & E & F). unfold transitioned. split_and!; try done. cbn. destruct (bool_decide _); [|done].
  apply saturating_in_range.
Qed.

(** The records differ at most in what was observed of one. *)
Definition put_observed (now : N) (b : WorkspaceRequestStatus) (l : ledger) : ledger := put (observed now b) l.

Lemma put_same b l : lg_requests l !! ws_request_id b = Some b → put b l = l.
Proof. intros Hb. unfold put. rewrite insert_id by done. by destruct l. Qed.

Lemma observed_steps {new} now b l :
  lg_requests l !! ws_request_id b = Some b → rtc (ledger_step now new) l (put (observed now b) l).
Proof.
  intros Hb. unfold observed. destruct (is_overdue b now) eqn:Ho; [by apply rtc_once, step_overdue|].
  destruct (is_expired_at b now) eqn:He; [by apply rtc_once, step_expire|]. by rewrite put_same.
Qed.

Lemma does_expire k b now l Q :
  lg_key l = Some k → hex64 (ws_request_id b) = true → in_range b → u64 now → lg_requests l !! ws_request_id b = Some b →
  Q (put (observed now b) l) (Ok (observed now b, is_expired_at b now)) →
  (∀ e, Q l (Err (ReqIo e))) → (∀ e, Q (put (observed now b) l) (Err (ReqIo e))) →
  does holds (expire_if_needed k b now) l Q.
Proof.
  intros Hk Hid Hr Hn Hb H1 H2 H3. pose proof (observed_in_range now b Hn Hr) as Hr'. pose proof (overdue_not_expired b now) as Hoe.
  unfold expire_if_needed. revert H1 H2 H3 Hr'. unfold observed. destruct (is_overdue b now).
  - rewrite Hoe by done. intros H1 H2 H3 Hr'. apply does_bind, does_write_record; try done. by apply does_ret.
  - destruct (is_expired_at b now) eqn:He; intros H1 H2 H3 Hr'; cbn [negb].
    + apply does_bind, does_write_record; try done. by apply does_ret.
    + apply does_ret. by rewrite put_same in H1.
Qed.

(** The answer of an operation under the lock when something beneath it failed *)
Definition storage_error (e : WorkspaceRequestError) : Prop :=
  match e with ReqIo _ | ReqTampered | ReqNotFound => True | _ => False end.

Lemma does_load_current {new} id now l Q :
  hex64 id = true → u64 now →
  (∀ k b, lg_key l = Some k → lg_requests l !! id = Some b → ws_request_id b = id → in_range b →
    Q (put (observed now b) l) (Ok (k, (observed now b, is_expired_at b now)))) →
  (lg_requests l !! id = None → Q l (Err ReqNotFound)) → Q l (Err ReqTampered) →
  (∀ e l', rtc (ledger_step now new) l l' → Q l' (Err (ReqIo e))) →
  does holds (load_current id now) l Q.
Proof.
  intros Hid Hn H1 H2 H3 H4 w w' r Hw. pose proof (holds_no_key _ _ Hw) as Hno. pose proof (holds_requests _ _ Hw) as Hreq.
  revert w w' r Hw. unfold load_current. apply does_bind, does_acquire; [|intros; by apply H4].
  apply does_bind, does_load_existing_key; [|intros Hk; apply H2; by rewrite Hno, lookup_empty|intros; by apply H4].
  intros k Hk _. apply does_bind, does_open_requests; [|intros; by apply H4].
  apply does_bind, does_load_record; [done|done| |done|done]. intros b Hb. destruct (Hreq _ _ Hb) as (Hbid & _ & Hr & _).
  assert (lg_requests l !! ws_request_id b = Some b) as Hb' by by rewrite Hbid.
  apply does_bind, (does_expire k); try done; [by rewrite Hbid|by apply does_ret, H1|intros; by apply H4|].
  intros e. apply H4. by apply observed_steps.
Qed.

(** ** Transitions *)

(** The request is for this workspace, plan and pre-state. *)
Definition bound_to (scope plan_id pre_state_id : string) (b : WorkspaceRequestStatus) : Prop :=
  ws_workspace_scope_hash b = scope ∧ ws_plan_id b = plan_id ∧ ws_pre_state_id b = pre_state_id.

(** Why a transition of the request [id] is refused, by the first reason *)
Definition refused (id scope plan_id pre_state_id : string) (expected : WorkspaceRequestState) (now : N) (l : ledger)
    (e : WorkspaceRequestError) : Prop :=
  match e with
  | ReqIo _ | ReqTampered => True
  | ReqNotFound => lg_requests l !! id = None
  | ReqExpired => ∃ b, lg_requests l !! id = Some b ∧ is_expired_at b now = true
  | ReqWorkspaceMismatch => ∃ b, lg_requests l !! id = Some b ∧ is_expired_at b now = false ∧ ws_workspace_scope_hash b ≠ scope
  | ReqPlanMismatch => ∃ b, lg_requests l !! id = Some b ∧ is_expired_at b now = false ∧ ws_workspace_scope_hash b = scope ∧
      ws_plan_id b ≠ plan_id
  | ReqPreStateMismatch => ∃ b, lg_requests l !! id = Some b ∧ is_expired_at b now = false ∧ ws_workspace_scope_hash b = scope ∧
      ws_plan_id b = plan_id ∧ ws_pre_state_id b ≠ pre_state_id
  | ReqStateConflict e a => ∃ b, lg_requests l !! id = Some b ∧ is_expired_at b now = false ∧ bound_to scope plan_id pre_state_id b ∧
      e = expected ∧ a = ws_state b ∧ a ≠ expected
  | _ => False
  end.

(** What a transition at [now] did *)
Definition moved (id scope plan_id pre_state_id : string) (expected next : WorkspaceRequestState)
    (receipt : option WorkspaceApplyReceipt) (now : N) (l l' : ledger) (st : WorkspaceRequestStatus) : Prop :=
  ∃ b, lg_requests l !! id = Some b ∧ is_expired_at b now = false ∧ bound_to scope plan_id pre_state_id b ∧
    ws_state b = expected ∧ st = transitioned next receipt now b ∧ l' = put st l ∧ ws_request_id b = id.

(** The transitions the operations make *)
Definition legal_move (expected next : WorkspaceRequestState) (receipt : option WorkspaceApplyReceipt) : Prop :=
  expected = Pending ∧ next = Claimed ∧ receipt = None ∨ expected = Claimed ∧ ends_with_receipt next receipt.

Lemma observed_live now b : is_expired_at b now = false → ws_state (observed now b) = ws_state b ∧
  ws_workspace_scope_hash (observed now b) = ws_workspace_scope_hash b ∧ ws_plan_id (observed now b) = ws_plan_id b ∧
  ws_pre_state_id (observed now b) = ws_pre_state_id b.
Proof. intros He. unfold observed. rewrite He. by destruct (is_overdue b now). Qed.

Lemma transitioned_observed s receipt now b : is_expired_at b now = false →
  transitioned s receipt now (observed now b) = transitioned s receipt now b.
Proof. intros He. unfold observed. rewrite He. by destruct (is_overdue b now). Qed.

Lemma put_put b b' l : ws_request_id b' = ws_request_id b → put b' (put b l) = put b' l.
Proof. intros E. unfold put. cbn. by rewrite E, insert_insert_eq. Qed.

Lemma move_steps {new} expected next receipt now b l :
  legal_move expected next receipt → lg_requests l !! ws_request_id b = Some b → ws_state b = expected →
  is_expired_at b now = false → rtc (ledger_step now new) l (put (transitioned next receipt now b) l).
Proof.
  intros Hm Hb Hs He. etrans; [by apply (observed_steps now b)|].
  rewrite <- (transitioned_observed next receipt now b He).
  rewrite <- (put_put (observed now b) (transitioned next receipt now (observed now b)) l) by done.
  destruct (observed_live now b He) as (Hs' & _). apply rtc_once.
  assert (lg_requests (put (observed now b) l) !! ws_request_id (observed now b) = Some (observed now b)) as Hl by apply lookup_insert_eq.
  destruct Hm as [(-> & -> & ->)|[-> Hr]].
  - apply step_claim; [done|congruence|]. unfold observed. rewrite He. by destruct (is_overdue b now) eqn:Ho; [|].
  - apply step_end; [done|congruence|done].
Qed.

Lemma does_transition {new} id scope plan_id pre_state_id expected next receipt now l :
  hex64 id = true → u64 now → opt_holds receipt_in_range receipt → legal_move expected next receipt →
  does holds (transition_locked id scope plan_id pre_state_id expected next receipt now) l (fun l' r =>
    rtc (ledger_step now new) l l' ∧
    match r with
    | Ok st => moved id scope plan_id pre_state_id expected next receipt now l l' st
    | Err e => refused id scope plan_id pre_state_id expected now l e
    end).
Proof.
  intros Hid Hn Hrc Hm. unfold transition_locked. apply does_bind, (does_load_current (new := new)); try done.
  intros k b Hk Hb Hbid Hr. assert (lg_requests l !! ws_request_id b = Some b) as Hb' by by rewrite Hbid.
  pose proof (observed_steps (new := new) now b l Hb') as Hsteps.
  apply does_fail_if; [intros He; split; [done|by exists b]|intros He]. destruct (observed_live now b He) as (E1 & E2 & E3 & E4).
  rewrite E1, E2, E3, E4. set (record := observed now b) in *.
  apply does_fail_if; [intros ?%negb_true_iff%String.eqb_neq; split; [done|by exists b]|intros Ha%negb_false_iff%String.eqb_eq].
  apply does_fail_if; [intros ?%negb_true_iff%String.eqb_neq; split; [done|by exists b]|intros Hp%negb_false_iff%String.eqb_eq].
  apply does_fail_if; [intros ?%negb_true_iff%String.eqb_neq; split; [done|by exists b]|intros Hq%negb_false_iff%String.eqb_eq].
  apply does_fail_if.
  { intros Hs%negb_true_iff%bool_decide_eq_false. split; [done|]. exists b. by unfold bound_to. }
  intros Hs%negb_false_iff%bool_decide_eq_true. unfold record. rewrite transitioned_observed by done.
  pose proof (move_steps (new := new) expected next receipt now b l Hm Hb' Hs He) as Hmoved.
  assert (put (transitioned next receipt now b) (put (observed now b) l) = put (transitioned next receipt now b) l) as Hput
    by (apply put_put; exact (eq_sym (observed_id now b))).
  apply does_bind, does_write_record; [done|by rewrite <- Hbid in Hid|by apply transitioned_in_range| | |]; rewrite ?Hput.
  - apply does_ret. split; [done|]. by exists b.
  - done.
  - done.
Qed.

(** ** Creating a request *)

Lemma strip_json name id : strip_suffix ".json" name = Some id → name = request_file_name id.
Proof.
  unfold strip_suffix. destruct (ends_with ".json" name) eqn:E; [|done]. apply ends_with_spec in E as [t ->].
  pose proof (strip_suffix_app ".json" t) as Ht. unfold strip_suffix in Ht.
  rewrite (proj2 (ends_with_spec _ _)) in Ht by by exists t. intros E. rewrite E in Ht. by injection Ht as ->.
Qed.

(** Only expired records were removed. *)
Definition cleaned (now : N) (l l' : ledger) : Prop :=
  lg_key l' = lg_key l ∧
  ∀ id b, (lg_requests l' !! id = Some b → lg_requests l !! id = Some b) ∧
          (lg_requests l !! id = Some b → lg_requests l' !! id = Some b ∨ is_expired_at b now = true).

Lemma cleaned_refl now l : cleaned now l l.
Proof. split; [done|]. intros id b. split; [done|by left]. Qed.

Lemma cleaned_trans now l1 l2 l3 : cleaned now l1 l2 → cleaned now l2 l3 → cleaned now l1 l3.
Proof.
  intros [K1 H1] [K2 H2]. split; [congruence|]. intros id b. destruct (H1 id b) as [A1 B1], (H2 id b) as [A2 B2]. split; [auto|].
  intros Hb. destruct (B1 Hb); auto.
Qed.

Lemma cleaned_drop now b l : lg_requests l !! ws_request_id b = Some b → is_expired_at b now = true →
  cleaned now l (drop_request (ws_request_id b) l).
Proof.
  intros Hb He. split; [done|]. intros id c. cbn. rewrite lookup_delete_Some. split; [naive_solver|]. intros Hc.
  destruct (decide (ws_request_id b = id)) as [<-|]; [right; congruence|by left].
Qed.

Lemma does_remove b l (Q : ledger → result unit WorkspaceRequestError → Prop) :
  lg_requests l !! ws_request_id b = Some b → hex64 (ws_request_id b) = true →
  (∀ e, Q l (Err (ReqIo e))) → (∀ r, (∀ e, r = Err e → storage_error e) → Q (drop_request (ws_request_id b) l) r) →
  does holds (from_io (in_requests (fun d => remove_file d (request_file_name (ws_request_id b))))) l Q.
Proof.
  intros Hb Hid H1 H2. apply does_from_io. intros w w' r Hw Hm. unfold in_requests in Hm.
  destruct (remove_file (rw_requests w) _) as [d r0] eqn:E. injection Hm as <- <-. set (w1 := mk_request_world (rw_home w) d).
  assert (∀ e, map_err ReqIo r0 = Err e → storage_error e) as Hst by (destruct r0; cbn; intros e' [=]; by subst).
  assert (file_contents d (request_file_name (ws_request_id b)) = None → holds w1 (drop_request (ws_request_id b) l)) as Hnew.
  { intros Hd. destruct Hw as [A B C D]. constructor; [done..| |].
    - intros id Hi. cbn. destruct (decide (id = ws_request_id b)) as [->|Hne].
      + rewrite lookup_delete_eq, Hd. by destruct (lg_key l).
      + rewrite lookup_delete_ne by done. rewrite (remove_file_other _ _ _ _ _ E) by (intros ?%file_name_inj; congruence). by apply C.
    - intros id c. cbn. rewrite lookup_delete_Some. intros [_ Hc]. by apply D. }
  destruct r0 as [[]|e].
  - eexists. split; [by eapply Hnew, remove_file_ok|]. by apply H2.
  - destruct (remove_file_err _ _ _ _ E) as [Hd|Hd]; [|eexists; split; [by apply Hnew|by apply H2]].
    exists l. split; [|apply H1]. destruct Hw as [A B C D]. constructor; [done..| |done]. intros id Hi. cbn.
    destruct (decide (id = ws_request_id b)) as [->|Hne]; [by rewrite Hd, C|].
    rewrite (remove_file_other _ _ _ _ _ E) by (intros ?%file_name_inj; congruence). by apply C.
Qed.

(** What was collected: the live pending records with a file among the names *)
Record collected (now : N) (names : list string) (l' : ledger) (ps : list WorkspaceRequestStatus) : Prop := mk_collected {
  collected_live : ∀ b, b ∈ ps → lg_requests l' !! ws_request_id b = Some b ∧ ws_state b = Pending ∧ is_expired_at b now = false;
  collected_all : ∀ id b, lg_requests l' !! id = Some b → ws_state b = Pending → request_file_name id ∈ names → b ∈ ps;
  collected_named : ∀ b, b ∈ ps → request_file_name (ws_request_id b) ∈ names;
  collected_once : NoDup names → NoDup (ws_request_id <$> ps);
}.

(** A name that is no file of a pending request adds nothing. *)
Lemma collected_skip now name rest l ps :
  (∀ id b, lg_requests l !! id = Some b → ws_state b = Pending → name ≠ request_file_name id) →
  collected now rest l ps → collected now (name :: rest) l ps.
Proof.
  intros Hn [C1 C2 C3 C4]. constructor; [done| |set_solver|by intros [_ ?]%NoDup_cons; apply C4].
  intros id b Hb Hs [E|Hin]%elem_of_cons; [by destruct (Hn id b Hb Hs)|by apply (C2 id)].
Qed.

Lemma collected_cons now b rest l ps :
  lg_requests l !! ws_request_id b = Some b → ws_state b = Pending → is_expired_at b now = false →
  collected now rest l ps → collected now (request_file_name (ws_request_id b) :: rest) l (b :: ps).
Proof.
  intros Hb Hs He [C1 C2 C3 C4]. constructor.
  - intros c [->|Hc]%elem_of_cons; [done|by apply C1].
  - intros id c Hc Hsc [E%file_name_inj|Hin]%elem_of_cons; [|right; by apply (C2 id)]. assert (c = b) as -> by congruence. left.
  - intros c [->|Hc]%elem_of_cons; [left|right; by apply C3].
  - intros [Hn Hnd]%NoDup_cons. cbn. apply NoDup_cons. split; [|by apply C4].
    intros (c & Ec & Hc)%list_elem_of_fmap. apply Hn. rewrite Ec. by apply C3.
Qed.

Definition cleaned_up new (now : N) (names : list string) (l : ledger) {A} (l' : ledger)
    (r : result (list WorkspaceRequestStatus * A) WorkspaceRequestError) : Prop :=
  cleaned now l l' ∧ rtc (ledger_step now new) l l' ∧
  match r with Ok (ps, _) => collected now names l' ps | Err e => storage_error e end.

Lemma cleaned_up_after {new} now names rest l l1 {A B} l2 (r : result (list WorkspaceRequestStatus * A) WorkspaceRequestError)
    (r' : result (list WorkspaceRequestStatus * B) WorkspaceRequestError) :
  cleaned now l l1 → rtc (ledger_step now new) l l1 → cleaned_up new now rest l1 l2 r →
  match r with
  | Ok (ps, _) => ∃ ps' x, r' = Ok (ps', x) ∧ (collected now rest l2 ps → collected now names l2 ps')
  | Err e => r' = Err e
  end → cleaned_up new now names l l2 r'.
Proof.
  intros Hc Hs (H1 & H2 & H3) Hr. split_and!; [by eapply cleaned_trans|by etrans|].
  destruct r as [[ps x]|e]; [destruct Hr as (ps' & y & -> & Hr); by apply Hr|by subst].
Qed.

Lemma does_cleanup_names {new} k now names l :
  lg_key l = Some k → does holds (cleanup_names k now names) l (cleaned_up new now names l).
Proof.
  revert l. induction names as [|name rest IH]; intros l Hk; cbn [cleanup_names].
  { apply does_ret. split_and!; [apply cleaned_refl|done|]. constructor; [set_solver..|by intros; constructor]. }
  intros w w' r Hw. pose proof (holds_requests _ _ Hw) as Hreq. revert w w' r Hw.
  assert ((∀ id b, lg_requests l !! id = Some b → ws_state b = Pending → name ≠ request_file_name id) →
    does holds (cleanup_names k now rest) l (cleaned_up new now (name :: rest) l)) as Hskip.
  { intros Hn. eapply does_weaken; [by apply IH|]. intros l2 r Hu.
    eapply (cleaned_up_after now _ rest l l); [apply cleaned_refl|done|done|]. destruct r as [[ps x]|e]; [|done].
    exists ps, x. split; [done|]. apply collected_skip. intros id b Hb. apply (Hn id b). by apply (proj1 (proj2 (proj1 Hu) _ _)). }
  destruct (strip_suffix ".json" name) as [id|] eqn:En.
  2: { apply Hskip. intros id b Hb _ ->. unfold request_file_name in En. by rewrite strip_suffix_app in En. }
  destruct (hex64 id) eqn:Hid; cbn [negb].
  2: { apply Hskip. intros id' b Hb _ ->. unfold request_file_name in En. rewrite strip_suffix_app in En. injection En as ->.
       destruct (Hreq _ _ Hb) as (_ & Hh & _). congruence. }
  apply strip_json in En as ->. apply does_bind, does_load_record; [done|done| |by intros; split_and!; [apply cleaned_refl|..]..].
  intros b Hb. destruct (Hreq _ _ Hb) as (Hbid & _). subst id. destruct (decide (ws_state b = Pending)) as [Hp|Hp].
  2: { rewrite bool_decide_false by done. cbn [andb]. apply does_bind. eapply does_weaken.
       - apply Hskip. intros id c Hc Hs E%file_name_inj. congruence.
       - intros l2 [[ps x]|e] Hu; [by apply does_ret|done]. }
  rewrite bool_decide_true by done. cbn [andb]. destruct (is_expired_at b now) eqn:He.
  - pose proof (cleaned_drop now b l Hb He) as Hc. assert (rtc (ledger_step now new) l (drop_request (ws_request_id b) l)) as Hs
      by by apply rtc_once, step_remove.
    apply does_bind, does_remove; [done|done|by intros; split_and!; [apply cleaned_refl|..]|].
    intros [[]|e] Hr; [|split_and!; [done|done|by apply Hr]]. apply does_bind. eapply does_weaken; [by apply IH|].
    intros l2 [[ps x]|e] Hu; [apply does_ret|]; (eapply (cleaned_up_after now _ rest l); [done|done|done|]); [|done].
    exists ps, true. split; [done|]. apply collected_skip. intros id c Hcl _ <-%file_name_inj. apply (proj1 (proj2 (proj1 Hu) _ _)) in Hcl. cbn in Hcl.
    by rewrite lookup_delete_eq in Hcl.
  - apply does_bind. eapply does_weaken; [by apply IH|]. intros l2 [[ps x]|e] Hu; [apply does_ret|done].
    eapply (cleaned_up_after now _ rest l l); [apply cleaned_refl|done|done|]. exists (b :: ps), x. split; [done|].
    apply collected_cons; [|done..]. destruct Hu as ((_ & Hcl) & _). destruct (Hcl (ws_request_id b) b) as [_ Hx].
    destruct (Hx Hb) as [|]; [done|congruence].
Qed.

Lemma does_cleanup {new} k now l Q :
  lg_key l = Some k →
  (∀ l' ps, cleaned now l l' → rtc (ledger_step now new) l l' → NoDup (ws_request_id <$> ps) →
    (∀ b, b ∈ ps ↔ lg_requests l' !! ws_request_id b = Some b ∧ ws_state b = Pending) →
    (∀ b, b ∈ ps → is_expired_at b now = false) → Q l' (Ok ps)) →
  (∀ e l', rtc (ledger_step now new) l l' → storage_error e → Q l' (Err e)) →
  does holds (cleanup_and_collect_pending_locked k now) l Q.
Proof.
  intros Hk H1 H2 w w' r Hw Hm. unfold cleanup_and_collect_pending_locked in Hm.
  apply io_bind_inv in Hm as [(w1 & names & Hn & Hm)|(e & Hn & ->)]; unfold from_io, in_requests, ask in Hn; cbn in Hn.
  2: { destruct (file_names (rw_requests w)) as [names|e0]; [done|]. injection Hn as <- <-. exists l. split; [by destruct w|]. by apply H2. }
  destruct (file_names (rw_requests w)) as [names'|] eqn:En; [|done]. injection Hn as <- ->.
  assert (holds (mk_request_world (rw_home w) (rw_requests w)) l) as Hw1 by by destruct w.
  assert (∀ id b, lg_requests l !! id = Some b → hex64 id = true ∧ request_file_name id ∈ names) as Hnames.
  { intros id b Hb. destruct (holds_requests _ _ Hw _ _ Hb) as (_ & Hid & _). split; [done|].
    eapply file_names_complete; [exact En|]. rewrite (holds_files _ _ Hw), Hk by done. cbn. rewrite Hb. by eexists. }
  pose proof (holds_requests _ _ Hw) as Hreq. revert Hm Hw1. generalize (mk_request_world (rw_home w) (rw_requests w)).
  intros w1 Hm Hw1. revert w1 w' r Hw1 Hm. change (does holds (do? collected := cleanup_names k now names in
    do? _ := (if (collected.2 : bool) then from_io (in_requests (ask sync_dir)) else io_ret tt) in io_ret (collected.1)) l Q).
  apply does_bind. eapply does_weaken; [by apply (does_cleanup_names (new := new))|]. intros l2 [[ps x]|e] (Hc & Hs & Hr); [|by apply H2].
  assert (Q l2 (Ok ps)) as HQ.
  { destruct Hr as [C1 C2 C3 C4]. apply H1; [done|done|by eapply C4, file_names_once| |intros b Hb; by apply C1].
    intros b. split; [intros Hb; by destruct (C1 b Hb) as (? & ? & _)|]. intros [Hb Hp]. apply (C2 _ _ Hb Hp).
    apply (Hnames _ b). by apply (proj1 (proj2 Hc _ _)). }
  apply does_bind. destruct x; cbn [snd]; [|by apply does_ret, does_ret]. apply does_from_io.
  intros w1 w2 r Hw1 Hm. injection Hm as <- <-. exists l2. split; [by destruct w1|].
  destruct (sync_dir (rw_requests w1)) as [[]|e]; [by apply does_ret|by apply H2].
Qed.

(** The pending records of a workspace, counted *)
Lemma pending_counted scope l ps :
  NoDup (ws_request_id <$> ps) → (∀ id b, lg_requests l !! id = Some b → ws_request_id b = id) →
  (∀ b, b ∈ ps ↔ lg_requests l !! ws_request_id b = Some b ∧ ws_state b = Pending) →
  length (filter (fun b => ws_workspace_scope_hash b = scope) ps) = pending_count scope l.
Proof.
  intros Hnd Hid Hps. unfold pending_count. set (mine := filter _ ps). rewrite <- size_dom.
  assert (NoDup (ws_request_id <$> mine)) as Hm by (eapply sublist_NoDup; [done|]; by apply fmap_sublist, sublist_filter).
  rewrite <- (length_fmap ws_request_id mine), <- (size_list_to_set (C := gset string)) by done. f_equal. apply set_eq. intros id.
  rewrite elem_of_list_to_set, list_elem_of_fmap, elem_of_dom. unfold is_Some. setoid_rewrite map_lookup_filter_Some.
  split.
  - intros (b & -> & [Hs Hb]%list_elem_of_filter). apply Hps in Hb as [Hb Hp]. by exists b.
  - intros (b & Hb & Hp & Hs). pose proof (Hid _ _ Hb) as <-. exists b. split; [done|]. apply list_elem_of_filter. split; [done|]. by apply Hps.
Qed.

(** What creating a request answered *)
Definition created_or_found (id scope plan_id pre_state_id : string) (summary : SanitizedActionSummary) (now : N)
    (fresh : string) (l l' : ledger) : Prop :=
  id = hex_encode fresh ∧ lg_requests l' !! id = Some (new_request id scope plan_id pre_state_id summary now) ∨
  ∃ b, id = ws_request_id b ∧ lg_requests l !! id = Some b ∧ lg_requests l' !! id = Some b ∧ ws_state b = Pending ∧
    is_expired_at b now = false ∧ bound_to scope plan_id pre_state_id b ∧ ws_action_summary b = summary.

Definition summary_in_range (s : SanitizedActionSummary) : Prop := (as_action_count s <= u32_max)%N.

Lemma same_request_spec scope plan_id pre_state_id summary b :
  same_request scope plan_id pre_state_id summary b = true ↔
  bound_to scope plan_id pre_state_id b ∧ ws_action_summary b = summary.
Proof. unfold same_request, bound_to. rewrite !andb_true_iff, !bool_decide_eq_true. tauto. Qed.

Lemma does_create scope plan_id pre_state_id summary now fresh_key fresh l :
  String.length fresh_key = 32%nat → String.length fresh = 32%nat → u64 now → summary_in_range summary →
  lg_requests l !! hex_encode fresh = None →
  let b0 := new_request (hex_encode fresh) scope plan_id pre_state_id summary now in
  does holds (create_locked scope plan_id pre_state_id summary now fresh_key fresh) l (fun l' r =>
    rtc (ledger_step now (eq b0)) l l' ∧
    match r with
    | Ok id => created_or_found id scope plan_id pre_state_id summary now fresh l l'
    | Err ReqPendingLimit => (MAX_PENDING_PER_WORKSPACE <= pending_count scope l')%nat
    | Err e => storage_error e
    end).
Proof.
  intros Hfk Hf Hn Hsum Hnew b0 w w' r Hw. pose proof (holds_requests _ _ Hw) as Hreq. revert w w' r Hw. unfold create_locked.
  apply does_bind, does_acquire; [|by intros]. apply does_bind, (does_load_or_create_key (new := eq b0) _ now); [done| |by intros].
  intros k l1 Hk S1 R1. apply does_bind, does_open_requests; [|by intros]. apply does_bind, (does_cleanup (new := eq b0)) with (k := k); [done| |].
  2: { intros e l2 S2 He. split; [by etrans|by destruct e]. }
  intros l2 ps [Hk2 Hc] S2 Hnd Hps Hlive. assert (rtc (ledger_step now (eq b0)) l l2) as S by by etrans.
  assert (∀ id b, lg_requests l2 !! id = Some b → lg_requests l !! id = Some b) as Hsub
    by (intros id b Hb; apply (proj1 (Hc id b)) in Hb; by rewrite R1 in Hb).
  destruct (List.find _ ps) as [b|] eqn:Efind.
  - apply List.find_some in Efind as [Hin%list_elem_of_In Hsame%same_request_spec]. apply does_ret. split; [done|].
    pose proof (proj1 (Hps b) Hin) as [Hb Hp]. right. exists b. destruct Hsame as [Hbound Hsm].
    split_and!; try done; [by apply Hsub|by apply Hlive].
  - assert (length (filter (fun b => ws_workspace_scope_hash b = scope) ps) = pending_count scope l2) as Hlen.
    { apply pending_counted; [done| |done]. intros id b Hb%Hsub. by apply Hreq. }
    rewrite Hlen. apply does_fail_if; [intros Hx%Nat.leb_le; done|intros Hx%Nat.leb_gt].
    fold b0. set (l3 := put b0 l2).
    assert (rtc (ledger_step now (eq b0)) l l3) as S3.
    { eapply rtc_r; [exact S|]. apply step_create; [done| |done]. destruct (lg_requests l2 !! hex_encode fresh) eqn:E; [|done].
      apply Hsub in E. congruence. }
    apply does_bind, does_write_record; [by rewrite Hk2|by apply hex_encode_hex64| | |done|done].
    + split_and!; try done. apply saturating_in_range.
    + apply does_ret. split; [done|]. left. split; [done|]. apply lookup_insert_eq.
Qed.

(** ** Calls *)

Inductive finish := Complete | CompleteWithReceipt (receipt : WorkspaceApplyReceipt) | Fail | Rollback.

Inductive request_call :=
  | CallCreate (workspace plan_id pre_state_id : string) (summary : SanitizedActionSummary) (now : N) (fresh_key fresh : string)
  | CallStatus (request_id : string) (now : N)
  | CallClaim (request_id workspace plan_id pre_state_id : string) (now : N)
  | CallFinish (how : finish) (request_id workspace plan_id pre_state_id : string) (now : N).

Definition call_time (c : request_call) : N :=
  match c with
  | CallCreate _ _ _ _ now _ _ | CallStatus _ now | CallClaim _ _ _ _ now | CallFinish _ _ _ _ _ now => now
  end.

(** An identifier or a status *)
Definition run (c : request_call) : io request_world WorkspaceRequestError (string + WorkspaceRequestStatus) := fun w =>
  match c with
  | CallCreate workspace plan_id pre_state_id summary now fresh_key fresh =>
      let '(w1, r) := create_request_at workspace plan_id pre_state_id summary now fresh_key fresh w in (w1, map_ok inl r)
  | CallStatus id now => let '(w1, r) := get_status id now w in (w1, map_ok inr r)
  | CallClaim id workspace plan_id pre_state_id now =>
      let '(w1, r) := claim_exact id workspace plan_id pre_state_id now w in (w1, map_ok inr r)
  | CallFinish how id workspace plan_id pre_state_id now =>
      let '(w1, r) := match how with
                      | Complete => complete_request id workspace plan_id pre_state_id now w
                      | CompleteWithReceipt receipt =>
                          complete_request_with_receipt id workspace plan_id pre_state_id receipt now w
                      | Fail => fail_request id workspace plan_id pre_state_id now w
                      | Rollback => rollback_request id workspace plan_id pre_state_id now w
                      end in (w1, map_ok inr r)
  end.

Definition finish_state (how : finish) : WorkspaceRequestState :=
  match how with Complete | CompleteWithReceipt _ => Applied | Fail => Failed | Rollback => RolledBack end.
Definition finish_receipt (how : finish) : option WorkspaceApplyReceipt :=
  match how with CompleteWithReceipt receipt => Some receipt | _ => None end.

(** The arguments are machine integers, and random bytes are 32 and new. *)
Definition call_fits (l : ledger) (c : request_call) : Prop :=
  u64 (call_time c) ∧
  match c with
  | CallCreate _ _ _ summary _ fresh_key fresh =>
      String.length fresh_key = 32%nat ∧ String.length fresh = 32%nat ∧ summary_in_range summary ∧
      lg_requests l !! hex_encode fresh = None
  | CallFinish (CompleteWithReceipt receipt) _ _ _ _ _ => receipt_in_range receipt
  | _ => True
  end.

(** The refusals of the arguments, before the lock *)
Definition argument_error (e : WorkspaceRequestError) : Prop :=
  match e with ReqInvalidRequestId | ReqInvalidDigest _ | ReqInvalidWorkspace => True | _ => False end.

(** What a transition answered, for the workspace as it was when it was asked *)
Definition transition_answer (w : request_world) (id workspace plan_id pre_state_id : string)
    (expected next : WorkspaceRequestState) (receipt : option WorkspaceApplyReceipt) (now : N) (l l' : ledger)
    (r : result (string + WorkspaceRequestStatus) WorkspaceRequestError) : Prop :=
  match r with
  | Ok (inl _) => False
  | Ok (inr st) => ∃ scope, workspace_scope_hash workspace w = (w, Ok scope) ∧
      moved id scope plan_id pre_state_id expected next receipt now l l' st
  | Err e => argument_error e ∧ l' = l ∨
      ∃ scope, workspace_scope_hash workspace w = (w, Ok scope) ∧ refused id scope plan_id pre_state_id expected now l e
  end.

(** The answers of the ledger *)
Definition answers (w : request_world) (c : request_call) (l l' : ledger)
    (r : result (string + WorkspaceRequestStatus) WorkspaceRequestError) : Prop :=
  match c with
  | CallCreate workspace plan_id pre_state_id summary now _ fresh =>
      match r with
      | Ok (inl id) => ∃ scope, workspace_scope_hash workspace w = (w, Ok scope) ∧
          created_or_found id scope plan_id pre_state_id summary now fresh l l'
      | Ok (inr _) => False
      | Err ReqPendingLimit => ∃ scope, workspace_scope_hash workspace w = (w, Ok scope) ∧
          (MAX_PENDING_PER_WORKSPACE <= pending_count scope l')%nat
      | Err e => argument_error e ∧ l' = l ∨ storage_error e
      end
  | CallStatus id now =>
      match r with
      | Ok (inl _) => False
      | Ok (inr st) => ∃ b, lg_requests l !! id = Some b ∧ st = observed now b ∧ l' = put st l
      | Err ReqNotFound => lg_requests l !! id = None
      | Err e => e = ReqInvalidRequestId ∧ l' = l ∨ storage_error e
      end
  | CallClaim id workspace plan_id pre_state_id now =>
      transition_answer w id workspace plan_id pre_state_id Pending Claimed None now l l' r
  | CallFinish how id workspace plan_id pre_state_id now =>
      transition_answer w id workspace plan_id pre_state_id Claimed (finish_state how) (finish_receipt how) now l l' r
  end.

Lemma scope_same workspace w w' r : workspace_scope_hash workspace w = (w', r) → w' = w ∧ (∀ e, r = Err e → e = ReqInvalidWorkspace).
Proof. unfold workspace_scope_hash. repeat case_match; intros [= <- <-]; split; try done; by intros ? [= <-]. Qed.

(** The checks of the arguments and the scope, then what is done under the lock *)
Lemma guarded_digest value name {T} (k : io request_world WorkspaceRequestError T) w w' r :
  (do? _ := io_lift (validate_digest value name) in k) w = (w', r) →
  k w = (w', r) ∨ w' = w ∧ r = Err (ReqInvalidDigest name).
Proof. unfold io_bind, io_lift, validate_digest. destruct (hex64 value); cbn; [by left|intros [= <- <-]; by right]. Qed.

Lemma guarded_id id {T} (k : io request_world WorkspaceRequestError T) w w' r :
  (do? _ := io_lift (validate_request_id id) in k) w = (w', r) →
  hex64 id = true ∧ k w = (w', r) ∨ w' = w ∧ r = Err ReqInvalidRequestId.
Proof. unfold io_bind, io_lift, validate_request_id. destruct (hex64 id); cbn; [by left|intros [= <- <-]; by right]. Qed.

Lemma guarded_scope workspace {T} (k : string → io request_world WorkspaceRequestError T) w w' r :
  (do? scope := workspace_scope_hash workspace in k scope) w = (w', r) →
  (∃ scope, workspace_scope_hash workspace w = (w, Ok scope) ∧ k scope w = (w', r)) ∨ w' = w ∧ r = Err ReqInvalidWorkspace.
Proof.
  intros [(w1 & scope & Hs & Hk)|(e & Hs & ->)]%io_bind_inv; pose proof (scope_same _ _ _ _ Hs) as [-> He]; [left; by exists scope|right].
  split; [done|]. by rewrite (He _ eq_refl).
Qed.

Lemma run_transition {new} id workspace plan_id pre_state_id expected next receipt now w w' l r :
  holds w l → u64 now → opt_holds receipt_in_range receipt → legal_move expected next receipt →
  transition_with_receipt id workspace plan_id pre_state_id expected next receipt now w = (w', r) →
  ∃ l', holds w' l' ∧ rtc (ledger_step now new) l l' ∧
    transition_answer w id workspace plan_id pre_state_id expected next receipt now l l' (map_ok inr r).
Proof.
  intros Hw Hn Hrc Hm Hr. unfold transition_with_receipt in Hr.
  apply guarded_id in Hr as [[Hid Hr]|[-> ->]]; [|exists l; split_and!; [done|done|by left]].
  apply guarded_digest in Hr as [Hr|[-> ->]]; [|exists l; split_and!; [done|done|by left]].
  apply guarded_digest in Hr as [Hr|[-> ->]]; [|exists l; split_and!; [done|done|by left]].
  apply guarded_scope in Hr as [(scope & Hs & Hr)|[-> ->]]; [|exists l; split_and!; [done|done|by left]].
  destruct (does_transition (new := new) _ scope plan_id pre_state_id _ _ _ _ l Hid Hn Hrc Hm _ _ _ Hw Hr) as (l' & Hw' & Hst & Ha).
  exists l'. split_and!; [done|done|]. destruct r as [st|e]; [by exists scope|right; by exists scope].
Qed.

(** The record that a call may create *)
Definition creates (w : request_world) (c : request_call) (b : WorkspaceRequestStatus) : Prop :=
  match c with
  | CallCreate workspace plan_id pre_state_id summary now _ fresh => ∃ scope,
      workspace_scope_hash workspace w = (w, Ok scope) ∧
      b = new_request (hex_encode fresh) scope plan_id pre_state_id summary now
  | _ => False
  end.

Lemma ledger_step_mono now (new new' : WorkspaceRequestStatus → Prop) l l' :
  (∀ b, new b → new' b) → rtc (ledger_step now new) l l' → rtc (ledger_step now new') l l'.
Proof.
  intros Hn. apply rtc_subrel. intros x y []; [by apply step_key|apply step_create; auto|by apply step_claim|by apply step_end|
    by apply step_overdue|by apply step_expire|by apply step_remove].
Qed.

Lemma run_create workspace plan_id pre_state_id summary now fresh_key fresh w w' l r :
  let c := CallCreate workspace plan_id pre_state_id summary now fresh_key fresh in
  holds w l → call_fits l c → create_request_at workspace plan_id pre_state_id summary now fresh_key fresh w = (w', r) →
  ∃ l', holds w' l' ∧ rtc (ledger_step now (creates w c)) l l' ∧ answers w c l l' (map_ok inl r).
Proof.
  intros c Hw (Hn & Hfk & Hf & Hs & Hnew) Hr. unfold create_request_at in Hr.
  apply guarded_digest in Hr as [Hr|[-> ->]]; [|exists l; split_and!; [done|done|by left]].
  apply guarded_digest in Hr as [Hr|[-> ->]]; [|exists l; split_and!; [done|done|by left]].
  apply guarded_scope in Hr as [(scope & Hsc & Hr)|[-> ->]]; [|exists l; split_and!; [done|done|by left]].
  destruct (does_create scope _ _ _ _ _ _ l Hfk Hf Hn Hs Hnew _ _ _ Hw Hr) as (l' & Hw' & Hst & Ha).
  exists l'. split_and!; [done| |].
  - eapply ledger_step_mono; [|exact Hst]. intros b <-. by exists scope.
  - destruct r as [id|e]; [by exists scope|]. destruct e; try done; try (by right). by exists scope.
Qed.

Lemma run_status {new} id now w w' l r :
  holds w l → u64 now → get_status id now w = (w', r) →
  ∃ l', holds w' l' ∧ rtc (ledger_step now new) l l' ∧ answers w (CallStatus id now) l l' (map_ok inr r).
Proof.
  intros Hw Hn Hr. apply guarded_id in Hr as [[Hid Hr]|[-> ->]]; [|exists l; split_and!; [done|done|by left]].
  revert w w' r Hw Hr. cut (does holds (do? current := load_current id now in io_ret (current.2.1)) l (fun l' r =>
    rtc (ledger_step now new) l l' ∧ ∀ w, answers w (CallStatus id now) l l' (map_ok inr r))).
  { intros Hd w w' r Hw Hr. destruct (Hd _ _ _ Hw Hr) as (l' & H1 & H2 & H3). by exists l'. }
  apply does_bind, (does_load_current (new := new)); try done.
  - intros k b _ Hb <- _. apply does_ret. split; [by apply observed_steps|]. intros w. by exists b.
  - split; [done|]. by right.
  - intros e l' Hs. split; [done|]. by right.
Qed.

(** ** Histories *)

(** A call with the store it was made on and its result *)
Definition entry : Type := request_world * request_call * result (string + WorkspaceRequestStatus) WorkspaceRequestError.

Definition drawn (c : request_call) : option string :=
  match c with CallCreate _ _ _ _ _ _ fresh => Some fresh | _ => None end.

(** Arguments are machine integers; random bytes are 32, and no identifier is
    drawn twice. *)
Definition call_fresh (h : list entry) (c : request_call) : Prop :=
  u64 (call_time c) ∧
  match c with
  | CallCreate _ _ _ summary _ fresh_key fresh =>
      String.length fresh_key = 32%nat ∧ String.length fresh = 32%nat ∧ summary_in_range summary ∧
      Forall (fun e : entry => drawn e.1.2 ≠ Some fresh) h
  | CallFinish (CompleteWithReceipt receipt) _ _ _ _ _ => receipt_in_range receipt
  | _ => True
  end.

Inductive history (w0 : request_world) : list entry → request_world → Prop :=
  | history_nil : history w0 [] w0
  | history_snoc h w c w' r : history w0 h w → call_fresh h c → run c w = (w', r) → history w0 (h ++ [(w, c, r)]) w'.

(** The same calls on the ledger *)
Inductive ledger_history : list entry → ledger → Prop :=
  | ledger_nil : ledger_history [] (mk_ledger None ∅)
  | ledger_snoc h l w c r l' :
      ledger_history h l → rtc (ledger_step (call_time c) (creates w c)) l l' → answers w c l l' r →
      ledger_history (h ++ [(w, c, r)]) l'.

(** Where a record comes from *)
Definition created_in (h : list entry) (b : WorkspaceRequestStatus) : Prop :=
  ∃ w workspace fresh_key fresh r,
    (w, CallCreate workspace (ws_plan_id b) (ws_pre_state_id b) (ws_action_summary b) (ws_created_at b) fresh_key fresh, r) ∈ h ∧
    workspace_scope_hash workspace w = (w, Ok (ws_workspace_scope_hash b)) ∧ ws_request_id b = hex_encode fresh ∧
    ws_expires_at b = saturating_add_u64 (ws_created_at b) REQUEST_TTL_SECS.

(** A claim of the request that succeeded *)
Definition claims (id : string) (e : entry) : Prop :=
  match e with (_, CallClaim id' _ _ _ _, Ok _) => id' = id | _ => False end.

(** Steps keep what identifies a record, and a record that is no longer
    pending stays. *)
Definition same_identity (b b' : WorkspaceRequestStatus) : Prop :=
  ws_request_id b' = ws_request_id b ∧ ws_workspace_scope_hash b' = ws_workspace_scope_hash b ∧ ws_plan_id b' = ws_plan_id b ∧
  ws_pre_state_id b' = ws_pre_state_id b ∧ ws_action_summary b' = ws_action_summary b ∧ ws_created_at b' = ws_created_at b ∧
  ws_expires_at b' = ws_expires_at b.

Record kept (l l' : ledger) : Prop := mk_kept {
  kept_records : ∀ id b', lg_requests l' !! id = Some b' →
    ∃ b, lg_requests l !! id = Some b ∧ same_identity b b' ∧ (ws_state b' = Pending → ws_state b = Pending);
  kept_settled : ∀ id b, lg_requests l !! id = Some b → ws_state b ≠ Pending →
    ∃ b', lg_requests l' !! id = Some b' ∧ ws_state b' ≠ Pending;
}.

Lemma same_identity_refl b : same_identity b b.
Proof. by unfold same_identity. Qed.

Lemma kept_put b b' l :
  lg_requests l !! ws_request_id b = Some b → same_identity b b' → ws_state b' = ws_state b ∨ ws_state b' ≠ Pending →
  kept l (put b' l).
Proof.
  intros Hb Hi Hs. pose proof (proj1 Hi) as Hid. constructor; cbn; rewrite Hid; intros id c.
  - intros [[<- <-]|[Hne Hc]]%lookup_insert_Some.
    + exists b. split; [done|]. split; [done|]. by destruct Hs as [->|].
    + exists c. split; [done|]. split; [apply same_identity_refl|done].
  - intros Hc Hn. destruct (decide (ws_request_id b = id)) as [<-|Hne].
    + exists b'. rewrite lookup_insert_eq. split; [done|]. assert (c = b) as -> by congruence. by destruct Hs as [->|].
    + exists c. by rewrite lookup_insert_ne.
Qed.

(** Every step but a creation keeps the records. *)
Lemma step_kept now new l l' : ledger_step now new l l' →
  kept l l' ∨
  ∃ b, new b ∧ l' = put b l ∧ lg_requests l !! ws_request_id b = None ∧
    (pending_count (ws_workspace_scope_hash b) l < MAX_PENDING_PER_WORKSPACE)%nat.
Proof.
  intros [k l0 Hk|b l0 ???|b l0 Hb Hs He|s receipt b l0 Hb Hs Hr|b l0 Hb Ho|b l0 Hb He|b l0 Hb He];
    [left|right; by exists b|left; try apply (kept_put b); try done..].
  - constructor; cbn; intros id b Hb; exists b; [split; [done|]; split; [apply same_identity_refl|done]|done].
  - by right.
  - right. by destruct s.
  - by left.
  - by right.
  - unfold is_expired_at in He. apply andb_true_iff in He as [He%bool_decide_eq_true _]. constructor; cbn; intros id c.
    + intros [_ Hc]%lookup_delete_Some. exists c. split; [done|]. split; [apply same_identity_refl|done].
    + intros Hc Hn. exists c. split; [|done]. apply lookup_delete_Some. split; [|done]. intros <-. congruence.
Qed.

(** Counting *)
Lemma pending_count_sub scope l l' :
  (∀ id b', lg_requests l' !! id = Some b' → pending_for scope b' → ∃ b, lg_requests l !! id = Some b ∧ pending_for scope b) →
  (pending_count scope l' <= pending_count scope l)%nat.
Proof.
  intros Hs. unfold pending_count. rewrite <- !size_dom. apply subseteq_size. intros id.
  rewrite !elem_of_dom. unfold is_Some. setoid_rewrite map_lookup_filter_Some. intros (b & Hb & Hp). by eapply Hs.
Qed.

Lemma pending_count_kept scope l l' : kept l l' → (pending_count scope l' <= pending_count scope l)%nat.
Proof.
  intros [Hr _]. apply pending_count_sub. intros id b' Hb' [Hp Hs]. destruct (Hr _ _ Hb') as (b & Hb & Hi & Hpp).
  exists b. split; [done|]. split; [auto|]. by rewrite <- (proj1 (proj2 Hi)).
Qed.

Lemma pending_count_put scope b l : lg_requests l !! ws_request_id b = None →
  (pending_count scope (put b l) <= (if decide (ws_workspace_scope_hash b = scope) then 1 else 0) + pending_count scope l)%nat.
Proof.
  intros Hb. unfold pending_count, put. cbn. destruct (decide (pending_for scope b)) as [Hp|Hp].
  - rewrite map_filter_insert_True by done. rewrite map_size_insert_None; [|by apply map_lookup_filter_None_2; left].
    destruct Hp as [_ Hp]. destruct (decide _); [lia|done].
  - rewrite map_filter_insert_False by done. rewrite delete_id by done. lia.
Qed.

(** What holds of the ledger after the calls of [h], of which those of [hc]
    have answered *)
Record sound (h hc : list entry) (l : ledger) : Prop := mk_sound {
  sound_bound : ∀ scope, (pending_count scope l <= MAX_PENDING_PER_WORKSPACE)%nat;
  sound_origin : ∀ id b, lg_requests l !! id = Some b → ws_request_id b = id ∧ created_in h b;
  sound_claimed : ∀ id e, e ∈ hc → claims id e → ∃ b, lg_requests l !! id = Some b ∧ ws_state b ≠ Pending;
}.

Lemma created_same h b b' : same_identity b b' → created_in h b → created_in h b'.
Proof. intros (E1 & E2 & E3 & E4 & E5 & E6 & E7). unfold created_in. by rewrite E1, E2, E3, E4, E5, E6, E7. Qed.

Lemma created_app h e b : created_in h b → created_in (h ++ [e]) b.
Proof. intros (w & ws & fk & f & r & Hin & Hx). exists w, ws, fk, f, r. split; [|done]. apply elem_of_app. by left. Qed.

Lemma step_sound now (new : WorkspaceRequestStatus → Prop) h hc l l' :
  (∀ b, new b → created_in h b) → ledger_step now new l l' → sound h hc l → sound h hc l'.
Proof.
  intros Hnew Hst [Hb Ho Hc]. destruct (step_kept _ _ _ _ Hst) as [Hk|(b & Hn & -> & Hnone & Hlt)].
  - constructor.
    + intros scope. etrans; [by apply pending_count_kept|done].
    + intros id b' Hb'. destruct (kept_records _ _ Hk _ _ Hb') as (b & Hbb & Hi & _). destruct (Ho _ _ Hbb) as [Hid Hcr].
      split; [by rewrite (proj1 Hi)|by eapply created_same].
    + intros id e He Hcl. destruct (Hc id e He Hcl) as (b & Hbb & Hs). by eapply kept_settled.
  - constructor.
    + intros scope. pose proof (pending_count_put scope b l Hnone) as Hp. destruct (decide _) as [<-|]; [lia|].
      specialize (Hb scope). lia.
    + intros id c. cbn. intros [[<- <-]|[_ Hcc]]%lookup_insert_Some; [by auto|by apply Ho].
    + intros id e He Hcl. destruct (Hc id e He Hcl) as (c & Hcc & Hs). exists c. split; [|done]. cbn. rewrite lookup_insert_ne; [done|congruence].
Qed.

Lemma steps_sound now (new : WorkspaceRequestStatus → Prop) h hc l l' :
  (∀ b, new b → created_in h b) → rtc (ledger_step now new) l l' → sound h hc l → sound h hc l'.
Proof. intros Hnew. induction 1 as [|l l1 l' Hst _ IH]; [done|]. intros Hs. by eapply IH, step_sound. Qed.

Lemma creates_created w c r h b : creates w c b → created_in (h ++ [(w, c, r)]) b.
Proof.
  destruct c as [workspace plan pre summary now fk fresh| | |]; cbn; try done. intros (scope & Hs & ->).
  exists w, workspace, fk, fresh, r. cbn. split_and!; try done. apply elem_of_app. right. by apply list_elem_of_singleton.
Qed.

Lemma answered_claim w c l l' r id : answers w c l l' r → claims id (w, c, r) →
  ∃ b, lg_requests l' !! id = Some b ∧ ws_state b ≠ Pending.
Proof.
  destruct c as [| |id' workspace plan pre now|]; try done; try by destruct r. destruct r as [[]|]; try done.
  intros (scope & _ & b & _ & _ & _ & _ & -> & -> & Hid) Hcl. cbn in Hcl. exists (transitioned Claimed None now b). split; [|done].
  cbn. rewrite <- Hcl, <- Hid. apply lookup_insert_eq.
Qed.

Lemma ledger_history_sound h l : ledger_history h l → sound h h l.
Proof.
  induction 1 as [|h l w c r l' _ IH Hst Ha].
  { constructor; cbn; [|intros id b; by rewrite lookup_empty|intros id e; by intros ?%elem_of_nil].
    intros scope. unfold pending_count. cbn. rewrite map_filter_empty, map_size_empty. lia. }
  assert (sound (h ++ [(w, c, r)]) h l) as H1.
  { destruct IH as [Hb Ho Hc]. constructor; [done| |done]. intros id b Hbb. destruct (Ho _ _ Hbb). split; [done|by apply created_app]. }
  apply (steps_sound _ _ _ _ _ _ (creates_created w c r h) Hst) in H1 as [Hb Ho Hc]. constructor; [done..|].
  intros id e [He|He%list_elem_of_singleton]%elem_of_app Hcl; [by eapply Hc|subst e; by eapply answered_claim].
Qed.

(** ** Refinement *)

Lemma run_refines w w' c l r : holds w l → call_fits l c → run c w = (w', r) →
  ∃ l', holds w' l' ∧ rtc (ledger_step (call_time c) (creates w c)) l l' ∧ answers w c l l' r.
Proof.
  intros Hw Hf Hr. unfold run in Hr.
  destruct c as [workspace plan pre summary now fk fresh|id now|id workspace plan pre now|how id workspace plan pre now].
  - destruct (create_request_at _ _ _ _ _ _ _ w) as [w1 r1] eqn:E. injection Hr as <- <-. by eapply run_create.
  - destruct (get_status _ _ w) as [w1 r1] eqn:E. injection Hr as <- <-. eapply run_status; [done|apply Hf|done].
  - destruct (claim_exact _ _ _ _ _ w) as [w1 r1] eqn:E. injection Hr as <- <-. eapply run_transition; [done|apply Hf|done|by left|done].
  - destruct Hf as [Hn Hrc]. cbn [answers call_time]. destruct how as [|receipt| |]; cbn [finish_state finish_receipt];
      (match type of Hr with (let '(_, _) := ?m in _) = _ => destruct m as [w1 r1] eqn:E end; injection Hr as <- <-).
    2: { apply guarded_digest in E as [E|[-> ->]]; [|exists l; split_and!; [done|done|by left]].
         eapply run_transition; [done|done|done|by right|done]. }
    all: eapply run_transition; [done|done|done|by right|done].
Qed.

Lemma simulate w0 h w : holds w0 (mk_ledger None ∅) → history w0 h w → ∃ l, holds w l ∧ ledger_history h l.
Proof.
  intros H0. induction 1 as [|h w c w' r _ (l & Hw & Hl) Hf Hr]; [by eexists; split; [|constructor]|].
  assert (call_fits l c) as Hfits.
  { destruct Hf as [Hn Hf]. split; [done|]. destruct c as [workspace plan pre summary now fk fresh| | |]; [|done..].
    destruct Hf as (H1 & H2 & H3 & H4). split_and!; try done. destruct (_ !! _) as [b|] eqn:Hb; [|done].
    destruct (sound_origin _ _ _ (ledger_history_sound _ _ Hl) _ _ Hb) as (Hid & w1 & ws1 & fk1 & f1 & r1 & Hin & _ & Hid' & _).
    rewrite Forall_forall in H4. destruct (H4 _ Hin). cbn. f_equal. apply hex_encode_inj. congruence. }
  destruct (run_refines _ _ _ _ _ Hw Hfits Hr) as (l' & Hw' & Hst & Ha). exists l'. split; [done|]. by eapply ledger_snoc.
Qed.
(** The store of a machine on which nothing was requested yet *)
Definition no_requests (w : request_world) : Prop := holds w (mk_ledger None ∅).

(** C4: The request store implements its ledger.  Take any sequence of calls
    of [create_request_at], [get_status], [claim_exact], [complete_request],
    [complete_request_with_receipt], [fail_request] and [rollback_request],
    whatever files, locks and directories return to them, from a machine with
    no requests.  Then the directories hold a ledger that the calls reached by
    its own steps, every answer is the ledger's: a status is what the record
    is at that time, a transition is made exactly on a live record of that
    workspace, plan and pre-state in the expected state and refused for the
    first reason otherwise, a creation answers a pending record of exactly
    what was asked; and no workspace ever has more than sixteen pending
    requests. *)
Theorem requests_refine (w0 w : request_world) (h : list entry) :
  no_requests w0 → history w0 h w →
  ∃ l, holds w l ∧ ledger_history h l ∧ ∀ scope, (pending_count scope l <= MAX_PENDING_PER_WORKSPACE)%nat.
Proof.
  intros H0 Hh. destruct (simulate w0 h w H0 Hh) as (l & Hw & Hl). exists l. split; [done|]. split; [done|].
  apply (ledger_history_sound h l Hl).
Qed.

(** C7: A request is claimed at most once, and only for what it was created
    for.  After any sequence of calls, a call of [claim_exact] that succeeds
    names a request that an earlier [create_request_at] made for the same
    workspace, plan and pre-state, within ten minutes of its creation, and no
    earlier call claimed it. *)
Theorem request_claimed_once (w0 w w' : request_world) (h : list entry) (id workspace plan_id pre_state_id : string)
    (now : N) (st : WorkspaceRequestStatus) :
  no_requests w0 → history w0 h w → u64 now →
  claim_exact id workspace plan_id pre_state_id now w = (w', Ok st) →
  Forall (fun e => ¬ claims id e) h ∧
  ∃ w1 workspace1 summary created fresh_key fresh r1 scope,
    (w1, CallCreate workspace1 plan_id pre_state_id summary created fresh_key fresh, r1) ∈ h ∧
    id = hex_encode fresh ∧ workspace_scope_hash workspace1 w1 = (w1, Ok scope) ∧
    workspace_scope_hash workspace w = (w, Ok scope) ∧ (now < saturating_add_u64 created REQUEST_TTL_SECS)%N.
Proof.
  intros H0 Hh Hn Hr. destruct (simulate w0 h w H0 Hh) as (l & Hw & Hl). pose proof (ledger_history_sound h l Hl) as [_ Ho Hc].
  destruct (run_transition (new := fun _ => False) id workspace plan_id pre_state_id Pending Claimed None now w w' l (Ok st) Hw Hn I
    ltac:(by left) Hr) as (l' & _ & _ & scope & Hsc & b & Hb & He & (Ha & Hp & Hq) & Hs & _ & _ & Hid).
  split.
  - apply Forall_forall. intros e Hin Hcl. destruct (Hc id e Hin Hcl) as (b' & Hb' & Hs'). congruence.
  - destruct (Ho _ _ Hb) as (_ & w1 & ws1 & fk & f & r1 & Hin & Hs1 & Hidf & Hexp). rewrite Hp, Hq in Hin. rewrite Ha in Hs1.
    exists w1, ws1, (ws_action_summary b), (ws_created_at b), fk, f, r1, scope. split_and!; [done|congruence|done|done|].
    unfold is_expired_at in He. rewrite bool_decide_true in He by done. cbn in He. apply N.leb_gt in He. lia.
Qed.
End spec.

(** ** A machine in memory *)

(** A directory is a map from the names of its files. *)
#[export] Instance request_state_dir_demo : StateDir := {|
  dir_t := gmap string string;
  geteuid := 1000;
  open_file d n create :=
    match d !! n with
    | Some _ => (d, Ok tt)
    | None => if create : bool then (<[n := EmptyString]> d, Ok tt) else (d, Err NotFound)
    end;
  open_file_readonly d n := match d !! n with Some _ => Ok tt | None => Err NotFound end;
  create_new_file d n :=
    match d !! n with Some _ => (d, Err AlreadyExists) | None => (<[n := EmptyString]> d, Ok tt) end;
  lock_exclusive _ _ := Ok tt;
  lock_shared _ _ := Ok tt;
  file_metadata _ _ := Ok (mk_metadata true false 1 1000 384);
  file_len d n := match d !! n with Some b => Ok (str_len b) | None => Err NotFound end;
  read_take d n k := match d !! n with Some b => Ok (str_take (N.to_nat k) b) | None => Err NotFound end;
  replace_file d n b := (<[n := b]> d, Ok tt);
  append_file d n b := match d !! n with Some c => (<[n := c +:+ b]> d, Ok tt) | None => (d, Err NotFound) end;
  sync_dir _ := Ok tt;
|}.

#[export] Instance request_state_dir_demo_laws : StateDirLaws request_state_dir_demo.
Proof.
  refine {| file_contents := (fun d n => d !! n) : @dir_t request_state_dir_demo → string → option string |};
    cbn; intros; repeat case_match; simplify_map_eq; try done; try (by eexists); try (by left); try (by right); try (eexists; split; [reflexivity|]).
  destruct H0; [by rewrite lookup_insert_ne|done].
Defined.

Definition demo_read (d : gmap string string) (n : string) : result string ErrorKind :=
  match d !! n with Some b => Ok b | None => Err NotFound end.
Definition demo_remove (d : gmap string string) (n : string) : gmap string string * result unit ErrorKind :=
  match d !! n with Some _ => (delete n d, Ok tt) | None => (d, Err NotFound) end.

(** The directories are always there, and so is every workspace. *)
#[export] Instance request_host_demo : @RequestHost request_state_dir_demo :=
  Build_RequestHost request_state_dir_demo (Ok "/home/user"%string) (fun _ _ => Ok tt) (fun _ _ => Ok tt) (fun _ _ => Ok tt)
    (fun _ n => Ok ("/home/user/.phantom/" +:+ n)) demo_read (fun d : gmap string string => Ok (map_to_list d).*1) demo_remove
    (fun _ p => Ok p) (fun _ _ => true).

#[export] Instance request_host_demo_laws : RequestHostLaws request_host_demo.
Proof.
  constructor; cbn; unfold demo_read, demo_remove.
  - intros d n b Hr. case_match; naive_solver.
  - intros d l n [= <-] [b Hb]. apply list_elem_of_fmap. exists (n, b). split; [done|]. by apply elem_of_map_to_list.
  - intros d l [= <-]. apply NoDup_fst_map_to_list.
  - intros d n d' r m Hr Hm. case_match; simplify_eq; [|done]. by rewrite lookup_delete_ne.
  - intros d n d' Hr. case_match; simplify_eq. by rewrite lookup_delete_eq.
  - intros d n d' e Hr. case_match; simplify_eq. by left.
Qed.

(** Reading a record back *)
#[local] Instance Deserialize_opt {T} `{Deserialize T} : Deserialize (option T) := fun v =>
  match v with VNull => Some None | _ => field x := v in Some (Some x) end.
#[local] Instance Deserialize_request_kind : Deserialize WorkspaceActionKind := decode_enum
  [RequestInitializeWorkspace; ProtectEnvironment; UpdateIgnoreRules; GenerateEnvironmentExample;
   RequestInstallPreCommitCheck; ConfigureClient; RequestReviewPlaceBinding].
#[local] Instance Deserialize_request_state : Deserialize WorkspaceRequestState :=
  decode_enum [Pending; Claimed; Applied; RolledBack; Failed; Expired].
#[local] Instance Deserialize_outcome : Deserialize WorkspaceExecutionOutcome := decode_enum [InProgress; RecoveryRequired].
#[local] Instance Deserialize_summary : Deserialize SanitizedActionSummary := fun v =>
  match v with
  | VObject [(_, a); (_, b)] => field x := a in field y := b in Some (mk_summary x y)
  | _ => None
  end.
#[local] Instance Deserialize_receipt : Deserialize WorkspaceApplyReceipt := fun v =>
  match v with
  | VObject [(_, a); (_, b); (_, c); (_, d)] =>
      field x1 := a in field x2 := b in field x3 := c in field x4 := d in Some (mk_apply_receipt x1 x2 x3 x4)
  | _ => None
  end.
#[export] Instance Deserialize_record : Deserialize AuthenticatedRecord := fun v =>
  match v with
  | VObject [(_, a1); (_, a2); (_, a3); (_, a4); (_, a5); (_, a6); (_, a7); (_, a8); (_, a9); (_, a10); (_, a11); (_, a12);
             (_, a13)] =>
      field x1 := a1 in field x2 := a2 in field x3 := a3 in field x4 := a4 in field x5 := a5 in field x6 := a6 in
      field x7 := a7 in field x8 := a8 in field x9 := a9 in field x10 := a10 in field x11 := a11 in field x12 := a12 in
      field x13 := a13 in Some (mk_authenticated (mk_status x1 x2 x3 x4 x5 x6 x7 x8 x9 x10 x11 x12) x13)
  | _ => None
  end.

Lemma decodes_option {T} `{Decodes T} : (∀ x : T, to_value x ≠ VNull) → Decodes (option T).
Proof.
  intros Hn [x|]; [|done]. unfold from_value at 1, Deserialize_opt, to_value at 1. cbn. specialize (Hn x).
  pose proof (from_to_value x) as Hx. destruct (to_value x); try done; by rewrite Hx.
Qed.

#[local] Instance Decodes_request_kind : Decodes WorkspaceActionKind.
Proof. by intros []. Qed.
#[local] Instance Decodes_request_state : Decodes WorkspaceRequestState.
Proof. by intros []. Qed.
#[local] Instance Decodes_outcome : Decodes WorkspaceExecutionOutcome.
Proof. by intros []. Qed.
#[local] Instance Decodes_summary : Decodes SanitizedActionSummary.
Proof. decode_fields Serialize_action_summary Deserialize_summary. Qed.
#[local] Instance Decodes_receipt : Decodes WorkspaceApplyReceipt.
Proof. decode_fields Serialize_apply_receipt Deserialize_receipt. Qed.
#[local] Instance Decodes_opt_N : Decodes (option N).
Proof. by apply decodes_option. Qed.
#[local] Instance Decodes_opt_outcome : Decodes (option WorkspaceExecutionOutcome).
Proof. by apply decodes_option. Qed.
#[local] Instance Decodes_opt_receipt : Decodes (option WorkspaceApplyReceipt).
Proof. by apply decodes_option. Qed.
#[local] Instance Decodes_record : Decodes AuthenticatedRecord.
Proof.
  intros [[] auth]. unfold from_value at 1, Deserialize_record, to_value at 1, Serialize_authenticated, basis_fields. cbn [app ar_basis].
  cbv beta iota; repeat (rewrite from_to_value; cbv beta iota); reflexivity.
Qed.

Lemma demo_read_back (r : AuthenticatedRecord) : in_range (ar_basis r) → from_slice (json_to_vec (to_value r)) = Some r.
Proof. intros _. apply (decodes_round_trip AuthenticatedRecord). Qed.

(** ** A request, claimed and completed *)

Definition request_demo_world : request_world := mk_request_world (∅ : gmap string string) (∅ : gmap string string).
Definition request_demo_plan : string := demo_hex_encode (fit 32 "plan").
Definition request_demo_pre_state : string := demo_hex_encode (fit 32 "pre-state").
Definition request_demo_create : request_call :=
  CallCreate "/work" request_demo_plan request_demo_pre_state (summary_new [ProtectEnvironment; RequestInitializeWorkspace])
    1000 (fit 32 "key") (fit 32 "request").
Definition request_demo_claim : request_call :=
  CallClaim (demo_hex_encode (fit 32 "request")) "/work" request_demo_plan request_demo_pre_state 1100.
Definition request_demo_complete : request_call :=
  CallFinish Complete (demo_hex_encode (fit 32 "request")) "/work" request_demo_plan request_demo_pre_state 1200.

Definition after_call (c : request_call) (w : request_world) : request_world := (run c w).1.
Definition entry_of (w : request_world) (c : request_call) : entry := (w, c, (run c w).2).

Lemma history_next w0 h w c : history w0 h w → call_fresh h c → history w0 (h ++ [entry_of w c]) (after_call c w).
Proof. intros Hh Hf. apply (history_snoc w0 h); [done|done|]. unfold after_call. by destruct (run c w). Qed.

Lemma request_demo_none : no_requests request_demo_world.
Proof. by constructor. Qed.

Lemma request_demo_fresh : call_fresh [] request_demo_create.
Proof. split; [done|]. split_and!; [apply fit_length|apply fit_length|done|constructor]. Qed.

Lemma request_demo_created : history request_demo_world [entry_of request_demo_world request_demo_create]
  (after_call request_demo_create request_demo_world).
Proof. apply (history_next _ []); [constructor|apply request_demo_fresh]. Qed.

Definition request_demo_history : list entry :=
  let w1 := after_call request_demo_create request_demo_world in
  let w2 := after_call request_demo_claim w1 in
  [entry_of request_demo_world request_demo_create; entry_of w1 request_demo_claim; entry_of w2 request_demo_complete].
Definition request_demo_end : request_world :=
  after_call request_demo_complete (after_call request_demo_claim (after_call request_demo_create request_demo_world)).

Lemma request_demo_run : history request_demo_world request_demo_history request_demo_end.
Proof.
  apply (history_next _ [_; _]); [|done]. apply (history_next _ [_]); [|done]. apply request_demo_created.
Qed.

Lemma requests_refine_witness :
  (run request_demo_complete (after_call request_demo_claim (after_call request_demo_create request_demo_world))).2 =
    Ok (inr (transitioned Applied None 1200 (transitioned Claimed None 1100
      (new_request (demo_hex_encode (fit 32 "request")) (sha256_hex ("phantom.workspace-scope.v1" +:+ nul +:+ "/work"))
         request_demo_plan request_demo_pre_state (mk_summary 2 [RequestInitializeWorkspace; ProtectEnvironment]) 1000)))) ∧
  ∃ l, holds request_demo_end l ∧ ledger_history request_demo_history l ∧
    ∀ scope, (pending_count scope l <= MAX_PENDING_PER_WORKSPACE)%nat.
Proof.
  split; [vm_compute; reflexivity|].
  apply (requests_refine demo_read_back request_demo_world request_demo_end request_demo_history request_demo_none request_demo_run).
Defined.

Definition request_demo_claimed : request_world * result WorkspaceRequestStatus WorkspaceRequestError :=
  claim_exact (demo_hex_encode (fit 32 "request")) "/work" request_demo_plan request_demo_pre_state 1100
    (after_call request_demo_create request_demo_world).

Lemma request_claimed_once_witness :
  Forall (fun e => ¬ claims (demo_hex_encode (fit 32 "request")) e) [entry_of request_demo_world request_demo_create] ∧
  ∃ w1 workspace1 summary created fresh_key fresh r1 scope,
    (w1, CallCreate workspace1 request_demo_plan request_demo_pre_state summary created fresh_key fresh, r1) ∈
      [entry_of request_demo_world request_demo_create] ∧
    demo_hex_encode (fit 32 "request") = hex_encode fresh ∧ workspace_scope_hash workspace1 w1 = (w1, Ok scope) ∧
    workspace_scope_hash "/work" (after_call request_demo_create request_demo_world) =
      (after_call request_demo_create request_demo_world, Ok scope) ∧
    (1100 < saturating_add_u64 created REQUEST_TTL_SECS)%N.
Proof.
  apply (request_claimed_once demo_read_back request_demo_world (after_call request_demo_create request_demo_world)
    request_demo_claimed.1 [entry_of request_demo_world request_demo_create] (demo_hex_encode (fit 32 "request")) "/work"
    request_demo_plan request_demo_pre_state 1100
    (transitioned Claimed None 1100 (new_request (demo_hex_encode (fit 32 "request"))
       (sha256_hex ("phantom.workspace-scope.v1" +:+ nul +:+ "/work")) request_demo_plan request_demo_pre_state
       (mk_summary 2 [RequestInitializeWorkspace; ProtectEnvironment]) 1000))).
  - apply request_demo_none.
  - apply request_demo_created.
  - done.
  - vm_compute. reflexivity.
Defined.
